(* ===== verification/_CoqProject ===== *)
-Q . S2P
Prelude.v
CMetaType.v
CMetaFunction.v
CMetaInterface.v
CMetaData.v
CMetaOperation.v
CMetaObject.v
CMetaComponent.v
Configurator.v
ConfiguratorPlan.v
ConfiguratorLifecycle.v
ConfiguratorProtocol.v
PluginManifest.v
PluginRegistry.v
RegistryInvariant.v
RegistryApi.v
RegistryProtocol.v
ServiceHost.v
ServiceHostLeases.v
ServiceHostBuild.v
ServiceHostRuntime.v
ServiceHostProtocol.v
ServiceHostSystem.v
ServiceHostRegistry.v
ServiceHostTheorems.v
CFlowSupport.v
CFlowMachine.v
CFlowMachineReach.v
CFlowMailbox.v
CFlowMailboxTheorems.v
CFlowProgram.v
CFlowInstanceData.v
CFlowInstance.v
CFlowInstanceSafety.v
CFlowInstanceProtocol.v
CFlowInstanceBuild.v
CFlowInstanceTheorems.v
CstlSupport.v
CstlObjects.v
CstlHashMap.v
CstlHashMapInvariant.v
CstlHashMapRehash.v
CstlHashMapOps.v
CstlHashMapTheorems.v
CstlHashSet.v
CstlHashSetTheorems.v
CstlSequence.v
CstlSequenceSpecs.v
CstlVec.v
CstlVecOps.v
CstlVecTheorems.v
CstlHeap.v
CstlMerge.v
CstlHeapOps.v
CstlHeapTheorems.v
CstlSort.v
CstlSortTheorems.v
CstlChain.v
CstlList.v
CstlListTheorems.v
CstlDeque.v
CstlDequeTheorems.v
CstlRbTree.v
CstlRbShape.v
CstlRbBalance.v
CstlRbLinks.v
CstlRbOps.v
CstlMap.v
CstlMapOps.v
CstlMapTheorems.v
CstlSet.v
CstlSetTheorems.v
CMetaSamples.v
CstlSamples.v
CstlMapSamples.v
PluginSamples.v
ConfiguratorSamples.v
ServiceHostSamples.v
CFlowSamples.v
