(* ===== verification/Prelude.v ===== *)
(** * A verification of the Salts component runtime

    Salts (src/) is a C library for composing programs from components that
    describe themselves.  This development models the layers that decide whether a
    composition is admitted and keep it alive, and the core of the event machines
    that run inside it, and proves them correct:

    - CMeta (src/cmeta): immutable descriptors of types, functions, interfaces,
      data and components; references to objects that carry such descriptors.
    - Plugin (src/plugin): the manifest a shared library publishes, and the
      registry that loads, starts, leases, stops and unloads such libraries for
      any number of threads.
    - Configurator (src/component-runtime): a bounded graph of deployed
      components, resolved to an activation order, started and stopped.
    - ServiceHost (src/component-runtime): generations of a graph built from
      leased plugins, published in a runtime, pinned by scopes, and drained.
    - CFlow (src/cflow): definitions of finite machines over typed events, bounded
      mailboxes, and machine instances that a worker task of an executor runs.
    - cstl (src/cstl): containers whose elements are objects of a CMeta type, kept
      alive through the trait callbacks of the type; here its hash map and hash set,
      vector, linked list, heap, double-ended queue, stable sort, and the map, multimap
      and set that are red-black trees.

    Plugins and components meet in the descriptors: a manifest row carries an
    interface or a component binding, the registry hands out leases on it, and
    the Configurator matches requirements with [cmeta_interface_desc_equal] and
    reaches instances through [cmeta_object_ref].  A ServiceHost generation takes
    leases from the registry, hands the providers it finds to the Configurator,
    and gives the leases back only after the Configurator has ended the graph.
    A machine instance owns a mailbox for the events of its machine, whose types
    are CMeta types; producers, a consumer and the executor meet in it.

    ** Files

    - [Prelude] (this file): widths of machine integers, C strings, the loops over
      an array and a count, guards, counting, tactics.
    - [CMetaType] (type_identity.c, cmeta.c, abi.c), [CMetaFunction] (function.c),
      [CMetaInterface] (interface.h, interface.c), [CMetaData] (the descriptor
      half of data.c, enum.c, struct.h), [CMetaOperation] (operation.c),
      [CMetaObject] (object.c, object_interface.h), [CMetaComponent]
      (component.c): one file per translation unit.  Validators and equality are
      bool functions with the guards of the code; [CMetaObject] also has the
      lifetimes and field access of live objects.
    - [PluginManifest] (plugin.c), [PluginRegistry] (plugin_registry.c,
      plugin_posix.c): each critical section under the registry lock is one
      definition on [registry_impl]; the public operations compose them with the
      callbacks of a [host].
    - [RegistryInvariant], [RegistryApi], [RegistryProtocol]: the invariant every
      critical section keeps, the operations of one thread, and any interleaving
      of threads as a step relation.
    - [Configurator] (configurator.c, configurator_abi.h): contexts, the caller's
      arrays as a [storage], every operation.
    - [ConfiguratorPlan], [ConfiguratorLifecycle], [ConfiguratorProtocol]:
      resolution, start and stop, and sequences of public calls; what all callbacks
      keep, [start] and [stop] keep.
    - [ServiceHost] (service_host_provider_abi.h, service_host.c up to [recover]),
      [ServiceHostRuntime] (the rest of
      service_host.c, service_host_runtime.c, service_host_abi.c): generations,
      then runtimes and scopes in a [host_memory].  The registry is an interface
      here, the class [LeaseRegistry].
    - [ServiceHostLeases] (the laws [LeaseLaws] of that interface and the lease
      tables), [ServiceHostBuild] (the publication check; build, discard, recover),
      [ServiceHostProtocol] (the admission invariant under each call),
      [ServiceHostSystem] (all interleavings, what is reachable),
      [ServiceHostRegistry] (the Plugin registry as an instance of the laws),
      [ServiceHostTheorems] (the properties).
    - [CFlowSupport] (the searches, sort and size checks the sources repeat),
      [CFlowMachine] (machine.c), [CFlowMachineReach]: what
      [cflow_machine_build] admits.
    - [CFlowMailbox] (event.c), [CFlowMailboxTheorems] (the bounded queue it refines).
    - [CFlowProgram]: functions that lock, call out and lock again as trees of
      atomic sections, the step relation of a serial task with client threads, and
      the adequacy of a protocol that every program is checked against once.
    - [CFlowInstanceData], [CFlowInstance] (machine_instance.c), [CFlowInstanceSafety] and [CFlowInstanceProtocol] (the
      invariant, what a thread may rely on, and that every program respects both),
      [CFlowInstanceBuild] (initialisation), [CFlowInstanceTheorems] (the choice of a
      transition, the properties).
    - [CstlSupport] (sequence_internal.h): objects, allocations and the monad of
      functions that work on them; [CstlObjects]: what those functions do, as
      weakest preconditions that count the blocks and objects that come and go.
    - [CstlHashMap] (hash_map.c, hash_map.h); [CstlHashMapInvariant] (probing, changes
      of one slot, the finite map up to the order of entries), [CstlHashMapRehash]
      (sizes, moving to a new table), [CstlHashMapOps] (each operation),
      [CstlHashMapTheorems]; [CstlHashSet] (hash_set.c, hash_set.h, over that map),
      [CstlHashSetTheorems].
    - [CstlChain] (doubly linked cells: how pointers are set, what they spell), [CstlList]
      (list.c, list.h), [CstlListTheorems].
    - [CstlSequence] (vec_memory.h, allocator.h and the functions vec.c and heap.c
      repeat): an array of objects that grows, and its storage; [CstlSequenceSpecs]
      (what they do to an array that holds a list); [CstlVec] (vec.c, vec.h,
      vec_alloc.h), [CstlVecOps] (each operation), [CstlVecTheorems]; [CstlHeap]
      (heap.c, heap.h), [CstlHeapOps] (heap order on lists, each operation),
      [CstlHeapTheorems].
    - [CstlSort] (sort.c), [CstlMerge] (stable sorting of lists),
      [CstlSortTheorems].
    - [CstlDeque] (deque.c, deque.h), [CstlDequeTheorems] (a ring that holds a list, each
      operation).
    - [CstlRbTree] (rbtree.c, rbtree_internal.h): nodes in a finite map of addresses;
      [CstlRbShape] (trees with a hole, how pointers spell them), [CstlRbBalance] (the
      two repairs, colours and black heights), [CstlRbLinks] (the list that threads the
      nodes), [CstlRbOps] (descents among sorted keys, each operation).
    - [CstlMap] (map.c, map.h, multimap.c, multimap.h; what they have in common takes a
      flag for equal keys), [CstlMapOps] (each operation on sorted entries),
      [CstlMapTheorems]; [CstlSet] (set.c, set.h), [CstlSetTheorems].
    - [CMetaSamples], [CstlSamples], [CstlMapSamples], [PluginSamples],
      [ConfiguratorSamples], [ServiceHostSamples], [CFlowSamples]: concrete descriptors, containers, plugins, deployments, hosts and machines, and
      the theorems applied to them;
      [CFlowSamples] also has three histories in which the code loses a wake-up.

    ** How the code is read

    A descriptor is reached through [const] pointers and never changes, so it is
    a tree; [option] is a pointer that may be NULL.  Because the equality
    functions begin with a pointer comparison, a node carries its address, and a
    theorem that needs it says that equal addresses among the nodes it speaks of
    are equal nodes.  Counts of descriptors are [nat]; [size_t] and fixed-width
    arithmetic that can wrap is in [Z] with the reduction written out, and sizes
    of structures are those of LP64.  Reading past an array makes a predicate
    [false] and an operation [None]; the safety theorems show that [None] never
    happens from the states the library can be in.  The loops of the code are
    bounded by the counts they recurse on, and the walks over type graphs by the
    trees.  A binary search has the row count as fuel and the traversal of
    reachable states the number of states, which the theorems on them show to be
    enough; the worker task makes at most 64 rounds, as in the code.  A waker may
    be the instance's own, which schedules the task and can only fail into a
    nested wake: two levels of it are modelled, and [instance_never_stuck] shows
    that there is never a third.

    Code that is not in the repository is a parameter: a plugin's callbacks and
    the loader are the fields of a [host] (or answer anything, in
    [RegistryProtocol]); native callbacks of objects and providers are the type
    classes [ObjectCallbacks] and [ProviderCallbacks] over an arbitrary world [W].
    No law is assumed of them, except that ServiceHost theorems assume that
    component callbacks leave the registries sound and give back no lease of the
    host ([WorldFrame], [ProviderFrame] for the relation [keeps_leases]).  The
    callbacks that end a component ([deactivate], and [release] or [destroy] of its
    object) may write any reference in the instance array of their own graph
    ([pc_written], applied by [callback_wrote] after each of them), so that a stop
    can find an instance unsettled; [create] writes the reference it is handed,
    [activate] and the projections none.  The owner of a graph that was left
    unsettled may rewrite its arrays ([step_repair]).  The
    guards, actions and hooks of a machine, the executor and the error allocator
    are the class [MachineEnvironment]; actions must keep to the buffers they are
    handed, and [select_transition_exact] needs pure guards, as the contract of
    machine.h asks.  A callback that calls the instance again is a client thread
    that moves at that moment.  [qsort] is the class [Qsort] with its law.
    The trait callbacks of containers are the class [ObjectTraits]; [TraitLaws] and
    [HashLaws] state what type_traits.h and hash_map.h ask of them: copies and moves
    mean what their source meant, equality of keys is an equivalence that hashes
    respect.  Ordered
    containers need the comparison of a type to be a three-way total order
    ([CompareLaws]).  [malloc] may fail at any call.  A place for an object is a [cell];
    constructing over a live object, or destroying or reading raw memory, is
    undefined.  The arrays of a table are lists, and [hash_map_layout_disjoint]
    shows that the offsets the code computes keep them apart.  The doubling loop of
    [hash_buckets_for_entries] has 64 rounds as fuel, which [hash_map_buckets_exact]
    shows it never uses up.  So do the growth of an array, which doubles from at least
    one ([double_capacity_spec]), and the sifts of a heap, whose index halves or doubles
    in a round ([sift_up_spec], [sift_down_spec]); the theorems on heaps ask for fewer
    than [2 ^ 63] objects, beyond which the index of a right child wraps
    ([right_child_wraps]).  The passes of the sort recurse on the counts of the code.
    A node of a tree is an address in a finite map, and following a pointer to a node
    that is gone is [None]; [child] and [set_child] with a [side] stand for the two
    mirrored halves of every repair of rbtree.c.  The loops of a tree have more fuel
    than it has nodes ([enough]), which the specification of each shows it does not use
    up, and [ordered_search_logarithmic] bounds the descents closely.  An iterator is
    its container's generation and a node.  The ring of a double-ended queue is its
    array of cells and the slot of its head; the theorems on it ask for a limit up to
    [RING_LIMIT], [2 ^ 63] objects, beyond which [head + offset] could wrap.
    The callbacks of a [stl_allocator] are the class [AllocatorCalls]; nothing is asked
    of them, and a block remembers whether an allocator gave it out.  A pointer to an
    element is the number of its slot; an element argument is what the caller's pointer
    refers to at the call, which the code copies before it moves anything.  The object
    whose bytes are zero is a parameter, [zero_object].

    ** What is proved

    - Admission: manifests, data layouts, projections, borrowed services,
      contracts and receiver calls are accepted exactly when they are well
      formed; equality of descriptors is equality of canonical forms.
    - The registry: its invariant under any interleaving; leases pin plugins,
      callbacks pin slots, tokens are consumed once, stale references are
      refused, destruction happens alone and in slot order.
    - Objects: a lifetime ends exactly once, fixed fields stay in bounds, admitted
      bindings behave as the named access they replace.
    - The Configurator: [resolve] finds an order exactly when there is one;
      providers are active before their consumers are built and end after them;
      a failed start undoes what it did; a stop ends every component once and
      is refused only over a reference that a callback left behind; no sequence of
      calls breaks the invariant of a context or leaves the caller's arrays.
    - The ServiceHost: a build ends with a valid graph and exactly the leases it
      needs, or gives back what it took once its components are settled; under any
      interleaving a scope keeps its generation and its plugins, the counters are
      exact, every call has an outcome and accounts for every lease, and a drain
      gives back exactly its leases.  Every attached generation can be retired, if
      need be after its owner has emptied a reference that a callback left.
    - CFlow: a machine is built exactly from well-formed definitions; a mailbox is
      a bounded queue that loses no event and no wake-up; under any interleaving an
      instance never leaves its storage, accounts for every event and commits nothing
      after cancellation.
    - cstl: a hash map is a finite map under any sequence of calls, whatever the
      allocator answers; it leaks and loses no object, failures change nothing, and
      its sizes do not wrap.  In the same sense a hash set is a finite set, a vector is a list, with the default
      and with its own allocator, a heap is a priority queue, a double-ended queue a
      list with two ends, a linked list a list of places at which iterators stay, and a map, a multimap and a set are sorted lists, whose
      trees stay balanced; [stable_sort] is stable insertion sort or changes nothing.

    ** What is not modelled

    The value operations of data.c, the callable and inference parts of CMeta,
    the paged trees and adapters of cstl and its bindings to the container
    protocols of CMeta, and the rest of CFlow (actors, graphs, statecharts,
    subscriptions, I/O); the Windows loader; allocation failure outside the registry, CFlow and cstl; the
    destruction of a running machine instance, which drains its executor.
    Of the ServiceHost: the mutex itself (its critical sections are steps), two
    generations that share arrays, callbacks that call back into the host or write
    the arrays of another graph, NULL result pointers, and a scope copied back onto the dead object it came from. *)

From stdpp Require Export base tactics option list list_numbers numbers strings gmap.
From Stdlib Require Export ZArith Lia Ascii.

#[global] Open Scope Z_scope.

Create HintDb salts.
Create Rewrite HintDb salts_loops.
Create Rewrite HintDb salts_arith.

(** * Machine integers *)

(** [size_t] and [uint64_t] are 64 bits wide and [uint32_t] is 32 bits wide on
    every target the build files name; values are kept in [Z] and every
    arithmetic operation reduces modulo the width. *)
Definition SIZE_MAX : Z := 2 ^ 64 - 1.
Definition UINT64_MAX : Z := 2 ^ 64 - 1.
Definition UINT32_MAX : Z := 2 ^ 32 - 1.

Definition u32 (z : Z) : Z := z mod 2 ^ 32.
Definition u64 (z : Z) : Z := z mod 2 ^ 64.

(** [++x] and [--x] on a [size_t] field. *)
Definition size_inc (z : Z) : Z := u64 (z + 1).
Definition size_dec (z : Z) : Z := u64 (z - 1).

Definition is_size (z : Z) : Prop := 0 <= z <= SIZE_MAX.
Definition is_u32 (z : Z) : Prop := 0 <= z <= UINT32_MAX.

Lemma size_inc_small z : 0 <= z < SIZE_MAX -> size_inc z = z + 1.
Proof. unfold size_inc, u64, SIZE_MAX. intros. apply Z.mod_small. lia. Qed.

Lemma size_dec_small z : 0 < z <= SIZE_MAX -> size_dec z = z - 1.
Proof. unfold size_dec, u64, SIZE_MAX. intros. apply Z.mod_small. lia. Qed.

Lemma size_dec_inc z : 0 <= z < SIZE_MAX -> size_dec (size_inc z) = z.
Proof.
  intros Hz. rewrite size_inc_small by done.
  rewrite size_dec_small; unfold SIZE_MAX in *; lia.
Qed.

#[export] Hint Rewrite size_inc_small size_dec_small using lia : salts_arith.

(** Masking the padding off rounds down to a multiple of a power of two. *)
Lemma mask_low_bits x k :
  0 <= k <= 64 -> 0 <= x < 2 ^ 64 -> Z.land x (u64 (Z.lnot (2 ^ k - 1))) = x / 2 ^ k * 2 ^ k.
Proof.
  intros Hk Hx.
  assert (u64 (Z.lnot (2 ^ k - 1)) = Z.ldiff (Z.ones 64) (Z.ones k)) as ->.
  { unfold u64. rewrite <- Z.land_ones by lia. rewrite Z.ldiff_land, Z.land_comm. f_equal. f_equal.
    by rewrite Z.ones_equiv, Z.sub_1_r. }
  rewrite !Z.ldiff_land, Z.land_assoc, Z.land_ones, Z.mod_small by lia.
  rewrite <- Z.ldiff_land, Z.ldiff_ones_r, Z.shiftl_mul_pow2, Z.shiftr_div_pow2 by lia. done.
Qed.

Lemma round_up_bounds size a :
  0 < a -> let r := (size + (a - 1)) / a * a in size <= r < size + a /\ r mod a = 0.
Proof.
  intros Ha. cbn zeta. pose proof (Z.div_mod (size + (a - 1)) a ltac:(lia)) as Hd.
  pose proof (Z.mod_pos_bound (size + (a - 1)) a Ha). split; [nia|]. apply Z.mod_mul. lia.
Qed.

(** * Pointers and C strings *)

(** The address of an immutable object, the part of it that [==] compares. *)
Abbreviation addr := Z (only parsing).

(** A [const T *] parameter: [None] is the null pointer. *)
Definition is_null {A} (p : option A) : bool :=
  match p with Some _ => false | None => true end.

Lemma is_null_false {A} (p : option A) : is_null p = false <-> is_Some p.
Proof. destruct p; simpl; split; intros H; [eauto | done | done | by destruct H]. Qed.

Lemma is_null_true {A} (p : option A) : is_null p = true <-> p = None.
Proof. by destruct p. Qed.

(** [const char *]: [None] is NULL, [Some s] points at the characters of [s]
    followed by a terminating NUL. *)
Abbreviation cstr := (option string) (only parsing).

Definition NUL : ascii := Ascii.zero.

Definition char_eqb (a b : ascii) : bool := Ascii.eqb a b.

(** [value[index]]. *)
Definition char_at (s : string) (index : nat) : ascii :=
  match String.get index s with Some c => c | None => NUL end.

(** The text of a C string: what comes before the first NUL. *)
Fixpoint c_text (s : string) : string :=
  match s with
  | EmptyString => EmptyString
  | String c s' => if char_eqb c NUL then EmptyString else String c (c_text s')
  end.

(** [strcmp (a, b) == 0]. *)
Fixpoint strcmp_eq (a b : string) : bool :=
  match a, b with
  | EmptyString, EmptyString => true
  | EmptyString, String c _ => char_eqb c NUL
  | String c _, EmptyString => char_eqb c NUL
  | String c a', String d b' =>
      if char_eqb c d then (if char_eqb c NUL then true else strcmp_eq a' b') else false
  end.

(** [s != NULL && s[0] != '\0'], the test the descriptors repeat. *)
Definition c_nonempty (s : cstr) : bool :=
  match s with Some s => negb (char_eqb (char_at s 0) NUL) | None => false end.

Lemma char_eqb_true a b : char_eqb a b = true <-> a = b.
Proof. apply Ascii.eqb_eq. Qed.

Lemma char_eqb_refl a : char_eqb a a = true.
Proof. by apply char_eqb_true. Qed.

Lemma strcmp_eq_text a b : strcmp_eq a b = true <-> c_text a = c_text b.
Proof.
  revert b. induction a as [|c a IH]; intros [|d b]; simpl; [done| | |].
  - destruct (char_eqb d NUL); split; congruence.
  - destruct (char_eqb c NUL); split; congruence.
  - destruct (char_eqb c d) eqn:Hcd.
    + apply char_eqb_true in Hcd as ->.
      destruct (char_eqb d NUL); [done|]. rewrite IH. split; congruence.
    + split; [done|]. intros Heq.
      destruct (char_eqb c NUL) eqn:Hc, (char_eqb d NUL) eqn:Hd; try done.
      * apply char_eqb_true in Hc as ->. apply char_eqb_true in Hd as ->.
        by rewrite char_eqb_refl in Hcd.
      * injection Heq as -> _. by rewrite char_eqb_refl in Hcd.
Qed.

Lemma strcmp_eq_refl a : strcmp_eq a a = true.
Proof. by apply strcmp_eq_text. Qed.

Lemma strcmp_eq_sym a b : strcmp_eq a b = strcmp_eq b a.
Proof.
  apply eq_true_iff_eq. rewrite !strcmp_eq_text. split; congruence.
Qed.

Lemma strcmp_eq_trans a b c :
  strcmp_eq a b = true -> strcmp_eq b c = true -> strcmp_eq a c = true.
Proof. rewrite !strcmp_eq_text. congruence. Qed.

#[export] Hint Resolve strcmp_eq_refl strcmp_eq_trans : salts.

(** * Loops over an array and a count *)

(** [for (i = 0; i < count; ++i) if (!f(&rows[i])) return false; return true;]
    A count past the end of the array is undefined behaviour in C; the loop
    answers [false] there, so that what passes a validator is in bounds. *)
Fixpoint forallb_upto {A} (f : A -> bool) (rows : list A) (count : nat) : bool :=
  match rows, count with
  | _, O => true
  | x :: rows', S n => f x && forallb_upto f rows' n
  | [], S _ => false
  end.

(** The first [count] rows mapped through [f]. *)
Fixpoint map_upto {A B} (f : A -> B) (rows : list A) (count : nat) : list B :=
  match rows, count with
  | x :: rows', S n => f x :: map_upto f rows' n
  | _, _ => []
  end.

(** The rows a [(pointer, count)] pair denotes. *)
Definition rows {A} (p : option (list A)) (count : Z) : list A :=
  take (Z.to_nat count) (default [] p).

(** The same loop with the rows before the current one in scope, for the
    nested [for (j = 0; j < i; ++j)] scans. *)
Fixpoint forallb_prev {A} (f : list A -> A -> bool) (before rest : list A) : bool :=
  match rest with
  | [] => true
  | x :: rest' => f before x && forallb_prev f (before ++ [x]) rest'
  end.

(** [for (i = 0; i < n; ++i) if (!f i) return false; return true;] *)
Definition forall_below (n : nat) (f : nat -> bool) : bool := forallb f (seq 0 n).

(** The first index below [n] that satisfies [f]. *)
Fixpoint find_from (f : nat -> bool) (start n : nat) : option nat :=
  match n with
  | O => None
  | S n' => if f start then Some start else find_from f (S start) n'
  end.

Definition find_below (n : nat) (f : nat -> bool) : option nat := find_from f 0 n.

Lemma forallb_upto_true {A} (f : A -> bool) l n :
  forallb_upto f l n = true <->
  (n <= length l)%nat /\ forall i x, (i < n)%nat -> l !! i = Some x -> f x = true.
Proof.
  revert n. induction l as [|x l IH]; intros [|n]; simpl.
  - split; [|done]. intros _. split; [lia|]. intros; lia.
  - split; [done|]. intros [? _]; lia.
  - split; [|done]. intros _. split; [lia|]. intros; lia.
  - rewrite andb_true_iff, IH. split.
    + intros (Hx & Hn & Hall). split; [lia|]. intros [|i] y Hi; simpl; [by intros [= <-]|].
      apply Hall; lia.
    + intros (Hn & Hall). split_and!; [apply (Hall 0%nat); [lia|done]|lia|].
      intros i y Hi Hy. apply (Hall (S i)); [lia|done].
Qed.

Lemma map_upto_0 {A B} (f : A -> B) l : map_upto f l 0 = [].
Proof. by destruct l. Qed.

Lemma forallb_upto_take {A} (f : A -> bool) l n :
  (n <= length l)%nat -> forallb_upto f l n = forallb f (take n l).
Proof.
  revert n. induction l as [|x l IH]; intros [|n] Hn; simpl in *; [done|lia|done|]. rewrite IH; [done|lia].
Qed.

Lemma map_upto_length {A B} (f : A -> B) (g : A -> bool) l n :
  forallb_upto g l n = true -> length (map_upto f l n) = n.
Proof.
  revert n. induction l as [|x l IH]; intros [|n]; simpl; [done..|].
  intros [_ ?]%andb_true_iff. by rewrite IH.
Qed.

Lemma map_upto_take {A B} (f : A -> B) l n : map_upto f l n = map f (take n l).
Proof. revert n; induction l as [|x l IH]; intros [|n]; simpl; [done..|by rewrite IH]. Qed.

Lemma forallb_true {A} (f : A -> bool) l :
  forallb f l = true <-> forall x, x ∈ l -> f x = true.
Proof. rewrite forallb_forall. by setoid_rewrite list_elem_of_In. Qed.

Lemma forallb_prev_spec {A} (f : list A -> A -> bool) l1 l2 :
  forallb_prev f l1 l2 = true <->
  forall k x, l2 !! k = Some x -> f (l1 ++ take k l2) x = true.
Proof.
  revert l1. induction l2 as [|y l2 IH]; intros l1; simpl; [done|].
  rewrite andb_true_iff, IH. split.
  - intros [Hy Hrest] [|k] x; simpl; intros Hk.
    + injection Hk as <-. by rewrite app_nil_r.
    + specialize (Hrest k x Hk). by rewrite <- app_assoc in Hrest.
  - intros H. split.
    + specialize (H 0%nat y eq_refl). simpl in H. by rewrite app_nil_r in H.
    + intros k x Hk. specialize (H (S k) x Hk). simpl in H. by rewrite <- app_assoc.
Qed.

Lemma forall_below_true n f :
  forall_below n f = true <-> forall i, (i < n)%nat -> f i = true.
Proof.
  unfold forall_below. rewrite forallb_true. split; intros H i Hi.
  - apply H. apply elem_of_seq. lia.
  - apply elem_of_seq in Hi. apply H. lia.
Qed.

Lemma find_from_Some f s n i :
  find_from f s n = Some i <->
  (s <= i < s + n)%nat /\ f i = true /\ forall j, (s <= j < i)%nat -> f j = false.
Proof.
  revert s. induction n as [|n IH]; intros s; simpl.
  - split; [done|]. intros [? _]; lia.
  - destruct (f s) eqn:Hs.
    + split.
      * injection 1 as <-. split_and!; [lia|lia|done|]. intros; lia.
      * intros (Hi & Hfi & Hbefore). destruct (decide (i = s)) as [->|]; [done|].
        rewrite Hbefore in Hs; [done|lia].
    + rewrite IH. split.
      * intros (Hi & Hfi & Hbefore). split_and!; [lia|lia|done|].
        intros j Hj. destruct (decide (j = s)) as [->|]; [done|]. apply Hbefore; lia.
      * intros (Hi & Hfi & Hbefore).
        assert (i <> s) by congruence. split_and!; [lia|lia|done|].
        intros j Hj. apply Hbefore; lia.
Qed.

Lemma find_below_Some n f i :
  find_below n f = Some i <->
  (i < n)%nat /\ f i = true /\ forall j, (j < i)%nat -> f j = false.
Proof.
  unfold find_below. rewrite find_from_Some. split.
  - intros (? & ? & Hb). split_and!; [lia|done|]. intros; apply Hb; lia.
  - intros (? & ? & Hb). split_and!; [lia|lia|done|]. intros; apply Hb; lia.
Qed.

Lemma find_from_None f s n :
  find_from f s n = None <-> forall j, (s <= j < s + n)%nat -> f j = false.
Proof.
  revert s. induction n as [|n IH]; intros s; simpl.
  - split; [intros; lia|done].
  - destruct (f s) eqn:Hs.
    + split; [done|]. intros H. rewrite H in Hs; [done|lia].
    + rewrite IH. split; intros H j Hj.
      * destruct (decide (j = s)) as [->|]; [done|]. apply H; lia.
      * apply H; lia.
Qed.

Lemma find_below_None n f :
  find_below n f = None <-> forall j, (j < n)%nat -> f j = false.
Proof.
  unfold find_below. rewrite find_from_None. split; intros H j Hj; apply H; lia.
Qed.

#[export] Hint Rewrite @map_upto_take : salts_loops.

(** A guard [if (b) return false;] followed by the rest of a predicate. *)
Lemma guard_true (b c : bool) : (if b then false else c) = true <-> b = false /\ c = true.
Proof. destruct b; split; [done|by intros []|done|by intros []]. Qed.

Lemma negb_if (b c : bool) : (if negb b then false else c) = true <-> b = true /\ c = true.
Proof. destruct b; split; [done|by intros []|done|by intros []]. Qed.

Lemma forallb_upto_zip {A B} (f : A -> B -> bool) l k n :
  forallb_upto (fun ab => f (fst ab) (snd ab)) (zip l k) n = true <->
  (n <= length l)%nat /\ (n <= length k)%nat /\
  Forall2 (fun a b => f a b = true) (take n l) (take n k).
Proof.
  assert (forall P Q : Prop, P -> Q -> (P <-> Q)) as Hboth by tauto.
  assert (forall P Q : Prop, ~ P -> ~ Q -> (P <-> Q)) as Hneither by tauto.
  revert k n. induction l as [|x l IH]; intros [|y k] [|n]; simpl.
  1, 3, 5, 7: apply Hboth; [done|split_and!; [lia..|constructor]].
  1, 2, 3: apply Hneither; [done|intros (? & ? & ?); lia].
  rewrite andb_true_iff, IH, Forall2_cons. clear. intuition lia.
Qed.

(** Distinct from everything before it, row by row, is having no duplicates. *)
Lemma NoDup_prefix {A B} (f : A -> B) (l : list A) :
  NoDup (f <$> l) <->
  forall i x, l !! i = Some x -> forall y, y ∈ take i l -> f x <> f y.
Proof.
  rewrite NoDup_alt. split.
  - intros H i x Hi y (j & Hj)%list_elem_of_lookup Heq.
    apply lookup_take_Some in Hj as [Hj Hlt].
    specialize (H i j (f x)). rewrite !list_lookup_fmap, Hi, Hj in H.
    rewrite H in Hlt; [lia|done|by rewrite Heq].
  - intros H i j z. rewrite !list_lookup_fmap_Some. intros (x & Hz & Hx) (y & Hz' & Hy).
    destruct (lt_eq_lt_dec i j) as [[Hlt| ->]|Hlt]; [|done|]; exfalso.
    + apply (H j y Hy x); [|congruence]. apply list_elem_of_lookup. exists i.
      by rewrite lookup_take_lt.
    + apply (H i x Hx y); [|congruence]. apply list_elem_of_lookup. exists j.
      by rewrite lookup_take_lt.
Qed.

(** * Counting and in-place updates *)

(** How many elements satisfy [P]. *)
Fixpoint count_if {A} (P : A -> bool) (l : list A) : Z :=
  match l with [] => 0 | x :: l' => Z.b2z (P x) + count_if P l' end.

Lemma count_if_nonneg {A} (P : A -> bool) l : 0 <= count_if P l.
Proof. induction l as [|x l IH]; simpl; [lia|]. destruct (P x); simpl; lia. Qed.

Lemma count_if_alter {A} (P : A -> bool) f i l x :
  l !! i = Some x ->
  count_if P (alter f i l) = count_if P l - Z.b2z (P x) + Z.b2z (P (f x)).
Proof.
  revert i. induction l as [|y l IH]; intros [|i]; [done..| |]; simpl.
  - intros [= ->]. lia.
  - intros Hi. specialize (IH i Hi). unfold alter in IH. lia.
Qed.

Lemma count_if_insert {A} (P : A -> bool) i l x y :
  l !! i = Some x -> count_if P (<[i:=y]> l) = count_if P l - Z.b2z (P x) + Z.b2z (P y).
Proof.
  revert i. induction l as [|z l IH]; intros [|i]; [done..| |]; simpl.
  - intros [= ->]. lia.
  - intros Hi. specialize (IH i Hi). lia.
Qed.

Lemma count_if_le {A} (P : A -> bool) l : count_if P l <= Z.of_nat (length l).
Proof. induction l as [|x l IH]; simpl; [lia|]. destruct (P x); simpl; lia. Qed.

Lemma count_if_lt {A} (P : A -> bool) i l x :
  l !! i = Some x -> P x = false -> count_if P l < Z.of_nat (length l).
Proof.
  revert i. induction l as [|y l IH]; intros [|i]; [done..| |]; simpl length; rewrite Nat2Z.inj_succ; simpl.
  - intros [= ->] ->. pose proof (count_if_le P l). simpl. lia.
  - intros Hi Hx. specialize (IH i Hi Hx). destruct (P y); simpl; lia.
Qed.

Lemma count_if_0 {A} (P : A -> bool) l :
  count_if P l = 0 <-> forall x, x ∈ l -> P x = false.
Proof.
  induction l as [|y l IH]; simpl.
  - split; [by intros _ x ?%elem_of_nil|done].
  - pose proof (count_if_nonneg P l). setoid_rewrite elem_of_cons.
    destruct (P y) eqn:Hy; simpl; (split; [|]).
    + lia.
    + intros H'. rewrite H' in Hy; [done|by left].
    + intros ?. assert (count_if P l = 0) as Hl by lia.
      rewrite IH in Hl. intros x [->|Hx]; [done|by apply Hl].
    + intros H'. assert (count_if P l = 0) by (apply IH; intros; apply H'; by right). lia.
Qed.

Lemma count_if_pos {A} (P : A -> bool) i l x :
  l !! i = Some x -> P x = true -> 0 < count_if P l.
Proof.
  intros Hi Hx. destruct (decide (count_if P l = 0)) as [H0|].
  - rewrite count_if_0 in H0. rewrite H0 in Hx; [done|]. by eapply list_elem_of_lookup_2.
  - pose proof (count_if_nonneg P l). lia.
Qed.

Lemma count_if_app {A} (P : A -> bool) l k : count_if P (l ++ k) = count_if P l + count_if P k.
Proof. induction l as [|x l IH]; simpl; lia. Qed.

Lemma count_if_replicate {A} (P : A -> bool) n x :
  P x = false -> count_if P (replicate n x) = 0.
Proof. intros Hx. induction n; simpl; [done|]. by rewrite Hx. Qed.

Lemma count_if_ext {A} (P Q : A -> bool) l :
  (forall x, x ∈ l -> P x = Q x) -> count_if P l = count_if Q l.
Proof.
  induction l as [|x l IH]; simpl; intros H; [done|].
  rewrite (H x), IH; [done| |by left]. intros; apply H; by right.
Qed.

(** What stands at [j] after an update at [i]. *)
Lemma lookup_alter_case {A} (f : A -> A) i j (l : list A) y :
  alter f i l !! j = Some y <->
  exists x, l !! j = Some x /\ y = if decide (i = j) then f x else x.
Proof.
  rewrite list_lookup_alter. destruct (decide (i = j)) as [->|]; [apply fmap_Some|].
  split; [by eauto|by intros (x & ? & ->)].
Qed.

(** * Tactics *)

(** Turns the guards of a boolean predicate into a conjunction of facts. *)
Ltac reflect_guards :=
  repeat first
    [ rewrite negb_if | rewrite guard_true | rewrite orb_false_iff | rewrite andb_true_iff
    | rewrite negb_false_iff | rewrite negb_true_iff | rewrite Z.eqb_eq | rewrite Nat.eqb_eq
    | rewrite bool_decide_eq_true | rewrite bool_decide_eq_false ].

(** Splits boolean conjunctions and disjunction-negations in the context. *)
Ltac destruct_bools :=
  repeat match goal with
  | H : _ && _ = true |- _ => apply andb_true_iff in H as [? ?]
  | H : _ || _ = false |- _ => apply orb_false_iff in H as [? ?]
  | H : negb _ = true |- _ => apply negb_true_iff in H
  | H : negb _ = false |- _ => apply negb_false_iff in H
  | H : (_ =? _)%Z = true |- _ => apply Z.eqb_eq in H
  | H : (_ =? _)%Z = false |- _ => apply Z.eqb_neq in H
  | H : (_ <? _)%Z = true |- _ => apply Z.ltb_lt in H
  | H : (_ <? _)%Z = false |- _ => apply Z.ltb_ge in H
  | H : (_ <=? _)%Z = true |- _ => apply Z.leb_le in H
  | H : (_ <=? _)%Z = false |- _ => apply Z.leb_gt in H
  | H : (_ =? _)%nat = true |- _ => apply Nat.eqb_eq in H
  | H : (_ =? _)%nat = false |- _ => apply Nat.eqb_neq in H
  | H : (_ <? _)%nat = true |- _ => apply Nat.ltb_lt in H
  | H : (_ <? _)%nat = false |- _ => apply Nat.ltb_ge in H
  | H : (_ <=? _)%nat = true |- _ => apply Nat.leb_le in H
  | H : (_ <=? _)%nat = false |- _ => apply Nat.leb_gt in H
  | H : is_null _ = true |- _ => apply is_null_true in H
  | H : char_eqb _ _ = true |- _ => apply char_eqb_true in H
  | H : bool_decide _ = true |- _ => apply bool_decide_eq_true_1 in H
  | H : bool_decide _ = false |- _ => apply bool_decide_eq_false_1 in H
  end.

(** Case-splits the scrutinee of the first conditional of a hypothesis or of
    the goal, keeping the equation. *)
Ltac case_if :=
  match goal with
  | H : context [if ?b then _ else _] |- _ => destruct b eqn:?; try discriminate H
  | |- context [if ?b then _ else _] => destruct b eqn:?
  end.

Ltac case_ifs := repeat (case_if; simplify_eq/=).
