(* ===== verification/CMetaType.v ===== *)
(** Type identities and type descriptors of CMeta
    (cmeta/src/type_identity.c, cmeta/src/cmeta.c, cmeta/src/abi.c).

    Descriptors are immutable objects reached through [const] pointers, so they
    are modelled as trees; each node carries its address because the equality
    functions start with a pointer comparison.  [coherent] says that the
    addresses of two trees come from one memory, in which an address has one
    content. *)

From S2P Require Import Prelude.

(** * Data *)

Inductive cmeta_type_form :=
  | CMETA_TYPE_ATOM
  | CMETA_TYPE_POINTER
  | CMETA_TYPE_CONST
  | CMETA_TYPE_APPLY
  | CMETA_TYPE_FORM_OTHER (value : Z).

Inductive cmeta_generic_category :=
  | CMETA_GENERIC_VALUE
  | CMETA_GENERIC_CONTAINER
  | CMETA_GENERIC_HANDLE
  | CMETA_GENERIC_OTHER (value : Z).

Record cmeta_generic_desc := mk_generic_desc {
  gd_addr : addr;
  gd_stable_id : cstr;
  gd_display_name : cstr;
  gd_min_arity : nat;
  gd_max_arity : nat;
  gd_category : cmeta_generic_category;
}.

Inductive cmeta_type_identity := mk_type_identity {
  ti_addr : addr;
  ti_form : cmeta_type_form;
  ti_stable_atom_id : cstr;
  ti_constructor : option cmeta_generic_desc;
  ti_base : option cmeta_type_identity;
  ti_args : option (list (option cmeta_type_identity));
  ti_arity : nat;
}.

Inductive cmeta_type_kind :=
  | CMETA_T_VOID
  | CMETA_T_BOOL
  | CMETA_T_INTEGER
  | CMETA_T_FLOAT
  | CMETA_T_POINTER
  | CMETA_T_OBJECT
  | CMETA_T_OTHER (value : Z).

#[export] Instance cmeta_type_form_eq_dec : EqDecision cmeta_type_form.
Proof. solve_decision. Defined.

#[export] Instance cmeta_type_kind_eq_dec : EqDecision cmeta_type_kind.
Proof. solve_decision. Defined.

Inductive cmeta_status :=
  | CMETA_OK
  | CMETA_INVALID_ARGUMENT
  | CMETA_TYPE_MISMATCH
  | CMETA_TRAIT_MISSING
  | CMETA_CAPACITY_EXCEEDED
  | CMETA_OUT_OF_MEMORY
  | CMETA_CALLBACK_ERROR
  | CMETA_BUSY
  | CMETA_STATUS_OTHER (value : Z).

#[export] Instance cmeta_status_eq_dec : EqDecision cmeta_status.
Proof. solve_decision. Defined.

Definition status_ok (status : cmeta_status) : bool := bool_decide (status = CMETA_OK).

(** The trait table of a type.  A callback is its address: the modelled code
    asks whether it is there and never calls it. *)
Record cmeta_type_traits := mk_type_traits {
  tr_flags : Z;
  tr_equal : option addr;
  tr_hash : option addr;
  tr_compare : option addr;
  tr_copy_construct : option addr;
  tr_move_construct : option addr;
  tr_destroy : option addr;
}.

Definition CMETA_TRAIT_EQUAL : Z := Z.shiftl 1 0.
Definition CMETA_TRAIT_HASH : Z := Z.shiftl 1 1.
Definition CMETA_TRAIT_COMPARE : Z := Z.shiftl 1 2.
Definition CMETA_TRAIT_COPY : Z := Z.shiftl 1 3.
Definition CMETA_TRAIT_MOVE : Z := Z.shiftl 1 4.
Definition CMETA_TRAIT_DESTROY : Z := Z.shiftl 1 5.
Definition CMETA_TRAIT_TRIVIAL_COPY : Z := Z.shiftl 1 6.
Definition CMETA_TRAIT_TRIVIAL_DESTROY : Z := Z.shiftl 1 7.
Definition CMETA_TRAIT_MASK : Z :=
  Z.lor (Z.lor (Z.lor CMETA_TRAIT_EQUAL CMETA_TRAIT_HASH)
               (Z.lor CMETA_TRAIT_COMPARE CMETA_TRAIT_COPY))
        (Z.lor (Z.lor CMETA_TRAIT_MOVE CMETA_TRAIT_DESTROY)
               (Z.lor CMETA_TRAIT_TRIVIAL_COPY CMETA_TRAIT_TRIVIAL_DESTROY)).

Inductive cmeta_type_desc := mk_type_desc {
  td_addr : addr;
  td_name : cstr;
  td_size : Z;
  td_align : Z;
  td_kind : cmeta_type_kind;
  td_pointee : option cmeta_type_desc;
  td_traits : option cmeta_type_traits;
  td_identity : option cmeta_type_identity;
}.

(** * Type identities *)

Definition cmeta_generic_category_valid (category : cmeta_generic_category) : bool :=
  match category with
  | CMETA_GENERIC_VALUE | CMETA_GENERIC_CONTAINER | CMETA_GENERIC_HANDLE => true
  | CMETA_GENERIC_OTHER _ => false
  end.

Definition cmeta_generic_desc_valid (desc : option cmeta_generic_desc) : bool :=
  match desc with
  | None => false
  | Some d =>
      c_nonempty (gd_stable_id d) && c_nonempty (gd_display_name d) &&
      (gd_min_arity d <=? gd_max_arity d)%nat &&
      cmeta_generic_category_valid (gd_category d)
  end.

Definition cmeta_generic_accepts_arity (desc : option cmeta_generic_desc) (arity : nat) : bool :=
  match desc with
  | None => false
  | Some d =>
      cmeta_generic_desc_valid desc &&
      (gd_min_arity d <=? arity)%nat && (arity <=? gd_max_arity d)%nat
  end.

(** The C function and [cmeta_type_identity_valid] call each other; the
    recursive call is the argument [identity_valid]. *)
Definition cmeta_type_application_valid
    (identity_valid : cmeta_type_identity -> bool)
    (constructor : option cmeta_generic_desc)
    (args : option (list (option cmeta_type_identity))) (arity : nat) : bool :=
  if negb (cmeta_generic_accepts_arity constructor arity) then false
  else
    match args with
    | None => (arity =? 0)%nat
    | Some args =>
        forallb_upto
          (fun arg => match arg with None => false | Some a => identity_valid a end)
          args arity
    end.

Fixpoint identity_node_valid (t : cmeta_type_identity) : bool :=
  match ti_form t with
  | CMETA_TYPE_ATOM =>
      c_nonempty (ti_stable_atom_id t) && is_null (ti_constructor t) &&
      is_null (ti_base t) && is_null (ti_args t) && (ti_arity t =? 0)%nat
  | CMETA_TYPE_POINTER | CMETA_TYPE_CONST =>
      is_null (ti_stable_atom_id t) && is_null (ti_constructor t) &&
      is_null (ti_args t) && (ti_arity t =? 0)%nat &&
      match ti_base t with None => false | Some base => identity_node_valid base end
  | CMETA_TYPE_APPLY =>
      is_null (ti_stable_atom_id t) && is_null (ti_base t) &&
      cmeta_type_application_valid identity_node_valid
        (ti_constructor t) (ti_args t) (ti_arity t)
  | CMETA_TYPE_FORM_OTHER _ => false
  end.

Definition cmeta_type_identity_valid (identity : option cmeta_type_identity) : bool :=
  match identity with None => false | Some t => identity_node_valid t end.

(** [strcmp] on two strings the caller has checked not to be NULL. *)
Definition cstr_same (a b : cstr) : bool :=
  match a, b with Some a, Some b => strcmp_eq a b | _, _ => false end.

Definition cmeta_generic_desc_equal (a b : option cmeta_generic_desc) : bool :=
  match a, b with
  | Some x, Some y =>
      if gd_addr x =? gd_addr y then cmeta_generic_desc_valid a
      else
        cmeta_generic_desc_valid a && cmeta_generic_desc_valid b &&
        cstr_same (gd_stable_id x) (gd_stable_id y)
  | _, _ => false
  end.

(** [for (i = 0; i < arity; ++i) if (!equal(a->args[i], b->args[i])) ...] *)
Fixpoint args_equal (eq : cmeta_type_identity -> cmeta_type_identity -> bool)
    (a b : list (option cmeta_type_identity)) (arity : nat) : bool :=
  match a, b, arity with
  | x :: a', y :: b', S n =>
      match x, y with Some x, Some y => eq x y | _, _ => false end &&
      args_equal eq a' b' n
  | _, _, _ => true
  end.

Fixpoint identity_node_equal (a b : cmeta_type_identity) : bool :=
  if ti_addr a =? ti_addr b then true
  else
    match ti_form a, ti_form b with
    | CMETA_TYPE_ATOM, CMETA_TYPE_ATOM =>
        c_nonempty (ti_stable_atom_id a) && c_nonempty (ti_stable_atom_id b) &&
        cstr_same (ti_stable_atom_id a) (ti_stable_atom_id b)
    | CMETA_TYPE_POINTER, CMETA_TYPE_POINTER
    | CMETA_TYPE_CONST, CMETA_TYPE_CONST =>
        match ti_base a, ti_base b with
        | Some x, Some y => identity_node_equal x y
        | _, _ => false
        end
    | CMETA_TYPE_APPLY, CMETA_TYPE_APPLY =>
        if negb (cmeta_generic_desc_equal (ti_constructor a) (ti_constructor b)) ||
           negb (ti_arity a =? ti_arity b)%nat then false
        else if negb (ti_arity a =? 0)%nat && (is_null (ti_args a) || is_null (ti_args b))
        then false
        else
          match ti_args a, ti_args b with
          | Some xs, Some ys =>
              args_equal identity_node_equal xs ys (ti_arity a)
          | _, _ => true
          end
    | _, _ => false
    end.

Definition cmeta_type_identity_equal (a b : option cmeta_type_identity) : bool :=
  match a, b with
  | Some x, Some y => identity_node_equal x y
  | _, _ => false
  end.

Definition cmeta_type_identity_is_application (identity : option cmeta_type_identity) : bool :=
  match identity with
  | Some t => bool_decide (ti_form t = CMETA_TYPE_APPLY)
  | None => false
  end.

Definition cmeta_type_identity_arity (identity : option cmeta_type_identity) : nat :=
  match identity with
  | Some t => if cmeta_type_identity_is_application identity then ti_arity t else 0%nat
  | None => 0%nat
  end.

Definition cmeta_type_identity_argument (identity : option cmeta_type_identity) (index : nat)
    : option cmeta_type_identity :=
  match identity with
  | None => None
  | Some t =>
      if negb (cmeta_type_identity_is_application identity) || is_null (ti_args t) ||
         (ti_arity t <=? index)%nat then None
      else
        match ti_args t with
        | None => None
        | Some args => default None (args !! index)
        end
  end.

Arguments cmeta_type_application_valid : simpl never.
Arguments cmeta_generic_desc_equal : simpl never.
Arguments cmeta_generic_accepts_arity : simpl never.

(** * Type descriptors *)

Definition type_node_valid (d : cmeta_type_desc) : bool :=
  if negb (c_nonempty (td_name d)) || (td_align d =? 0) then false
  else
    match td_identity d with
    | None =>
        negb (bool_decide (td_kind d = CMETA_T_POINTER)) || negb (is_null (td_pointee d))
    | Some id =>
        if negb (cmeta_type_identity_valid (Some id)) then false
        else if bool_decide (td_kind d = CMETA_T_POINTER) then
          match td_pointee d with
          | None => false
          | Some pointee =>
              match td_identity pointee with
              | None => false
              | Some pid =>
                  if negb (bool_decide (ti_form id = CMETA_TYPE_POINTER)) then false
                  else cmeta_type_identity_equal (ti_base id) (Some pid)
              end
          end
        else negb (bool_decide (ti_form id = CMETA_TYPE_POINTER))
    end.

Definition cmeta_type_desc_valid (desc : option cmeta_type_desc) : bool :=
  match desc with None => false | Some d => type_node_valid d end.

Fixpoint type_node_equal (a b : cmeta_type_desc) : bool :=
  if td_addr a =? td_addr b then type_node_valid a
  else if negb (type_node_valid a) || negb (type_node_valid b) then false
  else
    match td_identity a, td_identity b with
    | Some x, Some y => cmeta_type_identity_equal (Some x) (Some y)
    | Some _, None | None, Some _ => false
    | None, None =>
        if negb (bool_decide (td_kind a = td_kind b)) ||
           negb (td_size a =? td_size b) || negb (td_align a =? td_align b) then false
        else if negb (cstr_same (td_name a) (td_name b)) then false
        else if bool_decide (td_kind a = CMETA_T_POINTER) then
          match td_pointee a, td_pointee b with
          | Some p, Some q => type_node_equal p q
          | _, _ => false
          end
        else true
    end.

Definition cmeta_type_equal (a b : option cmeta_type_desc) : bool :=
  match a, b with Some x, Some y => type_node_equal x y | _, _ => false end.

(** [required] asks for a callback and the table lacks it. *)
Definition trait_lacks (required flag : Z) (callback : option addr) : bool :=
  negb (Z.land required flag =? 0) && is_null callback.

Definition cmeta_type_require_traits
    (type : option cmeta_type_desc) (required : Z) : cmeta_status :=
  match type with
  | None => CMETA_INVALID_ARGUMENT
  | Some t =>
      if negb (Z.land required CMETA_TRAIT_MASK =? required) then CMETA_INVALID_ARGUMENT
      else if required =? 0 then CMETA_OK
      else
        match td_traits t with
        | None => CMETA_TRAIT_MISSING
        | Some traits =>
            if negb (Z.land (tr_flags traits) required =? required) then CMETA_TRAIT_MISSING
            else if trait_lacks required CMETA_TRAIT_EQUAL (tr_equal traits) then
              CMETA_TRAIT_MISSING
            else if trait_lacks required CMETA_TRAIT_HASH (tr_hash traits) then
              CMETA_TRAIT_MISSING
            else if trait_lacks required CMETA_TRAIT_COMPARE (tr_compare traits) then
              CMETA_TRAIT_MISSING
            else if trait_lacks required CMETA_TRAIT_COPY (tr_copy_construct traits) then
              CMETA_TRAIT_MISSING
            else if trait_lacks required CMETA_TRAIT_MOVE (tr_move_construct traits) then
              CMETA_TRAIT_MISSING
            else if trait_lacks required CMETA_TRAIT_DESTROY (tr_destroy traits) then
              CMETA_TRAIT_MISSING
            else CMETA_OK
        end
  end.

(** * ABI carriers (cmeta/src/abi.c) *)

Inductive cmeta_abi_carrier :=
  | CMETA_ABI_UNSPECIFIED
  | CMETA_ABI_VOID
  | CMETA_ABI_SCALAR
  | CMETA_ABI_OBJECT_POINTER
  | CMETA_ABI_AGGREGATE
  | CMETA_ABI_FUNCTION_POINTER
  | CMETA_ABI_OPAQUE
  | CMETA_ABI_ENUM
  | CMETA_ABI_OTHER (value : Z).

#[export] Instance cmeta_abi_carrier_eq_dec : EqDecision cmeta_abi_carrier.
Proof. solve_decision. Defined.

Definition cmeta_abi_carrier_valid (carrier : cmeta_abi_carrier) : bool :=
  match carrier with CMETA_ABI_OTHER _ => false | _ => true end.

Definition cmeta_abi_carrier_matches_type
    (carrier : cmeta_abi_carrier) (type : option cmeta_type_desc) : bool :=
  match type with
  | None => false
  | Some t =>
      if negb (cmeta_abi_carrier_valid carrier) || negb (cmeta_type_desc_valid type)
      then false
      else
        match carrier with
        | CMETA_ABI_UNSPECIFIED => true
        | CMETA_ABI_VOID => bool_decide (td_kind t = CMETA_T_VOID)
        | CMETA_ABI_SCALAR =>
            bool_decide (td_kind t = CMETA_T_BOOL) ||
            bool_decide (td_kind t = CMETA_T_INTEGER) ||
            bool_decide (td_kind t = CMETA_T_FLOAT)
        | CMETA_ABI_OBJECT_POINTER => bool_decide (td_kind t = CMETA_T_POINTER)
        | CMETA_ABI_AGGREGATE => bool_decide (td_kind t = CMETA_T_OBJECT)
        | CMETA_ABI_FUNCTION_POINTER => negb (bool_decide (td_kind t = CMETA_T_VOID))
        | CMETA_ABI_OPAQUE => negb (bool_decide (td_kind t = CMETA_T_VOID))
        | CMETA_ABI_ENUM => bool_decide (td_kind t = CMETA_T_INTEGER)
        | CMETA_ABI_OTHER _ => false
        end
  end.

(** * The canonical form of an identity

    What an identity says once the addresses are forgotten: the specification
    [cmeta_type_identity_equal] is compared with. *)

Inductive identity_tree :=
  | IT_atom (id : string)
  | IT_pointer (base : identity_tree)
  | IT_const (base : identity_tree)
  | IT_apply (constructor : string) (args : list identity_tree)
  | IT_malformed.

Definition text_of (s : cstr) : string := c_text (default EmptyString s).

Fixpoint canon (t : cmeta_type_identity) : identity_tree :=
  match ti_form t with
  | CMETA_TYPE_ATOM => IT_atom (text_of (ti_stable_atom_id t))
  | CMETA_TYPE_POINTER =>
      match ti_base t with Some b => IT_pointer (canon b) | None => IT_malformed end
  | CMETA_TYPE_CONST =>
      match ti_base t with Some b => IT_const (canon b) | None => IT_malformed end
  | CMETA_TYPE_APPLY =>
      match ti_constructor t with
      | None => IT_malformed
      | Some c =>
          IT_apply (text_of (gd_stable_id c))
            match ti_args t with
            | None => []
            | Some args =>
                map_upto (fun arg => match arg with Some a => canon a | None => IT_malformed end)
                  args (ti_arity t)
            end
      end
  | CMETA_TYPE_FORM_OTHER _ => IT_malformed
  end.

(** [node_of t x]: [x] is [t] or is reached from it. *)
Inductive node_of (t : cmeta_type_identity) : cmeta_type_identity -> Prop :=
  | node_here : node_of t t
  | node_base x b : ti_base t = Some b -> node_of b x -> node_of t x
  | node_arg x args a : ti_args t = Some args -> Some a ∈ args -> node_of a x -> node_of t x.

(** Two trees of one memory: equal addresses are the same object. *)
Record coherent (a b : cmeta_type_identity) : Prop := {
  coherent_node x y : node_of a x -> node_of b y -> ti_addr x = ti_addr y -> x = y;
  coherent_constructor x y c d :
    node_of a x -> node_of b y -> ti_constructor x = Some c -> ti_constructor y = Some d ->
    gd_addr c = gd_addr d -> c = d;
}.

#[export] Hint Constructors node_of : salts.

Fixpoint identity_size (t : cmeta_type_identity) : nat :=
  S (match ti_base t with Some b => identity_size b | None => 0 end +
     match ti_args t with
     | None => 0
     | Some args =>
         foldr (fun o n => (match o with Some a => identity_size a | None => 0 end + n)%nat)
           0%nat args
     end).

Lemma identity_size_base t b : ti_base t = Some b -> (identity_size b < identity_size t)%nat.
Proof. destruct t; simpl. intros ->. lia. Qed.

Lemma identity_size_arg t args a :
  ti_args t = Some args -> Some a ∈ args -> (identity_size a < identity_size t)%nat.
Proof.
  destruct t; simpl. intros ->. induction args as [|o args IH]; simpl.
  - by intros ?%elem_of_nil.
  - intros [<-|Hin]%elem_of_cons; [lia | specialize (IH Hin); lia].
Qed.

Lemma identity_ind (P : cmeta_type_identity -> Prop) :
  (forall t, (forall b, ti_base t = Some b -> P b) ->
     (forall args a, ti_args t = Some args -> Some a ∈ args -> P a) -> P t) ->
  forall t, P t.
Proof.
  intros step. apply (induction_ltof1 _ identity_size). unfold ltof.
  intros t IH. apply step; eauto using identity_size_base, identity_size_arg.
Qed.

Lemma coherent_base a b x y :
  coherent a b -> ti_base a = Some x -> ti_base b = Some y -> coherent x y.
Proof.
  intros [Hn Hc] Hx Hy. split; intros u v; intros;
    [apply Hn | apply (Hc u v)]; eauto with salts.
Qed.

Lemma coherent_arg a b xs ys x y :
  coherent a b -> ti_args a = Some xs -> ti_args b = Some ys ->
  Some x ∈ xs -> Some y ∈ ys -> coherent x y.
Proof.
  intros [Hn Hc] ????. split; intros u v; intros;
    [apply Hn | apply (Hc u v)]; eauto with salts.
Qed.

#[export] Hint Resolve coherent_base coherent_arg : salts.

Lemma args_equal_canon xs ys n :
  (forall x y, Some x ∈ xs -> Some y ∈ ys -> identity_node_valid x = true ->
     identity_node_valid y = true -> identity_node_equal x y = true <-> canon x = canon y) ->
  forallb_upto (fun arg => match arg with None => false | Some a => identity_node_valid a end)
    xs n = true ->
  forallb_upto (fun arg => match arg with None => false | Some a => identity_node_valid a end)
    ys n = true ->
  args_equal identity_node_equal xs ys n = true <->
  map_upto (fun arg => match arg with Some a => canon a | None => IT_malformed end) xs n =
  map_upto (fun arg => match arg with Some a => canon a | None => IT_malformed end) ys n.
Proof.
  revert ys n. induction xs as [|[x|] xs IH]; intros [|[y|] ys] [|n] Hall; simpl; try done.
  intros [Hx Hxs]%andb_true_iff [Hy Hys]%andb_true_iff.
  rewrite andb_true_iff, IH; [|by intros; apply Hall; try right|done..].
  rewrite Hall by (done || left). split; [intros [-> ->]|intros [= -> ->]]; done.
Qed.

Lemma cstr_same_text a b :
  c_nonempty a = true -> c_nonempty b = true ->
  cstr_same a b = true <-> text_of a = text_of b.
Proof. destruct a, b; try done. intros _ _. apply strcmp_eq_text. Qed.

Lemma cmeta_generic_desc_equal_text c d :
  cmeta_generic_desc_valid (Some c) = true -> cmeta_generic_desc_valid (Some d) = true ->
  (gd_addr c = gd_addr d -> c = d) ->
  cmeta_generic_desc_equal (Some c) (Some d) = true <->
  text_of (gd_stable_id c) = text_of (gd_stable_id d).
Proof.
  intros Hc Hd Hco. unfold cmeta_generic_desc_equal. destruct (gd_addr c =? gd_addr d) eqn:He.
  - apply Z.eqb_eq in He. by rewrite (Hco He).
  - rewrite Hc, Hd. simpl in *. destruct_bools. by apply cstr_same_text.
Qed.

Lemma accepts_arity_valid c n :
  cmeta_generic_accepts_arity (Some c) n = true -> cmeta_generic_desc_valid (Some c) = true.
Proof. unfold cmeta_generic_accepts_arity. intros. by destruct_bools. Qed.

(** The arguments of a valid application, read through the array pointer. *)
Lemma application_valid_inv valid c args n :
  cmeta_type_application_valid valid c args n = true ->
  exists d, c = Some d /\ cmeta_generic_accepts_arity (Some d) n = true /\
  match args with
  | None => n = 0%nat
  | Some args =>
      forallb_upto (fun arg => match arg with None => false | Some a => valid a end)
        args n = true
  end.
Proof.
  unfold cmeta_type_application_valid. destruct c as [d|]; simpl; [|done].
  destruct (cmeta_generic_accepts_arity _ _) eqn:Hac; simpl; [|done]. intros H. exists d.
  split_and!; [done|done|]. destruct args; [done|by apply Nat.eqb_eq].
Qed.

Lemma args_equal_0 eq xs ys : args_equal eq xs ys 0 = true.
Proof. by destruct xs as [|[]], ys as [|[]]. Qed.

Lemma identity_node_equal_canon a b :
  coherent a b ->
  cmeta_type_identity_valid (Some a) = true ->
  cmeta_type_identity_valid (Some b) = true ->
  cmeta_type_identity_equal (Some a) (Some b) = true <-> canon a = canon b.
Proof.
  simpl. revert b. induction a as [a IHbase IHargs] using identity_ind. intros b Hco Ha Hb.
  destruct (ti_addr a =? ti_addr b) eqn:Haddr.
  { assert (a = b) as <- by (apply (coherent_node _ _ Hco); eauto with salts; by apply Z.eqb_eq).
    destruct a; simpl. by rewrite Z.eqb_refl. }
  assert (forall x y, ti_base a = Some x -> ti_base b = Some y -> coherent x y) as Hcob
    by eauto with salts.
  assert (forall c d, ti_constructor a = Some c -> ti_constructor b = Some d ->
            gd_addr c = gd_addr d -> c = d) as Hcoc
    by (intros; eapply (coherent_constructor a b Hco a b); eauto with salts).
  assert (forall xs ys x y, ti_args a = Some xs -> ti_args b = Some ys ->
            Some x ∈ xs -> Some y ∈ ys -> coherent x y) as Hcoa by eauto with salts.
  clear Hco.
  destruct a as [pa fa sa ca ba aa na], b as [pb fb sb cb bb ab nb]. simpl in *.
  rewrite Haddr.
  destruct fa, fb; destruct_bools; simpl; try done;
    repeat match goal with
    | H : context [match ?o with None => false | _ => _ end] |- _ => destruct o; try done
    | H : cmeta_type_application_valid _ _ _ _ = true |- _ =>
        apply application_valid_inv in H as (? & -> & ? & ? & ?)
    end; simplify_eq/=; try done.
  1: { rewrite !andb_true_iff, cstr_same_text by done. split; [by intros [_ ->]|].
       intros [= ->]. done. }
  all: repeat match goal with
    | H : cmeta_type_application_valid _ _ _ _ = true |- _ =>
        apply application_valid_inv in H as (? & ? & ? & ?); simplify_eq/=
    end; try done.
  1, 2: rewrite IHbase by eauto; split; [by intros ->|by intros [= ?]].
  rename x into d, x0 into c.
  assert (cmeta_generic_desc_equal (Some c) (Some d) = true <->
          text_of (gd_stable_id c) = text_of (gd_stable_id d)) as Htext
    by (apply cmeta_generic_desc_equal_text; eauto using accepts_arity_valid).
  destruct (Nat.eqb_spec na nb) as [->|Hne]; simpl.
  - destruct (cmeta_generic_desc_equal (Some c) (Some d)); simpl;
      [|split; [done|]; intros [= Hcd _]; by apply Htext in Hcd].
    assert (text_of (gd_stable_id c) = text_of (gd_stable_id d)) as <- by by apply Htext.
    destruct aa as [xs|], ab as [ys|]; simpl; simplify_eq/=.
    + rewrite andb_false_r, (args_equal_canon xs ys nb); eauto.
      split; [by intros ->|by intros [= ->]].
    + by rewrite map_upto_0.
    + by rewrite map_upto_0.
    + done.
  - rewrite orb_true_r. split; [done|]. intros [= _ Hlen].
    apply (f_equal length) in Hlen. destruct aa, ab; simplify_eq/=;
      rewrite ?(map_upto_length _ _ _ _ H1), ?(map_upto_length _ _ _ _ H3) in Hlen; done.
Qed.

(** on valid identities of one memory the pointer shortcut and the
    descent of [cmeta_type_identity_equal] together decide equality of the
    canonical forms. *)
Theorem identity_equal_canon a b :
  coherent a b ->
  cmeta_type_identity_valid (Some a) = true ->
  cmeta_type_identity_valid (Some b) = true ->
  cmeta_type_identity_equal (Some a) (Some b) = true <-> canon a = canon b.
Proof. apply identity_node_equal_canon. Qed.

(** * The canonical form of a type descriptor *)

Inductive type_tree :=
  | TT_identity (identity : identity_tree)
  | TT_layout (kind : cmeta_type_kind) (size align : Z) (name : string)
      (pointee : option type_tree).

Fixpoint type_canon (d : cmeta_type_desc) : type_tree :=
  match td_identity d with
  | Some id => TT_identity (canon id)
  | None =>
      TT_layout (td_kind d) (td_size d) (td_align d) (text_of (td_name d))
        (if bool_decide (td_kind d = CMETA_T_POINTER) then
           match td_pointee d with Some p => Some (type_canon p) | None => None end
         else None)
  end.

(** Valid all the way down the pointee chain: [cmeta_type_desc_valid] looks at
    one level only. *)
Fixpoint type_deep_valid (d : cmeta_type_desc) : bool :=
  type_node_valid d &&
  match td_identity d with
  | Some _ => true
  | None =>
      if bool_decide (td_kind d = CMETA_T_POINTER) then
        match td_pointee d with Some p => type_deep_valid p | None => false end
      else true
  end.

Inductive pointee_of (d : cmeta_type_desc) : cmeta_type_desc -> Prop :=
  | pointee_here : pointee_of d d
  | pointee_next x p : td_pointee d = Some p -> pointee_of p x -> pointee_of d x.

Record type_coherent (a b : cmeta_type_desc) : Prop := {
  type_coherent_node x y :
    pointee_of a x -> pointee_of b y -> td_addr x = td_addr y -> x = y;
  type_coherent_identity x y i j :
    pointee_of a x -> pointee_of b y -> td_identity x = Some i -> td_identity y = Some j ->
    coherent i j;
}.

#[export] Hint Constructors pointee_of : salts.

Lemma type_coherent_pointee a b p q :
  type_coherent a b -> td_pointee a = Some p -> td_pointee b = Some q -> type_coherent p q.
Proof.
  intros [Hn Hi] ??. split; intros u v; intros;
    [apply Hn | apply (Hi u v)]; eauto with salts.
Qed.

Lemma type_deep_valid_node d : type_deep_valid d = true -> type_node_valid d = true.
Proof. destruct d; simpl. intros. by destruct_bools. Qed.

Lemma type_node_valid_inv d :
  type_node_valid d = true ->
  c_nonempty (td_name d) = true /\
  forall id, td_identity d = Some id -> cmeta_type_identity_valid (Some id) = true.
Proof.
  unfold type_node_valid. destruct (c_nonempty _); simpl; [|done].
  destruct (td_align d =? 0); [done|]. intros H. split; [done|].
  intros id Hid. rewrite Hid in H. simpl in *. by destruct (identity_node_valid id).
Qed.

Arguments type_node_valid : simpl never.

Lemma type_node_equal_canon a b :
  type_coherent a b -> type_deep_valid a = true -> type_deep_valid b = true ->
  cmeta_type_equal (Some a) (Some b) = true <-> type_canon a = type_canon b.
Proof.
  change (type_coherent a b -> type_deep_valid a = true -> type_deep_valid b = true ->
    type_node_equal a b = true <-> type_canon a = type_canon b).
  revert a b. fix IH 1. intros a b Hco Ha Hb.
  pose proof (type_deep_valid_node _ Ha) as Hva. pose proof (type_deep_valid_node _ Hb) as Hvb.
  destruct (td_addr a =? td_addr b) eqn:Haddr.
  { assert (a = b) as <-
      by (apply (type_coherent_node _ _ Hco); eauto with salts; by apply Z.eqb_eq).
    destruct a; simpl in *. by rewrite Z.eqb_refl, Hva. }
  destruct (type_node_valid_inv _ Hva) as [Hna Hia], (type_node_valid_inv _ Hvb) as [Hnb Hib].
  assert (forall i j, td_identity a = Some i -> td_identity b = Some j -> coherent i j) as Hcoi
    by (intros; eapply (type_coherent_identity a b Hco a b); eauto with salts).
  assert (forall p q, td_pointee a = Some p -> td_pointee b = Some q -> type_coherent p q) as Hcop
    by eauto using type_coherent_pointee.
  clear Hco. destruct a as [pa na za la ka qa ra ia], b as [pb nb zb lb kb qb rb ib].
  simpl in *. rewrite Haddr, Hva, Hvb. rewrite Hva in Ha. rewrite Hvb in Hb. simpl in *.
  destruct ia as [i|], ib as [j|]; try done.
  - change (identity_node_equal i j) with (cmeta_type_identity_equal (Some i) (Some j)).
    rewrite identity_node_equal_canon by (simpl in *; eauto). split; [by intros ->|by intros [= ?]].
  - destruct (bool_decide_reflect (ka = kb)) as [<-|]; simpl; [|split; [done|by intros [= ?]]].
    destruct (Z.eqb_spec za zb) as [<-|]; simpl; [|split; [done|by intros [= ?]]].
    destruct (Z.eqb_spec la lb) as [<-|]; simpl; [|split; [done|by intros [= ?]]].
    pose proof (cstr_same_text na nb Hna Hnb) as Hname.
    destruct (cstr_same na nb); simpl;
      [|split; [done|intros [= Hn _]; by apply Hname in Hn]].
    rewrite (proj1 Hname eq_refl). destruct (bool_decide (ka = _)); [|done].
    destruct qa as [p|], qb as [q|]; try done.
    rewrite IH by eauto. split; [by intros ->|by intros [= ?]].
Qed.

(** C40: [cmeta_type_equal] compares canonical forms: identities decide when both
    descriptors have one, and layout, name and pointee chain decide when
    neither has one. *)
Theorem type_equal_canon a b :
  type_coherent a b -> type_deep_valid a = true -> type_deep_valid b = true ->
  cmeta_type_equal (Some a) (Some b) = true <-> type_canon a = type_canon b.
Proof. apply type_node_equal_canon. Qed.
