(* ===== verification/CMetaFunction.v ===== *)
(** Function descriptors and their ABI descriptors (cmeta/src/function.c,
    cmeta/include/cmeta/function.h, cmeta/include/cmeta/cmeta.h). *)

From S2P Require Import Prelude CMetaType.

(** * Flags *)

Definition CMETA_PARAM_IN : Z := 1.
Definition CMETA_PARAM_OUT : Z := 2.
Definition CMETA_PARAM_UNKNOWN : Z := 0.
Definition CMETA_PARAM_NULLABLE : Z := 4.
Definition CMETA_PARAM_BORROWED : Z := 8.
Definition CMETA_PARAM_OWNED : Z := 16.
Definition CMETA_PARAM_RECEIVER : Z := 32.
Definition CMETA_PARAM_DIRECTION_MASK : Z := Z.lor CMETA_PARAM_IN CMETA_PARAM_OUT.
Definition CMETA_PARAM_OWNERSHIP_MASK : Z := Z.lor CMETA_PARAM_BORROWED CMETA_PARAM_OWNED.
Definition CMETA_PARAM_FLAG_MASK : Z :=
  Z.lor (Z.lor CMETA_PARAM_DIRECTION_MASK CMETA_PARAM_NULLABLE)
        (Z.lor CMETA_PARAM_OWNERSHIP_MASK CMETA_PARAM_RECEIVER).

Definition CMETA_RESULT_UNKNOWN : Z := 0.
Definition CMETA_RESULT_NULLABLE : Z := 1.
Definition CMETA_RESULT_VALUE : Z := 2.
Definition CMETA_RESULT_BORROWED : Z := 4.
Definition CMETA_RESULT_SHARED : Z := 8.
Definition CMETA_RESULT_OWNED : Z := 16.
Definition CMETA_RESULT_CLASS_MASK : Z :=
  Z.lor (Z.lor CMETA_RESULT_VALUE CMETA_RESULT_BORROWED)
        (Z.lor CMETA_RESULT_SHARED CMETA_RESULT_OWNED).
Definition CMETA_RESULT_FLAG_MASK : Z := Z.lor CMETA_RESULT_NULLABLE CMETA_RESULT_CLASS_MASK.

Definition CMETA_EFFECT_PURE : Z := 0.
Definition CMETA_EFFECT_MAY_FAIL : Z := 8.
Definition CMETA_EFFECT_MASK : Z := 31.
Definition CMETA_PROP_DETERMINISTIC : Z := 1.
Definition CMETA_PROP_TOTAL : Z := 2.
Definition CMETA_PROP_NO_ALIAS : Z := 8.
Definition CMETA_PROP_STABLE : Z := Z.lor CMETA_PROP_DETERMINISTIC CMETA_PROP_TOTAL.
Definition CMETA_PROP_MASK : Z := 31.

Definition cmeta_effects_valid (e : Z) : bool := Z.land e CMETA_EFFECT_MASK =? e.

Definition cmeta_properties_valid (p : Z) : bool := Z.land p CMETA_PROP_MASK =? p.

Definition cmeta_effects_are_pure (e : Z) : bool := e =? CMETA_EFFECT_PURE.

Definition cmeta_properties_include (p required : Z) : bool := Z.land p required =? required.

Definition cmeta_effect_property_contract_valid (effects properties : Z) : bool :=
  cmeta_effects_valid effects && cmeta_properties_valid properties &&
  negb (negb (Z.land properties CMETA_PROP_TOTAL =? 0) &&
        negb (Z.land effects CMETA_EFFECT_MAY_FAIL =? 0)).

(** * Descriptors *)

(** The sizes the [size] prefixes are compared with (LP64 layouts). *)
Definition sizeof_param_desc : Z := 32.
Definition sizeof_function_desc : Z := 56.
Definition sizeof_function_abi_desc : Z := 40.

Record cmeta_param_desc := mk_param_desc {
  pd_size : Z;
  pd_name : cstr;
  pd_type : option cmeta_type_desc;
  pd_flags : Z;
}.

Record cmeta_function_desc := mk_function_desc {
  fd_addr : addr;
  fd_size : Z;
  fd_name : cstr;
  fd_return_type : option cmeta_type_desc;
  fd_params : option (list cmeta_param_desc);
  fd_param_count : nat;
  fd_effects : Z;
  fd_properties : Z;
  fd_result_flags : Z;
}.

Record cmeta_function_abi_desc := mk_function_abi_desc {
  ad_addr : addr;
  ad_size : Z;
  ad_function : option cmeta_function_desc;
  ad_return_carrier : cmeta_abi_carrier;
  ad_param_carriers : option (list cmeta_abi_carrier);
  ad_param_count : nat;
}.

(** [desc->params] as the list of its rows. *)
Definition fd_rows (f : cmeta_function_desc) : list cmeta_param_desc :=
  default [] (fd_params f).

Definition type_kind_is (t : option cmeta_type_desc) (k : cmeta_type_kind) : bool :=
  match t with Some d => bool_decide (td_kind d = k) | None => false end.

(** * Validation *)

Definition cmeta_param_flags_valid (flags : Z) : bool :=
  let ownership := Z.land flags CMETA_PARAM_OWNERSHIP_MASK in
  if negb (Z.land flags CMETA_PARAM_FLAG_MASK =? flags) then false
  else if ownership =? CMETA_PARAM_OWNERSHIP_MASK then false
  else true.

Definition cmeta_result_flags_valid (return_type : option cmeta_type_desc) (flags : Z) : bool :=
  let result_class := Z.land flags CMETA_RESULT_CLASS_MASK in
  if is_null return_type || negb (Z.land flags CMETA_RESULT_FLAG_MASK =? flags) then false
  else if negb (result_class =? 0) && negb (Z.land result_class (result_class - 1) =? 0)
  then false
  else if type_kind_is return_type CMETA_T_VOID then flags =? CMETA_RESULT_UNKNOWN
  else if negb (Z.land flags CMETA_RESULT_NULLABLE =? 0) &&
          negb (type_kind_is return_type CMETA_T_POINTER) then false
  else true.

Definition cmeta_param_desc_valid (d : cmeta_param_desc) : bool :=
  if (pd_size d <? sizeof_param_desc) || negb (c_nonempty (pd_name d)) ||
     negb (cmeta_type_desc_valid (pd_type d)) || negb (cmeta_param_flags_valid (pd_flags d))
  then false
  else if negb (Z.land (pd_flags d)
                  (Z.lor (Z.lor CMETA_PARAM_OUT CMETA_PARAM_NULLABLE)
                         (Z.lor CMETA_PARAM_OWNERSHIP_MASK CMETA_PARAM_RECEIVER)) =? 0) &&
          negb (type_kind_is (pd_type d) CMETA_T_POINTER) then false
  else true.

Definition is_receiver (p : cmeta_param_desc) : bool :=
  negb (Z.land (pd_flags p) CMETA_PARAM_RECEIVER =? 0).

(** The rows before row [i] are [before]. *)
Definition param_row_valid (before : list cmeta_param_desc) (p : cmeta_param_desc) : bool :=
  cmeta_param_desc_valid p &&
  negb (is_receiver p && negb (length before =? 0)%nat) &&
  forallb (fun q => negb (cstr_same (pd_name p) (pd_name q))) before.

Definition function_node_valid (f : cmeta_function_desc) : bool :=
  if (fd_size f <? sizeof_function_desc) || negb (c_nonempty (fd_name f)) ||
     negb (cmeta_type_desc_valid (fd_return_type f)) ||
     negb (cmeta_result_flags_valid (fd_return_type f) (fd_result_flags f)) ||
     negb (cmeta_effect_property_contract_valid (fd_effects f) (fd_properties f))
  then false
  else if negb (fd_param_count f =? 0)%nat && is_null (fd_params f) then false
  else (fd_param_count f <=? length (fd_rows f))%nat &&
       forallb_prev param_row_valid [] (take (fd_param_count f) (fd_rows f)).

Definition cmeta_function_desc_valid (desc : option cmeta_function_desc) : bool :=
  match desc with None => false | Some f => function_node_valid f end.

(** The carriers and the parameters of one function, row by row. *)
Definition abi_rows (a : cmeta_function_abi_desc) : list cmeta_abi_carrier :=
  default [] (ad_param_carriers a).

Definition abi_node_valid (a : cmeta_function_abi_desc) : bool :=
  match ad_function a with
  | None => false
  | Some f =>
      if (ad_size a <? sizeof_function_abi_desc) ||
         negb (cmeta_function_desc_valid (ad_function a)) ||
         negb (cmeta_abi_carrier_valid (ad_return_carrier a)) ||
         negb (cmeta_abi_carrier_matches_type (ad_return_carrier a) (fd_return_type f))
      then false
      else if negb (ad_param_count a =? fd_param_count f)%nat then false
      else if negb (ad_param_count a =? 0)%nat && is_null (ad_param_carriers a) then false
      else forallb_upto
             (fun cp => cmeta_abi_carrier_valid (fst cp) &&
                        cmeta_abi_carrier_matches_type (fst cp) (pd_type (snd cp)))
             (zip (abi_rows a) (fd_rows f)) (ad_param_count a)
  end.

Definition cmeta_function_abi_desc_valid (desc : option cmeta_function_abi_desc) : bool :=
  match desc with None => false | Some a => abi_node_valid a end.

(** * Equality *)

Definition param_same (a b : cmeta_param_desc) : bool :=
  cstr_same (pd_name a) (pd_name b) && (pd_flags a =? pd_flags b) &&
  cmeta_type_equal (pd_type a) (pd_type b).

Definition cmeta_function_desc_equal (left right : option cmeta_function_desc) : bool :=
  match left, right with
  | Some l, Some r =>
      if fd_addr l =? fd_addr r then cmeta_function_desc_valid left
      else if negb (cmeta_function_desc_valid left) || negb (cmeta_function_desc_valid right)
      then false
      else if negb (cstr_same (fd_name l) (fd_name r)) ||
              negb (cmeta_type_equal (fd_return_type l) (fd_return_type r)) ||
              negb (fd_param_count l =? fd_param_count r)%nat ||
              negb (fd_effects l =? fd_effects r) ||
              negb (fd_properties l =? fd_properties r) ||
              negb (fd_result_flags l =? fd_result_flags r)
      then false
      else forallb_upto (fun ab => param_same (fst ab) (snd ab))
             (zip (fd_rows l) (fd_rows r)) (fd_param_count l)
  | _, _ => false
  end.

Definition carrier_same (a b : cmeta_abi_carrier) : bool := bool_decide (a = b).

Definition cmeta_function_abi_desc_equal (left right : option cmeta_function_abi_desc) : bool :=
  match left, right with
  | Some l, Some r =>
      if ad_addr l =? ad_addr r then cmeta_function_abi_desc_valid left
      else if negb (cmeta_function_abi_desc_valid left) ||
              negb (cmeta_function_abi_desc_valid right) ||
              negb (cmeta_function_desc_equal (ad_function l) (ad_function r)) ||
              negb (bool_decide (ad_return_carrier l = ad_return_carrier r)) ||
              negb (ad_param_count l =? ad_param_count r)%nat
      then false
      else forallb_upto (fun ab => carrier_same (fst ab) (snd ab))
             (zip (abi_rows l) (abi_rows r)) (ad_param_count l)
  | _, _ => false
  end.

(** * Receivers and projections *)

Definition cmeta_function_param_abi (desc : option cmeta_function_abi_desc) (index : nat)
    : cmeta_abi_carrier :=
  match desc with
  | None => CMETA_ABI_UNSPECIFIED
  | Some a =>
      if (ad_param_count a <=? index)%nat || is_null (ad_param_carriers a)
      then CMETA_ABI_UNSPECIFIED
      else default CMETA_ABI_UNSPECIFIED (abi_rows a !! index)
  end.

Definition cmeta_function_param (desc : option cmeta_function_desc) (index : nat)
    : option cmeta_param_desc :=
  match desc with
  | None => None
  | Some f =>
      if (fd_param_count f <=? index)%nat || is_null (fd_params f) then None
      else fd_rows f !! index
  end.

Definition cmeta_function_find_param (desc : option cmeta_function_desc) (name : cstr)
    : option cmeta_param_desc :=
  match desc with
  | None => None
  | Some f =>
      if is_null name || is_null (fd_params f) then None
      else List.find (fun p => negb (is_null (pd_name p)) && cstr_same (pd_name p) name)
             (take (fd_param_count f) (fd_rows f))
  end.

Definition cmeta_function_receiver (desc : option cmeta_function_desc) : option cmeta_param_desc :=
  match desc with
  | None => None
  | Some f =>
      if negb (cmeta_function_desc_valid desc) || (fd_param_count f =? 0)%nat then None
      else
        match fd_rows f !! 0%nat with
        | Some p => if is_receiver p then Some p else None
        | None => None
        end
  end.

Definition cmeta_function_receiver_valid (function : option cmeta_function_desc) : bool :=
  match cmeta_function_receiver function with
  | None => false
  | Some receiver =>
      type_kind_is (pd_type receiver) CMETA_T_POINTER &&
      match pd_type receiver with
      | Some t => cmeta_type_desc_valid (td_pointee t)
      | None => false
      end
  end.

Definition cmeta_function_receiver_projection_valid
    (function projected : option cmeta_function_desc) : bool :=
  match function, projected with
  | Some f, Some g =>
      if negb (cmeta_function_receiver_valid function) ||
         negb (cmeta_function_desc_valid projected) then false
      else if negb (fd_param_count f - 1 =? fd_param_count g)%nat ||
              negb (cmeta_type_equal (fd_return_type f) (fd_return_type g)) ||
              negb (fd_result_flags f =? fd_result_flags g) ||
              negb (fd_effects f =? fd_effects g) ||
              negb (fd_properties f =? fd_properties g) then false
      else forallb_upto (fun st => param_same (fst st) (snd st))
             (zip (drop 1 (fd_rows f)) (fd_rows g)) (fd_param_count g)
  | _, _ => false
  end.

(** The source parameters paired with their carriers. *)
Definition signature_rows (a : cmeta_function_abi_desc) (f : cmeta_function_desc)
    : list (cmeta_param_desc * cmeta_abi_carrier) :=
  take (ad_param_count a) (zip (fd_rows f) (abi_rows a)).

Definition projected_row_same (x y : cmeta_param_desc * cmeta_abi_carrier) : bool :=
  cstr_same (pd_name (fst x)) (pd_name (fst y)) &&
  cmeta_type_equal (pd_type (fst x)) (pd_type (fst y)) &&
  (pd_flags (fst x) =? pd_flags (fst y)) &&
  bool_decide (snd x = snd y).

(** The loop of [cmeta_function_projection_valid]: [next] walks the projected
    rows, a bound source row is skipped. *)
Fixpoint projection_loop (bound : list bool)
    (source projected : list (cmeta_param_desc * cmeta_abi_carrier)) : bool :=
  match source, bound with
  | [], _ => (length projected =? 0)%nat
  | _ :: _, [] => false
  | s :: source', true :: bound' => projection_loop bound' source' projected
  | s :: source', false :: bound' =>
      match projected with
      | [] => false
      | p :: projected' => projected_row_same s p && projection_loop bound' source' projected'
      end
  end.

(** A source whose first parameter is marked as the receiver must have a valid
    one. *)
Definition receiver_admitted (a : cmeta_function_desc) : bool :=
  negb (negb (fd_param_count a =? 0)%nat &&
        match fd_rows a !! 0%nat with Some r => is_receiver r | None => false end &&
        negb (cmeta_function_receiver_valid (Some a))).

Definition cmeta_function_projection_valid (source projected : option cmeta_function_abi_desc)
    (bound : option (list bool)) (count : nat) : bool :=
  match source, projected with
  | Some s, Some p =>
      if negb (cmeta_function_abi_desc_valid source) ||
         negb (cmeta_function_abi_desc_valid projected) ||
         negb (count =? ad_param_count s)%nat ||
         (negb (count =? 0)%nat && is_null bound) then false
      else
        match ad_function s, ad_function p with
        | Some a, Some b =>
            if negb (receiver_admitted a) then false
            else if negb (cmeta_type_equal (fd_return_type a) (fd_return_type b)) ||
                    negb (bool_decide (ad_return_carrier s = ad_return_carrier p)) ||
                    negb (fd_result_flags a =? fd_result_flags b) ||
                    negb (fd_effects a =? fd_effects b) ||
                    negb (fd_properties a =? fd_properties b) then false
            else projection_loop (default [] bound) (signature_rows s a) (signature_rows p b)
        | _, _ => false
        end
  | _, _ => false
  end.

Definition contract_row_same (x y : cmeta_param_desc * cmeta_abi_carrier) : bool :=
  negb (bool_decide (snd x = CMETA_ABI_UNSPECIFIED)) && bool_decide (snd x = snd y) &&
  (pd_flags (fst x) =? pd_flags (fst y)) &&
  cmeta_type_equal (pd_type (fst x)) (pd_type (fst y)).

Definition cmeta_function_abi_contract_compatible
    (expected candidate : option cmeta_function_abi_desc) : bool :=
  match expected, candidate with
  | Some e, Some c =>
      if negb (cmeta_function_abi_desc_valid expected) ||
         negb (cmeta_function_abi_desc_valid candidate) then false
      else
        match ad_function e, ad_function c with
        | Some a, Some b =>
            if bool_decide (ad_return_carrier e = CMETA_ABI_UNSPECIFIED) ||
               negb (bool_decide (ad_return_carrier e = ad_return_carrier c)) ||
               negb (ad_param_count e =? ad_param_count c)%nat ||
               negb (cmeta_type_equal (fd_return_type a) (fd_return_type b)) ||
               negb (fd_result_flags a =? fd_result_flags b) ||
               negb (fd_effects a =? fd_effects b) ||
               negb (fd_properties a =? fd_properties b) then false
            else forallb_upto (fun xy => contract_row_same (fst xy) (snd xy))
                   (zip (signature_rows e a) (signature_rows c b)) (ad_param_count e)
        | _, _ => false
        end
  | _, _ => false
  end.

(** * Projections are exact *)

(** The rows a projection keeps: those whose [bound] flag is clear. *)
Fixpoint unbound_rows {A} (bound : list bool) (rows : list A) : list A :=
  match bound, rows with
  | true :: bound', _ :: rows' => unbound_rows bound' rows'
  | false :: bound', x :: rows' => x :: unbound_rows bound' rows'
  | _, _ => []
  end.

Lemma projection_loop_spec bound source projected :
  (length source <= length bound)%nat ->
  projection_loop bound source projected = true <->
  Forall2 (fun s p => projected_row_same s p = true) (unbound_rows bound source) projected.
Proof.
  revert bound projected.
  induction source as [|s source IH]; intros [|[] bound] projected Hlen; simpl in *; try lia.
  - rewrite Nat.eqb_eq, length_zero_iff_nil. split; [by intros ->|by inversion 1].
  - rewrite Nat.eqb_eq, length_zero_iff_nil. split; [by intros ->|by inversion 1].
  - rewrite Nat.eqb_eq, length_zero_iff_nil. split; [by intros ->|by inversion 1].
  - apply IH. lia.
  - destruct projected as [|p projected]; [split; [done|by inversion 1]|].
    rewrite andb_true_iff, IH by lia. split; [intros [? ?]; by constructor|by inversion 1].
Qed.

(** [cmeta_function_projection_valid] accepts a projection exactly when
    both ABI descriptors are valid, the [bound] array covers the source
    parameters, the result contract is kept and the projected parameters are,
    in order, the source parameters that are not bound, each with the same
    name, type, flags and carrier. *)
Lemma projection_valid_exact s p a b bound :
  ad_function s = Some a -> ad_function p = Some b ->
  length bound = ad_param_count s ->
  cmeta_function_projection_valid (Some s) (Some p) (Some bound) (ad_param_count s) = true <->
  cmeta_function_abi_desc_valid (Some s) = true /\
  cmeta_function_abi_desc_valid (Some p) = true /\
  receiver_admitted a = true /\
  cmeta_type_equal (fd_return_type a) (fd_return_type b) = true /\
  ad_return_carrier s = ad_return_carrier p /\
  fd_result_flags a = fd_result_flags b /\
  fd_effects a = fd_effects b /\ fd_properties a = fd_properties b /\
  Forall2 (fun x y => projected_row_same x y = true)
    (unbound_rows bound (signature_rows s a)) (signature_rows p b).
Proof.
  intros Ha Hb Hbound. unfold cmeta_function_projection_valid. rewrite Ha, Hb.
  rewrite <- projection_loop_spec by (unfold signature_rows; rewrite length_take; lia).
  simpl default. simpl is_null. reflect_guards. rewrite andb_false_r. tauto.
Qed.

(** * Equality implies replacement compatibility *)

Lemma type_equal_refl t : cmeta_type_desc_valid t = true -> cmeta_type_equal t t = true.
Proof.
  destruct t as [t|]; simpl; [|done]. destruct t. simpl. by rewrite Z.eqb_refl.
Qed.

Lemma param_valid_inv p :
  cmeta_param_desc_valid p = true ->
  c_nonempty (pd_name p) = true /\ cmeta_type_desc_valid (pd_type p) = true.
Proof. unfold cmeta_param_desc_valid. reflect_guards. tauto. Qed.

Lemma cstr_same_refl s : c_nonempty s = true -> cstr_same s s = true.
Proof. destruct s; simpl; [|done]. intros _. apply strcmp_eq_refl. Qed.

Lemma param_same_refl p : cmeta_param_desc_valid p = true -> param_same p p = true.
Proof.
  intros [Hn Ht]%param_valid_inv. unfold param_same.
  by rewrite cstr_same_refl, Z.eqb_refl, type_equal_refl.
Qed.

Lemma function_valid_inv f :
  function_node_valid f = true ->
  cmeta_type_desc_valid (fd_return_type f) = true /\
  (fd_param_count f <= length (fd_rows f))%nat /\
  Forall (fun p => cmeta_param_desc_valid p = true) (take (fd_param_count f) (fd_rows f)).
Proof.
  unfold function_node_valid. reflect_guards.
  intros (((((_ & _) & Hret) & _) & _) & _ & Hcount & Hrows).
  apply Nat.leb_le in Hcount. split_and!; [tauto|done|].
  rewrite forallb_prev_spec in Hrows. apply Forall_lookup. intros k x Hk.
  specialize (Hrows k x Hk). unfold param_row_valid in Hrows. by destruct_bools.
Qed.

(** What two equal functions share. *)
Record function_agree (f g : cmeta_function_desc) : Prop := {
  agree_return : cmeta_type_equal (fd_return_type f) (fd_return_type g) = true;
  agree_count : fd_param_count f = fd_param_count g;
  agree_result : fd_result_flags f = fd_result_flags g;
  agree_effects : fd_effects f = fd_effects g;
  agree_properties : fd_properties f = fd_properties g;
  agree_rows : Forall2 (fun p q => param_same p q = true)
    (take (fd_param_count f) (fd_rows f)) (take (fd_param_count f) (fd_rows g));
}.

Lemma function_agree_refl f : function_node_valid f = true -> function_agree f f.
Proof.
  intros (Hret & _ & Hrows)%function_valid_inv. split; try done; [by apply type_equal_refl|].
  induction Hrows; constructor; [by apply param_same_refl|done].
Qed.

Lemma function_equal_agree f g :
  (fd_addr f = fd_addr g -> f = g) ->
  cmeta_function_desc_equal (Some f) (Some g) = true -> function_agree f g.
Proof.
  intros Hco. unfold cmeta_function_desc_equal.
  destruct (fd_addr f =? fd_addr g) eqn:Haddr.
  - apply Z.eqb_eq in Haddr. rewrite <- (Hco Haddr). apply function_agree_refl.
  - reflect_guards. intros (_ & (((((? & ?) & ?) & ?) & ?) & ?) & Hrows).
    apply forallb_upto_zip in Hrows as (_ & _ & Hrows). by split.
Qed.

Lemma abi_valid_inv a f :
  ad_function a = Some f -> abi_node_valid a = true ->
  function_node_valid f = true /\ ad_param_count a = fd_param_count f /\
  (ad_param_count a <= length (abi_rows a))%nat /\ (ad_param_count a <= length (fd_rows f))%nat.
Proof.
  unfold abi_node_valid. intros ->. reflect_guards.
  intros ((((_ & Hf) & _) & _) & Hcount & _ & Hrows). split_and!; [done|done|..];
    apply forallb_upto_true in Hrows as [Hlen _]; rewrite length_zip_with in Hlen; lia.
Qed.

Lemma contract_rows_same ps qs cs :
  length ps = length cs ->
  Forall2 (fun p q => param_same p q = true) ps qs ->
  Forall (fun c => c <> CMETA_ABI_UNSPECIFIED) cs ->
  Forall2 (fun x y => contract_row_same x y = true) (zip ps cs) (zip qs cs).
Proof.
  intros Hlen Hpq. revert cs Hlen.
  induction Hpq as [|p q ps qs Hp _ IH]; intros [|c cs] Hlen Hcs; simpl in *; try done.
  inv Hcs. constructor; [|by apply IH; [lia|]].
  unfold contract_row_same, param_same in *; simpl. destruct_bools.
  rewrite !andb_true_iff, negb_true_iff, bool_decide_eq_false, bool_decide_eq_true, Z.eqb_eq.
  done.
Qed.

(** Two equal ABI descriptors with explicit carriers may replace each
    other: [cmeta_function_abi_contract_compatible] accepts them. *)
Lemma abi_equal_contract_compatible l r f g :
  ad_function l = Some f -> ad_function r = Some g ->
  (ad_addr l = ad_addr r -> l = r) -> (fd_addr f = fd_addr g -> f = g) ->
  ad_return_carrier l <> CMETA_ABI_UNSPECIFIED ->
  Forall (fun c => c <> CMETA_ABI_UNSPECIFIED) (take (ad_param_count l) (abi_rows l)) ->
  cmeta_function_abi_desc_equal (Some l) (Some r) = true ->
  cmeta_function_abi_contract_compatible (Some l) (Some r) = true.
Proof.
  intros Hf Hg Hco Hcof Hret Hcarriers Heq.
  assert (abi_node_valid l = true /\ abi_node_valid r = true /\ function_agree f g /\
          ad_return_carrier l = ad_return_carrier r /\ ad_param_count l = ad_param_count r /\
          take (ad_param_count l) (abi_rows l) = take (ad_param_count l) (abi_rows r))
    as (Hvl & Hvr & [] & Hcarrier & Hcount & Hsame).
  { revert Heq. unfold cmeta_function_abi_desc_equal.
    destruct (ad_addr l =? ad_addr r) eqn:Haddr.
    - apply Z.eqb_eq, Hco in Haddr as <-. intros Hv. simplify_eq.
      destruct (abi_valid_inv l f Hf Hv) as [? _]. split_and!; eauto using function_agree_refl.
    - rewrite Hf, Hg. reflect_guards.
      intros (((((Hvl & Hvr) & Hfg) & Hc) & Hn) & Hrows).
      apply forallb_upto_zip in Hrows as (_ & _ & Hrows).
      split_and!; [done|done|by apply function_equal_agree|done|done|].
      apply list_eq_Forall2. eapply Forall2_impl; [exact Hrows|].
      by intros ? ? ?%bool_decide_eq_true. }
  destruct (abi_valid_inv l f Hf Hvl) as (_ & Hlf & Hla & Hlr).
  destruct (abi_valid_inv r g Hg Hvr) as (_ & Hrf & Hra & Hrr).
  unfold cmeta_function_abi_contract_compatible. rewrite Hf, Hg. reflect_guards.
  split_and!; try done. apply forallb_upto_zip. unfold signature_rows.
  rewrite !length_take, !length_zip_with, !take_take, <- Hcount, Nat.min_id, !zip_with_take, <- Hsame.
  split_and!; [lia|lia|]. apply contract_rows_same; [rewrite !length_take; lia| |done].
  by rewrite Hlf.
Qed.
