(* ===== verification/CMetaInterface.v ===== *)
(** Interface descriptors (cmeta/include/cmeta/interface.h,
    cmeta/src/interface.c): validity, equality, the query for owning methods
    and the stricter admission of borrowed dynamic services. *)

From S2P Require Import Prelude CMetaType CMetaFunction.

Definition CMETA_INTERFACE_METHOD_OWNS_SELF : Z := 1.
Definition CMETA_INTERFACE_METHOD_FLAG_MASK : Z := CMETA_INTERFACE_METHOD_OWNS_SELF.

Definition sizeof_interface_method_desc : Z := 40.
Definition sizeof_interface_desc : Z := 32.

Record cmeta_interface_method_desc := mk_interface_method_desc {
  md_size : Z;
  md_name : cstr;
  md_dispatch_arity : Z;
  md_flags : Z;
  md_function : option cmeta_function_desc;
  md_abi : option cmeta_function_abi_desc;
}.

Record cmeta_interface_desc := mk_interface_desc {
  if_addr : addr;
  if_size : Z;
  if_name : cstr;
  if_methods : option (list cmeta_interface_method_desc);
  if_method_count : nat;
}.

Definition if_rows (d : cmeta_interface_desc) : list cmeta_interface_method_desc :=
  default [] (if_methods d).

(** The address a descriptor pointer holds. *)
Definition function_ptr (f : option cmeta_function_desc) : option addr := fd_addr <$> f.

Definition cmeta_interface_method_owns_self (m : cmeta_interface_method_desc) : bool :=
  negb (Z.land (md_flags m) CMETA_INTERFACE_METHOD_OWNS_SELF =? 0).

Definition cmeta_interface_method_arity (m : option cmeta_interface_method_desc) : Z :=
  match m with
  | None => 0
  | Some m =>
      match md_function m with
      | Some f => Z.of_nat (fd_param_count f)
      | None => md_dispatch_arity m
      end
  end.

Definition flags_in_mask (flags : Z) : bool :=
  Z.land flags (Z.lnot CMETA_INTERFACE_METHOD_FLAG_MASK) =? 0.

Definition cmeta_interface_method_reflection_valid (m : cmeta_interface_method_desc) : bool :=
  negb (md_size m <? sizeof_interface_method_desc) && c_nonempty (md_name m) &&
  match md_function m, md_abi m with
  | Some f, Some a =>
      cmeta_function_desc_valid (Some f) && cmeta_function_abi_desc_valid (Some a) &&
      bool_decide (function_ptr (ad_function a) = Some (fd_addr f)) &&
      (Z.of_nat (fd_param_count f) =? md_dispatch_arity m) && flags_in_mask (md_flags m)
  | _, _ => false
  end.

Definition interface_method_valid (m : cmeta_interface_method_desc) : bool :=
  if (md_size m <? sizeof_interface_method_desc) || negb (c_nonempty (md_name m)) ||
     (4 <? md_dispatch_arity m) || negb (flags_in_mask (md_flags m)) then false
  else if negb (Bool.eqb (is_null (md_function m)) (is_null (md_abi m))) then false
  else is_null (md_function m) || cmeta_interface_method_reflection_valid m.

Definition interface_node_valid (d : cmeta_interface_desc) : bool :=
  if (if_size d <? sizeof_interface_desc) || negb (c_nonempty (if_name d)) ||
     (negb (if_method_count d =? 0)%nat && is_null (if_methods d)) then false
  else forallb_upto interface_method_valid (if_rows d) (if_method_count d).

Definition cmeta_interface_desc_valid (desc : option cmeta_interface_desc) : bool :=
  match desc with None => false | Some d => interface_node_valid d end.

Definition cmeta_interface_desc_has_owning_method (desc : option cmeta_interface_desc) : bool :=
  match desc with
  | None => false
  | Some d =>
      if negb (cmeta_interface_desc_valid desc) then false
      else existsb cmeta_interface_method_owns_self (take (if_method_count d) (if_rows d))
  end.

Definition service_param_valid (p : cmeta_param_desc) (c : cmeta_abi_carrier) : bool :=
  negb (bool_decide (c = CMETA_ABI_UNSPECIFIED) ||
        (Z.land (pd_flags p) CMETA_PARAM_DIRECTION_MASK =? CMETA_PARAM_UNKNOWN) ||
        (type_kind_is (pd_type p) CMETA_T_POINTER &&
         (Z.land (pd_flags p) CMETA_PARAM_OWNERSHIP_MASK =? 0))).

(** One round of the loop; [before] are the methods already visited. *)
Definition service_method_valid
    (before : list cmeta_interface_method_desc) (m : cmeta_interface_method_desc) : bool :=
  if negb (cmeta_interface_method_reflection_valid m) || cmeta_interface_method_owns_self m
  then false
  else
    match md_function m, md_abi m with
    | Some f, Some a =>
        if bool_decide (ad_return_carrier a = CMETA_ABI_UNSPECIFIED) ||
           (negb (type_kind_is (fd_return_type f) CMETA_T_VOID) &&
            (Z.land (fd_result_flags f) CMETA_RESULT_CLASS_MASK =? CMETA_RESULT_UNKNOWN))
        then false
        else
          forallb_upto (fun pc => service_param_valid (fst pc) (snd pc))
            (zip (fd_rows f) (abi_rows a)) (fd_param_count f) &&
          forallb (fun prev => negb (cstr_same (md_name prev) (md_name m))) before
    | _, _ => false
    end.

Definition cmeta_interface_borrowed_service_abi_valid (desc : option cmeta_interface_desc)
    : bool :=
  match desc with
  | None => false
  | Some d =>
      if negb (cmeta_interface_desc_valid desc) then false
      else forallb_prev service_method_valid [] (take (if_method_count d) (if_rows d))
  end.

Definition method_same (a b : cmeta_interface_method_desc) : bool :=
  if negb (cstr_same (md_name a) (md_name b)) ||
     negb (md_dispatch_arity a =? md_dispatch_arity b) || negb (md_flags a =? md_flags b)
  then false
  else if negb (Bool.eqb (is_null (md_function a)) (is_null (md_function b))) ||
          negb (Bool.eqb (is_null (md_abi a)) (is_null (md_abi b))) then false
  else is_null (md_function a) ||
       (cmeta_function_desc_equal (md_function a) (md_function b) &&
        cmeta_function_abi_desc_equal (md_abi a) (md_abi b)).

Definition cmeta_interface_desc_equal (left right : option cmeta_interface_desc) : bool :=
  match left, right with
  | Some l, Some r =>
      if if_addr l =? if_addr r then cmeta_interface_desc_valid left
      else if negb (cmeta_interface_desc_valid left) ||
              negb (cmeta_interface_desc_valid right) ||
              negb (cstr_same (if_name l) (if_name r)) ||
              negb (if_method_count l =? if_method_count r)%nat then false
      else forallb_upto (fun ab => method_same (fst ab) (snd ab))
             (zip (if_rows l) (if_rows r)) (if_method_count l)
  | _, _ => false
  end.

(** * Properties *)

Lemma interface_equal_valid l r :
  (if_addr l = if_addr r -> l = r) ->
  cmeta_interface_desc_equal (Some l) (Some r) = true ->
  cmeta_interface_desc_valid (Some l) = true /\ cmeta_interface_desc_valid (Some r) = true.
Proof.
  intros Hco. unfold cmeta_interface_desc_equal. destruct (_ =? _) eqn:Haddr.
  - apply Z.eqb_eq, Hco in Haddr as <-. done.
  - reflect_guards. tauto.
Qed.

Lemma interface_equal_refl d :
  cmeta_interface_desc_valid (Some d) = true -> cmeta_interface_desc_equal (Some d) (Some d) = true.
Proof. unfold cmeta_interface_desc_equal. by rewrite Z.eqb_refl. Qed.

(** The methods two equal interfaces list. *)
Lemma interface_equal_methods l r :
  (if_addr l = if_addr r -> l = r) ->
  cmeta_interface_desc_equal (Some l) (Some r) = true ->
  Forall2 (fun a b => a = b \/ method_same a b = true)
    (take (if_method_count l) (if_rows l)) (take (if_method_count r) (if_rows r)).
Proof.
  intros Hco. unfold cmeta_interface_desc_equal. destruct (_ =? _) eqn:Haddr.
  - apply Z.eqb_eq, Hco in Haddr as <-. intros _.
    apply Forall2_same_length_lookup. split; [done|]. intros ? ? ? ??. left. congruence.
  - reflect_guards. intros ((_ & Hcount) & Hrows).
    apply forallb_upto_zip in Hrows as (_ & _ & Hrows). rewrite <- Hcount.
    eapply Forall2_impl; [exact Hrows|]. auto.
Qed.

Lemma method_same_flags a b : method_same a b = true -> md_flags a = md_flags b.
Proof. unfold method_same. reflect_guards. tauto. Qed.

Lemma equal_interfaces_owning_rule l r :
  (if_addr l = if_addr r -> l = r) ->
  cmeta_interface_desc_equal (Some l) (Some r) = true ->
  cmeta_interface_desc_has_owning_method (Some l) =
  cmeta_interface_desc_has_owning_method (Some r).
Proof.
  intros Hco Heq. destruct (interface_equal_valid l r Hco Heq) as [Hl Hr].
  pose proof (interface_equal_methods l r Hco Heq) as Hm.
  unfold cmeta_interface_desc_has_owning_method. rewrite Hl, Hr. simpl.
  induction Hm as [|a b xs ys [->|Hab] _ IH]; simpl; [done|by rewrite IH|].
  unfold cmeta_interface_method_owns_self at 1 3. by rewrite (method_same_flags a b Hab), IH.
Qed.

(** An interface equal to one without owning methods has none either:
    [cmeta_interface_desc_has_owning_method], the test that keeps a borrowed
    projection from consuming its object, does not depend on which of two
    equal descriptors it is given. *)
Lemma equal_interfaces_owning l r :
  (if_addr l = if_addr r -> l = r) ->
  cmeta_interface_desc_equal (Some l) (Some r) = true ->
  cmeta_interface_desc_has_owning_method (Some l) =
  cmeta_interface_desc_has_owning_method (Some r).
Proof. apply equal_interfaces_owning_rule. Qed.

(** every method of an interface admitted as a borrowed dynamic service is
    reflected, does not own [self], has an explicit return carrier and explicit
    parameter carriers and directions, and no two methods share a name. *)
Theorem borrowed_service_methods d :
  cmeta_interface_borrowed_service_abi_valid (Some d) = true ->
  cmeta_interface_desc_has_owning_method (Some d) = false /\
  (if_method_count d <= length (if_rows d))%nat /\
  forall i m, (i < if_method_count d)%nat -> if_rows d !! i = Some m ->
    (exists f a, md_function m = Some f /\ md_abi m = Some a /\
       ad_return_carrier a <> CMETA_ABI_UNSPECIFIED /\
       Forall2 (fun p c => service_param_valid p c = true)
         (take (fd_param_count f) (fd_rows f)) (take (fd_param_count f) (abi_rows a))) /\
    (forall j m', (j < i)%nat -> if_rows d !! j = Some m' ->
       cstr_same (md_name m') (md_name m) = false).
Proof.
  unfold cmeta_interface_borrowed_service_abi_valid. reflect_guards.
  rewrite forallb_prev_spec. intros [Hv Hrows].
  assert (forall i m, (i < if_method_count d)%nat -> if_rows d !! i = Some m ->
            service_method_valid (take i (if_rows d)) m = true) as Hmethods.
  { intros i m Hi Hm. specialize (Hrows i m). rewrite lookup_take_lt in Hrows by done.
    specialize (Hrows Hm). by rewrite take_take, Nat.min_l in Hrows by lia. }
  split_and!.
  - unfold cmeta_interface_desc_has_owning_method. rewrite Hv. simpl.
    apply not_true_iff_false. intros (m & Hin & Hown)%existsb_exists.
    apply list_elem_of_In, list_elem_of_lookup in Hin as [i Hi].
    apply lookup_take_Some in Hi as [Hi Hlt]. specialize (Hmethods i m Hlt Hi).
    unfold service_method_valid in Hmethods. by rewrite Hown, orb_true_r in Hmethods.
  - simpl in Hv. unfold interface_node_valid in Hv. revert Hv. reflect_guards.
    intros [_ Hup]. by apply forallb_upto_true in Hup as [? _].
  - intros i m Hi Hm. specialize (Hmethods i m Hi Hm). revert Hmethods.
    unfold service_method_valid. reflect_guards. intros [_ Hbody].
    destruct (md_function m) as [f|]; [|done]. destruct (md_abi m) as [a|]; [|done].
    revert Hbody. reflect_guards. intros ((Hret & _) & Hparams & Hnames). split.
    + exists f, a. apply forallb_upto_zip in Hparams as (_ & _ & ?). done.
    + intros j m' Hj Hm'. rewrite forallb_true in Hnames. apply negb_true_iff, Hnames.
      apply list_elem_of_lookup. exists j. by rewrite lookup_take_lt.
Qed.
