(* ===== verification/CMetaData.v ===== *)
(** Data descriptors of CMeta (cmeta/include/cmeta/data.h, struct.h, enum.h;
    the descriptor half of cmeta/src/data.c, cmeta/src/enum.c): the shapes a
    descriptor may have for its kind, the checked layout of records, reflected
    records and tagged unions, and descriptor equality.  The value operations
    of data.c (buffers, enums, collections) are not modelled here. *)

From S2P Require Import Prelude CMetaType.

(** * Enumerations (enum.h, enum.c) *)

Record cmeta_enum_item_desc := mk_enum_item {
  ei_value : Z;
  ei_symbol : cstr;
  ei_text : cstr;
}.

Record cmeta_enum_desc := mk_enum_desc {
  en_name : cstr;
  en_items : option (list cmeta_enum_item_desc);
  en_count : nat;
}.

Definition CMETA_ENUM_DOMAIN_ABI_VERSION : Z := 1.

Inductive cmeta_enum_signedness :=
  | CMETA_ENUM_SIGNED
  | CMETA_ENUM_UNSIGNED
  | CMETA_ENUM_SIGNEDNESS_OTHER (value : Z).

Inductive cmeta_enum_domain_kind :=
  | CMETA_ENUM_ORDINARY
  | CMETA_ENUM_FLAGS
  | CMETA_ENUM_KIND_OTHER (value : Z).

Record cmeta_enum_bits_item := mk_enum_bits_item {
  eb_bits : Z;
  eb_symbol : cstr;
  eb_text : cstr;
}.

Record cmeta_enum_domain := mk_enum_domain {
  ed_struct_size : Z;
  ed_abi_version : Z;
  ed_signedness : cmeta_enum_signedness;
  ed_bits : Z;
  ed_kind : cmeta_enum_domain_kind;
  ed_items : option (list cmeta_enum_bits_item);
  ed_count : nat;
  ed_declared_mask : Z;
}.

(** [offsetof(declared_mask) + sizeof(declared_mask)] on LP64. *)
Definition enum_domain_prefix_size : Z := 48.

Definition width_mask (bits : Z) : Z :=
  if bits =? 64 then UINT64_MAX else u64 (Z.shiftl 1 bits - 1).

(** The bits of a [uint64_t] outside a mask. *)
Definition bits_outside (bits mask : Z) : Z := Z.land bits (u64 (Z.lnot mask)).

Definition enum_item_valid (mask : Z) (item : cmeta_enum_bits_item) : bool :=
  (bits_outside (eb_bits item) mask =? 0) && c_nonempty (eb_symbol item) &&
  c_nonempty (eb_text item).

Definition enum_items_mask (items : list cmeta_enum_bits_item) : Z :=
  foldl (fun mask item => Z.lor mask (eb_bits item)) 0 items.

Definition cmeta_enum_domain_valid (domain : option cmeta_enum_domain) : bool :=
  match domain with
  | None => false
  | Some d =>
      if (ed_struct_size d <? enum_domain_prefix_size) ||
         negb (ed_abi_version d =? CMETA_ENUM_DOMAIN_ABI_VERSION) ||
         negb ((ed_bits d =? 8) || (ed_bits d =? 16) || (ed_bits d =? 32) || (ed_bits d =? 64)) ||
         match ed_signedness d with CMETA_ENUM_SIGNEDNESS_OTHER _ => true | _ => false end ||
         match ed_kind d with CMETA_ENUM_KIND_OTHER _ => true | _ => false end ||
         (negb (ed_count d =? 0)%nat && is_null (ed_items d))
      then false
      else
        forallb_upto (enum_item_valid (width_mask (ed_bits d))) (default [] (ed_items d)) (ed_count d) &&
        (ed_declared_mask d =?
         match ed_kind d with
         | CMETA_ENUM_FLAGS => enum_items_mask (take (ed_count d) (default [] (ed_items d)))
         | _ => 0
         end)
  end.

Definition cmeta_enum_item_by_value (desc : option cmeta_enum_desc) (value : Z)
    : option cmeta_enum_item_desc :=
  match desc with
  | None => None
  | Some d =>
      List.find (fun item => ei_value item =? value)
        (take (en_count d) (default [] (en_items d)))
  end.

(** * Records (struct.h) *)

Record cmeta_field_desc := mk_field_desc {
  fl_name : cstr;
  fl_offset : Z;
  fl_size : Z;
  fl_align : Z;
  fl_type : option cmeta_type_desc;
}.

Record cmeta_struct_desc := mk_struct_desc {
  sd_name : cstr;
  sd_size : Z;
  sd_align : Z;
  sd_fields : option (list cmeta_field_desc);
  sd_field_count : nat;
}.

Definition CMETA_FIELD_DYNAMIC_OFFSET : Z := SIZE_MAX.

Definition cmeta_struct_field (desc : option cmeta_struct_desc) (index : nat)
    : option cmeta_field_desc :=
  match desc with
  | None => None
  | Some d => if (index <? sd_field_count d)%nat then default [] (sd_fields d) !! index else None
  end.

Definition cmeta_struct_find_field (desc : option cmeta_struct_desc) (name : cstr)
    : option cmeta_field_desc :=
  match desc, name with
  | Some d, Some n =>
      List.find (fun f => cstr_same (fl_name f) (Some n))
        (take (sd_field_count d) (default [] (sd_fields d)))
  | _, _ => None
  end.

(** * Data descriptors (data.h) *)

Inductive cmeta_data_kind :=
  | CMETA_DATA_BOOL
  | CMETA_DATA_SINT
  | CMETA_DATA_UINT
  | CMETA_DATA_FLOAT
  | CMETA_DATA_STRING
  | CMETA_DATA_BYTES
  | CMETA_DATA_ENUM
  | CMETA_DATA_STRUCT
  | CMETA_DATA_VARIANT
  | CMETA_DATA_SEQUENCE
  | CMETA_DATA_SET
  | CMETA_DATA_MAP
  | CMETA_DATA_CUSTOM
  | CMETA_DATA_OTHER (value : Z).

#[export] Instance cmeta_data_kind_eq_dec : EqDecision cmeta_data_kind.
Proof. solve_decision. Defined.

Definition CMETA_DATA_DESC_ABI_VERSION : Z := 1.
Definition CMETA_DATA_DESC_REFLECTION_ABI_VERSION : Z := 2.

Inductive cmeta_data_buffer_ownership :=
  | CMETA_DATA_BUFFER_OWNED
  | CMETA_DATA_BUFFER_BORROWED
  | CMETA_DATA_BUFFER_CUSTOM
  | CMETA_DATA_BUFFER_OTHER (value : Z).

Inductive cmeta_data_reflection_mode :=
  | CMETA_DATA_REFLECTION_VIEW
  | CMETA_DATA_REFLECTION_VALUE
  | CMETA_DATA_REFLECTION_OTHER (value : Z).

#[export] Instance cmeta_data_reflection_mode_eq_dec : EqDecision cmeta_data_reflection_mode.
Proof. solve_decision. Defined.

Definition CMETA_DATA_REFLECTION_MAX_FIELDS : nat := 16.

(** [D] is the type of data descriptors, tied below. *)
Record cmeta_data_field_desc_of (D : Type) := mk_data_field {
  df_stable_id : cstr;
  df_name : cstr;
  df_offset : Z;
  df_value : option D;
}.

Record cmeta_data_struct_shape_of (D : Type) := mk_struct_shape {
  ss_layout : option cmeta_struct_desc;
  ss_fields : option (list (cmeta_data_field_desc_of D));
  ss_field_count : nat;
}.

Record cmeta_data_reflection_shape_of (D : Type) := mk_reflection_shape {
  rs_structure : cmeta_data_struct_shape_of D;
  rs_struct_size : Z;
  rs_mode : cmeta_data_reflection_mode;
}.

Record cmeta_data_variant_case_of (D : Type) := mk_variant_case {
  vc_tag : Z;
  vc_stable_id : cstr;
  vc_name : cstr;
  vc_offset : Z;
  vc_value : option D;
}.

Record cmeta_data_variant_shape_of (D : Type) := mk_variant_shape {
  vs_tag_offset : Z;
  vs_tag : option D;
  vs_cases : option (list (cmeta_data_variant_case_of D));
  vs_case_count : nat;
}.

(** [const void *shape]: the object it points at, by its C type.  A kind that
    reads it as another type is undefined in C; the model then answers
    [false]. *)
Inductive data_shape_of (D : Type) :=
  | Shape_integer (bits : Z)
  | Shape_float (bits : Z)
  | Shape_buffer (ownership : cmeta_data_buffer_ownership)
  | Shape_enum (meta : option cmeta_enum_desc)
  | Shape_struct (shape : cmeta_data_struct_shape_of D)
  | Shape_reflection (shape : cmeta_data_reflection_shape_of D)
  | Shape_variant (shape : cmeta_data_variant_shape_of D)
  | Shape_custom (address : addr).

Arguments df_stable_id {D} _.
Arguments df_name {D} _.
Arguments df_offset {D} _.
Arguments df_value {D} _.
Arguments ss_layout {D} _.
Arguments ss_fields {D} _.
Arguments ss_field_count {D} _.
Arguments rs_structure {D} _.
Arguments rs_struct_size {D} _.
Arguments rs_mode {D} _.
Arguments vc_tag {D} _.
Arguments vc_stable_id {D} _.
Arguments vc_name {D} _.
Arguments vc_offset {D} _.
Arguments vc_value {D} _.
Arguments vs_tag_offset {D} _.
Arguments vs_tag {D} _.
Arguments vs_cases {D} _.
Arguments vs_case_count {D} _.
Arguments Shape_integer {D} _.
Arguments Shape_float {D} _.
Arguments Shape_buffer {D} _.
Arguments Shape_enum {D} _.
Arguments Shape_struct {D} _.
Arguments Shape_reflection {D} _.
Arguments Shape_variant {D} _.
Arguments Shape_custom {D} _.

Record cmeta_data_enum_bits_ops := mk_enum_bits_ops {
  bo_struct_size : Z;
  bo_abi_version : Z;
  bo_domain : option cmeta_enum_domain;
}.

(** The callback tables other than [enum_bits_ops] are only compared with
    NULL here. *)
Inductive cmeta_data_desc := mk_data_desc {
  dd_addr : addr;
  dd_struct_size : Z;
  dd_abi_version : Z;
  dd_stable_id : cstr;
  dd_display_name : cstr;
  dd_kind : cmeta_data_kind;
  dd_storage_type : option cmeta_type_desc;
  dd_shape : option (data_shape_of cmeta_data_desc);
  dd_buffer_ops : option addr;
  dd_enum_ops : option addr;
  dd_variant_ops : option addr;
  dd_fixed_ops : option addr;
  dd_enum_bits_ops : option cmeta_data_enum_bits_ops;
  dd_collection_ops : option addr;
  dd_map_ops : option addr;
  dd_construct_ops : option addr;
}.

Abbreviation cmeta_data_field_desc := (cmeta_data_field_desc_of cmeta_data_desc).
Abbreviation cmeta_data_struct_shape := (cmeta_data_struct_shape_of cmeta_data_desc).
Abbreviation cmeta_data_variant_shape := (cmeta_data_variant_shape_of cmeta_data_desc).

(** Sizes of [cmeta_data_desc] up to a member (LP64). *)
Definition CMETA_DATA_DESC_PREFIX_SIZE : Z := 56.
Definition CMETA_DATA_DESC_ENUM_BITS_OPS_SIZE : Z := 96.
Definition data_desc_collection_ops_size : Z := 104.
Definition data_desc_map_ops_size : Z := 112.
Definition sizeof_data_desc : Z := 120.
Definition sizeof_reflection_shape : Z := 40.
Definition CMETA_DATA_ENUM_BITS_OPS_PREFIX_SIZE : Z := 64.
Definition CMETA_DATA_ENUM_BITS_OPS_ABI_VERSION : Z := 1.

(** * Shapes *)

Definition cmeta_data_integer_bits_valid (bits : Z) : bool :=
  (bits =? 8) || (bits =? 16) || (bits =? 32) || (bits =? 64).

Definition cmeta_data_float_bits_valid (bits : Z) : bool := (bits =? 32) || (bits =? 64).

Definition cmeta_data_buffer_ownership_valid (ownership : cmeta_data_buffer_ownership) : bool :=
  match ownership with CMETA_DATA_BUFFER_OTHER _ => false | _ => true end.

Definition cmeta_data_kind_valid (kind : cmeta_data_kind) : bool :=
  match kind with CMETA_DATA_OTHER _ => false | _ => true end.

Definition cmeta_data_kind_is_container (kind : cmeta_data_kind) : bool :=
  match kind with CMETA_DATA_SEQUENCE | CMETA_DATA_SET | CMETA_DATA_MAP => true | _ => false end.

Definition cmeta_data_enum_shape_valid (shape : option (option cmeta_enum_desc)) : bool :=
  match shape with
  | Some (Some meta) => c_nonempty (en_name meta) && ((en_count meta =? 0)%nat || negb (is_null (en_items meta)))
  | _ => false
  end.

Definition cmeta_data_enum_bits_valid (domain : cmeta_enum_domain) (bits : Z) : bool :=
  if negb (bits_outside bits (width_mask (ed_bits domain)) =? 0) then false
  else
    match ed_kind domain with
    | CMETA_ENUM_FLAGS => bits_outside bits (ed_declared_mask domain) =? 0
    | _ => existsb (fun item => eb_bits item =? bits)
             (take (ed_count domain) (default [] (ed_items domain)))
    end.

Definition struct_field_valid (layout : cmeta_struct_desc) (field : cmeta_data_field_desc) : bool :=
  c_nonempty (df_stable_id field) && c_nonempty (df_name field) &&
  negb (is_null (df_value field)) &&
  match cmeta_struct_find_field (Some layout) (df_name field) with
  | None => false
  | Some lf => fl_offset lf =? df_offset field
  end.

Definition cmeta_data_struct_shape_valid (shape : option cmeta_data_struct_shape) : bool :=
  match shape with
  | None => false
  | Some s =>
      match ss_layout s with
      | None => false
      | Some layout =>
          if negb (c_nonempty (sd_name layout)) ||
             (negb (sd_field_count layout =? 0)%nat && is_null (sd_fields layout)) ||
             (negb (ss_field_count s =? 0)%nat && is_null (ss_fields s)) ||
             (sd_field_count layout <? ss_field_count s)%nat then false
          else forallb_upto (struct_field_valid layout) (default [] (ss_fields s)) (ss_field_count s)
      end
  end.

Definition cmeta_data_reflection_field_valid (owner_storage : cmeta_type_desc)
    (field : cmeta_data_field_desc) (layout : cmeta_field_desc) : bool :=
  match df_value field, fl_type layout with
  | Some value, Some ltype =>
      match dd_storage_type value with
      | None => false
      | Some storage =>
          c_nonempty (df_stable_id field) && c_nonempty (df_name field) &&
          c_nonempty (fl_name layout) &&
          negb (dd_struct_size value <? CMETA_DATA_DESC_PREFIX_SIZE) &&
          cmeta_type_desc_valid (Some ltype) && cmeta_type_desc_valid (Some storage) &&
          cstr_same (df_name field) (fl_name layout) && (df_offset field =? fl_offset layout) &&
          (fl_size layout =? td_size storage) && (fl_align layout =? td_align storage) &&
          (td_size ltype =? td_size storage) && (td_align ltype =? td_align storage) &&
          cmeta_type_equal (Some ltype) (Some storage) &&
          (df_offset field <=? td_size owner_storage) &&
          (td_size storage <=? u64 (td_size owner_storage - df_offset field)) &&
          (df_offset field mod td_align storage =? 0) &&
          (td_align storage <=? td_align owner_storage)
      end
  | _, _ => false
  end.

(** [before] are the earlier fields with their layout rows. *)
Definition reflection_row_valid (owner_storage : cmeta_type_desc) (mode : cmeta_data_reflection_mode)
    (before : list (cmeta_data_field_desc * cmeta_field_desc))
    (row : cmeta_data_field_desc * cmeta_field_desc) : bool :=
  let '(field, layout) := row in
  cmeta_data_reflection_field_valid owner_storage field layout &&
  forallb (fun prev =>
    let '(previous, playout) := prev in
    negb (cstr_same (df_stable_id field) (df_stable_id previous) ||
          cstr_same (df_name field) (df_name previous)) &&
    negb (bool_decide (mode = CMETA_DATA_REFLECTION_VALUE) &&
          (df_offset field <? u64 (df_offset previous + fl_size playout)) &&
          (df_offset previous <? u64 (df_offset field + fl_size layout)))) before.

Definition all_null (ops : list (option addr)) : bool := forallb is_null ops.

Definition cmeta_data_reflection_valid (desc : cmeta_data_desc) : bool :=
  if negb (bool_decide (dd_kind desc = CMETA_DATA_STRUCT)) ||
     (dd_struct_size desc <? sizeof_data_desc) ||
     negb (cmeta_type_desc_valid (dd_storage_type desc)) ||
     negb (all_null [dd_buffer_ops desc; dd_enum_ops desc; dd_variant_ops desc;
                     dd_fixed_ops desc; dd_collection_ops desc; dd_map_ops desc;
                     dd_construct_ops desc]) ||
     negb (is_null (dd_enum_bits_ops desc)) then false
  else
    match dd_storage_type desc, dd_shape desc with
    | Some storage, Some (Shape_reflection r) =>
        let shape := rs_structure r in
        match ss_layout shape with
        | None => false
        | Some layout =>
            if (rs_struct_size r <? sizeof_reflection_shape) ||
               match rs_mode r with CMETA_DATA_REFLECTION_OTHER _ => true | _ => false end ||
               negb (c_nonempty (sd_name layout)) || (ss_field_count shape =? 0)%nat ||
               (CMETA_DATA_REFLECTION_MAX_FIELDS <? ss_field_count shape)%nat ||
               is_null (ss_fields shape) || is_null (sd_fields layout) ||
               negb (sd_field_count layout =? ss_field_count shape)%nat ||
               negb (sd_size layout =? td_size storage) ||
               negb (sd_align layout =? td_align storage) then false
            else
              let rows := zip (default [] (ss_fields shape)) (default [] (sd_fields layout)) in
              (ss_field_count shape <=? length rows)%nat &&
              forallb_prev (reflection_row_valid storage (rs_mode r)) []
                (take (ss_field_count shape) rows)
        end
    | _, _ => false
    end.

(** * Tagged unions *)

(** [desc_valid] is the recursive call of [cmeta_data_desc_valid]. *)
Definition cmeta_data_variant_tag_kind_valid (desc_valid : cmeta_data_desc -> bool)
    (tag : option cmeta_data_desc) : bool :=
  match tag with
  | None => false
  | Some t =>
      match dd_kind t with
      | CMETA_DATA_SINT | CMETA_DATA_UINT => desc_valid t
      | CMETA_DATA_ENUM => desc_valid t && negb (is_null (dd_shape t))
      | _ => false
      end
  end.

Definition cmeta_data_variant_tag_value_valid (tag : option cmeta_data_desc) (value : Z) : bool :=
  match tag with
  | None => false
  | Some t =>
      match dd_kind t, dd_shape t with
      | CMETA_DATA_SINT, Some (Shape_integer bits) =>
          if bits =? 64 then true
          else
            let limit := Z.shiftl 1 (bits - 1) in
            (- limit <=? value) && (value <? limit)
      | CMETA_DATA_UINT, Some (Shape_integer bits) =>
          if value <? 0 then false else value <=? width_mask bits
      | CMETA_DATA_ENUM, Some (Shape_enum meta) =>
          negb (is_null (cmeta_enum_item_by_value meta value))
      | _, _ => false
      end
  end.

Definition cmeta_data_variant_member_fits (owner : cmeta_data_desc) (offset : Z)
    (member : option cmeta_data_desc) : bool :=
  match dd_storage_type owner, member with
  | Some ostorage, Some m =>
      match dd_storage_type m with
      | None => false
      | Some mstorage =>
          if negb (cmeta_type_desc_valid (Some mstorage)) || (td_align mstorage =? 0) ||
             negb (offset mod td_align mstorage =? 0) || (td_size ostorage <? offset) then false
          else td_size mstorage <=? u64 (td_size ostorage - offset)
      end
  | _, _ => false
  end.

Definition cmeta_data_variant_members_overlap (left_offset : Z) (left : option cmeta_data_desc)
    (right_offset : Z) (right : option cmeta_data_desc) : bool :=
  match left ≫= dd_storage_type, right ≫= dd_storage_type with
  | Some l, Some r =>
      if (SIZE_MAX - td_size l <? left_offset) || (SIZE_MAX - td_size r <? right_offset) then true
      else (left_offset <? right_offset + td_size r) && (right_offset <? left_offset + td_size l)
  | _, _ => true
  end.

Definition variant_case_valid (owner : cmeta_data_desc) (shape : cmeta_data_variant_shape)
    (item : cmeta_data_variant_case_of cmeta_data_desc) : bool :=
  c_nonempty (vc_stable_id item) && c_nonempty (vc_name item) &&
  negb (is_null (vc_value item)) &&
  cmeta_data_variant_tag_value_valid (vs_tag shape) (vc_tag item) &&
  cmeta_data_variant_member_fits owner (vc_offset item) (vc_value item) &&
  negb (cmeta_data_variant_members_overlap (vs_tag_offset shape) (vs_tag shape)
          (vc_offset item) (vc_value item)).

(** The loop over the cases; each tag is compared with the later ones. *)
Fixpoint variant_cases_valid (owner : cmeta_data_desc) (shape : cmeta_data_variant_shape)
    (cases : list (cmeta_data_variant_case_of cmeta_data_desc)) : bool :=
  match cases with
  | [] => true
  | item :: rest =>
      variant_case_valid owner shape item &&
      forallb (fun later => negb (vc_tag later =? vc_tag item)) rest &&
      variant_cases_valid owner shape rest
  end.

Definition cmeta_data_variant_shape_valid (desc_valid : cmeta_data_desc -> bool)
    (owner : cmeta_data_desc) (shape : cmeta_data_variant_shape) : bool :=
  if is_null (dd_storage_type owner) ||
     negb (cmeta_data_variant_tag_kind_valid desc_valid (vs_tag shape)) ||
     negb (cmeta_data_variant_member_fits owner (vs_tag_offset shape) (vs_tag shape)) ||
     (negb (vs_case_count shape =? 0)%nat && is_null (vs_cases shape)) then false
  else
    (vs_case_count shape <=? length (default [] (vs_cases shape)))%nat &&
    variant_cases_valid owner shape (take (vs_case_count shape) (default [] (vs_cases shape))).

(** [desc->shape] read as a struct shape: the structure is the first member of
    a reflection shape. *)
Definition struct_shape (d : cmeta_data_desc) : option cmeta_data_struct_shape :=
  match dd_shape d with
  | Some (Shape_struct s) => Some s
  | Some (Shape_reflection r) => Some (rs_structure r)
  | _ => None
  end.

(** [cmeta_data_struct_find_field]. *)
Definition cmeta_data_struct_find_field (shape : option cmeta_data_struct_shape) (name : cstr)
    : option cmeta_data_field_desc :=
  match shape, name with
  | Some s, Some n =>
      List.find (fun f => cstr_same (df_name f) (Some n))
        (take (ss_field_count s) (default [] (ss_fields s)))
  | _, _ => None
  end.

(** * Descriptor validity and equality *)

Definition data_header_valid (d : cmeta_data_desc) : bool :=
  negb (dd_struct_size d <? CMETA_DATA_DESC_PREFIX_SIZE) &&
  ((dd_abi_version d =? CMETA_DATA_DESC_ABI_VERSION) ||
   (dd_abi_version d =? CMETA_DATA_DESC_REFLECTION_ABI_VERSION)) &&
  c_nonempty (dd_stable_id d) && c_nonempty (dd_display_name d) &&
  cmeta_data_kind_valid (dd_kind d).

Definition container_desc_valid (d : cmeta_data_desc) : bool :=
  if negb (is_null (dd_shape d)) then false
  else if is_null (dd_storage_type d) then
    (dd_struct_size d <? data_desc_collection_ops_size) || is_null (dd_collection_ops d)
  else if negb (cmeta_type_desc_valid (dd_storage_type d)) then false
  else
    match dd_kind d with
    | CMETA_DATA_MAP =>
        (data_desc_map_ops_size <=? dd_struct_size d) && negb (is_null (dd_map_ops d))
    | _ =>
        (data_desc_collection_ops_size <=? dd_struct_size d) &&
        negb (is_null (dd_collection_ops d))
    end.

Definition enum_desc_valid (d : cmeta_data_desc) : bool :=
  match dd_enum_bits_ops d with
  | Some ops =>
      if CMETA_DATA_DESC_ENUM_BITS_OPS_SIZE <=? dd_struct_size d then
        is_null (dd_shape d) && is_null (dd_enum_ops d) &&
        negb (bo_struct_size ops <? CMETA_DATA_ENUM_BITS_OPS_PREFIX_SIZE) &&
        (bo_abi_version ops =? CMETA_DATA_ENUM_BITS_OPS_ABI_VERSION) &&
        cmeta_enum_domain_valid (bo_domain ops)
      else cmeta_data_enum_shape_valid
             match dd_shape d with Some (Shape_enum meta) => Some meta | _ => None end
  | None => cmeta_data_enum_shape_valid
              match dd_shape d with Some (Shape_enum meta) => Some meta | _ => None end
  end.

Fixpoint data_node_valid (d : cmeta_data_desc) : bool :=
  if negb (data_header_valid d) then false
  else if dd_abi_version d =? CMETA_DATA_DESC_REFLECTION_ABI_VERSION
  then cmeta_data_reflection_valid d
  else if cmeta_data_kind_is_container (dd_kind d) then container_desc_valid d
  else if negb (cmeta_type_desc_valid (dd_storage_type d)) then false
  else
    match dd_kind d, dd_shape d with
    | CMETA_DATA_BOOL, None => true
    | (CMETA_DATA_SINT | CMETA_DATA_UINT), Some (Shape_integer bits) =>
        cmeta_data_integer_bits_valid bits
    | CMETA_DATA_FLOAT, Some (Shape_float bits) => cmeta_data_float_bits_valid bits
    | (CMETA_DATA_STRING | CMETA_DATA_BYTES), Some (Shape_buffer ownership) =>
        cmeta_data_buffer_ownership_valid ownership
    | CMETA_DATA_ENUM, _ => enum_desc_valid d
    | CMETA_DATA_STRUCT, _ => cmeta_data_struct_shape_valid (struct_shape d)
    | CMETA_DATA_VARIANT, Some (Shape_variant shape) =>
        cmeta_data_variant_shape_valid data_node_valid d shape
    | CMETA_DATA_CUSTOM, Some _ => true
    | _, _ => false
    end.

Definition cmeta_data_desc_valid (desc : option cmeta_data_desc) : bool :=
  match desc with None => false | Some d => data_node_valid d end.

Definition cmeta_data_desc_equal (left right : option cmeta_data_desc) : bool :=
  match left, right with
  | Some l, Some r =>
      if dd_addr l =? dd_addr r then cmeta_data_desc_valid left
      else if negb (cmeta_data_desc_valid left) || negb (cmeta_data_desc_valid right) ||
              negb (bool_decide (dd_kind l = dd_kind r)) ||
              negb (cstr_same (dd_stable_id l) (dd_stable_id r)) then false
      else
        match dd_storage_type l, dd_storage_type r with
        | Some s, Some t => cmeta_type_equal (Some s) (Some t)
        | None, None => true
        | _, _ => false
        end
  | _, _ => false
  end.

(** * Properties *)

(** What [cmeta_data_desc_equal] compares. *)
Definition data_canon (d : cmeta_data_desc) : cmeta_data_kind * string * option type_tree :=
  (dd_kind d, text_of (dd_stable_id d), type_canon <$> dd_storage_type d).

Lemma data_node_valid_id d : data_node_valid d = true -> c_nonempty (dd_stable_id d) = true.
Proof.
  destruct d. simpl. destruct (data_header_valid _) eqn:Hh; [|done]. intros _.
  unfold data_header_valid in Hh. simpl in Hh. by destruct_bools.
Qed.

(** A valid descriptor of the reflection ABI passed the reflection checks. *)
Lemma data_node_valid_reflection d :
  data_node_valid d = true -> dd_abi_version d = CMETA_DATA_DESC_REFLECTION_ABI_VERSION ->
  cmeta_data_reflection_valid d = true.
Proof.
  destruct d. simpl. intros Hv ->. destruct (data_header_valid _) in Hv; [exact Hv|done].
Qed.

Arguments data_node_valid : simpl never.

(** Two valid data descriptors of one memory are equal exactly when they
    have the same kind, the same stable id text and native storage types with
    the same canonical form; descriptor addresses do not matter. *)
Lemma data_equal_canon a b :
  (dd_addr a = dd_addr b -> a = b) ->
  (forall s t, dd_storage_type a = Some s -> dd_storage_type b = Some t ->
     type_coherent s t /\ type_deep_valid s = true /\ type_deep_valid t = true) ->
  cmeta_data_desc_valid (Some a) = true -> cmeta_data_desc_valid (Some b) = true ->
  cmeta_data_desc_equal (Some a) (Some b) = true <-> data_canon a = data_canon b.
Proof.
  intros Hco Htypes Ha Hb. unfold cmeta_data_desc_equal. destruct (dd_addr a =? dd_addr b) eqn:Haddr.
  { apply Z.eqb_eq, Hco in Haddr as <-. done. }
  rewrite Ha, Hb. simpl.
  pose proof (cstr_same_text _ _ (data_node_valid_id a Ha) (data_node_valid_id b Hb)) as Hid.
  unfold data_canon.
  destruct (bool_decide_reflect (dd_kind a = dd_kind b)) as [->|Hk]; simpl;
    [|split; [done|by intros [= ?]]].
  destruct (cstr_same (dd_stable_id a) (dd_stable_id b)); simpl;
    [|split; [done|intros [= E]; by apply Hid in E]].
  rewrite (proj1 Hid eq_refl).
  destruct (dd_storage_type a) as [s|], (dd_storage_type b) as [t|]; simpl; [|done..].
  destruct (Htypes s t eq_refl eq_refl) as (Hc & Hs & Ht).
  rewrite (type_node_equal_canon s t Hc Hs Ht). split; [by intros ->|by intros [= ->]].
Qed.

(** ** Reflected records *)

(** Field [f] with layout row [l] of a record of [size] bytes. *)
Definition field_in_bounds (size : Z) (f : cmeta_data_field_desc) (l : cmeta_field_desc) : Prop :=
  df_offset f + fl_size l <= size /\ df_offset f mod fl_align l = 0.

Definition fields_disjoint (f : cmeta_data_field_desc) (l : cmeta_field_desc)
    (g : cmeta_data_field_desc) (k : cmeta_field_desc) : Prop :=
  df_offset f + fl_size l <= df_offset g \/ df_offset g + fl_size k <= df_offset f.

Lemma reflection_field_bounds storage f l :
  0 <= df_offset f -> td_size storage <= SIZE_MAX ->
  cmeta_data_reflection_field_valid storage f l = true -> field_in_bounds (td_size storage) f l.
Proof.
  intros Hoff Hmax. unfold cmeta_data_reflection_field_valid, field_in_bounds.
  destruct (df_value f) as [v|]; [|done]. destruct (fl_type l) as [ty|]; [|done].
  destruct (dd_storage_type v) as [st|]; [|done]. intros H. destruct_bools.
  assert (u64 (td_size storage - df_offset f) = td_size storage - df_offset f) as Hu
    by (apply Z.mod_small; unfold SIZE_MAX in *; lia).
  rewrite Hu in *.
  match goal with H : fl_size l = _, H' : fl_align l = _ |- _ => rewrite H, H' end. lia.
Qed.

(** C39: in a valid VALUE reflection of a record every field lies inside the
    record at its alignment, any two fields occupy disjoint bytes, and no two
    fields share a stable id or a name: the fields can be zeroed, moved and
    destroyed one by one. *)
Theorem reflection_value_layout d r storage :
  cmeta_data_desc_valid (Some d) = true ->
  dd_abi_version d = CMETA_DATA_DESC_REFLECTION_ABI_VERSION ->
  dd_shape d = Some (Shape_reflection r) -> rs_mode r = CMETA_DATA_REFLECTION_VALUE ->
  dd_storage_type d = Some storage -> td_size storage <= SIZE_MAX ->
  (forall f, f ∈ default [] (ss_fields (rs_structure r)) -> 0 <= df_offset f) ->
  (forall layout l, ss_layout (rs_structure r) = Some layout ->
     l ∈ default [] (sd_fields layout) -> 0 <= fl_size l) ->
  exists layout, ss_layout (rs_structure r) = Some layout /\
    let rows := take (ss_field_count (rs_structure r))
                  (zip (default [] (ss_fields (rs_structure r))) (default [] (sd_fields layout))) in
    length rows = ss_field_count (rs_structure r) /\
    (forall i f l, rows !! i = Some (f, l) -> field_in_bounds (td_size storage) f l) /\
    (forall i j f l g k, (i < j)%nat -> rows !! i = Some (f, l) -> rows !! j = Some (g, k) ->
       fields_disjoint f l g k /\ cstr_same (df_name g) (df_name f) = false /\
       cstr_same (df_stable_id g) (df_stable_id f) = false).
Proof.
  intros Hv Habi Hshape Hmode Hst Hmax Hoff Hsize.
  pose proof (data_node_valid_reflection d Hv Habi) as Hr.
  unfold cmeta_data_reflection_valid in Hr. rewrite Hst, Hshape in Hr. case_if.
  destruct (ss_layout (rs_structure r)) as [layout|] eqn:Hlayout; [|done]. case_if.
  exists layout. split; [done|]. cbv zeta. apply andb_true_iff in Hr as [Hlen Hrows].
  apply Nat.leb_le in Hlen. rewrite forallb_prev_spec in Hrows.
  set (rows := take _ _) in *.
  assert (forall i f l, rows !! i = Some (f, l) ->
    field_in_bounds (td_size storage) f l /\ 0 <= df_offset f /\
    reflection_row_valid storage (rs_mode r) (take i rows) (f, l) = true) as Hrow.
  { intros i f l Hi. specialize (Hrows i (f, l) Hi). simpl app in Hrows.
    assert (0 <= df_offset f) as Hf.
    { apply Hoff. apply lookup_take_Some in Hi as [Hi _].
      apply lookup_zip_Some in Hi as [Hi _]. by eapply list_elem_of_lookup_2. }
    split_and!; [|done|done]. apply reflection_field_bounds; [done|done|].
    simpl in Hrows. by apply andb_true_iff in Hrows as [? _]. }
  split_and!.
  - unfold rows. rewrite length_take. lia.
  - intros i f l Hi. by destruct (Hrow i f l Hi).
  - intros i j f l g k Hij Hi Hj. destruct (Hrow i f l Hi) as ((Hbf & _) & Hof & _).
    destruct (Hrow j g k Hj) as ((Hbg & _) & Hog & Hvj).
    simpl in Hvj. apply andb_true_iff in Hvj as [_ Hprev]. rewrite forallb_true in Hprev.
    specialize (Hprev (f, l)). simpl in Hprev.
    assert ((f, l) ∈ take j rows) as Hin
      by (apply list_elem_of_lookup; exists i; by rewrite lookup_take_lt).
    specialize (Hprev Hin). rewrite Hmode, bool_decide_true in Hprev by done. simpl in Hprev.
    destruct_bools. split_and!; [|done|done].
    assert (0 <= fl_size l /\ 0 <= fl_size k) as [Hsl Hsk].
    { split; [apply (Hsize layout l)|apply (Hsize layout k)]; try done;
        [apply lookup_take_Some in Hi as [Hx _]|apply lookup_take_Some in Hj as [Hx _]];
        apply lookup_zip_Some in Hx as [_ Hx]; by eapply list_elem_of_lookup_2. }
    unfold fields_disjoint, u64, SIZE_MAX in *.
    rewrite (Z.mod_small (df_offset f + fl_size l)), (Z.mod_small (df_offset g + fl_size k)) in * by lia.
    match goal with H : _ && _ = false |- _ => apply andb_false_iff in H end.
    destruct_or!; destruct_bools; lia.
Qed.

