(* ===== verification/CMetaOperation.v ===== *)
(** Receiver operations (cmeta/include/cmeta/operation.h,
    cmeta/src/operation.c): operation sets of a receiver type, lookup by alias
    and resolution of a call against its argument types. *)

From S2P Require Import Prelude CMetaType CMetaFunction.

Record cmeta_receiver_operation := mk_operation {
  op_name : cstr;
  op_abi : option cmeta_function_abi_desc;
}.

Record cmeta_receiver_operation_set := mk_operation_set {
  os_addr : addr;
  os_size : Z;
  os_receiver_type : option cmeta_type_desc;
  os_operations : option (list cmeta_receiver_operation);
  os_operation_count : nat;
  os_owner : option cmeta_generic_desc;
}.

Definition sizeof_receiver_operation_set : Z := 40.
Definition sizeof_receiver_resolution : Z := 24.

Definition os_rows (s : cmeta_receiver_operation_set) : list cmeta_receiver_operation :=
  default [] (os_operations s).

(** [operation->abi->function]. *)
Definition op_function (o : cmeta_receiver_operation) : option cmeta_function_desc :=
  op_abi o ≫= ad_function.

Definition cmeta_receiver_operation_reflection_valid (operation : cmeta_receiver_operation)
    : bool :=
  c_nonempty (op_name operation) &&
  cmeta_function_abi_desc_valid (op_abi operation) &&
  cmeta_function_receiver_valid (op_function operation).

(** [receiver->type->pointee]. *)
Definition receiver_pointee (function : option cmeta_function_desc) : option cmeta_type_desc :=
  match cmeta_function_receiver function with
  | Some receiver =>
      match pd_type receiver with Some t => td_pointee t | None => None end
  | None => None
  end.

Definition cmeta_receiver_operation_valid (set : cmeta_receiver_operation_set)
    (operation : cmeta_receiver_operation) : bool :=
  if negb (cmeta_receiver_operation_reflection_valid operation) then false
  else cmeta_type_equal (receiver_pointee (op_function operation)) (os_receiver_type set).

(** The row against the ones before it. *)
Definition operation_row_valid (set : cmeta_receiver_operation_set)
    (before : list cmeta_receiver_operation) (operation : cmeta_receiver_operation) : bool :=
  cmeta_receiver_operation_valid set operation &&
  forallb (fun previous => negb (cstr_same (op_name operation) (op_name previous))) before.

Definition operation_set_node_valid (s : cmeta_receiver_operation_set) : bool :=
  if (os_size s <? sizeof_receiver_operation_set) ||
     negb (cmeta_type_desc_valid (os_receiver_type s)) ||
     (negb (is_null (os_owner s)) && negb (cmeta_generic_desc_valid (os_owner s))) then false
  else if negb (os_operation_count s =? 0)%nat && is_null (os_operations s) then false
  else (os_operation_count s <=? length (os_rows s))%nat &&
       forallb_prev (operation_row_valid s) [] (take (os_operation_count s) (os_rows s)).

Definition cmeta_receiver_operation_set_valid (set : option cmeta_receiver_operation_set)
    : bool :=
  match set with None => false | Some s => operation_set_node_valid s end.

Definition cmeta_receiver_operation_find (set : option cmeta_receiver_operation_set) (name : cstr)
    : option cmeta_receiver_operation :=
  if negb (c_nonempty name) || negb (cmeta_receiver_operation_set_valid set) then None
  else
    match set with
    | None => None
    | Some s =>
        List.find (fun o => cstr_same (op_name o) name)
          (take (os_operation_count s) (os_rows s))
    end.

Inductive cmeta_receiver_resolve_status :=
  | CMETA_RECEIVER_RESOLVE_OK
  | CMETA_RECEIVER_RESOLVE_INVALID_ARGUMENT
  | CMETA_RECEIVER_RESOLVE_INVALID_OPERATION_SET
  | CMETA_RECEIVER_RESOLVE_RECEIVER_TYPE_MISMATCH
  | CMETA_RECEIVER_RESOLVE_OPERATION_NOT_FOUND
  | CMETA_RECEIVER_RESOLVE_ARITY_MISMATCH
  | CMETA_RECEIVER_RESOLVE_ARGUMENT_TYPE_MISMATCH
  | CMETA_RECEIVER_RESOLVE_OWNER_MISMATCH.

#[export] Instance cmeta_receiver_resolve_status_eq_dec :
  EqDecision cmeta_receiver_resolve_status.
Proof. solve_decision. Defined.

(** [argument_index] is [None] for [CMETA_RECEIVER_ARGUMENT_NONE]. *)
Record cmeta_receiver_resolution := mk_resolution {
  rr_size : Z;
  rr_operation : option cmeta_receiver_operation;
  rr_argument_index : option nat;
}.

(** The loop over the arguments from [index]; [params] are the parameters
    after the receiver. *)
Fixpoint resolve_arguments (index : nat) (params : list cmeta_param_desc)
    (arguments : list (option cmeta_type_desc)) (count : nat) {struct count}
    : cmeta_receiver_resolve_status * option nat :=
  match count with
  | O => (CMETA_RECEIVER_RESOLVE_OK, None)
  | S count' =>
      match arguments, params with
      | argument :: arguments', param :: params' =>
          if negb (cmeta_type_desc_valid argument)
          then (CMETA_RECEIVER_RESOLVE_INVALID_ARGUMENT, None)
          else if negb (cmeta_type_equal (pd_type param) argument)
          then (CMETA_RECEIVER_RESOLVE_ARGUMENT_TYPE_MISMATCH, Some index)
          else resolve_arguments (S index) params' arguments' count'
      | _, _ => (CMETA_RECEIVER_RESOLVE_INVALID_ARGUMENT, None)
      end
  end.

(** A valid row has an ABI descriptor with a function whose first parameter is
    the receiver; the branches that say otherwise are unreachable after
    [cmeta_receiver_operation_find].

    [set->owner] answers a qualified call. *)
Definition owner_matches (owner set_owner : option cmeta_generic_desc) : bool :=
  is_null owner || (negb (is_null set_owner) && cmeta_generic_desc_equal owner set_owner).

Definition cmeta_receiver_operation_resolve (set : option cmeta_receiver_operation_set)
    (receiver_type : option cmeta_type_desc) (owner : option cmeta_generic_desc)
    (operation_name : cstr) (argument_types : option (list (option cmeta_type_desc)))
    (argument_count : nat) (out : option cmeta_receiver_resolution)
    : cmeta_receiver_resolve_status * option cmeta_receiver_resolution :=
  match out with
  | None => (CMETA_RECEIVER_RESOLVE_INVALID_ARGUMENT, out)
  | Some o =>
      if rr_size o <? sizeof_receiver_resolution
      then (CMETA_RECEIVER_RESOLVE_INVALID_ARGUMENT, out)
      else
        let empty := Some (mk_resolution (rr_size o) None None) in
        if negb (cmeta_type_desc_valid receiver_type) ||
           (negb (is_null owner) && negb (cmeta_generic_desc_valid owner)) ||
           negb (c_nonempty operation_name) ||
           (negb (argument_count =? 0)%nat && is_null argument_types)
        then (CMETA_RECEIVER_RESOLVE_INVALID_ARGUMENT, empty)
        else if negb (cmeta_receiver_operation_set_valid set)
        then (CMETA_RECEIVER_RESOLVE_INVALID_OPERATION_SET, empty)
        else if negb (cmeta_type_equal (set ≫= os_receiver_type) receiver_type)
        then (CMETA_RECEIVER_RESOLVE_RECEIVER_TYPE_MISMATCH, empty)
        else if negb (owner_matches owner (set ≫= os_owner))
        then (CMETA_RECEIVER_RESOLVE_OWNER_MISMATCH, empty)
        else
          match cmeta_receiver_operation_find set operation_name with
          | None => (CMETA_RECEIVER_RESOLVE_OPERATION_NOT_FOUND, empty)
          | Some operation =>
              match op_function operation with
              | None => (CMETA_RECEIVER_RESOLVE_INVALID_ARGUMENT, empty)
              | Some f =>
                  if negb (fd_param_count f - 1 =? argument_count)%nat
                  then (CMETA_RECEIVER_RESOLVE_ARITY_MISMATCH, empty)
                  else
                    match resolve_arguments 0 (drop 1 (fd_rows f)) (default [] argument_types)
                            argument_count with
                    | (CMETA_RECEIVER_RESOLVE_OK, _) =>
                        (CMETA_RECEIVER_RESOLVE_OK,
                         Some (mk_resolution (rr_size o) (Some operation) None))
                    | (status, index) => (status, Some (mk_resolution (rr_size o) None index))
                    end
              end
          end
  end.

(** * Properties *)

(** The published rows. *)
Definition published_operations (s : cmeta_receiver_operation_set)
    : list cmeta_receiver_operation := take (os_operation_count s) (os_rows s).

Lemma operation_valid_inv s o :
  cmeta_receiver_operation_valid s o = true ->
  c_nonempty (op_name o) = true /\
  exists f, op_function o = Some f /\ (0 < fd_param_count f)%nat.
Proof.
  unfold cmeta_receiver_operation_valid, cmeta_receiver_operation_reflection_valid.
  reflect_guards. intros (((Hname & _) & Hrecv) & _). split; [done|].
  unfold cmeta_function_receiver_valid, cmeta_function_receiver in Hrecv.
  destruct (op_function o) as [f|]; [|done]. exists f. split; [done|]. case_if.
  destruct_bools. lia.
Qed.

Lemma operation_set_rows s :
  cmeta_receiver_operation_set_valid (Some s) = true ->
  (forall i o, published_operations s !! i = Some o -> cmeta_receiver_operation_valid s o = true) /\
  NoDup ((fun o => text_of (op_name o)) <$> published_operations s).
Proof.
  simpl. unfold operation_set_node_valid. reflect_guards. intros (_ & _ & _ & Hrows).
  rewrite forallb_prev_spec in Hrows. fold (published_operations s) in Hrows.
  assert (forall i o, published_operations s !! i = Some o ->
    cmeta_receiver_operation_valid s o = true) as Hvalid.
  { intros i o Hi. specialize (Hrows i o Hi). by apply andb_true_iff in Hrows as [? _]. }
  split; [done|]. apply NoDup_prefix. intros i o Hi o' Ho' Heq.
  specialize (Hrows i o Hi). apply andb_true_iff in Hrows as [Ho Hprev].
  rewrite forallb_true in Hprev. specialize (Hprev o' Ho'). apply negb_true_iff in Hprev.
  apply list_elem_of_lookup in Ho' as (j & [Hj _]%lookup_take_Some).
  destruct (operation_valid_inv s o Ho) as [Hn _], (operation_valid_inv s o' (Hvalid j o' Hj)) as [Hn' _].
  by rewrite (proj2 (cstr_same_text _ _ Hn Hn') Heq) in Hprev.
Qed.

Lemma operation_find_inv s name o :
  cmeta_receiver_operation_find (Some s) name = Some o ->
  exists i, published_operations s !! i = Some o /\ cmeta_receiver_operation_valid s o = true /\
    text_of (op_name o) = text_of name.
Proof.
  unfold cmeta_receiver_operation_find. case_if; [done|]. destruct_bools. intros Hf.
  apply find_some in Hf as [Hin Hsame]. apply list_elem_of_In, list_elem_of_lookup in Hin as [i Hi].
  exists i. destruct (operation_set_rows s ltac:(done)) as [Hv _]. specialize (Hv i o Hi).
  split_and!; [done|done|].
  apply cstr_same_text; [apply (operation_valid_inv s o Hv)|done|done].
Qed.

Lemma operation_find_none s name :
  cmeta_receiver_operation_set_valid (Some s) = true -> c_nonempty name = true ->
  cmeta_receiver_operation_find (Some s) name = None ->
  forall i o, published_operations s !! i = Some o -> text_of (op_name o) <> text_of name.
Proof.
  intros Hs Hname. unfold cmeta_receiver_operation_find. rewrite Hs, Hname. simpl.
  intros Hf i o Hi Heq. destruct (operation_set_rows s Hs) as [Hv _].
  pose proof (find_none _ _ Hf o) as Hno. simpl in Hno.
  rewrite (proj2 (cstr_same_text _ _ (proj1 (operation_valid_inv s o (Hv i o Hi))) Hname) Heq) in Hno.
  discriminate Hno. apply list_elem_of_In. by eapply list_elem_of_lookup_2.
Qed.

(** Argument [a] is accepted for parameter [p]. *)
Definition argument_matches (p : cmeta_param_desc) (a : option cmeta_type_desc) : Prop :=
  cmeta_type_desc_valid a = true /\ cmeta_type_equal (pd_type p) a = true.

Lemma resolve_arguments_spec index params arguments count :
  match resolve_arguments index params arguments count with
  | (CMETA_RECEIVER_RESOLVE_OK, i) =>
      i = None /\ (count <= length params)%nat /\
      Forall2 argument_matches (take count params) (take count arguments)
  | (CMETA_RECEIVER_RESOLVE_ARGUMENT_TYPE_MISMATCH, i) =>
      exists k p a, i = Some (index + k)%nat /\ (k < count)%nat /\
        params !! k = Some p /\ arguments !! k = Some a /\
        cmeta_type_equal (pd_type p) a = false /\
        Forall2 argument_matches (take k params) (take k arguments)
  | (CMETA_RECEIVER_RESOLVE_INVALID_ARGUMENT, i) =>
      i = None /\
      ((length arguments < count)%nat \/
       ~ ((count <= length params)%nat /\
          Forall2 argument_matches (take count params) (take count arguments)))
  | _ => False
  end.
Proof.
  revert index params arguments.
  induction count as [|n IH]; intros index params arguments; simpl.
  { rewrite !take_0. split_and!; [done|lia|constructor]. }
  destruct arguments as [|a arguments]; [by split; [|left; simpl; lia]|].
  destruct params as [|p params]; simpl; [by split; [|right; intros [? _]; lia]|].
  destruct (cmeta_type_desc_valid a) eqn:Ha; simpl.
  2: { split; [done|]. right. intros [_ Hall]. inversion Hall as [|? ? ? ? [Hm _]]; congruence. }
  destruct (cmeta_type_equal (pd_type p) a) eqn:Hp; simpl.
  - specialize (IH (S index) params arguments).
    destruct (resolve_arguments (S index) params arguments n) as [[] i]; try done.
    + destruct IH as (-> & ? & ?). split_and!; [done|lia|by constructor].
    + destruct IH as [-> [?|Hno]]; (split; [done|]); [left; lia|right].
      intros [Hlen Hall]. apply Hno. split; [lia|]. by inversion Hall.
    + destruct IH as (k & q & b & -> & ? & ? & ? & ? & ?). exists (S k), q, b.
      split_and!; try done; try lia; [f_equal; lia|by constructor].
  - exists 0%nat, p, a. rewrite Nat.add_0_r. split_and!; try done; try lia; constructor.
Qed.

(** The row [name] selects accepts a call with these arguments. *)
Definition call_accepted (s : cmeta_receiver_operation_set) (name : cstr)
    (arguments : list (option cmeta_type_desc)) (o : cmeta_receiver_operation) : Prop :=
  o ∈ published_operations s /\ text_of (op_name o) = text_of name /\
  exists f, op_function o = Some f /\ fd_param_count f = S (length arguments) /\
    Forall2 argument_matches (take (length arguments) (drop 1 (fd_rows f))) arguments.

(** for a valid call on a valid operation set whose receiver type and owner
    match, [cmeta_receiver_operation_resolve] succeeds exactly when a published
    row has that name, takes as many arguments after the receiver and accepts
    each argument type, and then it reports the one such row; every failure
    reports no row, and an argument index exactly for
    [ARGUMENT_TYPE_MISMATCH]. *)
Theorem operation_resolve_exact s receiver owner name arguments out :
  cmeta_type_desc_valid receiver = true ->
  (is_Some owner -> cmeta_generic_desc_valid owner = true) ->
  c_nonempty name = true -> sizeof_receiver_resolution <= rr_size out ->
  cmeta_receiver_operation_set_valid (Some s) = true ->
  cmeta_type_equal (os_receiver_type s) receiver = true -> owner_matches owner (os_owner s) = true ->
  let '(status, result) := cmeta_receiver_operation_resolve (Some s) receiver owner name
                             (Some arguments) (length arguments) (Some out) in
  (status = CMETA_RECEIVER_RESOLVE_OK <-> exists o, call_accepted s name arguments o) /\
  (forall o, call_accepted s name arguments o ->
     result = Some (mk_resolution (rr_size out) (Some o) None)) /\
  (status <> CMETA_RECEIVER_RESOLVE_OK ->
     exists index, result = Some (mk_resolution (rr_size out) None index) /\
       (is_Some index <-> status = CMETA_RECEIVER_RESOLVE_ARGUMENT_TYPE_MISMATCH)).
Proof.
  intros Hr Howner Hname Hsize Hs Hrecv Hown.
  destruct (operation_set_rows s Hs) as [Hvalid Hdistinct].
  assert (forall o o', o ∈ published_operations s -> o' ∈ published_operations s ->
    text_of (op_name o) = text_of (op_name o') -> o = o') as Hunique.
  { intros o o' [i Hi]%list_elem_of_lookup [j Hj]%list_elem_of_lookup Heq.
    assert (i = j) as ->; [|congruence].
    eapply (NoDup_lookup _ i j _ Hdistinct); rewrite list_lookup_fmap; [by rewrite Hi|].
    rewrite Hj. simpl. by rewrite Heq. }
  unfold cmeta_receiver_operation_resolve.
  rewrite (proj2 (Z.ltb_ge _ _) Hsize), Hr, Hname, Hs. simpl in Hrecv |- *. rewrite Hrecv, Hown.
  rewrite andb_false_r, orb_false_r, orb_false_r.
  destruct (negb (is_null owner) && _) eqn:E; [exfalso|clear E; simpl].
  { destruct owner; [|done]. by rewrite Howner in E. }
  destruct (cmeta_receiver_operation_find (Some s) name) as [o|] eqn:Hfind.
  2: { pose proof (operation_find_none s name Hs Hname Hfind) as Hnone.
       assert (forall o, ~ call_accepted s name arguments o) as Hno
         by (intros o ([i Hi]%list_elem_of_lookup & Heq & _); by apply (Hnone i o Hi)).
       split_and!; [split; [done|by intros [o ?%Hno]]|by intros o ?%Hno|].
       intros _. exists None. by split; [|split; [intros [? ?]|]]. }
  destruct (operation_find_inv s name o Hfind) as (i & Hi & Ho & Htext).
  destruct (operation_valid_inv s o Ho) as (_ & f & Hf & Hpos). rewrite Hf.
  assert (forall o', call_accepted s name arguments o' -> o' = o) as Honly.
  { intros o' (Hin & Heq & _). apply Hunique; [done|by eapply list_elem_of_lookup_2|congruence]. }
  destruct (Nat.eqb_spec (fd_param_count f - 1) (length arguments)) as [Hlen|Hlen]; simpl.
  2: { assert (forall o', ~ call_accepted s name arguments o') as Hno.
       { intros o' Hc. pose proof (Honly o' Hc) as ->. destruct Hc as (_ & _ & g & Hg & Hn & _).
         assert (g = f) as -> by congruence. lia. }
       split_and!; [split; [done|by intros [o' ?%Hno]]|by intros o' ?%Hno|].
       intros _. exists None. by split; [|split; [intros [? ?]|]]. }
  pose proof (resolve_arguments_spec 0 (drop 1 (fd_rows f)) arguments (length arguments)) as Hargs.
  assert (call_accepted s name arguments o <->
    (length arguments <= length (drop 1 (fd_rows f)))%nat /\
    Forall2 argument_matches (take (length arguments) (drop 1 (fd_rows f))) arguments) as Hacc.
  { split.
    - intros (_ & _ & g & Hg & _ & Hall). assert (g = f) as -> by congruence. split; [|done].
      apply Forall2_length in Hall. rewrite length_take in Hall. lia.
    - intros [_ Hall]. split_and!; [by eapply list_elem_of_lookup_2|done|].
      exists f. split_and!; [done|lia|done]. }
  destruct (resolve_arguments 0 _ arguments _) as [status index] eqn:Hres.
  rewrite (firstn_all arguments) in Hargs.
  destruct status; try (by destruct Hargs).
  - destruct Hargs as (-> & Hn & Hall). pose proof (proj2 Hacc (conj Hn Hall)) as Hc.
    split_and!; [split; [intros _; by exists o|done]|by intros o' <-%Honly|done].
  - destruct Hargs as [-> [Hbad|Hno]]; [lia|].
    assert (forall o', ~ call_accepted s name arguments o') as Hnone
      by (intros o' Hc; rewrite (Honly o' Hc) in Hc; by apply Hno, Hacc).
    split_and!; [split; [done|by intros [o' ?%Hnone]]|by intros o' ?%Hnone|].
    intros _. exists None. by split; [|split; [intros [? ?]|]].
  - destruct Hargs as (k & p & a & -> & Hk & Hp & Ha & Hne & _).
    assert (forall o', ~ call_accepted s name arguments o') as Hnone.
    { intros o' Hc. rewrite (Honly o' Hc) in Hc. apply Hacc in Hc as [_ Hall].
      destruct (Forall2_lookup_r _ _ _ _ _ Hall Ha) as (q & Hq & [_ Heq]).
      apply lookup_take_Some in Hq as [Hq _]. congruence. }
    split_and!; [split; [done|by intros [o' ?%Hnone]]|by intros o' ?%Hnone|].
    intros _. exists (Some k). by split; [|split].
Qed.
