(* ===== verification/CMetaObject.v ===== *)
(** Object references (cmeta/include/cmeta/object.h, cmeta/src/object.c,
    cmeta/include/cmeta/object_interface.h): validity, the three lifetime
    modes, reflected field access and the borrowed projection of an interface.

    The native callbacks act on a world [W]; [ObjectCallbacks] is the interface
    the operations are written against, and nothing is assumed of them but that
    they do not write the reference they are called for. *)

From S2P Require Import Prelude CMetaType CMetaFunction CMetaInterface CMetaData CMetaOperation.

Inductive cmeta_object_lifetime :=
  | CMETA_OBJECT_LIFETIME_NONE
  | CMETA_OBJECT_LIFETIME_BORROWED
  | CMETA_OBJECT_LIFETIME_SHARED
  | CMETA_OBJECT_LIFETIME_OWNED
  | CMETA_OBJECT_LIFETIME_OTHER (value : Z).

#[export] Instance cmeta_object_lifetime_eq_dec : EqDecision cmeta_object_lifetime.
Proof. solve_decision. Defined.

Record cmeta_object_lifecycle := mk_lifecycle {
  lc_size : Z;
  lc_context : option addr;
  lc_retain : option addr;
  lc_release : option addr;
  lc_destroy : option addr;
}.

Record cmeta_object_operation_provider := mk_operation_provider {
  opp_size : Z;
  opp_operations : option cmeta_receiver_operation_set;
  opp_context : option addr;
  opp_bind : option addr;
}.

Record cmeta_object_field_provider := mk_field_provider {
  fp_size : Z;
  fp_data : option cmeta_data_desc;
  fp_context : option addr;
  fp_assign : option addr;
  fp_read : option addr;
}.

Record cmeta_object_ref := mk_object_ref {
  or_size : Z;
  or_object : option addr;
  or_data : option cmeta_data_desc;
  or_field_provider : option cmeta_object_field_provider;
  or_operations : option cmeta_receiver_operation_set;
  or_operation_provider : option cmeta_object_operation_provider;
  or_lifetime : cmeta_object_lifetime;
  or_lifecycle : option cmeta_object_lifecycle;
}.

(** LP64 sizes. *)
Definition sizeof_object_ref : Z := 64.
Definition sizeof_object_lifecycle : Z := 40.
Definition sizeof_operation_provider : Z := 32.
Definition CMETA_OBJECT_FIELD_PROVIDER_ASSIGN_SIZE : Z := 32.
Definition CMETA_OBJECT_FIELD_PROVIDER_READ_SIZE : Z := 40.

Definition CMETA_OBJECT_REF_INIT : cmeta_object_ref :=
  mk_object_ref sizeof_object_ref None None None None None CMETA_OBJECT_LIFETIME_NONE None.

(** * Validity *)

Definition cmeta_object_field_provider_has_read (provider : option cmeta_object_field_provider)
    : bool :=
  match provider with
  | None => false
  | Some p =>
      (CMETA_OBJECT_FIELD_PROVIDER_READ_SIZE <=? fp_size p) && negb (is_null (fp_read p))
  end.

Definition cmeta_object_lifecycle_valid (lifecycle : option cmeta_object_lifecycle) : bool :=
  match lifecycle with
  | None => false
  | Some l =>
      if lc_size l <? sizeof_object_lifecycle then false
      else
        Bool.eqb (is_null (lc_retain l)) (is_null (lc_release l)) &&
        (negb (is_null (lc_retain l)) || negb (is_null (lc_destroy l)))
  end.

Definition cmeta_object_operation_provider_valid
    (provider : option cmeta_object_operation_provider) : bool :=
  match provider with
  | None => false
  | Some p =>
      (sizeof_operation_provider <=? opp_size p) &&
      cmeta_receiver_operation_set_valid (opp_operations p) && negb (is_null (opp_bind p))
  end.

Definition data_kind_is (data : option cmeta_data_desc) (kind : cmeta_data_kind) : bool :=
  match data with Some d => bool_decide (dd_kind d = kind) | None => false end.

(** [data->shape], NULL for a NULL [data]. *)
Definition data_shape (data : option cmeta_data_desc) : option (data_shape_of cmeta_data_desc) :=
  match data with Some d => dd_shape d | None => None end.

Definition data_storage (data : option cmeta_data_desc) : option cmeta_type_desc :=
  match data with Some d => dd_storage_type d | None => None end.

Definition cmeta_object_field_provider_valid (provider : option cmeta_object_field_provider)
    : bool :=
  match provider with
  | None => false
  | Some p =>
      if (fp_size p <? CMETA_OBJECT_FIELD_PROVIDER_ASSIGN_SIZE) ||
         negb (cmeta_data_desc_valid (fp_data p)) ||
         negb (data_kind_is (fp_data p) CMETA_DATA_STRUCT) ||
         is_null (data_shape (fp_data p)) then false
      else negb (is_null (fp_assign p)) || cmeta_object_field_provider_has_read provider
  end.

(** Pointer equality of descriptors. *)
Definition data_ptr (data : option cmeta_data_desc) : option addr := dd_addr <$> data.

Definition set_ptr (set : option cmeta_receiver_operation_set) : option addr := os_addr <$> set.

Definition cmeta_object_contract_status (object : option addr) (data : option cmeta_data_desc)
    (field_provider : option cmeta_object_field_provider)
    (operations : option cmeta_receiver_operation_set)
    (operation_provider : option cmeta_object_operation_provider) : cmeta_status :=
  if is_null object || negb (cmeta_data_desc_valid data) then CMETA_INVALID_ARGUMENT
  else if is_null (data_storage data) || negb (cmeta_type_desc_valid (data_storage data))
  then CMETA_TRAIT_MISSING
  else if negb (is_null operations) && negb (cmeta_receiver_operation_set_valid operations)
  then CMETA_INVALID_ARGUMENT
  else if negb (is_null operations) &&
          negb (cmeta_type_equal (operations ≫= os_receiver_type) (data_storage data))
  then CMETA_TYPE_MISMATCH
  else if negb (is_null field_provider) &&
          (negb (cmeta_object_field_provider_valid field_provider) ||
           negb (bool_decide (data_ptr (field_provider ≫= fp_data) = data_ptr data)))
  then CMETA_INVALID_ARGUMENT
  else if negb (is_null operation_provider) &&
          (negb (cmeta_object_operation_provider_valid operation_provider) ||
           negb (bool_decide (set_ptr (operation_provider ≫= opp_operations) = set_ptr operations)))
  then CMETA_INVALID_ARGUMENT
  else CMETA_OK.

(** [lifecycle->retain], NULL for a NULL [lifecycle]. *)
Definition lifecycle_fn (field : cmeta_object_lifecycle -> option addr)
    (lifecycle : option cmeta_object_lifecycle) : option addr :=
  match lifecycle with Some l => field l | None => None end.

Definition cmeta_object_ref_valid (ref : option cmeta_object_ref) : bool :=
  match ref with
  | None => false
  | Some r =>
      if (or_size r <? sizeof_object_ref) ||
         negb (status_ok (cmeta_object_contract_status (or_object r) (or_data r)
                            (or_field_provider r) (or_operations r) (or_operation_provider r)))
      then false
      else
        match or_lifetime r with
        | CMETA_OBJECT_LIFETIME_BORROWED => is_null (or_lifecycle r)
        | CMETA_OBJECT_LIFETIME_SHARED =>
            cmeta_object_lifecycle_valid (or_lifecycle r) &&
            negb (is_null (lifecycle_fn lc_retain (or_lifecycle r))) &&
            negb (is_null (lifecycle_fn lc_release (or_lifecycle r)))
        | CMETA_OBJECT_LIFETIME_OWNED =>
            cmeta_object_lifecycle_valid (or_lifecycle r) &&
            negb (is_null (lifecycle_fn lc_destroy (or_lifecycle r)))
        | _ => false
        end
  end.

(** * Publication of a borrowed object

    Each takes the object [out] points at and returns it after the call. *)

Definition publish (object : option addr) (data : option cmeta_data_desc)
    (field_provider : option cmeta_object_field_provider)
    (operations : option cmeta_receiver_operation_set)
    (operation_provider : option cmeta_object_operation_provider)
    : cmeta_status * option cmeta_object_ref :=
  let status := cmeta_object_contract_status object data field_provider operations
                  operation_provider in
  if negb (status_ok status) then (status, Some CMETA_OBJECT_REF_INIT)
  else
    (CMETA_OK,
     Some (mk_object_ref sizeof_object_ref object data field_provider operations
             operation_provider CMETA_OBJECT_LIFETIME_BORROWED None)).

Definition cmeta_object_borrow (out : option cmeta_object_ref) (object : option addr)
    (data : option cmeta_data_desc) (operations : option cmeta_receiver_operation_set)
    : cmeta_status * option cmeta_object_ref :=
  match out with
  | None => (CMETA_INVALID_ARGUMENT, None)
  | Some _ => publish object data None operations None
  end.

Definition cmeta_object_borrow_with_provider (out : option cmeta_object_ref) (object : option addr)
    (data : option cmeta_data_desc) (provider : option cmeta_object_operation_provider)
    : cmeta_status * option cmeta_object_ref :=
  match out with
  | None => (CMETA_INVALID_ARGUMENT, None)
  | Some _ =>
      if negb (cmeta_object_operation_provider_valid provider)
      then (CMETA_INVALID_ARGUMENT, Some CMETA_OBJECT_REF_INIT)
      else publish object data None (provider ≫= opp_operations) provider
  end.

Definition cmeta_object_borrow_with_providers (out : option cmeta_object_ref) (object : option addr)
    (data : option cmeta_data_desc) (field_provider : option cmeta_object_field_provider)
    (operation_provider : option cmeta_object_operation_provider)
    : cmeta_status * option cmeta_object_ref :=
  match out with
  | None => (CMETA_INVALID_ARGUMENT, None)
  | Some _ =>
      if is_null field_provider && is_null operation_provider
      then (CMETA_INVALID_ARGUMENT, out)
      else if negb (is_null field_provider) &&
              negb (cmeta_object_field_provider_valid field_provider)
      then (CMETA_INVALID_ARGUMENT, Some CMETA_OBJECT_REF_INIT)
      else if negb (is_null operation_provider) &&
              negb (cmeta_object_operation_provider_valid operation_provider)
      then (CMETA_INVALID_ARGUMENT, Some CMETA_OBJECT_REF_INIT)
      else publish object data field_provider (operation_provider ≫= opp_operations)
             operation_provider
  end.

(** * Lifetime *)

Record cmeta_interface_projection := mk_projection {
  pj_size : Z;
  pj_interface : option cmeta_interface_desc;
  pj_self : option addr;
  pj_dispatch : option addr;
}.

Record cmeta_object_interface_provider := mk_interface_provider {
  ip_addr : addr;
  ip_size : Z;
  ip_context : option addr;
  ip_project : option addr;
}.

(** Native callbacks: the function pointer, its context and the object. *)
Class ObjectCallbacks (W : Type) := {
  cb_retain : addr -> option addr -> addr -> W -> cmeta_status * W;
  cb_release : addr -> option addr -> addr -> W -> W;
  cb_destroy : addr -> option addr -> addr -> W -> W;
  cb_field_read : addr -> option addr -> addr -> cmeta_data_field_desc -> W ->
    cmeta_status * option addr * W;
  cb_field_assign : addr -> option addr -> addr -> cmeta_data_field_desc -> addr -> W ->
    cmeta_status * W;
  cb_project : addr -> option addr -> cmeta_object_ref -> cmeta_interface_desc -> W ->
    cmeta_status * cmeta_interface_projection * W;
}.

(** [ref->lifetime = lifetime; ref->lifecycle = lifecycle;] *)
Definition set_lifetime (lifetime : cmeta_object_lifetime)
    (lifecycle : option cmeta_object_lifecycle) (r : cmeta_object_ref) : cmeta_object_ref :=
  mk_object_ref (or_size r) (or_object r) (or_data r) (or_field_provider r) (or_operations r)
    (or_operation_provider r) lifetime lifecycle.

Section Callbacks.
  Context {W : Type} `{ObjectCallbacks W}.

Definition cmeta_object_share (ref : option cmeta_object_ref)
    (lifecycle : option cmeta_object_lifecycle) (w : W)
    : cmeta_status * option cmeta_object_ref * W :=
  match ref, lifecycle with
  | Some r, Some l =>
      if negb (cmeta_object_ref_valid ref) ||
         negb (bool_decide (or_lifetime r = CMETA_OBJECT_LIFETIME_BORROWED)) ||
         negb (cmeta_object_lifecycle_valid lifecycle) || is_null (lc_release l)
      then (CMETA_INVALID_ARGUMENT, ref, w)
      else
        match lc_retain l, or_object r with
        | Some retain, Some object =>
            let '(status, w) := cb_retain retain (lc_context l) object w in
            if negb (status_ok status) then (status, ref, w)
            else (CMETA_OK, Some (set_lifetime CMETA_OBJECT_LIFETIME_SHARED lifecycle r), w)
        | _, _ => (CMETA_INVALID_ARGUMENT, ref, w)
        end
  | _, _ => (CMETA_INVALID_ARGUMENT, ref, w)
  end.

Definition cmeta_object_take (ref : option cmeta_object_ref)
    (lifecycle : option cmeta_object_lifecycle) : cmeta_status * option cmeta_object_ref :=
  match ref with
  | Some r =>
      if negb (cmeta_object_ref_valid ref) ||
         negb (bool_decide (or_lifetime r = CMETA_OBJECT_LIFETIME_BORROWED)) ||
         negb (cmeta_object_lifecycle_valid lifecycle) ||
         is_null (lifecycle_fn lc_destroy lifecycle)
      then (CMETA_INVALID_ARGUMENT, ref)
      else (CMETA_OK, Some (set_lifetime CMETA_OBJECT_LIFETIME_OWNED lifecycle r))
  | None => (CMETA_INVALID_ARGUMENT, ref)
  end.

(** The reference is cleared before the callback runs. *)
Definition cmeta_object_release (ref : option cmeta_object_ref) (w : W)
    : option cmeta_object_ref * W :=
  match ref with
  | None => (None, w)
  | Some r =>
      (Some CMETA_OBJECT_REF_INIT,
       match or_lifecycle r, or_object r with
       | Some l, Some object =>
           match or_lifetime r, lc_release l, lc_destroy l with
           | CMETA_OBJECT_LIFETIME_SHARED, Some release, _ =>
               cb_release release (lc_context l) object w
           | CMETA_OBJECT_LIFETIME_OWNED, _, Some destroy =>
               cb_destroy destroy (lc_context l) object w
           | _, _, _ => w
           end
       | _, _ => w
       end)
  end.

(** Whether [cmeta_object_release] calls back. *)
Definition release_calls_back (r : cmeta_object_ref) : bool :=
  match or_lifecycle r, or_object r with
  | Some l, Some _ =>
      match or_lifetime r, lc_release l, lc_destroy l with
      | CMETA_OBJECT_LIFETIME_SHARED, Some _, _ | CMETA_OBJECT_LIFETIME_OWNED, _, Some _ => true
      | _, _, _ => false
      end
  | _, _ => false
  end.

(** * Reflected fields *)

Definition cmeta_object_field_resolve (ref : option cmeta_object_ref) (name : cstr)
    : cmeta_status * option cmeta_data_field_desc :=
  match ref with
  | None => (CMETA_INVALID_ARGUMENT, None)
  | Some r =>
      if negb (cmeta_object_ref_valid ref) || negb (c_nonempty name)
      then (CMETA_INVALID_ARGUMENT, None)
      else if negb (data_kind_is (or_data r) CMETA_DATA_STRUCT) || is_null (data_shape (or_data r))
      then (CMETA_TRAIT_MISSING, None)
      else
        match cmeta_data_struct_find_field (or_data r ≫= struct_shape) name with
        | None => (CMETA_INVALID_ARGUMENT, None)
        | Some field =>
            if negb (cmeta_data_desc_valid (df_value field)) ||
               is_null (data_storage (df_value field))
            then (CMETA_INVALID_ARGUMENT, None)
            else (CMETA_OK, Some field)
        end
  end.

(** A computed address as a pointer. *)
Definition ptr_of (address : Z) : option addr := if address =? 0 then None else Some address.

(** [(const unsigned char * )ref->object + field->offset]. *)
Definition cmeta_object_field_fixed_read (r : cmeta_object_ref) (field : cmeta_data_field_desc)
    : cmeta_status * option addr :=
  if df_offset field =? CMETA_FIELD_DYNAMIC_OFFSET then (CMETA_TRAIT_MISSING, None)
  else
    match data_storage (df_value field), data_storage (or_data r), or_object r with
    | Some value, Some owner, Some object =>
        if (td_size owner <? df_offset field) ||
           (u64 (td_size owner - df_offset field) <? td_size value) ||
           (negb (td_align value =? 0) && negb (df_offset field mod td_align value =? 0))
        then (CMETA_INVALID_ARGUMENT, None)
        else (CMETA_OK, ptr_of (u64 (object + df_offset field)))
    | _, _, _ => (CMETA_INVALID_ARGUMENT, None)
    end.

(** The provider's [read], checked for a NULL value. *)
Definition provider_read (provider : option cmeta_object_field_provider) (object : option addr)
    (field : cmeta_data_field_desc) (w : W) : cmeta_status * option addr * W :=
  match provider, object with
  | Some p, Some object =>
      match fp_read p with
      | Some read =>
          let '(status, value, w) := cb_field_read read (fp_context p) object field w in
          if negb (status_ok status) then (status, None, w)
          else if is_null value then (CMETA_CALLBACK_ERROR, None, w)
          else (CMETA_OK, value, w)
      | None => (CMETA_CALLBACK_ERROR, None, w)
      end
  | _, _ => (CMETA_CALLBACK_ERROR, None, w)
  end.

(** The status, [*out_data], [*out_value]. *)
Definition cmeta_object_field_read (ref : option cmeta_object_ref) (name : cstr) (w : W)
    : cmeta_status * option cmeta_data_desc * option addr * W :=
  match cmeta_object_field_resolve ref name, ref with
  | (CMETA_OK, Some field), Some r =>
      let '(status, value, w) :=
        if cmeta_object_field_provider_has_read (or_field_provider r)
        then provider_read (or_field_provider r) (or_object r) field w
        else (cmeta_object_field_fixed_read r field, w) in
      if negb (status_ok status) then (status, None, None, w)
      else (CMETA_OK, df_value field, value, w)
  | (status, _), _ => (status, None, None, w)
  end.

(** The provider's [assign]. *)
Definition provider_assign (provider : option cmeta_object_field_provider) (object : option addr)
    (field : cmeta_data_field_desc) (value : addr) (w : W) : cmeta_status * W :=
  match provider, object with
  | Some p, Some object =>
      match fp_assign p with
      | Some assign => cb_field_assign assign (fp_context p) object field value w
      | None => (CMETA_TRAIT_MISSING, w)
      end
  | _, _ => (CMETA_TRAIT_MISSING, w)
  end.

Definition cmeta_object_field_assign (ref : option cmeta_object_ref) (name : cstr)
    (value_data : option cmeta_data_desc) (value : option addr) (w : W) : cmeta_status * W :=
  match value with
  | None => (CMETA_INVALID_ARGUMENT, w)
  | Some v =>
      if negb (cmeta_data_desc_valid value_data) then (CMETA_INVALID_ARGUMENT, w)
      else
        match cmeta_object_field_resolve ref name, ref with
        | (CMETA_OK, Some field), Some r =>
            if negb (cmeta_data_desc_equal (df_value field) value_data)
            then (CMETA_TYPE_MISMATCH, w)
            else if negb (cmeta_object_field_provider_valid (or_field_provider r)) ||
                    negb (bool_decide (data_ptr (or_field_provider r ≫= fp_data) =
                                       data_ptr (or_data r)))
            then (CMETA_TRAIT_MISSING, w)
            else provider_assign (or_field_provider r) (or_object r) field v w
        | (status, _), _ => (status, w)
        end
  end.

Definition cmeta_object_operation_resolve (ref : option cmeta_object_ref)
    (owner : option cmeta_generic_desc) (operation_name : cstr)
    (argument_types : option (list (option cmeta_type_desc))) (argument_count : nat)
    (out : option cmeta_receiver_resolution)
    : cmeta_receiver_resolve_status * option cmeta_receiver_resolution :=
  match ref, out with
  | Some r, Some o =>
      if negb (cmeta_object_ref_valid ref) || (rr_size o <? sizeof_receiver_resolution)
      then (CMETA_RECEIVER_RESOLVE_INVALID_ARGUMENT, out)
      else if is_null (or_operations r)
      then (CMETA_RECEIVER_RESOLVE_INVALID_OPERATION_SET, out)
      else cmeta_receiver_operation_resolve (or_operations r) (data_storage (or_data r)) owner
             operation_name argument_types argument_count out
  | _, _ => (CMETA_RECEIVER_RESOLVE_INVALID_ARGUMENT, out)
  end.

(** * Field bindings *)

Record cmeta_object_field_binding := mk_field_binding {
  fb_object : option addr;
  fb_field : option cmeta_data_field_desc;
  fb_provider : option cmeta_object_field_provider;
  fb_fixed_value : option addr;
}.

Definition CMETA_OBJECT_FIELD_BINDING_INIT : cmeta_object_field_binding :=
  mk_field_binding None None None None.

Definition cmeta_object_field_bind (ref : option cmeta_object_ref) (name : cstr)
    : cmeta_status * cmeta_object_field_binding :=
  match cmeta_object_field_resolve ref name, ref with
  | (CMETA_OK, Some field), Some r =>
      let '(status, fixed) :=
        if cmeta_object_field_provider_has_read (or_field_provider r) then (CMETA_OK, None)
        else cmeta_object_field_fixed_read r field in
      if negb (status_ok status) then (status, CMETA_OBJECT_FIELD_BINDING_INIT)
      else (CMETA_OK, mk_field_binding (or_object r) (Some field) (or_field_provider r) fixed)
  | (status, _), _ => (status, CMETA_OBJECT_FIELD_BINDING_INIT)
  end.

Definition cmeta_object_field_read_admitted (binding : option cmeta_object_field_binding) (w : W)
    : cmeta_status * option addr * W :=
  match binding with
  | None => (CMETA_INVALID_ARGUMENT, None, w)
  | Some b =>
      match fb_object b, fb_field b with
      | Some _, Some field =>
          match fb_fixed_value b with
          | Some value => (CMETA_OK, Some value, w)
          | None => provider_read (fb_provider b) (fb_object b) field w
          end
      | _, _ => (CMETA_INVALID_ARGUMENT, None, w)
      end
  end.

Definition cmeta_object_field_assign_admitted (binding : option cmeta_object_field_binding)
    (value : option addr) (w : W) : cmeta_status * W :=
  match binding, value with
  | Some b, Some v =>
      match fb_object b, fb_field b with
      | Some _, Some field => provider_assign (fb_provider b) (fb_object b) field v w
      | _, _ => (CMETA_INVALID_ARGUMENT, w)
      end
  | _, _ => (CMETA_INVALID_ARGUMENT, w)
  end.

(** * Borrowed interface projections (object_interface.h) *)


Definition sizeof_interface_projection : Z := 32.
Definition sizeof_interface_provider : Z := 24.

Definition CMETA_INTERFACE_PROJECTION_INIT : cmeta_interface_projection :=
  mk_projection sizeof_interface_projection None None None.

Definition cmeta_object_interface_provider_valid
    (provider : option cmeta_object_interface_provider) : bool :=
  match provider with
  | None => false
  | Some p => (sizeof_interface_provider <=? ip_size p) && negb (is_null (ip_project p))
  end.

Definition cmeta_interface_projection_valid_for (projection : cmeta_interface_projection)
    (expected : option cmeta_interface_desc) : bool :=
  (sizeof_interface_projection <=? pj_size projection) &&
  cmeta_interface_desc_valid (pj_interface projection) && cmeta_interface_desc_valid expected &&
  cmeta_interface_desc_equal (pj_interface projection) expected &&
  negb (is_null (pj_self projection)) && negb (is_null (pj_dispatch projection)).

(** The status, [*out]. *)
Definition cmeta_object_interface_project_borrowed (object : option cmeta_object_ref)
    (provider : option cmeta_object_interface_provider) (expected : option cmeta_interface_desc)
    (w : W) : cmeta_status * cmeta_interface_projection * W :=
  if negb (cmeta_object_ref_valid object) ||
     negb (cmeta_object_interface_provider_valid provider) ||
     negb (cmeta_interface_desc_valid expected)
  then (CMETA_INVALID_ARGUMENT, CMETA_INTERFACE_PROJECTION_INIT, w)
  else if cmeta_interface_desc_has_owning_method expected
  then (CMETA_TRAIT_MISSING, CMETA_INTERFACE_PROJECTION_INIT, w)
  else
    match object, provider, expected with
    | Some o, Some p, Some e =>
        match ip_project p with
        | Some project =>
            let '(status, candidate, w) := cb_project project (ip_context p) o e w in
            if negb (status_ok status) then (status, CMETA_INTERFACE_PROJECTION_INIT, w)
            else if negb (cmeta_interface_projection_valid_for candidate expected)
            then (CMETA_CALLBACK_ERROR, CMETA_INTERFACE_PROJECTION_INIT, w)
            else (CMETA_OK, candidate, w)
        | None => (CMETA_INVALID_ARGUMENT, CMETA_INTERFACE_PROJECTION_INIT, w)
        end
    | _, _, _ => (CMETA_INVALID_ARGUMENT, CMETA_INTERFACE_PROJECTION_INIT, w)
    end.

End Callbacks.

(** * Properties *)

Section Properties.
  Context {W : Type} `{ObjectCallbacks W}.

(** What ending a reference's lifetime must do to the object. *)
Definition end_of_life (r : cmeta_object_ref) (w : W) : W :=
  match or_lifetime r, or_lifecycle r, or_object r with
  | CMETA_OBJECT_LIFETIME_SHARED, Some l, Some object =>
      match lc_release l with Some f => cb_release f (lc_context l) object w | None => w end
  | CMETA_OBJECT_LIFETIME_OWNED, Some l, Some object =>
      match lc_destroy l with Some f => cb_destroy f (lc_context l) object w | None => w end
  | _, _, _ => w
  end.

(** The callback that ends a valid reference's lifetime exists. *)
Definition has_end_of_life (r : cmeta_object_ref) : Prop :=
  is_Some (or_object r) /\
  match or_lifetime r with
  | CMETA_OBJECT_LIFETIME_BORROWED => or_lifecycle r = None
  | CMETA_OBJECT_LIFETIME_SHARED =>
      exists l, or_lifecycle r = Some l /\ is_Some (lc_retain l) /\ is_Some (lc_release l)
  | CMETA_OBJECT_LIFETIME_OWNED => exists l, or_lifecycle r = Some l /\ is_Some (lc_destroy l)
  | _ => False
  end.

Lemma status_ok_true status : status_ok status = true <-> status = CMETA_OK.
Proof. apply bool_decide_eq_true. Qed.

Lemma status_ok_false status : status_ok status = false <-> status <> CMETA_OK.
Proof. apply bool_decide_eq_false. Qed.

Lemma contract_status_inv object data fp ops opp :
  cmeta_object_contract_status object data fp ops opp = CMETA_OK ->
  is_Some object /\ cmeta_data_desc_valid data = true /\ is_Some (data_storage data) /\
  (is_Some fp -> cmeta_object_field_provider_valid fp = true /\
                 data_ptr (fp ≫= fp_data) = data_ptr data).
Proof.
  unfold cmeta_object_contract_status. repeat (case_if; [done|]). intros _. destruct_bools.
  split_and!; [by apply is_null_false|done|by apply is_null_false|].
  intros [p ->]. simpl in *. destruct_bools. done.
Qed.

Lemma object_ref_valid_inv r :
  cmeta_object_ref_valid (Some r) = true ->
  has_end_of_life r /\ sizeof_object_ref <= or_size r /\
  cmeta_object_contract_status (or_object r) (or_data r) (or_field_provider r) (or_operations r)
    (or_operation_provider r) = CMETA_OK.
Proof.
  simpl. case_if; [done|]. destruct_bools. intros Hl.
  match goal with Hs : status_ok _ = true |- _ => apply status_ok_true in Hs end.
  destruct (contract_status_inv _ _ _ _ _ ltac:(eassumption)) as (Hobj & _).
  split; [|done]. split; [done|].
  destruct (or_lifetime r), (or_lifecycle r) as [l|]; simpl in *; destruct_bools; try done.
  all: exists l; rewrite <- !is_null_false; done.
Qed.

Lemma object_ref_valid_intro r lifetime lifecycle :
  cmeta_object_ref_valid (Some r) = true ->
  (lifetime = CMETA_OBJECT_LIFETIME_SHARED /\ cmeta_object_lifecycle_valid lifecycle = true /\
     is_Some (lifecycle_fn lc_retain lifecycle) /\ is_Some (lifecycle_fn lc_release lifecycle)) \/
  (lifetime = CMETA_OBJECT_LIFETIME_OWNED /\ cmeta_object_lifecycle_valid lifecycle = true /\
     is_Some (lifecycle_fn lc_destroy lifecycle)) ->
  cmeta_object_ref_valid (Some (set_lifetime lifetime lifecycle r)) = true.
Proof.
  simpl. case_if; [done|]. intros _ [(-> & -> & ? & ?)|(-> & -> & ?)];
    rewrite !andb_true_iff, !negb_true_iff, !is_null_false; done.
Qed.

Lemma publish_spec object data fp ops opp :
  let '(status, ref) := publish object data fp ops opp in
  (status = CMETA_OK -> cmeta_object_ref_valid ref = true) /\
  (status <> CMETA_OK -> ref = Some CMETA_OBJECT_REF_INIT).
Proof.
  unfold publish. destruct (status_ok _) eqn:E; simpl.
  - split; [intros _|done]. by rewrite E.
  - apply status_ok_false in E. by split.
Qed.

(** C38: releasing a valid reference runs the one callback its lifetime owes
    (none when borrowed, [release] when shared, [destroy] when owned, on the
    same context and object) exactly once and leaves the empty reference; a
    second release does nothing. *)
Theorem release_ends_life_once r w :
  cmeta_object_ref_valid (Some r) = true ->
  has_end_of_life r /\
  cmeta_object_release (Some r) w = (Some CMETA_OBJECT_REF_INIT, end_of_life r w) /\
  cmeta_object_release (Some CMETA_OBJECT_REF_INIT) (end_of_life r w) =
    (Some CMETA_OBJECT_REF_INIT, end_of_life r w) /\
  cmeta_object_ref_valid (Some CMETA_OBJECT_REF_INIT) = false.
Proof.
  intros Hv. destruct (object_ref_valid_inv r Hv) as (Hend & _ & _).
  split_and!; [done| |done|done]. unfold cmeta_object_release, end_of_life. f_equal.
  destruct (or_lifecycle r) as [l|], (or_object r) as [o|], (or_lifetime r); try done;
    destruct (lc_release l), (lc_destroy l); done.
Qed.

(** the lifetime transitions: publication yields a valid borrowed
    reference or the empty one; [share] and [take] succeed only on a valid
    borrowed reference and a lifecycle that can end the new lifetime, keep the
    reference valid, and change nothing but the lifetime (with one [retain] for
    [share]); on failure the reference is unchanged. *)
Theorem lifetime_transitions out object data fp opp r lifecycle w :
  (let '(status, ref) := cmeta_object_borrow_with_providers (Some out) object data fp opp in
   (status = CMETA_OK -> cmeta_object_ref_valid ref = true) /\
   (status <> CMETA_OK -> ref = Some out \/ ref = Some CMETA_OBJECT_REF_INIT)) /\
  (let '(status, ref, w') := cmeta_object_share (Some r) lifecycle w in
   (status = CMETA_OK ->
      or_lifetime r = CMETA_OBJECT_LIFETIME_BORROWED /\ cmeta_object_ref_valid ref = true /\
      ref = Some (set_lifetime CMETA_OBJECT_LIFETIME_SHARED lifecycle r) /\
      exists l f o, lifecycle = Some l /\ lc_retain l = Some f /\ or_object r = Some o /\
        cb_retain f (lc_context l) o w = (CMETA_OK, w')) /\
   (status <> CMETA_OK -> ref = Some r)) /\
  (let '(status, ref) := cmeta_object_take (Some r) lifecycle in
   (status = CMETA_OK ->
      or_lifetime r = CMETA_OBJECT_LIFETIME_BORROWED /\ cmeta_object_ref_valid ref = true /\
      ref = Some (set_lifetime CMETA_OBJECT_LIFETIME_OWNED lifecycle r)) /\
   (status <> CMETA_OK -> ref = Some r)).
Proof.
  split_and!.
  - unfold cmeta_object_borrow_with_providers. case_if; [by split; [|left]|].
    repeat (case_if; [by split; [|right]|]).
    pose proof (publish_spec object data fp (opp ≫= opp_operations) opp) as Hp.
    destruct (publish _ _ _ _ _) as [status ref]. destruct Hp as [? ?]. split; [done|by right; auto].
  - unfold cmeta_object_share. destruct lifecycle as [l|]; [|done]. case_if; [done|].
    destruct_bools. destruct (lc_retain l) as [f|] eqn:Hf; [|done].
    destruct (or_object r) as [o|] eqn:Ho; [|done].
    destruct (cb_retain f (lc_context l) o w) as [status w'] eqn:Hretain.
    destruct (status_ok status) eqn:Hstatus; cbn [negb].
    2: { apply status_ok_false in Hstatus. by split. }
    apply status_ok_true in Hstatus as ->. split; [intros _|done].
    split_and!; [done| |done|by exists l, f, o].
    apply object_ref_valid_intro; [done|]. left. cbn [lifecycle_fn]. rewrite Hf, <- (is_null_false (lc_release l)). by split_and!.
  - unfold cmeta_object_take. case_if; [done|]. destruct_bools. split; [intros _|done].
    split_and!; [done| |done]. apply object_ref_valid_intro; [done|]. right.
    split_and!; [done|done|by apply is_null_false].
Qed.

Lemma field_resolve_inv r name :
  (exists status, cmeta_object_field_resolve (Some r) name = (status, None) /\ status <> CMETA_OK) \/
  exists field shape value storage,
    cmeta_object_field_resolve (Some r) name = (CMETA_OK, Some field) /\
    cmeta_object_ref_valid (Some r) = true /\
    (or_data r ≫= struct_shape) = Some shape /\ field ∈ default [] (ss_fields shape) /\
    df_value field = Some value /\ cmeta_data_desc_valid (Some value) = true /\
    dd_storage_type value = Some storage.
Proof.
  unfold cmeta_object_field_resolve. repeat (case_if; [left; eexists; split; [reflexivity|done]|]). destruct_bools.
  destruct (or_data r ≫= struct_shape) as [s|] eqn:Hshape; [|left; eexists; split; [reflexivity|done]]. simpl.
  destruct name as [n|]; [|left; eexists; split; [reflexivity|done]].
  destruct (List.find _ _) as [f|] eqn:Hfind; [|left; eexists; split; [reflexivity|done]].
  case_if; [left; eexists; split; [reflexivity|done]|]. destruct_bools.
  apply find_some in Hfind as [Hin _]. apply list_elem_of_In, elem_of_take in Hin as (i & Hi & _).
  destruct (df_value f) as [v|] eqn:Hv; [|done]. simpl in *.
  match goal with Hs : is_null (dd_storage_type v) = false |- _ =>
    apply is_null_false in Hs as [st Hst] end.
  right. exists f, s, v, st. split_and!; try done. by eapply list_elem_of_lookup_2.
Qed.

Lemma field_read_resolved r name field w :
  cmeta_object_field_resolve (Some r) name = (CMETA_OK, Some field) ->
  cmeta_object_field_read (Some r) name w =
    let '(status, value, w) :=
      if cmeta_object_field_provider_has_read (or_field_provider r)
      then provider_read (or_field_provider r) (or_object r) field w
      else (cmeta_object_field_fixed_read r field, w) in
    if negb (status_ok status) then (status, None, None, w)
    else (CMETA_OK, df_value field, value, w).
Proof. unfold cmeta_object_field_read. by intros ->. Qed.

Lemma field_read_refused r name status w :
  cmeta_object_field_resolve (Some r) name = (status, None) ->
  cmeta_object_field_read (Some r) name w = (status, None, None, w).
Proof. unfold cmeta_object_field_read. intros ->. by destruct status. Qed.

Lemma fixed_read_spec r field object owner v t :
  or_object r = Some object -> data_storage (or_data r) = Some owner ->
  0 < object -> object + td_size owner <= SIZE_MAX -> 0 <= df_offset field ->
  df_value field = Some v -> dd_storage_type v = Some t ->
  (exists status, cmeta_object_field_fixed_read r field = (status, None) /\ status <> CMETA_OK) \/
  (cmeta_object_field_fixed_read r field = (CMETA_OK, Some (object + df_offset field)) /\
   df_offset field <> CMETA_FIELD_DYNAMIC_OFFSET /\
   df_offset field + td_size t <= td_size owner /\
   (td_align t <> 0 -> df_offset field mod td_align t = 0)).
Proof.
  intros Ho Hs Hpos Hmax Hf Hv Ht. unfold cmeta_object_field_fixed_read. rewrite Ho, Hs, Hv.
  cbn [data_storage]. rewrite Ht.
  case_if; [left; eexists; split; [reflexivity|done]|].
  case_if; [left; eexists; split; [reflexivity|done]|]. right. destruct_bools.
  unfold u64, SIZE_MAX in *. rewrite Z.mod_small in * by lia.
  unfold ptr_of. rewrite (proj2 (Z.eqb_neq _ _)) by lia. split_and!; try done; lia.
Qed.

(** a field read from fixed storage lies inside the object: the returned
    address is that of the object plus the field's offset, aligned for the
    field relative to the object, with the whole value before the object's
    end; a dynamic field is refused. *)
Theorem fixed_field_in_bounds r name data value w w' object owner :
  or_object r = Some object -> data_storage (or_data r) = Some owner ->
  0 < object -> object + td_size owner <= SIZE_MAX ->
  (forall s f, (or_data r ≫= struct_shape) = Some s -> f ∈ default [] (ss_fields s) ->
     0 <= df_offset f) ->
  cmeta_object_field_provider_has_read (or_field_provider r) = false ->
  cmeta_object_field_read (Some r) name w = (CMETA_OK, data, value, w') ->
  w' = w /\
  exists field t, cmeta_object_field_resolve (Some r) name = (CMETA_OK, Some field) /\
    data = df_value field /\ data_storage data = Some t /\
    value = Some (object + df_offset field) /\ df_offset field <> CMETA_FIELD_DYNAMIC_OFFSET /\
    df_offset field + td_size t <= td_size owner /\
    (td_align t <> 0 -> df_offset field mod td_align t = 0).
Proof.
  intros Ho Hs Hpos Hmax Hoff Hread.
  destruct (field_resolve_inv r name)
    as [(status & Hres & Hne)|(field & shape & v & t & Hres & _ & Hshape & Hin & Hv & _ & Ht)].
  { rewrite (field_read_refused r name status w Hres). by intros [= ->]. }
  rewrite (field_read_resolved r name field w Hres), Hread.
  pose proof (Hoff shape field Hshape Hin) as Hf.
  destruct (fixed_read_spec r field object owner v t)
    as [(status & -> & Hne)|(-> & Hdyn & Hfit & Halign)]; [done..| |].
  - apply status_ok_false in Hne as E. rewrite E. by intros [= ->].
  - cbn. intros [= <- <- <-]. split; [done|]. exists field, t. by rewrite Hv.
Qed.

Lemma provider_read_value provider object field w :
  let '(status, value, _) := provider_read provider object field w in
  status <> CMETA_OK -> value = None.
Proof.
  unfold provider_read. destruct provider as [p|], object as [o|]; try done.
  destruct (fp_read p) as [f|]; [|done].
  destruct (cb_field_read f (fp_context p) o field w) as [[st v] w'].
  repeat (case_if; [done|]). done.
Qed.

(** [assign] through a binding is [field_assign]. *)
Lemma assign_admitted_spec r name field v value fixed w :
  cmeta_object_field_resolve (Some r) name = (CMETA_OK, Some field) ->
  cmeta_object_ref_valid (Some r) = true -> df_value field = Some v ->
  cmeta_data_desc_valid (Some v) = true ->
  cmeta_object_field_assign_admitted
    (Some (mk_field_binding (or_object r) (Some field) (or_field_provider r) fixed)) (Some value) w =
  cmeta_object_field_assign (Some r) name (df_value field) (Some value) w.
Proof.
  intros Hres Hvalid Hv Hvv. unfold cmeta_object_field_assign. rewrite Hres, Hv, Hvv.
  unfold cmeta_data_desc_equal. rewrite Z.eqb_refl, Hvv.
  destruct (object_ref_valid_inv r Hvalid) as (_ & _ & Hc).
  destruct (contract_status_inv _ _ _ _ _ Hc) as ([o Ho] & _ & _ & Hfp).
  cbn. rewrite Ho. destruct (or_field_provider r) as [p|]; [|done].
  destruct (Hfp ltac:(by eexists)) as [Hpv Hptr]. rewrite Hpv.
  rewrite bool_decide_true by (symmetry; done). done.
Qed.

(** an admitted field binding gives exactly the access the named field
    operations give: on a bound field [read_admitted] returns the status and
    value of [field_read] and [assign_admitted] acts as [field_assign] with the
    field's own descriptor, on the same world; [bind] fails as [field_read]
    would without calling the provider. *)
Theorem admitted_access_equivalent r name w value object owner :
  or_object r = Some object -> data_storage (or_data r) = Some owner ->
  0 < object -> object + td_size owner <= SIZE_MAX ->
  (forall s f, (or_data r ≫= struct_shape) = Some s -> f ∈ default [] (ss_fields s) ->
     0 <= df_offset f) ->
  match cmeta_object_field_bind (Some r) name with
  | (CMETA_OK, binding) =>
      (let '(status, _, v, w') := cmeta_object_field_read (Some r) name w in
       cmeta_object_field_read_admitted (Some binding) w = (status, v, w')) /\
      (exists field, fb_field binding = Some field /\
         cmeta_object_field_assign_admitted (Some binding) (Some value) w =
         cmeta_object_field_assign (Some r) name (df_value field) (Some value) w)
  | (status, binding) =>
      binding = CMETA_OBJECT_FIELD_BINDING_INIT /\
      cmeta_object_field_read (Some r) name w = (status, None, None, w)
  end.
Proof.
  intros Ho Hs Hpos Hmax Hoff.
  destruct (field_resolve_inv r name)
    as [(status & Hres & Hne)|(field & shape & v & t & Hres & Hvalid & Hshape & Hin & Hv & Hvv & Ht)].
  { rewrite (field_read_refused r name status w Hres). unfold cmeta_object_field_bind.
    rewrite Hres. by destruct status. }
  rewrite (field_read_resolved r name field w Hres). unfold cmeta_object_field_bind.
  rewrite Hres. pose proof (Hoff shape field Hshape Hin) as Hf.
  destruct (cmeta_object_field_provider_has_read (or_field_provider r)).
  - cbn. split; [|exists field; split; [done|by eapply assign_admitted_spec]].
    rewrite Ho. pose proof (provider_read_value (or_field_provider r) (Some object) field w) as Hval.
    destruct (provider_read _ _ _ w) as [[st val] w'] eqn:Hr.
    destruct (status_ok st) eqn:Hst; simpl; rewrite Hr.
    + by apply status_ok_true in Hst as ->.
    + apply status_ok_false in Hst. by rewrite (Hval Hst).
  - destruct (fixed_read_spec r field object owner v t)
      as [(status & -> & Hne)|(-> & Hdyn & Hfit & Halign)]; [done..| |].
    + apply status_ok_false in Hne as E. rewrite E. by destruct status.
    + cbn. split; [by rewrite Ho|]. exists field. split; [done|]. by eapply assign_admitted_spec.
Qed.

(** [cmeta_object_interface_project_borrowed] hands out a capability only
    when the expected interface has no owning method, and then the projection's
    interface equals the expected one, has no owning method itself (given that
    one address holds one descriptor) and its self and dispatch pointers are
    set; on every failure the projection is the empty
    one, and an interface with an owning method is refused without calling the
    provider. *)
Theorem project_borrowed_sound object provider expected w :
  let '(status, out, w') :=
    cmeta_object_interface_project_borrowed object provider (Some expected) w in
  (status = CMETA_OK ->
     cmeta_interface_desc_has_owning_method (Some expected) = false /\
     cmeta_interface_desc_equal (pj_interface out) (Some expected) = true /\
     is_Some (pj_self out) /\ is_Some (pj_dispatch out) /\
     exists d, pj_interface out = Some d /\
       ((if_addr d = if_addr expected -> d = expected) ->
        cmeta_interface_desc_has_owning_method (Some d) = false)) /\
  (status <> CMETA_OK -> out = CMETA_INTERFACE_PROJECTION_INIT) /\
  (cmeta_interface_desc_has_owning_method (Some expected) = true ->
     status <> CMETA_OK /\ w' = w).
Proof.
  unfold cmeta_object_interface_project_borrowed.
  case_if; [done|]. destruct (cmeta_interface_desc_has_owning_method (Some expected)) eqn:Hown; [done|].
  destruct object as [o|], provider as [p|]; try done.
  destruct (ip_project p) as [f|]; [|done].
  destruct (cb_project f (ip_context p) o expected w) as [[status candidate] w'].
  destruct (status_ok status) eqn:Hst; cbn [negb]; [|apply status_ok_false in Hst; by split].
  destruct (cmeta_interface_projection_valid_for candidate (Some expected)) eqn:Hc; [|done].
  cbn [negb]. split; [intros _|done].
  unfold cmeta_interface_projection_valid_for in Hc. destruct_bools.
  destruct (pj_interface candidate) as [d|]; [|done].
  split_and!; [done|done|by apply is_null_false|by apply is_null_false|].
  exists d. split; [done|]. intros Hco. rewrite <- Hown. by apply equal_interfaces_owning_rule.
Qed.
End Properties.
