(* ===== verification/CMetaComponent.v ===== *)
(** Component declarations (cmeta/include/cmeta/component.h,
    cmeta/src/component.c): the immutable statement of what a component
    provides and requires. *)

From S2P Require Import Prelude CMetaType CMetaFunction CMetaInterface CMetaData.

Definition CMETA_COMPONENT_DECLARATION_VERSION : Z := 2.

Inductive cmeta_component_role :=
  | CMETA_COMPONENT_PROVIDES
  | CMETA_COMPONENT_REQUIRES
  | CMETA_COMPONENT_ROLE_OTHER (value : Z).

#[export] Instance cmeta_component_role_eq_dec : EqDecision cmeta_component_role.
Proof. solve_decision. Defined.

Record cmeta_component_capability := mk_capability {
  cc_role : cmeta_component_role;
  cc_interface_desc : option cmeta_interface_desc;
}.

Record cmeta_component_desc := mk_component_desc {
  cd_addr : addr;
  cd_size : Z;
  cd_format_version : Z;
  cd_stable_id : cstr;
  cd_config : option cmeta_data_desc;
  cd_capabilities : option (list cmeta_component_capability);
  cd_capability_count : nat;
}.

(** LP64 sizes. *)
Definition sizeof_component_desc : Z := 48.
Definition sizeof_component_capability : Z := 16.

Definition cd_rows (d : cmeta_component_desc) : list cmeta_component_capability :=
  default [] (cd_capabilities d).

(** [desc->config] is a concrete native value. *)
Definition component_config_valid (config : option cmeta_data_desc) : bool :=
  match config with
  | None => true
  | Some c =>
      cmeta_data_desc_valid config && negb (is_null (dd_storage_type c)) &&
      cmeta_type_desc_valid (dd_storage_type c)
  end.

(** [before] are the earlier rows. *)
Definition capability_row_valid (before : list cmeta_component_capability)
    (row : cmeta_component_capability) : bool :=
  match cc_role row with CMETA_COMPONENT_ROLE_OTHER _ => false | _ => true end &&
  cmeta_interface_desc_valid (cc_interface_desc row) &&
  forallb (fun previous =>
    negb (bool_decide (cc_role previous = cc_role row) &&
          cmeta_interface_desc_equal (cc_interface_desc previous) (cc_interface_desc row))) before.

Definition component_node_valid (d : cmeta_component_desc) : bool :=
  if negb (cd_size d =? sizeof_component_desc) ||
     negb (cd_format_version d =? CMETA_COMPONENT_DECLARATION_VERSION) ||
     negb (c_nonempty (cd_stable_id d)) then false
  else if negb (component_config_valid (cd_config d)) then false
  else if (negb (cd_capability_count d =? 0)%nat && is_null (cd_capabilities d)) ||
          (SIZE_MAX / sizeof_component_capability <? Z.of_nat (cd_capability_count d)) then false
  else (cd_capability_count d <=? length (cd_rows d))%nat &&
       forallb_prev capability_row_valid [] (take (cd_capability_count d) (cd_rows d)).

Definition cmeta_component_desc_valid (desc : option cmeta_component_desc) : bool :=
  match desc with None => false | Some d => component_node_valid d end.

(** * Properties *)

(** The declared rows. *)
Definition declared_rows (d : cmeta_component_desc) : list cmeta_component_capability :=
  take (cd_capability_count d) (cd_rows d).

Lemma component_valid_rows d :
  cmeta_component_desc_valid (Some d) = true ->
  forall i row, declared_rows d !! i = Some row ->
    capability_row_valid (take i (declared_rows d)) row = true.
Proof.
  simpl. unfold component_node_valid. reflect_guards. intros (_ & _ & _ & _ & Hrows) i row Hi.
  rewrite forallb_prev_spec in Hrows. exact (Hrows i row Hi).
Qed.

Lemma component_valid_id d :
  cmeta_component_desc_valid (Some d) = true -> c_nonempty (cd_stable_id d) = true.
Proof. simpl. unfold component_node_valid. reflect_guards. tauto. Qed.

Lemma component_valid_config d c :
  cmeta_component_desc_valid (Some d) = true -> cd_config d = Some c ->
  cmeta_data_desc_valid (Some c) = true /\
  exists t, dd_storage_type c = Some t /\ cmeta_type_desc_valid (Some t) = true.
Proof.
  simpl. unfold component_node_valid. reflect_guards. intros (_ & Hc & _) Hconfig.
  rewrite Hconfig in Hc. simpl in Hc. destruct_bools. destruct (dd_storage_type c) as [t|]; [|done]. by split; [|exists t].
Qed.

(** A valid declaration names its component, declares each interface at
    most once per role, with a valid descriptor and one of the two roles, and
    its configuration, if any, has native storage. *)
Lemma component_valid_declares d :
  cmeta_component_desc_valid (Some d) = true ->
  c_nonempty (cd_stable_id d) = true /\
  (cd_capability_count d <= length (cd_rows d))%nat /\
  (forall i row, declared_rows d !! i = Some row ->
     (cc_role row = CMETA_COMPONENT_PROVIDES \/ cc_role row = CMETA_COMPONENT_REQUIRES) /\
     cmeta_interface_desc_valid (cc_interface_desc row) = true /\
     forall j row', (j < i)%nat -> declared_rows d !! j = Some row' -> cc_role row' = cc_role row ->
       cmeta_interface_desc_equal (cc_interface_desc row') (cc_interface_desc row) = false) /\
  (forall c, cd_config d = Some c ->
     exists t, dd_storage_type c = Some t /\ cmeta_type_desc_valid (Some t) = true).
Proof.
  intros Hv. split_and!; [by apply component_valid_id| | |].
  - revert Hv. simpl. unfold component_node_valid. reflect_guards.
    intros (_ & _ & _ & Hlen & _). by apply Nat.leb_le.
  - intros i row Hi. pose proof (component_valid_rows d Hv i row Hi) as Hr.
    unfold capability_row_valid in Hr. destruct_bools. split_and!.
    + by destruct (cc_role row); [left|right|].
    + done.
    + intros j row' Hj Hrow' Hrole.
      match goal with Hp : forallb _ _ = true |- _ => rewrite forallb_true in Hp; specialize (Hp row') end.
      assert (row' ∈ take i (declared_rows d)) as Hin
        by (apply list_elem_of_lookup; exists j; by rewrite lookup_take_lt).
      match goal with Hp : _ -> negb _ = true |- _ => specialize (Hp Hin) end.
      rewrite bool_decide_true in * by done. by destruct_bools.
  - intros c Hc. by apply (component_valid_config d c Hv Hc).
Qed.
