(* ===== verification/Configurator.v ===== *)
(** The Configurator (component-runtime/include/salts/configurator_abi.h,
    configurator.h, component-runtime/src/configurator.c): a bounded graph of
    components that is resolved to an activation order, started provider before
    consumer and stopped in reverse.

    The deployments and selections of a context are immutable and are part of
    it.  The instances, dependencies and activation order are arrays of the
    caller, which outlive the context's pointers to them: [storage] is what the
    arrays hold.  Predicates answer [false] where the C code would read past
    an array; operations answer [None] there, and the theorems show that they
    never do. *)

From S2P Require Import Prelude CMetaType CMetaFunction CMetaInterface CMetaData.
From S2P Require Import CMetaOperation CMetaObject CMetaComponent.

Inductive salts_configurator_status :=
  | SALTS_CONFIGURATOR_OK
  | SALTS_CONFIGURATOR_INVALID_ARGUMENT
  | SALTS_CONFIGURATOR_INVALID_COMPONENT
  | SALTS_CONFIGURATOR_DUPLICATE_COMPONENT_ID
  | SALTS_CONFIGURATOR_INVALID_SELECTION
  | SALTS_CONFIGURATOR_CONFIG_MISMATCH
  | SALTS_CONFIGURATOR_CAPACITY_EXCEEDED
  | SALTS_CONFIGURATOR_MISSING_PROVIDER
  | SALTS_CONFIGURATOR_AMBIGUOUS_PROVIDER
  | SALTS_CONFIGURATOR_DEPENDENCY_CYCLE
  | SALTS_CONFIGURATOR_INTERFACE_UNAVAILABLE
  | SALTS_CONFIGURATOR_CREATE_FAILED
  | SALTS_CONFIGURATOR_ACTIVATE_FAILED
  | SALTS_CONFIGURATOR_INVALID_STATE.

#[export] Instance salts_configurator_status_eq_dec : EqDecision salts_configurator_status.
Proof. solve_decision. Defined.

Inductive salts_configurator_phase :=
  | SALTS_CONFIGURATOR_PHASE_NONE
  | SALTS_CONFIGURATOR_PHASE_INIT
  | SALTS_CONFIGURATOR_PHASE_RESOLVE
  | SALTS_CONFIGURATOR_PHASE_DEPENDENCY
  | SALTS_CONFIGURATOR_PHASE_PROVIDE
  | SALTS_CONFIGURATOR_PHASE_CREATE
  | SALTS_CONFIGURATOR_PHASE_ACTIVATE.

#[export] Instance salts_configurator_phase_eq_dec : EqDecision salts_configurator_phase.
Proof. solve_decision. Defined.

Inductive salts_configurator_context_state :=
  | SALTS_CONFIGURATOR_CONTEXT_ZERO
  | SALTS_CONFIGURATOR_CONTEXT_READY
  | SALTS_CONFIGURATOR_CONTEXT_RESOLVED
  | SALTS_CONFIGURATOR_CONTEXT_ACTIVE
  | SALTS_CONFIGURATOR_CONTEXT_FAILED
  | SALTS_CONFIGURATOR_CONTEXT_STOPPED.

#[export] Instance salts_configurator_context_state_eq_dec :
  EqDecision salts_configurator_context_state.
Proof. solve_decision. Defined.

Definition SALTS_CONFIGURATOR_PROVIDER_BINDING_ABI_VERSION : Z := 2.
Definition sizeof_provider_binding : Z := 64.

(** [create], [activate] and [deactivate] are function addresses. *)
Record salts_configurator_provider_binding := mk_binding {
  pb_struct_size : Z;
  pb_abi_version : Z;
  pb_component : option cmeta_component_desc;
  pb_provider_context : option addr;
  pb_interfaces : option cmeta_object_interface_provider;
  pb_create : option addr;
  pb_activate : option addr;
  pb_deactivate : option addr;
}.

(** [provider_instance] points at the object of an instance: the address of the
    instance array and the index. *)
Record salts_configurator_dependency := mk_dependency {
  dp_consumer_index : nat;
  dp_provider_index : nat;
  dp_interface_desc : option cmeta_interface_desc;
  dp_provider_component : option cmeta_component_desc;
  dp_provider_instance : option (addr * nat);
  dp_provider_interfaces : option cmeta_object_interface_provider;
}.

Record salts_configurator_selection := mk_selection {
  se_consumer_component_id : cstr;
  se_requirement : option cmeta_interface_desc;
  se_provider_component_id : cstr;
}.

Record salts_configurator_deployment := mk_deployment {
  dy_provider : option salts_configurator_provider_binding;
  dy_config_data : option cmeta_data_desc;
  dy_config_value : option addr;
}.

Record salts_configurator_instance := mk_instance {
  in_object : cmeta_object_ref;
  in_dependency_offset : nat;
  in_dependency_count : nat;
  in_active : bool;
}.

(** An array of deployments the caller lends: where it is and what it holds. *)
Record deployment_array := mk_deployments {
  da_addr : addr;
  da_rows : list salts_configurator_deployment;
}.

(** [None] is [SALTS_CONFIGURATOR_INDEX_NONE]. *)
Record salts_configurator_failure := mk_failure {
  fa_phase : salts_configurator_phase;
  fa_component_index : option nat;
  fa_dependency_index : option nat;
  fa_provider_status : cmeta_status;
}.

Record salts_configurator_context := mk_context {
  cx_deployments : option deployment_array;
  cx_deployment_count : nat;
  cx_selections : option (list salts_configurator_selection);
  cx_selection_count : nat;
  cx_instances : option addr;
  cx_instance_capacity : nat;
  cx_dependencies : option addr;
  cx_dependency_capacity : nat;
  cx_dependency_count : nat;
  cx_activation_order : option addr;
  cx_activation_capacity : nat;
  cx_activation_count : nat;
  cx_state : salts_configurator_context_state;
  cx_failure : salts_configurator_failure;
}.

(** What the caller's arrays hold. *)
Record storage := mk_storage {
  so_instances : list salts_configurator_instance;
  so_dependencies : list salts_configurator_dependency;
  so_order : list nat;
}.

(** * Bindings and deployments *)

Definition capability_rows (c : cmeta_component_desc) : list cmeta_component_capability :=
  take (cd_capability_count c) (cd_rows c).

Definition is_role (role : cmeta_component_role) (row : cmeta_component_capability) : bool :=
  bool_decide (cc_role row = role).

Definition salts_configurator_provider_binding_valid
    (binding : option salts_configurator_provider_binding) : bool :=
  match binding with
  | None => false
  | Some b =>
      if negb (pb_struct_size b =? sizeof_provider_binding) ||
         negb (pb_abi_version b =? SALTS_CONFIGURATOR_PROVIDER_BINDING_ABI_VERSION) ||
         negb (cmeta_component_desc_valid (pb_component b)) || is_null (pb_create b) ||
         negb (Bool.eqb (is_null (pb_activate b)) (is_null (pb_deactivate b))) then false
      else if negb (is_null (pb_interfaces b)) &&
              negb (cmeta_object_interface_provider_valid (pb_interfaces b)) then false
      else
        match pb_component b with
        | None => false
        | Some c =>
            negb (existsb (is_role CMETA_COMPONENT_PROVIDES) (capability_rows c)) ||
            cmeta_object_interface_provider_valid (pb_interfaces b)
        end
  end.

(** [*out_dependency] is the index of the one match. *)
Definition salts_configurator_dependency_find
    (dependencies : option (list salts_configurator_dependency)) (dependency_count : nat)
    (interface_desc : option cmeta_interface_desc) : salts_configurator_status * option nat :=
  if negb (cmeta_interface_desc_valid interface_desc) ||
     (negb (dependency_count =? 0)%nat && is_null dependencies)
  then (SALTS_CONFIGURATOR_INVALID_ARGUMENT, None)
  else
    match List.filter (fun i =>
            match default [] dependencies !! i with
            | Some d => cmeta_interface_desc_equal (dp_interface_desc d) interface_desc
            | None => false
            end) (seq 0 dependency_count) with
    | [] => (SALTS_CONFIGURATOR_MISSING_PROVIDER, None)
    | [i] => (SALTS_CONFIGURATOR_OK, Some i)
    | _ => (SALTS_CONFIGURATOR_AMBIGUOUS_PROVIDER, None)
    end.

(** A row of [component] with [role] and this interface. *)
Definition has_capability (role : cmeta_component_role) (component : option cmeta_component_desc)
    (expected : option cmeta_interface_desc) : bool :=
  if negb (cmeta_component_desc_valid component) || negb (cmeta_interface_desc_valid expected)
  then false
  else
    match component with
    | None => false
    | Some c =>
        existsb (fun row => is_role role row &&
                            cmeta_interface_desc_equal (cc_interface_desc row) expected)
          (capability_rows c)
    end.

Definition salts_configurator_provides := has_capability CMETA_COMPONENT_PROVIDES.

Definition salts_configurator_requires := has_capability CMETA_COMPONENT_REQUIRES.

Definition salts_configurator_requirement_count (component : cmeta_component_desc) : nat :=
  length (List.filter (is_role CMETA_COMPONENT_REQUIRES) (capability_rows component)).

Definition salts_configurator_deployment_status (deployment : salts_configurator_deployment)
    : salts_configurator_status :=
  match dy_provider deployment with
  | None => SALTS_CONFIGURATOR_INVALID_COMPONENT
  | Some b =>
      if negb (salts_configurator_provider_binding_valid (Some b))
      then SALTS_CONFIGURATOR_INVALID_COMPONENT
      else
        match pb_component b ≫= cd_config with
        | None =>
            if negb (is_null (dy_config_data deployment)) ||
               negb (is_null (dy_config_value deployment))
            then SALTS_CONFIGURATOR_CONFIG_MISMATCH else SALTS_CONFIGURATOR_OK
        | Some config =>
            if is_null (dy_config_data deployment) || is_null (dy_config_value deployment) ||
               negb (cmeta_data_desc_valid (dy_config_data deployment)) ||
               negb (cmeta_data_desc_equal (Some config) (dy_config_data deployment))
            then SALTS_CONFIGURATOR_CONFIG_MISMATCH else SALTS_CONFIGURATOR_OK
        end
  end.

Definition deployment_ok (deployment : salts_configurator_deployment) : bool :=
  bool_decide (salts_configurator_deployment_status deployment = SALTS_CONFIGURATOR_OK).

(** * Contexts *)

Definition cx_rows (c : salts_configurator_context) : list salts_configurator_deployment :=
  match cx_deployments c with Some d => da_rows d | None => [] end.

Definition cx_selection_rows (c : salts_configurator_context) : list salts_configurator_selection :=
  default [] (cx_selections c).

Definition salts_configurator_provider_at (context : salts_configurator_context) (index : nat)
    : option salts_configurator_provider_binding :=
  if (cx_deployment_count context <=? index)%nat then None
  else match cx_rows context !! index with Some d => dy_provider d | None => None end.

(** [salts_configurator_provider_at (context, index)->component]. *)
Definition component_at (context : salts_configurator_context) (index : nat)
    : option cmeta_component_desc :=
  match salts_configurator_provider_at context index with
  | Some b => pb_component b
  | None => None
  end.

Definition component_id (c : option cmeta_component_desc) : cstr :=
  match c with Some d => cd_stable_id d | None => None end.

Definition salts_configurator_failure_none : salts_configurator_failure :=
  mk_failure SALTS_CONFIGURATOR_PHASE_NONE None None CMETA_OK.

Definition SALTS_CONFIGURATOR_CONTEXT_INIT : salts_configurator_context :=
  mk_context None 0 None 0 None 0 None 0 0 None 0 0 SALTS_CONFIGURATOR_CONTEXT_ZERO
    (mk_failure SALTS_CONFIGURATOR_PHASE_NONE (Some 0%nat) (Some 0%nat) CMETA_OK).

Definition set_cx_state (state : salts_configurator_context_state) (c : salts_configurator_context)
    : salts_configurator_context :=
  mk_context (cx_deployments c) (cx_deployment_count c) (cx_selections c) (cx_selection_count c)
    (cx_instances c) (cx_instance_capacity c) (cx_dependencies c) (cx_dependency_capacity c)
    (cx_dependency_count c) (cx_activation_order c) (cx_activation_capacity c)
    (cx_activation_count c) state (cx_failure c).

Definition set_cx_failure (failure : salts_configurator_failure) (c : salts_configurator_context)
    : salts_configurator_context :=
  mk_context (cx_deployments c) (cx_deployment_count c) (cx_selections c) (cx_selection_count c)
    (cx_instances c) (cx_instance_capacity c) (cx_dependencies c) (cx_dependency_capacity c)
    (cx_dependency_count c) (cx_activation_order c) (cx_activation_capacity c)
    (cx_activation_count c) (cx_state c) failure.

(** [context->dependency_count] and [context->activation_count]. *)
Definition set_cx_counts (dependencies activations : nat) (c : salts_configurator_context)
    : salts_configurator_context :=
  mk_context (cx_deployments c) (cx_deployment_count c) (cx_selections c) (cx_selection_count c)
    (cx_instances c) (cx_instance_capacity c) (cx_dependencies c) (cx_dependency_capacity c)
    dependencies (cx_activation_order c) (cx_activation_capacity c)
    activations (cx_state c) (cx_failure c).

Definition salts_configurator_context_detach_storage (c : salts_configurator_context)
    : salts_configurator_context :=
  mk_context None 0 None 0 None 0 None 0 0 None 0 0 (cx_state c) (cx_failure c).

Definition salts_configurator_object_ref_empty (object : cmeta_object_ref) : bool :=
  (or_size object =? sizeof_object_ref) && is_null (or_object object) &&
  is_null (or_data object) && is_null (or_field_provider object) &&
  is_null (or_operations object) && is_null (or_operation_provider object) &&
  bool_decide (or_lifetime object = CMETA_OBJECT_LIFETIME_NONE) &&
  is_null (or_lifecycle object).

Definition salts_configurator_storage_detached (c : salts_configurator_context) : bool :=
  is_null (cx_deployments c) && (cx_deployment_count c =? 0)%nat &&
  is_null (cx_selections c) && (cx_selection_count c =? 0)%nat &&
  is_null (cx_instances c) && (cx_instance_capacity c =? 0)%nat &&
  is_null (cx_dependencies c) && (cx_dependency_capacity c =? 0)%nat &&
  (cx_dependency_count c =? 0)%nat &&
  is_null (cx_activation_order c) && (cx_activation_capacity c =? 0)%nat &&
  (cx_activation_count c =? 0)%nat.

Definition state_is (state : salts_configurator_context_state) (c : salts_configurator_context)
    : bool := bool_decide (cx_state c = state).

Definition salts_configurator_context_zero_is_clear (c : salts_configurator_context) : bool :=
  state_is SALTS_CONFIGURATOR_CONTEXT_ZERO c && salts_configurator_storage_detached c.

Definition instance_clear (i : salts_configurator_instance) : bool :=
  negb (in_active i) && salts_configurator_object_ref_empty (in_object i).

Definition salts_configurator_instances_settled (c : salts_configurator_context) (st : storage)
    : bool :=
  if (state_is SALTS_CONFIGURATOR_CONTEXT_FAILED c || state_is SALTS_CONFIGURATOR_CONTEXT_STOPPED c)
     && (cx_deployment_count c =? 0)%nat && negb (salts_configurator_storage_detached c) then false
  else if (cx_instance_capacity c <? cx_deployment_count c)%nat ||
          (negb (cx_instance_capacity c =? 0)%nat && is_null (cx_instances c)) then false
  else forallb_upto instance_clear (so_instances st) (cx_instance_capacity c).

Definition salts_configurator_fail (c : salts_configurator_context) (st : storage)
    (status : salts_configurator_status) (phase : salts_configurator_phase)
    (component_index dependency_index : option nat) (provider_status : cmeta_status)
    : salts_configurator_status * salts_configurator_context :=
  let c := set_cx_state SALTS_CONFIGURATOR_CONTEXT_FAILED
             (set_cx_failure (mk_failure phase component_index dependency_index provider_status) c) in
  (status,
   if bool_decide (phase = SALTS_CONFIGURATOR_PHASE_INIT) ||
      bool_decide (phase = SALTS_CONFIGURATOR_PHASE_RESOLVE) ||
      salts_configurator_instances_settled c st
   then salts_configurator_context_detach_storage c else c).

(** * Lookup and selection *)

Definition salts_configurator_order_contains (st : storage) (prefix_count component_index : nat)
    : bool := existsb (Nat.eqb component_index) (take prefix_count (so_order st)).

Definition salts_configurator_find_id (c : salts_configurator_context) (stable_id : cstr)
    : option nat :=
  find_below (cx_deployment_count c)
    (fun i => cstr_same (component_id (component_at c i)) stable_id).

(** The providers of an interface among the deployments. *)
Definition providers_of (c : salts_configurator_context) (requirement : option cmeta_interface_desc)
    : list nat :=
  List.filter (fun i => salts_configurator_provides (component_at c i) requirement)
    (seq 0 (cx_deployment_count c)).

(** The selections a consumer makes for a requirement. *)
Definition selections_for (c : salts_configurator_context) (consumer_id : cstr)
    (requirement : option cmeta_interface_desc) : list salts_configurator_selection :=
  List.filter (fun row => cstr_same (se_consumer_component_id row) consumer_id &&
                          cmeta_interface_desc_equal (se_requirement row) requirement)
    (take (cx_selection_count c) (cx_selection_rows c)).

(** The status, [*out_provider]. *)
Definition salts_configurator_select_provider (c : salts_configurator_context)
    (consumer_index : nat) (requirement : option cmeta_interface_desc)
    : salts_configurator_status * option nat :=
  if (cx_deployment_count c <=? consumer_index)%nat ||
     negb (cmeta_interface_desc_valid requirement)
  then (SALTS_CONFIGURATOR_INVALID_ARGUMENT, None)
  else
    match selections_for c (component_id (component_at c consumer_index)) requirement with
    | [] =>
        match providers_of c requirement with
        | [] => (SALTS_CONFIGURATOR_MISSING_PROVIDER, None)
        | [candidate] => (SALTS_CONFIGURATOR_OK, Some candidate)
        | _ => (SALTS_CONFIGURATOR_AMBIGUOUS_PROVIDER, None)
        end
    | [selection] =>
        match salts_configurator_find_id c (se_provider_component_id selection) with
        | None => (SALTS_CONFIGURATOR_INVALID_SELECTION, None)
        | Some candidate =>
            if negb (salts_configurator_provides (component_at c candidate) requirement)
            then (SALTS_CONFIGURATOR_INVALID_SELECTION, None)
            else (SALTS_CONFIGURATOR_OK, Some candidate)
        end
    | _ => (SALTS_CONFIGURATOR_INVALID_SELECTION, None)
    end.

Definition salts_configurator_dependencies_ready (st : storage) (component_index prefix_count : nat)
    : bool :=
  match so_instances st !! component_index with
  | None => false
  | Some i =>
      forall_below (in_dependency_count i) (fun k =>
        match so_dependencies st !! (in_dependency_offset i + k)%nat with
        | Some d => salts_configurator_order_contains st prefix_count (dp_provider_index d)
        | None => false
        end)
  end.

(** * Validity of a plan *)

(** The bindings, instance states and dependency slices: [expected] is
    [expected_dependency_offset], the result its final value. *)
Fixpoint plan_slices (dependency_count : nat) (expect_active : bool)
    (deployments : list salts_configurator_deployment)
    (instances : list salts_configurator_instance) (count expected : nat) : option nat :=
  match count with
  | O => Some expected
  | S count' =>
      match deployments, instances with
      | d :: deployments', i :: instances' =>
          if negb (deployment_ok d) || negb (in_dependency_offset i =? expected)%nat ||
             (dependency_count <? in_dependency_offset i)%nat ||
             (dependency_count - in_dependency_offset i <? in_dependency_count i)%nat
          then None
          else if (if expect_active
                   then negb (in_active i) || negb (cmeta_object_ref_valid (Some (in_object i)))
                   else in_active i || negb (salts_configurator_object_ref_empty (in_object i)))
          then None
          else plan_slices dependency_count expect_active deployments' instances' count'
                 (expected + in_dependency_count i)
      | _, _ => None
      end
  end.

(** An instance the plan does not use. *)
Definition instance_unused (i : salts_configurator_instance) : bool :=
  instance_clear i && (in_dependency_offset i =? 0)%nat && (in_dependency_count i =? 0)%nat.

(** [context->instances[deployment_count .. instance_capacity)]. *)
Definition tail_unused (c : salts_configurator_context) (st : storage) : bool :=
  forallb_upto instance_unused (drop (cx_deployment_count c) (so_instances st))
    (cx_instance_capacity c - cx_deployment_count c).

Definition interfaces_ptr (p : option cmeta_object_interface_provider) : option addr :=
  ip_addr <$> p.

Definition component_ptr (p : option cmeta_component_desc) : option addr := cd_addr <$> p.

(** One dependency of the consumer at [consumer_index]. *)
Definition plan_dependency_valid (c : salts_configurator_context) (consumer_index : nat)
    (d : salts_configurator_dependency) : bool :=
  if negb (dp_consumer_index d =? consumer_index)%nat ||
     (cx_deployment_count c <=? dp_provider_index d)%nat ||
     negb (cmeta_interface_desc_valid (dp_interface_desc d)) then false
  else
    match salts_configurator_provider_at c consumer_index,
          salts_configurator_provider_at c (dp_provider_index d) with
    | Some consumer, Some provider =>
        bool_decide (component_ptr (dp_provider_component d) = component_ptr (pb_component provider)) &&
        bool_decide (dp_provider_instance d =
                     (fun a => (a, dp_provider_index d)) <$> cx_instances c) &&
        bool_decide (interfaces_ptr (dp_provider_interfaces d) =
                     interfaces_ptr (pb_interfaces provider)) &&
        salts_configurator_requires (pb_component consumer) (dp_interface_desc d) &&
        salts_configurator_provides (pb_component provider) (dp_interface_desc d)
    | _, _ => false
    end.

Definition plan_dependencies_valid (c : salts_configurator_context) (st : storage) : bool :=
  forall_below (cx_deployment_count c) (fun i =>
    match so_instances st !! i with
    | None => false
    | Some instance =>
        forall_below (in_dependency_count instance) (fun k =>
          match so_dependencies st !! (in_dependency_offset instance + k)%nat with
          | Some d => plan_dependency_valid c i d
          | None => false
          end)
    end).

(** The activation order holds distinct component indexes. *)
Definition order_distinct (c : salts_configurator_context) (st : storage) : bool :=
  (cx_activation_count c <=? length (so_order st))%nat &&
  forallb_prev (fun before index =>
    (index <? cx_deployment_count c)%nat && negb (existsb (Nat.eqb index) before))
    [] (take (cx_activation_count c) (so_order st)).

(** Every provider precedes its consumer. *)
Definition order_ready (c : salts_configurator_context) (st : storage) : bool :=
  forall_below (cx_activation_count c) (fun i =>
    match so_order st !! i with
    | Some index => salts_configurator_dependencies_ready st index i
    | None => false
    end).

(** The counts and pointers both validity checks share. *)
Definition arrays_present (c : salts_configurator_context) : bool :=
  negb (negb (cx_instance_capacity c =? 0)%nat && is_null (cx_instances c)) &&
  negb (negb (cx_activation_capacity c =? 0)%nat && is_null (cx_activation_order c)) &&
  negb (negb (cx_deployment_count c =? 0)%nat &&
        (is_null (cx_deployments c) || is_null (cx_instances c) || is_null (cx_activation_order c))).

Definition salts_configurator_activation_plan_valid (c : salts_configurator_context) (st : storage)
    (expect_active : bool) : bool :=
  if (cx_instance_capacity c <? cx_deployment_count c)%nat ||
     (cx_activation_capacity c <? cx_deployment_count c)%nat ||
     negb (cx_activation_count c =? cx_deployment_count c)%nat ||
     (cx_dependency_capacity c <? cx_dependency_count c)%nat ||
     negb (arrays_present c) ||
     (negb (cx_dependency_capacity c =? 0)%nat && is_null (cx_dependencies c)) then false
  else
    match plan_slices (cx_dependency_count c) expect_active (cx_rows c) (so_instances st)
            (cx_deployment_count c) 0 with
    | None => false
    | Some expected =>
        (expected =? cx_dependency_count c)%nat && tail_unused c st && order_distinct c st &&
        plan_dependencies_valid c st && order_ready c st
    end.

(** * Initialisation *)

(** [selection] against the deployments and the selections before it: the
    component index and the error, [None] when it is admitted. *)
Definition selection_error (c : salts_configurator_context)
    (before : list salts_configurator_selection) (selection : salts_configurator_selection)
    : option (option nat) :=
  if negb (c_nonempty (se_consumer_component_id selection)) ||
     negb (c_nonempty (se_provider_component_id selection)) ||
     negb (cmeta_interface_desc_valid (se_requirement selection)) then Some None
  else
    match salts_configurator_find_id c (se_consumer_component_id selection),
          salts_configurator_find_id c (se_provider_component_id selection) with
    | Some consumer, Some provider =>
        if negb (salts_configurator_requires (component_at c consumer) (se_requirement selection)) ||
           negb (salts_configurator_provides (component_at c provider) (se_requirement selection))
        then Some (Some consumer)
        else if existsb (fun earlier =>
                  cstr_same (se_consumer_component_id earlier) (se_consumer_component_id selection) &&
                  cmeta_interface_desc_equal (se_requirement earlier) (se_requirement selection))
                  before
        then Some (Some consumer)
        else None
    | consumer, _ => Some consumer
    end.

(** The loop over the selections; the first error with its index. *)
Fixpoint init_selections (c : salts_configurator_context)
    (before rest : list salts_configurator_selection) (index count : nat)
    : option (option nat * nat) :=
  match count with
  | O => None
  | S count' =>
      match rest with
      | [] => Some (None, index)
      | s :: rest' =>
          match selection_error c before s with
          | Some component => Some (component, index)
          | None => init_selections c (before ++ [s]) rest' (S index) count'
          end
      end
  end.

Definition same_component_id (a b : salts_configurator_deployment) : bool :=
  cstr_same (component_id (dy_provider a ≫= pb_component))
    (component_id (dy_provider b ≫= pb_component)).

(** The loop over the deployments; the first error with its index. *)
Fixpoint init_deployments (before rest : list salts_configurator_deployment) (index count : nat)
    : option (salts_configurator_status * nat) :=
  match count with
  | O => None
  | S count' =>
      match rest with
      | [] => Some (SALTS_CONFIGURATOR_INVALID_COMPONENT, index)
      | d :: rest' =>
          if negb (deployment_ok d) then Some (salts_configurator_deployment_status d, index)
          else if existsb (same_component_id d) before
          then Some (SALTS_CONFIGURATOR_DUPLICATE_COMPONENT_ID, index)
          else init_deployments (before ++ [d]) rest' (S index) count'
      end
  end.

Definition salts_configurator_instance_reset : salts_configurator_instance :=
  mk_instance CMETA_OBJECT_REF_INIT 0 0 false.

(** The context may be initialised again. *)
Definition reusable (c : salts_configurator_context) (st : storage) : bool :=
  (state_is SALTS_CONFIGURATOR_CONTEXT_ZERO c || state_is SALTS_CONFIGURATOR_CONTEXT_STOPPED c ||
   state_is SALTS_CONFIGURATOR_CONTEXT_FAILED c) &&
  (cx_activation_count c =? 0)%nat &&
  negb (state_is SALTS_CONFIGURATOR_CONTEXT_ZERO c &&
        negb (salts_configurator_context_zero_is_clear c)) &&
  negb ((state_is SALTS_CONFIGURATOR_CONTEXT_STOPPED c ||
         state_is SALTS_CONFIGURATOR_CONTEXT_FAILED c) &&
        negb (salts_configurator_instances_settled c st)).

(** The arguments of [init]. *)
Record init_arguments := mk_init {
  ia_deployments : option deployment_array;
  ia_deployment_count : nat;
  ia_selections : option (list salts_configurator_selection);
  ia_selection_count : nat;
  ia_instances : option addr;
  ia_instance_capacity : nat;
  ia_dependencies : option addr;
  ia_dependency_capacity : nat;
  ia_activation_order : option addr;
  ia_activation_capacity : nat;
}.

(** [storage] is what the old arrays hold, [new] what the arrays of the
    arguments hold; the result is the new arrays' content. *)
Definition salts_configurator_context_init (context : option salts_configurator_context)
    (st : storage) (a : init_arguments) (new : storage)
    : salts_configurator_status * option salts_configurator_context * storage :=
  match context with
  | None => (SALTS_CONFIGURATOR_INVALID_ARGUMENT, None, st)
  | Some c =>
      if negb (reusable c st) then (SALTS_CONFIGURATOR_INVALID_STATE, context, st)
      else
        let c := set_cx_failure salts_configurator_failure_none SALTS_CONFIGURATOR_CONTEXT_INIT in
        let failed c status component dependency :=
          let '(status, c) := salts_configurator_fail c new status SALTS_CONFIGURATOR_PHASE_INIT
                                component dependency CMETA_OK in
          (status, Some c, new) in
        if (negb (ia_deployment_count a =? 0)%nat &&
            (is_null (ia_deployments a) || is_null (ia_instances a) ||
             is_null (ia_activation_order a))) ||
           (negb (ia_instance_capacity a =? 0)%nat && is_null (ia_instances a)) ||
           (negb (ia_activation_capacity a =? 0)%nat && is_null (ia_activation_order a)) ||
           (negb (ia_selection_count a =? 0)%nat && is_null (ia_selections a)) ||
           (negb (ia_dependency_capacity a =? 0)%nat && is_null (ia_dependencies a))
        then failed c SALTS_CONFIGURATOR_INVALID_ARGUMENT None None
        else if (ia_instance_capacity a <? ia_deployment_count a)%nat ||
                (ia_activation_capacity a <? ia_deployment_count a)%nat
        then failed c SALTS_CONFIGURATOR_CAPACITY_EXCEEDED None None
        else
          let c := mk_context (ia_deployments a) (ia_deployment_count a) (ia_selections a)
                     (ia_selection_count a) (ia_instances a) (ia_instance_capacity a)
                     (ia_dependencies a) (ia_dependency_capacity a) 0 (ia_activation_order a)
                     (ia_activation_capacity a) 0 (cx_state c) (cx_failure c) in
          match init_deployments [] (cx_rows c) 0 (cx_deployment_count c) with
          | Some (status, index) => failed c status (Some index) None
          | None =>
              match init_selections c [] (cx_selection_rows c) 0 (cx_selection_count c) with
              | Some (component, index) =>
                  failed c SALTS_CONFIGURATOR_INVALID_SELECTION component (Some index)
              | None =>
                  (SALTS_CONFIGURATOR_OK,
                   Some (set_cx_state SALTS_CONFIGURATOR_CONTEXT_READY c),
                   mk_storage
                     (replicate (cx_instance_capacity c) salts_configurator_instance_reset ++
                      drop (cx_instance_capacity c) (so_instances new))
                     (so_dependencies new) (so_order new))
              end
          end
  end.

(** * Resolution *)

Definition ready_deployments_valid (c : salts_configurator_context) (st : storage) : bool :=
  (cx_deployment_count c <=? length (cx_rows c))%nat &&
  forallb_upto instance_unused (so_instances st) (cx_deployment_count c) &&
  forallb_prev (fun before d =>
    deployment_ok d && negb (existsb (same_component_id d) before))
    [] (take (cx_deployment_count c) (cx_rows c)).

Definition ready_selections_valid (c : salts_configurator_context) : bool :=
  (cx_selection_count c <=? length (cx_selection_rows c))%nat &&
  forallb_prev (fun before s => is_null (selection_error c before s))
    [] (take (cx_selection_count c) (cx_selection_rows c)).

Definition salts_configurator_ready_context_valid (c : salts_configurator_context) (st : storage)
    : bool :=
  if (cx_instance_capacity c <? cx_deployment_count c)%nat ||
     (cx_activation_capacity c <? cx_deployment_count c)%nat ||
     negb (cx_dependency_count c =? 0)%nat || negb (cx_activation_count c =? 0)%nat ||
     negb (arrays_present c) ||
     (negb (cx_selection_count c =? 0)%nat && is_null (cx_selections c)) ||
     (negb (cx_dependency_capacity c =? 0)%nat && is_null (cx_dependencies c)) then false
  else ready_deployments_valid c st && tail_unused c st && ready_selections_valid c.

(** The requirement counts; [inl index] when the total overflows there. *)
Fixpoint required_total (c : salts_configurator_context) (index remaining : nat) (total : Z)
    : nat + Z :=
  match remaining with
  | O => inr total
  | S remaining' =>
      let count := match component_at c index with
                   | Some d => Z.of_nat (salts_configurator_requirement_count d)
                   | None => 0
                   end in
      if SIZE_MAX - count <? total then inl index
      else required_total c (S index) remaining' (total + count)
  end.

Definition write_dependency (index : nat) (d : salts_configurator_dependency) (st : storage)
    : option storage :=
  if (index <? length (so_dependencies st))%nat
  then Some (mk_storage (so_instances st) (<[index:=d]> (so_dependencies st)) (so_order st))
  else None.

Definition write_instance (index : nat) (i : salts_configurator_instance) (st : storage)
    : option storage :=
  if (index <? length (so_instances st))%nat
  then Some (mk_storage (<[index:=i]> (so_instances st)) (so_dependencies st) (so_order st))
  else None.

Definition write_order (index component : nat) (st : storage) : option storage :=
  if (index <? length (so_order st))%nat
  then Some (mk_storage (so_instances st) (so_dependencies st) (<[index:=component]> (so_order st)))
  else None.

(** The record written for a requirement of consumer [i]. *)
Definition dependency_record (c : salts_configurator_context) (i candidate : nat)
    (requirement : option cmeta_interface_desc) : salts_configurator_dependency :=
  mk_dependency i candidate requirement (component_at c candidate)
    ((fun a => (a, candidate)) <$> cx_instances c)
    match salts_configurator_provider_at c candidate with
    | Some b => pb_interfaces b
    | None => None
    end.

(** A loop of the resolver: it goes on with the storage and the dependency
    count, or stops with an error. *)
Inductive resolve_outcome :=
  | Resolving (st : storage) (dependency_count : nat)
  | ResolveError (st : storage) (status : salts_configurator_status) (component : nat)
      (dependency : nat).

(** The loop over the capability rows of consumer [i]. *)
Fixpoint resolve_capabilities (c : salts_configurator_context) (i : nat)
    (capabilities : list cmeta_component_capability) (st : storage) (dependency_count : nat)
    : option resolve_outcome :=
  match capabilities with
  | [] => Some (Resolving st dependency_count)
  | row :: capabilities' =>
      if negb (is_role CMETA_COMPONENT_REQUIRES row)
      then resolve_capabilities c i capabilities' st dependency_count
      else
        match salts_configurator_select_provider c i (cc_interface_desc row) with
        | (SALTS_CONFIGURATOR_OK, Some candidate) =>
            st ← write_dependency dependency_count
                   (dependency_record c i candidate (cc_interface_desc row)) st;
            instance ← so_instances st !! i;
            st ← write_instance i (mk_instance (in_object instance) (in_dependency_offset instance)
                                     (S (in_dependency_count instance)) (in_active instance)) st;
            resolve_capabilities c i capabilities' st (S dependency_count)
        | (status, _) => Some (ResolveError st status i dependency_count)
        end
  end.

(** The loop over the consumers from [i]. *)
Fixpoint resolve_consumers (c : salts_configurator_context) (i remaining : nat) (st : storage)
    (dependency_count : nat) : option resolve_outcome :=
  match remaining with
  | O => Some (Resolving st dependency_count)
  | S remaining' =>
      instance ← so_instances st !! i;
      component ← component_at c i;
      st ← write_instance i (mk_instance (in_object instance) dependency_count 0 (in_active instance))
             st;
      outcome ← resolve_capabilities c i (capability_rows component) st dependency_count;
      match outcome with
      | Resolving st dependency_count =>
          resolve_consumers c (S i) remaining' st dependency_count
      | error => Some error
      end
  end.

(** The component the [i]-th place of the order goes to. *)
Definition next_component (c : salts_configurator_context) (st : storage) (i : nat) : option nat :=
  find_below (cx_deployment_count c) (fun candidate =>
    negb (salts_configurator_order_contains st i candidate) &&
    salts_configurator_dependencies_ready st candidate i).

(** The order loop; the flag says whether every place was filled. *)
Fixpoint resolve_order (c : salts_configurator_context) (i remaining : nat) (st : storage)
    : option (storage * bool) :=
  match remaining with
  | O => Some (st, true)
  | S remaining' =>
      match next_component c st i with
      | None => Some (st, false)
      | Some selected => st ← write_order i selected st; resolve_order c (S i) remaining' st
      end
  end.

Definition salts_configurator_context_resolve (context : option salts_configurator_context)
    (st : storage)
    : option (salts_configurator_status * option salts_configurator_context * storage) :=
  match context with
  | None => Some (SALTS_CONFIGURATOR_INVALID_ARGUMENT, None, st)
  | Some c =>
      if negb (state_is SALTS_CONFIGURATOR_CONTEXT_READY c) ||
         negb (salts_configurator_ready_context_valid c st)
      then Some (SALTS_CONFIGURATOR_INVALID_STATE, context, st)
      else
        let c := set_cx_counts 0 0 (set_cx_failure salts_configurator_failure_none c) in
        let failed c st status component dependency :=
          let '(status, c) := salts_configurator_fail c st status SALTS_CONFIGURATOR_PHASE_RESOLVE
                                component dependency CMETA_OK in
          Some (status, Some c, st) in
        match required_total c 0 (cx_deployment_count c) 0 with
        | inl index => failed c st SALTS_CONFIGURATOR_CAPACITY_EXCEEDED (Some index) None
        | inr total =>
            if (Z.of_nat (cx_dependency_capacity c) <? total) ||
               (negb (total =? 0) && is_null (cx_dependencies c))
            then failed c st SALTS_CONFIGURATOR_CAPACITY_EXCEEDED None None
            else
              outcome ← resolve_consumers c 0 (cx_deployment_count c) st 0;
              match outcome with
              | ResolveError st status component dependency =>
                  failed c st status (Some component) (Some dependency)
              | Resolving st dependency_count =>
                  let c := set_cx_counts dependency_count (cx_activation_count c) c in
                  '(st, filled) ← resolve_order c 0 (cx_deployment_count c) st;
                  if negb (filled : bool)
                  then failed c st SALTS_CONFIGURATOR_DEPENDENCY_CYCLE None None
                  else
                    Some (SALTS_CONFIGURATOR_OK,
                          Some (set_cx_state SALTS_CONFIGURATOR_CONTEXT_RESOLVED
                                  (set_cx_counts dependency_count (cx_deployment_count c) c)),
                          st)
              end
        end
  end.

(** * Starting and stopping *)

(** Provider callbacks: the function pointer and the provider context.
    [create] gets the consumer's dependencies and may read the instances they
    point at; it writes the instance's reference.

    A callback that ends a component may know where the caller's instances are and
    write their references: [pc_written w] is what the [deactivate], [release] or
    [destroy] that left the world at [w] wrote, as indices and values in order. *)
Class ProviderCallbacks (W : Type) := {
  pc_create : addr -> option addr -> option cmeta_data_desc -> option addr ->
    list salts_configurator_dependency -> list salts_configurator_instance -> W ->
    cmeta_status * cmeta_object_ref * W;
  pc_activate : addr -> option addr -> cmeta_object_ref -> W -> cmeta_status * W;
  pc_deactivate : addr -> option addr -> cmeta_object_ref -> W -> W;
  pc_written : W -> list (nat * cmeta_object_ref);
}.

Section Lifecycle.
  Context {W : Type} `{ObjectCallbacks W} `{ProviderCallbacks W}.

(** [instance->object] and [instance->active]. *)
Definition set_in_object (object : cmeta_object_ref) (i : salts_configurator_instance)
    : salts_configurator_instance :=
  mk_instance object (in_dependency_offset i) (in_dependency_count i) (in_active i).

Definition set_in_active (active : bool) (i : salts_configurator_instance)
    : salts_configurator_instance :=
  mk_instance (in_object i) (in_dependency_offset i) (in_dependency_count i) active.

Definition update_instance (component : nat)
    (f : salts_configurator_instance -> salts_configurator_instance) (st : storage) : option storage :=
  i ← so_instances st !! component; write_instance component (f i) st.

(** The references of the array after a callback that left the world at [w]. *)
Definition callback_wrote (w : W) (st : storage) : storage :=
  mk_storage
    (foldl (fun instances p => alter (set_in_object p.2) p.1 instances) (so_instances st) (pc_written w))
    (so_dependencies st) (so_order st).

(** [if (binding->deactivate != NULL) binding->deactivate (..., &instance->object)]. *)
Definition deactivate_instance (b : salts_configurator_provider_binding) (component : nat)
    (st : storage) (w : W) : option (storage * W) :=
  i ← so_instances st !! component;
  Some match pb_deactivate b with
       | Some f =>
           let w := pc_deactivate f (pb_provider_context b) (in_object i) w in (callback_wrote w st, w)
       | None => (st, w)
       end.

Definition release_object (object : cmeta_object_ref) (w : W) : W :=
  (cmeta_object_release (Some object) w).2.

(** [cmeta_object_release (&instance->object)]: the reference is empty when the
    callback runs. *)
Definition release_instance (component : nat) (st : storage) (w : W) : option (storage * W) :=
  i ← so_instances st !! component;
  st ← update_instance component (set_in_object CMETA_OBJECT_REF_INIT) st;
  let w := release_object (in_object i) w in
  Some (if release_calls_back (in_object i) then callback_wrote w st else st, w).

(** The body of the loops of [salts_configurator_rollback] and
    [salts_configurator_context_stop]. *)
Definition end_component (c : salts_configurator_context) (component : nat) (st : storage) (w : W)
    : option (storage * W) :=
  i ← so_instances st !! component;
  if negb (in_active i) then Some (st, w)
  else
    b ← salts_configurator_provider_at c component;
    '(st, w) ← deactivate_instance b component st w;
    st ← update_instance component (set_in_active false) st;
    release_instance component st w.

(** The loops, over the first [count] places of the order, from the last. *)
Fixpoint unwind (c : salts_configurator_context) (count : nat) (st : storage) (w : W)
    : option (storage * W) :=
  match count with
  | O => Some (st, w)
  | S count' =>
      component ← so_order st !! count';
      '(st, w) ← end_component c component st w;
      unwind c count' st w
  end.

Definition salts_configurator_rollback (c : salts_configurator_context) (activated_count : nat)
    (st : storage) (w : W) : option (salts_configurator_context * storage * W) :=
  '(st, w) ← unwind c activated_count st w;
  Some (set_cx_counts (cx_dependency_count c) 0 c, st, w).

(** The object a dependency points at. *)
Definition dependency_object (c : salts_configurator_context) (st : storage)
    (d : salts_configurator_dependency) : option cmeta_object_ref :=
  match dp_provider_instance d with
  | Some (array, index) =>
      if bool_decide (cx_instances c = Some array)
      then in_object <$> so_instances st !! index else None
  | None => None
  end.

(** The loop that projects each dependency; the first failure with its
    position. *)
Fixpoint project_dependencies (c : salts_configurator_context) (st : storage)
    (dependencies : list salts_configurator_dependency) (index : nat) (w : W)
    : option (cmeta_status * nat) * W :=
  match dependencies with
  | [] => (None, w)
  | d :: rest =>
      let '(status, _, w) :=
        cmeta_object_interface_project_borrowed (dependency_object c st d)
          (dp_provider_interfaces d) (dp_interface_desc d) w in
      if negb (status_ok status) then (Some (status, index), w)
      else project_dependencies c st rest (S index) w
  end.

(** Each provided interface is projected from the new instance. *)
Fixpoint preflight_rows (binding : salts_configurator_provider_binding) (instance : cmeta_object_ref)
    (rows : list cmeta_component_capability) (w : W) : cmeta_status * W :=
  match rows with
  | [] => (CMETA_OK, w)
  | row :: rest =>
      if negb (is_role CMETA_COMPONENT_PROVIDES row) then preflight_rows binding instance rest w
      else
        let '(status, _, w) :=
          cmeta_object_interface_project_borrowed (Some instance) (pb_interfaces binding)
            (cc_interface_desc row) w in
        if negb (status_ok status) then (status, w)
        else preflight_rows binding instance rest w
  end.

Definition salts_configurator_preflight_provides (binding : salts_configurator_provider_binding)
    (instance : cmeta_object_ref) (w : W) : cmeta_status * W :=
  preflight_rows binding instance
    match pb_component binding with Some c => capability_rows c | None => [] end w.

(** What stops [start] at a component. *)
Record start_error := mk_start_error {
  se_status : salts_configurator_status;
  se_phase : salts_configurator_phase;
  se_dependency : option nat;
  se_provider_status : cmeta_status;
}.

(** [create], [activate] and the preflight on the instance of [component], whose
    reference is empty: the error if any.  [None] is the call of a NULL [create]. *)
Definition build_instance (b : salts_configurator_provider_binding)
    (deployment : salts_configurator_deployment) (dependencies : list salts_configurator_dependency)
    (component : nat) (st : storage) (w : W) : option (option start_error * storage * W) :=
  create ← pb_create b;
  let '(status, object, w) :=
    pc_create create (pb_provider_context b) (dy_config_data deployment)
      (dy_config_value deployment) dependencies (so_instances st) w in
  st ← update_instance component (set_in_object object) st;
  if negb (status_ok status) then
    '(st, w) ← (if cmeta_object_ref_valid (Some object) then release_instance component st w
                else Some (st, w));
    Some (Some (mk_start_error SALTS_CONFIGURATOR_CREATE_FAILED SALTS_CONFIGURATOR_PHASE_CREATE
                  None status), st, w)
  else if negb (cmeta_object_ref_valid (Some object)) then
    Some (Some (mk_start_error SALTS_CONFIGURATOR_CREATE_FAILED SALTS_CONFIGURATOR_PHASE_CREATE
                  None CMETA_CALLBACK_ERROR), st, w)
  else
    let '(status, w) :=
      match pb_activate b with
      | Some activate => pc_activate activate (pb_provider_context b) object w
      | None => (CMETA_OK, w)
      end in
    if negb (status_ok status) then
      '(st, w) ← release_instance component st w;
      Some (Some (mk_start_error SALTS_CONFIGURATOR_ACTIVATE_FAILED
                    SALTS_CONFIGURATOR_PHASE_ACTIVATE None status), st, w)
    else
      let '(status, w) := salts_configurator_preflight_provides b object w in
      if negb (status_ok status) then
        '(st, w) ← deactivate_instance b component st w;
        '(st, w) ← release_instance component st w;
        Some (Some (mk_start_error SALTS_CONFIGURATOR_INTERFACE_UNAVAILABLE
                      SALTS_CONFIGURATOR_PHASE_PROVIDE None status), st, w)
      else Some (None, st, w).

(** The body of the loop for the component at one place of the order. *)
Definition start_component (c : salts_configurator_context) (component : nat) (st : storage) (w : W)
    : option (option start_error * storage * W) :=
  i ← so_instances st !! component;
  b ← salts_configurator_provider_at c component;
  deployment ← cx_rows c !! component;
  let dependencies := take (in_dependency_count i)
                        (drop (in_dependency_offset i) (so_dependencies st)) in
  match project_dependencies c st dependencies (in_dependency_offset i) w with
  | (Some (status, index), w) =>
      Some (Some (mk_start_error SALTS_CONFIGURATOR_INTERFACE_UNAVAILABLE
                    SALTS_CONFIGURATOR_PHASE_DEPENDENCY (Some index) status), st, w)
  | (None, w) =>
      st ← update_instance component (set_in_object CMETA_OBJECT_REF_INIT) st;
      '(error, st, w) ← build_instance b deployment dependencies component st w;
      st ← (if is_null error then update_instance component (set_in_active true) st else Some st);
      Some (error, st, w)
  end.

(** The loop from place [index]. *)
Fixpoint start_loop (c : salts_configurator_context) (index remaining : nat) (st : storage) (w : W)
    : option (salts_configurator_status * salts_configurator_context * storage * W) :=
  match remaining with
  | O =>
      Some (SALTS_CONFIGURATOR_OK, set_cx_state SALTS_CONFIGURATOR_CONTEXT_ACTIVE c, st, w)
  | S remaining' =>
      component ← so_order st !! index;
      '(error, st, w) ← start_component c component st w;
      match error with
      | Some e =>
          '(c, st, w) ← salts_configurator_rollback c index st w;
          let '(status, c) := salts_configurator_fail c st (se_status e) (se_phase e)
                                (Some component) (se_dependency e) (se_provider_status e) in
          Some (status, c, st, w)
      | None => start_loop c (S index) remaining' st w
      end
  end.

Definition salts_configurator_context_start (context : option salts_configurator_context)
    (st : storage) (w : W)
    : option (salts_configurator_status * option salts_configurator_context * storage * W) :=
  match context with
  | None => Some (SALTS_CONFIGURATOR_INVALID_ARGUMENT, None, st, w)
  | Some c =>
      if negb (state_is SALTS_CONFIGURATOR_CONTEXT_RESOLVED c) ||
         negb (salts_configurator_activation_plan_valid c st false)
      then Some (SALTS_CONFIGURATOR_INVALID_STATE, context, st, w)
      else
        let c := set_cx_failure salts_configurator_failure_none c in
        '(status, c, st, w) ← start_loop c 0 (cx_activation_count c) st w;
        Some (status, Some c, st, w)
  end.

Definition salts_configurator_context_stop (context : option salts_configurator_context)
    (st : storage) (w : W)
    : option (salts_configurator_status * option salts_configurator_context * storage * W) :=
  match context with
  | None => Some (SALTS_CONFIGURATOR_INVALID_ARGUMENT, None, st, w)
  | Some c =>
      if negb (state_is SALTS_CONFIGURATOR_CONTEXT_ACTIVE c) ||
         negb (salts_configurator_activation_plan_valid c st true)
      then Some (SALTS_CONFIGURATOR_INVALID_STATE, context, st, w)
      else
        '(st, w) ← unwind c (cx_activation_count c) st w;
        let c := set_cx_counts (cx_dependency_count c) 0 c in
        if negb (salts_configurator_instances_settled c st)
        then Some (SALTS_CONFIGURATOR_INVALID_STATE,
                   Some (set_cx_state SALTS_CONFIGURATOR_CONTEXT_FAILED c), st, w)
        else Some (SALTS_CONFIGURATOR_OK,
                   Some (set_cx_state SALTS_CONFIGURATOR_CONTEXT_STOPPED
                           (salts_configurator_context_detach_storage c)), st, w)
  end.

(** * Services *)

Record salts_configurator_service := mk_service {
  sv_component : option cmeta_component_desc;
  sv_object : option (addr * nat);
  sv_interfaces : option cmeta_object_interface_provider;
}.

(** The service view of the instance at [candidate], once it is projected. *)
Definition publish_service (c : salts_configurator_context) (st : storage) (candidate : nat)
    (interface_desc : option cmeta_interface_desc) (w : W)
    : salts_configurator_status * option salts_configurator_service * W :=
  match so_instances st !! candidate, salts_configurator_provider_at c candidate with
  | Some i, Some b =>
      if negb (in_active i) then (SALTS_CONFIGURATOR_INVALID_STATE, None, w)
      else
        let '(status, _, w) :=
          cmeta_object_interface_project_borrowed (Some (in_object i)) (pb_interfaces b)
            interface_desc w in
        if negb (status_ok status) then (SALTS_CONFIGURATOR_INTERFACE_UNAVAILABLE, None, w)
        else
          (SALTS_CONFIGURATOR_OK,
           Some (mk_service (pb_component b) ((fun a => (a, candidate)) <$> cx_instances c)
                   (pb_interfaces b)), w)
  | _, _ => (SALTS_CONFIGURATOR_INVALID_STATE, None, w)
  end.

(** The status and what is written to [*out_service], a non-NULL pointer here
    and in [find_service]. *)
Definition salts_configurator_context_find_service_from
    (context : option salts_configurator_context) (st : storage) (provider_component_id : cstr)
    (interface_desc : option cmeta_interface_desc) (w : W)
    : salts_configurator_status * option salts_configurator_service * W :=
  match context with
  | None => (SALTS_CONFIGURATOR_INVALID_ARGUMENT, None, w)
  | Some c =>
      if negb (c_nonempty provider_component_id) || negb (cmeta_interface_desc_valid interface_desc)
      then (SALTS_CONFIGURATOR_INVALID_ARGUMENT, None, w)
      else if negb (state_is SALTS_CONFIGURATOR_CONTEXT_ACTIVE c)
      then (SALTS_CONFIGURATOR_INVALID_STATE, None, w)
      else
        match salts_configurator_find_id c provider_component_id with
        | None => (SALTS_CONFIGURATOR_MISSING_PROVIDER, None, w)
        | Some candidate =>
            if negb (salts_configurator_provides (component_at c candidate) interface_desc)
            then (SALTS_CONFIGURATOR_INTERFACE_UNAVAILABLE, None, w)
            else publish_service c st candidate interface_desc w
        end
  end.

Definition salts_configurator_context_find_service (context : option salts_configurator_context)
    (st : storage) (interface_desc : option cmeta_interface_desc) (w : W)
    : salts_configurator_status * option salts_configurator_service * W :=
  match context with
  | None => (SALTS_CONFIGURATOR_INVALID_ARGUMENT, None, w)
  | Some c =>
      if negb (cmeta_interface_desc_valid interface_desc)
      then (SALTS_CONFIGURATOR_INVALID_ARGUMENT, None, w)
      else if negb (state_is SALTS_CONFIGURATOR_CONTEXT_ACTIVE c)
      then (SALTS_CONFIGURATOR_INVALID_STATE, None, w)
      else
        match providers_of c interface_desc with
        | [] => (SALTS_CONFIGURATOR_MISSING_PROVIDER, None, w)
        | [candidate] => publish_service c st candidate interface_desc w
        | _ => (SALTS_CONFIGURATOR_AMBIGUOUS_PROVIDER, None, w)
        end
  end.

End Lifecycle.

Definition salts_configurator_context_failure (context : option salts_configurator_context)
    : option salts_configurator_failure :=
  match context with None => None | Some c => Some (cx_failure c) end.

Definition salts_configurator_status_string (status : salts_configurator_status) : string :=
  match status with
  | SALTS_CONFIGURATOR_OK => "ok"
  | SALTS_CONFIGURATOR_INVALID_ARGUMENT => "invalid argument"
  | SALTS_CONFIGURATOR_INVALID_COMPONENT => "invalid component"
  | SALTS_CONFIGURATOR_DUPLICATE_COMPONENT_ID => "duplicate component id"
  | SALTS_CONFIGURATOR_INVALID_SELECTION => "invalid provider selection"
  | SALTS_CONFIGURATOR_CONFIG_MISMATCH => "configuration mismatch"
  | SALTS_CONFIGURATOR_CAPACITY_EXCEEDED => "capacity exceeded"
  | SALTS_CONFIGURATOR_MISSING_PROVIDER => "missing provider"
  | SALTS_CONFIGURATOR_AMBIGUOUS_PROVIDER => "ambiguous provider"
  | SALTS_CONFIGURATOR_DEPENDENCY_CYCLE => "dependency cycle"
  | SALTS_CONFIGURATOR_INTERFACE_UNAVAILABLE => "interface unavailable"
  | SALTS_CONFIGURATOR_CREATE_FAILED => "create failed"
  | SALTS_CONFIGURATOR_ACTIVATE_FAILED => "activate failed"
  | SALTS_CONFIGURATOR_INVALID_STATE => "invalid state"
  end.
