(* ===== verification/ConfiguratorPlan.v ===== *)
(** Resolution of the Configurator: provider selection, the dependency table
    and the activation order that [salts_configurator_context_resolve]
    computes, up to the equivalence with the existence of a topological order. *)

From S2P Require Import Prelude CMetaType CMetaFunction CMetaInterface CMetaData.
From S2P Require Import CMetaOperation CMetaObject CMetaComponent Configurator.

(** * Deployments *)

(** What an admitted deployment offers. *)
Lemma deployment_ok_inv d :
  deployment_ok d = true ->
  exists b comp, dy_provider d = Some b /\ pb_component b = Some comp /\
    cmeta_component_desc_valid (Some comp) = true /\ is_Some (pb_create b) /\
    salts_configurator_provider_binding_valid (Some b) = true.
Proof.
  unfold deployment_ok, salts_configurator_deployment_status. intros Hok%bool_decide_eq_true.
  destruct (dy_provider d) as [b|]; [|done]. exists b.
  destruct (salts_configurator_provider_binding_valid (Some b)) eqn:Hb; [|done]. clear Hok.
  pose proof Hb as Hv. cbn [salts_configurator_provider_binding_valid] in Hb.
  case_if. destruct_bools. destruct (pb_component b) as [comp|]; [|done].
  exists comp. split_and!; try done. by apply is_null_false.
Qed.

(** Every deployment of the context is admitted. *)
Definition deployments_ok (c : salts_configurator_context) : Prop :=
  forall i, (i < cx_deployment_count c)%nat ->
    exists d, cx_rows c !! i = Some d /\ deployment_ok d = true.

Lemma provider_at_ok c i :
  deployments_ok c -> (i < cx_deployment_count c)%nat ->
  exists d b comp, cx_rows c !! i = Some d /\ dy_provider d = Some b /\
    salts_configurator_provider_at c i = Some b /\ pb_component b = Some comp /\
    component_at c i = Some comp /\ cmeta_component_desc_valid (Some comp) = true /\
    is_Some (pb_create b) /\ salts_configurator_provider_binding_valid (Some b) = true.
Proof.
  intros Hok Hi. destruct (Hok i Hi) as (d & Hd & Hdok).
  destruct (deployment_ok_inv d Hdok) as (b & comp & Hb & Hcomp & Hv & Hcreate & Hbind).
  assert (salts_configurator_provider_at c i = Some b) as Hp.
  { unfold salts_configurator_provider_at. rewrite (proj2 (Nat.leb_gt _ _) Hi), Hd. done. }
  exists d, b, comp. unfold component_at. rewrite Hp. done.
Qed.

Lemma provider_at_bound c i b :
  salts_configurator_provider_at c i = Some b -> (i < cx_deployment_count c)%nat.
Proof. unfold salts_configurator_provider_at. case_if; [done|]. destruct_bools. lia. Qed.

(** * Capabilities *)

Lemma has_capability_spec role comp expected :
  cmeta_component_desc_valid (Some comp) = true ->
  has_capability role (Some comp) expected = true <->
  cmeta_interface_desc_valid expected = true /\
  exists row, row ∈ capability_rows comp /\ cc_role row = role /\
    cmeta_interface_desc_equal (cc_interface_desc row) expected = true.
Proof.
  intros Hv. unfold has_capability. rewrite Hv. simpl.
  destruct (cmeta_interface_desc_valid expected); simpl; [|by split; [|intros [? _]]].
  rewrite existsb_exists. setoid_rewrite <- list_elem_of_In. split.
  - intros (row & Hin & Hr). apply andb_true_iff in Hr as [Hr ?].
    apply bool_decide_eq_true in Hr. split; [done|]. by exists row.
  - intros (_ & row & Hin & Hr & Heq). exists row. split; [done|].
    unfold is_role. by rewrite bool_decide_true.
Qed.

Lemma capability_row_interface comp row :
  cmeta_component_desc_valid (Some comp) = true -> row ∈ capability_rows comp ->
  cmeta_interface_desc_valid (cc_interface_desc row) = true.
Proof.
  intros Hv [i Hi]%list_elem_of_lookup. pose proof (component_valid_rows comp Hv i row Hi) as Hr.
  unfold capability_row_valid in Hr. by destruct_bools.
Qed.

(** * Selection *)

Lemma providers_of_spec c requirement p :
  p ∈ providers_of c requirement <->
  (p < cx_deployment_count c)%nat /\
  salts_configurator_provides (component_at c p) requirement = true.
Proof.
  unfold providers_of. rewrite list_elem_of_In, filter_In, in_seq. split; intros [? ?]; split; lia || done.
Qed.

Lemma find_id_spec c id p :
  salts_configurator_find_id c id = Some p ->
  (p < cx_deployment_count c)%nat /\ cstr_same (component_id (component_at c p)) id = true.
Proof. unfold salts_configurator_find_id. rewrite find_below_Some. tauto. Qed.

Lemma select_provider_ok c i requirement p :
  salts_configurator_select_provider c i requirement = (SALTS_CONFIGURATOR_OK, Some p) ->
  (p < cx_deployment_count c)%nat /\
  salts_configurator_provides (component_at c p) requirement = true.
Proof.
  unfold salts_configurator_select_provider. case_if; [done|].
  destruct (selections_for _ _ _) as [|s [|]]; [| |done].
  - destruct (providers_of c requirement) as [|q [|]] eqn:Hp; [done| |done].
    intros [= <-]. apply providers_of_spec. rewrite Hp. by left.
  - destruct (salts_configurator_find_id c _) as [q|] eqn:Hf; [|done]. case_if; [done|].
    destruct_bools. intros [= <-]. by apply find_id_spec in Hf as [? _].
Qed.

(** The errors of a selection. *)
Definition selection_failure (status : salts_configurator_status) : Prop :=
  status = SALTS_CONFIGURATOR_INVALID_ARGUMENT \/ status = SALTS_CONFIGURATOR_MISSING_PROVIDER \/
  status = SALTS_CONFIGURATOR_AMBIGUOUS_PROVIDER \/ status = SALTS_CONFIGURATOR_INVALID_SELECTION.

Lemma select_provider_status c i requirement status :
  salts_configurator_select_provider c i requirement = (status, None) -> selection_failure status.
Proof.
  unfold selection_failure, salts_configurator_select_provider. case_if; [intros [= <-]; tauto|].
  destruct (selections_for _ _ _) as [|s [|]]; [| |intros [= <-]; tauto].
  - destruct (providers_of c requirement) as [|q [|]]; intros [= <-]; tauto.
  - destruct (salts_configurator_find_id c _) as [q|]; [|intros [= <-]; tauto].
    case_if; intros [= <-]; tauto.
Qed.

Lemma select_provider_cases c i requirement :
  (exists p, salts_configurator_select_provider c i requirement = (SALTS_CONFIGURATOR_OK, Some p)) \/
  (exists status, salts_configurator_select_provider c i requirement = (status, None) /\
     selection_failure status).
Proof.
  destruct (salts_configurator_select_provider c i requirement) as [status [p|]] eqn:Hs.
  - left. exists p. revert Hs. unfold salts_configurator_select_provider. case_if; [done|].
    destruct (selections_for _ _ _) as [|s [|]]; [| |done].
    + destruct (providers_of c requirement) as [|q [|]]; [done|by intros [= <- <-]|done].
    + destruct (salts_configurator_find_id c _) as [q|]; [|done]. case_if; [done|by intros [= <- <-]].
  - right. exists status. split; [done|]. by eapply select_provider_status.
Qed.

(** * Requirements *)

(** The requirements of a component, in declaration order. *)
Definition requirement_rows (c : salts_configurator_context) (i : nat)
    : list cmeta_component_capability :=
  match component_at c i with
  | Some comp => List.filter (is_role CMETA_COMPONENT_REQUIRES) (capability_rows comp)
  | None => []
  end.

(** The requirements of the components before [i]. *)
Definition requirements_before (c : salts_configurator_context) : nat -> nat :=
  fix before (i : nat) : nat :=
    match i with
    | O => 0%nat
    | S i' => (before i' + length (requirement_rows c i'))%nat
    end.

(** What the caller's arrays hold is as long as it said. *)
Definition storage_fits (c : salts_configurator_context) (st : storage) : Prop :=
  (cx_instance_capacity c <= length (so_instances st))%nat /\
  (cx_dependency_capacity c <= length (so_dependencies st))%nat /\
  (cx_activation_capacity c <= length (so_order st))%nat.

Definition selects (c : salts_configurator_context) (i : nat) (row : cmeta_component_capability)
    (p : nat) : Prop :=
  salts_configurator_select_provider c i (cc_interface_desc row) = (SALTS_CONFIGURATOR_OK, Some p).

(** [i] needs [p] to be started first. *)
Definition depends_on (c : salts_configurator_context) (i p : nat) : Prop :=
  exists row, row ∈ requirement_rows c i /\ selects c i row p.

(** A start order: every deployment once, providers before consumers. *)
Definition start_order (c : salts_configurator_context) (l : list nat) : Prop :=
  NoDup l /\ (forall x, x ∈ l <-> (x < cx_deployment_count c)%nat) /\
  forall k x p, l !! k = Some x -> depends_on c x p -> p ∈ take k l.

Lemma required_total_spec c i remaining total :
  match required_total c i remaining (Z.of_nat total) with
  | inr t => t = Z.of_nat (total + (requirements_before c (i + remaining) - requirements_before c i))
  | inl _ => SIZE_MAX < Z.of_nat (total + (requirements_before c (i + remaining) - requirements_before c i))
  end.
Proof.
  assert (forall k j, (requirements_before c j <= requirements_before c (j + k))%nat) as Hmono.
  { induction k as [|k IH]; intros j; [by rewrite Nat.add_0_r|].
    rewrite Nat.add_succ_r. simpl. specialize (IH j). lia. }
  revert i total. induction remaining as [|remaining IH]; intros i total; simpl.
  - f_equal. rewrite Nat.add_0_r. lia.
  - replace (match component_at c i with
             | Some d => Z.of_nat (salts_configurator_requirement_count d) | None => 0 end)
      with (Z.of_nat (length (requirement_rows c i)))
      by (unfold requirement_rows; by destruct (component_at c i)).
    pose proof (Hmono remaining (S i)) as Hm. simpl in Hm. rewrite Nat.add_succ_r. case_if.
    + destruct_bools. simpl in *. lia.
    + rewrite <- Nat2Z.inj_add. specialize (IH (S i) (total + length (requirement_rows c i))%nat).
      simpl in IH. simpl. destruct (required_total _ _ _ _); lia.
Qed.

(** * The dependency table *)

(** The dependencies of consumer [i] stand in the slice of its requirements. *)
Definition slice_written (c : salts_configurator_context) (i : nat)
    (requirements : list cmeta_component_capability) (start : nat)
    (dependencies : list salts_configurator_dependency) : Prop :=
  forall k row, requirements !! k = Some row -> exists p, selects c i row p /\
    dependencies !! (start + k)%nat = Some (dependency_record c i p (cc_interface_desc row)).

Lemma resolve_capabilities_spec c i caps st n inst :
  let requirements := List.filter (is_role CMETA_COMPONENT_REQUIRES) caps in
  so_instances st !! i = Some inst ->
  (n + length requirements <= length (so_dependencies st))%nat ->
  (exists dependencies,
     resolve_capabilities c i caps st n =
       Some (Resolving (mk_storage
         (<[i := mk_instance (in_object inst) (in_dependency_offset inst)
                   (in_dependency_count inst + length requirements) (in_active inst)]> (so_instances st))
         dependencies (so_order st)) (n + length requirements)) /\
     slice_written c i requirements n dependencies /\
     length dependencies = length (so_dependencies st) /\
     forall k, (k < n)%nat -> dependencies !! k = so_dependencies st !! k) \/
  (exists row status st' k, row ∈ requirements /\
     salts_configurator_select_provider c i (cc_interface_desc row) = (status, None) /\
     resolve_capabilities c i caps st n = Some (ResolveError st' status i k)).
Proof.
  cbn zeta. revert st n inst. induction caps as [|row caps IH]; intros st n inst Hi Hlen; simpl.
  - left. exists (so_dependencies st). rewrite !Nat.add_0_r. destruct inst, st; simpl in *.
    rewrite list_insert_id by done. split_and!; [done|by intros ?? ?|done|done].
  - simpl in Hlen. destruct (is_role CMETA_COMPONENT_REQUIRES row) eqn:Hrole; simpl.
    2: { exact (IH st n inst Hi Hlen). }
    destruct (select_provider_cases c i (cc_interface_desc row)) as [(p & Hp)|(status & Hs & Hbad)].
    2: { right. exists row, status, st, n. split_and!; [by left|done|]. rewrite Hs. by destruct Hbad as [->|[->|[->| ->]]]. }
    rewrite Hp. simpl in Hlen. unfold write_dependency.
    rewrite (proj2 (Nat.ltb_lt _ _)) by lia. simpl. rewrite Hi. simpl. unfold write_instance.
    rewrite (proj2 (Nat.ltb_lt _ _)) by (simpl; by eapply lookup_lt_Some). simpl.
    match goal with |- context [resolve_capabilities c i caps ?st' (S n)] =>
      destruct (IH st' (S n) (mk_instance (in_object inst) (in_dependency_offset inst)
                                (S (in_dependency_count inst)) (in_active inst)))
        as [(deps & Hr & Hw & Hl & Hb)|(row' & status & st'' & k & Hin & Hs & Hr)] end.
    + simpl. apply list_lookup_insert_eq. by eapply lookup_lt_Some.
    + simpl. rewrite length_insert. lia.
    + left. exists deps. rewrite Hr. simpl. rewrite list_insert_insert_eq.
      split_and!; [do 3 f_equal; [do 3 f_equal|]; lia| |by rewrite Hl; simpl; rewrite length_insert|].
      * intros [|k] row' Hk; simpl in Hk; [injection Hk as <-|].
        -- exists p. split; [done|]. rewrite Nat.add_0_r, Hb by lia. simpl.
           apply list_lookup_insert_eq. lia.
        -- destruct (Hw k row' Hk) as (q & Hq & Hd). exists q. split; [done|].
           rewrite <- Hd. f_equal. lia.
      * intros k Hk. rewrite Hb by lia. simpl. apply list_lookup_insert_ne. lia.
    + right. exists row', status, st'', k. split_and!; [by right|done|done].
Qed.

(** The instances below [i] are resolved, the ones from [i] untouched. *)
Record resolved_upto (c : salts_configurator_context) (st : storage) (i : nat) : Prop := {
  ru_resolved : forall j, (j < i)%nat -> exists inst, so_instances st !! j = Some inst /\
    instance_clear inst = true /\ in_dependency_offset inst = requirements_before c j /\
    in_dependency_count inst = length (requirement_rows c j) /\
    slice_written c j (requirement_rows c j) (requirements_before c j) (so_dependencies st);
  ru_rest : forall j inst, (i <= j < cx_instance_capacity c)%nat ->
    so_instances st !! j = Some inst -> instance_unused inst = true;
}.

Lemma requirements_before_le c i j :
  (i <= j)%nat -> (requirements_before c i <= requirements_before c j)%nat.
Proof. induction 1; simpl; lia. Qed.

Lemma resolve_consumers_spec c i remaining st :
  deployments_ok c -> (i + remaining = cx_deployment_count c)%nat ->
  (cx_deployment_count c <= cx_instance_capacity c <= length (so_instances st))%nat ->
  (requirements_before c (cx_deployment_count c) <= length (so_dependencies st))%nat ->
  resolved_upto c st i ->
  (exists st', resolve_consumers c i remaining st (requirements_before c i) =
       Some (Resolving st' (requirements_before c (cx_deployment_count c))) /\
     resolved_upto c st' (cx_deployment_count c) /\ so_order st' = so_order st /\
     length (so_instances st') = length (so_instances st) /\
     length (so_dependencies st') = length (so_dependencies st)) \/
  (exists j row status st' k, (j < cx_deployment_count c)%nat /\ row ∈ requirement_rows c j /\
     salts_configurator_select_provider c j (cc_interface_desc row) = (status, None) /\
     resolve_consumers c i remaining st (requirements_before c i) = Some (ResolveError st' status j k)).
Proof.
  intros Hok. revert i st. induction remaining as [|remaining IH]; intros i st Hi Hcap Hdeps Hru; simpl.
  - left. exists st. assert (i = cx_deployment_count c) as -> by lia. done.
  - destruct (lookup_lt_is_Some_2 (so_instances st) i) as [inst Hinst]; [lia|].
    rewrite Hinst. simpl.
    destruct (provider_at_ok c i Hok) as (d & b & comp & _ & _ & _ & _ & Hcomp & _); [lia|].
    rewrite Hcomp. simpl. unfold write_instance. rewrite (proj2 (Nat.ltb_lt _ _)) by lia. simpl.
    pose proof (requirements_before_le c (S i) (cx_deployment_count c)) as Hle. simpl in Hle.
    set (fresh := mk_instance (in_object inst) (requirements_before c i) 0 (in_active inst)).
    set (st1 := mk_storage (<[i:=fresh]> (so_instances st)) (so_dependencies st) (so_order st)).
    assert (requirement_rows c i =
            List.filter (is_role CMETA_COMPONENT_REQUIRES) (capability_rows comp)) as Hrows
      by (unfold requirement_rows; by rewrite Hcomp).
    destruct (resolve_capabilities_spec c i (capability_rows comp) st1 (requirements_before c i) fresh)
      as [(deps & Hr & Hw & Hl & Hb)|(row & status & st' & k & Hin & Hs & Hr)].
    + simpl. apply list_lookup_insert_eq. lia.
    + simpl. rewrite <- Hrows. lia.
    + rewrite Hr. simpl. rewrite <- Hrows in *. rewrite list_insert_insert_eq.
      change (requirements_before c i + length (requirement_rows c i))%nat
        with (requirements_before c (S i)).
      match goal with |- context [resolve_consumers c (S i) remaining ?st'' _] =>
        destruct (IH (S i) st'') as [(st3 & Hr3 & Hru3 & Ho3 & Hi3 & Hd3)|Herr] end;
        simpl in *; rewrite ?length_insert in *; try lia.
      * split.
        -- intros j Hj. simpl. destruct (decide (j = i)) as [->|].
           ++ eexists. rewrite list_lookup_insert_eq by lia. split_and!; [done| |done|done|done].
              pose proof (ru_rest c st i Hru i inst ltac:(lia) Hinst) as Hu.
              unfold instance_unused in Hu. by destruct_bools.
           ++ destruct (ru_resolved c st i Hru j) as (x & Hx & Hclear & Hoff & Hcnt & Hslice); [lia|].
              exists x. rewrite list_lookup_insert_ne by done. split_and!; [done..|].
              intros k row Hk. destruct (Hslice k row Hk) as (p & Hp & Hd). exists p.
              split; [done|]. rewrite Hb; [done|]. apply lookup_lt_Some in Hk.
              pose proof (requirements_before_le c (S j) i ltac:(lia)) as Hji. simpl in Hji. lia.
        -- intros j x Hj Hx. simpl in Hx. rewrite list_lookup_insert_ne in Hx by lia.
           apply (ru_rest c st i Hru j x); [lia|done].
      * left. exists st3. rewrite Hr3, Hi3, Hd3. split_and!; done.
      * right. exact Herr.
    + right. exists i, row, status, st', k. rewrite Hr. simpl. rewrite Hrows. split_and!; [lia|done..].
Qed.

(** * The activation order *)

Lemma order_contains_spec st prefix x :
  salts_configurator_order_contains st prefix x = true <-> x ∈ take prefix (so_order st).
Proof.
  unfold salts_configurator_order_contains. rewrite existsb_exists, list_elem_of_In. split.
  - intros (y & Hy & ->%Nat.eqb_eq). done.
  - intros Hx. exists x. split; [done|]. apply Nat.eqb_refl.
Qed.

Lemma requirement_selected c st i row :
  resolved_upto c st (cx_deployment_count c) -> (i < cx_deployment_count c)%nat ->
  row ∈ requirement_rows c i -> exists p, selects c i row p.
Proof.
  intros Hru Hi [k Hk]%list_elem_of_lookup.
  destruct (ru_resolved c st _ Hru i Hi) as (x & _ & _ & _ & _ & Hslice).
  destruct (Hslice k row Hk) as (p & Hp & _). by exists p.
Qed.

Lemma dependencies_ready_spec c st i prefix :
  resolved_upto c st (cx_deployment_count c) -> (i < cx_deployment_count c)%nat ->
  salts_configurator_dependencies_ready st i prefix = true <->
  forall p, depends_on c i p -> p ∈ take prefix (so_order st).
Proof.
  intros Hru Hi. destruct (ru_resolved c st _ Hru i Hi) as (x & Hx & _ & Hoff & Hcnt & Hslice).
  unfold salts_configurator_dependencies_ready. rewrite Hx, forall_below_true, Hoff, Hcnt. split.
  - intros Hall p (row & [k Hk]%list_elem_of_lookup & Hp).
    destruct (Hslice k row Hk) as (q & Hq & Hd). assert (q = p) as -> by (unfold selects in *; congruence).
    specialize (Hall k (lookup_lt_Some _ _ _ Hk)). rewrite Hd in Hall. simpl in Hall.
    by apply order_contains_spec.
  - intros Hall k Hk. destruct (lookup_lt_is_Some_2 _ _ Hk) as [row Hrow].
    destruct (Hslice k row Hrow) as (p & Hp & Hd). rewrite Hd. simpl. apply order_contains_spec, Hall.
    exists row. split; [by eapply list_elem_of_lookup_2|done].
Qed.

(** The first [i] places are an initial segment of a start order. *)
Definition ordered_upto (c : salts_configurator_context) (st : storage) (i : nat) : Prop :=
  NoDup (take i (so_order st)) /\
  (forall x, x ∈ take i (so_order st) -> (x < cx_deployment_count c)%nat) /\
  forall k x, (k < i)%nat -> so_order st !! k = Some x ->
    salts_configurator_dependencies_ready st x k = true.

(** Below a write at [i] nothing of the order changes. *)
Lemma ready_same st st' x k :
  so_instances st' = so_instances st -> so_dependencies st' = so_dependencies st ->
  take k (so_order st') = take k (so_order st) ->
  salts_configurator_dependencies_ready st' x k = salts_configurator_dependencies_ready st x k.
Proof.
  intros Hi Hd Ho. unfold salts_configurator_dependencies_ready, salts_configurator_order_contains.
  by rewrite Hi, Hd, Ho.
Qed.

Lemma ordered_step c st i x :
  (i < length (so_order st))%nat -> ordered_upto c st i -> next_component c st i = Some x ->
  ordered_upto c (mk_storage (so_instances st) (so_dependencies st) (<[i:=x]> (so_order st))) (S i).
Proof.
  intros Hi (Hnd & Hlt & Hready) (Hx & Hnext & _)%find_below_Some. destruct_bools.
  set (st' := mk_storage _ _ _).
  assert (forall k, (k <= i)%nat -> take k (so_order st') = take k (so_order st)) as Htake
    by (intros; by apply take_insert_ge).
  assert (take (S i) (so_order st') = take i (so_order st) ++ [x]) as HS.
  { rewrite (take_S_r _ _ x), Htake; [done|lia|]. by apply list_lookup_insert_eq. }
  assert (x ∉ take i (so_order st)) as Hnot by (rewrite <- order_contains_spec; congruence).
  unfold ordered_upto. rewrite HS. split_and!.
  - apply NoDup_app. split_and!; [done| |apply NoDup_singleton].
    intros y Hy ->%list_elem_of_singleton. done.
  - intros y [Hy|Hy%list_elem_of_singleton]%elem_of_app; [by apply Hlt|by subst].
  - intros k y Hk Hy. rewrite (ready_same st st' y k) by (done || apply Htake; lia).
    destruct (decide (k = i)) as [->|].
    + simpl in Hy. rewrite list_lookup_insert_eq in Hy by done. by simplify_eq.
    + simpl in Hy. rewrite list_lookup_insert_ne in Hy by done. apply Hready; [lia|done].
Qed.

(** The first element of [l] outside of [k]. *)
Lemma first_missing (l k : list nat) :
  (exists x, x ∈ l /\ x ∉ k) ->
  exists n x, l !! n = Some x /\ (x ∉ k) /\ (forall y, y ∈ take n l -> y ∈ k).
Proof.
  induction l as [|y l IH]; intros (x & Hx & Hnot); [by apply not_elem_of_nil in Hx|].
  destruct (decide (y ∈ k)) as [Hy|Hy].
  - destruct IH as (n & z & Hn & Hz & Hbefore).
    { exists x. apply elem_of_cons in Hx as [->|Hx]; done. }
    exists (S n), z. split_and!; [done|done|]. intros w [->|Hw]%elem_of_cons; [done|by apply Hbefore].
  - exists 0%nat, y. split_and!; [done|done|]. intros w Hw. by apply not_elem_of_nil in Hw.
Qed.

(** With a start order at hand the loop never gets stuck. *)
Lemma next_component_exists c st i l :
  resolved_upto c st (cx_deployment_count c) -> start_order c l ->
  ordered_upto c st i -> (i < cx_deployment_count c)%nat -> (i <= length (so_order st))%nat ->
  next_component c st i <> None.
Proof.
  intros Hru (Hnd & Hin & Hbefore) (Hnd' & Hlt & _) Hi Hlen Hnone.
  unfold next_component in Hnone. rewrite find_below_None in Hnone.
  destruct (first_missing l (take i (so_order st))) as (n & x & Hn & Hnot & Hfirst).
  { destruct (decide (Forall (fun x => x ∈ take i (so_order st)) l)) as [Hall|Hsome].
    - exfalso. rewrite Forall_forall in Hall.
      assert (length (seq 0 (cx_deployment_count c)) <= length (take i (so_order st)))%nat as Hle.
      { apply NoDup_incl_length; [apply NoDup_ListNoDup, NoDup_seq|]. intros y Hy%list_elem_of_In.
        apply list_elem_of_In, Hall, Hin. apply elem_of_seq in Hy. lia. }
      rewrite length_seq, length_take in Hle. lia.
    - apply not_Forall_Exists in Hsome; [|tc_solve]. by apply Exists_exists in Hsome. }
  assert (x < cx_deployment_count c)%nat as Hx by (apply Hin; by eapply list_elem_of_lookup_2).
  specialize (Hnone x Hx).
  assert (salts_configurator_dependencies_ready st x i = true) as Hready.
  { apply (dependencies_ready_spec c st x i Hru Hx). intros p Hp. apply Hfirst. by eapply Hbefore. }
  rewrite Hready, andb_true_r in Hnone. destruct_bools. by apply order_contains_spec in Hnone.
Qed.

Lemma resolve_order_spec c i remaining st :
  (i + remaining = cx_deployment_count c)%nat -> (cx_deployment_count c <= length (so_order st))%nat ->
  ordered_upto c st i ->
  exists st' filled, resolve_order c i remaining st = Some (st', filled) /\
    so_instances st' = so_instances st /\ so_dependencies st' = so_dependencies st /\
    length (so_order st') = length (so_order st) /\
    if (filled : bool) then ordered_upto c st' (cx_deployment_count c)
    else resolved_upto c st (cx_deployment_count c) -> ~ exists l, start_order c l.
Proof.
  revert i st. induction remaining as [|remaining IH]; intros i st Hi Hlen Hord; simpl.
  - exists st, true. assert (i = cx_deployment_count c) as <- by lia. done.
  - destruct (next_component c st i) as [x|] eqn:Hnext.
    + unfold write_order. rewrite (proj2 (Nat.ltb_lt _ _)) by lia. simpl.
      destruct (IH (S i) (mk_storage (so_instances st) (so_dependencies st) (<[i:=x]> (so_order st))))
        as (st' & filled & Hr & Hins & Hdep & Hl & Hres).
      * lia.
      * simpl. by rewrite length_insert.
      * apply ordered_step; [lia|done|done].
      * exists st', filled. simpl in *. rewrite length_insert in Hl. split_and!; [done..|].
        destruct filled; [done|]. intros Hru. apply Hres. destruct Hru as [H1 H2]. by split.
    + exists st, false. split_and!; [done..|]. intros Hru (l & Hl).
      apply (next_component_exists c st i l Hru Hl Hord); [lia|lia|done].
Qed.

(** * Validity of the resolved plan *)

(** What the plan asks of the state of an instance. *)
Definition instance_state_ok (expect_active : bool) (i : salts_configurator_instance) : bool :=
  if expect_active then in_active i && cmeta_object_ref_valid (Some (in_object i))
  else instance_clear i.

(** The dependency slices of the first [n] instances, laid out from [start]. *)
Definition slice_start (instances : list salts_configurator_instance) (start j : nat) : nat :=
  start + sum_list (in_dependency_count <$> take j instances).

(** What the plan asks of one deployment and its instance. *)
Definition slice_ok (dc : nat) (active : bool) (d : salts_configurator_deployment)
    (i : salts_configurator_instance) (start : nat) : Prop :=
  deployment_ok d = true /\ in_dependency_offset i = start /\
  (start + in_dependency_count i <= dc)%nat /\ instance_state_ok active i = true.

Lemma plan_slices_cons dc active d ds i ins n start r :
  plan_slices dc active (d :: ds) (i :: ins) (S n) start = Some r <->
  slice_ok dc active d i start /\
  plan_slices dc active ds ins n (start + in_dependency_count i) = Some r.
Proof.
  unfold slice_ok. cbn [plan_slices]. split.
  - case_if; [done|]. destruct_bools. case_if; [done|]. intros Hr. split_and!; [done|done|lia| |done].
    unfold instance_state_ok, instance_clear. destruct active; destruct_bools; apply andb_true_iff; split;
      by try apply negb_true_iff.
  - intros ((Hd & Ho & Hle & Hs) & Hr). rewrite Hd, Ho, Nat.eqb_refl. cbn [negb orb].
    rewrite !(proj2 (Nat.ltb_ge _ _)) by lia. cbn [orb].
    unfold instance_state_ok, instance_clear in Hs. destruct active.
    + apply andb_true_iff in Hs as [-> ->]. exact Hr.
    + apply andb_true_iff in Hs as [->%negb_true_iff ->]. exact Hr.
Qed.

Lemma plan_slices_spec dc active ds ins n start r :
  plan_slices dc active ds ins n start = Some r <->
  slice_start ins start n = r /\
  forall j, (j < n)%nat -> exists d i, ds !! j = Some d /\ ins !! j = Some i /\
    slice_ok dc active d i (slice_start ins start j).
Proof.
  unfold slice_start. revert ds ins start. induction n as [|n IH]; intros ds ins start.
  { destruct ds; simpl; rewrite Nat.add_0_r; (split; [intros [= <-]; split; [done|intros; lia]|by intros [-> _]]). }
  destruct ds as [|d ds]; [|destruct ins as [|i ins]].
  1, 2: split; [done|]; intros [_ Hall]; by destruct (Hall 0%nat ltac:(lia)) as (? & ? & ? & ? & _).
  rewrite plan_slices_cons, IH. csimpl. split.
  - intros (Hi & Hr & Hall). split; [lia|]. intros [|j] Hj.
    + exists d, i. simpl. by rewrite Nat.add_0_r.
    + destruct (Hall j) as (d' & i' & ? & ? & Hok); [lia|]. exists d', i'. simpl.
      by rewrite Nat.add_assoc.
  - intros (Hr & Hall). split_and!; [|lia|].
    + destruct (Hall 0%nat) as (d' & i' & [= <-] & [= <-] & Hok); [lia|]. simpl in Hok.
      by rewrite Nat.add_0_r in Hok.
    + intros j Hj. destruct (Hall (S j)) as (d' & i' & ? & ? & Hok); [lia|]. exists d', i'. simpl in Hok.
      by rewrite Nat.add_assoc in Hok.
Qed.

(** The conjuncts of [salts_configurator_activation_plan_valid]. *)
Record plan_ok (c : salts_configurator_context) (st : storage) (active : bool) : Prop := {
  po_instances : (cx_deployment_count c <= cx_instance_capacity c)%nat;
  po_order : (cx_deployment_count c <= cx_activation_capacity c)%nat;
  po_count : cx_activation_count c = cx_deployment_count c;
  po_dependencies : (cx_dependency_count c <= cx_dependency_capacity c)%nat;
  po_arrays : arrays_present c = true;
  po_dependency_array :
    negb (cx_dependency_capacity c =? 0)%nat && is_null (cx_dependencies c) = false;
  po_slices : plan_slices (cx_dependency_count c) active (cx_rows c) (so_instances st)
    (cx_deployment_count c) 0 = Some (cx_dependency_count c);
  po_tail : tail_unused c st = true;
  po_distinct : order_distinct c st = true;
  po_rows : plan_dependencies_valid c st = true;
  po_ready : order_ready c st = true;
}.

Lemma plan_valid_iff c st active :
  salts_configurator_activation_plan_valid c st active = true <-> plan_ok c st active.
Proof.
  unfold salts_configurator_activation_plan_valid. split.
  - case_if; [done|]. destruct_bools. destruct (plan_slices _ _ _ _ _ _) as [e|] eqn:He; [|done].
    intros Hrest. destruct_bools. subst e. by split.
  - intros []. rewrite !(proj2 (Nat.ltb_ge _ _)) by done.
    rewrite po_count0, po_arrays0, po_dependency_array0, po_slices0, !Nat.eqb_refl. simpl.
    by rewrite po_tail0, po_distinct0, po_rows0, po_ready0.
Qed.

(** The conjuncts of [salts_configurator_ready_context_valid]. *)
Record ready_ok (c : salts_configurator_context) (st : storage) : Prop := {
  ro_instances : (cx_deployment_count c <= cx_instance_capacity c)%nat;
  ro_order : (cx_deployment_count c <= cx_activation_capacity c)%nat;
  ro_arrays : arrays_present c = true;
  ro_dependency_array :
    negb (cx_dependency_capacity c =? 0)%nat && is_null (cx_dependencies c) = false;
  ro_deployments : deployments_ok c;
  ro_unused : forall j, (j < cx_instance_capacity c)%nat ->
    exists i, so_instances st !! j = Some i /\ instance_unused i = true;
  ro_selections : ready_selections_valid c = true;
}.

Lemma ready_valid_inv c st :
  salts_configurator_ready_context_valid c st = true -> ready_ok c st.
Proof.
  unfold salts_configurator_ready_context_valid. case_if; [done|]. intros Hv. destruct_bools.
  unfold ready_deployments_valid, tail_unused in *. destruct_bools.
  repeat match goal with Hf : forallb_upto _ _ _ = true |- _ => apply forallb_upto_true in Hf as [? ?] end.
  match goal with Hp : forallb_prev _ _ _ = true |- _ => rewrite forallb_prev_spec in Hp end.
  split; try done.
  - intros i Hi. destruct (lookup_lt_is_Some_2 (cx_rows c) i) as [d Hd]; [lia|].
    exists d. split; [done|].
    match goal with Hp : forall k x, take _ _ !! k = Some x -> _ |- _ => specialize (Hp i d) end.
    rewrite lookup_take_lt in * by done. naive_solver (by destruct_bools).
  - intros j Hj. rewrite length_drop in *.
    destruct (lookup_lt_is_Some_2 (so_instances st) j) as [x Hx]; [lia|]. exists x. split; [done|].
    destruct (decide (j < cx_deployment_count c)%nat); [eauto|].
    match goal with Hu : forall i x, _ -> drop _ _ !! i = Some x -> _ |- _ =>
      apply (Hu (j - cx_deployment_count c)%nat) end; [lia|].
    rewrite lookup_drop. rewrite <- Hx. f_equal. lia.
Qed.

Lemma slice_start_S ins start j i :
  ins !! j = Some i ->
  slice_start ins start (S j) = (slice_start ins start j + in_dependency_count i)%nat.
Proof.
  unfold slice_start. revert j. induction ins as [|x ins IH]; intros [|j]; csimpl; [done..| |].
  - intros [= ->]. lia.
  - intros Hj. specialize (IH j Hj). csimpl in IH. lia.
Qed.

Lemma resolved_slice_start c st i :
  resolved_upto c st (cx_deployment_count c) -> (i <= cx_deployment_count c)%nat ->
  slice_start (so_instances st) 0 i = requirements_before c i.
Proof.
  intros Hru. induction i as [|i IH]; intros Hi; [done|].
  destruct (ru_resolved c st _ Hru i) as (x & Hx & _ & _ & Hcnt & _); [lia|].
  rewrite (slice_start_S _ _ _ x) by done. simpl. rewrite IH by lia. lia.
Qed.

Lemma requirement_row_spec c i row :
  deployments_ok c -> (i < cx_deployment_count c)%nat -> row ∈ requirement_rows c i ->
  cmeta_interface_desc_valid (cc_interface_desc row) = true /\
  salts_configurator_requires (component_at c i) (cc_interface_desc row) = true.
Proof.
  intros Hok Hi. destruct (provider_at_ok c i Hok Hi) as (d & b & comp & _ & _ & _ & _ & Hc & Hv & _).
  unfold requirement_rows. rewrite Hc. intros Hin. apply list_elem_of_In, filter_In in Hin as [Hin Hrole].
  apply list_elem_of_In in Hin. pose proof (capability_row_interface comp row Hv Hin) as Hif.
  split; [done|]. apply has_capability_spec; [done|]. split; [done|]. exists row. split_and!; [done| |].
  - by apply bool_decide_eq_true in Hrole.
  - destruct (cc_interface_desc row) as [d'|]; [|done]. by apply interface_equal_refl.
Qed.

(** A record of the resolver is what the plan asks for. *)
Lemma dependency_record_valid c i p row :
  deployments_ok c -> (i < cx_deployment_count c)%nat -> row ∈ requirement_rows c i ->
  selects c i row p ->
  plan_dependency_valid c i (dependency_record c i p (cc_interface_desc row)) = true.
Proof.
  intros Hok Hi Hin Hp. destruct (requirement_row_spec c i row Hok Hi Hin) as [Hif Hreq].
  apply select_provider_ok in Hp as [Hp Hprov].
  destruct (provider_at_ok c i Hok Hi) as (_ & b & comp & _ & _ & Hb & Hcomp & Hc & _).
  destruct (provider_at_ok c p Hok Hp) as (_ & b' & comp' & _ & _ & Hb' & Hcomp' & Hc' & _).
  unfold plan_dependency_valid, dependency_record. simpl. rewrite Nat.eqb_refl, Hif. simpl.
  rewrite (proj2 (Nat.leb_gt _ _)) by done. simpl. rewrite Hb, Hb', Hcomp, Hcomp', <- Hc, <- Hc'.
  rewrite Hreq, Hprov, !bool_decide_true; done.
Qed.

(** The resolver's loops leave a plan that passes the validity check. *)
Lemma resolved_plan_ok c st :
  deployments_ok c -> resolved_upto c st (cx_deployment_count c) ->
  ordered_upto c st (cx_deployment_count c) ->
  storage_fits c st ->
  (cx_deployment_count c <= cx_instance_capacity c)%nat ->
  (cx_deployment_count c <= cx_activation_capacity c)%nat ->
  arrays_present c = true ->
  negb (cx_dependency_capacity c =? 0)%nat && is_null (cx_dependencies c) = false ->
  cx_dependency_count c = requirements_before c (cx_deployment_count c) ->
  (cx_dependency_count c <= cx_dependency_capacity c)%nat ->
  cx_activation_count c = cx_deployment_count c ->
  plan_ok c st false.
Proof.
  intros Hok Hru (Hnd & Hlt & Hready) (Hfi & Hfd & Hfo) Hi Ho Harr Hdarr Hdc Hdcap Hac. split; try done.
  - apply plan_slices_spec. rewrite (resolved_slice_start c) by done. split; [done|]. intros j Hj.
    destruct (Hok j Hj) as (d & Hd & Hdok).
    destruct (ru_resolved c st _ Hru j Hj) as (x & Hx & Hclear & Hoff & Hcnt & _).
    exists d, x. split_and!; [done..|]. rewrite (resolved_slice_start c) by (done || lia).
    split_and!; [done|done| |done]. rewrite Hcnt, Hdc.
    pose proof (requirements_before_le c (S j) (cx_deployment_count c) Hj) as Hle. simpl in Hle. lia.
  - unfold tail_unused. apply forallb_upto_true. rewrite length_drop. split; [lia|].
    intros j x Hj. rewrite lookup_drop. intros Hx. eapply ru_rest; [done| |done]. lia.
  - unfold order_distinct. rewrite Hac. rewrite (proj2 (Nat.leb_le _ _)) by lia. simpl.
    apply forallb_prev_spec. intros k x Hk. simpl. apply andb_true_iff. split.
    + apply Nat.ltb_lt, Hlt. by eapply list_elem_of_lookup_2.
    + apply negb_true_iff, not_true_is_false. rewrite existsb_exists.
      intros (y & Hy%list_elem_of_In & ->%Nat.eqb_eq).
      pose proof (proj1 (NoDup_prefix (fun n => n) (take (cx_deployment_count c) (so_order st)))) as Hpre.
      rewrite list_fmap_id in Hpre. exact (Hpre Hnd k y Hk y Hy eq_refl).
  - unfold plan_dependencies_valid. apply forall_below_true. intros i Hic.
    destruct (ru_resolved c st _ Hru i Hic) as (x & Hx & _ & Hoff & Hcnt & Hslice).
    rewrite Hx. apply forall_below_true. intros k Hk. rewrite Hcnt in Hk.
    destruct (lookup_lt_is_Some_2 _ _ Hk) as [row Hrow].
    destruct (Hslice k row Hrow) as (p & Hp & Hd). rewrite Hoff, Hd.
    apply dependency_record_valid; try done. by eapply list_elem_of_lookup_2.
  - unfold order_ready. apply forall_below_true. intros k Hk. rewrite Hac in Hk.
    destruct (lookup_lt_is_Some_2 (so_order st) k) as [x Hx]; [lia|]. rewrite Hx. by apply Hready.
Qed.

(** * Resolution *)

(** What [resolve] reports, in terms of the declarations alone. *)
Definition resolve_verdict (c : salts_configurator_context) (status : salts_configurator_status)
    : Prop :=
  let n := cx_deployment_count c in
  let all_selected := forall i row, (i < n)%nat -> row ∈ requirement_rows c i ->
                        exists p, selects c i row p in
  match status with
  | SALTS_CONFIGURATOR_OK =>
      (requirements_before c n <= cx_dependency_capacity c)%nat /\ all_selected /\
      exists l, start_order c l
  | SALTS_CONFIGURATOR_CAPACITY_EXCEEDED =>
      (cx_dependency_capacity c < requirements_before c n)%nat
  | SALTS_CONFIGURATOR_DEPENDENCY_CYCLE =>
      (requirements_before c n <= cx_dependency_capacity c)%nat /\ all_selected /\
      ~ exists l, start_order c l
  | _ =>
      (requirements_before c n <= cx_dependency_capacity c)%nat /\
      exists i row, (i < n)%nat /\ row ∈ requirement_rows c i /\
        salts_configurator_select_provider c i (cc_interface_desc row) = (status, None)
  end.

(** The outcome of [resolve] on a ready context. *)
Definition resolve_result (c : salts_configurator_context)
    (r : salts_configurator_status * option salts_configurator_context * storage) : Prop :=
  exists status c' st', r = (status, Some c', st') /\ resolve_verdict c status /\
    if bool_decide (status = SALTS_CONFIGURATOR_OK)
    then cx_state c' = SALTS_CONFIGURATOR_CONTEXT_RESOLVED /\
         cx_dependency_count c' = requirements_before c (cx_deployment_count c) /\
         salts_configurator_activation_plan_valid c' st' false = true /\
         start_order c (take (cx_deployment_count c) (so_order st'))
    else cx_state c' = SALTS_CONFIGURATOR_CONTEXT_FAILED /\
         salts_configurator_storage_detached c' = true.

Lemma resolve_failure c0 c st status component dependency :
  resolve_verdict c0 status -> status <> SALTS_CONFIGURATOR_OK ->
  exists r, (let '(status, c) := salts_configurator_fail c st status SALTS_CONFIGURATOR_PHASE_RESOLVE
               component dependency CMETA_OK in Some (status, Some c, st)) = Some r /\
    resolve_result c0 r.
Proof.
  intros Hv Hbad. eexists. split; [done|]. eexists _, _, _. split_and!; [done|done|].
  by rewrite bool_decide_false.
Qed.

(** A complete initial segment is a start order. *)
Lemma ordered_start_order c st :
  resolved_upto c st (cx_deployment_count c) -> ordered_upto c st (cx_deployment_count c) ->
  (cx_deployment_count c <= length (so_order st))%nat ->
  start_order c (take (cx_deployment_count c) (so_order st)).
Proof.
  intros Hru (Hnd & Hlt & Hready) Hlen. set (n := cx_deployment_count c) in *.
  assert (forall x, x ∈ take n (so_order st) <-> (x < n)%nat) as Hin.
  { intros x. split; [apply Hlt|]. intros Hx.
    assert (incl (seq 0 n) (take n (so_order st))) as Hincl.
    { apply NoDup_length_incl.
      - by apply NoDup_ListNoDup.
      - rewrite length_take, length_seq. lia.
      - intros y Hy%list_elem_of_In. apply in_seq. specialize (Hlt y Hy). lia. }
    apply list_elem_of_In, Hincl, in_seq. lia. }
  split_and!; [done|done|]. intros k x p Hk Hp.
  apply lookup_take_Some in Hk as [Hk Hkn]. rewrite take_take, Nat.min_l by lia.
  apply (dependencies_ready_spec c st x k Hru); [|by apply Hready|done].
  apply Hlt. apply list_elem_of_lookup. exists k. by rewrite lookup_take_lt.
Qed.

(** The order loop and what follows it, once the requirements are resolved. *)
Lemma resolve_order_result c st :
  deployments_ok c -> resolved_upto c st (cx_deployment_count c) -> storage_fits c st ->
  (cx_deployment_count c <= cx_instance_capacity c)%nat ->
  (cx_deployment_count c <= cx_activation_capacity c)%nat ->
  arrays_present c = true ->
  negb (cx_dependency_capacity c =? 0)%nat && is_null (cx_dependencies c) = false ->
  cx_dependency_count c = requirements_before c (cx_deployment_count c) ->
  (cx_dependency_count c <= cx_dependency_capacity c)%nat ->
  exists st' filled, resolve_order c 0 (cx_deployment_count c) st = Some (st', filled) /\
    if (filled : bool)
    then resolve_result c (SALTS_CONFIGURATOR_OK,
           Some (set_cx_state SALTS_CONFIGURATOR_CONTEXT_RESOLVED
             (set_cx_counts (cx_dependency_count c) (cx_deployment_count c) c)), st')
    else resolve_verdict c SALTS_CONFIGURATOR_DEPENDENCY_CYCLE.
Proof.
  intros Hok Hru Hfits Hi Ho Harr Hdarr Hdc Hdcap. pose proof Hfits as (Hfi & Hfd & Hfo).
  destruct (resolve_order_spec c 0 (cx_deployment_count c) st)
    as (st2 & filled & Hr2 & Hi2 & Hd2 & Ho2 & Hres);
    [done|lia|split_and!; [constructor|by intros x ?%elem_of_nil|intros; lia]|].
  assert (forall i row, (i < cx_deployment_count c)%nat -> row ∈ requirement_rows c i ->
            exists p, selects c i row p) as Hall
    by (intros i row Hic Hin; exact (requirement_selected c st i row Hru Hic Hin)).
  exists st2, filled. split; [done|]. rewrite Hdc in Hdcap.
  destruct filled; [|simpl; split_and!; [done|done|by apply Hres]].
  set (c2 := set_cx_state _ _).
  assert (resolved_upto c2 st2 (cx_deployment_count c2)) as Hru2.
  { destruct Hru as [Ha Hb]. constructor; rewrite Hi2; [rewrite Hd2; exact Ha|exact Hb]. }
  assert (plan_ok c2 st2 false) as Hplan.
  { apply resolved_plan_ok; try done; [|by rewrite <- Hdc in Hdcap].
    unfold storage_fits. rewrite Hi2, Hd2, Ho2. done. }
  assert (start_order c2 (take (cx_deployment_count c) (so_order st2))) as Hso.
  { apply (ordered_start_order c2 st2); [done|done|]. rewrite Ho2. simpl. lia. }
  eexists _, _, _. split_and!; [done| |].
  - simpl. split_and!; [done|done|]. by eexists.
  - rewrite bool_decide_true by done.
    split_and!; [done|done|exact (proj2 (plan_valid_iff c2 st2 false) Hplan)|exact Hso].
Qed.

Lemma resolve_rule c st :
  state_is SALTS_CONFIGURATOR_CONTEXT_READY c = true ->
  salts_configurator_ready_context_valid c st = true -> storage_fits c st ->
  Z.of_nat (cx_dependency_capacity c) <= SIZE_MAX ->
  exists r, salts_configurator_context_resolve (Some c) st = Some r /\ resolve_result c r.
Proof.
  intros Hready Hvalid Hfits Hsize. pose proof Hfits as (Hfi & Hfd & Hfo).
  destruct (ready_valid_inv c st Hvalid) as [Hi Ho Harr Hdarr Hok Hunused _].
  unfold salts_configurator_context_resolve. rewrite Hready, Hvalid.
  cbn [negb orb]. cbn zeta.
  set (c0 := set_cx_counts 0 0 (set_cx_failure salts_configurator_failure_none c)).
  pose proof (required_total_spec c0 0 (cx_deployment_count c0) 0) as Htotal. change (Z.of_nat 0) with 0 in Htotal.
  change (requirements_before c0) with (requirements_before c) in Htotal. simpl Nat.add in Htotal.
  change (cx_deployment_count c0) with (cx_deployment_count c) in *.
  rewrite Nat.sub_0_r in Htotal.
  destruct (required_total c0 0 (cx_deployment_count c) 0) as [index|total].
  { apply resolve_failure; [|done]. simpl. lia. }
  case_if.
  { apply resolve_failure; [|done]. simpl. apply orb_true_iff in Heqb as [Hlt%Z.ltb_lt|Hnull].
    - simpl in Hlt. lia.
    - apply andb_true_iff in Hnull as [Hpos Hnull]. simpl in Hnull. rewrite Hnull, andb_true_r in Hdarr.
      destruct_bools. lia. }
  apply orb_false_iff in Heqb as [Hcap%Z.ltb_ge _]. simpl in Hcap.
  destruct (resolve_consumers_spec c0 0 (cx_deployment_count c) st)
    as [(st1 & Hr & Hru & Hor & Hli & Hld)|(j & row & status & st1 & k & Hj & Hrow & Hs & Hr)];
    [done|done|simpl; lia|change (requirements_before c (cx_deployment_count c) <= length (so_dependencies st))%nat; lia| |..].
  { split; [intros; lia|]. intros j x Hj Hx. destruct (Hunused j) as (x' & Hx' & Hu); [simpl in Hj; lia|].
    congruence. }
  2: { simpl requirements_before in Hr. rewrite Hr. simpl. apply resolve_failure.
       - destruct (select_provider_status _ _ _ _ Hs) as [->|[->|[->| ->]]]; simpl;
           (split; [lia|]); by exists j, row.
       - by destruct (select_provider_status _ _ _ _ Hs) as [->|[->|[->| ->]]]. }
  simpl requirements_before in Hr at 1. rewrite Hr. cbn [mbind option_bind]. cbn zeta.
  set (c1 := set_cx_counts _ _ c0).
  destruct (resolve_order_result c1 st1) as (st2 & filled & Hr2 & Hres); try done.
  { destruct Hru as [Ha Hb]. constructor; [exact Ha|exact Hb]. }
  { unfold storage_fits. by rewrite Hli, Hld, Hor. }
  { change (requirements_before c (cx_deployment_count c) <= cx_dependency_capacity c)%nat. lia. }
  rewrite Hr2. cbn [mbind option_bind]. destruct filled; cbn [negb]; cbn zeta.
  - eexists. split; [done|exact Hres].
  - apply resolve_failure; [exact Hres|done].
Qed.

(** C5: [salts_configurator_context_resolve] decides whether the components of
    a ready context can be started, and never touches memory outside of the
    caller's arrays.  It succeeds exactly when the requirements fit, each
    selects a provider, and some order starts every provider before its
    consumers; then the plan it leaves passes the validity check and its
    activation order is such an order.  It answers DEPENDENCY_CYCLE exactly
    when the requirements are met but there is no such order, and a failed
    context is detached from the arrays. *)
Theorem resolve_decides_order c st :
  state_is SALTS_CONFIGURATOR_CONTEXT_READY c = true ->
  salts_configurator_ready_context_valid c st = true -> storage_fits c st ->
  Z.of_nat (cx_dependency_capacity c) <= SIZE_MAX ->
  exists r, salts_configurator_context_resolve (Some c) st = Some r /\ resolve_result c r.
Proof. apply resolve_rule. Qed.

(** What the deployments offer for a requirement that no selection decides. *)
Definition choice_verdict (c : salts_configurator_context) (requirement : option cmeta_interface_desc)
    (r : salts_configurator_status * option nat) : Prop :=
  let offers p := (p < cx_deployment_count c)%nat /\
                  salts_configurator_provides (component_at c p) requirement = true in
  match r with
  | (SALTS_CONFIGURATOR_OK, Some p) => offers p /\ forall q, offers q -> q = p
  | (SALTS_CONFIGURATOR_MISSING_PROVIDER, None) => forall q, ~ offers q
  | (SALTS_CONFIGURATOR_AMBIGUOUS_PROVIDER, None) => exists p q, p <> q /\ offers p /\ offers q
  | _ => False
  end.

Lemma providers_of_cases c requirement :
  choice_verdict c requirement
    match providers_of c requirement with
    | [] => (SALTS_CONFIGURATOR_MISSING_PROVIDER, None)
    | [p] => (SALTS_CONFIGURATOR_OK, Some p)
    | _ => (SALTS_CONFIGURATOR_AMBIGUOUS_PROVIDER, None)
    end.
Proof.
  pose proof (providers_of_spec c requirement) as Hspec.
  assert (NoDup (providers_of c requirement)) as Hnd
    by (apply NoDup_ListNoDup, List.NoDup_filter, NoDup_ListNoDup, NoDup_seq).
  destruct (providers_of c requirement) as [|p [|q l]]; simpl; setoid_rewrite <- Hspec.
  - intros q. apply not_elem_of_nil.
  - split; [by left|]. by intros q ?%list_elem_of_singleton.
  - exists p, q. split_and!; [|by left|by right; left].
    intros ->. apply NoDup_cons in Hnd as [Hnd _]. apply Hnd. by left.
Qed.

(** Without a selection a requirement gets the one deployment that provides
    it; no provider and several providers are reported as such, and nothing
    else is. *)
Lemma unselected_requirement_exact c i requirement :
  (i < cx_deployment_count c)%nat -> cmeta_interface_desc_valid requirement = true ->
  selections_for c (component_id (component_at c i)) requirement = [] ->
  choice_verdict c requirement (salts_configurator_select_provider c i requirement).
Proof.
  intros Hi Hv Hsel. unfold salts_configurator_select_provider.
  rewrite (proj2 (Nat.leb_gt _ _)) by done. rewrite Hv, Hsel. apply providers_of_cases.
Qed.
