(* ===== verification/ConfiguratorLifecycle.v ===== *)
(** Starting and stopping a resolved plan: what [salts_configurator_context_start]
    and [salts_configurator_context_stop] do to the instances and to the world
    of the provider callbacks, on success and on each failure. *)

From S2P Require Import Prelude CMetaType CMetaFunction CMetaInterface CMetaData.
From S2P Require Import CMetaOperation CMetaObject CMetaComponent Configurator ConfiguratorPlan.

(** * Plans under changing instances *)

(** [st'] differs from [st] in the state of the planned instances only. *)
Record same_plan (n : nat) (active : bool) (st st' : storage) : Prop := {
  sp_dependencies : so_dependencies st' = so_dependencies st;
  sp_order : so_order st' = so_order st;
  sp_length : length (so_instances st') = length (so_instances st);
  sp_instances : forall j i0, so_instances st !! j = Some i0 ->
    exists i, so_instances st' !! j = Some i /\
      in_dependency_offset i = in_dependency_offset i0 /\
      in_dependency_count i = in_dependency_count i0 /\
      ((j < n)%nat -> instance_state_ok active i = true) /\ ((n <= j)%nat -> i = i0);
}.

Lemma same_plan_none n active st st' j :
  same_plan n active st st' -> so_instances st !! j = None -> so_instances st' !! j = None.
Proof. intros []. rewrite !lookup_ge_None. lia. Qed.

Lemma same_plan_slice_start n active st st' j :
  same_plan n active st st' ->
  slice_start (so_instances st') 0 j = slice_start (so_instances st) 0 j.
Proof.
  intros Hs. induction j as [|j IH]; [done|].
  destruct (so_instances st !! j) as [i0|] eqn:Hi0.
  - destruct (sp_instances _ _ _ _ Hs j i0 Hi0) as (i & Hi & _ & Hcnt & _).
    by rewrite (slice_start_S _ _ _ i), (slice_start_S _ _ _ i0), IH, Hcnt.
  - pose proof (same_plan_none _ _ _ _ _ Hs Hi0) as Hi. unfold slice_start in *.
    apply lookup_ge_None in Hi, Hi0. rewrite !take_ge in * by lia. done.
Qed.

Lemma same_plan_ready n active st st' x k :
  same_plan n active st st' ->
  salts_configurator_dependencies_ready st' x k = salts_configurator_dependencies_ready st x k.
Proof.
  intros Hs. unfold salts_configurator_dependencies_ready, salts_configurator_order_contains.
  rewrite (sp_order _ _ _ _ Hs), (sp_dependencies _ _ _ _ Hs).
  destruct (so_instances st !! x) as [i0|] eqn:Hi0.
  - by destruct (sp_instances _ _ _ _ Hs x i0 Hi0) as (i & -> & -> & -> & _).
  - by rewrite (same_plan_none _ _ _ _ _ Hs Hi0).
Qed.

(** A plan stays valid when its instances change state together. *)
Lemma plan_ok_same c st st' active active' :
  plan_ok c st active -> same_plan (cx_deployment_count c) active' st st' -> plan_ok c st' active'.
Proof.
  intros [] Hs. split; try done.
  - apply plan_slices_spec in po_slices as [Hsum Hslices]. apply plan_slices_spec.
    rewrite (same_plan_slice_start _ _ _ _ _ Hs). split; [done|]. intros j Hj.
    destruct (Hslices j Hj) as (d & i0 & Hd & Hi0 & Hok & Hoff & Hle & _).
    destruct (sp_instances _ _ _ _ Hs j i0 Hi0) as (i & Hi & Hoff' & Hcnt & Hstate & _).
    exists d, i. split_and!; [done..|]. rewrite (same_plan_slice_start _ _ _ _ _ Hs).
    split_and!; [done|congruence|by rewrite Hcnt|by apply Hstate].
  - revert po_tail. unfold tail_unused. rewrite !forallb_upto_true, !length_drop, (sp_length _ _ _ _ Hs).
    intros [Hlen Hall]. split; [done|]. intros k x Hk. rewrite lookup_drop. intros Hx.
    destruct (so_instances st !! (cx_deployment_count c + k)%nat) as [i0|] eqn:Hi0.
    + destruct (sp_instances _ _ _ _ Hs _ i0 Hi0) as (i & Hi & _ & _ & _ & Hsame).
      rewrite Hx in Hi. injection Hi as <-. rewrite Hsame by lia.
      apply (Hall k); [done|by rewrite lookup_drop].
    + by rewrite (same_plan_none _ _ _ _ _ Hs Hi0) in Hx.
  - unfold order_distinct. by rewrite (sp_order _ _ _ _ Hs).
  - revert po_rows. unfold plan_dependencies_valid. rewrite !forall_below_true. intros Hall j Hj.
    specialize (Hall j Hj). rewrite (sp_dependencies _ _ _ _ Hs).
    destruct (so_instances st !! j) as [i0|] eqn:Hi0; [|done].
    by destruct (sp_instances _ _ _ _ Hs j i0 Hi0) as (i & -> & -> & -> & _).
  - revert po_ready. unfold order_ready. rewrite !forall_below_true. intros Hall k Hk.
    specialize (Hall k Hk). rewrite (sp_order _ _ _ _ Hs). destruct (so_order st !! k); [|done].
    by rewrite (same_plan_ready _ _ _ _ _ _ Hs).
Qed.

(** The order of a valid plan holds each component once. *)
Lemma plan_order c st active :
  plan_ok c st active ->
  NoDup (take (cx_deployment_count c) (so_order st)) /\
  (cx_deployment_count c <= length (so_order st))%nat /\
  forall x, x ∈ take (cx_deployment_count c) (so_order st) <-> (x < cx_deployment_count c)%nat.
Proof.
  intros []. unfold order_distinct in po_distinct. rewrite po_count in po_distinct.
  apply andb_true_iff in po_distinct as [Hlen%Nat.leb_le Hprev].
  rewrite forallb_prev_spec in Hprev. set (l := take (cx_deployment_count c) (so_order st)) in *.
  assert (NoDup l) as Hnd.
  { rewrite <- (list_fmap_id l). apply (NoDup_prefix (fun n => n)). intros k x Hk y Hy ->.
    specialize (Hprev k y Hk). destruct_bools. simpl in *.
    match goal with Hf : existsb _ _ = false |- _ => apply not_true_iff_false in Hf; apply Hf end.
    apply existsb_exists. exists y. split; [by apply list_elem_of_In|apply Nat.eqb_refl]. }
  assert (forall x, x ∈ l -> (x < cx_deployment_count c)%nat) as Hlt.
  { intros x [k Hk]%list_elem_of_lookup. specialize (Hprev k x Hk). by destruct_bools. }
  split_and!; [done|done|]. intros x. split; [apply Hlt|]. intros Hx.
  assert (incl (seq 0 (cx_deployment_count c)) l) as Hincl.
  { apply NoDup_length_incl.
    - by apply NoDup_ListNoDup.
    - unfold l. rewrite length_take, length_seq. lia.
    - intros y Hy%list_elem_of_In. apply in_seq. specialize (Hlt y Hy). lia. }
  apply list_elem_of_In, Hincl, in_seq. lia.
Qed.

(** The deployments of a valid plan. *)
Lemma plan_deployments c st active : plan_ok c st active -> deployments_ok c.
Proof.
  intros [] i Hi. apply plan_slices_spec in po_slices as [_ Hslices].
  destruct (Hslices i Hi) as (d & x & Hd & _ & Hok & _). by exists d.
Qed.

(** Every instance of a valid plan. *)
Lemma plan_instance c st active j :
  plan_ok c st active -> (j < cx_instance_capacity c)%nat ->
  exists i, so_instances st !! j = Some i /\
    if decide (j < cx_deployment_count c)%nat then instance_state_ok active i = true
    else instance_clear i = true.
Proof.
  intros [] Hj. case_decide as Hlt.
  - apply plan_slices_spec in po_slices as [_ Hslices].
    destruct (Hslices j Hlt) as (d & i & _ & Hi & _ & _ & _ & Hok). by exists i.
  - unfold tail_unused in po_tail. rewrite forallb_upto_true, length_drop in po_tail.
    destruct po_tail as [Hlen Hall].
    destruct (lookup_lt_is_Some_2 (so_instances st) j) as [i Hi]; [lia|]. exists i. split; [done|].
    assert (instance_unused i = true) as Hu.
    { apply (Hall (j - cx_deployment_count c)%nat); [lia|]. rewrite lookup_drop, <- Hi. f_equal. lia. }
    unfold instance_unused in Hu. by destruct_bools.
Qed.

Lemma plan_capacity c st active :
  plan_ok c st active -> (cx_instance_capacity c <= length (so_instances st))%nat.
Proof.
  intros Hp. apply Nat.le_ngt. intros Hlt.
  by destruct (plan_instance c st active _ Hp Hlt) as (i & Hi%lookup_lt_Some & _); lia.
Qed.

Section Lifecycle.
  Context {W : Type} `{OC : ObjectCallbacks W} `{PC : ProviderCallbacks W}.

(** * What callbacks change *)

(** Some callback that ends a component writes the reference [r] at [j]. *)
Definition callback_writes (j : nat) (r : cmeta_object_ref) : Prop := exists w, (j, r) ∈ pc_written w.

(** [st'] differs from [st] in the states of instances only, as [P] says. *)
Record touched (P : nat -> salts_configurator_instance -> salts_configurator_instance -> Prop)
    (st st' : storage) : Prop := {
  tc_dependencies : so_dependencies st' = so_dependencies st;
  tc_order : so_order st' = so_order st;
  tc_length : length (so_instances st') = length (so_instances st);
  tc_slots : forall j i, so_instances st !! j = Some i -> exists i', so_instances st' !! j = Some i' /\
    in_dependency_offset i' = in_dependency_offset i /\
    in_dependency_count i' = in_dependency_count i /\ P j i i';
}.

Lemma touched_trans P Q R st1 st2 st3 :
  touched P st1 st2 -> touched Q st2 st3 ->
  (forall j i1 i2 i3, P j i1 i2 -> Q j i2 i3 -> R j i1 i3) -> touched R st1 st3.
Proof.
  intros [d1 o1 l1 s1] [d2 o2 l2 s2] HR. split; [congruence..|]. intros j i Hi.
  destruct (s1 j i Hi) as (i1 & Hi1 & E1 & F1 & HP). destruct (s2 j i1 Hi1) as (i2 & Hi2 & E2 & F2 & HQ).
  exists i2. split_and!; [done|congruence..|by eapply HR].
Qed.

Lemma touched_mono (P Q : nat -> salts_configurator_instance -> salts_configurator_instance -> Prop) st st' :
  touched P st st' -> (forall j i i', P j i i' -> Q j i i') -> touched Q st st'.
Proof.
  intros [? ? ? Hs] HPQ. split; [done..|]. intros j i Hi. destruct (Hs j i Hi) as (i' & ? & ? & ? & ?).
  exists i'. auto.
Qed.

Lemma touched_refl (P : nat -> salts_configurator_instance -> salts_configurator_instance -> Prop) st :
  (forall j i, P j i i) -> touched P st st.
Proof. intros HP. split; [done..|]. intros j i Hi. by exists i. Qed.

Lemma touched_at P st st' j i :
  touched P st st' -> so_instances st' !! j = Some i -> exists i0, so_instances st !! j = Some i0 /\ P j i0 i.
Proof.
  intros Ht Hi. destruct (so_instances st !! j) as [i0|] eqn:Hi0.
  - destruct (tc_slots _ _ _ Ht j i0 Hi0) as (i' & Hi' & _ & _ & HP). exists i0. by simplify_eq.
  - apply lookup_ge_None in Hi0. apply lookup_lt_Some in Hi. rewrite (tc_length _ _ _ Ht) in Hi. lia.
Qed.

(** References stay or are written by callbacks. *)
Definition maybe_written (j : nat) (i i' : salts_configurator_instance) : Prop :=
  in_active i' = in_active i /\ (in_object i' = in_object i \/ callback_writes j (in_object i')).

(** The instances of [l] have ended, those that were active among them. *)
Definition ended_slot (l : list nat) (j : nat) (i i' : salts_configurator_instance) : Prop :=
  in_active i' = (if decide (j ∈ l) then false else in_active i) /\
  (in_object i' = (if decide (j ∈ l /\ in_active i = true) then CMETA_OBJECT_REF_INIT else in_object i) \/
   callback_writes j (in_object i')).

Lemma ended_slot_trans l l' j i1 i2 i3 :
  ended_slot l j i1 i2 -> ended_slot l' j i2 i3 -> ended_slot (l' ++ l) j i1 i3.
Proof.
  intros [A1 O1] [A2 O2]. unfold ended_slot in *. split.
  - rewrite A2, A1. repeat case_decide; set_solver.
  - destruct O2 as [O2|?]; [|by right]. rewrite O2. case_decide as H2.
    + left. rewrite decide_True; [done|]. destruct H2 as [? H2]. rewrite A1 in H2.
      destruct (decide (j ∈ l)); [done|]. set_solver.
    + destruct O1 as [O1|?]; [|by right]. left. rewrite O1. rewrite A1 in H2. repeat case_decide; set_solver.
Qed.

(** The instance of [x] could not be built. *)
Definition failed_slot (x j : nat) (i i' : salts_configurator_instance) : Prop :=
  in_active i' = in_active i /\
  (in_object i' = in_object i \/ callback_writes j (in_object i') \/
   j = x /\ (in_object i' = CMETA_OBJECT_REF_INIT \/
             cmeta_object_ref_valid (Some (in_object i')) = false)).

Definition updated (x : nat) (f : salts_configurator_instance -> salts_configurator_instance)
    (st : storage) : storage :=
  mk_storage (alter f x (so_instances st)) (so_dependencies st) (so_order st).

Lemma update_instance_spec x f st :
  is_Some (so_instances st !! x) -> update_instance x f st = Some (updated x f st).
Proof.
  intros [i Hi]. unfold update_instance, write_instance, updated. rewrite Hi. cbn [mbind option_bind].
  rewrite (proj2 (Nat.ltb_lt _ _)) by (by eapply lookup_lt_Some). do 2 f_equal.
  apply list_eq. intros j. destruct (decide (x = j)) as [<-|Hne].
  - rewrite list_lookup_insert_eq by (by eapply lookup_lt_Some). by rewrite list_lookup_alter_eq, Hi.
  - by rewrite list_lookup_insert_ne, list_lookup_alter_ne.
Qed.

Lemma touched_updated x f st :
  (forall i, in_dependency_offset (f i) = in_dependency_offset i /\
             in_dependency_count (f i) = in_dependency_count i) ->
  touched (fun j i i' => i' = if decide (j = x) then f i else i) st (updated x f st).
Proof.
  intros Hf. split; [done|done|apply length_alter|]. intros j i Hi. unfold updated. simpl.
  destruct (decide (j = x)) as [->|Hne].
  - rewrite list_lookup_alter_eq, Hi. exists (f i). split_and!; [done|apply Hf|apply Hf|done].
  - rewrite list_lookup_alter_ne by done. by exists i.
Qed.

Lemma touched_wrote w st : touched maybe_written st (callback_wrote w st).
Proof.
  unfold callback_wrote. assert (forall p, p ∈ pc_written w -> callback_writes p.1 p.2) as Hw
    by (intros [j r] Hp; by exists w).
  destruct st as [ins deps ord]. simpl. revert ins Hw. induction (pc_written w) as [|[x r] ps IH]; intros ins Hw.
  { simpl. apply touched_refl. by repeat constructor. }
  simpl. eapply touched_trans; [apply (touched_updated x (set_in_object r) (mk_storage ins deps ord)); by intros []| |].
  { apply IH. intros p Hp. apply Hw. by right. }
  unfold maybe_written. intros j i1 i2 i3 -> [-> Ho]. split; [by case_decide|].
  case_decide as Hj; [subst x|done]. destruct Ho as [->|?]; [|by right]. right. apply (Hw (j, r)). by left.
Qed.

Lemma still_there P st st' x : touched P st st' -> is_Some (so_instances st !! x) -> is_Some (so_instances st' !! x).
Proof. intros Ht [i Hi]. destruct (tc_slots _ _ _ Ht x i Hi) as (i' & ? & _). by exists i'. Qed.

(** * The end of an instance *)

(** Its provider's [deactivate], on the reference [object]. *)
Definition deactivated (b : salts_configurator_provider_binding) (object : cmeta_object_ref)
    (s : storage * W) : storage * W :=
  match pb_deactivate b with
  | Some f =>
      let w := pc_deactivate f (pb_provider_context b) object s.2 in (callback_wrote w s.1, w)
  | None => s
  end.

(** The release of whatever reference is there then. *)
Definition released (x : nat) (s : storage * W) : storage * W :=
  match so_instances s.1 !! x with
  | Some i =>
      let w := release_object (in_object i) s.2 in
      let st := updated x (set_in_object CMETA_OBJECT_REF_INIT) s.1 in
      (if release_calls_back (in_object i) then callback_wrote w st else st, w)
  | None => s
  end.

(** The end of the instance of [x]: deactivated, marked, released. *)
Definition end_instance (c : salts_configurator_context) (s : storage * W) (x : nat) : storage * W :=
  match so_instances s.1 !! x, salts_configurator_provider_at c x with
  | Some i, Some b =>
      if in_active i then
        let s := deactivated b (in_object i) s in
        released x (updated x (set_in_active false) s.1, s.2)
      else s
  | _, _ => s
  end.

Lemma deactivate_instance_spec b x st w i :
  so_instances st !! x = Some i ->
  exists st' w', deactivate_instance b x st w = Some (st', w') /\
    deactivated b (in_object i) (st, w) = (st', w') /\ touched maybe_written st st'.
Proof.
  intros Hi. unfold deactivate_instance, deactivated. rewrite Hi. cbn [mbind option_bind].
  destruct (pb_deactivate b); eexists _, _; (split; [done|]); (split; [done|]).
  - apply touched_wrote.
  - apply touched_refl. by repeat constructor.
Qed.

Lemma release_instance_spec x st w :
  is_Some (so_instances st !! x) ->
  exists st' w', release_instance x st w = Some (st', w') /\ released x (st, w) = (st', w') /\
    touched (fun j i i' => in_active i' = in_active i /\
      (in_object i' = (if decide (j = x) then CMETA_OBJECT_REF_INIT else in_object i) \/
       callback_writes j (in_object i'))) st st'.
Proof.
  intros [i Hi]. unfold release_instance, released. rewrite Hi. cbn [mbind option_bind].
  rewrite update_instance_spec by done. cbn [mbind option_bind]. cbn zeta. cbn [fst snd]. rewrite Hi.
  eexists _, _. split; [done|]. split; [done|].
  pose proof (touched_updated x (set_in_object CMETA_OBJECT_REF_INIT) st ltac:(by intros [])) as Hu.
  destruct (release_calls_back (in_object i)).
  - eapply touched_trans; [exact Hu|apply touched_wrote|]. unfold maybe_written. intros j i1 i2 i3 -> [-> Ho].
    split; [by case_decide|]. destruct Ho as [->|?]; [|by right]. left. by case_decide.
  - eapply touched_mono; [exact Hu|]. cbn beta. intros j i1 i2 ->. split; [by case_decide|]. left. by case_decide.
Qed.

Lemma end_component_spec c x st w i b :
  so_instances st !! x = Some i -> salts_configurator_provider_at c x = Some b ->
  exists st' w', end_component c x st w = Some (st', w') /\ end_instance c (st, w) x = (st', w') /\
    touched (ended_slot [x]) st st'.
Proof.
  intros Hi Hb. unfold end_component, end_instance. rewrite Hi, Hb. cbn [mbind option_bind fst].
  rewrite Hi. destruct (in_active i) eqn:Hact; cbn [negb].
  2: { eexists _, _. split_and!; [done|done|]. split; [done..|]. intros j i0 Hj. exists i0. split_and!; [done..|].
       unfold ended_slot. destruct (decide (j = x)) as [->|].
       - simplify_eq. rewrite decide_True by set_solver. split; [done|left].
         rewrite decide_False; [done|]. intros [_ ?]. congruence.
       - rewrite !decide_False by set_solver. split; [done|by left]. }
  destruct (deactivate_instance_spec b x st w i Hi) as (st1 & w1 & -> & -> & H1). cbn [mbind option_bind].
  assert (is_Some (so_instances st1 !! x)) as Hx1 by (by eapply still_there).
  rewrite update_instance_spec by done. cbn [mbind option_bind fst snd].
  pose proof (touched_updated x (set_in_active false) st1 ltac:(by intros [])) as H2.
  destruct (release_instance_spec x (updated x (set_in_active false) st1) w1) as (st' & w' & -> & -> & H3);
    [by eapply still_there|].
  eexists _, _. split_and!; [done|done|].
  assert (touched (fun j i i' => in_active i' = (if decide (j = x) then false else in_active i) /\
    (in_object i' = in_object i \/ callback_writes j (in_object i'))) st
    (updated x (set_in_active false) st1)) as H12.
  { eapply touched_trans; [exact H1|exact H2|]. cbn beta. intros j i1 i2 i3 [Ha Ho] ->. by case_decide. }
  destruct H12 as [d1 o1 l1 s1], H3 as [d2 o2 l2 s2]. split; [congruence..|]. intros j i0 Hi0.
  destruct (s1 j i0 Hi0) as (i1 & Hi1 & E1 & F1 & A1 & O1). destruct (s2 j i1 Hi1) as (i2 & Hi2 & E2 & F2 & A2 & O2).
  exists i2. split_and!; [done|congruence|congruence|]. unfold ended_slot. rewrite A2, A1.
  destruct (decide (j = x)) as [->|].
  - simplify_eq. rewrite !decide_True by set_solver. split; [done|]. destruct O2; auto.
  - rewrite !decide_False by set_solver. split; [done|]. destruct O2 as [->|?]; auto.
Qed.

(** Every component of the order has an instance and a provider. *)
Definition order_backed (c : salts_configurator_context) (st : storage) (count : nat) : Prop :=
  forall k, (k < count)%nat -> exists x i b, so_order st !! k = Some x /\
    so_instances st !! x = Some i /\ salts_configurator_provider_at c x = Some b.

Lemma order_backed_touched P c st st' count :
  touched P st st' -> order_backed c st count -> order_backed c st' count.
Proof.
  intros Ht Hb k Hk. destruct (Hb k Hk) as (x & i & b & Ho & Hi & Hp).
  destruct (tc_slots _ _ _ Ht x i Hi) as (i' & Hi' & _). exists x, i', b. by rewrite (tc_order _ _ _ Ht).
Qed.

(** The loop of [rollback] and [stop] ends the first [count] places of the
    order in reverse and never leaves the arrays. *)
Lemma unwind_spec c count st w :
  order_backed c st count ->
  exists st' w', unwind c count st w = Some (st', w') /\
    foldl (end_instance c) (st, w) (rev (take count (so_order st))) = (st', w') /\
    touched (ended_slot (take count (so_order st))) st st'.
Proof.
  revert st w. induction count as [|count IH]; intros st w Hb.
  { eexists _, _. split_and!; [done|done|]. apply touched_refl. intros j i. unfold ended_slot.
    rewrite take_0, !decide_False by set_solver. auto. }
  destruct (Hb count) as (x & i & b & Ho & Hi & Hp); [lia|].
  erewrite take_S_r by done. rewrite rev_app_distr. cbn [rev app foldl unwind]. rewrite Ho. cbn [mbind option_bind].
  destruct (end_component_spec c x st w i b Hi Hp) as (st1 & w1 & -> & -> & H1). cbn [mbind option_bind].
  destruct (IH st1 w1) as (st' & w' & -> & Hf & H2).
  { eapply order_backed_touched; [done|]. intros k Hk. apply Hb. lia. }
  rewrite (tc_order _ _ _ H1) in Hf, H2. exists st', w'. split_and!; [done|done|].
  eapply touched_trans; [exact H1|exact H2|]. intros. by eapply ended_slot_trans.
Qed.

(** * Starting one component *)

(** The errors that stop a start. *)
Definition start_error_status (status : salts_configurator_status) : Prop :=
  status = SALTS_CONFIGURATOR_INTERFACE_UNAVAILABLE \/ status = SALTS_CONFIGURATOR_CREATE_FAILED \/
  status = SALTS_CONFIGURATOR_ACTIVATE_FAILED.

(** The reference of [x] is written, the callbacks of a release or a deactivation
    may write others. *)
Definition tried_slot (x j : nat) (i i' : salts_configurator_instance) : Prop :=
  in_active i' = in_active i /\
  (j = x \/ in_object i' = in_object i \/ callback_writes j (in_object i')).

Lemma tried_updated x object st : touched (tried_slot x) st (updated x (set_in_object object) st).
Proof.
  eapply touched_mono; [apply touched_updated; by intros []|]. unfold tried_slot. intros j i i' ->.
  case_decide; auto.
Qed.

Lemma tried_written x st st1 st2 :
  touched (tried_slot x) st st1 -> touched maybe_written st1 st2 -> touched (tried_slot x) st st2.
Proof.
  intros H1 H2. eapply touched_trans; [exact H1|exact H2|]. unfold tried_slot, maybe_written.
  intros j i1 i2 i3 [A1 O1] [A2 O2]. split; [congruence|]. destruct O2 as [->|?]; tauto.
Qed.

Lemma tried_released x st st1 w :
  touched (tried_slot x) st st1 -> is_Some (so_instances st !! x) ->
  exists st2 w', release_instance x st1 w = Some (st2, w') /\ touched (failed_slot x) st st2.
Proof.
  intros H1 Hx. destruct (release_instance_spec x st1 w) as (st2 & w' & Hr & _ & H2);
    [by eapply still_there|]. exists st2, w'. split; [done|].
  eapply touched_trans; [exact H1|exact H2|]. unfold tried_slot, failed_slot.
  intros j i1 i2 i3 [A1 O1] [A2 O2]. split; [congruence|]. destruct O2 as [O2|?]; [|tauto].
  rewrite O2. case_decide; [tauto|]. destruct O1 as [|[->|?]]; [done|by left|right; by left].
Qed.

(** A component that is built has a valid object; one that is not ends with an
    error, and if its object was ever valid it has been released. *)
Lemma build_instance_spec b deployment dependencies x st w :
  is_Some (pb_create b) -> is_Some (so_instances st !! x) ->
  exists error st' w',
    build_instance b deployment dependencies x st w = Some (error, st', w') /\
    match error with
    | None => exists object, cmeta_object_ref_valid (Some object) = true /\
        st' = updated x (set_in_object object) st
    | Some e => start_error_status (se_status e) /\ touched (failed_slot x) st st'
    end.
Proof.
  intros [create Hcreate] Hx. unfold build_instance, start_error_status. rewrite Hcreate.
  cbn [mbind option_bind].
  destruct (pc_create create _ _ _ _ _ w) as [[status obj] w1].
  rewrite update_instance_spec by done. cbn [mbind option_bind].
  pose proof (tried_updated x obj st) as Ht. set (st0 := updated x _ st) in *.
  assert (cmeta_object_ref_valid (Some obj) = false -> touched (failed_slot x) st st0) as Hbad.
  { intros Hv. eapply touched_mono; [apply touched_updated; by intros []|]. unfold failed_slot.
    intros j i i' ->. case_decide; auto 6. }
  destruct (status_ok status); cbn [negb].
  2: { destruct (cmeta_object_ref_valid (Some obj)) eqn:Hv.
       - destruct (tried_released x st st0 w1 Ht Hx) as (st2 & w2 & -> & Hf). cbn [mbind option_bind].
         eexists _, _, _. split; [reflexivity|]. cbn [se_status]. tauto.
       - cbn [mbind option_bind]. eexists _, _, _. split; [reflexivity|]. cbn [se_status]. tauto. }
  destruct (cmeta_object_ref_valid (Some obj)) eqn:Hv; cbn [negb].
  2: { eexists _, _, _. split; [reflexivity|]. cbn [se_status]. tauto. }
  destruct (match pb_activate b with Some _ => _ | None => _ end) as [status2 w2].
  destruct (status_ok status2); cbn [negb].
  2: { destruct (tried_released x st st0 w2 Ht Hx) as (st2 & w3 & -> & Hf). cbn [mbind option_bind].
       eexists _, _, _. split; [reflexivity|]. cbn [se_status]. tauto. }
  destruct (salts_configurator_preflight_provides b obj w2) as [status3 w3].
  destruct (status_ok status3); cbn [negb].
  - eexists _, _, _. split; [reflexivity|]. by exists obj.
  - destruct (still_there _ st st0 x Ht Hx) as [i0 Hi0].
    destruct (deactivate_instance_spec b x st0 w3 i0 Hi0) as (st1 & w4 & -> & _ & H1). cbn [mbind option_bind].
    destruct (tried_released x st st1 w4 (tried_written _ _ _ _ Ht H1) Hx) as (st2 & w5 & -> & Hf).
    cbn [mbind option_bind]. eexists _, _, _. split; [reflexivity|]. cbn [se_status]. tauto.
Qed.

(** The instance of [x] once it is built. *)
Definition start_slot (object : cmeta_object_ref) (i : salts_configurator_instance)
    : salts_configurator_instance :=
  mk_instance object (in_dependency_offset i) (in_dependency_count i) true.

Lemma updated_updated x f g st : updated x f (updated x g st) = updated x (f ∘ g) st.
Proof.
  unfold updated. simpl. f_equal. apply list_eq. intros j. destruct (decide (x = j)) as [->|].
  - rewrite !list_lookup_alter_eq. by destruct (so_instances st !! j).
  - by rewrite !list_lookup_alter_ne.
Qed.

Lemma start_component_spec c x st w i b d :
  so_instances st !! x = Some i -> salts_configurator_provider_at c x = Some b ->
  cx_rows c !! x = Some d -> is_Some (pb_create b) ->
  exists error st' w', start_component c x st w = Some (error, st', w') /\
    match error with
    | None => exists object, cmeta_object_ref_valid (Some object) = true /\
        st' = updated x (start_slot object) st
    | Some e => start_error_status (se_status e) /\ touched (failed_slot x) st st'
    end.
Proof.
  intros Hi Hb Hd Hcreate. unfold start_component. rewrite Hi, Hb, Hd. cbn [mbind option_bind].
  destruct (project_dependencies _ _ _ _ w) as [[[status index]|] w1].
  { eexists (Some _), st, w1. split; [done|]. split; [by left|]. apply touched_refl. unfold failed_slot. auto. }
  rewrite update_instance_spec by done. cbn [mbind option_bind].
  pose proof (touched_updated x (set_in_object CMETA_OBJECT_REF_INIT) st ltac:(by intros [])) as H0.
  set (st0 := updated x _ st) in *. assert (is_Some (so_instances st0 !! x)) as Hx0 by (by eapply still_there).
  match goal with |- context [build_instance b d ?ds x st0 w1] =>
    destruct (build_instance_spec b d ds x st0 w1 Hcreate Hx0) as (error & st1 & w2 & -> & Hbuild) end.
  cbn [mbind option_bind]. destruct error as [e|]; cbn [is_null].
  - cbn [mbind option_bind]. eexists _, _, _. split; [done|]. destruct Hbuild as [? Hf]. split; [done|].
    eapply touched_trans; [exact H0|exact Hf|]. unfold failed_slot. intros j i1 i2 i3 -> [A O].
    split; [rewrite A; by case_decide|]. destruct O as [->|?]; [|tauto]. case_decide; simpl; tauto.
  - destruct Hbuild as (object & Hv & ->). destruct (still_there _ _ _ x (tried_updated x object st0) Hx0) as [i1 Hi1].
    rewrite update_instance_spec by done. cbn [mbind option_bind]. eexists _, _, _. split; [done|].
    exists object. split; [done|]. unfold st0. rewrite !updated_updated. unfold updated. f_equal.
Qed.

(** * The start loop *)

(** The first [k] places of the order have been started, one after another. *)
Inductive start_run (c : salts_configurator_context) (st0 : storage) (w0 : W)
    : nat -> storage -> W -> Prop :=
  | start_run_nil : start_run c st0 w0 0 st0 w0
  | start_run_step k st w x st' w' :
      start_run c st0 w0 k st w -> so_order st !! k = Some x ->
      start_component c x st w = Some (None, st', w') ->
      start_run c st0 w0 (S k) st' w'.

(** The instances after the first [k] places were started. *)
Record started (c : salts_configurator_context) (st0 : storage) (k : nat) (st : storage) : Prop := {
  sd_dependencies : so_dependencies st = so_dependencies st0;
  sd_order : so_order st = so_order st0;
  sd_length : length (so_instances st) = length (so_instances st0);
  sd_instances : forall j i0, so_instances st0 !! j = Some i0 ->
    exists i, so_instances st !! j = Some i /\
      in_dependency_offset i = in_dependency_offset i0 /\
      in_dependency_count i = in_dependency_count i0 /\
      if decide (j ∈ take k (so_order st0)) then instance_state_ok true i = true else i = i0;
}.

Lemma started_0 c st : started c st 0 st.
Proof. split; [done..|]. intros j i0 Hj. exists i0. split_and!; try done. Qed.

(** Every place of the plan has an instance, a provider and a deployment. *)
Definition plan_backed (c : salts_configurator_context) (st : storage) (count : nat) : Prop :=
  NoDup (take count (so_order st)) /\
  forall k, (k < count)%nat -> exists x i b d, so_order st !! k = Some x /\
    so_instances st !! x = Some i /\ salts_configurator_provider_at c x = Some b /\
    cx_rows c !! x = Some d /\ is_Some (pb_create b).

Lemma plan_backed_started c st0 count k st :
  plan_backed c st0 count -> started c st0 k st -> plan_backed c st count.
Proof.
  intros [Hnd Hb] Hs. split; [by rewrite (sd_order _ _ _ _ Hs)|]. intros j Hj.
  destruct (Hb j Hj) as (x & i0 & b & d & Ho & Hi & Hp & Hd & Hcr).
  destruct (sd_instances _ _ _ _ Hs x i0 Hi) as (i & Hi' & _).
  exists x, i, b, d. by rewrite (sd_order _ _ _ _ Hs).
Qed.

Lemma started_step c st0 k st x object :
  started c st0 k st -> so_order st0 !! k = Some x -> cmeta_object_ref_valid (Some object) = true ->
  started c st0 (S k) (updated x (start_slot object) st).
Proof.
  intros [] Ho Hv. split; simpl; [done|done|by rewrite length_alter|].
  intros j i0 Hj. destruct (sd_instances0 j i0 Hj) as (i1 & Hi1 & Hoff & Hcnt & Hstate).
  erewrite take_S_r by done. destruct (decide (x = j)) as [<-|Hne].
  - exists (start_slot object i1). rewrite list_lookup_alter_eq, Hi1.
    split_and!; [done|done|done|]. rewrite decide_True by (apply elem_of_app; right; by left). exact Hv.
  - exists i1. rewrite list_lookup_alter_ne by done. split_and!; [done..|].
    erewrite decide_ext; [exact Hstate|]. rewrite elem_of_app, list_elem_of_singleton.
    split; [intros [?|?]; [done|by subst]|by left].
Qed.

(** How a start fails: the component at some place [m] reports an error, the
    [m] components before it are ended in reverse, and the error is recorded. *)
Definition start_failed (c : salts_configurator_context) (st0 : storage) (w0 : W)
    (r : salts_configurator_status * salts_configurator_context * storage * W) : Prop :=
  exists m x e st1 w1 st2 w2,
    (m < cx_activation_count c)%nat /\ start_run c st0 w0 m st1 w1 /\ so_order st0 !! m = Some x /\
    start_component c x st1 w1 = Some (Some e, st2, w2) /\
    let s := foldl (end_instance c) (st2, w2) (rev (take m (so_order st0))) in
    let failed := salts_configurator_fail (set_cx_counts (cx_dependency_count c) 0 c) s.1
                    (se_status e) (se_phase e) (Some x) (se_dependency e) (se_provider_status e) in
    r = (failed.1, failed.2, s.1, s.2).

Lemma plan_backed_order c st count m :
  plan_backed c st count -> (m <= count)%nat ->
  order_backed c st m /\ NoDup (take m (so_order st)).
Proof.
  intros [Hnd Hb] Hm. split.
  - intros k Hk. destruct (Hb k ltac:(lia)) as (x & i & b & d & ? & ? & ? & _). by exists x, i, b.
  - rewrite <- (take_drop m (take count (so_order st))) in Hnd. apply NoDup_app in Hnd as [Hnd _].
    by rewrite take_take, Nat.min_l in Hnd.
Qed.

Lemma start_loop_spec c st0 w0 k remaining st w :
  plan_backed c st0 (cx_activation_count c) -> (k + remaining = cx_activation_count c)%nat ->
  start_run c st0 w0 k st w -> started c st0 k st ->
  (exists st' w', start_loop c k remaining st w =
     Some (SALTS_CONFIGURATOR_OK, set_cx_state SALTS_CONFIGURATOR_CONTEXT_ACTIVE c, st', w') /\
     start_run c st0 w0 (cx_activation_count c) st' w' /\ started c st0 (cx_activation_count c) st') \/
  (exists r, start_loop c k remaining st w = Some r /\ start_failed c st0 w0 r).
Proof.
  intros Hb. revert k st w. induction remaining as [|remaining IH]; intros k st w Hk Hrun Hs.
  { left. exists st, w. rewrite <- Hk, Nat.add_0_r. done. }
  pose proof (plan_backed_started c st0 _ k st Hb Hs) as Hb'.
  destruct (proj2 Hb' k) as (x & i & b & d & Ho & Hi & Hp & Hd & Hcr); [lia|].
  assert (so_order st0 !! k = Some x) as Ho0 by (by rewrite <- (sd_order _ _ _ _ Hs)).
  cbn [start_loop]. rewrite Ho. cbn [mbind option_bind].
  destruct (start_component_spec c x st w i b d Hi Hp Hd Hcr) as (error & st2 & w' & Hsc & Herr).
  rewrite Hsc. cbn [mbind option_bind]. destruct error as [e|].
  - right. destruct Herr as [_ Hf]. unfold salts_configurator_rollback.
    destruct (plan_backed_order c st _ k Hb' ltac:(lia)) as [Hob _].
    destruct (unwind_spec c k st2 w' (order_backed_touched _ _ _ _ _ Hf Hob)) as (st3 & w3 & -> & Hfold & _).
    cbn [mbind option_bind]. eexists. split; [reflexivity|].
    exists k, x, e, st, w, st2, w'. split_and!; [lia|done|done|done|].
    rewrite (tc_order _ _ _ Hf), (sd_order _ _ _ _ Hs) in Hfold. cbn zeta. by rewrite Hfold.
  - destruct Herr as (object & Hv & ->). apply (IH (S k)); [lia| |].
    + econstructor; [exact Hrun|by rewrite Ho|exact Hsc].
    + by eapply started_step.
Qed.

(** * Outcomes *)

Lemma plan_backed_ok c st active :
  plan_ok c st active -> plan_backed c st (cx_activation_count c).
Proof.
  intros Hp. destruct (plan_order c st active Hp) as (Hnd & Hlen & Hin).
  rewrite (po_count _ _ _ Hp). split; [done|]. intros k Hk.
  destruct (lookup_lt_is_Some_2 (so_order st) k) as [x Hx]; [lia|].
  assert (x < cx_deployment_count c)%nat as Hxn.
  { apply Hin, list_elem_of_lookup. exists k. by rewrite lookup_take_lt. }
  destruct (plan_instance c st active x Hp) as (i & Hi & _);
    [pose proof (po_instances _ _ _ Hp); lia|].
  destruct (provider_at_ok c x (plan_deployments c st active Hp) Hxn)
    as (d & b & comp & Hd & _ & Hb & _ & _ & _ & Hcr & _).
  by exists x, i, b, d.
Qed.

(** A complete run turns a resolved plan into an active one. *)
Lemma started_same_plan c st st' :
  plan_ok c st false -> started c st (cx_activation_count c) st' ->
  same_plan (cx_deployment_count c) true st st'.
Proof.
  intros Hp []. destruct (plan_order c st false Hp) as (_ & _ & Hin).
  rewrite (po_count _ _ _ Hp) in *. split; [done..|]. intros j i0 Hj.
  destruct (sd_instances0 j i0 Hj) as (i & Hi & Hoff & Hcnt & Hstate).
  exists i. split_and!; [done..| |]; intros Hn; case_decide as Hd; try done; rewrite Hin in Hd; lia.
Qed.

(** What [salts_configurator_fail] leaves. *)
Lemma fail_spec c st status phase component dependency provider_status :
  let failed := salts_configurator_fail c st status phase component dependency provider_status in
  failed.1 = status /\ cx_state failed.2 = SALTS_CONFIGURATOR_CONTEXT_FAILED /\
  cx_failure failed.2 = mk_failure phase component dependency provider_status /\
  (salts_configurator_storage_detached failed.2 = true \/
   salts_configurator_instances_settled failed.2 st = false /\
   failed.2 = set_cx_state SALTS_CONFIGURATOR_CONTEXT_FAILED
                (set_cx_failure (mk_failure phase component dependency provider_status) c)).
Proof.
  unfold salts_configurator_fail. set (c1 := set_cx_state _ _). cbn zeta. split; [done|]. simpl.
  destruct (_ || _ || salts_configurator_instances_settled c1 st) eqn:Hs; split_and!; try done.
  - by left.
  - destruct_bools. by right.
Qed.

(** The instances after a failed start: none is active, and all are empty but for
    references that callbacks wrote and that of the component that failed. *)
Lemma start_failed_instances c st0 m x st1 st2 st3 j i' :
  plan_ok c st0 false -> started c st0 m st1 -> touched (failed_slot x) st1 st2 ->
  touched (ended_slot (take m (so_order st0))) st2 st3 ->
  so_instances st3 !! j = Some i' -> (j < cx_instance_capacity c)%nat ->
  in_active i' = false /\
  (instance_clear i' = true \/ callback_writes j (in_object i') \/
   j = x /\ cmeta_object_ref_valid (Some (in_object i')) = false).
Proof.
  intros Hp Hs Hf He Hj Hcap.
  destruct (plan_instance c st0 false j Hp Hcap) as (i0 & Hi0 & Hclear).
  assert (instance_clear i0 = true) as Hclear0 by (by case_decide). clear Hclear.
  destruct (sd_instances _ _ _ _ Hs j i0 Hi0) as (i1 & Hi1 & _ & _ & Hstate).
  destruct (tc_slots _ _ _ Hf j i1 Hi1) as (i2 & Hi2 & _ & _ & Ha2 & Ho2).
  destruct (tc_slots _ _ _ He j i2 Hi2) as (i3 & Hi3 & _ & _ & Ha3 & Ho3). simplify_eq.
  unfold instance_clear in *. apply andb_true_iff in Hclear0 as [Hact0%negb_true_iff Hempty].
  destruct (decide (j ∈ take m (so_order st0))) as [Hin|Hin].
  - apply andb_true_iff in Hstate as [Hact _]. rewrite decide_True in Ho3 by (split; [done|congruence]).
    rewrite Ha3. split; [done|]. destruct Ho3 as [->|?]; auto.
  - subst i1. rewrite Ha3, Ha2, Hact0. split; [done|]. rewrite decide_False in Ho3 by tauto.
    destruct Ho3 as [->|?]; [|auto]. destruct Ho2 as [->|[?|[-> [->|?]]]]; auto.
Qed.

Lemma run_started c st0 w0 count k st w :
  plan_backed c st0 count -> (k <= count)%nat -> start_run c st0 w0 k st w -> started c st0 k st.
Proof.
  intros Hb Hk Hrun. revert Hk. induction Hrun as [|k st w x st' w' Hrun IH Ho Hsc]; intros Hk.
  { apply started_0. }
  specialize (IH ltac:(lia)). pose proof (plan_backed_started c st0 _ k st Hb IH) as [_ Hb'].
  destruct (Hb' k) as (y & i & b & d & Ho' & Hi & Hp & Hd & Hcr); [lia|]. simplify_eq.
  destruct (start_component_spec c x st w i b d Hi Hp Hd Hcr) as (error & st2 & w2 & Hsc' & Herr).
  rewrite Hsc in Hsc'. simplify_eq. destruct Herr as (object & Hv & ->).
  eapply started_step; [done| |done]. by rewrite <- (sd_order _ _ _ _ IH).
Qed.

(** The context [start] works on. *)
Definition starting (c : salts_configurator_context) : salts_configurator_context :=
  set_cx_failure salts_configurator_failure_none c.

(** What a failed start leaves in the context and the instances. *)
Record start_residue (c : salts_configurator_context) (st' : storage)
    (status : salts_configurator_status) (c' : salts_configurator_context) : Prop := {
  sr_status : start_error_status status;
  sr_state : cx_state c' = SALTS_CONFIGURATOR_CONTEXT_FAILED;
  sr_activations : cx_activation_count c' = 0%nat;
  sr_inactive : forall j i, (j < cx_instance_capacity c)%nat -> so_instances st' !! j = Some i ->
    in_active i = false;
  sr_detached : salts_configurator_storage_detached c' = true \/
    salts_configurator_instances_settled c' st' = false /\
    cx_instance_capacity c' = cx_instance_capacity c /\
    exists x i, so_instances st' !! x = Some i /\
      salts_configurator_object_ref_empty (in_object i) = false /\
      (callback_writes x (in_object i) \/
       fa_component_index (cx_failure c') = Some x /\
       cmeta_object_ref_valid (Some (in_object i)) = false);
}.

(** Whether an attached context is settled is whether its instances are clear. *)
Lemma settled_attached c st :
  (cx_deployment_count c <> 0)%nat \/ state_is SALTS_CONFIGURATOR_CONTEXT_ACTIVE c = true ->
  (cx_deployment_count c <= cx_instance_capacity c)%nat -> arrays_present c = true ->
  (cx_instance_capacity c <= length (so_instances st))%nat ->
  salts_configurator_instances_settled c st =
    forallb instance_clear (take (cx_instance_capacity c) (so_instances st)).
Proof.
  intros Hn Hle Harr Hlen. unfold salts_configurator_instances_settled.
  assert ((state_is SALTS_CONFIGURATOR_CONTEXT_FAILED c || state_is SALTS_CONFIGURATOR_CONTEXT_STOPPED c) &&
    (cx_deployment_count c =? 0)%nat = false) as ->.
  { destruct Hn as [Hn|Hn]; [by rewrite (proj2 (Nat.eqb_neq _ _) Hn), andb_false_r|].
    apply bool_decide_eq_true in Hn. unfold state_is. by rewrite Hn. }
  cbn [andb]. unfold arrays_present in Harr. destruct_bools. rewrite (proj2 (Nat.ltb_ge _ _)) by done.
  match goal with Hi : negb _ && is_null (cx_instances c) = false |- _ => rewrite Hi end.
  cbn [orb]. by apply forallb_upto_take.
Qed.

Lemma unsettled c st :
  forallb instance_clear (take (cx_instance_capacity c) (so_instances st)) = false ->
  salts_configurator_instances_settled c st = false.
Proof.
  intros Hc. apply not_true_is_false. unfold salts_configurator_instances_settled.
  case_if; [done|]. case_if; [done|]. intros Hup. pose proof Hup as [Hlen _]%forallb_upto_true.
  rewrite forallb_upto_take in Hup by done. congruence.
Qed.

Lemma unsettled_slot n st :
  forallb instance_clear (take n (so_instances st)) = false ->
  exists j i, (j < n)%nat /\ so_instances st !! j = Some i /\ instance_clear i = false.
Proof.
  intros Hf. apply not_true_iff_false in Hf. rewrite forallb_forall in Hf.
  destruct (decide (Exists (fun i => instance_clear i = false) (take n (so_instances st)))) as [He|He].
  - apply Exists_exists in He as (i & Hi & Hc). apply list_elem_of_lookup in Hi as [j [Hj ?]%lookup_take_Some].
    by exists j, i.
  - exfalso. apply Hf. intros i Hi. apply not_false_is_true. intros Hc. apply He, Exists_exists.
    exists i. by rewrite list_elem_of_In.
Qed.

Lemma start_failed_residue c st0 w0 status c' st' w' :
  plan_ok c st0 false -> start_failed c st0 w0 (status, c', st', w') -> start_residue c st' status c'.
Proof.
  intros Hp (m & x & e & st1 & w1 & st2 & w2 & Hm & Hrun & Ho & Hsc & Hr). cbn zeta in Hr.
  pose proof (plan_backed_ok c st0 false Hp) as Hb.
  pose proof (run_started c st0 w0 _ m st1 w1 Hb ltac:(lia) Hrun) as Hs.
  pose proof (plan_backed_started c st0 _ m st1 Hb Hs) as Hb1.
  destruct (proj2 Hb1 m Hm) as (y & i & b & d & Ho' & Hi & Hpr & Hd & Hcr).
  rewrite (sd_order _ _ _ _ Hs) in Ho'. simplify_eq.
  destruct (start_component_spec c x st1 w1 i b d Hi Hpr Hd Hcr) as (error & st2' & w3 & Hsc' & Herr).
  rewrite Hsc in Hsc'. simplify_eq. destruct Herr as [Hstatus Hf].
  destruct (unwind_spec c m st2' w3) as (st3 & w4 & _ & Hfold & He).
  { eapply order_backed_touched; [done|]. apply (plan_backed_order c st1 _ m Hb1). lia. }
  rewrite (tc_order _ _ _ Hf), (sd_order _ _ _ _ Hs) in Hfold, He.
  rewrite Hfold. cbn [fst snd]. set (c1 := set_cx_counts _ 0 c) in *.
  assert (forall j i', (j < cx_instance_capacity c)%nat -> so_instances st3 !! j = Some i' ->
            in_active i' = false /\ (instance_clear i' = true \/ callback_writes j (in_object i') \/
              j = x /\ cmeta_object_ref_valid (Some (in_object i')) = false)) as Hins
    by (intros j i' Hj Hi'; by eapply (start_failed_instances c st0 m x st1 st2' st3)).
  destruct (fail_spec c1 st3 (se_status e) (se_phase e) (Some x) (se_dependency e)
    (se_provider_status e)) as (Hst & Hstate & Hfailure & Hdet).
  rewrite Hst. split; try done.
  - destruct Hdet as [Hdet|[_ ->]]; [|done]. unfold salts_configurator_storage_detached in Hdet.
    by destruct_bools.
  - intros j i' Hj Hi'. by apply (Hins j i').
  - destruct Hdet as [Hdet|[Hset Heq]]; [by left|right]. split_and!; [done|by rewrite Heq|].
    rewrite Heq, settled_attached in Hset; cbn [cx_deployment_count cx_instance_capacity] in *.
    + apply unsettled_slot in Hset as (y & iy & Hy & Hiy & Hnot).
      destruct (Hins y iy Hy Hiy) as [Hact Hor]. unfold instance_clear in Hnot.
      rewrite Hact in Hnot. exists y, iy. split_and!; [done|done|].
      destruct Hor as [Hc|[?|[-> ?]]]; [|by left|by right; rewrite Hfailure].
      unfold instance_clear in Hc. rewrite Hact in Hc. cbn [negb andb] in *. congruence.
    + left. pose proof (po_count _ _ _ Hp). simpl. lia.
    + exact (po_instances _ _ _ Hp).
    + exact (po_arrays _ _ _ Hp).
    + simpl. rewrite (tc_length _ _ _ He), (tc_length _ _ _ Hf), (sd_length _ _ _ _ Hs).
      by eapply plan_capacity.
Qed.


(** A dependency in the slice of the component at place [k] names a provider at
    an earlier place. *)
Lemma plan_provider_before c st active k x i j d :
  plan_ok c st active -> (k < cx_deployment_count c)%nat -> so_order st !! k = Some x ->
  so_instances st !! x = Some i -> (j < in_dependency_count i)%nat ->
  so_dependencies st !! (in_dependency_offset i + j)%nat = Some d ->
  dp_provider_index d ∈ take k (so_order st) /\
  dp_provider_instance d = (fun a => (a, dp_provider_index d)) <$> cx_instances c /\
  is_Some (cx_instances c).
Proof.
  intros Hp Hk Hx Hi Hj Hd. destruct (plan_order c st active Hp) as (_ & _ & Hin).
  assert (x < cx_deployment_count c)%nat as Hxn
    by (apply Hin, list_elem_of_lookup; exists k; by rewrite lookup_take_lt).
  split; [|split].
  - pose proof (po_ready _ _ _ Hp) as Hready. unfold order_ready in Hready.
    rewrite forall_below_true, (po_count _ _ _ Hp) in Hready. specialize (Hready k Hk).
    rewrite Hx in Hready. unfold salts_configurator_dependencies_ready in Hready.
    rewrite Hi, forall_below_true in Hready. specialize (Hready j Hj). rewrite Hd in Hready.
    by apply order_contains_spec.
  - pose proof (po_rows _ _ _ Hp) as Hrows. unfold plan_dependencies_valid in Hrows.
    rewrite forall_below_true in Hrows. specialize (Hrows x Hxn). rewrite Hi, forall_below_true in Hrows.
    specialize (Hrows j Hj). rewrite Hd in Hrows. unfold plan_dependency_valid in Hrows.
    case_if. destruct (salts_configurator_provider_at c x); [|done].
    destruct (salts_configurator_provider_at c (dp_provider_index d)); [|done]. by destruct_bools.
  - pose proof (po_arrays _ _ _ Hp) as Harr. unfold arrays_present in Harr. destruct_bools.
    rewrite (proj2 (Nat.eqb_neq (cx_deployment_count c) 0)) in * by lia. simpl in *. destruct_bools.
    by apply is_null_false.
Qed.

Lemma start_rule c st w :
  state_is SALTS_CONFIGURATOR_CONTEXT_RESOLVED c = true ->
  salts_configurator_activation_plan_valid c st false = true ->
  exists status c' st' w',
    salts_configurator_context_start (Some c) st w = Some (status, Some c', st', w') /\
    if bool_decide (status = SALTS_CONFIGURATOR_OK)
    then cx_state c' = SALTS_CONFIGURATOR_CONTEXT_ACTIVE /\
         start_run (starting c) st w (cx_activation_count c) st' w' /\
         salts_configurator_activation_plan_valid c' st' true = true
    else start_failed (starting c) st w (status, c', st', w') /\ start_residue c st' status c'.
Proof.
  intros Hstate Hvalid. unfold salts_configurator_context_start. rewrite Hstate, Hvalid.
  cbn [negb orb]. cbn zeta. change (set_cx_failure salts_configurator_failure_none c) with (starting c).
  assert (plan_ok (starting c) st false) as Hp by (by apply plan_valid_iff).
  destruct (start_loop_spec (starting c) st w 0 (cx_activation_count c) st w)
    as [(st' & w' & Hr & Hrun & Hs)|([[[status c'] st'] w'] & Hr & Hfail)].
  - by apply (plan_backed_ok _ _ false).
  - done.
  - constructor.
  - apply started_0.
  - change (cx_activation_count (starting c)) with (cx_activation_count c) in *.
    rewrite Hr. cbn [mbind option_bind]. eexists _, _, st', w'. split; [done|].
    rewrite bool_decide_true by done. split_and!; [done|done|]. apply plan_valid_iff.
    assert (plan_ok (set_cx_state SALTS_CONFIGURATOR_CONTEXT_ACTIVE (starting c)) st false) as Hp'
      by (by apply plan_valid_iff).
    apply (plan_ok_same _ st st' false); [done|]. by apply (started_same_plan (starting c)).
  - change (cx_activation_count (starting c)) with (cx_activation_count c) in *.
    rewrite Hr. cbn [mbind option_bind]. eexists status, c', st', w'. split; [done|].
    pose proof (start_failed_residue _ st w status c' st' w' Hp Hfail) as Hres.
    rewrite bool_decide_false by (intros ->; by destruct (sr_status _ _ _ _ Hres) as [?|[?|?]]).
    split; [done|]. by destruct Hres.
Qed.

(** C6: [salts_configurator_context_start] on a valid resolved plan always
    returns and stays inside the arrays.  It succeeds only after every component
    of the order was built, and then the plan is a valid active one.  If the
    component at some place fails, the components before it are deactivated
    and released in reverse order, each once, no instance is left active, and
    the context is detached from the arrays unless a reference is left that is not
    empty: an invalid one of the failing provider, or one that a callback of the
    teardown wrote. *)
Theorem start_outcome c st w :
  state_is SALTS_CONFIGURATOR_CONTEXT_RESOLVED c = true ->
  salts_configurator_activation_plan_valid c st false = true ->
  exists status c' st' w',
    salts_configurator_context_start (Some c) st w = Some (status, Some c', st', w') /\
    if bool_decide (status = SALTS_CONFIGURATOR_OK)
    then cx_state c' = SALTS_CONFIGURATOR_CONTEXT_ACTIVE /\
         start_run (starting c) st w (cx_activation_count c) st' w' /\
         salts_configurator_activation_plan_valid c' st' true = true
    else start_failed (starting c) st w (status, c', st', w') /\ start_residue c st' status c'.
Proof. apply start_rule. Qed.

(** when a component is built, every provider it depends on is already
    active with a valid object, and that object is the one the dependency it is
    handed points at. *)
Theorem started_after_providers c st0 w0 k st w x i j d :
  salts_configurator_activation_plan_valid c st0 false = true ->
  start_run c st0 w0 k st w -> (k < cx_activation_count c)%nat ->
  so_order st !! k = Some x -> so_instances st !! x = Some i ->
  (j < in_dependency_count i)%nat ->
  so_dependencies st !! (in_dependency_offset i + j)%nat = Some d ->
  exists p, so_instances st !! dp_provider_index d = Some p /\ in_active p = true /\
    cmeta_object_ref_valid (Some (in_object p)) = true /\
    dependency_object c st d = Some (in_object p).
Proof.
  intros Hp%plan_valid_iff Hrun Hk Hx Hi Hj Hd. rewrite (po_count _ _ _ Hp) in Hk.
  pose proof (po_count _ _ _ Hp) as Hcount.
  destruct (run_started c st0 w0 _ k st w (plan_backed_ok c st0 false Hp) ltac:(lia) Hrun)
    as [Hdeps Hord Hlen Hins].
  rewrite Hdeps in Hd. rewrite Hord in Hx.
  destruct (so_instances st0 !! x) as [i0|] eqn:Hi0.
  2: { apply lookup_ge_None in Hi0. apply lookup_lt_Some in Hi. lia. }
  destruct (Hins x i0 Hi0) as (i' & Hi' & Hoff & Hcnt & _). simplify_eq. rewrite Hoff in Hd.
  rewrite Hcnt in Hj.
  destruct (plan_provider_before c st0 false k x i0 j d Hp Hk Hx Hi0 Hj Hd) as (Hbefore & Hinst & [a Ha]).
  destruct (plan_order c st0 false Hp) as (_ & Hlo & Hin).
  assert (dp_provider_index d < cx_deployment_count c)%nat as Hpn.
  { apply Hin. apply list_elem_of_lookup in Hbefore as [m [Hm Hmk]%lookup_take_Some].
    apply list_elem_of_lookup. exists m. rewrite lookup_take_lt by lia. done. }
  destruct (plan_instance c st0 false (dp_provider_index d) Hp) as (p0 & Hp0 & _);
    [pose proof (po_instances _ _ _ Hp); lia|].
  destruct (Hins _ p0 Hp0) as (p & Hpp & _ & _ & Hactive). rewrite decide_True in Hactive by done.
  apply andb_true_iff in Hactive as [Hact Hv]. exists p. split_and!; [done|done|done|].
  unfold dependency_object. rewrite Hinst, Ha. simpl. rewrite bool_decide_true by done. by rewrite Hpp.
Qed.

(** The context a stop leaves attached: it may be called on again only once the
    instances are settled. *)
Definition stop_failed (c : salts_configurator_context) : salts_configurator_context :=
  set_cx_state SALTS_CONFIGURATOR_CONTEXT_FAILED (set_cx_counts (cx_dependency_count c) 0 c).

(** An instance after the stop: inactive, and empty but for what callbacks wrote. *)
Definition stopped_instance (j : nat) (i : salts_configurator_instance) : Prop :=
  in_active i = false /\
  (salts_configurator_object_ref_empty (in_object i) = true \/ callback_writes j (in_object i)).

Lemma stop_instances c st st' j i :
  plan_ok c st true -> touched (ended_slot (take (cx_deployment_count c) (so_order st))) st st' ->
  (j < cx_instance_capacity c)%nat -> so_instances st' !! j = Some i -> stopped_instance j i.
Proof.
  intros Hp Ht Hj Hi. destruct (touched_at _ _ _ j i Ht Hi) as (i0 & Hi0 & Ha & Ho).
  destruct (plan_instance c st true j Hp Hj) as (i0' & Hi0' & Hstate). simplify_eq.
  destruct (plan_order c st true Hp) as (_ & _ & Hin). unfold stopped_instance. rewrite Ha.
  case_decide as Hd.
  - apply andb_true_iff in Hstate as [Hact _]. rewrite decide_True by (by apply Hin). split; [done|].
    rewrite decide_True in Ho by (split; [by apply Hin|done]). destruct Ho as [->|?]; auto.
  - rewrite decide_False by (by rewrite Hin). unfold instance_clear in Hstate.
    apply andb_true_iff in Hstate as [Hact%negb_true_iff He]. split; [done|].
    rewrite decide_False in Ho by (rewrite Hin; tauto). destruct Ho as [->|?]; auto.
Qed.

Lemma stop_rule c st w :
  state_is SALTS_CONFIGURATOR_CONTEXT_ACTIVE c = true ->
  salts_configurator_activation_plan_valid c st true = true ->
  let order := take (cx_deployment_count c) (so_order st) in
  exists status c' st' w',
    salts_configurator_context_stop (Some c) st w = Some (status, Some c', st', w') /\
    foldl (end_instance c) (st, w) (rev order) = (st', w') /\
    (if forallb instance_clear (take (cx_instance_capacity c) (so_instances st'))
     then status = SALTS_CONFIGURATOR_OK /\ cx_state c' = SALTS_CONFIGURATOR_CONTEXT_STOPPED /\
          salts_configurator_storage_detached c' = true
     else status = SALTS_CONFIGURATOR_INVALID_STATE /\ c' = stop_failed c) /\
    (forall j i, (j < cx_instance_capacity c)%nat -> so_instances st' !! j = Some i -> stopped_instance j i) /\
    (forall x, x ∈ order <-> (x < cx_deployment_count c)%nat) /\ NoDup order /\
    (forall k x i j d, order !! k = Some x -> so_instances st !! x = Some i ->
       (j < in_dependency_count i)%nat ->
       so_dependencies st !! (in_dependency_offset i + j)%nat = Some d ->
       dp_provider_index d ∈ take k order).
Proof.
  intros Hstate Hvalid order. pose proof (proj1 (plan_valid_iff c st true) Hvalid) as Hp.
  pose proof (po_count _ _ _ Hp) as Hcount. destruct (plan_order c st true Hp) as (Hnd & Hlen & Hin).
  destruct (plan_backed_order c st _ _ (plan_backed_ok c st true Hp) ltac:(done)) as [Hob _].
  unfold salts_configurator_context_stop. rewrite Hstate, Hvalid. cbn [negb orb].
  destruct (unwind_spec c _ st w Hob) as (st' & w' & -> & Hfold & Ht). rewrite Hcount in Hfold, Ht.
  cbn [mbind option_bind]. cbn zeta. rewrite settled_attached; cycle 1.
  { by right. } { exact (po_instances _ _ _ Hp). } { exact (po_arrays _ _ _ Hp). }
  { simpl. rewrite (tc_length _ _ _ Ht). by eapply plan_capacity. }
  cbn [cx_instance_capacity set_cx_counts].
  assert (forall k x i j d, order !! k = Some x -> so_instances st !! x = Some i ->
       (j < in_dependency_count i)%nat ->
       so_dependencies st !! (in_dependency_offset i + j)%nat = Some d ->
       dp_provider_index d ∈ take k order) as Hbefore.
  { intros k x i j d [Hx Hk]%lookup_take_Some Hi Hj Hd. unfold order. rewrite take_take, Nat.min_l by lia.
    by apply (plan_provider_before c st true k x i j d). }
  pose proof (fun j i => stop_instances c st st' j i Hp Ht) as Hins.
  change (cx_instance_capacity (set_cx_counts _ _ c)) with (cx_instance_capacity c).
  destruct (forallb instance_clear _) eqn:Hclear; cbn [negb]; eexists _, _, st', w';
    rewrite Hclear; by split_and!.
Qed.

(** C7: [salts_configurator_context_stop] on a valid active plan always
    returns, and each component is deactivated and released exactly once, in
    the reverse of the activation order, so that a component ends before the
    providers it depends on.  No instance is active afterwards, and each
    reference is empty but for those a callback wrote.  If all are, the stop
    succeeds and detaches the context; if one is not, the stop answers
    [SALTS_CONFIGURATOR_INVALID_STATE] and the context stays attached to its
    arrays, failed, with nothing left to stop. *)
Theorem stop_outcome c st w :
  state_is SALTS_CONFIGURATOR_CONTEXT_ACTIVE c = true ->
  salts_configurator_activation_plan_valid c st true = true ->
  let order := take (cx_deployment_count c) (so_order st) in
  exists status c' st' w',
    salts_configurator_context_stop (Some c) st w = Some (status, Some c', st', w') /\
    foldl (end_instance c) (st, w) (rev order) = (st', w') /\
    (if forallb instance_clear (take (cx_instance_capacity c) (so_instances st'))
     then status = SALTS_CONFIGURATOR_OK /\ cx_state c' = SALTS_CONFIGURATOR_CONTEXT_STOPPED /\
          salts_configurator_storage_detached c' = true
     else status = SALTS_CONFIGURATOR_INVALID_STATE /\ c' = stop_failed c) /\
    (forall j i, (j < cx_instance_capacity c)%nat -> so_instances st' !! j = Some i -> stopped_instance j i) /\
    (forall x, x ∈ order <-> (x < cx_deployment_count c)%nat) /\ NoDup order /\
    (forall k x i j d, order !! k = Some x -> so_instances st !! x = Some i ->
       (j < in_dependency_count i)%nat ->
       so_dependencies st !! (in_dependency_offset i + j)%nat = Some d ->
       dp_provider_index d ∈ take k order).
Proof. apply stop_rule. Qed.

End Lifecycle.
