(* ===== verification/ConfiguratorProtocol.v ===== *)
(** The Configurator as its callers see it: any sequence of public calls on one
    context keeps the invariant of its state, and services are found only in an
    active context.

    What the Configurator leaves alone: a relation that every native callback
    respects is respected by [start] and [stop], which change the world through
    those callbacks only. *)

From S2P Require Import Prelude.
From S2P Require Import CMetaType.
From S2P Require Import CMetaFunction.
From S2P Require Import CMetaInterface.
From S2P Require Import CMetaData.
From S2P Require Import CMetaOperation.
From S2P Require Import CMetaObject.
From S2P Require Import CMetaComponent.
From S2P Require Import Configurator.
From S2P Require Import ConfiguratorPlan.
From S2P Require Import ConfiguratorLifecycle.

(** * Initialisation *)

(** The arrays handed to [init] are as long as the arguments say. *)
Definition arguments_fit (a : init_arguments) (new : storage) : Prop :=
  (ia_instance_capacity a <= length (so_instances new))%nat /\
  (ia_dependency_capacity a <= length (so_dependencies new))%nat /\
  (ia_activation_capacity a <= length (so_order new))%nat /\
  Z.of_nat (ia_dependency_capacity a) <= SIZE_MAX.

Lemma init_deployments_none before rest index count :
  init_deployments before rest index count = None ->
  (count <= length rest)%nat /\
  forallb_prev (fun before d => deployment_ok d && negb (existsb (same_component_id d) before))
    before (take count rest) = true.
Proof.
  revert before rest index. induction count as [|count IH]; intros before rest index.
  - simpl. split; [lia|done].
  - destruct rest as [|d rest]; [done|]. simpl. case_if; [done|]. case_if; [done|].
    intros [Hlen Hrest]%IH. simpl. split; [lia|]. destruct_bools. by rewrite Heqb, Hrest.
Qed.

Lemma init_deployments_error before rest index count status i :
  init_deployments before rest index count = Some (status, i) -> status <> SALTS_CONFIGURATOR_OK.
Proof.
  revert before rest index. induction count as [|count IH]; intros before rest index; [by destruct rest|].
  destruct rest as [|d rest]; simpl; [by intros [= <- <-]|].
  destruct (deployment_ok d) eqn:Hd; simpl.
  - case_if; [by intros [= <- <-]|apply IH].
  - intros [= <- <-]. by apply bool_decide_eq_false in Hd.
Qed.

Lemma init_selections_none c before rest index count :
  init_selections c before rest index count = None ->
  (count <= length rest)%nat /\
  forallb_prev (fun before s => is_null (selection_error c before s)) before (take count rest) = true.
Proof.
  revert before rest index. induction count as [|count IH]; intros before rest index.
  - simpl. split; [lia|done].
  - destruct rest as [|s rest]; [done|]. simpl. destruct (selection_error c before s) eqn:Hs; [done|].
    intros [Hlen Hrest]%IH. simpl. split; [lia|]. by rewrite Hrest.
Qed.

(** A successful [init] leaves a ready context over clear instances. *)
Lemma init_ready c st a new status c' st' :
  arguments_fit a new ->
  salts_configurator_context_init (Some c) st a new = (status, Some c', st') ->
  status = SALTS_CONFIGURATOR_OK ->
  cx_state c' = SALTS_CONFIGURATOR_CONTEXT_READY /\
  salts_configurator_ready_context_valid c' st' = true /\ storage_fits c' st' /\
  Z.of_nat (cx_dependency_capacity c') <= SIZE_MAX.
Proof.
  intros (Hfi & Hfd & Hfo & Hsize) Hinit ->. revert Hinit. unfold salts_configurator_context_init.
  case_if; [done|]. cbn zeta. cbn [cx_rows cx_deployments cx_deployment_count].
  case_if; [done|]. case_if; [done|]. set (c1 := mk_context _ _ _ _ _ _ _ _ _ _ _ _ _ _).
  destruct (init_deployments _ _ _ _) as [[? ?]|] eqn:Hd; 
    [intros [= -> _ _]; by apply init_deployments_error in Hd|].
  destruct (init_selections _ _ _ _ _) as [[? ?]|] eqn:Hs; [done|]. intros [= <- <-].
  apply init_deployments_none in Hd as [Hdlen Hd]. apply init_selections_none in Hs as [Hslen Hs].
  split_and!; [done| |split_and!; simpl; [|done|done]|done].
  2: { rewrite length_app, length_replicate, length_drop. lia. }
  apply orb_false_iff in Heqb1 as [Hicap Hacap].
  repeat match goal with H : _ || _ = false |- _ => apply orb_false_iff in H as [? ?] end.
  assert (forall n ins, (n <= ia_instance_capacity a)%nat ->
            forallb_upto instance_unused
              (drop n (replicate (ia_instance_capacity a) salts_configurator_instance_reset ++ ins))
              (ia_instance_capacity a - n) = true) as Hunused.
  { intros n ins Hn. rewrite drop_app, drop_replicate. apply forallb_upto_true.
    rewrite length_app, length_replicate. split; [lia|]. intros i x Hi.
    rewrite lookup_app_l by (rewrite length_replicate; lia). by intros [-> _]%lookup_replicate. }
  unfold salts_configurator_ready_context_valid, arrays_present, ready_deployments_valid, tail_unused,
    ready_selections_valid.
  cbn [set_cx_state cx_rows cx_selection_rows cx_deployments cx_deployment_count cx_selections
       cx_selection_count cx_instances cx_instance_capacity cx_dependencies cx_dependency_capacity
       cx_dependency_count cx_activation_order cx_activation_capacity cx_activation_count
       so_instances c1] in *.
  pose proof (proj1 (Nat.ltb_ge _ _) Hicap) as Hle.
  repeat match goal with H : _ = false |- _ => rewrite H; clear H end. simpl.
  repeat (apply andb_true_iff; split); [by apply Nat.leb_le| |exact Hd|by apply Hunused
    |by apply Nat.leb_le|exact Hs].
  apply forallb_upto_true. rewrite length_app, length_replicate. split; [lia|].
  intros i x Hi. rewrite lookup_app_l by (rewrite length_replicate; lia).
  by intros [-> _]%lookup_replicate.
Qed.

(** Any other answer of [init] leaves the context detached, or untouched where
    it refused to replace a live one. *)
Lemma init_other c st a new status c' st' :
  salts_configurator_context_init (Some c) st a new = (status, Some c', st') ->
  status <> SALTS_CONFIGURATOR_OK ->
  reusable c st = false /\ status = SALTS_CONFIGURATOR_INVALID_STATE /\ c' = c /\ st' = st \/
  cx_state c' = SALTS_CONFIGURATOR_CONTEXT_FAILED /\
  salts_configurator_storage_detached c' = true.
Proof.
  unfold salts_configurator_context_init. case_if.
  { intros [= <- <- <-] _. destruct_bools. by left. }
  cbn zeta. intros Hinit Hbad. right.
  repeat first
    [ case_if | destruct (init_deployments _ _ _ _) as [[? ?]|]
    | destruct (init_selections _ _ _ _ _) as [[? ?]|] ];
    simpl in Hinit; by simplify_eq.
Qed.

(** * The invariant of a context *)

(** What each state of a context promises about the caller's arrays. *)
Definition configurator_inv (c : salts_configurator_context) (st : storage) : Prop :=
  match cx_state c with
  | SALTS_CONFIGURATOR_CONTEXT_ZERO | SALTS_CONFIGURATOR_CONTEXT_STOPPED =>
      salts_configurator_storage_detached c = true
  | SALTS_CONFIGURATOR_CONTEXT_READY =>
      salts_configurator_ready_context_valid c st = true /\ storage_fits c st /\
      Z.of_nat (cx_dependency_capacity c) <= SIZE_MAX
  | SALTS_CONFIGURATOR_CONTEXT_RESOLVED =>
      salts_configurator_activation_plan_valid c st false = true
  | SALTS_CONFIGURATOR_CONTEXT_ACTIVE =>
      salts_configurator_activation_plan_valid c st true = true
  | SALTS_CONFIGURATOR_CONTEXT_FAILED =>
      cx_activation_count c = 0%nat /\
      (salts_configurator_storage_detached c = true \/
       salts_configurator_instances_settled c st = false)
  end.

Lemma state_is_true state c : state_is state c = true <-> cx_state c = state.
Proof. apply bool_decide_eq_true. Qed.

Lemma detached_activations c :
  salts_configurator_storage_detached c = true -> cx_activation_count c = 0%nat.
Proof. unfold salts_configurator_storage_detached. intros. by destruct_bools. Qed.

(** A context without arrays has no instance to settle. *)
Lemma detached_settled c st :
  salts_configurator_storage_detached c = true -> salts_configurator_instances_settled c st = true.
Proof.
  unfold salts_configurator_instances_settled. intros Hd. rewrite Hd, andb_false_r.
  unfold salts_configurator_storage_detached in Hd. destruct_bools.
  repeat match goal with H : ?f c = 0%nat |- _ => rewrite H; clear H end. simpl. by destruct (so_instances st).
Qed.

(** The context works on arrays of its caller. *)
Definition live (c : salts_configurator_context) : bool :=
  state_is SALTS_CONFIGURATOR_CONTEXT_READY c || state_is SALTS_CONFIGURATOR_CONTEXT_RESOLVED c ||
  state_is SALTS_CONFIGURATOR_CONTEXT_ACTIVE c.

(** A context is initialised again exactly when it holds no arrays. *)
Lemma reusable_iff c st :
  configurator_inv c st -> reusable c st = negb (live c) && salts_configurator_storage_detached c.
Proof.
  unfold configurator_inv, reusable, live, salts_configurator_context_zero_is_clear, state_is.
  destruct (cx_state c) eqn:Hstate; simpl; try done.
  - intros Hd. by rewrite Hd, (detached_activations c Hd).
  - intros [Hact Hset]. rewrite Hact. simpl. destruct (salts_configurator_storage_detached c) eqn:Hd.
    + by rewrite detached_settled.
    + destruct Hset as [?| ->]; done.
  - intros Hd. by rewrite detached_settled, Hd, (detached_activations c Hd) by done.
Qed.

Lemma init_inv c st a new status c' st' :
  configurator_inv c st -> arguments_fit a new ->
  salts_configurator_context_init (Some c) st a new = (status, Some c', st') ->
  configurator_inv c' st'.
Proof.
  intros Hinv Hfit Hinit. destruct (decide (status = SALTS_CONFIGURATOR_OK)) as [->|Hbad].
  - destruct (init_ready c st a new _ c' st' Hfit Hinit eq_refl) as (Hstate & Hv & Hfits & Hsize).
    unfold configurator_inv. by rewrite Hstate.
  - destruct (init_other c st a new status c' st' Hinit Hbad) as [(_ & _ & -> & ->)|[Hstate Hd]]; [done|].
    unfold configurator_inv. rewrite Hstate. split; [by apply detached_activations|by left].
Qed.

Lemma resolve_inv c st r :
  configurator_inv c st -> salts_configurator_context_resolve (Some c) st = Some r ->
  exists status c' st', r = (status, Some c', st') /\ configurator_inv c' st'.
Proof.
  intros Hinv Hr. destruct (state_is SALTS_CONFIGURATOR_CONTEXT_READY c) eqn:Hstate.
  2: { unfold salts_configurator_context_resolve in Hr. rewrite Hstate in Hr. simpl in Hr.
       injection Hr as <-. by eexists _, _, _. }
  pose proof Hinv as Hready. apply state_is_true in Hstate as Hs. unfold configurator_inv in Hready.
  rewrite Hs in Hready. destruct Hready as (Hv & Hfits & Hsize).
  destruct (resolve_rule c st Hstate Hv Hfits Hsize) as (r' & Hr' & status & c' & st' & -> & _ & Hres).
  rewrite Hr in Hr'. injection Hr' as ->. exists status, c', st'. split; [done|].
  unfold configurator_inv. case_bool_decide.
  - destruct Hres as (-> & _ & Hplan & _). done.
  - destruct Hres as (-> & Hd). split; [by apply detached_activations|by left].
Qed.

Section Protocol.
  Context {W : Type} `{OC : ObjectCallbacks W} `{PC : ProviderCallbacks W}.

Lemma start_inv c st w :
  configurator_inv c st ->
  exists status c' st' w', salts_configurator_context_start (Some c) st w =
    Some (status, Some c', st', w') /\ configurator_inv c' st'.
Proof.
  intros Hinv. destruct (state_is SALTS_CONFIGURATOR_CONTEXT_RESOLVED c) eqn:Hstate.
  2: { unfold salts_configurator_context_start. rewrite Hstate. by eexists _, _, _, _. }
  pose proof Hinv as Hplan. apply state_is_true in Hstate as Hs. unfold configurator_inv in Hplan.
  rewrite Hs in Hplan. destruct (start_rule c st w Hstate Hplan) as (status & c' & st' & w' & Hr & Hres).
  exists status, c', st', w'. split; [done|]. unfold configurator_inv. case_bool_decide.
  - by destruct Hres as (-> & _ & Hok).
  - destruct Hres as (_ & []). rewrite sr_state. split; [done|]. destruct sr_detached as [?|[? _]]; auto.
Qed.

Lemma stop_inv c st w :
  configurator_inv c st ->
  exists status c' st' w', salts_configurator_context_stop (Some c) st w =
    Some (status, Some c', st', w') /\ configurator_inv c' st'.
Proof.
  intros Hinv. destruct (state_is SALTS_CONFIGURATOR_CONTEXT_ACTIVE c) eqn:Hstate.
  2: { unfold salts_configurator_context_stop. rewrite Hstate. by eexists _, _, _, _. }
  pose proof Hinv as Hplan. apply state_is_true in Hstate as Hs. unfold configurator_inv in Hplan.
  rewrite Hs in Hplan. destruct (stop_rule c st w Hstate Hplan) as (status & c' & st' & w' & Hr & _ & Hres & _).
  exists status, c', st', w'. split; [exact Hr|]. unfold configurator_inv.
  destruct (forallb instance_clear _) eqn:Hclear.
  - by destruct Hres as (_ & -> & ?).
  - destruct Hres as [Hst ->]. split; [done|right]. by apply unsettled.
Qed.

(** * Sequences of calls *)

(** The public calls on one context. [configurator_run] is whatever the provider
    and other code does to the world between two calls. *)
Inductive configurator_step :
    salts_configurator_context * storage * W -> salts_configurator_context * storage * W -> Prop :=
  | configurator_init c st w a new status c' st' :
      arguments_fit a new ->
      salts_configurator_context_init (Some c) st a new = (status, Some c', st') ->
      configurator_step (c, st, w) (c', st', w)
  | configurator_resolve c st w status c' st' :
      salts_configurator_context_resolve (Some c) st = Some (status, Some c', st') ->
      configurator_step (c, st, w) (c', st', w)
  | configurator_start c st w status c' st' w' :
      salts_configurator_context_start (Some c) st w = Some (status, Some c', st', w') ->
      configurator_step (c, st, w) (c', st', w')
  | configurator_stop c st w status c' st' w' :
      salts_configurator_context_stop (Some c) st w = Some (status, Some c', st', w') ->
      configurator_step (c, st, w) (c', st', w')
  | configurator_run c st w w' :
      configurator_step (c, st, w) (c, st, w').

(** What [SALTS_CONFIGURATOR_CONTEXT_INIT] leads to. *)
Definition configurator_reachable (s : salts_configurator_context * storage * W) : Prop :=
  exists st w, rtc configurator_step (SALTS_CONFIGURATOR_CONTEXT_INIT, st, w) s.

Lemma context_reachable_inv c st w : configurator_reachable (c, st, w) -> configurator_inv c st.
Proof.
  intros (st0 & w0 & Hrtc).
  assert (configurator_inv SALTS_CONFIGURATOR_CONTEXT_INIT st0) as Hinv by done. revert Hinv.
  remember (SALTS_CONFIGURATOR_CONTEXT_INIT, st0, w0) as s0 eqn:H0.
  remember (c, st, w) as s eqn:Hs.
  cut (configurator_inv s0.1.1 s0.1.2 -> configurator_inv s.1.1 s.1.2); [by subst|]. clear H0 Hs.
  induction Hrtc as [s|s1 s2 s3 Hstep _ IH]; [done|]. intros Hinv. apply IH. clear IH.
  destruct Hstep as [c1 st1 w1 a new status c2 st2 Hfit Hr|c1 st1 w1 status c2 st2 Hr
    |c1 st1 w1 status c2 st2 w2 Hr|c1 st1 w1 status c2 st2 w2 Hr|c1 st1 w1 w2]; cbn [fst snd] in *; [| | | |done].
  - by eapply init_inv.
  - destruct (resolve_inv c1 st1 _ Hinv Hr) as (? & ? & ? & ? & ?). by simplify_eq.
  - destruct (start_inv c1 st1 w1 Hinv) as (? & ? & ? & ? & ? & ?). by simplify_eq.
  - destruct (stop_inv c1 st1 w1 Hinv) as (? & ? & ? & ? & ? & ?). by simplify_eq.
Qed.

(** C8: after any sequence of public calls on a zeroed context, the context and
    the arrays satisfy the invariant of its state (a ready context is valid over
    clear instances, a resolved or active one holds a valid plan, and every
    other one is detached from the arrays or keeps an instance that is not
    clear); [resolve], [start] and [stop] never leave the arrays; and a context
    that is in use is never initialised over. *)
Theorem configurator_calls_safe c st w :
  configurator_reachable (c, st, w) ->
  configurator_inv c st /\
  (exists r, salts_configurator_context_resolve (Some c) st = Some r) /\
  (exists r, salts_configurator_context_start (Some c) st w = Some r) /\
  (exists r, salts_configurator_context_stop (Some c) st w = Some r) /\
  (live c = true -> forall a new, salts_configurator_context_init (Some c) st a new =
     (SALTS_CONFIGURATOR_INVALID_STATE, Some c, st)).
Proof.
  intros Hinv%context_reachable_inv. split; [done|]. split_and!.
  - destruct (state_is SALTS_CONFIGURATOR_CONTEXT_READY c) eqn:Hstate.
    + apply state_is_true in Hstate as Hs. unfold configurator_inv in Hinv. rewrite Hs in Hinv.
      destruct Hinv as (Hv & Hf & Hz). destruct (resolve_rule c st Hstate Hv Hf Hz) as (r & Hr & _).
      by exists r.
    + unfold salts_configurator_context_resolve. rewrite Hstate. by eexists.
  - destruct (start_inv c st w Hinv) as (? & ? & ? & ? & Hr & _). by eexists.
  - destruct (stop_inv c st w Hinv) as (? & ? & ? & ? & Hr & _). by eexists.
  - intros Hlive a new. unfold salts_configurator_context_init.
    by rewrite (reusable_iff c st Hinv), Hlive.
Qed.

(** * Services *)

(** The deployment at [p] publishes the interface: its active instance projects
    it and is what the service view points at. *)
Definition serves (c : salts_configurator_context) (st : storage) (p : nat)
    (interface_desc : option cmeta_interface_desc) (w w' : W)
    (service : salts_configurator_service) : Prop :=
  exists i b view, so_instances st !! p = Some i /\ salts_configurator_provider_at c p = Some b /\
    in_active i = true /\ cmeta_object_ref_valid (Some (in_object i)) = true /\
    cmeta_object_interface_project_borrowed (Some (in_object i)) (pb_interfaces b) interface_desc w =
      (CMETA_OK, view, w') /\
    sv_component service = pb_component b /\ sv_interfaces service = pb_interfaces b /\
    sv_object service = (fun a => (a, p)) <$> cx_instances c.

Lemma publish_service_spec c st p interface_desc w status service w' :
  plan_ok c st true -> (p < cx_deployment_count c)%nat ->
  publish_service c st p interface_desc w = (status, service, w') ->
  match service with
  | Some s => status = SALTS_CONFIGURATOR_OK /\ serves c st p interface_desc w w' s
  | None => status = SALTS_CONFIGURATOR_INTERFACE_UNAVAILABLE
  end.
Proof.
  intros Hp Hpn. destruct (plan_instance c st true p Hp) as (i & Hi & Hstate);
    [pose proof (po_instances _ _ _ Hp); lia|].
  rewrite decide_True in Hstate by done. apply andb_true_iff in Hstate as [Hact Hv].
  destruct (provider_at_ok c p (plan_deployments c st true Hp) Hpn) as (_ & b & _ & _ & _ & Hb & _).
  unfold publish_service. rewrite Hi, Hb, Hact. cbn [negb].
  destruct (cmeta_object_interface_project_borrowed _ _ _ w) as [[pstatus view] w1] eqn:Hproj.
  destruct (status_ok pstatus) eqn:Hok; cbn [negb]; intros [= <- <- <-]; [|done].
  apply status_ok_true in Hok as ->. split; [done|]. by exists i, b, view.
Qed.

(** in an active context [salts_configurator_context_find_service] publishes
    a service exactly from the one deployment that provides the interface, as a
    view of its active and valid instance; it reports when no deployment or
    more than one provides it, and otherwise only that the projection failed. *)
Theorem find_service_exact c st interface_desc w status service w' :
  state_is SALTS_CONFIGURATOR_CONTEXT_ACTIVE c = true ->
  salts_configurator_activation_plan_valid c st true = true ->
  cmeta_interface_desc_valid interface_desc = true ->
  salts_configurator_context_find_service (Some c) st interface_desc w = (status, service, w') ->
  let offers p := (p < cx_deployment_count c)%nat /\
                  salts_configurator_provides (component_at c p) interface_desc = true in
  match status, service with
  | SALTS_CONFIGURATOR_OK, Some s =>
      exists p, offers p /\ (forall q, offers q -> q = p) /\ serves c st p interface_desc w w' s
  | SALTS_CONFIGURATOR_INTERFACE_UNAVAILABLE, None =>
      exists p, offers p /\ (forall q, offers q -> q = p)
  | SALTS_CONFIGURATOR_MISSING_PROVIDER, None => (forall q, ~ offers q) /\ w' = w
  | SALTS_CONFIGURATOR_AMBIGUOUS_PROVIDER, None =>
      (exists p q, p <> q /\ offers p /\ offers q) /\ w' = w
  | _, _ => False
  end.
Proof.
  intros Hstate Hp%plan_valid_iff Hv. unfold salts_configurator_context_find_service.
  rewrite Hstate, Hv. cbn [negb]. pose proof (providers_of_cases c interface_desc) as Hcases.
  destruct (providers_of c interface_desc) as [|p [|q l]]; simpl in Hcases.
  - intros [= <- <- <-]. done.
  - destruct Hcases as [Hoff Huniq]. intros Hpub.
    pose proof (publish_service_spec c st p _ _ _ _ _ Hp (proj1 Hoff) Hpub) as Hspec.
    destruct service as [s|]; [destruct Hspec as [-> Hserves]|subst status].
    + by exists p.
    + by exists p.
  - intros [= <- <- <-]. done.
Qed.

End Protocol.

(** The callbacks of objects and providers take a world to an [R]-related one. *)
Class WorldFrame {W : Type} `{ObjectCallbacks W} `{ProviderCallbacks W} (R : W -> W -> Prop) := {
  wf_preorder :: PreOrder R;
  wf_release f context object w : R w (cb_release f context object w);
  wf_destroy f context object w : R w (cb_destroy f context object w);
  wf_project f context object desc w : R w (cb_project f context object desc w).2;
  wf_create f context data value dependencies instances w :
    R w (pc_create f context data value dependencies instances w).2;
  wf_activate f context object w : R w (pc_activate f context object w).2;
  wf_deactivate f context object w : R w (pc_deactivate f context object w);
}.

Section Frame.
  Context {W : Type} `{WorldFrame W R}.

Lemma release_object_frame object w : R w (release_object object w).
Proof.
  unfold release_object, cmeta_object_release. simpl.
  destruct (or_lifecycle object) as [l|]; [|reflexivity].
  destruct (or_object object); [|reflexivity].
  destruct (or_lifetime object); try reflexivity.
  - destruct (lc_release l); [apply wf_release|reflexivity].
  - destruct (lc_release l), (lc_destroy l); (apply wf_destroy || reflexivity).
Qed.

Lemma project_frame object provider expected w :
  R w (cmeta_object_interface_project_borrowed object provider expected w).2.
Proof.
  unfold cmeta_object_interface_project_borrowed. case_match; [reflexivity|]. case_match; [reflexivity|].
  destruct object as [o|]; [|reflexivity]. destruct provider as [p|]; [|reflexivity].
  destruct expected as [e|]; [|reflexivity]. destruct (ip_project p) as [f|]; [|reflexivity].
  pose proof (wf_project f (ip_context p) o e w) as Hp.
  destruct (cb_project f (ip_context p) o e w) as [[status candidate] w']. simpl in Hp.
  by repeat case_match.
Qed.

Lemma deactivate_instance_frame b x st w st' w' :
  deactivate_instance b x st w = Some (st', w') -> R w w'.
Proof.
  unfold deactivate_instance. destruct (so_instances st !! x) as [i|]; [|done]. simpl.
  destruct (pb_deactivate b); intros [= _ <-]; [apply wf_deactivate|reflexivity].
Qed.

Lemma release_instance_frame x st w st' w' : release_instance x st w = Some (st', w') -> R w w'.
Proof.
  unfold release_instance. destruct (so_instances st !! x) as [i|]; [|done]. simpl.
  destruct (update_instance _ _ _); [|done]. simpl. intros [= _ <-]. apply release_object_frame.
Qed.

Lemma end_component_frame c x st w st' w' : end_component c x st w = Some (st', w') -> R w w'.
Proof.
  unfold end_component. destruct (so_instances st !! x) as [i|]; [|done]. simpl.
  destruct (in_active i); simpl; [|by intros [= _ ->]].
  destruct (salts_configurator_provider_at c x) as [b|]; [|done]. simpl.
  destruct (deactivate_instance b x st w) as [[st1 w1]|] eqn:Hd; [|done]. simpl.
  destruct (update_instance _ _ st1); [|done]. simpl. intros Hr%release_instance_frame.
  apply deactivate_instance_frame in Hd. by etrans.
Qed.

Lemma unwind_frame c count st w st' w' : unwind c count st w = Some (st', w') -> R w w'.
Proof.
  revert st w. induction count as [|count IH]; intros st w; simpl; [by intros [= _ ->]|].
  destruct (so_order st !! count) as [component|]; [|done]. simpl.
  destruct (end_component c component st w) as [[st1 w1]|] eqn:He; [|done]. simpl.
  intros Hr%IH. apply end_component_frame in He. by etrans.
Qed.

Lemma preflight_frame b instance rows w : R w (preflight_rows b instance rows w).2.
Proof.
  revert w. induction rows as [|row rows IH]; intros w; simpl; [reflexivity|].
  case_match; [apply IH|].
  pose proof (project_frame (Some instance) (pb_interfaces b) (cc_interface_desc row) w) as Hp.
  destruct (cmeta_object_interface_project_borrowed _ _ _ _) as [[status view] w']. simpl in *.
  case_match; [done|]. by etrans; [|apply IH].
Qed.

Lemma project_dependencies_frame c st dependencies index w :
  R w (project_dependencies c st dependencies index w).2.
Proof.
  revert index w. induction dependencies as [|d rest IH]; intros index w; simpl; [reflexivity|].
  pose proof (project_frame (dependency_object c st d) (dp_provider_interfaces d) (dp_interface_desc d) w)
    as Hp.
  destruct (cmeta_object_interface_project_borrowed _ _ _ _) as [[status view] w']. simpl in *.
  case_match; [done|]. by etrans; [|apply IH].
Qed.

Lemma build_instance_frame b deployment dependencies x st w error st' w' :
  build_instance b deployment dependencies x st w = Some (error, st', w') -> R w w'.
Proof.
  unfold build_instance. destruct (pb_create b) as [create|]; [|done]. cbn [mbind option_bind].
  pose proof (wf_create create (pb_provider_context b) (dy_config_data deployment)
    (dy_config_value deployment) dependencies (so_instances st) w) as Hc.
  destruct (pc_create _ _ _ _ _ _ _) as [[status o] w1]. simpl in Hc.
  destruct (update_instance _ _ st) as [st0|]; [|done]. cbn [mbind option_bind].
  destruct (status_ok status); cbn [negb].
  2: { destruct (cmeta_object_ref_valid (Some o)); [|by intros [= _ _ <-]].
       destruct (release_instance _ _ _) as [[st1 w2]|] eqn:Hr; [|done]. intros [= _ _ <-].
       apply release_instance_frame in Hr. by etrans. }
  destruct (cmeta_object_ref_valid (Some o)); cbn [negb]; [|by intros [= _ _ <-]].
  set (activated := match pb_activate b with Some activate => _ | None => _ end).
  assert (R w activated.2) as Ha.
  { unfold activated. destruct (pb_activate b) as [f|]; [|done].
    etrans; [exact Hc|apply wf_activate]. }
  destruct activated as [status1 w2]. simpl in Ha.
  destruct (status_ok status1); cbn [negb].
  2: { destruct (release_instance _ _ _) as [[st1 w3]|] eqn:Hr; [|done]. intros [= _ _ <-].
       apply release_instance_frame in Hr. by etrans. }
  assert (R w2 (salts_configurator_preflight_provides b o w2).2) as Hp by apply preflight_frame.
  destruct (salts_configurator_preflight_provides b o w2) as [status2 w3]. simpl in Hp.
  assert (R w w3) by (by etrans).
  destruct (status_ok status2); cbn [negb]; [by intros [= _ _ <-]|].
  destruct (deactivate_instance _ _ _ _) as [[st1 w4]|] eqn:Hd; [|done]. cbn [mbind option_bind].
  destruct (release_instance _ _ _) as [[st2 w5]|] eqn:Hr; [|done]. intros [= _ _ <-].
  apply deactivate_instance_frame in Hd. apply release_instance_frame in Hr. by repeat (etrans; [done|]).
Qed.

Lemma start_component_frame c component st w error st' w' :
  start_component c component st w = Some (error, st', w') -> R w w'.
Proof.
  unfold start_component. destruct (so_instances st !! component) as [i|]; [|done]. simpl.
  destruct (salts_configurator_provider_at c component) as [b|]; [|done]. simpl.
  destruct (cx_rows c !! component) as [d|]; [|done]. simpl.
  pose proof (project_dependencies_frame c st (take (in_dependency_count i)
    (drop (in_dependency_offset i) (so_dependencies st))) (in_dependency_offset i) w) as Hp.
  destruct (project_dependencies _ _ _ _ _) as [[[status index]|] w1]; simpl in Hp.
  { by intros [= _ _ <-]. }
  destruct (update_instance _ _ st) as [st0|]; [|done]. simpl.
  destruct (build_instance _ _ _ _ _ _) as [[[e st1] w2]|] eqn:Hb; [|done]. simpl.
  apply build_instance_frame in Hb.
  destruct (if is_null e then _ else _); [|done]. simpl. intros [= _ _ <-]. by etrans.
Qed.

Lemma start_loop_frame c index remaining st w status c' st' w' :
  start_loop c index remaining st w = Some (status, c', st', w') -> R w w'.
Proof.
  revert index st w. induction remaining as [|remaining IH]; intros index st w; simpl.
  { by intros [= _ _ _ ->]. }
  destruct (so_order st !! index) as [component|]; [|done]. simpl.
  destruct (start_component c component st w) as [[[error st1] w1]|] eqn:Hs; [|done]. simpl.
  apply start_component_frame in Hs. destruct error as [e|].
  2: { intros Hl%IH. by etrans. }
  unfold salts_configurator_rollback. destruct (unwind c index st1 w1) as [[st2 w2]|] eqn:Hu; [|done].
  apply unwind_frame in Hu. simpl. intros [= _ _ _ <-]. by etrans.
Qed.

Lemma start_frame c st w status c' st' w' :
  salts_configurator_context_start c st w = Some (status, c', st', w') -> R w w'.
Proof.
  unfold salts_configurator_context_start. destruct c as [c|]; [|by intros [= _ _ _ ->]].
  case_match; [by intros [= _ _ _ ->]|].
  destruct (start_loop _ _ _ _ _) as [[[[s c1] st1] w1]|] eqn:Hl; [|done]. simpl.
  intros [= _ _ _ <-]. by eapply start_loop_frame.
Qed.

Lemma stop_frame c st w status c' st' w' :
  salts_configurator_context_stop c st w = Some (status, c', st', w') -> R w w'.
Proof.
  unfold salts_configurator_context_stop. destruct c as [c|]; [|by intros [= _ _ _ ->]].
  case_match; [by intros [= _ _ _ ->]|].
  destruct (unwind _ _ _ _) as [[st1 w1]|] eqn:Hu; [|done]. simpl. apply unwind_frame in Hu.
  case_match; by intros [= _ _ _ <-].
Qed.

Lemma publish_frame c st candidate interface_desc w :
  R w (publish_service c st candidate interface_desc w).2.
Proof.
  unfold publish_service. destruct (so_instances st !! candidate) as [i|]; [|reflexivity].
  destruct (salts_configurator_provider_at c candidate) as [b|]; [|reflexivity].
  case_match; [reflexivity|].
  pose proof (project_frame (Some (in_object i)) (pb_interfaces b) interface_desc w) as Hp.
  destruct (cmeta_object_interface_project_borrowed _ _ _ _) as [[status view] w']. by case_match.
Qed.

Lemma find_service_frame c st interface_desc w :
  R w (salts_configurator_context_find_service c st interface_desc w).2.
Proof.
  unfold salts_configurator_context_find_service. destruct c as [c|]; [|reflexivity].
  case_match; [reflexivity|]. case_match; [reflexivity|].
  destruct (providers_of c interface_desc) as [|? []]; [reflexivity|apply publish_frame|reflexivity].
Qed.

Lemma find_service_from_frame c st provider interface_desc w :
  R w (salts_configurator_context_find_service_from c st provider interface_desc w).2.
Proof.
  unfold salts_configurator_context_find_service_from. destruct c as [c|]; [|reflexivity].
  case_match; [reflexivity|]. case_match; [reflexivity|].
  destruct (salts_configurator_find_id c provider); [|reflexivity].
  case_match; [reflexivity|apply publish_frame].
Qed.

End Frame.
