(* ===== verification/PluginManifest.v ===== *)
(** Plugin manifests (plugin/include/salts/plugin.h, plugin/src/plugin.c): the
    bounded string scans, validation of an export row and of a whole manifest,
    lookup by export id and the admission of a row against a contract. *)

From S2P Require Import Prelude CMetaType CMetaFunction CMetaInterface.

Definition CMETA_PLUGIN_ABI_VERSION : Z := 5.
Definition CMETA_PLUGIN_MAX_EXPORTS : nat := 256.
Definition CMETA_PLUGIN_ID_MAX : nat := 255.
Definition CMETA_PLUGIN_EXPORT_ID_MAX : nat := 255.
Definition CMETA_PLUGIN_CONTRACT_ID_MAX : nat := 255.

(** LP64 sizes of the two published structures. *)
Definition CMETA_PLUGIN_EXPORT_SIZE : Z := 72.
Definition CMETA_PLUGIN_MANIFEST_SIZE : Z := 88.

Inductive cmeta_plugin_status :=
  | CMETA_PLUGIN_OK
  | CMETA_PLUGIN_INVALID_ARGUMENT
  | CMETA_PLUGIN_INVALID_MANIFEST
  | CMETA_PLUGIN_UNSUPPORTED_ABI
  | CMETA_PLUGIN_DUPLICATE_PLUGIN_ID
  | CMETA_PLUGIN_DUPLICATE_EXPORT
  | CMETA_PLUGIN_UNKNOWN_EXPORT
  | CMETA_PLUGIN_INCOMPATIBLE_CONTRACT
  | CMETA_PLUGIN_CAPACITY_EXCEEDED
  | CMETA_PLUGIN_ALLOCATION_FAILED
  | CMETA_PLUGIN_LOAD_FAILED
  | CMETA_PLUGIN_QUERY_MISSING
  | CMETA_PLUGIN_QUERY_REJECTED
  | CMETA_PLUGIN_UNKNOWN_PLUGIN
  | CMETA_PLUGIN_STALE
  | CMETA_PLUGIN_UNLOAD_FAILED
  | CMETA_PLUGIN_ALREADY
  | CMETA_PLUGIN_BUSY
  | CMETA_PLUGIN_INVALID_STATE
  | CMETA_PLUGIN_STATUS_OTHER (value : Z).

#[export] Instance cmeta_plugin_status_eq_dec : EqDecision cmeta_plugin_status.
Proof. solve_decision. Defined.

Inductive cmeta_plugin_export_kind :=
  | CMETA_PLUGIN_EXPORT_INTERFACE
  | CMETA_PLUGIN_EXPORT_FUNCTION
  | CMETA_PLUGIN_EXPORT_OTHER (value : Z).

#[export] Instance cmeta_plugin_export_kind_eq_dec : EqDecision cmeta_plugin_export_kind.
Proof. solve_decision. Defined.

Record cmeta_plugin_version := mk_plugin_version {
  pv_major : Z;
  pv_minor : Z;
  pv_patch : Z;
}.

Record cmeta_plugin_interface_export := mk_interface_export {
  ie_desc : option cmeta_interface_desc;
  ie_value : option addr;
}.

Record cmeta_plugin_function_export := mk_function_export {
  fe_desc : option cmeta_function_desc;
  fe_abi : option cmeta_function_abi_desc;
  fe_context : option addr;
  fe_invoke : option addr;
}.

(** The union: what the same bytes read as through either member. *)
Record cmeta_plugin_export_value := mk_export_value {
  ev_interface : cmeta_plugin_interface_export;
  ev_function : cmeta_plugin_function_export;
}.

Record cmeta_plugin_export := mk_export {
  ex_struct_size : Z;
  ex_kind : cmeta_plugin_export_kind;
  ex_contract_version : Z;
  ex_capabilities : Z;
  ex_export_id : cstr;
  ex_contract_id : cstr;
  ex_value : cmeta_plugin_export_value;
}.

(** Callbacks and [self] are addresses in the plugin's image. *)
Record cmeta_plugin_manifest := mk_manifest {
  pm_struct_size : Z;
  pm_abi_version : Z;
  pm_plugin_id : cstr;
  pm_version : cmeta_plugin_version;
  pm_exports : option (list cmeta_plugin_export);
  pm_export_count : nat;
  pm_self : option addr;
  pm_start : option addr;
  pm_request_stop : option addr;
  pm_is_quiescent : option addr;
  pm_destroy : option addr;
}.

Definition pm_rows (m : cmeta_plugin_manifest) : list cmeta_plugin_export :=
  default [] (pm_exports m).

(** * Bounded strings *)

(** [for (; index <= max_bytes; ++index)], [left] rounds before the bound. *)
Fixpoint bounded_valid_loop (value : string) (index left : nat) : bool :=
  match left with
  | O => false
  | S left' =>
      if char_eqb (char_at value index) NUL then negb (index =? 0)%nat
      else bounded_valid_loop value (S index) left'
  end.

Definition bounded_string_valid (value : cstr) (max_bytes : nat) : bool :=
  match value with
  | None => false
  | Some v => if (max_bytes =? 0)%nat then false else bounded_valid_loop v 0 (S max_bytes)
  end.

Fixpoint bounded_equal_loop (left right : string) (index remaining : nat) : bool :=
  match remaining with
  | O => false
  | S n =>
      if negb (char_eqb (char_at left index) (char_at right index)) then false
      else if char_eqb (char_at left index) NUL then negb (index =? 0)%nat
      else bounded_equal_loop left right (S index) n
  end.

Definition bounded_string_equal (left right : cstr) (max_bytes : nat) : bool :=
  match left, right with
  | Some l, Some r =>
      if (max_bytes =? 0)%nat then false else bounded_equal_loop l r 0 (S max_bytes)
  | _, _ => false
  end.

(** * Export rows *)

Definition function_abi_complete (abi : option cmeta_function_abi_desc) : bool :=
  match abi with
  | None => false
  | Some a =>
      if negb (cmeta_function_abi_desc_valid abi) ||
         bool_decide (ad_return_carrier a = CMETA_ABI_UNSPECIFIED) then false
      else forallb_upto (fun c => negb (bool_decide (c = CMETA_ABI_UNSPECIFIED)))
             (abi_rows a) (ad_param_count a)
  end.

Definition validate_export (entry : option cmeta_plugin_export) : cmeta_plugin_status :=
  match entry with
  | None => CMETA_PLUGIN_INVALID_MANIFEST
  | Some e =>
      if negb (ex_struct_size e =? CMETA_PLUGIN_EXPORT_SIZE) then CMETA_PLUGIN_INVALID_MANIFEST
      else if negb (bounded_string_valid (ex_export_id e) CMETA_PLUGIN_EXPORT_ID_MAX) ||
              negb (bounded_string_valid (ex_contract_id e) CMETA_PLUGIN_CONTRACT_ID_MAX) ||
              (ex_contract_version e =? 0) then CMETA_PLUGIN_INVALID_MANIFEST
      else
        match ex_kind e with
        | CMETA_PLUGIN_EXPORT_INTERFACE =>
            if is_null (ie_value (ev_interface (ex_value e))) ||
               negb (cmeta_interface_desc_valid (ie_desc (ev_interface (ex_value e))))
            then CMETA_PLUGIN_INVALID_MANIFEST else CMETA_PLUGIN_OK
        | CMETA_PLUGIN_EXPORT_FUNCTION =>
            let f := ev_function (ex_value e) in
            if negb (cmeta_function_desc_valid (fe_desc f)) ||
               negb (function_abi_complete (fe_abi f)) ||
               negb (bool_decide (function_ptr (fe_abi f ≫= ad_function) =
                                  function_ptr (fe_desc f))) ||
               is_null (fe_invoke f)
            then CMETA_PLUGIN_INVALID_MANIFEST else CMETA_PLUGIN_OK
        | CMETA_PLUGIN_EXPORT_OTHER _ => CMETA_PLUGIN_INVALID_MANIFEST
        end
  end.

Definition cmeta_plugin_export_has_capabilities (entry : option cmeta_plugin_export)
    (required : Z) : bool :=
  match entry with
  | None => false
  | Some e => Z.land (ex_capabilities e) required =? required
  end.

Definition contract_key_equal (entry : option cmeta_plugin_export) (contract_id : cstr)
    (contract_version : Z) : bool :=
  match entry with
  | None => false
  | Some e =>
      negb (contract_version =? 0) &&
      bounded_string_valid contract_id CMETA_PLUGIN_CONTRACT_ID_MAX &&
      (ex_contract_version e =? contract_version) &&
      bounded_string_equal (ex_contract_id e) contract_id CMETA_PLUGIN_CONTRACT_ID_MAX
  end.

(** [if (status != CMETA_PLUGIN_OK) return status;] *)
Definition plugin_ok_then (status next : cmeta_plugin_status) : cmeta_plugin_status :=
  if bool_decide (status = CMETA_PLUGIN_OK) then next else status.

Definition cmeta_plugin_export_require_interface (entry : option cmeta_plugin_export)
    (contract_id : cstr) (contract_version required_capabilities : Z)
    (expected_interface : option cmeta_interface_desc) : cmeta_plugin_status :=
  plugin_ok_then (validate_export entry)
    match entry with
    | None => CMETA_PLUGIN_INVALID_MANIFEST
    | Some e =>
        if (contract_version =? 0) ||
           negb (bounded_string_valid contract_id CMETA_PLUGIN_CONTRACT_ID_MAX) ||
           negb (cmeta_interface_desc_valid expected_interface)
        then CMETA_PLUGIN_INVALID_ARGUMENT
        else if negb (bool_decide (ex_kind e = CMETA_PLUGIN_EXPORT_INTERFACE)) ||
                negb (contract_key_equal entry contract_id contract_version) ||
                negb (cmeta_plugin_export_has_capabilities entry required_capabilities) ||
                negb (cmeta_interface_desc_equal (ie_desc (ev_interface (ex_value e)))
                        expected_interface)
        then CMETA_PLUGIN_INCOMPATIBLE_CONTRACT
        else CMETA_PLUGIN_OK
    end.

Definition cmeta_plugin_export_require_function (entry : option cmeta_plugin_export)
    (contract_id : cstr) (contract_version required_capabilities : Z) : cmeta_plugin_status :=
  plugin_ok_then (validate_export entry)
    match entry with
    | None => CMETA_PLUGIN_INVALID_MANIFEST
    | Some e =>
        if (contract_version =? 0) ||
           negb (bounded_string_valid contract_id CMETA_PLUGIN_CONTRACT_ID_MAX)
        then CMETA_PLUGIN_INVALID_ARGUMENT
        else if negb (bool_decide (ex_kind e = CMETA_PLUGIN_EXPORT_FUNCTION)) ||
                negb (contract_key_equal entry contract_id contract_version) ||
                negb (cmeta_plugin_export_has_capabilities entry required_capabilities)
        then CMETA_PLUGIN_INCOMPATIBLE_CONTRACT
        else CMETA_PLUGIN_OK
    end.

(** * Manifests *)

Definition same_export_id (a b : cmeta_plugin_export) : bool :=
  bounded_string_equal (ex_export_id a) (ex_export_id b) CMETA_PLUGIN_EXPORT_ID_MAX.

(** The loop over the rows; [before] are the rows already visited.  A count
    past the end of the array is undefined in C and answers
    [CMETA_PLUGIN_INVALID_MANIFEST] here. *)
Fixpoint validate_exports (before rest : list cmeta_plugin_export) (count : nat)
    : cmeta_plugin_status :=
  match count, rest with
  | O, _ => CMETA_PLUGIN_OK
  | S _, [] => CMETA_PLUGIN_INVALID_MANIFEST
  | S n, e :: rest' =>
      plugin_ok_then (validate_export (Some e))
        (if existsb (same_export_id e) before then CMETA_PLUGIN_DUPLICATE_EXPORT
         else validate_exports (before ++ [e]) rest' n)
  end.

Definition has_lifecycle (m : cmeta_plugin_manifest) : bool :=
  negb (is_null (pm_start m)) || negb (is_null (pm_request_stop m)) ||
  negb (is_null (pm_is_quiescent m)) || negb (is_null (pm_destroy m)).

Definition cmeta_plugin_manifest_validate (manifest : option cmeta_plugin_manifest)
    : cmeta_plugin_status :=
  match manifest with
  | None => CMETA_PLUGIN_INVALID_ARGUMENT
  | Some m =>
      if negb (pm_struct_size m =? CMETA_PLUGIN_MANIFEST_SIZE)
      then CMETA_PLUGIN_INVALID_MANIFEST
      else if negb (pm_abi_version m =? CMETA_PLUGIN_ABI_VERSION)
      then CMETA_PLUGIN_UNSUPPORTED_ABI
      else if negb (bounded_string_valid (pm_plugin_id m) CMETA_PLUGIN_ID_MAX)
      then CMETA_PLUGIN_INVALID_MANIFEST
      else if (CMETA_PLUGIN_MAX_EXPORTS <? pm_export_count m)%nat
      then CMETA_PLUGIN_CAPACITY_EXCEEDED
      else if negb (pm_export_count m =? 0)%nat && is_null (pm_exports m)
      then CMETA_PLUGIN_INVALID_MANIFEST
      else if has_lifecycle m then
        if is_null (pm_self m) || is_null (pm_start m) || is_null (pm_request_stop m) ||
           is_null (pm_is_quiescent m) || is_null (pm_destroy m)
        then CMETA_PLUGIN_INVALID_MANIFEST
        else validate_exports [] (pm_rows m) (pm_export_count m)
      else if negb (is_null (pm_self m)) then CMETA_PLUGIN_INVALID_MANIFEST
      else validate_exports [] (pm_rows m) (pm_export_count m)
  end.

(** [*out_export] is the row's index in [manifest->exports]. *)
Definition cmeta_plugin_manifest_find_export (manifest : option cmeta_plugin_manifest)
    (export_id : cstr) : cmeta_plugin_status * option nat :=
  if negb (bounded_string_valid export_id CMETA_PLUGIN_EXPORT_ID_MAX)
  then (CMETA_PLUGIN_INVALID_ARGUMENT, None)
  else
    match cmeta_plugin_manifest_validate manifest, manifest with
    | CMETA_PLUGIN_OK, Some m =>
        match find_below (pm_export_count m)
                (fun i => match pm_rows m !! i with
                          | Some e => bounded_string_equal (ex_export_id e) export_id
                                        CMETA_PLUGIN_EXPORT_ID_MAX
                          | None => false
                          end) with
        | Some i => (CMETA_PLUGIN_OK, Some i)
        | None => (CMETA_PLUGIN_UNKNOWN_EXPORT, None)
        end
    | status, _ => (status, None)
    end.

Definition cmeta_plugin_status_string (status : cmeta_plugin_status) : string :=
  match status with
  | CMETA_PLUGIN_OK => "ok"
  | CMETA_PLUGIN_INVALID_ARGUMENT => "invalid_argument"
  | CMETA_PLUGIN_INVALID_MANIFEST => "invalid_manifest"
  | CMETA_PLUGIN_UNSUPPORTED_ABI => "unsupported_abi"
  | CMETA_PLUGIN_DUPLICATE_PLUGIN_ID => "duplicate_plugin_id"
  | CMETA_PLUGIN_DUPLICATE_EXPORT => "duplicate_export"
  | CMETA_PLUGIN_UNKNOWN_EXPORT => "unknown_export"
  | CMETA_PLUGIN_INCOMPATIBLE_CONTRACT => "incompatible_contract"
  | CMETA_PLUGIN_CAPACITY_EXCEEDED => "capacity_exceeded"
  | CMETA_PLUGIN_ALLOCATION_FAILED => "allocation_failed"
  | CMETA_PLUGIN_LOAD_FAILED => "load_failed"
  | CMETA_PLUGIN_QUERY_MISSING => "query_missing"
  | CMETA_PLUGIN_QUERY_REJECTED => "query_rejected"
  | CMETA_PLUGIN_UNKNOWN_PLUGIN => "unknown_plugin"
  | CMETA_PLUGIN_STALE => "stale"
  | CMETA_PLUGIN_UNLOAD_FAILED => "unload_failed"
  | CMETA_PLUGIN_ALREADY => "already"
  | CMETA_PLUGIN_BUSY => "busy"
  | CMETA_PLUGIN_INVALID_STATE => "invalid_state"
  | CMETA_PLUGIN_STATUS_OTHER _ => "unknown"
  end.

(** * Bounded strings against C text *)

Abbreviation text_length s := (String.length (c_text s)).

(** The terminator stands right after the text. *)
Lemma char_at_text s j :
  (j < text_length s)%nat -> char_at s j <> NUL /\ String.get j (c_text s) = Some (char_at s j).
Proof.
  revert j. induction s as [|c s IH]; intros j; simpl; [lia|].
  destruct (char_eqb c NUL) eqn:Hc; simpl; [lia|].
  destruct j as [|j]; simpl; intros Hj.
  - unfold char_at; simpl. split; [|done]. intros ->. by rewrite char_eqb_refl in Hc.
  - apply IH. lia.
Qed.

Lemma char_at_terminator s : char_at s (text_length s) = NUL.
Proof.
  induction s as [|c s IH]; simpl; [done|].
  destruct (char_eqb c NUL) eqn:Hc; simpl; [by apply char_eqb_true in Hc|done].
Qed.

(** [n] is where a left-to-right scan of [s] meets the terminator. *)
Definition first_nul (s : string) (n : nat) : Prop :=
  char_at s n = NUL /\ forall j, (j < n)%nat -> char_at s j <> NUL.

Lemma first_nul_text s n : first_nul s n <-> n = text_length s.
Proof.
  split.
  - intros [Hn Hbefore]. destruct (lt_eq_lt_dec n (text_length s)) as [[Hlt|]|Hgt]; [|done|].
    + by destruct (char_at_text s n Hlt).
    + by destruct (Hbefore _ Hgt (char_at_terminator s)).
  - intros ->. split; [apply char_at_terminator|]. intros j Hj. by apply char_at_text.
Qed.

Lemma c_text_eq_chars l r :
  c_text l = c_text r <->
  text_length l = text_length r /\ forall j, (j < text_length l)%nat -> char_at l j = char_at r j.
Proof.
  split.
  - intros Heq. split; [by rewrite Heq|]. intros j Hj.
    destruct (char_at_text l j Hj) as [_ Hl]. rewrite Heq in Hj.
    destruct (char_at_text r j Hj) as [_ Hr]. rewrite Heq in Hl. congruence.
  - revert r. induction l as [|c l IH]; intros [|d r]; simpl; [done| | |].
    + by destruct (char_eqb d NUL); intros [? _].
    + by destruct (char_eqb c NUL); intros [? _].
    + destruct (char_eqb c NUL), (char_eqb d NUL); simpl; intros [Hlen Hch]; try done.
      assert (c = d) as -> by (apply (Hch 0%nat); lia).
      f_equal. apply IH. split; [lia|]. intros j Hj. apply (Hch (S j)). lia.
Qed.

Lemma bounded_valid_loop_true v i n :
  bounded_valid_loop v i n = true <->
  exists k, (i <= k < i + n)%nat /\ k <> 0%nat /\ char_at v k = NUL /\
    forall j, (i <= j < k)%nat -> char_at v j <> NUL.
Proof.
  revert i. induction n as [|n IH]; intros i; simpl.
  - split; [done|]. intros (k & ? & _); lia.
  - destruct (char_eqb (char_at v i) NUL) eqn:Hi.
    + apply char_eqb_true in Hi. rewrite negb_true_iff, Nat.eqb_neq. split.
      * intros Hne. exists i. split_and!; [lia|lia|done|done|]. intros; lia.
      * intros (k & Hk & Hne & _ & Hbefore). destruct (decide (k = i)) as [->|]; [done|].
        destruct (Hbefore i); [lia|done].
    + assert (char_at v i <> NUL) as Hne by (intros He; rewrite He, char_eqb_refl in Hi; done).
      rewrite IH. split; intros (k & Hk & Hk0 & Hnul & Hbefore); exists k.
      * split_and!; [lia|lia|done|done|]. intros j Hj.
        destruct (decide (j = i)) as [->|]; [done|]. apply Hbefore; lia.
      * assert (k <> i) by congruence. split_and!; [lia|lia|done|done|].
        intros j Hj. apply Hbefore; lia.
Qed.

Lemma bounded_string_valid_text v max :
  bounded_string_valid (Some v) max = true <-> (0 < text_length v <= max)%nat.
Proof.
  simpl. destruct (Nat.eqb_spec max 0) as [->|Hmax]; [split; [done|lia]|].
  change (bounded_valid_loop v 0 (S max) = true <-> (0 < text_length v <= max)%nat).
  rewrite bounded_valid_loop_true. split.
  - intros (k & Hk & Hk0 & Hnul & Hbefore).
    assert (first_nul v k) as ->%first_nul_text by (split; [done|]; intros; apply Hbefore; lia).
    lia.
  - intros Hlen. exists (text_length v).
    destruct (proj2 (first_nul_text v _) eq_refl) as [Hnul Hbefore].
    split_and!; [lia|lia|lia|done|]. intros j Hj. apply Hbefore. lia.
Qed.

Lemma bounded_equal_loop_true l r i n :
  bounded_equal_loop l r i n = true <->
  exists k, (i <= k < i + n)%nat /\ k <> 0%nat /\ char_at l k = NUL /\ char_at r k = NUL /\
    forall j, (i <= j < k)%nat -> char_at l j <> NUL /\ char_at l j = char_at r j.
Proof.
  revert i. induction n as [|n IH]; intros i; simpl.
  - split; [done|]. intros (k & ? & _); lia.
  - destruct (char_eqb (char_at l i) (char_at r i)) eqn:Hlr; simpl.
    2: { split; [done|]. intros (k & Hk & _ & Hl & Hr & Hbefore).
         destruct (decide (k = i)) as [->|].
         - by rewrite Hl, Hr in Hlr.
         - destruct (Hbefore i) as [_ He]; [lia|]. by rewrite He, char_eqb_refl in Hlr. }
    apply char_eqb_true in Hlr. destruct (char_eqb (char_at l i) NUL) eqn:Hi.
    + apply char_eqb_true in Hi. rewrite negb_true_iff, Nat.eqb_neq. split.
      * intros Hne. exists i. split_and!; [lia|lia|done|done|congruence|]. intros; lia.
      * intros (k & Hk & Hne & _ & _ & Hbefore). destruct (decide (k = i)) as [->|]; [done|].
        destruct (Hbefore i); [lia|done].
    + assert (char_at l i <> NUL) as Hne by (intros He; rewrite He, char_eqb_refl in Hi; done).
      rewrite IH. split; intros (k & Hk & Hk0 & Hnul & Hnul' & Hbefore); exists k.
      * split_and!; [lia|lia|done|done|done|]. intros j Hj.
        destruct (decide (j = i)) as [->|]; [done|]. apply Hbefore; lia.
      * assert (k <> i) by congruence. split_and!; [lia|lia|done|done|done|].
        intros j Hj. apply Hbefore; lia.
Qed.

Lemma bounded_string_equal_text l r max :
  bounded_string_equal (Some l) (Some r) max = true <->
  c_text l = c_text r /\ (0 < text_length l <= max)%nat.
Proof.
  simpl. destruct (Nat.eqb_spec max 0) as [->|Hmax]; [split; [done|lia]|].
  change (bounded_equal_loop l r 0 (S max) = true <->
          c_text l = c_text r /\ (0 < text_length l <= max)%nat).
  rewrite bounded_equal_loop_true, c_text_eq_chars. split.
  - intros (k & Hk & Hk0 & Hl & Hr & Hbefore).
    assert (first_nul l k) as Hkl%first_nul_text
      by (split; [done|]; intros; apply Hbefore; lia).
    assert (first_nul r k) as Hkr%first_nul_text
      by (split; [done|]; intros j Hj; destruct (Hbefore j) as [? <-]; [lia|done]).
    rewrite <- Hkl, <- Hkr. split_and!; [done| |lia|lia].
    intros j Hj. apply Hbefore. lia.
  - intros ((Hlen & Hch) & Hb). exists (text_length l).
    destruct (proj2 (first_nul_text l _) eq_refl) as [Hnul Hbefore].
    split_and!; [lia|lia|lia|done|rewrite Hlen; apply char_at_terminator|].
    intros j Hj. split; [apply Hbefore|apply Hch]; lia.
Qed.

Lemma bounded_string_valid_inv s max :
  bounded_string_valid s max = true ->
  exists v, s = Some v /\ (0 < text_length v <= max)%nat.
Proof. destruct s as [v|]; [|done]. intros H%bounded_string_valid_text. eauto. Qed.

(** On valid strings the bounded comparison is equality of the texts. *)
Lemma bounded_equal_valid a b max :
  bounded_string_valid a max = true -> bounded_string_valid b max = true ->
  bounded_string_equal a b max = true <-> text_of a = text_of b.
Proof.
  intros (v & -> & Hv)%bounded_string_valid_inv (w & -> & Hw)%bounded_string_valid_inv.
  rewrite bounded_string_equal_text. unfold text_of; simpl. tauto.
Qed.

Arguments bounded_string_valid : simpl never.
Arguments bounded_string_equal : simpl never.

(** * What validation admits *)

Definition id_well_formed (s : cstr) (max : nat) : Prop :=
  exists v, s = Some v /\ (0 < text_length v <= max)%nat.

Definition interface_export_well_formed (v : cmeta_plugin_interface_export) : Prop :=
  is_Some (ie_value v) /\ cmeta_interface_desc_valid (ie_desc v) = true.

Definition function_export_well_formed (v : cmeta_plugin_function_export) : Prop :=
  exists f a g, fe_desc v = Some f /\ fe_abi v = Some a /\ ad_function a = Some g /\
    fd_addr g = fd_addr f /\
    cmeta_function_desc_valid (Some f) = true /\
    cmeta_function_abi_desc_valid (Some a) = true /\
    ad_return_carrier a <> CMETA_ABI_UNSPECIFIED /\
    Forall (fun c => c <> CMETA_ABI_UNSPECIFIED) (take (ad_param_count a) (abi_rows a)) /\
    is_Some (fe_invoke v).

Record export_well_formed (e : cmeta_plugin_export) : Prop := {
  ewf_size : ex_struct_size e = CMETA_PLUGIN_EXPORT_SIZE;
  ewf_id : id_well_formed (ex_export_id e) CMETA_PLUGIN_EXPORT_ID_MAX;
  ewf_contract : id_well_formed (ex_contract_id e) CMETA_PLUGIN_CONTRACT_ID_MAX;
  ewf_version : ex_contract_version e <> 0;
  ewf_value :
    (ex_kind e = CMETA_PLUGIN_EXPORT_INTERFACE /\
     interface_export_well_formed (ev_interface (ex_value e))) \/
    (ex_kind e = CMETA_PLUGIN_EXPORT_FUNCTION /\
     function_export_well_formed (ev_function (ex_value e)));
}.

(** A passive plugin has neither [self] nor callbacks, a managed one has
    [self] and all four. *)
Definition lifecycle_well_formed (m : cmeta_plugin_manifest) : Prop :=
  let pointers := [pm_self m; pm_start m; pm_request_stop m; pm_is_quiescent m; pm_destroy m] in
  Forall (fun p => p = None) pointers \/ Forall (fun p => is_Some p) pointers.

Definition published_exports (m : cmeta_plugin_manifest) : list cmeta_plugin_export :=
  take (pm_export_count m) (pm_rows m).

Record manifest_well_formed (m : cmeta_plugin_manifest) : Prop := {
  mwf_size : pm_struct_size m = CMETA_PLUGIN_MANIFEST_SIZE;
  mwf_abi : pm_abi_version m = CMETA_PLUGIN_ABI_VERSION;
  mwf_id : id_well_formed (pm_plugin_id m) CMETA_PLUGIN_ID_MAX;
  mwf_count : (pm_export_count m <= CMETA_PLUGIN_MAX_EXPORTS)%nat;
  mwf_lifecycle : lifecycle_well_formed m;
  mwf_in_bounds : (pm_export_count m <= length (pm_rows m))%nat;
  mwf_exports : Forall export_well_formed (published_exports m);
  mwf_distinct : NoDup ((fun e => text_of (ex_export_id e)) <$> published_exports m);
}.

Lemma plugin_ok_then_OK s t :
  plugin_ok_then s t = CMETA_PLUGIN_OK <-> s = CMETA_PLUGIN_OK /\ t = CMETA_PLUGIN_OK.
Proof. unfold plugin_ok_then. case_bool_decide; naive_solver. Qed.

Lemma id_well_formed_valid s max :
  bounded_string_valid s max = true <-> id_well_formed s max.
Proof.
  split; [apply bounded_string_valid_inv|].
  intros (v & -> & Hv). by apply bounded_string_valid_text.
Qed.

(** [if (b) return error; return rest;] *)
Lemma status_guard (b : bool) (error rest : cmeta_plugin_status) :
  error <> CMETA_PLUGIN_OK ->
  (if b then error else rest) = CMETA_PLUGIN_OK <-> b = false /\ rest = CMETA_PLUGIN_OK.
Proof. destruct b; naive_solver. Qed.

Lemma function_abi_complete_true abi :
  function_abi_complete abi = true <->
  exists a, abi = Some a /\ cmeta_function_abi_desc_valid abi = true /\
    ad_return_carrier a <> CMETA_ABI_UNSPECIFIED /\
    Forall (fun c => c <> CMETA_ABI_UNSPECIFIED) (take (ad_param_count a) (abi_rows a)).
Proof.
  destruct abi as [a|]; cbn [function_abi_complete]; [|split; [done|by intros (? & ? & _)]].
  reflect_guards. rewrite forallb_upto_true. split.
  - intros ((Hv & Hr) & _ & Hc). exists a. split_and!; [done|done|done|].
    apply Forall_lookup. intros i c [Hi Hlt]%lookup_take_Some.
    specialize (Hc i c Hlt Hi). by destruct_bools.
  - intros (? & [= <-] & Hv & Hr & Hc). split_and!; [done|done| |].
    + pose proof Hv as Hv'. simpl in Hv'.
      destruct (ad_function a) as [f|] eqn:Hf; [|by unfold abi_node_valid in Hv'; rewrite Hf in Hv'].
      by destruct (abi_valid_inv a f Hf Hv') as (_ & _ & ? & _).
    + intros i c Hi Hl. rewrite Forall_lookup in Hc.
      rewrite negb_true_iff, bool_decide_eq_false. apply (Hc i). by rewrite lookup_take_lt.
Qed.

Arguments function_abi_complete : simpl never.

Lemma validate_export_OK e :
  validate_export (Some e) = CMETA_PLUGIN_OK <-> export_well_formed e.
Proof.
  cbn [validate_export]. rewrite !status_guard by done. reflect_guards.
  rewrite !id_well_formed_valid. split.
  - intros (Hsize & ((Hid & Hcid) & Hver%Z.eqb_neq) & Hkind). split; try done.
    destruct (ex_kind e); [left|right|done]; (split; [done|]);
      revert Hkind; rewrite status_guard by done; reflect_guards.
    + intros [[Hv Hd] _]. split; [by apply is_null_false|done].
    + rewrite function_abi_complete_true.
      intros [[[[Hd (a & Ha & Hva & Hr & Hc)] Hp] Hinv] _].
      destruct (fe_desc _) as [f|] eqn:Hf; [|done]. rewrite Ha in Hp. simpl in Hp.
      destruct (ad_function a) as [g|] eqn:Hg; [|done]. injection Hp as Hp.
      exists f, a, g. rewrite Ha in Hva. apply is_null_false in Hinv. done.
  - intros [Hsize Hid Hcid Hver Hkind].
    split_and!; [done|done|done|by apply Z.eqb_neq|].
    destruct Hkind as [[-> [? ?]]|[-> (f & a & g & Hf & Ha & Hg & Hp & ? & ? & ? & ? & ?)]];
      rewrite status_guard by done; reflect_guards; rewrite is_null_false; [done|].
    rewrite function_abi_complete_true, Hf, Ha. simpl. rewrite Hg. simpl.
    split_and!; [done| |by rewrite Hp|done|done]. eauto.
Qed.

Arguments validate_export : simpl never.

Lemma validate_exports_OK before rest n :
  validate_exports before rest n = CMETA_PLUGIN_OK <->
  (n <= length rest)%nat /\
  forall i e, (i < n)%nat -> rest !! i = Some e ->
    validate_export (Some e) = CMETA_PLUGIN_OK /\
    forall o, o ∈ before ++ take i rest -> same_export_id e o = false.
Proof.
  revert before n. induction rest as [|x rest IH]; intros before [|n]; simpl.
  1, 3: split; [intros _; split; [lia|intros; lia]|done].
  - split; [done|intros [? _]; lia].
  - rewrite plugin_ok_then_OK, status_guard, IH by done.
    rewrite <- not_true_iff_false, existsb_exists. setoid_rewrite <- list_elem_of_In. split.
    + intros (Hx & Hnodup & Hn & Hall). split; [lia|]. intros [|i] e Hi; simpl.
      * intros [= <-]. split; [done|]. rewrite app_nil_r. intros o Ho.
        apply not_true_iff_false. eauto.
      * intros He. destruct (Hall i e) as [? Ho]; [lia|done|]. split; [done|].
        intros o. rewrite cons_middle, (assoc_L (++)). apply Ho.
    + intros [Hn Hall]. destruct (Hall 0%nat x) as [Hx Ho]; [lia|done|].
      split_and!; [done| |lia|].
      * intros (o & Hin & Hs). rewrite Ho in Hs; [done|]. simpl. by rewrite app_nil_r.
      * intros i e Hi He. destruct (Hall (S i) e) as [? Ho']; [lia|done|]. split; [done|].
        intros o. simpl in Ho'. rewrite cons_middle, (assoc_L (++)) in Ho'. apply Ho'.
Qed.

(** * Properties *)

Lemma same_export_id_text a b :
  export_well_formed a -> export_well_formed b ->
  same_export_id a b = true <-> text_of (ex_export_id a) = text_of (ex_export_id b).
Proof.
  intros [_ Ha _ _ _] [_ Hb _ _ _]. unfold same_export_id.
  apply bounded_equal_valid; by apply id_well_formed_valid.
Qed.

Lemma published_rows_OK rows n :
  validate_exports [] rows n = CMETA_PLUGIN_OK <->
  (n <= length rows)%nat /\ Forall export_well_formed (take n rows) /\
  NoDup ((fun e => text_of (ex_export_id e)) <$> take n rows).
Proof.
  rewrite validate_exports_OK, NoDup_prefix, Forall_lookup.
  setoid_rewrite validate_export_OK. setoid_rewrite lookup_take_Some.
  split; intros (Hn & Hall); (split; [done|]).
  - assert (forall i e, rows !! i = Some e -> (i < n)%nat -> export_well_formed e) as Hwf
      by (intros i e Hi Hlt; by apply (Hall i e Hlt Hi)).
    split; [intros i e [? ?]; by apply (Hwf i)|].
    intros i x [Hi Hlt] y Hy. rewrite take_take, Nat.min_l in Hy by lia.
    destruct (Hall i x Hlt Hi) as [Hx Hdist]. specialize (Hdist y Hy).
    apply list_elem_of_lookup in Hy as (j & [Hj Hji]%lookup_take_Some).
    rewrite <- (same_export_id_text x y); [by rewrite Hdist|done|apply (Hwf j); [done|lia]].
  - destruct Hall as [Hwf Hdist]. intros i e Hi He.
    split; [by apply (Hwf i)|]. simpl. intros o Ho. apply not_true_iff_false. intros Hs.
    pose proof Ho as (j & [Hj Hji]%lookup_take_Some)%list_elem_of_lookup.
    apply (Hdist i e (conj He Hi) o); [by rewrite take_take, Nat.min_l by lia|].
    apply same_export_id_text; [apply (Hwf i)|apply (Hwf j)|]; try done.
    split; [done|lia].
Qed.

Lemma lifecycle_cases m rest :
  (if has_lifecycle m then
     if is_null (pm_self m) || is_null (pm_start m) || is_null (pm_request_stop m) ||
        is_null (pm_is_quiescent m) || is_null (pm_destroy m)
     then CMETA_PLUGIN_INVALID_MANIFEST else rest
   else if negb (is_null (pm_self m)) then CMETA_PLUGIN_INVALID_MANIFEST else rest)
  = CMETA_PLUGIN_OK <-> lifecycle_well_formed m /\ rest = CMETA_PLUGIN_OK.
Proof.
  unfold has_lifecycle, lifecycle_well_formed; cbv zeta. rewrite !Forall_cons, !Forall_nil.
  destruct (pm_self m), (pm_start m), (pm_request_stop m), (pm_is_quiescent m), (pm_destroy m);
    simpl; (split; [intros H; try discriminate H; (split; [|done]) | intros [[H|H] ?]]);
    destruct_and?; simplify_eq; try done;
    repeat match goal with H : is_Some None |- _ => by destruct H end;
    first [left; by repeat split | right; split_and!; eauto].
Qed.

Lemma manifest_validate_OK m :
  cmeta_plugin_manifest_validate (Some m) = CMETA_PLUGIN_OK <-> manifest_well_formed m.
Proof.
  cbn [cmeta_plugin_manifest_validate]. rewrite !status_guard by done.
  rewrite lifecycle_cases, published_rows_OK. reflect_guards.
  rewrite id_well_formed_valid, Nat.ltb_ge. split.
  - intros (? & ? & ? & ? & _ & ? & ? & ? & ?). by split.
  - intros [??????]. split_and!; try done.
    destruct (pm_exports m) eqn:He; [by rewrite andb_false_r|].
    unfold pm_rows in *. rewrite He in *. simpl in *.
    by destruct (pm_export_count m); [|lia].
Qed.

Arguments cmeta_plugin_manifest_validate : simpl never.

(** [cmeta_plugin_manifest_validate] accepts exactly the well-formed
    manifests: the current layout and ABI epoch, bounded non-empty ids, at most
    256 rows inside the array, each row well formed for its kind, export ids
    pairwise distinct as texts, and either no lifecycle pointer or all five. *)
Theorem manifest_validate_exact m :
  cmeta_plugin_manifest_validate (Some m) = CMETA_PLUGIN_OK <-> manifest_well_formed m.
Proof. apply manifest_validate_OK. Qed.

Lemma export_id_found e export_id :
  export_well_formed e -> bounded_string_valid export_id CMETA_PLUGIN_EXPORT_ID_MAX = true ->
  bounded_string_equal (ex_export_id e) export_id CMETA_PLUGIN_EXPORT_ID_MAX = true <->
  text_of (ex_export_id e) = text_of export_id.
Proof. intros [_ He _ _ _] ?. apply bounded_equal_valid; [by apply id_well_formed_valid|done]. Qed.

(** On a well-formed manifest and a valid id,
    [cmeta_plugin_manifest_find_export] returns the one published row whose id
    has that text, and [CMETA_PLUGIN_UNKNOWN_EXPORT] exactly when no row has. *)
Lemma find_export_unique m export_id :
  manifest_well_formed m -> id_well_formed export_id CMETA_PLUGIN_EXPORT_ID_MAX ->
  (exists i e,
     cmeta_plugin_manifest_find_export (Some m) export_id = (CMETA_PLUGIN_OK, Some i) /\
     published_exports m !! i = Some e /\ text_of (ex_export_id e) = text_of export_id /\
     forall j e', published_exports m !! j = Some e' ->
       text_of (ex_export_id e') = text_of export_id -> j = i) \/
  (cmeta_plugin_manifest_find_export (Some m) export_id = (CMETA_PLUGIN_UNKNOWN_EXPORT, None) /\
   forall e, e ∈ published_exports m -> text_of (ex_export_id e) <> text_of export_id).
Proof.
  intros Hm Hid%id_well_formed_valid. pose proof Hm as [_ _ _ _ _ Hn Hwf Hdist].
  unfold cmeta_plugin_manifest_find_export. rewrite Hid. simpl.
  rewrite (proj2 (manifest_validate_OK m) Hm). rewrite Forall_lookup in Hwf.
  destruct (find_below _ _) as [i|] eqn:Hfind.
  - apply find_below_Some in Hfind as (Hi & Hf & _). left.
    destruct (pm_rows m !! i) as [e|] eqn:He; [|done].
    assert (published_exports m !! i = Some e) as Hpub
      by (unfold published_exports; by rewrite lookup_take_lt).
    apply export_id_found in Hf; [|by apply (Hwf i)|done].
    exists i, e. split_and!; [done..|]. intros j e' Hj Ht.
    apply (proj1 (NoDup_alt _) Hdist j i (text_of export_id));
      rewrite list_lookup_fmap_Some; [exists e'|exists e]; done.
  - right. split; [done|]. intros e (i & Hi)%list_elem_of_lookup Ht.
    pose proof Hi as [Hi' Hlt]%lookup_take_Some.
    pose proof (proj1 (find_below_None _ _) Hfind i Hlt) as Hf. simpl in Hf.
    rewrite Hi' in Hf. apply not_true_iff_false in Hf. apply Hf.
    apply export_id_found; [by apply (Hwf i)|done|done].
Qed.

(** A capability word covers another one bit by bit. *)
Definition capabilities_cover (offered required : Z) : Prop :=
  forall bit, 0 <= bit -> Z.testbit required bit = true -> Z.testbit offered bit = true.

Lemma has_capabilities_cover e required :
  cmeta_plugin_export_has_capabilities (Some e) required = true <->
  capabilities_cover (ex_capabilities e) required.
Proof.
  simpl. rewrite Z.eqb_eq. split.
  - intros Heq bit Hbit Hr. rewrite <- Heq, Z.land_spec in Hr. by apply andb_true_iff in Hr as [? _].
  - intros Hcover. apply Z.bits_inj'. intros bit Hbit. rewrite Z.land_spec.
    destruct (Z.testbit required bit) eqn:Hr; [|by rewrite andb_false_r].
    by rewrite (Hcover bit Hbit Hr).
Qed.

Lemma contract_key_equal_text e contract_id version :
  export_well_formed e -> bounded_string_valid contract_id CMETA_PLUGIN_CONTRACT_ID_MAX = true ->
  version <> 0 ->
  contract_key_equal (Some e) contract_id version = true <->
  ex_contract_version e = version /\ text_of (ex_contract_id e) = text_of contract_id.
Proof.
  intros [_ _ Hc _ _] Hid Hv. cbn [contract_key_equal]. apply Z.eqb_neq in Hv as Hv'.
  rewrite Hv', Hid. simpl. rewrite andb_true_iff, Z.eqb_eq, bounded_equal_valid; [done| |done].
  by apply id_well_formed_valid.
Qed.

Arguments contract_key_equal : simpl never.
Arguments cmeta_plugin_export_has_capabilities : simpl never.

(** [cmeta_plugin_export_require_interface] admits a row exactly when it is
    a well-formed interface row with the required contract text and version,
    offers every required capability bit and its descriptor equals the expected
    one; a valid row and valid arguments that fail this are
    [CMETA_PLUGIN_INCOMPATIBLE_CONTRACT]. *)
Lemma require_interface_exact e contract_id version required expected :
  export_well_formed e -> id_well_formed contract_id CMETA_PLUGIN_CONTRACT_ID_MAX ->
  version <> 0 -> cmeta_interface_desc_valid (Some expected) = true ->
  let status :=
    cmeta_plugin_export_require_interface (Some e) contract_id version required (Some expected) in
  (status = CMETA_PLUGIN_OK <->
     ex_kind e = CMETA_PLUGIN_EXPORT_INTERFACE /\
     ex_contract_version e = version /\ text_of (ex_contract_id e) = text_of contract_id /\
     capabilities_cover (ex_capabilities e) required /\
     cmeta_interface_desc_equal (ie_desc (ev_interface (ex_value e))) (Some expected) = true) /\
  (status <> CMETA_PLUGIN_OK -> status = CMETA_PLUGIN_INCOMPATIBLE_CONTRACT).
Proof.
  intros He Hid%id_well_formed_valid Hv Hx. cbv zeta.
  unfold cmeta_plugin_export_require_interface, plugin_ok_then.
  rewrite (proj2 (validate_export_OK e) He), Hid, Hx. apply Z.eqb_neq in Hv as Hv'.
  rewrite Hv'. simpl. split; [|destruct (_ || _); done].
  rewrite status_guard by done. reflect_guards.
  rewrite has_capabilities_cover, contract_key_equal_text by done. tauto.
Qed.
