(* ===== verification/PluginRegistry.v ===== *)
(** The dynamic-plugin registry (plugin/src/plugin_registry.c,
    plugin/src/plugin_posix.c).

    Every public operation is a sequence of critical sections under
    [impl->lock] with plugin callbacks and loader calls between them.  Each
    critical section is one definition on the shared [registry_impl]
    ([start_begin], [start_end], ...); the sequential operations compose them
    with the callbacks, and [RegistryProtocol] interleaves them. *)

From S2P Require Import Prelude CMetaType CMetaFunction CMetaInterface PluginManifest.

Definition CMETA_PLUGIN_PATH_MAX : nat := 4095.
Definition CMETA_PLUGIN_MAX_LEASES_PER_PLUGIN : nat := 64.

(** [LIFECYCLE_NONE] is the zero the cleared slots carry. *)
Inductive cmeta_plugin_lifecycle_state :=
  | LIFECYCLE_NONE
  | CMETA_PLUGIN_LIFECYCLE_LOADED
  | CMETA_PLUGIN_LIFECYCLE_STARTING
  | CMETA_PLUGIN_LIFECYCLE_STARTED
  | CMETA_PLUGIN_LIFECYCLE_STOPPING
  | CMETA_PLUGIN_LIFECYCLE_QUIESCENT.

#[export] Instance cmeta_plugin_lifecycle_state_eq_dec : EqDecision cmeta_plugin_lifecycle_state.
Proof. solve_decision. Defined.

Record cmeta_plugin_ref := mk_ref {
  ref_slot : Z;
  ref_generation : Z;
}.

Record cmeta_plugin_lease := mk_lease {
  le_plugin : cmeta_plugin_ref;
  le_slot : Z;
  le_generation : Z;
}.

#[export] Instance cmeta_plugin_ref_eq_dec : EqDecision cmeta_plugin_ref.
Proof. solve_decision. Defined.

#[export] Instance cmeta_plugin_lease_eq_dec : EqDecision cmeta_plugin_lease.
Proof. solve_decision. Defined.

Definition zero_ref : cmeta_plugin_ref := mk_ref 0 0.
Definition zero_lease : cmeta_plugin_lease := mk_lease zero_ref 0 0.

Record cmeta_plugin_lifecycle_info := mk_lifecycle_info {
  li_state : cmeta_plugin_lifecycle_state;
  li_active_leases : Z;
  li_callbacks_inflight : Z;
  li_failure : cmeta_plugin_status;
}.

Record registry_slot := mk_slot {
  sl_library : option addr;
  sl_manifest : option cmeta_plugin_manifest;
  sl_generation : Z;
  sl_state : cmeta_plugin_lifecycle_state;
  sl_failure : cmeta_plugin_status;
  sl_callbacks_inflight : Z;
  sl_active_leases : Z;
  sl_lease_active_mask : Z;
  sl_lease_generations : list Z;
  sl_occupied : bool;
  sl_unloading : bool;
  sl_destroy_called : bool;
}.

Record registry_impl := mk_impl {
  im_slots : list registry_slot;
  im_capacity : nat;
  im_count : Z;
  im_loads_inflight : Z;
  im_destroying : bool;
}.

(** * Field assignments *)

Definition set_state (st : cmeta_plugin_lifecycle_state) (s : registry_slot) : registry_slot :=
  mk_slot (sl_library s) (sl_manifest s) (sl_generation s) st (sl_failure s)
    (sl_callbacks_inflight s) (sl_active_leases s) (sl_lease_active_mask s)
    (sl_lease_generations s) (sl_occupied s) (sl_unloading s) (sl_destroy_called s).

Definition set_failure (f : cmeta_plugin_status) (s : registry_slot) : registry_slot :=
  mk_slot (sl_library s) (sl_manifest s) (sl_generation s) (sl_state s) f
    (sl_callbacks_inflight s) (sl_active_leases s) (sl_lease_active_mask s)
    (sl_lease_generations s) (sl_occupied s) (sl_unloading s) (sl_destroy_called s).

Definition set_callbacks (n : Z) (s : registry_slot) : registry_slot :=
  mk_slot (sl_library s) (sl_manifest s) (sl_generation s) (sl_state s) (sl_failure s)
    n (sl_active_leases s) (sl_lease_active_mask s)
    (sl_lease_generations s) (sl_occupied s) (sl_unloading s) (sl_destroy_called s).

Definition set_leases (active mask : Z) (gens : list Z) (s : registry_slot) : registry_slot :=
  mk_slot (sl_library s) (sl_manifest s) (sl_generation s) (sl_state s) (sl_failure s)
    (sl_callbacks_inflight s) active mask gens
    (sl_occupied s) (sl_unloading s) (sl_destroy_called s).

Definition set_unloading (u : bool) (s : registry_slot) : registry_slot :=
  mk_slot (sl_library s) (sl_manifest s) (sl_generation s) (sl_state s) (sl_failure s)
    (sl_callbacks_inflight s) (sl_active_leases s) (sl_lease_active_mask s)
    (sl_lease_generations s) (sl_occupied s) u (sl_destroy_called s).

Definition set_destroy_called (d : bool) (s : registry_slot) : registry_slot :=
  mk_slot (sl_library s) (sl_manifest s) (sl_generation s) (sl_state s) (sl_failure s)
    (sl_callbacks_inflight s) (sl_active_leases s) (sl_lease_active_mask s)
    (sl_lease_generations s) (sl_occupied s) (sl_unloading s) d.

Definition set_library (l : option addr) (s : registry_slot) : registry_slot :=
  mk_slot l (sl_manifest s) (sl_generation s) (sl_state s) (sl_failure s)
    (sl_callbacks_inflight s) (sl_active_leases s) (sl_lease_active_mask s)
    (sl_lease_generations s) (sl_occupied s) (sl_unloading s) (sl_destroy_called s).

(** [++slot->callbacks_inflight] and [--slot->callbacks_inflight]. *)
Definition enter_callback (s : registry_slot) : registry_slot :=
  set_callbacks (size_inc (sl_callbacks_inflight s)) s.

Definition leave_callback (s : registry_slot) : registry_slot :=
  set_callbacks (size_dec (sl_callbacks_inflight s)) s.

Definition set_slots (slots : list registry_slot) (r : registry_impl) : registry_impl :=
  mk_impl slots (im_capacity r) (im_count r) (im_loads_inflight r) (im_destroying r).

Definition set_count (n : Z) (r : registry_impl) : registry_impl :=
  mk_impl (im_slots r) (im_capacity r) n (im_loads_inflight r) (im_destroying r).

Definition set_loads (n : Z) (r : registry_impl) : registry_impl :=
  mk_impl (im_slots r) (im_capacity r) (im_count r) n (im_destroying r).

Definition set_destroying (b : bool) (r : registry_impl) : registry_impl :=
  mk_impl (im_slots r) (im_capacity r) (im_count r) (im_loads_inflight r) b.

(** A write through the slot pointer [&impl->slots[index]]. *)
Definition write_slot (index : nat) (f : registry_slot -> registry_slot) (r : registry_impl)
    : registry_impl :=
  set_slots (alter f index (im_slots r)) r.

(** * Helpers *)

Definition bounded_cstr_valid (value : cstr) (max_bytes : nat) : bool :=
  match value with
  | None => false
  | Some v => if (max_bytes =? 0)%nat then false else bounded_valid_loop v 0 (S max_bytes)
  end.

(** [salts_core_utf8_valid] is in the separate salts-core project. *)
Fixpoint utf8_path_loop (utf8_valid : string -> nat -> bool) (path : string) (length left : nat)
    : bool :=
  match left with
  | O => false
  | S left' =>
      if char_eqb (char_at path length) NUL then
        if (length =? 0)%nat then false else utf8_valid path length
      else utf8_path_loop utf8_valid path (S length) left'
  end.

Definition bounded_utf8_path_valid (utf8_valid : string -> nat -> bool) (path : cstr) : bool :=
  match path with
  | None => false
  | Some p => utf8_path_loop utf8_valid p 0 (S CMETA_PLUGIN_PATH_MAX)
  end.

Fixpoint plugin_id_loop (left right : string) (index remaining : nat) : bool :=
  match remaining with
  | O => false
  | S n =>
      if negb (char_eqb (char_at left index) (char_at right index)) then false
      else if char_eqb (char_at left index) NUL then true
      else plugin_id_loop left right (S index) n
  end.

Definition plugin_id_equal (left right : cstr) : bool :=
  if negb (bounded_cstr_valid left CMETA_PLUGIN_ID_MAX) ||
     negb (bounded_cstr_valid right CMETA_PLUGIN_ID_MAX) then false
  else
    match left, right with
    | Some l, Some r => plugin_id_loop l r 0 (S CMETA_PLUGIN_ID_MAX)
    | _, _ => false
    end.

Definition next_generation (current : Z) : Z :=
  let next := u32 (current + 1) in
  if next =? 0 then 1 else next.

Definition cmeta_plugin_ref_valid (ref : cmeta_plugin_ref) : bool :=
  negb (ref_slot ref =? 0) && negb (ref_generation ref =? 0).

Definition cmeta_plugin_lease_valid (lease : cmeta_plugin_lease) : bool :=
  cmeta_plugin_ref_valid (le_plugin lease) && negb (le_slot lease =? 0) &&
  negb (le_generation lease =? 0).

(** [inl status] is the error, [inr (index, slot)] the two out parameters. *)
Definition slot_for_ref_locked (r : registry_impl) (ref : cmeta_plugin_ref)
    : cmeta_plugin_status + nat * registry_slot :=
  if negb (cmeta_plugin_ref_valid ref) then inl CMETA_PLUGIN_INVALID_ARGUMENT
  else
    let index := Z.to_nat (ref_slot ref - 1) in
    if (im_capacity r <=? index)%nat then inl CMETA_PLUGIN_STALE
    else
      match im_slots r !! index with
      | None => inl CMETA_PLUGIN_STALE
      | Some slot =>
          if negb (sl_occupied slot) || negb (sl_generation slot =? ref_generation ref)
          then inl CMETA_PLUGIN_STALE
          else inr (index, slot)
      end.

Definition cleared_slot (s : registry_slot) : registry_slot :=
  mk_slot (sl_library s) None (next_generation (sl_generation s)) LIFECYCLE_NONE
    CMETA_PLUGIN_OK 0 0 0 (map next_generation (sl_lease_generations s)) false false false.

Definition clear_slot_locked (index : nat) (r : registry_impl) : registry_impl :=
  let r := write_slot index cleared_slot r in
  if negb (im_count r =? 0) then set_count (size_dec (im_count r)) r else r.

(** * Critical sections of load *)

Definition initial_slot : registry_slot :=
  mk_slot None None 1 LIFECYCLE_NONE CMETA_PLUGIN_OK 0 0 0
    (replicate CMETA_PLUGIN_MAX_LEASES_PER_PLUGIN 1) false false false.

Definition initial_impl (capacity : nat) : registry_impl :=
  mk_impl (replicate capacity initial_slot) capacity 0 0 false.

Definition load_reserve (r : registry_impl) : cmeta_plugin_status * registry_impl :=
  if im_destroying r then (CMETA_PLUGIN_BUSY, r)
  else if (Z.of_nat (im_capacity r) <=? im_count r) ||
          (u64 (Z.of_nat (im_capacity r) - im_count r) <=? im_loads_inflight r)
  then (CMETA_PLUGIN_CAPACITY_EXCEEDED, r)
  else (CMETA_PLUGIN_OK, set_loads (size_inc (im_loads_inflight r)) r).

Definition release_load_reservation (r : registry_impl) : registry_impl :=
  set_loads (size_dec (im_loads_inflight r)) r.

Definition publishes_id (plugin_id : cstr) (s : registry_slot) : bool :=
  sl_occupied s &&
  match sl_manifest s with
  | Some m => plugin_id_equal (pm_plugin_id m) plugin_id
  | None => false
  end.

Definition slot_test (r : registry_impl) (test : registry_slot -> bool) (index : nat) : bool :=
  match im_slots r !! index with Some s => test s | None => false end.

Definition loaded_slot (library : option addr) (m : cmeta_plugin_manifest) (s : registry_slot)
    : registry_slot :=
  mk_slot library (Some m) (sl_generation s) CMETA_PLUGIN_LIFECYCLE_LOADED CMETA_PLUGIN_OK
    0 0 0 (sl_lease_generations s) true false false.

(** Section two: publication, or the status the candidate is rejected with. *)
Definition load_publish (library : option addr) (m : cmeta_plugin_manifest) (r : registry_impl)
    : cmeta_plugin_status * cmeta_plugin_ref * registry_impl :=
  if im_destroying r then (CMETA_PLUGIN_BUSY, zero_ref, r)
  else
    match find_below (im_capacity r) (slot_test r (publishes_id (pm_plugin_id m))) with
    | Some _ => (CMETA_PLUGIN_DUPLICATE_PLUGIN_ID, zero_ref, r)
    | None =>
        match find_below (im_capacity r) (slot_test r (fun s => negb (sl_occupied s))) with
        | None => (CMETA_PLUGIN_CAPACITY_EXCEEDED, zero_ref, r)
        | Some index =>
            let generation :=
              match im_slots r !! index with Some s => sl_generation s | None => 0 end in
            let r := write_slot index (loaded_slot library m) r in
            let r := set_count (size_inc (im_count r)) r in
            let r := set_loads (size_dec (im_loads_inflight r)) r in
            (CMETA_PLUGIN_OK, mk_ref (u32 (Z.of_nat index + 1)) generation, r)
        end
    end.

(** * Critical sections of the lifecycle operations *)

(** How the first critical section of an operation ends: with a status, or
    with a callback to make, on the slot at [index], outside the lock. *)
Inductive begin_outcome :=
  | Returns (status : cmeta_plugin_status) (r : registry_impl)
  | Calls (index : nat) (callback : addr) (self : option addr) (r : registry_impl).

Definition manifest_of (s : registry_slot) (field : cmeta_plugin_manifest -> option addr)
    : option addr :=
  match sl_manifest s with Some m => field m | None => None end.

Definition start_begin (ref : cmeta_plugin_ref) (r : registry_impl) : begin_outcome :=
  match slot_for_ref_locked r ref with
  | inl status => Returns status r
  | inr (index, slot) =>
      if im_destroying r || sl_unloading slot then Returns CMETA_PLUGIN_BUSY r
      else if bool_decide (sl_state slot = CMETA_PLUGIN_LIFECYCLE_STARTED)
      then Returns CMETA_PLUGIN_ALREADY r
      else if negb (bool_decide (sl_state slot = CMETA_PLUGIN_LIFECYCLE_LOADED))
      then Returns CMETA_PLUGIN_INVALID_STATE r
      else if negb (sl_active_leases slot =? 0) || negb (sl_callbacks_inflight slot =? 0)
      then Returns CMETA_PLUGIN_BUSY r
      else
        match manifest_of slot pm_start with
        | None =>
            Returns CMETA_PLUGIN_OK
              (write_slot index (set_state CMETA_PLUGIN_LIFECYCLE_STARTED) r)
        | Some callback =>
            Calls index callback (manifest_of slot pm_self)
              (write_slot index
                 (fun s => enter_callback (set_state CMETA_PLUGIN_LIFECYCLE_STARTING s)) r)
        end
  end.

Definition record_failure (status : cmeta_plugin_status) (s : registry_slot) : registry_slot :=
  if bool_decide (sl_failure s = CMETA_PLUGIN_OK) then set_failure status s else s.

Definition start_end (index : nat) (status : cmeta_plugin_status) (r : registry_impl)
    : registry_impl :=
  write_slot index
    (fun s =>
       let s := leave_callback s in
       if bool_decide (status = CMETA_PLUGIN_OK)
       then set_state CMETA_PLUGIN_LIFECYCLE_STARTED s
       else record_failure status (set_state CMETA_PLUGIN_LIFECYCLE_QUIESCENT s)) r.

Definition request_stop_begin (ref : cmeta_plugin_ref) (r : registry_impl) : begin_outcome :=
  match slot_for_ref_locked r ref with
  | inl status => Returns status r
  | inr (index, slot) =>
      if im_destroying r || sl_unloading slot then Returns CMETA_PLUGIN_BUSY r
      else if bool_decide (sl_state slot = CMETA_PLUGIN_LIFECYCLE_STOPPING) ||
              bool_decide (sl_state slot = CMETA_PLUGIN_LIFECYCLE_QUIESCENT)
      then Returns CMETA_PLUGIN_ALREADY r
      else if negb (bool_decide (sl_state slot = CMETA_PLUGIN_LIFECYCLE_STARTED))
      then Returns CMETA_PLUGIN_INVALID_STATE r
      else
        let r := write_slot index (set_state CMETA_PLUGIN_LIFECYCLE_STOPPING) r in
        match manifest_of slot pm_request_stop with
        | None => Returns CMETA_PLUGIN_OK r
        | Some callback =>
            Calls index callback (manifest_of slot pm_self) (write_slot index enter_callback r)
        end
  end.

Definition request_stop_end (index : nat) (status : cmeta_plugin_status) (r : registry_impl)
    : registry_impl :=
  write_slot index
    (fun s =>
       let s := leave_callback s in
       if negb (bool_decide (status = CMETA_PLUGIN_OK)) then record_failure status s else s) r.

(** Besides the status, [*out_quiescent]. *)
Definition poll_begin (ref : cmeta_plugin_ref) (r : registry_impl) : begin_outcome * bool :=
  match slot_for_ref_locked r ref with
  | inl status => (Returns status r, false)
  | inr (index, slot) =>
      if im_destroying r || sl_unloading slot then (Returns CMETA_PLUGIN_BUSY r, false)
      else if bool_decide (sl_state slot = CMETA_PLUGIN_LIFECYCLE_QUIESCENT)
      then (Returns CMETA_PLUGIN_OK r, true)
      else if negb (bool_decide (sl_state slot = CMETA_PLUGIN_LIFECYCLE_STOPPING))
      then (Returns CMETA_PLUGIN_INVALID_STATE r, false)
      else if negb (sl_active_leases slot =? 0) || negb (sl_callbacks_inflight slot =? 0)
      then (Returns CMETA_PLUGIN_OK r, false)
      else
        match manifest_of slot pm_is_quiescent with
        | None =>
            (Returns CMETA_PLUGIN_OK
               (write_slot index (set_state CMETA_PLUGIN_LIFECYCLE_QUIESCENT) r), true)
        | Some callback =>
            (Calls index callback (manifest_of slot pm_self)
               (write_slot index enter_callback r), false)
        end
  end.

Definition poll_end (index : nat) (quiescent : bool) (r : registry_impl) : registry_impl :=
  write_slot index
    (fun s =>
       let s := leave_callback s in
       if quiescent then set_state CMETA_PLUGIN_LIFECYCLE_QUIESCENT s else s) r.

(** * Critical sections of leases *)

Definition lease_bit (index : nat) : Z := Z.shiftl 1 (Z.of_nat index).

Definition lease_is_free (mask : Z) (index : nat) : bool := Z.land mask (lease_bit index) =? 0.

(** The status, [*out_lease], [*out_manifest]. *)
Definition acquire_locked (ref : cmeta_plugin_ref) (r : registry_impl)
    : cmeta_plugin_status * cmeta_plugin_lease * option cmeta_plugin_manifest * registry_impl :=
  match slot_for_ref_locked r ref with
  | inl status => (status, zero_lease, None, r)
  | inr (index, slot) =>
      if im_destroying r || sl_unloading slot then (CMETA_PLUGIN_BUSY, zero_lease, None, r)
      else if negb (bool_decide (sl_state slot = CMETA_PLUGIN_LIFECYCLE_STARTED))
      then (CMETA_PLUGIN_INVALID_STATE, zero_lease, None, r)
      else
        match find_below CMETA_PLUGIN_MAX_LEASES_PER_PLUGIN
                (lease_is_free (sl_lease_active_mask slot)) with
        | None => (CMETA_PLUGIN_CAPACITY_EXCEEDED, zero_lease, None, r)
        | Some bit =>
            (CMETA_PLUGIN_OK,
             mk_lease ref (u32 (Z.of_nat bit + 1))
               (default 0 (sl_lease_generations slot !! bit)),
             sl_manifest slot,
             write_slot index
               (fun s => set_leases (size_inc (sl_active_leases s))
                           (Z.lor (sl_lease_active_mask s) (lease_bit bit))
                           (sl_lease_generations s) s) r)
        end
  end.

Definition release_slot (bit : nat) (s : registry_slot) : registry_slot :=
  set_leases
    (if negb (sl_active_leases s =? 0) then size_dec (sl_active_leases s)
     else sl_active_leases s)
    (Z.land (sl_lease_active_mask s) (u64 (Z.lnot (lease_bit bit))))
    (alter next_generation bit (sl_lease_generations s)) s.

(** The status and the lease object afterwards. *)
Definition release_locked (lease : cmeta_plugin_lease) (r : registry_impl)
    : cmeta_plugin_status * cmeta_plugin_lease * registry_impl :=
  match slot_for_ref_locked r (le_plugin lease) with
  | inl status => (status, lease, r)
  | inr (index, slot) =>
      let bit := Z.to_nat (le_slot lease - 1) in
      if (CMETA_PLUGIN_MAX_LEASES_PER_PLUGIN <=? bit)%nat then (CMETA_PLUGIN_STALE, lease, r)
      else if lease_is_free (sl_lease_active_mask slot) bit ||
              negb (default 0 (sl_lease_generations slot !! bit) =? le_generation lease)
      then (CMETA_PLUGIN_STALE, lease, r)
      else (CMETA_PLUGIN_OK, zero_lease, write_slot index (release_slot bit) r)
  end.

(** * Critical sections of unload and destroy *)

(** [destroy_callback] and [self], [None] when there is nothing to call. *)
Abbreviation destroy_call := (option (addr * option addr)) (only parsing).

Definition pending_destroy (s : registry_slot) : destroy_call :=
  if negb (sl_destroy_called s) then
    match manifest_of s pm_destroy with
    | Some callback => Some (callback, manifest_of s pm_self)
    | None => None
    end
  else None.

(** [slot->unloading = true] and the entry into the destroy callback. *)
Definition mark_unloading (s : registry_slot) : registry_slot :=
  let s' := set_unloading true s in
  if is_null (pending_destroy s) then s' else enter_callback s'.

Inductive unload_outcome :=
  | UnloadReturns (status : cmeta_plugin_status) (r : registry_impl)
  | Unloading (index : nat) (destroy : destroy_call) (r : registry_impl).

Definition settled_state (st : cmeta_plugin_lifecycle_state) : bool :=
  bool_decide (st = CMETA_PLUGIN_LIFECYCLE_LOADED) ||
  bool_decide (st = CMETA_PLUGIN_LIFECYCLE_QUIESCENT).

Definition unload_begin (ref : cmeta_plugin_ref) (r : registry_impl) : unload_outcome :=
  match slot_for_ref_locked r ref with
  | inl status => UnloadReturns status r
  | inr (index, slot) =>
      if im_destroying r || sl_unloading slot then UnloadReturns CMETA_PLUGIN_BUSY r
      else if negb (settled_state (sl_state slot)) then UnloadReturns CMETA_PLUGIN_BUSY r
      else if negb (sl_active_leases slot =? 0) || negb (sl_callbacks_inflight slot =? 0)
      then UnloadReturns CMETA_PLUGIN_BUSY r
      else Unloading index (pending_destroy slot) (write_slot index mark_unloading r)
  end.

(** The section after the destroy callback; [called] says it was made. *)
Definition after_destroy (index : nat) (called : bool) (r : registry_impl) : registry_impl :=
  if called then
    write_slot index
      (fun s => set_state CMETA_PLUGIN_LIFECYCLE_QUIESCENT
                  (set_destroy_called true (leave_callback s))) r
  else r.

Definition unload_end (index : nat) (close_status : cmeta_plugin_status) (r : registry_impl)
    : registry_impl :=
  if bool_decide (close_status = CMETA_PLUGIN_OK) then clear_slot_locked index r
  else write_slot index (set_unloading false) r.

(** A slot [destroy] refuses to tear down. *)
Definition blocks_destroy (s : registry_slot) : bool :=
  sl_occupied s &&
  (sl_unloading s || negb (sl_active_leases s =? 0) || negb (sl_callbacks_inflight s =? 0) ||
   negb (settled_state (sl_state s))).

Definition destroy_begin (r : registry_impl) : cmeta_plugin_status * registry_impl :=
  if im_destroying r || negb (im_loads_inflight r =? 0) then (CMETA_PLUGIN_BUSY, r)
  else
    match find_below (im_capacity r) (slot_test r blocks_destroy) with
    | Some _ => (CMETA_PLUGIN_BUSY, r)
    | None => (CMETA_PLUGIN_OK, set_destroying true r)
    end.

(** [None] when the slot is not occupied and the loop continues. *)
Definition destroy_slot_begin (index : nat) (r : registry_impl)
    : option (destroy_call * registry_impl) :=
  match im_slots r !! index with
  | Some s =>
      if sl_occupied s then Some (pending_destroy s, write_slot index mark_unloading r) else None
  | None => None
  end.

Definition destroy_slot_end (index : nat) (close_status : cmeta_plugin_status)
    (r : registry_impl) : registry_impl :=
  if negb (bool_decide (close_status = CMETA_PLUGIN_OK))
  then set_destroying false (write_slot index (set_unloading false) r)
  else clear_slot_locked index r.

(** * Sequential operations *)

(** [registry->impl]; a NULL registry is [None]. *)
Record cmeta_plugin_registry := mk_registry { rg_impl : option registry_impl }.

(** The dynamic loader, the C heap and the code of the loaded plugins, acting
    on a world [W] of which nothing is assumed. *)
Record host (W : Type) := mk_host {
  h_utf8_valid : string -> nat -> bool;
  h_alloc : W -> bool * W;
  h_dlopen : string -> W -> option addr * W;
  h_dlsym : addr -> W -> (option addr * bool) * W;
  h_dlclose : addr -> W -> bool * W;
  h_query : addr -> Z -> W -> option cmeta_plugin_manifest * W;
  h_start : addr -> option addr -> W -> cmeta_plugin_status * W;
  h_request_stop : addr -> option addr -> W -> cmeta_plugin_status * W;
  h_is_quiescent : addr -> option addr -> W -> bool * W;
  h_destroy : addr -> option addr -> W -> W;
}.

Arguments h_utf8_valid {W} _.
Arguments h_alloc {W} _.
Arguments h_dlopen {W} _.
Arguments h_dlsym {W} _.
Arguments h_dlclose {W} _.
Arguments h_query {W} _.
Arguments h_start {W} _.
Arguments h_request_stop {W} _.
Arguments h_is_quiescent {W} _.
Arguments h_destroy {W} _.

Section Operations.
  Context {W : Type} (H : host W).

Definition registry_impl_of (registry : option cmeta_plugin_registry) : option registry_impl :=
  registry ≫= rg_impl.

(** The object [registry] points at, once its impl holds [r]. *)
Definition holding (r : registry_impl) : option cmeta_plugin_registry :=
  Some (mk_registry (Some r)).

(** [cmeta_plugin_platform_close]; the second result is the handle left. *)
Definition platform_close (handle : option addr) (w : W)
    : cmeta_plugin_status * option addr * W :=
  match handle with
  | None => (CMETA_PLUGIN_INVALID_ARGUMENT, None, w)
  | Some h =>
      let '(closed, w) := h_dlclose H h w in
      if negb closed then (CMETA_PLUGIN_UNLOAD_FAILED, Some h, w)
      else (CMETA_PLUGIN_OK, None, w)
  end.

(** The status, [out_library->handle], [*out_query]. *)
Definition platform_open (path : cstr) (w : W)
    : cmeta_plugin_status * option addr * option addr * W :=
  match path with
  | None => (CMETA_PLUGIN_INVALID_ARGUMENT, None, None, w)
  | Some p =>
      let '(handle, w) := h_dlopen H p w in
      match handle with
      | None => (CMETA_PLUGIN_LOAD_FAILED, None, None, w)
      | Some h =>
          let '((symbol, error), w) := h_dlsym H h w in
          if error || is_null symbol then
            let '(cleanup_status, _, w) := platform_close (Some h) w in
            (plugin_ok_then cleanup_status CMETA_PLUGIN_QUERY_MISSING, None, None, w)
          else (CMETA_PLUGIN_OK, Some h, symbol, w)
      end
  end.

Definition close_rejected_library (library : option addr) (rejection : cmeta_plugin_status) (w : W)
    : cmeta_plugin_status * W :=
  let '(close_status, _, w) := platform_close library w in
  (if bool_decide (close_status = CMETA_PLUGIN_OK) then rejection else close_status, w).

Definition close_rejected_load (r : registry_impl) (library : option addr)
    (rejection : cmeta_plugin_status) (w : W) : cmeta_plugin_status * registry_impl * W :=
  let '(status, w) := close_rejected_library library rejection w in
  (status, release_load_reservation r, w).

(** [sizeof(cmeta_plugin_registry_slot)] on LP64. *)
Definition sizeof_registry_slot : Z := 320.

(** [config] is the capacity it holds. *)
Definition cmeta_plugin_registry_init (registry : option cmeta_plugin_registry)
    (config : option nat) (w : W) : cmeta_plugin_status * option cmeta_plugin_registry * W :=
  match registry, config with
  | Some g, Some capacity =>
      if negb (is_null (rg_impl g)) || (capacity =? 0)%nat
      then (CMETA_PLUGIN_INVALID_ARGUMENT, registry, w)
      else if (UINT32_MAX <? Z.of_nat capacity) ||
              (SIZE_MAX / sizeof_registry_slot <? Z.of_nat capacity)
      then (CMETA_PLUGIN_CAPACITY_EXCEEDED, registry, w)
      else
        let '(impl_ok, w) := h_alloc H w in
        if negb impl_ok then (CMETA_PLUGIN_ALLOCATION_FAILED, registry, w)
        else
          let '(slots_ok, w) := h_alloc H w in
          if negb slots_ok then (CMETA_PLUGIN_ALLOCATION_FAILED, registry, w)
          else
            let '(lock_ok, w) := h_alloc H w in
            if negb lock_ok then (CMETA_PLUGIN_ALLOCATION_FAILED, registry, w)
            else (CMETA_PLUGIN_OK, holding (initial_impl capacity), w)
  | _, _ => (CMETA_PLUGIN_INVALID_ARGUMENT, registry, w)
  end.

(** [out_ref] is a result; a NULL [out_ref] is refused before anything else
    happens and is not modelled. *)
Definition cmeta_plugin_registry_load (registry : option cmeta_plugin_registry) (path : cstr)
    (w : W) : cmeta_plugin_status * cmeta_plugin_ref * option cmeta_plugin_registry * W :=
  match registry_impl_of registry with
  | None => (CMETA_PLUGIN_INVALID_ARGUMENT, zero_ref, registry, w)
  | Some r =>
      if negb (bounded_utf8_path_valid (h_utf8_valid H) path)
      then (CMETA_PLUGIN_INVALID_ARGUMENT, zero_ref, registry, w)
      else
        let '(status, r) := load_reserve r in
        if negb (bool_decide (status = CMETA_PLUGIN_OK)) then (status, zero_ref, holding r, w)
        else
          let '(status, library, query, w) := platform_open path w in
          if negb (bool_decide (status = CMETA_PLUGIN_OK))
          then (status, zero_ref, holding (release_load_reservation r), w)
          else
            let '(manifest, w) :=
              match query with
              | Some q => h_query H q CMETA_PLUGIN_ABI_VERSION w
              | None => (None, w)
              end in
            match manifest with
            | None =>
                let '(status, r, w) := close_rejected_load r library CMETA_PLUGIN_QUERY_REJECTED w
                in (status, zero_ref, holding r, w)
            | Some m =>
                let status := cmeta_plugin_manifest_validate (Some m) in
                if negb (bool_decide (status = CMETA_PLUGIN_OK)) then
                  let '(status, r, w) := close_rejected_load r library status w in
                  (status, zero_ref, holding r, w)
                else
                  let '(status, ref, r) := load_publish library m r in
                  if bool_decide (status = CMETA_PLUGIN_OK)
                  then (CMETA_PLUGIN_OK, ref, holding r, w)
                  else
                    let '(status, r, w) := close_rejected_load r library status w in
                    (status, zero_ref, holding r, w)
            end
  end.

Definition cmeta_plugin_registry_find (registry : option cmeta_plugin_registry) (plugin_id : cstr)
    : cmeta_plugin_status * cmeta_plugin_ref :=
  match registry_impl_of registry with
  | None => (CMETA_PLUGIN_INVALID_ARGUMENT, zero_ref)
  | Some r =>
      if negb (bounded_cstr_valid plugin_id CMETA_PLUGIN_ID_MAX)
      then (CMETA_PLUGIN_INVALID_ARGUMENT, zero_ref)
      else
        match find_below (im_capacity r) (slot_test r (publishes_id plugin_id)) with
        | Some index =>
            (CMETA_PLUGIN_OK,
             mk_ref (u32 (Z.of_nat index + 1))
               match im_slots r !! index with Some s => sl_generation s | None => 0 end)
        | None => (CMETA_PLUGIN_UNKNOWN_PLUGIN, zero_ref)
        end
  end.

Definition cmeta_plugin_registry_start (registry : option cmeta_plugin_registry)
    (ref : cmeta_plugin_ref) (w : W)
    : cmeta_plugin_status * option cmeta_plugin_registry * W :=
  match registry_impl_of registry with
  | None => (CMETA_PLUGIN_INVALID_ARGUMENT, registry, w)
  | Some r =>
      match start_begin ref r with
      | Returns status r => (status, holding r, w)
      | Calls index callback self r =>
          let '(status, w) := h_start H callback self w in
          (status, holding (start_end index status r), w)
      end
  end.

Definition cmeta_plugin_registry_acquire (registry : option cmeta_plugin_registry)
    (ref : cmeta_plugin_ref)
    : cmeta_plugin_status * cmeta_plugin_lease * option cmeta_plugin_manifest *
      option cmeta_plugin_registry :=
  match registry_impl_of registry with
  | None => (CMETA_PLUGIN_INVALID_ARGUMENT, zero_lease, None, registry)
  | Some r =>
      let '(status, lease, manifest, r) := acquire_locked ref r in
      (status, lease, manifest, holding r)
  end.

(** The status, the registry and the lease object afterwards. *)
Definition cmeta_plugin_registry_release (registry : option cmeta_plugin_registry)
    (lease : option cmeta_plugin_lease)
    : cmeta_plugin_status * option cmeta_plugin_registry * option cmeta_plugin_lease :=
  match registry_impl_of registry, lease with
  | Some r, Some l =>
      if negb (cmeta_plugin_lease_valid l) then (CMETA_PLUGIN_INVALID_ARGUMENT, registry, lease)
      else let '(status, l, r) := release_locked l r in (status, holding r, Some l)
  | _, _ => (CMETA_PLUGIN_INVALID_ARGUMENT, registry, lease)
  end.

Definition cmeta_plugin_registry_request_stop (registry : option cmeta_plugin_registry)
    (ref : cmeta_plugin_ref) (w : W)
    : cmeta_plugin_status * option cmeta_plugin_registry * W :=
  match registry_impl_of registry with
  | None => (CMETA_PLUGIN_INVALID_ARGUMENT, registry, w)
  | Some r =>
      match request_stop_begin ref r with
      | Returns status r => (status, holding r, w)
      | Calls index callback self r =>
          let '(status, w) := h_request_stop H callback self w in
          (status, holding (request_stop_end index status r), w)
      end
  end.

(** The status, [*out_quiescent], the registry. *)
Definition cmeta_plugin_registry_poll_quiescent (registry : option cmeta_plugin_registry)
    (ref : cmeta_plugin_ref) (w : W)
    : cmeta_plugin_status * bool * option cmeta_plugin_registry * W :=
  match registry_impl_of registry with
  | None => (CMETA_PLUGIN_INVALID_ARGUMENT, false, registry, w)
  | Some r =>
      match poll_begin ref r with
      | (Returns status r, quiescent) => (status, quiescent, holding r, w)
      | (Calls index callback self r, _) =>
          let '(quiescent, w) := h_is_quiescent H callback self w in
          (CMETA_PLUGIN_OK, quiescent, holding (poll_end index quiescent r), w)
      end
  end.

Definition cmeta_plugin_registry_get_lifecycle (registry : option cmeta_plugin_registry)
    (ref : cmeta_plugin_ref) : cmeta_plugin_status * cmeta_plugin_lifecycle_info :=
  let zero := mk_lifecycle_info LIFECYCLE_NONE 0 0 CMETA_PLUGIN_OK in
  match registry_impl_of registry with
  | None => (CMETA_PLUGIN_INVALID_ARGUMENT, zero)
  | Some r =>
      match slot_for_ref_locked r ref with
      | inl status => (status, zero)
      | inr (_, slot) =>
          (CMETA_PLUGIN_OK,
           mk_lifecycle_info (sl_state slot) (sl_active_leases slot)
             (sl_callbacks_inflight slot) (sl_failure slot))
      end
  end.

Definition call_destroy (destroy : destroy_call) (w : W) : W :=
  match destroy with Some (callback, self) => h_destroy H callback self w | None => w end.

(** [cmeta_plugin_platform_close(&slot->library)], which runs unlocked. *)
Definition close_slot (index : nat) (r : registry_impl) (w : W)
    : cmeta_plugin_status * registry_impl * W :=
  let library := match im_slots r !! index with Some s => sl_library s | None => None end in
  let '(status, handle, w) := platform_close library w in
  (status, write_slot index (set_library handle) r, w).

Definition cmeta_plugin_registry_unload (registry : option cmeta_plugin_registry)
    (ref : cmeta_plugin_ref) (w : W)
    : cmeta_plugin_status * option cmeta_plugin_registry * W :=
  match registry_impl_of registry with
  | None => (CMETA_PLUGIN_INVALID_ARGUMENT, registry, w)
  | Some r =>
      match unload_begin ref r with
      | UnloadReturns status r => (status, holding r, w)
      | Unloading index destroy r =>
          let w := call_destroy destroy w in
          let r := after_destroy index (negb (is_null destroy)) r in
          let '(status, r, w) := close_slot index r w in
          (status, holding (unload_end index status r), w)
      end
  end.

Definition cmeta_plugin_registry_count (registry : option cmeta_plugin_registry) : Z :=
  match registry_impl_of registry with
  | None => 0
  | Some r => im_count r
  end.

(** The teardown loop from [index]; [remaining] slots are left to visit. *)
Fixpoint destroy_loop (index remaining : nat) (r : registry_impl) (w : W)
    : cmeta_plugin_status * registry_impl * W :=
  match remaining with
  | O => (CMETA_PLUGIN_OK, r, w)
  | S remaining' =>
      match destroy_slot_begin index r with
      | None => destroy_loop (S index) remaining' r w
      | Some (destroy, r) =>
          let w := call_destroy destroy w in
          let r := after_destroy index (negb (is_null destroy)) r in
          let '(status, r, w) := close_slot index r w in
          let r := destroy_slot_end index status r in
          if negb (bool_decide (status = CMETA_PLUGIN_OK)) then (status, r, w)
          else destroy_loop (S index) remaining' r w
      end
  end.

Definition cmeta_plugin_registry_destroy (registry : option cmeta_plugin_registry) (w : W)
    : cmeta_plugin_status * option cmeta_plugin_registry * W :=
  match registry with
  | None => (CMETA_PLUGIN_INVALID_ARGUMENT, registry, w)
  | Some g =>
      match rg_impl g with
      | None => (CMETA_PLUGIN_OK, registry, w)
      | Some r =>
          let '(status, r) := destroy_begin r in
          if negb (bool_decide (status = CMETA_PLUGIN_OK)) then (status, holding r, w)
          else
            let '(status, r, w) := destroy_loop 0 (im_capacity r) r w in
            if negb (bool_decide (status = CMETA_PLUGIN_OK)) then (status, holding r, w)
            else (CMETA_PLUGIN_OK, Some (mk_registry None), w)
      end
  end.

End Operations.
