(* ===== verification/RegistryInvariant.v ===== *)
(** The invariant of the plugin registry and that every critical section of
    [PluginRegistry] keeps it: counters count what they say, the lease mask and
    [active_leases] agree, leases and callbacks pin their slot, published
    manifests are well formed and their plugin ids distinct. *)

From S2P Require Import Prelude CMetaType CMetaFunction CMetaInterface PluginManifest.
From S2P Require Import PluginRegistry.

(** * Bit masks *)

Lemma u64_land_ones z : u64 z = Z.land z (Z.ones 64).
Proof. unfold u64. by rewrite Z.land_ones by lia. Qed.

Lemma u64_testbit z n : 0 <= n -> Z.testbit (u64 z) n = Z.testbit z n && (n <? 64).
Proof.
  intros Hn. unfold u64. destruct (Z.ltb_spec n 64).
  - by rewrite Z.mod_pow2_bits_low, andb_true_r by lia.
  - by rewrite Z.mod_pow2_bits_high, andb_false_r by lia.
Qed.

Lemma lease_bit_testbit i n :
  0 <= n -> Z.testbit (lease_bit i) n = bool_decide (n = Z.of_nat i).
Proof.
  intros Hn. unfold lease_bit. rewrite Z.shiftl_spec by done.
  case_bool_decide as H.
  - subst. by rewrite Z.sub_diag.
  - destruct (Z.ltb_spec n (Z.of_nat i)); [by rewrite Z.testbit_neg_r by lia|].
    apply Z.bits_above_log2; simpl; lia.
Qed.

Lemma lease_is_free_testbit mask i :
  lease_is_free mask i = negb (Z.testbit mask (Z.of_nat i)).
Proof.
  unfold lease_is_free. destruct (Z.testbit mask (Z.of_nat i)) eqn:Hb; simpl.
  - apply Z.eqb_neq. intros H0. apply (f_equal (fun z => Z.testbit z (Z.of_nat i))) in H0.
    rewrite Z.land_spec, Hb, lease_bit_testbit, Z.bits_0 in H0 by lia.
    by rewrite bool_decide_true in H0.
  - apply Z.eqb_eq, Z.bits_inj'. intros n Hn.
    rewrite Z.land_spec, lease_bit_testbit, Z.bits_0 by done.
    case_bool_decide; [subst; by rewrite Hb|by rewrite andb_false_r].
Qed.

(** The number of live leases a mask records. *)
Definition popcount (mask : Z) : Z :=
  count_if (fun i => Z.testbit mask (Z.of_nat i)) (seq 0 CMETA_PLUGIN_MAX_LEASES_PER_PLUGIN).

Lemma count_if_flip (P Q : nat -> bool) l x :
  NoDup l -> x ∈ l -> P x = false -> Q x = true -> (forall y, y <> x -> P y = Q y) ->
  count_if Q l = count_if P l + 1.
Proof.
  intros Hnd Hx HP HQ Hext. induction Hnd as [|y l Hy Hnd IH]; simpl;
    [by apply elem_of_nil in Hx|].
  apply elem_of_cons in Hx as [->|Hx].
  - rewrite HP, HQ. simpl. rewrite (count_if_ext Q P l); [lia|].
    intros z Hz. symmetry. apply Hext. by intros ->.
  - rewrite IH, (Hext y) by (done || by intros ->). lia.
Qed.

Lemma lease_index_in i : (i < 64)%nat -> i ∈ seq 0 CMETA_PLUGIN_MAX_LEASES_PER_PLUGIN.
Proof. intros. apply elem_of_seq. unfold CMETA_PLUGIN_MAX_LEASES_PER_PLUGIN. lia. Qed.

Lemma mask_set_testbit mask i n :
  0 <= n ->
  Z.testbit (Z.lor mask (lease_bit i)) n = Z.testbit mask n || bool_decide (n = Z.of_nat i).
Proof. intros. by rewrite Z.lor_spec, lease_bit_testbit. Qed.

Lemma mask_clear_testbit mask i n :
  0 <= n < 64 ->
  Z.testbit (Z.land mask (u64 (Z.lnot (lease_bit i)))) n =
  Z.testbit mask n && negb (bool_decide (n = Z.of_nat i)).
Proof.
  intros. rewrite Z.land_spec, u64_testbit, Z.lnot_spec, lease_bit_testbit by lia.
  destruct (Z.ltb_spec n 64); [by rewrite andb_true_r|lia].
Qed.

Lemma popcount_set mask i :
  (i < 64)%nat -> Z.testbit mask (Z.of_nat i) = false ->
  popcount (Z.lor mask (lease_bit i)) = popcount mask + 1.
Proof.
  intros Hi Hb. apply (count_if_flip _ _ _ i); [apply NoDup_seq|by apply lease_index_in|done|..].
  - rewrite mask_set_testbit, bool_decide_true by lia. apply orb_true_r.
  - intros y Hy. rewrite mask_set_testbit, bool_decide_false by lia. by rewrite orb_false_r.
Qed.

Lemma popcount_clear mask i :
  (i < 64)%nat -> Z.testbit mask (Z.of_nat i) = true ->
  popcount (Z.land mask (u64 (Z.lnot (lease_bit i)))) = popcount mask - 1.
Proof.
  intros Hi Hb. enough (popcount mask = popcount (Z.land mask (u64 (Z.lnot (lease_bit i)))) + 1)
    by lia.
  unfold popcount.
  rewrite (count_if_ext (fun j => Z.testbit (Z.land _ _) _)
             (fun j => Z.testbit mask (Z.of_nat j) && negb (bool_decide (j = i)))).
  - apply (count_if_flip _ _ _ i); [apply NoDup_seq|by apply lease_index_in| |done|].
    + by rewrite bool_decide_true, andb_false_r.
    + intros y Hy. by rewrite bool_decide_false, andb_true_r.
  - intros j Hj%elem_of_seq. rewrite mask_clear_testbit
      by (unfold CMETA_PLUGIN_MAX_LEASES_PER_PLUGIN in *; lia).
    do 2 f_equal. apply bool_decide_ext. lia.
Qed.

Lemma popcount_bounds mask : 0 <= popcount mask <= 64.
Proof.
  unfold popcount. pose proof (count_if_le (fun i => Z.testbit mask (Z.of_nat i))
    (seq 0 CMETA_PLUGIN_MAX_LEASES_PER_PLUGIN)) as H. rewrite length_seq in H.
  split; [apply count_if_nonneg|exact H].
Qed.

Lemma popcount_0 mask :
  u64 mask = mask -> popcount mask = 0 <-> mask = 0.
Proof.
  intros Hw. unfold popcount. rewrite count_if_0. split.
  - intros H. apply Z.bits_inj'. intros n Hn. rewrite Z.bits_0, <- Hw, u64_testbit by done.
    destruct (Z.ltb_spec n 64); [|by rewrite andb_false_r].
    rewrite andb_true_r. rewrite <- (Z2Nat.id n) by done. apply H, lease_index_in. lia.
  - intros -> i _. apply Z.bits_0.
Qed.

Lemma mask_set_width mask i : (i < 64)%nat -> u64 mask = mask ->
  u64 (Z.lor mask (lease_bit i)) = Z.lor mask (lease_bit i).
Proof.
  intros Hi Hw. apply Z.bits_inj'. intros n Hn.
  rewrite u64_testbit, mask_set_testbit by done.
  rewrite <- Hw at 2. rewrite u64_testbit by done.
  destruct (Z.ltb_spec n 64); [by rewrite !andb_true_r|].
  rewrite !andb_false_r, bool_decide_false by lia. done.
Qed.

Lemma mask_clear_width mask i : u64 mask = mask ->
  u64 (Z.land mask (u64 (Z.lnot (lease_bit i)))) = Z.land mask (u64 (Z.lnot (lease_bit i))).
Proof.
  intros Hw. apply Z.bits_inj'. intros n Hn. rewrite u64_testbit by done.
  destruct (Z.ltb_spec n 64); [by rewrite andb_true_r|].
  rewrite andb_false_r, Z.land_spec, <- Hw, u64_testbit by done.
  destruct (Z.ltb_spec n 64); [lia|]. by rewrite andb_false_r.
Qed.

(** * Generations *)

Definition valid_generation (g : Z) : Prop := 1 <= g <= UINT32_MAX.

Lemma next_generation_valid g : valid_generation (next_generation g).
Proof.
  unfold next_generation, valid_generation, u32, UINT32_MAX.
  pose proof (Z.mod_pos_bound (g + 1) (2 ^ 32) eq_refl).
  destruct (Z.eqb_spec ((g + 1) mod 2 ^ 32) 0); lia.
Qed.

(** On [1 .. 2^32-1] the generation counter is the successor, wrapping to 1. *)
Lemma next_generation_step g :
  valid_generation g -> next_generation g = g mod UINT32_MAX + 1.
Proof.
  unfold valid_generation, next_generation, u32, UINT32_MAX. intros Hg.
  destruct (Z.eq_dec g (2 ^ 32 - 1)) as [->|Hne].
  - done.
  - rewrite (Z.mod_small g) by lia. rewrite Z.mod_small by lia.
    destruct (Z.eqb_spec (g + 1) 0); lia.
Qed.

Fixpoint generation_after (n : nat) (g : Z) : Z :=
  match n with O => g | S n' => next_generation (generation_after n' g) end.

Lemma generation_after_valid n g : valid_generation g -> valid_generation (generation_after n g).
Proof. destruct n; simpl; [done|]. intros _. apply next_generation_valid. Qed.

Lemma generation_after_mod n g :
  valid_generation g -> generation_after n g = (g - 1 + Z.of_nat n) mod UINT32_MAX + 1.
Proof.
  intros Hg. induction n as [|n IH].
  - simpl. rewrite Z.add_0_r, Z.mod_small; unfold valid_generation in Hg; lia.
  - cbn [generation_after]. rewrite next_generation_step by by apply generation_after_valid.
    rewrite IH, Zplus_mod_idemp_l, Nat2Z.inj_succ. do 2 f_equal. lia.
Qed.

(** * The invariant *)

Definition leased (s : registry_slot) : Prop := sl_lease_active_mask s <> 0.

Record slot_wf (s : registry_slot) : Prop := {
  sw_generation : valid_generation (sl_generation s);
  sw_lease_slots : length (sl_lease_generations s) = CMETA_PLUGIN_MAX_LEASES_PER_PLUGIN;
  sw_lease_generations : Forall valid_generation (sl_lease_generations s);
  sw_mask : u64 (sl_lease_active_mask s) = sl_lease_active_mask s;
  sw_active : sl_active_leases s = popcount (sl_lease_active_mask s);
  (** A slot that is not occupied is idle. *)
  sw_free : sl_occupied s = false ->
    sl_state s = LIFECYCLE_NONE /\ sl_callbacks_inflight s = 0 /\
    ~ leased s /\ sl_unloading s = false /\ sl_destroy_called s = false;
  sw_manifest : sl_occupied s = true ->
    sl_state s <> LIFECYCLE_NONE /\
    exists m, sl_manifest s = Some m /\ manifest_well_formed m;
  (** Leases exist only between start and quiescence, never while unloading. *)
  sw_leased : leased s ->
    (sl_state s = CMETA_PLUGIN_LIFECYCLE_STARTED \/ sl_state s = CMETA_PLUGIN_LIFECYCLE_STOPPING)
    /\ sl_unloading s = false;
  (** At most one callback of a plugin runs, and only in these states. *)
  sw_callback : sl_callbacks_inflight s = 0 \/
    sl_callbacks_inflight s = 1 /\
    (sl_state s = CMETA_PLUGIN_LIFECYCLE_STARTING \/
     sl_state s = CMETA_PLUGIN_LIFECYCLE_STOPPING \/ sl_unloading s = true);
  sw_starting : sl_state s = CMETA_PLUGIN_LIFECYCLE_STARTING -> sl_callbacks_inflight s = 1;
  sw_unloading : sl_unloading s = true -> settled_state (sl_state s) = true;
  (** A destroyed plugin is never started or leased again. *)
  sw_destroyed : sl_destroy_called s = true -> sl_state s = CMETA_PLUGIN_LIFECYCLE_QUIESCENT;
}.

Definition slot_plugin_id (s : registry_slot) : string :=
  match sl_manifest s with Some m => text_of (pm_plugin_id m) | None => EmptyString end.

Record impl_wf (r : registry_impl) : Prop := {
  iw_capacity : (0 < im_capacity r)%nat /\ Z.of_nat (im_capacity r) <= UINT32_MAX;
  iw_slots_length : length (im_slots r) = im_capacity r;
  iw_slot : forall i s, im_slots r !! i = Some s -> slot_wf s;
  iw_count : im_count r = count_if sl_occupied (im_slots r);
  iw_loads : 0 <= im_loads_inflight r /\
    im_count r + im_loads_inflight r <= Z.of_nat (im_capacity r);
  iw_distinct : forall i j s t,
    im_slots r !! i = Some s -> im_slots r !! j = Some t ->
    sl_occupied s = true -> sl_occupied t = true -> slot_plugin_id s = slot_plugin_id t -> i = j;
}.

Lemma iw_count_bounds r : impl_wf r -> 0 <= im_count r <= Z.of_nat (im_capacity r).
Proof.
  intros [_ Hlen _ Hc _ _]. rewrite Hc, <- Hlen. split; [apply count_if_nonneg|apply count_if_le].
Qed.

(** The state a slot is in fixes its lease and callback fields. *)
Lemma slot_idle s :
  slot_wf s -> settled_state (sl_state s) = true ->
  ~ leased s /\ sl_active_leases s = 0 /\ (sl_unloading s = false -> sl_callbacks_inflight s = 0).
Proof.
  intros Hs Hst. assert (~ leased s) as Hl.
  { intros [[E|E] _]%(sw_leased _ Hs); by rewrite E in Hst. }
  split_and!; [done| |].
  - rewrite (sw_active _ Hs), popcount_0 by apply (sw_mask _ Hs). unfold leased in Hl. lia.
  - intros Hu. destruct (sw_callback _ Hs) as [|[_ [E|[E|E]]]]; [done|..].
    + by rewrite E in Hst.
    + by rewrite E in Hst.
    + congruence.
Qed.

Lemma slot_started_idle s :
  slot_wf s -> sl_state s = CMETA_PLUGIN_LIFECYCLE_STARTED ->
  sl_callbacks_inflight s = 0 /\ sl_unloading s = false /\ sl_destroy_called s = false.
Proof.
  intros Hs Hst. destruct Hs. rewrite Hst in *.
  assert (sl_unloading s = false) as Hu
    by (destruct (sl_unloading s); [by specialize (sw_unloading0 eq_refl)|done]).
  split_and!; [|done|].
  - destruct sw_callback0 as [|[_ [|[|]]]]; congruence.
  - destruct (sl_destroy_called s); [by specialize (sw_destroyed0 eq_refl)|done].
Qed.

(** ** Slot updates keep the slot invariant *)

Ltac slot_update :=
  match goal with
  | Hs : slot_wf ?s |- slot_wf _ =>
      let Hs' := fresh in pose proof Hs as Hs'; destruct Hs'; split;
      unfold leased, settled_state in *; simpl in *; try done
  end.

Lemma slot_wf_start s :
  slot_wf s -> sl_occupied s = true -> sl_unloading s = false ->
  sl_state s = CMETA_PLUGIN_LIFECYCLE_LOADED ->
  slot_wf (set_state CMETA_PLUGIN_LIFECYCLE_STARTED s) /\
  slot_wf (enter_callback (set_state CMETA_PLUGIN_LIFECYCLE_STARTING s)).
Proof.
  intros Hs Ho Hu Hst. destruct (slot_idle s Hs) as (Hl & _ & Hc); [by rewrite Hst|].
  specialize (Hc Hu). unfold leased in Hl.
  split; slot_update; rewrite ?Hst, ?Hc, ?Hu in *; try naive_solver.
Qed.

Lemma slot_wf_start_end s status :
  slot_wf s -> sl_state s = CMETA_PLUGIN_LIFECYCLE_STARTING -> sl_unloading s = false ->
  slot_wf
    (let s := leave_callback s in
     if bool_decide (status = CMETA_PLUGIN_OK)
     then set_state CMETA_PLUGIN_LIFECYCLE_STARTED s
     else record_failure status (set_state CMETA_PLUGIN_LIFECYCLE_QUIESCENT s)).
Proof.
  intros Hs Hst Hu. pose proof (sw_starting _ Hs Hst) as Hc. cbv zeta.
  unfold record_failure. case_bool_decide; [|case_bool_decide];
    slot_update; rewrite ?Hst, ?Hu, ?Hc in *; naive_solver.
Qed.

Lemma slot_wf_stop s :
  slot_wf s -> sl_occupied s = true -> sl_state s = CMETA_PLUGIN_LIFECYCLE_STARTED ->
  slot_wf (set_state CMETA_PLUGIN_LIFECYCLE_STOPPING s) /\
  slot_wf (enter_callback (set_state CMETA_PLUGIN_LIFECYCLE_STOPPING s)).
Proof.
  intros Hs Ho Hst. destruct (slot_started_idle s Hs Hst) as (Hc & Hu & Hd).
  split; slot_update; rewrite ?Hst, ?Hu, ?Hc, ?Hd in *; naive_solver.
Qed.

Lemma slot_wf_leave_stop s status :
  slot_wf s -> sl_state s = CMETA_PLUGIN_LIFECYCLE_STOPPING -> sl_callbacks_inflight s = 1 ->
  slot_wf
    (let s := leave_callback s in
     if negb (bool_decide (status = CMETA_PLUGIN_OK)) then record_failure status s else s).
Proof.
  intros Hs Hst Hc. cbv zeta. unfold record_failure.
  case_bool_decide; simpl; [|case_bool_decide];
    slot_update; rewrite ?Hst, ?Hc in *; naive_solver.
Qed.

Lemma slot_stopping_not_unloading s :
  slot_wf s -> sl_state s = CMETA_PLUGIN_LIFECYCLE_STOPPING ->
  sl_unloading s = false /\ sl_destroy_called s = false.
Proof.
  intros [] Hst. rewrite Hst in *. split.
  - destruct (sl_unloading s); [by specialize (sw_unloading0 eq_refl)|done].
  - destruct (sl_destroy_called s); [by specialize (sw_destroyed0 eq_refl)|done].
Qed.

Lemma slot_wf_poll s :
  slot_wf s -> sl_occupied s = true -> sl_state s = CMETA_PLUGIN_LIFECYCLE_STOPPING ->
  sl_active_leases s = 0 -> sl_callbacks_inflight s = 0 ->
  slot_wf (set_state CMETA_PLUGIN_LIFECYCLE_QUIESCENT s) /\ slot_wf (enter_callback s).
Proof.
  intros Hs Ho Hst Ha Hc. destruct (slot_stopping_not_unloading s Hs Hst) as [Hu Hd].
  assert (sl_lease_active_mask s = 0) as Hm
    by (apply popcount_0; [apply (sw_mask _ Hs)|by rewrite <- (sw_active _ Hs)]).
  split; slot_update; rewrite ?Hst, ?Hu, ?Hc, ?Hm in *; naive_solver.
Qed.

Lemma slot_wf_poll_end s (quiescent : bool) :
  slot_wf s -> sl_state s = CMETA_PLUGIN_LIFECYCLE_STOPPING -> sl_callbacks_inflight s = 1 ->
  ~ leased s ->
  slot_wf
    (let s := leave_callback s in
     if quiescent then set_state CMETA_PLUGIN_LIFECYCLE_QUIESCENT s else s).
Proof.
  intros Hs Hst Hc Hl. destruct (slot_stopping_not_unloading s Hs Hst) as [Hu Hd].
  unfold leased in Hl.
  destruct quiescent; slot_update; rewrite ?Hst, ?Hc in *; naive_solver.
Qed.

Lemma slot_wf_mark_unloading s :
  slot_wf s -> sl_occupied s = true -> settled_state (sl_state s) = true ->
  sl_unloading s = false -> slot_wf (mark_unloading s).
Proof.
  intros Hs Ho Hst Hu. destruct (slot_idle s Hs Hst) as (Hl & _ & Hc). specialize (Hc Hu).
  unfold leased in Hl. unfold mark_unloading. destruct (is_null _);
    slot_update; rewrite ?Hc, ?Hu in *; naive_solver.
Qed.

Lemma slot_wf_after_destroy s :
  slot_wf s -> sl_unloading s = true -> sl_callbacks_inflight s = 1 ->
  slot_wf (set_state CMETA_PLUGIN_LIFECYCLE_QUIESCENT
             (set_destroy_called true (leave_callback s))).
Proof.
  intros Hs Hu Hc. destruct (slot_idle s Hs) as (Hl & _); [by apply sw_unloading|].
  unfold leased in Hl.
  assert (sl_occupied s = true) as Ho
    by (destruct (sl_occupied s) eqn:Ho; [done|]; destruct (sw_free _ Hs Ho) as (_ & _ & _ & ? & _);
        congruence).
  slot_update; rewrite ?Hu, ?Hc in *; naive_solver.
Qed.

Lemma slot_wf_close_failed s handle :
  slot_wf s -> sl_unloading s = true -> sl_callbacks_inflight s = 0 ->
  slot_wf (set_unloading false (set_library handle s)).
Proof. intros Hs Hu Hc. slot_update; rewrite ?Hu, ?Hc in *; naive_solver. Qed.

Lemma slot_wf_cleared s : slot_wf s -> slot_wf (cleared_slot s).
Proof.
  intros Hs. slot_update; try (by intros); try tauto.
  - apply next_generation_valid.
  - by rewrite length_map.
  - apply Forall_map, Forall_true. intros ?. apply next_generation_valid.
Qed.

Lemma slot_wf_loaded s library m :
  slot_wf s -> sl_occupied s = false -> manifest_well_formed m ->
  slot_wf (loaded_slot library m s).
Proof. intros Hs Ho Hm. slot_update; naive_solver. Qed.

(** ** Writes through a slot pointer *)

(** [f] keeps the invariant of [s] and neither publishes nor withdraws it. *)
Definition keeps_slot (f : registry_slot -> registry_slot) (s : registry_slot) : Prop :=
  slot_wf (f s) /\ sl_occupied (f s) = sl_occupied s /\ sl_manifest (f s) = sl_manifest s.

Lemma write_slot_lookup r i f j t :
  im_slots (write_slot i f r) !! j = Some t <->
  exists s, im_slots r !! j = Some s /\ t = if decide (i = j) then f s else s.
Proof. apply lookup_alter_case. Qed.

Lemma write_slot_at r i f s :
  im_slots r !! i = Some s -> im_slots (write_slot i f r) !! i = Some (f s).
Proof. intros Hi. apply write_slot_lookup. exists s. by rewrite decide_True. Qed.

Lemma write_slot_other r i j f :
  i <> j -> im_slots (write_slot i f r) !! j = im_slots r !! j.
Proof. intros. unfold write_slot; simpl. by apply list_lookup_alter_ne. Qed.

Lemma write_slot_twice r i f g :
  write_slot i g (write_slot i f r) = write_slot i (fun s => g (f s)) r.
Proof.
  unfold write_slot, set_slots; simpl. f_equal. apply list_eq. intros j.
  rewrite !list_lookup_alter. destruct (decide (i = j)) as [->|]; [|done].
  rewrite decide_True by done. by destruct (im_slots r !! j).
Qed.

Lemma impl_wf_write r i f s :
  impl_wf r -> im_slots r !! i = Some s -> keeps_slot f s -> impl_wf (write_slot i f r).
Proof.
  intros [Hcap Hlen Hslot Hcount Hloads Hdist] Hi (Hwf & Hocc & Hman). split; simpl.
  - done.
  - by rewrite length_alter.
  - intros j t (u & Hu & ->)%lookup_alter_case.
    destruct (decide (i = j)) as [<-|]; [simplify_eq; done|by eapply Hslot].
  - rewrite (count_if_alter _ f i _ s Hi), Hocc. lia.
  - done.
  - intros j k t u (t' & Ht & ->)%lookup_alter_case (u' & Hu & ->)%lookup_alter_case.
    assert (forall n v, im_slots r !! n = Some v ->
              sl_occupied (if decide (i = n) then f v else v) = sl_occupied v /\
              slot_plugin_id (if decide (i = n) then f v else v) = slot_plugin_id v) as Hsame.
    { intros n v Hv. destruct (decide (i = n)) as [<-|]; [|done]. simplify_eq.
      unfold slot_plugin_id. by rewrite Hman. }
    destruct (Hsame j t' Ht) as [-> ->], (Hsame k u' Hu) as [-> ->]. by apply Hdist.
Qed.

(** What a reference that resolves denotes. *)
Lemma slot_for_ref_inr r ref i s :
  slot_for_ref_locked r ref = inr (i, s) ->
  im_slots r !! i = Some s /\ (i < im_capacity r)%nat /\ sl_occupied s = true /\
  sl_generation s = ref_generation ref /\ i = Z.to_nat (ref_slot ref - 1) /\
  ref_slot ref <> 0 /\ ref_generation ref <> 0.
Proof.
  unfold slot_for_ref_locked, cmeta_plugin_ref_valid. intros H.
  repeat (case_if; try discriminate H). destruct (im_slots r !! _) as [t|] eqn:Ht; [|done].
  case_if. simplify_eq. destruct_bools. done.
Qed.

Lemma slot_for_ref_intro r ref i s :
  im_slots r !! i = Some s -> (i < im_capacity r)%nat -> sl_occupied s = true ->
  ref = mk_ref (Z.of_nat i + 1) (sl_generation s) -> sl_generation s <> 0 ->
  slot_for_ref_locked r ref = inr (i, s).
Proof.
  intros Hi Hlt Ho -> Hg. unfold slot_for_ref_locked, cmeta_plugin_ref_valid; simpl.
  destruct (Z.eqb_spec (Z.of_nat i + 1) 0); [lia|]. apply Z.eqb_neq in Hg as ->. simpl.
  replace (Z.to_nat (Z.of_nat i + 1 - 1)) with i by lia.
  destruct (Nat.leb_spec (im_capacity r) i); [lia|]. rewrite Hi, Ho, Z.eqb_refl. done.
Qed.

(** The generation check: a reference with another generation is stale. *)
Lemma slot_for_ref_stale r ref :
  cmeta_plugin_ref_valid ref = true ->
  (forall s, im_slots r !! Z.to_nat (ref_slot ref - 1) = Some s ->
     sl_occupied s = true -> sl_generation s <> ref_generation ref) ->
  slot_for_ref_locked r ref = inl CMETA_PLUGIN_STALE.
Proof.
  unfold slot_for_ref_locked. intros -> Hs. simpl.
  destruct (im_capacity r <=? _)%nat; [done|].
  destruct (im_slots r !! _) as [s|]; [|done].
  destruct (sl_occupied s) eqn:Ho; simpl; [|done].
  destruct (Z.eqb_spec (sl_generation s) (ref_generation ref)); [|done].
  by destruct (Hs s eq_refl Ho).
Qed.

Arguments slot_for_ref_locked : simpl never.
Arguments write_slot : simpl never.

(** ** Critical sections keep the invariant *)

Definition outcome_impl (o : begin_outcome) : registry_impl :=
  match o with Returns _ r | Calls _ _ _ r => r end.

Ltac open_section :=
  match goal with
  | |- context [slot_for_ref_locked ?r ?ref] =>
      let Hs := fresh "Hslot" in
      destruct (slot_for_ref_locked r ref) as [?|[?i ?s]] eqn:Hs;
      [|apply slot_for_ref_inr in Hs as (?Hi & ?Hlt & ?Hocc & ?Hgen & ?Hix & _)]
  end.

Lemma start_begin_wf ref r : impl_wf r -> impl_wf (outcome_impl (start_begin ref r)).
Proof.
  intros Hr. unfold start_begin. open_section; [done|].
  repeat (case_if; [done|]). destruct_bools.
  destruct (slot_wf_start s) as [Hw1 Hw2]; [by eapply iw_slot|done..|].
  destruct (manifest_of s pm_start); simpl;
    (eapply impl_wf_write; [done|exact Hi|]); split_and!; done.
Qed.

Lemma start_end_wf r i s status :
  impl_wf r -> im_slots r !! i = Some s -> sl_state s = CMETA_PLUGIN_LIFECYCLE_STARTING ->
  impl_wf (start_end i status r).
Proof.
  intros Hr Hi Hst. pose proof (iw_slot _ Hr i s Hi) as Hs.
  assert (sl_unloading s = false) as Hu.
  { destruct (sl_unloading s) eqn:Hu; [|done]. apply (sw_unloading _ Hs) in Hu.
    by rewrite Hst in Hu. }
  eapply impl_wf_write; [done|exact Hi|]. split; [by apply slot_wf_start_end|].
  unfold record_failure. repeat case_bool_decide; done.
Qed.

Lemma request_stop_begin_wf ref r :
  impl_wf r -> impl_wf (outcome_impl (request_stop_begin ref r)).
Proof.
  intros Hr. unfold request_stop_begin. open_section; [done|].
  repeat (case_if; [done|]). destruct_bools.
  destruct (slot_wf_stop s) as [Hw1 Hw2]; [by eapply iw_slot|done..|].
  destruct (manifest_of s pm_request_stop); simpl; rewrite ?write_slot_twice;
    (eapply impl_wf_write; [done|exact Hi|]); split_and!; done.
Qed.

Lemma request_stop_end_wf r i s status :
  impl_wf r -> im_slots r !! i = Some s -> sl_state s = CMETA_PLUGIN_LIFECYCLE_STOPPING ->
  sl_callbacks_inflight s = 1 -> impl_wf (request_stop_end i status r).
Proof.
  intros Hr Hi Hst Hc. eapply impl_wf_write; [done|exact Hi|].
  split; [apply slot_wf_leave_stop; [by eapply iw_slot|done..]|].
  unfold record_failure. repeat case_bool_decide; done.
Qed.

Lemma poll_begin_wf ref r : impl_wf r -> impl_wf (outcome_impl (fst (poll_begin ref r))).
Proof.
  intros Hr. unfold poll_begin. open_section; [done|].
  repeat (case_if; [done|]). destruct_bools.
  destruct (slot_wf_poll s) as [Hw1 Hw2]; [by eapply iw_slot|done..|].
  destruct (manifest_of s pm_is_quiescent); simpl;
    (eapply impl_wf_write; [done|exact Hi|]); split_and!; done.
Qed.

Lemma poll_end_wf r i s quiescent :
  impl_wf r -> im_slots r !! i = Some s -> sl_state s = CMETA_PLUGIN_LIFECYCLE_STOPPING ->
  sl_callbacks_inflight s = 1 -> ~ leased s -> impl_wf (poll_end i quiescent r).
Proof.
  intros Hr Hi Hst Hc Hl. eapply impl_wf_write; [done|exact Hi|].
  split; [apply slot_wf_poll_end; [by eapply iw_slot|done..]|]. by destruct quiescent.
Qed.

(** *** Leases *)

Lemma popcount_pos_leased s : slot_wf s -> sl_active_leases s <> 0 <-> leased s.
Proof.
  intros Hs. unfold leased. rewrite (sw_active _ Hs), popcount_0 by apply (sw_mask _ Hs). done.
Qed.


Definition acquired (bit : nat) (s : registry_slot) : registry_slot :=
  set_leases (size_inc (sl_active_leases s)) (Z.lor (sl_lease_active_mask s) (lease_bit bit))
    (sl_lease_generations s) s.

Lemma slot_active_bounds s : slot_wf s -> 0 <= sl_active_leases s <= 64.
Proof. intros Hs. rewrite (sw_active _ Hs). apply popcount_bounds. Qed.

Lemma slot_wf_acquired s bit :
  slot_wf s -> sl_occupied s = true -> sl_state s = CMETA_PLUGIN_LIFECYCLE_STARTED ->
  (bit < 64)%nat -> Z.testbit (sl_lease_active_mask s) (Z.of_nat bit) = false ->
  slot_wf (acquired bit s).
Proof.
  intros Hs Ho Hst Hbit Hfree. destruct (slot_started_idle s Hs Hst) as (_ & Hu & _).
  pose proof (slot_active_bounds s Hs) as Hb. pose proof (mask_set_width _ _ Hbit (sw_mask _ Hs)).
  slot_update.
  - rewrite popcount_set by done. rewrite size_inc_small by (unfold SIZE_MAX; lia). lia.
  - by rewrite Ho.
  - auto.
Qed.

Lemma slot_wf_released s bit :
  slot_wf s -> sl_occupied s = true -> (bit < 64)%nat ->
  Z.testbit (sl_lease_active_mask s) (Z.of_nat bit) = true -> slot_wf (release_slot bit s).
Proof.
  intros Hs Ho Hbit Hset.
  assert (leased s) as Hl by (intros H0; by rewrite H0, Z.bits_0 in Hset).
  pose proof Hl as Ha%popcount_pos_leased; [|done]. pose proof (slot_active_bounds s Hs) as Hb.
  pose proof (mask_clear_width _ bit (sw_mask _ Hs)). specialize (sw_leased _ Hs Hl) as Hst.
  slot_update.
  - by rewrite length_alter.
  - apply Forall_lookup. intros j g (x & Hx & ->)%lookup_alter_case.
    destruct (decide (bit = j)); [apply next_generation_valid|].
    by apply (proj1 (Forall_lookup _ _) sw_lease_generations0 j x).
  - rewrite popcount_clear by done. apply Z.eqb_neq in Ha as Ha'. rewrite Ha'. simpl.
    rewrite size_dec_small by (unfold SIZE_MAX; lia). lia.
  - by rewrite Ho.
Qed.

Lemma acquire_locked_wf ref r : impl_wf r -> impl_wf (snd (acquire_locked ref r)).
Proof.
  intros Hr. unfold acquire_locked. open_section; [done|].
  repeat (case_if; [done|]). destruct_bools.
  destruct (find_below _ _) as [bit|] eqn:Hfind; [|done].
  apply find_below_Some in Hfind as (Hbit & Hfree & _).
  rewrite lease_is_free_testbit, negb_true_iff in Hfree.
  eapply impl_wf_write; [done|exact Hi|]. split; [|done].
  apply slot_wf_acquired; [by eapply iw_slot|done..].
Qed.

Lemma release_locked_wf lease r : impl_wf r -> impl_wf (snd (release_locked lease r)).
Proof.
  intros Hr. unfold release_locked. open_section; [done|].
  repeat (case_if; [done|]).
  match goal with H : (_ <=? _)%nat = false |- _ => apply Nat.leb_gt in H end. destruct_bools.
  rewrite lease_is_free_testbit in *. destruct_bools.
  eapply impl_wf_write; [done|exact Hi|]. split; [|done].
  apply slot_wf_released; [by eapply iw_slot|done..].
Qed.

(** *** Load *)

Lemma initial_slot_wf : slot_wf initial_slot.
Proof.
  assert (valid_generation 1) by done.
  split; simpl; try done; [by repeat constructor|unfold leased; simpl; auto 10|auto].
Qed.

Lemma initial_impl_wf capacity :
  (0 < capacity)%nat -> Z.of_nat capacity <= UINT32_MAX -> impl_wf (initial_impl capacity).
Proof.
  intros. split; simpl; [done|apply length_replicate| | |lia|].
  - intros i s [-> _]%lookup_replicate. apply initial_slot_wf.
  - by rewrite count_if_replicate.
  - intros i j s t [-> _]%lookup_replicate. done.
Qed.

(** Free room seen by [load_reserve]: no wrap-around in the subtraction. *)
Lemma load_room r : impl_wf r ->
  u64 (Z.of_nat (im_capacity r) - im_count r) = Z.of_nat (im_capacity r) - im_count r.
Proof.
  intros Hr. pose proof (iw_count_bounds r Hr). destruct Hr as [[_ Hcap] _ _ _ _ _].
  unfold u64, UINT32_MAX in *. apply Z.mod_small. lia.
Qed.

Lemma load_reserve_wf r : impl_wf r -> impl_wf (snd (load_reserve r)).
Proof.
  intros Hr. unfold load_reserve. rewrite load_room by done.
  repeat (case_if; [done|]). destruct_bools.
  pose proof (iw_count_bounds r Hr). destruct Hr as [Hcap Hlen Hslot Hcount Hloads Hdist].
  split; simpl; try done. rewrite size_inc_small; [lia|].
  unfold UINT32_MAX, SIZE_MAX in *. lia.
Qed.

Lemma release_reservation_wf r :
  impl_wf r -> 0 < im_loads_inflight r -> impl_wf (release_load_reservation r).
Proof.
  intros Hr Hl. pose proof (iw_count_bounds r Hr). destruct Hr as [Hcap Hlen Hslot Hcount Hloads Hdist].
  split; simpl; try done. rewrite size_dec_small; [lia|].
  unfold UINT32_MAX, SIZE_MAX in *. lia.
Qed.

(** The registry's scan for a plugin id is equality of texts. *)
Lemma plugin_id_loop_equal l r i n :
  plugin_id_loop l r i n = true -> (0 < i)%nat -> bounded_equal_loop l r i n = true.
Proof.
  revert i. induction n as [|n IH]; intros i; simpl; [done|].
  intros H Hi. repeat (case_if; try done).
  - by destruct i; [lia|].
  - apply IH; [done|lia].
Qed.

Lemma plugin_id_loop_start l r n :
  (0 < text_length l)%nat ->
  plugin_id_loop l r 0 (S n) = true -> bounded_equal_loop l r 0 (S n) = true.
Proof.
  intros Hl. simpl. destruct (char_at_text l 0 Hl) as [Hc _].
  destruct (char_eqb (char_at l 0) NUL) eqn:He; [by apply char_eqb_true in He|].
  case_if; [done|]. intros H. apply plugin_id_loop_equal; [done|lia].
Qed.

Lemma bounded_equal_plugin_id_loop l r i n :
  bounded_equal_loop l r i n = true -> plugin_id_loop l r i n = true.
Proof.
  revert i. induction n as [|n IH]; intros i; simpl; [done|].
  intros H. repeat (case_if; try done). by apply IH.
Qed.

Lemma bounded_cstr_valid_same v max : bounded_cstr_valid v max = bounded_string_valid v max.
Proof. done. Qed.

Lemma plugin_id_equal_text a b :
  bounded_string_valid a CMETA_PLUGIN_ID_MAX = true ->
  bounded_string_valid b CMETA_PLUGIN_ID_MAX = true ->
  plugin_id_equal a b = true <-> text_of a = text_of b.
Proof.
  intros Ha Hb. unfold plugin_id_equal. rewrite (bounded_cstr_valid_same a), (bounded_cstr_valid_same b).
  rewrite Ha, Hb. cbn [negb orb].
  rewrite <- (bounded_equal_valid a b CMETA_PLUGIN_ID_MAX) by done.
  destruct (bounded_string_valid_inv _ _ Ha) as (v & -> & Hv).
  destruct (bounded_string_valid_inv _ _ Hb) as (w & -> & Hw).
  unfold bounded_string_equal. change (CMETA_PLUGIN_ID_MAX =? 0)%nat with false. cbv iota.
  split; [|apply bounded_equal_plugin_id_loop].
  apply plugin_id_loop_start. lia.
Qed.

Lemma publishes_id_text s id :
  slot_wf s -> bounded_string_valid id CMETA_PLUGIN_ID_MAX = true ->
  publishes_id id s = true <-> sl_occupied s = true /\ slot_plugin_id s = text_of id.
Proof.
  intros Hs Hid. unfold publishes_id, slot_plugin_id. destruct (sl_occupied s) eqn:Ho; simpl;
    [|naive_solver].
  destruct (sw_manifest _ Hs Ho) as (_ & m & -> & Hm).
  rewrite plugin_id_equal_text; [naive_solver| |done]. apply id_well_formed_valid, Hm.
Qed.

Lemma slot_test_true r test i :
  slot_test r test i = true <-> exists s, im_slots r !! i = Some s /\ test s = true.
Proof. unfold slot_test. destruct (im_slots r !! i); naive_solver. Qed.

(** What a successful publication did. *)
Lemma load_publish_ok r library m ref r' :
  load_publish library m r = (CMETA_PLUGIN_OK, ref, r') ->
  exists i s, im_slots r !! i = Some s /\ (i < im_capacity r)%nat /\ sl_occupied s = false /\
    im_destroying r = false /\
    find_below (im_capacity r) (slot_test r (publishes_id (pm_plugin_id m))) = None /\
    ref = mk_ref (u32 (Z.of_nat i + 1)) (sl_generation s) /\
    r' = set_loads (size_dec (im_loads_inflight r))
           (set_count (size_inc (im_count r)) (write_slot i (loaded_slot library m) r)).
Proof.
  unfold load_publish. destruct (im_destroying r); [done|].
  destruct (find_below _ (slot_test r (publishes_id _))); [done|].
  destruct (find_below _ (slot_test r _)) as [i|] eqn:Hfree; [|done].
  apply find_below_Some in Hfree as (Hi & (s & Hs & Ho)%slot_test_true & _).
  rewrite Hs. intros [= <- <-]. exists i, s. by destruct_bools.
Qed.

Lemma load_publish_refused r library m status ref r' :
  load_publish library m r = (status, ref, r') -> status <> CMETA_PLUGIN_OK -> r' = r.
Proof.
  unfold load_publish. intros H Hs.
  repeat match type of H with
  | (if ?b then _ else _) = _ => destruct b
  | match ?o with Some _ => _ | None => _ end = _ => destruct o
  end; naive_solver.
Qed.

Lemma publish_wf r i s library m :
  impl_wf r -> manifest_well_formed m -> 0 < im_loads_inflight r ->
  im_slots r !! i = Some s -> sl_occupied s = false ->
  (forall j t, im_slots r !! j = Some t -> sl_occupied t = true ->
     slot_plugin_id t <> text_of (pm_plugin_id m)) ->
  impl_wf (set_loads (size_dec (im_loads_inflight r))
             (set_count (size_inc (im_count r)) (write_slot i (loaded_slot library m) r))).
Proof.
  intros Hr Hm Hl Hi Ho Hnew. pose proof (iw_count_bounds r Hr) as Hb.
  destruct Hr as [Hcap Hlen Hslot Hcount Hloads Hdist]. unfold UINT32_MAX in *.
  rewrite (size_inc_small (im_count r)), (size_dec_small (im_loads_inflight r))
    by (unfold SIZE_MAX; lia).
  split; simpl; [done|by rewrite length_alter| | |lia|].
  - intros j t (u & Hu & ->)%lookup_alter_case. case_decide; [|by eapply Hslot].
    simplify_eq. apply slot_wf_loaded; [by eapply Hslot|done..].
  - rewrite (count_if_alter _ _ i _ s Hi), Ho. simpl. lia.
  - intros j k t u (t' & Ht & ->)%lookup_alter_case (u' & Hu & ->)%lookup_alter_case.
    destruct (decide (i = j)), (decide (i = k)); simplify_eq/=; [done|..].
    + intros _ Hou Heq. by destruct (Hnew k u' Hu Hou).
    + intros Hot _ Heq. by destruct (Hnew j t' Ht Hot).
    + by apply Hdist.
Qed.

Lemma publishes_none r id :
  impl_wf r -> bounded_string_valid id CMETA_PLUGIN_ID_MAX = true ->
  find_below (im_capacity r) (slot_test r (publishes_id id)) = None ->
  forall j t, im_slots r !! j = Some t -> sl_occupied t = true -> slot_plugin_id t <> text_of id.
Proof.
  intros Hr Hid Hnone j t Hj Ho Heq. pose proof (proj1 (find_below_None _ _) Hnone) as Hn.
  assert (slot_test r (publishes_id id) j = false) as Hf.
  { apply Hn. rewrite <- (iw_slots_length r Hr). by eapply lookup_lt_Some. }
  apply not_true_iff_false in Hf. apply Hf, slot_test_true. exists t. split; [done|].
  apply publishes_id_text; [by eapply iw_slot|done..].
Qed.

Lemma load_publish_wf r library m :
  impl_wf r -> manifest_well_formed m -> 0 < im_loads_inflight r ->
  impl_wf (snd (load_publish library m r)).
Proof.
  intros Hr Hm Hl. destruct (load_publish library m r) as [[status ref] r'] eqn:Hp.
  destruct (decide (status = CMETA_PLUGIN_OK)) as [->|Hne].
  - apply load_publish_ok in Hp as (i & s & Hi & _ & Ho & _ & Hnone & _ & ->).
    eapply publish_wf; [done..|exact Hi|done|].
    apply publishes_none; [done| |done]. apply id_well_formed_valid, Hm.
  - simpl. by rewrite (load_publish_refused _ _ _ _ _ _ Hp Hne).
Qed.

(** *** Unload and destroy *)

Lemma mark_unloading_keeps s :
  slot_wf s -> sl_occupied s = true -> settled_state (sl_state s) = true ->
  sl_unloading s = false -> keeps_slot mark_unloading s.
Proof.
  intros. split; [by apply slot_wf_mark_unloading|].
  unfold mark_unloading. by destruct (is_null _).
Qed.

Definition unload_outcome_impl (o : unload_outcome) : registry_impl :=
  match o with UnloadReturns _ r | Unloading _ _ r => r end.

Lemma unload_begin_wf ref r : impl_wf r -> impl_wf (unload_outcome_impl (unload_begin ref r)).
Proof.
  intros Hr. unfold unload_begin. open_section; [done|].
  repeat (case_if; [done|]). destruct_bools.
  eapply impl_wf_write; [done|exact Hi|].
  apply mark_unloading_keeps; [by eapply iw_slot|done..].
Qed.

Lemma after_destroy_wf r i s (called : bool) :
  impl_wf r -> im_slots r !! i = Some s -> sl_unloading s = true ->
  (called = true -> sl_callbacks_inflight s = 1) -> impl_wf (after_destroy i called r).
Proof.
  intros Hr Hi Hu Hc. unfold after_destroy. destruct called; [|done].
  eapply impl_wf_write; [done|exact Hi|]. split; [|done].
  apply slot_wf_after_destroy; [by eapply iw_slot|done|auto].
Qed.

Lemma clear_slot_wf r i s :
  impl_wf r -> im_slots r !! i = Some s -> sl_occupied s = true ->
  impl_wf (clear_slot_locked i r).
Proof.
  intros Hr Hi Ho. pose proof (iw_count_bounds r Hr) as Hb.
  destruct Hr as [Hcap Hlen Hslot Hcount Hloads Hdist].
  pose proof (count_if_pos sl_occupied i _ s Hi Ho) as Hpos.
  unfold clear_slot_locked. simpl. destruct (Z.eqb_spec (im_count r) 0); [lia|]. simpl.
  unfold UINT32_MAX in *. rewrite size_dec_small by (unfold SIZE_MAX; lia).
  split; simpl; [done|by rewrite length_alter| | |lia|].
  - intros j t (u & Hu & ->)%lookup_alter_case. case_decide; [|by eapply Hslot].
    by eapply slot_wf_cleared, Hslot.
  - rewrite (count_if_alter _ _ i _ s Hi), Ho. simpl. lia.
  - intros j k t u (t' & Ht & ->)%lookup_alter_case (u' & Hu & ->)%lookup_alter_case.
    destruct (decide (i = j)), (decide (i = k)); simplify_eq/=; try done. by apply Hdist.
Qed.

Lemma set_destroying_wf b r : impl_wf r -> impl_wf (set_destroying b r).
Proof. by intros [Hcap Hlen Hslot Hcount Hloads Hdist]. Qed.

(** The write of the handle left by [platform_close] and the section after it. *)
Lemma unload_end_wf r i s status handle :
  impl_wf r -> im_slots r !! i = Some s -> sl_occupied s = true ->
  sl_unloading s = true -> sl_callbacks_inflight s = 0 ->
  impl_wf (unload_end i status (write_slot i (set_library handle) r)).
Proof.
  intros Hr Hi Ho Hu Hc. pose proof (iw_slot _ Hr _ _ Hi) as Hs. unfold unload_end.
  case_bool_decide.
  - eapply clear_slot_wf; [|by apply write_slot_at|done].
    eapply impl_wf_write; [done|exact Hi|]. split; [|done]. slot_update.
  - rewrite write_slot_twice. eapply impl_wf_write; [done|exact Hi|].
    split; [by apply slot_wf_close_failed|done].
Qed.

Lemma destroy_slot_end_wf r i s status handle :
  impl_wf r -> im_slots r !! i = Some s -> sl_occupied s = true ->
  sl_unloading s = true -> sl_callbacks_inflight s = 0 ->
  impl_wf (destroy_slot_end i status (write_slot i (set_library handle) r)).
Proof.
  intros Hr Hi Ho Hu Hc. unfold destroy_slot_end.
  pose proof (unload_end_wf r i s status handle Hr Hi Ho Hu Hc) as Hend.
  unfold unload_end in Hend. case_bool_decide; simpl; [done|]. by apply set_destroying_wf.
Qed.

Lemma destroy_begin_wf r : impl_wf r -> impl_wf (snd (destroy_begin r)).
Proof.
  intros Hr. unfold destroy_begin. case_if; [done|]. destruct (find_below _ _); [done|].
  by apply set_destroying_wf.
Qed.

Lemma destroy_slot_begin_wf r i s destroy r' :
  impl_wf r -> im_slots r !! i = Some s -> settled_state (sl_state s) = true ->
  sl_unloading s = false -> destroy_slot_begin i r = Some (destroy, r') -> impl_wf r'.
Proof.
  intros Hr Hi Hst Hu. unfold destroy_slot_begin. rewrite Hi.
  destruct (sl_occupied s) eqn:Ho; [|done]. intros [= <- <-].
  eapply impl_wf_write; [done|exact Hi|].
  apply mark_unloading_keeps; [by eapply iw_slot|done..].
Qed.
