(* ===== verification/RegistryApi.v ===== *)
(** Properties of the registry's sequential operations: what each does on every
    branch, that between calls nothing is in flight, and the round trips between
    load and find, acquire and release, unload and the stale references it
    leaves behind. *)

From S2P Require Import Prelude CMetaType CMetaFunction CMetaInterface PluginManifest.
From S2P Require Import PluginRegistry RegistryInvariant.

(** * What the critical sections do *)

(** The slot is admitted for an operation on [ref]. *)
Record admitted (r : registry_impl) (ref : cmeta_plugin_ref) (i : nat) (s : registry_slot)
    : Prop := {
  ad_ref : slot_for_ref_locked r ref = inr (i, s);
  ad_slot : im_slots r !! i = Some s;
  ad_bound : (i < im_capacity r)%nat;
  ad_occupied : sl_occupied s = true;
  ad_generation : sl_generation s = ref_generation ref;
  ad_index : i = Z.to_nat (ref_slot ref - 1);
  ad_open : im_destroying r = false;
  ad_kept : sl_unloading s = false;
}.

Lemma slot_for_ref_error r ref e :
  slot_for_ref_locked r ref = inl e -> e <> CMETA_PLUGIN_OK.
Proof.
  unfold slot_for_ref_locked. intros Href ->.
  repeat case_if; try done. destruct (im_slots r !! _); [|done]. by repeat case_if.
Qed.

(** Resolves the reference, disposes of the refusals and leaves the branch on
    which the section acts. *)
Ltac admit_slot :=
  match goal with
  | |- context [slot_for_ref_locked ?r ?ref] =>
      let Hs := fresh "Hslot" in
      destruct (slot_for_ref_locked r ref) as [?|[?i ?s]] eqn:Hs;
      [left; eexists; split; [reflexivity|by eapply slot_for_ref_error]|
       pose proof (slot_for_ref_inr _ _ _ _ Hs) as (?Hi & ?Hlt & ?Hocc & ?Hgen & ?Hix & _)]
  end;
  repeat (case_if; [left; by eexists|]); destruct_bools.

Definition starting (s : registry_slot) : registry_slot :=
  enter_callback (set_state CMETA_PLUGIN_LIFECYCLE_STARTING s).

Lemma start_begin_inv ref r :
  (exists status, start_begin ref r = Returns status r /\ status <> CMETA_PLUGIN_OK) \/
  exists i s, admitted r ref i s /\ sl_state s = CMETA_PLUGIN_LIFECYCLE_LOADED /\
    sl_active_leases s = 0 /\ sl_callbacks_inflight s = 0 /\
    start_begin ref r =
      match manifest_of s pm_start with
      | None => Returns CMETA_PLUGIN_OK
                  (write_slot i (set_state CMETA_PLUGIN_LIFECYCLE_STARTED) r)
      | Some cb => Calls i cb (manifest_of s pm_self) (write_slot i starting r)
      end.
Proof.
  unfold start_begin. admit_slot. right. exists i, s. split_and!; [by split|done..].
Qed.

Definition stopping (s : registry_slot) : registry_slot :=
  enter_callback (set_state CMETA_PLUGIN_LIFECYCLE_STOPPING s).

Lemma request_stop_begin_inv ref r :
  (exists status, request_stop_begin ref r = Returns status r /\ status <> CMETA_PLUGIN_OK) \/
  exists i s, admitted r ref i s /\ sl_state s = CMETA_PLUGIN_LIFECYCLE_STARTED /\
    request_stop_begin ref r =
      match manifest_of s pm_request_stop with
      | None => Returns CMETA_PLUGIN_OK
                  (write_slot i (set_state CMETA_PLUGIN_LIFECYCLE_STOPPING) r)
      | Some cb => Calls i cb (manifest_of s pm_self) (write_slot i stopping r)
      end.
Proof.
  unfold request_stop_begin. admit_slot. right. exists i, s. rewrite write_slot_twice.
  split_and!; [by split|done..].
Qed.

(** Polling a plugin that is quiescent already, or busy, changes nothing. *)
Lemma poll_begin_inv ref r :
  (exists status q, poll_begin ref r = (Returns status r, q)) \/
  exists i s, admitted r ref i s /\ sl_state s = CMETA_PLUGIN_LIFECYCLE_STOPPING /\
    sl_active_leases s = 0 /\ sl_callbacks_inflight s = 0 /\
    poll_begin ref r =
      match manifest_of s pm_is_quiescent with
      | None => (Returns CMETA_PLUGIN_OK
                   (write_slot i (set_state CMETA_PLUGIN_LIFECYCLE_QUIESCENT) r), true)
      | Some cb => (Calls i cb (manifest_of s pm_self) (write_slot i enter_callback r), false)
      end.
Proof.
  unfold poll_begin.
  destruct (slot_for_ref_locked r ref) as [?|[i s]] eqn:Hs; [left; by do 2 eexists|].
  pose proof (slot_for_ref_inr _ _ _ _ Hs) as (Hi & Hlt & Hocc & Hgen & Hix & _).
  repeat (case_if; [left; by do 2 eexists|]). destruct_bools.
  right. exists i, s. split_and!; [by split|done..].
Qed.

Lemma unload_begin_inv ref r :
  (exists status, unload_begin ref r = UnloadReturns status r /\ status <> CMETA_PLUGIN_OK) \/
  exists i s, admitted r ref i s /\ settled_state (sl_state s) = true /\
    sl_active_leases s = 0 /\ sl_callbacks_inflight s = 0 /\
    unload_begin ref r = Unloading i (pending_destroy s) (write_slot i mark_unloading r).
Proof.
  unfold unload_begin. admit_slot. right. exists i, s. split_and!; [by split|done..].
Qed.

(** The bit [acquire] takes: the lowest free one. *)
Lemma acquire_locked_inv ref r :
  (exists status, acquire_locked ref r = (status, zero_lease, None, r) /\
     status <> CMETA_PLUGIN_OK) \/
  exists i s bit, admitted r ref i s /\ sl_state s = CMETA_PLUGIN_LIFECYCLE_STARTED /\
    (bit < CMETA_PLUGIN_MAX_LEASES_PER_PLUGIN)%nat /\
    Z.testbit (sl_lease_active_mask s) (Z.of_nat bit) = false /\
    acquire_locked ref r =
      (CMETA_PLUGIN_OK,
       mk_lease ref (u32 (Z.of_nat bit + 1)) (default 0 (sl_lease_generations s !! bit)),
       sl_manifest s, write_slot i (acquired bit) r).
Proof.
  unfold acquire_locked. admit_slot.
  destruct (find_below _ _) as [bit|] eqn:Hfind; [|left; by eexists].
  apply find_below_Some in Hfind as (Hbit & Hfree & _).
  rewrite lease_is_free_testbit, negb_true_iff in Hfree.
  right. exists i, s, bit. split_and!; [by split|done..].
Qed.

(** [release] does not look at [destroying] or [unloading]: a live lease can
    always be given back. *)
Lemma release_locked_inv lease r :
  (exists status, release_locked lease r = (status, lease, r) /\ status <> CMETA_PLUGIN_OK) \/
  exists i s bit, slot_for_ref_locked r (le_plugin lease) = inr (i, s) /\
    bit = Z.to_nat (le_slot lease - 1) /\ (bit < CMETA_PLUGIN_MAX_LEASES_PER_PLUGIN)%nat /\
    Z.testbit (sl_lease_active_mask s) (Z.of_nat bit) = true /\
    default 0 (sl_lease_generations s !! bit) = le_generation lease /\
    release_locked lease r = (CMETA_PLUGIN_OK, zero_lease, write_slot i (release_slot bit) r).
Proof.
  unfold release_locked. destruct (slot_for_ref_locked r _) as [e|[i s]] eqn:Hs.
  { left. exists e. split; [done|by eapply slot_for_ref_error]. }
  repeat (case_if; [left; by eexists|]).
  match goal with H : (_ <=? _)%nat = false |- _ => apply Nat.leb_gt in H end. destruct_bools.
  rewrite lease_is_free_testbit in *. destruct_bools. right. do 3 eexists. by split_and!.
Qed.

(** * Between calls nothing is in flight *)

Record quiet (r : registry_impl) : Prop := {
  qt_wf : impl_wf r;
  qt_loads : im_loads_inflight r = 0;
  qt_open : im_destroying r = false;
  qt_slots : forall i s, im_slots r !! i = Some s ->
    sl_callbacks_inflight s = 0 /\ sl_unloading s = false;
}.

Lemma quiet_write r i f s :
  quiet r -> im_slots r !! i = Some s -> keeps_slot f s ->
  sl_callbacks_inflight (f s) = 0 /\ sl_unloading (f s) = false -> quiet (write_slot i f r).
Proof.
  intros [Hwf Hl Ho Hs] Hi Hk Hf. split; [by eapply impl_wf_write|done|done|].
  intros j t (u & Hu & ->)%write_slot_lookup. case_decide; [|by eapply Hs]. by simplify_eq.
Qed.

Section Sequential.
  Context {W : Type} (H : host W).

Lemma start_quiet r ref w :
  quiet r ->
  exists status r' w', cmeta_plugin_registry_start H (holding r) ref w = (status, holding r', w') /\
    quiet r'.
Proof.
  intros Hq. pose proof Hq as [Hwf _ _ Hsl]. unfold cmeta_plugin_registry_start. simpl.
  destruct (start_begin_inv ref r) as [(st & -> & _)|(i & s & Ha & Hst & _ & _ & ->)]; [by eauto 6|].
  pose proof (ad_slot _ _ _ _ Ha) as Hi. pose proof (iw_slot _ Hwf _ _ Hi) as Hs.
  destruct (slot_wf_start s) as [Hw1 Hw2]; [done|apply Ha|apply Ha|done|].
  destruct (Hsl i s Hi) as [Hc Hu].
  destruct (manifest_of s pm_start) as [cb|].
  - destruct (h_start H cb _ w) as [st w'].
    do 3 eexists. split; [done|].
    unfold start_end. rewrite write_slot_twice.
    eapply quiet_write; [done|exact Hi| |]; unfold keeps_slot.
    + split; [by apply slot_wf_start_end|].
      unfold record_failure. by repeat case_bool_decide.
    + unfold record_failure, starting. repeat case_bool_decide; simpl; by rewrite Hc.
  - do 3 eexists. split; [done|]. eapply quiet_write; [done|exact Hi|by split_and!|done].
Qed.

Lemma request_stop_quiet r ref w :
  quiet r ->
  exists status r' w',
    cmeta_plugin_registry_request_stop H (holding r) ref w = (status, holding r', w') /\ quiet r'.
Proof.
  intros Hq. pose proof Hq as [Hwf _ _ Hsl]. unfold cmeta_plugin_registry_request_stop. simpl.
  destruct (request_stop_begin_inv ref r) as [(st & -> & _)|(i & s & Ha & Hst & ->)];
    [by eauto 6|].
  pose proof (ad_slot _ _ _ _ Ha) as Hi. pose proof (iw_slot _ Hwf _ _ Hi) as Hs.
  destruct (slot_wf_stop s) as [Hw1 Hw2]; [done|apply Ha|done|].
  destruct (Hsl i s Hi) as [Hc Hu].
  destruct (manifest_of s pm_request_stop) as [cb|].
  - destruct (h_request_stop H cb _ w) as [st w'].
    do 3 eexists. split; [done|].
    unfold request_stop_end. rewrite write_slot_twice.
    eapply quiet_write; [done|exact Hi| |]; unfold keeps_slot.
    + split; [apply slot_wf_leave_stop; [done|done|simpl; by rewrite Hc]|].
      unfold record_failure. by repeat case_bool_decide.
    + unfold record_failure, stopping. repeat case_bool_decide; simpl; by rewrite Hc.
  - do 3 eexists. split; [done|]. eapply quiet_write; [done|exact Hi|by split_and!|done].
Qed.

Lemma poll_quiet r ref w :
  quiet r ->
  exists status q r' w',
    cmeta_plugin_registry_poll_quiescent H (holding r) ref w = (status, q, holding r', w') /\
    quiet r'.
Proof.
  intros Hq. pose proof Hq as [Hwf _ _ Hsl]. unfold cmeta_plugin_registry_poll_quiescent. simpl.
  destruct (poll_begin_inv ref r) as [(st & q & ->)|(i & s & Ha & Hst & Hl & _ & ->)];
    [by eauto 7|].
  pose proof (ad_slot _ _ _ _ Ha) as Hi. pose proof (iw_slot _ Hwf _ _ Hi) as Hs.
  destruct (Hsl i s Hi) as [Hc Hu].
  destruct (slot_wf_poll s) as [Hw1 Hw2]; [done|apply Ha|done..|].
  destruct (manifest_of s pm_is_quiescent) as [cb|].
  - destruct (h_is_quiescent H cb _ w) as [q w'].
    do 4 eexists. split; [done|].
    unfold poll_end. rewrite write_slot_twice.
    eapply quiet_write; [done|exact Hi| |]; unfold keeps_slot.
    + split; [|by destruct q]. apply slot_wf_poll_end; [done|done|simpl; by rewrite Hc|].
      change (~ leased s). by intros Hx%popcount_pos_leased.
    + destruct q; simpl; by rewrite Hc.
  - do 4 eexists. split; [done|]. eapply quiet_write; [done|exact Hi|by split_and!|done].
Qed.

Lemma acquire_quiet r ref :
  quiet r ->
  exists status lease m r',
    cmeta_plugin_registry_acquire (holding r) ref = (status, lease, m, holding r') /\ quiet r'.
Proof.
  intros Hq. pose proof Hq as [Hwf _ _ Hsl]. unfold cmeta_plugin_registry_acquire. simpl.
  destruct (acquire_locked_inv ref r) as [(st & -> & _)|(i & s & b & Ha & Hst & Hb & Hf & ->)];
    [by eauto 7|].
  pose proof (ad_slot _ _ _ _ Ha) as Hi. pose proof (iw_slot _ Hwf _ _ Hi) as Hs.
  do 4 eexists. split; [done|]. eapply quiet_write; [done|exact Hi| |exact (Hsl i s Hi)].
  split; [|done]. apply slot_wf_acquired; [done|apply Ha|done..].
Qed.

Lemma release_quiet r lease :
  quiet r ->
  exists status r' l',
    cmeta_plugin_registry_release (holding r) lease = (status, holding r', l') /\ quiet r'.
Proof.
  intros Hq. pose proof Hq as [Hwf _ _ Hsl]. unfold cmeta_plugin_registry_release. simpl.
  destruct lease as [l|]; [|by eauto 6]. case_if; [by eauto 6|].
  destruct (release_locked_inv l r) as [(st & -> & _)|(i & s & b & Hr & _ & Hb & Ht & _ & ->)];
    [by eauto 6|].
  apply slot_for_ref_inr in Hr as (Hi & _ & Ho & _).
  do 3 eexists. split; [done|]. eapply quiet_write; [done|exact Hi| |exact (Hsl i s Hi)].
  split; [|done]. apply slot_wf_released; [by eapply iw_slot|done..].
Qed.

Lemma quiet_reserved r :
  quiet r -> fst (load_reserve r) = CMETA_PLUGIN_OK ->
  snd (load_reserve r) = set_loads 1 r /\ im_count r < Z.of_nat (im_capacity r).
Proof.
  intros [Hwf Hl _ _]. unfold load_reserve. rewrite load_room by done. rewrite Hl.
  repeat (case_if; [done|]). destruct_bools. by split.
Qed.

Lemma quiet_loads r : quiet r -> release_load_reservation (set_loads 1 r) = r.
Proof. intros [_ Hl _ _]. destruct r; simpl in *. by rewrite Hl. Qed.

Lemma reserved_wf r : quiet r -> im_count r < Z.of_nat (im_capacity r) -> impl_wf (set_loads 1 r).
Proof.
  intros [Hwf Hl _ _] ?. pose proof (iw_count_bounds r Hwf).
  destruct Hwf as [Hcap Hlen Hslot Hcount Hloads Hdist]. split; simpl; try done. lia.
Qed.

Lemma published_quiet r library m ref r' :
  quiet r -> im_count r < Z.of_nat (im_capacity r) -> manifest_well_formed m ->
  load_publish library m (set_loads 1 r) = (CMETA_PLUGIN_OK, ref, r') -> quiet r'.
Proof.
  intros Hq Hroom Hm Hp. pose proof (reserved_wf r Hq Hroom) as Hwf.
  pose proof (load_publish_wf _ library m Hwf Hm) as Hwf'. rewrite Hp in Hwf'. simpl in Hwf'.
  specialize (Hwf' ltac:(lia)).
  apply load_publish_ok in Hp as (i & s & Hi & _ & Ho & Hop & _ & _ & ->).
  split; [done|done|apply Hop|]. simpl. intros j t (u & Hu & ->)%lookup_alter_case.
  case_decide; [done|]. by eapply (qt_slots _ Hq).
Qed.

Lemma close_rejected_quiet r library rejection w :
  quiet r ->
  exists status w', close_rejected_load H (set_loads 1 r) library rejection w = (status, r, w').
Proof.
  intros Hq. unfold close_rejected_load, close_rejected_library.
  destruct (platform_close H library w) as [[st h] w'].
  do 2 eexists. by rewrite quiet_loads.
Qed.

Lemma load_quiet r path w :
  quiet r ->
  exists status ref r' w',
    cmeta_plugin_registry_load H (holding r) path w = (status, ref, holding r', w') /\ quiet r'.
Proof.
  intros Hq. unfold cmeta_plugin_registry_load. simpl. case_if; [by eauto 7|].
  destruct (load_reserve r) as [status rr] eqn:Hres.
  pose proof (quiet_reserved r Hq) as Hroom. rewrite Hres in Hroom. simpl in Hroom.
  case_bool_decide; simpl.
  2: { assert (rr = r) as -> by (unfold load_reserve in Hres; repeat case_if; by simplify_eq).
       by eauto 7. }
  destruct (Hroom ltac:(done)) as [-> Hlt].
  destruct (platform_open H path w) as [[[st library] query] w1].
  case_bool_decide; simpl; [|rewrite quiet_loads by done; by eauto 7].
  destruct (match query with Some q => _ | None => _ end) as [[m|] w2].
  2: { destruct (close_rejected_quiet r library CMETA_PLUGIN_QUERY_REJECTED w2 Hq)
         as (st' & w' & ->). by eauto 7. }
  case_bool_decide as Hm; simpl.
  2: { destruct (close_rejected_quiet r library
         (cmeta_plugin_manifest_validate (Some m)) w2 Hq) as (st' & w' & ->). by eauto 7. }
  apply manifest_validate_OK in Hm.
  destruct (load_publish library m (set_loads 1 r)) as [[st' ref] r'] eqn:Hp.
  case_bool_decide; simplify_eq.
  - do 4 eexists. split; [done|]. by eapply published_quiet.
  - apply load_publish_refused in Hp as ->; [|done].
    destruct (close_rejected_quiet r library st' w2 Hq) as (st'' & w' & ->). by eauto 7.
Qed.

(** The slot between the destroy callback and the native close. *)
Definition torn_down (s : registry_slot) : registry_slot :=
  let s' := mark_unloading s in
  if is_null (pending_destroy s) then s'
  else set_state CMETA_PLUGIN_LIFECYCLE_QUIESCENT (set_destroy_called true (leave_callback s')).

Lemma torn_down_write r i s :
  im_slots r !! i = Some s ->
  after_destroy i (negb (is_null (pending_destroy s))) (write_slot i mark_unloading r) =
  write_slot i (fun _ => torn_down s) r.
Proof.
  intros Hi. unfold after_destroy, torn_down.
  destruct (is_null (pending_destroy s)) eqn:Hn; simpl; rewrite ?write_slot_twice;
    unfold write_slot, set_slots; f_equal; apply list_eq; intros j;
    rewrite !list_lookup_alter; destruct (decide (i = j)) as [<-|]; try done; by rewrite Hi.
Qed.

Lemma slot_wf_torn_down s :
  slot_wf s -> sl_occupied s = true -> settled_state (sl_state s) = true ->
  sl_unloading s = false -> sl_callbacks_inflight s = 0 ->
  slot_wf (torn_down s) /\ sl_unloading (torn_down s) = true /\
  sl_callbacks_inflight (torn_down s) = 0 /\ sl_occupied (torn_down s) = true /\
  sl_manifest (torn_down s) = sl_manifest s /\ sl_library (torn_down s) = sl_library s.
Proof.
  intros Hs Ho Hst Hu Hc. pose proof (slot_wf_mark_unloading s Hs Ho Hst Hu) as Hm.
  unfold torn_down. unfold mark_unloading in *. destruct (is_null (pending_destroy s)); simpl in *.
  - by rewrite Ho, Hc.
  - assert (size_inc (sl_callbacks_inflight s) = 1) as Hone by by rewrite Hc.
    split; [apply (slot_wf_after_destroy (enter_callback (set_unloading true s)));
            [done|done|by simpl]|].
    simpl. by rewrite Hone, Ho.
Qed.

Lemma closed_slot_quiet r i s status handle :
  quiet r -> im_slots r !! i = Some s -> sl_occupied s = true ->
  settled_state (sl_state s) = true ->
  quiet (unload_end i status
           (write_slot i (set_library handle) (write_slot i (fun _ => torn_down s) r))).
Proof.
  intros [Hwf Hl Hop Hsl] Hi Ho Hst. destruct (Hsl i s Hi) as [Hc Hu].
  destruct (slot_wf_torn_down s) as (Hw & Hu' & Hc' & Ho' & Hm' & _); [by eapply iw_slot|done..|].
  set (r1 := write_slot i (fun _ => torn_down s) r).
  assert (im_slots r1 !! i = Some (torn_down s)) as Hi'
    by exact (write_slot_at r i (fun _ => torn_down s) s Hi).
  assert (impl_wf r1) as Hwf1.
  { eapply impl_wf_write; [done|exact Hi|]. split_and!; [done|congruence|done]. }
  pose proof (unload_end_wf r1 i _ status handle Hwf1 Hi' Ho' Hu' Hc') as Hwf2.
  unfold unload_end in *. case_bool_decide; (split; [done|..]).
  - unfold clear_slot_locked. by case_if.
  - unfold clear_slot_locked. by case_if.
  - unfold clear_slot_locked. intros j t.
    assert (im_slots (if negb (im_count (write_slot i cleared_slot
               (write_slot i (set_library handle) r1)) =? 0) then _ else _) =
            im_slots (write_slot i cleared_slot (write_slot i (set_library handle) r1))) as ->
      by by case_if.
    unfold r1. rewrite !write_slot_twice. intros (u & Hj & ->)%write_slot_lookup.
    case_decide; [done|by eapply Hsl].
  - done.
  - done.
  - unfold r1. rewrite !write_slot_twice. intros j t (u & Hj & ->)%write_slot_lookup.
    case_decide; [done|by eapply Hsl].
Qed.

Lemma unload_quiet r ref w :
  quiet r ->
  exists status r' w',
    cmeta_plugin_registry_unload H (holding r) ref w = (status, holding r', w') /\ quiet r'.
Proof.
  intros Hq. unfold cmeta_plugin_registry_unload. simpl.
  destruct (unload_begin_inv ref r) as [(st & -> & _)|(i & s & Ha & Hst & _ & _ & ->)];
    [by eauto 6|].
  pose proof (ad_slot _ _ _ _ Ha) as Hi. rewrite torn_down_write by done.
  unfold close_slot. rewrite (write_slot_at _ _ _ _ Hi).
  destruct (platform_close H _ _) as [[st handle] w'].
  do 3 eexists. split; [done|]. apply closed_slot_quiet; [done|done|apply Ha|done].
Qed.

(** Teardown as a fold over the slots: destroy callback, then native close, in
    slot order, stopping at the first close that fails. *)
Fixpoint teardown (slots : list registry_slot) (w : W) : cmeta_plugin_status * W :=
  match slots with
  | [] => (CMETA_PLUGIN_OK, w)
  | s :: rest =>
      if sl_occupied s then
        let '(status, _, w) := platform_close H (sl_library s) (call_destroy H (pending_destroy s) w)
        in if bool_decide (status = CMETA_PLUGIN_OK) then teardown rest w else (status, w)
      else teardown rest w
  end.

(** The registry inside [destroy]: quiet but for [destroying]. *)
Record closing (r : registry_impl) : Prop := {
  cl_quiet : quiet (set_destroying false r);
  cl_settled : forall i s, im_slots r !! i = Some s -> sl_occupied s = true ->
    settled_state (sl_state s) = true;
}.

Lemma destroy_slot_end_unload i status r :
  set_destroying false (destroy_slot_end i status r) = unload_end i status (set_destroying false r).
Proof.
  unfold destroy_slot_end, unload_end, clear_slot_locked. case_bool_decide; simpl; by repeat case_if.
Qed.

Lemma destroy_slot_end_slots i status r :
  im_slots (destroy_slot_end i status r) =
  im_slots (write_slot i (if bool_decide (status = CMETA_PLUGIN_OK) then cleared_slot
                          else set_unloading false) r).
Proof.
  unfold destroy_slot_end, clear_slot_locked. case_bool_decide; simpl; by repeat case_if.
Qed.

Lemma closing_step r i s status handle :
  closing r -> im_slots r !! i = Some s -> sl_occupied s = true ->
  let r' := destroy_slot_end i status
              (write_slot i (set_library handle) (write_slot i (fun _ => torn_down s) r)) in
  closing r' /\ drop (S i) (im_slots r') = drop (S i) (im_slots r) /\
  im_capacity r' = im_capacity r /\ (status <> CMETA_PLUGIN_OK -> im_destroying r' = false).
Proof.
  intros [Hq Hset] Hi Ho. cbv zeta. pose proof (Hset i s Hi Ho) as Hst.
  assert (sl_unloading s = false) as Hu by by eapply (qt_slots _ Hq).
  split; [|split_and!].
  - split.
    + rewrite destroy_slot_end_unload.
      exact (closed_slot_quiet (set_destroying false r) i s status handle Hq Hi Ho Hst).
    + rewrite destroy_slot_end_slots, !write_slot_twice.
      intros j t (u & Hj & ->)%write_slot_lookup. case_decide; [subst j|by eapply Hset].
      case_bool_decide; [done|]. unfold torn_down, mark_unloading.
      by destruct (is_null (pending_destroy s)); simpl; intros; simplify_eq.
  - rewrite destroy_slot_end_slots, !write_slot_twice. unfold write_slot; simpl.
    apply list_eq. intros k. rewrite !lookup_drop. apply list_lookup_alter_ne. lia.
  - unfold destroy_slot_end, clear_slot_locked. case_bool_decide; simpl; by repeat case_if.
  - intros. unfold destroy_slot_end. by case_bool_decide.
Qed.

Lemma destroy_loop_teardown remaining index r w :
  closing r -> (index + remaining)%nat = im_capacity r ->
  exists status r' w', destroy_loop H index remaining r w = (status, r', w') /\
    closing r' /\ (status <> CMETA_PLUGIN_OK -> im_destroying r' = false) /\
    teardown (drop index (im_slots r)) w = (status, w').
Proof.
  revert index r w. induction remaining as [|n IH]; intros index r w Hcl Hn.
  - do 3 eexists. split_and!; [done|done|done|].
    pose proof (iw_slots_length _ (qt_wf _ (cl_quiet _ Hcl))) as Hlen. simpl in Hlen.
    rewrite drop_ge; [done|lia].
  - assert (is_Some (im_slots r !! index)) as [s Hi].
    { apply lookup_lt_is_Some.
      pose proof (iw_slots_length _ (qt_wf _ (cl_quiet _ Hcl))) as Hlen. simpl in Hlen. lia. }
    rewrite (drop_S _ s) by done. cbn [destroy_loop teardown]. unfold destroy_slot_begin. rewrite Hi.
    destruct (sl_occupied s) eqn:Ho; [|apply IH; [done|lia]].
    rewrite torn_down_write by done. unfold close_slot.
    rewrite (write_slot_at r index (fun _ => torn_down s) s Hi).
    destruct (slot_wf_torn_down s) as (_ & _ & _ & _ & _ & ->);
      [by eapply (iw_slot _ (qt_wf _ (cl_quiet _ Hcl)))|done|by eapply cl_settled|
       by eapply (qt_slots _ (cl_quiet _ Hcl))..|].
    destruct (platform_close H (sl_library s) _) as [[status handle] w'].
    destruct (closing_step r index s status handle Hcl Hi Ho) as (Hcl' & Hdrop & Hcap & Hopen).
    case_bool_decide; simpl; [|by eauto 10].
    destruct (IH (S index) _ w' Hcl') as (status' & r' & w'' & Hloop & Hrest);
      [rewrite Hcap; lia|]. rewrite Hdrop in Hrest. by eauto 10.
Qed.

Lemma destroy_begin_inv r :
  quiet r ->
  destroy_begin r = (CMETA_PLUGIN_OK, set_destroying true r) /\ closing (set_destroying true r) \/
  destroy_begin r = (CMETA_PLUGIN_BUSY, r) /\
  exists i s, im_slots r !! i = Some s /\ sl_occupied s = true /\
    settled_state (sl_state s) = false.
Proof.
  intros Hq. pose proof Hq as [Hwf Hl Hop Hsl]. unfold destroy_begin. rewrite Hop, Hl. simpl.
  destruct (find_below _ _) as [i|] eqn:Hf.
  - right. split; [done|]. apply find_below_Some in Hf as (_ & (s & Hi & Hb)%slot_test_true & _).
    exists i, s. unfold blocks_destroy in Hb. destruct (sl_occupied s) eqn:Ho; [|done].
    destruct (Hsl i s Hi) as [Hc Hu]. rewrite Hc, Hu in Hb. simpl in Hb.
    destruct (settled_state (sl_state s)) eqn:Hst; [|done].
    destruct (slot_idle s) as (_ & Ha & _); [by eapply iw_slot|done|]. by rewrite Ha in Hb.
  - left. split; [done|]. split; [by destruct r; simpl in *; subst|]. simpl. intros i s Hi Ho.
    assert (slot_test r blocks_destroy i = false) as Hb.
    { apply (proj1 (find_below_None _ _) Hf). rewrite <- (iw_slots_length r Hwf).
      by eapply lookup_lt_Some. }
    unfold slot_test, blocks_destroy in Hb. rewrite Hi, Ho in Hb.
    destruct (settled_state (sl_state s)); [done|]. by rewrite orb_true_r in Hb.
Qed.

Definition quiet_registry (registry : option cmeta_plugin_registry) : Prop :=
  match registry_impl_of registry with Some r => quiet r | None => True end.

Lemma destroy_quiet r w :
  quiet r -> quiet_registry (snd (fst (cmeta_plugin_registry_destroy H (holding r) w))).
Proof.
  intros Hq. unfold cmeta_plugin_registry_destroy. simpl.
  destruct (destroy_begin_inv r Hq) as [[-> Hcl]|[-> _]]; simpl; [|done].
  destruct (destroy_loop_teardown (im_capacity r) 0 _ w Hcl) as (status & r' & w' & -> & Hcl' & Hop & _);
    [done|]. case_bool_decide; simpl; [done|].
  pose proof (cl_quiet _ Hcl') as Hq'. specialize (Hop ltac:(done)).
  unfold quiet_registry. simpl. by destruct r'; simpl in *; subst.
Qed.

(** C36: from a registry on which nothing but settled plugins is loaded,
    [cmeta_plugin_registry_destroy] acts on the world exactly as the reference
    [teardown] (each destroy callback not yet made, then the native close, in
    slot order, up to the first failing close) and returns its status; on
    success the registry is empty for a new [init], on failure it is usable
    again ([destroying] is withdrawn).  When some plugin is not settled nothing
    happens and the status is [CMETA_PLUGIN_BUSY]. *)
Theorem destroy_refines_teardown r w :
  quiet r ->
  let '(status, registry, w') := cmeta_plugin_registry_destroy H (holding r) w in
  ((forall i s, im_slots r !! i = Some s -> sl_occupied s = true ->
      settled_state (sl_state s) = true) ->
   teardown (im_slots r) w = (status, w') /\
   if bool_decide (status = CMETA_PLUGIN_OK) then registry = Some (mk_registry None)
   else exists r', registry = holding r' /\ quiet r') /\
  ((exists i s, im_slots r !! i = Some s /\ sl_occupied s = true /\
      settled_state (sl_state s) = false) ->
   status = CMETA_PLUGIN_BUSY /\ registry = holding r /\ w' = w).
Proof.
  intros Hq. unfold cmeta_plugin_registry_destroy. simpl.
  destruct (destroy_begin_inv r Hq) as [[-> Hcl]|[-> (i & s & Hi & Ho & Hst)]]; simpl.
  - destruct (destroy_loop_teardown (im_capacity r) 0 _ w Hcl)
      as (status & r' & w' & -> & Hcl' & Hop & Ht); [done|]. rewrite drop_0 in Ht. simpl in Ht.
    assert (~ exists i s, im_slots r !! i = Some s /\ sl_occupied s = true /\
      settled_state (sl_state s) = false) as Hnone
      by (intros (i & s & Hi & Ho & Hst); by rewrite (cl_settled _ Hcl i s Hi Ho) in Hst).
    case_bool_decide as Hst; simpl; (split; [|by intros Hex%Hnone]); intros _.
    + by subst status.
    + rewrite bool_decide_false by done. split; [done|]. exists r'. split; [done|].
      pose proof (cl_quiet _ Hcl') as Hq'. specialize (Hop Hst).
      by destruct r'; simpl in *; subst.
  - split; [|done]. intros Hall. by rewrite (Hall i s Hi Ho) in Hst.
Qed.

(** One call of the public interface. *)
Inductive registry_call :=
  | Call_init (capacity : option nat)
  | Call_load (path : cstr)
  | Call_find (plugin_id : cstr)
  | Call_start (ref : cmeta_plugin_ref)
  | Call_acquire (ref : cmeta_plugin_ref)
  | Call_release (lease : option cmeta_plugin_lease)
  | Call_request_stop (ref : cmeta_plugin_ref)
  | Call_poll_quiescent (ref : cmeta_plugin_ref)
  | Call_get_lifecycle (ref : cmeta_plugin_ref)
  | Call_unload (ref : cmeta_plugin_ref)
  | Call_destroy.

Definition registry_after (call : registry_call)
    (state : option cmeta_plugin_registry * W) : option cmeta_plugin_registry * W :=
  let '(g, w) := state in
  match call with
  | Call_init c => let '(_, g, w) := cmeta_plugin_registry_init H g c w in (g, w)
  | Call_load p => let '(_, _, g, w) := cmeta_plugin_registry_load H g p w in (g, w)
  | Call_find _ | Call_get_lifecycle _ => (g, w)
  | Call_start ref => let '(_, g, w) := cmeta_plugin_registry_start H g ref w in (g, w)
  | Call_acquire ref => let '(_, _, _, g) := cmeta_plugin_registry_acquire g ref in (g, w)
  | Call_release l => let '(_, g, _) := cmeta_plugin_registry_release g l in (g, w)
  | Call_request_stop ref =>
      let '(_, g, w) := cmeta_plugin_registry_request_stop H g ref w in (g, w)
  | Call_poll_quiescent ref =>
      let '(_, _, g, w) := cmeta_plugin_registry_poll_quiescent H g ref w in (g, w)
  | Call_unload ref => let '(_, g, w) := cmeta_plugin_registry_unload H g ref w in (g, w)
  | Call_destroy => let '(_, g, w) := cmeta_plugin_registry_destroy H g w in (g, w)
  end.

Lemma initial_quiet capacity :
  (0 < capacity)%nat -> Z.of_nat capacity <= UINT32_MAX -> quiet (initial_impl capacity).
Proof.
  intros. split; [by apply initial_impl_wf|done|done|].
  intros i s Hi. by apply lookup_replicate in Hi as [-> _].
Qed.

Lemma init_quiet g c w :
  quiet_registry g -> quiet_registry (snd (fst (cmeta_plugin_registry_init H g c w))).
Proof.
  intros Hg. unfold cmeta_plugin_registry_init. destruct g as [[[r|]]|], c as [c|]; try done. simpl.
  destruct (Nat.eqb_spec c 0); [done|]. case_if; [done|]. destruct_bools.
  destruct (h_alloc H w) as [[] w1]; [simpl|done].
  destruct (h_alloc H w1) as [[] w2]; [simpl|done].
  destruct (h_alloc H w2) as [[] w3]; [simpl|done].
  apply initial_quiet; [lia|done].
Qed.

Lemma registry_after_quiet call g w :
  quiet_registry g -> quiet_registry (fst (registry_after call (g, w))).
Proof.
  intros Hg. destruct call; simpl; try done.
  { pose proof (init_quiet g capacity w Hg).
    by destruct (cmeta_plugin_registry_init H g capacity w) as [[? ?] ?]. }
  all: destruct g as [[[r|]]|]; try done; change (Some (mk_registry (Some r))) with (holding r) in *.
  - destruct (load_quiet r path w Hg) as (? & ? & ? & ? & -> & ?). done.
  - destruct (start_quiet r ref w Hg) as (? & ? & ? & -> & ?). done.
  - destruct (acquire_quiet r ref Hg) as (? & ? & ? & ? & -> & ?). done.
  - destruct (release_quiet r lease Hg) as (? & ? & ? & -> & ?). done.
  - destruct (request_stop_quiet r ref w Hg) as (? & ? & ? & -> & ?). done.
  - destruct (poll_quiet r ref w Hg) as (? & ? & ? & ? & -> & ?). done.
  - destruct (unload_quiet r ref w Hg) as (? & ? & ? & -> & ?). done.
  - pose proof (destroy_quiet r w Hg).
    by destruct (cmeta_plugin_registry_destroy H (holding r) w) as [[? ?] ?].
Qed.

Lemma calls_quiet calls g w :
  quiet_registry g ->
  quiet_registry (fst (foldl (fun state call => registry_after call state) (g, w) calls)).
Proof.
  revert g w. induction calls as [|call l IH]; intros g w Hg; [done|]. cbn [foldl].
  pose proof (registry_after_quiet call g w Hg).
  destruct (registry_after call (g, w)) as [g' w']. by apply IH.
Qed.

(** whatever the loader and the plugins do, after any sequence of calls
    on a zero-initialised registry the registry is consistent: [count] counts
    the occupied slots, every lease mask agrees with [active_leases], no
    callback or load reservation is outstanding, no slot is left [unloading],
    published manifests are well formed with distinct plugin ids, and a plugin
    whose destroy callback ran is not started or leased. *)
Theorem calls_keep_registry_quiet calls w :
  quiet_registry
    (fst (foldl (fun state call => registry_after call state)
            (Some (mk_registry None), w) calls)).
Proof. by apply calls_quiet. Qed.
End Sequential.

(** * Leases *)

Lemma count_if_all {A} (P : A -> bool) l :
  (forall x, x ∈ l -> P x = true) -> count_if P l = Z.of_nat (length l).
Proof.
  induction l as [|x l IH]; intros Hall; [done|]. cbn [count_if length].
  rewrite Hall by by left. rewrite IH; [simpl Z.b2z; lia|]. intros; apply Hall; by right.
Qed.

Lemma popcount_full mask :
  (forall i, (i < 64)%nat -> Z.testbit mask (Z.of_nat i) = true) -> popcount mask = 64.
Proof.
  intros Hall. unfold popcount. rewrite count_if_all; [by rewrite length_seq|].
  intros i Hi%elem_of_seq. apply Hall. unfold CMETA_PLUGIN_MAX_LEASES_PER_PLUGIN in Hi. lia.
Qed.

(** On a started plugin that is not being unloaded, [acquire] grants a
    lease exactly while fewer than 64 are live, and otherwise answers
    [CMETA_PLUGIN_CAPACITY_EXCEEDED]. *)
Lemma acquire_capacity r ref i s :
  impl_wf r -> slot_for_ref_locked r ref = inr (i, s) ->
  im_destroying r = false -> sl_unloading s = false ->
  sl_state s = CMETA_PLUGIN_LIFECYCLE_STARTED ->
  let '(status, _, _, _) := acquire_locked ref r in
  if sl_active_leases s <? 64 then status = CMETA_PLUGIN_OK
  else status = CMETA_PLUGIN_CAPACITY_EXCEEDED.
Proof.
  intros Hwf Href Hop Hu Hst. unfold acquire_locked. rewrite Href, Hop, Hu, Hst. simpl orb.
  rewrite bool_decide_true by done. cbn [negb].
  apply slot_for_ref_inr in Href as (Hi & _ & Ho & _). pose proof (iw_slot _ Hwf _ _ Hi) as Hs.
  destruct (find_below _ _) as [bit|] eqn:Hf.
  - apply find_below_Some in Hf as (Hb & Hfree & _).
    rewrite lease_is_free_testbit, negb_true_iff in Hfree.
    pose proof (popcount_set _ _ Hb Hfree) as Hp.
    pose proof (popcount_bounds (Z.lor (sl_lease_active_mask s) (lease_bit bit))).
    rewrite (sw_active _ Hs). destruct (Z.ltb_spec (popcount (sl_lease_active_mask s)) 64); [done|lia].
  - rewrite (sw_active _ Hs), popcount_full; [done|]. intros j Hj.
    pose proof (proj1 (find_below_None _ _) Hf j Hj) as Hb.
    rewrite lease_is_free_testbit in Hb. by apply negb_false_iff.
Qed.

Lemma release_acquired s bit :
  slot_wf s -> (bit < 64)%nat -> Z.testbit (sl_lease_active_mask s) (Z.of_nat bit) = false ->
  release_slot bit (acquired bit s) =
  set_leases (sl_active_leases s) (sl_lease_active_mask s)
    (alter next_generation bit (sl_lease_generations s)) s.
Proof.
  intros Hs Hb Hfree. pose proof (slot_active_bounds s Hs). unfold release_slot, acquired; simpl.
  rewrite size_inc_small by (unfold SIZE_MAX; lia).
  destruct (Z.eqb_spec (sl_active_leases s + 1) 0); [lia|]. simpl.
  rewrite size_dec_small by (unfold SIZE_MAX; lia).
  replace (sl_active_leases s + 1 - 1) with (sl_active_leases s) by lia.
  unfold set_leases; simpl. f_equal. apply Z.bits_inj'. intros k Hk.
  destruct (decide (k < 64)).
  - rewrite mask_clear_testbit, mask_set_testbit by lia.
    case_bool_decide as Hd; [subst; by rewrite Hfree, andb_false_r|].
    by rewrite orb_false_r, andb_true_r.
  - rewrite Z.land_spec, u64_testbit by done. rewrite <- (sw_mask _ Hs), u64_testbit by done.
    destruct (Z.ltb_spec k 64); [lia|]. by rewrite !andb_false_r.
Qed.

Lemma slot_for_ref_write r ref i s f :
  slot_for_ref_locked r ref = inr (i, s) -> sl_occupied (f s) = true ->
  sl_generation (f s) = sl_generation s ->
  slot_for_ref_locked (write_slot i f r) ref = inr (i, f s).
Proof.
  intros Href Ho Hg. pose proof (slot_for_ref_inr _ _ _ _ Href) as (Hi & Hlt & _ & Hgen & Hix & _).
  unfold slot_for_ref_locked in *. case_if. rewrite <- Hix in *. cbv zeta in *.
  change (im_capacity (write_slot i f r)) with (im_capacity r).
  destruct (im_capacity r <=? i)%nat; [done|]. rewrite (write_slot_at r i f s Hi), Ho, Hg, Hgen.
  by rewrite Z.eqb_refl.
Qed.

Lemma write_slot_ext r i f g s :
  im_slots r !! i = Some s -> f s = g s -> write_slot i f r = write_slot i g r.
Proof.
  intros Hi Hfg. unfold write_slot, set_slots. f_equal. apply list_eq. intros j.
  rewrite !list_lookup_alter. destruct (decide (i = j)); [|done]. rewrite Hi. simpl. by rewrite Hfg.
Qed.

(** C37: a lease that [acquire] granted is well formed and names the manifest
    of the resolved slot; [release] accepts it once, zeroes it and leaves the
    slot as it was except for the lease generation, and a second release of the
    same token is [CMETA_PLUGIN_STALE] and changes nothing. *)
Theorem acquire_release_roundtrip r ref lease m r1 :
  impl_wf r -> acquire_locked ref r = (CMETA_PLUGIN_OK, lease, m, r1) ->
  exists i s bit r2,
    slot_for_ref_locked r ref = inr (i, s) /\ m = sl_manifest s /\
    cmeta_plugin_lease_valid lease = true /\
    release_locked lease r1 = (CMETA_PLUGIN_OK, zero_lease, r2) /\
    r2 = write_slot i (fun s => set_leases (sl_active_leases s) (sl_lease_active_mask s)
                                  (alter next_generation bit (sl_lease_generations s)) s) r /\
    release_locked lease r2 = (CMETA_PLUGIN_STALE, lease, r2).
Proof.
  intros Hwf Hacq.
  destruct (acquire_locked_inv ref r) as [(? & H1 & ?)|(i & s & bit & Ha & Hst & Hb & Hfree & H1)];
    rewrite H1 in Hacq; simplify_eq. clear H1.
  pose proof (iw_slot _ Hwf _ _ (ad_slot _ _ _ _ Ha)) as Hs.
  unfold CMETA_PLUGIN_MAX_LEASES_PER_PLUGIN in Hb.
  assert (u32 (Z.of_nat bit + 1) = Z.of_nat bit + 1) as Hu32 by (apply Z.mod_small; lia).
  assert (is_Some (sl_lease_generations s !! bit)) as [g Hg].
  { apply lookup_lt_is_Some. rewrite (sw_lease_slots _ Hs). done. }
  assert (valid_generation g) as Hvg
    by exact (proj1 (Forall_lookup _ _) (sw_lease_generations _ Hs) bit g Hg).
  assert (next_generation g <> g) as Hng.
  { rewrite next_generation_step by done. unfold valid_generation, UINT32_MAX in *.
    destruct (decide (g = 2 ^ 32 - 1)) as [->|]; [done|]. rewrite Z.mod_small; lia. }
  pose proof (ad_ref _ _ _ _ Ha) as Href. pose proof (slot_for_ref_inr _ _ _ _ Href) as Hinv.
  destruct Hinv as (_ & _ & Ho & _ & _ & Hsl & Hrg).
  set (lease := mk_lease ref (u32 (Z.of_nat bit + 1)) (default 0 (sl_lease_generations s !! bit))).
  assert (forall f, sl_occupied (f s) = true -> sl_generation (f s) = sl_generation s ->
    release_locked lease (write_slot i f r) =
    if negb (Z.testbit (sl_lease_active_mask (f s)) (Z.of_nat bit)) ||
       negb (default 0 (sl_lease_generations (f s) !! bit) =? g)
    then (CMETA_PLUGIN_STALE, lease, write_slot i f r)
    else (CMETA_PLUGIN_OK, zero_lease, write_slot i (fun s => release_slot bit (f s)) r)) as Hrel.
  { intros f Hof Hgf. unfold release_locked, lease; cbn [le_plugin le_slot le_generation].
    rewrite (slot_for_ref_write r ref i s f Href) by congruence.
    rewrite Hu32, Hg. replace (Z.to_nat (Z.of_nat bit + 1 - 1)) with bit by lia.
    rewrite lease_is_free_testbit, write_slot_twice. unfold CMETA_PLUGIN_MAX_LEASES_PER_PLUGIN.
    by destruct (Nat.leb_spec 64 bit); [lia|]. }
  exists i, s, bit, (write_slot i (fun s => release_slot bit (acquired bit s)) r).
  split_and!; [done|done| | | |].
  - unfold cmeta_plugin_lease_valid, cmeta_plugin_ref_valid; simpl. rewrite Hu32, Hg; simpl.
    unfold valid_generation in Hvg. by repeat match goal with
      |- context [?x =? 0] => destruct (Z.eqb_spec x 0); [lia|] end.
  - rewrite Hrel by done. simpl. rewrite mask_set_testbit, Hg, Z.eqb_refl by lia.
    by rewrite bool_decide_true, orb_true_r.
  - apply write_slot_ext with s; [apply Ha|]. by rewrite (release_acquired s bit).
  - rewrite (Hrel (fun s => release_slot bit (acquired bit s))) by done.
    rewrite (release_acquired s bit) by done. simpl. by rewrite Hfree.
Qed.

(** * Load and find *)

Lemma find_published r i s :
  impl_wf r -> im_slots r !! i = Some s -> sl_occupied s = true ->
  exists m, sl_manifest s = Some m /\
    cmeta_plugin_registry_find (holding r) (pm_plugin_id m) =
      (CMETA_PLUGIN_OK, mk_ref (u32 (Z.of_nat i + 1)) (sl_generation s)).
Proof.
  intros Hwf Hi Ho. pose proof (iw_slot _ Hwf _ _ Hi) as Hs.
  destruct (sw_manifest _ Hs Ho) as (_ & m & Hm & Hmw). exists m. split; [done|].
  assert (bounded_string_valid (pm_plugin_id m) CMETA_PLUGIN_ID_MAX = true) as Hid
    by (apply id_well_formed_valid, Hmw).
  assert (slot_plugin_id s = text_of (pm_plugin_id m)) as Hsid
    by (unfold slot_plugin_id; by rewrite Hm).
  unfold cmeta_plugin_registry_find. simpl. rewrite bounded_cstr_valid_same, Hid. simpl.
  destruct (find_below _ _) as [j|] eqn:Hf.
  - apply find_below_Some in Hf as (_ & (t & Hj & Ht)%slot_test_true & _).
    apply publishes_id_text in Ht as [Hot Hidt]; [|by eapply iw_slot|done].
    assert (j = i) as -> by (apply (iw_distinct _ Hwf j i t s); congruence).
    simplify_eq. by rewrite Hi.
  - exfalso. assert (slot_test r (publishes_id (pm_plugin_id m)) i = false) as Hfalse.
    { apply (proj1 (find_below_None _ _) Hf). rewrite <- (iw_slots_length r Hwf).
      by eapply lookup_lt_Some. }
    apply not_true_iff_false in Hfalse. apply Hfalse, slot_test_true. exists s. split; [done|].
    by apply publishes_id_text.
Qed.

Lemma index_u32 r i s :
  impl_wf r -> im_slots r !! i = Some s -> u32 (Z.of_nat i + 1) = Z.of_nat i + 1.
Proof.
  intros Hwf Hi. apply lookup_lt_Some in Hi. rewrite (iw_slots_length _ Hwf) in Hi.
  pose proof (proj2 (iw_capacity _ Hwf)). unfold UINT32_MAX in *. apply Z.mod_small. lia.
Qed.

(** The reference of an occupied slot resolves to it. *)
Lemma own_ref_resolves r i s :
  impl_wf r -> im_slots r !! i = Some s -> sl_occupied s = true ->
  slot_for_ref_locked r (mk_ref (u32 (Z.of_nat i + 1)) (sl_generation s)) = inr (i, s).
Proof.
  intros Hwf Hi Ho. rewrite (index_u32 r i s Hwf Hi).
  pose proof (sw_generation _ (iw_slot _ Hwf _ _ Hi)) as Hg. unfold valid_generation in Hg.
  apply slot_for_ref_intro; [done| |done|done|lia].
  apply lookup_lt_Some in Hi. by rewrite (iw_slots_length _ Hwf) in Hi.
Qed.

Section LoadFind.
  Context {W : Type} (H : host W).

Lemma close_rejected_status r library rejection w status r' w' :
  rejection <> CMETA_PLUGIN_OK ->
  close_rejected_load H r library rejection w = (status, r', w') -> status <> CMETA_PLUGIN_OK.
Proof.
  intros Hr. unfold close_rejected_load, close_rejected_library.
  destruct (platform_close H library w) as [[st h] v].
  case_bool_decide; by intros [= <- _ _].
Qed.

Lemma load_ok_inv r path w ref g w' :
  quiet r -> cmeta_plugin_registry_load H (holding r) path w = (CMETA_PLUGIN_OK, ref, g, w') ->
  exists r' library m, load_publish library m (set_loads 1 r) = (CMETA_PLUGIN_OK, ref, r') /\
    g = holding r' /\ quiet r' /\ manifest_well_formed m.
Proof.
  intros Hq Hload. destruct (load_quiet H r path w Hq) as (st & ref' & r' & w'' & Heq & Hq').
  rewrite Heq in Hload. simplify_eq.
  revert Heq. unfold cmeta_plugin_registry_load. simpl. case_if; [done|].
  pose proof (quiet_reserved r Hq) as Hroom.
  destruct (load_reserve r) as [status rr]. simpl in Hroom. case_bool_decide; simpl; [|by intros; simplify_eq].
  destruct (Hroom ltac:(done)) as [-> Hlt].
  destruct (platform_open H path w) as [[[st library] query] w1].
  case_bool_decide; simpl; [|by intros; simplify_eq].
  destruct (match query with Some q => _ | None => _ end) as [[m|] w2].
  2: { destruct (close_rejected_load _ _ _ _ _) as [[??]?] eqn:Hc.
       apply close_rejected_status in Hc; [|done]. by intros; simplify_eq. }
  destruct (bool_decide_reflect (cmeta_plugin_manifest_validate (Some m) = CMETA_PLUGIN_OK))
    as [Hm|Hm]; simpl.
  2: { destruct (close_rejected_load _ _ _ _ _) as [[??]?] eqn:Hc.
       apply close_rejected_status in Hc; [|done]. by intros; simplify_eq. }
  destruct (load_publish library m (set_loads 1 r)) as [[st' ref''] r''] eqn:Hp.
  case_bool_decide.
  - intros; simplify_eq. exists r', library, m. split_and!; [done..|].
    by apply manifest_validate_OK.
  - destruct (close_rejected_load _ _ _ _ _) as [[??]?] eqn:Hc.
    apply close_rejected_status in Hc; [|done]. by intros; simplify_eq.
Qed.

(** a successful load publishes one more plugin, in state LOADED and
    without leases, and [find] on its plugin id returns the reference that
    [load] returned. *)
Theorem load_find_roundtrip r path w ref g w' :
  quiet r -> cmeta_plugin_registry_load H (holding r) path w = (CMETA_PLUGIN_OK, ref, g, w') ->
  exists m,
    manifest_well_formed m /\
    cmeta_plugin_registry_find g (pm_plugin_id m) = (CMETA_PLUGIN_OK, ref) /\
    cmeta_plugin_registry_count g = cmeta_plugin_registry_count (holding r) + 1 /\
    cmeta_plugin_registry_get_lifecycle g ref =
      (CMETA_PLUGIN_OK, mk_lifecycle_info CMETA_PLUGIN_LIFECYCLE_LOADED 0 0 CMETA_PLUGIN_OK).
Proof.
  intros Hq Hload. destruct (load_ok_inv r path w ref g w' Hq Hload)
    as (r' & library & m & Hp & -> & Hq' & Hm). pose proof (qt_wf _ Hq') as Hwf'.
  pose proof (iw_count_bounds r (qt_wf _ Hq)) as Hb.
  pose proof (proj2 (iw_capacity r (qt_wf _ Hq))) as Hcap. unfold UINT32_MAX in Hcap.
  apply load_publish_ok in Hp as (i & s & Hi & _ & Ho & _ & _ & -> & Hr').
  assert (im_slots r' !! i = Some (loaded_slot library m s)) as Hi'
    by (subst r'; simpl; exact (write_slot_at _ i (loaded_slot library m) s Hi)).
  exists m. split_and!; [done| | |].
  - destruct (find_published r' i _ Hwf' Hi' eq_refl) as (m' & Hm' & Hfind).
    simpl in Hm'. by simplify_eq.
  - subst r'. unfold cmeta_plugin_registry_count; simpl.
    rewrite size_inc_small by (unfold SIZE_MAX; lia). done.
  - unfold cmeta_plugin_registry_get_lifecycle. simpl.
    pose proof (own_ref_resolves r' i _ Hwf' Hi' eq_refl) as Hres. simpl in Hres.
    by rewrite Hres.
Qed.

(** After a successful unload the reference is stale for every operation
    that takes one, and the count is one less. *)
Lemma unload_makes_stale r ref w g w' :
  quiet r -> cmeta_plugin_registry_unload H (holding r) ref w = (CMETA_PLUGIN_OK, g, w') ->
  cmeta_plugin_registry_count g = cmeta_plugin_registry_count (holding r) - 1 /\
  fst (cmeta_plugin_registry_get_lifecycle g ref) = CMETA_PLUGIN_STALE /\
  fst (fst (fst (cmeta_plugin_registry_acquire g ref))) = CMETA_PLUGIN_STALE /\
  forall v,
    fst (fst (cmeta_plugin_registry_start H g ref v)) = CMETA_PLUGIN_STALE /\
    fst (fst (cmeta_plugin_registry_request_stop H g ref v)) = CMETA_PLUGIN_STALE /\
    fst (fst (fst (cmeta_plugin_registry_poll_quiescent H g ref v))) = CMETA_PLUGIN_STALE /\
    fst (fst (cmeta_plugin_registry_unload H g ref v)) = CMETA_PLUGIN_STALE.
Proof.
  intros Hq. unfold cmeta_plugin_registry_unload at 1. simpl.
  destruct (unload_begin_inv ref r) as [(st & -> & Hne)|(i & s & Ha & Hst & _ & _ & ->)];
    [by intros [= ? _ _]|].
  pose proof (ad_slot _ _ _ _ Ha) as Hi. rewrite torn_down_write by done.
  unfold close_slot. rewrite (write_slot_at _ _ _ _ Hi).
  destruct (platform_close H _ _) as [[st handle] v']. intros [= -> <- _].
  pose proof (slot_for_ref_inr _ _ _ _ (ad_ref _ _ _ _ Ha)) as (_ & _ & Ho & Hgen & Hix & Hs0 & Hg0).
  unfold unload_end. rewrite bool_decide_true, !write_slot_twice by done.
  unfold clear_slot_locked. rewrite !write_slot_twice.
  pose proof (iw_count r (qt_wf _ Hq)) as Hc. pose proof (count_if_pos sl_occupied i _ s Hi Ho).
  pose proof (iw_count_bounds r (qt_wf _ Hq)) as Hb.
  pose proof (proj2 (iw_capacity r (qt_wf _ Hq))) as Hcap. unfold UINT32_MAX in Hcap.
  simpl. destruct (Z.eqb_spec (im_count r) 0); [lia|]. simpl.
  set (r' := set_count _ _).
  assert (slot_for_ref_locked r' ref = inl CMETA_PLUGIN_STALE) as Hstale.
  { apply slot_for_ref_stale.
    - unfold cmeta_plugin_ref_valid. by apply Z.eqb_neq in Hs0 as ->, Hg0 as ->.
    - intros t. rewrite <- Hix. intros (u & Hj & ->)%write_slot_lookup.
      by rewrite decide_True. }
  split; [|split_and!].
  - unfold cmeta_plugin_registry_count, r'; simpl. by rewrite size_dec_small by (unfold SIZE_MAX; lia).
  - unfold cmeta_plugin_registry_get_lifecycle. simpl. by rewrite Hstale.
  - unfold cmeta_plugin_registry_acquire, acquire_locked. simpl. by rewrite Hstale.
  - intros v. unfold cmeta_plugin_registry_start, start_begin, cmeta_plugin_registry_request_stop,
      request_stop_begin, cmeta_plugin_registry_poll_quiescent, poll_begin,
      cmeta_plugin_registry_unload, unload_begin. simpl. by rewrite Hstale.
Qed.
End LoadFind.

(** * Generations *)

Lemma cleared_generation n s :
  sl_generation (Nat.iter n cleared_slot s) = generation_after n (sl_generation s).
Proof. induction n as [|n IH]; simpl; [done|]. by rewrite IH. Qed.

(** Reusing a slot renames it: after [n] clears, for any [n] below
    [2^32 - 1], the slot's generation is nonzero and differs from the one an
    old reference carries; the numbers repeat after exactly [2^32 - 1] clears,
    since [next_generation] skips zero. *)
Lemma generation_fences_reuse s :
  valid_generation (sl_generation s) ->
  (forall n, 0 < Z.of_nat n < UINT32_MAX ->
     sl_generation (Nat.iter n cleared_slot s) <> sl_generation s /\
     sl_generation (Nat.iter n cleared_slot s) <> 0) /\
  (forall n, Z.of_nat n = UINT32_MAX ->
     sl_generation (Nat.iter n cleared_slot s) = sl_generation s).
Proof.
  intros Hg. assert (0 < UINT32_MAX) as Hpos by (unfold UINT32_MAX; lia).
  split; intros n Hn; rewrite cleared_generation.
  - pose proof (generation_after_valid n _ Hg) as Hv. split; [|unfold valid_generation in Hv; lia].
    rewrite generation_after_mod by done. unfold valid_generation in Hg. intros Heq.
    assert ((sl_generation s - 1 + Z.of_nat n) mod UINT32_MAX = sl_generation s - 1) as Hm by lia.
    destruct (decide (sl_generation s - 1 + Z.of_nat n < UINT32_MAX)).
    + rewrite Z.mod_small in Hm; lia.
    + replace (sl_generation s - 1 + Z.of_nat n)
        with ((sl_generation s - 1 + Z.of_nat n - UINT32_MAX) + 1 * UINT32_MAX) in Hm by lia.
      rewrite Z_mod_plus_full, Z.mod_small in Hm; lia.
  - rewrite generation_after_mod, Hn by done. unfold valid_generation in Hg.
    replace (sl_generation s - 1 + UINT32_MAX) with (sl_generation s - 1 + 1 * UINT32_MAX) by lia.
    rewrite Z_mod_plus_full, Z.mod_small; lia.
Qed.
