(* ===== verification/RegistryProtocol.v ===== *)
(** The registry under concurrency: any number of threads run the operations of
    [PluginRegistry], interleaved at the critical sections, while plugin
    callbacks and loader calls run unlocked and answer anything.

    A thread's program counter says which unlocked region it is in; a step is
    one critical section.  Sections that return without changing the registry
    (refused calls, [find], [get_lifecycle], [count]) are not steps. *)

From S2P Require Import Prelude CMetaType CMetaFunction CMetaInterface PluginManifest.
From S2P Require Import PluginRegistry RegistryInvariant RegistryApi.

(** * Threads and states *)

(** [slot] is the index a thread works on, [gen] the generation it saw. *)
Inductive thread_pc :=
  | Idle
  | Loading
  | LoadRejected
  | InStart (slot : nat) (gen : Z)
  | InStop (slot : nat) (gen : Z)
  | InPoll (slot : nat) (gen : Z)
  | InUnload (slot : nat) (gen : Z) (called : bool)
  | InUnloadClose (slot : nat) (gen : Z)
  | InDestroy (next : nat)
  | InDestroySlot (slot : nat) (gen : Z) (called : bool)
  | InDestroyClose (slot : nat) (gen : Z).

(** [sy_impl] is [None] once [destroy] has freed the registry; [sy_leases] are
    the lease tokens granted and not yet released. *)
Record system := mk_system {
  sy_impl : option registry_impl;
  sy_threads : list thread_pc;
  sy_leases : list cmeta_plugin_lease;
}.

Definition initial_system (capacity threads : nat) : system :=
  mk_system (Some (initial_impl capacity)) (replicate threads Idle) [].

Definition generation_at (r : registry_impl) (i : nat) : Z :=
  match im_slots r !! i with Some s => sl_generation s | None => 0 end.

Definition ref_typed (ref : cmeta_plugin_ref) : Prop :=
  is_u32 (ref_slot ref) /\ is_u32 (ref_generation ref).

Definition lease_typed (l : cmeta_plugin_lease) : Prop :=
  ref_typed (le_plugin l) /\ is_u32 (le_slot l) /\ is_u32 (le_generation l).

Definition drop_lease (l : cmeta_plugin_lease) (ls : list cmeta_plugin_lease)
    : list cmeta_plugin_lease :=
  filter (fun x => x <> l) ls.

(** * Steps

    [local_step p r p' r'] is a section that leaves the leases alone. *)
Inductive local_step : thread_pc -> registry_impl -> thread_pc -> registry_impl -> Prop :=
  | step_load_reserve r r' :
      load_reserve r = (CMETA_PLUGIN_OK, r') -> local_step Idle r Loading r'
  | step_load_open_failed r :
      local_step Loading r Idle (release_load_reservation r)
  | step_load_refused r :
      local_step Loading r LoadRejected r
  | step_load_publish r library m ref r' :
      manifest_well_formed m -> load_publish library m r = (CMETA_PLUGIN_OK, ref, r') ->
      local_step Loading r Idle r'
  | step_load_close_rejected r :
      local_step LoadRejected r Idle (release_load_reservation r)
  | step_start_done r ref r' :
      start_begin ref r = Returns CMETA_PLUGIN_OK r' -> local_step Idle r Idle r'
  | step_start_call r ref i cb self r' :
      start_begin ref r = Calls i cb self r' -> local_step Idle r (InStart i (generation_at r i)) r'
  | step_start_end r i g status :
      local_step (InStart i g) r Idle (start_end i status r)
  | step_stop_done r ref r' :
      request_stop_begin ref r = Returns CMETA_PLUGIN_OK r' -> local_step Idle r Idle r'
  | step_stop_call r ref i cb self r' :
      request_stop_begin ref r = Calls i cb self r' ->
      local_step Idle r (InStop i (generation_at r i)) r'
  | step_stop_end r i g status :
      local_step (InStop i g) r Idle (request_stop_end i status r)
  | step_poll_done r ref q r' :
      poll_begin ref r = (Returns CMETA_PLUGIN_OK r', q) -> local_step Idle r Idle r'
  | step_poll_call r ref i cb self q r' :
      poll_begin ref r = (Calls i cb self r', q) ->
      local_step Idle r (InPoll i (generation_at r i)) r'
  | step_poll_end r i g quiescent :
      local_step (InPoll i g) r Idle (poll_end i quiescent r)
  | step_unload_begin r ref i destroy r' :
      unload_begin ref r = Unloading i destroy r' ->
      local_step Idle r (InUnload i (generation_at r i) (negb (is_null destroy))) r'
  | step_unload_destroyed r i g called :
      local_step (InUnload i g called) r (InUnloadClose i g) (after_destroy i called r)
  | step_unload_end r i g status handle :
      local_step (InUnloadClose i g) r Idle
        (unload_end i status (write_slot i (set_library handle) r))
  | step_destroy_begin r r' :
      destroy_begin r = (CMETA_PLUGIN_OK, r') -> local_step Idle r (InDestroy 0) r'
  | step_destroy_skip r i :
      (i < im_capacity r)%nat -> destroy_slot_begin i r = None ->
      local_step (InDestroy i) r (InDestroy (S i)) r
  | step_destroy_slot r i destroy r' :
      (i < im_capacity r)%nat -> destroy_slot_begin i r = Some (destroy, r') ->
      local_step (InDestroy i) r
        (InDestroySlot i (generation_at r i) (negb (is_null destroy))) r'
  | step_destroy_called r i g called :
      local_step (InDestroySlot i g called) r (InDestroyClose i g) (after_destroy i called r)
  | step_destroy_closed r i g handle :
      local_step (InDestroyClose i g) r (InDestroy (S i))
        (destroy_slot_end i CMETA_PLUGIN_OK (write_slot i (set_library handle) r))
  | step_destroy_close_failed r i g status handle :
      status <> CMETA_PLUGIN_OK ->
      local_step (InDestroyClose i g) r Idle
        (destroy_slot_end i status (write_slot i (set_library handle) r)).

(** [step_release] takes any token: the registry compares values, it cannot
    tell a copy from the original. *)
Inductive step : system -> system -> Prop :=
  | step_local t p p' r r' ths ls :
      ths !! t = Some p -> local_step p r p' r' ->
      step (mk_system (Some r) ths ls) (mk_system (Some r') (<[t:=p']> ths) ls)
  | step_acquire r ref lease m r' ths ls :
      ref_typed ref -> acquire_locked ref r = (CMETA_PLUGIN_OK, lease, m, r') ->
      step (mk_system (Some r) ths ls) (mk_system (Some r') ths (lease :: ls))
  | step_release r lease l' r' ths ls :
      lease_typed lease -> cmeta_plugin_lease_valid lease = true ->
      release_locked lease r = (CMETA_PLUGIN_OK, l', r') ->
      step (mk_system (Some r) ths ls) (mk_system (Some r') ths (drop_lease lease ls))
  | step_free t r ths ls :
      ths !! t = Some (InDestroy (im_capacity r)) ->
      step (mk_system (Some r) ths ls) (mk_system None (<[t:=Idle]> ths) ls).

Inductive reachable (capacity threads : nat) : system -> Prop :=
  | reach_init : reachable capacity threads (initial_system capacity threads)
  | reach_step s s' : reachable capacity threads s -> step s s' -> reachable capacity threads s'.

(** * The invariant *)

Definition at_slot (p : thread_pc) : option nat :=
  match p with
  | InStart i _ | InStop i _ | InPoll i _ | InUnload i _ _ | InUnloadClose i _
  | InDestroySlot i _ _ | InDestroyClose i _ => Some i
  | _ => None
  end.

Definition loading (p : thread_pc) : bool :=
  match p with Loading | LoadRejected => true | _ => false end.

(** The slot [destroy] has got to. *)
Definition destroy_index (p : thread_pc) : option nat :=
  match p with
  | InDestroy i | InDestroySlot i _ _ | InDestroyClose i _ => Some i
  | _ => None
  end.

(** The thread is inside plugin code on behalf of its slot. *)
Definition in_callback (p : thread_pc) : bool :=
  match p with
  | InStart _ _ | InStop _ _ | InPoll _ _ => true
  | InUnload _ _ called | InDestroySlot _ _ called => called
  | _ => false
  end.

(** What a thread in its region relies on. *)
Definition pc_owns (p : thread_pc) (s : registry_slot) : Prop :=
  sl_occupied s = true /\ sl_callbacks_inflight s = Z.b2z (in_callback p) /\
  match p with
  | InStart _ g => sl_generation s = g /\ sl_state s = CMETA_PLUGIN_LIFECYCLE_STARTING
  | InStop _ g => sl_generation s = g /\ sl_state s = CMETA_PLUGIN_LIFECYCLE_STOPPING
  | InPoll _ g =>
      sl_generation s = g /\ sl_state s = CMETA_PLUGIN_LIFECYCLE_STOPPING /\ ~ leased s
  | InUnload _ g _ | InUnloadClose _ g | InDestroySlot _ g _ | InDestroyClose _ g =>
      sl_generation s = g /\ sl_unloading s = true
  | _ => False
  end.

Definition slot_busy (s : registry_slot) : Prop :=
  sl_callbacks_inflight s <> 0 \/ sl_unloading s = true.

Record core_inv (r : registry_impl) (ths : list thread_pc) : Prop := {
  ci_wf : impl_wf r;
  ci_loads : im_loads_inflight r = count_if loading ths;
  ci_owns : forall t p i, ths !! t = Some p -> at_slot p = Some i ->
    exists s, im_slots r !! i = Some s /\ pc_owns p s;
  ci_exclusive : forall t u p q i, ths !! t = Some p -> ths !! u = Some q ->
    at_slot p = Some i -> at_slot q = Some i -> t = u;
  ci_busy : forall i s, im_slots r !! i = Some s -> slot_busy s ->
    exists t p, ths !! t = Some p /\ at_slot p = Some i;
}.

(** While a thread is inside [destroy] every other thread is idle. *)
Record destroy_inv (r : registry_impl) (ths : list thread_pc) : Prop := {
  di_alone : forall t p k, ths !! t = Some p -> destroy_index p = Some k ->
    im_destroying r = true /\
    (forall u q, u <> t -> ths !! u = Some q -> q = Idle) /\
    (forall i s, im_slots r !! i = Some s -> sl_occupied s = true ->
       settled_state (sl_state s) = true /\ (k <= i)%nat /\ (at_slot p <> Some i -> sl_unloading s = false));
  di_open : im_destroying r = true -> exists t p k, ths !! t = Some p /\ destroy_index p = Some k;
}.

(** The token of the lease recorded in bit [bit] of slot [i]. *)
Definition lease_token (i : nat) (s : registry_slot) (bit : nat) : cmeta_plugin_lease :=
  mk_lease (mk_ref (Z.of_nat i + 1) (sl_generation s)) (Z.of_nat bit + 1)
    (default 0 (sl_lease_generations s !! bit)).

Definition live_lease (r : registry_impl) (l : cmeta_plugin_lease) : Prop :=
  exists i s bit, im_slots r !! i = Some s /\
    (bit < CMETA_PLUGIN_MAX_LEASES_PER_PLUGIN)%nat /\
    Z.testbit (sl_lease_active_mask s) (Z.of_nat bit) = true /\ l = lease_token i s bit.

Definition lease_inv (r : registry_impl) (ls : list cmeta_plugin_lease) : Prop :=
  NoDup ls /\ forall l, l ∈ ls <-> live_lease r l.

Definition system_inv (s : system) : Prop :=
  match sy_impl s with
  | Some r => core_inv r (sy_threads s) /\ destroy_inv r (sy_threads s) /\ lease_inv r (sy_leases s)
  | None => Forall (fun p => p = Idle) (sy_threads s) /\ sy_leases s = []
  end.

(** * Preservation: slots and threads *)

Lemma thread_update_inv (ths : list thread_pc) t p' u q :
  <[t:=p']> ths !! u = Some q -> (u = t /\ q = p') \/ (u <> t /\ ths !! u = Some q).
Proof. rewrite list_lookup_insert_Some. naive_solver. Qed.

Lemma thread_updated (ths : list thread_pc) t p p' :
  ths !! t = Some p -> <[t:=p']> ths !! t = Some p'.
Proof. intros Ht. apply list_lookup_insert_eq. by eapply lookup_lt_Some. Qed.

(** A slot without callback and not being unloaded has no thread at it. *)
Lemma free_slot_no_thread r ths i s :
  core_inv r ths -> im_slots r !! i = Some s -> ~ slot_busy s ->
  forall u q, ths !! u = Some q -> at_slot q <> Some i.
Proof.
  intros Hc Hi Hb u q Hu Hq. destruct (ci_owns _ _ Hc u q i Hu Hq) as (s' & Hi' & _ & Hcb & Ho).
  rewrite Hi in Hi'. simplify_eq. apply Hb. unfold slot_busy.
  destruct q; simpl in *; try done; try (left; lia); right; tauto.
Qed.

(** The other threads of a thread at slot [i] are elsewhere. *)
Lemma owner_alone r ths t p i :
  core_inv r ths -> ths !! t = Some p -> at_slot p = Some i ->
  forall u q, u <> t -> ths !! u = Some q -> at_slot q <> Some i.
Proof. intros Hc Ht Hp u q Hne Hu Hq. apply Hne. by eapply (ci_exclusive _ _ Hc u t). Qed.

(** A section of thread [t] that only touches slot [i], which no other thread
    is at. *)
Lemma core_step r r' ths t p p' i :
  core_inv r ths -> ths !! t = Some p ->
  (at_slot p = None \/ at_slot p = Some i) -> (at_slot p' = None \/ at_slot p' = Some i) ->
  (forall u q, u <> t -> ths !! u = Some q -> at_slot q <> Some i) ->
  (forall j, j <> i -> im_slots r' !! j = im_slots r !! j) ->
  impl_wf r' ->
  im_loads_inflight r' = im_loads_inflight r - Z.b2z (loading p) + Z.b2z (loading p') ->
  (at_slot p' = Some i -> exists s, im_slots r' !! i = Some s /\ pc_owns p' s) ->
  (at_slot p' = None -> forall s, im_slots r' !! i = Some s -> ~ slot_busy s) ->
  core_inv r' (<[t:=p']> ths).
Proof.
  intros Hc Ht Hp Hp' Halone Hsame Hwf Hloads Howns Hfree. split.
  - done.
  - by rewrite Hloads, (ci_loads _ _ Hc), (count_if_insert _ t _ p p').
  - intros u q j [[-> ->]|[Hne Hu]]%thread_update_inv Hq.
    + destruct Hp' as [Hp'|Hp']; rewrite Hp' in Hq; simplify_eq. auto.
    + rewrite Hsame; [by eapply (ci_owns _ _ Hc)|]. intros ->. by eapply Halone.
  - intros u v q q' j [[-> ->]|[Hne Hu]]%thread_update_inv
      [[-> ->]|[Hne' Hv]]%thread_update_inv Hq Hq'; [done| | |by eapply (ci_exclusive _ _ Hc)].
    + destruct Hp' as [E|E]; rewrite E in Hq; simplify_eq. by destruct (Halone v q').
    + destruct Hp' as [E|E]; rewrite E in Hq'; simplify_eq. by destruct (Halone u q).
  - intros j s Hj Hb. destruct (decide (j = i)) as [->|Hne].
    + destruct Hp' as [E|E]; [by destruct (Hfree E s Hj)|].
      exists t, p'. split; [by eapply thread_updated|done].
    + rewrite Hsame in Hj by done. destruct (ci_busy _ _ Hc j s Hj Hb) as (u & q & Hu & Hq).
      exists u, q. split; [|done]. rewrite list_lookup_insert_ne; [done|]. intros <-.
      simplify_eq. destruct Hp as [E|E]; rewrite E in Hq; simplify_eq.
Qed.

(** A section that changes no slot and no thread position. *)
Lemma core_counter r r' ths t p p' :
  core_inv r ths -> ths !! t = Some p -> at_slot p = None -> at_slot p' = None ->
  im_slots r' = im_slots r -> impl_wf r' ->
  im_loads_inflight r' = im_loads_inflight r - Z.b2z (loading p) + Z.b2z (loading p') ->
  core_inv r' (<[t:=p']> ths).
Proof.
  intros Hc Ht Hp Hp' Hslots Hwf Hloads. split.
  - done.
  - by rewrite Hloads, (ci_loads _ _ Hc), (count_if_insert _ t _ p p').
  - intros u q j [[-> ->]|[Hne Hu]]%thread_update_inv Hq; [congruence|].
    rewrite Hslots. by eapply (ci_owns _ _ Hc).
  - intros u v q q' j [[-> ->]|[Hne Hu]]%thread_update_inv
      [[-> ->]|[Hne' Hv]]%thread_update_inv Hq Hq'; [done|congruence|congruence|].
    by eapply (ci_exclusive _ _ Hc).
  - intros j s. rewrite Hslots. intros Hj Hb.
    destruct (ci_busy _ _ Hc j s Hj Hb) as (u & q & Hu & Hq).
    exists u, q. split; [|done]. rewrite list_lookup_insert_ne; [done|]. intros <-. congruence.
Qed.

(** A write to slot [i] that its owner, if any, does not notice. *)
Lemma core_write r ths i s f :
  core_inv r ths -> im_slots r !! i = Some s -> impl_wf (write_slot i f r) ->
  (forall p, pc_owns p s -> pc_owns p (f s)) -> (slot_busy (f s) -> slot_busy s) ->
  core_inv (write_slot i f r) ths.
Proof.
  intros Hc Hi Hwf Hown Hbusy. split.
  - done.
  - apply (ci_loads _ _ Hc).
  - intros u q j Hu Hq. destruct (ci_owns _ _ Hc u q j Hu Hq) as (s' & Hj & Ho).
    destruct (decide (i = j)) as [<-|Hne].
    + simplify_eq. exists (f s). split; [by apply write_slot_at|by apply Hown].
    + exists s'. by rewrite write_slot_other.
  - apply (ci_exclusive _ _ Hc).
  - intros j t (s' & Hj & ->)%write_slot_lookup Hb. case_decide; simplify_eq;
      eapply (ci_busy _ _ Hc); eauto.
Qed.

(** A thread reserving or holding a load reservation. *)
Lemma loading_positive r ths t p :
  core_inv r ths -> ths !! t = Some p -> loading p = true -> 0 < im_loads_inflight r.
Proof. intros Hc Ht Hp. rewrite (ci_loads _ _ Hc). by eapply count_if_pos. Qed.

Lemma load_reserve_inv r r' :
  load_reserve r = (CMETA_PLUGIN_OK, r') ->
  im_destroying r = false /\ r' = set_loads (size_inc (im_loads_inflight r)) r.
Proof. unfold load_reserve. repeat case_if; intros; by simplify_eq. Qed.

Lemma loads_bound r : impl_wf r -> 0 <= im_loads_inflight r <= UINT32_MAX.
Proof.
  intros Hwf. pose proof (iw_count_bounds r Hwf). pose proof (iw_loads _ Hwf).
  pose proof (iw_capacity _ Hwf). lia.
Qed.

Lemma release_reservation_core r ths t p :
  core_inv r ths -> ths !! t = Some p -> loading p = true ->
  core_inv (release_load_reservation r) (<[t:=Idle]> ths).
Proof.
  intros Hc Ht Hp. pose proof (loading_positive r ths t p Hc Ht Hp) as Hpos.
  pose proof (loads_bound r (ci_wf _ _ Hc)) as Hb. unfold UINT32_MAX in Hb.
  eapply core_counter; [done|done|by destruct p|done|done| |].
  - by apply release_reservation_wf; [apply (ci_wf _ _ Hc)|].
  - rewrite Hp. simpl. rewrite size_dec_small by (unfold SIZE_MAX; lia). lia.
Qed.

Lemma publish_core r ths t library m ref r' :
  core_inv r ths -> ths !! t = Some Loading -> manifest_well_formed m ->
  load_publish library m r = (CMETA_PLUGIN_OK, ref, r') -> core_inv r' (<[t:=Idle]> ths).
Proof.
  intros Hc Ht Hm Hp. pose proof (loading_positive r ths t _ Hc Ht eq_refl) as Hpos.
  pose proof (load_publish_wf r library m (ci_wf _ _ Hc) Hm Hpos) as Hwf.
  pose proof (loads_bound r (ci_wf _ _ Hc)) as Hb. unfold UINT32_MAX in Hb.
  rewrite Hp in Hwf. simpl in Hwf.
  apply load_publish_ok in Hp as (i & s & Hi & _ & Ho & _ & _ & _ & ->).
  pose proof (sw_free _ (iw_slot _ (ci_wf _ _ Hc) _ _ Hi) Ho) as (_ & Hcb & _ & Hu & _).
  eapply (core_step r _ ths t Loading Idle i); [done|done|by left|by left| | |done| |done|].
  - intros u q _. eapply free_slot_no_thread; [done|done|]. unfold slot_busy. rewrite Hcb, Hu.
    by intros [].
  - intros j Hj. exact (write_slot_other r i j (loaded_slot library m) (not_eq_sym Hj)).
  - simpl. rewrite size_dec_small by (unfold SIZE_MAX; lia). lia.
  - simpl. intros _ t' (u & _ & ->)%lookup_alter_case.
    unfold slot_busy. case_decide; [simpl; naive_solver|done].
Qed.

(** A section of a thread that is not loading, writing slot [i] only. *)
Lemma slot_core r ths t p p' i s f :
  core_inv r ths -> ths !! t = Some p -> im_slots r !! i = Some s ->
  (at_slot p = None /\ ~ slot_busy s \/ at_slot p = Some i) ->
  loading p = false -> loading p' = false -> impl_wf (write_slot i f r) ->
  (at_slot p' = Some i /\ pc_owns p' (f s) \/ at_slot p' = None /\ ~ slot_busy (f s)) ->
  core_inv (write_slot i f r) (<[t:=p']> ths).
Proof.
  intros Hc Ht Hi Hp Hl Hl' Hwf Hp'. pose proof (write_slot_at r i f s Hi) as Hi'.
  eapply (core_step r _ ths t p p' i); [done|done|tauto|tauto| | |done| | |].
  - intros u q Hne Hu. destruct Hp as [[_ Hb]|Hp]; [by eapply free_slot_no_thread|].
    exact (owner_alone r ths t p i Hc Ht Hp u q Hne Hu).
  - intros j Hj. by apply write_slot_other.
  - rewrite Hl, Hl'. simpl. lia.
  - intros Hat. exists (f s). split; [done|]. destruct Hp' as [[_ ?]|[E _]]; [done|congruence].
  - intros Hat s' Hs'. rewrite Hi' in Hs'. simplify_eq.
    destruct Hp' as [[E _]|[_ ?]]; [congruence|done].
Qed.

Lemma admitted_not_busy r ref i s :
  admitted r ref i s -> sl_callbacks_inflight s = 0 -> ~ slot_busy s.
Proof. intros Ha Hc [?|Hu]; [done|]. by rewrite (ad_kept _ _ _ _ Ha) in Hu. Qed.

Lemma generation_at_slot r i s : im_slots r !! i = Some s -> generation_at r i = sl_generation s.
Proof. unfold generation_at. by intros ->. Qed.

Lemma outcome_wf_returns o st r : o = Returns st r -> impl_wf (outcome_impl o) -> impl_wf r.
Proof. by intros ->. Qed.

Lemma enter_idle s : sl_callbacks_inflight s = 0 -> sl_callbacks_inflight (enter_callback s) = 1.
Proof. simpl. by intros ->. Qed.

Lemma leave_one s : sl_callbacks_inflight s = 1 -> sl_callbacks_inflight (leave_callback s) = 0.
Proof. simpl. by intros ->. Qed.

(** [start]: first section. *)
Lemma start_begin_core r ths t ref o :
  core_inv r ths -> ths !! t = Some Idle -> start_begin ref r = o ->
  match o with
  | Returns CMETA_PLUGIN_OK r' => core_inv r' (<[t:=Idle]> ths)
  | Calls i _ _ r' => core_inv r' (<[t:=InStart i (generation_at r i)]> ths)
  | _ => True
  end.
Proof.
  intros Hc Ht <-. pose proof (start_begin_wf ref r (ci_wf _ _ Hc)) as Hwf.
  destruct (start_begin_inv ref r) as [(st & E & Hne)|(i & s & Ha & Hst & Hl & Hcb & E)];
    rewrite E in *; [by destruct st|].
  pose proof (ad_slot _ _ _ _ Ha) as Hi. pose proof (admitted_not_busy _ _ _ _ Ha Hcb) as Hb.
  destruct (manifest_of s pm_start); simpl in Hwf; eapply slot_core;
    [exact Hc|exact Ht|exact Hi|by left|done|done|done| |
     exact Hc|exact Ht|exact Hi|by left|done|done|done|].
  - left. split; [done|]. split; [apply Ha|]. split; [by apply enter_idle|].
    split; [|done]. by rewrite (generation_at_slot r i s).
  - right. split; [done|]. exact Hb.
Qed.

Lemma start_end_core r ths t i g status :
  core_inv r ths -> ths !! t = Some (InStart i g) ->
  core_inv (start_end i status r) (<[t:=Idle]> ths).
Proof.
  intros Hc Ht. destruct (ci_owns _ _ Hc t _ i Ht eq_refl) as (s & Hi & Ho & Hcb & Hg & Hst).
  pose proof (ci_wf _ _ Hc) as Hwf. pose proof (start_end_wf r i s status Hwf Hi Hst) as Hwf'.
  assert (sl_unloading s = false) as Hu.
  { destruct (sl_unloading s) eqn:Hu; [|done].
    apply (sw_unloading _ (iw_slot _ Hwf _ _ Hi)) in Hu. by rewrite Hst in Hu. }
  eapply slot_core; [exact Hc|exact Ht|exact Hi|by right|done|done|exact Hwf'|].
  right. split; [done|]. unfold slot_busy, record_failure. simpl in Hcb.
  repeat case_bool_decide; simpl; rewrite Hcb, Hu; by intros [].
Qed.

Lemma request_stop_begin_core r ths t ref o :
  core_inv r ths -> ths !! t = Some Idle -> request_stop_begin ref r = o ->
  match o with
  | Returns CMETA_PLUGIN_OK r' => core_inv r' (<[t:=Idle]> ths)
  | Calls i _ _ r' => core_inv r' (<[t:=InStop i (generation_at r i)]> ths)
  | _ => True
  end.
Proof.
  intros Hc Ht <-. pose proof (request_stop_begin_wf ref r (ci_wf _ _ Hc)) as Hwf.
  destruct (request_stop_begin_inv ref r) as [(st & E & Hne)|(i & s & Ha & Hst & E)];
    rewrite E in *; [by destruct st|].
  pose proof (ad_slot _ _ _ _ Ha) as Hi.
  destruct (slot_started_idle s (iw_slot _ (ci_wf _ _ Hc) _ _ Hi) Hst) as (Hcb & _).
  pose proof (admitted_not_busy _ _ _ _ Ha Hcb) as Hb.
  destruct (manifest_of s pm_request_stop); simpl in Hwf; eapply slot_core;
    [exact Hc|exact Ht|exact Hi|by left|done|done|done| |
     exact Hc|exact Ht|exact Hi|by left|done|done|done|].
  - left. split; [done|]. split; [apply Ha|]. split; [by apply enter_idle|].
    split; [|done]. by rewrite (generation_at_slot r i s).
  - right. split; [done|]. exact Hb.
Qed.

Lemma request_stop_end_core r ths t i g status :
  core_inv r ths -> ths !! t = Some (InStop i g) ->
  core_inv (request_stop_end i status r) (<[t:=Idle]> ths).
Proof.
  intros Hc Ht. destruct (ci_owns _ _ Hc t _ i Ht eq_refl) as (s & Hi & Ho & Hcb & Hg & Hst).
  pose proof (ci_wf _ _ Hc) as Hwf.
  pose proof (request_stop_end_wf r i s status Hwf Hi Hst Hcb) as Hwf'.
  destruct (slot_stopping_not_unloading s (iw_slot _ Hwf _ _ Hi) Hst) as [Hu _].
  eapply slot_core; [exact Hc|exact Ht|exact Hi|by right|done|done|exact Hwf'|].
  right. split; [done|]. unfold slot_busy, record_failure. simpl in Hcb.
  repeat case_bool_decide; simpl; rewrite Hcb, Hu; by intros [].
Qed.

Lemma poll_begin_core r ths t ref o q :
  core_inv r ths -> ths !! t = Some Idle -> poll_begin ref r = (o, q) ->
  match o with
  | Returns _ r' => core_inv r' (<[t:=Idle]> ths)
  | Calls i _ _ r' => core_inv r' (<[t:=InPoll i (generation_at r i)]> ths)
  end.
Proof.
  intros Hc Ht Hp. pose proof (poll_begin_wf ref r (ci_wf _ _ Hc)) as Hwf.
  destruct (poll_begin_inv ref r) as [(st & q' & E)|(i & s & Ha & Hst & Hl & Hcb & E)];
    rewrite E in *; simplify_eq/=.
  { by rewrite list_insert_id. }
  pose proof (ad_slot _ _ _ _ Ha) as Hi. pose proof (admitted_not_busy _ _ _ _ Ha Hcb) as Hb.
  destruct (manifest_of s pm_is_quiescent); simplify_eq/=; eapply slot_core;
    [exact Hc|exact Ht|exact Hi|by left|done|done|done| |
     exact Hc|exact Ht|exact Hi|by left|done|done|done|].
  - left. split; [done|]. split; [apply Ha|]. split; [by apply enter_idle|].
    split; [by rewrite (generation_at_slot r i s)|]. split; [done|].
    change (~ leased s). pose proof (iw_slot _ (ci_wf _ _ Hc) _ _ Hi).
    by intros Hx%popcount_pos_leased.
  - right. split; [done|]. exact Hb.
Qed.

Lemma poll_end_core r ths t i g quiescent :
  core_inv r ths -> ths !! t = Some (InPoll i g) ->
  core_inv (poll_end i quiescent r) (<[t:=Idle]> ths).
Proof.
  intros Hc Ht. destruct (ci_owns _ _ Hc t _ i Ht eq_refl) as (s & Hi & Ho & Hcb & Hg & Hst & Hl).
  pose proof (ci_wf _ _ Hc) as Hwf.
  pose proof (poll_end_wf r i s quiescent Hwf Hi Hst Hcb Hl) as Hwf'.
  destruct (slot_stopping_not_unloading s (iw_slot _ Hwf _ _ Hi) Hst) as [Hu _].
  eapply slot_core; [exact Hc|exact Ht|exact Hi|by right|done|done|exact Hwf'|].
  right. split; [done|]. unfold slot_busy. simpl in Hcb.
  destruct quiescent; simpl; rewrite Hcb, Hu; by intros [].
Qed.

(** ** Unload and destroy *)

Lemma write_slot_id r i : write_slot i (fun s => s) r = r.
Proof.
  unfold write_slot, set_slots. destruct r as [slots]; simpl. f_equal. apply list_eq. intros j.
  rewrite list_lookup_alter. destruct (decide (i = j)) as [->|]; [|done]. by destruct (slots !! j).
Qed.

Definition destroyed (called : bool) (s : registry_slot) : registry_slot :=
  if called
  then set_state CMETA_PLUGIN_LIFECYCLE_QUIESCENT (set_destroy_called true (leave_callback s))
  else s.

Lemma after_destroy_write i called r :
  after_destroy i called r = write_slot i (destroyed called) r.
Proof. destruct called; [done|]. symmetry. apply write_slot_id. Qed.

Lemma mark_unloading_owned s :
  sl_occupied s = true -> sl_callbacks_inflight s = 0 ->
  sl_occupied (mark_unloading s) = true /\ sl_unloading (mark_unloading s) = true /\
  sl_generation (mark_unloading s) = sl_generation s /\
  sl_callbacks_inflight (mark_unloading s) = Z.b2z (negb (is_null (pending_destroy s))).
Proof.
  intros Ho Hc. unfold mark_unloading. destruct (is_null _); simpl; [done|]. by rewrite Hc.
Qed.

Lemma unload_begin_core r ths t ref i destroy r' :
  core_inv r ths -> ths !! t = Some Idle -> unload_begin ref r = Unloading i destroy r' ->
  core_inv r' (<[t:=InUnload i (generation_at r i) (negb (is_null destroy))]> ths).
Proof.
  intros Hc Ht Hun. pose proof (unload_begin_wf ref r (ci_wf _ _ Hc)) as Hwf.
  destruct (unload_begin_inv ref r) as [(st & E & _)|(j & s & Ha & Hst & Hl & Hcb & E)];
    rewrite E in *; simplify_eq/=.
  pose proof (ad_slot _ _ _ _ Ha) as Hi. pose proof (admitted_not_busy _ _ _ _ Ha Hcb) as Hb.
  destruct (mark_unloading_owned s) as (Ho & Hu & Hg & Hc'); [apply Ha|done|].
  eapply slot_core; [exact Hc|exact Ht|exact Hi|by left|done|done|done|].
  left. split; [done|]. split_and!; [done|done| |done]. by rewrite (generation_at_slot r i s).
Qed.

Lemma destroyed_core r ths t p p' i g (called : bool) :
  core_inv r ths -> ths !! t = Some p ->
  p = InUnload i g called /\ p' = InUnloadClose i g \/
  p = InDestroySlot i g called /\ p' = InDestroyClose i g ->
  core_inv (after_destroy i called r) (<[t:=p']> ths).
Proof.
  intros Hc Ht Hp.
  assert (at_slot p = Some i /\ loading p = false /\ at_slot p' = Some i /\ loading p' = false)
    as (Hat & Hl & Hat' & Hl') by (destruct Hp as [[-> ->]|[-> ->]]; done).
  destruct (ci_owns _ _ Hc t _ i Ht Hat) as (s & Hi & Ho & Hcb & Hrest).
  assert (sl_generation s = g /\ sl_unloading s = true /\ in_callback p = called) as (Hg & Hu & Hin)
    by (destruct Hp as [[-> ->]|[-> ->]]; tauto).
  rewrite Hin in Hcb. pose proof (ci_wf _ _ Hc) as Hwf.
  assert (impl_wf (after_destroy i called r)) as Hwf'
    by (eapply after_destroy_wf; [done|exact Hi|done|by intros ->]).
  rewrite after_destroy_write in *.
  eapply slot_core; [exact Hc|exact Ht|exact Hi|by right|done|done|done|].
  left. split; [done|]. unfold destroyed.
  destruct Hp as [[-> ->]|[-> ->]], called; simpl in Hcb;
    split_and!; simpl; rewrite ?Hcb; done.
Qed.

Lemma unload_end_slots i status r :
  im_slots (unload_end i status r) =
  im_slots (write_slot i (if bool_decide (status = CMETA_PLUGIN_OK) then cleared_slot
                          else set_unloading false) r).
Proof. unfold unload_end, clear_slot_locked. case_bool_decide; simpl; by repeat case_if. Qed.

Lemma unload_end_counters i status r :
  im_loads_inflight (unload_end i status r) = im_loads_inflight r /\
  im_destroying (unload_end i status r) = im_destroying r.
Proof. unfold unload_end, clear_slot_locked. case_bool_decide; simpl; by repeat case_if. Qed.

Lemma destroy_slot_end_counters i status r :
  im_loads_inflight (destroy_slot_end i status r) = im_loads_inflight r /\
  im_capacity (destroy_slot_end i status r) = im_capacity r /\
  im_destroying (destroy_slot_end i status r) =
    (im_destroying r && bool_decide (status = CMETA_PLUGIN_OK)).
Proof.
  unfold destroy_slot_end, clear_slot_locked.
  case_bool_decide; simpl; rewrite ?andb_true_r, ?andb_false_r; by repeat case_if.
Qed.

(** The slot after the native close. *)
Definition closed_slot (status : cmeta_plugin_status) (handle : option addr) (s : registry_slot)
    : registry_slot :=
  (if bool_decide (status = CMETA_PLUGIN_OK) then cleared_slot else set_unloading false)
    (set_library handle s).

Lemma closed_not_busy status handle s :
  sl_callbacks_inflight s = 0 -> ~ slot_busy (closed_slot status handle s).
Proof.
  intros Hc. unfold slot_busy, closed_slot. case_bool_decide; simpl; rewrite ?Hc; by intros [].
Qed.

(** The section after the close, for [unload] and for [destroy]. *)
Lemma close_core r r' ths t p p' i g status handle :
  core_inv r ths -> ths !! t = Some p ->
  p = InUnloadClose i g \/ p = InDestroyClose i g ->
  at_slot p' = None -> loading p' = false ->
  im_slots r' = im_slots (write_slot i (closed_slot status handle) r) ->
  im_loads_inflight r' = im_loads_inflight r -> impl_wf r' ->
  core_inv r' (<[t:=p']> ths).
Proof.
  intros Hc Ht Hp Hat' Hl' Hslots Hloads Hwf.
  assert (at_slot p = Some i /\ loading p = false) as [Hat Hl]
    by (destruct Hp as [->| ->]; done).
  destruct (ci_owns _ _ Hc t _ i Ht Hat) as (s & Hi & Ho & Hcb & _).
  assert (sl_callbacks_inflight s = 0) as Hcb0 by (destruct Hp as [->| ->]; done).
  eapply (core_step r _ ths t p p' i); [done|done|by right|by left| | |done| | |].
  - intros u q Hne Hu. exact (owner_alone r ths t p i Hc Ht Hat u q Hne Hu).
  - intros j Hj. rewrite Hslots. by apply write_slot_other.
  - rewrite Hloads, Hl, Hl'. simpl. lia.
  - intros E. congruence.
  - intros _ s'. rewrite Hslots. intros (u & Hu & ->)%write_slot_lookup. simplify_eq.
    rewrite decide_True by done. by apply closed_not_busy.
Qed.

Lemma close_wf r ths t p i g status handle :
  core_inv r ths -> ths !! t = Some p -> p = InUnloadClose i g \/ p = InDestroyClose i g ->
  impl_wf (unload_end i status (write_slot i (set_library handle) r)) /\
  impl_wf (destroy_slot_end i status (write_slot i (set_library handle) r)).
Proof.
  intros Hc Ht Hp. pose proof (ci_wf _ _ Hc) as Hwf.
  assert (exists s, im_slots r !! i = Some s /\ sl_occupied s = true /\ sl_unloading s = true /\
            sl_callbacks_inflight s = 0) as (s & Hi & Ho & Hu & Hcb).
  { destruct Hp as [->| ->]; destruct (ci_owns _ _ Hc t _ i Ht eq_refl)
      as (s & Hi & Ho & Hcb & Hg & Hu); by exists s. }
  split; [by eapply unload_end_wf|by eapply destroy_slot_end_wf].
Qed.

Lemma unload_end_core r ths t i g status handle :
  core_inv r ths -> ths !! t = Some (InUnloadClose i g) ->
  core_inv (unload_end i status (write_slot i (set_library handle) r)) (<[t:=Idle]> ths).
Proof.
  intros Hc Ht. destruct (close_wf r ths t _ i g status handle Hc Ht (or_introl eq_refl)) as [Hwf _].
  eapply close_core; [done|done|by left|done|done| | |done].
  - by rewrite unload_end_slots, write_slot_twice.
  - by destruct (unload_end_counters i status (write_slot i (set_library handle) r)) as [-> _].
Qed.

Lemma destroy_slot_end_core r ths t i g status handle p' :
  core_inv r ths -> ths !! t = Some (InDestroyClose i g) ->
  at_slot p' = None -> loading p' = false ->
  core_inv (destroy_slot_end i status (write_slot i (set_library handle) r)) (<[t:=p']> ths).
Proof.
  intros Hc Ht Hat Hl.
  destruct (close_wf r ths t _ i g status handle Hc Ht (or_intror eq_refl)) as [_ Hwf].
  eapply close_core; [done|done|by right|done|done| | |done].
  - by rewrite destroy_slot_end_slots, write_slot_twice.
  - by destruct (destroy_slot_end_counters i status (write_slot i (set_library handle) r)) as [-> _].
Qed.

(** * Preservation: destroy *)

Lemma pc_idle p : at_slot p = None -> loading p = false -> destroy_index p = None -> p = Idle.
Proof. by destruct p. Qed.

(** A thread in the middle of another operation keeps [destroy] out. *)
Lemma busy_thread_open r ths t p :
  destroy_inv r ths -> ths !! t = Some p -> p <> Idle -> destroy_index p = None ->
  im_destroying r = false.
Proof.
  intros Hd Ht Hp Hk. destruct (im_destroying r) eqn:Hop; [|done].
  destruct (di_open _ _ Hd Hop) as (u & q & k & Hu & Hq).
  destruct (di_alone _ _ Hd u q k Hu Hq) as (_ & Hothers & _).
  destruct (decide (t = u)) as [->|Hne]; [congruence|]. by destruct Hp; eapply Hothers.
Qed.

Lemma destroy_inv_open r r' ths t p' :
  destroy_inv r ths -> im_destroying r = false -> im_destroying r' = false ->
  destroy_index p' = None -> destroy_inv r' (<[t:=p']> ths).
Proof.
  intros Hd Hop Hop' Hp'. split.
  - intros u q k [[-> ->]|[Hne Hu]]%thread_update_inv Hq; [congruence|].
    destruct (di_alone _ _ Hd u q k Hu Hq) as [? _]. congruence.
  - congruence.
Qed.

Lemma destroy_inv_own r r' ths t p k p' k' :
  destroy_inv r ths -> ths !! t = Some p -> destroy_index p = Some k ->
  destroy_index p' = Some k' -> im_destroying r' = true ->
  (forall i s, im_slots r' !! i = Some s -> sl_occupied s = true ->
     settled_state (sl_state s) = true /\ (k' <= i)%nat /\ (at_slot p' <> Some i -> sl_unloading s = false)) ->
  destroy_inv r' (<[t:=p']> ths).
Proof.
  intros Hd Ht Hp Hp' Hop' Hslots. destruct (di_alone _ _ Hd t p k Ht Hp) as (_ & Hothers & _).
  split.
  - intros u q j [[-> ->]|[Hne Hu]]%thread_update_inv Hq.
    + simplify_eq. split_and!; [done| |done].
      intros v q' Hne [[-> _]|[_ Hv]]%thread_update_inv; [done|by eapply Hothers].
    + rewrite (Hothers u q Hne Hu) in Hq. done.
  - intros _. exists t, p', k'. split; [by eapply thread_updated|done].
Qed.

Lemma destroy_begin_ok r r' :
  destroy_begin r = (CMETA_PLUGIN_OK, r') ->
  r' = set_destroying true r /\ im_destroying r = false /\ im_loads_inflight r = 0 /\
  forall i s, (i < im_capacity r)%nat -> im_slots r !! i = Some s -> blocks_destroy s = false.
Proof.
  unfold destroy_begin. case_if; [done|]. destruct_bools.
  destruct (find_below _ _) as [j|] eqn:Hf; [done|]. intros [= <-]. split_and!; [done..|].
  intros i s Hlt Hi. pose proof (proj1 (find_below_None _ _) Hf i Hlt) as Hb.
  unfold slot_test in Hb. by rewrite Hi in Hb.
Qed.

Lemma blocks_destroy_false s :
  blocks_destroy s = false -> sl_occupied s = true ->
  sl_unloading s = false /\ sl_callbacks_inflight s = 0 /\ settled_state (sl_state s) = true.
Proof. unfold blocks_destroy. intros Hb Ho. rewrite Ho in Hb. simpl in Hb. by destruct_bools. Qed.

Lemma destroy_begin_inv_all r r' ths t :
  core_inv r ths -> destroy_inv r ths -> ths !! t = Some Idle ->
  destroy_begin r = (CMETA_PLUGIN_OK, r') ->
  core_inv r' (<[t:=InDestroy 0]> ths) /\ destroy_inv r' (<[t:=InDestroy 0]> ths).
Proof.
  intros Hc Hd Ht (-> & Hop & Hl & Hb)%destroy_begin_ok.
  assert (forall i s, im_slots r !! i = Some s -> sl_occupied s = true ->
    sl_unloading s = false /\ sl_callbacks_inflight s = 0 /\ settled_state (sl_state s) = true) as Hfree.
  { intros i s Hi Ho. apply blocks_destroy_false; [|done]. eapply Hb; [|done].
    rewrite <- (iw_slots_length _ (ci_wf _ _ Hc)). by eapply lookup_lt_Some. }
  assert (forall u q, ths !! u = Some q -> q = Idle) as Hidle.
  { intros u q Hu. apply pc_idle.
    - destruct (at_slot q) as [i|] eqn:Hq; [|done]. exfalso.
      destruct (ci_owns _ _ Hc u q i Hu Hq) as (s & Hi & Ho & Hown).
      destruct (Hfree i s Hi Ho) as (Hun & Hcb & _).
      eapply (free_slot_no_thread r ths i s Hc Hi); [|exact Hu|exact Hq].
      unfold slot_busy. rewrite Hun, Hcb. by intros [].
    - pose proof (ci_loads _ _ Hc) as Hcount. rewrite Hl in Hcount. symmetry in Hcount.
      rewrite count_if_0 in Hcount. apply Hcount. by eapply list_elem_of_lookup_2.
    - destruct (destroy_index q) as [k|] eqn:Hq; [|done].
      destruct (di_alone _ _ Hd u q k Hu Hq) as [? _]. congruence. }
  split.
  - eapply core_counter; [done|done|done|done|done| |simpl; lia].
    apply set_destroying_wf, (ci_wf _ _ Hc).
  - split.
    + intros u q k [[-> ->]|[Hne Hu]]%thread_update_inv Hq.
      * simpl in Hq. simplify_eq. split_and!; [done| |].
        -- intros v q' Hne [[-> _]|[_ Hv]]%thread_update_inv; [done|by eapply Hidle].
        -- intros i s Hi Ho. simpl in Hi. destruct (Hfree i s Hi Ho) as (? & _ & ?).
           split_and!; [done|lia|done].
      * by rewrite (Hidle u q Hu) in Hq.
    + intros _. exists t, (InDestroy 0), 0%nat. split; [by eapply thread_updated|done].
Qed.

Lemma destroy_skip_inv r ths t i :
  core_inv r ths -> destroy_inv r ths -> ths !! t = Some (InDestroy i) ->
  destroy_slot_begin i r = None ->
  core_inv r (<[t:=InDestroy (S i)]> ths) /\ destroy_inv r (<[t:=InDestroy (S i)]> ths).
Proof.
  intros Hc Hd Ht Hskip. destruct (di_alone _ _ Hd t _ i Ht eq_refl) as (Hop & _ & Hslots). split.
  - eapply core_counter; [done|done|done|done|done|apply (ci_wf _ _ Hc)|simpl; lia].
  - eapply destroy_inv_own; [done|done|done|done|done|].
    intros j s Hj Ho. destruct (Hslots j s Hj Ho) as (Hst & Hle & Hu).
    split_and!; [done| |by intros; apply Hu].
    assert (i <> j); [|lia]. intros <-. unfold destroy_slot_begin in Hskip.
    by rewrite Hj, Ho in Hskip.
Qed.

Lemma destroy_slot_inv r r' ths t i destroy :
  core_inv r ths -> destroy_inv r ths -> ths !! t = Some (InDestroy i) ->
  destroy_slot_begin i r = Some (destroy, r') ->
  let p' := InDestroySlot i (generation_at r i) (negb (is_null destroy)) in
  core_inv r' (<[t:=p']> ths) /\ destroy_inv r' (<[t:=p']> ths).
Proof.
  intros Hc Hd Ht Hbeg. destruct (di_alone _ _ Hd t _ i Ht eq_refl) as (Hop & _ & Hslots).
  unfold destroy_slot_begin in Hbeg. destruct (im_slots r !! i) as [s|] eqn:Hi; [|done].
  destruct (sl_occupied s) eqn:Ho; [|done]. simplify_eq.
  destruct (Hslots i s Hi Ho) as (Hst & _ & Hu). specialize (Hu ltac:(done)).
  pose proof (iw_slot _ (ci_wf _ _ Hc) _ _ Hi) as Hs.
  destruct (slot_idle s Hs Hst) as (_ & _ & Hcb). specialize (Hcb Hu).
  destruct (mark_unloading_owned s Ho Hcb) as (Ho' & Hu' & Hg' & Hc').
  assert (impl_wf (write_slot i mark_unloading r)) as Hwf.
  { eapply impl_wf_write; [apply (ci_wf _ _ Hc)|exact Hi|]. by apply mark_unloading_keeps. }
  cbv zeta. split.
  - eapply slot_core; [exact Hc|exact Ht|exact Hi| |done|done|done|].
    + left. split; [done|]. unfold slot_busy. rewrite Hu, Hcb. by intros [].
    + left. split; [done|]. split_and!; [done|done| |done]. by rewrite (generation_at_slot r i s).
  - eapply destroy_inv_own; [done|done|done|done|done|].
    intros j s' (u & Hj & ->)%write_slot_lookup. case_decide.
    + simplify_eq. intros _. split_and!; [|done|done].
      unfold mark_unloading. by destruct (is_null _).
    + intros Hou. destruct (Hslots j u Hj Hou) as (? & ? & Huu).
      split_and!; [done..|by intros; apply Huu].
Qed.

Lemma destroy_called_inv r ths t i g called :
  core_inv r ths -> destroy_inv r ths -> ths !! t = Some (InDestroySlot i g called) ->
  destroy_inv (after_destroy i called r) (<[t:=InDestroyClose i g]> ths).
Proof.
  intros Hc Hd Ht. destruct (di_alone _ _ Hd t _ i Ht eq_refl) as (Hop & _ & Hslots).
  rewrite after_destroy_write.
  eapply destroy_inv_own; [done|done|done|done|done|].
  intros j s (u & Hj & ->)%write_slot_lookup. case_decide.
  - simplify_eq. intros Ho. destruct (Hslots j u Hj) as (Hst & Hle & Hu);
      [by destruct called|]. split_and!; [by destruct called|done|done].
  - intros Ho. by apply Hslots.
Qed.

Lemma destroy_closed_inv r ths t i g handle :
  core_inv r ths -> destroy_inv r ths -> ths !! t = Some (InDestroyClose i g) ->
  destroy_inv (destroy_slot_end i CMETA_PLUGIN_OK (write_slot i (set_library handle) r))
    (<[t:=InDestroy (S i)]> ths).
Proof.
  intros Hc Hd Ht. destruct (di_alone _ _ Hd t _ i Ht eq_refl) as (Hop & _ & Hslots).
  eapply destroy_inv_own; [done|done|done|done| |].
  - destruct (destroy_slot_end_counters i CMETA_PLUGIN_OK (write_slot i (set_library handle) r))
      as (_ & _ & ->). simpl. by rewrite Hop.
  - intros j s. rewrite destroy_slot_end_slots, write_slot_twice.
    intros (u & Hj & ->)%write_slot_lookup. case_decide; [done|].
    intros Ho. destruct (Hslots j u Hj Ho) as (Hst & Hle & Hu).
    split_and!; [done|lia|]. intros _. apply Hu. simpl. congruence.
Qed.

Lemma destroy_failed_inv r ths t i g status handle :
  destroy_inv r ths -> ths !! t = Some (InDestroyClose i g) -> status <> CMETA_PLUGIN_OK ->
  destroy_inv (destroy_slot_end i status (write_slot i (set_library handle) r)) (<[t:=Idle]> ths).
Proof.
  intros Hd Ht Hst. destruct (di_alone _ _ Hd t _ i Ht eq_refl) as (Hop & Hothers & _).
  assert (im_destroying (destroy_slot_end i status (write_slot i (set_library handle) r)) = false)
    as Hop'.
  { destruct (destroy_slot_end_counters i status (write_slot i (set_library handle) r))
      as (_ & _ & ->). by rewrite bool_decide_false, andb_false_r. }
  split; [|congruence].
  intros u q k [[-> ->]|[Hne Hu]]%thread_update_inv Hq; [done|].
  by rewrite (Hothers u q Hne Hu) in Hq.
Qed.

(** * Preservation: leases *)

Lemma live_lease_leased r l : live_lease r l ->
  exists i s bit, im_slots r !! i = Some s /\ leased s /\ l = lease_token i s bit.
Proof.
  intros (i & s & bit & Hi & _ & Hb & ->). exists i, s, bit. split_and!; [done| |done].
  intros H0. by rewrite H0, Z.bits_0 in Hb.
Qed.

(** Two slots that record the same leases. *)
Definition same_leases (s t : registry_slot) : Prop :=
  (~ leased s /\ ~ leased t) \/
  (sl_lease_active_mask s = sl_lease_active_mask t /\ sl_generation s = sl_generation t /\
   sl_lease_generations s = sl_lease_generations t).

Lemma live_lease_write r r' i s f l :
  im_slots r !! i = Some s -> im_slots r' = im_slots (write_slot i f r) ->
  same_leases s (f s) -> live_lease r' l <-> live_lease r l.
Proof.
  intros Hi Hslots Hsame.
  assert (forall bit, Z.testbit (sl_lease_active_mask s) (Z.of_nat bit) =
                      Z.testbit (sl_lease_active_mask (f s)) (Z.of_nat bit) /\
          (Z.testbit (sl_lease_active_mask s) (Z.of_nat bit) = true ->
           lease_token i s bit = lease_token i (f s) bit)) as Hbits.
  { intros bit. destruct Hsame as [[H1 H2]|(H1 & H2 & H3)].
    - unfold leased in *. assert (sl_lease_active_mask s = 0) as -> by lia.
      assert (sl_lease_active_mask (f s) = 0) as -> by lia. by rewrite Z.bits_0.
    - rewrite H1. split; [done|]. intros _. unfold lease_token. by rewrite H2, H3. }
  unfold live_lease. rewrite Hslots. split.
  - intros (j & u & bit & (u' & Hj & ->)%write_slot_lookup & Hb & Ht & ->).
    exists j, u', bit. case_decide as Hij; [|done]. subst j. simplify_eq.
    destruct (Hbits bit) as [He Hl]. rewrite <- He in Ht. split_and!; [done..|]. by rewrite Hl.
  - intros (j & u & bit & Hj & Hb & Ht & ->).
    exists j, (if decide (i = j) then f u else u), bit.
    split; [apply write_slot_lookup; eauto|]. case_decide as Hij; [|done]. subst j. simplify_eq.
    destruct (Hbits bit) as [He Hl]. rewrite <- He. split_and!; [done..|]. by rewrite <- Hl.
Qed.

Lemma lease_inv_write r r' i s f ls :
  lease_inv r ls -> im_slots r !! i = Some s -> im_slots r' = im_slots (write_slot i f r) ->
  same_leases s (f s) -> lease_inv r' ls.
Proof.
  intros [Hnd Hls] Hi Hslots Hsame. split; [done|]. intros l.
  by rewrite Hls, (live_lease_write r r' i s f l).
Qed.

Lemma lease_inv_slots r r' ls : lease_inv r ls -> im_slots r' = im_slots r -> lease_inv r' ls.
Proof. intros [Hnd Hls] Hslots. split; [done|]. intros l. unfold live_lease. by rewrite Hslots. Qed.

Lemma same_leases_fields s t :
  sl_lease_active_mask s = sl_lease_active_mask t -> sl_generation s = sl_generation t ->
  sl_lease_generations s = sl_lease_generations t -> same_leases s t.
Proof. by right. Qed.

Lemma ref_index_typed r ref i s :
  ref_typed ref -> slot_for_ref_locked r ref = inr (i, s) ->
  ref = mk_ref (Z.of_nat i + 1) (sl_generation s).
Proof.
  intros [Hs Hg] Href. pose proof (slot_for_ref_inr _ _ _ _ Href) as (_ & _ & _ & Hgen & Hix & Hne & _).
  destruct ref as [sl g]; simpl in *. unfold is_u32 in *. f_equal; [|done]. subst i. lia.
Qed.

Lemma lease_token_inj i j s t b c :
  lease_token i s b = lease_token j t c -> i = j /\ b = c.
Proof. unfold lease_token. intros Heq. injection Heq. lia. Qed.

Lemma acquire_core r r' ths ref lease m :
  core_inv r ths -> acquire_locked ref r = (CMETA_PLUGIN_OK, lease, m, r') -> core_inv r' ths.
Proof.
  intros Hc Hacq. pose proof (acquire_locked_wf ref r (ci_wf _ _ Hc)) as Hwf.
  rewrite Hacq in Hwf. simpl in Hwf.
  destruct (acquire_locked_inv ref r) as [(? & H1 & ?)|(i & s & bit & Ha & Hst & Hb & Hfree & H1)];
    rewrite H1 in Hacq; simplify_eq. clear H1.
  pose proof (ad_slot _ _ _ _ Ha) as Hi.
  destruct (slot_started_idle s (iw_slot _ (ci_wf _ _ Hc) _ _ Hi) Hst) as (Hcb & Hu & _).
  eapply core_write; [done|exact Hi|done| |done].
  intros p (Ho & Hcp & Hp). split; [done|]. split; [done|].
  destruct p; simpl in *; try done; rewrite Hst in Hp; naive_solver.
Qed.

(** A granted token is new, and the only one that becomes live. *)
Lemma acquire_live r r' ref lease m :
  impl_wf r -> ref_typed ref -> acquire_locked ref r = (CMETA_PLUGIN_OK, lease, m, r') ->
  ~ live_lease r lease /\ forall l, live_lease r' l <-> l = lease \/ live_lease r l.
Proof.
  intros Hwf Hty Hacq.
  destruct (acquire_locked_inv ref r) as [(? & H1 & ?)|(i & s & bit & Ha & Hst & Hb & Hfree & H1)];
    rewrite H1 in Hacq; simplify_eq. clear H1.
  pose proof (ad_slot _ _ _ _ Ha) as Hi.
  pose proof (ref_index_typed r ref i s Hty (ad_ref _ _ _ _ Ha)) as Hrefeq.
  unfold CMETA_PLUGIN_MAX_LEASES_PER_PLUGIN in Hb.
  assert (u32 (Z.of_nat bit + 1) = Z.of_nat bit + 1) as Hu32 by (apply Z.mod_small; lia).
  assert (mk_lease ref (u32 (Z.of_nat bit + 1)) (default 0 (sl_lease_generations s !! bit)) =
          lease_token i s bit) as -> by (unfold lease_token; by rewrite Hu32, Hrefeq).
  split. { intros (j & t & c & Hj & _ & Ht & [<- <-]%lease_token_inj). congruence. }
  intros l. split.
  - intros (j & t & c & (t' & Hj & ->)%write_slot_lookup & Hc & Ht & ->).
    case_decide as Hij; [|right; by exists j, t', c]. subst j. simplify_eq. simpl in Ht.
    rewrite mask_set_testbit in Ht by lia.
    destruct (decide (c = bit)) as [->|Hne]; [by left|].
    rewrite bool_decide_false, orb_false_r in Ht by lia. right. by exists i, s, c.
  - intros [->|(j & t & c & Hj & Hc & Ht & ->)].
    + exists i, (acquired bit s), bit. split; [by apply write_slot_at|]. split; [done|].
      split; [|done]. simpl. rewrite mask_set_testbit by lia.
      by rewrite bool_decide_true, orb_true_r.
    + exists j, (if decide (i = j) then acquired bit t else t), c.
      split; [apply write_slot_lookup; eauto|]. split; [done|]. case_decide; [|done].
      split; [|done]. simpl. rewrite mask_set_testbit by lia. by rewrite Ht.
Qed.

Lemma acquire_leases r r' ref lease m ls :
  impl_wf r -> ref_typed ref -> lease_inv r ls ->
  acquire_locked ref r = (CMETA_PLUGIN_OK, lease, m, r') -> lease_inv r' (lease :: ls).
Proof.
  intros Hwf Hty [Hnd Hls] Hacq. destruct (acquire_live r r' ref lease m Hwf Hty Hacq) as [Hfresh Hlive].
  split; [apply NoDup_cons; split; [by rewrite Hls|done]|].
  intros l. by rewrite elem_of_cons, Hls, Hlive.
Qed.

Lemma release_core r r' ths lease l' :
  core_inv r ths -> release_locked lease r = (CMETA_PLUGIN_OK, l', r') -> core_inv r' ths.
Proof.
  intros Hc Hrel. pose proof (release_locked_wf lease r (ci_wf _ _ Hc)) as Hwf.
  rewrite Hrel in Hwf. simpl in Hwf.
  destruct (release_locked_inv lease r) as [(? & H1 & ?)|(i & s & bit & Href & _ & Hb & Ht & _ & H1)];
    rewrite H1 in Hrel; simplify_eq. clear H1.
  apply slot_for_ref_inr in Href as (Hi & _).
  assert (leased s) as Hl by (intros H0; by rewrite H0, Z.bits_0 in Ht).
  eapply core_write; [done|exact Hi|done| |done].
  intros p (Ho & Hcp & Hp). split; [done|]. split; [done|].
  destruct p; simpl in *; try done. by destruct Hp as (_ & _ & []).
Qed.

(** A released token was live, and is the only one that is not any more. *)
Lemma release_live r r' lease l' :
  lease_typed lease -> cmeta_plugin_lease_valid lease = true ->
  release_locked lease r = (CMETA_PLUGIN_OK, l', r') ->
  live_lease r lease /\ forall l, live_lease r' l <-> l <> lease /\ live_lease r l.
Proof.
  intros (Hty & Hls1 & _) Hval Hrel.
  destruct (release_locked_inv lease r) as [(? & H1 & ?)|(i & s & bit & Href & Hbit & Hb & Ht & Hg & H1)];
    rewrite H1 in Hrel; simplify_eq. clear H1.
  pose proof (ref_index_typed r _ i s Hty Href) as Hrefeq.
  apply slot_for_ref_inr in Href as (Hi & _).
  assert (lease = lease_token i s (Z.to_nat (le_slot lease - 1))) as Hlease.
  { destruct lease as [ref sl g]; simpl in *. unfold lease_token. rewrite Hg, Hrefeq. f_equal.
    unfold cmeta_plugin_lease_valid in Hval; simpl in Hval. destruct_bools.
    unfold is_u32 in Hls1. lia. }
  remember (Z.to_nat (le_slot lease - 1)) as bit.
  split; [by exists i, s, bit|]. unfold CMETA_PLUGIN_MAX_LEASES_PER_PLUGIN in *.
  intros l. split.
  - intros (j & t & c & (t' & Hj & ->)%write_slot_lookup & Hc & Htc & ->).
    case_decide as Hij.
    + subst j. simplify_eq. simpl in Htc. change (c < 64)%nat in Hc.
      rewrite mask_clear_testbit in Htc by lia.
      apply andb_true_iff in Htc as [Htc Hcb]. apply negb_true_iff, bool_decide_eq_false in Hcb.
      assert (c <> bit) as Hne by (intros ->; by apply Hcb). split.
      * intros [_ ?]%lease_token_inj. done.
      * exists i, s, c. split_and!; [done..|]. unfold lease_token; simpl.
        by rewrite list_lookup_alter_ne.
    + split; [|by exists j, t', c]. rewrite Hlease. intros [? _]%lease_token_inj. done.
  - intros [Hne (j & t & c & Hj & Hc & Htc & ->)].
    exists j, (if decide (i = j) then release_slot bit t else t), c.
    split; [apply write_slot_lookup; eauto|]. split; [done|]. case_decide as Hij; [|done].
    subst j. simplify_eq. assert (c <> bit) as Hcb by (intros ->; by apply Hne). simpl.
    change (c < 64)%nat in Hc.
    rewrite mask_clear_testbit, bool_decide_false, andb_true_r by lia. split; [done|].
    unfold lease_token; simpl. by rewrite list_lookup_alter_ne.
Qed.

Lemma release_leases r r' lease l' ls :
  lease_typed lease -> cmeta_plugin_lease_valid lease = true -> lease_inv r ls ->
  release_locked lease r = (CMETA_PLUGIN_OK, l', r') ->
  lease ∈ ls /\ lease_inv r' (drop_lease lease ls).
Proof.
  intros Hty Hval [Hnd Hls] Hrel. destruct (release_live r r' lease l' Hty Hval Hrel) as [Hlive Hiff].
  split; [by apply Hls|]. split; [by apply NoDup_filter|].
  intros l. unfold drop_lease. by rewrite list_elem_of_filter, Hls, Hiff.
Qed.

(** What a live token is good for: its plugin resolves and is started or
    stopping, the token is well formed, and [release] takes it. *)
Lemma live_lease_rule r l :
  impl_wf r -> live_lease r l ->
  lease_typed l /\ cmeta_plugin_lease_valid l = true /\
  fst (fst (release_locked l r)) = CMETA_PLUGIN_OK /\
  exists i x, slot_for_ref_locked r (le_plugin l) = inr (i, x) /\ leased x /\
    (sl_state x = CMETA_PLUGIN_LIFECYCLE_STARTED \/ sl_state x = CMETA_PLUGIN_LIFECYCLE_STOPPING) /\
    sl_unloading x = false.
Proof.
  intros Hwf (i & x & bit & Hi & Hb & Ht & ->). pose proof (iw_slot _ Hwf _ _ Hi) as Hx.
  assert (leased x) as Hlx by (intros H0; by rewrite H0, Z.bits_0 in Ht).
  destruct (sw_leased _ Hx Hlx) as [Hst Hu].
  assert (sl_occupied x = true) as Ho.
  { destruct (sl_occupied x) eqn:Ho; [done|].
    destruct (sw_free _ Hx Ho) as (_ & _ & Hnl & _). by destruct Hnl. }
  pose proof (own_ref_resolves r i x Hwf Hi Ho) as Href.
  pose proof (index_u32 r i x Hwf Hi) as Hix. rewrite Hix in Href.
  pose proof (sw_generation _ Hx) as Hgen. unfold valid_generation in Hgen.
  assert (valid_generation (default 0 (sl_lease_generations x !! bit))) as Hlg.
  { destruct (sl_lease_generations x !! bit) as [g|] eqn:Hg; simpl.
    - exact (proj1 (Forall_lookup _ _) (sw_lease_generations _ Hx) bit g Hg).
    - apply lookup_ge_None in Hg. rewrite (sw_lease_slots _ Hx) in Hg. lia. }
  unfold CMETA_PLUGIN_MAX_LEASES_PER_PLUGIN, valid_generation, UINT32_MAX in *.
  assert (0 <= Z.of_nat i + 1 < 2 ^ 32) as Hbound
    by (rewrite <- Hix; unfold u32; apply Z.mod_pos_bound; lia).
  unfold lease_token. split_and!.
  - unfold lease_typed, ref_typed, is_u32, UINT32_MAX. simpl. split_and!; lia.
  - unfold cmeta_plugin_lease_valid, cmeta_plugin_ref_valid; simpl.
    by repeat match goal with |- context [?a =? 0] => destruct (Z.eqb_spec a 0); [lia|] end.
  - unfold release_locked; cbn [le_plugin le_slot le_generation]. rewrite Href.
    replace (Z.to_nat (Z.of_nat bit + 1 - 1)) with bit by lia.
    unfold CMETA_PLUGIN_MAX_LEASES_PER_PLUGIN.
    destruct (Nat.leb_spec 64 bit); [lia|]. by rewrite lease_is_free_testbit, Ht, Z.eqb_refl.
  - by exists i, x.
Qed.

(** A plugin with a live lease is not unloaded. *)
Lemma live_lease_busy r l :
  impl_wf r -> live_lease r l -> unload_begin (le_plugin l) r = UnloadReturns CMETA_PLUGIN_BUSY r.
Proof.
  intros Hwf Hl. destruct (live_lease_rule r l Hwf Hl) as (_ & _ & _ & i & x & Href & _ & Hst & Hu).
  unfold unload_begin. rewrite Href, Hu, orb_false_r.
  destruct (im_destroying r); [done|]. by destruct Hst as [-> | ->].
Qed.

Lemma unloading_not_leased s : slot_wf s -> sl_unloading s = true -> ~ leased s.
Proof. intros Hs Hu [_ Hl]%(sw_leased _ Hs). congruence. Qed.

Lemma closed_same_leases s status handle :
  slot_wf s -> sl_unloading s = true -> same_leases s (closed_slot status handle s).
Proof.
  intros Hs Hu. pose proof (unloading_not_leased s Hs Hu) as Hl.
  left. split; [done|]. unfold closed_slot. case_bool_decide; simpl; [|done]. by intros [].
Qed.

Lemma close_leases r r' ths t p i g status handle ls :
  core_inv r ths -> ths !! t = Some p -> p = InUnloadClose i g \/ p = InDestroyClose i g ->
  im_slots r' = im_slots (write_slot i (closed_slot status handle) r) ->
  lease_inv r ls -> lease_inv r' ls.
Proof.
  intros Hc Ht Hp Hslots Hl.
  assert (exists s, im_slots r !! i = Some s /\ sl_unloading s = true) as (s & Hi & Hu).
  { destruct Hp as [->| ->]; destruct (ci_owns _ _ Hc t _ i Ht eq_refl)
      as (s & Hi & Ho & Hcb & Hg & Hu); by exists s. }
  eapply lease_inv_write; [done|exact Hi|exact Hslots|].
  apply closed_same_leases; [by eapply (iw_slot _ (ci_wf _ _ Hc))|done].
Qed.

Lemma local_step_leases r r' ths t p p' ls :
  core_inv r ths -> ths !! t = Some p -> local_step p r p' r' -> lease_inv r ls -> lease_inv r' ls.
Proof.
  intros Hc Ht Hstep Hl. pose proof (ci_wf _ _ Hc) as Hwf.
  assert (forall i f, (forall s, im_slots r !! i = Some s -> same_leases s (f s)) ->
            lease_inv (write_slot i f r) ls) as Hwrite.
  { intros i f Hsame. destruct (im_slots r !! i) as [s|] eqn:Hi.
    - eapply lease_inv_write; [done|exact Hi|done|auto].
    - eapply lease_inv_slots; [done|]. unfold write_slot; simpl. apply list_eq. intros j.
      rewrite list_lookup_alter. case_decide; [subst; by rewrite Hi|done]. }
  assert (forall i f, (forall s, sl_lease_active_mask s = sl_lease_active_mask (f s) /\
              sl_generation s = sl_generation (f s) /\
              sl_lease_generations s = sl_lease_generations (f s)) ->
            lease_inv (write_slot i f r) ls) as Hfields
    by (intros i f Hf; apply Hwrite; intros s _; by right).
  destruct Hstep as
    [r r' H|r|r|r lib m ref r' Hm H|r|r ref r' H|r ref i cb self r' H|r i g st|r ref r' H
    |r ref i cb self r' H|r i g st|r ref q r' H|r ref i cb self q r' H|r i g q|r ref i d r' H
    |r i g called|r i g st h|r r' H|r i Hlt H|r i d r' Hlt H|r i g called|r i g h|r i g st h Hne].
  - apply load_reserve_inv in H as [_ ->]. by eapply lease_inv_slots.
  - by eapply lease_inv_slots.
  - done.
  - apply load_publish_ok in H as (i & s & Hi & _ & Ho & _ & _ & _ & ->).
    eapply lease_inv_write; [done|exact Hi|done|]. left.
    pose proof (sw_free _ (iw_slot _ Hwf _ _ Hi) Ho). split; [tauto|by intros []].
  - by eapply lease_inv_slots.
  - destruct (start_begin_inv ref r) as [(? & E & ?)|(i & s & _ & _ & _ & _ & E)]; rewrite E in H;
      [by simplify_eq|]. destruct (manifest_of s pm_start); simplify_eq. by apply Hfields.
  - destruct (start_begin_inv ref r) as [(? & E & ?)|(j & s & _ & _ & _ & _ & E)]; rewrite E in H;
      [by simplify_eq|]. destruct (manifest_of s pm_start); simplify_eq. by apply Hfields.
  - apply Hfields. intros s. unfold record_failure. by repeat case_bool_decide.
  - destruct (request_stop_begin_inv ref r) as [(? & E & ?)|(i & s & _ & _ & E)]; rewrite E in H;
      [by simplify_eq|]. destruct (manifest_of s pm_request_stop); simplify_eq. by apply Hfields.
  - destruct (request_stop_begin_inv ref r) as [(? & E & ?)|(j & s & _ & _ & E)]; rewrite E in H;
      [by simplify_eq|]. destruct (manifest_of s pm_request_stop); simplify_eq. by apply Hfields.
  - apply Hfields. intros s. unfold record_failure. by repeat case_bool_decide.
  - destruct (poll_begin_inv ref r) as [(? & ? & E)|(i & s & _ & _ & _ & _ & E)]; rewrite E in H;
      [by simplify_eq|]. destruct (manifest_of s pm_is_quiescent); simplify_eq. by apply Hfields.
  - destruct (poll_begin_inv ref r) as [(? & ? & E)|(j & s & _ & _ & _ & _ & E)]; rewrite E in H;
      [by simplify_eq|]. destruct (manifest_of s pm_is_quiescent); simplify_eq. by apply Hfields.
  - apply Hfields. intros s. by destruct q.
  - destruct (unload_begin_inv ref r) as [(? & E & ?)|(j & s & _ & _ & _ & _ & E)]; rewrite E in H;
      simplify_eq. apply Hfields. intros u. unfold mark_unloading. by destruct (is_null _).
  - rewrite after_destroy_write. apply Hfields. by destruct called.
  - eapply close_leases; [done|done|by left| |done]. by rewrite unload_end_slots, write_slot_twice.
  - apply destroy_begin_ok in H as [-> _]. by eapply lease_inv_slots.
  - done.
  - unfold destroy_slot_begin in H. destruct (im_slots r !! i) as [s|]; [|done].
    destruct (sl_occupied s); simplify_eq. apply Hfields. intros u. unfold mark_unloading.
    by destruct (is_null _).
  - rewrite after_destroy_write. apply Hfields. by destruct called.
  - eapply (close_leases r _ ths t _ i g CMETA_PLUGIN_OK h); [done|done|by right| |done].
    by rewrite destroy_slot_end_slots, write_slot_twice.
  - eapply (close_leases r _ ths t _ i g st h); [done|done|by right| |done].
    by rewrite destroy_slot_end_slots, write_slot_twice.
Qed.

(** Sections that leave [destroying] unset. *)
Lemma begin_open ref r o :
  start_begin ref r = o \/ request_stop_begin ref r = o ->
  match o with
  | Returns CMETA_PLUGIN_OK r' | Calls _ _ _ r' =>
      im_destroying r = false /\ im_destroying r' = false
  | _ => True
  end.
Proof.
  intros [<-|<-].
  - destruct (start_begin_inv ref r) as [(st & -> & ?)|(i & s & Ha & _ & _ & _ & ->)];
      [by destruct st|]. pose proof (ad_open _ _ _ _ Ha). by destruct (manifest_of s _).
  - destruct (request_stop_begin_inv ref r) as [(st & -> & ?)|(i & s & Ha & _ & ->)];
      [by destruct st|]. pose proof (ad_open _ _ _ _ Ha). by destruct (manifest_of s _).
Qed.

Lemma core_destroy_step r r' ths t p p' :
  core_inv r ths -> destroy_inv r ths -> ths !! t = Some p -> local_step p r p' r' ->
  core_inv r' (<[t:=p']> ths) /\ destroy_inv r' (<[t:=p']> ths).
Proof.
  intros Hc Hd Ht Hstep. pose proof (ci_wf _ _ Hc) as Hwf.
  assert (p <> Idle -> destroy_index p = None -> im_destroying r = false) as Hbusy
    by by eapply busy_thread_open.
  destruct Hstep as
    [r r' H|r|r|r lib m ref r' Hm H|r|r ref r' H|r ref i cb self r' H|r i g st|r ref r' H
    |r ref i cb self r' H|r i g st|r ref q r' H|r ref i cb self q r' H|r i g q|r ref i d r' H
    |r i g called|r i g st h|r r' H|r i Hlt H|r i d r' Hlt H|r i g called|r i g h|r i g st h Hne];
    try (specialize (Hbusy ltac:(done) eq_refl)).
  - pose proof (load_reserve_wf r Hwf) as Hwf'. rewrite H in Hwf'.
    apply load_reserve_inv in H as [Hop ->]. pose proof (loads_bound r Hwf) as Hb.
    unfold UINT32_MAX in Hb. split; [|by eapply destroy_inv_open].
    eapply core_counter; [done..|]. simpl. rewrite size_inc_small by (unfold SIZE_MAX; lia). lia.
  - split; [by eapply release_reservation_core|by eapply destroy_inv_open].
  - split; [|by eapply destroy_inv_open]. eapply core_counter; [done..|simpl; lia].
  - split; [by eapply publish_core|]. eapply destroy_inv_open; [done|done| |done].
    apply load_publish_ok in H as (i & s & _ & _ & _ & ? & _ & _ & ->). done.
  - split; [by eapply release_reservation_core|by eapply destroy_inv_open].
  - destruct (begin_open ref r _ (or_introl H)) as [Hop Hop'].
    split; [exact (start_begin_core r ths t ref _ Hc Ht H)|by eapply destroy_inv_open].
  - destruct (begin_open ref r _ (or_introl H)) as [Hop Hop'].
    split; [exact (start_begin_core r ths t ref _ Hc Ht H)|by eapply destroy_inv_open].
  - split; [by eapply start_end_core|by eapply destroy_inv_open].
  - destruct (begin_open ref r _ (or_intror H)) as [Hop Hop'].
    split; [exact (request_stop_begin_core r ths t ref _ Hc Ht H)|by eapply destroy_inv_open].
  - destruct (begin_open ref r _ (or_intror H)) as [Hop Hop'].
    split; [exact (request_stop_begin_core r ths t ref _ Hc Ht H)|by eapply destroy_inv_open].
  - split; [by eapply request_stop_end_core|by eapply destroy_inv_open].
  - split; [exact (poll_begin_core r ths t ref _ _ Hc Ht H)|].
    destruct (poll_begin_inv ref r) as [(? & ? & E)|(i & s & Ha & _ & _ & _ & E)]; rewrite E in H.
    + simplify_eq. by rewrite list_insert_id.
    + pose proof (ad_open _ _ _ _ Ha). destruct (manifest_of s _); simplify_eq.
      by eapply destroy_inv_open.
  - split; [exact (poll_begin_core r ths t ref _ _ Hc Ht H)|].
    destruct (poll_begin_inv ref r) as [(? & ? & E)|(j & s & Ha & _ & _ & _ & E)]; rewrite E in H;
      [by simplify_eq|]. pose proof (ad_open _ _ _ _ Ha).
    destruct (manifest_of s _); simplify_eq. by eapply destroy_inv_open.
  - split; [by eapply poll_end_core|by eapply destroy_inv_open].
  - split; [by eapply unload_begin_core|].
    destruct (unload_begin_inv ref r) as [(? & E & ?)|(j & s & Ha & _ & _ & _ & E)]; rewrite E in H;
      simplify_eq. pose proof (ad_open _ _ _ _ Ha). by eapply destroy_inv_open.
  - split; [eapply destroyed_core; eauto|]. rewrite after_destroy_write. by eapply destroy_inv_open.
  - split; [by eapply unload_end_core|]. eapply destroy_inv_open; [done|done| |done].
    by destruct (unload_end_counters i st (write_slot i (set_library h) r)) as [_ ->].
  - by eapply destroy_begin_inv_all.
  - by eapply destroy_skip_inv.
  - by eapply destroy_slot_inv.
  - split; [eapply destroyed_core; eauto|by eapply destroy_called_inv].
  - split; [by eapply destroy_slot_end_core|by eapply destroy_closed_inv].
  - split; [by eapply destroy_slot_end_core|by eapply destroy_failed_inv].
Qed.

(** * Reachable states *)

Lemma initial_system_inv capacity threads :
  (0 < capacity)%nat -> Z.of_nat capacity <= UINT32_MAX ->
  system_inv (initial_system capacity threads).
Proof.
  intros Hpos Hmax. simpl.
  assert (forall t p, replicate threads Idle !! t = Some p -> p = Idle) as Hidle
    by (intros t p [-> _]%lookup_replicate; done).
  assert (forall i s, im_slots (initial_impl capacity) !! i = Some s -> s = initial_slot) as Hslot
    by (simpl; intros i s [-> _]%lookup_replicate; done).
  split_and!.
  - split.
    + by apply initial_impl_wf.
    + simpl. symmetry. by apply count_if_replicate.
    + intros t p i Ht Hp. by rewrite (Hidle t p Ht) in Hp.
    + intros t u p q i Ht _ Hp. by rewrite (Hidle t p Ht) in Hp.
    + intros i s Hi. rewrite (Hslot i s Hi). by intros [].
  - split; [|done]. intros t p k Ht Hp. by rewrite (Hidle t p Ht) in Hp.
  - split; [constructor|]. intros l. split; [by intros ?%elem_of_nil|].
    intros (i & s & bit & Hi & _ & Hb & _). rewrite (Hslot i s Hi) in Hb.
    by rewrite Z.bits_0 in Hb.
Qed.

Lemma free_system_inv r ths ls t :
  core_inv r ths -> destroy_inv r ths -> lease_inv r ls ->
  ths !! t = Some (InDestroy (im_capacity r)) ->
  (forall u q, u <> t -> ths !! u = Some q -> q = Idle) /\ ls = [].
Proof.
  intros Hc Hd [_ Hls] Ht. destruct (di_alone _ _ Hd t _ _ Ht eq_refl) as (_ & Hothers & Hslots).
  split; [done|]. destruct ls as [|l ls]; [done|]. exfalso.
  destruct (proj1 (Hls l)) as (i & s & bit & Hi & _ & Hb & _); [by left|].
  assert (sl_occupied s = true) as Ho.
  { destruct (sl_occupied s) eqn:Ho; [done|].
    destruct (sw_free _ (iw_slot _ (ci_wf _ _ Hc) _ _ Hi) Ho) as (_ & _ & Hl & _).
    destruct Hl. intros H0. by rewrite H0, Z.bits_0 in Hb. }
  destruct (Hslots i s Hi Ho) as (_ & Hle & _). apply lookup_lt_Some in Hi.
  rewrite (iw_slots_length _ (ci_wf _ _ Hc)) in Hi. lia.
Qed.

Lemma step_system_inv s s' : system_inv s -> step s s' -> system_inv s'.
Proof.
  intros Hinv Hstep. destruct Hstep as [t p p' r r' ths ls Ht Hl|r ref lease m r' ths ls Hty Ha
    |r lease l' r' ths ls Hty Hv Hr|t r ths ls Ht]; simpl in *; destruct Hinv as (Hc & Hd & Hls).
  - destruct (core_destroy_step r r' ths t p p' Hc Hd Ht Hl). split_and!; [done..|].
    exact (local_step_leases r r' ths t p p' ls Hc Ht Hl Hls).
  - split_and!; [by eapply acquire_core| |by eapply acquire_leases; [apply (ci_wf _ _ Hc)|..]].
    destruct (acquire_locked_inv ref r) as [(? & E & ?)|(i & s & bit & _ & _ & _ & _ & E)];
      rewrite E in Ha; simplify_eq. split; [|apply Hd]. intros t p k Ht Hp.
    destruct (di_alone _ _ Hd t p k Ht Hp) as (Hop & Ho & Hs). split_and!; [done..|].
    intros j u (v & Hj & ->)%write_slot_lookup. case_decide; exact (Hs j v Hj).
  - split_and!; [by eapply release_core| |by eapply (release_leases r r')].
    destruct (release_locked_inv lease r) as [(? & E & ?)|(i & s & bit & _ & _ & _ & _ & _ & E)];
      rewrite E in Hr; simplify_eq. split; [|apply Hd]. intros t p k Ht Hp.
    destruct (di_alone _ _ Hd t p k Ht Hp) as (Hop & Ho & Hs). split_and!; [done..|].
    intros j u (v & Hj & ->)%write_slot_lookup. case_decide; exact (Hs j v Hj).
  - destruct (free_system_inv r ths ls t Hc Hd Hls Ht) as [Hothers ->]. split; [|done].
    apply Forall_lookup. intros u q [[-> ->]|[Hne Hu]]%thread_update_inv; [done|by eapply Hothers].
Qed.

Lemma reachable_inv capacity threads s :
  (0 < capacity)%nat -> Z.of_nat capacity <= UINT32_MAX ->
  reachable capacity threads s -> system_inv s.
Proof.
  intros Hpos Hmax. induction 1; [by apply initial_system_inv|by eapply step_system_inv].
Qed.

Section Reachable.
  Context (capacity threads : nat) (s : system).
  Context (Hpos : (0 < capacity)%nat) (Hmax : Z.of_nat capacity <= UINT32_MAX).
  Context (Hreach : reachable capacity threads s).

(** under any interleaving, a thread in an unlocked region on behalf of a
    plugin finds, when it takes the lock again, the slot still occupied by the
    same generation, and no other thread is working on that slot; while it is
    in the plugin's code [callbacks_inflight] is 1. *)
Theorem callback_pins_slot r t p i :
  sy_impl s = Some r -> sy_threads s !! t = Some p -> at_slot p = Some i ->
  (exists x, im_slots r !! i = Some x /\ pc_owns p x) /\
  forall u q, u <> t -> sy_threads s !! u = Some q -> at_slot q <> Some i.
Proof.
  intros Hr Ht Hp. pose proof (reachable_inv capacity threads s Hpos Hmax Hreach) as Hinv.
  unfold system_inv in Hinv. rewrite Hr in Hinv. destruct Hinv as (Hc & _ & _).
  split; [by eapply (ci_owns _ _ Hc)|]. by eapply owner_alone.
Qed.

(** C1: under any interleaving, an outstanding lease pins its plugin: its
    reference resolves, the plugin is STARTED or STOPPING, nobody is unloading
    it, an [unload] is refused with [CMETA_PLUGIN_BUSY], and the lease can be
    released.  No two outstanding leases are equal. *)
Theorem lease_pins_plugin r l :
  sy_impl s = Some r -> l ∈ sy_leases s ->
  NoDup (sy_leases s) /\
  exists i x, slot_for_ref_locked r (le_plugin l) = inr (i, x) /\
    (sl_state x = CMETA_PLUGIN_LIFECYCLE_STARTED \/ sl_state x = CMETA_PLUGIN_LIFECYCLE_STOPPING) /\
    sl_unloading x = false /\
    unload_begin (le_plugin l) r = UnloadReturns CMETA_PLUGIN_BUSY r /\
    cmeta_plugin_lease_valid l = true /\
    fst (fst (release_locked l r)) = CMETA_PLUGIN_OK.
Proof.
  intros Hr Hl. pose proof (reachable_inv capacity threads s Hpos Hmax Hreach) as Hinv.
  unfold system_inv in Hinv. rewrite Hr in Hinv. destruct Hinv as (Hc & _ & Hnd & Hls).
  split; [done|]. apply Hls in Hl. pose proof (live_lease_busy r l (ci_wf _ _ Hc) Hl) as Hbusy.
  destruct (live_lease_rule r l (ci_wf _ _ Hc) Hl) as (_ & Hv & Hrel & i & x & Href & _ & Hst & Hu).
  by exists i, x.
Qed.

(** a release that succeeds consumes an outstanding lease: a token that
    was never granted, was released before or belongs to another plugin
    generation is refused, and afterwards the token is not outstanding. *)
Theorem release_consumes_lease s' r lease l' r' :
  sy_impl s = Some r -> lease_typed lease -> cmeta_plugin_lease_valid lease = true ->
  release_locked lease r = (CMETA_PLUGIN_OK, l', r') ->
  s' = mk_system (Some r') (sy_threads s) (drop_lease lease (sy_leases s)) ->
  lease ∈ sy_leases s /\ l' = zero_lease /\ ~ live_lease r' lease /\ reachable capacity threads s'.
Proof.
  intros Hr Hty Hv Hrel ->. pose proof (reachable_inv capacity threads s Hpos Hmax Hreach) as Hinv.
  unfold system_inv in Hinv. rewrite Hr in Hinv. destruct Hinv as (Hc & _ & Hls).
  destruct (release_leases r r' lease l' (sy_leases s) Hty Hv Hls Hrel) as [Hin [_ Hls']].
  split_and!; [done| | |].
  - destruct (release_locked_inv lease r) as [(? & E & ?)|(i & x & bit & _ & _ & _ & _ & _ & E)];
      rewrite E in Hrel; by simplify_eq.
  - rewrite <- Hls'. unfold drop_lease. rewrite list_elem_of_filter. tauto.
  - eapply reach_step; [exact Hreach|]. destruct s as [im ths ls]; simpl in *. subst im.
    by eapply step_release.
Qed.

(** the reservation taken by the first section of [load] is honoured by
    the second: under any interleaving publication is never refused for lack of
    room and never meets a registry being destroyed; it publishes or reports a
    duplicate plugin id.  [loads_inflight] counts the loads in flight. *)
Theorem load_reservation_honoured r t library m :
  sy_impl s = Some r -> sy_threads s !! t = Some Loading ->
  im_loads_inflight r = count_if loading (sy_threads s) /\
  let '(status, _, _) := load_publish library m r in
  status = CMETA_PLUGIN_OK \/ status = CMETA_PLUGIN_DUPLICATE_PLUGIN_ID.
Proof.
  intros Hr Ht. pose proof (reachable_inv capacity threads s Hpos Hmax Hreach) as Hinv.
  unfold system_inv in Hinv. rewrite Hr in Hinv. destruct Hinv as (Hc & Hd & _).
  split; [apply (ci_loads _ _ Hc)|]. unfold load_publish.
  rewrite (busy_thread_open r _ t Loading Hd Ht) by done.
  destruct (find_below _ (slot_test r (publishes_id _))); [by right|].
  destruct (find_below _ (slot_test r _)) as [j|] eqn:Hf; [by left|]. exfalso.
  pose proof (ci_wf _ _ Hc) as Hwf. pose proof (iw_loads _ Hwf) as [_ Hroom].
  pose proof (loading_positive r _ t Loading Hc Ht eq_refl).
  assert (im_count r = Z.of_nat (im_capacity r)); [|lia].
  rewrite (iw_count _ Hwf), count_if_all, (iw_slots_length _ Hwf); [done|].
  intros x (k & Hk)%list_elem_of_lookup.
  assert (slot_test r (fun s => negb (sl_occupied s)) k = false) as Hfree.
  { apply (proj1 (find_below_None _ _) Hf). rewrite <- (iw_slots_length _ Hwf).
    by eapply lookup_lt_Some. }
  unfold slot_test in Hfree. rewrite Hk in Hfree. by apply negb_false_iff.
Qed.

(** a slot is never left busy: whenever [callbacks_inflight] is nonzero or
    [unloading] is set, exactly one thread is in flight on the slot, and
    [callbacks_inflight] is 1 exactly when that thread is in the plugin's
    code. *)
Theorem busy_slot_has_owner r i x :
  sy_impl s = Some r -> im_slots r !! i = Some x ->
  sl_callbacks_inflight x <> 0 \/ sl_unloading x = true ->
  exists t p, sy_threads s !! t = Some p /\ at_slot p = Some i /\
    sl_callbacks_inflight x = Z.b2z (in_callback p) /\
    forall u q, sy_threads s !! u = Some q -> at_slot q = Some i -> u = t.
Proof.
  intros Hr Hi Hb. pose proof (reachable_inv capacity threads s Hpos Hmax Hreach) as Hinv.
  unfold system_inv in Hinv. rewrite Hr in Hinv. destruct Hinv as (Hc & _ & _).
  destruct (ci_busy _ _ Hc i x Hi Hb) as (t & p & Ht & Hp).
  destruct (ci_owns _ _ Hc t p i Ht Hp) as (x' & Hi' & _ & Hcb & _). simplify_eq.
  exists t, p. split_and!; [done..|]. intros u q Hu Hq. by eapply (ci_exclusive _ _ Hc u t).
Qed.

(** when [destroy] frees the registry no other operation is in flight and
    no lease is outstanding, so nothing is left that would touch the freed
    storage. *)
Theorem destroy_frees_alone s' :
  step s s' -> sy_impl s' = None ->
  sy_leases s = [] /\ Forall (fun p => p = Idle) (sy_threads s') /\
  exists t, forall u p, u <> t -> sy_threads s !! u = Some p -> p = Idle.
Proof.
  intros Hstep Hnone. pose proof (reachable_inv capacity threads s Hpos Hmax Hreach) as Hinv.
  pose proof (step_system_inv s s' Hinv Hstep) as Hinv'. unfold system_inv in Hinv'.
  rewrite Hnone in Hinv'. destruct Hinv' as [Hidle _]. clear Hreach.
  destruct Hstep as [| | |t r ths ls Ht]; simpl in *; try done.
  destruct Hinv as (Hc & Hd & Hls).
  destruct (free_system_inv r ths ls t Hc Hd Hls Ht) as [Hothers Hempty]. eauto.
Qed.
End Reachable.
