(* ===== verification/ServiceHost.v ===== *)
(** What a ServiceHost asks of a plugin (service_host_provider_abi.h and the
    expansion of [CMETA_INTERFACE] in cmeta/include/cmeta/interface.h): the
    interface [salts_service_host_provider] with its one method [get_binding],
    described by static descriptors of the host, and the calls through it.

    The ServiceHost, one generation at a time (component-runtime/include/salts/
    service_host.h, component-runtime/src/service_host.c): the plugin leases a
    generation owns, admission of its dynamic sources, the checks before it is
    published, and build, discard and recover.

    A generation borrows arrays from its caller: [gn_storage] holds the pointers
    and capacities, a [generation_arrays] what the arrays hold.  A generation and
    its arrays are used by one generation only.  As in [Configurator], predicates
    answer [false] and operations [None] where the C code would read past an
    array. *)

From S2P Require Import Prelude.
From S2P Require Import CMetaType.
From S2P Require Import CMetaFunction.
From S2P Require Import CMetaInterface.
From S2P Require Import CMetaData.
From S2P Require Import CMetaOperation.
From S2P Require Import CMetaObject.
From S2P Require Import CMetaComponent.
From S2P Require Import Configurator.
From S2P Require Import PluginManifest.
From S2P Require Import PluginRegistry.

Definition SALTS_SERVICE_HOST_PROVIDER_CONTRACT_ID : cstr := Some "salts.service_host.provider.v2".
Definition SALTS_SERVICE_HOST_PROVIDER_CONTRACT_VERSION : Z := 2.

Record salts_service_host_provider_vtable := mk_provider_vtable {
  vt_implementation : cstr;
  vt_capabilities : Z;
  vt_get_binding : option addr;
}.

Record salts_service_host_provider := mk_provider {
  hp_self : option addr;
  hp_vtable : option salts_service_host_provider_vtable;
}.

(** The plugins as a host sees them: the provider object behind an export
    ([sp_object]), the native [get_binding] of its image, and the addresses the
    host's own static descriptors were given. *)
Class ServiceProviders (W : Type) := {
  sp_static : nat -> addr;
  sp_object : addr -> W -> salts_service_host_provider;
  sp_get_binding : addr -> option addr -> W -> option salts_configurator_provider_binding * W;
}.

Section Provider.
  Context {W : Type} `{ServiceProviders W}.

(** * The static descriptors *)

Definition salts_configurator_provider_binding_identity : cmeta_type_identity :=
  mk_type_identity (sp_static 0) CMETA_TYPE_ATOM (Some "salts.configurator.provider_binding.v2")
    None None None 0.

Definition salts_configurator_provider_binding_const_identity : cmeta_type_identity :=
  mk_type_identity (sp_static 1) CMETA_TYPE_CONST None None
    (Some salts_configurator_provider_binding_identity) None 0.

Definition salts_configurator_provider_binding_pointer_identity : cmeta_type_identity :=
  mk_type_identity (sp_static 2) CMETA_TYPE_POINTER None None
    (Some salts_configurator_provider_binding_const_identity) None 0.

Definition salts_configurator_provider_binding_const_type : cmeta_type_desc :=
  mk_type_desc (sp_static 3) (Some "const salts_configurator_provider_binding")
    sizeof_provider_binding 8 CMETA_T_OBJECT None None
    (Some salts_configurator_provider_binding_const_identity).

Definition salts_configurator_provider_binding_pointer_type : cmeta_type_desc :=
  mk_type_desc (sp_static 4) (Some "const salts_configurator_provider_binding *") 8 8
    CMETA_T_POINTER (Some salts_configurator_provider_binding_const_type) None
    (Some salts_configurator_provider_binding_pointer_identity).

(** [CMETA_CONTRACT_value] is pure, deterministic, total and alias-free. *)
Definition get_binding_function_meta : cmeta_function_desc :=
  mk_function_desc (sp_static 5) sizeof_function_desc
    (Some "salts_service_host_provider.get_binding")
    (Some salts_configurator_provider_binding_pointer_type) None 0 0 11 CMETA_RESULT_BORROWED.

Definition get_binding_function_abi_meta : cmeta_function_abi_desc :=
  mk_function_abi_desc (sp_static 6) sizeof_function_abi_desc (Some get_binding_function_meta)
    CMETA_ABI_OBJECT_POINTER None 0.

Definition salts_service_host_provider_interface : cmeta_interface_desc :=
  mk_interface_desc (sp_static 7) sizeof_interface_desc (Some "salts_service_host_provider")
    (Some [mk_interface_method_desc sizeof_interface_method_desc (Some "get_binding") 0 0
             (Some get_binding_function_meta) (Some get_binding_function_abi_meta)]) 1.

(** * Calls through the interface *)

Definition salts_service_host_provider_valid (self : option salts_service_host_provider) : bool :=
  match self with
  | None => false
  | Some p =>
      negb (is_null (hp_self p)) &&
      match hp_vtable p with Some v => negb (is_null (vt_get_binding v)) | None => false end
  end.

(** [None] is a jump through a NULL pointer. *)
Definition salts_service_host_provider_get_binding (self : option salts_service_host_provider) (w : W)
    : option (option salts_configurator_provider_binding * W) :=
  p ← self;
  v ← hp_vtable p;
  f ← vt_get_binding v;
  Some (sp_get_binding f (hp_self p) w).

(** The host's own descriptor is one that [require_interface] accepts. *)
Lemma provider_interface_valid :
  cmeta_interface_desc_valid (Some salts_service_host_provider_interface) = true.
Proof.
  unfold cmeta_interface_desc_valid, interface_node_valid, interface_method_valid,
    cmeta_interface_method_reflection_valid, cmeta_function_abi_desc_valid, abi_node_valid. simpl.
  assert (type_node_valid salts_configurator_provider_binding_pointer_type = true) as Ht.
  { unfold type_node_valid. simpl. by rewrite Z.eqb_refl. }
  assert (function_node_valid get_binding_function_meta = true) as ->.
  { unfold function_node_valid, cmeta_type_desc_valid. cbn [fd_return_type get_binding_function_meta].
    by rewrite Ht. }
  rewrite Ht. by rewrite !bool_decide_true.
Qed.

Lemma provider_call_returns p w :
  salts_service_host_provider_valid p = true ->
  exists r, salts_service_host_provider_get_binding p w = Some r.
Proof.
  destruct p as [[self vtable]|]; [|done]. unfold salts_service_host_provider_valid. simpl.
  destruct self; [|done]. destruct vtable as [[? ? getter]|]; [|done]. simpl.
  destruct getter; [|done]. intros _. by eexists.
Qed.

End Provider.

Inductive salts_service_host_status :=
  | SALTS_SERVICE_HOST_OK
  | SALTS_SERVICE_HOST_INVALID_ARGUMENT
  | SALTS_SERVICE_HOST_CAPACITY_EXCEEDED
  | SALTS_SERVICE_HOST_PLUGIN_ERROR
  | SALTS_SERVICE_HOST_PROVIDER_ERROR
  | SALTS_SERVICE_HOST_CONFIGURATOR_ERROR
  | SALTS_SERVICE_HOST_BUSY
  | SALTS_SERVICE_HOST_INVALID_STATE
  | SALTS_SERVICE_HOST_RESOURCE_ERROR.

#[export] Instance salts_service_host_status_eq_dec : EqDecision salts_service_host_status.
Proof. solve_decision. Defined.

Inductive salts_service_host_generation_state :=
  | SALTS_SERVICE_HOST_GENERATION_ZERO
  | SALTS_SERVICE_HOST_GENERATION_BUILT
  | SALTS_SERVICE_HOST_GENERATION_PUBLISHED
  | SALTS_SERVICE_HOST_GENERATION_DRAINING
  | SALTS_SERVICE_HOST_GENERATION_STOPPING
  | SALTS_SERVICE_HOST_GENERATION_FAILED
  | SALTS_SERVICE_HOST_GENERATION_DRAINED.

#[export] Instance salts_service_host_generation_state_eq_dec :
  EqDecision salts_service_host_generation_state.
Proof. solve_decision. Defined.

Record salts_service_host_source := mk_source {
  src_plugin : cmeta_plugin_ref;
  src_export_id : cstr;
  src_config_data : option cmeta_data_desc;
  src_config_value : option addr;
}.

Record salts_service_host_module := mk_module {
  mo_plugin : cmeta_plugin_ref;
  mo_lease : cmeta_plugin_lease;
  mo_manifest : option cmeta_plugin_manifest;
}.

Record salts_service_host_generation_storage := mk_generation_storage {
  gs_deployments : option addr;
  gs_deployment_capacity : nat;
  gs_instances : option addr;
  gs_instance_capacity : nat;
  gs_dependencies : option addr;
  gs_dependency_capacity : nat;
  gs_activation_order : option addr;
  gs_activation_capacity : nat;
  gs_modules : option addr;
  gs_module_capacity : nat;
}.

(** [None] is [SALTS_SERVICE_HOST_INDEX_NONE]. *)
Record salts_service_host_failure := mk_host_failure {
  hf_source_index : option nat;
  hf_plugin_status : cmeta_plugin_status;
  hf_configurator_status : salts_configurator_status;
}.

(** [runtime_owner] is the address of a runtime. *)
Record salts_service_host_generation := mk_generation {
  gn_id : Z;
  gn_registry : option addr;
  gn_components : salts_configurator_context;
  gn_storage : salts_service_host_generation_storage;
  gn_deployment_count : nat;
  gn_module_count : nat;
  gn_runtime_owner : option addr;
  gn_active_scopes : Z;
  gn_state : salts_service_host_generation_state;
  gn_failure : salts_service_host_failure;
}.

(** What the arrays of [gn_storage] hold. *)
Record generation_arrays := mk_arrays {
  ga_deployments : list salts_configurator_deployment;
  ga_graph : storage;
  ga_modules : list salts_service_host_module;
}.

Definition service_host_failure_none : salts_service_host_failure :=
  mk_host_failure None CMETA_PLUGIN_OK SALTS_CONFIGURATOR_OK.

Definition storage_none : salts_service_host_generation_storage :=
  mk_generation_storage None 0 None 0 None 0 None 0 None 0.

(** [SALTS_SERVICE_HOST_GENERATION_INIT]. *)
Definition SALTS_SERVICE_HOST_GENERATION_INIT : salts_service_host_generation :=
  mk_generation 0 None SALTS_CONFIGURATOR_CONTEXT_INIT storage_none 0 0 None 0
    SALTS_SERVICE_HOST_GENERATION_ZERO
    (mk_host_failure (Some 0%nat) CMETA_PLUGIN_OK SALTS_CONFIGURATOR_OK).

(** * Assignments to a generation *)

Definition set_gn_state (state : salts_service_host_generation_state)
    (g : salts_service_host_generation) : salts_service_host_generation :=
  mk_generation (gn_id g) (gn_registry g) (gn_components g) (gn_storage g) (gn_deployment_count g)
    (gn_module_count g) (gn_runtime_owner g) (gn_active_scopes g) state (gn_failure g).

Definition set_gn_failure (failure : salts_service_host_failure) (g : salts_service_host_generation)
    : salts_service_host_generation :=
  mk_generation (gn_id g) (gn_registry g) (gn_components g) (gn_storage g) (gn_deployment_count g)
    (gn_module_count g) (gn_runtime_owner g) (gn_active_scopes g) (gn_state g) failure.

Definition set_gn_components (components : salts_configurator_context)
    (g : salts_service_host_generation) : salts_service_host_generation :=
  mk_generation (gn_id g) (gn_registry g) components (gn_storage g) (gn_deployment_count g)
    (gn_module_count g) (gn_runtime_owner g) (gn_active_scopes g) (gn_state g) (gn_failure g).

Definition set_gn_module_count (count : nat) (g : salts_service_host_generation)
    : salts_service_host_generation :=
  mk_generation (gn_id g) (gn_registry g) (gn_components g) (gn_storage g) (gn_deployment_count g)
    count (gn_runtime_owner g) (gn_active_scopes g) (gn_state g) (gn_failure g).

(** [runtime_owner] and [active_scopes]. *)
Definition set_gn_owner (owner : option addr) (scopes : Z) (g : salts_service_host_generation)
    : salts_service_host_generation :=
  mk_generation (gn_id g) (gn_registry g) (gn_components g) (gn_storage g) (gn_deployment_count g)
    (gn_module_count g) owner scopes (gn_state g) (gn_failure g).

Definition set_failed_plugin (status : cmeta_plugin_status) (f : salts_service_host_failure)
    : salts_service_host_failure := mk_host_failure (hf_source_index f) status (hf_configurator_status f).

Definition set_failed_source (index : option nat) (f : salts_service_host_failure)
    : salts_service_host_failure :=
  mk_host_failure index (hf_plugin_status f) (hf_configurator_status f).

Definition generation_fail_plugin (g : salts_service_host_generation) (source_index : option nat)
    (status : cmeta_plugin_status) : salts_service_host_status * salts_service_host_generation :=
  (SALTS_SERVICE_HOST_PLUGIN_ERROR,
   set_gn_state SALTS_SERVICE_HOST_GENERATION_FAILED
     (set_gn_failure (set_failed_plugin status (set_failed_source source_index (gn_failure g))) g)).

Definition generation_fail_configurator (g : salts_service_host_generation)
    (status : salts_configurator_status)
    : salts_service_host_status * salts_service_host_generation :=
  (SALTS_SERVICE_HOST_CONFIGURATOR_ERROR,
   set_gn_state SALTS_SERVICE_HOST_GENERATION_FAILED
     (set_gn_failure
        (mk_host_failure (hf_source_index (gn_failure g)) (hf_plugin_status (gn_failure g)) status) g)).

Definition generation_fail_provider (g : salts_service_host_generation) (source_index : nat)
    : salts_service_host_status * salts_service_host_generation :=
  (SALTS_SERVICE_HOST_PROVIDER_ERROR,
   set_gn_state SALTS_SERVICE_HOST_GENERATION_FAILED
     (set_gn_failure (set_failed_source (Some source_index) (gn_failure g)) g)).

(** * Plugin leases

    The registry as a host calls it: the pointer, and the world its slots are
    in.  [lr_release] also answers the lease object it leaves. *)
Class LeaseRegistry (W : Type) := {
  lr_acquire : option addr -> cmeta_plugin_ref -> W ->
    cmeta_plugin_status * cmeta_plugin_lease * option cmeta_plugin_manifest * W;
  lr_release : option addr -> cmeta_plugin_lease -> W ->
    cmeta_plugin_status * cmeta_plugin_lease * W;
}.

Definition plugin_ref_equal (a b : cmeta_plugin_ref) : bool :=
  (ref_slot a =? ref_slot b) && (ref_generation a =? ref_generation b).

Definition plugin_lease_is_zero (lease : cmeta_plugin_lease) : bool :=
  (ref_slot (le_plugin lease) =? 0) && (ref_generation (le_plugin lease) =? 0) &&
  (le_slot lease =? 0) && (le_generation lease =? 0).

(** A record [memset] to zero. *)
Definition zero_module : salts_service_host_module := mk_module zero_ref zero_lease None.

Definition module_is_clear (m : salts_service_host_module) : bool :=
  plugin_lease_is_zero (mo_lease m) && (ref_slot (mo_plugin m) =? 0) &&
  (ref_generation (mo_plugin m) =? 0) && is_null (mo_manifest m).

Definition module_tail_is_clear (g : salts_service_host_generation)
    (modules : list salts_service_host_module) : bool :=
  let capacity := gs_module_capacity (gn_storage g) in
  if (capacity <? gn_module_count g)%nat then false
  else if (capacity =? 0)%nat then (gn_module_count g =? 0)%nat
  else if is_null (gs_modules (gn_storage g)) then false
  else forallb_upto module_is_clear (drop (gn_module_count g) modules) (capacity - gn_module_count g).

Definition module_records_are_clear (g : salts_service_host_generation)
    (modules : list salts_service_host_module) : bool :=
  (gn_module_count g =? 0)%nat && module_tail_is_clear g modules.

(** A record that names a lease. *)
Definition module_well_formed (m : salts_service_host_module) : bool :=
  negb (plugin_lease_is_zero (mo_lease m)) && cmeta_plugin_lease_valid (mo_lease m) &&
  plugin_ref_equal (mo_plugin m) (le_plugin (mo_lease m)) && negb (is_null (mo_manifest m)).

(** [if (first == CMETA_PLUGIN_OK) first = status]. *)
Definition first_status (first status : cmeta_plugin_status) : cmeta_plugin_status :=
  plugin_ok_then first status.

(** The last of [count + 1] records takes the place of the settled one at
    [index], if it is not that one. *)
Definition compact_modules (index count : nat) (modules : list salts_service_host_module)
    : option (list salts_service_host_module) :=
  if (index <? count)%nat
  then
    tail ← modules !! count;
    Some (<[count := zero_module]> (<[index := tail]> modules))
  else Some modules.

Section Leases.
  Context {W : Type} `{LeaseRegistry W}.

(** The loop of [release_modules]: [scan] records are left to visit, [count] is
    [generation->module_count]. *)
Fixpoint release_loop (registry : option addr) (scan : nat)
    (modules : list salts_service_host_module) (count : nat) (first : cmeta_plugin_status) (w : W)
    : option (cmeta_plugin_status * list salts_service_host_module * nat * W) :=
  match scan with
  | O => Some (first, modules, count, w)
  | S index =>
      m ← modules !! index;
      if negb (module_well_formed m)
      then release_loop registry index modules count
             (first_status first CMETA_PLUGIN_INVALID_ARGUMENT) w
      else
        let '(status, lease, w) := lr_release registry (mo_lease m) w in
        if negb (bool_decide (status = CMETA_PLUGIN_OK))
        then release_loop registry index
               (<[index := mk_module (mo_plugin m) lease (mo_manifest m)]> modules) count
               (first_status first status) w
        else
          modules ← compact_modules index (pred count) (<[index := zero_module]> modules);
          release_loop registry index modules (pred count) first w
  end.

Definition release_modules (generation : option salts_service_host_generation)
    (modules : list salts_service_host_module) (w : W)
    : option (cmeta_plugin_status * option salts_service_host_generation *
              list salts_service_host_module * W) :=
  match generation with
  | None => Some (CMETA_PLUGIN_INVALID_ARGUMENT, None, modules, w)
  | Some g =>
      if (gs_module_capacity (gn_storage g) <? gn_module_count g)%nat ||
         (negb (gn_module_count g =? 0)%nat && is_null (gs_modules (gn_storage g)))
      then Some (CMETA_PLUGIN_INVALID_ARGUMENT, generation, modules, w)
      else if negb (module_tail_is_clear g modules)
      then Some (CMETA_PLUGIN_INVALID_ARGUMENT, generation, modules, w)
      else if (gn_module_count g =? 0)%nat && negb (module_records_are_clear g modules)
      then Some (CMETA_PLUGIN_INVALID_ARGUMENT, generation, modules, w)
      else
        '(first, modules, count, w) ←
          release_loop (gn_registry g) (gn_module_count g) modules (gn_module_count g)
            CMETA_PLUGIN_OK w;
        Some (first, Some (set_gn_module_count count g), modules, w)
  end.

Definition find_module (g : salts_service_host_generation)
    (modules : list salts_service_host_module) (ref : cmeta_plugin_ref) : option nat :=
  find_below (gn_module_count g) (fun i =>
    match modules !! i with Some m => plugin_ref_equal (mo_plugin m) ref | None => false end).

(** The status, the index of [*out_module], the generation and its modules. *)
Definition acquire_module (g : salts_service_host_generation)
    (modules : list salts_service_host_module) (source_index : nat) (ref : cmeta_plugin_ref) (w : W)
    : option (salts_service_host_status * option nat * salts_service_host_generation *
              list salts_service_host_module * W) :=
  match find_module g modules ref with
  | Some i => Some (SALTS_SERVICE_HOST_OK, Some i, g, modules, w)
  | None =>
      let index := gn_module_count g in
      if (gs_module_capacity (gn_storage g) <=? index)%nat
      then Some (SALTS_SERVICE_HOST_CAPACITY_EXCEEDED, None, g, modules, w)
      else if (length modules <=? index)%nat then None
      else
        let '(status, lease, manifest, w) := lr_acquire (gn_registry g) ref w in
        if negb (bool_decide (status = CMETA_PLUGIN_OK)) then
          let '(failed, g) := generation_fail_plugin g (Some source_index) status in
          Some (failed, None, g, <[index := zero_module]> modules, w)
        else
          Some (SALTS_SERVICE_HOST_OK, Some index, set_gn_module_count (S index) g,
                <[index := mk_module ref lease manifest]> modules, w)
  end.

End Leases.

(** * Admission of the dynamic sources *)

Definition source_named (s : salts_service_host_source) : bool :=
  cmeta_plugin_ref_valid (src_plugin s) && c_nonempty (src_export_id s).

(** The loop of [preflight_dynamic_sources]: the error with the invalid source,
    or the number of distinct plugins; [None] past the array. *)
Fixpoint preflight_loop (before rest : list salts_service_host_source) (distinct count : nat)
    {struct count} : option (salts_service_host_status * option nat + nat) :=
  match count with
  | O => Some (inr distinct)
  | S count' =>
      match rest with
      | [] => None
      | s :: rest' =>
          if negb (source_named s)
          then Some (inl (SALTS_SERVICE_HOST_PROVIDER_ERROR, Some (length before)))
          else if existsb (fun b => plugin_ref_equal (src_plugin s) (src_plugin b)) before
          then preflight_loop (before ++ [s]) rest' distinct count'
          else if Z.of_nat distinct =? SIZE_MAX
          then Some (inl (SALTS_SERVICE_HOST_CAPACITY_EXCEEDED, None))
          else preflight_loop (before ++ [s]) rest' (S distinct) count'
      end
  end.

(** The status, [*out_distinct_modules] and [*out_invalid_source]. *)
Definition preflight_dynamic_sources (sources : option (list salts_service_host_source))
    (source_count module_capacity : nat)
    : option (salts_service_host_status * nat * option nat) :=
  result ← preflight_loop [] (default [] sources) 0 source_count;
  match result with
  | inl (status, invalid) => Some (status, 0%nat, invalid)
  | inr distinct =>
      if (module_capacity <? distinct)%nat
      then Some (SALTS_SERVICE_HOST_CAPACITY_EXCEEDED, 0%nat, None)
      else Some (SALTS_SERVICE_HOST_OK, distinct, None)
  end.

Definition service_host_dynamic_component_abi_valid (component : option cmeta_component_desc) : bool :=
  match component with
  | None => false
  | Some c =>
      cmeta_component_desc_valid component &&
      forallb_upto (fun row => cmeta_interface_borrowed_service_abi_valid (cc_interface_desc row))
        (cd_rows c) (cd_capability_count c)
  end.

Section Admission.
  Context {W : Type} `{LeaseRegistry W} `{ServiceProviders W}.

(** The export [entry] gives a binding that a dynamic component may have. *)
Definition admit_export (g : salts_service_host_generation) (source_index : nat)
    (source : salts_service_host_source) (entry : cmeta_plugin_export) (w : W)
    : option (salts_service_host_status * option salts_configurator_deployment *
              salts_service_host_generation * W) :=
  let refused g w := let '(status, g) := generation_fail_provider g source_index in
                     Some (status, None, g, w) in
  let plugin_status :=
    cmeta_plugin_export_require_interface (Some entry) SALTS_SERVICE_HOST_PROVIDER_CONTRACT_ID
      SALTS_SERVICE_HOST_PROVIDER_CONTRACT_VERSION 0
      (Some salts_service_host_provider_interface) in
  if negb (bool_decide (plugin_status = CMETA_PLUGIN_OK)) then
    let '(status, g) := generation_fail_plugin g (Some source_index) plugin_status in
    Some (status, None, g, w)
  else
    let provider := (fun a => sp_object a w) <$> ie_value (ev_interface (ex_value entry)) in
    if negb (salts_service_host_provider_valid provider) then refused g w
    else
      '(binding, w) ← salts_service_host_provider_get_binding provider w;
      if negb (salts_configurator_provider_binding_valid binding) then refused g w
      else if negb (service_host_dynamic_component_abi_valid (binding ≫= pb_component))
      then refused g w
      else Some (SALTS_SERVICE_HOST_OK,
                 Some (mk_deployment binding (src_config_data source) (src_config_value source)), g, w).

(** [*out_deployment] is written only with [SALTS_SERVICE_HOST_OK]. *)
Definition admit_dynamic_source (g : salts_service_host_generation)
    (modules : list salts_service_host_module) (source_index : nat)
    (source : salts_service_host_source) (w : W)
    : option (salts_service_host_status * option salts_configurator_deployment *
              salts_service_host_generation * list salts_service_host_module * W) :=
  if negb (source_named source) then
    let '(status, g) := generation_fail_provider g source_index in
    Some (status, None, g, modules, w)
  else
    '(status, module, g, modules, w) ← acquire_module g modules source_index (src_plugin source) w;
    if negb (bool_decide (status = SALTS_SERVICE_HOST_OK)) then Some (status, None, g, modules, w)
    else
      index ← module;
      m ← modules !! index;
      match cmeta_plugin_manifest_find_export (mo_manifest m) (src_export_id source) with
      | (CMETA_PLUGIN_OK, found) =>
          i ← found;
          manifest ← mo_manifest m;
          entry ← pm_rows manifest !! i;
          '(status, deployment, g, w) ← admit_export g source_index source entry w;
          Some (status, deployment, g, modules, w)
      | (plugin_status, _) =>
          let '(status, g) := generation_fail_plugin g (Some source_index) plugin_status in
          Some (status, None, g, modules, w)
      end.

(** The loop over the sources, which writes the deployments after the static
    ones, up to the first failure. *)
Fixpoint admit_sources (g : salts_service_host_generation) (modules : list salts_service_host_module)
    (deployments : list salts_configurator_deployment) (static_count index : nat)
    (rest : list salts_service_host_source) (count : nat) (w : W)
    {struct count}
    : option (salts_service_host_status * salts_service_host_generation *
              list salts_service_host_module * list salts_configurator_deployment * W) :=
  match count with
  | O => Some (SALTS_SERVICE_HOST_OK, g, modules, deployments, w)
  | S count' =>
      match rest with
      | [] => None
      | source :: rest' =>
          '(status, deployment, g, modules, w) ← admit_dynamic_source g modules index source w;
          if negb (bool_decide (status = SALTS_SERVICE_HOST_OK))
          then Some (status, g, modules, deployments, w)
          else if (length deployments <=? static_count + index)%nat then None
          else
            d ← deployment;
            admit_sources g modules (<[(static_count + index)%nat := d]> deployments) static_count
              (S index) rest' count' w
      end
  end.

End Admission.

(** * Clear and settled generations *)

Definition generation_clear (g : salts_service_host_generation) : salts_service_host_generation :=
  mk_generation (gn_id g) None SALTS_CONFIGURATOR_CONTEXT_INIT storage_none 0 0 (gn_runtime_owner g)
    (gn_active_scopes g) (gn_state g) (gn_failure g).

Definition gs_is_empty (s : salts_service_host_generation_storage) : bool :=
  is_null (gs_deployments s) && (gs_deployment_capacity s =? 0)%nat &&
  is_null (gs_instances s) && (gs_instance_capacity s =? 0)%nat &&
  is_null (gs_dependencies s) && (gs_dependency_capacity s =? 0)%nat &&
  is_null (gs_activation_order s) && (gs_activation_capacity s =? 0)%nat &&
  is_null (gs_modules s) && (gs_module_capacity s =? 0)%nat.

Definition service_host_configurator_storage_detached (c : salts_configurator_context) : bool :=
  is_null (cx_deployments c) && (cx_deployment_count c =? 0)%nat &&
  is_null (cx_selections c) && (cx_selection_count c =? 0)%nat &&
  is_null (cx_instances c) && (cx_instance_capacity c =? 0)%nat &&
  is_null (cx_dependencies c) && (cx_dependency_capacity c =? 0)%nat &&
  (cx_dependency_count c =? 0)%nat &&
  is_null (cx_activation_order c) && (cx_activation_capacity c =? 0)%nat &&
  (cx_activation_count c =? 0)%nat.

Definition generation_is_clear (g : salts_service_host_generation) : bool :=
  is_null (gn_registry g) && (gn_deployment_count g =? 0)%nat && (gn_module_count g =? 0)%nat &&
  is_null (gn_runtime_owner g) && (gn_active_scopes g =? 0) && gs_is_empty (gn_storage g) &&
  state_is SALTS_CONFIGURATOR_CONTEXT_ZERO (gn_components g) &&
  (cx_deployment_count (gn_components g) =? 0)%nat &&
  (cx_selection_count (gn_components g) =? 0)%nat &&
  (cx_instance_capacity (gn_components g) =? 0)%nat &&
  (cx_dependency_capacity (gn_components g) =? 0)%nat &&
  (cx_activation_capacity (gn_components g) =? 0)%nat &&
  (cx_dependency_count (gn_components g) =? 0)%nat &&
  (cx_activation_count (gn_components g) =? 0)%nat &&
  is_null (cx_deployments (gn_components g)) && is_null (cx_selections (gn_components g)) &&
  is_null (cx_instances (gn_components g)) && is_null (cx_dependencies (gn_components g)) &&
  is_null (cx_activation_order (gn_components g)).

Definition service_host_object_ref_is_empty (object : cmeta_object_ref) : bool :=
  (or_size object =? sizeof_object_ref) && is_null (or_object object) &&
  is_null (or_data object) && is_null (or_field_provider object) &&
  is_null (or_operations object) && is_null (or_operation_provider object) &&
  bool_decide (or_lifetime object = CMETA_OBJECT_LIFETIME_NONE) &&
  is_null (or_lifecycle object).

Definition service_host_components_settled (c : salts_configurator_context) (st : storage) : bool :=
  if negb (cx_activation_count c =? 0)%nat then false
  else if (state_is SALTS_CONFIGURATOR_CONTEXT_ZERO c ||
           (state_is SALTS_CONFIGURATOR_CONTEXT_FAILED c ||
            state_is SALTS_CONFIGURATOR_CONTEXT_STOPPED c) && (cx_deployment_count c =? 0)%nat) &&
          negb (service_host_configurator_storage_detached c) then false
  else if (cx_instance_capacity c <? cx_deployment_count c)%nat ||
          (negb (cx_instance_capacity c =? 0)%nat && is_null (cx_instances c)) then false
  else forallb_upto (fun i => negb (in_active i || negb (service_host_object_ref_is_empty (in_object i))))
         (so_instances st) (cx_instance_capacity c).

(** * Publication *)

Definition service_host_deployment_valid (deployment : salts_configurator_deployment) : bool :=
  match dy_provider deployment with
  | None => false
  | Some b =>
      if negb (salts_configurator_provider_binding_valid (Some b)) then false
      else
        match pb_component b ≫= cd_config with
        | None => is_null (dy_config_data deployment) && is_null (dy_config_value deployment)
        | Some config =>
            negb (is_null (dy_config_data deployment)) &&
            negb (is_null (dy_config_value deployment)) &&
            cmeta_data_desc_valid (dy_config_data deployment) &&
            cmeta_data_desc_equal (Some config) (dy_config_data deployment)
        end
  end.

Definition service_host_component_has_role (component : option cmeta_component_desc)
    (interface_desc : option cmeta_interface_desc) (requires_role : bool) : bool :=
  if negb (cmeta_component_desc_valid component) || negb (cmeta_interface_desc_valid interface_desc)
  then false
  else
    match component with
    | None => false
    | Some c =>
        existsb (fun row =>
          is_role (if requires_role then CMETA_COMPONENT_REQUIRES else CMETA_COMPONENT_PROVIDES) row &&
          cmeta_interface_desc_equal (cc_interface_desc row) interface_desc)
          (take (cd_capability_count c) (cd_rows c))
    end.

(** The context works on the arrays of the generation, and its counts fit. *)
Definition publishable_counts (g : salts_service_host_generation) : bool :=
  let c := gn_components g in
  let s := gn_storage g in
  state_is SALTS_CONFIGURATOR_CONTEXT_ACTIVE c &&
  (cx_deployment_count c =? gn_deployment_count g)%nat &&
  (cx_activation_count c =? cx_deployment_count c)%nat &&
  (cx_deployment_count c <=? gs_deployment_capacity s)%nat &&
  (cx_deployment_count c <=? gs_instance_capacity s)%nat &&
  (cx_deployment_count c <=? gs_activation_capacity s)%nat &&
  bool_decide (da_addr <$> cx_deployments c = gs_deployments s) &&
  bool_decide (cx_instances c = gs_instances s) &&
  (cx_instance_capacity c =? gs_instance_capacity s)%nat &&
  bool_decide (cx_dependencies c = gs_dependencies s) &&
  (cx_dependency_capacity c =? gs_dependency_capacity s)%nat &&
  bool_decide (cx_activation_order c = gs_activation_order s) &&
  (cx_activation_capacity c =? gs_activation_capacity s)%nat &&
  (cx_dependency_count c <=? cx_dependency_capacity c)%nat.

Definition publishable_pointers (c : salts_configurator_context) : bool :=
  negb ((negb (cx_instance_capacity c =? 0)%nat && is_null (cx_instances c)) ||
        (negb (cx_activation_capacity c =? 0)%nat && is_null (cx_activation_order c)) ||
        (negb (cx_deployment_count c =? 0)%nat &&
         (is_null (cx_deployments c) || is_null (cx_instances c) || is_null (cx_activation_order c))) ||
        (negb (cx_dependency_capacity c =? 0)%nat && is_null (cx_dependencies c))).

(** Each place of the order is in range and unlike the places before it. *)
Definition publishable_order (c : salts_configurator_context) (st : storage) : bool :=
  forall_below (cx_activation_count c) (fun i =>
    match so_order st !! i with
    | None => false
    | Some component_index =>
        (component_index <? cx_deployment_count c)%nat &&
        forall_below i (fun j =>
          negb (bool_decide (so_order st !! j = Some component_index)))
    end).

(** The loop over the deployments and instances; [expected] is
    [expected_dependency_offset], the result its final value. *)
Fixpoint publishable_slices (dependency_count : nat) (deployments : list salts_configurator_deployment)
    (instances : list salts_configurator_instance) (count expected : nat) {struct count}
    : option nat :=
  match count with
  | O => Some expected
  | S count' =>
      match deployments, instances with
      | d :: deployments', i :: instances' =>
          if negb (in_dependency_offset i =? expected)%nat || (dependency_count <? expected)%nat ||
             (dependency_count - expected <? in_dependency_count i)%nat ||
             negb (service_host_deployment_valid d) || negb (in_active i) ||
             negb (cmeta_object_ref_valid (Some (in_object i)))
          then None
          else publishable_slices dependency_count deployments' instances' count'
                 (expected + in_dependency_count i)
      | _, _ => None
      end
  end.

(** [context->deployments[index].provider]. *)
Definition deployment_provider (c : salts_configurator_context) (index : nat)
    : option salts_configurator_provider_binding :=
  match cx_rows c !! index with Some d => dy_provider d | None => None end.

(** One dependency of the consumer at [i]. *)
Definition publishable_dependency (c : salts_configurator_context) (i : nat)
    (dependency : salts_configurator_dependency) : bool :=
  if negb (dp_consumer_index dependency =? i)%nat ||
     (cx_deployment_count c <=? dp_provider_index dependency)%nat ||
     negb (cmeta_interface_desc_valid (dp_interface_desc dependency)) then false
  else
    match deployment_provider c i, deployment_provider c (dp_provider_index dependency) with
    | Some consumer, Some provider =>
        bool_decide (component_ptr (dp_provider_component dependency) =
                     component_ptr (pb_component provider)) &&
        bool_decide (dp_provider_instance dependency =
                     (fun a => (a, dp_provider_index dependency)) <$> cx_instances c) &&
        bool_decide (interfaces_ptr (dp_provider_interfaces dependency) =
                     interfaces_ptr (pb_interfaces provider)) &&
        service_host_component_has_role (pb_component consumer) (dp_interface_desc dependency) true &&
        service_host_component_has_role (pb_component provider) (dp_interface_desc dependency) false
    | _, _ => false
    end.

(** [check] for every dependency in the slice of the instance at [component]. *)
Definition slice_all (st : storage) (component : nat) (check : salts_configurator_dependency -> bool)
    : bool :=
  match so_instances st !! component with
  | None => false
  | Some instance =>
      forall_below (in_dependency_count instance) (fun j =>
        match so_dependencies st !! (in_dependency_offset instance + j)%nat with
        | Some dependency => check dependency
        | None => false
        end)
  end.

Definition publishable_topological (c : salts_configurator_context) (st : storage) : bool :=
  forall_below (cx_activation_count c) (fun i =>
    match so_order st !! i with
    | None => false
    | Some component_index =>
        slice_all st component_index (fun dependency =>
          existsb (fun k => bool_decide (so_order st !! k = Some (dp_provider_index dependency)))
            (seq 0 i))
    end).

Definition publishable_tail (c : salts_configurator_context) (st : storage) : bool :=
  forallb_upto (fun i => negb (in_active i) && service_host_object_ref_is_empty (in_object i) &&
                         (in_dependency_offset i =? 0)%nat && (in_dependency_count i =? 0)%nat)
    (drop (cx_deployment_count c) (so_instances st))
    (cx_instance_capacity c - cx_deployment_count c).

Definition service_host_generation_publishable (generation : option salts_service_host_generation)
    (a : generation_arrays) : bool :=
  match generation with
  | None => false
  | Some g =>
      let c := gn_components g in
      let st := ga_graph a in
      if negb (gn_module_count g =? 0)%nat && is_null (gn_registry g) then false
      else if negb (publishable_counts g) || negb (module_tail_is_clear g (ga_modules a)) then false
      else if negb (publishable_pointers c) then false
      else
        forallb_upto module_well_formed (ga_modules a) (gn_module_count g) &&
        publishable_order c st &&
        match publishable_slices (cx_dependency_count c) (cx_rows c) (so_instances st)
                (cx_deployment_count c) 0 with
        | Some expected => (expected =? cx_dependency_count c)%nat
        | None => false
        end &&
        forall_below (cx_deployment_count c) (fun i => slice_all st i (publishable_dependency c i)) &&
        publishable_topological c st && publishable_tail c st
  end.

(** * Building and tearing down *)

Record build_arguments := mk_build {
  ba_generation_id : Z;
  ba_registry : option addr;
  ba_storage : option salts_service_host_generation_storage;
  ba_static_deployments : option (list salts_configurator_deployment);
  ba_static_deployment_count : nat;
  ba_dynamic_sources : option (list salts_service_host_source);
  ba_dynamic_source_count : nat;
  ba_selections : option (list salts_configurator_selection);
  ba_selection_count : nat;
}.

(** The generation and its arrays may be overwritten. *)
Definition generation_reusable (g : salts_service_host_generation) (a : generation_arrays) : bool :=
  match gn_state g with
  | SALTS_SERVICE_HOST_GENERATION_ZERO | SALTS_SERVICE_HOST_GENERATION_DRAINED =>
      generation_is_clear g
  | SALTS_SERVICE_HOST_GENERATION_FAILED =>
      negb (negb (is_null (gn_runtime_owner g)) || negb (gn_active_scopes g =? 0) ||
            negb (gn_module_count g =? 0)%nat || negb (module_records_are_clear g (ga_modules a)) ||
            negb (cx_activation_count (gn_components g) =? 0)%nat ||
            (negb (state_is SALTS_CONFIGURATOR_CONTEXT_ZERO (gn_components g)) &&
             negb (state_is SALTS_CONFIGURATOR_CONTEXT_FAILED (gn_components g)) &&
             negb (state_is SALTS_CONFIGURATOR_CONTEXT_STOPPED (gn_components g))) ||
            negb (service_host_components_settled (gn_components g) (ga_graph a)))
  | _ => false
  end.

Definition build_total (b : build_arguments) : nat :=
  (ba_static_deployment_count b + ba_dynamic_source_count b)%nat.

(** The arrays of [storage] are too small or missing. *)
Definition build_exceeds (b : build_arguments) (s : salts_service_host_generation_storage) : bool :=
  let total := build_total b in
  (gs_deployment_capacity s <? total)%nat || (gs_instance_capacity s <? total)%nat ||
  (gs_activation_capacity s <? total)%nat ||
  (negb (total =? 0)%nat &&
   (is_null (gs_deployments s) || is_null (gs_instances s) || is_null (gs_activation_order s))) ||
  (negb (gs_dependency_capacity s =? 0)%nat && is_null (gs_dependencies s)) ||
  (negb (gs_module_capacity s =? 0)%nat && is_null (gs_modules s)).

(** The candidate before admission. *)
Definition candidate (b : build_arguments) (s : salts_service_host_generation_storage)
    : salts_service_host_generation :=
  mk_generation (ba_generation_id b) (ba_registry b) SALTS_CONFIGURATOR_CONTEXT_INIT s (build_total b)
    0 None 0 SALTS_SERVICE_HOST_GENERATION_ZERO service_host_failure_none.

Definition graph_arguments (b : build_arguments) (s : salts_service_host_generation_storage)
    (deployments : list salts_configurator_deployment) : init_arguments :=
  mk_init ((fun p => mk_deployments p deployments) <$> gs_deployments s) (build_total b)
    (ba_selections b) (ba_selection_count b) (gs_instances s) (gs_instance_capacity s)
    (gs_dependencies s) (gs_dependency_capacity s) (gs_activation_order s)
    (gs_activation_capacity s).

Section Build.
  Context {W : Type} `{LeaseRegistry W} `{ServiceProviders W} `{ObjectCallbacks W}
    `{ProviderCallbacks W}.

(** The Configurator calls of [build], on a fresh context over the arrays. *)
Definition activate_graph (arguments : init_arguments) (st : storage) (w : W)
    : option (salts_configurator_status * salts_configurator_context * storage * W) :=
  let '(status, c, st) :=
    salts_configurator_context_init (Some SALTS_CONFIGURATOR_CONTEXT_INIT) st arguments st in
  '(status, c, st) ←
    (if bool_decide (status = SALTS_CONFIGURATOR_OK)
     then salts_configurator_context_resolve c st else Some (status, c, st));
  '(status, c, st, w) ←
    (if bool_decide (status = SALTS_CONFIGURATOR_OK)
     then salts_configurator_context_start c st w else Some (status, c, st, w));
  c ← c;
  Some (status, c, st, w).

(** The failure of admission: leases are given back, and the borrowed arrays
    with them once all are. *)
Definition admission_failed (status : salts_service_host_status) (g : salts_service_host_generation)
    (a : generation_arrays) (w : W)
    : option (salts_service_host_status * salts_service_host_generation * generation_arrays * W) :=
  '(release_status, g, modules, w) ← release_modules (Some g) (ga_modules a) w;
  g ← g;
  let a := mk_arrays (ga_deployments a) (ga_graph a) modules in
  if negb (bool_decide (release_status = CMETA_PLUGIN_OK))
  then Some (SALTS_SERVICE_HOST_PLUGIN_ERROR,
             set_gn_failure (set_failed_plugin release_status
                               (set_failed_source None (gn_failure g))) g, a, w)
  else Some (status, generation_clear g, a, w).

(** The failure of the Configurator, the generation already [FAILED]. *)
Definition activation_failed (g : salts_service_host_generation) (a : generation_arrays) (w : W)
    : option (salts_service_host_status * salts_service_host_generation * generation_arrays * W) :=
  if negb (service_host_components_settled (gn_components g) (ga_graph a))
  then Some (SALTS_SERVICE_HOST_CONFIGURATOR_ERROR, g, a, w)
  else
    '(release_status, g, modules, w) ← release_modules (Some g) (ga_modules a) w;
    g ← g;
    let a := mk_arrays (ga_deployments a) (ga_graph a) modules in
    Some (SALTS_SERVICE_HOST_CONFIGURATOR_ERROR,
          if negb (bool_decide (release_status = CMETA_PLUGIN_OK))
          then set_gn_failure (set_failed_plugin release_status
                                 (set_failed_source None (gn_failure g))) g
          else if service_host_components_settled (gn_components g) (ga_graph a)
          then generation_clear g else g, a, w).

(** The part of [build] after the checks, on the candidate [g]. *)
Definition build_candidate (b : build_arguments) (s : salts_service_host_generation_storage)
    (a : generation_arrays) (w : W)
    : option (salts_service_host_status * salts_service_host_generation * generation_arrays * W) :=
  let modules := replicate (gs_module_capacity s) zero_module ++
                 drop (gs_module_capacity s) (ga_modules a) in
  let statics := take (ba_static_deployment_count b) (default [] (ba_static_deployments b)) in
  if (length statics <? ba_static_deployment_count b)%nat ||
     (length (ga_deployments a) <? ba_static_deployment_count b)%nat ||
     (length (ga_modules a) <? gs_module_capacity s)%nat then None
  else
    let deployments := statics ++ drop (ba_static_deployment_count b) (ga_deployments a) in
    '(status, g, modules, deployments, w) ←
      admit_sources (candidate b s) modules deployments (ba_static_deployment_count b) 0
        (default [] (ba_dynamic_sources b)) (ba_dynamic_source_count b) w;
    if negb (bool_decide (status = SALTS_SERVICE_HOST_OK))
    then admission_failed status g (mk_arrays deployments (ga_graph a) modules) w
    else
      '(configurator_status, c, st, w) ←
        activate_graph (graph_arguments b s deployments) (ga_graph a) w;
      let g := set_gn_components c g in
      let a := mk_arrays deployments st modules in
      if negb (bool_decide (configurator_status = SALTS_CONFIGURATOR_OK))
      then activation_failed (generation_fail_configurator g configurator_status).2 a w
      else Some (SALTS_SERVICE_HOST_OK, set_gn_state SALTS_SERVICE_HOST_GENERATION_BUILT g, a, w).

(** [a] is what the generation's own arrays hold, [new] what the arrays of
    [ba_storage] hold. *)
Definition salts_service_host_generation_build (generation : option salts_service_host_generation)
    (a : generation_arrays) (b : build_arguments) (new : generation_arrays) (w : W)
    : option (salts_service_host_status * option salts_service_host_generation *
              generation_arrays * W) :=
  match generation, ba_storage b with
  | Some g, Some s =>
      if (ba_generation_id b =? 0) ||
         (negb (ba_static_deployment_count b =? 0)%nat && is_null (ba_static_deployments b)) ||
         (negb (ba_dynamic_source_count b =? 0)%nat &&
          (is_null (ba_dynamic_sources b) || is_null (ba_registry b))) ||
         (negb (ba_selection_count b =? 0)%nat && is_null (ba_selections b))
      then Some (SALTS_SERVICE_HOST_INVALID_ARGUMENT, generation, a, w)
      else if negb (generation_reusable g a)
      then Some (SALTS_SERVICE_HOST_INVALID_STATE, generation, a, w)
      else if SIZE_MAX - Z.of_nat (ba_dynamic_source_count b) <?
              Z.of_nat (ba_static_deployment_count b)
      then Some (SALTS_SERVICE_HOST_CAPACITY_EXCEEDED, generation, a, w)
      else if build_exceeds b s
      then Some (SALTS_SERVICE_HOST_CAPACITY_EXCEEDED, generation, a, w)
      else
        '(status, _, invalid_source) ←
          preflight_dynamic_sources (ba_dynamic_sources b) (ba_dynamic_source_count b)
            (gs_module_capacity s);
        if negb (bool_decide (status = SALTS_SERVICE_HOST_OK)) then
          Some (status,
                Some (if bool_decide (status = SALTS_SERVICE_HOST_PROVIDER_ERROR)
                      then set_gn_state SALTS_SERVICE_HOST_GENERATION_FAILED
                             (set_gn_failure
                                (set_failed_source invalid_source service_host_failure_none) g)
                      else g), a, w)
        else
          '(status, g, a, w) ← build_candidate b s new w;
          Some (status, Some g, a, w)
  | _, _ => Some (SALTS_SERVICE_HOST_INVALID_ARGUMENT, generation, a, w)
  end.

Definition salts_service_host_generation_discard (generation : option salts_service_host_generation)
    (a : generation_arrays) (w : W)
    : option (salts_service_host_status * option salts_service_host_generation *
              generation_arrays * W) :=
  match generation with
  | None => Some (SALTS_SERVICE_HOST_INVALID_ARGUMENT, None, a, w)
  | Some g =>
      if negb (bool_decide (gn_state g = SALTS_SERVICE_HOST_GENERATION_BUILT))
      then Some (SALTS_SERVICE_HOST_INVALID_STATE, generation, a, w)
      else
        '(configurator_status, c, st, w) ←
          salts_configurator_context_stop (Some (gn_components g)) (ga_graph a) w;
        c ← c;
        let g := set_gn_components c g in
        let a := mk_arrays (ga_deployments a) st (ga_modules a) in
        if negb (bool_decide (configurator_status = SALTS_CONFIGURATOR_OK)) then
          let '(status, g) := generation_fail_configurator g SALTS_CONFIGURATOR_INVALID_STATE in
          Some (status, Some g, a, w)
        else
          '(plugin_status, g, modules, w) ← release_modules (Some g) (ga_modules a) w;
          g ← g;
          let a := mk_arrays (ga_deployments a) (ga_graph a) modules in
          if negb (bool_decide (plugin_status = CMETA_PLUGIN_OK)) then
            let '(status, g) := generation_fail_plugin g None plugin_status in
            Some (status, Some g, a, w)
          else
            Some (SALTS_SERVICE_HOST_OK,
                  Some (set_gn_state SALTS_SERVICE_HOST_GENERATION_DRAINED (generation_clear g)), a, w)
  end.

Definition salts_service_host_generation_recover (generation : option salts_service_host_generation)
    (a : generation_arrays) (w : W)
    : option (salts_service_host_status * option salts_service_host_generation *
              generation_arrays * W) :=
  match generation with
  | None => Some (SALTS_SERVICE_HOST_INVALID_ARGUMENT, None, a, w)
  | Some g =>
      if negb (bool_decide (gn_state g = SALTS_SERVICE_HOST_GENERATION_FAILED)) ||
         negb (is_null (gn_runtime_owner g)) || negb (gn_active_scopes g =? 0) ||
         (negb (gn_module_count g =? 0)%nat && is_null (gs_modules (gn_storage g)))
      then Some (SALTS_SERVICE_HOST_INVALID_STATE, generation, a, w)
      else if (negb (state_is SALTS_CONFIGURATOR_CONTEXT_ZERO (gn_components g)) &&
               negb (state_is SALTS_CONFIGURATOR_CONTEXT_FAILED (gn_components g)) &&
               negb (state_is SALTS_CONFIGURATOR_CONTEXT_STOPPED (gn_components g))) ||
              negb (cx_activation_count (gn_components g) =? 0)%nat ||
              negb (service_host_components_settled (gn_components g) (ga_graph a))
      then Some (SALTS_SERVICE_HOST_INVALID_STATE, generation, a, w)
      else
        '(plugin_status, g, modules, w) ← release_modules generation (ga_modules a) w;
        g ← g;
        let a := mk_arrays (ga_deployments a) (ga_graph a) modules in
        if negb (bool_decide (plugin_status = CMETA_PLUGIN_OK)) then
          Some (SALTS_SERVICE_HOST_PLUGIN_ERROR,
                Some (set_gn_failure (set_failed_plugin plugin_status
                                        (set_failed_source None (gn_failure g))) g), a, w)
        else
          Some (SALTS_SERVICE_HOST_OK,
                Some (set_gn_state SALTS_SERVICE_HOST_GENERATION_DRAINED
                        (set_gn_owner None 0
                           (set_gn_components SALTS_CONFIGURATOR_CONTEXT_INIT (generation_clear g)))),
                a, w)
  end.

End Build.

Definition salts_service_host_generation_failure (generation : option salts_service_host_generation)
    : option salts_service_host_failure := gn_failure <$> generation.

Definition salts_service_host_status_string (status : salts_service_host_status) : string :=
  match status with
  | SALTS_SERVICE_HOST_OK => "ok"
  | SALTS_SERVICE_HOST_INVALID_ARGUMENT => "invalid argument"
  | SALTS_SERVICE_HOST_CAPACITY_EXCEEDED => "capacity exceeded"
  | SALTS_SERVICE_HOST_PLUGIN_ERROR => "plugin error"
  | SALTS_SERVICE_HOST_PROVIDER_ERROR => "provider error"
  | SALTS_SERVICE_HOST_CONFIGURATOR_ERROR => "component error"
  | SALTS_SERVICE_HOST_BUSY => "busy"
  | SALTS_SERVICE_HOST_INVALID_STATE => "invalid state"
  | SALTS_SERVICE_HOST_RESOURCE_ERROR => "resource error"
  end.
