(* ===== verification/ServiceHostLeases.v ===== *)
(** The plugin leases of a generation: [release_modules], which compacts the
    records it cannot settle, is the plain pass over the records; admission
    never runs out of the module records the preflight counted, and every record
    it leaves names a lease the registry granted. *)

From S2P Require Import Prelude CMetaType CMetaFunction CMetaInterface CMetaData.
From S2P Require Import CMetaOperation CMetaObject CMetaComponent Configurator.
From S2P Require Import PluginManifest PluginRegistry ServiceHost.

Lemma plugin_ref_equal_true a b : plugin_ref_equal a b = true <-> a = b.
Proof.
  unfold plugin_ref_equal. rewrite andb_true_iff, !Z.eqb_eq. destruct a, b; simpl.
  split; [by intros [-> ->]|by intros [= -> ->]].
Qed.

Lemma first_status_assoc a b c : first_status (first_status a b) c = first_status a (first_status b c).
Proof. by destruct a. Qed.

Lemma first_status_ok a b :
  first_status a b = CMETA_PLUGIN_OK <-> a = CMETA_PLUGIN_OK /\ b = CMETA_PLUGIN_OK.
Proof. unfold first_status, plugin_ok_then. case_bool_decide; naive_solver. Qed.

Lemma zero_module_clear : module_is_clear zero_module = true.
Proof. done. Qed.

(** * Releasing *)

Section Release.
  Context {W : Type} `{LR : LeaseRegistry W} (registry : option addr).

(** The reference: the records from the last to the first, each well-formed one
    given back once; the first error, the records not settled, the world. *)
Fixpoint settle (records : list salts_service_host_module) (w : W)
    : cmeta_plugin_status * list salts_service_host_module * W :=
  match records with
  | [] => (CMETA_PLUGIN_OK, [], w)
  | m :: rest =>
      let '(first, kept, w) := settle rest w in
      if negb (module_well_formed m)
      then (first_status first CMETA_PLUGIN_INVALID_ARGUMENT, m :: kept, w)
      else
        let '(status, lease, w) := lr_release registry (mo_lease m) w in
        if bool_decide (status = CMETA_PLUGIN_OK) then (first, kept, w)
        else (first_status first status, mk_module (mo_plugin m) lease (mo_manifest m) :: kept, w)
  end.

Lemma settle_app l k w :
  settle (l ++ k) w =
    let '(f1, k1, w1) := settle k w in
    let '(f2, k2, w2) := settle l w1 in (first_status f1 f2, k2 ++ k1, w2).
Proof.
  induction l as [|m l IH]; simpl.
  - destruct (settle k w) as [[f1 k1] w1]. by destruct f1.
  - rewrite IH. destruct (settle k w) as [[f1 k1] w1]. destruct (settle l w1) as [[f2 k2] w2].
    destruct (module_well_formed m); simpl; [|by rewrite first_status_assoc].
    destruct (lr_release _ _ _) as [[status lease] w3]. case_bool_decide; [done|].
    by rewrite first_status_assoc.
Qed.

(** Everything is settled exactly when no error is reported. *)
Lemma settle_ok l w f kept w' :
  settle l w = (f, kept, w') -> f = CMETA_PLUGIN_OK <-> kept = [].
Proof.
  revert f kept w'. induction l as [|m l IH]; intros f kept w'; simpl; [naive_solver|].
  destruct (settle l w) as [[f1 k1] w1] eqn:Hl. specialize (IH _ _ _ eq_refl).
  destruct (module_well_formed m); simpl.
  - destruct (lr_release _ _ _) as [[status lease] w3]. case_bool_decide; intros [= <- <- <-]; [done|].
    rewrite first_status_ok. naive_solver.
  - intros [= <- <- <-]. rewrite first_status_ok. naive_solver.
Qed.

Lemma settle_length l w f kept w' : settle l w = (f, kept, w') -> (length kept <= length l)%nat.
Proof.
  revert f kept w'. induction l as [|m l IH]; intros f kept w'; simpl; [naive_solver|].
  destruct (settle l w) as [[f1 k1] w1] eqn:Hl. specialize (IH _ _ _ eq_refl).
  destruct (module_well_formed m); simpl.
  - destruct (lr_release _ _ _) as [[status lease] w3].
    case_bool_decide; intros [= <- <- <-]; simpl; lia.
  - intros [= <- <- <-]. simpl. lia.
Qed.

Lemma insert_middle {A} (l k : list A) (x y : A) : <[length l := y]> (l ++ x :: k) = l ++ y :: k.
Proof. by rewrite insert_app_r_alt, Nat.sub_diag by done. Qed.

Lemma lookup_middle {A} (l k : list A) (x : A) : (l ++ x :: k) !! length l = Some x.
Proof. by rewrite lookup_app_r, Nat.sub_diag by done. Qed.

(** Compaction keeps the records [K] after the settled one and frees a place. *)
Lemma compact_spec (P K T : list salts_service_host_module) m :
  exists K0, K0 ≡ₚ K /\
    compact_modules (length P) (length P + length K) (<[length P := zero_module]> (P ++ m :: K ++ T)) =
      Some (P ++ K0 ++ zero_module :: T).
Proof.
  unfold compact_modules. rewrite insert_middle. destruct K as [|t K _] using rev_ind.
  { exists []. split; [done|]. by rewrite (proj2 (Nat.ltb_ge _ _)) by (simpl; lia). }
  exists (t :: K). split; [apply Permutation_cons_append|]. rewrite length_app. simpl.
  rewrite (proj2 (Nat.ltb_lt _ _)) by lia.
  assert (forall x, length P + (length K + 1) = length (P ++ x :: K))%nat as Hlen
    by (intros; rewrite length_app; simpl; lia).
  assert (forall x y, P ++ x :: (K ++ [y]) ++ T = (P ++ x :: K) ++ y :: T) as Happ
    by (intros; by rewrite <- !app_assoc).
  rewrite Happ, (Hlen zero_module) at 1. rewrite lookup_middle. simpl. f_equal.
  by rewrite insert_middle, Happ, (Hlen t), insert_middle, <- app_assoc.
Qed.

(** The loop over records [P], with [K] already kept and [T] after them. *)
Lemma release_loop_spec P K T first w :
  exists f kept w' K', settle P w = (f, kept, w') /\ K' ≡ₚ kept ++ K /\
    release_loop registry (length P) (P ++ K ++ T) (length P + length K) first w =
      Some (first_status first f,
            K' ++ replicate (length P + length K - length K') zero_module ++ T, length K', w').
Proof.
  revert K T first w. induction P as [|m P IH] using rev_ind; intros K T first w.
  { exists CMETA_PLUGIN_OK, [], w, K. split; [done|]. split; [done|]. simpl.
    rewrite Nat.sub_diag. by destruct first. }
  rewrite settle_app, length_app, Nat.add_1_r, <- app_assoc. simpl. rewrite lookup_middle. simpl.
  assert (forall m' first w1, exists f kept w' K', settle P w1 = (f, kept, w') /\
            K' ≡ₚ (kept ++ [m']) ++ K /\
            release_loop registry (length P) (P ++ m' :: K ++ T) (S (length P + length K)) first w1 =
              Some (first_status first f, K' ++ replicate (S (length P + length K) - length K')
                      zero_module ++ T, length K', w')) as Hkeep.
  { intros m' first' w1. destruct (IH (m' :: K) T first' w1) as (f & kept & w' & K' & Hs & HK & Hl).
    simpl in Hl. rewrite Nat.add_succ_r in Hl. exists f, kept, w', K'. by rewrite <- app_assoc. }
  destruct (module_well_formed m) eqn:Hm; simpl.
  2: { destruct (Hkeep m (first_status first CMETA_PLUGIN_INVALID_ARGUMENT) w)
         as (f & kept & w' & K' & Hs & HK & Hl). rewrite Hs.
       eexists _, _, _, K'. split_and!; [done|exact HK|]. rewrite Hl, first_status_assoc. done. }
  destruct (lr_release registry (mo_lease m) w) as [[status lease] w1]. case_bool_decide as Hst; simpl.
  2: { rewrite insert_middle. set (m' := mk_module _ _ _).
       destruct (Hkeep m' (first_status first status) w1) as (f & kept & w' & K' & Hs & HK & Hl).
       rewrite Hs. eexists _, _, _, K'. split_and!; [done|exact HK|]. rewrite Hl, first_status_assoc.
       done. }
  destruct (compact_spec P K T m) as (K0 & HK0 & Hc). rewrite Hc. simpl.
  destruct (IH K0 (zero_module :: T) first w1) as (f & kept & w' & K' & Hs & HK & Hl).
  rewrite Hs. eexists _, _, _, K'. split; [done|]. split; [by rewrite HK, HK0, app_nil_r|].
  rewrite <- (Permutation_length HK0), Hl. do 3 f_equal.
  assert (length K' <= length P + length K0)%nat.
  { rewrite (Permutation_length HK), length_app. pose proof (settle_length P w1 f kept w' Hs). lia. }
  by rewrite Nat.sub_succ_l, replicate_S_end, <- app_assoc by lia.
Qed.

End Release.

(** * The records of a generation *)

(** The module array is as long as the storage says. *)
Definition modules_fit (g : salts_service_host_generation) (modules : list salts_service_host_module)
    : Prop := (gs_module_capacity (gn_storage g) <= length modules)%nat.

Lemma module_tail_spec g modules :
  modules_fit g modules ->
  module_tail_is_clear g modules = true <->
  (gn_module_count g <= gs_module_capacity (gn_storage g))%nat /\
  (gs_module_capacity (gn_storage g) <> 0%nat -> is_Some (gs_modules (gn_storage g))) /\
  forall i m, (gn_module_count g <= i < gs_module_capacity (gn_storage g))%nat ->
    modules !! i = Some m -> module_is_clear m = true.
Proof.
  unfold modules_fit, module_tail_is_clear. intros Hfit. destruct (_ <? _)%nat eqn:Hlt.
  { apply Nat.ltb_lt in Hlt. split; [done|]. intros [? _]. lia. }
  apply Nat.ltb_ge in Hlt. destruct (_ =? 0)%nat eqn:Hz.
  { apply Nat.eqb_eq in Hz. rewrite Nat.eqb_eq. rewrite Hz in *. split; [intros; split_and!; lia|lia]. }
  apply Nat.eqb_neq in Hz. destruct (is_null _) eqn:Hn.
  { apply is_null_true in Hn. rewrite Hn. split; [done|]. intros (_ & [? ?] & _); [done|done]. }
  apply is_null_false in Hn. rewrite forallb_upto_true, length_drop. split.
  - intros [_ Hall]. split_and!; [done|done|]. intros i m Hi Hm.
    apply (Hall (i - gn_module_count g)%nat); [lia|]. rewrite lookup_drop. by replace (_ + _)%nat with i by lia.
  - intros (_ & _ & Hall). split; [lia|]. intros i m Hi Hm. rewrite lookup_drop in Hm.
    apply (Hall (gn_module_count g + i)%nat); [lia|done].
Qed.

Section Modules.
  Context {W : Type} `{LR : LeaseRegistry W}.

(** [release_modules] on a table whose tail is clear is [settle]: the kept
    records are the first ones, in some order, and the places after them are
    clear. *)
Lemma release_modules_rule g modules w :
  modules_fit g modules -> module_tail_is_clear g modules = true ->
  exists f kept w' kept',
    settle (gn_registry g) (take (gn_module_count g) modules) w = (f, kept, w') /\ kept' ≡ₚ kept /\
    release_modules (Some g) modules w =
      Some (f, Some (set_gn_module_count (length kept') g),
            kept' ++ replicate (gn_module_count g - length kept') zero_module ++
              drop (gn_module_count g) modules, w') /\
    module_tail_is_clear (set_gn_module_count (length kept') g)
      (kept' ++ replicate (gn_module_count g - length kept') zero_module ++
         drop (gn_module_count g) modules) = true.
Proof.
  intros Hfit Htail. pose proof (proj1 (module_tail_spec g modules Hfit) Htail) as (Hle & Hptr & Hclear).
  unfold modules_fit in Hfit. set (n := gn_module_count g) in *.
  destruct (release_loop_spec (gn_registry g) (take n modules) [] (drop n modules) CMETA_PLUGIN_OK w)
    as (f & kept & w' & kept' & Hs & Hk & Hloop).
  rewrite length_take, Nat.min_l, app_nil_l, Nat.add_0_r, take_drop in Hloop by lia.
  rewrite app_nil_r in Hk. exists f, kept, w', kept'. split_and!; [done|done| |].
  - unfold release_modules. fold n. rewrite Htail, (proj2 (Nat.ltb_ge _ _)) by done. cbn [orb negb].
    unfold module_records_are_clear. fold n. rewrite Htail, andb_true_r.
    destruct (n =? 0)%nat eqn:Hn; cbn [negb andb].
    + by rewrite Hloop.
    + apply Nat.eqb_neq in Hn. destruct Hptr as [p ->]; [lia|]. simpl. by rewrite Hloop.
  - pose proof (settle_length _ _ _ _ _ _ Hs) as Hlen.
    rewrite length_take, Nat.min_l, <- (Permutation_length Hk) in Hlen by lia.
    apply module_tail_spec; simpl.
    { unfold modules_fit. simpl. rewrite !length_app, length_replicate, length_drop. lia. }
    split_and!; [lia|done|]. intros i m Hi Hm. rewrite lookup_app_r in Hm by lia.
    destruct (decide (i < n)%nat).
    + rewrite lookup_app_l in Hm by (rewrite length_replicate; lia). by apply lookup_replicate in Hm as [-> _].
    + rewrite lookup_app_r in Hm by (rewrite length_replicate; lia).
      rewrite length_replicate, lookup_drop in Hm. apply (Hclear i); [lia|].
      rewrite <- Hm. f_equal. lia.
Qed.

(** A successful release leaves no record. *)
Lemma release_modules_ok g modules w f g' modules' w' :
  modules_fit g modules ->
  release_modules (Some g) modules w = Some (f, g', modules', w') ->
  length modules' = length modules /\
  (exists n, g' = Some (set_gn_module_count n g) /\ (n <= gn_module_count g)%nat /\
     (f = CMETA_PLUGIN_OK -> n = 0%nat)) /\
  (module_tail_is_clear g modules = true ->
   exists g1, g' = Some g1 /\ module_tail_is_clear g1 modules' = true).
Proof.
  intros Hfit Hr. destruct (module_tail_is_clear g modules) eqn:Htail.
  - destruct (release_modules_rule g modules w Hfit Htail) as (f1 & kept & w1 & kept' & Hs & Hk & Hr' & Ht).
    rewrite Hr in Hr'. simplify_eq. pose proof (settle_length _ _ _ _ _ _ Hs) as Hlen.
    pose proof (proj1 (module_tail_spec g modules Hfit) Htail) as (Hle & _). unfold modules_fit in Hfit.
    rewrite length_take, Nat.min_l in Hlen by lia.
    split_and!.
    + rewrite !length_app, length_replicate, length_drop, (Permutation_length Hk). lia.
    + exists (length kept'). split_and!; [done|by rewrite (Permutation_length Hk)|].
      intros ->. rewrite (Permutation_length Hk). by rewrite (proj1 (settle_ok _ _ _ _ _ _ Hs)).
    + eauto.
  - unfold release_modules in Hr. rewrite Htail in Hr.
    assert ((f, g', modules', w') = (CMETA_PLUGIN_INVALID_ARGUMENT, Some g, modules, w)) as Heq
      by (destruct (_ || _); simplify_eq/=; done).
    simplify_eq. split_and!; [done| |done]. exists (gn_module_count g). by destruct g.
Qed.

End Modules.

(** * What the registry promises

    A registry in a sound state grants a new, well-formed lease on the plugin
    asked for, keeps it until it is given back, and takes back a lease it holds. *)
Class LeaseLaws (W : Type) `{LeaseRegistry W} := {
  registry_ok : W -> Prop;
  lease_held : option addr -> cmeta_plugin_lease -> W -> Prop;
  ref_ok : cmeta_plugin_ref -> Prop;
  lease_acquired registry ref w status lease manifest w' :
    registry_ok w -> ref_ok ref ->
    lr_acquire registry ref w = (status, lease, manifest, w') ->
    registry_ok w' /\ (forall r l, lease_held r l w -> lease_held r l w') /\
    (status = CMETA_PLUGIN_OK ->
     cmeta_plugin_lease_valid lease = true /\ le_plugin lease = ref /\ is_Some manifest /\
     lease_held registry lease w' /\ ~ lease_held registry lease w);
  lease_released registry lease w :
    registry_ok w -> lease_held registry lease w -> cmeta_plugin_lease_valid lease = true ->
    exists l w', lr_release registry lease w = (CMETA_PLUGIN_OK, l, w') /\ registry_ok w' /\
      forall r k, lease_held r k w' <-> lease_held r k w /\ (r, k) <> (registry, lease);
}.

(** Code that leaves the registries sound and gives back no lease of others. *)
Record keeps_leases {W : Type} `{LeaseLaws W} (w w' : W) : Prop := {
  kl_registry : registry_ok w -> registry_ok w';
  kl_held : forall r l, lease_held r l w -> lease_held r l w';
}.

#[export] Instance keeps_leases_preorder {W : Type} `{LeaseLaws W} : PreOrder keeps_leases.
Proof.
  split; [by split; auto|]. intros w1 w2 w3 [Ho1 Hl1] [Ho2 Hl2]. split; auto.
Qed.

(** * Admission *)

(** The plugins the records are for. *)
Definition module_refs (g : salts_service_host_generation) (modules : list salts_service_host_module)
    : list cmeta_plugin_ref := mo_plugin <$> take (gn_module_count g) modules.

Lemma find_module_spec g modules ref :
  match find_module g modules ref with
  | Some i => exists m, (i < gn_module_count g)%nat /\ modules !! i = Some m /\ mo_plugin m = ref
  | None => ref ∉ module_refs g modules
  end.
Proof.
  unfold find_module. destruct (find_below _ _) as [i|] eqn:Hf.
  - apply find_below_Some in Hf as (Hi & Ht & _). destruct (modules !! i) as [m|]; [|done].
    apply plugin_ref_equal_true in Ht. by exists m.
  - rewrite find_below_None in Hf. unfold module_refs. rewrite list_elem_of_fmap.
    intros (m & -> & Hm). apply list_elem_of_lookup in Hm as [i [Hm Hi]%lookup_take_Some].
    specialize (Hf i Hi). rewrite Hm in Hf. apply not_true_iff_false in Hf. apply Hf.
    by apply plugin_ref_equal_true.
Qed.

Lemma module_refs_add g modules m :
  (gn_module_count g < length modules)%nat ->
  module_refs (set_gn_module_count (S (gn_module_count g)) g) (<[gn_module_count g := m]> modules) =
    module_refs g modules ++ [mo_plugin m].
Proof.
  intros Hlt. unfold module_refs. simpl. erewrite take_S_r by (by apply list_lookup_insert_eq).
  by rewrite fmap_app, take_insert_ge by done.
Qed.

(** Everything in a generation but its state, failure and module count. *)
Definition bundle_of (g : salts_service_host_generation) :=
  (gn_id g, gn_registry g, gn_components g, gn_storage g, gn_deployment_count g,
   gn_runtime_owner g, gn_active_scopes g).

(** Admission stopped with the state [FAILED]; the leases are untouched. *)
Definition fails (g g' : salts_service_host_generation) : Prop :=
  exists f, g' = set_gn_state SALTS_SERVICE_HOST_GENERATION_FAILED (set_gn_failure f g).

Section Admit.
  Context {W : Type} `{LeaseLaws W}.

(** Every record names a lease the registry holds, one per plugin, and nothing
    hides behind the records. *)
Record leases_owned (g : salts_service_host_generation) (modules : list salts_service_host_module)
    (w : W) : Prop := {
  lo_fit : modules_fit g modules;
  lo_tail : module_tail_is_clear g modules = true;
  lo_distinct : NoDup (module_refs g modules);
  lo_records : forall i m, (i < gn_module_count g)%nat -> modules !! i = Some m ->
    module_well_formed m = true /\ lease_held (gn_registry g) (mo_lease m) w;
  lo_registry : registry_ok w;
}.

Lemma leases_owned_kept g modules w w' :
  leases_owned g modules w -> keeps_leases w w' -> leases_owned g modules w'.
Proof. intros [] [Hok Hheld]. split; [done..| |auto]. naive_solver. Qed.

(** Assignments to other fields do not matter. *)
Lemma leases_owned_same g g' modules w :
  leases_owned g modules w -> gn_registry g' = gn_registry g -> gn_storage g' = gn_storage g ->
  gn_module_count g' = gn_module_count g -> leases_owned g' modules w.
Proof.
  intros [] Hr Hs Hc. unfold modules_fit, module_tail_is_clear, module_refs in *.
  split; unfold modules_fit, module_tail_is_clear, module_refs; by rewrite ?Hr, ?Hs, ?Hc.
Qed.

Lemma leases_owned_fails g g' modules w :
  leases_owned g modules w -> fails g g' -> leases_owned g' modules w.
Proof. intros Ho [f ->]. by eapply leases_owned_same. Qed.

(** A fresh record that names no lease is cleared. *)
Lemma leases_owned_refused g modules w w' :
  leases_owned g modules w -> (gn_module_count g < gs_module_capacity (gn_storage g))%nat ->
  keeps_leases w w' -> leases_owned g (<[gn_module_count g := zero_module]> modules) w'.
Proof.
  intros Ho Hlt Hk. destruct (leases_owned_kept _ _ _ _ Ho Hk) as [Hfit Htail Hnd Hrec Hreg].
  assert (modules_fit g (<[gn_module_count g := zero_module]> modules)) as Hfit'
    by (unfold modules_fit in *; by rewrite length_insert).
  unfold modules_fit in Hfit. split; [done| | | |done].
  - apply module_tail_spec in Htail as (Hle & Hptr & Hclear); [|done].
    apply module_tail_spec; [done|]. split_and!; [done|done|]. intros i m Hi.
    rewrite list_lookup_insert by lia. case_decide; [by intros [= <-]|by apply Hclear].
  - unfold module_refs. by rewrite take_insert_ge.
  - intros i m Hi. rewrite list_lookup_insert_ne by lia. by apply Hrec.
Qed.

Lemma leases_owned_added g modules w w' ref lease manifest :
  leases_owned g modules w -> (gn_module_count g < gs_module_capacity (gn_storage g))%nat ->
  ref ∉ module_refs g modules -> keeps_leases w w' ->
  cmeta_plugin_lease_valid lease = true -> le_plugin lease = ref -> is_Some manifest ->
  lease_held (gn_registry g) lease w' ->
  leases_owned (set_gn_module_count (S (gn_module_count g)) g)
    (<[gn_module_count g := mk_module ref lease manifest]> modules) w'.
Proof.
  intros Ho Hlt Hnew Hk Hv Hle [m Hm] Hheld.
  destruct (leases_owned_kept _ _ _ _ Ho Hk) as [Hfit Htail Hnd Hrec Hreg].
  set (g' := set_gn_module_count _ g). set (record := mk_module ref lease manifest).
  assert (modules_fit g' (<[gn_module_count g := record]> modules)) as Hfit'
    by (unfold modules_fit in *; by rewrite length_insert).
  unfold modules_fit in Hfit. split; [done| | | |done].
  - apply module_tail_spec in Htail as (Hcap & Hptr & Hclear); [|done].
    apply module_tail_spec; [done|]. simpl. split_and!; [lia|done|]. intros i x Hi.
    rewrite list_lookup_insert_ne by lia. apply Hclear. lia.
  - unfold g'. rewrite module_refs_add by lia. apply NoDup_app. split_and!; [done| |by apply NoDup_singleton].
    intros x Hx Hx'. apply list_elem_of_singleton in Hx' as ->. by apply Hnew.
  - intros i x Hi. simpl in Hi. destruct (decide (i = gn_module_count g)) as [->|Hne].
    + rewrite list_lookup_insert_eq by lia. intros [= <-]. split; [|done].
      unfold module_well_formed. simpl. rewrite Hv, Hm, Hle.
      rewrite (proj2 (plugin_ref_equal_true ref ref) eq_refl).
      destruct (plugin_lease_is_zero lease) eqn:Hz; [|done]. exfalso.
      unfold plugin_lease_is_zero in Hz. unfold cmeta_plugin_lease_valid, cmeta_plugin_ref_valid in Hv.
      destruct_bools. congruence.
    + rewrite list_lookup_insert_ne by done. apply Hrec. lia.
Qed.

(** Admission goes from one table to another: old records stay, and a new one
    names a lease that was not held before. *)
Record leases_grow (g : salts_service_host_generation) (modules : list salts_service_host_module)
    (w : W) (g' : salts_service_host_generation) (modules' : list salts_service_host_module) (w' : W)
    : Prop := {
  lg_owned : leases_owned g' modules' w';
  lg_keeps : keeps_leases w w';
  lg_length : length modules' = length modules;
  lg_bundle : bundle_of g' = bundle_of g;
  lg_fresh : forall i m, (i < gn_module_count g')%nat -> modules' !! i = Some m ->
    (i < gn_module_count g)%nat /\ modules !! i = Some m \/
    ~ lease_held (gn_registry g) (mo_lease m) w;
}.

Lemma leases_grow_kept g modules w w' :
  leases_owned g modules w -> keeps_leases w w' -> leases_grow g modules w g modules w'.
Proof. intros Ho Hk. split; [by eapply leases_owned_kept|done..|by left]. Qed.

Lemma leases_grow_trans g1 ms1 w1 g2 ms2 w2 g3 ms3 w3 :
  leases_grow g1 ms1 w1 g2 ms2 w2 -> leases_grow g2 ms2 w2 g3 ms3 w3 ->
  leases_grow g1 ms1 w1 g3 ms3 w3.
Proof.
  intros [] []. split; [done|by etrans|congruence|congruence|]. intros i m Hi Hm.
  destruct (lg_fresh1 i m Hi Hm) as [[Hi2 Hm2]|Hnew]; [by apply lg_fresh0|right].
  intros Hheld. apply Hnew. assert (gn_registry g2 = gn_registry g1) as ->.
  { unfold bundle_of in lg_bundle0. by injection lg_bundle0. }
  by apply (kl_held _ _ lg_keeps0).
Qed.

Lemma leases_grow_fails g modules w g1 modules1 w1 g2 :
  leases_grow g modules w g1 modules1 w1 -> fails g1 g2 -> leases_grow g modules w g2 modules1 w1.
Proof.
  intros [] Hf. split; [by eapply leases_owned_fails|done|done| |]; destruct Hf as [f ->]; [|done].
  by rewrite <- lg_bundle0.
Qed.

(** [acquire_module] finds the plugin's record, adds one, or fails. *)
Lemma acquire_module_rule g modules index ref w :
  leases_owned g modules w -> ref_ok ref ->
  exists status i g' modules' w',
    acquire_module g modules index ref w = Some (status, i, g', modules', w') /\
    leases_grow g modules w g' modules' w' /\
    match status with
    | SALTS_SERVICE_HOST_OK =>
        (exists m k, i = Some k /\ modules' !! k = Some m) /\
        (g' = g /\ modules' = modules /\ (ref ∈ module_refs g modules) \/
         g' = set_gn_module_count (S (gn_module_count g)) g /\ (ref ∉ module_refs g modules) /\
         module_refs g' modules' = module_refs g modules ++ [ref])
    | SALTS_SERVICE_HOST_CAPACITY_EXCEEDED =>
        (ref ∉ module_refs g modules) /\
        (gs_module_capacity (gn_storage g) <= gn_module_count g)%nat
    | SALTS_SERVICE_HOST_PLUGIN_ERROR => fails g g'
    | _ => False
    end.
Proof.
  intros Ho Href. unfold acquire_module. pose proof (find_module_spec g modules ref) as Hf.
  pose proof (lo_fit _ _ _ Ho) as Hfit. unfold modules_fit in Hfit.
  assert (leases_grow g modules w g modules w) as Hsame by (by apply leases_grow_kept).
  destruct (find_module g modules ref) as [k|].
  { destruct Hf as (m & Hk & Hm & Hp). eexists _, _, _, _, _. split; [done|]. split; [done|].
    split; [by exists m, k|]. left. split_and!; [done|done|]. apply list_elem_of_fmap. exists m. split; [done|].
    apply list_elem_of_lookup. exists k. by rewrite lookup_take_lt. }
  destruct (_ <=? gn_module_count g)%nat eqn:Hcap.
  { apply Nat.leb_le in Hcap. by eexists _, _, _, _, _. }
  apply Nat.leb_gt in Hcap. rewrite (proj2 (Nat.leb_gt _ _)) by lia.
  destruct (lr_acquire _ _ _) as [[[status lease] manifest] w'] eqn:Hacq.
  destruct (lease_acquired _ _ _ _ _ _ _ (lo_registry _ _ _ Ho) Href Hacq) as (Hreg & Hheld & Hgrant).
  assert (keeps_leases w w') as Hk by (by split).
  case_bool_decide as Hst; simpl.
  - destruct (Hgrant Hst) as (Hv & Hle & Hm & Hl & Hnew). eexists _, _, _, _, _. split; [done|]. split.
    + split; [by apply (leases_owned_added g modules w)|done|by rewrite length_insert|done|].
      intros i m Hi. simpl in Hi. rewrite list_lookup_insert by lia.
      case_decide; [by intros [= <-]; right|]. left. split; [lia|done].
    + split; [eexists _, _; split; [done|]; apply list_lookup_insert_eq; lia|].
      right. split_and!; [done|done|]. by rewrite module_refs_add by lia.
  - eexists _, _, _, _, _. split; [done|]. split; [|by eexists].
    eapply leases_grow_fails; [|by eexists]. split; [by eapply leases_owned_refused|done| |done|].
    + by rewrite length_insert.
    + intros i m Hi. rewrite list_lookup_insert_ne by lia. by left.
Qed.

(** * Giving back owned leases *)

Lemma module_well_formed_spec m :
  module_well_formed m = true -> cmeta_plugin_lease_valid (mo_lease m) = true /\
    le_plugin (mo_lease m) = mo_plugin m.
Proof. unfold module_well_formed. intros Hm. destruct_bools. by rewrite plugin_ref_equal_true in *. Qed.

(** Held leases of distinct plugins are all taken back, and no other. *)
Lemma settle_owned registry l w :
  registry_ok w -> NoDup (mo_plugin <$> l) ->
  (forall m, m ∈ l -> module_well_formed m = true /\ lease_held registry (mo_lease m) w) ->
  exists w', settle registry l w = (CMETA_PLUGIN_OK, [], w') /\ registry_ok w' /\
    forall r k, lease_held r k w' <->
      lease_held r k w /\ forall m, m ∈ l -> (r, k) <> (registry, mo_lease m).
Proof.
  induction l as [|m l IH]; intros Hok Hnd Hall.
  { exists w. split_and!; [done|done|]. intros r k. split; [|by intros []].
    intros Hh. split; [done|]. by intros m Hm%elem_of_nil. }
  simpl in Hnd. apply NoDup_cons in Hnd as [Hm Hnd].
  destruct IH as (w1 & Hs & Hok1 & Hheld1); [done|done|intros x Hx; apply Hall; by right|].
  destruct (Hall m) as [Hwf Hheld]; [by left|].
  pose proof (module_well_formed_spec m Hwf) as [Hv Hp].
  destruct (lease_released registry (mo_lease m) w1 Hok1) as (k & w2 & Hr & Hok2 & Hheld2); [|done|].
  { apply Hheld1. split; [done|]. intros x Hx [= Heq]. apply Hm. apply list_elem_of_fmap.
    exists x. split; [|done]. destruct (Hall x) as [Hxwf _]; [by right|].
    destruct (module_well_formed_spec x Hxwf) as [_ Hxp]. congruence. }
  exists w2. split_and!; [by simpl; rewrite Hs, Hwf, Hr|done|].
  intros r j. rewrite Hheld2, Hheld1. split.
  - intros [[Hh Hl] Hne]. split; [done|]. intros x [->|Hx]%elem_of_cons; [done|by apply Hl].
  - intros [Hh Hl]. split_and!; [done| |apply Hl; by left]. intros x Hx. apply Hl. by right.
Qed.

(** A generation that owns its leases gives all of them back. *)
Lemma release_owned g modules w :
  leases_owned g modules w ->
  exists modules' w', release_modules (Some g) modules w =
      Some (CMETA_PLUGIN_OK, Some (set_gn_module_count 0 g), modules', w') /\
    length modules' = length modules /\ registry_ok w' /\
    module_tail_is_clear (set_gn_module_count 0 g) modules' = true /\
    forall r k, lease_held r k w' <-> lease_held r k w /\
      forall i m, (i < gn_module_count g)%nat -> modules !! i = Some m ->
        (r, k) <> (gn_registry g, mo_lease m).
Proof.
  intros Ho. pose proof (lo_fit _ _ _ Ho) as Hfit. pose proof (lo_tail _ _ _ Ho) as Htail.
  destruct (release_modules_rule g modules w Hfit Htail) as (f & kept & w' & kept' & Hs & Hk & Hr & Ht).
  destruct (settle_owned (gn_registry g) (take (gn_module_count g) modules) w)
    as (w1 & Hs1 & Hok & Hheld).
  - apply (lo_registry _ _ _ Ho).
  - apply (lo_distinct _ _ _ Ho).
  - intros m Hm. apply list_elem_of_lookup in Hm as [i [Hm Hi]%lookup_take_Some].
    by apply (lo_records _ _ _ Ho i).
  - rewrite Hs in Hs1. simplify_eq. apply Permutation_nil_r in Hk as ->. simpl in *.
    eexists _, _. split; [exact Hr|]. split_and!; [|done|done|].
    + apply module_tail_spec in Htail as (Hle & _); [|done]. unfold modules_fit in Hfit.
      rewrite length_app, length_replicate, length_drop. lia.
    + intros r k. rewrite Hheld. split; intros [Hh Hl]; (split; [done|]).
      * intros i m Hi Hm. apply Hl. apply list_elem_of_lookup. exists i. by rewrite lookup_take_lt.
      * intros m Hm. apply list_elem_of_lookup in Hm as [i [Hm Hi]%lookup_take_Some]. by apply (Hl i).
Qed.

End Admit.

(** A found export is a row of the manifest. *)
Lemma found_export manifest id :
  match cmeta_plugin_manifest_find_export manifest id with
  | (CMETA_PLUGIN_OK, found) =>
      exists m i e, manifest = Some m /\ found = Some i /\ pm_rows m !! i = Some e
  | _ => True
  end.
Proof.
  unfold cmeta_plugin_manifest_find_export. case_if; [done|].
  destruct (cmeta_plugin_manifest_validate manifest) eqn:Hv; try done.
  destruct manifest as [m|]; [|done]. destruct (find_below _ _) as [i|] eqn:Hf; [|done].
  apply find_below_Some in Hf as (_ & He & _). destruct (pm_rows m !! i) as [e|] eqn:Hrow; [|done].
  by exists m, i, e.
Qed.

(** The provider calls of an admission. *)
Class ProviderFrame (W : Type) `{LeaseLaws W} `{ServiceProviders W} := {
  get_binding_keeps f self w : keeps_leases w (sp_get_binding f self w).2;
}.

Section Sources.
  Context {W : Type} `{ProviderFrame W}.

Lemma admit_export_rule g index source entry w :
  exists status d g' w', admit_export g index source entry w = Some (status, d, g', w') /\
    keeps_leases w w' /\
    match status with
    | SALTS_SERVICE_HOST_OK => g' = g /\ is_Some d
    | SALTS_SERVICE_HOST_PLUGIN_ERROR | SALTS_SERVICE_HOST_PROVIDER_ERROR => fails g g'
    | _ => False
    end.
Proof.
  unfold admit_export. case_bool_decide; simpl.
  2: { eexists _, _, _, _. split_and!; [done|done|by eexists]. }
  destruct (salts_service_host_provider_valid _) eqn:Hv; simpl.
  2: { eexists _, _, _, _. split_and!; [done|done|by eexists]. }
  destruct (ie_value _) as [a|]; [|done]. simpl in *.
  unfold salts_service_host_provider_get_binding, salts_service_host_provider_valid in *. simpl.
  destruct (hp_vtable _) as [v|]; [|by destruct (negb _)]. simpl.
  destruct (vt_get_binding v) as [f|]; [|by destruct (negb _)]. simpl.
  pose proof (get_binding_keeps f (hp_self (sp_object a w)) w) as Hk.
  destruct (sp_get_binding _ _ _) as [binding w']. simpl in Hk.
  destruct (salts_configurator_provider_binding_valid binding); simpl.
  2: { eexists _, _, _, _. split_and!; [done|done|by eexists]. }
  destruct (service_host_dynamic_component_abi_valid _); simpl; eexists _, _, _, _;
    (split_and!; [done|done|]); [by eauto|by eexists].
Qed.

Lemma admit_dynamic_source_rule g modules index source w :
  leases_owned g modules w -> source_named source = true -> ref_ok (src_plugin source) ->
  exists status d g' modules' w',
    admit_dynamic_source g modules index source w = Some (status, d, g', modules', w') /\
    leases_grow g modules w g' modules' w' /\
    match status with
    | SALTS_SERVICE_HOST_OK =>
        is_Some d /\
        (g' = g /\ module_refs g' modules' = module_refs g modules /\
           (src_plugin source ∈ module_refs g modules) \/
         g' = set_gn_module_count (S (gn_module_count g)) g /\
           (src_plugin source ∉ module_refs g modules) /\
           module_refs g' modules' = module_refs g modules ++ [src_plugin source])
    | SALTS_SERVICE_HOST_CAPACITY_EXCEEDED =>
        (src_plugin source ∉ module_refs g modules) /\
        (gs_module_capacity (gn_storage g) <= gn_module_count g)%nat
    | SALTS_SERVICE_HOST_PLUGIN_ERROR | SALTS_SERVICE_HOST_PROVIDER_ERROR =>
        gn_state g' = SALTS_SERVICE_HOST_GENERATION_FAILED
    | _ => False
    end.
Proof.
  intros Ho Hs Href. unfold admit_dynamic_source. rewrite Hs. simpl.
  destruct (acquire_module_rule g modules index (src_plugin source) w Ho Href)
    as (status & k & g1 & modules1 & w1 & -> & Hgrow & Hcase). simpl.
  case_bool_decide as Hok; simpl.
  2: { eexists _, _, _, _, _. split; [done|]. split; [done|].
       destruct status; try done. by destruct Hcase as [? ->]. }
  subst status. destruct Hcase as ((m & i & -> & Hm) & Hrefs). simpl. rewrite Hm. simpl.
  pose proof (found_export (mo_manifest m) (src_export_id source)) as Hfound.
  destruct (cmeta_plugin_manifest_find_export _ _) as [[] found];
    try (eexists _, _, _, _, _; split; [done|]; split; [|done];
         eapply leases_grow_fails; [done|by eexists]).
  destruct Hfound as (manifest & j & entry & -> & -> & Hrow). simpl. rewrite Hrow. simpl.
  destruct (admit_export_rule g1 index source entry w1) as (status & d & g2 & w2 & -> & Hk2 & Hcase).
  simpl. eexists _, _, _, _, _. split; [done|].
  assert (leases_grow g modules w g1 modules1 w2) as Hgrow2
    by (eapply leases_grow_trans; [done|apply leases_grow_kept; [apply Hgrow|done]]).
  destruct status; try done; [|split; [by eapply leases_grow_fails|by destruct Hcase as [? ->]]..].
  destruct Hcase as [-> Hd]. split; [done|]. split; [done|].
  destruct Hrefs as [(-> & -> & ?)|?]; [left|right]; naive_solver.
Qed.

(** The sources admitted so far are the plugins of the records. *)
Definition refs_of (sources : list salts_service_host_source) : list cmeta_plugin_ref :=
  src_plugin <$> sources.

Lemma seen_spec s before :
  existsb (fun b => plugin_ref_equal (src_plugin s) (src_plugin b)) before = true <->
  src_plugin s ∈ refs_of before.
Proof.
  rewrite existsb_exists. unfold refs_of. rewrite list_elem_of_fmap. split.
  - intros (b & Hb & He%plugin_ref_equal_true). exists b. by rewrite list_elem_of_In.
  - intros (b & He & Hb). exists b. by rewrite <- list_elem_of_In, plugin_ref_equal_true.
Qed.

Lemma preflight_loop_le before rest distinct count d :
  preflight_loop before rest distinct count = Some (inr d) -> (distinct <= d)%nat.
Proof.
  revert before rest distinct. induction count as [|count IH]; intros before rest distinct; simpl.
  - intros [= ->]. lia.
  - destruct rest as [|s rest]; [done|]. case_if; [done|]. case_if; [apply IH|]. case_if; [done|].
    intros Hd%IH. lia.
Qed.

(** After a preflight that fits the module capacity, admission never runs out of
    records: it admits every source or stops with a plugin or provider error. *)
Lemma admit_sources_rule before rest count distinct d g modules deployments static_count w :
  preflight_loop before rest distinct count = Some (inr d) ->
  (d <= gs_module_capacity (gn_storage g))%nat -> gn_module_count g = distinct ->
  (forall ref, ref ∈ module_refs g modules <-> ref ∈ refs_of before) ->
  leases_owned g modules w -> Forall ref_ok (refs_of (take count rest)) ->
  (static_count + length before + count <= length deployments)%nat ->
  exists status g' modules' deployments' w',
    admit_sources g modules deployments static_count (length before) rest count w =
      Some (status, g', modules', deployments', w') /\
    leases_grow g modules w g' modules' w' /\ length deployments' = length deployments /\
    match status with
    | SALTS_SERVICE_HOST_OK =>
        (exists n, g' = set_gn_module_count n g) /\
        forall ref, ref ∈ module_refs g' modules' <-> ref ∈ refs_of (before ++ take count rest)
    | SALTS_SERVICE_HOST_PLUGIN_ERROR | SALTS_SERVICE_HOST_PROVIDER_ERROR =>
        gn_state g' = SALTS_SERVICE_HOST_GENERATION_FAILED
    | _ => False
    end.
Proof.
  revert before rest distinct g modules deployments w.
  induction count as [|count IH]; intros before rest distinct g modules deployments w; simpl.
  { intros _ _ _ Hrefs Ho _ _. eexists _, _, _, _, _. split_and!; [done|by apply leases_grow_kept|done|].
    rewrite app_nil_r. split; [|done]. exists (gn_module_count g). by destruct g. }
  destruct rest as [|s rest]; [done|]. destruct (source_named s) eqn:Hs; [|done]. simpl.
  intros Hpre Hcap Hdist Hrefs Ho Htyped Hlen.
  apply Forall_cons in Htyped as [Hty Htyped].
  destruct (admit_dynamic_source_rule g modules (length before) s w Ho Hs Hty)
    as (status & dep & g1 & modules1 & w1 & -> & Hgrow & Hcase). simpl.
  pose proof (seen_spec s before) as Hseen.
  specialize (fun distinct' dp => IH (before ++ [s]) rest distinct' g1 modules1
    (<[(static_count + length before)%nat:=dp]> deployments) w1) as IH.
  rewrite length_app, Nat.add_1_r, <- app_assoc in IH. setoid_rewrite length_insert in IH.
  destruct (existsb _ before) eqn:Hse.
  - assert (src_plugin s ∈ module_refs g modules) as Hin by (by apply Hrefs, Hseen).
    case_bool_decide as Hok; simpl.
    2: { eexists _, _, _, _, _. split_and!; [done..|]. destruct status; try done. by destruct Hcase. }
    subst status. destruct Hcase as [[dp ->] [(-> & Hr1 & _)|(_ & Hnin & _)]]; [|by destruct Hnin].
    rewrite (proj2 (Nat.leb_gt _ _)) by lia. simpl.
    destruct (IH distinct dp) as (status & g' & modules' & deployments' & w' & Hr & Hgrow' & Hld & Hres);
      try done.
    { intros ref. rewrite Hr1, Hrefs. unfold refs_of. rewrite fmap_app, elem_of_app. simpl.
      rewrite list_elem_of_singleton. split; [by left|]. intros [?| ->]; [done|by apply Hseen]. }
    { apply Hgrow. }
    { lia. }
    eexists _, _, _, _, _. split_and!; [exact Hr|by eapply leases_grow_trans|done|done].
  - destruct (Z.of_nat distinct =? SIZE_MAX); [done|].
    pose proof (preflight_loop_le _ _ _ _ _ Hpre) as Hle.
    assert (src_plugin s ∉ module_refs g modules) as Hnin
      by (rewrite Hrefs; intros ?%Hseen; congruence).
    case_bool_decide as Hok; simpl.
    2: { eexists _, _, _, _, _. split_and!; [done..|]. destruct status; try done.
         destruct Hcase as [_ Hfull]. lia. }
    subst status. destruct Hcase as [[dp ->] [(_ & _ & Hin)|(-> & _ & Hr1)]]; [done|].
    rewrite (proj2 (Nat.leb_gt _ _)) by lia. simpl.
    destruct (IH (S distinct) dp) as (status & g' & modules' & deployments' & w' & Hr & Hgrow' & Hld & Hres);
      try done.
    { simpl. by rewrite Hdist. }
    { intros ref. rewrite Hr1, elem_of_app, Hrefs. unfold refs_of. by rewrite fmap_app, elem_of_app. }
    { apply Hgrow. }
    { lia. }
    eexists _, _, _, _, _. split_and!; [exact Hr|by eapply leases_grow_trans|done|done].
Qed.

End Sources.
