(* ===== verification/ServiceHostBuild.v ===== *)
(** The ServiceHost checks a generation again before it publishes or drains it,
    with its own code.  That check is the Configurator's check of an active plan,
    together with the identity of the arrays and the lease records.

    Building, discarding and recovering a generation: a build either publishes a
    graph whose plan is valid and whose plugins are all leased, or leaves the
    candidate failed with exactly the leases of what it could not tear down. *)

From S2P Require Import Prelude.
From S2P Require Import CMetaType.
From S2P Require Import CMetaFunction.
From S2P Require Import CMetaInterface.
From S2P Require Import CMetaData.
From S2P Require Import CMetaOperation.
From S2P Require Import CMetaObject.
From S2P Require Import CMetaComponent.
From S2P Require Import Configurator.
From S2P Require Import ConfiguratorPlan.
From S2P Require Import ConfiguratorLifecycle.
From S2P Require Import ConfiguratorProtocol.
From S2P Require Import PluginManifest.
From S2P Require Import PluginRegistry.
From S2P Require Import ServiceHost.
From S2P Require Import ServiceHostLeases.

(** * Scans by index and by list *)

(** [for (k = 0; k < i; ++k) if (l[k] == p) return true;]. *)
Lemma scan_contains (l : list nat) i p :
  existsb (fun k => bool_decide (l !! k = Some p)) (seq 0 i) = existsb (Nat.eqb p) (take i l).
Proof.
  apply eq_true_iff_eq. rewrite !existsb_exists. split.
  - intros (k & Hk%in_seq & Hl%bool_decide_eq_true). exists p. rewrite Nat.eqb_refl. split; [|done].
    apply list_elem_of_In, list_elem_of_lookup. exists k. rewrite lookup_take_lt by lia. done.
  - intros (x & Hx%list_elem_of_In & ->%Nat.eqb_eq). apply list_elem_of_lookup in Hx as [k Hk].
    apply lookup_take_Some in Hk as [Hk Hi]. exists k. rewrite bool_decide_true by done.
    split; [apply in_seq; lia|done].
Qed.

Lemma scan_absent (l : list nat) i p :
  forall_below i (fun j => negb (bool_decide (l !! j = Some p))) =
    negb (existsb (Nat.eqb p) (take i l)).
Proof.
  rewrite <- scan_contains. unfold forall_below. induction (seq 0 i) as [|k ks IH]; [done|]. simpl.
  by rewrite IH, negb_orb.
Qed.

Lemma forall_below_ext n f g : (forall i, (i < n)%nat -> f i = g i) -> forall_below n f = forall_below n g.
Proof.
  intros Hfg. apply eq_true_iff_eq. rewrite !forall_below_true.
  split; intros Hall i Hi; [rewrite <- Hfg by done|rewrite Hfg by done]; by apply Hall.
Qed.

(** * The same checks *)

Lemma object_ref_empty_same o :
  service_host_object_ref_is_empty o = salts_configurator_object_ref_empty o.
Proof. done. Qed.

Lemma storage_detached_same c :
  service_host_configurator_storage_detached c = salts_configurator_storage_detached c.
Proof. done. Qed.

Lemma deployment_valid_same d : service_host_deployment_valid d = deployment_ok d.
Proof.
  unfold service_host_deployment_valid, deployment_ok, salts_configurator_deployment_status.
  destruct (dy_provider d) as [b|]; [|done].
  destruct (salts_configurator_provider_binding_valid (Some b)); cbn [negb]; [|done].
  destruct (pb_component b ≫= cd_config) as [config|].
  - destruct (is_null (dy_config_data d)), (is_null (dy_config_value d)),
      (cmeta_data_desc_valid (dy_config_data d)), (cmeta_data_desc_equal (Some config) (dy_config_data d));
      done.
  - by destruct (is_null (dy_config_data d)), (is_null (dy_config_value d)).
Qed.

Lemma has_role_same c i (requires : bool) :
  service_host_component_has_role c i requires =
    if requires then salts_configurator_requires c i else salts_configurator_provides c i.
Proof. by destruct requires. Qed.

Lemma slices_same n ds insts count expected :
  publishable_slices n ds insts count expected = plan_slices n true ds insts count expected.
Proof.
  revert ds insts expected. induction count as [|count IH]; intros ds insts expected; [by destruct ds|].
  destruct ds as [|d ds]; [done|]. destruct insts as [|i insts]; [done|]. simpl.
  rewrite deployment_valid_same. destruct (Nat.eqb_spec (in_dependency_offset i) expected) as [->|]; simpl.
  2: { by rewrite orb_true_r. }
  rewrite IH. rewrite orb_false_r.
  destruct (deployment_ok d), (n <? expected)%nat, (n - expected <? in_dependency_count i)%nat; simpl;
    rewrite ?orb_true_r; simpl; try done.
Qed.

Lemma tail_same c st : publishable_tail c st = tail_unused c st.
Proof. done. Qed.

Lemma order_same c st : publishable_order c st = order_distinct c st.
Proof.
  unfold publishable_order, order_distinct. apply eq_true_iff_eq.
  rewrite forall_below_true, andb_true_iff, Nat.leb_le, forallb_prev_spec. split.
  - intros Hall. split.
    + apply Nat.le_ngt. intros Hlt. specialize (Hall _ Hlt).
      destruct (so_order st !! length (so_order st)) eqn:Hl; [|done].
      apply lookup_lt_Some in Hl. lia.
    + intros k x [Hk Hlt]%lookup_take_Some. specialize (Hall k Hlt). rewrite Hk, scan_absent in Hall.
      simpl. by rewrite take_take, Nat.min_l by lia.
  - intros [Hlen Hall] i Hi. destruct (so_order st !! i) as [x|] eqn:Hx.
    2: { apply lookup_ge_None in Hx. lia. }
    rewrite scan_absent. specialize (Hall i x). simpl in Hall.
    rewrite take_take, Nat.min_l in Hall by lia. apply Hall. rewrite lookup_take_lt by lia. done.
Qed.

Lemma topological_same c st : publishable_topological c st = order_ready c st.
Proof.
  apply forall_below_ext. intros i _. destruct (so_order st !! i) as [x|]; [|done].
  unfold slice_all, salts_configurator_dependencies_ready. destruct (so_instances st !! x); [|done].
  apply forall_below_ext. intros k _. destruct (so_dependencies st !! _); [|done]. apply scan_contains.
Qed.

Lemma dependency_same c i d :
  (i < cx_deployment_count c)%nat -> publishable_dependency c i d = plan_dependency_valid c i d.
Proof.
  intros Hi. unfold publishable_dependency, plan_dependency_valid.
  destruct (cx_deployment_count c <=? dp_provider_index d)%nat eqn:Hp; [by rewrite !orb_true_r|].
  rewrite !orb_false_r. case_match; [done|].
  unfold salts_configurator_provider_at, deployment_provider.
  by rewrite Hp, (proj2 (Nat.leb_gt _ _) Hi).
Qed.

Lemma dependencies_same c st :
  forall_below (cx_deployment_count c) (fun i => slice_all st i (publishable_dependency c i)) =
    plan_dependencies_valid c st.
Proof.
  apply forall_below_ext. intros i Hi. unfold slice_all. destruct (so_instances st !! i); [|done].
  apply forall_below_ext. intros k _. destruct (so_dependencies st !! _); [|done].
  by apply dependency_same.
Qed.

(** The Configurator's notion of settled instances, for a context without an
    activation plan. *)
Lemma components_settled_same c st :
  service_host_components_settled c st =
    (cx_activation_count c =? 0)%nat &&
    negb (state_is SALTS_CONFIGURATOR_CONTEXT_ZERO c && negb (salts_configurator_storage_detached c)) &&
    salts_configurator_instances_settled c st.
Proof.
  unfold service_host_components_settled, salts_configurator_instances_settled.
  rewrite storage_detached_same. destruct (cx_activation_count c =? 0)%nat; simpl; [|done].
  assert (forall n, forallb_upto (fun i => negb (in_active i ||
            negb (service_host_object_ref_is_empty (in_object i)))) (so_instances st) n =
          forallb_upto instance_clear (so_instances st) n) as ->.
  { induction (so_instances st) as [|i insts IH]; intros [|n]; [done..|]. simpl. rewrite IH.
    by rewrite negb_orb, negb_involutive. }
  destruct (state_is SALTS_CONFIGURATOR_CONTEXT_ZERO c), (salts_configurator_storage_detached c);
    simpl; rewrite ?andb_false_r, ?andb_true_r; try done.
Qed.

(** * The whole check *)

(** The context works on exactly the arrays of the generation. *)
Record borrows_storage (g : salts_service_host_generation) : Prop := {
  bs_count : cx_deployment_count (gn_components g) = gn_deployment_count g;
  bs_deployments : (gn_deployment_count g <= gs_deployment_capacity (gn_storage g))%nat;
  bs_rows : da_addr <$> cx_deployments (gn_components g) = gs_deployments (gn_storage g);
  bs_instances : cx_instances (gn_components g) = gs_instances (gn_storage g);
  bs_instance_capacity :
    cx_instance_capacity (gn_components g) = gs_instance_capacity (gn_storage g);
  bs_dependencies : cx_dependencies (gn_components g) = gs_dependencies (gn_storage g);
  bs_dependency_capacity :
    cx_dependency_capacity (gn_components g) = gs_dependency_capacity (gn_storage g);
  bs_order : cx_activation_order (gn_components g) = gs_activation_order (gn_storage g);
  bs_activation_capacity :
    cx_activation_capacity (gn_components g) = gs_activation_capacity (gn_storage g);
}.

(** Every record names a lease, and nothing hides behind the records. *)
Record leases_recorded (g : salts_service_host_generation)
    (modules : list salts_service_host_module) : Prop := {
  lr_registry : (gn_module_count g <> 0)%nat -> is_Some (gn_registry g);
  lr_tail : module_tail_is_clear g modules = true;
  lr_records : forallb_upto module_well_formed modules (gn_module_count g) = true;
}.

Lemma publishable_rule g a :
  service_host_generation_publishable (Some g) a = true <->
  cx_state (gn_components g) = SALTS_CONFIGURATOR_CONTEXT_ACTIVE /\ borrows_storage g /\
  leases_recorded g (ga_modules a) /\
  salts_configurator_activation_plan_valid (gn_components g) (ga_graph a) true = true.
Proof.
  rewrite plan_valid_iff. unfold service_host_generation_publishable, publishable_counts,
    publishable_pointers, state_is. set (c := gn_components g). set (s := gn_storage g).
  rewrite order_same, slices_same, dependencies_same, topological_same, tail_same. split.
  - case_if; [done|]. case_if; [done|]. case_if; [done|]. intros Hrest. destruct_bools.
    destruct (plan_slices _ _ _ _ _ _) as [e|] eqn:He; [|done]. destruct_bools. subst e.
    split_and!; [done| | |].
    + split; fold c s; first [assumption|lia].
    + split; [|done|done]. intros Hn. apply is_null_false.
      rewrite (proj2 (Nat.eqb_neq _ _) Hn) in *. by destruct_bools.
    + split; try done; [lia|lia|]. unfold arrays_present.
      by repeat match goal with Hb : ?b = false |- context [?b] => rewrite Hb end.
  - intros (Hstate & Hb & Hl & Hp). destruct Hb as [b1 b2 b3 b4 b5 b6 b7 b8 b9].
    destruct Hl as [l1 l2 l3]. destruct Hp as [p1 p2 p3 p4 p5 p6 p7 p8 p9 p10 p11].
    fold c s in b1, b2, b3, b4, b5, b6, b7, b8, b9.
    rewrite l2, l3, p7, p8, p9, p10, p11, Nat.eqb_refl. simpl.
    rewrite !bool_decide_true by done.
    rewrite (proj2 (Nat.eqb_eq _ _) b1), (proj2 (Nat.eqb_eq _ _) p3), (proj2 (Nat.eqb_eq _ _) b5),
      (proj2 (Nat.eqb_eq _ _) b7), (proj2 (Nat.eqb_eq _ _) b9), !(proj2 (Nat.leb_le _ _)) by lia. simpl.
    rewrite p6. unfold arrays_present in p5. destruct_bools.
    repeat match goal with Hb : ?b = false |- context [?b] => rewrite Hb end. simpl.
    destruct (gn_module_count g =? 0)%nat eqn:Hn; [done|]. apply Nat.eqb_neq in Hn.
    destruct (l1 Hn) as [r ->]. done.
Qed.

(** [service_host_generation_publishable] accepts a generation exactly when
    its context is active with a plan that the Configurator itself accepts, the
    context works on the arrays of the generation's own storage, and every
    module record up to the count names a lease with clear records behind. *)
Theorem publishable_iff_plan_valid g a :
  service_host_generation_publishable (Some g) a = true <->
  cx_state (gn_components g) = SALTS_CONFIGURATOR_CONTEXT_ACTIVE /\ borrows_storage g /\
  leases_recorded g (ga_modules a) /\
  salts_configurator_activation_plan_valid (gn_components g) (ga_graph a) true = true.
Proof. apply publishable_rule. Qed.

(** * The arrays of a context *)

(** What [init] writes and nothing but [detach] changes. *)
Definition static_part (c : salts_configurator_context) : salts_configurator_context :=
  set_cx_state SALTS_CONFIGURATOR_CONTEXT_ZERO
    (set_cx_failure salts_configurator_failure_none (set_cx_counts 0 0 c)).

Lemma fail_state c st status phase component dependency provider :
  cx_state (salts_configurator_fail c st status phase component dependency provider).2 =
    SALTS_CONFIGURATOR_CONTEXT_FAILED.
Proof. unfold salts_configurator_fail. simpl. by destruct (_ || _). Qed.

(** The context [fail] leaves is not the one a successful call leaves. *)
Ltac failed_branch Heq Hstate :=
  exfalso;
  match type of Heq with
  | context [salts_configurator_fail ?c ?st ?s ?ph ?x ?d ?k] =>
      pose proof (fail_state c st s ph x d k) as Hfailed;
      destruct (salts_configurator_fail c st s ph x d k) as [? ?]; simpl in Hfailed, Heq; congruence
  end.

Lemma resolve_static c st status c' st' :
  salts_configurator_context_resolve (Some c) st = Some (status, Some c', st') ->
  cx_state c' = SALTS_CONFIGURATOR_CONTEXT_RESOLVED -> static_part c' = static_part c.
Proof.
  unfold salts_configurator_context_resolve. intros Hr Hstate.
  destruct (_ || _); [by injection Hr as _ <- _|]. cbn zeta in Hr.
  destruct (required_total _ _ _ _); [failed_branch Hr Hstate|].
  destruct (_ || _); [failed_branch Hr Hstate|].
  destruct (resolve_consumers _ _ _ _ _) as [[]|]; cbn [mbind option_bind] in Hr;
    [|failed_branch Hr Hstate|done].
  destruct (resolve_order _ _ _ _) as [[st2 filled]|]; cbn [mbind option_bind] in Hr; [|done].
  destruct filled; cbn [negb] in Hr; [|failed_branch Hr Hstate]. by injection Hr as _ <- _.
Qed.

Section Start.
  Context {W : Type} `{ObjectCallbacks W} `{ProviderCallbacks W}.

Lemma start_loop_static c index remaining st w status c' st' w' :
  start_loop c index remaining st w = Some (status, c', st', w') ->
  cx_state c' = SALTS_CONFIGURATOR_CONTEXT_ACTIVE -> static_part c' = static_part c.
Proof.
  intros Hl Hstate. revert index st w Hl. induction remaining as [|remaining IH]; intros index st w; cbn [start_loop].
  { by intros [= _ <- _ _]. }
  destruct (so_order st !! index) as [component|]; [|done]. cbn [mbind option_bind].
  destruct (start_component c component st w) as [[[error st1] w1]|]; [|done]. cbn [mbind option_bind].
  destruct error as [e|]; [|apply IH].
  destruct (salts_configurator_rollback c index st1 w1) as [[[c1 st2] w2]|]; [|done].
  cbn [mbind option_bind]. intros Hl. failed_branch Hl Hstate.
Qed.

Lemma start_static c st w status c' st' w' :
  salts_configurator_context_start (Some c) st w = Some (status, Some c', st', w') ->
  cx_state c' = SALTS_CONFIGURATOR_CONTEXT_ACTIVE -> static_part c' = static_part c.
Proof.
  unfold salts_configurator_context_start. case_match; [by intros [= _ <- _ _]|]. cbn zeta.
  destruct (start_loop _ _ _ _ _) as [[[[s c1] st1] w1]|] eqn:Hl; [|done].
  cbn [mbind option_bind]. intros [= _ <- _ _] Hstate. by rewrite (start_loop_static _ _ _ _ _ _ _ _ _ Hl).
Qed.

End Start.

(** The context [init] sets up for the arguments. *)
Definition arguments_static (a : init_arguments) : salts_configurator_context :=
  mk_context (ia_deployments a) (ia_deployment_count a) (ia_selections a)
    (ia_selection_count a) (ia_instances a) (ia_instance_capacity a) (ia_dependencies a)
    (ia_dependency_capacity a) 0 (ia_activation_order a) (ia_activation_capacity a) 0
    SALTS_CONFIGURATOR_CONTEXT_ZERO salts_configurator_failure_none.

Lemma init_static c st a new status c' st' :
  salts_configurator_context_init (Some c) st a new = (status, Some c', st') ->
  cx_state c' = SALTS_CONFIGURATOR_CONTEXT_READY -> reusable c st = true ->
  static_part c' = arguments_static a.
Proof.
  unfold salts_configurator_context_init. intros Hinit Hstate Hreuse. rewrite Hreuse in Hinit.
  cbn [negb] in Hinit. cbn zeta in Hinit.
  destruct (_ || _); [failed_branch Hinit Hstate|]. destruct (_ || _); [failed_branch Hinit Hstate|].
  destruct (init_deployments _ _ _ _) as [[? ?]|]; [failed_branch Hinit Hstate|].
  destruct (init_selections _ _ _ _ _) as [[? ?]|]; [failed_branch Hinit Hstate|].
  by injection Hinit as _ <- _.
Qed.

Section Build.
  Context {W : Type} `{LL : LeaseLaws W} `{SP : ServiceProviders W} `{OC : ObjectCallbacks W}
    `{PC : ProviderCallbacks W} `{!ProviderFrame W} `{!WorldFrame keeps_leases}.

(** * Activation of the graph *)

Lemma activate_graph_rule arguments st w :
  arguments_fit arguments st ->
  exists status c st' w',
    activate_graph arguments st w = Some (status, c, st', w') /\ keeps_leases w w' /\
    if bool_decide (status = SALTS_CONFIGURATOR_OK)
    then cx_state c = SALTS_CONFIGURATOR_CONTEXT_ACTIVE /\
         salts_configurator_activation_plan_valid c st' true = true /\
         static_part c = arguments_static arguments
    else cx_state c = SALTS_CONFIGURATOR_CONTEXT_FAILED /\ cx_activation_count c = 0%nat /\
         (salts_configurator_storage_detached c = true \/
          salts_configurator_instances_settled c st' = false).
Proof.
  intros Hfit. unfold activate_graph.
  assert (reusable SALTS_CONFIGURATOR_CONTEXT_INIT st = true) as Hreuse by done.
  destruct (salts_configurator_context_init (Some SALTS_CONFIGURATOR_CONTEXT_INIT) st arguments st)
    as [[status c] st1] eqn:Hinit.
  assert (exists c1, c = Some c1) as [c1 ->].
  { revert Hinit. unfold salts_configurator_context_init. rewrite Hreuse. cbn [negb].
    repeat case_match; intros Heq; injection Heq as _ <- _; by eexists. }
  case_bool_decide as Hok1.
  2: { cbn [mbind option_bind]. rewrite bool_decide_false by done. cbn [mbind option_bind].
       eexists _, _, _, _. split; [done|]. split; [done|]. rewrite bool_decide_false by done.
       destruct (init_other _ _ _ _ _ _ _ Hinit Hok1) as [[Hr _]|[Hs Hd]]; [congruence|].
       split_and!; [done|by apply detached_activations|by left]. }
  subst status. destruct (init_ready _ _ _ _ _ _ _ Hfit Hinit eq_refl) as (Hstate & Hv & Hfits & Hsize).
  pose proof (init_static _ _ _ _ _ _ _ Hinit Hstate Hreuse) as Hstatic1.
  assert (state_is SALTS_CONFIGURATOR_CONTEXT_READY c1 = true) as Hready by (by apply state_is_true).
  destruct (resolve_rule c1 st1 Hready Hv Hfits Hsize) as (r & Hr & status & c2 & st2 & -> & _ & Hres).
  rewrite Hr. cbn [mbind option_bind]. case_bool_decide as Hok2.
  2: { cbn [mbind option_bind]. eexists _, _, _, _. split; [done|]. split; [done|].
       rewrite bool_decide_false by done. destruct Hres as [Hs Hd].
       split_and!; [done|by apply detached_activations|by left]. }
  subst status. destruct Hres as (Hstate2 & _ & Hplan & _).
  pose proof (resolve_static _ _ _ _ _ Hr Hstate2) as Hstatic2.
  assert (state_is SALTS_CONFIGURATOR_CONTEXT_RESOLVED c2 = true) as Hresolved by (by apply state_is_true).
  destruct (start_rule c2 st2 w Hresolved Hplan) as (status & c3 & st3 & w3 & Hs & Hres).
  rewrite Hs. cbn [mbind option_bind]. exists status, c3, st3, w3. split; [done|].
  split; [by eapply start_frame|]. case_bool_decide as Hok3.
  - destruct Hres as (Hstate3 & _ & Hplan3). split_and!; [done|done|].
    rewrite (start_static _ _ _ _ _ _ _ Hs Hstate3). congruence.
  - destruct Hres as [_ []]. split_and!; [done|done|]. destruct sr_detached as [?|[? _]]; auto.
Qed.

(** * The candidate *)

(** The caller's arrays are as long as the arguments say. *)
Record build_fits (b : build_arguments) (s : salts_service_host_generation_storage)
    (new : generation_arrays) : Prop := {
  bf_statics : (ba_static_deployment_count b <= length (default [] (ba_static_deployments b)))%nat;
  bf_sources : (ba_dynamic_source_count b <= length (default [] (ba_dynamic_sources b)))%nat;
  bf_refs : Forall ref_ok (refs_of (take (ba_dynamic_source_count b)
                                      (default [] (ba_dynamic_sources b))));
  bf_deployments : (gs_deployment_capacity s <= length (ga_deployments new))%nat;
  bf_instances : (gs_instance_capacity s <= length (so_instances (ga_graph new)))%nat;
  bf_dependencies : (gs_dependency_capacity s <= length (so_dependencies (ga_graph new)))%nat;
  bf_order : (gs_activation_capacity s <= length (so_order (ga_graph new)))%nat;
  bf_modules : (gs_module_capacity s <= length (ga_modules new))%nat;
  bf_size : Z.of_nat (gs_dependency_capacity s) <= SIZE_MAX;
}.

Lemma owned_recorded g modules w :
  leases_owned g modules w -> ((gn_module_count g <> 0)%nat -> is_Some (gn_registry g)) ->
  leases_recorded g modules.
Proof.
  intros Ho Hreg. split; [done|apply Ho|]. apply forallb_upto_true.
  pose proof (lo_fit _ _ _ Ho) as Hfit. unfold modules_fit in Hfit.
  pose proof (proj1 (module_tail_spec _ _ (lo_fit _ _ _ Ho)) (lo_tail _ _ _ Ho)) as (Hle & _).
  split; [lia|]. intros i m Hi Hm. by apply (lo_records _ _ _ Ho i).
Qed.

(** A clear generation owns nothing. *)
Lemma clear_owned g modules w :
  gn_module_count g = 0%nat -> gs_module_capacity (gn_storage g) = 0%nat -> registry_ok w ->
  leases_owned g modules w.
Proof.
  intros Hn Hc Hok. assert (modules_fit g modules) as Hfit by (unfold modules_fit; rewrite Hc; lia).
  split; [done| | |intros i m Hi; lia|done].
  - unfold module_tail_is_clear. by rewrite Hn, Hc.
  - unfold module_refs. rewrite Hn. apply NoDup_nil_2.
Qed.

Lemma candidate_owned b s new w :
  build_fits b s new -> build_exceeds b s = false -> registry_ok w ->
  leases_owned (candidate b s)
    (replicate (gs_module_capacity s) zero_module ++ drop (gs_module_capacity s) (ga_modules new)) w.
Proof.
  intros Hf Hex Hok. pose proof (bf_modules _ _ _ Hf) as Hm.
  assert (modules_fit (candidate b s) (replicate (gs_module_capacity s) zero_module ++
            drop (gs_module_capacity s) (ga_modules new))) as Hfit.
  { unfold modules_fit. simpl. rewrite length_app, length_replicate. lia. }
  split; [done| |by apply NoDup_nil_2|intros i m Hi; simpl in Hi; lia|done].
  apply module_tail_spec; [done|]. simpl. split_and!; [lia| |].
  - intros Hn. unfold build_exceeds in Hex. destruct_bools.
    rewrite (proj2 (Nat.eqb_neq _ _) Hn) in *. simpl in *. by apply is_null_false.
  - intros i m Hi. rewrite lookup_app_l by (rewrite length_replicate; lia).
    by intros [-> _]%lookup_replicate.
Qed.

(** The leases of a generation and nothing else are given back. *)
Definition leases_returned (g : salts_service_host_generation)
    (modules : list salts_service_host_module) (w w' : W) : Prop :=
  forall r k, lease_held r k w' <-> lease_held r k w /\
    forall i m, (i < gn_module_count g)%nat -> modules !! i = Some m ->
      (r, k) <> (gn_registry g, mo_lease m).

(** The admission loop of a build, over its own candidate. *)
Definition admission (b : build_arguments) (s : salts_service_host_generation_storage)
    (new : generation_arrays) (w : W) :=
  admit_sources (candidate b s)
    (replicate (gs_module_capacity s) zero_module ++ drop (gs_module_capacity s) (ga_modules new))
    (take (ba_static_deployment_count b) (default [] (ba_static_deployments b)) ++
       drop (ba_static_deployment_count b) (ga_deployments new))
    (ba_static_deployment_count b) 0 (default [] (ba_dynamic_sources b)) (ba_dynamic_source_count b) w.

(** The table of leases that the admission of a build took, and the world then. *)
Definition admitted (b : build_arguments) (s : salts_service_host_generation_storage)
    (new : generation_arrays) (w : W) (g : salts_service_host_generation)
    (modules : list salts_service_host_module) (w1 : W) : Prop :=
  exists status deployments, admission b s new w = Some (status, g, modules, deployments, w1).

(** [g] and [a] record the leases of [g1] and [modules1]. *)
Definition same_leases (g : salts_service_host_generation) (a : generation_arrays)
    (g1 : salts_service_host_generation) (modules1 : list salts_service_host_module) : Prop :=
  gn_registry g = gn_registry g1 /\ gn_module_count g = gn_module_count g1 /\ ga_modules a = modules1.

(** The graph of a failed generation: nothing is active, and a reference is left
    that is not empty. *)
Definition unsettled_graph (g : salts_service_host_generation) (a : generation_arrays) : Prop :=
  cx_state (gn_components g) = SALTS_CONFIGURATOR_CONTEXT_FAILED /\
  cx_activation_count (gn_components g) = 0%nat /\
  service_host_components_settled (gn_components g) (ga_graph a) = false.

(** The failed candidate: cleared once every lease that admission took was given
    back, or kept with them because its graph is not settled. *)
Definition build_failed (b : build_arguments) (s : salts_service_host_generation_storage)
    (new : generation_arrays) (w : W) (g : salts_service_host_generation) (a : generation_arrays)
    (w' : W) : Prop :=
  gn_state g = SALTS_SERVICE_HOST_GENERATION_FAILED /\
  gn_runtime_owner g = None /\ gn_active_scopes g = 0 /\
  exists g1 modules1 w1 w2, admitted b s new w g1 modules1 w1 /\ keeps_leases w1 w2 /\
    leases_owned g1 modules1 w2 /\
    (generation_is_clear g = true /\ leases_returned g1 modules1 w2 w' \/
     same_leases g a g1 modules1 /\ w' = w2 /\ leases_owned g (ga_modules a) w' /\ unsettled_graph g a).

(** The built candidate. *)
Record build_done (b : build_arguments) (s : salts_service_host_generation_storage)
    (new : generation_arrays) (w : W) (g : salts_service_host_generation) (a : generation_arrays)
    (w' : W) : Prop := {
  bd_state : gn_state g = SALTS_SERVICE_HOST_GENERATION_BUILT;
  bd_id : gn_id g = ba_generation_id b;
  bd_storage : gn_storage g = s;
  bd_owner : gn_runtime_owner g = None;
  bd_scopes : gn_active_scopes g = 0;
  bd_publishable : service_host_generation_publishable (Some g) a = true;
  bd_leases : leases_owned g (ga_modules a) w';
  bd_plugins : forall ref, ref ∈ module_refs g (ga_modules a) <->
    ref ∈ refs_of (take (ba_dynamic_source_count b) (default [] (ba_dynamic_sources b)));
  bd_admitted : exists g1 modules1 w1, admitted b s new w g1 modules1 w1 /\ same_leases g a g1 modules1;
}.

Lemma generation_clear_is_clear g :
  gn_runtime_owner g = None -> gn_active_scopes g = 0 -> generation_is_clear (generation_clear g) = true.
Proof. intros Ho Hs. unfold generation_is_clear. simpl. by rewrite Ho, Hs. Qed.

(** No lease of the generation was held in [w]. *)
Definition leases_new (g : salts_service_host_generation) (modules : list salts_service_host_module)
    (w : W) : Prop :=
  forall i m, (i < gn_module_count g)%nat -> modules !! i = Some m ->
    ~ lease_held (gn_registry g) (mo_lease m) w.

(** Leases that were new are given back: all that was held before still is. *)
Lemma returned_keeps g modules w0 w w' :
  keeps_leases w0 w -> leases_new g modules w0 -> registry_ok w' -> leases_returned g modules w w' ->
  keeps_leases w0 w'.
Proof.
  intros [Hok Hheld] Hnew Hok' Hret. split; [done|]. intros r k Hk. apply Hret. split; [auto|].
  intros i m Hi Hm [= -> ->]. by eapply Hnew.
Qed.

Lemma admission_failed_rule b s new status g a w0 w :
  admitted b s new w0 g (ga_modules a) w -> leases_owned g (ga_modules a) w -> gn_state g = SALTS_SERVICE_HOST_GENERATION_FAILED ->
  gn_runtime_owner g = None -> gn_active_scopes g = 0 ->
  keeps_leases w0 w -> leases_new g (ga_modules a) w0 ->
  exists a' w', admission_failed status g a w = Some (status, generation_clear g, a', w') /\
    keeps_leases w0 w' /\ build_failed b s new w0 (generation_clear g) a' w'.
Proof.
  intros Had Ho Hst Hown Hsc Hk Hnew. unfold admission_failed.
  destruct (release_owned g (ga_modules a) w Ho) as (modules' & w' & -> & Hlen & Hok & _ & Hret).
  cbn [mbind option_bind]. rewrite bool_decide_true by done. cbn [negb].
  eexists _, _. split; [done|]. split; [by eapply returned_keeps|]. split_and!; [done..|].
  exists g, (ga_modules a), w, w. split_and!; [done..|]. left. split; [|done].
  by apply generation_clear_is_clear.
Qed.

Lemma activation_failed_rule b s new g1 w1 g a w0 w :
  admitted b s new w0 g1 (ga_modules a) w1 -> keeps_leases w1 w -> leases_owned g1 (ga_modules a) w ->
  same_leases g a g1 (ga_modules a) -> leases_owned g (ga_modules a) w -> gn_state g = SALTS_SERVICE_HOST_GENERATION_FAILED ->
  gn_runtime_owner g = None -> gn_active_scopes g = 0 ->
  cx_state (gn_components g) = SALTS_CONFIGURATOR_CONTEXT_FAILED ->
  cx_activation_count (gn_components g) = 0%nat ->
  keeps_leases w0 w -> leases_new g (ga_modules a) w0 ->
  exists g' a' w', activation_failed g a w = Some (SALTS_SERVICE_HOST_CONFIGURATOR_ERROR, g', a', w') /\
    keeps_leases w0 w' /\ leases_new g' (ga_modules a') w0 /\ build_failed b s new w0 g' a' w'.
Proof.
  intros Had Hk1 Ho1 Hsame Ho Hst Hown Hsc Hcs Hca Hk Hnew. unfold activation_failed.
  destruct (service_host_components_settled _ _) eqn:Hset; cbn [negb].
  2: { exists g, a, w. split; [done|]. split; [done|]. split; [done|]. split_and!; [done..|].
       exists g1, (ga_modules a), w1, w. split_and!; [done..|]. by right. }
  destruct (release_owned g (ga_modules a) w Ho) as (modules' & w' & -> & Hlen & Hok & _ & Hret).
  cbn [mbind option_bind]. rewrite bool_decide_true by done. cbn [negb].
  cbn [set_gn_module_count gn_components ga_graph]. rewrite Hset.
  eexists _, _, _. split; [done|]. split; [by eapply returned_keeps|].
  split; [by intros i m Hi; simpl in Hi; lia|]. split_and!; [done..|].
  exists g1, (ga_modules a), w1, w. split_and!; [done..|]. left. split; [by apply generation_clear_is_clear|].
  intros r k. rewrite (Hret r k). destruct Hsame as (-> & -> & _). done.
Qed.

(** Once the checks passed, the candidate is built or fails. *)
Lemma build_candidate_rule b s new w d :
  build_fits b s new -> build_exceeds b s = false -> registry_ok w ->
  (ba_dynamic_source_count b = 0%nat \/ is_Some (ba_registry b)) ->
  preflight_loop [] (default [] (ba_dynamic_sources b)) 0 (ba_dynamic_source_count b) = Some (inr d) ->
  (d <= gs_module_capacity s)%nat ->
  exists status g a w', build_candidate b s new w = Some (status, g, a, w') /\ keeps_leases w w' /\
    leases_new g (ga_modules a) w /\
    match status with
    | SALTS_SERVICE_HOST_OK => build_done b s new w g a w'
    | SALTS_SERVICE_HOST_PLUGIN_ERROR | SALTS_SERVICE_HOST_PROVIDER_ERROR
    | SALTS_SERVICE_HOST_CONFIGURATOR_ERROR => build_failed b s new w g a w'
    | _ => False
    end.
Proof.
  intros Hf Hex Hok Hreg Hpre Hcap. pose proof (candidate_owned b s new w Hf Hex Hok) as Ho.
  pose proof Hf as [f1 f2 f3 f4 f5 f6 f7 f8 f9]. unfold build_candidate.
  set (modules := replicate _ _ ++ _) in *. set (statics := take _ _).
  assert (length statics = ba_static_deployment_count b) as Hstatics
    by (unfold statics; rewrite length_take; lia).
  assert (build_total b <= gs_deployment_capacity s)%nat as Htotal
    by (unfold build_exceeds in Hex; destruct_bools; lia).
  unfold build_total in Htotal.
  rewrite Hstatics, (proj2 (Nat.ltb_ge _ _)), !(proj2 (Nat.ltb_ge _ _)) by lia. cbn [orb].
  set (deployments := statics ++ _).
  assert (length deployments = length (ga_deployments new)) as Hdep
    by (unfold deployments; rewrite length_app, length_drop; lia).
  destruct (admit_sources_rule [] (default [] (ba_dynamic_sources b)) (ba_dynamic_source_count b) 0 d
    (candidate b s) modules deployments (ba_static_deployment_count b) w)
    as (status & g & modules1 & deployments1 & w1 & Hadmit & Hgrow & Hld & Hcase); try done.
  { simpl. lia. }
  destruct Hgrow as [Ho1 Hk1 Hlm Hb Hfresh].
  assert (leases_new g modules1 w) as Hnew.
  { intros i m Hi Hm. destruct (Hfresh i m Hi Hm) as [[Hz _]|Hn]; [simpl in Hz; lia|].
    unfold bundle_of in Hb. simpl in Hb. injection Hb as _ -> _ _ _ _ _. done. }
  assert (admitted b s new w g modules1 w1) as Had by (by exists status, deployments1).
  simpl length in Hadmit. rewrite Hadmit. cbn [mbind option_bind]. unfold bundle_of in Hb. simpl in Hb.
  injection Hb as Hid Hregistry Hcomp Hstorage Hcount Howner Hscopes.
  case_bool_decide as Hst; cbn [negb].
  2: { destruct (admission_failed_rule b s new status g (mk_arrays deployments1 (ga_graph new) modules1) w w1)
         as (a' & w' & -> & Hk' & Hfailed); try done; [by destruct status|].
       eexists _, _, _, _. split; [done|]. split; [done|].
       split; [by intros i m Hi; simpl in Hi; lia|]. by destruct status. }
  subst status. destruct Hcase as [[n ->] Hrefs].
  destruct (activate_graph_rule (graph_arguments b s deployments1) (ga_graph new) w1)
    as (status & c & st & w2 & -> & Hkeep & Hgraph); [done|]. cbn [mbind option_bind].
  pose proof (leases_owned_kept _ _ _ _ Ho1 Hkeep) as Ho2.
  case_bool_decide as Hst; cbn [negb].
  2: { destruct Hgraph as (Hcs & Hca & Hset).
       match goal with |- context [activation_failed ?g ?a _] =>
         destruct (activation_failed_rule b s new (set_gn_module_count n (candidate b s)) w1 g a w w2) as (g' & a' & w' & -> & Hk' & Hnew' & Hfailed) end;
         try done.
       { by eapply leases_owned_same. }
       { by etrans. }
       by eexists _, _, _, _. }
  destruct Hgraph as (Hcs & Hplan & Hstatic). eexists _, _, _, _. split; [done|].
  assert (leases_owned (set_gn_state SALTS_SERVICE_HOST_GENERATION_BUILT
            (set_gn_components c (set_gn_module_count n (candidate b s)))) modules1 w2) as Ho3
    by (by eapply leases_owned_same).
  split; [by etrans|]. split; [done|]. split; try done; [|by eexists _, _, _]. apply publishable_rule. simpl.
  unfold static_part, arguments_static, graph_arguments in Hstatic. injection Hstatic as e1 e2 e3 e4 e5 e6 e7 e8 e9 e10.
  split_and!; [done| | |done].
  - split; simpl; [done|done| |done..]. rewrite e1. by destruct (gs_deployments s).
  - eapply owned_recorded; [done|]. simpl. intros Hn. destruct Hreg as [Hz|?]; [|done]. exfalso.
    pose proof (module_tail_spec _ _ (lo_fit _ _ _ Ho1)) as [Htail _].
    destruct (Htail (lo_tail _ _ _ Ho1)) as (Hle & _). pose proof (lo_fit _ _ _ Ho1) as Hfit1.
    unfold modules_fit in Hfit1. simpl in *. destruct modules1 as [|m modules1]; [simpl in *; lia|].
    destruct n as [|n]; [done|].
    assert (mo_plugin m ∈ refs_of (take (ba_dynamic_source_count b) (default [] (ba_dynamic_sources b))))
      as Hin by (apply Hrefs; unfold module_refs; simpl; by left).
    rewrite Hz in Hin. simpl in Hin. by apply elem_of_nil in Hin.
Qed.

(** * The public operations *)

(** What [build] does to a generation that it may overwrite. *)
Definition build_verdict (g : salts_service_host_generation) (a : generation_arrays) (w : W)
    (b : build_arguments) (s : salts_service_host_generation_storage) (new : generation_arrays)
    (status : salts_service_host_status) (g' : salts_service_host_generation)
    (a' : generation_arrays) (w' : W) : Prop :=
  match status with
  | SALTS_SERVICE_HOST_OK => build_done b s new w g' a' w'
  | SALTS_SERVICE_HOST_INVALID_ARGUMENT | SALTS_SERVICE_HOST_INVALID_STATE
  | SALTS_SERVICE_HOST_CAPACITY_EXCEEDED => g' = g /\ a' = a /\ w' = w
  | SALTS_SERVICE_HOST_PROVIDER_ERROR =>
      build_failed b s new w g' a' w' \/
      (a' = a /\ w' = w /\ exists i, g' = set_gn_state SALTS_SERVICE_HOST_GENERATION_FAILED
         (set_gn_failure (set_failed_source i service_host_failure_none) g))
  | SALTS_SERVICE_HOST_PLUGIN_ERROR | SALTS_SERVICE_HOST_CONFIGURATOR_ERROR =>
      build_failed b s new w g' a' w'
  | SALTS_SERVICE_HOST_BUSY | SALTS_SERVICE_HOST_RESOURCE_ERROR => False
  end.

Lemma reusable_empty g a : generation_reusable g a = true -> gn_module_count g = 0%nat.
Proof.
  unfold generation_reusable, generation_is_clear. intros Hr. destruct (gn_state g); try done;
    by destruct_bools.
Qed.

Lemma preflight_loop_runs before rest distinct count :
  (count <= length rest)%nat -> exists r, preflight_loop before rest distinct count = Some r /\
    match r with
    | inl (status, _) => status = SALTS_SERVICE_HOST_PROVIDER_ERROR \/
                         status = SALTS_SERVICE_HOST_CAPACITY_EXCEEDED
    | inr _ => True
    end.
Proof.
  revert before rest distinct. induction count as [|count IH]; intros before rest distinct Hlen; simpl.
  { by eexists. }
  destruct rest as [|s rest]; simpl in Hlen; [lia|]. case_match; [eexists; split; [done|]; simpl; by auto|].
  case_match; [apply IH; lia|]. case_match; [eexists; split; [done|]; simpl; by auto|]. apply IH. lia.
Qed.

Lemma build_rule g a b s new w :
  ba_storage b = Some s -> build_fits b s new -> registry_ok w ->
  exists status g' a' w',
    salts_service_host_generation_build (Some g) a b new w = Some (status, Some g', a', w') /\
    keeps_leases w w' /\ build_verdict g a w b s new status g' a' w' /\
    (g' = g /\ a' = a /\ w' = w \/ leases_new g' (ga_modules a') w) /\
    (generation_reusable g a = false -> g' = g /\ a' = a /\ w' = w).
Proof.
  intros Hs Hf Hok. unfold salts_service_host_generation_build. rewrite Hs.
  assert (forall status, status <> SALTS_SERVICE_HOST_OK ->
            build_verdict g a w b s new status g a w -> exists st' g' a' w',
            Some (status, Some g, a, w) = Some (st', Some g', a', w') /\ keeps_leases w w' /\
            build_verdict g a w b s new st' g' a' w' /\
            (g' = g /\ a' = a /\ w' = w \/ leases_new g' (ga_modules a') w) /\
            (generation_reusable g a = false -> g' = g /\ a' = a /\ w' = w)) as Hsame
    by (intros status _ Hv; exists status, g, a, w; split; [done|]; split; [done|]; split; [done|];
        split; [by left|done]).
  case_match eqn:Harg; [by apply Hsame|].
  destruct (generation_reusable g a) eqn:Hreuse; cbn [negb]; [|by apply Hsame].
  case_match; [by apply Hsame|]. destruct (build_exceeds b s) eqn:Hex; [by apply Hsame|].
  unfold preflight_dynamic_sources.
  destruct (preflight_loop_runs [] (default [] (ba_dynamic_sources b)) 0 (ba_dynamic_source_count b))
    as (r & Hr & Hcase); [by apply (bf_sources _ _ _ Hf)|]. rewrite Hr. cbn [mbind option_bind].
  destruct r as [[status invalid]|d].
  { cbn [mbind option_bind]. rewrite bool_decide_false by (by destruct Hcase as [->| ->]). cbn [negb].
    destruct Hcase as [->| ->]; [|rewrite bool_decide_false by done; by apply Hsame].
    rewrite bool_decide_true by done. eexists _, _, _, _. split; [done|]. split; [done|].
    split; [right; split_and!; [done..|]; by eexists|]. split; [|done]. right. intros i m Hi.
    simpl in Hi. rewrite (reusable_empty g a Hreuse) in Hi. lia. }
  destruct (_ <? d)%nat eqn:Hcap; cbn [mbind option_bind].
  { rewrite bool_decide_false by done. cbn [negb]. rewrite bool_decide_false by done. by apply Hsame. }
  rewrite bool_decide_true by done. cbn [negb]. apply Nat.ltb_ge in Hcap.
  destruct (build_candidate_rule b s new w d Hf Hex Hok)
    as (status & g' & a' & w' & -> & Hk & Hnew & Hres); [|done|done|].
  { destruct_bools. destruct (Nat.eqb_spec (ba_dynamic_source_count b) 0); [by left|right].
    simpl in *. destruct_bools. by apply is_null_false. }
  cbn [mbind option_bind]. eexists _, _, _, _. split; [done|]. split; [done|].
  split; [|split; [by right|done]]. destruct status; try done. by left.
Qed.

Lemma stopped_settled c st :
  cx_state c = SALTS_CONFIGURATOR_CONTEXT_STOPPED -> salts_configurator_storage_detached c = true ->
  service_host_components_settled c st = true.
Proof.
  intros Hs Hd. rewrite components_settled_same, (detached_activations c Hd), (detached_settled c st Hd).
  unfold state_is. by rewrite Hs.
Qed.

(** The graph of a generation after its components were ended in reverse, and
    the world then. *)
Definition ended_graph (g : salts_service_host_generation) (a : generation_arrays) (w : W) : storage * W :=
  foldl (end_instance (gn_components g)) (ga_graph a, w)
    (rev (take (cx_deployment_count (gn_components g)) (so_order (ga_graph a)))).

(** No callback left a reference behind. *)
Definition graph_clear (g : salts_service_host_generation) (st : storage) : bool :=
  forallb instance_clear (take (cx_instance_capacity (gn_components g)) (so_instances st)).

(** Stopping a live graph takes no lease away, and answers [SALTS_CONFIGURATOR_OK]
    exactly when all references are empty; otherwise a callback wrote one. *)
Lemma stop_graph_rule g a w :
  service_host_generation_publishable (Some g) a = true ->
  let st' := (ended_graph g a w).1 in
  let w' := (ended_graph g a w).2 in
  keeps_leases w w' /\
  if graph_clear g st' then
    exists c', salts_configurator_context_stop (Some (gn_components g)) (ga_graph a) w =
        Some (SALTS_CONFIGURATOR_OK, Some c', st', w') /\ service_host_components_settled c' st' = true
  else
    salts_configurator_context_stop (Some (gn_components g)) (ga_graph a) w =
      Some (SALTS_CONFIGURATOR_INVALID_STATE, Some (stop_failed (gn_components g)), st', w') /\
    service_host_components_settled (stop_failed (gn_components g)) st' = false /\
    exists j i, so_instances st' !! j = Some i /\ callback_writes j (in_object i).
Proof.
  intros (Hs & _ & _ & Hplan)%publishable_rule.
  assert (state_is SALTS_CONFIGURATOR_CONTEXT_ACTIVE (gn_components g) = true) as Hs'
    by (by apply state_is_true).
  destruct (stop_rule (gn_components g) (ga_graph a) w Hs' Hplan)
    as (status & c' & st' & w' & Hstop & Hfold & Hres & Hins & _).
  unfold ended_graph, graph_clear. rewrite Hfold. cbn [fst snd]. split; [by eapply stop_frame|].
  destruct (forallb instance_clear _) eqn:Hclear.
  - destruct Hres as (-> & Hst & Hd). exists c'. split; [done|by apply stopped_settled].
  - destruct Hres as [-> ->]. split; [done|]. split.
    + rewrite components_settled_same, (unsettled (stop_failed (gn_components g)) st') by done.
      by rewrite andb_false_r.
    + apply unsettled_slot in Hclear as (j & i & Hj & Hi & Hc). exists j, i. split; [done|].
      destruct (Hins j i Hj Hi) as [Hact [He|?]]; [|done]. unfold instance_clear in Hc.
      by rewrite Hact, He in Hc.
Qed.

(** The graph that a refused stop leaves can be repaired. *)
Lemma stopped_repairable g a w :
  service_host_generation_publishable (Some g) a = true ->
  graph_clear g (ended_graph g a w).1 = false ->
  exists graph, service_host_components_settled (stop_failed (gn_components g)) graph = true.
Proof.
  intros (Hs & _ & _ & Hp%plan_valid_iff)%publishable_rule Hclear.
  exists (mk_storage (replicate (cx_instance_capacity (gn_components g)) salts_configurator_instance_reset) [] []).
  rewrite components_settled_same. cbn [stop_failed cx_activation_count set_cx_counts set_cx_state].
  rewrite settled_attached; cbn [so_instances].
  - rewrite take_ge by (by rewrite length_replicate). unfold state_is. cbn.
    apply forallb_forall. intros i Hi%list_elem_of_In. apply elem_of_replicate in Hi as [-> _]. done.
  - left. intros Hz. cbn in Hz. apply not_true_iff_false in Hclear. apply Hclear.
    unfold graph_clear, ended_graph. rewrite Hz. cbn [take rev foldl fst].
    apply forallb_forall. intros i Hi%list_elem_of_In. apply list_elem_of_lookup in Hi as [j [Hi Hj]%lookup_take_Some].
    destruct (plan_instance _ _ true j Hp Hj) as (i' & Hi' & Hc). rewrite decide_False in Hc by lia. simpl in Hi; congruence.
  - exact (po_instances _ _ _ Hp).
  - exact (po_arrays _ _ _ Hp).
  - cbn. by rewrite length_replicate.
Qed.

(** The leases go once the graph has stopped. *)
Lemma teardown_rule g c' a w w1 :
  leases_owned g (ga_modules a) w -> keeps_leases w w1 ->
  exists modules' w',
    release_modules (Some (set_gn_components c' g)) (ga_modules a) w1 =
      Some (CMETA_PLUGIN_OK, Some (set_gn_module_count 0 (set_gn_components c' g)), modules', w') /\
    registry_ok w' /\ leases_returned g (ga_modules a) w1 w'.
Proof.
  intros Ho Hk. destruct (release_owned (set_gn_components c' g) (ga_modules a) w1)
    as (modules' & w' & Hrel & _ & Hok & _ & Hheld).
  { eapply leases_owned_same; [by apply (leases_owned_kept _ _ w)|done..]. }
  by exists modules', w'.
Qed.

Lemma discard_rule g a w :
  gn_state g = SALTS_SERVICE_HOST_GENERATION_BUILT -> gn_runtime_owner g = None ->
  gn_active_scopes g = 0 -> service_host_generation_publishable (Some g) a = true ->
  leases_owned g (ga_modules a) w ->
  let st1 := (ended_graph g a w).1 in
  let w1 := (ended_graph g a w).2 in
  exists status g' a' w',
    salts_service_host_generation_discard (Some g) a w = Some (status, Some g', a', w') /\
    keeps_leases w w1 /\
    if graph_clear g st1 then
      status = SALTS_SERVICE_HOST_OK /\ gn_state g' = SALTS_SERVICE_HOST_GENERATION_DRAINED /\
      generation_is_clear g' = true /\ registry_ok w' /\ leases_returned g (ga_modules a) w1 w'
    else
      status = SALTS_SERVICE_HOST_CONFIGURATOR_ERROR /\ w' = w1 /\
      gn_state g' = SALTS_SERVICE_HOST_GENERATION_FAILED /\ gn_runtime_owner g' = None /\
      gn_active_scopes g' = 0 /\ same_leases g' a' g (ga_modules a) /\ gn_storage g' = gn_storage g /\
      ga_graph a' = st1 /\ unsettled_graph g' a'.
Proof.
  intros Hst Hown Hsc Hpub Ho st1 w1.
  unfold salts_service_host_generation_discard. rewrite bool_decide_true by done. cbn [negb].
  destruct (stop_graph_rule g a w Hpub) as [Hk Hstop]. fold st1 w1 in Hk, Hstop.
  destruct (graph_clear g st1).
  - destruct Hstop as (c' & -> & Hset). cbn [mbind option_bind]. rewrite bool_decide_true by done.
    cbn [negb ga_modules]. destruct (teardown_rule g c' a w w1 Ho Hk) as (modules' & w' & -> & Hok & Hret).
    cbn [mbind option_bind]. rewrite bool_decide_true by done. cbn [negb].
    eexists _, _, _, _. split_and!; [done|done|done|done| |done|done].
    by apply (generation_clear_is_clear (set_gn_module_count 0 (set_gn_components c' g))).
  - destruct Hstop as (-> & Hset & _). cbn [mbind option_bind]. rewrite bool_decide_false by done.
    cbn [negb]. eexists _, _, _, _. split_and!; done.
Qed.

(** A failed generation that no runtime owns is recovered exactly when its graph
    is settled. *)
Lemma recover_rule g a w :
  gn_state g = SALTS_SERVICE_HOST_GENERATION_FAILED -> gn_runtime_owner g = None ->
  gn_active_scopes g = 0 -> leases_owned g (ga_modules a) w ->
  cx_state (gn_components g) = SALTS_CONFIGURATOR_CONTEXT_ZERO \/
  cx_state (gn_components g) = SALTS_CONFIGURATOR_CONTEXT_FAILED \/
  cx_state (gn_components g) = SALTS_CONFIGURATOR_CONTEXT_STOPPED ->
  if service_host_components_settled (gn_components g) (ga_graph a)
  then exists g' a' w',
    salts_service_host_generation_recover (Some g) a w = Some (SALTS_SERVICE_HOST_OK, Some g', a', w') /\
    gn_state g' = SALTS_SERVICE_HOST_GENERATION_DRAINED /\ generation_is_clear g' = true /\
    registry_ok w' /\ leases_returned g (ga_modules a) w w'
  else salts_service_host_generation_recover (Some g) a w =
    Some (SALTS_SERVICE_HOST_INVALID_STATE, Some g, a, w).
Proof.
  intros Hst Hown Hsc Ho Hcs. unfold salts_service_host_generation_recover.
  rewrite bool_decide_true, Hown, Hsc by done. cbn [negb orb is_null Z.eqb].
  assert (negb (gn_module_count g =? 0)%nat && is_null (gs_modules (gn_storage g)) = false) as ->.
  { destruct (Nat.eqb_spec (gn_module_count g) 0); [done|]. apply is_null_false.
    pose proof (proj1 (module_tail_spec _ _ (lo_fit _ _ _ Ho)) (lo_tail _ _ _ Ho)) as (? & Hptr & _).
    apply Hptr. lia. }
  assert (negb (state_is SALTS_CONFIGURATOR_CONTEXT_ZERO (gn_components g)) &&
          negb (state_is SALTS_CONFIGURATOR_CONTEXT_FAILED (gn_components g)) &&
          negb (state_is SALTS_CONFIGURATOR_CONTEXT_STOPPED (gn_components g)) = false) as ->.
  { unfold state_is. by destruct Hcs as [->|[->| ->]]. }
  destruct (service_host_components_settled _ _) eqn:Hset; [|by rewrite orb_true_r].
  rewrite components_settled_same in Hset. destruct (cx_activation_count _ =? 0)%nat; [|done]. cbn [negb orb].
  destruct (release_owned g (ga_modules a) w Ho) as (modules' & w' & -> & Hlen & Hok & _ & Hheld).
  cbn [mbind option_bind]. rewrite bool_decide_true by done. cbn [negb].
  eexists _, _, _. split_and!; [done|done|done|done|done].
Qed.

End Build.
