(* ===== verification/ServiceHostRuntime.v ===== *)
(** The ServiceHost runtime (component-runtime/src/service_host_runtime.c and the
    second half of service_host.c): publication of generations, scopes that pin
    them, and draining.

    Runtimes, generations and scopes are objects of the caller; [host_memory]
    holds them by address.  A runtime's mutex makes each critical section one
    definition; [drain] has two, with the teardown of the generation between
    them outside the lock. *)

From S2P Require Import Prelude CMetaType CMetaFunction CMetaInterface CMetaData.
From S2P Require Import CMetaOperation CMetaObject CMetaComponent Configurator.
From S2P Require Import PluginManifest PluginRegistry ServiceHost.

Definition SALTS_SERVICE_HOST_MAX_ATTACHED_GENERATIONS : Z := 2.
Definition SALTS_SERVICE_HOST_ABI_VERSION : Z := 131072.

(** [lock] is what the platform mutex stores; [current] points at a generation. *)
Record salts_service_host_runtime := mk_runtime {
  rt_lock : option addr;
  rt_current : option addr;
  rt_last_generation_id : Z;
  rt_active_scopes : Z;
  rt_attached_generations : Z;
  rt_initialized : bool;
}.

(** [owner_address] is the address of the scope that was acquired. *)
Record salts_service_host_scope := mk_scope {
  sc_runtime : option addr;
  sc_generation : option addr;
  sc_generation_id : Z;
  sc_owner_address : option addr;
  sc_live : bool;
}.

Definition SALTS_SERVICE_HOST_RUNTIME_INIT : salts_service_host_runtime :=
  mk_runtime None None 0 0 0 false.

Definition SALTS_SERVICE_HOST_SCOPE_INIT : salts_service_host_scope := mk_scope None None 0 None false.

(** A generation with what its storage holds. *)
Record generation_cell := mk_cell {
  ce_generation : salts_service_host_generation;
  ce_arrays : generation_arrays;
}.

(** [hm_draining] has the drains that are between their critical sections: the
    generation and the runtime it is drained from. *)
Record host_memory := mk_memory {
  hm_runtimes : gmap addr salts_service_host_runtime;
  hm_generations : gmap addr generation_cell;
  hm_scopes : gmap addr salts_service_host_scope;
  hm_draining : gmap addr addr;
}.

Definition write_runtime (a : addr) (r : salts_service_host_runtime) (m : host_memory) : host_memory :=
  mk_memory (<[a := r]> (hm_runtimes m)) (hm_generations m) (hm_scopes m) (hm_draining m).

Definition write_cell (a : addr) (c : generation_cell) (m : host_memory) : host_memory :=
  mk_memory (hm_runtimes m) (<[a := c]> (hm_generations m)) (hm_scopes m) (hm_draining m).

Definition write_scope (a : addr) (s : salts_service_host_scope) (m : host_memory) : host_memory :=
  mk_memory (hm_runtimes m) (hm_generations m) (<[a := s]> (hm_scopes m)) (hm_draining m).

(** The generation's record alone. *)
Definition write_generation (a : addr) (g : salts_service_host_generation) (c : generation_cell)
    (m : host_memory) : host_memory := write_cell a (mk_cell g (ce_arrays c)) m.

Definition set_draining (d : gmap addr addr) (m : host_memory) : host_memory :=
  mk_memory (hm_runtimes m) (hm_generations m) (hm_scopes m) d.

Definition gn_is (state : salts_service_host_generation_state) (g : salts_service_host_generation)
    : bool := bool_decide (gn_state g = state).

(** * The runtime object *)

(** [mutex] is what [cmeta_mutex_init] stored in [runtime->lock]. *)
Definition salts_service_host_runtime_init (runtime : option salts_service_host_runtime)
    (mutex : option addr) : salts_service_host_status * option salts_service_host_runtime :=
  match runtime with
  | None => (SALTS_SERVICE_HOST_INVALID_ARGUMENT, runtime)
  | Some r =>
      if rt_initialized r then (SALTS_SERVICE_HOST_INVALID_ARGUMENT, runtime)
      else if is_null mutex then (SALTS_SERVICE_HOST_RESOURCE_ERROR, Some SALTS_SERVICE_HOST_RUNTIME_INIT)
      else (SALTS_SERVICE_HOST_OK, Some (mk_runtime mutex None 0 0 0 true))
  end.

Definition salts_service_host_runtime_destroy (runtime : option salts_service_host_runtime)
    : salts_service_host_status * option salts_service_host_runtime :=
  match runtime with
  | None => (SALTS_SERVICE_HOST_INVALID_ARGUMENT, runtime)
  | Some r =>
      if negb (rt_initialized r) then (SALTS_SERVICE_HOST_INVALID_ARGUMENT, runtime)
      else if negb (is_null (rt_current r)) || negb (rt_active_scopes r =? 0) ||
              negb (rt_attached_generations r =? 0)
      then (SALTS_SERVICE_HOST_BUSY, runtime)
      else (SALTS_SERVICE_HOST_OK, Some SALTS_SERVICE_HOST_RUNTIME_INIT)
  end.

(** * Publication

    The pointer arguments are addresses or NULL; [None] is the use of an address
    that is no such object.  [out_previous] is a result and is not NULL: the
    outer option says whether it is written. *)

Definition salts_service_host_runtime_publish (runtime generation : option addr) (m : host_memory)
    : option (salts_service_host_status * option (option addr) * host_memory) :=
  match runtime, generation with
  | Some ra, Some ga =>
      r ← hm_runtimes m !! ra;
      if negb (rt_initialized r) then Some (SALTS_SERVICE_HOST_INVALID_ARGUMENT, None, m)
      else
        cell ← hm_generations m !! ga;
        let g := ce_generation cell in
        if negb (gn_is SALTS_SERVICE_HOST_GENERATION_BUILT g) ||
           negb (service_host_generation_publishable (Some g) (ce_arrays cell)) ||
           negb (is_null (gn_runtime_owner g)) || negb (gn_active_scopes g =? 0) ||
           (gn_id g <=? rt_last_generation_id r)
        then Some (SALTS_SERVICE_HOST_INVALID_STATE, None, m)
        else if SALTS_SERVICE_HOST_MAX_ATTACHED_GENERATIONS <=? rt_attached_generations r
        then Some (SALTS_SERVICE_HOST_BUSY, None, m)
        else
          previous ← match rt_current r with
                     | None => Some None
                     | Some pa => cell ← hm_generations m !! pa; Some (Some (pa, cell))
                     end;
          if match previous with
             | Some (_, c) => negb (gn_is SALTS_SERVICE_HOST_GENERATION_PUBLISHED (ce_generation c))
             | None => false
             end
          then Some (SALTS_SERVICE_HOST_INVALID_STATE, None, m)
          else
            let m := write_generation ga
                       (set_gn_state SALTS_SERVICE_HOST_GENERATION_PUBLISHED
                          (set_gn_owner (Some ra) (gn_active_scopes g) g)) cell m in
            let m := write_runtime ra
                       (mk_runtime (rt_lock r) (Some ga) (gn_id g) (rt_active_scopes r)
                          (size_inc (rt_attached_generations r)) (rt_initialized r)) m in
            let m := match previous with
                     | Some (pa, c) =>
                         write_generation pa
                           (set_gn_state SALTS_SERVICE_HOST_GENERATION_DRAINING (ce_generation c)) c m
                     | None => m
                     end in
            Some (SALTS_SERVICE_HOST_OK, Some (fst <$> previous), m)
  | _, _ => Some (SALTS_SERVICE_HOST_INVALID_ARGUMENT, None, m)
  end.

Definition set_rt_current (current : option addr) (r : salts_service_host_runtime)
    : salts_service_host_runtime :=
  mk_runtime (rt_lock r) current (rt_last_generation_id r) (rt_active_scopes r)
    (rt_attached_generations r) (rt_initialized r).

Definition set_rt_counts (scopes attached : Z) (r : salts_service_host_runtime)
    : salts_service_host_runtime :=
  mk_runtime (rt_lock r) (rt_current r) (rt_last_generation_id r) scopes attached (rt_initialized r).

Definition salts_service_host_runtime_close (runtime : option addr) (m : host_memory)
    : option (salts_service_host_status * option (option addr) * host_memory) :=
  match runtime with
  | None => Some (SALTS_SERVICE_HOST_INVALID_ARGUMENT, None, m)
  | Some ra =>
      r ← hm_runtimes m !! ra;
      if negb (rt_initialized r) then Some (SALTS_SERVICE_HOST_INVALID_ARGUMENT, None, m)
      else
        match rt_current r with
        | None => Some (SALTS_SERVICE_HOST_INVALID_STATE, None, m)
        | Some pa =>
            cell ← hm_generations m !! pa;
            let previous := ce_generation cell in
            if negb (gn_is SALTS_SERVICE_HOST_GENERATION_PUBLISHED previous)
            then Some (SALTS_SERVICE_HOST_INVALID_STATE, None, m)
            else
              let m := write_runtime ra (set_rt_current None r) m in
              let m := write_generation pa
                         (set_gn_state SALTS_SERVICE_HOST_GENERATION_DRAINING previous) cell m in
              Some (SALTS_SERVICE_HOST_OK, Some (Some pa), m)
        end
  end.

(** * Scopes *)

Definition salts_service_host_scope_acquire (runtime scope : option addr) (m : host_memory)
    : option (salts_service_host_status * host_memory) :=
  match runtime, scope with
  | Some ra, Some sa =>
      r ← hm_runtimes m !! ra;
      if negb (rt_initialized r) then Some (SALTS_SERVICE_HOST_INVALID_ARGUMENT, m)
      else
        s ← hm_scopes m !! sa;
        if sc_live s then Some (SALTS_SERVICE_HOST_INVALID_STATE, m)
        else
          match rt_current r with
          | None => Some (SALTS_SERVICE_HOST_INVALID_STATE, m)
          | Some ga =>
              cell ← hm_generations m !! ga;
              let g := ce_generation cell in
              if negb (gn_is SALTS_SERVICE_HOST_GENERATION_PUBLISHED g)
              then Some (SALTS_SERVICE_HOST_INVALID_STATE, m)
              else if (gn_active_scopes g =? SIZE_MAX) || (rt_active_scopes r =? SIZE_MAX)
              then Some (SALTS_SERVICE_HOST_CAPACITY_EXCEEDED, m)
              else
                let m := write_generation ga
                           (set_gn_owner (gn_runtime_owner g) (size_inc (gn_active_scopes g)) g) cell m in
                let m := write_runtime ra
                           (set_rt_counts (size_inc (rt_active_scopes r)) (rt_attached_generations r) r)
                           m in
                Some (SALTS_SERVICE_HOST_OK,
                      write_scope sa (mk_scope (Some ra) (Some ga) (gn_id g) (Some sa) true) m)
          end
  | _, _ => Some (SALTS_SERVICE_HOST_INVALID_ARGUMENT, m)
  end.

(** The object at [sa] was acquired there and is still live. *)
Definition scope_original (sa : addr) (s : salts_service_host_scope) : bool :=
  sc_live s && bool_decide (sc_owner_address s = Some sa).

Definition salts_service_host_scope_release (scope : option addr) (m : host_memory)
    : option (salts_service_host_status * host_memory) :=
  match scope with
  | None => Some (SALTS_SERVICE_HOST_INVALID_ARGUMENT, m)
  | Some sa =>
      s ← hm_scopes m !! sa;
      if negb (sc_live s) then Some (SALTS_SERVICE_HOST_INVALID_ARGUMENT, m)
      else if negb (bool_decide (sc_owner_address s = Some sa))
      then Some (SALTS_SERVICE_HOST_INVALID_STATE, m)
      else
        match sc_runtime s, sc_generation s with
        | Some ra, Some ga =>
            r ← hm_runtimes m !! ra;
            if negb (rt_initialized r) then Some (SALTS_SERVICE_HOST_INVALID_STATE, m)
            else
              cell ← hm_generations m !! ga;
              let g := ce_generation cell in
              if negb (bool_decide (gn_runtime_owner g = Some ra)) ||
                 negb (gn_id g =? sc_generation_id s) || (gn_active_scopes g =? 0) ||
                 (rt_active_scopes r =? 0)
              then Some (SALTS_SERVICE_HOST_INVALID_STATE, m)
              else
                let m := write_generation ga
                           (set_gn_owner (gn_runtime_owner g) (size_dec (gn_active_scopes g)) g) cell m in
                let m := write_runtime ra
                           (set_rt_counts (size_dec (rt_active_scopes r)) (rt_attached_generations r) r)
                           m in
                Some (SALTS_SERVICE_HOST_OK, write_scope sa SALTS_SERVICE_HOST_SCOPE_INIT m)
        | _, _ => Some (SALTS_SERVICE_HOST_INVALID_ARGUMENT, m)
        end
  end.

Definition salts_service_host_scope_generation_id (scope : option addr) (m : host_memory) : option Z :=
  match scope with
  | None => Some 0
  | Some sa =>
      s ← hm_scopes m !! sa;
      Some (if scope_original sa s then sc_generation_id s else 0)
  end.

Section Services.
  Context {W : Type} `{ObjectCallbacks W}.

(** The common part of both lookups; [find] is the Configurator's. *)
Definition scope_find (scope : option addr) (m : host_memory) (w : W)
    (find : option salts_configurator_context -> storage ->
            salts_configurator_status * option salts_configurator_service * W)
    : option (salts_service_host_status * option salts_configurator_service * W) :=
  match scope with
  | None => Some (SALTS_SERVICE_HOST_INVALID_ARGUMENT, None, w)
  | Some sa =>
      s ← hm_scopes m !! sa;
      if negb (sc_live s) then Some (SALTS_SERVICE_HOST_INVALID_ARGUMENT, None, w)
      else if negb (bool_decide (sc_owner_address s = Some sa))
      then Some (SALTS_SERVICE_HOST_INVALID_STATE, None, w)
      else
        match sc_generation s with
        | None => Some (SALTS_SERVICE_HOST_INVALID_ARGUMENT, None, w)
        | Some ga =>
            cell ← hm_generations m !! ga;
            let '(status, service, w) :=
              find (Some (gn_components (ce_generation cell))) (ga_graph (ce_arrays cell)) in
            Some (if bool_decide (status = SALTS_CONFIGURATOR_OK) then SALTS_SERVICE_HOST_OK
                  else SALTS_SERVICE_HOST_CONFIGURATOR_ERROR, service, w)
        end
  end.

Definition salts_service_host_scope_find_service (scope : option addr)
    (interface_desc : option cmeta_interface_desc) (m : host_memory) (w : W)
    : option (salts_service_host_status * option salts_configurator_service * W) :=
  scope_find scope m w (fun c st => salts_configurator_context_find_service c st interface_desc w).

Definition salts_service_host_scope_find_service_from (scope : option addr)
    (provider_component_id : cstr) (interface_desc : option cmeta_interface_desc) (m : host_memory)
    (w : W) : option (salts_service_host_status * option salts_configurator_service * W) :=
  scope_find scope m w (fun c st =>
    salts_configurator_context_find_service_from c st provider_component_id interface_desc w).

End Services.

(** * Draining *)

(** The first critical section; with [SALTS_SERVICE_HOST_OK] the generation is
    [STOPPING] and the drain goes on. *)
Definition drain_begin (runtime generation : option addr) (m : host_memory)
    : option (salts_service_host_status * host_memory) :=
  match runtime, generation with
  | Some ra, Some ga =>
      r ← hm_runtimes m !! ra;
      if negb (rt_initialized r) then Some (SALTS_SERVICE_HOST_INVALID_ARGUMENT, m)
      else
        cell ← hm_generations m !! ga;
        let g := ce_generation cell in
        let c := gn_components g in
        if negb (bool_decide (gn_runtime_owner g = Some ra)) || (rt_attached_generations r =? 0) ||
           (negb (gn_is SALTS_SERVICE_HOST_GENERATION_DRAINING g) &&
            negb (gn_is SALTS_SERVICE_HOST_GENERATION_FAILED g &&
                  (state_is SALTS_CONFIGURATOR_CONTEXT_FAILED c ||
                   state_is SALTS_CONFIGURATOR_CONTEXT_STOPPED c)))
        then Some (SALTS_SERVICE_HOST_INVALID_STATE, m)
        else if negb (gn_active_scopes g =? 0) then Some (SALTS_SERVICE_HOST_BUSY, m)
        else if (gn_is SALTS_SERVICE_HOST_GENERATION_DRAINING g &&
                 negb (service_host_generation_publishable (Some g) (ce_arrays cell))) ||
                (gn_is SALTS_SERVICE_HOST_GENERATION_FAILED g &&
                 negb (service_host_components_settled c (ga_graph (ce_arrays cell))))
        then Some (SALTS_SERVICE_HOST_CONFIGURATOR_ERROR, m)
        else
          Some (SALTS_SERVICE_HOST_OK,
                set_draining (<[ga := ra]> (hm_draining m))
                  (write_generation ga
                     (set_gn_state SALTS_SERVICE_HOST_GENERATION_STOPPING g) cell m))
  | _, _ => Some (SALTS_SERVICE_HOST_INVALID_ARGUMENT, m)
  end.

Section Drain.
  Context {W : Type} `{LeaseRegistry W} `{ObjectCallbacks W} `{ProviderCallbacks W}.

(** Between the critical sections: stop the graph if it is active, then give
    the leases back. *)
Definition drain_work (cell : generation_cell) (w : W)
    : option (salts_service_host_status * generation_cell * W) :=
  let g := ce_generation cell in
  let a := ce_arrays cell in
  '(configurator_status, c, st, w) ←
    (if state_is SALTS_CONFIGURATOR_CONTEXT_ACTIVE (gn_components g)
     then
       '(status, c, st, w) ← salts_configurator_context_stop (Some (gn_components g)) (ga_graph a) w;
       c ← c;
       Some (status, c, st, w)
     else Some (SALTS_CONFIGURATOR_OK, gn_components g, ga_graph a, w));
  let g := set_gn_components c g in
  let a := mk_arrays (ga_deployments a) st (ga_modules a) in
  let configurator_status :=
    if bool_decide (configurator_status = SALTS_CONFIGURATOR_OK) &&
       negb (service_host_components_settled c st)
    then SALTS_CONFIGURATOR_INVALID_STATE else configurator_status in
  if negb (bool_decide (configurator_status = SALTS_CONFIGURATOR_OK))
  then Some (SALTS_SERVICE_HOST_CONFIGURATOR_ERROR,
             mk_cell (set_gn_failure
                        (mk_host_failure (hf_source_index (gn_failure g))
                           (hf_plugin_status (gn_failure g)) configurator_status) g) a, w)
  else
    '(plugin_status, g, modules, w) ← release_modules (Some g) (ga_modules a) w;
    g ← g;
    let a := mk_arrays (ga_deployments a) (ga_graph a) modules in
    if negb (bool_decide (plugin_status = CMETA_PLUGIN_OK))
    then Some (SALTS_SERVICE_HOST_PLUGIN_ERROR,
               mk_cell (set_gn_failure (set_failed_plugin plugin_status (gn_failure g)) g) a, w)
    else Some (SALTS_SERVICE_HOST_OK, mk_cell g a, w).

(** The last critical section, for a generation whose teardown ended in
    [status]. *)
Definition drain_end (ra ga : addr) (status : salts_service_host_status) (cell : generation_cell)
    (m : host_memory) : option host_memory :=
  let m := set_draining (delete ga (hm_draining m)) m in
  let g := ce_generation cell in
  if negb (bool_decide (status = SALTS_SERVICE_HOST_OK))
  then Some (write_cell ga (mk_cell (set_gn_state SALTS_SERVICE_HOST_GENERATION_FAILED g)
                              (ce_arrays cell)) m)
  else
    r ← hm_runtimes m !! ra;
    let g := set_gn_state SALTS_SERVICE_HOST_GENERATION_DRAINED (generation_clear g) in
    Some (write_runtime ra
            (set_rt_counts (rt_active_scopes r) (size_dec (rt_attached_generations r)) r)
            (write_cell ga (mk_cell (set_gn_owner None (gn_active_scopes g) g) (ce_arrays cell)) m)).

(** The rest of a drain after its first critical section. *)
Definition drain_finish (ra ga : addr) (m : host_memory) (w : W)
    : option (salts_service_host_status * host_memory * W) :=
  cell ← hm_generations m !! ga;
  '(status, cell, w) ← drain_work cell w;
  m ← drain_end ra ga status cell m;
  Some (status, m, w).

Definition salts_service_host_generation_drain (runtime generation : option addr) (m : host_memory)
    (w : W) : option (salts_service_host_status * host_memory * W) :=
  '(status, m) ← drain_begin runtime generation m;
  match status, runtime, generation with
  | SALTS_SERVICE_HOST_OK, Some ra, Some ga => drain_finish ra ga m w
  | _, _, _ => Some (status, m, w)
  end.

End Drain.

(** * The ABI gate *)

Definition salts_service_host_abi_version : Z := SALTS_SERVICE_HOST_ABI_VERSION.

(** [sizeof(salts_service_host_scope)] on LP64. *)
Definition salts_service_host_abi_scope_size : Z := 40.
