(* ===== verification/ServiceHostProtocol.v ===== *)
(** Any interleaving of ServiceHost calls: the admission counts stay exact, a
    scope keeps its generation alive, and a drain that begins always ends, with
    the leases given back or kept because a callback left a reference behind.

    Draining a generation, and the ServiceHost as a transition system: every
    interleaving of its calls, with the components' and the registries' own
    steps in between, keeps the admission counts exact and the leases owned. *)

From S2P Require Import Prelude.
From S2P Require Import CMetaType.
From S2P Require Import CMetaFunction.
From S2P Require Import CMetaInterface.
From S2P Require Import CMetaData.
From S2P Require Import CMetaOperation.
From S2P Require Import CMetaObject.
From S2P Require Import CMetaComponent.
From S2P Require Import Configurator.
From S2P Require Import ConfiguratorPlan.
From S2P Require Import ConfiguratorLifecycle.
From S2P Require Import ConfiguratorProtocol.
From S2P Require Import PluginManifest.
From S2P Require Import PluginRegistry.
From S2P Require Import ServiceHost.
From S2P Require Import ServiceHostLeases.
From S2P Require Import ServiceHostBuild.
From S2P Require Import ServiceHostRuntime.

(** * Counting objects in memory *)

Section Count.
  Context {A : Type} (P : addr -> A -> bool).

Definition count_objects (m : gmap addr A) : Z :=
  Z.of_nat (size (filter (fun p => P p.1 p.2 = true) m)).

Lemma count_fresh m k x :
  m !! k = None -> count_objects (<[k := x]> m) = count_objects m + Z.b2z (P k x).
Proof.
  intros Hk. unfold count_objects. rewrite map_filter_insert, delete_id by done.
  destruct (P k x) eqn:HP.
  - rewrite decide_True by done. rewrite map_size_insert_None; [simpl; lia|].
    apply map_lookup_filter_None. by left.
  - rewrite decide_False by (simpl; congruence). simpl. lia.
Qed.

Lemma count_insert m k x y :
  m !! k = Some y ->
  count_objects (<[k := x]> m) = count_objects m - Z.b2z (P k y) + Z.b2z (P k x).
Proof.
  intros Hk. rewrite <- (insert_delete_id m k y Hk) at 2.
  rewrite <- (insert_delete_eq m k x). rewrite !count_fresh by apply lookup_delete_eq. lia.
Qed.

Lemma count_same m k x y :
  m !! k = Some y -> P k x = P k y -> count_objects (<[k := x]> m) = count_objects m.
Proof. intros Hk HP. rewrite (count_insert m k x y Hk), HP. lia. Qed.

Lemma count_zero m : count_objects m = 0 <-> forall k x, m !! k = Some x -> P k x = false.
Proof.
  unfold count_objects. rewrite (Nat2Z.inj_iff _ 0), map_size_empty_iff, map_empty. split.
  - intros Hall k x Hk. apply not_true_is_false. intros HP. specialize (Hall k).
    apply map_lookup_filter_None in Hall as [Hn|Hn]; [congruence|]. by apply (Hn x).
  - intros Hall k. apply map_lookup_filter_None. right. intros x Hk. simpl. by rewrite (Hall k x Hk).
Qed.

Lemma count_pos m k x : m !! k = Some x -> P k x = true -> 0 < count_objects m.
Proof.
  intros Hk HP. assert (0 <= count_objects m) by (unfold count_objects; lia).
  destruct (decide (count_objects m = 0)) as [Hz|]; [|lia].
  rewrite (proj1 (count_zero m) Hz k x Hk) in HP. done.
Qed.

Lemma count_nonneg m : 0 <= count_objects m.
Proof. unfold count_objects. lia. Qed.

End Count.

(** * What is admitted *)

Definition scope_on_runtime (ra sa : addr) (s : salts_service_host_scope) : bool :=
  scope_original sa s && bool_decide (sc_runtime s = Some ra).

Definition scope_on_generation (ga sa : addr) (s : salts_service_host_scope) : bool :=
  scope_original sa s && bool_decide (sc_generation s = Some ga).

Definition attached_to (ra ga : addr) (c : generation_cell) : bool :=
  bool_decide (gn_runtime_owner (ce_generation c) = Some ra).

Definition cell_publishable (c : generation_cell) : Prop :=
  service_host_generation_publishable (Some (ce_generation c)) (ce_arrays c) = true.

(** A graph that was stopped, with references left: nothing of it is active, and
    its owner can still empty them. *)
Definition awaits_owner (c : salts_configurator_context) : Prop :=
  cx_state c = SALTS_CONFIGURATOR_CONTEXT_FAILED /\ cx_activation_count c = 0%nat /\
  exists graph, service_host_components_settled c graph = true.

(** A graph that needs no more callbacks. *)
Definition cell_settled (c : generation_cell) : bool :=
  service_host_components_settled (gn_components (ce_generation c)) (ga_graph (ce_arrays c)).

(** What each state of a generation promises. *)
Definition cell_ok (c : generation_cell) : Prop :=
  let g := ce_generation c in
  match gn_state g with
  | SALTS_SERVICE_HOST_GENERATION_ZERO | SALTS_SERVICE_HOST_GENERATION_DRAINED =>
      generation_is_clear g = true
  | SALTS_SERVICE_HOST_GENERATION_BUILT =>
      gn_runtime_owner g = None /\ gn_active_scopes g = 0 /\ cell_publishable c
  | SALTS_SERVICE_HOST_GENERATION_PUBLISHED | SALTS_SERVICE_HOST_GENERATION_DRAINING =>
      is_Some (gn_runtime_owner g) /\ cell_publishable c
  | SALTS_SERVICE_HOST_GENERATION_STOPPING =>
      is_Some (gn_runtime_owner g) /\ gn_active_scopes g = 0 /\
      (cell_publishable c \/ awaits_owner (gn_components g) /\ cell_settled c = true)
  | SALTS_SERVICE_HOST_GENERATION_FAILED =>
      gn_active_scopes g = 0 /\
      (gn_runtime_owner g = None /\ cx_state (gn_components g) = SALTS_CONFIGURATOR_CONTEXT_ZERO \/
       gn_runtime_owner g = None /\ cx_state (gn_components g) = SALTS_CONFIGURATOR_CONTEXT_FAILED \/
       awaits_owner (gn_components g))
  end.

(** A runtime counts its scopes and generations exactly, and publishes one of
    the generations it owns. *)
Record runtime_ok (m : host_memory) (ra : addr) (r : salts_service_host_runtime) : Prop := {
  ro_scopes : rt_active_scopes r = count_objects (scope_on_runtime ra) (hm_scopes m);
  ro_scopes_max : rt_active_scopes r <= SIZE_MAX;
  ro_attached : rt_attached_generations r = count_objects (attached_to ra) (hm_generations m);
  ro_attached_max : rt_attached_generations r <= SALTS_SERVICE_HOST_MAX_ATTACHED_GENERATIONS;
  ro_fresh : rt_initialized r = false ->
    rt_current r = None /\ rt_active_scopes r = 0 /\ rt_attached_generations r = 0;
  ro_current : forall ga, rt_current r = Some ga -> exists c, hm_generations m !! ga = Some c /\
    gn_state (ce_generation c) = SALTS_SERVICE_HOST_GENERATION_PUBLISHED /\
    gn_runtime_owner (ce_generation c) = Some ra;
}.

(** A generation counts its scopes exactly; one with an owner is linked to it. *)
Record generation_ok (m : host_memory) (ga : addr) (c : generation_cell) : Prop := {
  go_scopes : gn_active_scopes (ce_generation c) =
    count_objects (scope_on_generation ga) (hm_scopes m);
  go_scopes_max : gn_active_scopes (ce_generation c) <= SIZE_MAX;
  go_cell : cell_ok c;
  go_owner : forall ra, gn_runtime_owner (ce_generation c) = Some ra ->
    exists r, hm_runtimes m !! ra = Some r /\ rt_initialized r = true /\
      gn_id (ce_generation c) <= rt_last_generation_id r /\
      (gn_state (ce_generation c) = SALTS_SERVICE_HOST_GENERATION_PUBLISHED -> rt_current r = Some ga);
  go_draining : gn_state (ce_generation c) = SALTS_SERVICE_HOST_GENERATION_STOPPING ->
    hm_draining m !! ga = gn_runtime_owner (ce_generation c);
}.

(** A live scope at its own address pins the generation it names. *)
Definition scope_ok (m : host_memory) (sa : addr) (s : salts_service_host_scope) : Prop :=
  scope_original sa s = true -> exists ra ga c,
    sc_runtime s = Some ra /\ sc_generation s = Some ga /\ hm_generations m !! ga = Some c /\
    gn_runtime_owner (ce_generation c) = Some ra /\ gn_id (ce_generation c) = sc_generation_id s /\
    (gn_state (ce_generation c) = SALTS_SERVICE_HOST_GENERATION_PUBLISHED \/
     gn_state (ce_generation c) = SALTS_SERVICE_HOST_GENERATION_DRAINING).

Record admission_inv (m : host_memory) : Prop := {
  ai_runtime : forall ra r, hm_runtimes m !! ra = Some r -> runtime_ok m ra r;
  ai_generation : forall ga c, hm_generations m !! ga = Some c -> generation_ok m ga c;
  ai_scope : forall sa s, hm_scopes m !! sa = Some s -> scope_ok m sa s;
  ai_draining : forall ga ra, hm_draining m !! ga = Some ra -> exists c,
    hm_generations m !! ga = Some c /\ gn_runtime_owner (ce_generation c) = Some ra /\
    gn_state (ce_generation c) = SALTS_SERVICE_HOST_GENERATION_STOPPING;
}.

Lemma unowned_idle c :
  cell_ok c -> gn_runtime_owner (ce_generation c) = None ->
  gn_active_scopes (ce_generation c) = 0 /\
  gn_state (ce_generation c) <> SALTS_SERVICE_HOST_GENERATION_PUBLISHED /\
  gn_state (ce_generation c) <> SALTS_SERVICE_HOST_GENERATION_DRAINING /\
  gn_state (ce_generation c) <> SALTS_SERVICE_HOST_GENERATION_STOPPING.
Proof.
  unfold cell_ok, generation_is_clear. intros Hok Hown. rewrite Hown in Hok.
  destruct (gn_state (ce_generation c)); destruct_bools; naive_solver.
Qed.

(** Writing a generation that no runtime owns, before and after. *)
Lemma write_unowned m ga c c' :
  admission_inv m -> hm_generations m !! ga = Some c ->
  gn_runtime_owner (ce_generation c) = None -> gn_runtime_owner (ce_generation c') = None ->
  cell_ok c' -> admission_inv (write_cell ga c' m).
Proof.
  intros [Hr Hg Hs Hd] Hc Hown Hown' Hok'.
  destruct (unowned_idle c (go_cell _ _ _ (Hg ga c Hc)) Hown) as (Hz & Hst1 & Hst2 & Hst3).
  destruct (unowned_idle c' Hok' Hown') as (Hz' & Hst1' & Hst2' & Hst3').
  split; simpl.
  - intros ra r Hra. destruct (Hr ra r Hra) as [r1 r2 r3 r4 r5 r6]. split; simpl; try done.
    + rewrite (count_same _ _ _ _ c); [done|done|]. unfold attached_to. by rewrite Hown, Hown'.
    + intros ga1 Hcur. destruct (r6 ga1 Hcur) as (c1 & Hc1 & Hst & Ho). exists c1.
      destruct (decide (ga1 = ga)) as [->|]; [congruence|]. by rewrite lookup_insert_ne.
  - intros ga1 c1 [(<- & <-)|(Hne & Hc1)]%lookup_insert_Some.
    + split; simpl; [|rewrite Hz'; unfold SIZE_MAX; lia|done|congruence|done]. rewrite Hz', <- Hz. apply (Hg ga c Hc).
    + destruct (Hg ga1 c1 Hc1). by split.
  - intros sa s Hsa Horig. destruct (Hs sa s Hsa Horig) as (ra & ga1 & c1 & Hra & Hga & Hc1 & Ho & Hid & Hst).
    exists ra, ga1, c1. split_and!; [done|done| |done|done|done]. simpl.
    destruct (decide (ga1 = ga)) as [->|]; [congruence|]. by rewrite lookup_insert_ne.
  - intros ga1 ra Hga. destruct (Hd ga1 ra Hga) as (c1 & Hc1 & Ho & Hst). exists c1.
    destruct (decide (ga1 = ga)) as [->|]; [congruence|]. by rewrite lookup_insert_ne.
Qed.

(** Writing the arrays of a generation. *)
Lemma write_arrays_inv m ga c a :
  admission_inv m -> hm_generations m !! ga = Some c -> cell_ok (mk_cell (ce_generation c) a) ->
  admission_inv (write_cell ga (mk_cell (ce_generation c) a) m).
Proof.
  intros [Hr Hg Hs Hd] Hc Hok. set (c' := mk_cell (ce_generation c) a).
  assert (forall ga1 c1, hm_generations m !! ga1 = Some c1 -> exists c2,
    <[ga := c']> (hm_generations m) !! ga1 = Some c2 /\ ce_generation c2 = ce_generation c1) as Hsame.
  { intros ga1 c1 Hc1. destruct (decide (ga1 = ga)) as [->|]; [|exists c1; by rewrite lookup_insert_ne].
    exists c'. rewrite lookup_insert_eq. split; [done|]. by simplify_eq. }
  split; simpl.
  - intros ra r Hra. destruct (Hr ra r Hra) as [r1 r2 r3 r4 r5 r6]. split; simpl; try done.
    + by rewrite (count_same _ _ _ _ c).
    + intros ga1 Hcur. destruct (r6 ga1 Hcur) as (c1 & Hc1 & Hst & Ho).
      destruct (Hsame ga1 c1 Hc1) as (c2 & Hc2 & E). exists c2. by rewrite E.
  - intros ga1 c1 [(<- & <-)|(Hne & Hc1)]%lookup_insert_Some.
    + by destruct (Hg ga c Hc).
    + by destruct (Hg ga1 c1 Hc1).
  - intros sa s Hsa Horig. destruct (Hs sa s Hsa Horig) as (ra & ga1 & c1 & Hra & Hga & Hc1 & Hrest).
    destruct (Hsame ga1 c1 Hc1) as (c2 & Hc2 & E). exists ra, ga1, c2. rewrite E.
    split_and!; [done|done|exact Hc2|apply Hrest..].
  - intros ga1 ra Hga. destruct (Hd ga1 ra Hga) as (c1 & Hc1 & Hrest).
    destruct (Hsame ga1 c1 Hc1) as (c2 & Hc2 & E). exists c2. by rewrite E.
Qed.

(** * Runtimes *)

(** Writing a runtime that has neither scopes nor generations. *)
Lemma write_idle_runtime m ra r r' :
  admission_inv m -> hm_runtimes m !! ra = Some r ->
  rt_current r = None -> rt_active_scopes r = 0 -> rt_attached_generations r = 0 ->
  rt_current r' = None -> rt_active_scopes r' = 0 -> rt_attached_generations r' = 0 ->
  admission_inv (write_runtime ra r' m).
Proof.
  intros [Hr Hg Hs Hd] Hra Hc Hsc Hat Hc' Hsc' Hat'. destruct (Hr ra r Hra) as [r1 r2 r3 r4 r5 r6].
  split; simpl.
  - intros ra1 r0 [(<- & <-)|(Hne & Hr1)]%lookup_insert_Some.
    + split; simpl; [congruence|unfold SIZE_MAX; lia|congruence| |done|congruence].
      unfold SALTS_SERVICE_HOST_MAX_ATTACHED_GENERATIONS. lia.
    + destruct (Hr ra1 r0 Hr1). by split.
  - intros ga c Hgc. destruct (Hg ga c Hgc) as [g1 g2 g3 g4 g5]. split; try done. simpl.
    intros ra1 Hown. destruct (g4 ra1 Hown) as (r0 & Hr0 & Hrest). exists r0. split; [|done].
    destruct (decide (ra1 = ra)) as [->|]; [|by rewrite lookup_insert_ne]. exfalso.
    rewrite Hat in r3. symmetry in r3. rewrite count_zero in r3. specialize (r3 ga c Hgc).
    unfold attached_to in r3. by rewrite Hown, bool_decide_true in r3.
  - intros sa s Hsa Horig. by apply (Hs sa s Hsa).
  - done.
Qed.

Lemma runtime_init_inv m ra r mutex :
  admission_inv m -> hm_runtimes m !! ra = Some r ->
  exists status r', salts_service_host_runtime_init (Some r) mutex = (status, Some r') /\
    admission_inv (write_runtime ra r' m).
Proof.
  intros Hinv Hra. unfold salts_service_host_runtime_init.
  destruct (rt_initialized r) eqn:Hi.
  { eexists _, _. split; [done|]. unfold write_runtime. rewrite insert_id by done. by destruct m. }
  destruct (ro_fresh _ _ _ (ai_runtime _ Hinv ra r Hra) Hi) as (Hc & Hsc & Hat).
  destruct (is_null mutex); eexists _, _; (split; [done|]); by eapply write_idle_runtime.
Qed.

Lemma runtime_destroy_inv m ra r :
  admission_inv m -> hm_runtimes m !! ra = Some r ->
  exists status r', salts_service_host_runtime_destroy (Some r) = (status, Some r') /\
    admission_inv (write_runtime ra r' m).
Proof.
  intros Hinv Hra. unfold salts_service_host_runtime_destroy.
  assert (admission_inv (write_runtime ra r m)) as Hsame
    by (unfold write_runtime; rewrite insert_id by done; by destruct m).
  destruct (rt_initialized r); cbn [negb]; [|by eexists _, _].
  case_match eqn:Hbusy; [by eexists _, _|]. eexists _, _. split; [done|]. destruct_bools.
  eapply write_idle_runtime; done.
Qed.

(** * Publication *)

Lemma scopes_on_unowned m ga c :
  admission_inv m -> hm_generations m !! ga = Some c -> gn_runtime_owner (ce_generation c) = None ->
  forall sa s, hm_scopes m !! sa = Some s -> scope_on_generation ga sa s = false.
Proof.
  intros Hinv Hc Hown. apply count_zero. rewrite <- (go_scopes _ _ _ (ai_generation _ Hinv ga c Hc)).
  by apply (unowned_idle c (go_cell _ _ _ (ai_generation _ Hinv ga c Hc))).
Qed.

(** Withdrawing the published generation [pa] of [ra]. *)
Definition closed (m : host_memory) (ra pa : addr) (r : salts_service_host_runtime)
    (c : generation_cell) : host_memory :=
  write_generation pa (set_gn_state SALTS_SERVICE_HOST_GENERATION_DRAINING (ce_generation c)) c
    (write_runtime ra (set_rt_current None r) m).

Lemma closed_inv m ra pa r c :
  admission_inv m -> hm_runtimes m !! ra = Some r -> rt_current r = Some pa ->
  hm_generations m !! pa = Some c -> admission_inv (closed m ra pa r c).
Proof.
  intros [Hr Hg Hs Hd] Hra Hcur Hc.
  destruct (ro_current _ _ _ (Hr ra r Hra) pa Hcur) as (c0 & Hc0 & Hst & Hown). simplify_eq.
  assert (rt_initialized r = true) as Hinit.
  { destruct (rt_initialized r) eqn:Hi; [done|]. destruct (ro_fresh _ _ _ (Hr ra r Hra) Hi). congruence. }
  split; simpl.
  - intros ra1 r1 [(<- & <-)|(Hne & Hr1)]%lookup_insert_Some.
    + destruct (Hr ra r Hra) as [r1 r2 r3 r4 r5 r6]. split; simpl; try done; [|congruence].
      rewrite (count_same _ _ _ _ c); done.
    + destruct (Hr ra1 r1 Hr1) as [q1 q2 q3 q4 q5 q6]. split; simpl; try done.
      * rewrite (count_same _ _ _ _ c); done.
      * intros ga1 Hcur1. destruct (q6 ga1 Hcur1) as (c1 & Hc1 & Hst1 & Hown1). exists c1.
        split; [|done]. destruct (decide (ga1 = pa)) as [->|]; [congruence|by rewrite lookup_insert_ne].
  - intros ga1 c1 Hc1. assert (forall c2, hm_generations m !! ga1 = Some c2 -> forall ra1,
        gn_runtime_owner (ce_generation c2) = Some ra1 -> exists r0,
        <[ra := set_rt_current None r]> (hm_runtimes m) !! ra1 = Some r0 /\ rt_initialized r0 = true /\
        gn_id (ce_generation c2) <= rt_last_generation_id r0 /\
        (gn_state (ce_generation c2) = SALTS_SERVICE_HOST_GENERATION_PUBLISHED -> ga1 <> pa ->
         rt_current r0 = Some ga1)) as Howner.
    { intros c2 Hc2 ra1 Ho. destruct (go_owner _ _ _ (Hg ga1 c2 Hc2) ra1 Ho) as (r0 & Hr0 & Hi & Hid & Hp).
      destruct (decide (ra1 = ra)) as [->|]; [|exists r0; by rewrite lookup_insert_ne; auto].
      simplify_eq. exists (set_rt_current None r). rewrite lookup_insert_eq. split_and!; [done..|].
      intros Hst1 Hne. specialize (Hp Hst1). congruence. }
    apply lookup_insert_Some in Hc1 as [(<- & <-)|(Hne & Hc1)].
    + destruct (Hg pa c Hc) as [g1 g2 g3 g4 g5]. split; simpl; try done.
      * unfold cell_ok in *. rewrite Hst in g3. simpl. done.
      * intros ra1 Ho. destruct (Howner c Hc ra1 Ho) as (r0 & ? & ? & ? & _). by exists r0.
    + destruct (Hg ga1 c1 Hc1) as [g1 g2 g3 g4 g5]. split; simpl; try done. intros ra1 Ho.
      destruct (Howner c1 Hc1 ra1 Ho) as (r0 & ? & ? & ? & Hp). exists r0. by auto.
  - intros sa s Hsa Horig. destruct (Hs sa s Hsa Horig) as (ra1 & ga1 & c1 & H1 & H2 & Hc1 & H4 & H5 & H6).
    destruct (decide (ga1 = pa)) as [->|Hne].
    + simplify_eq. eexists ra, pa, _. split_and!; [done|done|by apply lookup_insert_eq|done|done|by right].
    + exists ra1, ga1, c1. simpl. by rewrite lookup_insert_ne.
  - intros ga1 ra1 Hga. destruct (Hd ga1 ra1 Hga) as (c1 & Hc1 & Ho & Hst1). exists c1.
    split; [|done]. destruct (decide (ga1 = pa)) as [->|]; [congruence|by rewrite lookup_insert_ne].
Qed.

(** Attaching a built generation to a runtime that publishes none. *)
Definition attached (m : host_memory) (ra ga : addr) (r : salts_service_host_runtime)
    (c : generation_cell) : host_memory :=
  let g := ce_generation c in
  write_runtime ra
    (mk_runtime (rt_lock r) (Some ga) (gn_id g) (rt_active_scopes r)
       (size_inc (rt_attached_generations r)) (rt_initialized r))
    (write_generation ga
       (set_gn_state SALTS_SERVICE_HOST_GENERATION_PUBLISHED
          (set_gn_owner (Some ra) (gn_active_scopes g) g)) c m).

Lemma attached_inv m ra ga r c :
  admission_inv m -> hm_runtimes m !! ra = Some r -> rt_initialized r = true ->
  rt_current r = None -> rt_attached_generations r < SALTS_SERVICE_HOST_MAX_ATTACHED_GENERATIONS ->
  hm_generations m !! ga = Some c ->
  gn_state (ce_generation c) = SALTS_SERVICE_HOST_GENERATION_BUILT ->
  rt_last_generation_id r < gn_id (ce_generation c) -> admission_inv (attached m ra ga r c).
Proof.
  intros Hinv Hra Hinit Hcur Hmax Hc Hst Hid. pose proof Hinv as [Hr Hg Hs Hd].
  destruct (Hg ga c Hc) as [g1 g2 g3 g4 g5]. pose proof g3 as Hcell. unfold cell_ok in Hcell.
  rewrite Hst in Hcell. destruct Hcell as (Hown & Hz & Hpub).
  assert (forall ra1, attached_to ra1 ga c = false) as Hna
    by (intros ra1; unfold attached_to; by rewrite Hown).
  split; simpl.
  - intros ra1 r1 [(<- & <-)|(Hne & Hr1)]%lookup_insert_Some.
    + destruct (Hr ra r Hra) as [r1 r2 r3 r4 r5 r6].
      pose proof (count_nonneg (attached_to ra) (hm_generations m)) as Hnn.
      unfold SALTS_SERVICE_HOST_MAX_ATTACHED_GENERATIONS in *.
      assert (size_inc (rt_attached_generations r) = rt_attached_generations r + 1) as Hinc
        by (apply size_inc_small; unfold SIZE_MAX; lia).
      split; simpl; rewrite ?Hinc; try done.
      * rewrite (count_insert _ _ _ _ c Hc), Hna, r3. unfold attached_to. simpl.
        rewrite bool_decide_true by done. simpl. lia.
      * unfold SALTS_SERVICE_HOST_MAX_ATTACHED_GENERATIONS. lia.
      * congruence.
      * intros ga1 [= <-]. eexists. by rewrite lookup_insert_eq.
    + destruct (Hr ra1 r1 Hr1) as [q1 q2 q3 q4 q5 q6]. split; simpl; try done.
      * rewrite (count_same _ _ _ _ c); [done|done|]. rewrite Hna. unfold attached_to. simpl.
        rewrite bool_decide_false; congruence.
      * intros ga1 Hcur1. destruct (q6 ga1 Hcur1) as (c1 & Hc1 & Hst1 & Hown1). exists c1.
        split; [|done]. destruct (decide (ga1 = ga)) as [->|]; [congruence|by rewrite lookup_insert_ne].
  - intros ga1 c1 [(<- & <-)|(Hne & Hc1)]%lookup_insert_Some.
    + split; simpl; [done|done|by eexists| |done]. intros ra1 [= <-]. eexists.
      rewrite lookup_insert_eq. split_and!; [done|done|simpl; lia|done].
    + destruct (Hg ga1 c1 Hc1) as [q1 q2 q3 q4 q5]. split; simpl; try done. intros ra1 Ho.
      destruct (q4 ra1 Ho) as (r0 & Hr0 & Hi & Hle & Hp).
      destruct (decide (ra1 = ra)) as [->|]; [|exists r0; by rewrite lookup_insert_ne]. simplify_eq.
      eexists. rewrite lookup_insert_eq. split_and!; [done|done|simpl; lia|].
      intros Hst1. specialize (Hp Hst1). congruence.
  - intros sa s Hsa Horig. destruct (Hs sa s Hsa Horig) as (ra1 & ga1 & c1 & H1 & H2 & Hc1 & H4 & H5 & H6).
    exists ra1, ga1, c1. simpl. rewrite lookup_insert_ne by congruence. done.
  - intros ga1 ra1 Hga. destruct (Hd ga1 ra1 Hga) as (c1 & Hc1 & Ho & Hst1). exists c1.
    rewrite lookup_insert_ne by congruence. done.
Qed.

Lemma publish_rule m ra ga r c :
  admission_inv m -> hm_runtimes m !! ra = Some r -> hm_generations m !! ga = Some c ->
  exists status previous m',
    salts_service_host_runtime_publish (Some ra) (Some ga) m = Some (status, previous, m') /\
    match status with
    | SALTS_SERVICE_HOST_OK =>
        gn_state (ce_generation c) = SALTS_SERVICE_HOST_GENERATION_BUILT /\
        rt_last_generation_id r < gn_id (ce_generation c) /\
        rt_attached_generations r < SALTS_SERVICE_HOST_MAX_ATTACHED_GENERATIONS /\
        previous = Some (rt_current r) /\
        match rt_current r with
        | None => m' = attached m ra ga r c
        | Some pa => exists cp, hm_generations m !! pa = Some cp /\
            m' = attached (closed m ra pa r cp) ra ga (set_rt_current None r) c
        end /\ admission_inv m'
    | SALTS_SERVICE_HOST_INVALID_ARGUMENT =>
        m' = m /\ previous = None /\ rt_initialized r = false
    | SALTS_SERVICE_HOST_INVALID_STATE => m' = m /\ previous = None /\
        (gn_state (ce_generation c) <> SALTS_SERVICE_HOST_GENERATION_BUILT \/
         gn_id (ce_generation c) <= rt_last_generation_id r)
    | SALTS_SERVICE_HOST_BUSY => m' = m /\ previous = None /\
        rt_attached_generations r = SALTS_SERVICE_HOST_MAX_ATTACHED_GENERATIONS
    | _ => False
    end.
Proof.
  intros Hinv Hra Hga. unfold salts_service_host_runtime_publish. rewrite Hra. cbn [mbind option_bind].
  destruct (rt_initialized r) eqn:Hinit; cbn [negb]; [|by eexists _, _, _].
  rewrite Hga. cbn [mbind option_bind]. unfold gn_is.
  case_match eqn:Hguard.
  { eexists _, _, _. split; [done|]. split; [done|]. split; [done|].
    destruct (decide (gn_state (ce_generation c) = SALTS_SERVICE_HOST_GENERATION_BUILT)) as [Hst|]; [|by left].
    right. pose proof (go_cell _ _ _ (ai_generation _ Hinv ga c Hga)) as Hok. unfold cell_ok in Hok.
    rewrite Hst in Hok. destruct Hok as (Hown & Hz & Hpub). unfold cell_publishable in Hpub.
    rewrite Hst, Hown, Hz, Hpub in Hguard. simpl in Hguard. by apply Z.leb_le in Hguard. }
  apply orb_false_iff in Hguard as [Hguard Hid%Z.leb_gt].
  apply orb_false_iff in Hguard as [[[Hguard _]%orb_false_iff _]%orb_false_iff _].
  apply negb_false_iff, bool_decide_eq_true in Hguard.
  pose proof (ro_attached_max _ _ _ (ai_runtime _ Hinv ra r Hra)) as Hmax.
  destruct (Z.leb_spec SALTS_SERVICE_HOST_MAX_ATTACHED_GENERATIONS (rt_attached_generations r)).
  { eexists _, _, _. split; [done|]. split; [done|]. split; [done|]. lia. }
  destruct (rt_current r) as [pa|] eqn:Hcur.
  - destruct (ro_current _ _ _ (ai_runtime _ Hinv ra r Hra) pa Hcur) as (cp & Hcp & Hst & Hown).
    rewrite Hcp. cbn [mbind option_bind]. rewrite bool_decide_true by done. cbn [negb].
    assert (pa <> ga) as Hne by congruence.
    eexists _, _, _. split; [done|]. split_and!; [done..| |].
    + exists cp. split; [done|]. unfold attached, closed, write_runtime, write_generation, write_cell.
      simpl. by rewrite insert_insert_eq, Hinit, insert_insert_ne by done.
    + unfold write_runtime, write_generation, write_cell. simpl. rewrite insert_insert_ne by done.
      pose proof (closed_inv m ra pa r cp Hinv Hra Hcur Hcp) as Hinv1.
      assert (hm_runtimes (closed m ra pa r cp) !! ra = Some (set_rt_current None r)) as Hra1
        by (simpl; apply lookup_insert_eq).
      assert (hm_generations (closed m ra pa r cp) !! ga = Some c) as Hga1
        by (simpl; by rewrite lookup_insert_ne).
      pose proof (attached_inv _ ra ga (set_rt_current None r) c Hinv1 Hra1 Hinit eq_refl ltac:(done) Hga1
                    Hguard ltac:(done)) as Hinv2.
      unfold attached, closed, write_runtime, write_generation, write_cell in Hinv2. simpl in Hinv2.
      by rewrite insert_insert_eq, Hinit in Hinv2.
  - cbn [mbind option_bind]. pose proof (attached_inv m ra ga r c Hinv Hra Hinit Hcur ltac:(done) Hga
      Hguard Hid) as Hinv1.
    eexists _, _, _. split; [done|]. split_and!; [done..| |];
      unfold attached in *; rewrite Hinit in *; done.
Qed.

Lemma close_rule m ra r :
  admission_inv m -> hm_runtimes m !! ra = Some r ->
  exists status previous m',
    salts_service_host_runtime_close (Some ra) m = Some (status, previous, m') /\
    match status with
    | SALTS_SERVICE_HOST_OK => exists pa c, rt_current r = Some pa /\
        hm_generations m !! pa = Some c /\ previous = Some (Some pa) /\ m' = closed m ra pa r c /\
        admission_inv m'
    | SALTS_SERVICE_HOST_INVALID_ARGUMENT => m' = m /\ previous = None /\ rt_initialized r = false
    | SALTS_SERVICE_HOST_INVALID_STATE => m' = m /\ previous = None /\ rt_current r = None
    | _ => False
    end.
Proof.
  intros Hinv Hra. unfold salts_service_host_runtime_close. rewrite Hra. cbn [mbind option_bind].
  destruct (rt_initialized r) eqn:Hinit; cbn [negb]; [|by eexists _, _, _].
  destruct (rt_current r) as [pa|] eqn:Hcur; [|by eexists _, _, _].
  destruct (ro_current _ _ _ (ai_runtime _ Hinv ra r Hra) pa Hcur) as (c & Hc & Hst & Hown).
  rewrite Hc. cbn [mbind option_bind]. unfold gn_is. rewrite bool_decide_true by done. cbn [negb].
  eexists _, _, _. split; [done|]. exists pa, c. split_and!; [done..|]. by apply closed_inv.
Qed.

(** * Scopes *)

(** A scope object that is not a live original may hold anything that is not
    one either. *)
Lemma write_dead_scope m sa s s' :
  admission_inv m -> hm_scopes m !! sa = Some s -> scope_original sa s = false ->
  scope_original sa s' = false -> admission_inv (write_scope sa s' m).
Proof.
  intros [Hr Hg Hs Hd] Hsa Ho Ho'. split; simpl; [| | |done].
  - intros ra r Hra. destruct (Hr ra r Hra) as [r1 r2 r3 r4 r5 r6]. split; try done. simpl.
    rewrite (count_same _ _ _ _ s); [done|done|]. unfold scope_on_runtime. by rewrite Ho, Ho'.
  - intros ga c Hc. destruct (Hg ga c Hc) as [g1 g2 g3 g4 g5]. split; try done. simpl.
    rewrite (count_same _ _ _ _ s); [done|done|]. unfold scope_on_generation. by rewrite Ho, Ho'.
  - intros sa1 s1 [(<- & <-)|(Hne & Hs1)]%lookup_insert_Some.
    + unfold scope_ok. by rewrite Ho'.
    + by apply (Hs sa1 s1).
Qed.

(** Changing the two admission counts by [d] together with the scope at [sa],
    which is or becomes a live original on [ra] and [ga]. *)
Definition rescoped (m : host_memory) (ra ga sa : addr) (r : salts_service_host_runtime)
    (c : generation_cell) (d : Z) (s' : salts_service_host_scope) : host_memory :=
  let g := ce_generation c in
  write_scope sa s'
    (write_runtime ra (set_rt_counts (rt_active_scopes r + d) (rt_attached_generations r) r)
       (write_generation ga (set_gn_owner (gn_runtime_owner g) (gn_active_scopes g + d) g) c m)).

Lemma rescoped_inv m ra ga sa r c d s s' :
  admission_inv m -> hm_runtimes m !! ra = Some r -> hm_generations m !! ga = Some c ->
  hm_scopes m !! sa = Some s -> gn_runtime_owner (ce_generation c) = Some ra ->
  (gn_state (ce_generation c) = SALTS_SERVICE_HOST_GENERATION_PUBLISHED \/
   gn_state (ce_generation c) = SALTS_SERVICE_HOST_GENERATION_DRAINING) ->
  rt_active_scopes r + d <= SIZE_MAX -> gn_active_scopes (ce_generation c) + d <= SIZE_MAX ->
  (forall ra1, Z.b2z (scope_on_runtime ra1 sa s') =
     Z.b2z (scope_on_runtime ra1 sa s) + (if decide (ra1 = ra) then d else 0)) ->
  (forall ga1, Z.b2z (scope_on_generation ga1 sa s') =
     Z.b2z (scope_on_generation ga1 sa s) + (if decide (ga1 = ga) then d else 0)) ->
  (scope_original sa s' = true -> sc_runtime s' = Some ra /\ sc_generation s' = Some ga /\
     gn_id (ce_generation c) = sc_generation_id s') ->
  admission_inv (rescoped m ra ga sa r c d s').
Proof.
  intros [Hr Hg Hs Hd] Hra Hc Hsa Hown Hst Hmaxr Hmaxg Hcr Hcg Hnew.
  destruct (go_owner _ _ _ (Hg ga c Hc) ra Hown) as (r0 & Hr0 & Hinit & Hid & Hp). simplify_eq.
  split; simpl.
  - intros ra1 r1 Hr1. assert (forall r2, hm_runtimes m !! ra1 = Some r2 -> runtime_ok m ra1 r2) as Hold by auto.
    apply lookup_insert_Some in Hr1 as [(<- & <-)|(Hne & Hr1)].
    + destruct (Hold r Hra) as [q1 q2 q3 q4 q5 q6]. split; simpl; try done.
      * rewrite (count_insert _ _ _ _ s Hsa), Hcr, decide_True by done. lia.
      * rewrite (count_same _ _ _ _ c); done.
      * congruence.
      * intros ga1 Hcur. destruct (q6 ga1 Hcur) as (c1 & Hc1 & H1 & H2).
        destruct (decide (ga1 = ga)) as [->|]; [|exists c1; by rewrite lookup_insert_ne].
        simplify_eq. eexists. by rewrite lookup_insert_eq.
    + destruct (Hold r1 Hr1) as [q1 q2 q3 q4 q5 q6]. split; simpl; try done.
      * rewrite (count_insert _ _ _ _ s Hsa), Hcr, decide_False by done. lia.
      * rewrite (count_same _ _ _ _ c); done.
      * intros ga1 Hcur. destruct (q6 ga1 Hcur) as (c1 & Hc1 & H1 & H2).
        destruct (decide (ga1 = ga)) as [->|]; [|exists c1; by rewrite lookup_insert_ne].
        simplify_eq.
  - assert (forall ga1 c1, hm_generations m !! ga1 = Some c1 -> forall ra1,
        gn_runtime_owner (ce_generation c1) = Some ra1 -> exists r0,
        <[ra := set_rt_counts (rt_active_scopes r + d) (rt_attached_generations r) r]>
          (hm_runtimes m) !! ra1 = Some r0 /\ rt_initialized r0 = true /\
        gn_id (ce_generation c1) <= rt_last_generation_id r0 /\
        (gn_state (ce_generation c1) = SALTS_SERVICE_HOST_GENERATION_PUBLISHED ->
         rt_current r0 = Some ga1)) as Howner.
    { intros ga1 c1 Hc1 ra1 Ho. destruct (go_owner _ _ _ (Hg ga1 c1 Hc1) ra1 Ho) as (r0 & Hr0' & Hrest).
      destruct (decide (ra1 = ra)) as [->|]; [|exists r0; by rewrite lookup_insert_ne].
      simplify_eq. eexists. by rewrite lookup_insert_eq. }
    intros ga1 c1 [(<- & <-)|(Hne & Hc1)]%lookup_insert_Some.
    + pose proof (Howner ga c Hc) as Ho. destruct (Hg ga c Hc) as [q1 q2 q3 q4 q5].
      split; simpl; try done.
      * rewrite (count_insert _ _ _ _ s Hsa), Hcg, decide_True by done. lia.
      * unfold cell_ok in *. simpl. destruct Hst as [Hst|Hst]; rewrite Hst in *; done.
    + pose proof (Howner ga1 c1 Hc1) as Ho. destruct (Hg ga1 c1 Hc1) as [q1 q2 q3 q4 q5].
      split; simpl; try done.
      rewrite (count_insert _ _ _ _ s Hsa), Hcg, decide_False by congruence. lia.
  - intros sa1 s1 [(<- & <-)|(Hne & Hs1)]%lookup_insert_Some Horig.
    + destruct (Hnew Horig) as (H1 & H2 & H3). eexists ra, ga, _. simpl. rewrite lookup_insert_eq.
      by split_and!.
    + destruct (Hs sa1 s1 Hs1 Horig) as (ra1 & ga1 & c1 & H1 & H2 & Hc1 & H4 & H5 & H6).
      destruct (decide (ga1 = ga)) as [->|].
      * simplify_eq. eexists _, ga, _. simpl. rewrite lookup_insert_eq. by split_and!.
      * exists ra1, ga1, c1. simpl. by rewrite lookup_insert_ne.
  - intros ga1 ra1 Hga. destruct (Hd ga1 ra1 Hga) as (c1 & Hc1 & Ho & Hst1). exists c1.
    split; [|done]. destruct (decide (ga1 = ga)) as [->|]; [|by rewrite lookup_insert_ne].
    simplify_eq. destruct Hst; congruence.
Qed.

(** The scope is a live original of [ra] and [ga]. *)
Definition scope_names (ra ga sa : addr) (s : salts_service_host_scope) : Prop :=
  scope_original sa s = true /\ sc_runtime s = Some ra /\ sc_generation s = Some ga.

Lemma names_runtime ra ga sa s ra1 :
  scope_names ra ga sa s -> Z.b2z (scope_on_runtime ra1 sa s) = if decide (ra1 = ra) then 1 else 0.
Proof.
  intros (Ho & Hr & _). unfold scope_on_runtime. rewrite Ho, Hr. simpl.
  case_decide; [subst; by rewrite bool_decide_true|by rewrite bool_decide_false by congruence].
Qed.

Lemma names_generation ra ga sa s ga1 :
  scope_names ra ga sa s -> Z.b2z (scope_on_generation ga1 sa s) = if decide (ga1 = ga) then 1 else 0.
Proof.
  intros (Ho & _ & Hg). unfold scope_on_generation. rewrite Ho, Hg. simpl.
  case_decide; [subst; by rewrite bool_decide_true|by rewrite bool_decide_false by congruence].
Qed.

Lemma dead_uncounted sa s a :
  scope_original sa s = false -> scope_on_runtime a sa s = false /\ scope_on_generation a sa s = false.
Proof. intros Ho. unfold scope_on_runtime, scope_on_generation. by rewrite Ho. Qed.

(** The scope [acquire] writes. *)
Definition fresh_scope (ra ga sa : addr) (c : generation_cell) : salts_service_host_scope :=
  mk_scope (Some ra) (Some ga) (gn_id (ce_generation c)) (Some sa) true.

Lemma fresh_names ra ga sa c : scope_names ra ga sa (fresh_scope ra ga sa c).
Proof. split_and!; [|done..]. unfold scope_original. simpl. by rewrite bool_decide_true. Qed.

Lemma acquire_scope_rule m ra sa r s :
  admission_inv m -> hm_runtimes m !! ra = Some r -> hm_scopes m !! sa = Some s ->
  exists status m', salts_service_host_scope_acquire (Some ra) (Some sa) m = Some (status, m') /\
    match status with
    | SALTS_SERVICE_HOST_OK => exists ga c,
        rt_current r = Some ga /\ hm_generations m !! ga = Some c /\
        gn_state (ce_generation c) = SALTS_SERVICE_HOST_GENERATION_PUBLISHED /\
        gn_runtime_owner (ce_generation c) = Some ra /\ sc_live s = false /\
        m' = rescoped m ra ga sa r c 1 (fresh_scope ra ga sa c) /\ admission_inv m'
    | SALTS_SERVICE_HOST_INVALID_ARGUMENT => m' = m /\ rt_initialized r = false
    | SALTS_SERVICE_HOST_INVALID_STATE => m' = m /\ (sc_live s = true \/ rt_current r = None)
    | SALTS_SERVICE_HOST_CAPACITY_EXCEEDED => m' = m
    | _ => False
    end.
Proof.
  intros Hinv Hra Hsa. unfold salts_service_host_scope_acquire. rewrite Hra. cbn [mbind option_bind].
  destruct (rt_initialized r) eqn:Hi; cbn [negb]; [|by eexists _, _].
  rewrite Hsa. cbn [mbind option_bind]. destruct (sc_live s) eqn:Hlive.
  { eexists _, _. split; [done|]. cbn beta iota. split; [done|by left]. }
  destruct (rt_current r) as [ga|] eqn:Hcur.
  2: { eexists _, _. split; [done|]. cbn beta iota. split; [done|by right]. }
  destruct (ro_current _ _ _ (ai_runtime _ Hinv ra r Hra) ga Hcur) as (c & Hc & Hst & Hown).
  rewrite Hc. cbn [mbind option_bind]. unfold gn_is. rewrite bool_decide_true by done. cbn [negb].
  case_match eqn:Hmax; [by eexists _, _|]. apply orb_false_iff in Hmax as [Hm1%Z.eqb_neq Hm2%Z.eqb_neq].
  pose proof (ai_runtime _ Hinv ra r Hra) as [r1 r2 _ _ _ _].
  pose proof (ai_generation _ Hinv ga c Hc) as [g1 g2 _ _ _].
  pose proof (count_nonneg (scope_on_runtime ra) (hm_scopes m)).
  pose proof (count_nonneg (scope_on_generation ga) (hm_scopes m)).
  assert (scope_original sa s = false) as Hdead by (unfold scope_original; by rewrite Hlive).
  rewrite !size_inc_small by lia. eexists _, _. split; [done|]. exists ga, c.
  split_and!; [done..|]. eapply rescoped_inv; try done; [by left|lia|lia| |].
  - intros ra1. rewrite (names_runtime ra ga), (proj1 (dead_uncounted sa s ra1 Hdead)) by apply fresh_names.
    simpl. lia.
  - intros ga1. rewrite (names_generation ra ga), (proj2 (dead_uncounted sa s ga1 Hdead)) by apply fresh_names.
    simpl. lia.
Qed.

(** A live scope at its own address is always released; one that is dead, or
    that was copied there, never is. *)
Lemma release_scope_rule m sa s :
  admission_inv m -> hm_scopes m !! sa = Some s ->
  exists status m', salts_service_host_scope_release (Some sa) m = Some (status, m') /\
    if scope_original sa s then
      status = SALTS_SERVICE_HOST_OK /\ exists ra ga r c,
        scope_names ra ga sa s /\ hm_runtimes m !! ra = Some r /\ hm_generations m !! ga = Some c /\
        m' = rescoped m ra ga sa r c (-1) SALTS_SERVICE_HOST_SCOPE_INIT /\ admission_inv m'
    else m' = m /\ (status = SALTS_SERVICE_HOST_INVALID_ARGUMENT /\ sc_live s = false \/
                    status = SALTS_SERVICE_HOST_INVALID_STATE /\ sc_live s = true).
Proof.
  intros Hinv Hsa. unfold salts_service_host_scope_release. rewrite Hsa. cbn [mbind option_bind].
  destruct (scope_original sa s) eqn:Horig.
  2: { unfold scope_original in Horig.
       destruct (sc_live s); cbn [negb andb] in *; [|by eexists _, _; auto].
       rewrite Horig. cbn [negb]. eexists _, _; split; [done|]; by auto. }
  pose proof Horig as Ho. unfold scope_original in Ho. apply andb_true_iff in Ho as [Hlive Haddr].
  rewrite Hlive, Haddr. cbn [negb].
  destruct (ai_scope _ Hinv sa s Hsa Horig) as (ra & ga & c & Hsr & Hsg & Hc & Hown & Hid & Hst).
  assert (scope_names ra ga sa s) as Hnames by done. rewrite Hsr, Hsg.
  destruct (go_owner _ _ _ (ai_generation _ Hinv ga c Hc) ra Hown) as (r & Hra & Hi & _ & _).
  rewrite Hra. cbn [mbind option_bind]. rewrite Hi. cbn [negb]. rewrite Hc. cbn [mbind option_bind].
  pose proof (ai_runtime _ Hinv ra r Hra) as [r1 r2 _ _ _ _].
  pose proof (ai_generation _ Hinv ga c Hc) as [g1 g2 _ _ _].
  assert (0 < rt_active_scopes r).
  { rewrite r1. apply (count_pos _ _ sa s Hsa). apply Z.b2z_inj.
    by rewrite (names_runtime ra ga), decide_True. }
  assert (0 < gn_active_scopes (ce_generation c)).
  { rewrite g1. apply (count_pos _ _ sa s Hsa). apply Z.b2z_inj.
    by rewrite (names_generation ra ga), decide_True. }
  rewrite bool_decide_true, Hid, Z.eqb_refl by done. cbn [negb orb].
  rewrite !(proj2 (Z.eqb_neq _ _)) by lia. cbn [orb]. rewrite !size_dec_small by lia.
  eexists _, _. split; [done|]. split; [done|]. exists ra, ga, r, c. split_and!; [done..|].
  eapply rescoped_inv; try done; [lia|lia| |].
  - intros ra1. rewrite (names_runtime ra ga sa s) by done. simpl. repeat case_decide; done.
  - intros ga1. rewrite (names_generation ra ga sa s) by done. simpl. repeat case_decide; done.
Qed.

(** * The first critical section *)

Definition drain_begun (m : host_memory) (ra ga : addr) (c : generation_cell) : host_memory :=
  set_draining (<[ga := ra]> (hm_draining m))
    (write_generation ga (set_gn_state SALTS_SERVICE_HOST_GENERATION_STOPPING (ce_generation c)) c m).

(** What a drain may begin on: a withdrawn generation, or one whose graph was left
    unsettled by an earlier drain and has been settled since. *)
Definition drainable (c : generation_cell) : Prop :=
  gn_state (ce_generation c) = SALTS_SERVICE_HOST_GENERATION_DRAINING \/
  gn_state (ce_generation c) = SALTS_SERVICE_HOST_GENERATION_FAILED /\ cell_settled c = true.

(** Such a generation without scopes may go to [STOPPING]. *)
Lemma drain_begun_inv m ra ga c :
  admission_inv m -> hm_generations m !! ga = Some c ->
  gn_runtime_owner (ce_generation c) = Some ra -> gn_active_scopes (ce_generation c) = 0 ->
  drainable c -> admission_inv (drain_begun m ra ga c).
Proof.
  intros [Hr Hg Hs Hd] Hc Hown Hz Hdrain.
  assert (gn_state (ce_generation c) <> SALTS_SERVICE_HOST_GENERATION_PUBLISHED) as Hst
    by (by destruct Hdrain as [->|[-> _]]).
  assert (gn_state (ce_generation c) <> SALTS_SERVICE_HOST_GENERATION_STOPPING) as Hst'
    by (by destruct Hdrain as [->|[-> _]]).
  split; simpl.
  - intros ra1 r1 Hr1. destruct (Hr ra1 r1 Hr1) as [q1 q2 q3 q4 q5 q6]. split; simpl; try done.
    + rewrite (count_same _ _ _ _ c); done.
    + intros ga1 Hcur. destruct (q6 ga1 Hcur) as (c1 & Hc1 & Hst1 & Hown1). exists c1.
      rewrite lookup_insert_ne by congruence. done.
  - intros ga1 c1 [(<- & <-)|(Hne & Hc1)]%lookup_insert_Some.
    + destruct (Hg ga c Hc) as [q1 q2 q3 q4 q5]. split; simpl; try done.
      * unfold cell_ok in *. simpl. split_and!; [by eexists|done|].
        destruct Hdrain as [Hst1|[Hst1 Hset]]; rewrite Hst1 in q3; [left; by destruct q3|right].
        split; [|done]. destruct q3 as (_ & [[? _]|[[? _]|?]]); [congruence..|done].
      * intros ra1 Ho. destruct (q4 ra1 Ho) as (r1 & ? & ? & ? & _). by exists r1.
      * intros _. rewrite lookup_insert_eq. by rewrite Hown.
    + destruct (Hg ga1 c1 Hc1) as [q1 q2 q3 q4 q5]. split; simpl; try done.
      by rewrite lookup_insert_ne.
  - intros sa s Hsa Horig. destruct (Hs sa s Hsa Horig) as (ra1 & ga1 & c1 & H1 & H2 & Hc1 & H4 & H5 & H6).
    exists ra1, ga1, c1. simpl. rewrite lookup_insert_ne; [done|]. intros <-. simplify_eq.
    pose proof (go_scopes _ _ _ (Hg ga c Hc)) as Hcount. rewrite Hz in Hcount. symmetry in Hcount.
    rewrite count_zero in Hcount. specialize (Hcount sa s Hsa). unfold scope_on_generation in Hcount.
    by rewrite Horig, H2, bool_decide_true in Hcount.
  - intros ga1 ra1 [(<- & <-)|(Hne & Hga1)]%lookup_insert_Some.
    + eexists. by rewrite lookup_insert_eq.
    + rewrite lookup_insert_ne by done. by apply Hd.
Qed.

Lemma drain_begin_rule m ra ga r c :
  admission_inv m -> hm_runtimes m !! ra = Some r -> hm_generations m !! ga = Some c ->
  exists status m', drain_begin (Some ra) (Some ga) m = Some (status, m') /\
    match status with
    | SALTS_SERVICE_HOST_OK =>
        drainable c /\
        gn_runtime_owner (ce_generation c) = Some ra /\ gn_active_scopes (ce_generation c) = 0 /\
        m' = drain_begun m ra ga c /\ admission_inv m'
    | SALTS_SERVICE_HOST_INVALID_ARGUMENT => m' = m /\ rt_initialized r = false
    | SALTS_SERVICE_HOST_INVALID_STATE => m' = m /\
        (gn_runtime_owner (ce_generation c) <> Some ra \/
         gn_state (ce_generation c) <> SALTS_SERVICE_HOST_GENERATION_DRAINING /\
         gn_state (ce_generation c) <> SALTS_SERVICE_HOST_GENERATION_FAILED)
    | SALTS_SERVICE_HOST_BUSY => m' = m /\ 0 < gn_active_scopes (ce_generation c)
    | SALTS_SERVICE_HOST_CONFIGURATOR_ERROR => m' = m /\
        gn_state (ce_generation c) = SALTS_SERVICE_HOST_GENERATION_FAILED /\ cell_settled c = false
    | _ => False
    end.
Proof.
  intros Hinv Hra Hga. unfold drain_begin. rewrite Hra. cbn [mbind option_bind].
  destruct (rt_initialized r) eqn:Hinit; cbn [negb]; [|by eexists _, _].
  rewrite Hga. cbn [mbind option_bind].
  destruct (decide (gn_runtime_owner (ce_generation c) = Some ra)) as [Hown|Hown].
  2: { rewrite (bool_decide_false (_ = Some ra)) by done. cbn [negb orb]. eexists _, _. split; [done|].
       split; [done|by left]. }
  rewrite (bool_decide_true (_ = Some ra)) by done. cbn [negb orb].
  pose proof (ai_runtime _ Hinv ra r Hra) as [_ _ Hat _ _ _].
  pose proof (ai_generation _ Hinv ga c Hga) as [Hsc _ Hok _ _].
  assert (rt_attached_generations r <> 0) as Hne.
  { rewrite Hat. assert (0 < count_objects (attached_to ra) (hm_generations m)); [|lia].
    apply (count_pos _ _ ga c Hga). unfold attached_to. by rewrite bool_decide_true. }
  rewrite (proj2 (Z.eqb_neq _ _) Hne). cbn [orb]. unfold gn_is, cell_ok, cell_publishable in *.
  destruct (gn_state (ce_generation c)) eqn:Hst;
    rewrite ?(bool_decide_true (SALTS_SERVICE_HOST_GENERATION_DRAINING = _)),
      ?(bool_decide_true (SALTS_SERVICE_HOST_GENERATION_FAILED = _)) by done;
    rewrite ?(bool_decide_false (_ = SALTS_SERVICE_HOST_GENERATION_DRAINING)) by done;
    rewrite ?(bool_decide_false (_ = SALTS_SERVICE_HOST_GENERATION_FAILED)) by done;
    cbn [negb andb orb]; try (eexists _, _; split; [done|]; split; [done|by right]).
  - destruct Hok as [_ Hpub]. rewrite Hpub. cbn [negb].
    destruct (Z.eqb_spec (gn_active_scopes (ce_generation c)) 0); cbn [negb].
    + eexists _, _. split; [done|]. assert (drainable c) by (by left).
      split_and!; [done..|]. by apply drain_begun_inv.
    + eexists _, _. split; [done|]. split; [done|]. rewrite Hsc.
      pose proof (count_nonneg (scope_on_generation ga) (hm_scopes m)). lia.
  - destruct Hok as (Hz & [[? _]|[[? _]|(Hcs & Hca & Hgraph)]]); [congruence..|].
    unfold state_is. rewrite Hcs, Hz. rewrite (bool_decide_true (_ = SALTS_CONFIGURATOR_CONTEXT_FAILED)) by done.
    cbn [orb negb Z.eqb]. fold (cell_settled c). destruct (cell_settled c) eqn:Hset; cbn [negb].
    + eexists _, _. split; [done|]. assert (drainable c) by (by right).
      split_and!; [done..|]. by apply drain_begun_inv.
    + by eexists _, _.
Qed.

(** * The rest of the drain *)

Definition drained (m : host_memory) (ra ga : addr) (r : salts_service_host_runtime)
    (c' : generation_cell) : host_memory :=
  write_runtime ra (set_rt_counts (rt_active_scopes r) (rt_attached_generations r - 1) r)
    (write_cell ga c' (set_draining (delete ga (hm_draining m)) m)).

Lemma drained_inv m ra ga r c c' :
  admission_inv m -> hm_draining m !! ga = Some ra -> hm_runtimes m !! ra = Some r ->
  hm_generations m !! ga = Some c ->
  gn_state (ce_generation c') = SALTS_SERVICE_HOST_GENERATION_DRAINED ->
  generation_is_clear (ce_generation c') = true -> admission_inv (drained m ra ga r c').
Proof.
  intros Hinv Hdr Hra Hc Hst' Hclear. pose proof Hinv as [Hr Hg Hs Hd].
  destruct (Hd ga ra Hdr) as (c0 & Hc0 & Hown & Hst). simplify_eq.
  pose proof (go_cell _ _ _ (Hg ga c Hc)) as Hok. unfold cell_ok in Hok. rewrite Hst in Hok.
  destruct Hok as (_ & Hz & _).
  assert (cell_ok c') as Hok' by (unfold cell_ok; by rewrite Hst').
  assert (gn_runtime_owner (ce_generation c') = None) as Hown'
    by (unfold generation_is_clear in Hclear; by destruct_bools).
  destruct (unowned_idle c' Hok' Hown') as (Hz' & _).
  split; simpl.
  - intros ra1 r1 Hr1. assert (forall r2, hm_runtimes m !! ra1 = Some r2 -> runtime_ok m ra1 r2 /\
        forall ga1, rt_current r2 = Some ga1 -> exists c1, <[ga := c']> (hm_generations m) !! ga1 = Some c1 /\
          gn_state (ce_generation c1) = SALTS_SERVICE_HOST_GENERATION_PUBLISHED /\
          gn_runtime_owner (ce_generation c1) = Some ra1) as Hold.
    { intros r2 Hr2. split; [by apply Hr|]. intros ga1 Hcur.
      destruct (ro_current _ _ _ (Hr ra1 r2 Hr2) ga1 Hcur) as (c1 & Hc1 & Hst1 & Hown1). exists c1.
      rewrite lookup_insert_ne by congruence. done. }
    apply lookup_insert_Some in Hr1 as [(<- & <-)|(Hne & Hr1)].
    + destruct (Hold r Hra) as [[q1 q2 q3 q4 q5 _] q6]. split; simpl; try done.
      * rewrite (count_insert _ _ _ _ c Hc), q3. unfold attached_to. rewrite Hown, Hown'.
        rewrite bool_decide_true, bool_decide_false by done. simpl. lia.
      * lia.
      * intros Hi. destruct (q5 Hi) as (_ & _ & Hzero). exfalso. rewrite q3, count_zero in Hzero.
        specialize (Hzero ga c Hc). unfold attached_to in Hzero. by rewrite bool_decide_true in Hzero.
    + destruct (Hold r1 Hr1) as [[q1 q2 q3 q4 q5 _] q6]. split; simpl; try done.
      rewrite (count_same _ _ _ _ c); [done|done|]. unfold attached_to. rewrite Hown, Hown'.
      rewrite !bool_decide_false; congruence.
  - intros ga1 c1 [(<- & <-)|(Hne & Hc1)]%lookup_insert_Some.
    + split; simpl; [|rewrite Hz'; unfold SIZE_MAX; lia|done|congruence|congruence].
      rewrite Hz', <- Hz. apply (Hg ga c Hc).
    + destruct (Hg ga1 c1 Hc1) as [q1 q2 q3 q4 q5]. split; simpl; try done.
      * intros ra1 Ho. destruct (q4 ra1 Ho) as (r1 & Hr1 & Hrest).
        destruct (decide (ra1 = ra)) as [->|]; [|exists r1; by rewrite lookup_insert_ne].
        simplify_eq. eexists. by rewrite lookup_insert_eq.
      * by rewrite lookup_delete_ne.
  - intros sa s Hsa Horig. destruct (Hs sa s Hsa Horig) as (ra1 & ga1 & c1 & H1 & H2 & Hc1 & H4 & H5 & H6).
    exists ra1, ga1, c1. simpl. rewrite lookup_insert_ne; [done|]. intros <-. simplify_eq.
    destruct H6; congruence.
  - intros ga1 ra1 [Hne Hga1]%lookup_delete_Some. rewrite lookup_insert_ne by done. by apply Hd.
Qed.

(** The drain whose graph could not be settled. *)
Definition drain_failed (m : host_memory) (ga : addr) (c' : generation_cell) : host_memory :=
  write_cell ga c' (set_draining (delete ga (hm_draining m)) m).

Lemma drain_failed_inv m ra ga c c' :
  admission_inv m -> hm_draining m !! ga = Some ra -> hm_generations m !! ga = Some c ->
  gn_state (ce_generation c') = SALTS_SERVICE_HOST_GENERATION_FAILED ->
  gn_runtime_owner (ce_generation c') = Some ra -> gn_active_scopes (ce_generation c') = 0 ->
  gn_id (ce_generation c') = gn_id (ce_generation c) -> awaits_owner (gn_components (ce_generation c')) ->
  admission_inv (drain_failed m ga c').
Proof.
  intros Hinv Hdr Hc Hst' Hown' Hz' Hid Haw. pose proof Hinv as [Hr Hg Hs Hd].
  destruct (Hd ga ra Hdr) as (c0 & Hc0 & Hown & Hst). simplify_eq.
  pose proof (go_cell _ _ _ (Hg ga c Hc)) as Hok. unfold cell_ok in Hok. rewrite Hst in Hok.
  destruct Hok as (_ & Hz & _). split; simpl.
  - intros ra1 r1 Hr1. destruct (Hr ra1 r1 Hr1) as [q1 q2 q3 q4 q5 q6]. split; simpl; try done.
    + rewrite (count_same _ _ _ _ c); [done|done|]. unfold attached_to. by rewrite Hown, Hown'.
    + intros ga1 Hcur. destruct (q6 ga1 Hcur) as (c1 & Hc1 & Hst1 & Hown1). exists c1.
      rewrite lookup_insert_ne by congruence. done.
  - intros ga1 c1 [(<- & <-)|(Hne & Hc1)]%lookup_insert_Some.
    + destruct (Hg ga c Hc) as [q1 q2 q3 q4 q5]. split; simpl.
      * rewrite Hz', <- Hz. apply q1.
      * rewrite Hz'. unfold SIZE_MAX. lia.
      * unfold cell_ok. rewrite Hst'. auto.
      * intros ra1 Ho. rewrite Hid. destruct (q4 ra1) as (r1 & ? & ? & ? & _); [congruence|].
        exists r1. split_and!; [done..|]. congruence.
      * congruence.
    + destruct (Hg ga1 c1 Hc1) as [q1 q2 q3 q4 q5]. split; simpl; try done. by rewrite lookup_delete_ne.
  - intros sa s Hsa Horig. destruct (Hs sa s Hsa Horig) as (ra1 & ga1 & c1 & H1 & H2 & Hc1 & H4 & H5 & H6).
    exists ra1, ga1, c1. simpl. rewrite lookup_insert_ne; [done|]. intros <-. simplify_eq.
    destruct H6; congruence.
  - intros ga1 ra1 [Hne Hga1]%lookup_delete_Some. rewrite lookup_insert_ne by done. by apply Hd.
Qed.

Section Finish.
  Context {W : Type} `{LL : LeaseLaws W} `{SP : ServiceProviders W} `{OC : ObjectCallbacks W}
    `{PC : ProviderCallbacks W} `{!ProviderFrame W} `{!WorldFrame keeps_leases}.

(** The graph and the world once a drain has stopped what was active: a graph
    that was stopped before is left alone. *)
Definition drained_graph (c : generation_cell) (w : W) : storage * W :=
  if state_is SALTS_CONFIGURATOR_CONTEXT_ACTIVE (gn_components (ce_generation c))
  then ended_graph (ce_generation c) (ce_arrays c) w else (ga_graph (ce_arrays c), w).

(** No callback of the stop left a reference behind. *)
Definition drain_clears (c : generation_cell) (w : W) : bool :=
  negb (state_is SALTS_CONFIGURATOR_CONTEXT_ACTIVE (gn_components (ce_generation c))) ||
  graph_clear (ce_generation c) (drained_graph c w).1.

(** What the part of a drain outside the lock does to a stopping generation. *)
Definition worked (c : generation_cell) (w : W) (status : salts_service_host_status)
    (c' : generation_cell) (w' : W) : Prop :=
  let g := ce_generation c in
  let g' := ce_generation c' in
  let modules := ga_modules (ce_arrays c) in
  keeps_leases w (drained_graph c w).2 /\ gn_runtime_owner g' = gn_runtime_owner g /\
  gn_active_scopes g' = gn_active_scopes g /\ gn_id g' = gn_id g /\
  if drain_clears c w then
    status = SALTS_SERVICE_HOST_OK /\ registry_ok w' /\
    leases_returned g modules (drained_graph c w).2 w'
  else
    status = SALTS_SERVICE_HOST_CONFIGURATOR_ERROR /\ w' = (drained_graph c w).2 /\
    same_leases g' (ce_arrays c') g modules /\ gn_storage g' = gn_storage g /\
    ga_graph (ce_arrays c') = (drained_graph c w).1 /\
    unsettled_graph g' (ce_arrays c') /\ awaits_owner (gn_components g') /\
    exists j i, so_instances (drained_graph c w).1 !! j = Some i /\ callback_writes j (in_object i).

Lemma drain_work_rule c w :
  cell_publishable c \/ awaits_owner (gn_components (ce_generation c)) /\ cell_settled c = true ->
  leases_owned (ce_generation c) (ga_modules (ce_arrays c)) w ->
  exists status c' w', drain_work c w = Some (status, c', w') /\ worked c w status c' w'.
Proof.
  intros Hcase Ho. unfold drain_work, worked, drain_clears, drained_graph.
  set (g := ce_generation c) in *. destruct Hcase as [Hpub|[(Hcs & _) Hset]].
  - pose proof (proj1 (proj1 (publishable_rule _ _) Hpub)) as Hactive.
    unfold state_is. rewrite !(bool_decide_true (_ = SALTS_CONFIGURATOR_CONTEXT_ACTIVE)) by done.
    cbn [negb orb]. destruct (stop_graph_rule g (ce_arrays c) w Hpub) as [Hk Hstop].
    destruct (graph_clear g _) eqn:Hclear.
    + destruct Hstop as (c' & -> & Hset). cbn [mbind option_bind]. rewrite Hset, bool_decide_true by done.
      cbn [andb negb ga_modules].
      destruct (teardown_rule g c' (ce_arrays c) w _ Ho Hk) as (modules' & w' & -> & Hok & Hret).
      cbn [mbind option_bind]. rewrite bool_decide_true by done. cbn [negb]. by eexists _, _, _.
    + destruct Hstop as (-> & Hset & Hwrote). cbn [mbind option_bind].
      rewrite !(bool_decide_false (SALTS_CONFIGURATOR_INVALID_STATE = _)) by done. cbn [andb].
      rewrite ?(bool_decide_false (SALTS_CONFIGURATOR_INVALID_STATE = _)) by done. cbn [negb].
      eexists _, _, _. split; [done|]. split_and!; try done.
      split; [done|]. split; [done|]. by eapply stopped_repairable.
  - unfold state_is. rewrite Hcs, !(bool_decide_false (SALTS_CONFIGURATOR_CONTEXT_FAILED = _)) by done.
    cbn [negb orb mbind option_bind]. unfold cell_settled in Hset. fold g in Hset. rewrite Hset, bool_decide_true by done.
    cbn [andb negb ga_modules]. 
    destruct (teardown_rule g (gn_components g) (ce_arrays c) w w Ho ltac:(done))
      as (modules' & w' & -> & Hok & Hret).
    cbn [mbind option_bind]. rewrite bool_decide_true by done. cbn [negb]. by eexists _, _, _.
Qed.

(** A drain that has begun always ends: the graph is stopped in reverse order,
    then the leases are given back; if a callback left a reference behind, the
    generation fails with its leases instead. *)
Lemma drain_finish_rule m w ra ga c :
  admission_inv m -> hm_draining m !! ga = Some ra -> hm_generations m !! ga = Some c ->
  leases_owned (ce_generation c) (ga_modules (ce_arrays c)) w ->
  exists r status c' w' m', hm_runtimes m !! ra = Some r /\
    drain_finish ra ga m w = Some (status, m', w') /\ worked c w status c' w' /\ admission_inv m' /\
    exists c'', hm_generations m' !! ga = Some c'' /\ ce_arrays c'' = ce_arrays c' /\
    if drain_clears c w then
      m' = drained m ra ga r c'' /\
      gn_state (ce_generation c'') = SALTS_SERVICE_HOST_GENERATION_DRAINED /\
      generation_is_clear (ce_generation c'') = true
    else
      m' = drain_failed m ga c'' /\
      ce_generation c'' = set_gn_state SALTS_SERVICE_HOST_GENERATION_FAILED (ce_generation c').
Proof.
  intros Hinv Hdr Hc Ho. pose proof Hinv as [Hr Hg Hs Hd].
  destruct (Hd ga ra Hdr) as (c0 & Hc0 & Hown & Hst). simplify_eq.
  destruct (go_owner _ _ _ (Hg ga c Hc) ra Hown) as (r & Hra & _).
  pose proof (go_cell _ _ _ (Hg ga c Hc)) as Hok. unfold cell_ok in Hok.
  rewrite Hst in Hok. destruct Hok as (_ & Hz & Hcase).
  destruct (drain_work_rule c w Hcase Ho) as (status & c' & w' & Hwork & Hw).
  pose proof Hw as (_ & Hown' & Hz' & Hid & Hres).
  unfold drain_finish. rewrite Hc. cbn [mbind option_bind]. rewrite Hwork. cbn [mbind option_bind].
  unfold drain_end. destruct (drain_clears c w).
  - destruct Hres as (-> & _). rewrite bool_decide_true by done. cbn [negb hm_runtimes set_draining].
    rewrite Hra. cbn [mbind option_bind].
    assert (0 < rt_attached_generations r <= SALTS_SERVICE_HOST_MAX_ATTACHED_GENERATIONS) as Hat.
    { pose proof (Hr ra r Hra) as [_ _ Hcount ? _ _]. split; [|done]. rewrite Hcount.
      apply (count_pos _ _ ga c Hc). unfold attached_to. by rewrite bool_decide_true. }
    unfold SALTS_SERVICE_HOST_MAX_ATTACHED_GENERATIONS in Hat.
    rewrite size_dec_small by (unfold SIZE_MAX; lia).
    eexists r, _, c', w', _. split; [done|]. split; [done|]. split; [done|].
    assert (generation_is_clear (set_gn_owner None (gn_active_scopes (ce_generation c'))
      (set_gn_state SALTS_SERVICE_HOST_GENERATION_DRAINED (generation_clear (ce_generation c')))) = true)
      as Hclear by (unfold generation_is_clear; simpl; by rewrite Hz', Hz).
    split; [eapply drained_inv; [done|exact Hdr|done|done|done|exact Hclear]|].
    eexists. split; [apply lookup_insert_eq|]. split_and!; [done..|]. exact Hclear.
  - destruct Hres as (-> & _ & _ & _ & _ & _ & Haw & _). rewrite bool_decide_false by done. cbn [negb].
    eexists r, _, c', w', _. split; [done|]. split; [done|]. split; [done|].
    split; [by eapply drain_failed_inv; simpl; try done; congruence|].
    eexists. split; [apply lookup_insert_eq|]. by split_and!.
Qed.

End Finish.
