(* ===== verification/ServiceHostSystem.v ===== *)
(** The ServiceHost as a transition system: its calls on shared memory, the
    caller's own moves on scope and generation storage, and the steps the
    registries and components take on their own.

    What every reachable ServiceHost state has in common, and what can always be
    reached from it. *)

From S2P Require Import Prelude.
From S2P Require Import CMetaType.
From S2P Require Import CMetaFunction.
From S2P Require Import CMetaInterface.
From S2P Require Import CMetaData.
From S2P Require Import CMetaOperation.
From S2P Require Import CMetaObject.
From S2P Require Import CMetaComponent.
From S2P Require Import Configurator.
From S2P Require Import ConfiguratorPlan.
From S2P Require Import ConfiguratorLifecycle.
From S2P Require Import ConfiguratorProtocol.
From S2P Require Import PluginManifest.
From S2P Require Import PluginRegistry.
From S2P Require Import ServiceHost.
From S2P Require Import ServiceHostLeases.
From S2P Require Import ServiceHostBuild.
From S2P Require Import ServiceHostRuntime.
From S2P Require Import ServiceHostProtocol.

(** A call with the addresses of its objects.  A drain is two calls, its
    critical sections; the generation is [STOPPING] between them and no other
    call touches it. *)
Inductive host_call :=
  | Call_init (ra : addr) (mutex : option addr)
  | Call_destroy (ra : addr)
  | Call_build (ga : addr) (b : build_arguments) (new : generation_arrays)
  | Call_discard (ga : addr)
  | Call_recover (ga : addr)
  | Call_publish (ra ga : addr)
  | Call_close (ra : addr)
  | Call_acquire (ra sa : addr)
  | Call_release (sa : addr)
  | Call_find_service (sa : addr) (interface_desc : option cmeta_interface_desc)
  | Call_find_service_from (sa : addr) (provider_component_id : cstr)
      (interface_desc : option cmeta_interface_desc)
  | Call_generation_id (sa : addr)
  | Call_drain_begin (ra ga : addr)
  | Call_drain_finish (ra ga : addr).

(** A generation and what its arrays hold change together. *)
Definition store_generation {W : Type} (ga : addr) (m : host_memory)
    (result : option (salts_service_host_status * option salts_service_host_generation *
                      generation_arrays * W)) : option (salts_service_host_status * host_memory * W) :=
  '(status, g, a, w) ← result;
  g ← g;
  Some (status, write_cell ga (mk_cell g a) m, w).

Definition store_runtime {W : Type} (ra : addr) (m : host_memory) (w : W)
    (result : salts_service_host_status * option salts_service_host_runtime)
    : option (salts_service_host_status * host_memory * W) :=
  r ← result.2;
  Some (result.1, write_runtime ra r m, w).

(** The owner of the components of a failed generation has settled the graph. *)
Definition repaired (m : host_memory) (ga : addr) (c : generation_cell) (graph : storage) : host_memory :=
  write_cell ga (mk_cell (ce_generation c)
    (mk_arrays (ga_deployments (ce_arrays c)) graph (ga_modules (ce_arrays c)))) m.

Section System.
  Context {W : Type} `{LL : LeaseLaws W} `{SP : ServiceProviders W} `{OC : ObjectCallbacks W}
    `{PC : ProviderCallbacks W} `{!ProviderFrame W} `{!WorldFrame keeps_leases}.

Definition run_call (call : host_call) (m : host_memory) (w : W)
    : option (salts_service_host_status * host_memory * W) :=
  match call with
  | Call_init ra mutex =>
      store_runtime ra m w (salts_service_host_runtime_init (hm_runtimes m !! ra) mutex)
  | Call_destroy ra => store_runtime ra m w (salts_service_host_runtime_destroy (hm_runtimes m !! ra))
  | Call_build ga b new =>
      c ← hm_generations m !! ga;
      store_generation ga m
        (salts_service_host_generation_build (Some (ce_generation c)) (ce_arrays c) b new w)
  | Call_discard ga =>
      c ← hm_generations m !! ga;
      store_generation ga m
        (salts_service_host_generation_discard (Some (ce_generation c)) (ce_arrays c) w)
  | Call_recover ga =>
      c ← hm_generations m !! ga;
      store_generation ga m
        (salts_service_host_generation_recover (Some (ce_generation c)) (ce_arrays c) w)
  | Call_publish ra ga =>
      '(status, _, m) ← salts_service_host_runtime_publish (Some ra) (Some ga) m; Some (status, m, w)
  | Call_close ra =>
      '(status, _, m) ← salts_service_host_runtime_close (Some ra) m; Some (status, m, w)
  | Call_acquire ra sa =>
      '(status, m) ← salts_service_host_scope_acquire (Some ra) (Some sa) m; Some (status, m, w)
  | Call_release sa =>
      '(status, m) ← salts_service_host_scope_release (Some sa) m; Some (status, m, w)
  | Call_find_service sa interface_desc =>
      '(status, _, w) ← salts_service_host_scope_find_service (Some sa) interface_desc m w;
      Some (status, m, w)
  | Call_find_service_from sa provider interface_desc =>
      '(status, _, w) ← salts_service_host_scope_find_service_from (Some sa) provider interface_desc m w;
      Some (status, m, w)
  | Call_generation_id sa =>
      _ ← salts_service_host_scope_generation_id (Some sa) m; Some (SALTS_SERVICE_HOST_OK, m, w)
  | Call_drain_begin ra ga => '(status, m) ← drain_begin (Some ra) (Some ga) m; Some (status, m, w)
  | Call_drain_finish ra ga => drain_finish ra ga m w
  end.

(** The caller passes its own objects, and arrays as long as it says. *)
Definition callable (m : host_memory) (call : host_call) : Prop :=
  match call with
  | Call_init ra _ | Call_destroy ra | Call_close ra => is_Some (hm_runtimes m !! ra)
  | Call_build ga b new => is_Some (hm_generations m !! ga) /\
      exists s, ba_storage b = Some s /\ build_fits b s new
  | Call_discard ga | Call_recover ga => is_Some (hm_generations m !! ga)
  | Call_publish ra ga | Call_drain_begin ra ga =>
      is_Some (hm_runtimes m !! ra) /\ is_Some (hm_generations m !! ga)
  | Call_acquire ra sa => is_Some (hm_runtimes m !! ra) /\ is_Some (hm_scopes m !! sa)
  | Call_release sa | Call_find_service sa _ | Call_find_service_from sa _ _ | Call_generation_id sa =>
      is_Some (hm_scopes m !! sa)
  | Call_drain_finish ra ga => hm_draining m !! ga = Some ra
  end.

(** What else happens: a scope is copied over one that is not live there (but
    not back onto the address it was acquired at), a provider repairs the graph
    of a failed generation, and the registries and components go on. *)
Inductive host_step : host_memory * W -> host_memory * W -> Prop :=
  | step_call call m w status m' w' :
      callable m call -> run_call call m w = Some (status, m', w') -> host_step (m, w) (m', w')
  | step_copy m w sa ta s t :
      hm_scopes m !! sa = Some s -> hm_scopes m !! ta = Some t ->
      scope_original ta t = false -> scope_original ta s = false ->
      host_step (m, w) (write_scope ta s m, w)
  | step_repair m w ga c graph :
      hm_generations m !! ga = Some c ->
      gn_state (ce_generation c) = SALTS_SERVICE_HOST_GENERATION_FAILED ->
      host_step (m, w) (repaired m ga c graph, w)
  | step_world m w w' : keeps_leases w w' -> host_step (m, w) (m, w').

(** Every object is as its [INIT] macro leaves it. *)
Record host_initial (p : host_memory * W) : Prop := {
  hi_runtimes : forall ra r, hm_runtimes p.1 !! ra = Some r -> r = SALTS_SERVICE_HOST_RUNTIME_INIT;
  hi_generations : forall ga c, hm_generations p.1 !! ga = Some c ->
    ce_generation c = SALTS_SERVICE_HOST_GENERATION_INIT;
  hi_scopes : forall sa s, hm_scopes p.1 !! sa = Some s -> s = SALTS_SERVICE_HOST_SCOPE_INIT;
  hi_draining : hm_draining p.1 = ∅;
  hi_registry : registry_ok p.2;
}.

Definition host_reachable (p : host_memory * W) : Prop :=
  exists p0, host_initial p0 /\ rtc host_step p0 p.

(** * Leases *)

(** The generation at [ga] has a record of the lease. *)
Definition module_lease (m : host_memory) (ga : addr) (p : option addr * cmeta_plugin_lease) : Prop :=
  exists c i x, hm_generations m !! ga = Some c /\ (i < gn_module_count (ce_generation c))%nat /\
    ga_modules (ce_arrays c) !! i = Some x /\ p = (gn_registry (ce_generation c), mo_lease x).

(** Every generation holds the leases it records, and no two the same one. *)
Record lease_inv (m : host_memory) (w : W) : Prop := {
  li_owned : forall ga c, hm_generations m !! ga = Some c ->
    leases_owned (ce_generation c) (ga_modules (ce_arrays c)) w;
  li_apart : forall ga1 ga2 p, module_lease m ga1 p -> module_lease m ga2 p -> ga1 = ga2;
  li_registry : registry_ok w;
}.

Definition table_of (c : generation_cell) :=
  (gn_registry (ce_generation c), gn_storage (ce_generation c), gn_module_count (ce_generation c),
   ga_modules (ce_arrays c)).

Definition same_tables (m m' : host_memory) : Prop :=
  forall ga, table_of <$> hm_generations m' !! ga = table_of <$> hm_generations m !! ga.

Lemma same_tables_trans m1 m2 m3 : same_tables m1 m2 -> same_tables m2 m3 -> same_tables m1 m3.
Proof. intros H12 H23 ga. by rewrite H23. Qed.

Lemma same_tables_eq m m' : hm_generations m' = hm_generations m -> same_tables m m'.
Proof. intros E ga. by rewrite E. Qed.

Lemma same_tables_write m m' ga c c' :
  hm_generations m !! ga = Some c -> hm_generations m' = <[ga := c']> (hm_generations m) ->
  table_of c' = table_of c -> same_tables m m'.
Proof.
  intros Hc E Ht ga1. rewrite E. destruct (decide (ga1 = ga)) as [->|].
  - rewrite lookup_insert_eq, Hc. simpl. by rewrite Ht.
  - by rewrite lookup_insert_ne.
Qed.

Lemma same_tables_at m m' ga c' :
  same_tables m m' -> hm_generations m' !! ga = Some c' ->
  exists c, hm_generations m !! ga = Some c /\ table_of c' = table_of c.
Proof.
  intros Ht Hc'. specialize (Ht ga). rewrite Hc' in Ht. destruct (hm_generations m !! ga) as [c|]; [|done].
  exists c. split; [done|]. by apply (inj Some) in Ht.
Qed.

Lemma same_tables_sym m m' : same_tables m m' -> same_tables m' m.
Proof. intros Ht ga. by rewrite Ht. Qed.

Lemma module_lease_same m m' ga p : same_tables m m' -> module_lease m' ga p -> module_lease m ga p.
Proof.
  intros Ht (c' & i & x & Hc' & Hi & Hx & ->). destruct (same_tables_at _ _ _ _ Ht Hc') as (c & Hc & E).
  injection E as E1 E2 E3 E4. exists c, i, x. by rewrite <- E1, <- E3, <- E4.
Qed.

Lemma lease_inv_same m m' w : lease_inv m w -> same_tables m m' -> lease_inv m' w.
Proof.
  intros [Ho Ha Hok] Ht. split; [| |done].
  - intros ga c' Hc'. destruct (same_tables_at _ _ _ _ Ht Hc') as (c & Hc & E).
    injection E as E1 E2 E3 E4.
    rewrite E4. by eapply leases_owned_same; [by apply (Ho ga c)|..].
  - intros ga1 ga2 p H1 H2. apply (Ha ga1 ga2 p); by eapply module_lease_same.
Qed.

Lemma lease_inv_kept m w w' : lease_inv m w -> keeps_leases w w' -> lease_inv m w'.
Proof.
  intros [Ho Ha Hok] Hk. split; [|done|by apply Hk]. intros ga c Hc.
  by apply (leases_owned_kept _ _ w); [by apply (Ho ga c)|].
Qed.

(** Changing one generation: its new records hold leases no other records, and
    the others lose none. *)
Lemma lease_tables_write m m' w w' ga c' :
  lease_inv m w -> hm_generations m' = <[ga := c']> (hm_generations m) ->
  leases_owned (ce_generation c') (ga_modules (ce_arrays c')) w' ->
  (forall ga1 r k, ga1 <> ga -> module_lease m ga1 (r, k) -> lease_held r k w -> lease_held r k w') ->
  (forall ga1 i x, ga1 <> ga -> (i < gn_module_count (ce_generation c'))%nat ->
     ga_modules (ce_arrays c') !! i = Some x ->
     ~ module_lease m ga1 (gn_registry (ce_generation c'), mo_lease x)) ->
  lease_inv m' w'.
Proof.
  intros [Ho Ha Hok] E Ho' Hkeep Hapart.
  assert (forall ga1 p, ga1 <> ga -> module_lease m' ga1 p -> module_lease m ga1 p) as Hold.
  { intros ga1 p Hne (c & i & x & Hc & Hrest). rewrite E, lookup_insert_ne in Hc by done.
    by exists c, i, x. }
  assert (forall ga1 p, ga1 <> ga -> module_lease m' ga1 p -> ~ module_lease m' ga p) as Hself.
  { intros ga1 p Hne H1 (c & i & x & Hc & Hi & Hx & ->). rewrite E, lookup_insert_eq in Hc. simplify_eq.
    by eapply (Hapart ga1 i x), Hold. }
  split; [| |by apply (lo_registry _ _ _ Ho')].
  - intros ga1 c. rewrite E. intros [(<- & <-)|(Hne & Hc)]%lookup_insert_Some; [done|].
    destruct (Ho ga1 c Hc) as [Hf Ht Hd Hrec _]. split; [done..| |apply (lo_registry _ _ _ Ho')].
    intros i x Hi Hx. destruct (Hrec i x Hi Hx) as [Hwf Hheld]. split; [done|].
    eapply (Hkeep ga1); [done| |done]. by exists c, i, x.
  - intros ga1 ga2 p H1 H2. destruct (decide (ga1 = ga)) as [->|Hn1], (decide (ga2 = ga)) as [->|Hn2]; [done|..].
    + by destruct (Hself ga2 p).
    + by destruct (Hself ga1 p).
    + by apply (Ha ga1 ga2 p); apply Hold.
Qed.

(** The lease is still recorded there, or nobody holds it any more. *)
Definition recorded_or_gone (m' : host_memory) (w' : W) (ga : addr)
    (p : option addr * cmeta_plugin_lease) : Prop :=
  module_lease m' ga p \/ ~ lease_held p.1 p.2 w'.

(** No lease is lost: one that a generation recorded stays recorded or is given
    back, and so does each lease that the admission of a build took. *)
Definition leases_accounted (call : host_call) (m : host_memory) (w : W) (m' : host_memory) (w' : W)
    : Prop :=
  (forall ga p, module_lease m ga p -> recorded_or_gone m' w' ga p) /\
  forall ga b new s, call = Call_build ga b new -> ba_storage b = Some s ->
    w' = w \/ exists g1 modules1 w1, admitted b s new w g1 modules1 w1 /\
      forall i x, (i < gn_module_count g1)%nat -> modules1 !! i = Some x ->
        recorded_or_gone m' w' ga (gn_registry g1, mo_lease x).

Lemma records_same m m' w' :
  same_tables m m' -> forall ga p, module_lease m ga p -> recorded_or_gone m' w' ga p.
Proof. intros Ht ga p Hp. left. eapply module_lease_same; [by apply same_tables_sym|done]. Qed.

(** One generation gives its leases back. *)
Lemma records_returned m m' w1 w' ga c c' :
  hm_generations m !! ga = Some c -> hm_generations m' = <[ga := c']> (hm_generations m) ->
  leases_returned (ce_generation c) (ga_modules (ce_arrays c)) w1 w' ->
  forall ga1 p, module_lease m ga1 p -> recorded_or_gone m' w' ga1 p.
Proof.
  intros Hc E Hret ga1 p (c1 & i & x & Hc1 & Hi & Hx & ->). destruct (decide (ga1 = ga)) as [->|Hne].
  - simplify_eq. right. intros [_ Hno]%Hret. by eapply Hno.
  - left. exists c1, i, x. by rewrite E, lookup_insert_ne.
Qed.

(** A generation without records is rewritten. *)
Lemma records_fresh m m' w' ga c c' :
  hm_generations m !! ga = Some c -> gn_module_count (ce_generation c) = 0%nat ->
  hm_generations m' = <[ga := c']> (hm_generations m) ->
  forall ga1 p, module_lease m ga1 p -> recorded_or_gone m' w' ga1 p.
Proof.
  intros Hc Hz E ga1 p (c1 & i & x & Hc1 & Hi & Hx & ->). destruct (decide (ga1 = ga)) as [->|Hne].
  - simplify_eq. lia.
  - left. exists c1, i, x. by rewrite E, lookup_insert_ne.
Qed.

(** A generation that gives its leases back takes none from the others. *)
Lemma lease_inv_returned m m' w w1 w' ga c c' :
  lease_inv m w -> hm_generations m !! ga = Some c ->
  hm_generations m' = <[ga := c']> (hm_generations m) -> keeps_leases w w1 -> registry_ok w' ->
  leases_returned (ce_generation c) (ga_modules (ce_arrays c)) w1 w' ->
  generation_is_clear (ce_generation c') = true -> lease_inv m' w'.
Proof.
  intros Hinv Hc E Hk Hok Hret Hclear.
  assert (gn_module_count (ce_generation c') = 0%nat) as Hz
    by (unfold generation_is_clear in Hclear; by destruct_bools).
  eapply lease_tables_write; [done|done| | |].
  - apply clear_owned; [done| |done]. unfold generation_is_clear, gs_is_empty in Hclear. by destruct_bools.
  - intros ga1 r k Hne Hm Hheld. apply Hret. split; [by apply Hk|]. intros i x Hi Hx Heq. apply Hne.
    apply (li_apart _ _ Hinv ga1 ga (r, k)); [done|]. by exists c, i, x.
  - intros ga1 i x _ Hi. lia.
Qed.

(** * The invariant *)

Record host_inv (p : host_memory * W) : Prop := {
  hi_admission : admission_inv p.1;
  hi_leases : lease_inv p.1 p.2;
}.

Lemma clear_cell g :
  generation_is_clear g = true -> gn_runtime_owner g = None /\ gn_active_scopes g = 0 /\
    gn_module_count g = 0%nat /\ gs_module_capacity (gn_storage g) = 0%nat /\
    cx_state (gn_components g) = SALTS_CONFIGURATOR_CONTEXT_ZERO.
Proof. unfold generation_is_clear, gs_is_empty, state_is. intros Hc. destruct_bools. by split_and!. Qed.

Lemma reusable_idle c :
  cell_ok c -> generation_reusable (ce_generation c) (ce_arrays c) = true ->
  gn_runtime_owner (ce_generation c) = None /\ gn_active_scopes (ce_generation c) = 0 /\
  (cx_state (gn_components (ce_generation c)) = SALTS_CONFIGURATOR_CONTEXT_ZERO \/
   cx_state (gn_components (ce_generation c)) = SALTS_CONFIGURATOR_CONTEXT_FAILED).
Proof.
  unfold cell_ok, generation_reusable, awaits_owner. intros Hok Hre.
  destruct (gn_state (ce_generation c)); try done.
  - apply clear_cell in Hre. naive_solver.
  - apply negb_true_iff, orb_false_iff in Hre as [Hre _].
    repeat apply orb_false_iff in Hre as [Hre _]. apply negb_false_iff, is_null_true in Hre. naive_solver.
  - apply clear_cell in Hre. naive_solver.
Qed.

(** A build leaves a generation that its state describes. *)
Lemma verdict_cell c w b s new status g' a' w' :
  cell_ok c -> generation_reusable (ce_generation c) (ce_arrays c) = true ->
  leases_owned (ce_generation c) (ga_modules (ce_arrays c)) w -> registry_ok w' ->
  build_verdict (ce_generation c) (ce_arrays c) w b s new status g' a' w' ->
  g' = ce_generation c /\ a' = ce_arrays c /\ w' = w \/
  cell_ok (mk_cell g' a') /\ gn_runtime_owner g' = None /\ leases_owned g' (ga_modules a') w'.
Proof.
  intros Hok Hre Ho Hreg Hv. destruct (reusable_idle c Hok Hre) as (Hown & Hz & Hcs).
  assert (build_failed b s new w g' a' w' -> cell_ok (mk_cell g' a') /\ gn_runtime_owner g' = None /\
            leases_owned g' (ga_modules a') w') as Hfailed.
  { intros (Hst & Hown' & Hz' & g1 & modules1 & w1 & w2 & _ & _ & _ & Hcase). split; [|split; [done|]].
    - unfold cell_ok. simpl. rewrite Hst. split; [done|].
      destruct Hcase as [[Hc _]|(_ & _ & _ & Hc & _)]; [|by auto]. left. by apply clear_cell in Hc as (? & _ & _ & _ & ?).
    - destruct Hcase as [[Hc _]|(_ & _ & Hl & _)]; [|done].
      apply clear_cell in Hc as (_ & _ & ? & ? & _). by apply clear_owned. }
  destruct status; simpl in Hv; try done; try (by left); try (right; by apply Hfailed).
  - right. destruct Hv as [Hst _ _ Hown' Hz' Hpub Hl _]. split; [|done]. unfold cell_ok. simpl. by rewrite Hst.
  - right. destruct Hv as [Hf|(-> & -> & i & ->)]; [by apply Hfailed|]. split; [|split; [done|]].
    + unfold cell_ok. simpl. split; [done|]. naive_solver.
    + by eapply leases_owned_same.
Qed.

(** The leases that admission took are recorded, or given back. *)
Lemma verdict_leases m w ga g a b s new status g' a' w' :
  build_verdict g a w b s new status g' a' w' ->
  w' = w \/ exists g1 modules1 w1, admitted b s new w g1 modules1 w1 /\
    forall i x, (i < gn_module_count g1)%nat -> modules1 !! i = Some x ->
      recorded_or_gone (write_cell ga (mk_cell g' a') m) w' ga (gn_registry g1, mo_lease x).
Proof.
  assert (forall g1 modules1, same_leases g' a' g1 modules1 ->
    forall i x, (i < gn_module_count g1)%nat -> modules1 !! i = Some x ->
      recorded_or_gone (write_cell ga (mk_cell g' a') m) w' ga (gn_registry g1, mo_lease x)) as Hsame.
  { intros g1 modules1 (Hr & Hn & Hm) i x Hi Hx. left. eexists _, i, x. split; [apply lookup_insert_eq|].
    simpl. by rewrite Hr, Hn, Hm. }
  assert (build_failed b s new w g' a' w' -> exists g1 modules1 w1, admitted b s new w g1 modules1 w1 /\
    forall i x, (i < gn_module_count g1)%nat -> modules1 !! i = Some x ->
      recorded_or_gone (write_cell ga (mk_cell g' a') m) w' ga (gn_registry g1, mo_lease x)) as Hfailed.
  { intros (_ & _ & _ & g1 & modules1 & w1 & w2 & Had & _ & _ & Hcase). exists g1, modules1, w1. split; [done|].
    destruct Hcase as [[_ Hret]|(Hl & _)]; [|by apply Hsame].
    intros i x Hi Hx. right. intros [_ Hno]%Hret. by eapply Hno. }
  unfold build_verdict. destruct status; try (by intros (_ & _ & ->); left); try done; try (right; by apply Hfailed).
  - intros Hd. right. destruct (bd_admitted _ _ _ _ _ _ _ Hd) as (g1 & modules1 & w1 & Had & Hl).
    exists g1, modules1, w1. split; [done|]. by apply Hsame.
  - intros [Hf|(_ & -> & _)]; [right; by apply Hfailed|by left].
Qed.

Lemma write_same_cell m ga c : hm_generations m !! ga = Some c -> write_cell ga c m = m.
Proof. intros Hc. unfold write_cell. rewrite insert_id by done. by destruct m. Qed.

Definition call_keeps (m : host_memory) (w : W) (call : host_call) : Prop :=
  exists status m' w', run_call call m w = Some (status, m', w') /\ host_inv (m', w') /\
    leases_accounted call m w m' w'.

(** A call that changes no table, not a build. *)
Lemma call_keeps_tables m w call status m' w' :
  host_inv (m, w) -> run_call call m w = Some (status, m', w') ->
  admission_inv m' -> same_tables m m' -> keeps_leases w w' ->
  (forall ga b new, call = Call_build ga b new -> w' = w) -> call_keeps m w call.
Proof.
  intros [_ Hl] Hrun Hadm Ht Hk Hb. exists status, m', w'. split; [done|]. split; [split|split].
  - done.
  - eapply lease_inv_kept; [|done]. by eapply lease_inv_same.
  - by apply records_same.
  - intros ga b new s -> _. left. by eapply Hb.
Qed.

Lemma call_keeps_same m w call status :
  host_inv (m, w) -> run_call call m w = Some (status, m, w) -> call_keeps m w call.
Proof. intros Hinv Hrun. eapply call_keeps_tables; [done|exact Hrun|apply Hinv|done|done|done]. Qed.

(** A call that leaves its generation as it was. *)
Lemma store_same m (w : W) ga c status :
  hm_generations m !! ga = Some c ->
  store_generation ga m (Some (status, Some (ce_generation c), ce_arrays c, w)) = Some (status, m, w).
Proof.
  intros Hc. cbn [store_generation mbind option_bind].
  replace (mk_cell (ce_generation c) (ce_arrays c)) with c by (by destruct c). by rewrite write_same_cell.
Qed.

Lemma build_keeps m w ga b new :
  host_inv (m, w) -> callable m (Call_build ga b new) -> call_keeps m w (Call_build ga b new).
Proof.
  intros Hinv ([c Hc] & s & Hs & Hf). pose proof Hinv as [Hadm Hl]. simpl in *.
  destruct (build_rule (ce_generation c) (ce_arrays c) b s new w Hs Hf (li_registry _ _ Hl))
    as (status & g' & a' & w' & Hrun & Hk & Hv & Hnew & Hsame).
  assert (run_call (Call_build ga b new) m w = Some (status, write_cell ga (mk_cell g' a') m, w')) as Hcall
    by (cbn [run_call]; rewrite Hc; cbn [mbind option_bind]; by rewrite Hrun).
  assert (g' = ce_generation c -> a' = ce_arrays c -> w' = w -> call_keeps m w (Call_build ga b new)) as Hstay.
  { intros -> -> ->. eapply call_keeps_same; [done|]. rewrite Hcall.
    replace (mk_cell (ce_generation c) (ce_arrays c)) with c by (by destruct c). by rewrite write_same_cell. }
  destruct (generation_reusable (ce_generation c) (ce_arrays c)) eqn:Hre.
  2: { destruct (Hsame eq_refl) as (? & ? & ?). by apply Hstay. }
  pose proof (go_cell _ _ _ (ai_generation _ Hadm ga c Hc)) as Hok.
  destruct (verdict_cell c w b s new status g' a' w' Hok Hre (li_owned _ _ Hl ga c Hc)
              (kl_registry _ _ Hk (li_registry _ _ Hl)) Hv) as [(? & ? & ?)|(Hok' & Hown' & Ho')];
    [by apply Hstay|].
  destruct Hnew as [(? & ? & ?)|Hnew]; [by apply Hstay|].
  exists status, (write_cell ga (mk_cell g' a') m), w'. split; [done|]. split; [split; simpl|split].
  - eapply write_unowned; [done|done| |done|done]. by apply reusable_idle.
  - eapply lease_tables_write; [done|done|done| |].
    + intros ga1 r k _ _. apply Hk.
    + intros ga1 i x Hne Hi Hx (c1 & j & y & Hc1 & Hj & Hy & Heq).
      apply (Hnew i x Hi Hx). simpl in Heq.
      injection Heq as -> ->. by apply (lo_records _ _ _ (li_owned _ _ Hl ga1 c1 Hc1) j).
  - eapply (records_fresh m _ w' ga c); [done|by eapply reusable_empty|done].
  - intros ga1 b1 new1 s1 [= <- <- <-] Hs1. assert (s1 = s) as -> by congruence. by eapply verdict_leases.
Qed.

(** Writing back a generation that gave its leases back. *)
Lemma returned_inv m w w1 w' ga c g' a' :
  host_inv (m, w) -> hm_generations m !! ga = Some c -> gn_runtime_owner (ce_generation c) = None ->
  gn_state g' = SALTS_SERVICE_HOST_GENERATION_DRAINED -> generation_is_clear g' = true ->
  keeps_leases w w1 -> registry_ok w' ->
  leases_returned (ce_generation c) (ga_modules (ce_arrays c)) w1 w' ->
  host_inv (write_cell ga (mk_cell g' a') m, w').
Proof.
  intros [Hadm Hl] Hc Hown Hst Hclear Hk Hok Hret. split; simpl.
  - eapply write_unowned; [done..| |]; simpl; [by apply clear_cell|]. unfold cell_ok. simpl. by rewrite Hst.
  - by eapply (lease_inv_returned m _ w w1 w' ga c (mk_cell g' a')).
Qed.

(** A call of [discard] or [recover] that empties the generation. *)
Lemma returned_keeps_call m w w1 w' ga c g' a' status call :
  host_inv (m, w) -> hm_generations m !! ga = Some c -> gn_runtime_owner (ce_generation c) = None ->
  run_call call m w = Some (status, write_cell ga (mk_cell g' a') m, w') ->
  (forall ga1 b new, call <> Call_build ga1 b new) ->
  gn_state g' = SALTS_SERVICE_HOST_GENERATION_DRAINED -> generation_is_clear g' = true ->
  keeps_leases w w1 -> registry_ok w' ->
  leases_returned (ce_generation c) (ga_modules (ce_arrays c)) w1 w' -> call_keeps m w call.
Proof.
  intros Hinv Hc Hown Hrun Hb Hst Hclear Hk Hok Hret. eexists _, _, _. split; [exact Hrun|].
  split; [by eapply returned_inv|]. split; [by eapply records_returned|]. intros ? ? ? ? E. by destruct (Hb _ _ _ E).
Qed.

Lemma discard_keeps m w ga :
  host_inv (m, w) -> callable m (Call_discard ga) -> call_keeps m w (Call_discard ga).
Proof.
  intros Hinv [c Hc]. pose proof Hinv as [Hadm Hl]. simpl in *.
  pose proof (go_cell _ _ _ (ai_generation _ Hadm ga c Hc)) as Hok.
  destruct (decide (gn_state (ce_generation c) = SALTS_SERVICE_HOST_GENERATION_BUILT)) as [Hst|Hst].
  2: { eapply call_keeps_same; [done|]. cbn [run_call]. rewrite Hc. cbn [mbind option_bind].
       unfold salts_service_host_generation_discard. rewrite bool_decide_false by done. cbn [negb].
       by apply store_same. }
  unfold cell_ok in Hok. rewrite Hst in Hok. destruct Hok as (Hown & Hz & Hpub).
  destruct (discard_rule (ce_generation c) (ce_arrays c) w Hst Hown Hz Hpub (li_owned _ _ Hl ga c Hc))
    as (status & g' & a' & w' & Hrun & Hk & Hres).
  assert (run_call (Call_discard ga) m w = Some (status, write_cell ga (mk_cell g' a') m, w')) as Hcall
    by (cbn [run_call]; rewrite Hc; cbn [mbind option_bind]; by rewrite Hrun).
  destruct (graph_clear _ _).
  - destruct Hres as (-> & Hst' & Hclear & Hok' & Hret). by eapply returned_keeps_call.
  - destruct Hres as (-> & -> & Hst' & Hown' & Hz' & (Hr & Hn & Hm) & Hstor & _ & Hcs & _).
    assert (table_of (mk_cell g' a') = table_of c) as Ht
      by (unfold table_of; simpl; by rewrite Hr, Hn, Hm, Hstor).
    eapply call_keeps_tables; [done|exact Hcall| |by eapply same_tables_write|done|done].
    eapply write_unowned; [done|done|done|done|]. unfold cell_ok. simpl. rewrite Hst'. split; [done|]. auto.
Qed.

Lemma recover_keeps m w ga :
  host_inv (m, w) -> callable m (Call_recover ga) -> call_keeps m w (Call_recover ga).
Proof.
  intros Hinv [c Hc]. pose proof Hinv as [Hadm Hl]. simpl in *.
  pose proof (go_cell _ _ _ (ai_generation _ Hadm ga c Hc)) as Hok.
  assert (forall status, salts_service_host_generation_recover (Some (ce_generation c)) (ce_arrays c) w =
    Some (status, Some (ce_generation c), ce_arrays c, w) -> call_keeps m w (Call_recover ga)) as Hstay.
  { intros status Hr. apply (call_keeps_same m w _ status Hinv). cbn [run_call]. rewrite Hc.
    cbn [mbind option_bind]. rewrite Hr. by apply store_same. }
  destruct (decide (gn_state (ce_generation c) = SALTS_SERVICE_HOST_GENERATION_FAILED)) as [Hst|Hst].
  2: { apply (Hstay SALTS_SERVICE_HOST_INVALID_STATE). unfold salts_service_host_generation_recover.
       by rewrite bool_decide_false. }
  destruct (decide (gn_runtime_owner (ce_generation c) = None)) as [Hown|Hown].
  2: { apply (Hstay SALTS_SERVICE_HOST_INVALID_STATE). unfold salts_service_host_generation_recover.
       destruct (gn_runtime_owner (ce_generation c)); [|done]. cbn [is_null negb]. by rewrite orb_true_r. }
  unfold cell_ok, awaits_owner in Hok. rewrite Hst in Hok. destruct Hok as (Hz & Hcs).
  pose proof (recover_rule (ce_generation c) (ce_arrays c) w Hst Hown Hz (li_owned _ _ Hl ga c Hc)
                ltac:(naive_solver)) as Hrule.
  destruct (service_host_components_settled _ _); [|by eapply Hstay].
  destruct Hrule as (g' & a' & w' & Hrun & Hst' & Hclear & Hok' & Hret).
  eapply (returned_keeps_call m w w w' ga c g' a'); try done.
  cbn [run_call]. rewrite Hc. cbn [mbind option_bind]. by rewrite Hrun.
Qed.

End System.

(** * Tables of the calls that leave them alone *)

Lemma closed_tables m ra pa r c : hm_generations m !! pa = Some c -> same_tables m (closed m ra pa r c).
Proof. intros Hc. by eapply same_tables_write. Qed.

Lemma attached_tables m ra ga r c :
  hm_generations m !! ga = Some c -> same_tables m (attached m ra ga r c).
Proof. intros Hc. by eapply same_tables_write. Qed.

Lemma rescoped_tables m ra ga sa r c d s :
  hm_generations m !! ga = Some c -> same_tables m (rescoped m ra ga sa r c d s).
Proof. intros Hc. by eapply same_tables_write. Qed.

Lemma drain_begun_tables m ra ga c :
  hm_generations m !! ga = Some c -> same_tables m (drain_begun m ra ga c).
Proof. intros Hc. by eapply same_tables_write. Qed.

Section Safety.
  Context {W : Type} `{LL : LeaseLaws W} `{SP : ServiceProviders W} `{OC : ObjectCallbacks W}
    `{PC : ProviderCallbacks W} `{!ProviderFrame W} `{!WorldFrame keeps_leases}.

(** * The invariant holds in every reachable state *)

(** A call that a runtime's lock protects changes no table. *)
Lemma host_inv_tables m m' w :
  host_inv (m, w) -> admission_inv m' -> same_tables m m' -> host_inv (m', w).
Proof. intros [_ Hl] Hadm Ht. split; [done|]. by eapply lease_inv_same. Qed.

Lemma runtime_keeps m w ra call (result : salts_service_host_status * option salts_service_host_runtime) :
  host_inv (m, w) -> run_call call m w = store_runtime ra m w result ->
  (forall ga b new, call <> Call_build ga b new) ->
  (exists status r', result = (status, Some r') /\ admission_inv (write_runtime ra r' m)) ->
  call_keeps m w call.
Proof.
  intros Hinv Hrun Hb (status & r' & -> & Hadm).
  eapply call_keeps_tables; [done|exact Hrun|done|by apply same_tables_eq|done|done].
Qed.

Lemma publish_keeps m w ra ga :
  host_inv (m, w) -> callable m (Call_publish ra ga) -> call_keeps m w (Call_publish ra ga).
Proof.
  intros Hinv [[r Hr] [c Hc]]. pose proof Hinv as [Hadm _].
  destruct (publish_rule m ra ga r c Hadm Hr Hc) as (status & previous & m' & Hrun & Hres).
  assert (run_call (Call_publish ra ga) m w = Some (status, m', w)) as Hcall
    by (cbn [run_call]; by rewrite Hrun). simpl in Hadm.
  destruct status; try done; try (destruct Hres as [-> _]; by eapply call_keeps_same).
  destruct Hres as (Hst & _ & _ & _ & Hcase & Hadm').
  eapply call_keeps_tables; [done|exact Hcall|done| |done|done].
  destruct (rt_current r) as [pa|] eqn:Hcur; [|subst m'; by apply attached_tables].
  destruct Hcase as (cp & Hcp & ->). eapply same_tables_trans; [by apply (closed_tables m ra pa r cp)|].
  apply attached_tables. simpl. rewrite lookup_insert_ne; [done|]. intros ->.
  destruct (ro_current _ _ _ (ai_runtime _ Hadm ra r Hr) ga Hcur) as (c1 & Hc1 & Hst1 & _). congruence.
Qed.

Lemma close_keeps m w ra :
  host_inv (m, w) -> callable m (Call_close ra) -> call_keeps m w (Call_close ra).
Proof.
  intros Hinv [r Hr]. pose proof Hinv as [Hadm _].
  destruct (close_rule m ra r Hadm Hr) as (status & previous & m' & Hrun & Hres).
  assert (run_call (Call_close ra) m w = Some (status, m', w)) as Hcall
    by (cbn [run_call]; by rewrite Hrun).
  destruct status; try done; try (destruct Hres as [-> _]; by eapply call_keeps_same).
  destruct Hres as (pa & c & _ & Hc & _ & -> & Hadm').
  eapply call_keeps_tables; [done|exact Hcall|done|by apply closed_tables|done|done].
Qed.

Lemma acquire_keeps m w ra sa :
  host_inv (m, w) -> callable m (Call_acquire ra sa) -> call_keeps m w (Call_acquire ra sa).
Proof.
  intros Hinv [[r Hr] [s Hs]]. pose proof Hinv as [Hadm _].
  destruct (acquire_scope_rule m ra sa r s Hadm Hr Hs) as (status & m' & Hrun & Hres).
  assert (run_call (Call_acquire ra sa) m w = Some (status, m', w)) as Hcall
    by (cbn [run_call]; by rewrite Hrun).
  destruct status; try done; try (by (subst m' || destruct Hres as [-> _]); eapply call_keeps_same).
  destruct Hres as (ga & c & _ & Hc & _ & _ & _ & -> & Hadm').
  eapply call_keeps_tables; [done|exact Hcall|done|by apply rescoped_tables|done|done].
Qed.

Lemma release_keeps m w sa :
  host_inv (m, w) -> callable m (Call_release sa) -> call_keeps m w (Call_release sa).
Proof.
  intros Hinv [s Hs]. pose proof Hinv as [Hadm _].
  destruct (release_scope_rule m sa s Hadm Hs) as (status & m' & Hrun & Hres).
  assert (run_call (Call_release sa) m w = Some (status, m', w)) as Hcall
    by (cbn [run_call]; by rewrite Hrun).
  destruct (scope_original sa s); [|destruct Hres as [-> _]; by eapply call_keeps_same].
  destruct Hres as (_ & ra & ga & r & c & _ & _ & Hc & -> & Hadm').
  eapply call_keeps_tables; [done|exact Hcall|done|by apply rescoped_tables|done|done].
Qed.

(** A lookup through a live scope reads the generation that the scope pins. *)
Lemma scope_find_rule m w sa s find :
  host_inv (m, w) -> hm_scopes m !! sa = Some s -> (forall c st, keeps_leases w (find c st).2) ->
  exists status service w', scope_find (Some sa) m w find = Some (status, service, w') /\ keeps_leases w w'.
Proof.
  intros [Hadm _] Hs Hfind. unfold scope_find. rewrite Hs. cbn [mbind option_bind].
  destruct (sc_live s) eqn:Hlive; cbn [negb]; [|by eexists _, _, _].
  case_bool_decide as Ha; cbn [negb]; [|by eexists _, _, _].
  assert (scope_original sa s = true) as Horig
    by (unfold scope_original; rewrite Hlive, bool_decide_true by done; done).
  destruct (ai_scope _ Hadm sa s Hs Horig) as (ra & ga & c & _ & Hga & Hc & _). cbn [fst] in Hc.
  rewrite Hga, Hc. cbn [mbind option_bind].
  specialize (Hfind (Some (gn_components (ce_generation c))) (ga_graph (ce_arrays c))).
  destruct (find _ _) as [[status service] w']. by eexists _, _, _.
Qed.

Lemma find_keeps m w sa interface_desc :
  host_inv (m, w) -> callable m (Call_find_service sa interface_desc) ->
  call_keeps m w (Call_find_service sa interface_desc).
Proof.
  intros Hinv [s Hs].
  destruct (scope_find_rule m w sa s (fun c st => salts_configurator_context_find_service c st interface_desc w)
    Hinv Hs) as (status & service & w' & Hrun & Hk); [intros; apply find_service_frame|].
  apply (call_keeps_tables m w _ status m w'); [done| |apply Hinv|done|done|done].
  cbn [run_call]. unfold salts_service_host_scope_find_service. by rewrite Hrun.
Qed.

Lemma find_from_keeps m w sa provider interface_desc :
  host_inv (m, w) -> callable m (Call_find_service_from sa provider interface_desc) ->
  call_keeps m w (Call_find_service_from sa provider interface_desc).
Proof.
  intros Hinv [s Hs].
  destruct (scope_find_rule m w sa s
    (fun c st => salts_configurator_context_find_service_from c st provider interface_desc w)
    Hinv Hs) as (status & service & w' & Hrun & Hk); [intros; apply find_service_from_frame|].
  apply (call_keeps_tables m w _ status m w'); [done| |apply Hinv|done|done|done].
  cbn [run_call]. unfold salts_service_host_scope_find_service_from. by rewrite Hrun.
Qed.

Lemma drain_begin_keeps m w ra ga :
  host_inv (m, w) -> callable m (Call_drain_begin ra ga) -> call_keeps m w (Call_drain_begin ra ga).
Proof.
  intros Hinv [[r Hr] [c Hc]]. pose proof Hinv as [Hadm _].
  destruct (drain_begin_rule m ra ga r c Hadm Hr Hc) as (status & m' & Hrun & Hres).
  assert (run_call (Call_drain_begin ra ga) m w = Some (status, m', w)) as Hcall
    by (cbn [run_call]; by rewrite Hrun).
  destruct status; try done; try (destruct Hres as [-> _]; by eapply call_keeps_same).
  destruct Hres as (_ & _ & _ & -> & Hadm').
  eapply call_keeps_tables; [done|exact Hcall|done|by apply drain_begun_tables|done|done].
Qed.

(** The generation is drained: nothing is left in it. *)
Definition retired (ga : addr) (m : host_memory) : Prop :=
  exists c, hm_generations m !! ga = Some c /\
    gn_state (ce_generation c) = SALTS_SERVICE_HOST_GENERATION_DRAINED /\
    generation_is_clear (ce_generation c) = true.

(** The generation is attached, with nothing of it active, but a reference is
    left that its owner must empty. *)
Definition unsettled_at (ra ga : addr) (m : host_memory) : Prop :=
  exists c, hm_generations m !! ga = Some c /\ gn_runtime_owner (ce_generation c) = Some ra /\
    gn_state (ce_generation c) = SALTS_SERVICE_HOST_GENERATION_FAILED /\
    awaits_owner (gn_components (ce_generation c)) /\ cell_settled c = false.

(** A drain that has begun ends, and retires the generation unless a callback
    left a reference behind. *)
Lemma drain_finish_keeps m w ra ga c :
  host_inv (m, w) -> hm_draining m !! ga = Some ra -> hm_generations m !! ga = Some c ->
  exists status m' w', run_call (Call_drain_finish ra ga) m w = Some (status, m', w') /\
    host_inv (m', w') /\ leases_accounted (Call_drain_finish ra ga) m w m' w' /\
    if drain_clears c w then status = SALTS_SERVICE_HOST_OK /\ retired ga m'
    else status = SALTS_SERVICE_HOST_CONFIGURATOR_ERROR /\ unsettled_at ra ga m' /\
         exists j r, callback_writes j r.
Proof.
  intros [Hadm Hl] Hdr Hc. simpl in *. destruct (ai_draining _ Hadm ga ra Hdr) as (c0 & Hc0 & Hown & Hst).
  simplify_eq.
  destruct (drain_finish_rule m w ra ga c Hadm Hdr Hc (li_owned _ _ Hl ga c Hc))
    as (r & status & c' & w' & m' & Hr & Hrun & (Hk & Hown' & Hz' & Hid & Hres) & Hadm' & c'' & Hc'' & Harr & Hcase).
  exists status, m', w'. split; [exact Hrun|]. destruct (drain_clears c w).
  - destruct Hres as (-> & Hok & Hret), Hcase as (-> & Hst'' & Hclear).
    split; [split; [done|]|split].
    + eapply (lease_inv_returned m _ w _ w' ga c c''); [done..| |done]. exact Hret.
    + split; [|done]. by eapply (records_returned m _ _ w' ga c c'').
    + split; [done|]. by exists c''.
  - destruct Hres as (-> & -> & (Er & En & Em) & Es & Eg & (H1 & H2 & H3) & Haw & j & i & _ & Hw).
    destruct Hcase as (-> & E).
    assert (same_tables m (drain_failed m ga c'')) as Ht.
    { eapply same_tables_write; [done|done|]. unfold table_of. by rewrite E, Harr, Em; simpl; rewrite Er, En, Es. }
    split; [split; [done|]|split].
    + eapply lease_inv_kept; [|done]. by eapply lease_inv_same.
    + split; [|done]. by apply records_same.
    + split; [done|]. split; [|by exists j, (in_object i)]. exists c''. split; [done|].
      unfold cell_settled. rewrite E, Harr. simpl. rewrite Hown'. by split_and!.
Qed.

Lemma finish_keeps m w ra ga :
  host_inv (m, w) -> callable m (Call_drain_finish ra ga) -> call_keeps m w (Call_drain_finish ra ga).
Proof.
  intros Hinv Hdr. destruct (ai_draining _ (hi_admission _ Hinv) ga ra Hdr) as (c & Hc & _).
  destruct (drain_finish_keeps m w ra ga c Hinv Hdr Hc) as (status & m' & w' & Hrun & Hinv' & Hacc & _).
  by exists status, m', w'.
Qed.

(** No call fails to have an outcome, and every outcome is a good state. *)
Lemma call_rule m w call : host_inv (m, w) -> callable m call -> call_keeps m w call.
Proof.
  intros Hinv Hcall. destruct call;
    eauto using build_keeps, discard_keeps, recover_keeps, publish_keeps, close_keeps, acquire_keeps,
      release_keeps, find_keeps, find_from_keeps, drain_begin_keeps, finish_keeps.
  - destruct Hcall as [r Hr]. eapply runtime_keeps; [done|reflexivity|done|]. rewrite Hr.
    apply runtime_init_inv; [apply Hinv|done].
  - destruct Hcall as [r Hr]. eapply runtime_keeps; [done|reflexivity|done|]. rewrite Hr.
    apply runtime_destroy_inv; [apply Hinv|done].
  - destruct Hcall as [s Hs]. apply (call_keeps_same m w _ SALTS_SERVICE_HOST_OK Hinv). cbn [run_call].
    unfold salts_service_host_scope_generation_id. by rewrite Hs.
Qed.

Lemma repair_inv m w ga c graph :
  host_inv (m, w) -> hm_generations m !! ga = Some c ->
  gn_state (ce_generation c) = SALTS_SERVICE_HOST_GENERATION_FAILED ->
  host_inv (repaired m ga c graph, w).
Proof.
  intros [Hadm Hl] Hc Hst. pose proof (go_cell _ _ _ (ai_generation _ Hadm ga c Hc)) as Hok.
  split; simpl.
  - apply write_arrays_inv; [done|done|]. unfold cell_ok in *. simpl. by rewrite Hst in *.
  - eapply lease_inv_same; [done|]. by eapply same_tables_write.
Qed.

Lemma step_inv p q : host_inv p -> host_step p q -> host_inv q.
Proof.
  intros Hinv Hstep. destruct Hstep as [call m w status m' w' Hcall Hrun|m w sa ta s t Hs Ht Hdead Hnew|
                                        m w ga c graph Hc Hst|m w w' Hk].
  - destruct (call_rule m w call Hinv Hcall) as (st & m1 & w1 & Hrun1 & Hinv1 & _). rewrite Hrun in Hrun1.
    by simplify_eq.
  - eapply host_inv_tables; [done| |by apply same_tables_eq]. eapply write_dead_scope; [|done..]. apply Hinv.
  - by apply repair_inv.
  - destruct Hinv as [Hadm Hl]. split; [done|]. by eapply lease_inv_kept.
Qed.

Lemma initial_inv p : host_initial p -> host_inv p.
Proof.
  destruct p as [m w]. intros [Hr Hg Hs Hd Hok]. simpl in *.
  assert (forall a, count_objects (scope_on_runtime a) (hm_scopes m) = 0) as Hn1
    by (intros a; apply count_zero; intros sa s Hsa; by rewrite (Hs sa s Hsa)).
  assert (forall a, count_objects (scope_on_generation a) (hm_scopes m) = 0) as Hn2
    by (intros a; apply count_zero; intros sa s Hsa; by rewrite (Hs sa s Hsa)).
  assert (forall a, count_objects (attached_to a) (hm_generations m) = 0) as Hn3
    by (intros a; apply count_zero; intros ga c Hc; unfold attached_to; by rewrite (Hg ga c Hc)).
  split; simpl; split.
  - intros ra r Hra. rewrite (Hr ra r Hra). split; simpl; try done; by rewrite ?Hn1, ?Hn3.
  - intros ga c Hc. split; rewrite ?(Hg ga c Hc); simpl; try done.
    all: unfold cell_ok; by rewrite ?(Hg ga c Hc), ?Hn2.
  - intros sa s Hsa. rewrite (Hs sa s Hsa). done.
  - intros ga ra. by rewrite Hd, lookup_empty.
  - intros ga c Hc. rewrite (Hg ga c Hc). by apply clear_owned.
  - intros ga1 ga2 p (c & i & x & Hc & Hi & _). rewrite (Hg ga1 c Hc) in Hi. simpl in Hi. lia.
  - done.
Qed.

Lemma reachable_rule p : host_reachable p -> host_inv p.
Proof.
  intros (p0 & Hinit & Hsteps). apply initial_inv in Hinit.
  induction Hsteps as [|p q r Hpq _ IH]; [done|]. by eapply IH, step_inv.
Qed.

(** * What can always be reached *)

(** A sequence of calls of which each answers [SALTS_SERVICE_HOST_OK]. *)
Fixpoint run_calls (calls : list host_call) (m : host_memory) (w : W) : option (host_memory * W) :=
  match calls with
  | [] => Some (m, w)
  | call :: calls =>
      '(status, m, w) ← run_call call m w;
      if bool_decide (status = SALTS_SERVICE_HOST_OK) then run_calls calls m w else None
  end.

Definition retires (calls : list host_call) (ga : addr) (m : host_memory) (w : W) : Prop :=
  exists m' w', run_calls calls m w = Some (m', w') /\ host_inv (m', w') /\ retired ga m'.

Lemma retires_cons call calls ga m w m1 w1 :
  run_call call m w = Some (SALTS_SERVICE_HOST_OK, m1, w1) -> retires calls ga m1 w1 ->
  retires (call :: calls) ga m w.
Proof.
  intros Hrun (m' & w' & Hcalls & Hrest). exists m', w'. split; [|done]. simpl. by rewrite Hrun.
Qed.

(** The calls that retire the generation at [ga] of the runtime at [ra]. *)
Definition retiring (ra ga : addr) (call : host_call) : Prop :=
  match call with
  | Call_close ra1 => ra1 = ra
  | Call_release _ => True
  | Call_drain_begin ra1 ga1 | Call_drain_finish ra1 ga1 => ra1 = ra /\ ga1 = ga
  | _ => False
  end.

(** The generation waits for its owner, and any repair that settles the graph
    lets the next drain retire it. *)
Definition awaits_repair (ra ga : addr) (m : host_memory) (w : W) : Prop :=
  exists c, hm_generations m !! ga = Some c /\ unsettled_at ra ga m /\
    forall graph, service_host_components_settled (gn_components (ce_generation c)) graph = true ->
      retires [Call_drain_begin ra ga; Call_drain_finish ra ga] ga (repaired m ga c graph) w.

(** After these calls, all but perhaps a last drain successful, the generation
    waits for its owner: a drain is refused only because a callback of the
    teardown wrote a reference. *)
Definition blocks (calls : list host_call) (ra ga : addr) (m : host_memory) (w : W) : Prop :=
  exists m1 w1, run_calls calls m w = Some (m1, w1) /\
    (awaits_repair ra ga m1 w1 \/
     exists m2 w2, run_call (Call_drain_finish ra ga) m1 w1 =
         Some (SALTS_SERVICE_HOST_CONFIGURATOR_ERROR, m2, w2) /\
       (exists j r, callback_writes j r) /\ awaits_repair ra ga m2 w2).

(** The calls that retire a generation, as far as its callbacks allow. *)
Definition ends (ra ga : addr) (m : host_memory) (w : W) : Prop :=
  exists calls, Forall (retiring ra ga) calls /\ (retires calls ga m w \/ blocks calls ra ga m w).

Lemma ends_cons call ra ga m w m1 w1 :
  retiring ra ga call -> run_call call m w = Some (SALTS_SERVICE_HOST_OK, m1, w1) -> ends ra ga m1 w1 ->
  ends ra ga m w.
Proof.
  intros Hc Hrun (calls & Hcalls & Hend). exists (call :: calls). split; [by constructor|].
  destruct Hend as [Hr|(m2 & w2 & Hrun2 & Hb)]; [left; by eapply retires_cons|right].
  exists m2, w2. split; [|done]. simpl. by rewrite Hrun.
Qed.

(** A settled graph whose components are not active is drained. *)
Lemma settled_retires m w ra ga c :
  host_inv (m, w) -> hm_generations m !! ga = Some c -> gn_runtime_owner (ce_generation c) = Some ra ->
  gn_state (ce_generation c) = SALTS_SERVICE_HOST_GENERATION_FAILED -> cell_settled c = true ->
  retires [Call_drain_begin ra ga; Call_drain_finish ra ga] ga m w.
Proof.
  intros Hinv Hc Hown Hst Hset. pose proof Hinv as [Hadm _]. simpl in Hadm.
  pose proof (ai_generation _ Hadm ga c Hc) as [_ _ Hok Hlink _].
  unfold cell_ok in Hok. rewrite Hst in Hok.
  destruct Hok as (Hz & [[? _]|[[? _]|(Hcs & _)]]); [congruence..|].
  destruct (Hlink ra Hown) as (r & Hr & Hi & _).
  destruct (drain_begin_rule m ra ga r c Hadm Hr Hc) as (status & m' & Hrun & Hres).
  destruct status; try done; [|destruct Hres as (_ & Hi'); congruence|destruct Hres as (_ & _ & ?); congruence
                             |destruct Hres as (_ & Hpos); lia|destruct Hres as (_ & [|[_ ?]]); congruence].
  destruct Hres as (_ & _ & _ & -> & Hadm').
  eapply retires_cons; [cbn [run_call]; by rewrite Hrun|].
  destruct (drain_finish_keeps (drain_begun m ra ga c) w ra ga
    (mk_cell (set_gn_state SALTS_SERVICE_HOST_GENERATION_STOPPING (ce_generation c)) (ce_arrays c)))
    as (status & m' & w' & Hrun' & Hinv' & _ & Hcase).
  { by eapply host_inv_tables, drain_begun_tables. }
  { simpl. by rewrite lookup_insert_eq. }
  { simpl. by rewrite lookup_insert_eq. }
  unfold drain_clears, state_is in Hcase. simpl in Hcase. rewrite Hcs, bool_decide_false in Hcase by done.
  cbn [negb orb] in Hcase. destruct Hcase as [-> Hret].
  eapply retires_cons; [exact Hrun'|]. by exists m', w'.
Qed.

Lemma unsettled_awaits m w ra ga :
  host_inv (m, w) -> unsettled_at ra ga m -> awaits_repair ra ga m w.
Proof.
  intros Hinv (c & Hc & Hown & Hst & Haw & Hset). exists c. split; [done|]. split; [by exists c|].
  intros graph Hgraph. eapply settled_retires; [by eapply repair_inv|by apply lookup_insert_eq|done|done|done].
Qed.

Lemma stopping_ends m w ra ga :
  host_inv (m, w) -> hm_draining m !! ga = Some ra -> ends ra ga m w.
Proof.
  intros Hinv Hdr. destruct (ai_draining _ (hi_admission _ Hinv) ga ra Hdr) as (c & Hc & _).
  destruct (drain_finish_keeps m w ra ga c Hinv Hdr Hc) as (status & m' & w' & Hrun & Hinv' & _ & Hcase).
  destruct (drain_clears c w).
  - destruct Hcase as [-> Hret]. exists [Call_drain_finish ra ga]. split; [by repeat constructor|left].
    eapply retires_cons; [exact Hrun|]. by exists m', w'.
  - destruct Hcase as (-> & Hun & Hw). exists []. split; [constructor|right]. exists m, w. split; [done|right].
    exists m', w'. split; [done|]. split; [done|]. by apply unsettled_awaits.
Qed.

(** Releasing its scopes one by one, then draining. *)
Lemma draining_ends n m w ra ga c :
  host_inv (m, w) -> hm_generations m !! ga = Some c -> gn_runtime_owner (ce_generation c) = Some ra ->
  gn_state (ce_generation c) = SALTS_SERVICE_HOST_GENERATION_DRAINING ->
  gn_active_scopes (ce_generation c) = Z.of_nat n -> ends ra ga m w.
Proof.
  revert m c. induction n as [|n IH]; intros m c Hinv Hc Hown Hst Hn; pose proof Hinv as [Hadm Hl]; simpl in *.
  - destruct (go_owner _ _ _ (ai_generation _ Hadm ga c Hc) ra Hown) as (r & Hr & Hi & _).
    destruct (drain_begin_rule m ra ga r c Hadm Hr Hc) as (status & m' & Hrun & Hres).
    destruct status; try done; [|destruct Hres as (_ & Hi'); congruence|destruct Hres as (_ & ? & _); congruence
                               |destruct Hres as (_ & Hpos); lia|destruct Hres as (_ & [|[? _]]); congruence].
    destruct Hres as (_ & _ & _ & -> & Hadm').
    apply (ends_cons (Call_drain_begin ra ga) ra ga m w (drain_begun m ra ga c) w);
      [done|cbn [run_call]; by rewrite Hrun|].
    apply stopping_ends; [by eapply host_inv_tables, drain_begun_tables|]. simpl. by rewrite lookup_insert_eq.
  - pose proof (go_scopes _ _ _ (ai_generation _ Hadm ga c Hc)) as Hcount.
    assert (~ forall sa s, hm_scopes m !! sa = Some s -> scope_on_generation ga sa s = false) as Hsome
      by (rewrite <- count_zero; lia).
    assert (exists sa s, hm_scopes m !! sa = Some s /\ scope_on_generation ga sa s = true) as (sa & s & Hs & Hon).
    { destruct (decide (map_Exists (fun sa s => scope_on_generation ga sa s = true) (hm_scopes m)))
        as [(sa & s & Hs & Hon)|Hnone]; [by exists sa, s|]. exfalso. apply Hsome. intros sa s Hs.
      apply not_true_iff_false. intros Hon. apply Hnone. by exists sa, s. }
    unfold scope_on_generation in Hon. apply andb_true_iff in Hon as [Horig Hgen%bool_decide_eq_true].
    destruct (release_scope_rule m sa s Hadm Hs) as (status & m' & Hrun & Hres). rewrite Horig in Hres.
    destruct Hres as (-> & ra1 & ga1 & r & c1 & (_ & Hsr & Hsg) & Hr & Hc1 & -> & Hadm').
    assert (ga1 = ga) as -> by congruence. assert (c1 = c) as -> by congruence.
    set (c' := mk_cell (set_gn_owner (gn_runtime_owner (ce_generation c))
                          (gn_active_scopes (ce_generation c) + -1) (ce_generation c)) (ce_arrays c)).
    eapply (ends_cons (Call_release sa)); [done|cbn [run_call]; by rewrite Hrun|].
    apply (IH (rescoped m ra1 ga sa r c (-1) SALTS_SERVICE_HOST_SCOPE_INIT) c').
    + by eapply host_inv_tables, rescoped_tables.
    + simpl. by rewrite lookup_insert_eq.
    + done.
    + done.
    + simpl. lia.
Qed.

Lemma owned_ends m w ra ga c :
  host_inv (m, w) -> hm_generations m !! ga = Some c -> gn_runtime_owner (ce_generation c) = Some ra ->
  ends ra ga m w.
Proof.
  intros Hinv Hc Hown. pose proof Hinv as [Hadm Hl]. simpl in *.
  pose proof (ai_generation _ Hadm ga c Hc) as [g1 g2 g3 g4 g5].
  pose proof (count_nonneg (scope_on_generation ga) (hm_scopes m)) as Hnn.
  destruct (gn_state (ce_generation c)) eqn:Hst; unfold cell_ok in g3; rewrite Hst in g3.
  - apply clear_cell in g3 as (? & _). congruence.
  - destruct g3 as [? _]. congruence.
  - destruct (g4 ra Hown) as (r & Hr & Hi & _ & Hcur). specialize (Hcur eq_refl).
    destruct (close_rule m ra r Hadm Hr) as (status & previous & m' & Hrun & Hres).
    destruct status; try done; [|destruct Hres as (_ & _ & ?); congruence..].
    destruct Hres as (pa & c1 & Hcur1 & Hc1 & _ & -> & Hadm').
    assert (pa = ga) as -> by congruence. assert (c1 = c) as -> by congruence.
    set (c' := mk_cell (set_gn_state SALTS_SERVICE_HOST_GENERATION_DRAINING (ce_generation c)) (ce_arrays c)).
    eapply (ends_cons (Call_close ra)); [done|cbn [run_call]; by rewrite Hrun|].
    apply (draining_ends (Z.to_nat (gn_active_scopes (ce_generation c))) (closed m ra ga r c) w ra ga c');
      [by eapply host_inv_tables, closed_tables|simpl; by rewrite lookup_insert_eq|done|done|simpl; lia].
  - eapply (draining_ends (Z.to_nat (gn_active_scopes (ce_generation c)))); [done..|lia].
  - apply stopping_ends; [done|]. by rewrite (g5 eq_refl).
  - destruct (cell_settled c) eqn:Hset.
    + exists [Call_drain_begin ra ga; Call_drain_finish ra ga]. split; [by repeat constructor|left].
      by eapply settled_retires.
    + exists []. split; [constructor|right]. exists m, w. split; [done|left]. apply unsettled_awaits; [done|].
      exists c. split_and!; [done..| |done]. by destruct g3 as (_ & [[? _]|[[? _]|?]]); [congruence..|].
  - apply clear_cell in g3 as (? & _). congruence.
Qed.

End Safety.
