(* ===== verification/ServiceHostRegistry.v ===== *)
(** The Plugin registry as the ServiceHost uses it: [acquire] and [release] of
    [PluginRegistry] keep the promises of [LeaseLaws], so that what is proved
    about the ServiceHost against the interface holds of the registry itself. *)

From S2P Require Import Prelude CMetaType CMetaFunction CMetaInterface CMetaData.
From S2P Require Import CMetaOperation CMetaObject CMetaComponent Configurator ConfiguratorProtocol.
From S2P Require Import PluginManifest PluginRegistry RegistryInvariant RegistryApi RegistryProtocol.
From S2P Require Import ServiceHost ServiceHostLeases.

(** The registries by address, and everything else the callbacks act on. *)
Record plugin_world (X : Type) := mk_world {
  pw_registries : gmap addr cmeta_plugin_registry;
  pw_rest : X;
}.
Arguments mk_world {X}.
Arguments pw_registries {X}.
Arguments pw_rest {X}.

Section Registry.
  Context {X : Type}.
  Implicit Type w : plugin_world X.

(** The object behind a [cmeta_plugin_registry *]. *)
Definition registry_at (registry : option addr) w : option cmeta_plugin_registry :=
  registry ≫= fun a => pw_registries w !! a.

Definition write_registry (registry : option addr) (g : option cmeta_plugin_registry) w
    : plugin_world X :=
  match registry, g with
  | Some a, Some g => mk_world (<[a := g]> (pw_registries w)) (pw_rest w)
  | _, _ => w
  end.

#[export] Instance plugin_registry_calls : LeaseRegistry (plugin_world X) := {
  lr_acquire registry ref w :=
    let '(status, lease, manifest, g) := cmeta_plugin_registry_acquire (registry_at registry w) ref in
    (status, lease, manifest, write_registry registry g w);
  lr_release registry lease w :=
    let '(status, g, l) := cmeta_plugin_registry_release (registry_at registry w) (Some lease) in
    (status, default zero_lease l, write_registry registry g w);
}.

Definition registries_wf w : Prop :=
  forall a r, registry_impl_of (pw_registries w !! a) = Some r -> impl_wf r.

(** The lease is live in the registry behind the pointer. *)
Definition registry_holds (registry : option addr) (l : cmeta_plugin_lease) w : Prop :=
  exists r, registry_impl_of (registry_at registry w) = Some r /\ live_lease r l.

Lemma impl_at registry w r :
  registries_wf w -> registry_impl_of (registry_at registry w) = Some r -> impl_wf r.
Proof. intros Hok Hr. destruct registry as [a|]; [|done]. by apply (Hok a). Qed.

(** Writing back the registry behind a pointer. *)
Lemma registry_after registry w r r' registry1 :
  registry_impl_of (registry_at registry w) = Some r ->
  registry_impl_of (registry_at registry1 (write_registry registry (holding r') w)) =
    if decide (registry1 = registry) then Some r' else registry_impl_of (registry_at registry1 w).
Proof.
  destruct registry as [a|]; [|done]. intros _. unfold write_registry, holding.
  case_decide as Heq; [subst; simpl; by rewrite lookup_insert_eq|].
  destruct registry1 as [b|]; [|done]. simpl. rewrite lookup_insert_ne; [done|congruence].
Qed.

Lemma registries_after registry w r r' :
  registries_wf w -> registry_impl_of (registry_at registry w) = Some r -> impl_wf r' ->
  registries_wf (write_registry registry (holding r') w).
Proof.
  intros Hok Hr Hwf b q Hq. pose proof (registry_after registry w r r' (Some b) Hr) as Hafter.
  simpl in Hafter. rewrite Hq in Hafter. case_decide; [congruence|]. by apply (Hok b).
Qed.

Lemma acquire_law registry ref w status lease manifest w' :
  registries_wf w -> ref_typed ref ->
  lr_acquire registry ref w = (status, lease, manifest, w') ->
  registries_wf w' /\ (forall r l, registry_holds r l w -> registry_holds r l w') /\
  (status = CMETA_PLUGIN_OK ->
   cmeta_plugin_lease_valid lease = true /\ le_plugin lease = ref /\ is_Some manifest /\
   registry_holds registry lease w' /\ ~ registry_holds registry lease w).
Proof.
  intros Hok Hty. simpl. unfold cmeta_plugin_registry_acquire.
  destruct (registry_impl_of (registry_at registry w)) as [r|] eqn:Hr.
  2: { intros [= <- <- <- <-]. assert (write_registry registry (registry_at registry w) w = w) as ->;
         [|done]. destruct registry as [a|]; [|done]. simpl. destruct (pw_registries w !! a) eqn:Ha; [|done].
       rewrite insert_id by done. by destruct w. }
  destruct (acquire_locked ref r) as [[[st le] mf] r'] eqn:Hacq. intros [= <- <- <- <-].
  pose proof (impl_at _ _ _ Hok Hr) as Hwf. pose proof (acquire_locked_wf ref r Hwf) as Hwf'.
  rewrite Hacq in Hwf'. simpl in Hwf'. split; [by eapply registries_after|].
  destruct (decide (st = CMETA_PLUGIN_OK)) as [->|Hst].
  - destruct (acquire_live r r' ref le mf Hwf Hty Hacq) as [Hnew Hlive]. split.
    + intros registry1 l (q & Hq & Hl). unfold registry_holds.
      rewrite (registry_after registry w r r' registry1 Hr). case_decide as Heq; [|by exists q].
      subst. exists r'. split; [done|]. apply Hlive. right. congruence.
    + intros _. assert (live_lease r' le) as Hle by (apply Hlive; by left).
      destruct (live_lease_rule r' le Hwf' Hle) as (_ & Hv & _). split; [done|].
      destruct (acquire_locked_inv ref r) as [(? & H1 & ?)|(i & s & bit & Ha & _ & _ & _ & H1)];
        rewrite H1 in Hacq; simplify_eq. split; [done|]. split.
      { destruct Ha as [Href Hi _ _]. apply slot_for_ref_inr in Href as (_ & _ & Ho & _).
        destruct (sw_manifest _ (iw_slot _ Hwf _ _ Hi) Ho) as (_ & m & -> & _). by eexists. }
      split; [|intros (q & Hq & Hl); congruence].
      eexists. rewrite (registry_after registry w r _ registry Hr), decide_True by done. by split.
  - split; [|done]. destruct (acquire_locked_inv ref r) as [(? & H1 & ?)|(i & s & bit & _ & _ & _ & _ & H1)];
      rewrite H1 in Hacq; simplify_eq.
    intros registry1 l (q & Hq & Hl). unfold registry_holds.
    rewrite (registry_after registry w r' r' registry1 Hr). case_decide as Heq; [|by exists q]. subst.
    rewrite Hr in Hq. simplify_eq. by exists q.
Qed.

Lemma release_law registry lease w :
  registries_wf w -> registry_holds registry lease w -> cmeta_plugin_lease_valid lease = true ->
  exists l w', lr_release registry lease w = (CMETA_PLUGIN_OK, l, w') /\ registries_wf w' /\
    forall r k, registry_holds r k w' <-> registry_holds r k w /\ (r, k) <> (registry, lease).
Proof.
  intros Hok (r & Hr & Hl) Hv. simpl. unfold cmeta_plugin_registry_release. rewrite Hr, Hv. cbn [negb].
  pose proof (impl_at _ _ _ Hok Hr) as Hwf. destruct (live_lease_rule r lease Hwf Hl) as (Hty & _ & Hst & _).
  pose proof (release_locked_wf lease r Hwf) as Hwf'.
  destruct (release_locked lease r) as [[st l'] r'] eqn:Hrel. simpl in *. subst st.
  destruct (release_live r r' lease l' Hty Hv Hrel) as [_ Hiff].
  eexists _, _. split; [done|]. split; [by eapply registries_after|].
  intros registry1 k. unfold registry_holds. rewrite (registry_after registry w r r' registry1 Hr).
  case_decide as Heq.
  - subst. rewrite Hr. split.
    + intros (q & [= <-] & [Hne Hk]%Hiff). split; [by exists r|congruence].
    + intros [(q & [= <-] & Hk) Hne]. exists r'. split; [done|]. apply Hiff. split; [congruence|done].
  - split; [intros Hk; split; [done|congruence]|by intros [Hk _]].
Qed.

#[export] Instance plugin_registry_laws : LeaseLaws (plugin_world X) := {
  registry_ok := registries_wf;
  lease_held := registry_holds;
  ref_ok := ref_typed;
  lease_acquired := acquire_law;
  lease_released := release_law;
}.

End Registry.
