(* ===== verification/ServiceHostTheorems.v ===== *)
(** The properties of the ServiceHost, stated over the states its calls reach. *)

From S2P Require Import Prelude CMetaType CMetaFunction CMetaInterface CMetaData.
From S2P Require Import CMetaOperation CMetaObject CMetaComponent Configurator ConfiguratorPlan.
From S2P Require Import ConfiguratorLifecycle ConfiguratorProtocol.
From S2P Require Import PluginManifest PluginRegistry RegistryInvariant RegistryApi RegistryProtocol.
From S2P Require Import ServiceHost ServiceHostLeases ServiceHostBuild.
From S2P Require Import ServiceHostRuntime ServiceHostProtocol.
From S2P Require Import ServiceHostSystem ServiceHostRegistry.

(** The calls that rewrite a generation outside a runtime's lock. *)
Definition rewrites (call : host_call) (ga : addr) : bool :=
  match call with
  | Call_build ga1 _ _ | Call_discard ga1 | Call_recover ga1 => ga1 =? ga
  | _ => false
  end.

Section Theorems.
  Context {W : Type} `{LL : LeaseLaws W} `{SP : ServiceProviders W} `{OC : ObjectCallbacks W}
    `{PC : ProviderCallbacks W} `{!ProviderFrame W} `{!WorldFrame keeps_leases}.

Lemma owned_not_rewritten m w ga c call :
  host_inv (m, w) -> hm_generations m !! ga = Some c -> is_Some (gn_runtime_owner (ce_generation c)) ->
  rewrites call ga = true -> callable m call ->
  exists status, run_call call m w = Some (status, m, w) /\ status <> SALTS_SERVICE_HOST_OK.
Proof.
  intros [Hadm Hl] Hc [ra Hown] Hrw Hcall. simpl in *.
  pose proof (go_cell _ _ _ (ai_generation _ Hadm ga c Hc)) as Hok.
  assert (gn_state (ce_generation c) <> SALTS_SERVICE_HOST_GENERATION_BUILT) as Hst
    by (intros Hst; unfold cell_ok in Hok; rewrite Hst in Hok; destruct Hok as [? _]; congruence).
  assert (generation_reusable (ce_generation c) (ce_arrays c) = false) as Hre.
  { apply not_true_is_false. intros Hre. destruct (reusable_idle c Hok Hre) as [? _]. congruence. }
  assert (mk_cell (ce_generation c) (ce_arrays c) = c) as Heta by (by destruct c).
  destruct call; try done; simpl in Hrw; apply Z.eqb_eq in Hrw as ->; cbn [run_call]; rewrite Hc;
    cbn [mbind option_bind].
  - destruct Hcall as (_ & s & Hs & Hf).
    destruct (build_rule (ce_generation c) (ce_arrays c) b s new w Hs Hf (li_registry _ _ Hl))
      as (status & g' & a' & w' & -> & _ & Hv & _ & Hsame).
    destruct Hsame as (-> & -> & ->); [done|].
    cbn [mbind option_bind store_generation]. rewrite Heta, write_same_cell by done.
    eexists. split; [done|]. intros ->. simpl in Hv. pose proof (bd_owner _ _ _ _ _ _ _ Hv). congruence.
  - unfold salts_service_host_generation_discard.
    rewrite bool_decide_false by done. cbn [negb mbind option_bind store_generation]. rewrite Heta, write_same_cell by done. by eexists.
  - unfold salts_service_host_generation_recover. rewrite Hown. cbn [is_null negb]. rewrite orb_true_r.
    cbn [orb mbind option_bind store_generation]. rewrite Heta, write_same_cell by done. by eexists.
Qed.

(** C2: under any interleaving, a scope that is live at the address it was
    acquired at pins its generation: the generation is the one it was acquired
    from, its component graph is active with every plugin leased, a drain of it
    is refused, and [build], [discard] and [recover] leave it alone. *)
Theorem scope_pins_generation m w sa s :
  host_reachable (m, w) -> hm_scopes m !! sa = Some s -> scope_original sa s = true ->
  exists ra ga c, sc_runtime s = Some ra /\ sc_generation s = Some ga /\
    hm_generations m !! ga = Some c /\ gn_runtime_owner (ce_generation c) = Some ra /\
    gn_id (ce_generation c) = sc_generation_id s /\ 0 < gn_active_scopes (ce_generation c) /\
    service_host_generation_publishable (Some (ce_generation c)) (ce_arrays c) = true /\
    leases_owned (ce_generation c) (ga_modules (ce_arrays c)) w /\
    (exists status, drain_begin (Some ra) (Some ga) m = Some (status, m) /\
       status <> SALTS_SERVICE_HOST_OK) /\
    forall call, rewrites call ga = true -> callable m call ->
      exists status, run_call call m w = Some (status, m, w) /\ status <> SALTS_SERVICE_HOST_OK.
Proof.
  intros Hinv%reachable_rule Hs Horig. pose proof Hinv as [Hadm Hl]. cbn [fst snd] in Hadm, Hl.
  destruct (ai_scope _ Hadm sa s Hs Horig) as (ra & ga & c & Hra & Hga & Hc & Hown & Hid & Hst).
  pose proof (ai_generation _ Hadm ga c Hc) as [g1 g2 g3 g4 g5].
  assert (0 < gn_active_scopes (ce_generation c)) as Hpos.
  { rewrite g1. apply (count_pos _ _ sa s Hs). unfold scope_on_generation. by rewrite Horig, Hga, bool_decide_true. }
  destruct (g4 ra Hown) as (r & Hr & Hi & _).
  destruct (drain_begin_rule m ra ga r c Hadm Hr Hc) as (status & m' & Hdrain & Hres).
  exists ra, ga, c. split_and!; [done..| | | |].
  - unfold cell_ok in g3. destruct Hst as [Hst|Hst]; rewrite Hst in g3; by destruct g3.
  - by apply (li_owned _ _ Hl ga c).
  - exists status. destruct status; try done; [lia|..]; by destruct Hres as [-> _].
  - intros call Hrw Hcall. by eapply owned_not_rewritten.
Qed.

(** C3: no ServiceHost call on objects of the caller is undefined, in any
    reachable state, service lookups included, and the state it leaves is
    reachable again: the counts of scopes and attached generations are exact,
    each state of a generation means what it says, no two generations hold the
    same lease, and no lease is lost: one that a generation recorded, or that
    the admission of a build took, is recorded afterwards or was given back. *)
Theorem host_calls_safe m w call :
  host_reachable (m, w) -> callable m call ->
  exists status m' w', run_call call m w = Some (status, m', w') /\ host_reachable (m', w') /\
    admission_inv m' /\ lease_inv m' w' /\ leases_accounted call m w m' w'.
Proof.
  intros Hreach Hcall. destruct (call_rule m w call (reachable_rule _ Hreach) Hcall)
    as (status & m' & w' & Hrun & [Hadm Hl] & Hacc).
  exists status, m', w'. split; [done|]. split; [|done]. destruct Hreach as (p & Hp & Hsteps).
  exists p. split; [done|]. eapply rtc_r; [exact Hsteps|]. by eapply step_call.
Qed.

(** a runtime's counters are exact under any interleaving: its scopes are
    the live originals that name it, its attached generations those it owns, at
    most two, and only a runtime with neither can be destroyed. *)
Theorem admission_counts_exact m w ra r :
  host_reachable (m, w) -> hm_runtimes m !! ra = Some r ->
  rt_active_scopes r = count_objects (scope_on_runtime ra) (hm_scopes m) /\
  rt_active_scopes r <= SIZE_MAX /\
  rt_attached_generations r = count_objects (attached_to ra) (hm_generations m) /\
  rt_attached_generations r <= 2 /\
  ((salts_service_host_runtime_destroy (Some r)).1 = SALTS_SERVICE_HOST_OK <->
   rt_initialized r = true /\ rt_current r = None /\
   count_objects (scope_on_runtime ra) (hm_scopes m) = 0 /\
   count_objects (attached_to ra) (hm_generations m) = 0).
Proof.
  intros Hinv%reachable_rule Hr. destruct (ai_runtime _ (hi_admission _ Hinv) ra r Hr) as [r1 r2 r3 r4 _ _].
  simpl in *. split_and!; [done..|]. rewrite <- r1, <- r3. unfold salts_service_host_runtime_destroy.
  destruct (rt_initialized r), (rt_current r), (Z.eqb_spec (rt_active_scopes r) 0),
    (Z.eqb_spec (rt_attached_generations r) 0); simpl;
    (split; [try done|by intros (? & ? & ? & ?)]).
Qed.

(** C30: a generation that is attached to a runtime can be retired, as far as the
    callbacks of its components allow: from every reachable state some sequence
    of [close], [release] and drain calls, each answering
    [SALTS_SERVICE_HOST_OK], leaves it drained and empty.  The exception is a
    teardown in which a callback wrote a reference: then the last drain answers
    [SALTS_SERVICE_HOST_CONFIGURATOR_ERROR] and the generation stays attached,
    failed, with nothing of it active, until the reference is emptied; after
    any repair that settles the graph, the next drain retires it. *)
Theorem attached_generation_retires m w ra ga c :
  host_reachable (m, w) -> hm_generations m !! ga = Some c ->
  gn_runtime_owner (ce_generation c) = Some ra ->
  exists calls, Forall (retiring ra ga) calls /\ (retires calls ga m w \/ blocks calls ra ga m w).
Proof. intros Hinv%reachable_rule Hc Hown. by eapply owned_ends. Qed.

(** [release] accepts exactly the live scopes at the address they were
    acquired at, once: it takes one from both counts and clears the scope.  A
    scope that is not live or was copied there changes nothing. *)
Theorem scope_release_exact m w sa s :
  host_reachable (m, w) -> hm_scopes m !! sa = Some s ->
  exists status m', salts_service_host_scope_release (Some sa) m = Some (status, m') /\
    if scope_original sa s then
      status = SALTS_SERVICE_HOST_OK /\ exists ra ga r c,
        scope_names ra ga sa s /\ hm_runtimes m !! ra = Some r /\ hm_generations m !! ga = Some c /\
        m' = rescoped m ra ga sa r c (-1) SALTS_SERVICE_HOST_SCOPE_INIT /\
        exists status', salts_service_host_scope_release (Some sa) m' = Some (status', m') /\
          status' = SALTS_SERVICE_HOST_INVALID_ARGUMENT
    else m' = m /\ (status = SALTS_SERVICE_HOST_INVALID_ARGUMENT /\ sc_live s = false \/
                    status = SALTS_SERVICE_HOST_INVALID_STATE /\ sc_live s = true).
Proof.
  intros Hinv%reachable_rule Hs.
  destruct (release_scope_rule m sa s (hi_admission _ Hinv) Hs) as (status & m' & Hrun & Hres).
  exists status, m'. split; [done|]. destruct (scope_original sa s); [|done].
  destruct Hres as (-> & ra & ga & r & c & Hn & Hr & Hc & -> & _). split; [done|].
  exists ra, ga, r, c. split_and!; [apply Hn..|done|done|done|].
  unfold salts_service_host_scope_release. simpl. rewrite lookup_insert_eq. cbn [mbind option_bind].
  by eexists.
Qed.

(** [publish] succeeds exactly for a built generation with a larger id than
    any before, on an initialized runtime with fewer than two attached; the
    generation it replaces starts draining, and every refusal changes nothing. *)
Theorem publish_outcome m w ra ga r c :
  host_reachable (m, w) -> hm_runtimes m !! ra = Some r -> hm_generations m !! ga = Some c ->
  exists status previous m',
    salts_service_host_runtime_publish (Some ra) (Some ga) m = Some (status, previous, m') /\
    (status = SALTS_SERVICE_HOST_OK <->
     rt_initialized r = true /\ gn_state (ce_generation c) = SALTS_SERVICE_HOST_GENERATION_BUILT /\
     rt_last_generation_id r < gn_id (ce_generation c) /\ rt_attached_generations r < 2) /\
    (status <> SALTS_SERVICE_HOST_OK -> m' = m /\ previous = None) /\
    (status = SALTS_SERVICE_HOST_OK -> previous = Some (rt_current r) /\
       match rt_current r with
       | None => m' = attached m ra ga r c
       | Some pa => exists cp, hm_generations m !! pa = Some cp /\
           m' = attached (closed m ra pa r cp) ra ga (set_rt_current None r) c
       end).
Proof.
  intros Hinv%reachable_rule Hr Hc. pose proof (hi_admission _ Hinv) as Hadm. simpl in Hadm.
  destruct (publish_rule m ra ga r c Hadm Hr Hc) as (status & previous & m' & Hrun & Hres).
  exists status, previous, m'. split; [done|].
  pose proof (ro_fresh _ _ _ (ai_runtime _ Hadm ra r Hr)) as Hfresh.
  unfold SALTS_SERVICE_HOST_MAX_ATTACHED_GENERATIONS in *. destruct status; try done.
  - destruct Hres as (H1 & H2 & H3 & H4 & H5 & _). split_and!; [|done|done]. split; [intros _|done].
    split_and!; [|done..]. destruct (rt_initialized r) eqn:Hi; [done|].
    unfold salts_service_host_runtime_publish in Hrun. rewrite Hr in Hrun. cbn [mbind option_bind] in Hrun.
    rewrite Hi in Hrun. done.
  - destruct Hres as (-> & -> & Hi). split_and!; [|done|done]. split; [done|]. intros (? & _). congruence.
  - destruct Hres as (-> & -> & Hi). split_and!; [|done|done]. split; [done|]. intros (_ & _ & _ & ?). lia.
  - destruct Hres as (-> & -> & Hi). split_and!; [|done|done]. split; [done|]. intros (_ & ? & ? & _).
    destruct Hi; [done|lia].
Qed.

(** C33: (error) [drain] works exactly on a generation of this runtime that has no scope left
    and is withdrawn, or was left unsettled and has been settled since: its
    components stop in reverse activation order, then its leases, and no others,
    are given back, and it leaves the runtime empty.  If a callback left a
    reference behind, the generation stays attached, failed, with its leases and
    with nothing of it active.  Anything else changes nothing. *)
Theorem drain_outcome m w ra ga r c :
  host_reachable (m, w) -> hm_runtimes m !! ra = Some r -> hm_generations m !! ga = Some c ->
  let g := ce_generation c in
  exists status m' w',
    salts_service_host_generation_drain (Some ra) (Some ga) m w = Some (status, m', w') /\
    (m' = m /\ w' = w /\ status <> SALTS_SERVICE_HOST_OK /\
       (rt_initialized r = true -> gn_runtime_owner g = Some ra -> drainable c -> 0 < gn_active_scopes g) \/
     gn_runtime_owner g = Some ra /\ drainable c /\ gn_active_scopes g = 0 /\
     if drain_clears c w then
       status = SALTS_SERVICE_HOST_OK /\ retired ga m' /\
       hm_runtimes m' !! ra =
         Some (set_rt_counts (rt_active_scopes r) (rt_attached_generations r - 1) r) /\
       leases_returned g (ga_modules (ce_arrays c)) (drained_graph c w).2 w'
     else
       status = SALTS_SERVICE_HOST_CONFIGURATOR_ERROR /\ unsettled_at ra ga m' /\
       w' = (drained_graph c w).2 /\ (exists j x, callback_writes j x) /\
       exists c', hm_generations m' !! ga = Some c' /\
         same_leases (ce_generation c') (ce_arrays c') g (ga_modules (ce_arrays c)) /\
         leases_owned (ce_generation c') (ga_modules (ce_arrays c')) w').
Proof.
  intros Hinv%reachable_rule Hr Hc g. pose proof Hinv as [Hadm Hl]. simpl in Hadm, Hl.
  destruct (drain_begin_rule m ra ga r c Hadm Hr Hc) as (status & m1 & Hbegin & Hres).
  unfold salts_service_host_generation_drain. rewrite Hbegin. cbn [mbind option_bind].
  assert (hm_generations m !! ga = Some c) as Hc0 by done.
  destruct status; try done.
  - destruct Hres as (Hdr0 & Hown & Hz & -> & Hadm1).
    set (c1 := mk_cell (set_gn_state SALTS_SERVICE_HOST_GENERATION_STOPPING g) (ce_arrays c)).
    assert (hm_draining (drain_begun m ra ga c) !! ga = Some ra) as Hdr by (simpl; apply lookup_insert_eq).
    assert (hm_generations (drain_begun m ra ga c) !! ga = Some c1) as Hc1 by (simpl; apply lookup_insert_eq).
    assert (leases_owned (ce_generation c1) (ga_modules (ce_arrays c1)) w) as Ho
      by (eapply leases_owned_same; [by apply (li_owned _ _ Hl ga c)|done..]).
    destruct (drain_finish_rule _ w ra ga c1 Hadm1 Hdr Hc1 Ho)
      as (r1 & status & c' & w' & m' & Hr1 & Hrun & (Hk & Hown' & _ & _ & Hw) & _ & c'' & Hc'' & Harr & Hcase).
    assert (r1 = r) as -> by (simpl in Hr1; congruence).
    exists status, m', w'. split; [exact Hrun|right]. split_and!; [done..|].
    change (drain_clears c1 w) with (drain_clears c w) in *.
    change (drained_graph c1 w) with (drained_graph c w) in *. destruct (drain_clears c w).
    + destruct Hw as (-> & _ & Hret), Hcase as (-> & Hst' & Hclear). split; [done|].
      split; [by exists c''|]. split; [simpl; apply lookup_insert_eq|exact Hret].
    + destruct Hw as (-> & -> & (Er & En & Em) & Es & _ & (_ & _ & Hun) & Haw & j & i & _ & Hwr), Hcase as (-> & E).
      split; [done|]. split; [|split; [done|split; [by exists j, (in_object i)|]]].
      * exists c''. split; [exact Hc''|]. unfold cell_settled. rewrite E, Harr. simpl. rewrite Hown'.
        by split_and!.
      * exists c''. split; [exact Hc''|]. unfold same_leases. rewrite E, Harr. simpl. rewrite Er, En, Em.
        split; [done|]. eapply leases_owned_same; [by apply (leases_owned_kept _ _ w)|done..].
  - destruct Hres as (-> & Hi). eexists _, m, w. split; [done|left]. split_and!; [done..|]. congruence.
  - destruct Hres as (-> & Hst & Hset). eexists _, m, w. split; [done|left]. split_and!; [done..|].
    intros _ _ [?|[_ ?]]; congruence.
  - destruct Hres as (-> & Hpos). eexists _, m, w. split; [done|left]. by split_and!.
  - destruct Hres as (-> & Hwhy). eexists _, m, w. split; [done|left]. split_and!; [done..|].
    intros _ Hown Hdr. exfalso. destruct Hwhy as [Hno|[Hno Hno']]; [by apply Hno|by destruct Hdr as [?|[? _]]].
Qed.

(** C31: [build] on a candidate that may be overwritten either ends with a
    publishable generation that leases exactly the plugins of its dynamic
    sources, or with a failed one: cleared once the registry holds none of the
    leases that admission took, and all others still, or keeping all of them
    because a component is still to be settled.  On any other candidate it
    changes nothing.  It never takes a lease that someone else holds, and always
    has an outcome. *)
Theorem build_outcome g a b s new w :
  ba_storage b = Some s -> build_fits b s new -> registry_ok w ->
  exists status g' a' w',
    salts_service_host_generation_build (Some g) a b new w = Some (status, Some g', a', w') /\
    keeps_leases w w' /\ build_verdict g a w b s new status g' a' w' /\
    (generation_reusable g a = false -> status <> SALTS_SERVICE_HOST_OK /\ g' = g /\ a' = a /\ w' = w) /\
    (g' = g /\ a' = a /\ w' = w \/ leases_new g' (ga_modules a') w).
Proof.
  intros Hs Hf Hok.
  destruct (build_rule g a b s new w Hs Hf Hok) as (status & g' & a' & w' & Hrun & Hk & Hv & Hnew & Hsame).
  exists status, g', a', w'. do 3 (split; [done|]). split; [|done]. intros Hre. split; [|by apply Hsame].
  intros ->. unfold salts_service_host_generation_build in Hrun. rewrite Hs in Hrun.
  case_match; [done|]. by rewrite Hre in Hrun.
Qed.

(** a failed generation outside any runtime is recovered exactly when its
    graph is settled: all its leases, and no others, are given back and it is
    left empty; otherwise nothing changes, so the provider can still clean up. *)
Theorem recover_outcome m w ga c :
  host_reachable (m, w) -> hm_generations m !! ga = Some c ->
  gn_state (ce_generation c) = SALTS_SERVICE_HOST_GENERATION_FAILED ->
  gn_runtime_owner (ce_generation c) = None ->
  let g := ce_generation c in
  let a := ce_arrays c in
  if service_host_components_settled (gn_components g) (ga_graph a)
  then exists g' a' w',
    salts_service_host_generation_recover (Some g) a w = Some (SALTS_SERVICE_HOST_OK, Some g', a', w') /\
    gn_state g' = SALTS_SERVICE_HOST_GENERATION_DRAINED /\ generation_is_clear g' = true /\
    leases_returned g (ga_modules a) w w'
  else salts_service_host_generation_recover (Some g) a w =
    Some (SALTS_SERVICE_HOST_INVALID_STATE, Some g, a, w).
Proof.
  intros [Hadm Hl]%reachable_rule Hc Hst Hown g a. cbn [fst snd] in Hadm, Hl.
  pose proof (go_cell _ _ _ (ai_generation _ Hadm ga c Hc)) as Hok. unfold cell_ok, awaits_owner in Hok.
  rewrite Hst in Hok. destruct Hok as (Hz & Hcs).
  pose proof (recover_rule g a w Hst Hown Hz (li_owned _ _ Hl ga c Hc) ltac:(naive_solver)) as Hrule.
  destruct (service_host_components_settled (gn_components g) (ga_graph a)); [|exact Hrule].
  destruct Hrule as (g' & a' & w' & ? & ? & ? & _ & ?). by exists g', a', w'.
Qed.

End Theorems.

(** the in-place release of a lease table (which swaps the last record into
    each hole) terminates, gives every lease to the registry exactly once in
    table order, keeps exactly the records the registry refused, compacted at
    the front with zeroes behind, and answers the first failure. *)
Theorem release_modules_settles {W : Type} `{LeaseRegistry W} g modules (w : W) :
  (gs_module_capacity (gn_storage g) <= length modules)%nat -> module_tail_is_clear g modules = true ->
  exists f kept w' kept',
    settle (gn_registry g) (take (gn_module_count g) modules) w = (f, kept, w') /\ kept' ≡ₚ kept /\
    release_modules (Some g) modules w =
      Some (f, Some (set_gn_module_count (length kept') g),
            kept' ++ replicate (gn_module_count g - length kept') zero_module ++
              drop (gn_module_count g) modules, w') /\
    module_tail_is_clear (set_gn_module_count (length kept') g)
      (kept' ++ replicate (gn_module_count g - length kept') zero_module ++
         drop (gn_module_count g) modules) = true.
Proof. intros Hfit Htail. by apply release_modules_rule. Qed.

Section Pinned.
  Context {X : Type} `{SP : ServiceProviders (plugin_world X)} `{OC : ObjectCallbacks (plugin_world X)}
    `{PC : ProviderCallbacks (plugin_world X)} `{!ProviderFrame (plugin_world X)}
    `{!WorldFrame (keeps_leases (W := plugin_world X))}.

(** C4: composition with the Plugin registry: every plugin that a generation
    records is loaded, started or stopping, and the registry refuses to unload
    it, in every reachable state of hosts and registries. *)
Theorem generation_pins_plugins m (w : plugin_world X) ga c i x :
  host_reachable (m, w) -> hm_generations m !! ga = Some c ->
  (i < gn_module_count (ce_generation c))%nat -> ga_modules (ce_arrays c) !! i = Some x ->
  exists r j slot, registry_impl_of (registry_at (gn_registry (ce_generation c)) w) = Some r /\
    slot_for_ref_locked r (mo_plugin x) = inr (j, slot) /\
    (sl_state slot = CMETA_PLUGIN_LIFECYCLE_STARTED \/ sl_state slot = CMETA_PLUGIN_LIFECYCLE_STOPPING) /\
    unload_begin (mo_plugin x) r = UnloadReturns CMETA_PLUGIN_BUSY r.
Proof.
  intros [_ Hl]%reachable_rule Hc Hi Hx. simpl in Hl.
  destruct (lo_records _ _ _ (li_owned _ _ Hl ga c Hc) i x Hi Hx) as [Hwf (r & Hr & Hlive)].
  pose proof (impl_at _ _ _ (li_registry _ _ Hl) Hr) as Hok.
  assert (le_plugin (mo_lease x) = mo_plugin x) as Hplugin.
  { by apply module_well_formed_spec in Hwf as [_ ?]. }
  pose proof (live_lease_busy r _ Hok Hlive) as Hbusy.
  destruct (live_lease_rule r _ Hok Hlive) as (_ & _ & _ & j & slot & Hslot & _ & Hst & _).
  rewrite Hplugin in *. by exists r, j, slot.
Qed.

(** C32: the Plugin registry refines what the ServiceHost relies on: an acquire
    that answers [CMETA_PLUGIN_OK] grants a well-formed lease on that plugin that
    nobody held, a release of a held lease always succeeds and ends that lease
    alone, and neither touches the leases of others. *)
Theorem registry_implements_leases registry ref (w : plugin_world X) :
  registries_wf w -> ref_typed ref ->
  exists status lease manifest w', lr_acquire registry ref w = (status, lease, manifest, w') /\
    registries_wf w' /\
    if bool_decide (status = CMETA_PLUGIN_OK) then
      le_plugin lease = ref /\ is_Some manifest /\ ~ registry_holds registry lease w /\
      (forall r l, registry_holds r l w -> registry_holds r l w') /\
      exists l w'', lr_release registry lease w' = (CMETA_PLUGIN_OK, l, w'') /\ registries_wf w'' /\
        forall r k, registry_holds r k w'' <-> registry_holds r k w' /\ (r, k) <> (registry, lease)
    else forall r l, registry_holds r l w -> registry_holds r l w'.
Proof.
  intros Hok Hty. destruct (lr_acquire registry ref w) as [[[status lease] manifest] w'] eqn:Hacq.
  destruct (acquire_law _ _ _ _ _ _ _ Hok Hty Hacq) as (Hok' & Hkeep & Hgrant).
  exists status, lease, manifest, w'. split; [done|]. split; [done|]. case_bool_decide as Hst; [|done].
  destruct (Hgrant Hst) as (Hv & Hplugin & Hm & Hheld & Hnew). split_and!; [done..|].
  by apply release_law.
Qed.

End Pinned.
