(* ===== verification/CFlowSupport.v ===== *)
(** What the machine sources of CFlow share: binary searches over sorted rows,
    the standard sort, checked sizes, and the tests on value types.

    The sources repeat each search once per row type; the loops here take the
    key as an argument and the components instantiate them. *)

From stdpp Require Import sorting.
From S2P Require Import Prelude CMetaType.

#[local] Open Scope Z_scope.

(** * Searches *)

(** A pointer into an array: the index, and the row it points at. *)
Definition row_ptr (A : Type) : Type := (nat * A)%type.

(** [left + (right - left) / 2u]. *)
Definition middle_of (left right : nat) : nat := (left + (right - left) / 2)%nat.

#[global] Arguments middle_of : simpl never.

(** [while (left < right) { middle = left + (right - left) / 2; ... }] with an
    exit on an equal key.  The distance [right - left] shrinks in every round, so
    that the length of the array is enough fuel. *)
Fixpoint bsearch_loop {A} (key : A -> Z) (l : list A) (id : Z) (fuel left right : nat)
    : option (row_ptr A) :=
  match fuel with
  | O => None
  | S fuel =>
      if (left <? right)%nat then
        let middle := middle_of left right in
        match l !! middle with
        | None => None
        | Some row =>
            if key row =? id then Some (middle, row)
            else if key row <? id then bsearch_loop key l id fuel (middle + 1) right
            else bsearch_loop key l id fuel left middle
        end
      else None
  end.

Definition bsearch {A} (key : A -> Z) (l : list A) (id : Z) : option (row_ptr A) :=
  bsearch_loop key l id (length l) 0 (length l).

(** The search for the first row that is not [below]. *)
Fixpoint lower_bound_loop {A} (below : A -> bool) (l : list A) (fuel left right : nat) : nat :=
  match fuel with
  | O => left
  | S fuel =>
      if (left <? right)%nat then
        let middle := middle_of left right in
        match l !! middle with
        | None => left
        | Some row =>
            if below row then lower_bound_loop below l fuel (middle + 1) right
            else lower_bound_loop below l fuel left middle
        end
      else left
  end.

Definition lower_bound {A} (below : A -> bool) (l : list A) : nat :=
  lower_bound_loop below l (length l) 0 (length l).

(** Rows in non-decreasing order of a key. *)
Definition sorted_by {A} (key : A -> Z) (l : list A) : Prop :=
  StronglySorted (fun a b => key a <= key b) l.

Lemma middle_bounds (left right : nat) :
  (left < right)%nat -> (left <= middle_of left right < right)%nat.
Proof.
  intros H. unfold middle_of. assert ((right - left) / 2 < right - left)%nat by (apply Nat.div_lt; lia). lia.
Qed.

Lemma StronglySorted_lookup {A} (R : relation A) l i j x y :
  StronglySorted R l -> l !! i = Some x -> l !! j = Some y -> (i < j)%nat -> R x y.
Proof.
  intros Hs. revert i j. induction Hs as [|a l Hs IH Ha]; intros [|i] [|j] Hi Hj Hlt;
    simplify_eq/=; try lia.
  - exact (Forall_lookup_1 _ _ _ _ Ha Hj).
  - eapply IH; [done..|lia].
Qed.

Lemma sorted_by_lookup {A} (key : A -> Z) l i j x y :
  sorted_by key l -> l !! i = Some x -> l !! j = Some y -> (i <= j)%nat -> key x <= key y.
Proof.
  intros Hs Hi Hj Hle. destruct (decide (i = j)) as [->|]; [simplify_eq; lia|].
  by apply (StronglySorted_lookup _ _ _ _ _ _ Hs Hi Hj); lia.
Qed.

Lemma bsearch_loop_sound {A} (key : A -> Z) l id fuel left right i x :
  bsearch_loop key l id fuel left right = Some (i, x) -> l !! i = Some x /\ key x = id.
Proof.
  revert left right. induction fuel as [|fuel IH]; intros left right; simpl; [done|].
  case_if; [|done]. destruct (l !! middle_of _ _) as [row|] eqn:Hrow; [|done].
  case_if; [by intros [= <- <-]; destruct_bools|]. case_if; apply IH.
Qed.

Lemma bsearch_loop_None {A} (key : A -> Z) l id fuel left right :
  sorted_by key l -> (right <= length l)%nat -> (right - left <= fuel)%nat ->
  bsearch_loop key l id fuel left right = None ->
  forall i x, (left <= i < right)%nat -> l !! i = Some x -> key x <> id.
Proof.
  intros Hs. revert left right. induction fuel as [|fuel IH]; intros left right Hr Hf; simpl.
  { intros _ i x Hi. lia. }
  destruct (left <? right)%nat eqn:Hlt; destruct_bools; [|intros _ i x Hi; lia].
  pose proof (middle_bounds left right Hlt) as Hm.
  set (m := middle_of left right) in *. clearbody m.
  destruct (l !! m) as [row|] eqn:Hrow; [|apply lookup_ge_None in Hrow; lia].
  case_if; [done|]. destruct_bools. case_if; destruct_bools; intros Hnone i x Hi Hx.
  - destruct (decide (i <= m)%nat).
    + pose proof (sorted_by_lookup key l i m x row Hs Hx Hrow ltac:(lia)). lia.
    + eapply (IH _ _ _ _ Hnone); [|done]. lia.
  - destruct (decide (m <= i)%nat).
    + pose proof (sorted_by_lookup key l m i row x Hs Hrow Hx ltac:(lia)). lia.
    + eapply (IH _ _ _ _ Hnone); [|done]. lia.
  Unshelve. all: lia.
Qed.

Lemma bsearch_sound {A} (key : A -> Z) l id i x :
  bsearch key l id = Some (i, x) -> l !! i = Some x /\ key x = id.
Proof. apply bsearch_loop_sound. Qed.

Lemma bsearch_None {A} (key : A -> Z) l id :
  sorted_by key l -> bsearch key l id = None <-> forall x, x ∈ l -> key x <> id.
Proof.
  intros Hs. split.
  - intros Hnone x (i & Hx)%list_elem_of_lookup.
    eapply (bsearch_loop_None key l id (length l) 0 (length l)); [done|lia|lia|done| |done].
    apply lookup_lt_Some in Hx. lia.
  - intros Hall. destruct (bsearch key l id) as [[i x]|] eqn:Hb; [|done].
    apply bsearch_sound in Hb as [Hx Hid]. exfalso. apply (Hall x); [|done].
    by eapply list_elem_of_lookup_2.
Qed.

(** With distinct keys the search finds the row it is asked for. *)
Lemma bsearch_exact {A} (key : A -> Z) l id i x :
  sorted_by key l -> NoDup (key <$> l) ->
  bsearch key l id = Some (i, x) <-> l !! i = Some x /\ key x = id.
Proof.
  intros Hs Hnd. split; [apply bsearch_sound|]. intros [Hx Hid].
  destruct (bsearch key l id) as [[j y]|] eqn:Hb.
  - apply bsearch_sound in Hb as [Hy Hjd].
    assert (i = j) as ->; [|by simplify_eq].
    eapply (NoDup_lookup (key <$> l)); [done| |]; rewrite list_lookup_fmap.
    + by rewrite Hx.
    + rewrite Hy. simpl. congruence.
  - exfalso. eapply (proj1 (bsearch_None key l id Hs) Hb x); [|done].
    by eapply list_elem_of_lookup_2.
Qed.

Lemma lower_bound_loop_spec {A} (below : A -> bool) l fuel left right :
  (forall i j x y, l !! i = Some x -> l !! j = Some y -> (i <= j)%nat ->
     below y = true -> below x = true) ->
  (left <= right <= length l)%nat -> (right - left <= fuel)%nat ->
  (forall i x, (i < left)%nat -> l !! i = Some x -> below x = true) ->
  (forall i x, (right <= i)%nat -> l !! i = Some x -> below x = false) ->
  (lower_bound_loop below l fuel left right <= length l)%nat /\
  forall i x, l !! i = Some x ->
    below x = true <-> (i < lower_bound_loop below l fuel left right)%nat.
Proof.
  intros Hmono. revert left right.
  induction fuel as [|fuel IH]; intros left right Hb Hf Hlo Hhi; simpl.
  1: assert (left = right) as -> by lia.
  2: destruct (left <? right)%nat eqn:Hlt; destruct_bools;
     [|assert (left = right) as -> by lia].
  1, 3: split; [lia|]; intros i x Hx; destruct (decide (i < right)%nat) as [Hi|Hi];
    [by rewrite (Hlo i x Hi Hx)|rewrite (Hhi i x); [|lia|done]]; (split; [done|lia]).
  pose proof (middle_bounds left right Hlt) as Hm.
  set (m := middle_of left right) in *. clearbody m.
  destruct (l !! m) as [row|] eqn:Hrow; [|apply lookup_ge_None in Hrow; lia].
  destruct (below row) eqn:Hrb; apply IH; try lia; try done.
  - intros i x Hi Hx. by apply (Hmono i m x row); [..|lia|].
  - intros i x Hi Hx. destruct (below x) eqn:Hbx; [|done].
    by rewrite (Hmono m i row x Hrow Hx Hi Hbx) in Hrb.
Qed.

Lemma lower_bound_spec {A} (below : A -> bool) l :
  (forall i j x y, l !! i = Some x -> l !! j = Some y -> (i <= j)%nat ->
     below y = true -> below x = true) ->
  (lower_bound below l <= length l)%nat /\
  forall i x, l !! i = Some x -> below x = true <-> (i < lower_bound below l)%nat.
Proof.
  intros Hmono. apply lower_bound_loop_spec; try lia; try done.
  intros i x Hi Hx. apply lookup_lt_Some in Hx. lia.
Qed.

(** * The standard sort *)

(** [qsort]: some permutation of the rows in an order the comparison accepts.
    The order of rows that compare equal is not specified. *)
Class Qsort := {
  qsort : forall A, (A -> A -> Z) -> list A -> list A;
  qsort_permutation : forall A cmp l, qsort A cmp l ≡ₚ l;
  qsort_sorted : forall A (cmp : A -> A -> Z) l,
    Transitive (fun a b => cmp a b <= 0) -> Total (fun a b => cmp a b <= 0) ->
    Sorted (fun a b => cmp a b <= 0) (qsort A cmp l);
}.

Arguments qsort {_ A} cmp l.

#[refine] Instance merge_qsort : Qsort :=
  {| qsort := fun A cmp l => merge_sort (fun a b => cmp a b <= 0) l |}.
Proof.
  - intros x y. apply _.
  - intros. apply merge_sort_Permutation.
  - intros. by apply Sorted_merge_sort.
Defined.

(** [a->id < b->id ? -1 : a->id > b->id]. *)
Definition compare_key {A} (key : A -> Z) (a b : A) : Z :=
  if key a <? key b then -1 else Z.b2z (key b <? key a).

(** Rows in an order the comparison accepts. *)
Definition ordered {A} (cmp : A -> A -> Z) (l : list A) : Prop :=
  StronglySorted (fun a b => cmp a b <= 0) l.

Lemma ordered_lookup {A} (cmp : A -> A -> Z) l i j x y :
  ordered cmp l -> l !! i = Some x -> l !! j = Some y -> (i < j)%nat -> cmp x y <= 0.
Proof. intros Hs. by apply (StronglySorted_lookup _ _ _ _ _ _ Hs). Qed.

Lemma ordered_cons {A} (cmp : A -> A -> Z) x l :
  ordered cmp (x :: l) -> ordered cmp l /\ forall y, y ∈ l -> cmp x y <= 0.
Proof.
  intros Hs. apply StronglySorted_inv in Hs as [Hs Hx]. split; [done|].
  by apply Forall_forall.
Qed.

Lemma ordered_drop {A} (cmp : A -> A -> Z) n l : ordered cmp l -> ordered cmp (drop n l).
Proof.
  revert l. induction n as [|n IH]; intros [|x l] Ho; simpl; try done.
  by apply IH, (ordered_cons cmp x).
Qed.

(** [if (count > 1u) qsort (...)]. *)
Definition sort_rows `{Qsort} {A} (cmp : A -> A -> Z) (l : list A) : list A :=
  if (1 <? length l)%nat then qsort cmp l else l.

Lemma compare_key_le {A} (key : A -> Z) a b : compare_key key a b <= 0 <-> key a <= key b.
Proof. unfold compare_key. case_ifs; destruct_bools; [lia|]. destruct (_ <? _) eqn:?; destruct_bools; simpl; lia. Qed.

Lemma sort_rows_permutation `{Qsort} {A} (cmp : A -> A -> Z) l : sort_rows cmp l ≡ₚ l.
Proof. unfold sort_rows. case_if; [apply qsort_permutation|done]. Qed.

Lemma sort_rows_sorted `{Qsort} {A} (cmp : A -> A -> Z) l :
  Transitive (fun a b => cmp a b <= 0) -> Total (fun a b => cmp a b <= 0) ->
  ordered cmp (sort_rows cmp l).
Proof.
  intros Ht Htot. unfold ordered, sort_rows. case_if; destruct_bools.
  - by apply Sorted_StronglySorted, qsort_sorted.
  - destruct l as [|x [|y l]]; simpl in *; [constructor|by repeat constructor|lia].
Qed.

Lemma qsort_by `{Qsort} {A} (key : A -> Z) l : sorted_by key (qsort (compare_key key) l).
Proof.
  assert (StronglySorted (fun a b => compare_key key a b <= 0) (qsort (compare_key key) l)) as Hs.
  { assert (Transitive (fun a b => compare_key key a b <= 0)).
    { intros a b c. rewrite !compare_key_le. lia. }
    apply Sorted_StronglySorted, qsort_sorted; [done|done|].
    intros a b. rewrite !compare_key_le. lia. }
  unfold sorted_by. induction Hs as [|x k Hs IH Hx]; constructor; [done|].
  eapply Forall_impl; [exact Hx|]. intros y. by rewrite compare_key_le.
Qed.

Lemma sort_rows_by `{Qsort} {A} (key : A -> Z) l : sorted_by key (sort_rows (compare_key key) l).
Proof.
  unfold sort_rows. case_if; destruct_bools; [apply qsort_by|].
  destruct l as [|x [|y l]]; simpl in *; [constructor|by repeat constructor|lia].
Qed.

#[export] Hint Resolve sort_rows_by sort_rows_permutation : salts.

(** Sorted rows are determined by their keys. *)
Lemma sorted_by_unique {A B} (key : A -> Z) (id : B -> Z) l k :
  sorted_by key l -> sorted_by id k -> key <$> l ≡ₚ id <$> k -> key <$> l = id <$> k.
Proof.
  assert (forall C (f : C -> Z) c, sorted_by f c -> StronglySorted Z.le (f <$> c)) as Hs.
  { intros C f c. induction 1 as [|x c Hc IH Hx]; simpl; constructor; [done|]. by apply Forall_fmap. }
  intros Hl Hk Hp. apply (StronglySorted_unique Z.le); auto.
Qed.

(** * Sizes and value types *)

(** [checked_bytes] and [cflow_size_multiply]: the product, unless it wraps. *)
Definition checked_bytes (count width : Z) : option Z :=
  if negb (width =? 0) && (SIZE_MAX / width <? count) then None else Some (u64 (count * width)).

Lemma checked_bytes_exact count width :
  0 <= count -> 0 < width ->
  checked_bytes count width = if decide (count * width <= SIZE_MAX) then Some (count * width) else None.
Proof.
  intros Hc Hw. unfold checked_bytes. rewrite (proj2 (Z.eqb_neq width 0)) by lia. simpl.
  assert (SIZE_MAX / width < count <-> ~ count * width <= SIZE_MAX) as Hdiv.
  { pose proof (Z.mul_div_le SIZE_MAX width Hw) as Hle.
    pose proof (Z.mul_succ_div_gt SIZE_MAX width Hw) as Hgt. nia. }
  destruct (_ <? _) eqn:Hlt; destruct_bools; destruct (decide _) as [Hle|Hle]; try tauto.
  - f_equal. apply Z.mod_small. unfold SIZE_MAX in Hle. nia.
  - lia.
Qed.

(** The tests [cmeta_type_desc_valid (type) && type->size != 0]. *)
Definition type_size (type : option cmeta_type_desc) : Z :=
  match type with Some t => td_size t | None => 0 end.

Definition type_align (type : option cmeta_type_desc) : Z :=
  match type with Some t => td_align t | None => 0 end.

Definition valid_value_type (type : option cmeta_type_desc) : bool :=
  cmeta_type_desc_valid type && negb (type_size type =? 0).

(** [_Alignof(cmeta_capture_storage)]: the strictest fundamental alignment. *)
Definition alignof_capture_storage : Z := 16.

(** [cflow_alignment_valid] of event.c and [runtime_alignment_valid] of
    machine_instance.c. *)
Definition alignment_valid (alignment : Z) : bool :=
  negb (alignment =? 0) && (Z.land alignment (u64 (alignment - 1)) =? 0) &&
  (alignment <=? alignof_capture_storage).

(** [if (x != UINT64_MAX) ++x]. *)
Definition counter_increment (counter : Z) : Z :=
  if counter =? UINT64_MAX then counter else u64 (counter + 1).

Lemma u64_range z : 0 <= u64 z < 2 ^ 64.
Proof. apply Z.mod_pos_bound. lia. Qed.

Lemma counter_increment_small c : 0 <= c < UINT64_MAX -> counter_increment c = c + 1.
Proof.
  unfold counter_increment, u64, UINT64_MAX. intros Hc.
  rewrite (proj2 (Z.eqb_neq _ _)) by lia. apply Z.mod_small. lia.
Qed.

Lemma counter_increment_range c :
  0 <= c <= UINT64_MAX -> 0 <= counter_increment c <= UINT64_MAX.
Proof.
  intros Hc. destruct (decide (c = UINT64_MAX)) as [->|].
  - unfold counter_increment. by rewrite Z.eqb_refl.
  - rewrite counter_increment_small; lia.
Qed.
