(* ===== verification/CFlowMachine.v ===== *)
(** Machine definitions and their normalised form (cflow/include/cflow/machine.h,
    cflow/src/machine.c).

    A caller's arrays are pointers with counts; [cflow_machine_build] copies
    them, sorts the copies and validates them, and publishes the result in a
    handle.  Allocation is an oracle over the calls the code makes, each of which
    it makes at most once.  [None] is a null dereference or an access outside an
    array. *)

From S2P Require Import Prelude CMetaType CMetaFunction CFlowSupport.

(** * Data *)

Definition CFLOW_MACHINE_MAX_STATES : Z := 65536.
Definition CFLOW_MACHINE_MAX_EVENTS : Z := 65536.
Definition CFLOW_MACHINE_MAX_GUARDS : Z := 65536.
Definition CFLOW_MACHINE_MAX_ACTIONS : Z := 65536.
Definition CFLOW_MACHINE_MAX_TRANSITIONS : Z := 1048576.

Inductive cflow_machine_state_kind :=
  | CFLOW_MACHINE_STATE_ACTIVE
  | CFLOW_MACHINE_STATE_DONE
  | CFLOW_MACHINE_STATE_ERROR
  | CFLOW_MACHINE_STATE_OTHER (value : Z).

Inductive cflow_machine_action_observation :=
  | CFLOW_MACHINE_ACTION_NONE
  | CFLOW_MACHINE_ACTION_VALUE
  | CFLOW_MACHINE_ACTION_EVENT
  | CFLOW_MACHINE_ACTION_OTHER (value : Z).

Inductive cflow_machine_status :=
  | CFLOW_MACHINE_OK
  | CFLOW_MACHINE_INVALID_ARGUMENT
  | CFLOW_MACHINE_LIMIT_EXCEEDED
  | CFLOW_MACHINE_ALLOCATION_FAILED
  | CFLOW_MACHINE_EMPTY
  | CFLOW_MACHINE_INVALID_ID
  | CFLOW_MACHINE_DUPLICATE_ID
  | CFLOW_MACHINE_INVALID_TYPE
  | CFLOW_MACHINE_UNKNOWN_STATE
  | CFLOW_MACHINE_UNKNOWN_EVENT
  | CFLOW_MACHINE_UNKNOWN_GUARD
  | CFLOW_MACHINE_UNKNOWN_ACTION
  | CFLOW_MACHINE_TYPE_MISMATCH
  | CFLOW_MACHINE_INVALID_CONTRACT
  | CFLOW_MACHINE_INVALID_OBSERVATION
  | CFLOW_MACHINE_TERMINAL_TRANSITION
  | CFLOW_MACHINE_AMBIGUOUS_TRANSITION
  | CFLOW_MACHINE_UNREACHABLE_STATE
  | CFLOW_MACHINE_UNUSED_DECLARATION.

#[export] Instance cflow_machine_state_kind_eq_dec : EqDecision cflow_machine_state_kind.
Proof. solve_decision. Defined.

#[export] Instance cflow_machine_action_observation_eq_dec :
  EqDecision cflow_machine_action_observation.
Proof. solve_decision. Defined.

#[export] Instance cflow_machine_status_eq_dec : EqDecision cflow_machine_status.
Proof. solve_decision. Defined.

Record cflow_event_type := mk_event_type {
  et_id : Z;
  et_payload_type : option cmeta_type_desc;
}.

Record cflow_machine_state := mk_machine_state {
  ms_id : Z;
  ms_value_type : option cmeta_type_desc;
  ms_kind : cflow_machine_state_kind;
}.

Record cflow_machine_guard := mk_machine_guard {
  mg_id : Z;
  mg_state_type : option cmeta_type_desc;
  mg_event_id : Z;
  mg_event_type : option cmeta_type_desc;
  mg_effects : Z;
  mg_properties : Z;
}.

Record cflow_machine_action := mk_machine_action {
  ma_id : Z;
  ma_source_type : option cmeta_type_desc;
  ma_event_id : Z;
  ma_event_type : option cmeta_type_desc;
  ma_target_type : option cmeta_type_desc;
  ma_effects : Z;
  ma_properties : Z;
  ma_observation : cflow_machine_action_observation;
  ma_output_type : option cmeta_type_desc;
  ma_output_event_id : Z;
}.

Record cflow_machine_transition := mk_machine_transition {
  mt_source : Z;
  mt_event : Z;
  mt_guard : Z;
  mt_action : Z;
  mt_target : Z;
  mt_priority : Z;
}.

Record cflow_machine_definition := mk_machine_definition {
  md_states : option (list cflow_machine_state);
  md_state_count : Z;
  md_initial_state : Z;
  md_events : option (list cflow_event_type);
  md_event_count : Z;
  md_guards : option (list cflow_machine_guard);
  md_guard_count : Z;
  md_actions : option (list cflow_machine_action);
  md_action_count : Z;
  md_transitions : option (list cflow_machine_transition);
  md_transition_count : Z;
}.

(** A count field of the implementation is the length of its array. *)
Record cflow_machine_impl := mk_machine_impl {
  mi_states : list cflow_machine_state;
  mi_initial_state : Z;
  mi_events : list cflow_event_type;
  mi_guards : list cflow_machine_guard;
  mi_actions : list cflow_machine_action;
  mi_transitions : list cflow_machine_transition;
}.

Record cflow_machine := mk_machine { m_impl : option cflow_machine_impl }.

(** The allocations of one build, in the order of the code. *)
Inductive machine_allocation :=
  | ALLOC_IMPL | ALLOC_STATES | ALLOC_EVENTS | ALLOC_GUARDS | ALLOC_ACTIONS
  | ALLOC_TRANSITIONS | ALLOC_REACHABLE | ALLOC_QUEUE | ALLOC_GUARDS_USED
  | ALLOC_ACTIONS_USED.

(** * Sorting *)

Definition compare_state : cflow_machine_state -> cflow_machine_state -> Z := compare_key ms_id.
Definition compare_event : cflow_event_type -> cflow_event_type -> Z := compare_key et_id.
Definition compare_guard : cflow_machine_guard -> cflow_machine_guard -> Z := compare_key mg_id.
Definition compare_action : cflow_machine_action -> cflow_machine_action -> Z :=
  compare_key ma_id.

Definition compare_transition (a b : cflow_machine_transition) : Z :=
  if negb (mt_source a =? mt_source b) then (if mt_source a <? mt_source b then -1 else 1)
  else if negb (mt_event a =? mt_event b) then (if mt_event a <? mt_event b then -1 else 1)
  else if negb (mt_priority a =? mt_priority b) then
    (if mt_priority a <? mt_priority b then -1 else 1)
  else if negb (mt_target a =? mt_target b) then (if mt_target a <? mt_target b then -1 else 1)
  else 0.

(** * Lookup *)

Definition find_state (impl : cflow_machine_impl) (id : Z) : option (row_ptr cflow_machine_state) :=
  bsearch ms_id (mi_states impl) id.

Definition find_event (impl : cflow_machine_impl) (id : Z) : option (row_ptr cflow_event_type) :=
  bsearch et_id (mi_events impl) id.

Definition find_guard (impl : cflow_machine_impl) (id : Z) : option (row_ptr cflow_machine_guard) :=
  bsearch mg_id (mi_guards impl) id.

Definition find_action (impl : cflow_machine_impl) (id : Z)
    : option (row_ptr cflow_machine_action) :=
  bsearch ma_id (mi_actions impl) id.

Definition first_transition_for_source (impl : cflow_machine_impl) (source : Z) : nat :=
  lower_bound (fun t => mt_source t <? source) (mi_transitions impl).

(** * Validation of the rows *)

(** [for (index = 0; index < count; ++index)] over the rows, with the row before
    the current one, up to the first failure. *)
Fixpoint scan_rows {A} (check : option A -> A -> cflow_machine_status)
    (previous : option A) (rows : list A) : cflow_machine_status :=
  match rows with
  | [] => CFLOW_MACHINE_OK
  | row :: rows' =>
      match check previous row with
      | CFLOW_MACHINE_OK => scan_rows check (Some row) rows'
      | status => status
      end
  end.

(** [index != 0u && rows[index - 1u].id == row->id]. *)
Definition repeats_id {A} (key : A -> Z) (previous : option A) (row : A) : bool :=
  match previous with Some p => key p =? key row | None => false end.

Definition state_status (previous : option cflow_machine_state) (state : cflow_machine_state)
    : cflow_machine_status :=
  if ms_id state =? 0 then CFLOW_MACHINE_INVALID_ID
  else if repeats_id ms_id previous state then CFLOW_MACHINE_DUPLICATE_ID
  else if negb (valid_value_type (ms_value_type state)) then CFLOW_MACHINE_INVALID_TYPE
  else if negb (bool_decide (ms_kind state = CFLOW_MACHINE_STATE_ACTIVE)) &&
          negb (bool_decide (ms_kind state = CFLOW_MACHINE_STATE_DONE)) &&
          negb (bool_decide (ms_kind state = CFLOW_MACHINE_STATE_ERROR))
  then CFLOW_MACHINE_INVALID_CONTRACT
  else CFLOW_MACHINE_OK.

Definition validate_state_domain (impl : cflow_machine_impl) : cflow_machine_status :=
  match scan_rows state_status None (mi_states impl) with
  | CFLOW_MACHINE_OK =>
      match find_state impl (mi_initial_state impl) with
      | None => CFLOW_MACHINE_UNKNOWN_STATE
      | Some _ => CFLOW_MACHINE_OK
      end
  | status => status
  end.

Definition event_status (previous : option cflow_event_type) (event : cflow_event_type)
    : cflow_machine_status :=
  if et_id event =? 0 then CFLOW_MACHINE_INVALID_ID
  else if repeats_id et_id previous event then CFLOW_MACHINE_DUPLICATE_ID
  else if negb (valid_value_type (et_payload_type event)) then CFLOW_MACHINE_INVALID_TYPE
  else CFLOW_MACHINE_OK.

Definition validate_event_domain (impl : cflow_machine_impl) : cflow_machine_status :=
  scan_rows event_status None (mi_events impl).

Definition guard_contract_invalid (guard : cflow_machine_guard) : bool :=
  negb (cmeta_effects_valid (mg_effects guard)) ||
  negb (cmeta_properties_valid (mg_properties guard)) ||
  negb (cmeta_effects_are_pure (mg_effects guard)) ||
  negb (cmeta_properties_include (mg_properties guard)
          (Z.lor CMETA_PROP_STABLE CMETA_PROP_NO_ALIAS)).

Definition guard_status (impl : cflow_machine_impl)
    (previous : option cflow_machine_guard) (guard : cflow_machine_guard)
    : cflow_machine_status :=
  if (mg_id guard =? 0) || (mg_event_id guard =? 0) then CFLOW_MACHINE_INVALID_ID
  else if repeats_id mg_id previous guard then CFLOW_MACHINE_DUPLICATE_ID
  else if negb (valid_value_type (mg_state_type guard)) ||
          negb (valid_value_type (mg_event_type guard)) then CFLOW_MACHINE_INVALID_TYPE
  else if guard_contract_invalid guard then CFLOW_MACHINE_INVALID_CONTRACT
  else
    match find_event impl (mg_event_id guard) with
    | None => CFLOW_MACHINE_UNKNOWN_EVENT
    | Some (_, event) =>
        if negb (cmeta_type_equal (et_payload_type event) (mg_event_type guard))
        then CFLOW_MACHINE_TYPE_MISMATCH
        else CFLOW_MACHINE_OK
    end.

Definition validate_guard_domain (impl : cflow_machine_impl) : cflow_machine_status :=
  scan_rows (guard_status impl) None (mi_guards impl).

Definition validate_action_observation (impl : cflow_machine_impl)
    (action : cflow_machine_action) : cflow_machine_status :=
  match ma_observation action with
  | CFLOW_MACHINE_ACTION_NONE =>
      if is_null (ma_output_type action) && (ma_output_event_id action =? 0)
      then CFLOW_MACHINE_OK else CFLOW_MACHINE_INVALID_OBSERVATION
  | CFLOW_MACHINE_ACTION_VALUE =>
      if valid_value_type (ma_output_type action) && (ma_output_event_id action =? 0)
      then CFLOW_MACHINE_OK else CFLOW_MACHINE_INVALID_OBSERVATION
  | CFLOW_MACHINE_ACTION_EVENT =>
      if negb (valid_value_type (ma_output_type action)) || (ma_output_event_id action =? 0)
      then CFLOW_MACHINE_INVALID_OBSERVATION
      else
        match find_event impl (ma_output_event_id action) with
        | None => CFLOW_MACHINE_UNKNOWN_EVENT
        | Some (_, event) =>
            if cmeta_type_equal (et_payload_type event) (ma_output_type action)
            then CFLOW_MACHINE_OK else CFLOW_MACHINE_TYPE_MISMATCH
        end
  | CFLOW_MACHINE_ACTION_OTHER _ => CFLOW_MACHINE_INVALID_OBSERVATION
  end.

Definition action_contract_invalid (action : cflow_machine_action) : bool :=
  negb (cmeta_effects_valid (ma_effects action)) ||
  negb (cmeta_properties_valid (ma_properties action)) ||
  negb (cmeta_properties_include (ma_properties action)
          (Z.lor CMETA_PROP_DETERMINISTIC CMETA_PROP_NO_ALIAS)) ||
  (negb (Z.land (ma_properties action) CMETA_PROP_TOTAL =? 0) &&
   negb (Z.land (ma_effects action) CMETA_EFFECT_MAY_FAIL =? 0)).

Definition action_status (impl : cflow_machine_impl)
    (previous : option cflow_machine_action) (action : cflow_machine_action)
    : cflow_machine_status :=
  if (ma_id action =? 0) || (ma_event_id action =? 0) then CFLOW_MACHINE_INVALID_ID
  else if repeats_id ma_id previous action then CFLOW_MACHINE_DUPLICATE_ID
  else if negb (valid_value_type (ma_source_type action)) ||
          negb (valid_value_type (ma_event_type action)) ||
          negb (valid_value_type (ma_target_type action)) then CFLOW_MACHINE_INVALID_TYPE
  else if action_contract_invalid action then CFLOW_MACHINE_INVALID_CONTRACT
  else
    match find_event impl (ma_event_id action) with
    | None => CFLOW_MACHINE_UNKNOWN_EVENT
    | Some (_, event) =>
        if negb (cmeta_type_equal (et_payload_type event) (ma_event_type action))
        then CFLOW_MACHINE_TYPE_MISMATCH
        else validate_action_observation impl action
    end.

Definition validate_action_domain (impl : cflow_machine_impl) : cflow_machine_status :=
  scan_rows (action_status impl) None (mi_actions impl).

(** * Validation of the transitions *)

(** [if (id != 0u) { row = find (impl, id); if (row == NULL) return ...; }]:
    the outer [None] is the missing row, the inner one the absent reference. *)
Definition optional_row {A} (find : Z -> option (row_ptr A)) (id : Z) : option (option A) :=
  if id =? 0 then Some None
  else match find id with None => None | Some (_, row) => Some (Some row) end.

Definition guard_mismatch (guard : option cflow_machine_guard)
    (transition : cflow_machine_transition) (source : cflow_machine_state)
    (event : cflow_event_type) : bool :=
  match guard with
  | None => false
  | Some g =>
      negb (mg_event_id g =? mt_event transition) ||
      negb (cmeta_type_equal (mg_state_type g) (ms_value_type source)) ||
      negb (cmeta_type_equal (mg_event_type g) (et_payload_type event))
  end.

Definition action_mismatch (action : option cflow_machine_action)
    (transition : cflow_machine_transition) (source target : cflow_machine_state)
    (event : cflow_event_type) : bool :=
  match action with
  | None => negb (cmeta_type_equal (ms_value_type source) (ms_value_type target))
  | Some a =>
      negb (ma_event_id a =? mt_event transition) ||
      negb (cmeta_type_equal (ma_source_type a) (ms_value_type source)) ||
      negb (cmeta_type_equal (ma_event_type a) (et_payload_type event)) ||
      negb (cmeta_type_equal (ma_target_type a) (ms_value_type target))
  end.

Definition ambiguous (previous : option cflow_machine_transition)
    (transition : cflow_machine_transition) : bool :=
  match previous with
  | None => false
  | Some p =>
      (mt_source p =? mt_source transition) && (mt_event p =? mt_event transition) &&
      (mt_priority p =? mt_priority transition)
  end.

Definition transition_status (impl : cflow_machine_impl)
    (previous : option cflow_machine_transition) (transition : cflow_machine_transition)
    : cflow_machine_status :=
  match find_state impl (mt_source transition), find_state impl (mt_target transition) with
  | Some (_, source), Some (_, target) =>
      match find_event impl (mt_event transition) with
      | None => CFLOW_MACHINE_UNKNOWN_EVENT
      | Some (_, event) =>
          match optional_row (find_guard impl) (mt_guard transition) with
          | None => CFLOW_MACHINE_UNKNOWN_GUARD
          | Some guard =>
              match optional_row (find_action impl) (mt_action transition) with
              | None => CFLOW_MACHINE_UNKNOWN_ACTION
              | Some action =>
                  if negb (bool_decide (ms_kind source = CFLOW_MACHINE_STATE_ACTIVE))
                  then CFLOW_MACHINE_TERMINAL_TRANSITION
                  else if guard_mismatch guard transition source event
                  then CFLOW_MACHINE_TYPE_MISMATCH
                  else if action_mismatch action transition source target event
                  then CFLOW_MACHINE_TYPE_MISMATCH
                  else if ambiguous previous transition
                  then CFLOW_MACHINE_AMBIGUOUS_TRANSITION
                  else CFLOW_MACHINE_OK
              end
          end
      end
  | _, _ => CFLOW_MACHINE_UNKNOWN_STATE
  end.

Definition validate_transitions (impl : cflow_machine_impl) : cflow_machine_status :=
  scan_rows (transition_status impl) None (mi_transitions impl).

(** * Reachability

    [visited] is the pair of the [reachable] flags and the part of the [queue]
    array written so far, whose length is [tail]. *)

Definition visited : Type := (list bool * list Z)%type.

(** [while (index < count && transitions[index].source == source)]. *)
Fixpoint visit_transitions (impl : cflow_machine_impl) (source : Z)
    (rest : list cflow_machine_transition) (v : visited) : option visited :=
  match rest with
  | [] => Some v
  | transition :: rest' =>
      if mt_source transition =? source then
        match find_state impl (mt_target transition) with
        | None => None
        | Some (target_index, target) =>
            let (reachable, queue) := v in
            match reachable !! target_index with
            | None => None
            | Some true => visit_transitions impl source rest' v
            | Some false =>
                if (length queue <? length (mi_states impl))%nat then
                  visit_transitions impl source rest'
                    (<[target_index := true]> reachable, queue ++ [ms_id target])
                else None
            end
        end
      else Some v
  end.

(** [while (head < tail)].  A state enters the queue once, so that the number of
    states is enough fuel. *)
Fixpoint reachability_loop (impl : cflow_machine_impl) (fuel head : nat) (v : visited)
    : option visited :=
  match snd v !! head with
  | None => Some v
  | Some source =>
      match fuel with
      | O => None
      | S fuel =>
          let index := first_transition_for_source impl source in
          match visit_transitions impl source (drop index (mi_transitions impl)) v with
          | None => None
          | Some v => reachability_loop impl fuel (S head) v
          end
      end
  end.

Definition validate_reachability (malloc : machine_allocation -> bool)
    (impl : cflow_machine_impl) : option cflow_machine_status :=
  match checked_bytes (Z.of_nat (length (mi_states impl))) 4 with
  | None => Some CFLOW_MACHINE_INVALID_ARGUMENT
  | Some _ =>
      if negb (malloc ALLOC_REACHABLE) || negb (malloc ALLOC_QUEUE)
      then Some CFLOW_MACHINE_ALLOCATION_FAILED
      else
        match find_state impl (mi_initial_state impl) with
        | None => None
        | Some (index, initial) =>
            let reachable := <[index := true]> (replicate (length (mi_states impl)) false) in
            match reachability_loop impl (length (mi_states impl)) 0
                    (reachable, [ms_id initial]) with
            | None => None
            | Some (reachable, _) =>
                Some (if forallb id reachable then CFLOW_MACHINE_OK
                      else CFLOW_MACHINE_UNREACHABLE_STATE)
            end
        end
  end.

(** * Use of the declarations *)

(** [if (id != 0u) used[find (impl, id) - rows] = true;] *)
Definition mark_used {A} (find : Z -> option (row_ptr A)) (id : Z) (used : list bool)
    : option (list bool) :=
  if id =? 0 then Some used
  else match find id with None => None | Some (index, _) => Some (<[index := true]> used) end.

Fixpoint mark_transitions (impl : cflow_machine_impl) (rows : list cflow_machine_transition)
    (guards_used actions_used : list bool) : option (list bool * list bool) :=
  match rows with
  | [] => Some (guards_used, actions_used)
  | row :: rows' =>
      match mark_used (find_guard impl) (mt_guard row) guards_used with
      | None => None
      | Some guards_used =>
          match mark_used (find_action impl) (mt_action row) actions_used with
          | None => None
          | Some actions_used => mark_transitions impl rows' guards_used actions_used
          end
      end
  end.

Definition validate_declaration_use (malloc : machine_allocation -> bool)
    (impl : cflow_machine_impl) : option cflow_machine_status :=
  if negb (length (mi_guards impl) =? 0)%nat && negb (malloc ALLOC_GUARDS_USED)
  then Some CFLOW_MACHINE_ALLOCATION_FAILED
  else if negb (length (mi_actions impl) =? 0)%nat && negb (malloc ALLOC_ACTIONS_USED)
  then Some CFLOW_MACHINE_ALLOCATION_FAILED
  else
    match mark_transitions impl (mi_transitions impl)
            (replicate (length (mi_guards impl)) false)
            (replicate (length (mi_actions impl)) false) with
    | None => None
    | Some (guards_used, actions_used) =>
        Some (if negb (forallb id guards_used) then CFLOW_MACHINE_UNUSED_DECLARATION
              else if negb (forallb id actions_used) then CFLOW_MACHINE_UNUSED_DECLARATION
              else CFLOW_MACHINE_OK)
    end.

Definition validate_machine (malloc : machine_allocation -> bool) (impl : cflow_machine_impl)
    : option cflow_machine_status :=
  match validate_state_domain impl with
  | CFLOW_MACHINE_OK =>
      match validate_event_domain impl with
      | CFLOW_MACHINE_OK =>
          match validate_guard_domain impl with
          | CFLOW_MACHINE_OK =>
              match validate_action_domain impl with
              | CFLOW_MACHINE_OK =>
                  match validate_transitions impl with
                  | CFLOW_MACHINE_OK =>
                      match validate_reachability malloc impl with
                      | Some CFLOW_MACHINE_OK => validate_declaration_use malloc impl
                      | status => status
                      end
                  | status => Some status
                  end
              | status => Some status
              end
          | status => Some status
          end
      | status => Some status
      end
  | status => Some status
  end.

(** * Building *)

Definition sizeof_machine_state : Z := 24.
Definition sizeof_event_type : Z := 16.
Definition sizeof_machine_guard : Z := 40.
Definition sizeof_machine_action : Z := 72.
Definition sizeof_machine_transition : Z := 32.

(** [count != 0u && pointer == NULL]. *)
Definition missing_rows {A} (pointer : option (list A)) (count : Z) : bool :=
  negb (count =? 0) && is_null pointer.

(** The copy of [count] rows: the outer [None] reads past the caller's array, the
    inner one is a null result. *)
Definition copy_rows {A} (allocated : bool) (pointer : option (list A)) (count bytes : Z)
    : option (option (list A)) :=
  if bytes =? 0 then Some None
  else if negb allocated then Some None
  else
    match pointer with
    | None => None
    | Some l =>
        if Z.of_nat (length l) <? count then None else Some (Some (take (Z.to_nat count) l))
    end.

(** [bytes != 0u && copy == NULL]. *)
Definition copy_failed {A} (bytes : Z) (copy : option (list A)) : bool :=
  negb (bytes =? 0) && is_null copy.

Section Build.
Context `{Qsort} (malloc : machine_allocation -> bool).

Definition normalise (initial_state : Z) (states : list cflow_machine_state)
    (events : list cflow_event_type) (guards : list cflow_machine_guard)
    (actions : list cflow_machine_action) (transitions : list cflow_machine_transition)
    : cflow_machine_impl :=
  {| mi_states := sort_rows compare_state states;
     mi_initial_state := initial_state;
     mi_events := sort_rows compare_event events;
     mi_guards := sort_rows compare_guard guards;
     mi_actions := sort_rows compare_action actions;
     mi_transitions := sort_rows compare_transition transitions |}.

(** From the copies to the end. *)
Definition build_rows (d : cflow_machine_definition)
    (state_bytes event_bytes guard_bytes action_bytes transition_bytes : Z)
    (out : cflow_machine) : option (cflow_machine_status * cflow_machine) :=
  if negb (malloc ALLOC_IMPL) then Some (CFLOW_MACHINE_ALLOCATION_FAILED, out)
  else
    states ← copy_rows (malloc ALLOC_STATES) (md_states d) (md_state_count d) state_bytes;
    events ← copy_rows (malloc ALLOC_EVENTS) (md_events d) (md_event_count d) event_bytes;
    guards ← copy_rows (malloc ALLOC_GUARDS) (md_guards d) (md_guard_count d) guard_bytes;
    actions ← copy_rows (malloc ALLOC_ACTIONS) (md_actions d) (md_action_count d)
                action_bytes;
    transitions ← copy_rows (malloc ALLOC_TRANSITIONS) (md_transitions d)
                    (md_transition_count d) transition_bytes;
    if copy_failed state_bytes states || copy_failed event_bytes events ||
       copy_failed guard_bytes guards || copy_failed action_bytes actions ||
       copy_failed transition_bytes transitions
    then Some (CFLOW_MACHINE_ALLOCATION_FAILED, out)
    else
      let impl := normalise (md_initial_state d) (default [] states) (default [] events)
                    (default [] guards) (default [] actions) (default [] transitions) in
      match validate_machine malloc impl with
      | None => None
      | Some CFLOW_MACHINE_OK => Some (CFLOW_MACHINE_OK, mk_machine (Some impl))
      | Some status => Some (status, out)
      end.

Definition exceeds_limits (d : cflow_machine_definition) : bool :=
  (CFLOW_MACHINE_MAX_STATES <? md_state_count d) ||
  (CFLOW_MACHINE_MAX_EVENTS <? md_event_count d) ||
  (CFLOW_MACHINE_MAX_GUARDS <? md_guard_count d) ||
  (CFLOW_MACHINE_MAX_ACTIONS <? md_action_count d) ||
  (CFLOW_MACHINE_MAX_TRANSITIONS <? md_transition_count d).

Definition rows_missing (d : cflow_machine_definition) : bool :=
  is_null (md_states d) ||
  missing_rows (md_events d) (md_event_count d) ||
  missing_rows (md_guards d) (md_guard_count d) ||
  missing_rows (md_actions d) (md_action_count d) ||
  missing_rows (md_transitions d) (md_transition_count d).

Definition cflow_machine_build (out : option cflow_machine)
    (definition : option cflow_machine_definition)
    : option (cflow_machine_status * option cflow_machine) :=
  match out, definition with
  | Some machine, Some d =>
      if negb (is_null (m_impl machine)) then Some (CFLOW_MACHINE_INVALID_ARGUMENT, out)
      else if md_state_count d =? 0 then Some (CFLOW_MACHINE_EMPTY, out)
      else if exceeds_limits d then Some (CFLOW_MACHINE_LIMIT_EXCEEDED, out)
      else if rows_missing d then Some (CFLOW_MACHINE_INVALID_ARGUMENT, out)
      else
        match checked_bytes (md_state_count d) sizeof_machine_state,
              checked_bytes (md_event_count d) sizeof_event_type,
              checked_bytes (md_guard_count d) sizeof_machine_guard,
              checked_bytes (md_action_count d) sizeof_machine_action,
              checked_bytes (md_transition_count d) sizeof_machine_transition with
        | Some sb, Some eb, Some gb, Some ab, Some tb =>
            '(status, machine) ← build_rows d sb eb gb ab tb machine;
            Some (status, Some machine)
        | _, _, _, _, _ => Some (CFLOW_MACHINE_INVALID_ARGUMENT, out)
        end
  | _, _ => Some (CFLOW_MACHINE_INVALID_ARGUMENT, out)
  end.

End Build.

Definition cflow_machine_destroy (machine : option cflow_machine) : option cflow_machine :=
  match machine with None => None | Some _ => Some (mk_machine None) end.

(** * Accessors *)

Definition machine_impl (machine : option cflow_machine) : option cflow_machine_impl :=
  match machine with None => None | Some m => m_impl m end.

Definition cflow_machine_initial_state (machine : option cflow_machine) : Z :=
  match machine_impl machine with None => 0 | Some impl => mi_initial_state impl end.

(** [CFLOW_MACHINE_COUNT_FN] and [CFLOW_MACHINE_AT_FN]. *)
Definition machine_count {A} (member : cflow_machine_impl -> list A)
    (machine : option cflow_machine) : nat :=
  match machine_impl machine with None => 0%nat | Some impl => length (member impl) end.

Definition machine_at {A} (member : cflow_machine_impl -> list A)
    (machine : option cflow_machine) (index : nat) : option A :=
  match machine_impl machine with
  | None => None
  | Some impl => if (length (member impl) <=? index)%nat then None else member impl !! index
  end.

Definition cflow_machine_state_count := machine_count mi_states.
Definition cflow_machine_event_count := machine_count mi_events.
Definition cflow_machine_guard_count := machine_count mi_guards.
Definition cflow_machine_action_count := machine_count mi_actions.
Definition cflow_machine_transition_count := machine_count mi_transitions.

Definition cflow_machine_state_at := machine_at mi_states.
Definition cflow_machine_event_at := machine_at mi_events.
Definition cflow_machine_guard_at := machine_at mi_guards.
Definition cflow_machine_action_at := machine_at mi_actions.
Definition cflow_machine_transition_at := machine_at mi_transitions.
