(* ===== verification/CFlowMachineReach.v ===== *)
(** What [cflow_machine_build] admits: exactly the definitions that are well
    formed as sets of rows, whatever the order of the caller's arrays.

    The traversal and the use check of [cflow_machine_build], and the theorem on
    what it admits. *)

From S2P Require Import Prelude.
From S2P Require Import CMetaType.
From S2P Require Import CMetaFunction.
From S2P Require Import CFlowSupport.
From S2P Require Import CFlowMachine.

(** * Well-formed machines *)

(** The arrays of a definition, before they are sorted. *)
Definition definition_rows (d : cflow_machine_definition) : cflow_machine_impl :=
  {| mi_states := rows (md_states d) (md_state_count d);
     mi_initial_state := md_initial_state d;
     mi_events := rows (md_events d) (md_event_count d);
     mi_guards := rows (md_guards d) (md_guard_count d);
     mi_actions := rows (md_actions d) (md_action_count d);
     mi_transitions := rows (md_transitions d) (md_transition_count d) |}.

Definition types_agree (a b : option cmeta_type_desc) : Prop := cmeta_type_equal a b = true.

(** An event of the machine with this id carries this type. *)
Definition event_carries (m : cflow_machine_impl) (id : Z) (type : option cmeta_type_desc) : Prop :=
  exists e, e ∈ mi_events m /\ et_id e = id /\ types_agree (et_payload_type e) type.

Definition guard_wf (m : cflow_machine_impl) (g : cflow_machine_guard) : Prop :=
  mg_id g <> 0 /\ mg_event_id g <> 0 /\
  valid_value_type (mg_state_type g) = true /\ valid_value_type (mg_event_type g) = true /\
  guard_contract_invalid g = false /\ event_carries m (mg_event_id g) (mg_event_type g).

Definition observation_wf (m : cflow_machine_impl) (a : cflow_machine_action) : Prop :=
  match ma_observation a with
  | CFLOW_MACHINE_ACTION_NONE => ma_output_type a = None /\ ma_output_event_id a = 0
  | CFLOW_MACHINE_ACTION_VALUE =>
      valid_value_type (ma_output_type a) = true /\ ma_output_event_id a = 0
  | CFLOW_MACHINE_ACTION_EVENT =>
      valid_value_type (ma_output_type a) = true /\ ma_output_event_id a <> 0 /\
      event_carries m (ma_output_event_id a) (ma_output_type a)
  | CFLOW_MACHINE_ACTION_OTHER _ => False
  end.

Definition action_wf (m : cflow_machine_impl) (a : cflow_machine_action) : Prop :=
  ma_id a <> 0 /\ ma_event_id a <> 0 /\
  valid_value_type (ma_source_type a) = true /\ valid_value_type (ma_event_type a) = true /\
  valid_value_type (ma_target_type a) = true /\ action_contract_invalid a = false /\
  event_carries m (ma_event_id a) (ma_event_type a) /\ observation_wf m a.

(** What a transition asks of its guard and its action. *)
Definition guard_fits (m : cflow_machine_impl) (t : cflow_machine_transition)
    (source : cflow_machine_state) (event : cflow_event_type) : Prop :=
  mt_guard t = 0 \/
  exists g, g ∈ mi_guards m /\ mg_id g = mt_guard t /\ mg_event_id g = mt_event t /\
    types_agree (mg_state_type g) (ms_value_type source) /\
    types_agree (mg_event_type g) (et_payload_type event).

Definition action_fits (m : cflow_machine_impl) (t : cflow_machine_transition)
    (source target : cflow_machine_state) (event : cflow_event_type) : Prop :=
  (mt_action t = 0 /\ types_agree (ms_value_type source) (ms_value_type target)) \/
  mt_action t <> 0 /\
  exists a, a ∈ mi_actions m /\ ma_id a = mt_action t /\ ma_event_id a = mt_event t /\
    types_agree (ma_source_type a) (ms_value_type source) /\
    types_agree (ma_event_type a) (et_payload_type event) /\
    types_agree (ma_target_type a) (ms_value_type target).

Definition transition_wf (m : cflow_machine_impl) (t : cflow_machine_transition) : Prop :=
  exists source, (source ∈ mi_states m /\ ms_id source = mt_source t) /\
  exists target, (target ∈ mi_states m /\ ms_id target = mt_target t) /\
  exists event, (event ∈ mi_events m /\ et_id event = mt_event t) /\
    ms_kind source = CFLOW_MACHINE_STATE_ACTIVE /\
    guard_fits m t source event /\ action_fits m t source target event.

(** The graph of the transitions, and the rows that must differ. *)
Definition machine_edge (m : cflow_machine_impl) (a b : Z) : Prop :=
  exists t, t ∈ mi_transitions m /\ mt_source t = a /\ mt_target t = b.

Definition transition_key (t : cflow_machine_transition) : Z * Z * Z :=
  (mt_source t, mt_event t, mt_priority t).

Record states_wf (m : cflow_machine_impl) : Prop := {
  wf_state : forall s, s ∈ mi_states m ->
    ms_id s <> 0 /\ valid_value_type (ms_value_type s) = true /\
    (ms_kind s = CFLOW_MACHINE_STATE_ACTIVE \/ ms_kind s = CFLOW_MACHINE_STATE_DONE \/
     ms_kind s = CFLOW_MACHINE_STATE_ERROR);
  wf_state_ids : NoDup (ms_id <$> mi_states m);
  wf_initial : exists s, s ∈ mi_states m /\ ms_id s = mi_initial_state m;
}.

Record events_wf (m : cflow_machine_impl) : Prop := {
  wf_event : forall e, e ∈ mi_events m ->
    et_id e <> 0 /\ valid_value_type (et_payload_type e) = true;
  wf_event_ids : NoDup (et_id <$> mi_events m);
}.

Record machine_wf (m : cflow_machine_impl) : Prop := {
  wf_states : states_wf m;
  wf_events : events_wf m;
  wf_guards : forall g, g ∈ mi_guards m -> guard_wf m g;
  wf_guard_ids : NoDup (mg_id <$> mi_guards m);
  wf_actions : forall a, a ∈ mi_actions m -> action_wf m a;
  wf_action_ids : NoDup (ma_id <$> mi_actions m);
  wf_transitions : forall t, t ∈ mi_transitions m -> transition_wf m t;
  wf_deterministic : NoDup (transition_key <$> mi_transitions m);
  wf_reachable : forall s, s ∈ mi_states m -> rtc (machine_edge m) (mi_initial_state m) (ms_id s);
  wf_guards_used : forall g, g ∈ mi_guards m -> exists t, t ∈ mi_transitions m /\ mt_guard t = mg_id g;
  wf_actions_used : forall a, a ∈ mi_actions m ->
    exists t, t ∈ mi_transitions m /\ mt_action t = ma_id a;
}.

(** * The order of the rows does not matter *)

Record machine_perm (m n : cflow_machine_impl) : Prop := {
  mp_states : mi_states m ≡ₚ mi_states n;
  mp_initial : mi_initial_state m = mi_initial_state n;
  mp_events : mi_events m ≡ₚ mi_events n;
  mp_guards : mi_guards m ≡ₚ mi_guards n;
  mp_actions : mi_actions m ≡ₚ mi_actions n;
  mp_transitions : mi_transitions m ≡ₚ mi_transitions n;
}.

#[export] Instance machine_perm_equivalence : Equivalence machine_perm.
Proof.
  split.
  - by intros [].
  - intros m n []; by split.
  - intros m n o [] []; split; by etrans.
Qed.

(** Every row of one machine is a row of the other: what all conditions but
    distinctness are monotone in. *)
Section RowsKept.
Context (m n : cflow_machine_impl) (Hp : machine_perm m n).

Lemma kept_state s : s ∈ mi_states m <-> s ∈ mi_states n.
Proof. by rewrite (mp_states _ _ Hp). Qed.
Lemma kept_event e : e ∈ mi_events m <-> e ∈ mi_events n.
Proof. by rewrite (mp_events _ _ Hp). Qed.
Lemma kept_guard g : g ∈ mi_guards m <-> g ∈ mi_guards n.
Proof. by rewrite (mp_guards _ _ Hp). Qed.
Lemma kept_action a : a ∈ mi_actions m <-> a ∈ mi_actions n.
Proof. by rewrite (mp_actions _ _ Hp). Qed.
Lemma kept_transition t : t ∈ mi_transitions m <-> t ∈ mi_transitions n.
Proof. by rewrite (mp_transitions _ _ Hp). Qed.

Lemma kept_carries id type : event_carries m id type <-> event_carries n id type.
Proof. unfold event_carries. by setoid_rewrite kept_event. Qed.

Lemma kept_guard_wf g : guard_wf m g <-> guard_wf n g.
Proof. unfold guard_wf. by rewrite kept_carries. Qed.

Lemma kept_action_wf a : action_wf m a <-> action_wf n a.
Proof.
  unfold action_wf, observation_wf. rewrite kept_carries.
  destruct (ma_observation a); by rewrite ?kept_carries.
Qed.

Lemma kept_transition_wf t : transition_wf m t <-> transition_wf n t.
Proof.
  unfold transition_wf, guard_fits, action_fits. setoid_rewrite kept_state.
  setoid_rewrite kept_event. setoid_rewrite kept_guard. by setoid_rewrite kept_action.
Qed.

Lemma kept_edge a b : machine_edge m a b <-> machine_edge n a b.
Proof. unfold machine_edge. by setoid_rewrite kept_transition. Qed.

Lemma kept_path a b : rtc (machine_edge m) a b -> rtc (machine_edge n) a b.
Proof. apply rtc_subrel. intros ? ?. apply kept_edge. Qed.

Lemma machine_wf_perm : machine_wf m -> machine_wf n.
Proof.
  intros [[H1 H2 H3] [H4 H5] H6 H7 H8 H9 H10 H11 H12 H13 H14]. destruct Hp as [Hs Hi He Hg Hx Ht].
  split; [split|split|..].
  - intros s. rewrite <- kept_state. apply H1.
  - by rewrite <- Hs.
  - setoid_rewrite <- kept_state. by rewrite <- Hi.
  - intros e. rewrite <- kept_event. apply H4.
  - by rewrite <- He.
  - intros g. rewrite <- kept_guard, <- kept_guard_wf. apply H6.
  - by rewrite <- Hg.
  - intros a. rewrite <- kept_action, <- kept_action_wf. apply H8.
  - by rewrite <- Hx.
  - intros t. rewrite <- kept_transition, <- kept_transition_wf. apply H10.
  - by rewrite <- Ht.
  - intros s Hin. rewrite <- Hi. apply kept_path, H12. by rewrite kept_state.
  - intros g. rewrite <- kept_guard. setoid_rewrite <- kept_transition. apply H13.
  - intros a. rewrite <- kept_action. setoid_rewrite <- kept_transition. apply H14.
Qed.
End RowsKept.

#[export] Instance machine_wf_proper : Proper (machine_perm ==> iff) machine_wf.
Proof. intros m n Hp. split; apply machine_wf_perm; [done|by symmetry]. Qed.

(** * Scans *)

Definition row_before {A} (previous : option A) (l : list A) (i : nat) : option A :=
  match i with O => previous | S j => l !! j end.

Lemma scan_rows_OK {A} (check : option A -> A -> cflow_machine_status) previous l :
  scan_rows check previous l = CFLOW_MACHINE_OK <->
  forall i x, l !! i = Some x -> check (row_before previous l i) x = CFLOW_MACHINE_OK.
Proof.
  revert previous. induction l as [|y l IH]; intros previous; simpl; [done|].
  destruct (check previous y) eqn:Hy; try (split; [done|]; intros Hall;
    specialize (Hall 0%nat y eq_refl); simpl in Hall; congruence).
  rewrite IH. split.
  - intros Hall [|[|i]] x Hx; simplify_eq/=; [done|by apply (Hall 0%nat)|by apply (Hall (S i))].
  - intros Hall [|i] x Hx; [by apply (Hall 1%nat)|by apply (Hall (S (S i)))].
Qed.

(** A check that is a test on the row alone followed by the adjacency test. *)
Lemma scan_rows_split {A} (check : option A -> A -> cflow_machine_status)
    (same : option A -> A -> bool) (P : A -> Prop) l :
  (forall p x, check p x = CFLOW_MACHINE_OK <-> same p x = false /\ P x) ->
  scan_rows check None l = CFLOW_MACHINE_OK <->
  (forall i x, l !! i = Some x -> same (row_before None l i) x = false) /\
  (forall x, x ∈ l -> P x).
Proof.
  intros Hcheck. rewrite scan_rows_OK. setoid_rewrite Hcheck. split.
  - intros Hall. split; [by intros i x Hx; apply Hall|].
    intros x (i & Hx)%list_elem_of_lookup. by eapply Hall.
  - intros [Hs HP] i x Hx. split; [by apply Hs|]. apply HP. by eapply list_elem_of_lookup_2.
Qed.

(** In sorted rows equal keys are neighbours. *)
Lemma sorted_distinct {A} (key : A -> Z) l :
  sorted_by key l ->
  (forall i x, l !! i = Some x -> repeats_id key (row_before None l i) x = false) <->
  NoDup (key <$> l).
Proof.
  intros Hs. rewrite NoDup_prefix. split.
  - intros Hall j y Hy x (i & [Hx Hlt]%lookup_take_Some)%list_elem_of_lookup Heq.
    destruct j as [|j]; [lia|]. specialize (Hall (S j) y Hy). simpl in Hall.
    destruct (lookup_lt_is_Some_2 l j) as [z Hz]; [apply lookup_lt_Some in Hy; lia|].
    rewrite Hz in Hall. simpl in Hall. destruct_bools.
    pose proof (sorted_by_lookup key l i j x z Hs Hx Hz ltac:(lia)).
    pose proof (sorted_by_lookup key l j (S j) z y Hs Hz Hy ltac:(lia)). lia.
  - intros Hall [|i] x Hx; simpl; [done|]. destruct (l !! i) as [p|] eqn:Hpi; [|done]. simpl.
    apply Z.eqb_neq. intros Heq. apply (Hall (S i) x Hx p); [|done].
    apply list_elem_of_lookup. exists i. by rewrite lookup_take_lt by lia.
Qed.

(** Looking a row up by its id, as a statement on sets of rows. *)
Lemma bsearch_holds {A} (key : A -> Z) l id (P : A -> Prop) :
  sorted_by key l -> NoDup (key <$> l) ->
  (exists i x, bsearch key l id = Some (i, x) /\ P x) <->
  exists x, x ∈ l /\ key x = id /\ P x.
Proof.
  intros Hs Hnd. split.
  - intros (i & x & [Hx Hid]%bsearch_sound & HP). exists x.
    split; [by eapply list_elem_of_lookup_2|done].
  - intros (x & (i & Hx)%list_elem_of_lookup & Hid & HP). exists i, x.
    split; [by apply bsearch_exact|done].
Qed.

(** * Domains *)

(** The machine after the sort. *)
Record machine_sorted (m : cflow_machine_impl) : Prop := {
  so_states : sorted_by ms_id (mi_states m);
  so_events : sorted_by et_id (mi_events m);
  so_guards : sorted_by mg_id (mi_guards m);
  so_actions : sorted_by ma_id (mi_actions m);
  so_transitions : ordered compare_transition (mi_transitions m);
}.

(** Reduces a status equation with [CFLOW_MACHINE_OK] to the guards. *)
Lemma machine_status_guard (b : bool) (s t : cflow_machine_status) :
  s <> CFLOW_MACHINE_OK ->
  (if b then s else t) = CFLOW_MACHINE_OK <-> b = false /\ t = CFLOW_MACHINE_OK.
Proof. destruct b; split; [done|by intros []|done|by intros []]. Qed.

Ltac reflect_status :=
  repeat (rewrite machine_status_guard by done);
  rewrite ?orb_false_iff, ?negb_false_iff, ?Z.eqb_neq.

Lemma state_status_OK p s :
  state_status p s = CFLOW_MACHINE_OK <->
  repeats_id ms_id p s = false /\
  (ms_id s <> 0 /\ valid_value_type (ms_value_type s) = true /\
   (ms_kind s = CFLOW_MACHINE_STATE_ACTIVE \/ ms_kind s = CFLOW_MACHINE_STATE_DONE \/
    ms_kind s = CFLOW_MACHINE_STATE_ERROR)).
Proof.
  unfold state_status. reflect_status.
  assert (negb (bool_decide (ms_kind s = CFLOW_MACHINE_STATE_ACTIVE)) &&
          negb (bool_decide (ms_kind s = CFLOW_MACHINE_STATE_DONE)) &&
          negb (bool_decide (ms_kind s = CFLOW_MACHINE_STATE_ERROR)) = false <->
          ms_kind s = CFLOW_MACHINE_STATE_ACTIVE \/ ms_kind s = CFLOW_MACHINE_STATE_DONE \/
          ms_kind s = CFLOW_MACHINE_STATE_ERROR) as ->
    by (destruct (ms_kind s); simpl; intuition congruence).
  intuition congruence.
Qed.

Lemma find_state_exists m id :
  machine_sorted m ->
  is_Some (find_state m id) <-> exists s, s ∈ mi_states m /\ ms_id s = id.
Proof.
  intros Hso. unfold find_state. split.
  - intros [[i x] [Hx Hid]%bsearch_sound]. exists x. split; [by eapply list_elem_of_lookup_2|done].
  - intros (s & Hin & Hid). destruct (bsearch _ _ _) as [|] eqn:Hb; [done|].
    exfalso. eapply (proj1 (bsearch_None ms_id _ id (so_states _ Hso)) Hb s Hin Hid).
Qed.

Lemma validate_state_domain_OK m :
  machine_sorted m -> validate_state_domain m = CFLOW_MACHINE_OK <-> states_wf m.
Proof.
  intros Hso. unfold validate_state_domain.
  pose proof (scan_rows_split state_status (repeats_id ms_id) _ (mi_states m) state_status_OK) as Hscan.
  rewrite (sorted_distinct ms_id _ (so_states _ Hso)) in Hscan.
  pose proof (find_state_exists m (mi_initial_state m) Hso) as Hfind.
  split.
  - destruct (scan_rows _ _ _); try done. destruct (find_state _ _) as [r|]; [|done]. intros _.
    destruct Hscan as [[? ?] _]; [done|]. split; [done..|]. by apply Hfind.
  - intros [? ? Hi]. rewrite (proj2 Hscan) by done. apply Hfind in Hi as [r ->]. done.
Qed.

Lemma event_status_OK p e :
  event_status p e = CFLOW_MACHINE_OK <->
  repeats_id et_id p e = false /\
  (et_id e <> 0 /\ valid_value_type (et_payload_type e) = true).
Proof. unfold event_status. reflect_status. intuition congruence. Qed.

Lemma validate_event_domain_OK m :
  machine_sorted m -> validate_event_domain m = CFLOW_MACHINE_OK <-> events_wf m.
Proof.
  intros Hso. unfold validate_event_domain.
  rewrite (scan_rows_split _ (repeats_id et_id) _ _ event_status_OK),
    (sorted_distinct et_id _ (so_events _ Hso)).
  split; [by intros []|by intros []].
Qed.

(** The event lookups of guards, actions and observations. *)
Lemma find_event_carries m id type :
  machine_sorted m -> events_wf m ->
  (exists i e, find_event m id = Some (i, e) /\ types_agree (et_payload_type e) type) <->
  event_carries m id type.
Proof. intros Hso Hev. apply bsearch_holds; [apply Hso|apply Hev]. Qed.

Lemma event_check_OK m id type (s : cflow_machine_status) :
  machine_sorted m -> events_wf m ->
  match find_event m id with
  | None => CFLOW_MACHINE_UNKNOWN_EVENT
  | Some (_, event) =>
      if negb (cmeta_type_equal (et_payload_type event) type)
      then CFLOW_MACHINE_TYPE_MISMATCH else s
  end = CFLOW_MACHINE_OK <-> event_carries m id type /\ s = CFLOW_MACHINE_OK.
Proof.
  intros Hso Hev. rewrite <- find_event_carries by done. unfold types_agree.
  destruct (find_event m id) as [[i e]|] eqn:Hf.
  - reflect_status. split; [intros []; eauto 6|]. intros [(? & ? & [= <- <-] & ?) ?]. done.
  - split; [done|]. by intros [(? & ? & ? & ?) ?].
Qed.

Lemma guard_status_OK m p g :
  machine_sorted m -> events_wf m ->
  guard_status m p g = CFLOW_MACHINE_OK <-> repeats_id mg_id p g = false /\ guard_wf m g.
Proof.
  intros Hso Hev. unfold guard_status, guard_wf. reflect_status.
  rewrite event_check_OK by done. tauto.
Qed.

Lemma observation_OK m a :
  machine_sorted m -> events_wf m ->
  validate_action_observation m a = CFLOW_MACHINE_OK <-> observation_wf m a.
Proof.
  intros Hso Hev. unfold validate_action_observation, observation_wf.
  destruct (ma_observation a); [| | |done].
  - rewrite <- is_null_true, <- Z.eqb_eq. destruct (is_null _), (_ =? 0); simpl; intuition congruence.
  - rewrite <- Z.eqb_eq. destruct (valid_value_type _), (_ =? 0); simpl; intuition congruence.
  - reflect_status.
    pose proof (event_check_OK m (ma_output_event_id a) (ma_output_type a) CFLOW_MACHINE_OK Hso Hev)
      as Hc.
    destruct (find_event m _) as [[i e]|]; [|tauto].
    destruct (cmeta_type_equal _ _); simpl in Hc; tauto.
Qed.

Lemma action_status_OK m p a :
  machine_sorted m -> events_wf m ->
  action_status m p a = CFLOW_MACHINE_OK <-> repeats_id ma_id p a = false /\ action_wf m a.
Proof.
  intros Hso Hev. unfold action_status, action_wf. reflect_status.
  rewrite event_check_OK, observation_OK by done. tauto.
Qed.

Lemma validate_guard_domain_OK m :
  machine_sorted m -> events_wf m ->
  validate_guard_domain m = CFLOW_MACHINE_OK <->
  (forall g, g ∈ mi_guards m -> guard_wf m g) /\ NoDup (mg_id <$> mi_guards m).
Proof.
  intros Hso Hev. unfold validate_guard_domain.
  rewrite (scan_rows_split _ (repeats_id mg_id) (guard_wf m)) by (intros; by apply guard_status_OK).
  rewrite (sorted_distinct mg_id _ (so_guards _ Hso)). tauto.
Qed.

Lemma validate_action_domain_OK m :
  machine_sorted m -> events_wf m ->
  validate_action_domain m = CFLOW_MACHINE_OK <->
  (forall a, a ∈ mi_actions m -> action_wf m a) /\ NoDup (ma_id <$> mi_actions m).
Proof.
  intros Hso Hev. unfold validate_action_domain.
  rewrite (scan_rows_split _ (repeats_id ma_id) (action_wf m)) by (intros; by apply action_status_OK).
  rewrite (sorted_distinct ma_id _ (so_actions _ Hso)). tauto.
Qed.

(** * Transitions *)

Lemma bsearch_elem {A} (key : A -> Z) l id i x :
  bsearch key l id = Some (i, x) -> x ∈ l /\ key x = id.
Proof. intros [Hx Hid]%bsearch_sound. split; [by eapply list_elem_of_lookup_2|done]. Qed.

Lemma bsearch_found {A} (key : A -> Z) l id x :
  sorted_by key l -> NoDup (key <$> l) -> x ∈ l -> key x = id ->
  exists i, bsearch key l id = Some (i, x).
Proof.
  intros Hs Hnd (i & Hx)%list_elem_of_lookup Hid. exists i. by apply bsearch_exact.
Qed.

(** The rows are those a machine has once its domains are valid. *)
Record domains_wf (m : cflow_machine_impl) : Prop := {
  do_sorted : machine_sorted m;
  do_states : states_wf m;
  do_events : events_wf m;
  do_guards : forall g, g ∈ mi_guards m -> guard_wf m g;
  do_guard_ids : NoDup (mg_id <$> mi_guards m);
  do_actions : forall a, a ∈ mi_actions m -> action_wf m a;
  do_action_ids : NoDup (ma_id <$> mi_actions m);
}.

Section Domains.
Context (m : cflow_machine_impl) (Hd : domains_wf m).

Lemma find_state_iff id s :
  (exists i, find_state m id = Some (i, s)) <-> s ∈ mi_states m /\ ms_id s = id.
Proof.
  split; [by intros [i ?%bsearch_elem]|]. intros [? ?]. apply bsearch_found; [| |done..].
  - apply Hd.
  - apply Hd.
Qed.

Lemma find_event_iff id e :
  (exists i, find_event m id = Some (i, e)) <-> e ∈ mi_events m /\ et_id e = id.
Proof.
  split; [by intros [i ?%bsearch_elem]|]. intros [? ?].
  apply bsearch_found; [| |done..]; apply Hd.
Qed.

Lemma optional_guard_iff id r :
  optional_row (find_guard m) id = Some r <->
  match r with
  | None => id = 0
  | Some g => id <> 0 /\ g ∈ mi_guards m /\ mg_id g = id
  end.
Proof.
  unfold optional_row. destruct (id =? 0) eqn:Hid; destruct_bools; subst.
  { destruct r; split; try done. by intros []. }
  split.
  - destruct (find_guard m id) as [[i g]|] eqn:Hf; [|done]. intros [= <-].
    by apply bsearch_elem in Hf.
  - destruct r as [g|]; [|done]. intros (_ & Hin & Hg).
    destruct (bsearch_found mg_id (mi_guards m) id g) as [i Hi]; [apply Hd..|done|done|].
    unfold find_guard. by rewrite Hi.
Qed.

Lemma optional_action_iff id r :
  optional_row (find_action m) id = Some r <->
  match r with
  | None => id = 0
  | Some a => id <> 0 /\ a ∈ mi_actions m /\ ma_id a = id
  end.
Proof.
  unfold optional_row. destruct (id =? 0) eqn:Hid; destruct_bools; subst.
  { destruct r; split; try done. by intros []. }
  split.
  - destruct (find_action m id) as [[i a]|] eqn:Hf; [|done]. intros [= <-].
    by apply bsearch_elem in Hf.
  - destruct r as [a|]; [|done]. intros (_ & Hin & Ha).
    destruct (bsearch_found ma_id (mi_actions m) id a) as [i Hi]; [apply Hd..|done|done|].
    unfold find_action. by rewrite Hi.
Qed.

Lemma guard_fits_iff t source event :
  (exists r, optional_row (find_guard m) (mt_guard t) = Some r /\
     guard_mismatch r t source event = false) <-> guard_fits m t source event.
Proof.
  unfold guard_fits, types_agree. setoid_rewrite optional_guard_iff. split.
  - intros ([g|] & Hr & Hm); [|by left]. right. destruct Hr as (_ & Hin & Hid). simpl in Hm.
    exists g. destruct_bools. by split_and!.
  - intros [Ht|(g & Hin & Hid & Hev & Hs & He)].
    + by exists None.
    + destruct (do_guards _ Hd g Hin) as [Hnz _]. exists (Some g). split; [split_and!; congruence|].
      simpl. rewrite Hs, He, Hev, Z.eqb_refl. done.
Qed.

Lemma action_fits_iff t source target event :
  (exists r, optional_row (find_action m) (mt_action t) = Some r /\
     action_mismatch r t source target event = false) <->
  action_fits m t source target event.
Proof.
  unfold action_fits, types_agree. setoid_rewrite optional_action_iff. split.
  - intros ([a|] & Hr & Hm); simpl in Hm; destruct_bools; [right|by left].
    destruct Hr as (Hnz & Hin & Hid). split; [done|]. exists a. by split_and!.
  - intros [[Ht Hty]|(Hnz & a & Hin & Hid & Hev & Hs & He & Hta)].
    + exists None. simpl. by rewrite Hty.
    + exists (Some a). split; [done|]. simpl. by rewrite Hs, He, Hta, Hev, Z.eqb_refl.
Qed.

Lemma transition_status_OK p t :
  transition_status m p t = CFLOW_MACHINE_OK <-> ambiguous p t = false /\ transition_wf m t.
Proof.
  unfold transition_wf. repeat setoid_rewrite <- find_state_iff.
  setoid_rewrite <- find_event_iff. setoid_rewrite <- guard_fits_iff.
  setoid_rewrite <- action_fits_iff. unfold transition_status. split.
  - destruct (find_state m (mt_source t)) as [[i s]|]; [|done].
    destruct (find_state m (mt_target t)) as [[j s']|]; [|done].
    destruct (find_event m _) as [[k e]|]; [|done].
    destruct (optional_row (find_guard m) _) as [g|]; [|done].
    destruct (optional_row (find_action m) _) as [a|]; [|done].
    reflect_status. rewrite bool_decide_eq_true. intros (Hk & Hg & Ha & Hp & _).
    split; [done|]. exists s. split; [by exists i|]. exists s'. split; [by exists j|].
    exists e. split; [by exists k|]. split_and!; [done|by exists g|by exists a].
  - intros (? & s & [i ->] & s' & [j ->] & e & [k ->] & Hk & (g & -> & Hg) & (a & -> & Ha)).
    reflect_status. by rewrite bool_decide_eq_true.
Qed.
End Domains.

Lemma compare_transition_le a b :
  compare_transition a b <= 0 <->
  mt_source a < mt_source b \/ mt_source a = mt_source b /\
  (mt_event a < mt_event b \/ mt_event a = mt_event b /\
   (mt_priority a < mt_priority b \/ mt_priority a = mt_priority b /\
    mt_target a <= mt_target b)).
Proof.
  unfold compare_transition.
  repeat match goal with |- context [?x =? ?y] => destruct (Z.eqb_spec x y); simpl end;
    try (match goal with |- context [?x <? ?y] => destruct (Z.ltb_spec x y); simpl end); lia.
Qed.

Lemma compare_transition_preorder :
  Transitive (fun a b => compare_transition a b <= 0) /\
  Total (fun a b => compare_transition a b <= 0).
Proof. split; [intros a b c|intros a b]; rewrite !compare_transition_le; lia. Qed.

Lemma ordered_source m i j x y :
  machine_sorted m -> mi_transitions m !! i = Some x -> mi_transitions m !! j = Some y ->
  (i <= j)%nat -> mt_source x <= mt_source y.
Proof.
  intros Hso Hx Hy Hle. destruct (decide (i = j)) as [->|]; [simplify_eq; lia|].
  pose proof (ordered_lookup _ _ i j x y (so_transitions _ Hso) Hx Hy ltac:(lia)) as Hc.
  rewrite compare_transition_le in Hc. lia.
Qed.

(** Sorted transitions that agree on source, event and priority are neighbours. *)
Lemma ordered_deterministic l :
  ordered compare_transition l ->
  (forall i x, l !! i = Some x -> ambiguous (row_before None l i) x = false) <->
  NoDup (transition_key <$> l).
Proof.
  intros Hs. rewrite NoDup_prefix. split.
  - intros Hall j y Hy x (i & [Hx Hlt]%lookup_take_Some)%list_elem_of_lookup Heq.
    unfold transition_key in Heq. simplify_eq.
    destruct j as [|j]; [lia|]. specialize (Hall (S j) y Hy). simpl in Hall.
    destruct (lookup_lt_is_Some_2 l j) as [z Hz]; [apply lookup_lt_Some in Hy; lia|].
    rewrite Hz in Hall. simpl in Hall.
    pose proof (ordered_lookup _ l j (S j) z y Hs Hz Hy ltac:(lia)) as Hzy.
    assert (compare_transition x z <= 0) as Hxz.
    { destruct (decide (i = j)) as [->|]; [simplify_eq|].
      - rewrite compare_transition_le. lia.
      - by apply (ordered_lookup _ l i j x z Hs Hx Hz); lia. }
    rewrite compare_transition_le in Hzy, Hxz. lia.
  - intros Hall [|i] x Hx; simpl; [done|]. destruct (l !! i) as [p|] eqn:Hpi; [|done]. simpl.
    destruct (_ && _) eqn:Heq; [|done]. destruct_bools. exfalso.
    apply (Hall (S i) x Hx p).
    + apply list_elem_of_lookup. exists i. by rewrite lookup_take_lt by lia.
    + unfold transition_key. congruence.
Qed.

Lemma validate_transitions_OK m :
  domains_wf m ->
  validate_transitions m = CFLOW_MACHINE_OK <->
  (forall t, t ∈ mi_transitions m -> transition_wf m t) /\
  NoDup (transition_key <$> mi_transitions m).
Proof.
  intros Hd. unfold validate_transitions.
  rewrite (scan_rows_split _ ambiguous (transition_wf m)) by (intros; by apply transition_status_OK).
  rewrite (ordered_deterministic _ (so_transitions _ (do_sorted _ Hd))). tauto.
Qed.

(** * The traversal

    The queue holds each marked state once, so that it never outgrows its array;
    what is queued is reachable; and behind the head every successor is queued. *)

(** Machines whose transitions name states, as they are after the row checks. *)
Record graph_wf (m : cflow_machine_impl) : Prop := {
  gr_domains : domains_wf m;
  gr_transitions : forall t, t ∈ mi_transitions m -> transition_wf m t;
}.

Definition state_ids (m : cflow_machine_impl) : list Z := ms_id <$> mi_states m.

Record visited_inv (m : cflow_machine_impl) (v : visited) : Prop := {
  vi_flags : length (fst v) = length (mi_states m);
  vi_marked : forall i s, mi_states m !! i = Some s ->
    fst v !! i = Some (bool_decide (ms_id s ∈ snd v));
  vi_once : NoDup (snd v);
  vi_ids : snd v ⊆ state_ids m;
  vi_reached : forall a, a ∈ snd v -> rtc (machine_edge m) (mi_initial_state m) a;
}.

Section Traversal.
Context (m : cflow_machine_impl) (Hg : graph_wf m).

Lemma queue_bounded v : visited_inv m v -> (length (snd v) <= length (mi_states m))%nat.
Proof.
  intros Hv. rewrite <- (length_fmap ms_id). apply submseteq_length, NoDup_submseteq; apply Hv.
Qed.

(** Marking a fresh state keeps the invariant and leaves room in the queue. *)
Lemma visit_fresh v i s :
  visited_inv m v -> mi_states m !! i = Some s -> ms_id s ∉ snd v ->
  rtc (machine_edge m) (mi_initial_state m) (ms_id s) ->
  visited_inv m (<[i := true]> (fst v), snd v ++ [ms_id s]) /\
  (length (snd v) < length (mi_states m))%nat.
Proof.
  intros [Hf Hm Ho Hi Hr] Hs Hnew Hpath.
  assert (ms_id s ∈ state_ids m) as Hin.
  { apply list_elem_of_fmap. exists s. split; [done|by eapply list_elem_of_lookup_2]. }
  assert (visited_inv m (<[i := true]> (fst v), snd v ++ [ms_id s])) as Hv'.
  { split; simpl.
    - by rewrite length_insert.
    - intros j s' Hs'. destruct (decide (i = j)) as [->|Hne].
      + assert (s' = s) as -> by congruence.
        rewrite list_lookup_insert_eq by (rewrite Hf; by eapply lookup_lt_Some).
        rewrite bool_decide_eq_true_2; [done|]. apply elem_of_app. right. by left.
      + rewrite list_lookup_insert_ne, (Hm j s' Hs') by done. f_equal. apply bool_decide_ext.
        rewrite elem_of_app, list_elem_of_singleton. split; [by left|]. intros [?|Heq]; [done|].
        exfalso. apply Hne.
        apply (NoDup_lookup (ms_id <$> mi_states m) i j (ms_id s)).
        * apply (do_states _ (gr_domains _ Hg)).
        * by rewrite list_lookup_fmap, Hs.
        * rewrite list_lookup_fmap, Hs'. simpl. by rewrite Heq.
    - apply NoDup_app. split_and!; [done| |apply NoDup_singleton].
      intros a Ha Ha'%list_elem_of_singleton. congruence.
    - intros a [Ha|Ha%list_elem_of_singleton]%elem_of_app; [by apply Hi|by subst].
    - intros a [Ha|Ha%list_elem_of_singleton]%elem_of_app; [by apply Hr|by subst]. }
  split; [done|]. pose proof (queue_bounded _ Hv') as Hb. simpl in Hb.
  rewrite length_app in Hb. simpl in Hb. lia.
Qed.

Lemma find_target t :
  t ∈ mi_transitions m ->
  exists i s, find_state m (mt_target t) = Some (i, s) /\ mi_states m !! i = Some s /\
    ms_id s = mt_target t.
Proof.
  intros Ht. destruct (gr_transitions _ Hg t Ht) as (_ & _ & s & Hs & _).
  apply (find_state_iff m (gr_domains _ Hg)) in Hs as [i Hi]. exists i, s. split; [done|].
  by apply bsearch_sound in Hi.
Qed.

(** One round of the inner loop: it never leaves the arrays, and it queues the
    targets of the leading rows of [source]. *)
Lemma visit_transitions_spec source rest v :
  visited_inv m v -> (forall t, t ∈ rest -> t ∈ mi_transitions m) ->
  rtc (machine_edge m) (mi_initial_state m) source ->
  exists v', visit_transitions m source rest v = Some v' /\ visited_inv m v' /\
    (exists k, snd v' = snd v ++ k) /\
    forall n t, rest !! n = Some t ->
      (forall j u, (j <= n)%nat -> rest !! j = Some u -> mt_source u = source) ->
      mt_target t ∈ snd v'.
Proof.
  revert v. induction rest as [|t rest IH]; intros v Hv Hrest Hpath; simpl.
  { exists v. split_and!; [done|done|exists []; by rewrite app_nil_r|done]. }
  destruct (mt_source t =? source) eqn:Hsrc; destruct_bools.
  2: { exists v. split_and!; [done|done|exists []; by rewrite app_nil_r|].
       intros n u _ Hall. by specialize (Hall 0%nat t ltac:(lia) eq_refl). }
  assert (t ∈ mi_transitions m) as Ht by (apply Hrest; by left).
  destruct (find_target t Ht) as (i & s & -> & Hs & Hid).
  destruct v as [reachable queue].
  rewrite (vi_marked _ _ Hv i s Hs : reachable !! i = _). cbn [snd].
  assert (forall v', visited_inv m v' -> (exists k, snd v' = queue ++ k) -> ms_id s ∈ snd v' ->
    exists v'', visit_transitions m source rest v' = Some v'' /\ visited_inv m v'' /\
      (exists k, snd v'' = queue ++ k) /\
      forall n u, (t :: rest) !! n = Some u ->
        (forall j w, (j <= n)%nat -> (t :: rest) !! j = Some w -> mt_source w = source) ->
        mt_target u ∈ snd v'') as Hgo.
  { intros v' Hv' [k Hk] Hin.
    destruct (IH v' Hv') as (v'' & -> & Hv'' & [k' Hk'] & Htargets); [|done|].
    { intros u Hu. apply Hrest. by right. }
    exists v''. split_and!; [done|done|exists (k ++ k'); by rewrite Hk', Hk, app_assoc|].
    intros [|n] u Hu Hall; simplify_eq/=.
    - rewrite <- Hid, Hk'. apply elem_of_app. by left.
    - apply (Htargets n u Hu). intros j w Hj Hw. by apply (Hall (S j)); [lia|]. }
  destruct (bool_decide_reflect (ms_id s ∈ queue)) as [Hin|Hnew].
  { apply Hgo; [done|exists []; by rewrite app_nil_r|done]. }
  destruct (visit_fresh (reachable, queue) i s Hv Hs Hnew) as [Hv' Hroom].
  { eapply rtc_r; [done|]. exists t. by rewrite Hid. }
  cbn [fst snd] in Hroom, Hv'.
  rewrite (proj2 (Nat.ltb_lt _ _) Hroom). apply Hgo; [done|by eexists|].
  apply elem_of_app. right. by left.
Qed.

(** The rows of one source stand together, from the index the search returns. *)
Lemma rows_of_source source t :
  t ∈ mi_transitions m -> mt_source t = source ->
  exists n, drop (first_transition_for_source m source) (mi_transitions m) !! n = Some t /\
    forall j u, (j <= n)%nat ->
      drop (first_transition_for_source m source) (mi_transitions m) !! j = Some u ->
      mt_source u = source.
Proof.
  intros (k & Hk)%list_elem_of_lookup Hsrc. unfold first_transition_for_source.
  pose proof (do_sorted _ (gr_domains _ Hg)) as Hso.
  destruct (lower_bound_spec (fun t => mt_source t <? source) (mi_transitions m)) as [_ Hlb].
  { intros i j x y Hx Hy Hle Hb. pose proof (ordered_source m i j x y Hso Hx Hy Hle).
    destruct_bools. apply Z.ltb_lt. lia. }
  set (first := lower_bound _ _) in *. clearbody first.
  assert (first <= k)%nat as Hfk.
  { destruct (decide (k < first)%nat) as [Hlt|]; [|lia].
    apply (Hlb k t Hk) in Hlt. destruct_bools. lia. }
  exists (k - first)%nat. rewrite lookup_drop. replace (first + (k - first))%nat with k by lia.
  split; [done|]. intros j u Hj Hu. rewrite lookup_drop in Hu.
  pose proof (ordered_source m _ k u t Hso Hu Hk ltac:(lia)) as Hle.
  destruct (mt_source u <? source) eqn:Hbelow.
  - apply (Hlb _ u Hu) in Hbelow. lia.
  - destruct_bools. lia.
Qed.

Lemma closed_reached (queue : list Z) :
  mi_initial_state m ∈ queue ->
  (forall a b, a ∈ queue -> machine_edge m a b -> b ∈ queue) ->
  forall b, rtc (machine_edge m) (mi_initial_state m) b -> b ∈ queue.
Proof.
  intros Hini Hclosed. apply rtc_ind_r; [done|]. intros a b _ Hedge Ha. by apply (Hclosed a).
Qed.

Lemma reachability_loop_spec fuel head v :
  visited_inv m v -> mi_initial_state m ∈ snd v ->
  (head <= length (snd v))%nat -> (head + fuel = length (mi_states m))%nat ->
  (forall k a b, (k < head)%nat -> snd v !! k = Some a -> machine_edge m a b -> b ∈ snd v) ->
  exists v', reachability_loop m fuel head v = Some v' /\ visited_inv m v' /\
    forall b, rtc (machine_edge m) (mi_initial_state m) b <-> b ∈ snd v'.
Proof.
  revert head v. induction fuel as [|fuel IH]; intros head v Hv Hini Hhead Hfuel Hclosed; simpl.
  all: pose proof (queue_bounded _ Hv) as Hbound.
  all: destruct (snd v !! head) as [source|] eqn:Hsource.
  1: { apply lookup_lt_Some in Hsource. lia. }
  1, 3: exists v; split_and!; [done|done|]; intros b; split; [|by apply Hv];
    apply closed_reached; [done|]; intros a c (k & Hk)%list_elem_of_lookup;
    apply (Hclosed k a c); [|done]; apply lookup_ge_None in Hsource;
    apply lookup_lt_Some in Hk; lia.
  pose proof (lookup_lt_Some _ _ _ Hsource) as Hlt.
  assert (rtc (machine_edge m) (mi_initial_state m) source) as Hpath.
  { apply (vi_reached _ _ Hv). by eapply list_elem_of_lookup_2. }
  destruct (visit_transitions_spec source
    (drop (first_transition_for_source m source) (mi_transitions m)) v)
    as (v' & -> & Hv' & [k Hk] & Htargets); [done| |done|].
  { intros t (n & Ht)%list_elem_of_lookup. rewrite lookup_drop in Ht.
    by eapply list_elem_of_lookup_2. }
  apply IH; [done| | |lia|].
  - rewrite Hk. apply elem_of_app. by left.
  - rewrite Hk, length_app. lia.
  - intros n a b Hn Ha Hedge. rewrite Hk, lookup_app_l in Ha by lia.
    destruct (decide (n = head)) as [->|].
    + assert (a = source) as -> by congruence.
      destruct Hedge as (t & Ht & Hts & <-).
      destruct (rows_of_source source t Ht Hts) as (j & Hj & Hall). by apply (Htargets j).
    + rewrite Hk. apply elem_of_app. left. apply (Hclosed n a b); [lia|done|done].
Qed.

Lemma initial_visited i s :
  find_state m (mi_initial_state m) = Some (i, s) ->
  visited_inv m (<[i := true]> (replicate (length (mi_states m)) false), [ms_id s]).
Proof.
  intros [Hs Hid]%bsearch_sound.
  assert (visited_inv m (replicate (length (mi_states m)) false, [])) as Hv.
  { split; cbn [fst snd]; [by rewrite length_replicate| |constructor|by intros ? ?%elem_of_nil..].
    intros j s' Hs'. rewrite bool_decide_eq_false_2 by (by intros ?%elem_of_nil).
    apply lookup_replicate. split; [done|by eapply lookup_lt_Some]. }
  destruct (visit_fresh _ i s Hv Hs) as [Hv' _]; [by intros ?%elem_of_nil|rewrite Hid; reflexivity|].
  exact Hv'.
Qed.

Lemma flags_reached v :
  visited_inv m v ->
  forallb id (fst v) = true <-> forall s, s ∈ mi_states m -> ms_id s ∈ snd v.
Proof.
  intros Hv. rewrite forallb_true. split.
  - intros Hall s (i & Hs)%list_elem_of_lookup. pose proof (vi_marked _ _ Hv i s Hs) as Hi.
    eapply bool_decide_eq_true_1, (Hall _ (list_elem_of_lookup_2 _ _ _ Hi)).
  - intros Hall b (i & Hb)%list_elem_of_lookup.
    destruct (lookup_lt_is_Some_2 (mi_states m) i) as [s Hs].
    { rewrite <- (vi_flags _ _ Hv). by eapply lookup_lt_Some. }
    rewrite (vi_marked _ _ Hv i s Hs) in Hb. injection Hb as <-. apply bool_decide_eq_true_2.
    apply Hall. by eapply list_elem_of_lookup_2.
Qed.
End Traversal.

Lemma validate_reachability_spec malloc m :
  graph_wf m -> Z.of_nat (length (mi_states m)) <= CFLOW_MACHINE_MAX_STATES ->
  exists status, validate_reachability malloc m = Some status /\
    (status = CFLOW_MACHINE_OK ->
       forall s, s ∈ mi_states m -> rtc (machine_edge m) (mi_initial_state m) (ms_id s)) /\
    ((forall a, malloc a = true) ->
       (forall s, s ∈ mi_states m -> rtc (machine_edge m) (mi_initial_state m) (ms_id s)) ->
       status = CFLOW_MACHINE_OK).
Proof.
  intros Hg Hlen. unfold validate_reachability.
  rewrite checked_bytes_exact, decide_True by (unfold CFLOW_MACHINE_MAX_STATES, SIZE_MAX in *; lia).
  destruct (malloc ALLOC_REACHABLE) eqn:H1; [destruct (malloc ALLOC_QUEUE) eqn:H2|].
  2, 3: eexists; split_and!; [reflexivity|done|intros Hok; by rewrite Hok in *].
  cbn [negb orb].
  destruct (wf_initial _ (do_states _ (gr_domains _ Hg))) as (s0 & Hs0).
  apply (find_state_iff m (gr_domains _ Hg)) in Hs0 as [i Hi]. rewrite Hi.
  pose proof (initial_visited m Hg i s0 Hi) as Hv.
  apply bsearch_sound in Hi as [Hi Hid].
  destruct (reachability_loop_spec m Hg (length (mi_states m)) 0 _ Hv) as ([flags q] & -> & Hv' & Hreach).
  - simpl. rewrite <- Hid. by left.
  - simpl. lia.
  - done.
  - intros. lia.
  - pose proof (flags_reached m _ Hv') as Hflags. cbn [fst snd] in *.
    eexists. split; [reflexivity|]. setoid_rewrite Hreach. rewrite <- Hflags.
    by destruct (forallb id flags).
Qed.

(** * Use of the declarations *)

Lemma mark_used_spec {A} (key : A -> Z) l id used :
  sorted_by key l -> NoDup (key <$> l) -> length used = length l ->
  (forall x, x ∈ l -> key x <> 0) -> (id = 0 \/ exists x, x ∈ l /\ key x = id) ->
  exists used', mark_used (bsearch key l) id used = Some used' /\
    length used' = length l /\
    forall i x, l !! i = Some x -> used' !! i = (fun b => b || (id =? key x)) <$> used !! i.
Proof.
  intros Hs Hnd Hlen Hnz Hid. unfold mark_used. destruct (id =? 0) eqn:H0; destruct_bools.
  { exists used. split_and!; [done|done|]. intros i x Hx. subst.
    rewrite (proj2 (Z.eqb_neq _ _)) by (apply not_eq_sym, Hnz; by eapply list_elem_of_lookup_2).
    destruct (used !! i); simpl; [by rewrite orb_false_r|done]. }
  destruct Hid as [|(x & Hin & Hx)]; [done|].
  destruct (bsearch_found key l id x Hs Hnd Hin Hx) as [k Hk]. rewrite Hk.
  exists (<[k := true]> used). split_and!; [done|by rewrite length_insert|].
  apply bsearch_sound in Hk as [Hk _]. intros i y Hy.
  assert (is_Some (used !! i)) as [b Hb].
  { apply lookup_lt_is_Some_2. rewrite Hlen. by eapply lookup_lt_Some. }
  rewrite Hb. simpl. destruct (decide (k = i)) as [->|Hne].
  - rewrite list_lookup_insert_eq by (by eapply lookup_lt_Some).
    assert (y = x) as -> by congruence. by rewrite Hx, Z.eqb_refl, orb_true_r.
  - rewrite list_lookup_insert_ne, Hb by done. f_equal.
    rewrite (proj2 (Z.eqb_neq _ _)); [by rewrite orb_false_r|].
    intros Heq. apply Hne. apply (NoDup_lookup (key <$> l) k i id Hnd).
    + by rewrite list_lookup_fmap, Hk, <- Hx.
    + by rewrite list_lookup_fmap, Hy, Heq.
Qed.

Lemma mark_transitions_spec m ts gu au :
  graph_wf m -> (forall t, t ∈ ts -> t ∈ mi_transitions m) ->
  length gu = length (mi_guards m) -> length au = length (mi_actions m) ->
  exists gu' au', mark_transitions m ts gu au = Some (gu', au') /\
    length gu' = length (mi_guards m) /\ length au' = length (mi_actions m) /\
    (forall i g, mi_guards m !! i = Some g ->
       gu' !! i = (fun b => b || existsb (fun t => mt_guard t =? mg_id g) ts) <$> gu !! i) /\
    (forall i a, mi_actions m !! i = Some a ->
       au' !! i = (fun b => b || existsb (fun t => mt_action t =? ma_id a) ts) <$> au !! i).
Proof.
  intros Hg. pose proof (gr_domains _ Hg) as Hd. revert gu au.
  induction ts as [|t ts IH]; intros gu au Hts Hgu Hau; simpl.
  { exists gu, au. split_and!; try done; intros i x _;
      [destruct (gu !! i)|destruct (au !! i)]; simpl; by rewrite ?orb_false_r. }
  destruct (gr_transitions _ Hg t (Hts t ltac:(by left)))
    as (s & _ & s' & _ & e & _ & _ & Hgf & Haf).
  destruct (mark_used_spec mg_id (mi_guards m) (mt_guard t) gu) as (gu1 & Hm1 & Hl1 & Hu1);
    [apply Hd|apply Hd|done|intros g Hgin; apply (do_guards _ Hd g Hgin)| |].
  { destruct Hgf as [?|(g & Hin & ? & _)]; [by left|right; eauto]. }
  destruct (mark_used_spec ma_id (mi_actions m) (mt_action t) au) as (au1 & Hm2 & Hl2 & Hu2);
    [apply Hd|apply Hd|done|intros a Hain; apply (do_actions _ Hd a Hain)| |].
  { destruct Haf as [[? _]|(_ & a & Hin & ? & _)]; [by left|right; eauto]. }
  change (find_guard m) with (bsearch mg_id (mi_guards m)).
  change (find_action m) with (bsearch ma_id (mi_actions m)). rewrite Hm1, Hm2.
  destruct (IH gu1 au1) as (gu' & au' & -> & Hl1' & Hl2' & Hg' & Ha');
    [intros u Hu; apply Hts; by right|done|done|].
  exists gu', au'. split_and!; [done|done|done| |].
  - intros i g Hi. rewrite (Hg' i g Hi), (Hu1 i g Hi), <- option_fmap_compose.
    destruct (gu !! i); simpl; [by rewrite orb_assoc|done].
  - intros i a Hi. rewrite (Ha' i a Hi), (Hu2 i a Hi), <- option_fmap_compose.
    destruct (au !! i); simpl; [by rewrite orb_assoc|done].
Qed.

(** Every flag set means every declaration named by some transition. *)
Lemma all_used {A} (l : list A) (flags : list bool) (used : A -> bool) :
  length flags = length l ->
  (forall i x, l !! i = Some x ->
     flags !! i = (fun b => b || used x) <$> replicate (length l) false !! i) ->
  forallb id flags = true <-> forall x, x ∈ l -> used x = true.
Proof.
  intros Hlen Hflags.
  assert (forall i x, l !! i = Some x -> flags !! i = Some (used x)) as Hf.
  { intros i x Hx. rewrite (Hflags i x Hx).
    by rewrite lookup_replicate_2 by (by eapply lookup_lt_Some). }
  rewrite forallb_true. split.
  - intros Hall x (i & Hx)%list_elem_of_lookup.
    apply (Hall (used x)). eapply list_elem_of_lookup_2. by apply Hf.
  - intros Hall b (i & Hb)%list_elem_of_lookup.
    destruct (lookup_lt_is_Some_2 l i) as [x Hx]; [rewrite <- Hlen; by eapply lookup_lt_Some|].
    rewrite (Hf i x Hx) in Hb. injection Hb as <-. apply Hall. by eapply list_elem_of_lookup_2.
Qed.

Lemma existsb_named (f : cflow_machine_transition -> Z) id ts :
  existsb (fun t => f t =? id) ts = true <-> exists t, t ∈ ts /\ f t = id.
Proof.
  rewrite existsb_exists. setoid_rewrite list_elem_of_In. by setoid_rewrite Z.eqb_eq.
Qed.

Lemma validate_declaration_use_spec malloc m :
  graph_wf m ->
  exists status, validate_declaration_use malloc m = Some status /\
    let used :=
      (forall g, g ∈ mi_guards m -> exists t, t ∈ mi_transitions m /\ mt_guard t = mg_id g) /\
      (forall a, a ∈ mi_actions m -> exists t, t ∈ mi_transitions m /\ mt_action t = ma_id a) in
    (status = CFLOW_MACHINE_OK -> used) /\
    ((forall a, malloc a = true) -> used -> status = CFLOW_MACHINE_OK).
Proof.
  intros Hg. unfold validate_declaration_use.
  destruct (negb _ && negb (malloc ALLOC_GUARDS_USED)) eqn:H1; destruct_bools.
  { eexists. split_and!; [reflexivity|done|]. intros Hok. by rewrite Hok in *. }
  destruct (negb _ && negb (malloc ALLOC_ACTIONS_USED)) eqn:H2; destruct_bools.
  { eexists. split_and!; [reflexivity|done|]. intros Hok. by rewrite Hok in *. }
  destruct (mark_transitions_spec m (mi_transitions m) (replicate (length (mi_guards m)) false)
    (replicate (length (mi_actions m)) false)) as (gu & au & -> & Hlg & Hla & Hgu & Hau);
    [done|done|by rewrite length_replicate..|].
  pose proof (all_used _ _ _ Hlg Hgu) as Hg'. pose proof (all_used _ _ _ Hla Hau) as Ha'.
  setoid_rewrite existsb_named in Hg'. setoid_rewrite existsb_named in Ha'.
  eexists. split; [reflexivity|]. cbn zeta. rewrite <- Hg', <- Ha'.
  destruct (forallb id gu), (forallb id au); simpl; intuition congruence.
Qed.

(** * Validation as a whole *)

Lemma validate_machine_spec malloc m :
  machine_sorted m -> Z.of_nat (length (mi_states m)) <= CFLOW_MACHINE_MAX_STATES ->
  exists status, validate_machine malloc m = Some status /\
    (status = CFLOW_MACHINE_OK -> machine_wf m) /\
    ((forall a, malloc a = true) -> machine_wf m -> status = CFLOW_MACHINE_OK).
Proof.
  intros Hso Hlen. unfold validate_machine.
  pose proof (validate_state_domain_OK m Hso) as Hs.
  destruct (validate_state_domain m); try by (eexists; split_and!; [done|done|]; intros _ []; intuition).
  pose proof (validate_event_domain_OK m Hso) as He.
  destruct (validate_event_domain m); try by (eexists; split_and!; [done|done|]; intros _ []; intuition).
  pose proof (validate_guard_domain_OK m Hso (proj1 He eq_refl)) as Hgs.
  destruct (validate_guard_domain m); try by (eexists; split_and!; [done|done|]; intros _ []; intuition).
  pose proof (validate_action_domain_OK m Hso (proj1 He eq_refl)) as Has.
  destruct (validate_action_domain m); try by (eexists; split_and!; [done|done|]; intros _ []; intuition).
  destruct (proj1 Hgs eq_refl) as [Hg1 Hg2]. destruct (proj1 Has eq_refl) as [Ha1 Ha2].
  assert (domains_wf m) as Hd by (split; [done|by apply Hs|by apply He|done..]).
  pose proof (validate_transitions_OK m Hd) as Ht.
  destruct (validate_transitions m); try by (eexists; split_and!; [done|done|]; intros _ []; intuition).
  destruct (proj1 Ht eq_refl) as [Ht1 Ht2]. assert (graph_wf m) as Hg by (by split).
  destruct (validate_reachability_spec malloc m Hg Hlen) as (sr & -> & Hr1 & Hr2).
  destruct (validate_declaration_use_spec malloc m Hg) as (su & Hu & Hu1 & Hu2).
  assert ((su = CFLOW_MACHINE_OK -> sr = CFLOW_MACHINE_OK -> machine_wf m)) as Hwf.
  { intros Hsu Hsr. destruct (Hu1 Hsu). split; [by apply Hs|by apply He|done..|by apply Hr1|done|done]. }
  destruct (decide (sr = CFLOW_MACHINE_OK)) as [->|Hne].
  - exists su. rewrite Hu. split_and!; [done|auto|]. intros Hm []. by apply Hu2.
  - exists sr. split_and!; [by destruct sr|done|]. intros Hm []. by apply Hr2.
Qed.

(** * What [cflow_machine_build] admits *)

(** The caller's promise about a pointer and its count. *)
Definition holds_rows {A} (pointer : option (list A)) (count : Z) : Prop :=
  0 <= count /\ match pointer with None => True | Some l => count <= Z.of_nat (length l) end.

Record definition_readable (d : cflow_machine_definition) : Prop := {
  dr_states : holds_rows (md_states d) (md_state_count d);
  dr_events : holds_rows (md_events d) (md_event_count d);
  dr_guards : holds_rows (md_guards d) (md_guard_count d);
  dr_actions : holds_rows (md_actions d) (md_action_count d);
  dr_transitions : holds_rows (md_transitions d) (md_transition_count d);
}.

(** Within the configured limits, and with an array behind every count. *)
Definition definition_admissible (d : cflow_machine_definition) : Prop :=
  exceeds_limits d = false /\ rows_missing d = false.

Lemma copy_rows_spec {A} ok (p : option (list A)) count bytes :
  holds_rows p count -> missing_rows p count = false -> (bytes = 0 <-> count = 0) ->
  exists copy, copy_rows ok p count bytes = Some copy /\
    (copy_failed bytes copy = false -> default [] copy = rows p count) /\
    (ok = true -> copy_failed bytes copy = false).
Proof.
  intros [Hc Hp] Hmiss Hb. unfold copy_rows, copy_failed.
  destruct (bytes =? 0) eqn:H0; destruct_bools.
  { exists None. split_and!; [done| |done]. intros _. by rewrite (proj1 Hb H0). }
  destruct ok; [|exists None; by split_and!]. simpl.
  destruct p as [l|]; [|unfold missing_rows in Hmiss; destruct_bools].
  - rewrite (proj2 (Z.ltb_ge _ _)) by lia. eexists. by split_and!.
  - rewrite andb_true_r in Hmiss. destruct_bools. tauto.
Qed.

Lemma sorted_normalise `{Qsort} i ss es gs xs ts : machine_sorted (normalise i ss es gs xs ts).
Proof.
  destruct compare_transition_preorder.
  split; simpl; [apply sort_rows_by..|by apply sort_rows_sorted].
Qed.

Lemma perm_normalise `{Qsort} i ss es gs xs ts :
  machine_perm (mk_machine_impl ss i es gs xs ts) (normalise i ss es gs xs ts).
Proof. split; simpl; [..|done| | | |]; symmetry; apply sort_rows_permutation. Qed.

Lemma rows_length {A} (p : option (list A)) count :
  0 <= count -> Z.of_nat (length (rows p count)) <= count.
Proof. intros Hc. unfold rows. rewrite length_take. lia. Qed.

(** [build_rows] on readable arrays within the limits. *)
Lemma build_rows_spec `{Qsort} malloc d sb eb gb ab tb machine :
  definition_readable d -> rows_missing d = false ->
  md_state_count d <= CFLOW_MACHINE_MAX_STATES ->
  (sb = 0 <-> md_state_count d = 0) -> (eb = 0 <-> md_event_count d = 0) ->
  (gb = 0 <-> md_guard_count d = 0) -> (ab = 0 <-> md_action_count d = 0) ->
  (tb = 0 <-> md_transition_count d = 0) ->
  exists status machine',
    build_rows malloc d sb eb gb ab tb machine = Some (status, machine') /\
    (status <> CFLOW_MACHINE_OK -> machine' = machine) /\
    (status = CFLOW_MACHINE_OK -> machine_wf (definition_rows d) /\
       exists impl, m_impl machine' = Some impl /\ machine_sorted impl /\
         machine_perm (definition_rows d) impl) /\
    ((forall a, malloc a = true) -> machine_wf (definition_rows d) -> status = CFLOW_MACHINE_OK).
Proof.
  intros [R1 R2 R3 R4 R5] Hmiss Hlim B1 B2 B3 B4 B5. unfold rows_missing in Hmiss. destruct_bools.
  assert (missing_rows (md_states d) (md_state_count d) = false) as Hm1.
  { unfold missing_rows. destruct (is_null _); [done|]. by rewrite andb_false_r. }
  unfold build_rows. destruct (malloc ALLOC_IMPL) eqn:Hmi; cbn [negb].
  2: { eexists _, machine. split_and!; [done..|]. intros Hok. by rewrite Hok in Hmi. }
  destruct (copy_rows_spec (malloc ALLOC_STATES) _ _ _ R1 Hm1 B1) as (c1 & -> & D1 & F1).
  destruct (copy_rows_spec (malloc ALLOC_EVENTS) _ _ _ R2 ltac:(done) B2) as (c2 & -> & D2 & F2).
  destruct (copy_rows_spec (malloc ALLOC_GUARDS) _ _ _ R3 ltac:(done) B3) as (c3 & -> & D3 & F3).
  destruct (copy_rows_spec (malloc ALLOC_ACTIONS) _ _ _ R4 ltac:(done) B4) as (c4 & -> & D4 & F4).
  destruct (copy_rows_spec (malloc ALLOC_TRANSITIONS) _ _ _ R5 ltac:(done) B5) as (c5 & -> & D5 & F5).
  cbn [mbind option_bind]. destruct (_ || _) eqn:Hfail.
  { eexists _, machine. split_and!; [done..|]. intros Hok _.
    by rewrite F1, F2, F3, F4, F5 in Hfail by apply Hok. }
  destruct_bools. rewrite D1, D2, D3, D4, D5 by done.
  pose proof (perm_normalise (md_initial_state d) (rows (md_states d) (md_state_count d))
    (rows (md_events d) (md_event_count d)) (rows (md_guards d) (md_guard_count d))
    (rows (md_actions d) (md_action_count d)) (rows (md_transitions d) (md_transition_count d))) as Hp.
  match type of Hp with machine_perm ?a ?b => change a with (definition_rows d) in Hp; set (impl := b) in * end.
  assert (machine_sorted impl) as Hso by apply sorted_normalise.
  destruct (validate_machine_spec malloc impl Hso) as (status & -> & Hwf & Hok).
  { rewrite <- (mp_states _ _ Hp). etrans; [by apply rows_length, R1|done]. }
  assert (machine_wf (definition_rows d) <-> machine_wf impl) as Hiff by (by rewrite Hp).
  exists status. setoid_rewrite Hiff.
  destruct (decide (status = CFLOW_MACHINE_OK)) as [->|Hne].
  - eexists. split; [reflexivity|]. split_and!; [done| |done]. intros _. split; [by apply Hwf|].
    by exists impl.
  - exists machine. split_and!; [by destruct status|done|done|done].
Qed.

Lemma build_spec `{Qsort} malloc d :
  definition_readable d ->
  exists status machine',
    cflow_machine_build malloc (Some (mk_machine None)) (Some d) =
      Some (status, Some machine') /\
    (status = CFLOW_MACHINE_OK ->
       definition_admissible d /\ machine_wf (definition_rows d) /\
       exists impl, m_impl machine' = Some impl /\ machine_sorted impl /\
         machine_perm (definition_rows d) impl) /\
    (status <> CFLOW_MACHINE_OK -> m_impl machine' = None) /\
    ((forall a, malloc a = true) -> definition_admissible d -> machine_wf (definition_rows d) ->
       status = CFLOW_MACHINE_OK).
Proof.
  intros Hr. unfold cflow_machine_build, definition_admissible. cbn [m_impl is_null negb].
  pose proof Hr as [[? _] [? _] [? _] [? _] [? _]].
  destruct (md_state_count d =? 0) eqn:Hempty.
  { eexists _, _. split_and!; [done..|]. intros _ _ Hwf. exfalso. destruct_bools.
    destruct (wf_initial _ (wf_states _ Hwf)) as (s & Hin & _). simpl in Hin.
    unfold rows in Hin. rewrite Hempty in Hin. by apply elem_of_nil in Hin. }
  destruct (exceeds_limits d) eqn:Hlim.
  { eexists _, _. split_and!; [done..|]. by intros _ []. }
  destruct (rows_missing d) eqn:Hmiss.
  { eexists _, _. split_and!; [done..|]. by intros _ []. }
  assert (forall count width, 0 <= count <= 2 ^ 20 -> 0 < width <= 72 ->
    checked_bytes count width = Some (count * width)) as Hbytes.
  { intros c w Hc Hw. rewrite checked_bytes_exact by lia. apply decide_True. unfold SIZE_MAX. nia. }
  unfold exceeds_limits, CFLOW_MACHINE_MAX_STATES, CFLOW_MACHINE_MAX_EVENTS,
    CFLOW_MACHINE_MAX_GUARDS, CFLOW_MACHINE_MAX_ACTIONS, CFLOW_MACHINE_MAX_TRANSITIONS in Hlim.
  unfold sizeof_machine_state, sizeof_event_type, sizeof_machine_guard, sizeof_machine_action,
    sizeof_machine_transition. destruct_bools. rewrite !Hbytes by lia.
  destruct (build_rows_spec malloc d (md_state_count d * 24) (md_event_count d * 16)
    (md_guard_count d * 40) (md_action_count d * 72) (md_transition_count d * 32)
    (mk_machine None) Hr Hmiss) as (status & machine' & -> & Hfail & Hok & Hdone);
    [unfold CFLOW_MACHINE_MAX_STATES; lia|lia..|].
  exists status, machine'. split; [done|]. split_and!.
  - intros Hs. destruct (Hok Hs) as [? ?]. by split_and!.
  - intros Hs. by rewrite (Hfail Hs).
  - intros Ha _. by apply Hdone.
Qed.

(** C28: [cflow_machine_build] into an empty handle never leaves an array or
    follows a null pointer, whatever the allocator answers.  It publishes a machine
    exactly when the definition is within the limits and well formed as a set of
    rows: ids are distinct and non-zero, types and contracts valid, no two
    transitions share source, event and priority, every state is reachable from
    the initial one and every guard and action is used.  The published rows are
    the caller's, sorted; on any failure the handle stays empty. *)
Theorem machine_build_exact `{Qsort} malloc d :
  definition_readable d ->
  exists status machine',
    cflow_machine_build malloc (Some (mk_machine None)) (Some d) =
      Some (status, Some machine') /\
    (status = CFLOW_MACHINE_OK ->
       definition_admissible d /\ machine_wf (definition_rows d) /\
       exists impl, m_impl machine' = Some impl /\ machine_sorted impl /\
         machine_perm (definition_rows d) impl) /\
    (status <> CFLOW_MACHINE_OK -> m_impl machine' = None) /\
    ((forall a, malloc a = true) -> definition_admissible d -> machine_wf (definition_rows d) ->
       status = CFLOW_MACHINE_OK).
Proof. apply build_spec. Qed.
