(* ===== verification/CFlowMailbox.v ===== *)
(** The bounded mailbox (cflow/include/cflow/event.h, cflow/src/event.c,
    cflow/src/event_internal.h).

    Each public operation checks its arguments against fields that never change
    after initialisation and then runs one critical section under the mailbox
    lock; the section is a function on [cflow_mailbox_impl], and a waker the code
    invokes after it unlocks is part of the result.  [None] is an access outside
    an array or a null dereference.  Payloads live in one array of [capacity]
    strides, as in the code. *)

From S2P Require Import Prelude CMetaType CFlowSupport CFlowMachine.

(** * Data *)

Inductive cflow_mailbox_terminal :=
  | CFLOW_MAILBOX_TERMINAL_OPEN
  | CFLOW_MAILBOX_TERMINAL_DRAINING
  | CFLOW_MAILBOX_TERMINAL_CANCELLED.

Inductive cflow_mailbox_status :=
  | CFLOW_MAILBOX_OK
  | CFLOW_MAILBOX_INVALID_ARGUMENT
  | CFLOW_MAILBOX_TYPE_MISMATCH
  | CFLOW_MAILBOX_FULL
  | CFLOW_MAILBOX_EMPTY
  | CFLOW_MAILBOX_CLOSED
  | CFLOW_MAILBOX_CANCELLED
  | CFLOW_MAILBOX_ALLOCATION_FAILED
  | CFLOW_MAILBOX_BUFFER_TOO_SMALL.

#[export] Instance cflow_mailbox_terminal_eq_dec : EqDecision cflow_mailbox_terminal.
Proof. solve_decision. Defined.

#[export] Instance cflow_mailbox_status_eq_dec : EqDecision cflow_mailbox_status.
Proof. solve_decision. Defined.

(** A waker: a function and its argument, by address (reactive.h). *)
Record cflow_waker := mk_waker { wk_wake : option addr; wk_user : addr }.

Definition zero_waker : cflow_waker := mk_waker None 0.

(** A borrowed event: [ev_payload] is the bytes behind the pointer. *)
Record cflow_event_view := mk_event_view {
  ev_id : Z;
  ev_payload_type : option cmeta_type_desc;
  ev_payload : option (list Z);
}.

Record cflow_mailbox_stats := mk_mailbox_stats {
  st_schema_count : nat;
  st_capacity : nat;
  st_pending : nat;
  st_peak_pending : nat;
  st_payload_stride : Z;
  st_reserved_payload_bytes : Z;
  st_accepted : Z;
  st_received : Z;
  st_rejected_full : Z;
  st_rejected_closed : Z;
  st_rejected_cancelled : Z;
  st_cancelled : Z;
}.

(** The lock is left out: a step is a critical section.  [schema_count] is the
    length of the schema. *)
Record cflow_mailbox_impl := mk_mailbox_impl {
  mb_schema : list cflow_event_type;
  mb_slots : list nat;
  mb_payloads : list Z;
  mb_capacity : nat;
  mb_payload_stride : Z;
  mb_max_payload_size : Z;
  mb_reserved_payload_bytes : Z;
  mb_head : nat;
  mb_count : nat;
  mb_peak_pending : nat;
  mb_accepted : Z;
  mb_received : Z;
  mb_rejected_full : Z;
  mb_rejected_closed : Z;
  mb_rejected_cancelled : Z;
  mb_cancelled : Z;
  mb_terminal : cflow_mailbox_terminal;
  mb_waiter : cflow_waker;
}.

Record cflow_mailbox := mk_mailbox { mb_impl : option cflow_mailbox_impl }.

(** [mailbox != NULL ? mailbox->impl : NULL]. *)
Definition mailbox_impl (mailbox : option cflow_mailbox) : option cflow_mailbox_impl :=
  match mailbox with None => None | Some m => mb_impl m end.

(** ** Field updates *)

Definition set_mb_ring (slots : list nat) (payloads : list Z) (head count peak : nat)
    (m : cflow_mailbox_impl) : cflow_mailbox_impl :=
  mk_mailbox_impl (mb_schema m) slots payloads (mb_capacity m) (mb_payload_stride m)
    (mb_max_payload_size m) (mb_reserved_payload_bytes m) head count peak
    (mb_accepted m) (mb_received m) (mb_rejected_full m) (mb_rejected_closed m)
    (mb_rejected_cancelled m) (mb_cancelled m) (mb_terminal m) (mb_waiter m).

Definition set_mb_counters (accepted received full closed rejected cancelled : Z)
    (m : cflow_mailbox_impl) : cflow_mailbox_impl :=
  mk_mailbox_impl (mb_schema m) (mb_slots m) (mb_payloads m) (mb_capacity m)
    (mb_payload_stride m) (mb_max_payload_size m) (mb_reserved_payload_bytes m)
    (mb_head m) (mb_count m) (mb_peak_pending m) accepted received full closed rejected
    cancelled (mb_terminal m) (mb_waiter m).

Definition set_mb_terminal (terminal : cflow_mailbox_terminal) (m : cflow_mailbox_impl)
    : cflow_mailbox_impl :=
  mk_mailbox_impl (mb_schema m) (mb_slots m) (mb_payloads m) (mb_capacity m)
    (mb_payload_stride m) (mb_max_payload_size m) (mb_reserved_payload_bytes m)
    (mb_head m) (mb_count m) (mb_peak_pending m) (mb_accepted m) (mb_received m)
    (mb_rejected_full m) (mb_rejected_closed m) (mb_rejected_cancelled m) (mb_cancelled m)
    terminal (mb_waiter m).

Definition set_mb_waiter (waiter : cflow_waker) (m : cflow_mailbox_impl) : cflow_mailbox_impl :=
  mk_mailbox_impl (mb_schema m) (mb_slots m) (mb_payloads m) (mb_capacity m)
    (mb_payload_stride m) (mb_max_payload_size m) (mb_reserved_payload_bytes m)
    (mb_head m) (mb_count m) (mb_peak_pending m) (mb_accepted m) (mb_received m)
    (mb_rejected_full m) (mb_rejected_closed m) (mb_rejected_cancelled m) (mb_cancelled m)
    (mb_terminal m) waiter.

(** * Sizes *)

Definition cflow_counter_add_size (counter : Z) (amount : nat) : Z :=
  if UINT64_MAX - counter <? Z.of_nat amount then UINT64_MAX
  else u64 (counter + Z.of_nat amount).

Definition cflow_size_multiply (left right : Z) : option Z :=
  if (left =? 0) || (right =? 0) || (SIZE_MAX / right <? left) then None
  else Some (u64 (left * right)).

Definition cflow_align_size (size alignment : Z) : option Z :=
  if (size =? 0) || negb (alignment_valid alignment) then None
  else
    let padding := u64 (alignment - 1) in
    if SIZE_MAX - padding <? size then None
    else Some (Z.land (u64 (size + padding)) (u64 (Z.lnot padding))).

Definition trivial_traits : Z := Z.lor CMETA_TRAIT_TRIVIAL_COPY CMETA_TRAIT_TRIVIAL_DESTROY.

(** The type tests of [cflow_schema_measure]; [runtime_type_supported] of
    machine_instance.c is the same test. *)
Definition payload_type_supported (type : option cmeta_type_desc) : bool :=
  cmeta_type_desc_valid type && negb (type_size type =? 0) &&
  alignment_valid (type_align type) &&
  bool_decide (cmeta_type_require_traits type trivial_traits = CMETA_OK).

(** The loop over the rows, with the rows before the current one. *)
Fixpoint measure_rows (before rest : list cflow_event_type) (largest_size largest_alignment : Z)
    : option (Z * Z) :=
  match rest with
  | [] => Some (largest_size, largest_alignment)
  | row :: rest' =>
      let type := et_payload_type row in
      if (et_id row =? 0) || negb (payload_type_supported type) then None
      else if existsb (fun previous => et_id previous =? et_id row) before then None
      else
        measure_rows (before ++ [row]) rest'
          (if largest_size <? type_size type then type_size type else largest_size)
          (if largest_alignment <? type_align type then type_align type else largest_alignment)
  end.

(** The outer [None] reads past the caller's array. *)
Definition cflow_schema_measure (schema : option (list cflow_event_type)) (schema_count : nat)
    : option (option (Z * Z)) :=
  match schema with
  | None => Some None
  | Some l =>
      if (schema_count =? 0)%nat then Some None
      else if (length l <? schema_count)%nat then None
      else Some (measure_rows [] (take schema_count l) 0 0)
  end.

Definition sizeof_mailbox_impl : Z := 168.
Definition sizeof_event_slot : Z := 8.

Definition cflow_mailbox_storage_requirements_internal
    (schema : option (list cflow_event_type)) (schema_count capacity : nat)
    : option (option Z) :=
  match cflow_size_multiply (Z.of_nat schema_count) sizeof_event_type,
        cflow_size_multiply (Z.of_nat capacity) sizeof_event_slot with
  | Some schema_bytes, Some slot_bytes =>
      match cflow_schema_measure schema schema_count with
      | None => None
      | Some None => Some None
      | Some (Some (max_size, max_alignment)) =>
          match cflow_align_size max_size max_alignment with
          | None => Some None
          | Some stride =>
              match cflow_size_multiply (Z.of_nat capacity) stride with
              | None => Some None
              | Some payload_bytes =>
                  if SIZE_MAX - schema_bytes <? sizeof_mailbox_impl then Some None
                  else
                    let total := u64 (sizeof_mailbox_impl + schema_bytes) in
                    if SIZE_MAX - total <? slot_bytes then Some None
                    else
                      let total := u64 (total + slot_bytes) in
                      if SIZE_MAX - total <? payload_bytes then Some None
                      else Some (Some (u64 (total + payload_bytes)))
              end
          end
      end
  | _, _ => Some None
  end.

(** * Initialisation *)

Inductive mailbox_allocation :=
  | MB_ALLOC_IMPL | MB_ALLOC_SCHEMA | MB_ALLOC_SLOTS | MB_ALLOC_PAYLOADS | MB_ALLOC_LOCK.

Definition cflow_event_type_compare : cflow_event_type -> cflow_event_type -> Z :=
  compare_key et_id.

(** [fresh n] is what [malloc (n)] leaves in [n] bytes. *)
Definition cflow_mailbox_init `{Qsort} (malloc : mailbox_allocation -> bool)
    (fresh : nat -> list Z) (mailbox : option cflow_mailbox)
    (schema : option (list cflow_event_type)) (schema_count capacity : nat)
    : option (cflow_mailbox_status * option cflow_mailbox) :=
  match mailbox, schema with
  | Some m, Some l =>
      if negb (is_null (mb_impl m)) || (schema_count =? 0)%nat || (capacity =? 0)%nat
      then Some (CFLOW_MAILBOX_INVALID_ARGUMENT, mailbox)
      else
        match cflow_size_multiply (Z.of_nat schema_count) sizeof_event_type,
              cflow_size_multiply (Z.of_nat capacity) sizeof_event_slot with
        | Some schema_bytes, Some slot_bytes =>
            match cflow_schema_measure schema schema_count with
            | None => None
            | Some None => Some (CFLOW_MAILBOX_INVALID_ARGUMENT, mailbox)
            | Some (Some (max_size, max_alignment)) =>
                match cflow_align_size max_size max_alignment with
                | None => Some (CFLOW_MAILBOX_INVALID_ARGUMENT, mailbox)
                | Some stride =>
                    match cflow_size_multiply (Z.of_nat capacity) stride with
                    | None => Some (CFLOW_MAILBOX_INVALID_ARGUMENT, mailbox)
                    | Some payload_bytes =>
                        if negb (malloc MB_ALLOC_IMPL) || negb (malloc MB_ALLOC_SCHEMA) ||
                           negb (malloc MB_ALLOC_SLOTS) || negb (malloc MB_ALLOC_PAYLOADS) ||
                           negb (malloc MB_ALLOC_LOCK)
                        then Some (CFLOW_MAILBOX_ALLOCATION_FAILED, mailbox)
                        else
                          Some (CFLOW_MAILBOX_OK, Some (mk_mailbox (Some (mk_mailbox_impl
                            (qsort cflow_event_type_compare (take schema_count l))
                            (replicate capacity 0%nat) (fresh (Z.to_nat payload_bytes))
                            capacity stride max_size payload_bytes
                            0 0 0 0 0 0 0 0 0 CFLOW_MAILBOX_TERMINAL_OPEN zero_waker))))
                    end
                end
            end
        | _, _ => Some (CFLOW_MAILBOX_INVALID_ARGUMENT, mailbox)
        end
  | _, _ => Some (CFLOW_MAILBOX_INVALID_ARGUMENT, mailbox)
  end.

Definition cflow_mailbox_type_index (impl : cflow_mailbox_impl) (id : Z)
    : option (row_ptr cflow_event_type) :=
  if id =? 0 then None else bsearch et_id (mb_schema impl) id.

(** * Bytes *)

Definition read_bytes (buffer : list Z) (offset size : nat) : option (list Z) :=
  if (offset + size <=? length buffer)%nat then Some (take size (drop offset buffer)) else None.

Definition write_bytes (buffer : list Z) (offset : nat) (data : list Z) : option (list Z) :=
  if (offset + length data <=? length buffer)%nat
  then Some (take offset buffer ++ data ++ drop (offset + length data) buffer)
  else None.

(** [&payloads[index * payload_stride]]. *)
Definition slot_offset (impl : cflow_mailbox_impl) (index : nat) : nat :=
  (index * Z.to_nat (mb_payload_stride impl))%nat.

(** * Sending *)

(** [schema_type != event->payload_type && !cmeta_type_equal (...)], negated. *)
Definition payload_type_accepted (schema_type event_type : option cmeta_type_desc) : bool :=
  match schema_type, event_type with
  | Some a, Some b => (td_addr a =? td_addr b) || cmeta_type_equal schema_type event_type
  | _, _ => false
  end.

Definition reject_full (m : cflow_mailbox_impl) : cflow_mailbox_impl :=
  set_mb_counters (mb_accepted m) (mb_received m) (counter_increment (mb_rejected_full m))
    (mb_rejected_closed m) (mb_rejected_cancelled m) (mb_cancelled m) m.

Definition reject_closed (m : cflow_mailbox_impl) : cflow_mailbox_impl :=
  set_mb_counters (mb_accepted m) (mb_received m) (mb_rejected_full m)
    (counter_increment (mb_rejected_closed m)) (mb_rejected_cancelled m) (mb_cancelled m) m.

Definition reject_cancelled (m : cflow_mailbox_impl) : cflow_mailbox_impl :=
  set_mb_counters (mb_accepted m) (mb_received m) (mb_rejected_full m)
    (mb_rejected_closed m) (counter_increment (mb_rejected_cancelled m)) (mb_cancelled m) m.

Definition tail_index (m : cflow_mailbox_impl) : nat :=
  if (mb_capacity m - mb_head m <=? mb_count m)%nat
  then (mb_count m - (mb_capacity m - mb_head m))%nat
  else (mb_head m + mb_count m)%nat.

(** The critical section of a send of [size] bytes of type [type_index]. *)
Definition send_locked (m : cflow_mailbox_impl) (type_index size : nat) (payload : list Z)
    : option (cflow_mailbox_status * cflow_mailbox_impl * cflow_waker) :=
  match mb_terminal m with
  | CFLOW_MAILBOX_TERMINAL_CANCELLED =>
      Some (CFLOW_MAILBOX_CANCELLED, reject_cancelled m, zero_waker)
  | CFLOW_MAILBOX_TERMINAL_DRAINING =>
      Some (CFLOW_MAILBOX_CLOSED, reject_closed m, zero_waker)
  | CFLOW_MAILBOX_TERMINAL_OPEN =>
      if (mb_count m =? mb_capacity m)%nat then
        Some (CFLOW_MAILBOX_FULL, reject_full m, zero_waker)
      else
        let tail := tail_index m in
        data ← read_bytes payload 0 size;
        payloads ← write_bytes (mb_payloads m) (slot_offset m tail) data;
        if (tail <? length (mb_slots m))%nat then
          let count := S (mb_count m) in
          let peak := if (mb_peak_pending m <? count)%nat then count else mb_peak_pending m in
          let m' := set_mb_ring (<[tail := type_index]> (mb_slots m)) payloads (mb_head m)
                      count peak m in
          let m' := set_mb_counters (counter_increment (mb_accepted m)) (mb_received m)
                      (mb_rejected_full m) (mb_rejected_closed m) (mb_rejected_cancelled m)
                      (mb_cancelled m) m' in
          Some (CFLOW_MAILBOX_OK, set_mb_waiter zero_waker m', mb_waiter m)
        else None
  end.

Definition cflow_mailbox_try_send_detach_internal (mailbox : option cflow_mailbox)
    (event : option cflow_event_view) (out_waker : bool)
    : option (cflow_mailbox_status * option cflow_mailbox * cflow_waker) :=
  let invalid := Some (CFLOW_MAILBOX_INVALID_ARGUMENT, mailbox, zero_waker) in
  match mailbox_impl mailbox, event with
  | Some impl, Some e =>
      match ev_payload_type e, ev_payload e with
      | Some type, Some payload =>
          if negb out_waker then invalid
          else
            match cflow_mailbox_type_index impl (ev_id e) with
            | None => invalid
            | Some (type_index, row) =>
                if negb (payload_type_accepted (et_payload_type row) (Some type))
                then Some (CFLOW_MAILBOX_TYPE_MISMATCH, mailbox, zero_waker)
                else
                  '(status, impl, waker) ←
                    send_locked impl type_index (Z.to_nat (type_size (et_payload_type row))) payload;
                  Some (status, Some (mk_mailbox (Some impl)), waker)
            end
      | _, _ => invalid
      end
  | _, _ => invalid
  end.

(** The waker of the result is invoked after the call. *)
Definition cflow_mailbox_try_send (mailbox : option cflow_mailbox)
    (event : option cflow_event_view)
    : option (cflow_mailbox_status * option cflow_mailbox * cflow_waker) :=
  cflow_mailbox_try_send_detach_internal mailbox event true.

(** * Receiving *)

(** What a successful receive writes through its result pointers. *)
Record received_event := mk_received_event {
  re_id : Z;
  re_type : option cmeta_type_desc;
  re_payload : list Z;
}.

Definition empty_status (terminal : cflow_mailbox_terminal) : cflow_mailbox_status :=
  match terminal with
  | CFLOW_MAILBOX_TERMINAL_CANCELLED => CFLOW_MAILBOX_CANCELLED
  | CFLOW_MAILBOX_TERMINAL_DRAINING => CFLOW_MAILBOX_CLOSED
  | CFLOW_MAILBOX_TERMINAL_OPEN => CFLOW_MAILBOX_EMPTY
  end.

(** The critical section, for a buffer at [address] of [capacity] bytes. *)
Definition receive_locked (m : cflow_mailbox_impl) (address capacity : Z)
    : option (cflow_mailbox_status * cflow_mailbox_impl * option received_event) :=
  if (mb_count m =? 0)%nat then Some (empty_status (mb_terminal m), m, None)
  else
    let head := mb_head m in
    type_index ← mb_slots m !! head;
    event_type ← mb_schema m !! type_index;
    match et_payload_type event_type with
    | None => None
    | Some type =>
        if capacity <? td_size type then Some (CFLOW_MAILBOX_BUFFER_TOO_SMALL, m, None)
        else if negb (address mod td_align type =? 0) then
          Some (CFLOW_MAILBOX_INVALID_ARGUMENT, m, None)
        else
          data ← read_bytes (mb_payloads m) (slot_offset m head) (Z.to_nat (td_size type));
          let next := if (S head =? mb_capacity m)%nat then 0%nat else S head in
          let m' := set_mb_ring (mb_slots m) (mb_payloads m) next (pred (mb_count m))
                      (mb_peak_pending m) m in
          let m' := set_mb_counters (mb_accepted m) (counter_increment (mb_received m))
                      (mb_rejected_full m) (mb_rejected_closed m) (mb_rejected_cancelled m)
                      (mb_cancelled m) m' in
          Some (CFLOW_MAILBOX_OK, m', Some (mk_received_event (et_id event_type) (Some type) data))
    end.

(** [out_id] and [out_type] say whether those pointers are given; they are
    cleared unless the receive succeeds. *)
Definition cflow_mailbox_try_receive (mailbox : option cflow_mailbox) (out_id out_type : bool)
    (out_payload : option addr) (capacity : Z)
    : option (cflow_mailbox_status * option cflow_mailbox * option received_event) :=
  match mailbox_impl mailbox, out_payload with
  | Some impl, Some address =>
      if negb out_id || negb out_type
      then Some (CFLOW_MAILBOX_INVALID_ARGUMENT, mailbox, None)
      else
        '(status, impl, event) ← receive_locked impl address capacity;
        Some (status, Some (mk_mailbox (Some impl)), event)
  | _, _ => Some (CFLOW_MAILBOX_INVALID_ARGUMENT, mailbox, None)
  end.

(** * Statistics *)

Definition stats_locked (m : cflow_mailbox_impl) : cflow_mailbox_stats :=
  {| st_schema_count := length (mb_schema m);
     st_capacity := mb_capacity m;
     st_pending := mb_count m;
     st_peak_pending := mb_peak_pending m;
     st_payload_stride := mb_payload_stride m;
     st_reserved_payload_bytes := mb_reserved_payload_bytes m;
     st_accepted := mb_accepted m;
     st_received := mb_received m;
     st_rejected_full := mb_rejected_full m;
     st_rejected_closed := mb_rejected_closed m;
     st_rejected_cancelled := mb_rejected_cancelled m;
     st_cancelled := mb_cancelled m |}.

Definition cflow_mailbox_get_stats (mailbox : option cflow_mailbox) : option cflow_mailbox_stats :=
  stats_locked <$> mailbox_impl mailbox.

(** * Terminal transitions *)

Definition close_locked (m : cflow_mailbox_impl)
    : cflow_mailbox_status * cflow_mailbox_impl * cflow_waker :=
  match mb_terminal m with
  | CFLOW_MAILBOX_TERMINAL_CANCELLED => (CFLOW_MAILBOX_CANCELLED, m, zero_waker)
  | CFLOW_MAILBOX_TERMINAL_DRAINING => (CFLOW_MAILBOX_CLOSED, m, zero_waker)
  | CFLOW_MAILBOX_TERMINAL_OPEN =>
      (CFLOW_MAILBOX_OK,
       set_mb_waiter zero_waker (set_mb_terminal CFLOW_MAILBOX_TERMINAL_DRAINING m),
       mb_waiter m)
  end.

Definition cflow_mailbox_close (mailbox : option cflow_mailbox)
    : cflow_mailbox_status * option cflow_mailbox * cflow_waker :=
  match mailbox_impl mailbox with
  | None => (CFLOW_MAILBOX_INVALID_ARGUMENT, mailbox, zero_waker)
  | Some impl =>
      let '(status, impl, waker) := close_locked impl in
      (status, Some (mk_mailbox (Some impl)), waker)
  end.

Definition cancel_locked (m : cflow_mailbox_impl)
    : cflow_mailbox_status * cflow_mailbox_impl * cflow_waker :=
  match mb_terminal m with
  | CFLOW_MAILBOX_TERMINAL_CANCELLED => (CFLOW_MAILBOX_CANCELLED, m, zero_waker)
  | _ =>
      let m' := set_mb_terminal CFLOW_MAILBOX_TERMINAL_CANCELLED m in
      let m' := set_mb_counters (mb_accepted m) (mb_received m) (mb_rejected_full m)
                  (mb_rejected_closed m) (mb_rejected_cancelled m)
                  (cflow_counter_add_size (mb_cancelled m) (mb_count m)) m' in
      let m' := set_mb_ring (mb_slots m) (mb_payloads m) 0 0 (mb_peak_pending m) m' in
      (CFLOW_MAILBOX_OK, set_mb_waiter zero_waker m', mb_waiter m)
  end.

Definition cflow_mailbox_cancel_detach_internal (mailbox : option cflow_mailbox) (out_waker : bool)
    : cflow_mailbox_status * option cflow_mailbox * cflow_waker :=
  match mailbox_impl mailbox with
  | None => (CFLOW_MAILBOX_INVALID_ARGUMENT, mailbox, zero_waker)
  | Some impl =>
      if negb out_waker then (CFLOW_MAILBOX_INVALID_ARGUMENT, mailbox, zero_waker)
      else
        let '(status, impl, waker) := cancel_locked impl in
        (status, Some (mk_mailbox (Some impl)), waker)
  end.

Definition cflow_mailbox_cancel (mailbox : option cflow_mailbox)
    : cflow_mailbox_status * option cflow_mailbox * cflow_waker :=
  cflow_mailbox_cancel_detach_internal mailbox true.

(** * Waiting *)

(** The result is the answer, the state, and the waker invoked at once. *)
Definition wait_arm_locked (m : cflow_mailbox_impl) (waker : cflow_waker)
    : bool * cflow_mailbox_impl * cflow_waker :=
  let ready := negb (mb_count m =? 0)%nat ||
               negb (bool_decide (mb_terminal m = CFLOW_MAILBOX_TERMINAL_OPEN)) in
  if negb ready && negb (is_null (wk_wake (mb_waiter m))) then (false, m, zero_waker)
  else if ready then (true, m, waker)
  else (true, set_mb_waiter waker m, zero_waker).

Definition cflow_mailbox_wait_arm (impl : option cflow_mailbox_impl) (waker : cflow_waker)
    : bool * option cflow_mailbox_impl * cflow_waker :=
  match impl with
  | None => (false, impl, zero_waker)
  | Some m =>
      if is_null (wk_wake waker) then (false, impl, zero_waker)
      else let '(armed, m, wake) := wait_arm_locked m waker in (armed, Some m, wake)
  end.

Definition cflow_mailbox_wait_cancel (impl : option cflow_mailbox_impl)
    : option cflow_mailbox_impl :=
  set_mb_waiter zero_waker <$> impl.

Definition cflow_mailbox_payload_capacity (mailbox : option cflow_mailbox) : Z :=
  match mailbox_impl mailbox with None => 0 | Some impl => mb_max_payload_size impl end.

Definition cflow_mailbox_destroy (mailbox : option cflow_mailbox) : option cflow_mailbox :=
  match mailbox with None => None | Some _ => Some (mk_mailbox None) end.
