(* ===== verification/CFlowMailboxTheorems.v ===== *)
(** The mailbox refines a bounded first-in first-out queue: the specification,
    the relation between a ring of bytes and a list of events, and the invariant
    every critical section keeps.

    The properties of the mailbox: what initialisation admits, refinement of the
    bounded queue by any sequence of calls, exact accounting, and wake-ups. *)

From S2P Require Import Prelude.
From S2P Require Import CMetaType.
From S2P Require Import CFlowSupport.
From S2P Require Import CFlowMachine.
From S2P Require Import CFlowMailbox.

(** * The specification *)

(** What a client may rely on: the declared rows, the accepted events in order,
    the phase, the armed waiter and the statistics.  [ff_peak] is the largest
    length the queue ever had. *)
Record fifo := mk_fifo {
  ff_schema : list cflow_event_type;
  ff_capacity : nat;
  ff_queue : list received_event;
  ff_terminal : cflow_mailbox_terminal;
  ff_waiter : cflow_waker;
  ff_accepted : Z;
  ff_received : Z;
  ff_rejected_full : Z;
  ff_rejected_closed : Z;
  ff_rejected_cancelled : Z;
  ff_cancelled : Z;
  ff_peak : nat;
}.

Inductive mailbox_call :=
  | CallSend (event : cflow_event_view)
  | CallReceive (address capacity : Z)
  | CallClose
  | CallCancel
  | CallArm (waker : cflow_waker)
  | CallDisarm.

(** Status or answer, the event received, and the waker invoked. *)
Inductive mailbox_answer :=
  | Answered (status : cflow_mailbox_status) (event : option received_event) (wake : cflow_waker)
  | Armed (armed : bool) (wake : cflow_waker)
  | Disarmed.

Definition declared_row (schema : list cflow_event_type) (id : Z) : option cflow_event_type :=
  snd <$> list_find (fun row => et_id row = id) schema.

Definition fifo_update (queue : list received_event) (waiter : cflow_waker)
    (accepted received cancelled : Z) (terminal : cflow_mailbox_terminal) (f : fifo) : fifo :=
  mk_fifo (ff_schema f) (ff_capacity f) queue terminal waiter accepted received
    (ff_rejected_full f) (ff_rejected_closed f) (ff_rejected_cancelled f) cancelled
    (Nat.max (ff_peak f) (length queue)).

Definition fifo_reject (full closed cancelled : Z) (f : fifo) : fifo :=
  mk_fifo (ff_schema f) (ff_capacity f) (ff_queue f) (ff_terminal f) (ff_waiter f)
    (ff_accepted f) (ff_received f) full closed cancelled (ff_cancelled f) (ff_peak f).

(** A send of a declared event: a whole copy of its payload goes to the end. *)
Definition fifo_admit (row : cflow_event_type) (payload : list Z) (f : fifo)
    : cflow_mailbox_status * fifo * cflow_waker :=
  match ff_terminal f with
  | CFLOW_MAILBOX_TERMINAL_CANCELLED =>
      (CFLOW_MAILBOX_CANCELLED,
       fifo_reject (ff_rejected_full f) (ff_rejected_closed f)
         (counter_increment (ff_rejected_cancelled f)) f, zero_waker)
  | CFLOW_MAILBOX_TERMINAL_DRAINING =>
      (CFLOW_MAILBOX_CLOSED,
       fifo_reject (ff_rejected_full f) (counter_increment (ff_rejected_closed f))
         (ff_rejected_cancelled f) f, zero_waker)
  | CFLOW_MAILBOX_TERMINAL_OPEN =>
      if (length (ff_queue f) =? ff_capacity f)%nat then
        (CFLOW_MAILBOX_FULL,
         fifo_reject (counter_increment (ff_rejected_full f)) (ff_rejected_closed f)
           (ff_rejected_cancelled f) f, zero_waker)
      else
        let event := mk_received_event (et_id row) (et_payload_type row)
                       (take (Z.to_nat (type_size (et_payload_type row))) payload) in
        (CFLOW_MAILBOX_OK,
         fifo_update (ff_queue f ++ [event]) zero_waker (counter_increment (ff_accepted f))
           (ff_received f) (ff_cancelled f) (ff_terminal f) f, ff_waiter f)
  end.

Definition fifo_send (e : cflow_event_view) (f : fifo)
    : cflow_mailbox_status * fifo * cflow_waker :=
  match ev_payload_type e, ev_payload e, declared_row (ff_schema f) (ev_id e) with
  | Some type, Some payload, Some row =>
      if payload_type_accepted (et_payload_type row) (Some type)
      then fifo_admit row payload f
      else (CFLOW_MAILBOX_TYPE_MISMATCH, f, zero_waker)
  | _, _, _ => (CFLOW_MAILBOX_INVALID_ARGUMENT, f, zero_waker)
  end.

Definition fifo_receive (address capacity : Z) (f : fifo)
    : cflow_mailbox_status * fifo * option received_event :=
  match ff_queue f with
  | [] => (empty_status (ff_terminal f), f, None)
  | event :: queue =>
      if capacity <? type_size (re_type event) then (CFLOW_MAILBOX_BUFFER_TOO_SMALL, f, None)
      else if negb (address mod type_align (re_type event) =? 0) then
        (CFLOW_MAILBOX_INVALID_ARGUMENT, f, None)
      else
        (CFLOW_MAILBOX_OK,
         fifo_update queue (ff_waiter f) (ff_accepted f) (counter_increment (ff_received f))
           (ff_cancelled f) (ff_terminal f) f, Some event)
  end.

Definition fifo_close (f : fifo) : cflow_mailbox_status * fifo * cflow_waker :=
  match ff_terminal f with
  | CFLOW_MAILBOX_TERMINAL_OPEN =>
      (CFLOW_MAILBOX_OK,
       fifo_update (ff_queue f) zero_waker (ff_accepted f) (ff_received f) (ff_cancelled f)
         CFLOW_MAILBOX_TERMINAL_DRAINING f, ff_waiter f)
  | terminal => (empty_status terminal, f, zero_waker)
  end.

Definition fifo_cancel (f : fifo) : cflow_mailbox_status * fifo * cflow_waker :=
  match ff_terminal f with
  | CFLOW_MAILBOX_TERMINAL_CANCELLED => (CFLOW_MAILBOX_CANCELLED, f, zero_waker)
  | _ =>
      (CFLOW_MAILBOX_OK,
       fifo_update [] zero_waker (ff_accepted f) (ff_received f)
         (cflow_counter_add_size (ff_cancelled f) (length (ff_queue f)))
         CFLOW_MAILBOX_TERMINAL_CANCELLED f, ff_waiter f)
  end.

Definition fifo_arm (waker : cflow_waker) (f : fifo) : bool * fifo * cflow_waker :=
  if is_null (wk_wake waker) then (false, f, zero_waker)
  else if bool_decide (ff_queue f = [] /\ ff_terminal f = CFLOW_MAILBOX_TERMINAL_OPEN) then
    if is_null (wk_wake (ff_waiter f)) then
      (true, fifo_update [] waker (ff_accepted f) (ff_received f) (ff_cancelled f)
               (ff_terminal f) f, zero_waker)
    else (false, f, zero_waker)
  else (true, f, waker).

Definition fifo_call (c : mailbox_call) (f : fifo) : mailbox_answer * fifo :=
  match c with
  | CallSend e => let '(s, f, w) := fifo_send e f in (Answered s None w, f)
  | CallReceive a n => let '(s, f, e) := fifo_receive a n f in (Answered s e zero_waker, f)
  | CallClose => let '(s, f, w) := fifo_close f in (Answered s None w, f)
  | CallCancel => let '(s, f, w) := fifo_cancel f in (Answered s None w, f)
  | CallArm w => let '(b, f, w) := fifo_arm w f in (Armed b w, f)
  | CallDisarm =>
      (Disarmed, fifo_update (ff_queue f) zero_waker (ff_accepted f) (ff_received f)
                   (ff_cancelled f) (ff_terminal f) f)
  end.

Fixpoint fifo_calls (cs : list mailbox_call) (f : fifo) : list mailbox_answer * fifo :=
  match cs with
  | [] => ([], f)
  | c :: cs =>
      let (a, f) := fifo_call c f in
      let (answers, f) := fifo_calls cs f in (a :: answers, f)
  end.

(** * The calls of the code *)

Definition run_mailbox_call (c : mailbox_call) (m : cflow_mailbox_impl)
    : option (mailbox_answer * cflow_mailbox_impl) :=
  let handle := Some (mk_mailbox (Some m)) in
  match c with
  | CallSend e =>
      '(s, h, w) ← cflow_mailbox_try_send handle (Some e);
      m ← mailbox_impl h; Some (Answered s None w, m)
  | CallReceive a n =>
      '(s, h, e) ← cflow_mailbox_try_receive handle true true (Some a) n;
      m ← mailbox_impl h; Some (Answered s e zero_waker, m)
  | CallClose =>
      let '(s, h, w) := cflow_mailbox_close handle in
      m ← mailbox_impl h; Some (Answered s None w, m)
  | CallCancel =>
      let '(s, h, w) := cflow_mailbox_cancel handle in
      m ← mailbox_impl h; Some (Answered s None w, m)
  | CallArm w =>
      let '(b, i, w) := cflow_mailbox_wait_arm (Some m) w in
      m ← i; Some (Armed b w, m)
  | CallDisarm => m ← cflow_mailbox_wait_cancel (Some m); Some (Disarmed, m)
  end.

Fixpoint run_mailbox_calls (cs : list mailbox_call) (m : cflow_mailbox_impl)
    : option (list mailbox_answer * cflow_mailbox_impl) :=
  match cs with
  | [] => Some ([], m)
  | c :: cs =>
      '(a, m) ← run_mailbox_call c m;
      '(answers, m) ← run_mailbox_calls cs m;
      Some (a :: answers, m)
  end.

(** The caller's promise: the payload of a declared event has the bytes of its
    type. *)
Definition call_readable (schema : list cflow_event_type) (c : mailbox_call) : Prop :=
  match c with
  | CallSend e =>
      forall row payload, row ∈ schema -> et_id row = ev_id e -> ev_payload e = Some payload ->
        type_size (et_payload_type row) <= Z.of_nat (length payload)
  | _ => True
  end.

(** * Bytes *)

Lemma write_bytes_lookup buffer offset data buffer' i :
  write_bytes buffer offset data = Some buffer' ->
  length buffer' = length buffer /\
  buffer' !! i =
    if decide (offset <= i < offset + length data)%nat then data !! (i - offset)%nat
    else buffer !! i.
Proof.
  unfold write_bytes. case_if; [|done]. intros [= <-]. destruct_bools.
  split; [rewrite !length_app, length_take, length_drop; lia|].
  destruct (decide (i < offset)%nat) as [Hlt|Hge].
  - rewrite lookup_app_l by (rewrite length_take; lia). rewrite lookup_take_lt by done.
    by rewrite decide_False by lia.
  - rewrite lookup_app_r by (rewrite length_take; lia). rewrite length_take, Nat.min_l by lia.
    destruct (decide (i - offset < length data)%nat).
    + rewrite lookup_app_l by done. by rewrite decide_True by lia.
    + rewrite lookup_app_r, lookup_drop by lia. rewrite decide_False by lia. f_equal. lia.
Qed.

Lemma read_bytes_lookup buffer offset size data :
  read_bytes buffer offset size = Some data <->
  (offset + size <= length buffer)%nat /\ length data = size /\
  forall i, (i < size)%nat -> data !! i = buffer !! (offset + i)%nat.
Proof.
  unfold read_bytes. destruct (_ <=? _)%nat eqn:Hb; destruct_bools.
  - split.
    + intros [= <-]. split_and!; [done|rewrite length_take, length_drop; lia|].
      intros i Hi. by rewrite lookup_take_lt, lookup_drop.
    + intros (_ & Hlen & Hall). f_equal. apply list_eq. intros i.
      destruct (decide (i < size)%nat).
      * rewrite lookup_take_lt, lookup_drop by done. by rewrite Hall.
      * rewrite lookup_take_ge by lia. symmetry. apply lookup_ge_None. lia.
  - split; [done|]. intros (? & _). lia.
Qed.

Lemma read_bytes_some buffer offset size :
  (offset + size <= length buffer)%nat -> exists data,
    read_bytes buffer offset size = Some data /\ length data = size.
Proof.
  intros Hb. unfold read_bytes. rewrite (proj2 (Nat.leb_le _ _) Hb). eexists.
  split; [done|]. rewrite length_take, length_drop. lia.
Qed.

Lemma write_bytes_some buffer offset data :
  (offset + length data <= length buffer)%nat -> is_Some (write_bytes buffer offset data).
Proof. intros Hb. unfold write_bytes. rewrite (proj2 (Nat.leb_le _ _) Hb). eauto. Qed.

Lemma read_write_same buffer offset data buffer' :
  write_bytes buffer offset data = Some buffer' ->
  read_bytes buffer' offset (length data) = Some data.
Proof.
  intros Hw. apply read_bytes_lookup. split_and!; [|done|].
  - destruct (write_bytes_lookup _ _ _ _ 0 Hw) as [-> _]. unfold write_bytes in Hw.
    case_if. by destruct_bools.
  - intros i Hi. destruct (write_bytes_lookup _ _ _ _ (offset + i) Hw) as [_ ->].
    rewrite decide_True by lia. f_equal. lia.
Qed.

Lemma read_write_apart buffer offset data buffer' at' size :
  write_bytes buffer offset data = Some buffer' ->
  (at' + size <= offset)%nat \/ (offset + length data <= at')%nat ->
  read_bytes buffer' at' size = read_bytes buffer at' size.
Proof.
  intros Hw Hapart. apply option_eq. intros found. rewrite !read_bytes_lookup.
  destruct (write_bytes_lookup _ _ _ _ 0 Hw) as [-> _].
  assert (forall i, (i < size)%nat -> buffer' !! (at' + i)%nat = buffer !! (at' + i)%nat) as Hsame.
  { intros i Hi. destruct (write_bytes_lookup _ _ _ _ (at' + i) Hw) as [_ ->].
    by rewrite decide_False by lia. }
  split; intros (? & ? & Hall); (split_and!; [done|done|]); intros i Hi;
    rewrite (Hall i Hi); [|symmetry]; by apply Hsame.
Qed.

(** * The invariant *)

(** The ring index of the [k]-th pending event. *)
Definition ring_index (m : cflow_mailbox_impl) (k : nat) : nat :=
  if (mb_head m + k <? mb_capacity m)%nat then (mb_head m + k)%nat
  else (mb_head m + k - mb_capacity m)%nat.

(** The event a slot holds. *)
Definition event_at (m : cflow_mailbox_impl) (index : nat) : option received_event :=
  type_index ← mb_slots m !! index;
  row ← mb_schema m !! type_index;
  data ← read_bytes (mb_payloads m) (slot_offset m index)
           (Z.to_nat (type_size (et_payload_type row)));
  Some (mk_received_event (et_id row) (et_payload_type row) data).

(** A row the mailbox accepts, with room for its payload in a stride. *)
Definition row_fits (stride : Z) (row : cflow_event_type) : Prop :=
  et_id row <> 0 /\ is_Some (et_payload_type row) /\
  0 < type_size (et_payload_type row) <= stride /\ 0 < type_align (et_payload_type row).

Record mailbox_inv (m : cflow_mailbox_impl) : Prop := {
  mv_sorted : sorted_by et_id (mb_schema m);
  mv_ids : NoDup (et_id <$> mb_schema m);
  mv_rows : forall row, row ∈ mb_schema m -> row_fits (mb_payload_stride m) row;
  mv_slots : length (mb_slots m) = mb_capacity m;
  mv_payloads : length (mb_payloads m) =
    (mb_capacity m * Z.to_nat (mb_payload_stride m))%nat;
  mv_head : (mb_head m < mb_capacity m)%nat;
  mv_count : (mb_count m <= mb_peak_pending m <= mb_capacity m)%nat;
  mv_pending : forall k, (k < mb_count m)%nat -> is_Some (event_at m (ring_index m k));
  mv_cancelled : mb_terminal m = CFLOW_MAILBOX_TERMINAL_CANCELLED -> mb_count m = 0%nat;
  mv_waiter : is_Some (wk_wake (mb_waiter m)) ->
    mb_count m = 0%nat /\ mb_terminal m = CFLOW_MAILBOX_TERMINAL_OPEN;
  mv_ranges : 0 <= mb_accepted m <= UINT64_MAX /\ 0 <= mb_received m /\ 0 <= mb_cancelled m;
  mv_accounting : mb_accepted m < UINT64_MAX ->
    mb_accepted m = mb_received m + mb_cancelled m + Z.of_nat (mb_count m);
}.

(** The relation between the ring and the queue. *)
Record mailbox_rel (m : cflow_mailbox_impl) (f : fifo) : Prop := {
  rl_inv : mailbox_inv m;
  rl_schema : mb_schema m ≡ₚ ff_schema f;
  rl_capacity : mb_capacity m = ff_capacity f;
  rl_length : length (ff_queue f) = mb_count m;
  rl_queue : forall k e, ff_queue f !! k = Some e -> event_at m (ring_index m k) = Some e;
  rl_terminal : mb_terminal m = ff_terminal f;
  rl_waiter : mb_waiter m = ff_waiter f;
  rl_accepted : mb_accepted m = ff_accepted f;
  rl_received : mb_received m = ff_received f;
  rl_full : mb_rejected_full m = ff_rejected_full f;
  rl_closed : mb_rejected_closed m = ff_rejected_closed f;
  rl_rejected : mb_rejected_cancelled m = ff_rejected_cancelled f;
  rl_cancelled : mb_cancelled m = ff_cancelled f;
  rl_peak : mb_peak_pending m = ff_peak f;
}.

Lemma tail_is_ring m :
  mailbox_inv m -> tail_index m = ring_index m (mb_count m).
Proof.
  intros [_ _ _ _ _ Hh Hc _ _ _ _ _]. unfold tail_index, ring_index.
  destruct (_ <=? _)%nat eqn:H1, (_ <? _)%nat eqn:H2; destruct_bools; lia.
Qed.

Lemma ring_in_bounds m k :
  mailbox_inv m -> (k <= mb_capacity m)%nat -> (ring_index m k < mb_capacity m)%nat.
Proof.
  intros [_ _ _ _ _ Hh _ _ _ _ _ _] Hk. unfold ring_index.
  destruct (_ <? _)%nat eqn:H1; destruct_bools; lia.
Qed.

Lemma ring_injective m j k :
  mailbox_inv m -> (j < k)%nat -> (k < mb_capacity m)%nat -> ring_index m j <> ring_index m k.
Proof.
  intros [_ _ _ _ _ Hh _ _ _ _ _ _] Hj Hk. unfold ring_index.
  destruct (mb_head m + j <? _)%nat eqn:H1, (mb_head m + k <? _)%nat eqn:H2; destruct_bools; lia.
Qed.

(** A row found by its id is the declared one. *)
Lemma declared_row_spec m f id :
  mailbox_rel m f ->
  match cflow_mailbox_type_index m id with
  | Some (i, row) => declared_row (ff_schema f) id = Some row /\ mb_schema m !! i = Some row
  | None => declared_row (ff_schema f) id = None
  end.
Proof.
  intros Hr. pose proof (rl_inv _ _ Hr) as Hi. unfold cflow_mailbox_type_index, declared_row.
  assert (forall row, row ∈ ff_schema f <-> row ∈ mb_schema m) as Hin
    by (intros; by rewrite (rl_schema _ _ Hr)).
  destruct (list_find _ (ff_schema f)) as [[j row]|] eqn:Hfind; simpl.
  - apply list_find_Some in Hfind as (Hrow & Hid & _).
    apply list_elem_of_lookup_2, Hin in Hrow.
    destruct (mv_rows _ Hi row Hrow) as [Hnz _].
    rewrite (proj2 (Z.eqb_neq id 0)) by congruence.
    destruct (bsearch et_id (mb_schema m) id) as [[i row']|] eqn:Hb.
    + apply bsearch_sound in Hb as [Hrow' Hid']. split; [|done].
      f_equal. pose proof (mv_ids _ Hi) as Hnd.
      apply list_elem_of_lookup in Hrow as [k Hk].
      assert (k = i) as ->; [|congruence].
      apply (NoDup_lookup (et_id <$> mb_schema m) k i id Hnd).
      * by rewrite list_lookup_fmap, Hk, <- Hid.
      * by rewrite list_lookup_fmap, Hrow', <- Hid'.
    + exfalso. eapply (proj1 (bsearch_None et_id _ id (mv_sorted _ Hi)) Hb row Hrow Hid).
  - apply list_find_None in Hfind. destruct (id =? 0); [done|].
    destruct (bsearch et_id (mb_schema m) id) as [[i row]|] eqn:Hb; [|done].
    apply bsearch_sound in Hb as [Hrow Hid]. exfalso.
    rewrite Forall_forall in Hfind. apply (Hfind row); [|done].
    apply Hin. by eapply list_elem_of_lookup_2.
Qed.

(** * Every call keeps the relation *)

(** An operation that leaves the ring alone. *)
Lemma same_events m m' k :
  mb_schema m' = mb_schema m -> mb_slots m' = mb_slots m -> mb_payloads m' = mb_payloads m ->
  mb_payload_stride m' = mb_payload_stride m -> event_at m' k = event_at m k.
Proof. intros H1 H2 H3 H4. unfold event_at, slot_offset. by rewrite H1, H2, H3, H4. Qed.

Lemma send_events m tail type_index data payloads m' k :
  mailbox_inv m ->
  write_bytes (mb_payloads m) (slot_offset m tail) data = Some payloads ->
  (length data <= Z.to_nat (mb_payload_stride m))%nat ->
  mb_schema m' = mb_schema m -> mb_slots m' = <[tail := type_index]> (mb_slots m) ->
  mb_payloads m' = payloads -> mb_payload_stride m' = mb_payload_stride m ->
  k <> tail -> event_at m' k = event_at m k.
Proof.
  intros Hi Hw Hlen Hs Hsl Hp Hst Hk. unfold event_at, slot_offset.
  rewrite Hs, Hsl, Hp, Hst, list_lookup_insert_ne by done.
  destruct (mb_slots m !! k) as [ti|]; [|done]. cbn [mbind option_bind].
  destruct (mb_schema m !! ti) as [row|] eqn:Hrow; [|done]. cbn [mbind option_bind].
  destruct (mv_rows _ Hi row) as (_ & _ & Hsize & _); [by eapply list_elem_of_lookup_2|].
  erewrite read_write_apart; [done|exact Hw|].
  unfold slot_offset. destruct (decide (k < tail)%nat); [left|right]; nia.
Qed.

Lemma send_at_tail m tail type_index row data payloads m' :
  write_bytes (mb_payloads m) (slot_offset m tail) data = Some payloads ->
  (tail < length (mb_slots m))%nat -> mb_schema m !! type_index = Some row ->
  length data = Z.to_nat (type_size (et_payload_type row)) ->
  mb_schema m' = mb_schema m -> mb_slots m' = <[tail := type_index]> (mb_slots m) ->
  mb_payloads m' = payloads -> mb_payload_stride m' = mb_payload_stride m ->
  event_at m' tail = Some (mk_received_event (et_id row) (et_payload_type row) data).
Proof.
  intros Hw Ht Hrow Hlen Hs Hsl Hp Hst. unfold event_at, slot_offset.
  rewrite Hs, Hsl, Hp, Hst, list_lookup_insert_eq by done. cbn [mbind option_bind].
  rewrite Hrow. cbn [mbind option_bind]. rewrite <- Hlen.
  apply read_write_same in Hw. unfold slot_offset in Hw. by rewrite Hw.
Qed.

Lemma room_for_slot m i row :
  mailbox_inv m -> (i < mb_capacity m)%nat -> row ∈ mb_schema m ->
  (slot_offset m i + Z.to_nat (type_size (et_payload_type row)) <= length (mb_payloads m))%nat.
Proof.
  intros Hi Hlt Hrow. destruct (mv_rows _ Hi row Hrow) as (_ & _ & Hsize & _).
  rewrite (mv_payloads _ Hi). unfold slot_offset. nia.
Qed.

Lemma zero_waker_null : ~ is_Some (wk_wake zero_waker).
Proof. by intros [? ?]. Qed.

#[export] Hint Resolve zero_waker_null : salts.

Lemma reject_rel m f full closed rejected :
  mailbox_rel m f ->
  mailbox_rel
    (set_mb_counters (mb_accepted m) (mb_received m) full closed rejected (mb_cancelled m) m)
    (fifo_reject full closed rejected f).
Proof. intros [Hi ? ? ? ? ? ? ? ? ? ? ? ? ?]. split; try done. by destruct Hi. Qed.

(** A queue that does not grow leaves the peak. *)
Lemma peak_kept m f (queue : list received_event) :
  mailbox_rel m f -> (length queue <= length (ff_queue f))%nat ->
  mb_peak_pending m = Nat.max (ff_peak f) (length queue).
Proof.
  intros Hr Hq. pose proof (mv_count _ (rl_inv _ _ Hr)) as Hc. rewrite (rl_length _ _ Hr) in Hq.
  rewrite <- (rl_peak _ _ Hr). lia.
Qed.

(** The critical section of a send. *)
Lemma send_locked_rel m f type_index row payload :
  mailbox_rel m f -> mb_schema m !! type_index = Some row ->
  type_size (et_payload_type row) <= Z.of_nat (length payload) ->
  exists m' f' status waker,
    send_locked m type_index (Z.to_nat (type_size (et_payload_type row))) payload =
      Some (status, m', waker) /\
    fifo_admit row payload f = (status, f', waker) /\ mailbox_rel m' f'.
Proof.
  intros Hr Hrow Hlen. pose proof (rl_inv _ _ Hr) as Hi. unfold send_locked, fifo_admit.
  rewrite <- (rl_terminal _ _ Hr), (rl_length _ _ Hr), <- (rl_capacity _ _ Hr).
  destruct (mb_terminal m) eqn:Hterm.
  2, 3: rewrite <- (rl_full _ _ Hr), <- (rl_closed _ _ Hr), <- (rl_rejected _ _ Hr);
    eexists _, _, _, _; split_and!; [done|done|by apply reject_rel].
  destruct (mb_count m =? mb_capacity m)%nat eqn:Hfull; destruct_bools.
  { rewrite <- (rl_full _ _ Hr), <- (rl_closed _ _ Hr), <- (rl_rejected _ _ Hr).
    eexists _, _, _, _. split_and!; [done|done|by apply reject_rel]. }
  pose proof (mv_count _ Hi) as Hcount.
  assert (mb_count m < mb_capacity m)%nat as Hroom by lia.
  assert (row ∈ mb_schema m) as Hin by (by eapply list_elem_of_lookup_2).
  destruct (mv_rows _ Hi row Hin) as (_ & _ & Hsize & _).
  set (size := Z.to_nat (type_size (et_payload_type row))).
  rewrite (tail_is_ring m Hi). set (tail := ring_index m (mb_count m)).
  assert (tail < mb_capacity m)%nat as Htail by (apply ring_in_bounds; [done|lia]).
  unfold read_bytes at 1. rewrite (proj2 (Nat.leb_le _ _)) by (simpl; lia).
  cbn [mbind option_bind]. rewrite drop_0. set (data := take size payload).
  assert (length data = size) as Hdata by (unfold data; rewrite length_take; lia).
  destruct (write_bytes_some (mb_payloads m) (slot_offset m tail) data) as [payloads Hw].
  { rewrite Hdata. by apply room_for_slot. }
  rewrite Hw. cbn [mbind option_bind]. rewrite (mv_slots _ Hi).
  rewrite (proj2 (Nat.ltb_lt _ _) Htail).
  eexists _, _, _, _. split_and!; [done|by rewrite (rl_waiter _ _ Hr)|].
  match goal with |- mailbox_rel ?m' _ => set (sent := m') end.
  assert (event_at sent tail = Some (mk_received_event (et_id row) (et_payload_type row) data)) as Hat.
  { eapply (send_at_tail m); try done. by rewrite (mv_slots _ Hi). }
  assert (forall k, (k < mb_count m)%nat ->
    event_at sent (ring_index m k) = event_at m (ring_index m k)) as Hothers.
  { intros k Hk. eapply (send_events m tail type_index data payloads); try done; [lia|].
    apply ring_injective; [done|lia|done]. }
  destruct Hi as [J1 J2 J3 J4 J5 J6 J7 J8 J9 J10 J11 J12].
  split; simpl; try (by destruct Hr); try congruence.
  - split; simpl; try done.
    + by rewrite length_insert.
    + destruct (write_bytes_lookup _ _ _ _ 0 Hw) as [-> _]. done.
    + destruct (_ <? _)%nat eqn:Hp; destruct_bools; lia.
    + intros k Hk. change (ring_index sent k) with (ring_index m k).
      destruct (decide (k = mb_count m)) as [->|]; [by eexists|].
      rewrite Hothers by lia. apply J8. lia.
    + congruence.
    + split; [apply counter_increment_range|]; tauto.
    + intros Hsat. destruct (decide (mb_accepted m = UINT64_MAX)) as [Heq|].
      { unfold counter_increment in Hsat. rewrite Heq in Hsat. simpl in Hsat. lia. }
      rewrite counter_increment_small by lia. rewrite J12 by lia. lia.
  - rewrite length_app, (rl_length _ _ Hr). simpl. lia.
  - intros k e Hk. change (ring_index sent k) with (ring_index m k).
    destruct (decide (k < mb_count m)%nat) as [Hlt|Hge].
    + rewrite lookup_app_l in Hk by (rewrite (rl_length _ _ Hr); lia).
      rewrite Hothers by done. by apply (rl_queue _ _ Hr).
    + assert (k = mb_count m) as ->.
      { apply lookup_lt_Some in Hk. rewrite length_app, (rl_length _ _ Hr) in Hk. simpl in Hk. lia. }
      rewrite lookup_app_r, (rl_length _ _ Hr), Nat.sub_diag in Hk by (rewrite (rl_length _ _ Hr); lia).
      injection Hk as <-. exact Hat.
  - by rewrite (rl_accepted _ _ Hr).
  - rewrite <- (rl_peak _ _ Hr), length_app, (rl_length _ _ Hr). simpl.
    destruct (_ <? _)%nat eqn:Hp; destruct_bools; lia.
Qed.

(** Advancing the head drops the first pending slot. *)
Lemma ring_advance m k :
  mailbox_inv m -> (S k <= mb_capacity m)%nat ->
  let next := if (S (mb_head m) =? mb_capacity m)%nat then 0%nat else S (mb_head m) in
  (next < mb_capacity m)%nat /\
  (if (next + k <? mb_capacity m)%nat then (next + k)%nat
   else (next + k - mb_capacity m)%nat) = ring_index m (S k).
Proof.
  intros [_ _ _ _ _ Hh _ _ _ _ _ _] Hk. unfold ring_index. cbn zeta.
  destruct (S (mb_head m) =? mb_capacity m)%nat eqn:H0; destruct_bools.
  - split; [lia|]. rewrite (proj2 (Nat.ltb_lt _ _)), (proj2 (Nat.ltb_ge _ _)) by lia. lia.
  - split; [lia|]. replace (S (mb_head m) + k)%nat with (mb_head m + S k)%nat by lia. done.
Qed.

Lemma receive_locked_rel m f address capacity :
  mailbox_rel m f ->
  exists m' f' status event,
    receive_locked m address capacity = Some (status, m', event) /\
    fifo_receive address capacity f = (status, f', event) /\ mailbox_rel m' f'.
Proof.
  intros Hr. pose proof (rl_inv _ _ Hr) as Hi. unfold receive_locked, fifo_receive.
  destruct (mb_count m =? 0)%nat eqn:Hempty; destruct_bools.
  { destruct (ff_queue f) as [|e q] eqn:Hq.
    - rewrite (rl_terminal _ _ Hr). by eexists _, _, _, _.
    - pose proof (rl_length _ _ Hr) as Hl. rewrite Hq in Hl. simpl in Hl. lia. }
  destruct (ff_queue f) as [|e q] eqn:Hq.
  { pose proof (rl_length _ _ Hr) as Hl. rewrite Hq in Hl. simpl in Hl. lia. }
  pose proof (rl_queue _ _ Hr 0 e) as Hat. rewrite Hq in Hat. specialize (Hat eq_refl).
  assert (ring_index m 0 = mb_head m) as H0.
  { unfold ring_index. rewrite Nat.add_0_r, (proj2 (Nat.ltb_lt _ _)); [done|apply Hi]. }
  rewrite H0 in Hat. unfold event_at in Hat.
  destruct (mb_slots m !! mb_head m) as [ti|]; [|done]. cbn [mbind option_bind] in Hat |- *.
  destruct (mb_schema m !! ti) as [row|] eqn:Hrow; [|done]. cbn [mbind option_bind] in Hat |- *.
  destruct (mv_rows _ Hi row) as (_ & [type Htype] & Hsize & _); [by eapply list_elem_of_lookup_2|].
  rewrite Htype in Hat |- *. cbn [type_size type_align] in *.
  destruct (read_bytes _ _ _) as [data|]; [|done]. cbn [mbind option_bind] in Hat |- *.
  injection Hat as <-. cbn [re_type type_size type_align].
  destruct (capacity <? td_size type); [by eexists _, _, _, _|].
  destruct (negb _); [by eexists _, _, _, _|].
  eexists _, _, _, _. split_and!; [done|done|].
  pose proof (mv_count _ Hi) as Hcount.
  assert (forall m', mb_head m' = (if (S (mb_head m) =? mb_capacity m)%nat then 0%nat else S (mb_head m)) ->
    mb_capacity m' = mb_capacity m -> forall k, (S k <= mb_capacity m)%nat ->
    ring_index m' k = ring_index m (S k)) as Hring.
  { intros m' Hh Hc k Hk. unfold ring_index at 1. rewrite Hh, Hc.
    apply (proj2 (ring_advance m k Hi Hk)). }
  match goal with |- mailbox_rel ?m' _ => set (rest := m') end.
  assert (forall k, event_at rest k = event_at m k) as Hsame by (intros; by apply same_events).
  pose proof Hi as [J1 J2 J3 J4 J5 J6 J7 J8 J9 J10 J11 J12].
  split; simpl; try (by destruct Hr).
  - split; simpl; try done.
    + apply (ring_advance m 0 Hi). lia.
    + lia.
    + intros k Hk. rewrite Hsame, (Hring rest) by (done || lia). apply J8. lia.
    + intros Hc. apply J9 in Hc. lia.
    + intros Hw. destruct (J10 Hw). lia.
    + split_and!; [tauto..| |tauto]. destruct (decide (mb_received m = UINT64_MAX)) as [Hs|].
      * unfold counter_increment. rewrite Hs. done.
      * unfold counter_increment. rewrite (proj2 (Z.eqb_neq _ _)) by done.
        apply u64_range.
    + intros Hsat. rewrite counter_increment_small by lia. lia.
  - pose proof (rl_length _ _ Hr) as Hl. rewrite Hq in Hl. simpl in Hl. lia.
  - intros k e Hk. rewrite Hsame, (Hring rest); [|done|done|].
    + apply (rl_queue _ _ Hr). by rewrite Hq.
    + apply lookup_lt_Some in Hk. pose proof (rl_length _ _ Hr) as Hl. rewrite Hq in Hl.
      simpl in Hl. lia.
  - by rewrite (rl_received _ _ Hr).
  - apply (peak_kept m f); [done|]. rewrite Hq. simpl. lia.
Qed.

Lemma close_locked_rel m f :
  mailbox_rel m f ->
  exists m' f' status waker,
    close_locked m = (status, m', waker) /\ fifo_close f = (status, f', waker) /\
    mailbox_rel m' f'.
Proof.
  intros Hr. unfold close_locked, fifo_close. rewrite <- (rl_terminal _ _ Hr).
  destruct (mb_terminal m) eqn:Ht; [|by eexists _, _, _, _..].
  rewrite <- (rl_waiter _ _ Hr). eexists _, _, _, _. split_and!; [done|done|].
  pose proof (peak_kept m f (ff_queue f) Hr ltac:(lia)) as Hpeak.
  destruct Hr as [[] ? ? ? ? ? ? ? ? ? ? ? ? ?]. split; simpl; try done.
  by split; simpl.
Qed.

Lemma cancel_locked_rel m f :
  mailbox_rel m f ->
  exists m' f' status waker,
    cancel_locked m = (status, m', waker) /\ fifo_cancel f = (status, f', waker) /\
    mailbox_rel m' f'.
Proof.
  intros Hr. unfold cancel_locked, fifo_cancel. rewrite <- (rl_terminal _ _ Hr).
  assert (forall m', m' = set_mb_waiter zero_waker (set_mb_ring (mb_slots m) (mb_payloads m) 0 0
      (mb_peak_pending m) (set_mb_counters (mb_accepted m) (mb_received m) (mb_rejected_full m)
      (mb_rejected_closed m) (mb_rejected_cancelled m)
      (cflow_counter_add_size (mb_cancelled m) (mb_count m))
      (set_mb_terminal CFLOW_MAILBOX_TERMINAL_CANCELLED m))) ->
    mailbox_rel m' (fifo_update [] zero_waker (ff_accepted f) (ff_received f)
      (cflow_counter_add_size (ff_cancelled f) (length (ff_queue f)))
      CFLOW_MAILBOX_TERMINAL_CANCELLED f)) as Hdone.
  { intros m' ->. pose proof (peak_kept m f [] Hr ltac:(simpl; lia)) as Hpeak. rewrite (rl_length _ _ Hr), <- (rl_cancelled _ _ Hr).
    destruct Hr as [[J1 J2 J3 J4 J5 J6 J7 J8 J9 J10 J11 J12] ? ? ? ? ? ? ? ? ? ? ? ?].
    split; simpl; try done. split; simpl; try done; try lia.
    - split_and!; try tauto. unfold cflow_counter_add_size.
      case_if; [done|apply u64_range].
    - intros Hsat. unfold cflow_counter_add_size. specialize (J12 Hsat).
      rewrite (proj2 (Z.ltb_ge _ _)) by lia. unfold u64.
      rewrite Z.mod_small by (unfold UINT64_MAX in *; lia). lia. }
  rewrite <- (rl_waiter _ _ Hr).
  destruct (mb_terminal m) eqn:Ht; eexists _, _, _, _; split_and!; eauto.
Qed.

Lemma wait_arm_rel m f waker :
  mailbox_rel m f ->
  exists m' f' armed wake,
    cflow_mailbox_wait_arm (Some m) waker = (armed, Some m', wake) /\
    fifo_arm waker f = (armed, f', wake) /\ mailbox_rel m' f'.
Proof.
  intros Hr. unfold cflow_mailbox_wait_arm, wait_arm_locked, fifo_arm.
  destruct (is_null (wk_wake waker)) eqn:Hw; [by eexists _, _, _, _|].
  rewrite <- (rl_terminal _ _ Hr), <- (rl_waiter _ _ Hr).
  assert (ff_queue f = [] <-> mb_count m = 0%nat) as Hq.
  { rewrite <- (rl_length _ _ Hr). destruct (ff_queue f); simpl; split; congruence || lia. }
  destruct (mb_count m =? 0)%nat eqn:H0; destruct_bools; cbn [negb orb].
  2: { rewrite bool_decide_eq_false_2 by tauto. by eexists _, _, _, _. }
  destruct (bool_decide_reflect (mb_terminal m = CFLOW_MAILBOX_TERMINAL_OPEN)) as [Ht|Ht]; cbn [negb andb].
  2: { rewrite bool_decide_eq_false_2 by tauto. by eexists _, _, _, _. }
  rewrite bool_decide_eq_true_2 by tauto.
  destruct (is_null (wk_wake (mb_waiter m))) eqn:Hwm; cbn [negb]; [|by eexists _, _, _, _].
  eexists _, _, _, _. split_and!; [done|done|].
  apply Hq in H0 as Hnil. pose proof (peak_kept m f [] Hr ltac:(simpl; lia)) as Hpeak.
  destruct Hr as [[] ? ? ? Hqueue ? ? ? ? ? ? ? ? ?]. rewrite Hnil in *.
  by split; simpl.
Qed.

Lemma disarm_rel m f :
  mailbox_rel m f ->
  mailbox_rel (set_mb_waiter zero_waker m)
    (fifo_update (ff_queue f) zero_waker (ff_accepted f) (ff_received f) (ff_cancelled f)
       (ff_terminal f) f).
Proof.
  intros Hr. pose proof (peak_kept m f (ff_queue f) Hr ltac:(lia)) as Hpeak.
  destruct Hr as [[] ? ? ? ? ? ? ? ? ? ? ? ? ?]. split; simpl; try done.
  by split; simpl.
Qed.

Lemma run_mailbox_call_rel m f c :
  mailbox_rel m f -> call_readable (ff_schema f) c ->
  exists answer m',
    run_mailbox_call c m = Some (answer, m') /\
    fst (fifo_call c f) = answer /\ mailbox_rel m' (snd (fifo_call c f)).
Proof.
  intros Hr Hc. destruct c as [e|address capacity| | |waker|]; simpl.
  - unfold cflow_mailbox_try_send, cflow_mailbox_try_send_detach_internal, fifo_send. simpl.
    pose proof (declared_row_spec m f (ev_id e) Hr) as Hrow.
    destruct (ev_payload_type e) as [type|]; [|by eexists _, _].
    destruct (ev_payload e) as [payload|] eqn:Hp; [|by eexists _, _].
    destruct (cflow_mailbox_type_index m (ev_id e)) as [[i row]|]; [|rewrite Hrow; by eexists _, _].
    destruct Hrow as [Hdecl Hrow]. rewrite Hdecl.
    destruct (payload_type_accepted _ _) eqn:Hacc; cbn [negb]; [|by eexists _, _].
    destruct (send_locked_rel m f i row payload Hr Hrow) as (m' & f' & s & w & -> & -> & Hr').
    { unfold declared_row in Hdecl. apply fmap_Some in Hdecl as ([j row'] & Hfind & ->).
      apply list_find_Some in Hfind as (Hin & Hid & _). eapply Hc; [|done|done].
      by eapply list_elem_of_lookup_2. }
    cbn [mbind option_bind]. by eexists _, _.
  - destruct (receive_locked_rel m f address capacity Hr) as (m' & f' & s & e & He & -> & Hr').
    unfold cflow_mailbox_try_receive. simpl. rewrite He. by eexists _, _.
  - destruct (close_locked_rel m f Hr) as (m' & f' & s & w & He & -> & Hr').
    unfold cflow_mailbox_close. simpl. rewrite He. by eexists _, _.
  - destruct (cancel_locked_rel m f Hr) as (m' & f' & s & w & He & -> & Hr').
    unfold cflow_mailbox_cancel, cflow_mailbox_cancel_detach_internal. simpl. rewrite He.
    by eexists _, _.
  - destruct (wait_arm_rel m f waker Hr) as (m' & f' & b & w & He & -> & Hr').
    unfold cflow_mailbox_wait_arm in He. rewrite He. by eexists _, _.
  - eexists _, _. split_and!; [done|done|by apply disarm_rel].
Qed.

(** * Strides *)

Lemma alignment_valid_cases a :
  0 <= a -> alignment_valid a = true <-> a = 1 \/ a = 2 \/ a = 4 \/ a = 8 \/ a = 16.
Proof.
  intros Ha. split; [|by intros [->|[->|[->|[->| ->]]]]].
  unfold alignment_valid, alignof_capture_storage. intros H. destruct_bools.
  assert (a = 1 \/ a = 2 \/ a = 3 \/ a = 4 \/ a = 5 \/ a = 6 \/ a = 7 \/ a = 8 \/ a = 9 \/ a = 10 \/
    a = 11 \/ a = 12 \/ a = 13 \/ a = 14 \/ a = 15 \/ a = 16) as Hcase by lia.
  match goal with Hl : Z.land _ _ = 0 |- _ => rename Hl into Hland end.
  repeat (destruct Hcase as [->|Hcase]; [first [tauto|by vm_compute in Hland]|]). tauto.
Qed.

(** The stride is the least multiple of the alignment that holds the size. *)
Lemma align_size_spec size a :
  0 < size <= SIZE_MAX -> alignment_valid a = true -> 0 <= a ->
  match cflow_align_size size a with
  | Some r => size <= r < size + a /\ r mod a = 0 /\ r <= SIZE_MAX
  | None => SIZE_MAX - (a - 1) < size
  end.
Proof.
  intros Hs Hv Ha. unfold cflow_align_size. rewrite Hv, (proj2 (Z.eqb_neq size 0)) by lia. cbn [negb orb].
  assert (exists k, 0 <= k <= 4 /\ a = 2 ^ k) as (k & Hk & ->).
  { apply alignment_valid_cases in Hv as [->|[->|[->|[->| ->]]]]; [| | | | |done];
      [exists 0|exists 1|exists 2|exists 3|exists 4]; done. }
  assert (0 < 2 ^ k <= 2 ^ 4) as Hp by (split; [lia|apply Z.pow_le_mono_r; lia]).
  change (2 ^ 4) with 16 in Hp. unfold SIZE_MAX in *.
  assert (u64 (2 ^ k - 1) = 2 ^ k - 1) as -> by (apply Z.mod_small; lia).
  destruct (_ <? size) eqn:Hov; destruct_bools; [done|].
  assert (u64 (size + (2 ^ k - 1)) = size + (2 ^ k - 1)) as -> by (apply Z.mod_small; lia).
  rewrite mask_low_bits by lia. pose proof (round_up_bounds size (2 ^ k) ltac:(lia)) as [[Hr1 Hr2] Hm].
  split_and!; [done..|lia].
Qed.

(** * Initialisation *)

(** A schema the mailbox can hold: non-zero distinct ids, trivially copyable
    types no stricter than the capture storage. *)
Record schema_ok (rows : list cflow_event_type) : Prop := {
  sc_nonempty : rows <> [];
  sc_row : forall row, row ∈ rows ->
    et_id row <> 0 /\ payload_type_supported (et_payload_type row) = true;
  sc_distinct : NoDup (et_id <$> rows);
}.

(** [size] and [align] are [size_t] fields. *)
Definition type_in_range (type : option cmeta_type_desc) : Prop :=
  is_size (type_size type) /\ is_size (type_align type).

Lemma supported_inv type :
  type_in_range type -> payload_type_supported type = true ->
  is_Some type /\ 0 < type_size type <= SIZE_MAX /\ alignment_valid (type_align type) = true /\
  0 < type_align type <= 16.
Proof.
  unfold payload_type_supported. intros [Hs Ha] H. destruct_bools.
  assert (is_Some type) by (destruct type; [by eexists|done]).
  split_and!; [done|unfold is_size in Hs; lia..|done| |].
  all: unfold is_size in Ha; apply alignment_valid_cases in H1; lia.
Qed.

Lemma measure_rows_spec before rest ls la :
  (forall row, row ∈ rest -> type_in_range (et_payload_type row)) ->
  0 <= ls <= SIZE_MAX -> (la = 0 \/ alignment_valid la = true) -> 0 <= la ->
  match measure_rows before rest ls la with
  | Some (s, a) =>
      (forall row, row ∈ rest ->
         et_id row <> 0 /\ payload_type_supported (et_payload_type row) = true /\
         type_size (et_payload_type row) <= s /\ forall b, b ∈ before -> et_id b <> et_id row) /\
      NoDup (et_id <$> rest) /\ ls <= s <= SIZE_MAX /\
      (a = 0 \/ alignment_valid a = true) /\ la <= a /\ (rest <> [] -> 0 < a) /\
      (s = ls \/ exists row, row ∈ rest /\ type_size (et_payload_type row) = s)
  | None =>
      ~ ((forall row, row ∈ rest ->
            et_id row <> 0 /\ payload_type_supported (et_payload_type row) = true /\
            forall b, b ∈ before -> et_id b <> et_id row) /\ NoDup (et_id <$> rest))
  end.
Proof.
  revert before ls la. induction rest as [|row rest IH]; intros before ls la Hrange Hls Hla Ha; simpl.
  { split_and!; try done; try lia;
      first [by intros ? ?%elem_of_nil|apply NoDup_nil_2|by left]. }
  destruct (_ || _) eqn:Hbad.
  { intros [Hall _]. destruct (Hall row ltac:(by left)) as (Hnz & Hok & _).
    rewrite Hok in Hbad. destruct_bools. apply orb_true_iff in Hbad as [Hbad|Hbad]; destruct_bools; done. }
  destruct_bools. destruct (supported_inv (et_payload_type row)) as (_ & Hsz & Hal & Halr);
    [apply Hrange; by left|done|].
  destruct (existsb _ before) eqn:Hdup.
  { intros [Hall _]. apply existsb_exists in Hdup as (b & Hb & Heq). destruct_bools.
    destruct (Hall row ltac:(by left)) as (_ & _ & Hne). apply (Hne b); [by apply list_elem_of_In|done]. }
  assert (forall b, b ∈ before -> et_id b <> et_id row) as Hbefore.
  { intros b Hb Heq. apply not_true_iff_false in Hdup. apply Hdup, existsb_exists.
    exists b. split; [by apply list_elem_of_In|]. by apply Z.eqb_eq. }
  match goal with |- context [measure_rows _ rest ?s ?a] => set (s' := s); set (a' := a) end.
  assert (ls <= s' /\ type_size (et_payload_type row) <= s' <= SIZE_MAX) as Hs'
    by (unfold s'; case_if; destruct_bools; lia).
  assert (s' = ls \/ s' = type_size (et_payload_type row)) as Hs'' by (unfold s'; case_if; tauto).
  assert (0 < a' /\ la <= a' /\ (a' = 0 \/ alignment_valid a' = true)) as (Ha' & Hla' & Hav')
    by (unfold a'; case_if; destruct_bools; split_and!; [lia..|tauto|lia|lia|done]).
  specialize (IH (before ++ [row]) s' a'
    ltac:(intros; apply Hrange; by right) ltac:(lia) Hav' ltac:(lia)).
  destruct (measure_rows _ rest s' a') as [[s a]|].
  - destruct IH as (Hall & Hnd & Hs & Hav & Haa & _ & Hat). split_and!; [..|lia|lia|done|lia|lia|].
    + intros row' [->|Hin]%elem_of_cons; [split_and!; [done..|lia|done]|].
      destruct (Hall row' Hin) as (? & ? & ? & Hb). split_and!; [done..|].
      intros b Hb'. apply Hb, elem_of_app. by left.
    + apply NoDup_cons. split; [|done]. intros (row' & Heq & Hin)%list_elem_of_fmap.
      destruct (Hall row' Hin) as (_ & _ & _ & Hb). apply (Hb row); [|done].
      apply elem_of_app. right. by left.
    + destruct Hat as [->|(r & Hin & <-)]; [|right; exists r; split; [by right|done]].
      destruct Hs'' as [->| ->]; [by left|]. right. exists row. split; [by left|done].
  - intros [Hall [Hnin Hnd]%NoDup_cons]. apply IH. split; [|done].
    intros row' Hin. destruct (Hall row') as (? & ? & Hb); [by right|]. split_and!; [done..|].
    intros b [Hb'|Hb'%list_elem_of_singleton]%elem_of_app; [by apply Hb|]. subst b.
    intros Heq. apply Hnin. rewrite Heq. by apply list_elem_of_fmap_2.
Qed.

Lemma schema_measure_spec rows :
  (forall row, row ∈ rows -> type_in_range (et_payload_type row)) -> rows <> [] ->
  match measure_rows [] rows 0 0 with
  | Some (s, a) =>
      schema_ok rows /\ 0 < s <= SIZE_MAX /\ alignment_valid a = true /\ 0 < a <= 16 /\
      (forall row, row ∈ rows -> type_size (et_payload_type row) <= s) /\
      exists row, row ∈ rows /\ type_size (et_payload_type row) = s
  | None => ~ schema_ok rows
  end.
Proof.
  intros Hrange Hne. pose proof (measure_rows_spec [] rows 0 0 Hrange) as H.
  destruct (measure_rows [] rows 0 0) as [[s a]|].
  - destruct H as (Hall & Hnd & Hs & Ha & Hla & Hpos & Hat); [unfold SIZE_MAX; lia|by left|lia|].
    specialize (Hpos Hne).
    assert (alignment_valid a = true) as Hav by (destruct Ha; [lia|done]).
    assert (0 < s) as Hs0.
    { destruct rows as [|row rest]; [done|].
      destruct (Hall row ltac:(by left)) as (_ & Hok & Hle & _).
      destruct (supported_inv (et_payload_type row)); [apply Hrange; by left|done|lia]. }
    split_and!; [split; [done| |done]|lia|lia|done|lia| | |].
    + intros row Hin. by destruct (Hall row Hin) as (? & ? & _).
    + apply alignment_valid_cases in Hav; lia.
    + intros row Hin. by destruct (Hall row Hin) as (_ & _ & ? & _).
    + destruct Hat as [?|Hat]; [lia|done].
  - intros [_ Hrow Hnd]. apply H; [unfold SIZE_MAX; lia|by left|lia|]. split; [|done].
    intros row Hin. destruct (Hrow row Hin). split_and!; [done..|]. by intros b ?%elem_of_nil.
Qed.

Lemma size_multiply_spec a b :
  0 <= a -> 0 <= b ->
  match cflow_size_multiply a b with
  | Some r => r = a * b /\ 0 < a /\ 0 < b /\ a * b <= SIZE_MAX
  | None => a = 0 \/ b = 0 \/ SIZE_MAX < a * b
  end.
Proof.
  intros Ha Hb. unfold cflow_size_multiply.
  destruct (a =? 0) eqn:H1; destruct_bools; [by left|].
  destruct (b =? 0) eqn:H2; destruct_bools; [by right; left|]. cbn [orb].
  pose proof (Z.mul_div_le SIZE_MAX b ltac:(lia)). pose proof (Z.mul_succ_div_gt SIZE_MAX b ltac:(lia)).
  destruct (_ <? _) eqn:H3; destruct_bools; [right; right; nia|].
  assert (a * b <= SIZE_MAX) by nia.
  split_and!; [|lia..|done]. unfold u64, SIZE_MAX in *. apply Z.mod_small. nia.
Qed.

(** A mailbox without events. *)
Definition fifo_empty (schema : list cflow_event_type) (capacity : nat) : fifo :=
  mk_fifo schema capacity [] CFLOW_MAILBOX_TERMINAL_OPEN zero_waker 0 0 0 0 0 0 0.

(** The sizes the configuration must fit into [size_t], with the widest padding. *)
Definition mailbox_fits (schema : list cflow_event_type) (capacity : nat) : Prop :=
  Z.of_nat (length schema) * sizeof_event_type <= SIZE_MAX /\
  Z.of_nat capacity * sizeof_event_slot <= SIZE_MAX /\
  forall row, row ∈ schema ->
    Z.of_nat (S capacity) * (type_size (et_payload_type row) + alignof_capture_storage) <= SIZE_MAX.

Section Init.
Context `{Qsort} (malloc : mailbox_allocation -> bool) (fresh : nat -> list Z)
  (fresh_length : forall n, length (fresh n) = n).

(** The state the last line of [cflow_mailbox_init] publishes. *)
Lemma initial_rel rows capacity stride s payload_bytes :
  schema_ok rows -> (0 < capacity)%nat -> 0 < stride ->
  payload_bytes = Z.of_nat capacity * stride ->
  (forall row, row ∈ rows -> type_in_range (et_payload_type row)) ->
  (forall row, row ∈ rows -> type_size (et_payload_type row) <= stride) ->
  mailbox_rel
    (mk_mailbox_impl (qsort cflow_event_type_compare rows) (replicate capacity 0%nat)
       (fresh (Z.to_nat payload_bytes)) capacity stride s payload_bytes
       0 0 0 0 0 0 0 0 0 CFLOW_MAILBOX_TERMINAL_OPEN zero_waker)
    (fifo_empty rows capacity).
Proof.
  intros [_ Hrow Hnd] Hcap Hst -> Hrange Hsize.
  assert (qsort cflow_event_type_compare rows ≡ₚ rows) as Hp by apply qsort_permutation.
  split; simpl; try done. split; simpl; try done; try lia.
  - apply qsort_by.
  - by rewrite Hp.
  - intros row. rewrite Hp. intros Hin. destruct (Hrow row Hin) as [Hnz Hok].
    destruct (supported_inv _ (Hrange row Hin) Hok) as (Hty & Hs & _ & Ha).
    split_and!; [done|done|lia|by apply Hsize|lia].
  - by rewrite length_replicate.
  - rewrite fresh_length. nia.
Qed.
End Init.

(** * Sequences of calls *)

Lemma fifo_call_constant c f :
  ff_schema (snd (fifo_call c f)) = ff_schema f /\
  ff_capacity (snd (fifo_call c f)) = ff_capacity f.
Proof.
  destruct c as [e|address capacity| | |waker|]; simpl.
  - unfold fifo_send, fifo_admit.
    destruct (ev_payload_type e); [|done]. destruct (ev_payload e); [|done].
    destruct (declared_row (ff_schema f) (ev_id e)); [|done].
    destruct (payload_type_accepted _ _), (ff_terminal f); try done. by case_if.
  - unfold fifo_receive. destruct (ff_queue f); [done|]. by repeat case_if.
  - unfold fifo_close. by destruct (ff_terminal f).
  - unfold fifo_cancel. by destruct (ff_terminal f).
  - unfold fifo_arm. by repeat case_if.
  - done.
Qed.

Lemma fifo_calls_constant cs f :
  ff_schema (snd (fifo_calls cs f)) = ff_schema f /\
  ff_capacity (snd (fifo_calls cs f)) = ff_capacity f.
Proof.
  revert f. induction cs as [|c cs IH]; intros f; simpl; [done|].
  pose proof (fifo_call_constant c f) as [Hs Hc]. destruct (fifo_call c f) as [a f'].
  specialize (IH f'). destruct (fifo_calls cs f') as [answers f'']. simpl in *.
  split; etrans; try apply IH; done.
Qed.

Lemma run_mailbox_calls_rel cs m f :
  mailbox_rel m f -> Forall (call_readable (ff_schema f)) cs ->
  exists m', run_mailbox_calls cs m = Some (fst (fifo_calls cs f), m') /\
    mailbox_rel m' (snd (fifo_calls cs f)).
Proof.
  revert m f. induction cs as [|c cs IH]; intros m f Hr Hcs; simpl; [by exists m|].
  apply Forall_cons in Hcs as [Hc Hcs].
  destruct (run_mailbox_call_rel m f c Hr Hc) as (a & m1 & -> & Ha & Hr1). cbn [mbind option_bind].
  destruct (fifo_call_constant c f) as [Hs _]. destruct (fifo_call c f) as [a' f1]. cbn [fst snd] in *.
  subst a'. destruct (IH m1 f1 Hr1) as (m' & -> & Hr'); [by rewrite Hs|].
  cbn [mbind option_bind]. destruct (fifo_calls cs f1) as [answers f']. by exists m'.
Qed.

Lemma run_mailbox_call_layout c m a m' :
  run_mailbox_call c m = Some (a, m') ->
  mb_payload_stride m' = mb_payload_stride m /\ mb_reserved_payload_bytes m' = mb_reserved_payload_bytes m.
Proof.
  unfold run_mailbox_call, cflow_mailbox_try_send, cflow_mailbox_try_send_detach_internal,
    cflow_mailbox_try_receive, cflow_mailbox_close, cflow_mailbox_cancel,
    cflow_mailbox_cancel_detach_internal, cflow_mailbox_wait_arm, cflow_mailbox_wait_cancel, send_locked,
    receive_locked, close_locked, cancel_locked, wait_arm_locked, mailbox_impl. simpl.
  intros H. repeat (case_match; simplify_option_eq); done.
Qed.

Lemma run_mailbox_calls_layout cs m answers m' :
  run_mailbox_calls cs m = Some (answers, m') ->
  mb_payload_stride m' = mb_payload_stride m /\ mb_reserved_payload_bytes m' = mb_reserved_payload_bytes m.
Proof.
  revert m answers. induction cs as [|c cs IH]; intros m answers; simpl; [by intros [= _ ->]|].
  destruct (run_mailbox_call c m) as [[a m1]|] eqn:Hc; [|done]. cbn [mbind option_bind].
  destruct (run_mailbox_calls cs m1) as [[answers1 m2]|] eqn:Hcs; [|done]. cbn [mbind option_bind].
  intros [= _ <-]. apply run_mailbox_call_layout in Hc as [<- <-]. by eapply IH.
Qed.

(** A mailbox that was initialised with [schema] and called with [cs] ends in [m],
    having answered [answers]. *)
Definition mailbox_run `{Qsort} (malloc : mailbox_allocation -> bool) (fresh : nat -> list Z)
    (schema : list cflow_event_type) (capacity : nat) (cs : list mailbox_call)
    (answers : list mailbox_answer) (m : cflow_mailbox_impl) : Prop :=
  exists m0,
    cflow_mailbox_init malloc fresh (Some (mk_mailbox None)) (Some schema) (length schema) capacity =
      Some (CFLOW_MAILBOX_OK, Some (mk_mailbox (Some m0))) /\
    run_mailbox_calls cs m0 = Some (answers, m).

(** What the theorems ask of the allocator, the descriptors and the callers. *)
Record mailbox_setting (fresh : nat -> list Z) (schema : list cflow_event_type)
    (cs : list mailbox_call) : Prop := {
  se_fresh : forall n, length (fresh n) = n;
  se_range : forall row, row ∈ schema -> type_in_range (et_payload_type row);
  se_calls : Forall (call_readable schema) cs;
}.

(** What [cflow_mailbox_get_stats] of a mailbox that was initialised as [m0] and holds the
    queue [f] reports. *)
Definition fifo_stats (m0 : cflow_mailbox_impl) (f : fifo) : cflow_mailbox_stats :=
  {| st_schema_count := length (ff_schema f);
     st_capacity := ff_capacity f;
     st_pending := length (ff_queue f);
     st_peak_pending := ff_peak f;
     st_payload_stride := mb_payload_stride m0;
     st_reserved_payload_bytes := mb_reserved_payload_bytes m0;
     st_accepted := ff_accepted f;
     st_received := ff_received f;
     st_rejected_full := ff_rejected_full f;
     st_rejected_closed := ff_rejected_closed f;
     st_rejected_cancelled := ff_rejected_cancelled f;
     st_cancelled := ff_cancelled f |}.

Lemma stats_rel m0 m f :
  mailbox_rel m f -> mb_payload_stride m = mb_payload_stride m0 ->
  mb_reserved_payload_bytes m = mb_reserved_payload_bytes m0 -> stats_locked m = fifo_stats m0 f.
Proof.
  intros [_ Hs ? ? ? ? ? ? ? ? ? ? ? ?] ? ?. unfold stats_locked, fifo_stats. f_equal; try congruence.
  by apply Permutation_length.
Qed.

(** The waker a call hands to its caller for invocation. *)
Definition answer_wake (a : mailbox_answer) : cflow_waker :=
  match a with Answered _ _ w => w | Armed _ w => w | Disarmed => zero_waker end.

(** With a waiter asleep, a call leaves it asleep in an empty open queue or takes
    it when the queue stops being so. *)
Lemma fifo_call_wakes c f :
  ff_queue f = [] -> ff_terminal f = CFLOW_MAILBOX_TERMINAL_OPEN -> (0 < ff_capacity f)%nat ->
  is_Some (wk_wake (ff_waiter f)) -> c <> CallDisarm ->
  let (a, f') := fifo_call c f in
  (ff_waiter f' = ff_waiter f /\ answer_wake a = zero_waker /\
     ff_queue f' = [] /\ ff_terminal f' = CFLOW_MAILBOX_TERMINAL_OPEN) \/
  (ff_waiter f' = zero_waker /\ answer_wake a = ff_waiter f /\
     (ff_queue f' <> [] \/ ff_terminal f' <> CFLOW_MAILBOX_TERMINAL_OPEN)).
Proof.
  intros Hq Ht Hc Hw Hd. destruct c as [e|address capacity| | |waker|]; simpl.
  - unfold fifo_send. destruct (ev_payload_type e); [|by left]. destruct (ev_payload e); [|by left].
    destruct (declared_row _ _); [|by left]. destruct (payload_type_accepted _ _); [|by left].
    unfold fifo_admit. rewrite Ht, Hq.
    rewrite (proj2 (Nat.eqb_neq (length []) (ff_capacity f))) by (simpl; lia).
    right. split_and!; [done..|]. by left.
  - unfold fifo_receive. rewrite Hq, Ht. by left.
  - unfold fifo_close. rewrite Ht. right. split_and!; [done..|]. by right.
  - unfold fifo_cancel. rewrite Ht. right. split_and!; [done..|]. by right.
  - unfold fifo_arm. destruct (is_null (wk_wake waker)); [by left|].
    rewrite bool_decide_eq_true_2 by done. rewrite (proj2 (is_null_false _) Hw). by left.
  - done.
Qed.

Section Properties.
Context `{Qsort} (malloc : mailbox_allocation -> bool) (fresh : nat -> list Z).

Lemma init_spec schema capacity :
  (forall n, length (fresh n) = n) ->
  (forall row, row ∈ schema -> type_in_range (et_payload_type row)) ->
  exists status mailbox,
    cflow_mailbox_init malloc fresh (Some (mk_mailbox None)) (Some schema) (length schema)
      capacity = Some (status, Some mailbox) /\
    match status with
    | CFLOW_MAILBOX_OK =>
        schema_ok schema /\ exists m, mb_impl mailbox = Some m /\
          mailbox_rel m (fifo_empty schema capacity) /\
          mb_reserved_payload_bytes m = Z.of_nat capacity * mb_payload_stride m /\
          mb_reserved_payload_bytes m <= SIZE_MAX
    | CFLOW_MAILBOX_ALLOCATION_FAILED => mb_impl mailbox = None /\ exists a, malloc a = false
    | CFLOW_MAILBOX_INVALID_ARGUMENT =>
        mb_impl mailbox = None /\
        (~ schema_ok schema \/ capacity = 0%nat \/ ~ mailbox_fits schema capacity)
    | _ => False
    end.
Proof.
  intros Hfresh Hrange. unfold cflow_mailbox_init. cbn [mb_impl is_null negb orb].
  destruct schema as [|row0 rest] eqn:Hschema.
  { eexists _, _. split; [done|]. split; [done|]. left. by intros [? ? ?]. }
  rewrite <- Hschema in *. assert (schema <> []) as Hne by congruence.
  assert (0 < length schema)%nat as Hlen by (rewrite Hschema; simpl; lia).
  clear Hschema row0 rest. rewrite (proj2 (Nat.eqb_neq (length schema) 0)) by lia. cbn [orb].
  destruct (capacity =? 0)%nat eqn:Hcap; destruct_bools.
  { eexists _, _. split; [done|]. split; [done|]. right. by left. }
  pose proof (schema_measure_spec schema Hrange Hne) as Hmeasure.
  unfold cflow_schema_measure. rewrite Nat.ltb_irrefl, (proj2 (Nat.eqb_neq (length schema) 0)) by lia.
  rewrite firstn_all.
  pose proof (size_multiply_spec (Z.of_nat (length schema)) sizeof_event_type ltac:(lia) ltac:(done)) as H1.
  pose proof (size_multiply_spec (Z.of_nat capacity) sizeof_event_slot ltac:(lia) ltac:(done)) as H2.
  unfold sizeof_event_type, sizeof_event_slot in H1, H2.
  destruct (measure_rows [] schema 0 0) as [[s a]|] eqn:Hm.
  2: { destruct (cflow_size_multiply _ _); [destruct (cflow_size_multiply _ _)|];
         (eexists _, _; split; [done|]; split; [done|by left]). }
  destruct Hmeasure as (Hok & Hs & Hav & Ha & Hsizes & widest & Hwin & Hwidest).
  assert (mailbox_fits schema capacity ->
    Z.of_nat (length schema) * 16 <= SIZE_MAX /\ Z.of_nat capacity * 8 <= SIZE_MAX /\
    Z.of_nat (S capacity) * (s + 16) <= SIZE_MAX) as Hfit.
  { intros (F1 & F2 & F3). specialize (F3 widest Hwin). rewrite Hwidest in F3. done. }
  destruct (cflow_size_multiply (Z.of_nat (length schema)) _) as [b1|].
  2: { eexists _, _. split; [done|]. split; [done|].
       right. right. intros F%Hfit. lia. }
  destruct (cflow_size_multiply (Z.of_nat capacity) _) as [b2|].
  2: { eexists _, _. split; [done|]. split; [done|].
       right. right. intros F%Hfit. lia. }
  pose proof (align_size_spec s a Hs Hav ltac:(lia)) as Halign.
  destruct (cflow_align_size s a) as [stride|].
  2: { eexists _, _. split; [done|]. split; [done|].
       right. right. intros F%Hfit. lia. }
  pose proof (size_multiply_spec (Z.of_nat capacity) stride ltac:(lia) ltac:(lia)) as H3.
  destruct (cflow_size_multiply (Z.of_nat capacity) stride) as [b3|].
  2: { eexists _, _. split; [done|]. split; [done|].
       right. right. intros F%Hfit. nia. }
  destruct (_ || _) eqn:Hfail.
  { eexists _, _. split; [done|]. split; [done|].
    repeat (apply orb_true_iff in Hfail as [Hfail|Hfail]); destruct_bools; by eexists. }
  eexists _, _. split; [done|]. split; [done|]. eexists. split; [done|].
  destruct H3 as (-> & _ & _ & H3). split; [|by split].
  apply initial_rel; [done|done|lia|lia|done|done|]. intros row Hin. specialize (Hsizes row Hin). lia.
Qed.

Lemma mailbox_run_rel schema capacity cs answers m :
  mailbox_setting fresh schema cs -> mailbox_run malloc fresh schema capacity cs answers m ->
  let final := fifo_calls cs (fifo_empty schema capacity) in
  answers = fst final /\ mailbox_rel m (snd final).
Proof.
  intros [Hf Hr Hc] (m0 & Hinit & Hrun).
  destruct (init_spec schema capacity Hf Hr) as (status & mailbox & Hi & Hspec).
  rewrite Hi in Hinit. injection Hinit as -> ->. destruct Hspec as (_ & m1 & [= <-] & Hrel & _).
  destruct (run_mailbox_calls_rel cs m0 _ Hrel Hc) as (m' & Hrun' & Hrel').
  rewrite Hrun' in Hrun. by injection Hrun as <- <-.
Qed.

(** [cflow_mailbox_init] on an empty handle answers [OK] exactly for a
    non-empty schema of distinct non-zero ids and supported types, a positive
    capacity and sizes that fit; the ring then holds no event and reserves a
    whole number of strides.  Every other answer leaves the handle empty and is
    justified: [ALLOCATION_FAILED] only when an allocation failed,
    [INVALID_ARGUMENT] only when the configuration is bad. *)
Theorem mailbox_init_exact schema capacity :
  (forall n, length (fresh n) = n) ->
  (forall row, row ∈ schema -> type_in_range (et_payload_type row)) ->
  exists status mailbox,
    cflow_mailbox_init malloc fresh (Some (mk_mailbox None)) (Some schema) (length schema)
      capacity = Some (status, Some mailbox) /\
    match status with
    | CFLOW_MAILBOX_OK =>
        schema_ok schema /\ exists m, mb_impl mailbox = Some m /\
          mailbox_rel m (fifo_empty schema capacity) /\
          mb_reserved_payload_bytes m = Z.of_nat capacity * mb_payload_stride m /\
          mb_reserved_payload_bytes m <= SIZE_MAX
    | CFLOW_MAILBOX_ALLOCATION_FAILED => mb_impl mailbox = None /\ exists a, malloc a = false
    | CFLOW_MAILBOX_INVALID_ARGUMENT =>
        mb_impl mailbox = None /\
        (~ schema_ok schema \/ capacity = 0%nat \/ ~ mailbox_fits schema capacity)
    | _ => False
    end.
Proof. apply init_spec. Qed.

(** C11: Once initialised, a mailbox behaves under any sequence of calls, that is
    under any interleaving of producers, the consumer and the owner, as the
    bounded first-in first-out queue: no call leaves the arrays of the ring, every
    answer, received event with its bytes, and waker invoked is the queue's, and
    so are the phase and the statistics, among them the peak, which is the largest
    length the queue has had. *)
Theorem mailbox_refines_fifo schema capacity cs :
  mailbox_setting fresh schema cs ->
  forall m0,
  cflow_mailbox_init malloc fresh (Some (mk_mailbox None)) (Some schema) (length schema) capacity =
    Some (CFLOW_MAILBOX_OK, Some (mk_mailbox (Some m0))) ->
  let final := fifo_calls cs (fifo_empty schema capacity) in
  exists m, run_mailbox_calls cs m0 = Some (fst final, m) /\ mailbox_rel m (snd final) /\
    cflow_mailbox_get_stats (Some (mk_mailbox (Some m))) = Some (fifo_stats m0 (snd final)).
Proof.
  intros [Hf Hr Hc] m0 Hinit final.
  destruct (init_spec schema capacity Hf Hr) as (status & mailbox & Hi & Hspec).
  rewrite Hi in Hinit. injection Hinit as -> ->. destruct Hspec as (_ & m1 & [= <-] & Hrel & _).
  destruct (run_mailbox_calls_rel cs m0 _ Hrel Hc) as (m & Hrun & Hr'). exists m. split_and!; [done|done|].
  apply run_mailbox_calls_layout in Hrun as [? ?]. unfold cflow_mailbox_get_stats. simpl.
  by rewrite (stats_rel m0 m _ Hr').
Qed.

(** After any sequence of calls the statistics of a mailbox are exact: until
    the accepted counter saturates, every accepted event is received, cancelled
    or pending, and never two of these; the pending count is the length of the
    queue, within its peak and the capacity. *)
Theorem mailbox_accounting_exact schema capacity cs answers m :
  mailbox_setting fresh schema cs -> mailbox_run malloc fresh schema capacity cs answers m ->
  let stats := stats_locked m in
  let queue := ff_queue (snd (fifo_calls cs (fifo_empty schema capacity))) in
  st_pending stats = length queue /\
  (st_pending stats <= st_peak_pending stats <= capacity)%nat /\
  (st_accepted stats < UINT64_MAX ->
     st_accepted stats = st_received stats + st_cancelled stats + Z.of_nat (length queue)).
Proof.
  intros Hset Hrun. destruct (mailbox_run_rel _ _ _ _ _ Hset Hrun) as [_ Hrel].
  pose proof (rl_inv _ _ Hrel) as Hi. simpl. rewrite (rl_length _ _ Hrel).
  assert (mb_capacity m = capacity) as Hcap.
  { rewrite (rl_capacity _ _ Hrel). apply fifo_calls_constant. }
  rewrite <- Hcap. split_and!; [done|apply Hi..].
Qed.

(** C35: No wake-up of a mailbox is lost and none is repeated.  In every state a
    run reaches, an armed waiter sleeps on an empty open mailbox; the next call
    either leaves it so and invokes nobody, or makes the mailbox ready, takes the
    waiter and hands exactly it to be invoked. *)
Theorem mailbox_wakes_waiter schema capacity cs answers m c :
  mailbox_setting fresh schema cs -> mailbox_run malloc fresh schema capacity cs answers m ->
  is_Some (wk_wake (mb_waiter m)) -> c <> CallDisarm -> call_readable schema c ->
  (mb_count m = 0%nat /\ mb_terminal m = CFLOW_MAILBOX_TERMINAL_OPEN) /\
  exists a m', run_mailbox_call c m = Some (a, m') /\
    ((mb_waiter m' = mb_waiter m /\ answer_wake a = zero_waker /\
        mb_count m' = 0%nat /\ mb_terminal m' = CFLOW_MAILBOX_TERMINAL_OPEN) \/
     (mb_waiter m' = zero_waker /\ answer_wake a = mb_waiter m /\
        (mb_count m' <> 0%nat \/ mb_terminal m' <> CFLOW_MAILBOX_TERMINAL_OPEN))).
Proof.
  intros Hset Hrun Hw Hd Hc. destruct (mailbox_run_rel _ _ _ _ _ Hset Hrun) as [_ Hrel].
  pose proof (rl_inv _ _ Hrel) as Hi. pose proof (mv_waiter _ Hi Hw) as [Hcount Hopen].
  split; [done|]. set (f := snd _) in *.
  assert (ff_schema f = schema) as Hs by (unfold f; apply fifo_calls_constant).
  destruct (run_mailbox_call_rel m f c Hrel) as (a & m' & Hcall & Ha & Hrel'); [by rewrite Hs|].
  exists a, m'. split; [done|].
  assert (forall m f, mailbox_rel m f -> ff_queue f = [] <-> mb_count m = 0%nat) as Hq.
  { intros m1 f1 Hr1. rewrite <- (rl_length _ _ Hr1).
    destruct (ff_queue f1); simpl; split; congruence || lia. }
  pose proof (fifo_call_wakes c f) as Hwake. pose proof (mv_head _ Hi) as Hhead.
  rewrite <- (rl_waiter _ _ Hrel), <- (rl_terminal _ _ Hrel), <- (rl_capacity _ _ Hrel),
    (Hq m f Hrel) in Hwake.
  specialize (Hwake Hcount Hopen ltac:(lia) Hw Hd).
  destruct (fifo_call c f) as [a' f']. cbn [fst snd] in *. subst a'.
  by rewrite <- (rl_waiter _ _ Hrel'), <- (rl_terminal _ _ Hrel'), (Hq m' f' Hrel') in Hwake.
Qed.
End Properties.
