(* ===== verification/CFlowProgram.v ===== *)
(** Concurrent C functions as programs over atomic sections.

    A function that takes a lock, calls back and takes the lock again is a tree of
    atomic steps on a shared world; what it does between two steps depends only on
    what the steps returned to it.  [run] executes such a program alone;
    interleaving several is a matter of the worlds its steps are applied to.  A
    step that is undefined, an access outside an array or a null dereference, has
    no result. *)

From S2P Require Import Prelude.

Inductive prog (W A : Type) : Type :=
  | Ret (a : A)
  | Atomic {B : Type} (section : W -> option (B * W)) (rest : B -> prog W A).

Arguments Ret {W A} a.
Arguments Atomic {W A B} section rest.

Fixpoint prog_bind {W A B} (k : A -> prog W B) (p : prog W A) : prog W B :=
  match p with
  | Ret a => k a
  | Atomic section rest => Atomic section (fun b => prog_bind k (rest b))
  end.

#[export] Instance prog_ret {W} : MRet (prog W) := fun A a => Ret a.
#[export] Instance prog_mbind {W} : MBind (prog W) := fun A B => prog_bind.

(** One atomic step. *)
Definition step {W A} (section : W -> option (A * W)) : prog W A := Atomic section Ret.

(** A step that is defined on every world. *)
Definition update {W A} (section : W -> A * W) : prog W A :=
  step (fun w => Some (section w)).

Definition read {W A} (view : W -> A) : prog W A := update (fun w => (view w, w)).

(** The program that cannot go on. *)
Definition undefined {W A} : prog W A := Atomic (fun _ : W => None : option (A * W)) Ret.

(** The program alone. *)
Fixpoint run {W A} (p : prog W A) (w : W) : option (A * W) :=
  match p with
  | Ret a => Some (a, w)
  | Atomic section rest =>
      match section w with
      | None => None
      | Some (b, w) => run (rest b) w
      end
  end.

(** Its first [n] steps. *)
Fixpoint run_for {W A} (n : nat) (p : prog W A) (w : W) : option (prog W A * W) :=
  match n with
  | O => Some (p, w)
  | S n =>
      match p with
      | Ret _ => None
      | Atomic section rest =>
          match section w with
          | None => None
          | Some (b, w) => run_for n (rest b) w
          end
      end
  end.

Lemma run_bind {W A B} (p : prog W A) (k : A -> prog W B) w :
  run (p ≫= k) w = '(a, w) ← run p w; run (k a) w.
Proof.
  revert w. induction p as [a|C section rest IH]; intros w; [done|].
  change (run (Atomic section rest ≫= k) w) with
    (match section w with None => None | Some (b, w) => run (rest b ≫= k) w end).
  cbn [run]. destruct (section w) as [[b w']|]; [apply IH|done].
Qed.

(** * Threads

    A system runs one task at a time, as a serial executor does, next to any number
    of client threads, and any of them may take the next step. *)

Record system (W : Type) := mk_system {
  sy_task : option (prog W unit);
  sy_threads : list (prog W unit);
  sy_world : W;
}.

Arguments mk_system {W}.
Arguments sy_task {W}.
Arguments sy_threads {W}.
Arguments sy_world {W}.

Section Systems.
Context {W : Type} (start : W -> option W) (task : prog W unit) (client : prog W unit -> Prop).

(** [start] takes a posted task off the executor's queue; [client] says which
    programs a client may begin. *)
Inductive system_step : system W -> system W -> Prop :=
  | step_start threads w w' :
      start w = Some w' ->
      system_step (mk_system None threads w) (mk_system (Some task) threads w')
  | step_task {B} (section : W -> option (B * W)) rest threads w b w' :
      section w = Some (b, w') ->
      system_step (mk_system (Some (Atomic section rest)) threads w)
        (mk_system (Some (rest b)) threads w')
  | step_finish threads w :
      system_step (mk_system (Some (Ret tt)) threads w) (mk_system None threads w)
  | step_call p running threads w :
      client p -> system_step (mk_system running threads w) (mk_system running (threads ++ [p]) w)
  | step_thread {B} (section : W -> option (B * W)) rest running before after w b w' :
      section w = Some (b, w') ->
      system_step (mk_system running (before ++ Atomic section rest :: after) w)
        (mk_system running (before ++ rest b :: after) w').

(** A program run alone is a sequence of steps of the system. *)
Lemma task_runs threads (p : prog W unit) w w' :
  run p w = Some (tt, w') -> rtc system_step (mk_system (Some p) threads w) (mk_system (Some (Ret tt)) threads w').
Proof.
  revert w. induction p as [[]|B section rest IH]; intros w; simpl; [by intros [= ->]|].
  destruct (section w) as [[b w1]|] eqn:E; [|done]. intros Hrun.
  eapply rtc_l; [by eapply step_task|]. by apply IH.
Qed.

Lemma client_runs running before after (p : prog W unit) w w' :
  run p w = Some (tt, w') ->
  rtc system_step (mk_system running (before ++ p :: after) w)
    (mk_system running (before ++ Ret tt :: after) w').
Proof.
  revert w. induction p as [[]|B section rest IH]; intros w; simpl; [by intros [= ->]|].
  destruct (section w) as [[b w1]|] eqn:E; [|done]. intros Hrun.
  eapply rtc_l; [by eapply step_thread|]. by apply IH.
Qed.

(** A client call made and finished at once. *)
Lemma client_calls running threads (p : prog W unit) w w' :
  client p -> run p w = Some (tt, w') ->
  rtc system_step (mk_system running threads w) (mk_system running (threads ++ [Ret tt]) w').
Proof.
  intros Hc Hrun. eapply rtc_l; [by apply step_call|]. by apply client_runs.
Qed.

(** A posted task, started and finished at once. *)
Lemma task_starts threads w w1 w' :
  start w = Some w1 -> run task w1 = Some (tt, w') ->
  rtc system_step (mk_system None threads w) (mk_system None threads w').
Proof.
  intros Hs Hrun. eapply rtc_l; [by apply step_start|].
  etrans; [by apply task_runs|]. by apply rtc_once, step_finish.
Qed.

(** The first steps of the task. *)
Lemma task_advances n threads p w p' w' :
  run_for n p w = Some (p', w') ->
  rtc system_step (mk_system (Some p) threads w) (mk_system (Some p') threads w').
Proof.
  revert p w. induction n as [|n IH]; intros p w; simpl; [by intros [= -> ->]|].
  destruct p as [a|B section rest]; [done|].
  destruct (section w) as [[b w1]|] eqn:E; [|done]. intros Hrun.
  eapply rtc_l; [by eapply step_task|]. by apply IH.
Qed.

(** A program is not stuck if it ended or its next step is defined. *)
Definition not_stuck (p : prog W unit) (w : W) : Prop :=
  match p with Ret _ => True | Atomic section _ => is_Some (section w) end.

Definition system_not_stuck (s : system W) : Prop :=
  (forall p, sy_task s = Some p -> not_stuck p (sy_world s)) /\
  (forall p, p ∈ sy_threads s -> not_stuck p (sy_world s)).

(** Nothing runs: no task, and every client is back. *)
Definition quiescent (s : system W) : Prop :=
  sy_task s = None /\ Forall (fun p => p = Ret tt) (sy_threads s).
End Systems.

(** * Proving every interleaving

    The shared invariant is indexed by the role of the task, which only the task
    changes.  A thread also has knowledge of its own, which every step preserves,
    and may owe the world something: a step that leaves the world unclear makes
    its thread owe, unless someone else owed it already. *)
Record protocol (W R K : Type) := mk_protocol {
  pr_inv : R -> W -> Prop;
  pr_know : K -> W -> Prop;
  pr_mono : W -> W -> Prop;
  pr_clear : W -> Prop;
  pr_owes : K -> Prop;
}.

Arguments pr_inv {W R K}.
Arguments pr_know {W R K}.
Arguments pr_mono {W R K}.
Arguments pr_clear {W R K}.
Arguments pr_owes {W R K}.

Section Protocols.
Context {W R K : Type} (P : protocol W R K).

(** What a step may do to the others. *)
Definition guarantee (k : K) (w : W) (k' : K) (w' : W) : Prop :=
  pr_mono P w w' /\
  (pr_clear P w' \/ pr_owes P k' \/ ~ pr_clear P w /\ ~ pr_owes P k).

(** [own] is the role of the task, or nothing in a client. *)
Definition plays (own : option R) (r : R) : Prop :=
  match own with Some r' => r' = r | None => True end.

(** Each step of the program is defined wherever the invariant holds, restores
    it, and leaves the thread with knowledge it can go on from. *)
Fixpoint guarded {A} (own : option R) (p : prog W A) (k : K) (Q : option R -> A -> K -> Prop)
    : Prop :=
  match p with
  | Ret a => Q own a k
  | Atomic section rest =>
      forall r w, plays own r -> pr_inv P r w -> pr_know P k w ->
      exists b w' r' k',
        section w = Some (b, w') /\ pr_inv P r' w' /\ pr_know P k' w' /\
        guarantee k w k' w' /\ (own = None -> r' = r) /\
        guarded ((fun _ => r') <$> own) (rest b) k' Q
  end.

Lemma guarded_mono {A} own (p : prog W A) k (Q Q' : option R -> A -> K -> Prop) :
  guarded own p k Q -> (forall own a k, Q own a k -> Q' own a k) -> guarded own p k Q'.
Proof.
  revert own k. induction p as [a|C section rest IH]; intros own k Hp HQ; [by apply HQ|].
  intros r w Hr Hw Hk.
  destruct (Hp r w Hr Hw Hk) as (b & w' & r' & k' & Hs & Hw' & Hk' & Hg & Ho & Hrest).
  exists b, w', r', k'. split_and!; try done. by apply IH.
Qed.

Lemma guarded_bind {A B} own (p : prog W A) (f : A -> prog W B) k Q Q' :
  guarded own p k Q -> (forall own a k, Q own a k -> guarded own (f a) k Q') ->
  guarded own (p ≫= f) k Q'.
Proof.
  intros Hp Hf. revert own k Hp. induction p as [a|C section rest IH]; intros own k Hp.
  { by apply Hf. }
  intros r w Hr Hw Hk.
  destruct (Hp r w Hr Hw Hk) as (b & w' & r' & k' & Hs & Hw' & Hk' & Hg & Ho & Hrest).
  exists b, w', r', k'. split_and!; try done. by apply IH.
Qed.

(** A client stays one. *)
Lemma guarded_client {A} (p : prog W A) k Q :
  guarded None p k Q -> guarded None p k (fun own a k => own = None /\ Q own a k).
Proof.
  revert k. induction p as [a|C section rest IH]; intros k Hp; [by split|].
  intros r w Hr Hw Hk.
  destruct (Hp r w Hr Hw Hk) as (b & w' & r' & k' & Hs & Hw' & Hk' & Hg & Ho & Hrest).
  exists b, w', r', k'. split_and!; try done. by apply IH.
Qed.

Lemma guarded_client_bind {A B} (p : prog W A) (f : A -> prog W B) k Q Q' :
  guarded None p k Q -> (forall a k, Q None a k -> guarded None (f a) k Q') ->
  guarded None (p ≫= f) k Q'.
Proof.
  intros Hp Hf. eapply guarded_bind; [by apply guarded_client|].
  intros own a k' [-> HQ]. by apply Hf.
Qed.

(** A program that does not use the role may be run by the task. *)
Lemma guarded_frame {A} r (p : prog W A) k Q :
  guarded None p k (fun _ => Q) ->
  guarded (Some r) p k (fun own a k => own = Some r /\ Q a k).
Proof.
  revert k. induction p as [a|C section rest IH]; intros k Hp; [by split|].
  intros r0 w <- Hw Hk.
  destruct (Hp r w I Hw Hk) as (b & w' & r' & k' & Hs & Hw' & Hk' & Hg & Ho & Hrest).
  specialize (Ho eq_refl). subst r'. exists b, w', r, k'. split_and!; try done. by apply IH.
Qed.
End Protocols.

(** * Adequacy

    If the task and the clients are guarded, no reachable system is stuck, the
    invariant holds in all of them, and a quiescent one is clear. *)
Section Adequacy.
Context {W R K : Type} (P : protocol W R K).
Context (start : W -> option W) (task : prog W unit) (client : prog W unit -> Prop).
Context (idle : R) (fresh : K).

Record protocol_sound : Prop := {
  ps_stable : forall k w w', pr_mono P w w' -> pr_know P k w -> pr_know P k w';
  ps_fresh : forall w, pr_know P fresh w;
  ps_not_owing : ~ pr_owes P fresh;
  ps_start : forall w w', start w = Some w' -> pr_inv P idle w ->
    pr_inv P idle w' /\ pr_mono P w w' /\ (pr_clear P w -> pr_clear P w');
  ps_task : guarded P (Some idle) task fresh (fun own _ k => own = Some idle /\ ~ pr_owes P k);
  ps_client : forall p, client p -> guarded P None p fresh (fun _ _ k => ~ pr_owes P k);
}.

Definition thread_ok (p : prog W unit) (k : K) : Prop :=
  guarded P None p k (fun _ _ k => ~ pr_owes P k).

Definition task_ok (running : option (prog W unit)) (r : R) (k : K) : Prop :=
  match running with
  | None => r = idle /\ ~ pr_owes P k
  | Some p => guarded P (Some r) p k (fun own _ k => own = Some idle /\ ~ pr_owes P k)
  end.

Definition system_ok (s : system W) : Prop :=
  exists r k ks,
    pr_inv P r (sy_world s) /\ task_ok (sy_task s) r k /\ Forall2 thread_ok (sy_threads s) ks /\
    (forall k', k' ∈ k :: ks -> pr_know P k' (sy_world s)) /\
    (pr_clear P (sy_world s) \/ exists k', k' ∈ k :: ks /\ pr_owes P k').

Lemma debts_step before k k' after w w' :
  guarantee P k w k' w' ->
  (pr_clear P w \/ exists x, x ∈ before ++ k :: after /\ pr_owes P x) ->
  pr_clear P w' \/ exists x, x ∈ before ++ k' :: after /\ pr_owes P x.
Proof.
  intros [_ [Hc|[Ho|[Hnc Hno]]]] Hd; [by left|right; exists k'; set_solver|].
  destruct Hd as [?|(x & Hx & Ho)]; [done|]. right. exists x. split; [|done].
  assert (x <> k) by congruence. set_solver.
Qed.

Lemma knowledge_step before k k' after w w' :
  protocol_sound -> pr_mono P w w' -> pr_know P k' w' ->
  (forall x, x ∈ before ++ k :: after -> pr_know P x w) ->
  forall x, x ∈ before ++ k' :: after -> pr_know P x w'.
Proof.
  intros Hp Hm Hk' Hall x [Hx|[->|Hx]%elem_of_cons]%elem_of_app; [|done|];
    eapply (ps_stable Hp); try done; apply Hall; set_solver.
Qed.

Lemma system_ok_step s s' :
  protocol_sound -> (forall w, pr_mono P w w) ->
  system_step start task client s s' -> system_ok s ->
  system_ok s' /\ pr_mono P (sy_world s) (sy_world s').
Proof.
  intros Hp Hrefl Hstep (r & k & ks & Hinv & Htask & Hthreads & Hknow & Hdebt).
  destruct Hstep as [threads w w' Hs|B section rest threads w b w' Hs|threads w
    |p running threads w Hc|B section rest running before after w b w' Hs]; cbn [sy_world sy_task sy_threads] in *.
  - destruct Htask as [-> Hno]. destruct (ps_start Hp _ _ Hs Hinv) as (Hinv' & Hm & Hcl).
    split; [|done]. exists idle, fresh, ks. split_and!; [done|apply (ps_task Hp)|done| |].
    + apply (knowledge_step [] k fresh ks w); [done..|by apply (ps_fresh Hp)|done].
    + destruct Hdebt as [Hcl'|(x & Hx & Ho)]; [left; by apply Hcl|]. right.
      exists x. split; [|done]. assert (x <> k) by congruence. set_solver.
  - destruct (Htask r w eq_refl Hinv) as (b' & w2 & r' & k' & Hs' & Hinv' & Hk' & Hg & _ & Hrest).
    { apply Hknow. by left. }
    rewrite Hs in Hs'. injection Hs' as <- <-. split; [|apply Hg].
    exists r', k', ks. split_and!; [done..| |].
    + apply (knowledge_step [] k k' ks w); [done|apply Hg|done..].
    + by apply (debts_step [] k k' ks w).
  - destruct Htask as [[= ->] Hno]. split; [|done]. exists idle, k, ks. by split_and!.
  - split; [|done]. exists r, k, (ks ++ [fresh]). split_and!; [done|done| | |].
    + apply Forall2_app; [done|]. constructor; [|done]. by apply (ps_client Hp).
    + intros x Hx. assert (x ∈ k :: ks \/ x = fresh) as [?| ->] by set_solver;
        [by apply Hknow|by apply (ps_fresh Hp)].
    + destruct Hdebt as [?|(x & Hx & Ho)]; [by left|right]. exists x. split; [set_solver|done].
  - apply Forall2_app_inv_l in Hthreads as (kb & kas & Hb & Ha & ->).
    apply Forall2_cons_inv_l in Ha as (kc & ka & Hc & Ha & ->).
    destruct (Hc r w I Hinv) as (b' & w2 & r' & k' & Hs' & Hinv' & Hk' & Hg & Ho & Hrest).
    { apply Hknow. set_solver. }
    specialize (Ho eq_refl). subst r'. rewrite Hs in Hs'. injection Hs' as <- <-.
    split; [|apply Hg]. exists r, k, (kb ++ k' :: ka). split_and!; [done|done| | |].
    + apply Forall2_app; [done|]. by constructor.
    + apply (knowledge_step (k :: kb) kc k' ka w); [done|apply Hg|done..].
    + by apply (debts_step (k :: kb) kc k' ka w).
Qed.

Lemma system_ok_steps s s' :
  protocol_sound -> PreOrder (pr_mono P) ->
  rtc (system_step start task client) s s' -> system_ok s ->
  system_ok s' /\ pr_mono P (sy_world s) (sy_world s').
Proof.
  intros Hp Hpre Hsteps. induction Hsteps as [s|s1 s2 s3 Hstep _ IH]; intros Hok; [done|].
  destruct (system_ok_step s1 s2 Hp) as [Hok2 Hm]; [done..|].
  destruct (IH Hok2) as [Hok3 Hm']. split; [done|by etrans].
Qed.

Lemma system_ok_not_stuck s : system_ok s -> system_not_stuck s.
Proof.
  intros (r & k & ks & Hinv & Htask & Hthreads & Hknow & _). split.
  - intros p Hp. rewrite Hp in Htask. destruct p as [|B section rest]; [done|].
    destruct (Htask r (sy_world s) eq_refl Hinv) as (b & w' & _ & _ & Hs & _); [apply Hknow; by left|].
    by eexists.
  - intros p (i & Hi)%list_elem_of_lookup.
    destruct (Forall2_lookup_l _ _ _ _ _ Hthreads Hi) as (kc & Hk & Hp).
    destruct p as [|B section rest]; [done|].
    destruct (Hp r (sy_world s) I Hinv) as (b & w' & _ & _ & Hs & _); [|by eexists].
    apply Hknow. right. by eapply list_elem_of_lookup_2.
Qed.

Lemma system_ok_quiescent s :
  system_ok s -> quiescent s -> pr_inv P idle (sy_world s) /\ pr_clear P (sy_world s).
Proof.
  intros (r & k & ks & Hinv & Htask & Hthreads & _ & Hdebt) [Hnone Hends].
  rewrite Hnone in Htask. destruct Htask as [-> Hno]. split; [done|].
  destruct Hdebt as [?|(x & [->|Hx]%elem_of_cons & Ho)]; [done|done|].
  apply list_elem_of_lookup in Hx as (i & Hi).
  destruct (Forall2_lookup_r _ _ _ _ _ Hthreads Hi) as (p & Hp & Hok).
  rewrite Forall_forall in Hends. specialize (Hends p ltac:(by eapply list_elem_of_lookup_2)).
  subst p. done.
Qed.

(** A system in which nothing runs yet. *)
Lemma system_ok_initial w :
  protocol_sound -> pr_inv P idle w -> pr_clear P w -> system_ok (mk_system None [] w).
Proof.
  intros Hp Hinv Hcl. exists idle, fresh, []. split_and!; [done| |done| |by left].
  - split; [done|apply (ps_not_owing Hp)].
  - intros k' ->%list_elem_of_singleton. by apply (ps_fresh Hp).
Qed.
End Adequacy.
