(* ===== verification/CFlowInstanceData.v ===== *)
(** The data of a machine instance (cflow/include/cflow/machine_instance.h, the
    types at the top of cflow/src/machine_instance.c).

    The fields of [cflow_machine_instance_impl] that never change after
    initialisation are the record [instance_binding]; the others, which the instance
    lock protects or the worker owns, are [cflow_machine_instance_impl] here.  The
    mailbox has a lock of its own and is a separate part of the world. *)

From S2P Require Import Prelude CMetaType CFlowSupport CFlowMachine CFlowMailbox CFlowProgram.

(** * Enumerations *)

Inductive cflow_machine_ready_kind :=
  | CFLOW_MACHINE_READY_NONE
  | CFLOW_MACHINE_READY_VALUE
  | CFLOW_MACHINE_READY_VALUE_AND_DONE
  | CFLOW_MACHINE_READY_DONE
  | CFLOW_MACHINE_READY_ERROR.

Inductive cflow_machine_control_lifecycle :=
  | CFLOW_MACHINE_CONTROL_OPEN
  | CFLOW_MACHINE_CONTROL_CLOSE_REQUESTED
  | CFLOW_MACHINE_CONTROL_CANCEL_REQUESTED
  | CFLOW_MACHINE_CONTROL_TERMINAL.

Inductive cflow_machine_worker_phase :=
  | CFLOW_MACHINE_WORKER_IDLE
  | CFLOW_MACHINE_WORKER_SCHEDULED
  | CFLOW_MACHINE_WORKER_EXECUTING
  | CFLOW_MACHINE_WORKER_COMMITTING.

Inductive cflow_machine_commit_decision :=
  | CFLOW_MACHINE_COMMIT_ALLOWED
  | CFLOW_MACHINE_COMMIT_CANCELLED
  | CFLOW_MACHINE_COMMIT_INVALID.

Inductive cflow_machine_instance_status :=
  | CFLOW_MACHINE_INSTANCE_OK
  | CFLOW_MACHINE_INSTANCE_INVALID_ARGUMENT
  | CFLOW_MACHINE_INSTANCE_INVALID_EXECUTOR
  | CFLOW_MACHINE_INSTANCE_BINDING_MISMATCH
  | CFLOW_MACHINE_INSTANCE_UNSUPPORTED_TYPE
  | CFLOW_MACHINE_INSTANCE_TYPE_MISMATCH
  | CFLOW_MACHINE_INSTANCE_ALLOCATION_FAILED.

(** cflow/admission.h *)
Inductive cflow_admission_status :=
  | CFLOW_ADMISSION_ACCEPTED
  | CFLOW_ADMISSION_INVALID_ARGUMENT
  | CFLOW_ADMISSION_FULL
  | CFLOW_ADMISSION_CLOSED
  | CFLOW_ADMISSION_ALLOCATION_FAILED.

(** cflow/reactive.h *)
Inductive cflow_step_kind :=
  | CFLOW_STEP_VALUE
  | CFLOW_STEP_VALUE_AND_DONE
  | CFLOW_STEP_WAIT
  | CFLOW_STEP_DONE
  | CFLOW_STEP_ERROR.

Inductive cflow_publisher_terminal :=
  | CFLOW_PUBLISHER_OPEN
  | CFLOW_PUBLISHER_DONE
  | CFLOW_PUBLISHER_ERROR.

#[export] Instance cflow_machine_ready_kind_eq_dec : EqDecision cflow_machine_ready_kind.
Proof. solve_decision. Defined.

#[export] Instance cflow_machine_control_lifecycle_eq_dec :
  EqDecision cflow_machine_control_lifecycle.
Proof. solve_decision. Defined.

#[export] Instance cflow_machine_worker_phase_eq_dec : EqDecision cflow_machine_worker_phase.
Proof. solve_decision. Defined.

#[export] Instance cflow_machine_instance_status_eq_dec : EqDecision cflow_machine_instance_status.
Proof. solve_decision. Defined.

#[export] Instance cflow_admission_status_eq_dec : EqDecision cflow_admission_status.
Proof. solve_decision. Defined.

(** What [cflow_machine_instance_get_stats] reports. *)
Record cflow_machine_instance_stats := mk_instance_stats {
  ist_accepted : Z;
  ist_completed : Z;
  ist_failed : Z;
  ist_cancelled_events : Z;
  ist_emitted_values : Z;
  ist_emitted_events : Z;
  ist_pending : nat;
  ist_in_flight : Z;
  ist_current_state : Z;
  ist_closed : bool;
  ist_cancelled : bool;
  ist_done : bool;
  ist_errored : bool;
}.

(** * Bindings *)

(** A guard or action binding: id, function and user pointer. *)
Record cflow_machine_guard_binding := mk_guard_binding {
  gb_id : Z;
  gb_fn : option addr;
  gb_user : addr;
}.

Record cflow_machine_action_binding := mk_action_binding {
  ab_id : Z;
  ab_fn : option addr;
  ab_user : addr;
}.

(** What initialisation fixes.  [ib_address] identifies the instance as the user
    pointer of its mailbox waker, [ib_event_address] is where its event buffer is,
    and the two flags say whether the internal hooks are set. *)
Record instance_binding := mk_instance_binding {
  ib_address : addr;
  ib_machine : cflow_machine;
  ib_guards : list cflow_machine_guard_binding;
  ib_actions : list cflow_machine_action_binding;
  ib_output_type : option cmeta_type_desc;
  ib_mailbox_initialized : bool;
  ib_state_capacity : Z;
  ib_event_capacity : Z;
  ib_observation_capacity : Z;
  ib_event_address : addr;
  ib_commit_hook : bool;
  ib_boundary_hook : bool;
}.

(** * The mutable fields *)

(** The flag [error_owned] only tells [free] what to do and is left out. *)
Record cflow_machine_instance_impl := mk_instance_impl {
  in_state : cflow_machine_state;
  in_state_value : list Z;
  in_target_value : list Z;
  in_event_value : list Z;
  in_observation_value : list Z;
  in_error : option string;
  in_completed : Z;
  in_failed : Z;
  in_cancelled_in_flight : Z;
  in_emitted_values : Z;
  in_emitted_events : Z;
  in_in_flight : Z;
  in_closed : bool;
  in_cancelled : bool;
  in_done : bool;
  in_adapter_attached : bool;
  in_rerun : bool;
  in_mailbox_armed : bool;
  in_lifecycle : cflow_machine_control_lifecycle;
  in_worker_phase : cflow_machine_worker_phase;
  in_downstream_waiter : cflow_waker;
  in_terminal_waiter : cflow_waker;
  in_ready : cflow_machine_ready_kind;
}.

(** ** Field updates *)

Definition set_in_state (state_ : cflow_machine_state) (i : cflow_machine_instance_impl)
    : cflow_machine_instance_impl :=
  mk_instance_impl
    state_ (in_state_value i) (in_target_value i) (in_event_value i) (in_observation_value i)
    (in_error i) (in_completed i) (in_failed i) (in_cancelled_in_flight i)
    (in_emitted_values i) (in_emitted_events i) (in_in_flight i) (in_closed i) (in_cancelled i)
    (in_done i) (in_adapter_attached i) (in_rerun i) (in_mailbox_armed i) (in_lifecycle i)
    (in_worker_phase i) (in_downstream_waiter i) (in_terminal_waiter i) (in_ready i).

Definition set_in_state_value (state_value_ : list Z) (i : cflow_machine_instance_impl)
    : cflow_machine_instance_impl :=
  mk_instance_impl
    (in_state i) state_value_ (in_target_value i) (in_event_value i) (in_observation_value i)
    (in_error i) (in_completed i) (in_failed i) (in_cancelled_in_flight i)
    (in_emitted_values i) (in_emitted_events i) (in_in_flight i) (in_closed i) (in_cancelled i)
    (in_done i) (in_adapter_attached i) (in_rerun i) (in_mailbox_armed i) (in_lifecycle i)
    (in_worker_phase i) (in_downstream_waiter i) (in_terminal_waiter i) (in_ready i).

Definition set_in_target_value (target_value_ : list Z) (i : cflow_machine_instance_impl)
    : cflow_machine_instance_impl :=
  mk_instance_impl
    (in_state i) (in_state_value i) target_value_ (in_event_value i) (in_observation_value i)
    (in_error i) (in_completed i) (in_failed i) (in_cancelled_in_flight i)
    (in_emitted_values i) (in_emitted_events i) (in_in_flight i) (in_closed i) (in_cancelled i)
    (in_done i) (in_adapter_attached i) (in_rerun i) (in_mailbox_armed i) (in_lifecycle i)
    (in_worker_phase i) (in_downstream_waiter i) (in_terminal_waiter i) (in_ready i).

Definition set_in_event_value (event_value_ : list Z) (i : cflow_machine_instance_impl)
    : cflow_machine_instance_impl :=
  mk_instance_impl
    (in_state i) (in_state_value i) (in_target_value i) event_value_ (in_observation_value i)
    (in_error i) (in_completed i) (in_failed i) (in_cancelled_in_flight i)
    (in_emitted_values i) (in_emitted_events i) (in_in_flight i) (in_closed i) (in_cancelled i)
    (in_done i) (in_adapter_attached i) (in_rerun i) (in_mailbox_armed i) (in_lifecycle i)
    (in_worker_phase i) (in_downstream_waiter i) (in_terminal_waiter i) (in_ready i).

Definition set_in_observation_value (observation_value_ : list Z) (i : cflow_machine_instance_impl)
    : cflow_machine_instance_impl :=
  mk_instance_impl
    (in_state i) (in_state_value i) (in_target_value i) (in_event_value i) observation_value_
    (in_error i) (in_completed i) (in_failed i) (in_cancelled_in_flight i)
    (in_emitted_values i) (in_emitted_events i) (in_in_flight i) (in_closed i) (in_cancelled i)
    (in_done i) (in_adapter_attached i) (in_rerun i) (in_mailbox_armed i) (in_lifecycle i)
    (in_worker_phase i) (in_downstream_waiter i) (in_terminal_waiter i) (in_ready i).

Definition set_in_error (error_ : option string) (i : cflow_machine_instance_impl)
    : cflow_machine_instance_impl :=
  mk_instance_impl
    (in_state i) (in_state_value i) (in_target_value i) (in_event_value i)
    (in_observation_value i) error_ (in_completed i) (in_failed i) (in_cancelled_in_flight i)
    (in_emitted_values i) (in_emitted_events i) (in_in_flight i) (in_closed i) (in_cancelled i)
    (in_done i) (in_adapter_attached i) (in_rerun i) (in_mailbox_armed i) (in_lifecycle i)
    (in_worker_phase i) (in_downstream_waiter i) (in_terminal_waiter i) (in_ready i).

Definition set_in_completed (completed_ : Z) (i : cflow_machine_instance_impl)
    : cflow_machine_instance_impl :=
  mk_instance_impl
    (in_state i) (in_state_value i) (in_target_value i) (in_event_value i)
    (in_observation_value i) (in_error i) completed_ (in_failed i) (in_cancelled_in_flight i)
    (in_emitted_values i) (in_emitted_events i) (in_in_flight i) (in_closed i) (in_cancelled i)
    (in_done i) (in_adapter_attached i) (in_rerun i) (in_mailbox_armed i) (in_lifecycle i)
    (in_worker_phase i) (in_downstream_waiter i) (in_terminal_waiter i) (in_ready i).

Definition set_in_failed (failed_ : Z) (i : cflow_machine_instance_impl)
    : cflow_machine_instance_impl :=
  mk_instance_impl
    (in_state i) (in_state_value i) (in_target_value i) (in_event_value i)
    (in_observation_value i) (in_error i) (in_completed i) failed_ (in_cancelled_in_flight i)
    (in_emitted_values i) (in_emitted_events i) (in_in_flight i) (in_closed i) (in_cancelled i)
    (in_done i) (in_adapter_attached i) (in_rerun i) (in_mailbox_armed i) (in_lifecycle i)
    (in_worker_phase i) (in_downstream_waiter i) (in_terminal_waiter i) (in_ready i).

Definition set_in_cancelled_in_flight (cancelled_in_flight_ : Z) (i : cflow_machine_instance_impl)
    : cflow_machine_instance_impl :=
  mk_instance_impl
    (in_state i) (in_state_value i) (in_target_value i) (in_event_value i)
    (in_observation_value i) (in_error i) (in_completed i) (in_failed i) cancelled_in_flight_
    (in_emitted_values i) (in_emitted_events i) (in_in_flight i) (in_closed i) (in_cancelled i)
    (in_done i) (in_adapter_attached i) (in_rerun i) (in_mailbox_armed i) (in_lifecycle i)
    (in_worker_phase i) (in_downstream_waiter i) (in_terminal_waiter i) (in_ready i).

Definition set_in_emitted_values (emitted_values_ : Z) (i : cflow_machine_instance_impl)
    : cflow_machine_instance_impl :=
  mk_instance_impl
    (in_state i) (in_state_value i) (in_target_value i) (in_event_value i)
    (in_observation_value i) (in_error i) (in_completed i) (in_failed i)
    (in_cancelled_in_flight i) emitted_values_ (in_emitted_events i) (in_in_flight i)
    (in_closed i) (in_cancelled i) (in_done i) (in_adapter_attached i) (in_rerun i)
    (in_mailbox_armed i) (in_lifecycle i) (in_worker_phase i) (in_downstream_waiter i)
    (in_terminal_waiter i) (in_ready i).

Definition set_in_emitted_events (emitted_events_ : Z) (i : cflow_machine_instance_impl)
    : cflow_machine_instance_impl :=
  mk_instance_impl
    (in_state i) (in_state_value i) (in_target_value i) (in_event_value i)
    (in_observation_value i) (in_error i) (in_completed i) (in_failed i)
    (in_cancelled_in_flight i) (in_emitted_values i) emitted_events_ (in_in_flight i)
    (in_closed i) (in_cancelled i) (in_done i) (in_adapter_attached i) (in_rerun i)
    (in_mailbox_armed i) (in_lifecycle i) (in_worker_phase i) (in_downstream_waiter i)
    (in_terminal_waiter i) (in_ready i).

Definition set_in_in_flight (in_flight_ : Z) (i : cflow_machine_instance_impl)
    : cflow_machine_instance_impl :=
  mk_instance_impl
    (in_state i) (in_state_value i) (in_target_value i) (in_event_value i)
    (in_observation_value i) (in_error i) (in_completed i) (in_failed i)
    (in_cancelled_in_flight i) (in_emitted_values i) (in_emitted_events i) in_flight_
    (in_closed i) (in_cancelled i) (in_done i) (in_adapter_attached i) (in_rerun i)
    (in_mailbox_armed i) (in_lifecycle i) (in_worker_phase i) (in_downstream_waiter i)
    (in_terminal_waiter i) (in_ready i).

Definition set_in_closed (closed_ : bool) (i : cflow_machine_instance_impl)
    : cflow_machine_instance_impl :=
  mk_instance_impl
    (in_state i) (in_state_value i) (in_target_value i) (in_event_value i)
    (in_observation_value i) (in_error i) (in_completed i) (in_failed i)
    (in_cancelled_in_flight i) (in_emitted_values i) (in_emitted_events i) (in_in_flight i)
    closed_ (in_cancelled i) (in_done i) (in_adapter_attached i) (in_rerun i)
    (in_mailbox_armed i) (in_lifecycle i) (in_worker_phase i) (in_downstream_waiter i)
    (in_terminal_waiter i) (in_ready i).

Definition set_in_cancelled (cancelled_ : bool) (i : cflow_machine_instance_impl)
    : cflow_machine_instance_impl :=
  mk_instance_impl
    (in_state i) (in_state_value i) (in_target_value i) (in_event_value i)
    (in_observation_value i) (in_error i) (in_completed i) (in_failed i)
    (in_cancelled_in_flight i) (in_emitted_values i) (in_emitted_events i) (in_in_flight i)
    (in_closed i) cancelled_ (in_done i) (in_adapter_attached i) (in_rerun i)
    (in_mailbox_armed i) (in_lifecycle i) (in_worker_phase i) (in_downstream_waiter i)
    (in_terminal_waiter i) (in_ready i).

Definition set_in_done (done_ : bool) (i : cflow_machine_instance_impl)
    : cflow_machine_instance_impl :=
  mk_instance_impl
    (in_state i) (in_state_value i) (in_target_value i) (in_event_value i)
    (in_observation_value i) (in_error i) (in_completed i) (in_failed i)
    (in_cancelled_in_flight i) (in_emitted_values i) (in_emitted_events i) (in_in_flight i)
    (in_closed i) (in_cancelled i) done_ (in_adapter_attached i) (in_rerun i)
    (in_mailbox_armed i) (in_lifecycle i) (in_worker_phase i) (in_downstream_waiter i)
    (in_terminal_waiter i) (in_ready i).

Definition set_in_adapter_attached (adapter_attached_ : bool) (i : cflow_machine_instance_impl)
    : cflow_machine_instance_impl :=
  mk_instance_impl
    (in_state i) (in_state_value i) (in_target_value i) (in_event_value i)
    (in_observation_value i) (in_error i) (in_completed i) (in_failed i)
    (in_cancelled_in_flight i) (in_emitted_values i) (in_emitted_events i) (in_in_flight i)
    (in_closed i) (in_cancelled i) (in_done i) adapter_attached_ (in_rerun i)
    (in_mailbox_armed i) (in_lifecycle i) (in_worker_phase i) (in_downstream_waiter i)
    (in_terminal_waiter i) (in_ready i).

Definition set_in_rerun (rerun_ : bool) (i : cflow_machine_instance_impl)
    : cflow_machine_instance_impl :=
  mk_instance_impl
    (in_state i) (in_state_value i) (in_target_value i) (in_event_value i)
    (in_observation_value i) (in_error i) (in_completed i) (in_failed i)
    (in_cancelled_in_flight i) (in_emitted_values i) (in_emitted_events i) (in_in_flight i)
    (in_closed i) (in_cancelled i) (in_done i) (in_adapter_attached i) rerun_
    (in_mailbox_armed i) (in_lifecycle i) (in_worker_phase i) (in_downstream_waiter i)
    (in_terminal_waiter i) (in_ready i).

Definition set_in_mailbox_armed (mailbox_armed_ : bool) (i : cflow_machine_instance_impl)
    : cflow_machine_instance_impl :=
  mk_instance_impl
    (in_state i) (in_state_value i) (in_target_value i) (in_event_value i)
    (in_observation_value i) (in_error i) (in_completed i) (in_failed i)
    (in_cancelled_in_flight i) (in_emitted_values i) (in_emitted_events i) (in_in_flight i)
    (in_closed i) (in_cancelled i) (in_done i) (in_adapter_attached i) (in_rerun i)
    mailbox_armed_ (in_lifecycle i) (in_worker_phase i) (in_downstream_waiter i)
    (in_terminal_waiter i) (in_ready i).

Definition set_in_lifecycle (lifecycle_ : cflow_machine_control_lifecycle) (i : cflow_machine_instance_impl)
    : cflow_machine_instance_impl :=
  mk_instance_impl
    (in_state i) (in_state_value i) (in_target_value i) (in_event_value i)
    (in_observation_value i) (in_error i) (in_completed i) (in_failed i)
    (in_cancelled_in_flight i) (in_emitted_values i) (in_emitted_events i) (in_in_flight i)
    (in_closed i) (in_cancelled i) (in_done i) (in_adapter_attached i) (in_rerun i)
    (in_mailbox_armed i) lifecycle_ (in_worker_phase i) (in_downstream_waiter i)
    (in_terminal_waiter i) (in_ready i).

Definition set_in_worker_phase (worker_phase_ : cflow_machine_worker_phase) (i : cflow_machine_instance_impl)
    : cflow_machine_instance_impl :=
  mk_instance_impl
    (in_state i) (in_state_value i) (in_target_value i) (in_event_value i)
    (in_observation_value i) (in_error i) (in_completed i) (in_failed i)
    (in_cancelled_in_flight i) (in_emitted_values i) (in_emitted_events i) (in_in_flight i)
    (in_closed i) (in_cancelled i) (in_done i) (in_adapter_attached i) (in_rerun i)
    (in_mailbox_armed i) (in_lifecycle i) worker_phase_ (in_downstream_waiter i)
    (in_terminal_waiter i) (in_ready i).

Definition set_in_downstream_waiter (downstream_waiter_ : cflow_waker) (i : cflow_machine_instance_impl)
    : cflow_machine_instance_impl :=
  mk_instance_impl
    (in_state i) (in_state_value i) (in_target_value i) (in_event_value i)
    (in_observation_value i) (in_error i) (in_completed i) (in_failed i)
    (in_cancelled_in_flight i) (in_emitted_values i) (in_emitted_events i) (in_in_flight i)
    (in_closed i) (in_cancelled i) (in_done i) (in_adapter_attached i) (in_rerun i)
    (in_mailbox_armed i) (in_lifecycle i) (in_worker_phase i) downstream_waiter_
    (in_terminal_waiter i) (in_ready i).

Definition set_in_terminal_waiter (terminal_waiter_ : cflow_waker) (i : cflow_machine_instance_impl)
    : cflow_machine_instance_impl :=
  mk_instance_impl
    (in_state i) (in_state_value i) (in_target_value i) (in_event_value i)
    (in_observation_value i) (in_error i) (in_completed i) (in_failed i)
    (in_cancelled_in_flight i) (in_emitted_values i) (in_emitted_events i) (in_in_flight i)
    (in_closed i) (in_cancelled i) (in_done i) (in_adapter_attached i) (in_rerun i)
    (in_mailbox_armed i) (in_lifecycle i) (in_worker_phase i) (in_downstream_waiter i)
    terminal_waiter_ (in_ready i).

Definition set_in_ready (ready_ : cflow_machine_ready_kind) (i : cflow_machine_instance_impl)
    : cflow_machine_instance_impl :=
  mk_instance_impl
    (in_state i) (in_state_value i) (in_target_value i) (in_event_value i)
    (in_observation_value i) (in_error i) (in_completed i) (in_failed i)
    (in_cancelled_in_flight i) (in_emitted_values i) (in_emitted_events i) (in_in_flight i)
    (in_closed i) (in_cancelled i) (in_done i) (in_adapter_attached i) (in_rerun i)
    (in_mailbox_armed i) (in_lifecycle i) (in_worker_phase i) (in_downstream_waiter i)
    (in_terminal_waiter i) ready_.

(** * The world *)

(** [mw_woken] lists the external wakers invoked so far, [mw_posted] counts the
    tasks the executor accepted and has not started, and [mw_user] is the state of
    the callbacks, the executor and the allocator. *)
Record machine_world (U : Type) := mk_machine_world {
  mw_instance : cflow_machine_instance_impl;
  mw_mailbox : cflow_mailbox;
  mw_woken : list cflow_waker;
  mw_posted : nat;
  mw_user : U;
}.

Arguments mk_machine_world {U}.
Arguments mw_instance {U}.
Arguments mw_mailbox {U}.
Arguments mw_woken {U}.
Arguments mw_posted {U}.
Arguments mw_user {U}.

Definition set_mw_instance {U} (i : cflow_machine_instance_impl) (w : machine_world U)
    : machine_world U :=
  mk_machine_world i (mw_mailbox w) (mw_woken w) (mw_posted w) (mw_user w).

Definition set_mw_mailbox {U} (m : cflow_mailbox) (w : machine_world U) : machine_world U :=
  mk_machine_world (mw_instance w) m (mw_woken w) (mw_posted w) (mw_user w).

Definition set_mw_woken {U} (l : list cflow_waker) (w : machine_world U) : machine_world U :=
  mk_machine_world (mw_instance w) (mw_mailbox w) l (mw_posted w) (mw_user w).

Definition set_mw_posted {U} (n : nat) (w : machine_world U) : machine_world U :=
  mk_machine_world (mw_instance w) (mw_mailbox w) (mw_woken w) n (mw_user w).

Definition set_mw_user {U} (u : U) (w : machine_world U) : machine_world U :=
  mk_machine_world (mw_instance w) (mw_mailbox w) (mw_woken w) (mw_posted w) u.

(** What a guard leaves: its answer, [*out_enabled] and [*out_error]. *)
Record guard_result := mk_guard_result {
  gr_ok : bool;
  gr_enabled : bool;
  gr_error : option string;
}.

(** What an action leaves: its answer, the target and observation buffers and
    [*out_error]. *)
Record action_result := mk_action_result {
  ar_ok : bool;
  ar_target : list Z;
  ar_observation : list Z;
  ar_error : option string;
}.

(** The code the instance calls and does not own: guards and actions, the hooks of
    the internal initialiser, the executor's admission and the allocator. *)
Class MachineEnvironment (U : Type) := {
  env_guard : addr -> addr -> list Z -> list Z -> bool -> option string -> U -> guard_result * U;
  env_action : addr -> addr -> list Z -> list Z -> list Z -> option (list Z) ->
    option string -> U -> action_result * U;
  env_commit_hook : Z -> bool -> U -> U;
  env_boundary_hook : U -> U;
  env_try_post : U -> cflow_admission_status * U;
  env_malloc : U -> bool * U;
}.
