(* ===== verification/CFlowInstance.v ===== *)
(** Machine instances (cflow/src/machine_instance.c): the worker task, the control
    operations, the adapters and the snapshots, as programs over atomic sections.

    A section under the instance lock is a function on
    [cflow_machine_instance_impl]; calls of the mailbox and of the environment are
    steps of their own.  A waker is an external one, which is recorded, or the
    instance's own mailbox waker, which runs [machine_mailbox_wake] in the invoking
    thread.  That makes the functions mutually recursive in C; here they take the
    nested wake as an argument, and [wake_depth] levels are enough because a nested
    wake finds the instance done.

    Initialisation of a machine instance ([cflow_machine_instance_init_internal]
    and the functions it calls in cflow/src/machine_instance.c).

    Allocation is an oracle over the allocations of one call, the contents of fresh
    memory are an argument, and the executor is seen through the five questions the
    code asks it. *)

From S2P Require Import Prelude.
From S2P Require Import CMetaType.
From S2P Require Import CMetaFunction.
From S2P Require Import CFlowSupport.
From S2P Require Import CFlowMachine.
From S2P Require Import CFlowMailbox.
From S2P Require Import CFlowProgram.
From S2P Require Import CFlowInstanceData.

Definition CFLOW_MACHINE_INSTANCE_QUANTUM : nat := 64.

(** ** Small sections *)

(** [if (impl->in_flight != 0u) --impl->in_flight;] *)
Definition leave_flight (i : cflow_machine_instance_impl) : cflow_machine_instance_impl :=
  if in_in_flight i =? 0 then i else set_in_in_flight (size_dec (in_in_flight i)) i.

Definition lifecycle_is (l : cflow_machine_control_lifecycle) (i : cflow_machine_instance_impl)
    : bool := bool_decide (in_lifecycle i = l).

Definition phase_is (p : cflow_machine_worker_phase) (i : cflow_machine_instance_impl) : bool :=
  bool_decide (in_worker_phase i = p).

Definition ready_is (r : cflow_machine_ready_kind) (i : cflow_machine_instance_impl) : bool :=
  bool_decide (in_ready i = r).

Definition kind_is (k : cflow_machine_state_kind) (s : cflow_machine_state) : bool :=
  bool_decide (ms_kind s = k).

(** [action != NULL && action->observation == o]. *)
Definition observes (o : cflow_machine_action_observation) (a : option cflow_machine_action) : bool :=
  match a with Some a => bool_decide (ma_observation a = o) | None => false end.

(** [impl->done || impl->error != NULL]. *)
Definition finished (i : cflow_machine_instance_impl) : bool :=
  in_done i || negb (is_null (in_error i)).

(** [finished || impl->ready != NONE]. *)
Definition settled (i : cflow_machine_instance_impl) : bool :=
  finished i || negb (ready_is CFLOW_MACHINE_READY_NONE i).

Definition take_downstream_waiter_locked (i : cflow_machine_instance_impl)
    : cflow_waker * cflow_machine_instance_impl :=
  (in_downstream_waiter i, set_in_downstream_waiter zero_waker i).

Definition take_terminal_waiter_locked (i : cflow_machine_instance_impl)
    : cflow_waker * cflow_machine_instance_impl :=
  (in_terminal_waiter i, set_in_terminal_waiter zero_waker i).

(** Both, in the order of the code. *)
Definition take_waiters (i : cflow_machine_instance_impl)
    : (cflow_waker * cflow_waker) * cflow_machine_instance_impl :=
  let (waker, i) := take_downstream_waiter_locked i in
  let (terminal_waker, i) := take_terminal_waiter_locked i in
  ((waker, terminal_waker), i).

Definition publish_control_terminal_locked (i : cflow_machine_instance_impl)
    : cflow_machine_instance_impl :=
  let i := set_in_lifecycle CFLOW_MACHINE_CONTROL_TERMINAL i in
  let i := set_in_done true i in
  match in_ready i with
  | CFLOW_MACHINE_READY_VALUE => set_in_ready CFLOW_MACHINE_READY_VALUE_AND_DONE i
  | CFLOW_MACHINE_READY_NONE => set_in_ready CFLOW_MACHINE_READY_DONE i
  | _ => i
  end.

Definition begin_commit_locked (i : cflow_machine_instance_impl)
    : cflow_machine_commit_decision * cflow_machine_instance_impl :=
  if lifecycle_is CFLOW_MACHINE_CONTROL_CANCEL_REQUESTED i then (CFLOW_MACHINE_COMMIT_CANCELLED, i)
  else if negb (phase_is CFLOW_MACHINE_WORKER_EXECUTING i) ||
          (negb (lifecycle_is CFLOW_MACHINE_CONTROL_OPEN i) &&
           negb (lifecycle_is CFLOW_MACHINE_CONTROL_CLOSE_REQUESTED i))
  then (CFLOW_MACHINE_COMMIT_INVALID, i)
  else (CFLOW_MACHINE_COMMIT_ALLOWED, set_in_worker_phase CFLOW_MACHINE_WORKER_COMMITTING i).

(** A terminal state with everything the setters of it share. *)
Definition set_terminal (ready : cflow_machine_ready_kind) (i : cflow_machine_instance_impl)
    : cflow_machine_instance_impl :=
  set_in_ready ready (set_in_done true (set_in_lifecycle CFLOW_MACHINE_CONTROL_TERMINAL
    (set_in_worker_phase CFLOW_MACHINE_WORKER_IDLE i))).

(** The section of [fail_runtime]. *)
Definition fail_locked (copy : option string) (settle_current_event : bool)
    (i : cflow_machine_instance_impl) : (cflow_waker * cflow_waker) * cflow_machine_instance_impl :=
  let cancel_won := lifecycle_is CFLOW_MACHINE_CONTROL_CANCEL_REQUESTED i in
  let i :=
    if negb cancel_won && is_null (in_error i)
    then set_in_error (Some (default "machine runtime could not preserve error text"%string copy)) i
    else i in
  let i :=
    if settle_current_event then
      let i := leave_flight i in
      if cancel_won
      then set_in_cancelled_in_flight (counter_increment (in_cancelled_in_flight i)) i
      else set_in_failed (counter_increment (in_failed i)) i
    else i in
  take_waiters (set_terminal (if cancel_won then CFLOW_MACHINE_READY_DONE
                              else CFLOW_MACHINE_READY_ERROR) i).

(** The cancelled branch of a commit and [settle_cancelled_in_flight]. *)
Definition settle_locked (i : cflow_machine_instance_impl)
    : (cflow_waker * cflow_waker) * cflow_machine_instance_impl :=
  let i := leave_flight i in
  let i := set_in_cancelled_in_flight (counter_increment (in_cancelled_in_flight i)) i in
  take_waiters (set_terminal CFLOW_MACHINE_READY_DONE i).

(** ** The commit section *)

Inductive commit_outcome :=
  | CommitCancelled (waker terminal_waker : cflow_waker)
  | CommitInvalid
  | Committed (runtime_closed : bool) (waker terminal_waker : cflow_waker).

(** [memcpy (destination, source, size)] into the front of a buffer. *)
Definition copy_front (destination source : list Z) (size : nat) : option (list Z) :=
  if (size <=? length source)%nat && (size <=? length destination)%nat
  then Some (take size source ++ drop size destination) else None.

(** From the decision to the end of the section. *)
Definition commit_observation (target : cflow_machine_state) (action : option cflow_machine_action)
    (i : cflow_machine_instance_impl) : cflow_waker * cflow_machine_instance_impl :=
  if observes CFLOW_MACHINE_ACTION_EVENT action && negb (in_closed i) then
    (zero_waker, set_in_emitted_events (counter_increment (in_emitted_events i)) i)
  else if observes CFLOW_MACHINE_ACTION_VALUE action then
    let i := set_in_emitted_values (counter_increment (in_emitted_values i)) i in
    let i := set_in_ready
      (if kind_is CFLOW_MACHINE_STATE_ACTIVE target then CFLOW_MACHINE_READY_VALUE
       else if kind_is CFLOW_MACHINE_STATE_DONE target then CFLOW_MACHINE_READY_VALUE_AND_DONE
       else CFLOW_MACHINE_READY_ERROR) i in
    let i := if kind_is CFLOW_MACHINE_STATE_ACTIVE target then i else set_in_done true i in
    take_downstream_waiter_locked i
  else if kind_is CFLOW_MACHINE_STATE_DONE target then
    take_downstream_waiter_locked (set_in_ready CFLOW_MACHINE_READY_DONE (set_in_done true i))
  else (zero_waker, i).

Definition commit_closed (target : cflow_machine_state) (action : option cflow_machine_action)
    (waker : cflow_waker) (i : cflow_machine_instance_impl)
    : cflow_waker * cflow_machine_instance_impl :=
  if lifecycle_is CFLOW_MACHINE_CONTROL_CLOSE_REQUESTED i &&
     kind_is CFLOW_MACHINE_STATE_ACTIVE target then
    let i := set_in_done true i in
    let i := set_in_ready
      (if observes CFLOW_MACHINE_ACTION_VALUE action then CFLOW_MACHINE_READY_VALUE_AND_DONE
       else CFLOW_MACHINE_READY_DONE) i in
    take_downstream_waiter_locked i
  else (waker, i).

Definition commit_allowed (target : cflow_machine_state) (action : option cflow_machine_action)
    (i : cflow_machine_instance_impl) : option (commit_outcome * cflow_machine_instance_impl) :=
  value ← copy_front (in_state_value i) (in_target_value i)
            (Z.to_nat (type_size (ms_value_type target)));
  let i := set_in_state target (set_in_state_value value i) in
  let i := leave_flight i in
  let i :=
    if kind_is CFLOW_MACHINE_STATE_ERROR target
    then set_in_failed (counter_increment (in_failed i)) i
    else set_in_completed (counter_increment (in_completed i)) i in
  let (waker, i) := commit_observation target action i in
  let runtime_closed := lifecycle_is CFLOW_MACHINE_CONTROL_CLOSE_REQUESTED i in
  let (waker, i) := commit_closed target action waker i in
  let i := set_in_worker_phase CFLOW_MACHINE_WORKER_SCHEDULED i in
  let i :=
    if in_done i || kind_is CFLOW_MACHINE_STATE_ERROR target
    then set_in_lifecycle CFLOW_MACHINE_CONTROL_TERMINAL i else i in
  let (terminal_waker, i) :=
    if in_done i && negb (kind_is CFLOW_MACHINE_STATE_ERROR target)
    then take_terminal_waiter_locked i else (zero_waker, i) in
  Some (Committed runtime_closed waker terminal_waker, i).

Definition commit_locked (target : cflow_machine_state) (action : option cflow_machine_action)
    (i : cflow_machine_instance_impl) : option (commit_outcome * cflow_machine_instance_impl) :=
  match begin_commit_locked i with
  | (CFLOW_MACHINE_COMMIT_CANCELLED, i) =>
      let '((waker, terminal_waker), i) := settle_locked i in
      Some (CommitCancelled waker terminal_waker, i)
  | (CFLOW_MACHINE_COMMIT_INVALID, i) => Some (CommitInvalid, i)
  | (CFLOW_MACHINE_COMMIT_ALLOWED, i) => commit_allowed target action i
  end.

(** ** Lookups *)

(** The rows the accessors enumerate. *)
Definition machine_rows {A} (member : cflow_machine_impl -> list A) (machine : cflow_machine) : list A :=
  match m_impl machine with None => [] | Some i => member i end.

Definition instance_find_state (machine : cflow_machine) (id : Z)
    : option (row_ptr cflow_machine_state) :=
  bsearch ms_id (machine_rows mi_states machine) id.

Definition find_guard_binding (impl : instance_binding) (id : Z)
    : option (row_ptr cflow_machine_guard_binding) :=
  bsearch gb_id (ib_guards impl) id.

Definition find_action_binding (impl : instance_binding) (id : Z)
    : option (row_ptr cflow_machine_action_binding) :=
  bsearch ab_id (ib_actions impl) id.

Definition find_action_declaration (impl : instance_binding) (id : Z)
    : option (row_ptr cflow_machine_action) :=
  bsearch ma_id (machine_rows mi_actions (ib_machine impl)) id.

(** [transition->source < state || (== && transition->event < event)]. *)
Definition transition_below (state event : Z) (t : cflow_machine_transition) : bool :=
  (mt_source t <? state) || ((mt_source t =? state) && (mt_event t <? event)).

Inductive schedule_decision := AlreadyHandled | MustPost.

(** The kind of a step, its value and its error. *)
Inductive resumed :=
  | Resumed (kind : cflow_step_kind) (value : option (list Z)) (error : option string).

Inductive resume_decision :=
  | ResumeNow (answer : resumed)
  | ResumeSchedule.

Section Instance.
Context {U : Type} `{MachineEnvironment U} (impl : instance_binding).

#[local] Abbreviation world := (machine_world U).
#[local] Abbreviation program := (prog (machine_world U)).

(** A section under the instance lock. *)
Definition locked {A} (section : cflow_machine_instance_impl -> A * cflow_machine_instance_impl)
    : program A :=
  update (fun w : world =>
    let (a, i) := section (mw_instance w) in (a, set_mw_instance i w)).

Definition locked_update (section : cflow_machine_instance_impl -> cflow_machine_instance_impl)
    : program unit :=
  locked (fun i => (tt, section i)).

Definition with_user {A} (call : U -> A * U) : program A :=
  update (fun w : world => let (a, u) := call (mw_user w) in (a, set_mw_user u w)).

(** [if (impl->commit_hook != NULL) impl->commit_hook (commit_user, index, begin);] *)
Definition call_commit_hook (index : Z) (begin : bool) : program unit :=
  if ib_commit_hook impl then with_user (fun u => (tt, env_commit_hook index begin u)) else Ret tt.

(** The waker [arm_mailbox] arms. *)
Definition machine_waker (fn : addr) : cflow_waker := mk_waker (Some fn) (ib_address impl).

(** The address of [machine_mailbox_wake]. *)
Definition machine_mailbox_wake_fn : addr := 1.

Definition invoke_waker (wake : program unit) (waker : cflow_waker) : program unit :=
  match wk_wake waker with
  | None => Ret tt
  | Some fn =>
      if (fn =? machine_mailbox_wake_fn) && (wk_user waker =? ib_address impl) then wake
      else update (fun w : world => (tt, set_mw_woken (mw_woken w ++ [waker]) w))
  end.

(** ** Mailbox calls *)

Definition mailbox_cancel : program cflow_waker :=
  step (fun w : world =>
    let '(_, h, waker) := cflow_mailbox_cancel (Some (mw_mailbox w)) in
    m ← h; Some (waker, set_mw_mailbox m w)).

Definition cancel_mailbox (wake : program unit) : program unit :=
  if ib_mailbox_initialized impl then waker ← mailbox_cancel; invoke_waker wake waker
  else Ret tt.

(** [cflow_mailbox_try_receive] into the event buffer. *)
Definition mailbox_receive : program (cflow_mailbox_status * Z) :=
  step (fun w : world =>
    '(status, h, event) ← cflow_mailbox_try_receive (Some (mw_mailbox w)) true true
                            (Some (ib_event_address impl)) (ib_event_capacity impl);
    m ← h;
    match event with
    | None => Some ((status, 0), set_mw_mailbox m w)
    | Some e =>
        value ← copy_front (in_event_value (mw_instance w)) (re_payload e) (length (re_payload e));
        Some ((status, re_id e),
              set_mw_instance (set_in_event_value value (mw_instance w)) (set_mw_mailbox m w))
    end).

Definition mailbox_send (view : world -> option cflow_event_view)
    : program (cflow_mailbox_status * cflow_waker) :=
  step (fun w : world =>
    '(status, h, waker) ← cflow_mailbox_try_send (Some (mw_mailbox w)) (view w);
    m ← h; Some ((status, waker), set_mw_mailbox m w)).

(** [cflow_waitable_cancel (&impl->mailbox_waitable)] when it was armed. *)
Definition disarm_mailbox (mailbox_armed : bool) : program unit :=
  if mailbox_armed then
    update (fun w : world =>
      (tt, set_mw_mailbox (mk_mailbox (cflow_mailbox_wait_cancel (mb_impl (mw_mailbox w)))) w))
  else Ret tt.

(** ** Failing and finishing *)

Definition runtime_copy_error (message : option string) : program (option string) :=
  allocated ← with_user env_malloc;
  let source :=
    match message with
    | Some s => if c_nonempty (Some s) then s else "machine runtime error"%string
    | None => "machine runtime error"%string
    end in
  Ret (if allocated : bool then Some source else None).

Definition fail_runtime (wake : program unit) (message : option string)
    (settle_current_event : bool) : program unit :=
  copy ← runtime_copy_error message;
  _ ← call_commit_hook SIZE_MAX true;
  '(waker, terminal_waker) ← locked (fail_locked copy settle_current_event);
  _ ← call_commit_hook SIZE_MAX false;
  _ ← cancel_mailbox wake;
  _ ← invoke_waker wake waker;
  invoke_waker wake terminal_waker.

Definition publish_done (wake : program unit) (ready : cflow_machine_ready_kind) : program unit :=
  _ ← call_commit_hook SIZE_MAX true;
  '(waker, terminal_waker) ← locked (fun i => take_waiters (set_terminal ready i));
  _ ← call_commit_hook SIZE_MAX false;
  _ ← cancel_mailbox wake;
  _ ← invoke_waker wake waker;
  invoke_waker wake terminal_waker.

(** ** Scheduling *)

Definition schedule_locked (i : cflow_machine_instance_impl)
    : schedule_decision * cflow_machine_instance_impl :=
  if settled i then (AlreadyHandled, i)
  else if phase_is CFLOW_MACHINE_WORKER_EXECUTING i || phase_is CFLOW_MACHINE_WORKER_COMMITTING i
  then (AlreadyHandled, set_in_rerun true i)
  else if phase_is CFLOW_MACHINE_WORKER_SCHEDULED i then (AlreadyHandled, set_in_rerun true i)
  else (MustPost, set_in_worker_phase CFLOW_MACHINE_WORKER_SCHEDULED i).

(** [cflow_executor_try_post (impl->executor, machine_executor_task, impl)]. *)
Definition try_post : program cflow_admission_status :=
  update (fun w : world =>
    let (status, u) := env_try_post (mw_user w) in
    let w := set_mw_user u w in
    match status with
    | CFLOW_ADMISSION_ACCEPTED => (status, set_mw_posted (S (mw_posted w)) w)
    | _ => (status, w)
    end).

Definition wake_with (schedule : program bool) : program unit :=
  _ ← locked_update (set_in_mailbox_armed false);
  _ ← schedule;
  Ret tt.

Fixpoint schedule_machine_task (depth : nat) : program bool :=
  match depth with
  | O => undefined
  | S depth =>
      decision ← locked schedule_locked;
      match decision with
      | AlreadyHandled => Ret true
      | MustPost =>
          status ← try_post;
          match status with
          | CFLOW_ADMISSION_ACCEPTED => Ret true
          | _ =>
              _ ← locked_update (set_in_worker_phase CFLOW_MACHINE_WORKER_IDLE);
              _ ← fail_runtime (wake_with (schedule_machine_task depth))
                    (Some (if bool_decide (status = CFLOW_ADMISSION_FULL)
                           then "machine SerialExecutor is full"%string
                           else "machine SerialExecutor is closed"%string)) false;
              Ret false
          end
      end
  end.

Definition wake_depth : nat := 2.

Definition machine_mailbox_wake : program unit := wake_with (schedule_machine_task wake_depth).

#[local] Abbreviation wake := machine_mailbox_wake.

(** ** Processing one event *)

Definition settle_cancelled_in_flight : program bool :=
  settled ← locked (fun i =>
    if lifecycle_is CFLOW_MACHINE_CONTROL_CANCEL_REQUESTED i
    then let (wakers, i) := settle_locked i in (Some wakers, i)
    else (None, i));
  match settled with
  | None => Ret false
  | Some (waker, terminal_waker) =>
      _ ← invoke_waker wake waker;
      _ ← invoke_waker wake terminal_waker;
      Ret true
  end.

(** The guard callback reads the state and event buffers, which only the worker
    writes. *)
Definition transition_enabled (transition : cflow_machine_transition) (error : option string)
    : program guard_result :=
  if mt_guard transition =? 0 then Ret (mk_guard_result true true error)
  else
    match find_guard_binding impl (mt_guard transition) with
    | None => Ret (mk_guard_result false false (Some "machine guard binding is missing"%string))
    | Some (_, binding) =>
        match gb_fn binding with
        | None => undefined
        | Some fn =>
            update (fun w : world =>
              let (result, u) := env_guard fn (gb_user binding) (in_state_value (mw_instance w))
                                   (in_event_value (mw_instance w)) false error (mw_user w) in
              (result, set_mw_user u w))
        end
    end.

(** The loop from the first row of the state and event. *)
Fixpoint select_loop (state event_id : Z) (rows : list cflow_machine_transition) (index : nat)
    (error : option string)
    : program (option (row_ptr cflow_machine_transition) * option string) :=
  let none_enabled := (None, Some (default "no enabled transition"%string error)) in
  match rows with
  | [] => Ret none_enabled
  | transition :: rows =>
      if negb (mt_source transition =? state) || negb (mt_event transition =? event_id)
      then Ret none_enabled
      else
        result ← transition_enabled transition error;
        if negb (gr_ok result) then Ret (None, gr_error result)
        else if gr_enabled result then Ret (Some (index, transition), gr_error result)
        else select_loop state event_id rows (S index) (gr_error result)
  end.

Definition select_transition (event_id : Z)
    : program (option (row_ptr cflow_machine_transition) * option string) :=
  state ← read (fun w : world => ms_id (in_state (mw_instance w)));
  let transitions := machine_rows mi_transitions (ib_machine impl) in
  let left := lower_bound (transition_below state event_id) transitions in
  select_loop state event_id (drop left transitions) left None.

(** [memcpy (impl->target_value, impl->state_value, impl->state->value_type->size)]. *)
Definition copy_state_to_target : program unit :=
  step (fun w : world =>
    let i := mw_instance w in
    target ← copy_front (in_target_value i) (in_state_value i)
               (Z.to_nat (type_size (ms_value_type (in_state i))));
    Some (tt, set_mw_instance (set_in_target_value target i) w)).

(** The action callback, which must stay inside the buffers it is given. *)
Definition call_action (fn user : addr) (observing : bool) (error : option string)
    : program action_result :=
  step (fun w : world =>
    let i := mw_instance w in
    let (r, u) := env_action fn user (in_state_value i) (in_event_value i) (in_target_value i)
                    (if observing then Some (in_observation_value i) else None) error
                    (mw_user w) in
    if (length (ar_target r) =? length (in_target_value i))%nat &&
       (negb observing || (length (ar_observation r) =? length (in_observation_value i))%nat)
    then
      let i := set_in_target_value (ar_target r) i in
      let i := if observing then set_in_observation_value (ar_observation r) i else i in
      Some (r, set_mw_user u (set_mw_instance i w))
    else None).

(** The answer, [*out_action] and [*error]. *)
Definition run_action (transition : cflow_machine_transition) (error : option string)
    : program (bool * option cflow_machine_action * option string) :=
  if mt_action transition =? 0 then
    _ ← copy_state_to_target; Ret (true, None, error)
  else
    match find_action_declaration impl (mt_action transition),
          find_action_binding impl (mt_action transition) with
    | Some (_, action), Some (_, binding) =>
        match ab_fn binding with
        | None => undefined
        | Some fn =>
            r ← call_action fn (ab_user binding)
                  (negb (bool_decide (ma_observation action = CFLOW_MACHINE_ACTION_NONE))) error;
            if ar_ok r then Ret (true, Some action, ar_error r)
            else if Z.land (ma_effects action) CMETA_EFFECT_MAY_FAIL =? 0 then
              Ret (false, None, Some "machine action contract violation"%string)
            else
              Ret (false, None, Some (default "machine action failed"%string (ar_error r)))
        end
    | _, _ => Ret (false, None, Some "machine action binding is missing"%string)
    end.

(** [None] when the event was sent, otherwise the error. *)
Definition emit_action_event (action : cflow_machine_action) : program (option string) :=
  '(status, waker) ← mailbox_send (fun w => Some (mk_event_view (ma_output_event_id action)
                        (ma_output_type action) (Some (in_observation_value (mw_instance w)))));
  _ ← invoke_waker wake waker;
  Ret (match status with
       | CFLOW_MAILBOX_OK => None
       | CFLOW_MAILBOX_FULL => Some "machine emitted Event mailbox is full"%string
       | _ => Some "machine emitted Event was rejected"%string
       end).

(** The section that ends the processing of an event. *)
Definition commit (target : cflow_machine_state) (action : option cflow_machine_action)
    : program commit_outcome :=
  step (fun w : world =>
    '(outcome, i) ← commit_locked target action (mw_instance w);
    Some (outcome, set_mw_instance i w)).

(** From the chosen transition to the commit: [None] when the event was settled on
    the way, otherwise what to commit. *)
Definition stage_transition (transition : cflow_machine_transition) (error : option string)
    : program (option (cflow_machine_state * option cflow_machine_action)) :=
  '(ok, action, error) ← run_action transition error;
  cancelled ← settle_cancelled_in_flight;
  if (cancelled : bool) then Ret None
  else if negb ok then _ ← fail_runtime wake error true; Ret None
  else
    match instance_find_state (ib_machine impl) (mt_target transition) with
    | None =>
        _ ← fail_runtime wake (Some "machine transition target is invalid"%string) true;
        Ret None
    | Some (_, target) =>
        match action with
        | Some a =>
            if bool_decide (ma_observation a = CFLOW_MACHINE_ACTION_EVENT) then
              closed ← read (fun w : world => in_closed (mw_instance w));
              if (closed : bool) then Ret (Some (target, action))
              else
                failure ← emit_action_event a;
                match failure with
                | None => Ret (Some (target, action))
                | Some _ => _ ← fail_runtime wake failure true; Ret None
                end
            else Ret (Some (target, action))
        | None => Ret (Some (target, action))
        end
    end.

(** From the commit section to the end. *)
Definition finish_transition (transition_index : nat) (target : cflow_machine_state)
    (action : option cflow_machine_action) : program bool :=
  _ ← (if ib_boundary_hook impl then with_user (fun u => (tt, env_boundary_hook u)) else Ret tt);
  _ ← call_commit_hook (Z.of_nat transition_index) true;
  outcome ← commit target action;
  match outcome with
  | CommitCancelled waker terminal_waker =>
      _ ← call_commit_hook SIZE_MAX false;
      _ ← cancel_mailbox wake;
      _ ← invoke_waker wake waker;
      _ ← invoke_waker wake terminal_waker;
      Ret false
  | CommitInvalid =>
      _ ← call_commit_hook SIZE_MAX false;
      _ ← fail_runtime wake (Some "machine commit phase is invalid"%string) true;
      Ret false
  | Committed runtime_closed waker terminal_waker =>
      _ ← call_commit_hook (Z.of_nat transition_index) false;
      if kind_is CFLOW_MACHINE_STATE_ERROR target then
        _ ← fail_runtime wake (Some "entered error state"%string) false; Ret false
      else
        _ ← (if kind_is CFLOW_MACHINE_STATE_DONE target || runtime_closed
             then cancel_mailbox wake else Ret tt);
        _ ← invoke_waker wake waker;
        _ ← invoke_waker wake terminal_waker;
        Ret (kind_is CFLOW_MACHINE_STATE_ACTIVE target && negb runtime_closed &&
             negb (observes CFLOW_MACHINE_ACTION_VALUE action))
  end.

Definition process_event (event_id : Z) : program bool :=
  cancelled ← settle_cancelled_in_flight;
  if (cancelled : bool) then Ret false
  else
    '(selected, error) ← select_transition event_id;
    cancelled ← settle_cancelled_in_flight;
    if (cancelled : bool) then Ret false
    else
      match selected with
      | None => _ ← fail_runtime wake error true; Ret false
      | Some (transition_index, transition) =>
          staged ← stage_transition transition error;
          match staged with
          | None => Ret false
          | Some (target, action) => finish_transition transition_index target action
          end
      end.

(** ** The worker task *)

(** [cflow_waitable_arm (&impl->mailbox_waitable, waker)]: the answer and the waker
    the mailbox invokes at once. *)
Definition mailbox_arm : program (bool * cflow_waker) :=
  update (fun w : world =>
    let '(armed, m, waker) :=
      cflow_mailbox_wait_arm (mb_impl (mw_mailbox w)) (machine_waker machine_mailbox_wake_fn) in
    ((armed, waker), set_mw_mailbox (mk_mailbox m) w)).

Definition arm_mailbox : program bool :=
  proceed ← locked (fun i =>
    if finished i then (false, i) else (true, set_in_mailbox_armed true i));
  if negb proceed then Ret true
  else
    '(armed, waker) ← mailbox_arm;
    if (armed : bool) then _ ← invoke_waker wake waker; Ret true
    else
      _ ← locked_update (set_in_mailbox_armed false);
      _ ← fail_runtime wake (Some "machine mailbox waitable arm failed"%string) false;
      Ret false.

(** The loop of the task; the answer says whether it used its quantum up. *)
Fixpoint task_loop (iterations : nat) : program bool :=
  match iterations with
  | O => Ret true
  | S iterations =>
      terminal ← locked (fun i =>
        let terminal := settled i in
        (terminal, if terminal then i else set_in_worker_phase CFLOW_MACHINE_WORKER_EXECUTING i));
      if (terminal : bool) then Ret false
      else
        '(status, event_id) ← mailbox_receive;
        match status with
        | CFLOW_MAILBOX_EMPTY =>
            control_requested ← locked (fun i =>
              let i := set_in_worker_phase CFLOW_MACHINE_WORKER_SCHEDULED i in
              (negb (lifecycle_is CFLOW_MACHINE_CONTROL_OPEN i), i));
            if (control_requested : bool)
            then _ ← publish_done wake CFLOW_MACHINE_READY_DONE; Ret false
            else _ ← arm_mailbox; Ret false
        | CFLOW_MAILBOX_CLOSED | CFLOW_MAILBOX_CANCELLED =>
            _ ← publish_done wake CFLOW_MACHINE_READY_DONE; Ret false
        | CFLOW_MAILBOX_OK =>
            _ ← locked_update (fun i => set_in_in_flight (size_inc (in_in_flight i)) i);
            continue ← process_event event_id;
            if (continue : bool) then task_loop iterations else Ret false
        | _ =>
            _ ← fail_runtime wake (Some "machine mailbox receive failed"%string) false; Ret false
        end
  end.

(** The section after the loop: whether to post the task again. *)
Definition task_end (exhausted : bool) (i : cflow_machine_instance_impl)
    : bool * cflow_machine_instance_impl :=
  let i := if phase_is CFLOW_MACHINE_WORKER_SCHEDULED i
           then set_in_worker_phase CFLOW_MACHINE_WORKER_IDLE i else i in
  ((in_rerun i && negb (settled i)) || (exhausted && negb (settled i)), i).

Definition machine_executor_task : program unit :=
  _ ← locked_update (set_in_rerun false);
  exhausted ← task_loop CFLOW_MACHINE_INSTANCE_QUANTUM;
  repost ← locked (task_end exhausted);
  if (repost : bool) then _ ← schedule_machine_task wake_depth; Ret tt else Ret tt.

(** ** Adapters *)

(** The waitable of the adapters. *)
Definition machine_wait_arm (waker : cflow_waker) : program bool :=
  if is_null (wk_wake waker) then Ret false
  else
    '(armed, ready) ← locked (fun i =>
      let ready := settled i in
      if negb ready && negb (is_null (wk_wake (in_downstream_waiter i))) then ((false, false), i)
      else ((true, ready), if ready then i else set_in_downstream_waiter waker i));
    _ ← (if (ready : bool) then invoke_waker wake waker else Ret tt);
    Ret armed.

Definition machine_wait_cancel : program unit :=
  locked_update (set_in_downstream_waiter zero_waker).

Definition resume_locked (i : cflow_machine_instance_impl)
    : option (resume_decision * cflow_machine_instance_impl) :=
  match in_ready i with
  | CFLOW_MACHINE_READY_VALUE | CFLOW_MACHINE_READY_VALUE_AND_DONE =>
      value ← read_bytes (in_observation_value i) 0 (Z.to_nat (type_size (ib_output_type impl)));
      if ready_is CFLOW_MACHINE_READY_VALUE i then
        Some (ResumeNow (Resumed CFLOW_STEP_VALUE (Some value) None),
              set_in_ready CFLOW_MACHINE_READY_NONE i)
      else Some (ResumeNow (Resumed CFLOW_STEP_VALUE_AND_DONE (Some value) None), i)
  | _ =>
      if ready_is CFLOW_MACHINE_READY_ERROR i || negb (is_null (in_error i))
      then Some (ResumeNow (Resumed CFLOW_STEP_ERROR None (in_error i)), i)
      else if ready_is CFLOW_MACHINE_READY_DONE i || in_done i
      then Some (ResumeNow (Resumed CFLOW_STEP_DONE None None), i)
      else Some (ResumeSchedule, i)
  end.

Definition machine_resume : program resumed :=
  decision ← step (fun w : world =>
    '(decision, i) ← resume_locked (mw_instance w); Some (decision, set_mw_instance i w));
  match decision with
  | ResumeNow answer => Ret answer
  | ResumeSchedule =>
      scheduled ← schedule_machine_task wake_depth;
      if (scheduled : bool) then Ret (Resumed CFLOW_STEP_WAIT None None)
      else
        error ← read (fun w : world => in_error (mw_instance w));
        Ret (Resumed CFLOW_STEP_ERROR None error)
  end.

Definition request_cancel_locked (i : cflow_machine_instance_impl)
    : option (bool * (cflow_waker * cflow_waker)) * cflow_machine_instance_impl :=
  if in_done i || lifecycle_is CFLOW_MACHINE_CONTROL_TERMINAL i then (None, i)
  else
    let mailbox_armed := in_mailbox_armed i in
    let i := set_in_mailbox_armed false i in
    let i := set_in_closed true i in
    let i := set_in_cancelled true i in
    let i := set_in_lifecycle CFLOW_MACHINE_CONTROL_CANCEL_REQUESTED i in
    if negb (phase_is CFLOW_MACHINE_WORKER_EXECUTING i) &&
       negb (phase_is CFLOW_MACHINE_WORKER_COMMITTING i)
    then
      let (wakers, i) := take_waiters (publish_control_terminal_locked i) in
      (Some (mailbox_armed, wakers), i)
    else (Some (mailbox_armed, (zero_waker, zero_waker)), i).

Definition request_cancel : program unit :=
  _ ← call_commit_hook SIZE_MAX true;
  requested ← locked request_cancel_locked;
  _ ← call_commit_hook SIZE_MAX false;
  match requested with
  | None => Ret tt
  | Some (mailbox_armed, (waker, terminal_waker)) =>
      _ ← disarm_mailbox mailbox_armed;
      _ ← cancel_mailbox wake;
      _ ← invoke_waker wake waker;
      invoke_waker wake terminal_waker
  end.

Definition machine_cancel : program unit := request_cancel.

Definition machine_detach : program unit :=
  _ ← machine_cancel;
  locked_update (set_in_adapter_attached false).

Definition machine_source_bind_terminal (waker : cflow_waker) : program unit :=
  terminal ← locked (fun i =>
    let terminal := finished i in
    (terminal, set_in_terminal_waiter (if terminal then zero_waker else waker) i));
  if (terminal : bool) then invoke_waker wake waker else Ret tt.

Definition machine_source_poll_terminal
    : program (cflow_publisher_terminal * option string) :=
  read (fun w : world =>
    let i := mw_instance w in
    match in_error i with
    | Some error => (CFLOW_PUBLISHER_ERROR, Some error)
    | None => (if in_done i then CFLOW_PUBLISHER_DONE else CFLOW_PUBLISHER_OPEN, None)
    end).

(** [cflow_machine_instance_as_resumable] and [..._as_publisher] on an empty
    destination. *)
Definition attach_adapter : program bool :=
  locked (fun i =>
    if in_adapter_attached i then (false, i) else (true, set_in_adapter_attached true i)).

(** ** The public operations *)

Definition cflow_machine_instance_try_send (event : option cflow_event_view)
    : program cflow_mailbox_status :=
  if negb (ib_mailbox_initialized impl) then Ret CFLOW_MAILBOX_INVALID_ARGUMENT
  else
    '(status, waker) ← mailbox_send (fun _ => event);
    _ ← invoke_waker wake waker;
    Ret status.

Definition close_instance_locked (i : cflow_machine_instance_impl)
    : (bool * (cflow_waker * cflow_waker)) * cflow_machine_instance_impl :=
  let i := set_in_closed true i in
  let i := if lifecycle_is CFLOW_MACHINE_CONTROL_OPEN i
           then set_in_lifecycle CFLOW_MACHINE_CONTROL_CLOSE_REQUESTED i else i in
  let mailbox_armed := in_mailbox_armed i in
  let i := set_in_mailbox_armed false i in
  let terminal := finished i ||
    (negb (phase_is CFLOW_MACHINE_WORKER_EXECUTING i) &&
     negb (phase_is CFLOW_MACHINE_WORKER_COMMITTING i)) in
  let i := if terminal && is_null (in_error i) then publish_control_terminal_locked i else i in
  if terminal
  then let (wakers, i) := take_waiters i in ((mailbox_armed, wakers), i)
  else ((mailbox_armed, (zero_waker, zero_waker)), i).

Definition cflow_machine_instance_close : program unit :=
  _ ← call_commit_hook SIZE_MAX true;
  '(mailbox_armed, (waker, terminal_waker)) ← locked close_instance_locked;
  _ ← call_commit_hook SIZE_MAX false;
  _ ← disarm_mailbox mailbox_armed;
  _ ← cancel_mailbox wake;
  _ ← invoke_waker wake waker;
  invoke_waker wake terminal_waker.

Definition cflow_machine_instance_cancel : program unit := request_cancel.

(** The type and the bytes of the state. *)
Definition cflow_machine_instance_copy_state (capacity : Z)
    : program (option (option cmeta_type_desc * list Z)) :=
  step (fun w : world =>
    let i := mw_instance w in
    let type := ms_value_type (in_state i) in
    if capacity <? type_size type then Some (None, w)
    else
      value ← read_bytes (in_state_value i) 0 (Z.to_nat (type_size type));
      Some (Some (type, value), w)).

Definition cflow_machine_instance_current_state : program Z :=
  read (fun w : world => ms_id (in_state (mw_instance w))).

Definition cflow_machine_instance_error : program (option string) :=
  read (fun w : world => in_error (mw_instance w)).

(** ** Snapshots *)

(** [machine_observe_stats] runs under both locks, mailbox first. *)
Definition machine_observe_stats (i : cflow_machine_instance_impl) (m : cflow_mailbox_stats)
    : cflow_machine_instance_stats :=
  {| ist_accepted := st_accepted m;
     ist_completed := in_completed i;
     ist_failed := in_failed i;
     ist_cancelled_events := u64 (st_cancelled m + in_cancelled_in_flight i);
     ist_emitted_values := in_emitted_values i;
     ist_emitted_events := in_emitted_events i;
     ist_pending := st_pending m;
     ist_in_flight :=
       if st_received m =? UINT64_MAX then in_in_flight i
       else u64 (st_received m - in_completed i - in_failed i - in_cancelled_in_flight i);
     ist_current_state := ms_id (in_state i);
     ist_closed := in_closed i;
     ist_cancelled := in_cancelled i;
     ist_done := in_done i;
     ist_errored := negb (is_null (in_error i)) |}.

Definition zero_mailbox_stats : cflow_mailbox_stats :=
  mk_mailbox_stats 0 0 0 0 0 0 0 0 0 0 0 0.

Definition cflow_machine_instance_get_stats : program (option cflow_machine_instance_stats) :=
  read (A := option cflow_machine_instance_stats) (fun w : world =>
    if ib_mailbox_initialized impl
    then machine_observe_stats (mw_instance w) <$> cflow_mailbox_get_stats (Some (mw_mailbox w))
    else Some (machine_observe_stats (mw_instance w) zero_mailbox_stats)).

(** ** Timer contracts *)

Definition cflow_machine_instance_timer_payload_capacity : option Z :=
  if negb (ib_mailbox_initialized impl) || (ib_event_capacity impl =? 0) then None
  else Some (ib_event_capacity impl).

Definition cflow_machine_instance_timer_event_contract (event : option cflow_event_view)
    : cflow_mailbox_status * option cmeta_type_desc :=
  match event with
  | None => (CFLOW_MAILBOX_INVALID_ARGUMENT, None)
  | Some e =>
      if (ev_id e =? 0) || is_null (ev_payload_type e) || is_null (ev_payload e)
      then (CFLOW_MAILBOX_INVALID_ARGUMENT, None)
      else
        match bsearch et_id (machine_rows mi_events (ib_machine impl)) (ev_id e) with
        | None => (CFLOW_MAILBOX_INVALID_ARGUMENT, None)
        | Some (_, expected) =>
            if negb (cmeta_type_equal (et_payload_type expected) (ev_payload_type e))
            then (CFLOW_MAILBOX_TYPE_MISMATCH, None)
            else (CFLOW_MAILBOX_OK, et_payload_type expected)
        end
  end.

End Instance.

(** * Data *)

Record executor_view := mk_executor_view {
  ex_valid : bool;
  ex_serial : bool;
  ex_manual : bool;
  ex_owner_affine : bool;
  ex_owner_is_thread : bool;
}.

Record cflow_machine_instance_config := mk_instance_config {
  mc_machine : option cflow_machine;
  mc_initial_state : option (list Z);
  mc_output_type : option cmeta_type_desc;
  mc_guards : option (list cflow_machine_guard_binding);
  mc_guard_count : nat;
  mc_actions : option (list cflow_machine_action_binding);
  mc_action_count : nat;
  mc_mailbox_capacity : nat;
  mc_executor : option executor_view;
}.

(** The instance behind a handle: what is fixed, the fields and the mailbox. *)
Record instance_storage := mk_instance_storage {
  is_binding : instance_binding;
  is_impl : cflow_machine_instance_impl;
  is_mailbox : cflow_mailbox;
}.

Record cflow_machine_instance := mk_machine_instance { ci_impl : option instance_storage }.

Inductive instance_allocation :=
  | INST_ALLOC_IMPL | INST_ALLOC_GUARDS | INST_ALLOC_ACTIONS | INST_ALLOC_SCHEMA
  | INST_ALLOC_MAILBOX (a : mailbox_allocation) | INST_ALLOC_STATE | INST_ALLOC_TARGET
  | INST_ALLOC_EVENT | INST_ALLOC_OBSERVATION | INST_ALLOC_LOCK | INST_ALLOC_ERROR.

(** * Bindings *)

Definition sizeof_guard_binding : Z := 24.
Definition sizeof_action_binding : Z := 24.

Definition compare_guard_binding
    : cflow_machine_guard_binding -> cflow_machine_guard_binding -> Z := compare_key gb_id.
Definition compare_action_binding
    : cflow_machine_action_binding -> cflow_machine_action_binding -> Z := compare_key ab_id.

(** [for (index = 0; index < count; ++index)
     if (bound[index].id != declaration->id || bound[index].fn == NULL) ...]. *)
Fixpoint bindings_match {A D} (key : A -> Z) (fn : A -> option addr) (id : D -> Z)
    (bound : list A) (declarations : list D) : bool :=
  match bound, declarations with
  | [], [] => true
  | b :: bound, d :: declarations =>
      (key b =? id d) && negb (is_null (fn b)) && bindings_match key fn id bound declarations
  | _, _ => false
  end.

(** One of the two halves of [copy_and_validate_bindings]; the outer [None] reads
    past the caller's array. *)
Definition copy_bindings `{Qsort} {A D} (allocated : bool) (width : Z) (key : A -> Z)
    (fn : A -> option addr) (id : D -> Z) (bindings : option (list A)) (declarations : list D)
    : option (cflow_machine_instance_status * list A) :=
  let count := length declarations in
  if (count =? 0)%nat then Some (CFLOW_MACHINE_INSTANCE_OK, [])
  else if SIZE_MAX / width <? Z.of_nat count then Some (CFLOW_MACHINE_INSTANCE_INVALID_ARGUMENT, [])
  else if negb allocated then Some (CFLOW_MACHINE_INSTANCE_ALLOCATION_FAILED, [])
  else
    l ← bindings;
    if (length l <? count)%nat then None
    else
      let bound := qsort (compare_key key) (take count l) in
      if bindings_match key fn id bound declarations then Some (CFLOW_MACHINE_INSTANCE_OK, bound)
      else Some (CFLOW_MACHINE_INSTANCE_BINDING_MISMATCH, []).

Definition copy_and_validate_bindings `{Qsort} (malloc : instance_allocation -> bool)
    (machine : cflow_machine) (config : cflow_machine_instance_config)
    : option (cflow_machine_instance_status *
              list cflow_machine_guard_binding * list cflow_machine_action_binding) :=
  let guards := machine_rows mi_guards machine in
  let actions := machine_rows mi_actions machine in
  if negb (mc_guard_count config =? length guards)%nat ||
     negb (mc_action_count config =? length actions)%nat ||
     (negb (length guards =? 0)%nat && is_null (mc_guards config)) ||
     (negb (length actions =? 0)%nat && is_null (mc_actions config))
  then Some (CFLOW_MACHINE_INSTANCE_BINDING_MISMATCH, [], [])
  else
    '(status, bound_guards) ← copy_bindings (malloc INST_ALLOC_GUARDS) sizeof_guard_binding
                                gb_id gb_fn mg_id (mc_guards config) guards;
    match status with
    | CFLOW_MACHINE_INSTANCE_OK =>
        '(status, bound_actions) ← copy_bindings (malloc INST_ALLOC_ACTIONS) sizeof_action_binding
                                     ab_id ab_fn ma_id (mc_actions config) actions;
        Some (status, bound_guards, bound_actions)
    | _ => Some (status, [], [])
    end.

(** * Types *)

(** [runtime_type_supported]. *)
Definition runtime_type_supported (type : option cmeta_type_desc) : bool :=
  payload_type_supported type.

Fixpoint measure_states (rows : list cflow_machine_state) (state_capacity : Z) : option Z :=
  match rows with
  | [] => Some state_capacity
  | state :: rows =>
      if negb (runtime_type_supported (ms_value_type state)) then None
      else
        let size := type_size (ms_value_type state) in
        measure_states rows (if state_capacity <? size then size else state_capacity)
  end.

Fixpoint measure_actions (output_type : option cmeta_type_desc) (rows : list cflow_machine_action)
    (observation_capacity : Z) : cflow_machine_instance_status * Z :=
  match rows with
  | [] => (CFLOW_MACHINE_INSTANCE_OK, observation_capacity)
  | action :: rows =>
      if bool_decide (ma_observation action = CFLOW_MACHINE_ACTION_VALUE) &&
         negb (cmeta_type_equal (ma_output_type action) output_type)
      then (CFLOW_MACHINE_INSTANCE_TYPE_MISMATCH, 0)
      else if bool_decide (ma_observation action = CFLOW_MACHINE_ACTION_NONE)
      then measure_actions output_type rows observation_capacity
      else if negb (runtime_type_supported (ma_output_type action))
      then (CFLOW_MACHINE_INSTANCE_UNSUPPORTED_TYPE, 0)
      else
        let size := type_size (ma_output_type action) in
        measure_actions output_type rows
          (if observation_capacity <? size then size else observation_capacity)
  end.

(** The status and the state and observation capacities. *)
Definition measure_supported_types (machine : cflow_machine)
    (config : cflow_machine_instance_config) : cflow_machine_instance_status * Z * Z :=
  if negb (runtime_type_supported (mc_output_type config))
  then (CFLOW_MACHINE_INSTANCE_UNSUPPORTED_TYPE, 0, 0)
  else
    match measure_states (machine_rows mi_states machine) 0 with
    | None => (CFLOW_MACHINE_INSTANCE_UNSUPPORTED_TYPE, 0, 0)
    | Some state_capacity =>
        let (status, observation_capacity) :=
          measure_actions (mc_output_type config) (machine_rows mi_actions machine)
            (type_size (mc_output_type config)) in
        (status, state_capacity, observation_capacity)
    end.

(** * The mailbox *)

(** The status, whether there is a mailbox, and the mailbox. *)
Definition initialize_mailbox `{Qsort} (malloc : instance_allocation -> bool)
    (fresh : nat -> list Z) (machine : cflow_machine) (config : cflow_machine_instance_config)
    : option (cflow_machine_instance_status * bool * cflow_mailbox) :=
  let events := machine_rows mi_events machine in
  let none := mk_mailbox None in
  if (length events =? 0)%nat then Some (CFLOW_MACHINE_INSTANCE_OK, false, none)
  else if SIZE_MAX / sizeof_event_type <? Z.of_nat (length events)
  then Some (CFLOW_MACHINE_INSTANCE_INVALID_ARGUMENT, false, none)
  else if negb (malloc INST_ALLOC_SCHEMA)
  then Some (CFLOW_MACHINE_INSTANCE_ALLOCATION_FAILED, false, none)
  else
    '(status, mailbox) ← cflow_mailbox_init (fun a => malloc (INST_ALLOC_MAILBOX a)) fresh
                           (Some none) (Some events) (length events) (mc_mailbox_capacity config);
    mailbox ← mailbox;
    match status with
    | CFLOW_MAILBOX_OK => Some (CFLOW_MACHINE_INSTANCE_OK, true, mailbox)
    | CFLOW_MAILBOX_ALLOCATION_FAILED =>
        Some (CFLOW_MACHINE_INSTANCE_ALLOCATION_FAILED, false, none)
    | _ => Some (CFLOW_MACHINE_INSTANCE_UNSUPPORTED_TYPE, false, none)
    end.

(** * Publication *)

Definition executor_rejected (e : executor_view) : bool :=
  negb (ex_valid e) || negb (ex_serial e) || (ex_manual e && negb (ex_owner_affine e)) ||
  (ex_owner_affine e && negb (ex_owner_is_thread e)).

(** The fields of a zeroed instance in [initial] with its buffers. *)
Definition initial_impl (initial : cflow_machine_state)
    (state_value target event observation : list Z) : cflow_machine_instance_impl :=
  mk_instance_impl initial state_value target event observation None 0 0 0 0 0 0
    false false false false false false CFLOW_MACHINE_CONTROL_OPEN CFLOW_MACHINE_WORKER_IDLE
    zero_waker zero_waker CFLOW_MACHINE_READY_NONE.

(** The last block of assignments: an initial state that is not active is terminal. *)
Definition initial_terminal (error_allocated : bool) (i : cflow_machine_instance_impl)
    : cflow_machine_instance_impl :=
  let initial := in_state i in
  let i := set_in_done (negb (kind_is CFLOW_MACHINE_STATE_ACTIVE initial)) i in
  let i := if in_done i then set_in_lifecycle CFLOW_MACHINE_CONTROL_TERMINAL i else i in
  if kind_is CFLOW_MACHINE_STATE_DONE initial then set_in_ready CFLOW_MACHINE_READY_DONE i
  else if kind_is CFLOW_MACHINE_STATE_ERROR initial then
    set_in_ready CFLOW_MACHINE_READY_ERROR
      (set_in_error (Some (if error_allocated then "initial error state"%string
                           else "machine runtime could not preserve error text"%string)) i)
  else i.

Section Init.
Context `{Qsort} (malloc : instance_allocation -> bool) (fresh : nat -> list Z).

(** From the measured types to the published instance; [address] and
    [event_address] are where the allocator put the instance and its event buffer. *)
Definition init_storage (address event_address : addr) (commit_hook boundary_hook : bool)
    (machine : cflow_machine) (initial : cflow_machine_state) (value : list Z)
    (config : cflow_machine_instance_config)
    (guards : list cflow_machine_guard_binding) (actions : list cflow_machine_action_binding)
    (state_capacity observation_capacity : Z) (has_mailbox : bool) (mailbox : cflow_mailbox)
    : option (cflow_machine_instance_status * option instance_storage) :=
  if negb (malloc INST_ALLOC_STATE) || negb (malloc INST_ALLOC_TARGET) ||
     negb (malloc INST_ALLOC_EVENT) || negb (malloc INST_ALLOC_OBSERVATION) ||
     negb (malloc INST_ALLOC_LOCK)
  then Some (CFLOW_MACHINE_INSTANCE_ALLOCATION_FAILED, None)
  else
    let event_capacity :=
      if has_mailbox then cflow_mailbox_payload_capacity (Some mailbox) else 0 in
    state_value ← copy_front (fresh (Z.to_nat state_capacity)) value
                    (Z.to_nat (type_size (ms_value_type initial)));
    let i := initial_terminal (malloc INST_ALLOC_ERROR)
      (initial_impl initial state_value (fresh (Z.to_nat state_capacity))
         (fresh (Z.to_nat (if event_capacity =? 0 then 1 else event_capacity)))
         (fresh (Z.to_nat observation_capacity))) in
    mailbox ← (if in_done i && has_mailbox
               then (let '(_, h, _) := cflow_mailbox_cancel (Some mailbox) in h)
               else Some mailbox);
    Some (CFLOW_MACHINE_INSTANCE_OK, Some (mk_instance_storage
      (mk_instance_binding address machine guards actions (mc_output_type config) has_mailbox
         state_capacity event_capacity observation_capacity event_address commit_hook
         boundary_hook) i mailbox)).

Definition cflow_machine_instance_init_internal (address event_address : addr)
    (commit_hook boundary_hook : bool) (instance : option cflow_machine_instance)
    (config : option cflow_machine_instance_config)
    : option (cflow_machine_instance_status * option cflow_machine_instance) :=
  let failed status := Some (status, instance) in
  match instance, config with
  | Some handle, Some c =>
      match mc_machine c, mc_initial_state c, mc_output_type c, mc_executor c with
      | Some machine, Some value, Some _, Some executor =>
          if negb (is_null (ci_impl handle)) || is_null (m_impl machine) ||
             (mc_mailbox_capacity c =? 0)%nat
          then failed CFLOW_MACHINE_INSTANCE_INVALID_ARGUMENT
          else if executor_rejected executor then failed CFLOW_MACHINE_INSTANCE_INVALID_EXECUTOR
          else
            match instance_find_state machine (cflow_machine_initial_state (Some machine)) with
            | None => failed CFLOW_MACHINE_INSTANCE_INVALID_ARGUMENT
            | Some (_, initial) =>
                if negb (malloc INST_ALLOC_IMPL)
                then failed CFLOW_MACHINE_INSTANCE_ALLOCATION_FAILED
                else
                  '(status, guards, actions) ← copy_and_validate_bindings malloc machine c;
                  match status with
                  | CFLOW_MACHINE_INSTANCE_OK =>
                      let '(status, state_capacity, observation_capacity) :=
                        measure_supported_types machine c in
                      match status with
                      | CFLOW_MACHINE_INSTANCE_OK =>
                          '(status, has_mailbox, mailbox) ← initialize_mailbox malloc fresh machine c;
                          match status with
                          | CFLOW_MACHINE_INSTANCE_OK =>
                              '(status, storage) ← init_storage address event_address commit_hook
                                boundary_hook machine initial value c guards actions
                                state_capacity observation_capacity has_mailbox mailbox;
                              match storage with
                              | None => failed status
                              | Some _ => Some (status, Some (mk_machine_instance storage))
                              end
                          | _ => failed status
                          end
                      | _ => failed status
                      end
                  | _ => failed status
                  end
            end
      | _, _, _, _ => failed CFLOW_MACHINE_INSTANCE_INVALID_ARGUMENT
      end
  | _, _ => failed CFLOW_MACHINE_INSTANCE_INVALID_ARGUMENT
  end.

Definition cflow_machine_instance_init (address event_address : addr)
    (instance : option cflow_machine_instance) (config : option cflow_machine_instance_config)
    : option (cflow_machine_instance_status * option cflow_machine_instance) :=
  cflow_machine_instance_init_internal address event_address false false instance config.

End Init.

(** The world of a fresh instance. *)
Definition instance_world {U} (storage : instance_storage) (u : U) : machine_world U :=
  mk_machine_world (is_impl storage) (is_mailbox storage) [] 0 u.
