(* ===== verification/CFlowInstanceSafety.v ===== *)
(** What every step of a machine instance preserves: the invariant of the shared
    fields and the mailbox, indexed by what the worker has in hand, and what one
    thread may rely on about the others.  Each section of the code is shown to
    respect both, so that the programs only have to be put together. *)

From S2P Require Import Prelude CMetaType CFlowSupport CFlowMachine CFlowMailbox CFlowMailboxTheorems CFlowProgram CFlowInstanceData CFlowInstance.

(** * Roles, knowledge, debts *)

(** What the worker has in hand: nothing, an event it just received, or an event
    it counted as in flight. *)
Inductive worker_role := RFree | RReceived | RHolding.

Definition in_hand (r : worker_role) : Z := match r with RFree => 0 | _ => 1 end.

(** What a thread knows, and whether it still has to cancel the mailbox. *)
Record thread_state := mk_thread_state { kn_done : bool; kn_owes : bool }.

Definition lifecycle_rank (l : cflow_machine_control_lifecycle) : nat :=
  match l with
  | CFLOW_MACHINE_CONTROL_OPEN => 0
  | CFLOW_MACHINE_CONTROL_CLOSE_REQUESTED => 1
  | CFLOW_MACHINE_CONTROL_CANCEL_REQUESTED => 2
  | CFLOW_MACHINE_CONTROL_TERMINAL => 3
  end.

Definition instance_rank (i : cflow_machine_instance_impl) : nat := lifecycle_rank (in_lifecycle i).

Lemma lifecycle_is_true l i : lifecycle_is l i = true <-> in_lifecycle i = l.
Proof. apply bool_decide_eq_true. Qed.

Lemma lifecycle_is_false l i : lifecycle_is l i = false <-> in_lifecycle i <> l.
Proof. apply bool_decide_eq_false. Qed.

(** * Monotonicity *)

(** What a commit writes and nothing else. *)
Definition committed_part (i : cflow_machine_instance_impl) :=
  (in_state i, in_state_value i, in_completed i, in_emitted_values i, in_emitted_events i).

(** From a cancel request on, nothing is committed. *)
Record instance_mono (i i' : cflow_machine_instance_impl) : Prop := {
  im_done : in_done i = true -> in_done i' = true;
  im_error : forall e, in_error i = Some e -> in_error i' = Some e;
  im_lifecycle : (instance_rank i <= instance_rank i')%nat;
  im_frozen : (2 <= instance_rank i)%nat -> committed_part i' = committed_part i;
}.

Definition mailbox_cancelled (mb : cflow_mailbox) : Prop :=
  forall m, mb_impl mb = Some m -> mb_terminal m = CFLOW_MAILBOX_TERMINAL_CANCELLED.

Definition mailbox_accepted (mb : cflow_mailbox) : Z :=
  match mb_impl mb with Some m => mb_accepted m | None => 0 end.

Definition mailbox_received (mb : cflow_mailbox) : Z :=
  match mb_impl mb with Some m => mb_received m | None => 0 end.

(** A cancelled mailbox admits nothing more. *)
Record mailbox_mono (mb mb' : cflow_mailbox) : Prop := {
  mm_cancelled : mailbox_cancelled mb ->
    mailbox_cancelled mb' /\ mailbox_accepted mb' = mailbox_accepted mb;
  mm_accepted : mailbox_accepted mb <= mailbox_accepted mb';
}.

#[export] Instance instance_mono_preorder : PreOrder instance_mono.
Proof.
  split; [by split|]. intros i1 i2 i3 [D1 E1 L1 F1] [D2 E2 L2 F2]. split; [auto..|lia|].
  intros Hr. rewrite F2, F1 by lia. done.
Qed.

#[export] Instance mailbox_mono_preorder : PreOrder mailbox_mono.
Proof.
  split; [split; [done|lia]|]. intros m1 m2 m3 [C1 A1] [C2 A2]. split; [|lia].
  intros [H1 E1]%C1. destruct (C2 H1) as [H2 E2]. split; [done|lia].
Qed.

(** * The invariant *)

(** The fields a terminal instance shows: done exactly with a terminal answer. *)
Record instance_answers (i : cflow_machine_instance_impl) : Prop := {
  ia_done : in_done i = true ->
    in_lifecycle i = CFLOW_MACHINE_CONTROL_TERMINAL /\
    (in_ready i = CFLOW_MACHINE_READY_VALUE_AND_DONE \/ in_ready i = CFLOW_MACHINE_READY_DONE \/
     in_ready i = CFLOW_MACHINE_READY_ERROR);
  ia_running : in_done i = false ->
    in_error i = None /\
    (in_ready i = CFLOW_MACHINE_READY_NONE \/ in_ready i = CFLOW_MACHINE_READY_VALUE);
}.

Record instance_counts (r : worker_role) (i : cflow_machine_instance_impl) (accepted received : Z)
    : Prop := {
  ic_flight : in_in_flight i = match r with RHolding => 1 | _ => 0 end;
  ic_range : 0 <= in_completed i /\ 0 <= in_failed i /\ 0 <= in_cancelled_in_flight i;
  ic_exact : accepted < UINT64_MAX ->
    received = in_completed i + in_failed i + in_cancelled_in_flight i + in_hand r;
}.

Section Invariant.
Context (impl : instance_binding).

#[local] Abbreviation states := (machine_rows mi_states (ib_machine impl)).
#[local] Abbreviation events := (machine_rows mi_events (ib_machine impl)).
#[local] Abbreviation actions := (machine_rows mi_actions (ib_machine impl)).

(** The buffers have the sizes initialisation gave them. *)
Record instance_buffers (i : cflow_machine_instance_impl) : Prop := {
  ib_in_state : in_state i ∈ states;
  ib_state_length : length (in_state_value i) = Z.to_nat (ib_state_capacity impl);
  ib_target_length : length (in_target_value i) = Z.to_nat (ib_state_capacity impl);
  ib_event_length : (Z.to_nat (ib_event_capacity impl) <= length (in_event_value i))%nat;
  ib_observation_length : length (in_observation_value i) = Z.to_nat (ib_observation_capacity impl);
}.

(** The mailbox holds a bounded queue of the events of the machine. *)
Definition mailbox_ok (mb : cflow_mailbox) : Prop :=
  match mb_impl mb with
  | None => ib_mailbox_initialized impl = false
  | Some m => ib_mailbox_initialized impl = true /\
      exists f, mailbox_rel m f /\ ff_schema f = events
  end.

Record instance_inv (r : worker_role) (i : cflow_machine_instance_impl) (mb : cflow_mailbox)
    : Prop := {
  ii_buffers : instance_buffers i;
  ii_answers : instance_answers i;
  ii_counts : instance_counts r i (mailbox_accepted mb) (mailbox_received mb);
  ii_mailbox : mailbox_ok mb;
}.

(** A control request reached the mailbox. *)
Definition instance_clear (i : cflow_machine_instance_impl) (mb : cflow_mailbox) : Prop :=
  in_lifecycle i = CFLOW_MACHINE_CONTROL_OPEN \/ mailbox_cancelled mb.

(** What initialisation establishes about the sizes and the bindings, and what the
    action callbacks promise. *)
Record instance_setting `{MachineEnvironment U} : Prop := {
  se_states : forall s, s ∈ states ->
    0 <= type_size (ms_value_type s) <= ib_state_capacity impl;
  se_kinds : forall s, s ∈ states ->
    ms_kind s = CFLOW_MACHINE_STATE_ACTIVE \/ ms_kind s = CFLOW_MACHINE_STATE_DONE \/
    ms_kind s = CFLOW_MACHINE_STATE_ERROR;
  se_output : 0 <= type_size (ib_output_type impl) <= ib_observation_capacity impl;
  se_emitted : forall a e, a ∈ actions -> ma_observation a = CFLOW_MACHINE_ACTION_EVENT ->
    e ∈ events -> et_id e = ma_output_event_id a ->
    type_size (et_payload_type e) <= ib_observation_capacity impl;
  se_guards : forall b, b ∈ ib_guards impl -> is_Some (gb_fn b);
  se_actions : forall b, b ∈ ib_actions impl -> is_Some (ab_fn b);
  se_in_bounds : forall fn user state event target observation error u,
    let (a, _) := env_action fn user state event target observation error u in
    length (ar_target a) = length target /\
    forall o, observation = Some o -> length (ar_observation a) = length o;
}.

Definition machine_protocol (U : Type) : protocol (machine_world U) worker_role thread_state := {|
  pr_inv := fun r w => instance_inv r (mw_instance w) (mw_mailbox w);
  pr_know := fun k w => kn_done k = true -> in_done (mw_instance w) = true;
  pr_mono := fun w w' => instance_mono (mw_instance w) (mw_instance w') /\
                         mailbox_mono (mw_mailbox w) (mw_mailbox w');
  pr_clear := fun w => instance_clear (mw_instance w) (mw_mailbox w);
  pr_owes := fun k => kn_owes k = true;
|}.

(** ** Sections of the instance lock *)

(** The part of the fields the invariant and the order speak of. *)
Definition core (i : cflow_machine_instance_impl) :=
  (committed_part i, in_error i, in_failed i, in_cancelled_in_flight i, in_in_flight i,
   in_done i, in_lifecycle i, in_ready i,
   (length (in_target_value i), length (in_event_value i), length (in_observation_value i))).

Lemma core_mono i i' : core i' = core i -> instance_mono i i'.
Proof.
  unfold core. intros [= H1 H2 H3 H4 H5 H6 H7 H8 H9 H10 H11 H12 H13 H14 H15].
  split; unfold instance_rank, committed_part; by rewrite ?H1, ?H2, ?H3, ?H4, ?H5, ?H6, ?H10, ?H11.
Qed.

Lemma core_inv r i i' mb : core i' = core i -> instance_inv r i mb -> instance_inv r i' mb.
Proof.
  unfold core. intros [= H1 H2 H3 H4 H5 H6 H7 H8 H9 H10 H11 H12 H13 H14 H15]
    [[B1 B2 B3 B4 B5] [A1 A2] [C1 C2 C3] M]. split; [..|done]; split.
  all: rewrite ?H1, ?H2, ?H3, ?H6, ?H7, ?H8, ?H9, ?H10, ?H11, ?H12, ?H13, ?H14, ?H15; done.
Qed.

Lemma core_clear i i' mb : core i' = core i -> instance_clear i mb -> instance_clear i' mb.
Proof. unfold core, instance_clear. intros [=]. destruct 1; [left; congruence|by right]. Qed.

(** ** Control sections *)

(** What a section that commits nothing keeps. *)
Definition kept (i : cflow_machine_instance_impl) :=
  (committed_part i, in_target_value i, in_event_value i, in_observation_value i).

Lemma inv_kept r r' i i' mb :
  instance_inv r i mb -> kept i' = kept i -> instance_answers i' ->
  instance_counts r' i' (mailbox_accepted mb) (mailbox_received mb) -> instance_inv r' i' mb.
Proof.
  unfold kept, committed_part. intros [[B1 B2 B3 B4 B5] _ _ M] [= E1 E2 _ _ _ E3 E4 E5] Ha Hc.
  split; [|done..|done]. split; by rewrite ?E1, ?E2, ?E3, ?E4, ?E5.
Qed.

Lemma mono_kept i i' :
  kept i' = kept i -> (in_done i = true -> in_done i' = true) ->
  (forall e, in_error i = Some e -> in_error i' = Some e) ->
  (instance_rank i <= instance_rank i')%nat -> instance_mono i i'.
Proof. unfold kept. intros [= ?] ???. split; try done. intros _. unfold committed_part. congruence. Qed.

Lemma instance_rank_le3 i : (instance_rank i <= 3)%nat.
Proof. unfold instance_rank. destruct (in_lifecycle i); simpl; lia. Qed.

Lemma counts_same r i i' accepted received :
  instance_counts r i accepted received ->
  (in_completed i', in_failed i', in_cancelled_in_flight i', in_in_flight i') =
  (in_completed i, in_failed i, in_cancelled_in_flight i, in_in_flight i) ->
  instance_counts r i' accepted received.
Proof. intros [C1 C2 C3] [= E1 E2 E3 E4]. by split; rewrite ?E1, ?E2, ?E3, ?E4. Qed.

Lemma counter_increment_nonneg c : 0 <= c -> 0 <= counter_increment c.
Proof. unfold counter_increment. intros. case_if; [done|]. by apply u64_range. Qed.

Lemma counter_increment_le c : 0 <= c <= UINT64_MAX -> c <= counter_increment c.
Proof.
  intros Hc. destruct (decide (c = UINT64_MAX)) as [->|].
  - unfold counter_increment. by rewrite Z.eqb_refl.
  - rewrite counter_increment_small; lia.
Qed.

Lemma leave_flight_holding i : in_in_flight i = 1 -> leave_flight i = set_in_in_flight 0 i.
Proof. unfold leave_flight. by intros ->. Qed.

(** Settling the event in hand moves it to one of the three counters. *)
Lemma counts_settle i i' accepted received :
  instance_counts RHolding i accepted received -> received <= accepted \/ UINT64_MAX <= accepted ->
  in_in_flight i' = 0 ->
  (in_completed i' = counter_increment (in_completed i) /\ in_failed i' = in_failed i /\
     in_cancelled_in_flight i' = in_cancelled_in_flight i \/
   in_completed i' = in_completed i /\ in_failed i' = counter_increment (in_failed i) /\
     in_cancelled_in_flight i' = in_cancelled_in_flight i \/
   in_completed i' = in_completed i /\ in_failed i' = in_failed i /\
     in_cancelled_in_flight i' = counter_increment (in_cancelled_in_flight i)) ->
  instance_counts RFree i' accepted received.
Proof.
  intros [C1 C2 C3] Hle Hf Hcases. split; [done| |].
  - destruct Hcases as [(-> & -> & ->)|[(-> & -> & ->)|(-> & -> & ->)]]; split_and!;
      first [apply counter_increment_nonneg; lia|lia].
  - intros Ha. specialize (C3 Ha). simpl in *.
    destruct Hcases as [(-> & -> & ->)|[(-> & -> & ->)|(-> & -> & ->)]];
      rewrite counter_increment_small by lia; lia.
Qed.

Lemma mailbox_ok_received mb :
  mailbox_ok mb -> mailbox_received mb <= mailbox_accepted mb \/ UINT64_MAX <= mailbox_accepted mb.
Proof.
  unfold mailbox_ok, mailbox_received, mailbox_accepted. destruct (mb_impl mb) as [m|]; [|lia].
  intros (_ & f & Hrel & _). destruct (rl_inv _ _ Hrel) as [_ _ _ _ _ _ _ _ _ _ [Hr1 [Hr2 Hr3]] Hacc].
  destruct (decide (mb_accepted m < UINT64_MAX)) as [Hlt|]; [|lia]. specialize (Hacc Hlt). lia.
Qed.

(** Putting a terminal answer in place. *)
Lemma set_terminal_answers ready i :
  ready = CFLOW_MACHINE_READY_DONE \/ ready = CFLOW_MACHINE_READY_ERROR ->
  instance_answers (snd (take_waiters (set_terminal ready i))).
Proof. intros Hr. split; [|done]. intros _. split; [done|]. simpl. tauto. Qed.

Lemma set_terminal_mono ready i : instance_mono i (snd (take_waiters (set_terminal ready i))).
Proof. apply mono_kept; try done. apply instance_rank_le3. Qed.

(** [publish_done]. *)
Lemma publish_section r ready i mb :
  ready = CFLOW_MACHINE_READY_DONE \/ ready = CFLOW_MACHINE_READY_ERROR ->
  instance_inv r i mb ->
  let i' := snd (take_waiters (set_terminal ready i)) in
  instance_inv r i' mb /\ instance_mono i i' /\ in_done i' = true.
Proof.
  intros Hr Hi i'. split_and!; [|apply set_terminal_mono|done].
  apply (inv_kept r r i); [done|done|by apply set_terminal_answers|].
  eapply counts_same; [apply Hi|done].
Qed.

(** [settle_cancelled_in_flight] and the cancelled commit. *)
Lemma settle_section i mb :
  instance_inv RHolding i mb ->
  let i' := snd (settle_locked i) in
  instance_inv RFree i' mb /\ instance_mono i i' /\ in_done i' = true.
Proof.
  intros Hi i'. pose proof (ic_flight _ _ _ _ (ii_counts _ _ _ Hi)) as Hf.
  unfold i', settle_locked. rewrite leave_flight_holding by done.
  split_and!; [|etrans; [|apply set_terminal_mono]; by apply mono_kept|done].
  apply (inv_kept RHolding RFree i); [done|done|apply set_terminal_answers; by left|].
  eapply counts_settle; [apply Hi|apply mailbox_ok_received, Hi|done|]. right. by right.
Qed.

Lemma fail_section copy (settle : bool) r i mb :
  (settle = true -> r = RHolding) -> instance_inv r i mb ->
  let i' := snd (fail_locked copy settle i) in
  instance_inv (if settle then RFree else r) i' mb /\ instance_mono i i' /\ in_done i' = true.
Proof.
  intros Hr Hi i'.
  set (i1 := if negb (lifecycle_is CFLOW_MACHINE_CONTROL_CANCEL_REQUESTED i) && is_null (in_error i)
             then set_in_error (Some (default "machine runtime could not preserve error text"%string copy)) i
             else i).
  assert (i' = snd (fail_locked copy settle i)) as Hi' by done. clearbody i'.
  unfold fail_locked in Hi'. fold i1 in Hi'.
  assert (kept i1 = kept i /\ (in_completed i1, in_failed i1, in_cancelled_in_flight i1, in_in_flight i1) =
    (in_completed i, in_failed i, in_cancelled_in_flight i, in_in_flight i) /\
    in_done i1 = in_done i /\ in_lifecycle i1 = in_lifecycle i /\
    (forall e, in_error i = Some e -> in_error i1 = Some e)) as (Hk & Hc & Hd & Hl & He).
  { unfold i1. destruct (negb _ && _) eqn:Hcase; [|done]. split_and!; try done.
    destruct_bools. intros e Hsome. by rewrite Hsome in *. }
  assert (instance_mono i i1) as Hm.
  { apply mono_kept; [done|congruence|done|]. unfold instance_rank. by rewrite Hl. }
  clearbody i1.
  assert (instance_counts r i1 (mailbox_accepted mb) (mailbox_received mb)) as Hcounts
    by (eapply counts_same; [apply Hi|done]).
  destruct settle.
  - specialize (Hr eq_refl). subst r. pose proof (ic_flight _ _ _ _ Hcounts) as Hf.
    rewrite leave_flight_holding in Hi' by done. subst i'.
    split_and!; [|etrans; [done|]; etrans; [|apply set_terminal_mono]; case_if; by apply mono_kept|done].
    apply (inv_kept RHolding RFree i); [done|by case_if|apply set_terminal_answers; case_if; tauto|].
    eapply counts_settle; [apply Hcounts|apply mailbox_ok_received, Hi|by case_if|].
    destruct (lifecycle_is _ _); tauto.
  - subst i'. split_and!; [|etrans; [done|apply set_terminal_mono]|done].
    apply (inv_kept r r i); [done|done|apply set_terminal_answers; case_if; tauto|].
    by eapply counts_same.
Qed.

Lemma publish_control_answers i :
  instance_answers i ->
  instance_answers (snd (take_waiters (publish_control_terminal_locked i))).
Proof.
  intros [Hd Hr]. split.
  - intros _. unfold publish_control_terminal_locked, take_waiters. simpl.
    destruct (in_done i) eqn:Hdone.
    + destruct (Hd eq_refl) as (_ & [E|[E|E]]); rewrite E; simpl; tauto.
    + destruct (Hr eq_refl) as (_ & [E|E]); rewrite E; simpl; tauto.
  - unfold publish_control_terminal_locked, take_waiters. simpl. by destruct (in_ready i).
Qed.

Lemma publish_control_kept i :
  let i' := snd (take_waiters (publish_control_terminal_locked i)) in
  kept i' = kept i /\ in_error i' = in_error i /\ in_done i' = true /\
  in_lifecycle i' = CFLOW_MACHINE_CONTROL_TERMINAL /\
  (in_completed i', in_failed i', in_cancelled_in_flight i', in_in_flight i') =
  (in_completed i, in_failed i, in_cancelled_in_flight i, in_in_flight i).
Proof.
  cbv zeta. unfold publish_control_terminal_locked, take_waiters. simpl. by destruct (in_ready i).
Qed.

(** A cancel request is noticed unless the instance is terminal already. *)
Lemma request_cancel_section r i mb :
  instance_inv r i mb ->
  let (requested, i') := request_cancel_locked i in
  instance_inv r i' mb /\ instance_mono i i' /\
  (requested = None -> i' = i) /\ (requested <> None -> (2 <= instance_rank i')%nat).
Proof.
  intros Hi. unfold request_cancel_locked. destruct (_ || _) eqn:Hdone; [by split_and!|].
  destruct_bools. apply lifecycle_is_false in H0.
  set (i1 := set_in_lifecycle _ _).
  assert (kept i1 = kept i /\ in_error i1 = in_error i /\ in_done i1 = false /\ in_ready i1 = in_ready i /\
    (in_completed i1, in_failed i1, in_cancelled_in_flight i1, in_in_flight i1) =
    (in_completed i, in_failed i, in_cancelled_in_flight i, in_in_flight i)) as (Hk & He & Hd & Hr & Hc).
  { by split_and!. }
  assert (instance_answers i1) as Ha.
  { split; [congruence|]. intros _. rewrite He, Hr. by apply (ii_answers _ _ _ Hi). }
  assert (instance_rank i1 = 2%nat) as Hrank by done. clearbody i1.
  assert (instance_rank i <= 2)%nat as Hrank'.
  { unfold instance_rank. destruct (in_lifecycle i); simpl; try lia. done. }
  destruct (negb _ && negb _).
  - destruct (publish_control_kept i1) as (Hk2 & He2 & Hd2 & Hl2 & Hc2).
    pose proof (publish_control_answers i1 Ha) as Ha2.
    destruct (take_waiters _) as [wakers i2]. cbn [snd] in *. split_and!; [..|done|].
    + apply (inv_kept r r i); [done|congruence|done|]. eapply counts_same; [apply Hi|congruence].
    + apply mono_kept; [congruence|done|congruence|]. unfold instance_rank at 2. rewrite Hl2. simpl. lia.
    + intros _. unfold instance_rank. rewrite Hl2. simpl. lia.
  - split_and!; [..|done|lia].
    + apply (inv_kept r r i); [done..|]. eapply counts_same; [apply Hi|congruence].
    + apply mono_kept; [done|congruence|congruence|lia].
Qed.

Lemma close_section r i mb :
  instance_inv r i mb ->
  let i' := snd (close_instance_locked i) in
  instance_inv r i' mb /\ instance_mono i i' /\ (1 <= instance_rank i')%nat.
Proof.
  intros Hi i'. assert (i' = snd (close_instance_locked i)) as Hi' by done. clearbody i'.
  unfold close_instance_locked in Hi'.
  set (i1 := if lifecycle_is _ _ then _ else _) in Hi'.
  assert (kept i1 = kept i /\ in_error i1 = in_error i /\ in_done i1 = in_done i /\
    in_ready i1 = in_ready i /\
    (in_completed i1, in_failed i1, in_cancelled_in_flight i1, in_in_flight i1) =
    (in_completed i, in_failed i, in_cancelled_in_flight i, in_in_flight i)) as (Hk & He & Hd & Hr & Hc).
  { unfold i1. destruct (lifecycle_is _ _); by split_and!. }
  assert (in_lifecycle i1 = match in_lifecycle i with
    | CFLOW_MACHINE_CONTROL_OPEN => CFLOW_MACHINE_CONTROL_CLOSE_REQUESTED | l => l end) as Hl.
  { unfold i1, lifecycle_is. simpl. by destruct (in_lifecycle i) eqn:E; simpl; rewrite ?E. }
  assert ((instance_rank i <= instance_rank i1)%nat /\ (1 <= instance_rank i1)%nat) as [Hr1 Hr2].
  { unfold instance_rank. rewrite Hl. destruct (in_lifecycle i); simpl; lia. }
  set (i2 := set_in_mailbox_armed false i1) in Hi'.
  assert (kept i2 = kept i1 /\ in_error i2 = in_error i1 /\ in_done i2 = in_done i1 /\
    in_ready i2 = in_ready i1 /\ in_lifecycle i2 = in_lifecycle i1 /\
    (in_completed i2, in_failed i2, in_cancelled_in_flight i2, in_in_flight i2) =
    (in_completed i1, in_failed i1, in_cancelled_in_flight i1, in_in_flight i1)) as (Hk2 & He2 & Hd2 & Hy2 & Hl2 & Hc2)
    by done.
  assert (instance_answers i2) as Ha.
  { pose proof (ii_answers _ _ _ Hi) as [Ad Ar]. split; rewrite Hd2, Hd, Hy2, Hr.
    - intros H. destruct (Ad H) as [Hterm ?]. split; [|done]. by rewrite Hl2, Hl, Hterm.
    - rewrite He2, He. apply Ar. }
  assert (instance_rank i2 = instance_rank i1) as Hrk by (unfold instance_rank; congruence).
  clearbody i2. set (terminal := _ || (negb _ && negb _)) in Hi'.
  destruct (terminal && _) eqn:Hpub.
  - apply andb_true_iff in Hpub as [Ht _]. rewrite Ht in Hi'.
    destruct (publish_control_kept i2) as (Hk3 & He3 & Hd3 & Hl3 & Hc3).
    pose proof (publish_control_answers i2 Ha) as Ha3.
    destruct (take_waiters _) as [wakers i3]. cbn [snd] in *. subst i'. split_and!.
    + apply (inv_kept r r i); [done|congruence|done|]. eapply counts_same; [apply Hi|congruence].
    + apply mono_kept; [congruence|done|congruence|]. unfold instance_rank at 2. rewrite Hl3.
      apply instance_rank_le3.
    + unfold instance_rank. rewrite Hl3. simpl. lia.
  - assert (core i' = core i2) as Hcore by (destruct terminal; by subst i').
    assert (instance_inv r i2 mb) as Hi2.
    { apply (inv_kept r r i); [done|congruence|done|]. eapply counts_same; [apply Hi|congruence]. }
    split_and!; [by eapply core_inv| |].
    + etrans; [|by apply core_mono]. apply mono_kept; [congruence..|lia].
    + pose proof (im_lifecycle _ _ (core_mono _ _ Hcore)). lia.
Qed.

(** ** The commit *)

Lemma copy_front_spec destination source size :
  (size <= length source)%nat -> (size <= length destination)%nat ->
  exists value, copy_front destination source size = Some value /\
    length value = length destination /\ take size value = take size source /\
    drop size value = drop size destination.
Proof.
  intros H1 H2. unfold copy_front. rewrite (proj2 (Nat.leb_le _ _) H1), (proj2 (Nat.leb_le _ _) H2).
  eexists. split; [done|]. assert (length (take size source) = size) as Hl by (rewrite length_take; lia).
  split_and!.
  - rewrite length_app, Hl, length_drop. lia.
  - by rewrite take_app_length' by done.
  - by rewrite drop_app_length' by done.
Qed.

(** What the outcome of a commit leaves to do. *)
Definition commit_owes (target : cflow_machine_state) (runtime_closed : bool) : bool :=
  kind_is CFLOW_MACHINE_STATE_ERROR target || kind_is CFLOW_MACHINE_STATE_DONE target || runtime_closed.

Lemma kind_is_true k s : kind_is k s = true <-> ms_kind s = k.
Proof. apply bool_decide_eq_true. Qed.

Lemma kind_is_self s k : ms_kind s = k -> kind_is k s = true.
Proof. apply kind_is_true. Qed.

Lemma kind_is_other s k k' : ms_kind s = k -> k <> k' -> kind_is k' s = false.
Proof. intros <- H. by apply bool_decide_eq_false. Qed.

(** The observation half of a commit of a running instance. *)
Lemma commit_observation_spec target action i :
  in_done i = false -> in_error i = None ->
  in_ready i = CFLOW_MACHINE_READY_NONE \/ in_ready i = CFLOW_MACHINE_READY_VALUE ->
  let i' := snd (commit_observation target action i) in
  (in_state i', in_state_value i', in_target_value i', in_event_value i', in_observation_value i') =
  (in_state i, in_state_value i, in_target_value i, in_event_value i, in_observation_value i) /\
  (in_completed i', in_failed i', in_cancelled_in_flight i', in_in_flight i', in_lifecycle i', in_error i') =
  (in_completed i, in_failed i, in_cancelled_in_flight i, in_in_flight i, in_lifecycle i, in_error i) /\
  (in_done i' = true ->
     ms_kind target <> CFLOW_MACHINE_STATE_ACTIVE /\
     (in_ready i' = CFLOW_MACHINE_READY_VALUE_AND_DONE \/ in_ready i' = CFLOW_MACHINE_READY_DONE \/
      in_ready i' = CFLOW_MACHINE_READY_ERROR)) /\
  (in_done i' = false ->
     in_ready i' = CFLOW_MACHINE_READY_NONE \/ in_ready i' = CFLOW_MACHINE_READY_VALUE).
Proof.
  intros Hd He Hr. cbv zeta. unfold commit_observation, kind_is.
  destruct (observes CFLOW_MACHINE_ACTION_EVENT action && _); [|destruct (observes _ action)].
  - simpl. split_and!; [done|done|congruence|done].
  - destruct (ms_kind target); simpl; split_and!; try done; intros;
      first [congruence|split; [done|tauto]|tauto].
  - destruct (ms_kind target); simpl; split_and!; try done; intros;
      first [congruence|split; [done|tauto]|tauto].
Qed.

Lemma commit_section `{Henv : MachineEnvironment U} target action i mb :
  instance_setting -> instance_inv RHolding i mb -> target ∈ states ->
  exists outcome i', commit_locked target action i = Some (outcome, i') /\
    instance_mono i i' /\
    match outcome with
    | CommitCancelled _ _ => instance_inv RFree i' mb /\ in_done i' = true
    | CommitInvalid => i' = i
    | Committed runtime_closed _ _ =>
        instance_inv RFree i' mb /\
        (commit_owes target runtime_closed = false -> instance_rank i' = 0%nat)
    end.
Proof.
  intros Hset Hi Htarget. unfold commit_locked, begin_commit_locked.
  destruct (lifecycle_is CFLOW_MACHINE_CONTROL_CANCEL_REQUESTED i) eqn:Hcancel.
  { pose proof (settle_section i mb Hi) as (Hs & Hm & Hd).
    destruct (settle_locked i) as [[w t] i']. eexists _, i'. by split_and!. }
  destruct (_ || _) eqn:Hinvalid; [by eexists _, i|].
  apply orb_false_iff in Hinvalid as [_ Hopen]. rewrite <- negb_orb, negb_false_iff in Hopen.
  set (i0 := set_in_worker_phase _ i).
  assert (core i0 = core i) as Hcore0 by done.
  assert (instance_inv RHolding i0 mb) as Hi0 by (by eapply core_inv).
  assert (instance_mono i i0) as Hm0 by (by apply core_mono).
  assert ((instance_rank i0 <= 1)%nat) as Hrank.
  { unfold instance_rank. simpl. apply orb_true_iff in Hopen as [H|H];
      apply lifecycle_is_true in H; rewrite H; simpl; lia. }
  clearbody i0. clear Hi Hcancel Hopen Hcore0.
  destruct Hi0 as [[B1 B2 B3 B4 B5] [A1 A2] C M].
  assert (in_done i0 = false) as Hdone.
  { apply not_true_iff_false. intros H. destruct (A1 H) as [E _]. unfold instance_rank in Hrank.
    rewrite E in Hrank. simpl in Hrank. lia. }
  destruct (A2 Hdone) as [Herr Hready].
  pose proof (se_states Hset target Htarget) as Hsize.
  unfold commit_allowed.
  destruct (copy_front_spec (in_state_value i0) (in_target_value i0)
    (Z.to_nat (type_size (ms_value_type target)))) as (value & Hv & Hvl & _); [lia..|].
  rewrite Hv. cbn [mbind option_bind].
  rewrite leave_flight_holding by apply (ic_flight _ _ _ _ C).
  set (i1 := if kind_is _ _ then _ else _).
  assert ((in_state i1, in_state_value i1, in_target_value i1, in_event_value i1, in_observation_value i1) =
    (target, value, in_target_value i0, in_event_value i0, in_observation_value i0) /\
    (in_lifecycle i1, in_error i1, in_done i1, in_ready i1) =
    (in_lifecycle i0, None, false, in_ready i0)) as [Hk1 Hl1].
  { unfold i1. by destruct (kind_is _ _); simpl; rewrite ?Herr, ?Hdone. }
  assert (instance_counts RFree i1 (mailbox_accepted mb) (mailbox_received mb)) as C1.
  { eapply counts_settle; [exact C|by apply mailbox_ok_received|by unfold i1; case_if|].
    unfold i1. destruct (kind_is _ _); simpl; tauto. }
  clearbody i1. injection Hk1 as S1 S2 S3 S4 S5. injection Hl1 as L1 L2 L3 L4.
  pose proof (commit_observation_spec target action i1 L3 L2) as Hobs. rewrite L4 in Hobs.
  specialize (Hobs Hready). destruct (commit_observation target action i1) as [w i2]. cbn [snd] in Hobs.
  destruct Hobs as (Hk2 & Hl2 & Hd2 & Hn2). injection Hk2 as K1 K2 K3 K4 K5.
  injection Hl2 as N1 N2 N3 N4 N5 N6.
  set (rc := lifecycle_is CFLOW_MACHINE_CONTROL_CLOSE_REQUESTED i2).
  set (p := commit_closed _ _ _ _).
  assert (exists w' i3, p = (w', i3) /\
    (in_state i3, in_state_value i3, in_target_value i3, in_event_value i3, in_observation_value i3) =
    (in_state i2, in_state_value i2, in_target_value i2, in_event_value i2, in_observation_value i2) /\
    (in_completed i3, in_failed i3, in_cancelled_in_flight i3, in_in_flight i3, in_lifecycle i3, in_error i3) =
    (in_completed i2, in_failed i2, in_cancelled_in_flight i2, in_in_flight i2, in_lifecycle i2, in_error i2) /\
    (in_done i3 = true -> (ms_kind target <> CFLOW_MACHINE_STATE_ACTIVE \/ rc = true) /\
       (in_ready i3 = CFLOW_MACHINE_READY_VALUE_AND_DONE \/ in_ready i3 = CFLOW_MACHINE_READY_DONE \/
        in_ready i3 = CFLOW_MACHINE_READY_ERROR)) /\
    (in_done i3 = false ->
       in_ready i3 = CFLOW_MACHINE_READY_NONE \/ in_ready i3 = CFLOW_MACHINE_READY_VALUE))
    as (w' & i3 & -> & Hk3 & Hl3 & Hd3 & Hn3).
  { unfold p, commit_closed. fold rc. destruct (rc && _) eqn:Hrc.
    - apply andb_true_iff in Hrc as [-> _]. eexists _, _. split; [done|]. simpl.
      split_and!; [done|done| |done]. intros _. split; [by right|]. case_if; tauto.
    - exists w, i2. split_and!; [done..| |done]. intros H. destruct (Hd2 H). split; [by left|done]. }
  injection Hk3 as K1' K2' K3' K4' K5'. injection Hl3 as N1' N2' N3' N4' N5' N6'.
  set (i4 := if _ || _ then _ else _).
  assert (exists tw i5, (if in_done i4 && negb (kind_is CFLOW_MACHINE_STATE_ERROR target)
      then take_terminal_waiter_locked i4 else (zero_waker, i4)) = (tw, i5) /\ core i5 = core i4)
    as (tw & i5 & -> & Hcore) by (case_if; by eexists _, _).
  assert (instance_inv RFree i4 mb /\ instance_mono i0 i4 /\
    (commit_owes target rc = false -> instance_rank i4 = 0%nat)) as (Hi4 & Hm4 & Ho4).
  { set (terminal := in_done i3 || kind_is CFLOW_MACHINE_STATE_ERROR target).
    assert (exists l, (in_lifecycle i4 = l /\ (terminal = true -> l = CFLOW_MACHINE_CONTROL_TERMINAL) /\
      (terminal = false -> l = in_lifecycle i0)) /\
      (in_state i4, in_state_value i4, in_target_value i4, in_event_value i4, in_observation_value i4) =
      (target, value, in_target_value i0, in_event_value i0, in_observation_value i0) /\
      (in_done i4, in_ready i4, in_error i4) = (in_done i3, in_ready i3, None) /\
      (in_completed i4, in_failed i4, in_cancelled_in_flight i4, in_in_flight i4) =
      (in_completed i1, in_failed i1, in_cancelled_in_flight i1, in_in_flight i1))
      as (l & (Hl & Ht & Hf) & Hk4 & Hd4 & Hc4).
    { eexists. split; [split; [done|]|].
      - unfold i4. simpl. fold terminal. destruct terminal; simpl; split; try done.
        intros _. congruence.
      - unfold i4. simpl. fold terminal. destruct terminal; simpl; split_and!; congruence. }
    injection Hk4 as P1 P2 P3 P4 P5. injection Hd4 as D1 D2 D3. split_and!.
    - split; [| | |done].
      + split; rewrite ?P1, ?P2, ?P3, ?P4, ?P5; [done|by rewrite Hvl|done..].
      + split.
        * rewrite D1, D2. intros H. destruct (Hd3 H) as [_ Hy]. split; [|done].
          rewrite Hl. apply Ht. unfold terminal. by rewrite H.
        * rewrite D1, D2, D3. intros H. split; [done|]. by apply Hn3.
      + by eapply counts_same.
    - split; [by rewrite Hdone|by rewrite Herr| |lia].
      unfold instance_rank at 2. rewrite Hl. destruct terminal.
      + rewrite (Ht eq_refl). apply instance_rank_le3.
      + by rewrite (Hf eq_refl).
    - unfold commit_owes. intros Ho. apply orb_false_iff in Ho as [[Ho1 Ho2]%orb_false_iff Hrc].
      assert (ms_kind target = CFLOW_MACHINE_STATE_ACTIVE) as Hact.
      { destruct (se_kinds Hset target Htarget) as [?|[E|E]]; [done|..];
          apply kind_is_self in E; congruence. }
      assert (in_done i3 = false) as Hd.
      { apply not_true_iff_false. intros H. destruct (Hd3 H) as [[?|?] _]; congruence. }
      unfold instance_rank. rewrite Hl, Hf by (unfold terminal; by rewrite Hd, Ho1).
      unfold rc, lifecycle_is in Hrc. apply bool_decide_eq_false in Hrc.
      unfold instance_rank in Hrank. destruct (in_lifecycle i0) eqn:E0; simpl in *; try done; try lia.
      congruence. }
  eexists _, i5. split; [done|]. split.
  - etrans; [done|]. etrans; [done|]. by apply core_mono.
  - split; [by eapply core_inv|]. intros Ho. specialize (Ho4 Ho). unfold instance_rank in *.
    unfold core in Hcore. congruence.
Qed.

(** ** Mailbox calls *)

(** What a call does to the counters of the queue. *)
Lemma fifo_call_counters c f :
  0 <= ff_accepted f <= UINT64_MAX ->
  let (a, f') := fifo_call c f in
  ff_accepted f <= ff_accepted f' /\
  ff_received f' = match a with
    | Answered CFLOW_MAILBOX_OK (Some _) _ => counter_increment (ff_received f)
    | _ => ff_received f
    end /\
  (ff_terminal f = CFLOW_MAILBOX_TERMINAL_CANCELLED ->
     ff_terminal f' = CFLOW_MAILBOX_TERMINAL_CANCELLED /\ ff_accepted f' = ff_accepted f) /\
  (c = CallCancel -> ff_terminal f' = CFLOW_MAILBOX_TERMINAL_CANCELLED).
Proof.
  intros Ha. destruct c as [e|address capacity| | |waker|]; simpl.
  - unfold fifo_send. destruct (ev_payload_type e); [|done]. destruct (ev_payload e); [|done].
    destruct (declared_row _ _); [|done]. destruct (payload_type_accepted _ _); [|done].
    unfold fifo_admit. destruct (ff_terminal f) eqn:Ht; [|by simpl; rewrite Ht..].
    destruct (_ =? _)%nat; simpl; rewrite ?Ht; split_and!; try done; try lia.
    by apply counter_increment_le.
  - unfold fifo_receive. destruct (ff_queue f); [by destruct (ff_terminal f)|].
    destruct (_ <? _); [done|]. by destruct (negb _).
  - unfold fifo_close. by destruct (ff_terminal f) eqn:Ht; simpl; rewrite ?Ht.
  - unfold fifo_cancel. by destruct (ff_terminal f) eqn:Ht; simpl; rewrite ?Ht.
  - unfold fifo_arm. destruct (is_null _); [done|]. case_bool_decide; [|done]. by destruct (is_null _).
  - done.
Qed.

(** Any call keeps the mailbox, and moves the counters as the invariant needs. *)
Lemma mailbox_call_step mb m c :
  mailbox_ok mb -> mb_impl mb = Some m -> call_readable events c ->
  exists a m', run_mailbox_call c m = Some (a, m') /\ mailbox_ok (mk_mailbox (Some m')) /\
    mailbox_mono mb (mk_mailbox (Some m')) /\
    mb_received m' = match a with
      | Answered CFLOW_MAILBOX_OK (Some _) _ => counter_increment (mb_received m)
      | _ => mb_received m
      end /\
    (c = CallCancel -> mailbox_cancelled (mk_mailbox (Some m'))).
Proof.
  intros Hok Hm Hc. unfold mailbox_ok in Hok. rewrite Hm in Hok. destruct Hok as (Hinit & f & Hrel & Hs).
  destruct (run_mailbox_call_rel m f c Hrel) as (a & m' & Hrun & Ha & Hrel'); [by rewrite Hs|].
  pose proof (mv_ranges _ (rl_inv _ _ Hrel)) as [Hacc _]. rewrite (rl_accepted _ _ Hrel) in Hacc.
  pose proof (fifo_call_counters c f Hacc) as Hcount.
  pose proof (fifo_call_constant c f) as [Hs' _]. destruct (fifo_call c f) as [a' f'].
  cbn [fst snd] in *. subst a'. destruct Hcount as (Hle & Hrec & Hcan & Hcall).
  exists a, m'. split_and!; [done| | | |].
  - split; [done|]. exists f'. split; [done|congruence].
  - split; unfold mailbox_cancelled, mailbox_accepted; simpl; rewrite Hm.
    + intros H. specialize (H m eq_refl). rewrite (rl_terminal _ _ Hrel) in H.
      destruct (Hcan H) as [H1 H2]. split; [|by rewrite (rl_accepted _ _ Hrel'), (rl_accepted _ _ Hrel)].
      intros ? [= <-]. by rewrite (rl_terminal _ _ Hrel').
    + by rewrite (rl_accepted _ _ Hrel'), (rl_accepted _ _ Hrel).
  - by rewrite (rl_received _ _ Hrel'), (rl_received _ _ Hrel), Hrec.
  - intros Hcc. unfold mailbox_cancelled. simpl. intros ? [= <-].
    rewrite (rl_terminal _ _ Hrel'). by apply Hcall.
Qed.

(** A call that receives nothing keeps what the invariant says of the mailbox. *)
Lemma inv_mailbox r i mb mb' :
  instance_inv r i mb -> mailbox_ok mb' -> mailbox_mono mb mb' ->
  mailbox_received mb' = mailbox_received mb -> instance_inv r i mb'.
Proof.
  intros [B A [C1 C2 C3] _] Hok [_ Hacc] Hrec. split; [done|done| |done].
  split; [done|done|]. intros H. rewrite Hrec. apply C3. lia.
Qed.

Lemma clear_mailbox i mb mb' : mailbox_mono mb mb' -> instance_clear i mb -> instance_clear i mb'.
Proof. intros [Hc _] [?|H]; [by left|]. right. by apply Hc. Qed.

Lemma mailbox_cancel_ok mb :
  mailbox_ok mb ->
  exists status mb' waker, cflow_mailbox_cancel (Some mb) = (status, Some mb', waker) /\
    mailbox_ok mb' /\ mailbox_mono mb mb' /\ mailbox_cancelled mb' /\
    mailbox_accepted mb' = mailbox_accepted mb /\ mailbox_received mb' = mailbox_received mb.
Proof.
  intros Hmb. destruct mb as [[m|]].
  - destruct (mailbox_call_step (mk_mailbox (Some m)) m CallCancel Hmb eq_refl I)
      as (a & m' & Hrun & Hok & Hm & Hrec & Hcan). specialize (Hcan eq_refl).
    unfold run_mailbox_call in Hrun.
    unfold cflow_mailbox_cancel, cflow_mailbox_cancel_detach_internal in *. simpl in *.
    assert (mb_accepted (snd (fst (cancel_locked m))) = mb_accepted m) as Hacc
      by (unfold cancel_locked; by destruct (mb_terminal m)).
    destruct (cancel_locked m) as [[s m1] w] eqn:Hc. simpl in Hrun, Hacc. injection Hrun as <- <-.
    eexists _, _, _. split_and!; [done..|]. unfold mailbox_received. simpl. rewrite Hrec. by destruct s.
  - eexists _, _, _. split_and!; [done|done|done| |done|done]. by intros m.
Qed.

Lemma cancel_step r i mb :
  instance_inv r i mb ->
  exists status mb' waker, cflow_mailbox_cancel (Some mb) = (status, Some mb', waker) /\
    instance_inv r i mb' /\ mailbox_mono mb mb' /\ mailbox_cancelled mb'.
Proof.
  intros Hi. destruct (mailbox_cancel_ok mb (ii_mailbox _ _ _ Hi)) as (s & mb' & w & -> & ? & ? & ? & ? & ?).
  eexists _, _, _. split_and!; [done| |done|done]. by eapply inv_mailbox.
Qed.

Lemma disarm_step r i mb :
  instance_inv r i mb ->
  let mb' := mk_mailbox (cflow_mailbox_wait_cancel (mb_impl mb)) in
  instance_inv r i mb' /\ mailbox_mono mb mb'.
Proof.
  intros Hi. destruct mb as [[m|]]; [|done].
  destruct (mailbox_call_step (mk_mailbox (Some m)) m CallDisarm (ii_mailbox _ _ _ Hi) eq_refl I)
    as (a & m' & Hrun & Hok & Hm & Hrec & _). simpl in Hrun. injection Hrun as <- <-.
  split; [|done]. by eapply inv_mailbox.
Qed.

Lemma arm_step r i mb waker :
  instance_inv r i mb ->
  let '(_, m, _) := cflow_mailbox_wait_arm (mb_impl mb) waker in
  instance_inv r i (mk_mailbox m) /\ mailbox_mono mb (mk_mailbox m).
Proof.
  intros Hi. destruct mb as [[m|]]; [|done].
  destruct (mailbox_call_step (mk_mailbox (Some m)) m (CallArm waker) (ii_mailbox _ _ _ Hi) eq_refl I)
    as (a & m' & Hrun & Hok & Hm & Hrec & _). unfold run_mailbox_call in Hrun. simpl mb_impl.
  destruct (cflow_mailbox_wait_arm (Some m) waker) as [[b [m1|]] w]; [|done]. simpl in Hrun.
  injection Hrun as <- <-. split; [|done]. by eapply inv_mailbox.
Qed.

Lemma send_step r i mb e :
  instance_inv r i mb -> call_readable events (CallSend e) ->
  exists status mb' waker, cflow_mailbox_try_send (Some mb) (Some e) = Some (status, Some mb', waker) /\
    instance_inv r i mb' /\ mailbox_mono mb mb'.
Proof.
  intros Hi Hc. destruct mb as [[m|]].
  - destruct (mailbox_call_step (mk_mailbox (Some m)) m (CallSend e) (ii_mailbox _ _ _ Hi) eq_refl Hc)
      as (a & m' & Hrun & Hok & Hm & Hrec & _). unfold run_mailbox_call in Hrun.
    destruct (cflow_mailbox_try_send _ _) as [[[s h] w]|]; [|done]. cbn [mbind option_bind] in Hrun.
    destruct h as [[m1]|]; [|done]. simpl in Hrun. destruct m1 as [m1|]; [|done].
    injection Hrun as <- <-. eexists _, _, _. split_and!; [done| |done].
    eapply inv_mailbox; [done..|]. unfold mailbox_received. simpl. rewrite Hrec. by destruct s.
  - by eexists _, _, _.
Qed.

Lemma receive_locked_length m address capacity s m' e :
  receive_locked m address capacity = Some (s, m', Some e) ->
  s = CFLOW_MAILBOX_OK /\ (length (re_payload e) <= Z.to_nat capacity)%nat.
Proof.
  unfold receive_locked. destruct (_ =? _)%nat; [by destruct (mb_terminal m)|].
  destruct (mb_slots m !! _) as [j|]; [|done]. cbn [mbind option_bind].
  destruct (mb_schema m !! j) as [row|]; [|done]. cbn [mbind option_bind].
  destruct (et_payload_type row) as [type|]; [|done].
  destruct (_ <? _) eqn:Hlt; [done|]. destruct_bools. destruct (negb _); [done|].
  destruct (read_bytes _ _ _) as [data|] eqn:Hread; [|done]. intros [= <- <- <-]. split; [done|].
  simpl. unfold read_bytes in Hread. destruct (_ <=? _)%nat; [|done]. injection Hread as <-.
  rewrite length_take. lia.
Qed.

(** A receive puts the event into the worker's hand. *)
Lemma receive_step i mb :
  instance_inv RFree i mb ->
  exists status mb' event,
    cflow_mailbox_try_receive (Some mb) true true (Some (ib_event_address impl))
      (ib_event_capacity impl) = Some (status, Some mb', event) /\
    mailbox_mono mb mb' /\
    match event with
    | None => status <> CFLOW_MAILBOX_OK /\ instance_inv RFree i mb'
    | Some e => status = CFLOW_MAILBOX_OK /\
        exists value, copy_front (in_event_value i) (re_payload e) (length (re_payload e)) = Some value /\
          instance_inv RReceived (set_in_event_value value i) mb'
    end.
Proof.
  intros Hi. destruct mb as [[m|]]; [|by eexists _, _, None].
  destruct (mailbox_call_step (mk_mailbox (Some m)) m
    (CallReceive (ib_event_address impl) (ib_event_capacity impl)) (ii_mailbox _ _ _ Hi) eq_refl I)
    as (a & m' & Hrun & Hok & Hm & Hrec & _). unfold run_mailbox_call in Hrun.
  unfold cflow_mailbox_try_receive in *. simpl mailbox_impl in *. cbn [negb orb] in *.
  destruct (receive_locked _ _ _) as [[[s m1] e]|] eqn:Hlocked; [|done].
  cbn [mbind option_bind] in *. simpl in Hrun. injection Hrun as <- <-.
  eexists _, _, e. split; [done|]. split; [done|]. destruct e as [e|].
  - destruct (receive_locked_length _ _ _ _ _ _ Hlocked) as [-> Hlen]. split; [done|].
    destruct Hi as [[B1 B2 B3 B4 B5] A [C1 C2 C3] M].
    destruct (copy_front_spec (in_event_value i) (re_payload e) (length (re_payload e)))
      as (value & Hv & Hvl & _); [lia..|]. exists value. split; [done|].
    split; [split; simpl; try done; lia|by destruct A| |done]. split; [done|done|].
    unfold mailbox_accepted, mailbox_received in *. simpl in *. intros Hacc.
    pose proof (mm_accepted _ _ Hm) as Hle. unfold mailbox_accepted in Hle. simpl in Hle.
    specialize (C3 ltac:(lia)). pose proof (mailbox_ok_received _ M) as Hr.
    unfold mailbox_accepted, mailbox_received in Hr. simpl in Hr.
    rewrite Hrec, counter_increment_small; lia.
  - split; [|by eapply inv_mailbox; [done..|]; unfold mailbox_received; simpl; rewrite Hrec; destruct s].
    intros ->. unfold receive_locked in Hlocked. destruct (_ =? _)%nat; [by destruct (mb_terminal m)|].
    destruct (mb_slots m !! _) as [j|]; [|done]. cbn [mbind option_bind] in Hlocked.
    destruct (mb_schema m !! j) as [row|]; [|done]. cbn [mbind option_bind] in Hlocked.
    destruct (et_payload_type row) as [type|]; [|done].
    destruct (_ <? _); [done|]. destruct (negb _); [done|]. by destruct (read_bytes _ _ _).
Qed.

End Invariant.
