(* ===== verification/CFlowInstanceProtocol.v ===== *)
(** Every program of a machine instance respects the protocol of
    [CFlowInstanceSafety]: control operations and adapters as clients, the worker
    task with the role it plays. *)

From S2P Require Import Prelude CMetaType CMetaFunction CFlowSupport CFlowMachine CFlowMailbox CFlowMailboxTheorems CFlowProgram CFlowInstanceData CFlowInstance CFlowInstanceSafety.

#[export] Instance mailbox_cancelled_dec mb : Decision (mailbox_cancelled mb).
Proof.
  unfold mailbox_cancelled. destruct (mb_impl mb) as [m|]; [|by left].
  destruct (decide (mb_terminal m = CFLOW_MAILBOX_TERMINAL_CANCELLED)) as [E|E].
  - left. by intros ? [= <-].
  - right. intros H. by apply E, H.
Defined.

#[export] Instance instance_clear_dec i mb : Decision (instance_clear i mb).
Proof. unfold instance_clear. apply _. Defined.

(** What a client program leaves: no debt, and what was known is still known. *)
Definition calm (k k' : thread_state) : Prop :=
  kn_owes k' = false /\ (kn_done k = true -> kn_done k' = true).

Lemma calm_trans k1 k2 k3 : calm k1 k2 -> calm k2 k3 -> calm k1 k3.
Proof. intros [_ H1] [H2 H3]. split; auto. Qed.

Section Programs.
Context `{Henv : MachineEnvironment U} (impl : instance_binding).
Context (Hset : instance_setting impl).

#[local] Abbreviation world := (machine_world U).
#[local] Abbreviation program := (prog (machine_world U)).
#[local] Abbreviation P := (machine_protocol impl U).

Definition client_ok {A} (p : program A) (k : thread_state) : Prop :=
  guarded P None p k (fun _ _ k' => calm k k').

(** A program that changes neither what its thread knows nor what it owes. *)
Definition neutral {A} (p : program A) : Prop :=
  forall k, guarded P None p k (fun _ _ k' => k' = k).

(** A wake is safe for a thread without debts, which may have to know that the
    instance is done. *)
Definition wake_ok (done : bool) (p : program unit) : Prop :=
  forall k, kn_owes k = false -> (done = true -> kn_done k = true) -> client_ok p k.

(** ** Single steps *)

Lemma guarantee_keep k (w w' : world) :
  pr_mono P w w' -> (pr_clear P w -> pr_clear P w') -> guarantee P k w k w'.
Proof.
  intros Hm Hc. split; [done|].
  destruct (decide (instance_clear (mw_instance w) (mw_mailbox w))); [left; by apply Hc|].
  right. destruct (kn_owes k) eqn:E; [by left|]. right. split; [done|]. simpl. by rewrite E.
Qed.

Lemma know_stable k (w w' : world) : pr_mono P w w' -> pr_know P k w -> pr_know P k w'.
Proof. intros [Hm _] Hk Hd. by apply (im_done _ _ Hm), Hk. Qed.

Lemma step_neutral {A} (section : world -> option (A * world)) :
  (forall r w, pr_inv P r w -> exists a w', section w = Some (a, w') /\ pr_inv P r w' /\
     pr_mono P w w' /\ (pr_clear P w -> pr_clear P w')) ->
  neutral (step section).
Proof.
  intros Hs k r w _ Hw Hk. destruct (Hs r w Hw) as (a & w' & Hsec & Hw' & Hm & Hc).
  exists a, w', r, k. split_and!; [done|done|by eapply know_stable|by apply guarantee_keep|done|done].
Qed.

(** A write outside what the protocol speaks of. *)
Lemma core_world r (w : world) i' :
  core i' = core (mw_instance w) -> pr_inv P r w ->
  let w' := set_mw_instance i' w in
  pr_inv P r w' /\ pr_mono P w w' /\ (pr_clear P w -> pr_clear P w').
Proof.
  intros Hc Hw w'. split_and!; [by eapply core_inv|split; [by apply core_mono|done]|by apply core_clear].
Qed.

Lemma with_user_neutral {A} (call : U -> A * U) : neutral (with_user call).
Proof.
  apply step_neutral. intros r w Hw. cbv beta. destruct (call (mw_user w)) as [a u].
  eexists _, _. by split_and!.
Qed.

Lemma read_neutral {A} (view : world -> A) : neutral (read view).
Proof. apply step_neutral. intros r w Hw. eexists _, _. by split_and!. Qed.

Lemma locked_neutral {A} (section : cflow_machine_instance_impl -> A * cflow_machine_instance_impl) :
  (forall r i mb, instance_inv impl r i mb ->
     let i' := snd (section i) in
     instance_inv impl r i' mb /\ instance_mono i i' /\ (instance_clear i mb -> instance_clear i' mb)) ->
  neutral (locked section).
Proof.
  intros Hs. apply step_neutral. intros r w Hw. specialize (Hs r _ _ Hw).
  cbv beta. destruct (section (mw_instance w)) as [a i']. cbn [snd] in Hs.
  destruct Hs as (Hi & Hm & Hc). eexists _, _. by split_and!.
Qed.

(** A section that touches nothing the protocol speaks of. *)
Lemma locked_core {A} (section : cflow_machine_instance_impl -> A * cflow_machine_instance_impl) :
  (forall i, core (snd (section i)) = core i) -> neutral (locked section).
Proof.
  intros Hs. apply locked_neutral. intros r i mb Hi. split_and!.
  - eapply core_inv; [apply Hs|done].
  - apply core_mono, Hs.
  - apply core_clear, Hs.
Qed.

Lemma neutral_ret {A} (a : A) : neutral (Ret a : program A).
Proof. by intros k. Qed.

(** ** Sequencing *)

Lemma neutral_bind {A B} (p : program A) (f : A -> program B) :
  neutral p -> (forall a, neutral (f a)) -> neutral (p ≫= f).
Proof.
  intros Hp Hf k. eapply guarded_client_bind; [apply Hp|]. intros a k' ->. apply Hf.
Qed.

Lemma neutral_client {A} (p : program A) k : kn_owes k = false -> neutral p -> client_ok p k.
Proof. intros Hk Hp. eapply guarded_mono; [apply Hp|]. by intros own a k' ->. Qed.

(** After a neutral program the thread goes on with what it knew. *)
Lemma neutral_then {A B} (p : program A) (f : A -> program B) k Q :
  neutral p -> (forall a, guarded P None (f a) k Q) -> guarded P None (p ≫= f) k Q.
Proof. intros Hp Hf. eapply guarded_client_bind; [apply Hp|]. by intros a k' ->. Qed.

Lemma client_ret {A} (a : A) k : kn_owes k = false -> client_ok (Ret a) k.
Proof. intros Hk. by split. Qed.

Lemma client_bind {A B} (p : program A) (f : A -> program B) k :
  client_ok p k -> (forall a k', calm k k' -> client_ok (f a) k') -> client_ok (p ≫= f) k.
Proof.
  intros Hp Hf. eapply guarded_client_bind; [apply Hp|]. intros a k' Hk'.
  eapply guarded_mono; [by apply Hf|]. intros own b k2 Hk2. exact (calm_trans _ _ _ Hk' Hk2).
Qed.

(** A task may run a client program. *)
Lemma task_client {A} r (p : program A) k :
  client_ok p k -> guarded P (Some r) p k (fun own _ k' => own = Some r /\ calm k k').
Proof. intros Hp. by eapply guarded_frame. Qed.

Lemma task_neutral {A B} r (p : program A) (f : A -> program B) k Q :
  neutral p -> (forall a, guarded P (Some r) (f a) k Q) -> guarded P (Some r) (p ≫= f) k Q.
Proof.
  intros Hp Hf. eapply guarded_bind; [eapply guarded_frame, Hp|]. intros own a k' [-> ->]. apply Hf.
Qed.

Lemma task_then {A B} r (p : program A) (f : A -> program B) k Q :
  client_ok p k -> (forall a k', calm k k' -> guarded P (Some r) (f a) k' Q) ->
  guarded P (Some r) (p ≫= f) k Q.
Proof.
  intros Hp Hf. eapply guarded_bind; [by apply task_client|]. intros own a k' [-> Hk']. by apply Hf.
Qed.

Lemma commit_hook_neutral index begin : neutral (call_commit_hook impl index begin).
Proof. unfold call_commit_hook. destruct (ib_commit_hook impl); [apply with_user_neutral|apply neutral_ret]. Qed.

Lemma locked_update_neutral section :
  (forall i, core (section i) = core i) -> neutral (locked_update section).
Proof. intros Hs. by apply locked_core. Qed.

(** ** Wakers and the mailbox *)

Lemma invoke_waker_ok d wake waker k :
  wake_ok d wake -> kn_owes k = false -> (d = true -> kn_done k = true) ->
  client_ok (invoke_waker impl wake waker) k.
Proof.
  intros Hw Hk Hd. unfold invoke_waker. destruct (wk_wake waker); [|by apply client_ret].
  destruct (_ && _); [by apply Hw|]. apply neutral_client; [done|].
  apply step_neutral. intros r w Hi. eexists _, _. by split_and!.
Qed.

(** A debt is only needed where there is a mailbox. *)
Definition indebted (done : bool) : thread_state :=
  mk_thread_state done (ib_mailbox_initialized impl).

Definition payable (k : thread_state) : Prop :=
  kn_owes k = true -> ib_mailbox_initialized impl = true.

Lemma payable_free k : kn_owes k = false -> payable k.
Proof. unfold payable. congruence. Qed.

Lemma payable_indebted done : payable (indebted done).
Proof. intros H. exact H. Qed.

Lemma guarantee_indebted k r (w w' : world) done :
  pr_mono P w w' -> pr_inv P r w' -> guarantee P k w (indebted done) w'.
Proof.
  intros Hm Hi. split; [done|]. destruct (ib_mailbox_initialized impl) eqn:Hinit.
  - right. left. exact Hinit.
  - left. right. intros m Hmb. pose proof (ii_mailbox _ _ _ _ Hi) as Hok.
    unfold mailbox_ok in Hok. rewrite Hmb in Hok. destruct Hok. congruence.
Qed.

(** Cancelling the mailbox pays it. *)
Lemma mailbox_cancel_pays k :
  guarded P None (mailbox_cancel (U:=U)) k
    (fun _ _ k' => kn_owes k' = false /\ kn_done k' = kn_done k).
Proof.
  intros r w _ Hw Hk. destruct (cancel_step impl r _ _ Hw) as (s & mb & waker & Hc & Hi & Hm & Hcan).
  exists waker, (set_mw_mailbox mb w), r, (mk_thread_state (kn_done k) false).
  cbv beta. rewrite Hc. split_and!; try done. split; [done|]. left. by right.
Qed.

Lemma cancel_mailbox_ok d wake k :
  wake_ok d wake -> payable k -> (d = true -> kn_done k = true) ->
  client_ok (cancel_mailbox impl wake) k.
Proof.
  intros Hw Hp Hd. unfold cancel_mailbox. destruct (ib_mailbox_initialized impl) eqn:Hinit.
  - eapply guarded_client_bind; [apply mailbox_cancel_pays|]. intros waker k' [Ho Hk].
    eapply guarded_mono; [eapply invoke_waker_ok; [done..|]; by rewrite Hk|].
    intros own a k2 [H1 H2]. split; [done|]. intros H. apply H2. congruence.
  - apply client_ret. unfold payable in Hp. rewrite Hinit in Hp. destruct (kn_owes k); [|done]. by specialize (Hp eq_refl).
Qed.

(** What every terminal section is followed by. *)
Lemma control_tail_ok d wake waker terminal_waker k :
  wake_ok d wake -> payable k -> (d = true -> kn_done k = true) ->
  client_ok (_ ← call_commit_hook impl SIZE_MAX false;
             _ ← cancel_mailbox impl wake;
             _ ← invoke_waker impl wake waker;
             invoke_waker impl wake terminal_waker) k.
Proof.
  intros Hw Hp Hd. apply neutral_then; [apply commit_hook_neutral|]. intros [].
  apply client_bind; [by eapply cancel_mailbox_ok|]. intros _ k1 [Ho1 Hd1].
  apply client_bind; [eapply invoke_waker_ok; [done..|auto]|]. intros _ k2 [Ho2 Hd2].
  eapply invoke_waker_ok; [done..|auto].
Qed.

(** ** Failing and finishing *)

Lemma runtime_copy_error_neutral message : neutral (runtime_copy_error (U:=U) message).
Proof.
  unfold runtime_copy_error. apply neutral_bind; [apply with_user_neutral|]. intros a. apply neutral_ret.
Qed.

(** A section that makes the instance done. *)
Lemma done_section own own' (section : cflow_machine_instance_impl -> (cflow_waker * cflow_waker) * cflow_machine_instance_impl) k Q :
  (forall r i mb, plays own r -> instance_inv impl r i mb ->
     let i' := snd (section i) in
     exists r', instance_inv impl r' i' mb /\ instance_mono i i' /\ in_done i' = true /\
       (own = None -> r' = r) /\ (fun _ => r') <$> own = own') ->
  (forall wakers, Q own' wakers (indebted true)) ->
  guarded P own (locked section) k Q.
Proof.
  intros Hs HQ r w Hr Hw Hk. destruct (Hs r _ _ Hr Hw) as (r' & Hi & Hm & Hd & Ho & Hown).
  cbv beta. destruct (section (mw_instance w)) as [wakers i']. cbn [snd] in *.
  eexists wakers, (set_mw_instance i' w), r', (indebted true).
  split_and!; [done|done|intros _; exact Hd|eapply guarantee_indebted; [by split|exact Hi]|done|]. rewrite Hown. apply HQ.
Qed.

Lemma fail_runtime_ok wake message k :
  wake_ok true wake -> client_ok (fail_runtime impl wake message false) k.
Proof.
  intros Hw. unfold fail_runtime. apply neutral_then; [apply runtime_copy_error_neutral|]. intros copy.
  apply neutral_then; [apply commit_hook_neutral|]. intros [].
  eapply guarded_client_bind with (Q := fun _ _ k' => k' = indebted true).
  - eapply (done_section None None); [|done]. intros r i mb _ Hi.
    destruct (fail_section impl copy false r i mb) as (H1 & H2 & H3); [done..|]. by exists r.
  - intros [waker terminal_waker] k' ->. eapply guarded_mono.
    + eapply control_tail_ok; [done|apply payable_indebted|done].
    + intros own a k2 [H1 H2]. split; [done|]. intros _. by apply H2.
Qed.

Lemma publish_done_ok wake ready k :
  wake_ok true wake ->
  ready = CFLOW_MACHINE_READY_DONE \/ ready = CFLOW_MACHINE_READY_ERROR ->
  client_ok (publish_done impl wake ready) k.
Proof.
  intros Hw Hready. unfold publish_done. apply neutral_then; [apply commit_hook_neutral|]. intros [].
  eapply guarded_client_bind with (Q := fun _ _ k' => k' = indebted true).
  - eapply (done_section None None); [|done]. intros r i mb _ Hi.
    destruct (publish_section impl r ready i mb Hready Hi) as (H1 & H2 & H3). by exists r.
  - intros [waker terminal_waker] k' ->. eapply guarded_mono.
    + eapply control_tail_ok; [done|apply payable_indebted|done].
    + intros own a k2 [H1 H2]. split; [done|]. intros _. by apply H2.
Qed.

(** Failing the event in hand. *)
Lemma fail_event_ok wake message k :
  wake_ok true wake ->
  guarded P (Some RHolding) (fail_runtime impl wake message true) k
    (fun own _ k' => own = Some RFree /\ calm k k').
Proof.
  intros Hw. unfold fail_runtime. apply task_neutral; [apply runtime_copy_error_neutral|]. intros copy.
  apply task_neutral; [apply commit_hook_neutral|]. intros [].
  eapply guarded_bind with (Q := fun own _ k' => own = Some RFree /\ k' = indebted true).
  - eapply (done_section _ (Some RFree)); [|done]. intros r i mb <- Hi.
    destruct (fail_section impl copy true RHolding i mb) as (H1 & H2 & H3); [done..|]. by exists RFree.
  - intros own [waker terminal_waker] k' [-> ->]. eapply guarded_mono.
    + apply task_client. eapply control_tail_ok; [done|apply payable_indebted|done].
    + intros own a k2 [-> [H1 H2]]. split; [done|]. split; [done|]. intros _. by apply H2.
Qed.

(** ** Scheduling *)

Lemma schedule_locked_core i : core (snd (schedule_locked i)) = core i.
Proof. unfold schedule_locked. by repeat case_if. Qed.

Lemma try_post_neutral : neutral (try_post (U:=U)).
Proof.
  apply step_neutral. intros r w Hw. cbv beta. destruct (env_try_post (mw_user w)) as [status u].
  by destruct status; eexists _, _; split_and!.
Qed.

Lemma wake_with_ok schedule k : client_ok schedule k -> client_ok (wake_with schedule) k.
Proof.
  intros Hs. unfold wake_with. apply neutral_then; [by apply locked_update_neutral|]. intros [].
  apply client_bind; [done|]. intros _ k' [Ho _]. by apply client_ret.
Qed.

(** A thread that knows the instance is done never posts. *)
Lemma schedule_done_ok depth k :
  kn_owes k = false -> kn_done k = true -> client_ok (schedule_machine_task impl (S depth)) k.
Proof.
  intros Ho Hd r w _ Hw Hk. specialize (Hk Hd). unfold locked.
  exists AlreadyHandled, (set_mw_instance (mw_instance w) w), r, k.
  unfold schedule_locked, settled, finished. rewrite Hk. cbn [orb].
  destruct w as [i mb l n u]. split_and!;
    [done|exact Hw|by intros _|apply guarantee_keep; [by split|done]|done|by apply client_ret].
Qed.

Lemma schedule_ok depth k :
  kn_owes k = false -> client_ok (schedule_machine_task impl (S (S depth))) k.
Proof.
  intros Ho. cbn [schedule_machine_task].
  apply neutral_then; [apply locked_core, schedule_locked_core|]. intros [|]; [by apply client_ret|].
  apply neutral_then; [apply try_post_neutral|]. intros status.
  assert (forall message, client_ok
    (_ ← locked_update (set_in_worker_phase CFLOW_MACHINE_WORKER_IDLE);
     _ ← fail_runtime impl (wake_with (schedule_machine_task impl (S depth))) message false;
     Ret false) k) as Hfail.
  { intros message. apply neutral_then; [by apply locked_update_neutral|]. intros [].
    apply client_bind; [|by intros _ k' [Hk' _]; apply client_ret].
    apply fail_runtime_ok. intros k' Hk' Hd. apply wake_with_ok, schedule_done_ok; [done|by apply Hd]. }
  destruct status; [by apply client_ret|apply Hfail..].
Qed.

Lemma mailbox_wake_ok d : wake_ok d (machine_mailbox_wake impl).
Proof. intros k Hk _. apply wake_with_ok, schedule_ok, Hk. Qed.

#[local] Abbreviation wake := (machine_mailbox_wake impl).

Lemma wake_free waker k : kn_owes k = false -> client_ok (invoke_waker impl wake waker) k.
Proof. intros Hk. eapply invoke_waker_ok with (d := false); [apply mailbox_wake_ok|done..]. Qed.

(** ** Processing one event *)

(** A section of the worker that settles the event of a cancelled instance. *)
Lemma guarantee_settled k (w w' : world) :
  pr_mono P w w' -> in_lifecycle (mw_instance w) <> CFLOW_MACHINE_CONTROL_OPEN ->
  mw_mailbox w' = mw_mailbox w ->
  guarantee P k w (mk_thread_state true (kn_owes k)) w'.
Proof.
  intros Hm Hl Hmb.
  destruct (guarantee_keep k w w' Hm) as [_ H]; [|by split].
  intros [?|Hc]; [done|]. right. by rewrite Hmb.
Qed.

Lemma settle_cancelled_ok k :
  kn_owes k = false ->
  guarded P (Some RHolding) (settle_cancelled_in_flight impl) k
    (fun own settled k' => own = Some (if settled : bool then RFree else RHolding) /\ calm k k').
Proof.
  intros Ho. unfold settle_cancelled_in_flight.
  eapply guarded_bind with (Q := fun own wakers k' =>
    own = Some (match wakers with Some _ => RFree | None => RHolding end) /\ calm k k').
  - intros r w <- Hw Hk. cbv beta.
    destruct (lifecycle_is CFLOW_MACHINE_CONTROL_CANCEL_REQUESTED (mw_instance w)) eqn:Hl.
    + apply lifecycle_is_true in Hl. destruct (settle_section impl _ _ Hw) as (Hi & Hm & Hd).
      destruct (settle_locked (mw_instance w)) as [wakers i']. cbn [snd] in *.
      eexists _, (set_mw_instance i' w), RFree, (mk_thread_state true (kn_owes k)).
      split_and!; [done|exact Hi|intros _; exact Hd| |done|done].
      apply guarantee_settled; [by split|by rewrite Hl|done].
    + eexists None, (set_mw_instance (mw_instance w) w), RHolding, k.
      split_and!; [done|exact Hw|exact Hk|apply guarantee_keep; [by split|by destruct w]|done|done].
  - intros own [[waker terminal_waker]|] k' [-> [Ho' Hd']]; [|by split_and!].
    apply task_then; [by apply wake_free|]. intros _ k2 [Ho2 Hd2].
    apply task_then; [by apply wake_free|]. intros _ k3 [Ho3 Hd3].
    split; [done|]. split; [done|]. intros H. apply Hd3, Hd2, Hd', H.
Qed.

Lemma transition_enabled_neutral transition error :
  neutral (transition_enabled impl transition error).
Proof.
  unfold transition_enabled. destruct (_ =? 0); [apply neutral_ret|].
  destruct (find_guard_binding impl _) as [[j b]|] eqn:Hb; [|apply neutral_ret].
  apply bsearch_sound in Hb as [Hb _]. apply list_elem_of_lookup_2 in Hb.
  destruct (se_guards _ Hset b Hb) as [fn ->].
  apply step_neutral. intros r w Hw. cbv beta.
  destruct (env_guard _ _ _ _ _ _ _) as [result u]. eexists _, _. by split_and!.
Qed.

Lemma select_transition_neutral event_id : neutral (select_transition impl event_id).
Proof.
  unfold select_transition. apply neutral_bind; [apply read_neutral|]. intros state.
  generalize (None : option string). generalize (lower_bound (transition_below state event_id)
    (machine_rows mi_transitions (ib_machine impl))) at 2.
  induction (drop _ _) as [|t rows IH]; intros n error; [apply neutral_ret|]. cbn [select_loop].
  destruct (_ || _); [apply neutral_ret|].
  apply neutral_bind; [apply transition_enabled_neutral|]. intros result.
  destruct (negb _); [apply neutral_ret|]. destruct (gr_enabled result); [apply neutral_ret|apply IH].
Qed.

Lemma copy_state_neutral : neutral (copy_state_to_target (U:=U)).
Proof.
  apply step_neutral. intros r w Hw. cbv beta zeta.
  pose proof Hw as [[B1 B2 B3 B4 B5] _ _ _].
  pose proof (se_states _ Hset _ B1) as Hsize.
  destruct (copy_front_spec (in_target_value (mw_instance w)) (in_state_value (mw_instance w))
    (Z.to_nat (type_size (ms_value_type (in_state (mw_instance w)))))) as (v & -> & Hv & _); [lia..|].
  assert (core (set_in_target_value v (mw_instance w)) = core (mw_instance w)) as Hcore
    by (unfold core; simpl; by rewrite Hv).
  eexists _, _. split; [done|]. by apply core_world.
Qed.

Lemma call_action_neutral fn user observing error : neutral (call_action fn user observing error).
Proof.
  apply step_neutral. intros r w Hw. cbv beta zeta.
  pose proof (se_in_bounds _ Hset fn user (in_state_value (mw_instance w))
    (in_event_value (mw_instance w)) (in_target_value (mw_instance w))
    (if observing then Some (in_observation_value (mw_instance w)) else None) error (mw_user w)) as Hb.
  destruct (env_action _ _ _ _ _ _ _ _) as [a u]. destruct Hb as [Ht Ho].
  rewrite Ht, Nat.eqb_refl. cbn [andb].
  assert (negb observing || (length (ar_observation a) =? length (in_observation_value (mw_instance w)))%nat
    = true) as ->.
  { destruct observing; [|done]. cbn [negb orb]. rewrite (Ho _ eq_refl). apply Nat.eqb_refl. }
  eexists _, _. split; [done|].
  match goal with |- context [set_mw_instance ?i _] => set (i' := i) end.
  assert (core i' = core (mw_instance w)) as Hcore.
  { unfold i', core. destruct observing; simpl; rewrite ?Ht; [|done]. by rewrite (Ho _ eq_refl). }
  by apply (core_world r w i').
Qed.

Lemma run_action_ok transition error k :
  guarded P None (run_action impl transition error) k
    (fun _ a k' => k' = k /\
       forall action, snd (fst a) = Some action ->
         action ∈ machine_rows mi_actions (ib_machine impl)).
Proof.
  unfold run_action. destruct (_ =? 0).
  { apply neutral_then; [apply copy_state_neutral|]. by intros []. }
  destruct (find_action_declaration impl _) as [[j action]|] eqn:Hd; [|done].
  destruct (find_action_binding impl _) as [[j' b]|] eqn:Hb; [|done].
  apply bsearch_sound in Hb as [Hb _]. apply list_elem_of_lookup_2 in Hb.
  destruct (se_actions _ Hset b Hb) as [fn ->].
  apply neutral_then; [apply call_action_neutral|]. intros r.
  apply bsearch_sound in Hd as [Hd _]. apply list_elem_of_lookup_2 in Hd.
  destruct (ar_ok r); [by split; [|intros ? [= <-]]|]. by case_if.
Qed.

Lemma mailbox_send_neutral (view : world -> option cflow_event_view) :
  (forall r (w : world), pr_inv P r w -> exists e, view w = Some e /\
     call_readable (machine_rows mi_events (ib_machine impl)) (CallSend e)) ->
  neutral (mailbox_send view).
Proof.
  intros Hv. apply step_neutral. intros r w Hw. cbv beta. destruct (Hv r w Hw) as (e & -> & He).
  destruct (send_step impl r _ _ e Hw He) as (s & mb & waker & -> & Hi & Hm).
  eexists _, _. split; [done|]. split; [done|]. split; [by split|by apply clear_mailbox].
Qed.

Lemma emit_action_event_ok action k :
  kn_owes k = false -> action ∈ machine_rows mi_actions (ib_machine impl) ->
  ma_observation action = CFLOW_MACHINE_ACTION_EVENT ->
  client_ok (emit_action_event impl action) k.
Proof.
  intros Hk Hin Hobs. unfold emit_action_event. apply neutral_then.
  - apply mailbox_send_neutral. intros r w Hw. eexists. split; [done|].
    intros row payload Hrow Hid [= <-]. simpl in Hid.
    pose proof (se_emitted _ Hset action row Hin Hobs Hrow Hid) as Hsize.
    pose proof (ib_observation_length _ _ (ii_buffers _ _ _ _ Hw)).
    destruct (decide (type_size (et_payload_type row) <= 0)); lia.
  - intros [status waker]. apply client_bind; [by apply wake_free|]. intros _ k' [Hk' _].
    by apply client_ret.
Qed.

(** Staging leaves the event in hand exactly when there is something to commit. *)
Lemma stage_transition_ok transition error k :
  kn_owes k = false ->
  guarded P (Some RHolding) (stage_transition impl transition error) k
    (fun own staged k' => calm k k' /\
       match staged with
       | None => own = Some RFree
       | Some (target, _) => own = Some RHolding /\
           target ∈ machine_rows mi_states (ib_machine impl)
       end).
Proof.
  intros Hk. unfold stage_transition.
  assert (forall message k1, calm k k1 ->
    guarded P (Some RHolding) (_ ← fail_runtime impl wake message true;
      Ret (None : option (cflow_machine_state * option cflow_machine_action))) k1
      (fun own staged k' => calm k k' /\ match staged with
       | None => own = Some RFree
       | Some (target, _) => own = Some RHolding /\
           target ∈ machine_rows mi_states (ib_machine impl) end)) as Hfail.
  { intros message k1 Hk1. eapply guarded_bind; [apply fail_event_ok, mailbox_wake_ok|].
    intros own [] k2 [-> Hk2]. split; [by eapply calm_trans|done]. }
  eapply guarded_bind; [eapply guarded_frame, run_action_ok|].
  intros own [[ok action] error'] k0 [-> [-> Haction]]. cbn [fst snd] in Haction.
  eapply guarded_bind; [by apply settle_cancelled_ok|].
  intros own cancelled k1 [-> Hk1]. destruct cancelled; [done|].
  destruct ok; [|by apply Hfail]. cbn [negb].
  destruct (instance_find_state _ _) as [[j target]|] eqn:Hfind; [|by apply Hfail].
  apply bsearch_sound in Hfind as [Hfind _]. apply list_elem_of_lookup_2 in Hfind.
  destruct action as [a|]; [|done]. case_bool_decide as Hobs; [|done].
  apply task_neutral; [apply read_neutral|]. intros [|]; [done|].
  apply task_then; [apply emit_action_event_ok; [apply Hk1|by apply Haction|done]|].
  intros [failure|] k2 Hk2; [apply Hfail|split; [|done]]; by eapply calm_trans.
Qed.

(** What the commit section leaves the worker to do. *)
Definition commit_left (target : cflow_machine_state) (k : thread_state) (own : option worker_role)
    (outcome : commit_outcome) (k' : thread_state) : Prop :=
  payable k' /\ (kn_done k = true -> kn_done k' = true) /\
  match outcome with
  | CommitCancelled _ _ => own = Some RFree
  | CommitInvalid => own = Some RHolding /\ k' = k
  | Committed runtime_closed _ _ =>
      own = Some RFree /\ (commit_owes target runtime_closed = false -> kn_owes k' = false)
  end.

Lemma commit_ok target action k :
  kn_owes k = false -> target ∈ machine_rows mi_states (ib_machine impl) ->
  guarded P (Some RHolding) (commit target action) k (commit_left target k).
Proof.
  intros Hk Ht r w <- Hw Hknow. cbv beta.
  destruct (commit_section impl target action _ _ Hset Hw Ht) as (outcome & i' & -> & Hm & Hout).
  cbn [mbind option_bind].
  set (w' := set_mw_instance i' w).
  assert (pr_mono P w w') as Hmono by by split.
  destruct outcome as [waker terminal_waker| |runtime_closed waker terminal_waker].
  - destruct Hout as [Hi Hd]. exists (CommitCancelled waker terminal_waker), w', RFree, (indebted true).
    split_and!; [done|done|intros _; exact Hd|eapply guarantee_indebted; [done|exact Hi]|done|].
    split; [apply payable_indebted|done].
  - subst i'. exists CommitInvalid, w', RHolding, k.
    split_and!; [done|exact Hw|exact Hknow|apply guarantee_keep; done|done|].
    split; [by apply payable_free|done].
  - destruct Hout as [Hi Ho].
    exists (Committed runtime_closed waker terminal_waker), w', RFree,
      (if commit_owes target runtime_closed then indebted (kn_done k) else k).
    assert (in_done (mw_instance w) = true -> in_done i' = true) as Hd by apply Hm.
    destruct (commit_owes target runtime_closed) eqn:Howes.
    + split_and!; [done|done|exact (fun e => Hd (Hknow e))|eapply guarantee_indebted; [done|exact Hi]|done|].
      split; [apply payable_indebted|]. split; [done|]. split; [done|congruence].
    + split_and!; [done|done|exact (fun e => Hd (Hknow e))| |done|].
      * split; [done|]. left. left. specialize (Ho eq_refl). unfold instance_rank in Ho.
        simpl. by destruct (in_lifecycle i').
      * split; [by apply payable_free|]. by split_and!.
Qed.

Lemma finish_transition_ok index target action k :
  kn_owes k = false -> target ∈ machine_rows mi_states (ib_machine impl) ->
  guarded P (Some RHolding) (finish_transition impl index target action) k
    (fun own _ k' => own = Some RFree /\ calm k k').
Proof.
  intros Hk Ht. unfold finish_transition. apply task_neutral.
  { destruct (ib_boundary_hook impl); [apply with_user_neutral|apply neutral_ret]. } intros _.
  apply task_neutral; [apply commit_hook_neutral|]. intros _.
  eapply guarded_bind; [by apply commit_ok|].
  intros own [waker terminal_waker| |runtime_closed waker terminal_waker] k1 (Hp & Hd & Hleft).
  - subst own. eapply guarded_mono with (Q := fun own _ k' => own = Some RFree /\ calm k1 k').
    + apply task_client. apply neutral_then; [apply commit_hook_neutral|]. intros _.
      apply client_bind; [eapply cancel_mailbox_ok with (d := false); [apply mailbox_wake_ok|done..]|].
      intros _ k2 [Ho2 _]. apply client_bind; [by apply wake_free|]. intros _ k3 [Ho3 _].
      apply client_bind; [by apply wake_free|]. intros _ k4 [Ho4 _]. by apply client_ret.
    + intros own _ k2 [-> [Ho2 Hd2]]. split; [done|]. split; auto.
  - destruct Hleft as [-> ->]. apply task_neutral; [apply commit_hook_neutral|]. intros _.
    eapply guarded_bind; [apply fail_event_ok, mailbox_wake_ok|]. by intros own _ k2 [-> Hk2].
  - destruct Hleft as [-> Ho]. eapply guarded_mono with (Q := fun own _ k' => own = Some RFree /\ calm k1 k').
    + apply task_client. apply neutral_then; [apply commit_hook_neutral|]. intros _.
      destruct (kind_is CFLOW_MACHINE_STATE_ERROR target) eqn:Herr.
      { apply client_bind; [apply fail_runtime_ok, mailbox_wake_ok|]. intros _ k2 [Ho2 _].
        by apply client_ret. }
      apply client_bind.
      { destruct (_ || runtime_closed) eqn:Hcase.
        - eapply cancel_mailbox_ok with (d := false); [apply mailbox_wake_ok|done..].
        - apply client_ret, Ho. unfold commit_owes. by rewrite Herr. }
      intros _ k2 [Ho2 _]. apply client_bind; [by apply wake_free|]. intros _ k3 [Ho3 _].
      apply client_bind; [by apply wake_free|]. intros _ k4 [Ho4 _]. by apply client_ret.
    + intros own _ k2 [-> [Ho2 Hd2]]. split; [done|]. split; auto.
Qed.

Lemma process_event_ok event_id k :
  kn_owes k = false ->
  guarded P (Some RHolding) (process_event impl event_id) k
    (fun own _ k' => own = Some RFree /\ calm k k').
Proof.
  intros Hk. unfold process_event.
  eapply guarded_bind; [by apply settle_cancelled_ok|].
  intros own cancelled k1 [-> Hk1]. destruct cancelled; [done|].
  apply task_neutral; [apply select_transition_neutral|]. intros [selected error].
  eapply guarded_bind; [apply settle_cancelled_ok, Hk1|].
  intros own cancelled k2 [-> Hk2]. assert (calm k k2) as Hk02 by by eapply calm_trans.
  destruct cancelled; [done|]. destruct selected as [[index transition]|].
  - eapply guarded_bind; [apply stage_transition_ok, Hk2|].
    intros own [[target action]|] k3 [Hk3 Hstaged].
    + destruct Hstaged as [-> Ht]. eapply guarded_mono; [apply finish_transition_ok; [apply Hk3|done]|].
      intros own _ k4 [-> Hk4]. split; [done|].
      eapply calm_trans; [|done]. by eapply calm_trans.
    + subst own. split; [done|]. by eapply calm_trans.
  - eapply guarded_bind; [apply fail_event_ok, mailbox_wake_ok|].
    intros own _ k3 [-> Hk3]. split; [done|]. by eapply calm_trans.
Qed.

(** ** The worker task *)

Lemma mailbox_arm_neutral : neutral (mailbox_arm impl (U:=U)).
Proof.
  apply step_neutral. intros r w Hw. cbv beta.
  pose proof (arm_step impl r _ _ (machine_waker impl machine_mailbox_wake_fn) Hw) as Hs.
  destruct (cflow_mailbox_wait_arm _ _) as [[armed m] waker]. destruct Hs as [Hi Hm].
  eexists _, _. split; [done|]. split; [done|]. split; [by split|by apply clear_mailbox].
Qed.

Lemma arm_mailbox_ok k : kn_owes k = false -> client_ok (arm_mailbox impl) k.
Proof.
  intros Hk. unfold arm_mailbox. apply neutral_then.
  { apply locked_core. intros i. by case_if. }
  intros [|]; [|by apply client_ret]. cbn [negb].
  apply neutral_then; [apply mailbox_arm_neutral|]. intros [[|] waker].
  - apply client_bind; [by apply wake_free|]. intros _ k2 [Ho2 _]. by apply client_ret.
  - apply neutral_then; [by apply locked_update_neutral|]. intros _.
    apply client_bind; [apply fail_runtime_ok, mailbox_wake_ok|]. intros _ k2 [Ho2 _].
    by apply client_ret.
Qed.

(** A receive that succeeds puts an event into the worker's hand. *)
Lemma mailbox_receive_ok k :
  guarded P (Some RFree) (mailbox_receive impl (U:=U)) k
    (fun own a k' => k' = k /\
       own = Some (match fst a with CFLOW_MAILBOX_OK => RReceived | _ => RFree end)).
Proof.
  intros r w <- Hw Hk. cbv beta.
  destruct (receive_step impl _ _ Hw) as (status & mb & event & -> & Hm & Hevent).
  cbn [mbind option_bind]. destruct event as [e|].
  - destruct Hevent as (-> & value & -> & Hi). cbn [mbind option_bind].
    eexists _, _, RReceived, k. split_and!; [done|done|exact Hk| |done|done].
    apply guarantee_keep; [split; [by split|done]|]. exact (clear_mailbox (mw_instance w) _ _ Hm).
  - destruct Hevent as [Hs Hi]. eexists _, _, RFree, k. split_and!; [done|done|exact Hk| |done|].
    + apply guarantee_keep; [by split|by apply clear_mailbox].
    + split; [done|]. simpl. by destruct status.
Qed.

Lemma enter_flight_ok k :
  guarded P (Some RReceived) (locked_update (fun i => set_in_in_flight (size_inc (in_in_flight i)) i)) k
    (fun own _ k' => own = Some RHolding /\ k' = k).
Proof.
  intros r w <- Hw Hk. cbv beta.
  set (i' := set_in_in_flight _ _).
  destruct Hw as [[B1 B2 B3 B4 B5] [A1 A2] [C1 C2 C3] M].
  exists tt, (set_mw_instance i' w), RHolding, k. split_and!; [done| |exact Hk| |done|done].
  - split; [by split|by split| |done]. split; [|done|done]. unfold i'. simpl. by rewrite C1.
  - apply guarantee_keep; [|done]. split; [by split|done].
Qed.

Lemma task_loop_ok n k :
  kn_owes k = false ->
  guarded P (Some RFree) (task_loop impl n) k (fun own _ k' => own = Some RFree /\ calm k k').
Proof.
  revert k. induction n as [|n IH]; intros k Hk; [done|]. cbn [task_loop].
  apply task_neutral. { apply locked_core. intros i. simpl. by case_if. }
  intros [|]; [done|]. eapply guarded_bind; [apply mailbox_receive_ok|].
  intros own [status event_id] k' [-> ->]. cbn [fst].
  assert (forall A (p : program A), client_ok p k ->
    guarded P (Some RFree) (_ ← p; Ret false) k (fun own _ k' => own = Some RFree /\ calm k k')) as Hend.
  { intros A p Hp. apply task_then; [done|]. by intros _ k' Hk'. }
  assert (forall message, client_ok (fail_runtime impl wake message false) k) as Hfail
    by (intros message; apply fail_runtime_ok, mailbox_wake_ok).
  assert (client_ok (publish_done impl wake CFLOW_MACHINE_READY_DONE) k) as Hdone
    by (apply publish_done_ok; [apply mailbox_wake_ok|by left]).
  destruct status; try (apply Hend, Hfail); try (apply Hend, Hdone).
  - eapply guarded_bind; [apply enter_flight_ok|]. intros own _ k' [-> ->].
    eapply guarded_bind; [by apply process_event_ok|]. intros own continue k' [-> Hk'].
    destruct continue; [|done]. eapply guarded_mono; [apply IH, Hk'|].
    intros own _ k2 [-> Hk2]. split; [done|]. by eapply calm_trans.
  - apply task_neutral. { by apply locked_core. } intros [|]; apply Hend; [apply Hdone|].
    by apply arm_mailbox_ok.
Qed.

Lemma executor_task_ok k :
  kn_owes k = false ->
  guarded P (Some RFree) (machine_executor_task impl) k
    (fun own _ k' => own = Some RFree /\ kn_owes k' = false).
Proof.
  intros Hk. unfold machine_executor_task.
  apply task_neutral; [by apply locked_update_neutral|]. intros _.
  eapply guarded_bind; [by apply task_loop_ok|]. intros own exhausted k1 [-> [Ho1 _]].
  apply task_neutral. { apply locked_core. intros i. unfold task_end. by destruct (phase_is _ _). }
  intros [|]; [|done]. apply task_then; [by apply schedule_ok|]. by intros _ k2 [Ho2 _].
Qed.

(** ** Adapters and control operations *)

Lemma wait_arm_ok waker k : kn_owes k = false -> client_ok (machine_wait_arm impl waker) k.
Proof.
  intros Hk. unfold machine_wait_arm. destruct (is_null _); [by apply client_ret|].
  apply neutral_then. { apply locked_core. intros i. by repeat case_if. }
  intros [armed [|]].
  - apply client_bind; [by apply wake_free|]. intros _ k2 [Ho2 _]. by apply client_ret.
  - by apply client_ret.
Qed.

(** Handing the value over. *)
Lemma resume_section r i mb :
  instance_inv impl r i mb ->
  exists decision i', resume_locked impl i = Some (decision, i') /\
    instance_inv impl r i' mb /\ instance_mono i i' /\ in_lifecycle i' = in_lifecycle i.
Proof.
  intros Hi. pose proof (se_output _ Hset) as Hout.
  pose proof (ib_observation_length _ _ (ii_buffers _ _ _ _ Hi)) as Hlen. unfold resume_locked.
  assert (is_Some (read_bytes (in_observation_value i) 0 (Z.to_nat (type_size (ib_output_type impl)))))
    as [value Hv].
  { unfold read_bytes. rewrite (proj2 (Nat.leb_le _ _)) by lia. by eexists. }
  rewrite Hv. cbn [mbind option_bind].
  destruct (in_ready i) eqn:Hready; try (by repeat case_if; eexists _, i).
  - unfold ready_is. rewrite Hready. eexists _, (set_in_ready CFLOW_MACHINE_READY_NONE i).
    split; [done|]. split_and!; [|by apply mono_kept|done].
    apply (inv_kept impl r r i); [done|done| |eapply counts_same; [apply Hi|done]].
    destruct (ii_answers _ _ _ _ Hi) as [A1 A2]. rewrite Hready in *. split; simpl.
    + intros Hd. by destruct (A1 Hd) as (_ & [?|[?|?]]).
    + intros Hd. destruct (A2 Hd) as [He _]. split; [done|by left].
  - unfold ready_is. rewrite Hready. by eexists _, i.
Qed.

Lemma resume_ok k : kn_owes k = false -> client_ok (machine_resume impl) k.
Proof.
  intros Hk. unfold machine_resume. apply neutral_then.
  - apply step_neutral. intros r w Hw. cbv beta.
    destruct (resume_section r _ _ Hw) as (decision & i' & -> & Hi & Hm & Hl).
    cbn [mbind option_bind]. eexists _, _. split; [done|]. split; [done|]. split; [by split|].
    unfold pr_clear. simpl. unfold instance_clear. simpl. by rewrite Hl.
  - intros [answer|]; [by apply client_ret|].
    apply client_bind; [by apply schedule_ok|]. intros [|] k2 [Ho2 _]; [by apply client_ret|].
    apply neutral_then; [apply read_neutral|]. intros e. by apply client_ret.
Qed.

Lemma disarm_neutral armed : neutral (disarm_mailbox (U:=U) armed).
Proof.
  unfold disarm_mailbox. destruct armed; [|apply neutral_ret].
  apply step_neutral. intros r w Hw. destruct (disarm_step impl r _ _ Hw) as [Hi Hm].
  eexists _, _. split; [done|]. split; [done|]. split; [by split|by apply clear_mailbox].
Qed.

(** A section that asks for a control change makes its thread owe. *)
Lemma request_section {A} (section : cflow_machine_instance_impl -> A * cflow_machine_instance_impl) k :
  (forall r i mb, instance_inv impl r i mb ->
     instance_inv impl r (snd (section i)) mb /\ instance_mono i (snd (section i))) ->
  guarded P None (locked section) k (fun _ _ k' => k' = indebted (kn_done k)).
Proof.
  intros Hs r w _ Hw Hk. destruct (Hs r _ _ Hw) as [Hi Hm].
  cbv beta. destruct (section (mw_instance w)) as [a i']. cbn [snd] in *.
  exists a, (set_mw_instance i' w), r, (indebted (kn_done k)).
  split_and!; [done|done|exact (fun e => im_done _ _ Hm (Hk e))| |done|done].
  eapply guarantee_indebted; [by split|exact Hi].
Qed.

Lemma request_cancel_ok k : kn_owes k = false -> client_ok (request_cancel impl) k.
Proof.
  intros Hk. unfold request_cancel. apply neutral_then; [apply commit_hook_neutral|]. intros _.
  eapply guarded_client_bind with (Q := fun _ requested k' =>
    k' = match requested with None => k | Some _ => indebted (kn_done k) end).
  - intros r w _ Hw Hknow. cbv beta.
    pose proof (request_cancel_section impl r _ _ Hw) as Hs.
    destruct (request_cancel_locked (mw_instance w)) as [[wakers|] i'];
      destruct Hs as (Hi & Hm & Hnone & _).
    + exists (Some wakers), (set_mw_instance i' w), r, (indebted (kn_done k)).
      split_and!; [done|done|exact (fun e => im_done _ _ Hm (Hknow e))| |done|done].
      eapply guarantee_indebted; [by split|exact Hi].
    + rewrite (Hnone eq_refl). exists None, (set_mw_instance (mw_instance w) w), r, k.
      split_and!; [done|exact Hw|exact Hknow|apply guarantee_keep; [by split|done]|done|done].
  - intros requested k' ->. apply neutral_then; [apply commit_hook_neutral|]. intros _.
    destruct requested as [[armed [waker terminal_waker]]|]; [|by apply client_ret].
    eapply guarded_mono with (Q := fun _ _ k' => calm (indebted (kn_done k)) k').
    + apply neutral_then; [apply disarm_neutral|]. intros _.
      apply client_bind; [eapply cancel_mailbox_ok with (d := false);
        [apply mailbox_wake_ok|apply payable_indebted|done]|]. intros _ k2 [Ho2 _].
      apply client_bind; [by apply wake_free|]. intros _ k3 [Ho3 _]. by apply wake_free.
    + intros own _ k2 [Ho Hd]. split; [done|exact Hd].
Qed.

Lemma close_ok k : kn_owes k = false -> client_ok (cflow_machine_instance_close impl) k.
Proof.
  intros Hk. unfold cflow_machine_instance_close.
  apply neutral_then; [apply commit_hook_neutral|]. intros _.
  eapply guarded_client_bind.
  { apply request_section. intros r i mb Hi. destruct (close_section impl r i mb Hi) as (H1 & H2 & _).
    by split. }
  intros [armed [waker terminal_waker]] k' ->.
  eapply guarded_mono with (Q := fun _ _ k' => calm (indebted (kn_done k)) k').
  + apply neutral_then; [apply commit_hook_neutral|]. intros _.
    apply neutral_then; [apply disarm_neutral|]. intros _.
    apply client_bind; [eapply cancel_mailbox_ok with (d := false);
      [apply mailbox_wake_ok|apply payable_indebted|done]|]. intros _ k2 [Ho2 _].
    apply client_bind; [by apply wake_free|]. intros _ k3 [Ho3 _]. by apply wake_free.
  + intros own _ k2 [Ho Hd]. split; [done|exact Hd].
Qed.

Lemma detach_ok k : kn_owes k = false -> client_ok (machine_detach impl) k.
Proof.
  intros Hk. unfold machine_detach, machine_cancel. apply client_bind; [by apply request_cancel_ok|].
  intros _ k2 [Ho2 _]. apply neutral_client; [done|]. by apply locked_update_neutral.
Qed.

Lemma bind_terminal_ok waker k : kn_owes k = false -> client_ok (machine_source_bind_terminal impl waker) k.
Proof.
  intros Hk. unfold machine_source_bind_terminal. apply neutral_then; [by apply locked_core|].
  intros [|]; [by apply wake_free|by apply client_ret].
Qed.

Lemma try_send_ok event k :
  kn_owes k = false ->
  (forall e, event = Some e ->
     call_readable (machine_rows mi_events (ib_machine impl)) (CallSend e)) ->
  client_ok (cflow_machine_instance_try_send impl event) k.
Proof.
  intros Hk He. unfold cflow_machine_instance_try_send. destruct (negb _); [by apply client_ret|].
  apply neutral_then.
  - destruct event as [e|].
    + apply mailbox_send_neutral. intros r w Hw. exists e. split; [done|by apply He].
    + apply step_neutral. intros r w Hw. cbv beta.
      assert (cflow_mailbox_try_send (Some (mw_mailbox w)) None =
        Some (CFLOW_MAILBOX_INVALID_ARGUMENT, Some (mw_mailbox w), zero_waker)) as ->
        by (by unfold cflow_mailbox_try_send, cflow_mailbox_try_send_detach_internal; destruct (mailbox_impl _)).
      cbn [mbind option_bind]. eexists _, _. split; [done|]. by destruct w; split_and!.
  - intros [status waker]. apply client_bind; [by apply wake_free|]. intros _ k2 [Ho2 _].
    by apply client_ret.
Qed.

Lemma copy_state_neutral_read capacity : neutral (cflow_machine_instance_copy_state (U:=U) capacity).
Proof.
  apply step_neutral. intros r w Hw. cbv beta zeta. destruct (_ <? _).
  { eexists _, _. split; [done|]. by split_and!. }
  pose proof Hw as [[B1 B2 _ _ _] _ _ _]. pose proof (se_states _ Hset _ B1) as Hsize.
  unfold read_bytes. rewrite (proj2 (Nat.leb_le _ _)) by lia. cbn [mbind option_bind].
  eexists _, _. split; [done|]. by split_and!.
Qed.

(** ** Clients *)

(** What other threads may call, and callbacks may call from within the worker: a
    call made by a callback is one made by another thread at that moment. *)
Inductive instance_client : program unit -> Prop :=
  | client_try_send event :
      (forall e, event = Some e ->
         call_readable (machine_rows mi_events (ib_machine impl)) (CallSend e)) ->
      instance_client (_ ← cflow_machine_instance_try_send impl event; Ret tt)
  | client_close : instance_client (cflow_machine_instance_close impl)
  | client_cancel : instance_client (cflow_machine_instance_cancel impl)
  | client_resume : instance_client (_ ← machine_resume impl; Ret tt)
  | client_wait_arm waker : instance_client (_ ← machine_wait_arm impl waker; Ret tt)
  | client_wait_cancel : instance_client machine_wait_cancel
  | client_attach : instance_client (_ ← attach_adapter; Ret tt)
  | client_detach : instance_client (machine_detach impl)
  | client_bind_terminal waker : instance_client (machine_source_bind_terminal impl waker)
  | client_poll_terminal : instance_client (_ ← machine_source_poll_terminal; Ret tt)
  | client_copy_state capacity :
      instance_client (_ ← cflow_machine_instance_copy_state capacity; Ret tt)
  | client_get_stats : instance_client (_ ← cflow_machine_instance_get_stats impl; Ret tt)
  | client_current_state : instance_client (_ ← cflow_machine_instance_current_state; Ret tt)
  | client_error : instance_client (_ ← cflow_machine_instance_error; Ret tt).

Lemma forget_result {A} (p : program A) k :
  client_ok p k -> client_ok (_ ← p; Ret tt) k.
Proof. intros Hp. apply client_bind; [done|]. intros _ k2 [Ho2 _]. by apply client_ret. Qed.

Lemma instance_client_ok p k : kn_owes k = false -> instance_client p -> client_ok p k.
Proof.
  intros Hk. destruct 1; try (apply forget_result);
    try (by apply neutral_client; [|apply read_neutral]).
  - by apply try_send_ok.
  - by apply close_ok.
  - by apply request_cancel_ok.
  - by apply resume_ok.
  - by apply wait_arm_ok.
  - apply neutral_client; [done|]. by apply locked_update_neutral.
  - apply neutral_client; [done|]. apply locked_core. intros i. by case_if.
  - by apply detach_ok.
  - by apply bind_terminal_ok.
  - apply neutral_client; [done|]. apply copy_state_neutral_read.
Qed.

(** ** The system *)

(** The executor takes a posted task. *)
Definition take_task (w : world) : option world :=
  match mw_posted w with O => None | S n => Some (set_mw_posted n w) end.

Definition no_knowledge : thread_state := mk_thread_state false false.

Lemma machine_protocol_sound :
  protocol_sound P take_task (machine_executor_task impl) instance_client RFree no_knowledge.
Proof.
  split.
  - intros k w w'. apply know_stable.
  - done.
  - done.
  - intros w w' Hs Hi. unfold take_task in Hs. destruct (mw_posted w); [done|]. injection Hs as <-.
    by split_and!.
  - eapply guarded_mono; [by apply executor_task_ok|]. intros own _ k' [-> Ho]. split; [done|].
    simpl. by rewrite Ho.
  - intros p Hp. eapply guarded_mono; [by apply instance_client_ok|]. intros own _ k' [Ho _].
    simpl. by rewrite Ho.
Qed.

#[export] Instance machine_mono_preorder : PreOrder (pr_mono P).
Proof.
  split; [by intros w; split|]. intros w1 w2 w3 [H1 H2] [H3 H4]. split; by etrans.
Qed.

End Programs.
