(* ===== verification/CFlowInstanceBuild.v ===== *)
(** What initialisation of a machine instance admits, and that an initialised
    instance satisfies the invariant of [CFlowInstanceSafety]. *)

From S2P Require Import Prelude CMetaType CMetaFunction CFlowSupport CFlowMachine CFlowMachineReach CFlowMailbox CFlowMailboxTheorems CFlowProgram CFlowInstanceData CFlowInstance CFlowInstanceSafety CFlowInstanceProtocol.

(** * Bindings *)

(** The bindings are exactly the declared ids, each once, with a function. *)
Definition bindings_exact {A D} (key : A -> Z) (fn : A -> option addr) (id : D -> Z)
    (bindings : list A) (declarations : list D) : Prop :=
  key <$> bindings ≡ₚ id <$> declarations /\ forall b, b ∈ bindings -> is_Some (fn b).

Lemma bindings_match_true {A D} (key : A -> Z) (fn : A -> option addr) (id : D -> Z) bound declarations :
  bindings_match key fn id bound declarations = true <->
  key <$> bound = id <$> declarations /\ forall b, b ∈ bound -> is_Some (fn b).
Proof.
  revert declarations. induction bound as [|b bound IH]; intros [|d declarations]; simpl.
  - split; [|done]. split; [done|]. by intros ? ?%elem_of_nil.
  - by split; [|intros []].
  - by split; [|intros []].
  - rewrite !andb_true_iff, IH, Z.eqb_eq, negb_true_iff, is_null_false. split.
    + intros [[Eb Hb] [Ek Hall]]. split; [by f_equal|]. intros x [->|Hx]%elem_of_cons; [done|by apply Hall].
    + intros [[= Eb Ek] Hall]. split_and!; [done|apply Hall; by left|done|].
      intros x Hx. apply Hall. by right.
Qed.

(** The rows a caller hands over with a count. *)
Definition given_rows {A} (pointer : option (list A)) (count : nat) : list A :=
  take count (default [] pointer).

Definition rows_readable {A} (pointer : option (list A)) (count : nat) : Prop :=
  forall l, pointer = Some l -> (count <= length l)%nat.

Lemma copy_bindings_spec `{Qsort} {A D} allocated width (key : A -> Z) (fn : A -> option addr)
    (did : D -> Z) (bindings : option (list A)) (declarations : list D) :
  sorted_by did declarations -> rows_readable bindings (length declarations) ->
  (declarations <> [] -> is_Some bindings) ->
  exists status bound,
    copy_bindings allocated width key fn did bindings declarations = Some (status, bound) /\
    (status = CFLOW_MACHINE_INSTANCE_OK ->
       bindings_exact key fn did (given_rows bindings (length declarations)) declarations /\
       bound ≡ₚ given_rows bindings (length declarations) /\ sorted_by key bound) /\
    (allocated = true -> Z.of_nat (length declarations) <= SIZE_MAX / width ->
     bindings_exact key fn did (given_rows bindings (length declarations)) declarations ->
     status = CFLOW_MACHINE_INSTANCE_OK).
Proof.
  intros Hsorted Hread Hsome. unfold copy_bindings.
  destruct declarations as [|d0 rest] eqn:Hdecl.
  { eexists _, _. split; [done|]. split; [|done]. intros _. unfold given_rows. simpl. rewrite take_0.
    split; [split; [done|by intros ? ?%elem_of_nil]|]. split; [done|constructor]. }
  rewrite <- Hdecl in *. destruct (Hsome ltac:(by rewrite Hdecl)) as [l ->].
  assert ((length declarations =? 0)%nat = false) as -> by (by rewrite Hdecl). clear Hdecl.
  destruct (_ <? _) eqn:Hwide; destruct_bools.
  { eexists _, _. split; [done|]. split; [done|lia]. }
  destruct allocated; [|by eexists _, _; split_and!]. cbn [negb mbind option_bind].
  specialize (Hread l eq_refl). destruct (_ <? _)%nat eqn:Hshort; destruct_bools; [lia|].
  unfold given_rows. cbn [default from_option id].
  set (rows := take (length declarations) l). set (bound := qsort (compare_key key) rows).
  assert (bound ≡ₚ rows) as Hp by apply qsort_permutation.
  assert (sorted_by key bound) as Hs by apply qsort_by.
  pose proof (bindings_match_true key fn did bound declarations) as Hmatch.
  destruct (bindings_match _ _ _ _ _).
  - destruct (proj1 Hmatch eq_refl) as [Hkeys Hfn]. eexists _, _. split; [done|]. split; [|done].
    intros _. split_and!; [split|done|done].
    + by rewrite <- Hkeys, Hp.
    + intros b Hb. apply Hfn. by rewrite Hp.
  - eexists _, _. split; [done|]. split; [done|]. intros _ _ [Hkeys Hfn]. exfalso.
    assert (false = true) as [=]. apply Hmatch. split.
    + apply sorted_by_unique; [done..|]. by rewrite Hp.
    + intros b. rewrite Hp. apply Hfn.
Qed.

(** * Types *)

Lemma measure_states_spec rows start :
  match measure_states rows start with
  | Some capacity => start <= capacity /\
      forall s, s ∈ rows -> runtime_type_supported (ms_value_type s) = true /\
        type_size (ms_value_type s) <= capacity
  | None => exists s, s ∈ rows /\ runtime_type_supported (ms_value_type s) = false
  end.
Proof.
  revert start. induction rows as [|s rows IH]; intros start; simpl.
  { split; [lia|]. by intros ? ?%elem_of_nil. }
  destruct (runtime_type_supported (ms_value_type s)) eqn:Hok; cbn [negb].
  2: { exists s. split; [by left|done]. }
  specialize (IH (if start <? type_size (ms_value_type s) then type_size (ms_value_type s) else start)).
  destruct (measure_states rows _) as [capacity|].
  - destruct IH as [Hle Hall].
    assert (start <= capacity /\ type_size (ms_value_type s) <= capacity) as [H1 H2]
      by (case_if; destruct_bools; lia).
    split; [done|]. intros x [->|Hx]%elem_of_cons; [by split|by apply Hall].
  - destruct IH as (x & Hx & Hno). exists x. split; [by right|done].
Qed.

(** An action whose observation the instance can hand over. *)
Definition action_runnable (output_type : option cmeta_type_desc) (a : cflow_machine_action) : Prop :=
  (ma_observation a = CFLOW_MACHINE_ACTION_VALUE ->
     types_agree (ma_output_type a) output_type) /\
  (ma_observation a <> CFLOW_MACHINE_ACTION_NONE ->
     runtime_type_supported (ma_output_type a) = true).

Lemma measure_actions_spec output_type rows start :
  match measure_actions output_type rows start with
  | (CFLOW_MACHINE_INSTANCE_OK, capacity) => start <= capacity /\
      forall a, a ∈ rows -> action_runnable output_type a /\
        (ma_observation a <> CFLOW_MACHINE_ACTION_NONE -> type_size (ma_output_type a) <= capacity)
  | _ => exists a, a ∈ rows /\ ~ action_runnable output_type a
  end.
Proof.
  revert start. induction rows as [|a rows IH]; intros start; simpl.
  { split; [lia|]. by intros ? ?%elem_of_nil. }
  destruct (bool_decide (ma_observation a = CFLOW_MACHINE_ACTION_VALUE) && _) eqn:Hmis.
  { apply andb_true_iff in Hmis as [Hv Hne]. apply bool_decide_eq_true in Hv.
    exists a. split; [by left|]. intros [H _]. specialize (H Hv). unfold types_agree in H.
    by rewrite H in Hne. }
  assert (ma_observation a = CFLOW_MACHINE_ACTION_VALUE ->
    types_agree (ma_output_type a) output_type) as Hagree.
  { intros Hv. rewrite (bool_decide_eq_true_2 _ Hv) in Hmis. by apply negb_false_iff in Hmis. }
  clear Hmis. case_bool_decide as Hnone.
  - specialize (IH start). destruct (measure_actions output_type rows start) as [[] capacity]; simpl;
      try (destruct IH as (x & Hx & Hno); exists x; split; [by right|done]).
    destruct IH as [Hle Hall]. split; [done|]. intros x [->|Hx]%elem_of_cons; [|by apply Hall].
    split; [split; [done|congruence]|congruence].
  - destruct (runtime_type_supported (ma_output_type a)) eqn:Hsup; cbn [negb].
    2: { exists a. split; [by left|]. intros [_ H]. by rewrite H in Hsup. }
    set (start' := if _ <? _ then _ else start). specialize (IH start').
    assert (start <= start' /\ type_size (ma_output_type a) <= start') as [H1 H2]
      by (unfold start'; case_if; destruct_bools; lia). clearbody start'.
    destruct (measure_actions output_type rows start') as [[] capacity]; simpl;
      try (destruct IH as (x & Hx & Hno); exists x; split; [by right|done]).
    destruct IH as [Hle Hall]. split; [lia|]. intros x [->|Hx]%elem_of_cons; [|by apply Hall].
    split; [by split|]. intros _. lia.
Qed.

(** * The machine and the configuration *)

(** A machine as [cflow_machine_build] publishes it. *)
Record machine_built (machine : cflow_machine) (m : cflow_machine_impl) : Prop := {
  bu_impl : m_impl machine = Some m;
  bu_sorted : machine_sorted m;
  bu_wf : machine_wf m;
  bu_limits : Z.of_nat (length (mi_events m)) <= CFLOW_MACHINE_MAX_EVENTS /\
    Z.of_nat (length (mi_guards m)) <= CFLOW_MACHINE_MAX_GUARDS /\
    Z.of_nat (length (mi_actions m)) <= CFLOW_MACHINE_MAX_ACTIONS;
}.

(** Sizes are [size_t] fields, and types that compare equal have one size. *)
Record machine_types (m : cflow_machine_impl) (output_type : option cmeta_type_desc) : Prop := {
  mt_states : forall s, s ∈ mi_states m -> type_in_range (ms_value_type s);
  mt_events : forall e, e ∈ mi_events m -> type_in_range (et_payload_type e);
  mt_output : type_in_range output_type;
  mt_sizes : forall a e, a ∈ mi_actions m -> e ∈ mi_events m ->
    types_agree (et_payload_type e) (ma_output_type a) ->
    type_size (et_payload_type e) = type_size (ma_output_type a);
}.

(** The arrays behind the pointers of a configuration. *)
Record config_readable (m : cflow_machine_impl) (c : cflow_machine_instance_config) : Prop := {
  cr_guards : rows_readable (mc_guards c) (mc_guard_count c);
  cr_actions : rows_readable (mc_actions c) (mc_action_count c);
  cr_value : forall value s, mc_initial_state c = Some value -> s ∈ mi_states m ->
    ms_id s = mi_initial_state m -> type_size (ms_value_type s) <= Z.of_nat (length value);
}.

(** What a configuration must satisfy to be admitted. *)
Record config_admissible (m : cflow_machine_impl) (c : cflow_machine_instance_config) : Prop := {
  ca_value : is_Some (mc_initial_state c);
  ca_executor : exists e, mc_executor c = Some e /\ executor_rejected e = false;
  ca_capacity : (0 < mc_mailbox_capacity c)%nat;
  ca_guards : mc_guard_count c = length (mi_guards m) /\
    bindings_exact gb_id gb_fn mg_id (given_rows (mc_guards c) (mc_guard_count c)) (mi_guards m);
  ca_actions : mc_action_count c = length (mi_actions m) /\
    bindings_exact ab_id ab_fn ma_id (given_rows (mc_actions c) (mc_action_count c)) (mi_actions m);
  ca_output : runtime_type_supported (mc_output_type c) = true;
  ca_states : forall s, s ∈ mi_states m -> runtime_type_supported (ms_value_type s) = true;
  ca_runnable : forall a, a ∈ mi_actions m -> action_runnable (mc_output_type c) a;
  ca_events : forall e, e ∈ mi_events m -> payload_type_supported (et_payload_type e) = true;
}.

(** Given rows that match declarations are there. *)
Lemma given_rows_some {A B D} (key : A -> Z) (fn : B) (id : D -> Z) pointer declarations :
  key <$> given_rows pointer (length declarations) ≡ₚ id <$> declarations ->
  declarations <> [] -> is_Some pointer.
Proof.
  intros Hp Hne. destruct pointer as [l|]; [done|]. exfalso. apply Hne.
  unfold given_rows in Hp. simpl in Hp. rewrite take_nil in Hp. simpl in Hp.
  apply Permutation_nil in Hp. by destruct declarations.
Qed.

Lemma copy_and_validate_spec `{Qsort} malloc machine m c :
  machine_built machine m -> config_readable m c ->
  let guards := given_rows (mc_guards c) (mc_guard_count c) in
  let actions := given_rows (mc_actions c) (mc_action_count c) in
  exists status bound_guards bound_actions,
    copy_and_validate_bindings malloc machine c = Some (status, bound_guards, bound_actions) /\
    (status = CFLOW_MACHINE_INSTANCE_OK ->
       (mc_guard_count c = length (mi_guards m) /\ bindings_exact gb_id gb_fn mg_id guards (mi_guards m)) /\
       (mc_action_count c = length (mi_actions m) /\ bindings_exact ab_id ab_fn ma_id actions (mi_actions m)) /\
       bound_guards ≡ₚ guards /\ bound_actions ≡ₚ actions) /\
    ((forall a, malloc a = true) -> config_admissible m c -> status = CFLOW_MACHINE_INSTANCE_OK).
Proof.
  intros [Himpl Hso Hwf (_ & Lg & La)] [Rg Ra _] guards actions. unfold copy_and_validate_bindings, machine_rows.
  rewrite Himpl. cbn zeta.
  destruct (_ || _) eqn:Hbad.
  { eexists _, _, _. split; [done|]. split; [done|]. intros _ Hok.
    destruct (ca_guards _ _ Hok) as [Eg [Bg _]]. destruct (ca_actions _ _ Hok) as [Ea [Ba _]].
    rewrite Eg, Ea, !Nat.eqb_refl in Hbad. cbn [negb orb] in Hbad. exfalso.
    rewrite Eg in Bg. rewrite Ea in Ba.
    apply orb_true_iff in Hbad as [Hbad|Hbad]; apply andb_true_iff in Hbad as [Hne Hnull];
      apply negb_true_iff, Nat.eqb_neq in Hne; apply is_null_true in Hnull.
    - destruct (given_rows_some gb_id () mg_id _ _ Bg) as [l Hl]; [by destruct (mi_guards m)|congruence].
    - destruct (given_rows_some ab_id () ma_id _ _ Ba) as [l Hl]; [by destruct (mi_actions m)|congruence]. }
  destruct_bools. rename H0 into Eg, H3 into Ea, H2 into Ng, H1 into Na. unfold guards, actions.
  rewrite Eg in Rg |- *. rewrite Ea in Ra |- *.
  assert (forall A D (pointer : option (list A)) (l : list D),
    negb (length l =? 0)%nat && is_null pointer = false -> l <> [] -> is_Some pointer) as Hthere.
  { intros A D pointer l Hn Hne. apply is_null_false. destruct (is_null pointer); [|done].
    rewrite andb_true_r in Hn. by destruct l. }
  destruct (copy_bindings_spec (malloc INST_ALLOC_GUARDS) sizeof_guard_binding gb_id gb_fn mg_id
    (mc_guards c) (mi_guards m) (so_guards _ Hso) Rg (Hthere _ _ _ _ Ng)) as (s1 & b1 & -> & D1 & F1).
  destruct (copy_bindings_spec (malloc INST_ALLOC_ACTIONS) sizeof_action_binding ab_id ab_fn ma_id
    (mc_actions c) (mi_actions m) (so_actions _ Hso) Ra (Hthere _ _ _ _ Na)) as (s2 & b2 & E2 & D2 & F2).
  assert (Z.of_nat (length (mi_guards m)) <= SIZE_MAX / sizeof_guard_binding) as Wg
    by (etrans; [exact Lg|by vm_compute]).
  assert (Z.of_nat (length (mi_actions m)) <= SIZE_MAX / sizeof_action_binding) as Wa
    by (etrans; [exact La|by vm_compute]).
  assert ((forall a, malloc a = true) -> config_admissible m c ->
    s1 = CFLOW_MACHINE_INSTANCE_OK /\ s2 = CFLOW_MACHINE_INSTANCE_OK) as Hok.
  { intros Hm Hok. destruct (ca_guards _ _ Hok) as [_ Bg]. destruct (ca_actions _ _ Hok) as [_ Ba].
    rewrite Eg in Bg. rewrite Ea in Ba. split; [by apply F1|by apply F2]. }
  cbn [mbind option_bind]. destruct (decide (s1 = CFLOW_MACHINE_INSTANCE_OK)) as [->|Hne].
  - rewrite E2. cbn [mbind option_bind]. eexists s2, b1, b2. split; [done|]. split.
    + intros ->. destruct (D1 eq_refl) as (? & ? & _), (D2 eq_refl) as (? & ? & _). by split_and!.
    + intros Hm Ha. by apply Hok.
  - eexists s1, [], []. split; [by destruct s1|]. split; [done|]. intros Hm Ha. by apply Hok.
Qed.

Lemma measure_types_spec machine m c :
  machine_built machine m ->
  let '(status, state_capacity, observation_capacity) := measure_supported_types machine c in
  (status = CFLOW_MACHINE_INSTANCE_OK ->
     runtime_type_supported (mc_output_type c) = true /\
     (forall s, s ∈ mi_states m -> runtime_type_supported (ms_value_type s) = true /\
        type_size (ms_value_type s) <= state_capacity) /\
     (forall a, a ∈ mi_actions m -> action_runnable (mc_output_type c) a /\
        (ma_observation a <> CFLOW_MACHINE_ACTION_NONE ->
           type_size (ma_output_type a) <= observation_capacity)) /\
     type_size (mc_output_type c) <= observation_capacity) /\
  (config_admissible m c -> status = CFLOW_MACHINE_INSTANCE_OK).
Proof.
  intros [Himpl _ _ _]. unfold measure_supported_types, machine_rows. rewrite Himpl.
  destruct (runtime_type_supported (mc_output_type c)) eqn:Hout; cbn [negb].
  2: { split; [done|]. intros Hok. by rewrite (ca_output _ _ Hok) in Hout. }
  pose proof (measure_states_spec (mi_states m) 0) as Hs.
  destruct (measure_states (mi_states m) 0) as [sc|].
  2: { split; [done|]. intros Hok. destruct Hs as (s & Hin & Hno).
       by rewrite (ca_states _ _ Hok s Hin) in Hno. }
  pose proof (measure_actions_spec (mc_output_type c) (mi_actions m) (type_size (mc_output_type c))) as Ha.
  destruct (measure_actions _ _ _) as [status oc]. simpl in Ha.
  destruct (decide (status = CFLOW_MACHINE_INSTANCE_OK)) as [->|Hne].
  - split; [|done]. intros _. destruct Hs as [_ Hs], Ha as [Hle Ha]. by split_and!.
  - split; [done|]. intros Hok. exfalso.
    assert (exists a, a ∈ mi_actions m /\ ~ action_runnable (mc_output_type c) a) as (a & Hin & Hno)
      by (by destruct status).
    apply Hno, (ca_runnable _ _ Hok a Hin).
Qed.

(** * The mailbox *)

Section Mailbox.
Context `{Qsort} (malloc : instance_allocation -> bool) (fresh : nat -> list Z).
Context (fresh_length : forall n, length (fresh n) = n).

(** The mailbox of a fresh instance is an empty queue of its events, or there is
    none. *)
Definition mailbox_fresh (m : cflow_machine_impl) (capacity : nat) (has_mailbox : bool)
    (mailbox : cflow_mailbox) : Prop :=
  if has_mailbox then exists i, mb_impl mailbox = Some i /\ mailbox_rel i (fifo_empty (mi_events m) capacity)
  else mi_events m = [] /\ mailbox = mk_mailbox None.

Lemma initialize_mailbox_spec machine m c :
  machine_built machine m -> machine_types m (mc_output_type c) ->
  exists status has_mailbox mailbox,
    initialize_mailbox malloc fresh machine c = Some (status, has_mailbox, mailbox) /\
    (status = CFLOW_MACHINE_INSTANCE_OK ->
       mailbox_fresh m (mc_mailbox_capacity c) has_mailbox mailbox /\
       forall e, e ∈ mi_events m -> payload_type_supported (et_payload_type e) = true) /\
    ((forall a, malloc a = true) -> config_admissible m c ->
     mailbox_fits (mi_events m) (mc_mailbox_capacity c) -> status = CFLOW_MACHINE_INSTANCE_OK).
Proof.
  intros [Himpl _ Hwf (Le & _)] [_ Hrange _ _]. unfold initialize_mailbox, machine_rows. rewrite Himpl.
  destruct (length (mi_events m) =? 0)%nat eqn:Hempty; destruct_bools.
  { apply length_zero_iff_nil in Hempty. eexists _, _, _. split; [done|]. split; [|done].
    intros _. split; [done|]. rewrite Hempty. by intros ? ?%elem_of_nil. }
  assert ((SIZE_MAX / sizeof_event_type <? Z.of_nat (length (mi_events m))) = false) as ->.
  { apply Z.ltb_ge. etrans; [exact Le|by vm_compute]. }
  destruct (malloc INST_ALLOC_SCHEMA) eqn:Hschema; cbn [negb].
  2: { eexists _, _, _. split; [done|]. split; [done|]. intros Hm. by rewrite Hm in Hschema. }
  destruct (init_spec (fun a => malloc (INST_ALLOC_MAILBOX a)) fresh (mi_events m)
    (mc_mailbox_capacity c) fresh_length Hrange) as (status & mailbox & -> & Hspec).
  cbn [mbind option_bind].
  assert (forall a, (forall x, malloc x = true) -> malloc (INST_ALLOC_MAILBOX a) = false -> False)
    as Halloc by (intros a Hm Ha; by rewrite Hm in Ha).
  destruct status; try done.
  - destruct Hspec as (Hok & i & Hi & Hrel & _). eexists _, true, mailbox. split; [done|].
    split; [|done]. intros _. split; [by exists i|]. intros e He. by apply (sc_row _ Hok).
  - destruct Hspec as [_ Hbad]. eexists _, _, _. split; [done|]. split; [done|].
    intros _ Hok Hfits. exfalso. destruct Hbad as [Hbad|[Hbad|Hbad]]; [|pose proof (ca_capacity _ _ Hok); lia|done].
    apply Hbad. split; [by destruct (mi_events m)| |apply Hwf].
    intros e He. split; [by apply (wf_events _ Hwf)|by apply (ca_events _ _ Hok)].
  - destruct Hspec as (_ & a & Ha). eexists _, _, _. split; [done|]. split; [done|].
    intros Hm. by destruct (Halloc a Hm).
Qed.

(** * The instance *)

(** The callbacks stay inside the buffers they are given. *)
Definition actions_in_bounds `{MachineEnvironment U} : Prop :=
  forall fn user state event target observation error u,
    let (a, _) := env_action fn user state event target observation error u in
    length (ar_target a) = length target /\
    forall o, observation = Some o -> length (ar_observation a) = length o.

(** What an initialised instance is built from. *)
Record storage_of (m : cflow_machine_impl) (c : cflow_machine_instance_config)
    (s : instance_storage) : Prop := {
  so_machine : m_impl (ib_machine (is_binding s)) = Some m;
  so_inv : instance_inv (is_binding s) RFree (is_impl s) (is_mailbox s);
  so_clear : instance_clear (is_impl s) (is_mailbox s);
  so_initial : ms_id (in_state (is_impl s)) = mi_initial_state m;
  so_guard_bindings : ib_guards (is_binding s) ≡ₚ given_rows (mc_guards c) (mc_guard_count c);
  so_action_bindings : ib_actions (is_binding s) ≡ₚ given_rows (mc_actions c) (mc_action_count c);
  so_setting : forall U `{MachineEnvironment U}, actions_in_bounds -> instance_setting (is_binding s);
}.

(** The fields of a zeroed instance in its initial state. *)
Lemma initial_terminal_answers error_allocated i :
  in_error i = None -> in_ready i = CFLOW_MACHINE_READY_NONE ->
  in_lifecycle i = CFLOW_MACHINE_CONTROL_OPEN ->
  (ms_kind (in_state i) = CFLOW_MACHINE_STATE_ACTIVE \/ ms_kind (in_state i) = CFLOW_MACHINE_STATE_DONE \/
   ms_kind (in_state i) = CFLOW_MACHINE_STATE_ERROR) ->
  let i' := initial_terminal error_allocated i in
  instance_answers i' /\
  (in_done i' = false -> in_lifecycle i' = CFLOW_MACHINE_CONTROL_OPEN) /\
  (in_state i', in_state_value i', in_target_value i', in_event_value i', in_observation_value i') =
  (in_state i, in_state_value i, in_target_value i, in_event_value i, in_observation_value i) /\
  (in_completed i', in_failed i', in_cancelled_in_flight i', in_in_flight i') =
  (in_completed i, in_failed i, in_cancelled_in_flight i, in_in_flight i).
Proof.
  intros He Hr Hl Hk. cbv zeta. unfold initial_terminal, kind_is. simpl.
  destruct Hk as [E|[E|E]]; rewrite E; simpl; rewrite ?E; simpl; (split; [split; simpl|]); try done;
    try (intros _; split; [done|tauto]); try (intros _; split; [done|by left]).
Qed.

(** Cancelling the empty mailbox of an instance that starts out terminal. *)
Lemma initial_mailbox m capacity has_mailbox mailbox (terminal : bool) impl :
  m_impl (ib_machine impl) = Some m -> ib_mailbox_initialized impl = has_mailbox ->
  mailbox_fresh m capacity has_mailbox mailbox ->
  exists mailbox',
    (if terminal && has_mailbox then (let '(_, h, _) := cflow_mailbox_cancel (Some mailbox) in h)
     else Some mailbox) = Some mailbox' /\
    mailbox_ok impl mailbox' /\ (terminal = true -> mailbox_cancelled mailbox') /\
    mailbox_accepted mailbox' = 0 /\ mailbox_received mailbox' = 0.
Proof.
  intros Hm Hinit Hfresh. destruct has_mailbox; simpl in Hfresh.
  2: { destruct Hfresh as [_ ->]. exists (mk_mailbox None). rewrite andb_false_r.
       split_and!; [done|done|by intros _ m'|done|done]. }
  destruct Hfresh as (i & Hi & Hrel).
  assert (mailbox_ok impl mailbox) as Hok.
  { unfold mailbox_ok. rewrite Hi. split; [done|]. eexists. split; [done|].
    unfold machine_rows. by rewrite Hm. }
  assert (mailbox_accepted mailbox = 0 /\ mailbox_received mailbox = 0) as [Hacc Hrec].
  { unfold mailbox_accepted, mailbox_received. rewrite Hi.
    by rewrite (rl_accepted _ _ Hrel), (rl_received _ _ Hrel). }
  rewrite andb_true_r. destruct terminal; [|by exists mailbox].
  destruct (mailbox_cancel_ok impl mailbox Hok) as (s & mb' & w & -> & ? & ? & ? & ? & ?).
  exists mb'. split_and!; [done|done|done|congruence|congruence].
Qed.

Lemma init_storage_spec address event_address commit_hook boundary_hook machine m initial value c
    guards actions state_capacity observation_capacity has_mailbox mailbox :
  machine_built machine m -> machine_types m (mc_output_type c) ->
  initial ∈ mi_states m -> ms_id initial = mi_initial_state m ->
  type_size (ms_value_type initial) <= Z.of_nat (length value) ->
  (forall s, s ∈ mi_states m -> type_size (ms_value_type s) <= state_capacity) ->
  (forall a, a ∈ mi_actions m -> ma_observation a <> CFLOW_MACHINE_ACTION_NONE ->
     type_size (ma_output_type a) <= observation_capacity) ->
  type_size (mc_output_type c) <= observation_capacity ->
  bindings_exact gb_id gb_fn mg_id (given_rows (mc_guards c) (mc_guard_count c)) (mi_guards m) ->
  bindings_exact ab_id ab_fn ma_id (given_rows (mc_actions c) (mc_action_count c)) (mi_actions m) ->
  guards ≡ₚ given_rows (mc_guards c) (mc_guard_count c) ->
  actions ≡ₚ given_rows (mc_actions c) (mc_action_count c) ->
  mailbox_fresh m (mc_mailbox_capacity c) has_mailbox mailbox ->
  exists status storage,
    init_storage malloc fresh address event_address commit_hook boundary_hook machine initial value c
      guards actions state_capacity observation_capacity has_mailbox mailbox = Some (status, storage) /\
    match storage with
    | Some s => status = CFLOW_MACHINE_INSTANCE_OK /\ storage_of m c s
    | None => status = CFLOW_MACHINE_INSTANCE_ALLOCATION_FAILED /\ exists a, malloc a = false
    end.
Proof.
  intros [Himpl Hso Hwf Hlim] [Rs Re Ro Rz] Hin Hid Hvalue Hstates Hactions Hout [_ Bg] [_ Ba] Pg Pa Hmb.
  unfold init_storage. destruct (_ || _) eqn:Hfail.
  { eexists _, None. split; [done|]. split; [done|].
    repeat (apply orb_true_iff in Hfail as [Hfail|Hfail]); apply negb_true_iff in Hfail; by eexists. }
  clear Hfail. cbn zeta. set (event_capacity := if has_mailbox then _ else 0). clearbody event_capacity.
  pose proof (proj1 (Rs _ Hin)) as Hsz. unfold is_size in Hsz.
  pose proof (Hstates _ Hin) as Hcap.
  destruct (copy_front_spec (fresh (Z.to_nat state_capacity)) value
    (Z.to_nat (type_size (ms_value_type initial)))) as (bytes & -> & Hbytes & _);
    [lia|rewrite fresh_length; lia|].
  cbn [mbind option_bind].
  set (i0 := initial_impl _ _ _ _ _).
  destruct (initial_terminal_answers (malloc INST_ALLOC_ERROR) i0) as (Ha & Hopen & Hbuf & Hcount);
    [done..|by apply (wf_state _ (wf_states _ Hwf))|].
  set (i := initial_terminal _ i0) in *. clearbody i.
  set (binding := mk_instance_binding _ _ _ _ _ _ _ _ _ _ _ _).
  destruct (initial_mailbox m (mc_mailbox_capacity c) has_mailbox mailbox (in_done i) binding)
    as (mailbox' & Hmb' & Hok' & Hcan' & Hacc' & Hrec'); [done..|].
  rewrite Hmb'. cbn [mbind option_bind]. eexists _, (Some _). split; [done|]. split; [done|].
  injection Hbuf as E1 E2 E3 E4 E5. injection Hcount as C1 C2 C3 C4.
  split; cbn [is_binding is_impl is_mailbox].
  - done.
  - split; [| | |done].
    + unfold machine_rows. simpl.
      split; rewrite ?E1, ?E2, ?E3, ?E4, ?E5; simpl; unfold machine_rows;
        rewrite ?Himpl, ?Hbytes, ?fresh_length; try done. destruct (event_capacity =? 0) eqn:Hz; [apply Z.eqb_eq in Hz; rewrite Hz; simpl; lia|done].
    + done.
    + rewrite Hacc', Hrec'. split; rewrite ?C1, ?C2, ?C3, ?C4; simpl; lia.
  - destruct (in_done i) eqn:Hd; [right; by apply Hcan'|left; by apply Hopen].
  - by rewrite E1.
  - done.
  - done.
  - intros U HU Hb. split; simpl; unfold machine_rows; rewrite ?Himpl.
    + intros s Hs. destruct (proj1 (Rs _ Hs)). split; [done|by apply Hstates].
    + intros s Hs. by apply (wf_state _ (wf_states _ Hwf)).
    + destruct (proj1 Ro). by split.
    + intros a e Hina Hobs Hine Heid.
      assert (type_size (et_payload_type e) = type_size (ma_output_type a)) as ->.
      { apply Rz; [done..|]. destruct (wf_actions _ Hwf a Hina) as (_ & _ & _ & _ & _ & _ & _ & Hwfo).
        unfold observation_wf in Hwfo. rewrite Hobs in Hwfo. destruct Hwfo as (_ & _ & e' & Hin' & Hid' & Hag).
        assert (e' = e) as <-; [|done].
        apply list_elem_of_lookup in Hin' as (j & Hj). apply list_elem_of_lookup in Hine as (j' & Hj').
        assert (j = j') as ->; [|congruence].
        eapply (NoDup_lookup _ _ _ _ (wf_event_ids _ (wf_events _ Hwf)));
          rewrite list_lookup_fmap; [by rewrite Hj|rewrite Hj'; simpl; congruence]. }
      apply Hactions; [done|by rewrite Hobs].
    + intros b Hbin. apply Bg. by rewrite <- Pg.
    + intros b Hbin. apply Ba. by rewrite <- Pa.
    + apply Hb.
Qed.

(** The initial state is found. *)
Lemma find_initial_state machine m :
  machine_built machine m ->
  exists j s, instance_find_state machine (cflow_machine_initial_state (Some machine)) = Some (j, s) /\
    s ∈ mi_states m /\ ms_id s = mi_initial_state m.
Proof.
  intros [Himpl Hso Hwf _]. unfold instance_find_state, cflow_machine_initial_state, machine_rows. simpl.
  rewrite Himpl. destruct (wf_initial _ (wf_states _ Hwf)) as (s & Hs & Hid).
  destruct (bsearch ms_id (mi_states m) (mi_initial_state m)) as [[j x]|] eqn:Hb.
  - apply bsearch_sound in Hb as [Hx Hxid]. exists j, x. split_and!; [done| |done].
    by eapply list_elem_of_lookup_2.
  - exfalso. apply (proj1 (bsearch_None ms_id _ _ (so_states _ Hso)) Hb s Hs Hid).
Qed.

Lemma init_internal_spec address event_address commit_hook boundary_hook machine m c :
  machine_built machine m -> mc_machine c = Some machine -> is_Some (mc_output_type c) ->
  machine_types m (mc_output_type c) -> config_readable m c ->
  exists status h,
    cflow_machine_instance_init_internal malloc fresh address event_address commit_hook boundary_hook
      (Some (mk_machine_instance None)) (Some c) = Some (status, Some h) /\
    (status = CFLOW_MACHINE_INSTANCE_OK ->
       config_admissible m c /\ exists s, ci_impl h = Some s /\ storage_of m c s) /\
    (status <> CFLOW_MACHINE_INSTANCE_OK -> ci_impl h = None) /\
    ((forall a, malloc a = true) -> config_admissible m c ->
     mailbox_fits (mi_events m) (mc_mailbox_capacity c) -> status = CFLOW_MACHINE_INSTANCE_OK).
Proof.
  intros Hb Hmachine [output Hout] Htypes Hread. unfold cflow_machine_instance_init_internal.
  rewrite Hmachine, Hout.
  assert (forall status, status <> CFLOW_MACHINE_INSTANCE_OK ->
    ((forall a, malloc a = true) -> config_admissible m c -> mailbox_fits (mi_events m) (mc_mailbox_capacity c) ->
     status = CFLOW_MACHINE_INSTANCE_OK) ->
    exists status' h,
    Some (status, Some (mk_machine_instance None)) = Some (status', Some h) /\
    (status' = CFLOW_MACHINE_INSTANCE_OK ->
       config_admissible m c /\ exists s, ci_impl h = Some s /\ storage_of m c s) /\
    (status' <> CFLOW_MACHINE_INSTANCE_OK -> ci_impl h = None) /\
    ((forall a, malloc a = true) -> config_admissible m c ->
     mailbox_fits (mi_events m) (mc_mailbox_capacity c) -> status' = CFLOW_MACHINE_INSTANCE_OK)) as Hfail.
  { intros status Hne Hok. eexists status, _. by split_and!. }
  destruct (mc_initial_state c) as [value|] eqn:Hvalue.
  2: { apply Hfail; [done|]. intros _ Hok _. destruct (ca_value _ _ Hok). congruence. }
  destruct (mc_executor c) as [executor|] eqn:Hexec.
  2: { apply Hfail; [done|]. intros _ Hok _. destruct (ca_executor _ _ Hok) as (? & ? & _). congruence. }
  cbn [ci_impl is_null negb orb]. rewrite (bu_impl _ _ Hb). cbn [is_null orb].
  destruct (mc_mailbox_capacity c =? 0)%nat eqn:Hcap; destruct_bools.
  { apply Hfail; [done|]. intros _ Hok _. pose proof (ca_capacity _ _ Hok). lia. }
  destruct (executor_rejected executor) eqn:Hrej.
  { apply Hfail; [done|]. intros _ Hok _. destruct (ca_executor _ _ Hok) as (? & ? & ?). congruence. }
  destruct (find_initial_state machine m Hb) as (j & initial & -> & Hin & Hid).
  destruct (malloc INST_ALLOC_IMPL) eqn:Himpl; cbn [negb].
  2: { apply Hfail; [done|]. intros Hm. by rewrite Hm in Himpl. }
  destruct (copy_and_validate_spec malloc machine m c Hb Hread) as (s1 & guards & actions & -> & D1 & F1).
  cbn [mbind option_bind]. destruct (decide (s1 = CFLOW_MACHINE_INSTANCE_OK)) as [->|Hne1].
  2: { destruct s1; try (apply Hfail; [done|]; by intros; apply F1). done. }
  destruct (D1 eq_refl) as ([Ng Bg] & [Na Ba] & Pg & Pa).
  pose proof (measure_types_spec machine m c Hb) as Hmeasure.
  destruct (measure_supported_types machine c) as [[s2 sc] oc]. destruct Hmeasure as [D2 F2].
  destruct (decide (s2 = CFLOW_MACHINE_INSTANCE_OK)) as [->|Hne2].
  2: { destruct s2; try (apply Hfail; [done|]; by intros; apply F2). done. }
  destruct (D2 eq_refl) as (Oout & Ostates & Oactions & Oobs).
  destruct (initialize_mailbox_spec machine m c Hb Htypes) as (s3 & has & mailbox & -> & D3 & F3).
  cbn [mbind option_bind]. destruct (decide (s3 = CFLOW_MACHINE_INSTANCE_OK)) as [->|Hne3].
  2: { destruct s3; try (apply Hfail; [done|]; by intros; apply F3). done. }
  destruct (D3 eq_refl) as [Hmb Oevents].
  destruct (init_storage_spec address event_address commit_hook boundary_hook machine m initial value c
    guards actions sc oc has mailbox) as (status & storage & -> & Hstorage); try done.
  { by apply (cr_value _ _ Hread). }
  { intros s Hs. by apply Ostates. }
  { intros a Ha. by apply Oactions. }
  cbn [mbind option_bind]. destruct storage as [storage|]; destruct Hstorage as [-> Hstorage].
  - eexists _, _. split; [done|]. split; [|done]. intros _. split; [|by eexists].
    split; [by eexists|by eexists|lia|done|done|done| | |done].
    + intros s Hs. by apply Ostates.
    + intros a Ha. by apply Oactions.
  - apply Hfail; [done|]. destruct Hstorage as [a Ha]. intros Hm. by rewrite Hm in Ha.
Qed.

End Mailbox.

(** * Built machines *)

(** A machine [cflow_machine_build] published is one. *)
Lemma build_is_built `{Qsort} malloc d machine :
  definition_readable d ->
  cflow_machine_build malloc (Some (mk_machine None)) (Some d) = Some (CFLOW_MACHINE_OK, Some machine) ->
  exists m, machine_built machine m /\ machine_perm (definition_rows d) m.
Proof.
  intros Hr Hbuild. destruct (build_spec malloc d Hr) as (status & machine' & Hb & Hok & _).
  rewrite Hb in Hbuild. injection Hbuild as -> ->.
  destruct (Hok eq_refl) as ([Hlim _] & Hwf & m & Hm & Hso & Hp). exists m. split; [|done].
  split; [done|done|by rewrite <- Hp|].
  unfold exceeds_limits in Hlim. destruct_bools.
  destruct Hr as [[? _] R2 R3 R4 _].
  assert (forall A (p : option (list A)) count, holds_rows p count -> Z.of_nat (length (rows p count)) <= count)
    as Hrows.
  { intros A p count [Hc _]. unfold rows. rewrite length_take. lia. }
  rewrite <- (mp_events _ _ Hp), <- (mp_guards _ _ Hp), <- (mp_actions _ _ Hp). simpl.
  pose proof (Hrows _ _ _ R2). pose proof (Hrows _ _ _ R3). pose proof (Hrows _ _ _ R4). lia.
Qed.
