(* ===== verification/CFlowInstanceTheorems.v ===== *)
(** Which transition an instance takes: among the rows of the current state and
    event whose guard holds, the one with the smallest priority.

    The properties of machine instances: what initialisation admits, safety and
    exact accounting under every interleaving, finality of a terminal instance,
    and the choice of the transition. *)

From S2P Require Import Prelude.
From S2P Require Import CMetaType.
From S2P Require Import CMetaFunction.
From S2P Require Import CFlowSupport.
From S2P Require Import CFlowMachine.
From S2P Require Import CFlowMachineReach.
From S2P Require Import CFlowMailbox.
From S2P Require Import CFlowMailboxTheorems.
From S2P Require Import CFlowProgram.
From S2P Require Import CFlowInstanceData.
From S2P Require Import CFlowInstance.
From S2P Require Import CFlowInstanceSafety.
From S2P Require Import CFlowInstanceProtocol.
From S2P Require Import CFlowInstanceBuild.

(** * The order of the rows *)

(** The rows a state and an event select. *)
Definition row_matches (state event_id : Z) (t : cflow_machine_transition) : Prop :=
  mt_source t = state /\ mt_event t = event_id.

Lemma transition_below_spec state event_id t :
  transition_below state event_id t = true <->
  mt_source t < state \/ mt_source t = state /\ mt_event t < event_id.
Proof.
  unfold transition_below. rewrite orb_true_iff, andb_true_iff, !Z.ltb_lt, Z.eqb_eq. done.
Qed.

Lemma below_downward l state event_id :
  ordered compare_transition l -> forall i j x y, l !! i = Some x -> l !! j = Some y -> (i <= j)%nat ->
  transition_below state event_id y = true -> transition_below state event_id x = true.
Proof.
  intros Ho i j x y Hi Hj Hij Hy. destruct (decide (i = j)) as [->|]; [congruence|].
  pose proof (ordered_lookup _ _ _ _ _ _ Ho Hi Hj ltac:(lia)) as Hxy.
  apply compare_transition_le in Hxy. apply transition_below_spec in Hy.
  apply transition_below_spec. lia.
Qed.

(** The rows before the lower bound match nothing. *)
Lemma lower_bound_matches l state event_id t :
  ordered compare_transition l ->
  t ∈ l -> row_matches state event_id t ->
  t ∈ drop (lower_bound (transition_below state event_id) l) l.
Proof.
  intros Ho Ht [Hs He].
  destruct (lower_bound_spec (transition_below state event_id) l (below_downward _ _ _ Ho)) as [Hle Hspec].
  apply list_elem_of_lookup in Ht as (i & Hi). specialize (Hspec i t Hi).
  assert (~ (i < lower_bound (transition_below state event_id) l)%nat) as Hge.
  { intros Hlt. apply Hspec, transition_below_spec in Hlt. lia. }
  apply list_elem_of_lookup. exists (i - lower_bound (transition_below state event_id) l)%nat.
  rewrite lookup_drop. rewrite <- Hi. f_equal. lia.
Qed.

(** Nor do the rows after one of another state or event. *)
Lemma later_rows_differ l t t' state event_id :
  ordered compare_transition (t :: l) -> transition_below state event_id t = false ->
  ~ row_matches state event_id t -> t' ∈ l -> ~ row_matches state event_id t'.
Proof.
  intros Ho Hb Hn Ht [Hs He]. apply ordered_cons in Ho as [_ Ho]. specialize (Ho t' Ht). apply compare_transition_le in Ho.
  apply not_true_iff_false in Hb. rewrite transition_below_spec in Hb. apply Hn. split; lia.
Qed.

(** * Selection *)

Section Select.
Context `{Henv : MachineEnvironment U} (impl : instance_binding).

(** The guards keep their contract: they only look at the bytes they are given. *)
Context (holds : addr -> addr -> list Z -> list Z -> bool).
Context (guards_pure : forall fn user state event error u,
  env_guard fn user state event false error u = (mk_guard_result true (holds fn user state event) error, u)).

(** The guard of a row holds in an instance. *)
Definition guard_holds (i : cflow_machine_instance_impl) (t : cflow_machine_transition) : bool :=
  (mt_guard t =? 0) ||
  match find_guard_binding impl (mt_guard t) with
  | Some (_, b) =>
      match gb_fn b with
      | Some fn => holds fn (gb_user b) (in_state_value i) (in_event_value i)
      | None => false
      end
  | None => false
  end.

(** The guard is declared and bound. *)
Definition guard_bound (t : cflow_machine_transition) : Prop :=
  mt_guard t <> 0 ->
  exists j b fn, find_guard_binding impl (mt_guard t) = Some (j, b) /\ gb_fn b = Some fn.

Lemma transition_enabled_run t error (w : machine_world U) :
  guard_bound t ->
  run (transition_enabled impl t error) w =
    Some (mk_guard_result true (guard_holds (mw_instance w) t) error, w).
Proof.
  intros Hb. unfold transition_enabled, guard_holds. destruct (mt_guard t =? 0) eqn:E; [done|].
  apply Z.eqb_neq in E. destruct (Hb E) as (j & b & fn & -> & ->). simpl.
  rewrite guards_pure. by destruct w.
Qed.

(** The loop finds the first row that matches and holds. *)
Lemma select_loop_run state event_id rows index error (w : machine_world U) :
  ordered compare_transition rows -> Forall guard_bound rows ->
  (forall t, t ∈ rows -> transition_below state event_id t = false) ->
  exists selected error',
    run (select_loop impl state event_id rows index error) w = Some ((selected, error'), w) /\
    match selected with
    | Some (j, t) => error' = error /\ exists k, rows !! k = Some t /\ j = (index + k)%nat /\
        row_matches state event_id t /\ guard_holds (mw_instance w) t = true /\
        forall k' t', (k' < k)%nat -> rows !! k' = Some t' -> guard_holds (mw_instance w) t' = false
    | None => error' = Some (default "no enabled transition"%string error) /\
        forall t, t ∈ rows -> row_matches state event_id t -> guard_holds (mw_instance w) t = false
    end.
Proof.
  revert index. induction rows as [|t rows IH]; intros index Ho Hg Hb.
  { eexists None, _. split; [done|]. split; [done|]. by intros t ?%elem_of_nil. }
  pose proof (Hb t ltac:(by left)) as Hbt. apply Forall_cons in Hg as [Hgt Hg]. cbn [select_loop].
  destruct (_ || _) eqn:Hdiff.
  { eexists None, _. split; [done|]. split; [done|].
    assert (~ row_matches state event_id t) as Hn.
    { intros [Hs He]. rewrite Hs, He, !Z.eqb_refl in Hdiff. done. }
    intros t' [->|Ht']%elem_of_cons Hm; [done|]. by destruct (later_rows_differ _ _ t' _ _ Ho Hbt Hn Ht'). }
  apply orb_false_iff in Hdiff as [Hs%negb_false_iff%Z.eqb_eq He%negb_false_iff%Z.eqb_eq].
  rewrite run_bind, transition_enabled_run by done. cbn [mbind option_bind gr_ok gr_enabled gr_error negb].
  destruct (guard_holds (mw_instance w) t) eqn:Hholds.
  { eexists (Some (index, t)), _. split; [done|]. split; [done|]. exists 0%nat. split_and!; [done|lia|done|done|]. lia. }
  destruct (IH (S index)) as (selected & error' & Hrun & Hspec);
    [apply (ordered_cons _ _ _ Ho)|done|intros; apply Hb; by right|].
  exists selected, error'. split; [done|]. destruct selected as [[j t']|].
  - destruct Hspec as (-> & k & Hk & -> & Hm & Hh & Hfirst). split; [done|]. exists (S k). split_and!; [done|lia|done|done|].
    intros [|k'] t0 Hlt Ht0; [by simplify_eq/=|]. apply (Hfirst k' t0); [lia|done].
  - destruct Hspec as [-> Hnone]. split; [done|].
    intros t' [->|Ht']%elem_of_cons Hm; [done|by apply Hnone].
Qed.

(** C29: An instance takes the enabled transition of highest priority.  For pure
    guards, selection leaves the instance alone and answers the row of the current
    state and the event whose guard holds with the smallest priority, which is
    unique; it reports that none is enabled exactly when no guard holds. *)
Theorem select_transition_exact m event_id (w : machine_world U) :
  machine_built (ib_machine impl) m -> Forall guard_bound (mi_transitions m) ->
  let state := ms_id (in_state (mw_instance w)) in
  let enabled t := t ∈ mi_transitions m /\ row_matches state event_id t /\
                   guard_holds (mw_instance w) t = true in
  exists selected error,
    run (select_transition impl event_id) w = Some ((selected, error), w) /\
    match selected with
    | Some (j, t) => mi_transitions m !! j = Some t /\ enabled t /\ error = None /\
        forall t', enabled t' -> t' <> t -> mt_priority t < mt_priority t'
    | None => error = Some "no enabled transition"%string /\ forall t, ~ enabled t
    end.
Proof.
  intros Hb Hg state enabled. pose proof (so_transitions _ (bu_sorted _ _ Hb)) as Ho.
  unfold select_transition, machine_rows. rewrite (bu_impl _ _ Hb). rewrite run_bind. simpl (run (read _) _).
  cbn [mbind option_bind]. fold state.
  set (left := lower_bound (transition_below state event_id) (mi_transitions m)).
  destruct (lower_bound_spec (transition_below state event_id) (mi_transitions m)
    (below_downward _ _ _ Ho)) as [Hle Hspec]. fold left in Hle, Hspec.
  destruct (select_loop_run state event_id (drop left (mi_transitions m)) left None w)
    as (selected & error & -> & Hsel).
  { by apply ordered_drop. }
  { by apply Forall_drop. }
  { intros t (k & Hk)%list_elem_of_lookup. rewrite lookup_drop in Hk.
    apply not_true_iff_false. rewrite (Hspec _ _ Hk). lia. }
  exists selected, error. split; [done|]. destruct selected as [[j t]|].
  - destruct Hsel as (-> & k & Hk & -> & Hm & Hh & Hfirst). rewrite lookup_drop in Hk.
    split_and!; [done|split_and!; [by eapply list_elem_of_lookup_2|done|done]|done|].
    intros t' (Ht' & Hm' & Hh') Hne.
    pose proof (lower_bound_matches _ _ _ _ Ho Ht' Hm') as Hin. fold left in Hin.
    apply list_elem_of_lookup in Hin as (k' & Hk').
    assert (k < k')%nat as Hlt.
    { destruct (decide (k' < k)%nat) as [Hlt|]; [by rewrite (Hfirst _ _ Hlt Hk') in Hh'|].
      assert (k <> k'); [|lia]. intros <-. rewrite lookup_drop in Hk'. congruence. }
    rewrite lookup_drop in Hk'.
    pose proof (ordered_lookup _ _ _ _ _ _ Ho Hk Hk' ltac:(lia)) as Hcmp.
    apply compare_transition_le in Hcmp. destruct Hm as [Hs1 He1], Hm' as [Hs2 He2].
    assert (mt_priority t <> mt_priority t') as Hp; [|lia]. intros Hp.
    assert ((left + k)%nat = (left + k')%nat); [|lia].
    eapply (NoDup_lookup _ _ _ _ (wf_deterministic _ (bu_wf _ _ Hb)));
      rewrite list_lookup_fmap; [by rewrite Hk|rewrite Hk']. simpl. unfold transition_key.
    f_equal. congruence.
  - destruct Hsel as [-> Hnone]. split; [done|]. intros t (Ht & Hm & Hh).
    by rewrite (Hnone t (lower_bound_matches _ _ _ _ Ho Ht Hm) Hm) in Hh.
Qed.
End Select.

(** * Running instances *)

(** An instance the code built: its machine comes from [cflow_machine_build], it
    was initialised on an empty handle, and its callbacks stay in bounds. *)
Record instance_started `{Qsort} `{MachineEnvironment U} (malloc_machine : machine_allocation -> bool)
    (malloc : instance_allocation -> bool) (fresh : nat -> list Z) (address event_address : addr)
    (commit_hook boundary_hook : bool) (d : cflow_machine_definition) (machine : cflow_machine)
    (c : cflow_machine_instance_config) (storage : instance_storage) : Prop := {
  it_fresh : forall n, length (fresh n) = n;
  it_definition : definition_readable d;
  it_build : cflow_machine_build malloc_machine (Some (mk_machine None)) (Some d) =
    Some (CFLOW_MACHINE_OK, Some machine);
  it_machine : mc_machine c = Some machine;
  it_output : is_Some (mc_output_type c);
  it_types : forall m, m_impl machine = Some m -> machine_types m (mc_output_type c);
  it_config : forall m, m_impl machine = Some m -> config_readable m c;
  it_init : cflow_machine_instance_init_internal malloc fresh address event_address commit_hook
    boundary_hook (Some (mk_machine_instance None)) (Some c) =
    Some (CFLOW_MACHINE_INSTANCE_OK, Some (mk_machine_instance (Some storage)));
  it_actions : actions_in_bounds;
}.

(** The systems a started instance reaches: its worker task whenever the executor
    runs a posted one, next to any client calls. *)
Definition instance_step `{MachineEnvironment U} (impl : instance_binding)
    : system (machine_world U) -> system (machine_world U) -> Prop :=
  system_step take_task (machine_executor_task impl) (instance_client impl).

Definition instance_reachable `{MachineEnvironment U} (storage : instance_storage) (u : U)
    (s : system (machine_world U)) : Prop :=
  rtc (instance_step (is_binding storage)) (mk_system None [] (instance_world storage u)) s.

Lemma started_storage `{Qsort} `{MachineEnvironment U} mm malloc fresh a e ch bh d machine c storage :
  instance_started mm malloc fresh a e ch bh d machine c storage ->
  exists m, machine_built machine m /\ storage_of m c storage.
Proof.
  intros [Hf Hd Hb Hm Ho Ht Hc Hi Ha].
  destruct (build_is_built _ _ _ Hd Hb) as (m & Hbuilt & _). exists m. split; [done|].
  pose proof (bu_impl _ _ Hbuilt) as Himpl.
  destruct (init_internal_spec malloc fresh Hf a e ch bh machine m c Hbuilt Hm Ho (Ht m Himpl) (Hc m Himpl))
    as (status & h & Hinit & Hok & _).
  rewrite Hinit in Hi. injection Hi as -> ->. destruct (Hok eq_refl) as (_ & s & [= <-] & Hs). done.
Qed.

(** Every reachable system respects the protocol. *)
Lemma reachable_ok `{Qsort} `{MachineEnvironment U} mm malloc fresh a e ch bh d machine c storage u s :
  instance_started mm malloc fresh a e ch bh d machine c storage -> instance_reachable storage u s ->
  instance_setting (is_binding storage) /\
  system_ok (machine_protocol (is_binding storage) U) RFree s.
Proof.
  intros Hst Hr. destruct (started_storage _ _ _ _ _ _ _ _ _ _ _ Hst) as (m & Hb & Hs).
  pose proof (so_setting _ _ _ Hs U (it_actions _ _ _ _ _ _ _ _ _ _ _ Hst)) as Hset. split; [done|].
  pose proof (machine_protocol_sound (is_binding storage) Hset) as Hp.
  assert (system_ok (machine_protocol (is_binding storage) U) RFree
    (mk_system None [] (instance_world storage u))) as Hinit
    by (eapply system_ok_initial; [exact Hp|apply Hs|apply Hs]).
  eapply system_ok_steps in Hr; [apply Hr|exact Hp|apply _|exact Hinit].
Qed.

Lemma steps_mono `{MachineEnvironment U} impl s1 s2 :
  instance_setting impl -> system_ok (machine_protocol impl U) RFree s1 ->
  rtc (instance_step impl) s1 s2 ->
  system_ok (machine_protocol impl U) RFree s2 /\
  instance_mono (mw_instance (sy_world s1)) (mw_instance (sy_world s2)) /\
  mailbox_mono (mw_mailbox (sy_world s1)) (mw_mailbox (sy_world s2)).
Proof.
  intros Hset Hok Hsteps.
  eapply system_ok_steps in Hsteps; [exact Hsteps|exact (machine_protocol_sound impl Hset)|apply _|done].
Qed.

(** * Statistics *)

Lemma u64_small z : 0 <= z <= UINT64_MAX -> u64 z = z.
Proof. intros Hz. apply Z.mod_small. unfold UINT64_MAX in Hz. lia. Qed.

Lemma stats_exact `{MachineEnvironment U} impl r (w : machine_world U) :
  instance_inv impl r (mw_instance w) (mw_mailbox w) ->
  exists stats, run (cflow_machine_instance_get_stats impl) w = Some (Some stats, w) /\
    (ist_accepted stats < UINT64_MAX ->
       ist_accepted stats = ist_completed stats + ist_failed stats + ist_cancelled_events stats +
         Z.of_nat (ist_pending stats) + ist_in_flight stats /\
       ist_in_flight stats = in_hand r) /\
    (mailbox_cancelled (mw_mailbox w) -> ist_pending stats = 0%nat).
Proof.
  intros Hi. destruct (ii_counts _ _ _ _ Hi) as [C1 C2 C3].
  pose proof (ii_mailbox _ _ _ _ Hi) as Hok. unfold mailbox_ok in Hok.
  unfold mailbox_accepted, mailbox_received in C3.
  unfold cflow_machine_instance_get_stats, cflow_mailbox_get_stats. simpl.
  destruct (mb_impl (mw_mailbox w)) as [m|] eqn:Hm.
  - destruct Hok as (-> & f & Hrel & _). simpl.
    pose proof (mv_ranges _ (rl_inv _ _ Hrel)) as (Ra & Rr & Rc).
    pose proof (mv_accounting _ (rl_inv _ _ Hrel)) as Hacc.
    eexists. split; [done|]. cbn [machine_observe_stats ist_accepted ist_completed ist_failed
      ist_cancelled_events ist_pending ist_in_flight stats_locked st_accepted st_cancelled st_pending
      st_received]. split.
    + intros Hlt. specialize (Hacc Hlt). specialize (C3 Hlt).
      assert (0 <= in_hand r) by (by destruct r).
      rewrite (proj2 (Z.eqb_neq (mb_received m) UINT64_MAX)) by lia.
      rewrite !u64_small by lia. lia.
    + intros Hc. apply (mv_cancelled _ (rl_inv _ _ Hrel)). by apply Hc.
  - rewrite Hok. eexists. split; [done|].
    cbn [machine_observe_stats zero_mailbox_stats ist_accepted ist_completed ist_failed
      ist_cancelled_events ist_pending ist_in_flight st_accepted st_cancelled st_pending st_received].
    split; [|done]. intros Hlt. specialize (C3 Hlt). assert (0 <= in_hand r) by (by destruct r).
    rewrite (proj2 (Z.eqb_neq 0 UINT64_MAX)) by done. rewrite !u64_small by (unfold UINT64_MAX; lia). lia.
Qed.

(** * Properties *)

Section Properties.
Context `{Hq : Qsort} `{Henv : MachineEnvironment U}.
Context (malloc_machine : machine_allocation -> bool) (malloc : instance_allocation -> bool).
Context (fresh : nat -> list Z) (address event_address : addr) (commit_hook boundary_hook : bool).

#[local] Abbreviation started :=
  (instance_started malloc_machine malloc fresh address event_address commit_hook boundary_hook).

(** C34: Initialisation of a machine instance on an empty handle, for a machine
    that was built, never leaves an array, whatever the allocator answers.  It
    answers [OK] only for an admissible configuration: a serial executor the
    owner may use, exactly one non-null binding per declared guard and action,
    supported types, and one output type for all value actions.  The instance
    then starts in the initial state, owes nothing and satisfies the invariant
    of running instances; on failure the handle stays empty.  An admissible
    configuration that fits is admitted when allocation succeeds. *)
Theorem instance_init_exact machine m c :
  (forall n, length (fresh n) = n) -> machine_built machine m -> mc_machine c = Some machine ->
  is_Some (mc_output_type c) -> machine_types m (mc_output_type c) -> config_readable m c ->
  exists status h,
    cflow_machine_instance_init_internal malloc fresh address event_address commit_hook boundary_hook
      (Some (mk_machine_instance None)) (Some c) = Some (status, Some h) /\
    (status = CFLOW_MACHINE_INSTANCE_OK ->
       config_admissible m c /\ exists s, ci_impl h = Some s /\ storage_of m c s) /\
    (status <> CFLOW_MACHINE_INSTANCE_OK -> ci_impl h = None) /\
    ((forall a, malloc a = true) -> config_admissible m c ->
     mailbox_fits (mi_events m) (mc_mailbox_capacity c) -> status = CFLOW_MACHINE_INSTANCE_OK).
Proof. intros Hf. by apply init_internal_spec. Qed.

(** C9: No step of a running instance is undefined: under every interleaving of
    the worker task with any number of client threads and callbacks that call
    back, no thread leaves a buffer, the ring or a table, follows a null pointer,
    or nests wake-ups deeper than the two levels of the model. *)
Theorem instance_never_stuck d machine c storage u s :
  started d machine c storage -> instance_reachable storage u s -> system_not_stuck s.
Proof.
  intros Hst Hr. destruct (reachable_ok _ _ _ _ _ _ _ _ _ _ _ _ _ Hst Hr) as [_ Hok].
  by eapply system_ok_not_stuck.
Qed.

(** C10: The statistics of an instance are exact at every instant of every
    interleaving: until the accepted counter saturates, every accepted event is
    exactly one of completed, failed, cancelled, pending or in flight, and at
    most one is in flight.  When nothing runs any more and the instance was closed
    or cancelled or ended, nothing is pending or in flight, so that accepted
    events are completed, failed or cancelled. *)
Theorem instance_accounting_exact d machine c storage u s :
  started d machine c storage -> instance_reachable storage u s ->
  exists stats,
    run (cflow_machine_instance_get_stats (is_binding storage)) (sy_world s) =
      Some (Some stats, sy_world s) /\
    (ist_accepted stats < UINT64_MAX ->
       ist_accepted stats = ist_completed stats + ist_failed stats + ist_cancelled_events stats +
         Z.of_nat (ist_pending stats) + ist_in_flight stats /\
       0 <= ist_in_flight stats <= 1) /\
    (quiescent s -> in_lifecycle (mw_instance (sy_world s)) <> CFLOW_MACHINE_CONTROL_OPEN ->
       ist_pending stats = 0%nat /\ (ist_accepted stats < UINT64_MAX -> ist_in_flight stats = 0)).
Proof.
  intros Hst Hr. destruct (reachable_ok _ _ _ _ _ _ _ _ _ _ _ _ _ Hst Hr) as [Hset Hok].
  pose proof Hok as (r & k & ks & Hinv & _).
  destruct (stats_exact _ _ _ Hinv) as (stats & Hrun & Hexact & Hpending). exists stats.
  split; [done|]. split.
  - intros Hlt. destruct (Hexact Hlt) as [-> ->]. split; [done|]. by destruct r.
  - intros Hquiet Hlife. destruct (system_ok_quiescent _ _ _ Hok Hquiet) as [Hfree Hclear].
    destruct (stats_exact _ _ _ Hfree) as (stats' & Hrun' & Hexact' & Hpending').
    rewrite Hrun in Hrun'. injection Hrun' as <-. destruct Hclear as [?|Hcan]; [done|].
    split; [by apply Hpending|]. intros Hlt. by destruct (Hexact' Hlt) as [_ ->].
Qed.

(** C12: A cancelled or ended instance stays as it is.  From the moment cancellation
    is requested, whatever runs on, no transition is committed any more: state,
    state value, completed and emitted counts are final; a done instance stays
    done, an error is never replaced, and a cancelled mailbox accepts nothing. *)
Theorem instance_terminal_final d machine c storage u s1 s2 :
  started d machine c storage -> instance_reachable storage u s1 ->
  rtc (instance_step (is_binding storage)) s1 s2 ->
  let i1 := mw_instance (sy_world s1) in
  let i2 := mw_instance (sy_world s2) in
  (in_lifecycle i1 = CFLOW_MACHINE_CONTROL_CANCEL_REQUESTED \/
   in_lifecycle i1 = CFLOW_MACHINE_CONTROL_TERMINAL ->
     committed_part i2 = committed_part i1) /\
  (in_done i1 = true -> in_done i2 = true /\ in_lifecycle i2 = CFLOW_MACHINE_CONTROL_TERMINAL) /\
  (forall error, in_error i1 = Some error -> in_error i2 = Some error) /\
  (mailbox_cancelled (mw_mailbox (sy_world s1)) ->
     mailbox_cancelled (mw_mailbox (sy_world s2)) /\
     mailbox_accepted (mw_mailbox (sy_world s2)) = mailbox_accepted (mw_mailbox (sy_world s1))).
Proof.
  intros Hst Hr Hsteps i1 i2. destruct (reachable_ok _ _ _ _ _ _ _ _ _ _ _ _ _ Hst Hr) as [Hset Hok].
  destruct (steps_mono _ _ _ Hset Hok Hsteps) as ((r & _ & _ & Hinv & _) & [Hd He Hl Hf] & Hm).
  split_and!; [|split; [by apply Hd|]|done|apply Hm].
  - intros Hcase. apply Hf. unfold instance_rank. fold i1. destruct Hcase as [-> | ->]; simpl; lia.
  - apply (ii_answers _ _ _ _ Hinv). by apply Hd.
Qed.

(** A done instance answers: resumption returns a terminal step, the value of
    the last transition first if it was not handed over, and never waits. *)
Theorem done_instance_answers d machine c storage u s :
  started d machine c storage -> instance_reachable storage u s ->
  in_done (mw_instance (sy_world s)) = true ->
  exists kind value error,
    run (machine_resume (is_binding storage)) (sy_world s) =
      Some (Resumed kind value error, sy_world s) /\
    match kind with
    | CFLOW_STEP_VALUE_AND_DONE => is_Some value
    | CFLOW_STEP_DONE => in_error (mw_instance (sy_world s)) = None
    | CFLOW_STEP_ERROR => error = in_error (mw_instance (sy_world s))
    | CFLOW_STEP_VALUE | CFLOW_STEP_WAIT => False
    end.
Proof.
  intros Hst Hr Hdone. destruct (reachable_ok _ _ _ _ _ _ _ _ _ _ _ _ _ Hst Hr) as [Hset Hok].
  destruct Hok as (r & k & ks & Hinv & _). set (w := sy_world s) in *. clearbody w. clear s Hr k ks.
  destruct (ia_done _ (ii_answers _ _ _ _ Hinv) Hdone) as [_ Hready].
  pose proof (se_output _ Hset) as Hout.
  pose proof (ib_observation_length _ _ (ii_buffers _ _ _ _ Hinv)) as Hlen.
  assert (forall answer, resume_locked (is_binding storage) (mw_instance w) =
      Some (ResumeNow answer, mw_instance w) ->
    run (machine_resume (is_binding storage)) w = Some (answer, w)) as Hrun.
  { intros answer Ha. unfold machine_resume, step. simpl. rewrite Ha. simpl. by destruct w. }
  unfold resume_locked, ready_is in Hrun.
  destruct Hready as [E|[E|E]]; rewrite E in Hrun.
  - unfold read_bytes in Hrun. rewrite (proj2 (Nat.leb_le _ _)) in Hrun by lia.
    eexists CFLOW_STEP_VALUE_AND_DONE, _, None. split; [by apply Hrun|by eexists].
  - destruct (in_error (mw_instance w)) as [e|] eqn:He.
    + exists CFLOW_STEP_ERROR, None, (Some e). split; [by apply Hrun|done].
    + exists CFLOW_STEP_DONE, None, None. split; [by apply Hrun|done].
  - eexists CFLOW_STEP_ERROR, None, _. split; [by apply Hrun|done].
Qed.
End Properties.
