(* ===== verification/CstlSupport.v ===== *)
(** Objects, allocations and statuses shared by the containers of cstl
    (cstl/include/cstl/status.h, cstl/src/sequence_internal.h).

    A container keeps objects of one run-time type in untyped memory: it copies
    them in, moves them about and destroys them through the trait callbacks of the
    type, or as plain bytes when it has no type.  A place for one object is a
    [cell], which tells raw memory, a live object and a moved-from one apart, so
    that a callback applied to the wrong one is undefined.  The world counts the
    blocks and the objects that are alive. *)

From S2P Require Import Prelude.
From S2P Require Import CMetaType.

Inductive stl_status :=
  | STL_OK
  | STL_INVALID_ARGUMENT
  | STL_OUT_OF_MEMORY
  | STL_CAPACITY_EXCEEDED
  | STL_EMPTY
  | STL_NOT_FOUND
  | STL_TYPE_MISMATCH
  | STL_TRAIT_MISSING.

#[export] Instance stl_status_eq_dec : EqDecision stl_status.
Proof. solve_decision. Defined.

(** A function that returns a status and fills an out-parameter on [STL_OK]. *)
Inductive stl_result (A : Type) :=
  | StlOk (value : A)
  | StlFail (status : stl_status).
Arguments StlOk {A} value.
Arguments StlFail {A} status.

(** * Sizes *)

Definition sequence_alignment_valid (alignment : Z) : bool :=
  negb (alignment =? 0) && (Z.land alignment (u64 (alignment - 1)) =? 0).

(** [(size + padding) & ~padding], for a padding that was checked to fit. *)
Definition round_up (size padding : Z) : Z :=
  Z.land (u64 (size + padding)) (u64 (Z.lnot padding)).

Definition sequence_stride (elem_size elem_align : Z) : stl_result Z :=
  if (elem_size =? 0) || negb (sequence_alignment_valid elem_align)
  then StlFail STL_INVALID_ARGUMENT
  else
    let padding := u64 (elem_align - 1) in
    if SIZE_MAX - padding <? elem_size then StlFail STL_CAPACITY_EXCEEDED
    else StlOk (round_up elem_size padding).

Definition sequence_bytes (count stride : Z) : stl_result Z :=
  if negb (count =? 0) && (SIZE_MAX / count <? stride) then StlFail STL_CAPACITY_EXCEEDED
  else StlOk (u64 (count * stride)).

Definition sizeof_pointer : Z := 8.

(** * Objects and the world *)

Inductive cell (V : Type) :=
  | Raw
  | Live (value : V)
  | Moved.
Arguments Raw {V}.
Arguments Live {V} value.
Arguments Moved {V}.

Definition cell_value {V} (c : cell V) : option V :=
  match c with Live v => Some v | _ => None end.

(** The callbacks of the types and of the untyped containers, by address, and the
    allocator.  [V] is what an object means, [U] the state the callbacks share;
    comparisons and hashes are functions of the objects, as type_traits.h asks. *)
Class ObjectTraits (V U : Type) := {
  call_equal : addr -> V -> V -> bool;
  call_hash : addr -> V -> Z;
  call_compare : addr -> V -> V -> Z;
  call_copy_construct : addr -> V -> U -> option V * U;
  call_move_construct : addr -> V -> U -> V * U;
  call_destroy : addr -> option V -> U -> U;
  raw_hash : addr -> V -> Z -> option addr -> Z;
  raw_equal : addr -> V -> V -> Z -> option addr -> bool;
  raw_compare : addr -> V -> V -> option addr -> Z;
  call_malloc : Z -> U -> option Z * U;
}.

(** What type_traits.h documents of copies and moves: the new object means what
    the source meant. *)
Class TraitLaws (V U : Type) `{ObjectTraits V U} := {
  copy_means : forall f v u v', fst (call_copy_construct f v u) = Some v' -> v' = v;
  move_means : forall f v u, fst (call_move_construct f v u) = v;
}.

Record object_world (U : Type) := mk_object_world {
  ow_user : U;
  ow_blocks : Z;
  ow_objects : Z;
}.
Arguments mk_object_world {U}.
Arguments ow_user {U}.
Arguments ow_blocks {U}.
Arguments ow_objects {U}.

(** A function that may be undefined and changes the world. *)
Definition store (U A : Type) : Type := object_world U -> option (A * object_world U).

Definition ret {U A} (x : A) : store U A := fun w => Some (x, w).
Definition bind {U A B} (m : store U A) (f : A -> store U B) : store U B :=
  fun w => match m w with None => None | Some (x, w') => f x w' end.

Declare Scope store_scope.
Delimit Scope store_scope with store.
Notation "'let*' x := m 'in' k" := (bind m (fun x => k))
  (at level 10, x pattern, m at level 200, k at level 200,
   format "'[v' 'let*'  x  :=  m  'in' '/' k ']'") : store_scope.
#[global] Open Scope store_scope.

(** What only reads and may be undefined. *)
Definition reading {U A} (x : option A) : store U A :=
  fun w => match x with None => None | Some a => Some (a, w) end.

Section Objects.
Context {V U : Type} `{!ObjectTraits V U}.

Definition trait (callback : cmeta_type_traits -> option addr) (type : cmeta_type_desc)
    : option addr :=
  td_traits type ≫= callback.

(** ** Lifetimes through the callbacks *)

Definition copy_construct (f : addr) (destination : cell V) (source : V)
    : store U (bool * cell V) := fun w =>
  match destination with
  | Raw =>
      let (made, u) := call_copy_construct f source (ow_user w) in
      match made with
      | Some v => Some ((true, Live v), mk_object_world u (ow_blocks w) (ow_objects w + 1))
      | None => Some ((false, Raw), mk_object_world u (ow_blocks w) (ow_objects w))
      end
  | _ => None
  end.

Definition move_construct (f : addr) (destination source : cell V)
    : store U (cell V * cell V) := fun w =>
  match destination, source with
  | Raw, Live v =>
      let (v', u) := call_move_construct f v (ow_user w) in
      Some ((Live v', Moved), mk_object_world u (ow_blocks w) (ow_objects w + 1))
  | _, _ => None
  end.

Definition destroy (f : addr) (object : cell V) : store U (cell V) := fun w =>
  match object with
  | Raw => None
  | _ =>
      let u := call_destroy f (cell_value object) (ow_user w) in
      Some (Raw, mk_object_world u (ow_blocks w) (ow_objects w - 1))
  end.

(** [memcpy] of one object: reading raw memory is undefined, and the source
    keeps its bytes. *)
Definition copy_bytes (source : cell V) : store U (cell V) :=
  let* v := reading (cell_value source) in ret (Live v).

(** ** Allocation *)

Definition malloc (bytes : Z) : store U (option Z) := fun w =>
  let (address, u) := call_malloc bytes (ow_user w) in
  Some (address,
        mk_object_world u (if is_null address then ow_blocks w else ow_blocks w + 1)
          (ow_objects w)).

Definition free : store U unit := fun w =>
  Some (tt, mk_object_world (ow_user w) (ow_blocks w - 1) (ow_objects w)).

Definition sequence_allocate (count stride alignment : Z) : store U (stl_result (option Z)) :=
  if negb (sequence_alignment_valid alignment) then ret (StlFail STL_INVALID_ARGUMENT)
  else
    match sequence_bytes count stride with
    | StlFail _ => ret (StlFail STL_CAPACITY_EXCEEDED)
    | StlOk bytes =>
        if bytes =? 0 then ret (StlOk None)
        else if SIZE_MAX - sizeof_pointer <? u64 (alignment - 1)
        then ret (StlFail STL_CAPACITY_EXCEEDED)
        else
          let overhead := u64 (sizeof_pointer + alignment - 1) in
          if SIZE_MAX - overhead <? bytes then ret (StlFail STL_CAPACITY_EXCEEDED)
          else
            let* raw := malloc (u64 (bytes + overhead)) in
            match raw with
            | None => ret (StlFail STL_OUT_OF_MEMORY)
            | Some raw =>
                let address := u64 (raw + sizeof_pointer) in
                if SIZE_MAX - u64 (alignment - 1) <? address
                then let* _ := free in ret (StlFail STL_CAPACITY_EXCEEDED)
                else ret (StlOk (Some (round_up address (u64 (alignment - 1)))))
            end
    end.

Definition sequence_deallocate (data : option Z) : store U unit :=
  match data with None => ret tt | Some _ => free end.

(** ** Objects of a container *)

Definition sequence_require_type (type : option cmeta_type_desc) (require_compare : bool)
    : stl_status :=
  match type with
  | None => STL_INVALID_ARGUMENT
  | Some t =>
      if (td_size t =? 0) || negb (sequence_alignment_valid (td_align t))
      then STL_INVALID_ARGUMENT
      else
        let required := Z.lor (Z.lor CMETA_TRAIT_COPY CMETA_TRAIT_MOVE) CMETA_TRAIT_DESTROY in
        let required := if require_compare then Z.lor required CMETA_TRAIT_COMPARE else required in
        if status_ok (cmeta_type_require_traits type required) then STL_OK else STL_TRAIT_MISSING
  end.

Definition sequence_copy (type : option cmeta_type_desc) (destination : cell V)
    (source : option V) : store U (stl_status * cell V) :=
  match source with
  | None => ret (STL_INVALID_ARGUMENT, destination)
  | Some v =>
      match type with
      | None => ret (STL_OK, Live v)
      | Some t =>
          if negb (status_ok (cmeta_type_require_traits type CMETA_TRAIT_COPY))
          then ret (STL_TRAIT_MISSING, destination)
          else
            let* f := reading (trait tr_copy_construct t) in
            let* (made, destination) := copy_construct f destination v in
            ret (if made then STL_OK else STL_OUT_OF_MEMORY, destination)
      end
  end.

Definition sequence_move_destroy (type : option cmeta_type_desc) (destination source : cell V)
    : store U (stl_status * (cell V * cell V)) :=
  match type with
  | None => let* destination := copy_bytes source in ret (STL_OK, (destination, source))
  | Some t =>
      if negb (status_ok (cmeta_type_require_traits type
                            (Z.lor CMETA_TRAIT_MOVE CMETA_TRAIT_DESTROY)))
      then ret (STL_TRAIT_MISSING, (destination, source))
      else
        let* move := reading (trait tr_move_construct t) in
        let* (destination, source) := move_construct move destination source in
        let* end_life := reading (trait tr_destroy t) in
        let* source := destroy end_life source in
        ret (STL_OK, (destination, source))
  end.

Definition sequence_destroy_value (type : option cmeta_type_desc) (value : cell V)
    : store U (stl_status * cell V) :=
  match type with
  | None => ret (STL_OK, value)
  | Some t =>
      if negb (status_ok (cmeta_type_require_traits type CMETA_TRAIT_DESTROY))
      then ret (STL_TRAIT_MISSING, value)
      else
        let* f := reading (trait tr_destroy t) in
        let* value := destroy f value in
        ret (STL_OK, value)
  end.

End Objects.

(** * Ranges *)

(** [state[0]] and [state[1]] of a [cmeta_range_cursor]. *)
Record range_cursor := mk_range_cursor {
  cur_node : option addr;
  cur_owner : option addr;
}.
