(* ===== verification/CstlObjects.v ===== *)
(** Reasoning about cstl: what a function of the world surely does, how it changes
    the number of blocks and objects that are alive, and the specifications of
    sequence_internal.h. *)

From S2P Require Import Prelude.
From S2P Require Import CMetaType.
From S2P Require Import CstlSupport.

(** * Sizes *)

(** The valid alignments are the powers of two. *)
Lemma sequence_alignment_pow2 k : 0 <= k < 64 -> sequence_alignment_valid (2 ^ k) = true.
Proof.
  intros Hk. assert (0 < 2 ^ k) by lia. assert (2 ^ k < 2 ^ 64) by (apply Z.pow_lt_mono_r; lia).
  unfold sequence_alignment_valid. rewrite (proj2 (Z.eqb_neq (2 ^ k) 0)) by lia. simpl.
  assert (u64 (2 ^ k - 1) = Z.ones k) as ->.
  { unfold u64. rewrite Z.mod_small by lia. by rewrite Z.ones_equiv, Z.sub_1_r. }
  rewrite Z.land_ones by lia. by rewrite Z.mod_same by lia.
Qed.

Lemma pow2_of_land a : 0 < a -> Z.land a (a - 1) = 0 -> a = 2 ^ Z.log2 a.
Proof.
  intros Ha Hl. set (k := Z.log2 a). assert (2 ^ k <= a < 2 ^ Z.succ k) as [Hlo Hhi].
  { apply Z.log2_spec. done. }
  assert (0 <= k) by apply Z.log2_nonneg.
  destruct (decide (a = 2 ^ k)) as [|Hne]; [done|]. exfalso.
  assert (Z.testbit (Z.land a (a - 1)) k = true) as Hbit; [|by rewrite Hl, Z.bits_0 in Hbit].
  rewrite Z.land_spec. apply andb_true_iff. split.
  - apply Z.bit_log2. lia.
  - assert (Z.log2 (a - 1) = k) as <-; [|apply Z.bit_log2; lia].
    apply Z.log2_unique; lia.
Qed.

Lemma sequence_alignment_inv a :
  is_size a -> sequence_alignment_valid a = true -> exists k, 0 <= k < 64 /\ a = 2 ^ k.
Proof.
  unfold is_size, SIZE_MAX. intros Ha Hv. unfold sequence_alignment_valid in Hv. destruct_bools.
  assert (u64 (a - 1) = a - 1) as Hu by (apply Z.mod_small; lia). rewrite Hu in *.
  exists (Z.log2 a). split; [|apply pow2_of_land; [lia|done]].
  split; [apply Z.log2_nonneg|]. apply Z.log2_lt_pow2; lia.
Qed.

(** Rounding up gives the next multiple. *)
Lemma round_up_spec size a :
  is_size a -> sequence_alignment_valid a = true -> 0 <= size <= SIZE_MAX - (a - 1) ->
  u64 (a - 1) = a - 1 /\
  size <= round_up size (a - 1) < size + a /\ round_up size (a - 1) mod a = 0 /\
  round_up size (a - 1) <= SIZE_MAX.
Proof.
  intros Ha Hv Hs. destruct (sequence_alignment_inv a Ha Hv) as (k & Hk & ->).
  assert (0 < 2 ^ k) by lia. assert (2 ^ k < 2 ^ 64) by (apply Z.pow_lt_mono_r; lia).
  unfold SIZE_MAX in *. split; [apply Z.mod_small; lia|]. unfold round_up.
  assert (u64 (size + (2 ^ k - 1)) = size + (2 ^ k - 1)) as -> by (apply Z.mod_small; lia).
  rewrite mask_low_bits by lia.
  pose proof (round_up_bounds size (2 ^ k) ltac:(lia)) as [[Hr1 Hr2] Hm].
  split_and!; [lia..|done|lia].
Qed.

Lemma sequence_stride_spec size a :
  is_size size -> is_size a ->
  match sequence_stride size a with
  | StlOk stride => 0 < size /\ sequence_alignment_valid a = true /\
      size <= stride < size + a /\ stride mod a = 0 /\ stride <= SIZE_MAX
  | StlFail status =>
      (status = STL_INVALID_ARGUMENT /\ (size = 0 \/ sequence_alignment_valid a = false)) \/
      (status = STL_CAPACITY_EXCEEDED /\ SIZE_MAX < size + (a - 1))
  end.
Proof.
  intros Hs Ha. unfold sequence_stride.
  destruct (size =? 0) eqn:H0; destruct_bools; [left; tauto|].
  destruct (sequence_alignment_valid a) eqn:Hv; simpl; [|left; tauto].
  destruct (sequence_alignment_inv a Ha Hv) as (k & Hk & Hak).
  unfold is_size in *. assert (0 < a) by (subst; lia).
  assert (u64 (a - 1) = a - 1) as -> by (unfold u64, SIZE_MAX in *; apply Z.mod_small; lia).
  destruct (_ <? size) eqn:Hov; destruct_bools; [right; split; [done|lia]|].
  pose proof (round_up_spec size a ltac:(done) Hv ltac:(lia)) as (_ & ? & ? & ?).
  split_and!; [lia|done|lia..].
Qed.

Lemma product_checked_spec a b :
  0 <= a -> 0 <= b ->
  (negb (a =? 0) && (SIZE_MAX / a <? b)) = false <-> a * b <= SIZE_MAX.
Proof.
  intros Ha Hb. destruct (a =? 0) eqn:H0; destruct_bools; simpl.
  - subst. unfold SIZE_MAX. split; [lia|done].
  - pose proof (Z.mul_div_le SIZE_MAX a ltac:(lia)). pose proof (Z.mul_succ_div_gt SIZE_MAX a ltac:(lia)).
    rewrite Z.ltb_ge. split; nia.
Qed.

(** * What a function surely does *)

(** [p] is defined on [w] and its result and world satisfy [Q]. *)
Definition wp {U A} (p : store U A) (Q : A -> object_world U -> Prop) (w : object_world U) : Prop :=
  match p w with Some (x, w') => Q x w' | None => False end.

Section Wp.
Context {U : Type}.
Implicit Types w : object_world U.

Lemma wp_ret {A} (x : A) Q w : Q x w -> wp (ret x) Q w.
Proof. done. Qed.

Lemma wp_bind {A B} (p : store U A) (f : A -> store U B) Q w :
  wp p (fun x => wp (f x) Q) w -> wp (bind p f) Q w.
Proof. unfold wp, bind. destruct (p w) as [[x w']|]; done. Qed.

Lemma wp_reading {A} (x : option A) y Q w : x = Some y -> Q y w -> wp (reading x) Q w.
Proof. by intros ->. Qed.

Lemma wp_eval {A} (p : store U A) x w' Q w : p w = Some (x, w') -> Q x w' -> wp p Q w.
Proof. unfold wp. by intros ->. Qed.

Lemma wp_mono {A} (p : store U A) (Q R : A -> object_world U -> Prop) w :
  wp p Q w -> (forall x w', Q x w' -> R x w') -> wp p R w.
Proof. unfold wp. destruct (p w) as [[x w']|]; [|done]. auto. Qed.

Lemma wp_bind_mono {A B} (p : store U A) (f : A -> store U B) Q R w :
  wp p R w -> (forall x w', R x w' -> wp (f x) Q w') -> wp (bind p f) Q w.
Proof. intros Hp Hf. apply wp_bind. by eapply wp_mono. Qed.

Lemma wp_run {A} (p : store U A) Q w :
  wp p Q w -> exists x w', p w = Some (x, w') /\ Q x w'.
Proof. unfold wp. destruct (p w) as [[x w']|]; [|done]. eauto. Qed.

(** How the counts of the world change. *)
Record delta (w w' : object_world U) (blocks objects : Z) : Prop := mk_delta {
  dl_blocks : ow_blocks w' = ow_blocks w + blocks;
  dl_objects : ow_objects w' = ow_objects w + objects;
}.

Lemma delta_refl w : delta w w 0 0.
Proof. split; lia. Qed.

Lemma delta_trans w1 w2 w3 b1 o1 b2 o2 b o :
  delta w1 w2 b1 o1 -> delta w2 w3 b2 o2 -> b = b1 + b2 -> o = o1 + o2 -> delta w1 w3 b o.
Proof. intros [] [] -> ->. split; lia. Qed.

End Wp.

(** Adds up the changes in the context. *)
Ltac solve_delta :=
  cbv beta in *; repeat match goal with H : delta _ _ _ _ |- _ => destruct H end;
  try (split; [lia|lia]).

(** * Types and their callbacks *)

Arguments cmeta_type_require_traits : simpl never.

Definition supports (type : option cmeta_type_desc) (required : Z) : Prop :=
  match type with
  | None => True
  | Some _ => cmeta_type_require_traits type required = CMETA_OK
  end.

(** The flags a callback of the table belongs to. *)
Definition callback_flag (t : cmeta_type_traits) (flag : Z) (callback : option addr) : Prop :=
  (flag = CMETA_TRAIT_EQUAL /\ callback = tr_equal t) \/
  (flag = CMETA_TRAIT_HASH /\ callback = tr_hash t) \/
  (flag = CMETA_TRAIT_COMPARE /\ callback = tr_compare t) \/
  (flag = CMETA_TRAIT_COPY /\ callback = tr_copy_construct t) \/
  (flag = CMETA_TRAIT_MOVE /\ callback = tr_move_construct t) \/
  (flag = CMETA_TRAIT_DESTROY /\ callback = tr_destroy t).

Lemma trait_lacks_false required flag callback :
  trait_lacks required flag callback = false -> Z.land required flag <> 0 -> is_Some callback.
Proof. unfold trait_lacks. intros Hl Hf. destruct callback; [done|].
  simpl in Hl. rewrite andb_true_r in Hl. by apply negb_false_iff, Z.eqb_eq in Hl.
Qed.

Lemma require_traits_inv t required :
  cmeta_type_require_traits (Some t) required = CMETA_OK -> required <> 0 ->
  Z.land required CMETA_TRAIT_MASK = required /\
  exists traits, td_traits t = Some traits /\ Z.land (tr_flags traits) required = required /\
    forall flag callback, callback_flag traits flag callback -> Z.land required flag <> 0 ->
      is_Some callback.
Proof.
  unfold cmeta_type_require_traits. intros H H0.
  destruct (Z.land required CMETA_TRAIT_MASK =? required) eqn:Hm; [|done]. simpl in H.
  rewrite (proj2 (Z.eqb_neq required 0) H0) in H.
  destruct (td_traits t) as [traits|] eqn:Ht; [|done].
  destruct (Z.land _ required =? required) eqn:Hf; [|done]. simpl in H.
  repeat match type of H with
  | (if ?b then _ else _) = _ => destruct b eqn:?; [done|]
  end.
  split; [by apply Z.eqb_eq|]. exists traits. split; [done|]. split; [by apply Z.eqb_eq|].
  unfold callback_flag. intros flag callback Hc Hn.
  destruct Hc as [[-> ->]|[[-> ->]|[[-> ->]|[[-> ->]|[[-> ->]|[-> ->]]]]]];
    by eapply trait_lacks_false.
Qed.

Lemma require_traits_sub t required sub :
  cmeta_type_require_traits (Some t) required = CMETA_OK -> required <> 0 ->
  Z.land required sub = sub -> cmeta_type_require_traits (Some t) sub = CMETA_OK.
Proof.
  intros H H0 Hsub. destruct (require_traits_inv _ _ H H0) as (Hm & traits & Ht & Hf & Hc).
  unfold cmeta_type_require_traits.
  assert (Z.land sub CMETA_TRAIT_MASK = sub) as Hsm.
  { rewrite <- Hsub, (Z.land_comm required), <- Z.land_assoc, Hm. done. }
  rewrite Hsm, Z.eqb_refl. simpl. destruct (sub =? 0) eqn:Hs0; [done|]. rewrite Ht.
  assert (Z.land (tr_flags traits) sub = sub) as Hfs.
  { rewrite <- Hsub, Z.land_assoc, Hf. done. }
  rewrite Hfs, Z.eqb_refl. simpl.
  assert (forall flag callback, callback_flag traits flag callback ->
    trait_lacks sub flag callback = false) as Hlacks.
  { intros flag callback Hcb. unfold trait_lacks.
    destruct (Z.land sub flag =? 0) eqn:Hz; [done|]. apply Z.eqb_neq in Hz. simpl.
    apply is_null_false, (Hc flag); [done|]. intros Hr. apply Hz.
    rewrite <- Hsub, (Z.land_comm required), <- Z.land_assoc, Hr. apply Z.land_0_r. }
  rewrite !Hlacks by (unfold callback_flag; tauto). done.
Qed.

Lemma trait_present t required flag callback :
  cmeta_type_require_traits (Some t) required = CMETA_OK -> Z.land required flag <> 0 ->
  (forall traits, callback_flag traits flag (callback traits)) ->
  exists f, trait callback t = Some f.
Proof.
  intros H Hf Hc.
  assert (required <> 0) as H0 by (intros ->; by rewrite Z.land_0_l in Hf).
  destruct (require_traits_inv _ _ H H0) as (_ & traits & Ht & _ & Hcb).
  destruct (Hcb flag (callback traits) (Hc traits) Hf) as [f Hs]. exists f.
  unfold trait. by rewrite Ht.
Qed.

Ltac find_trait :=
  match goal with
  | H : cmeta_type_require_traits (Some ?t) ?r = CMETA_OK |- context [trait tr_destroy ?t] =>
      destruct (trait_present t r CMETA_TRAIT_DESTROY tr_destroy H) as [? ->];
        [by vm_compute|unfold callback_flag; tauto|]
  | H : cmeta_type_require_traits (Some ?t) ?r = CMETA_OK |- context [trait tr_copy_construct ?t] =>
      destruct (trait_present t r CMETA_TRAIT_COPY tr_copy_construct H) as [? ->];
        [by vm_compute|unfold callback_flag; tauto|]
  | H : cmeta_type_require_traits (Some ?t) ?r = CMETA_OK |- context [trait tr_move_construct ?t] =>
      destruct (trait_present t r CMETA_TRAIT_MOVE tr_move_construct H) as [? ->];
        [by vm_compute|unfold callback_flag; tauto|]
  end.

(** * The callbacks and the allocator *)

(** One for a type with callbacks, none for plain bytes: how many counted objects
    a value of the type is. *)
Definition typed (type : option cmeta_type_desc) : Z := match type with None => 0 | Some _ => 1 end.

(** What a place holds after its object was destroyed. *)
Definition ended {V} (type : option cmeta_type_desc) (c : cell V) : cell V :=
  match type with None => c | Some _ => Raw end.

(** A place an object may be moved into. *)
Definition vacant {V} (type : option cmeta_type_desc) (c : cell V) : Prop :=
  match type with None => True | Some _ => c = Raw end.

Lemma ended_vacant {V} type (x : cell V) : vacant type (ended type x).
Proof. by destruct type. Qed.

(** A failure that only lack of memory or of room explains. *)
Definition no_room (status : stl_status) : Prop :=
  status = STL_OUT_OF_MEMORY \/ status = STL_CAPACITY_EXCEEDED.

Section Specs.
Context {V U : Type} `{HV : ObjectTraits V U} `{!TraitLaws V U}.
Implicit Types w : object_world U.
Implicit Types v : V.

Lemma destroy_spec f (c : cell V) w :
  c <> Raw -> wp (destroy f c) (fun c' w' => c' = Raw /\ delta w w' 0 (-1)) w.
Proof. intros Hc. destruct c; [done|..]; (split; [done|split; simpl; lia]). Qed.

Lemma move_construct_spec f v w :
  wp (move_construct f Raw (Live v)) (fun r w' => r = (Live v, Moved) /\ delta w w' 0 1) w.
Proof.
  unfold wp, move_construct. pose proof (move_means f v (ow_user w)) as Hm.
  destruct (call_move_construct f v (ow_user w)) as [v' u]. simpl in Hm. subst.
  split; [done|split; simpl; lia].
Qed.

Lemma copy_construct_spec f v w :
  wp (copy_construct f Raw v) (fun r w' =>
    (r = (true, Live v) /\ delta w w' 0 1) \/ (r = (false, Raw) /\ delta w w' 0 0)) w.
Proof.
  unfold wp, copy_construct. pose proof (copy_means f v (ow_user w)) as Hm.
  destruct (call_copy_construct f v (ow_user w)) as [[v'|] u]; simpl in Hm.
  - left. rewrite (Hm v') by done. split; [done|split; simpl; lia].
  - right. split; [done|split; simpl; lia].
Qed.

Lemma malloc_spec bytes w :
  wp (malloc bytes) (fun r w' => delta w w' (if is_null r then 0 else 1) 0) w.
Proof.
  unfold wp, malloc. destruct (call_malloc bytes (ow_user w)) as [[a|] u]; split; simpl; lia.
Qed.

Lemma allocate_spec count stride alignment w :
  0 < count <= SIZE_MAX -> 0 < stride <= SIZE_MAX -> is_size alignment ->
  sequence_alignment_valid alignment = true ->
  wp (sequence_allocate count stride alignment) (fun r w' =>
    match r with
    | StlOk data => is_Some data /\ delta w w' 1 0
    | StlFail status => no_room status /\ delta w w' 0 0
    end) w.
Proof.
  intros Hc Hs Ha Hv. unfold sequence_allocate, sequence_bytes. rewrite Hv. simpl.
  destruct (negb _ && _) eqn:Hb.
  { apply wp_ret. split; [by right|apply delta_refl]. }
  apply product_checked_spec in Hb; [|lia..].
  assert (u64 (count * stride) = count * stride) as Hu
    by (unfold u64, SIZE_MAX in *; apply Z.mod_small; nia).
  rewrite Hu, (proj2 (Z.eqb_neq (count * stride) 0)) by nia.
  destruct (_ <? u64 (alignment - 1)).
  { apply wp_ret. split; [by right|apply delta_refl]. }
  destruct (_ <? count * stride).
  { apply wp_ret. split; [by right|apply delta_refl]. }
  apply wp_bind. eapply wp_mono; [apply malloc_spec|]. intros [raw|] w' Hd; simpl in Hd.
  - destruct (_ <? u64 (raw + sizeof_pointer)); [|by apply wp_ret].
    destruct Hd. split; [by right|split; simpl; lia].
  - apply wp_ret. split; [by left|done].
Qed.

Lemma free_spec w : wp free (fun _ w' => delta w w' (-1) 0) w.
Proof. split; simpl; lia. Qed.

Lemma deallocate_spec block w :
  wp (sequence_deallocate (Some block)) (fun _ w' => delta w w' (-1) 0) w.
Proof. apply free_spec. Qed.

(** ** sequence_internal.h *)

Lemma sequence_copy_spec type v w :
  supports type CMETA_TRAIT_COPY ->
  wp (sequence_copy type Raw (Some v)) (fun r w' =>
    (r = (STL_OK, Live v) /\ delta w w' 0 (typed type)) \/
    (r = (STL_OUT_OF_MEMORY, Raw) /\ delta w w' 0 0)) w.
Proof.
  intros Hs. destruct type as [t|]; simpl in *.
  - rewrite Hs. simpl. find_trait. eapply wp_bind, wp_reading; [done|].
    eapply wp_bind_mono; [apply copy_construct_spec|].
    intros [made c] w' [[[= -> ->] Hd]|[[= -> ->] Hd]]; apply wp_ret; simpl; tauto.
  - apply wp_ret. left. split; [done|apply delta_refl].
Qed.

Lemma sequence_move_destroy_spec type (destination : cell V) v w :
  supports type (Z.lor CMETA_TRAIT_MOVE CMETA_TRAIT_DESTROY) -> vacant type destination ->
  wp (sequence_move_destroy type destination (Live v)) (fun r w' =>
    r = (STL_OK, (Live v, ended type (Live v))) /\ delta w w' 0 0) w.
Proof.
  intros Hs Hv. destruct type as [t|]; simpl in *.
  - rewrite Hs, Hv. simpl. do 2 find_trait. eapply wp_bind, wp_reading; [done|].
    eapply wp_bind_mono; [apply move_construct_spec|]. intros [d s] w1 [[= -> ->] Hd1].
    eapply wp_bind, wp_reading; [done|].
    eapply wp_bind_mono; [by apply destroy_spec|]. intros c w2 [-> Hd2].
    apply wp_ret. split; [done|]. solve_delta.
  - eapply wp_bind, wp_bind, wp_reading; [done|]. apply wp_ret, wp_ret. split; [done|apply delta_refl].
Qed.

Lemma sequence_destroy_value_spec type (c : cell V) w :
  supports type CMETA_TRAIT_DESTROY -> c <> Raw \/ type = None ->
  wp (sequence_destroy_value type c) (fun r w' =>
    r = (STL_OK, ended type c) /\ delta w w' 0 (- typed type)) w.
Proof.
  intros Hs Hc. destruct type as [t|]; simpl in *.
  - rewrite Hs. simpl. find_trait. eapply wp_bind, wp_reading; [done|].
    eapply wp_bind_mono; [apply destroy_spec; by destruct Hc|]. intros c' w' [-> Hd].
    by apply wp_ret.
  - apply wp_ret. split; [done|apply delta_refl].
Qed.

End Specs.
