(* ===== verification/CstlHashMap.v ===== *)
(** The hash map of cstl (cstl/include/cstl/hash_map.h, cstl/src/hash_map.c): open
    addressing with linear probing, tombstones and cached hashes.

    The table is one block that holds four arrays; they are four lists here, with
    the offsets that the code computes kept for what they decide.  A pointer to a
    key or a value is the number of its slot.  The [key] and [value] arguments of
    the operations are what the caller's pointers refer to at the call: the code
    reads them before it moves any object of the table. *)

From S2P Require Import Prelude.
From S2P Require Import CMetaType.
From S2P Require Import CstlSupport.

Definition SALTS_HASH_EMPTY : Z := 0.
Definition SALTS_HASH_OCCUPIED : Z := 1.
Definition SALTS_HASH_TOMBSTONE : Z := 2.
Definition SALTS_HASH_MIN_BUCKETS : Z := 16.

(** The block [map->states] points at.  A hash that was never written is [None]. *)
Record hash_storage (V : Type) := mk_hash_storage {
  hs_block : Z;
  hs_states : list Z;
  hs_hashes : list (option Z);
  hs_keys : list (cell V);
  hs_values : list (cell V);
}.
Arguments mk_hash_storage {V}.
Arguments hs_block {V}.
Arguments hs_states {V}.
Arguments hs_hashes {V}.
Arguments hs_keys {V}.
Arguments hs_values {V}.

(** The fields of [hash_map_t] that only initialisation sets. *)
Record hash_map_config := mk_hash_map_config {
  hc_key_size : Z;
  hc_key_stride : Z;
  hc_key_align : Z;
  hc_value_size : Z;
  hc_value_stride : Z;
  hc_value_align : Z;
  hc_entry_limit : Z;
  hc_key_type : option cmeta_type_desc;
  hc_value_type : option cmeta_type_desc;
  hc_hash : option addr;
  hc_equal : option addr;
  hc_ctx : option addr;
}.

Record hash_map_t (V : Type) := mk_hash_map {
  hm_descriptor : option addr;
  hm_storage : option (hash_storage V);
  hm_size : Z;
  hm_capacity : Z;
  hm_tombstones : Z;
  hm_config : hash_map_config;
  hm_generation : Z;
  hm_initialized : bool;
}.
Arguments mk_hash_map {V}.
Arguments hm_descriptor {V}.
Arguments hm_storage {V}.
Arguments hm_size {V}.
Arguments hm_capacity {V}.
Arguments hm_tombstones {V}.
Arguments hm_config {V}.
Arguments hm_generation {V}.
Arguments hm_initialized {V}.

Definition zero_config : hash_map_config := mk_hash_map_config 0 0 0 0 0 0 0 None None None None None.

(** [memset (map, 0, sizeof *map)], then [map->generation = generation]. *)
Definition zero_map {V} (generation : Z) : hash_map_t V :=
  mk_hash_map None None 0 0 0 zero_config generation false.

Definition set_hm_table {V} (storage : option (hash_storage V)) (size capacity tombstones : Z)
    (m : hash_map_t V) : hash_map_t V :=
  mk_hash_map (hm_descriptor m) storage size capacity tombstones (hm_config m) (hm_generation m)
    (hm_initialized m).

Definition set_hm_generation {V} (generation : Z) (m : hash_map_t V) : hash_map_t V :=
  mk_hash_map (hm_descriptor m) (hm_storage m) (hm_size m) (hm_capacity m) (hm_tombstones m)
    (hm_config m) generation (hm_initialized m).

Definition set_hm_descriptor {V} (descriptor : option addr) (m : hash_map_t V) : hash_map_t V :=
  mk_hash_map descriptor (hm_storage m) (hm_size m) (hm_capacity m) (hm_tombstones m)
    (hm_config m) (hm_generation m) (hm_initialized m).

(** [++map->generation]. *)
Definition touch {V} (m : hash_map_t V) : hash_map_t V :=
  set_hm_generation (size_inc (hm_generation m)) m.

Definition hash_map_valid {V} (map : option (hash_map_t V)) : bool :=
  match map with
  | None => false
  | Some m =>
      hm_initialized m && negb (hc_key_size (hm_config m) =? 0) &&
      negb (hc_value_size (hm_config m) =? 0)
  end.

(** [stl_hash_map_container_desc] is an object of the library; its address is a
    parameter. *)
Definition hash_map_is_typed_semantic_zero {V} (container_desc : addr)
    (map : option (hash_map_t V)) : bool :=
  match map with
  | None => false
  | Some m =>
      let c := hm_config m in
      negb (hm_initialized m) && is_null (hm_storage m) &&
      (hm_size m =? 0) && (hm_capacity m =? 0) && (hm_tombstones m =? 0) &&
      (hc_key_size c =? 0) && (hc_key_stride c =? 0) && (hc_key_align c =? 0) &&
      (hc_value_size c =? 0) && (hc_value_stride c =? 0) && (hc_value_align c =? 0) &&
      (hc_entry_limit c =? 0) && bool_decide (hm_descriptor m = Some container_desc) &&
      negb (is_null (hc_key_type c)) && negb (is_null (hc_value_type c)) &&
      cmeta_type_desc_valid (hc_key_type c) && cmeta_type_desc_valid (hc_value_type c) &&
      is_null (hc_hash c) && is_null (hc_equal c) && is_null (hc_ctx c)
  end.

(** * Sizes *)

Definition hash_add (left right : Z) : stl_result Z :=
  if SIZE_MAX - left <? right then StlFail STL_CAPACITY_EXCEEDED else StlOk (u64 (left + right)).

Definition hash_mul (left right : Z) : stl_result Z :=
  if negb (left =? 0) && (SIZE_MAX / left <? right) then StlFail STL_CAPACITY_EXCEEDED
  else StlOk (u64 (left * right)).

Definition hash_align (value alignment : Z) : stl_result Z :=
  if negb (sequence_alignment_valid alignment) then StlFail STL_INVALID_ARGUMENT
  else
    let padding := u64 (alignment - 1) in
    if SIZE_MAX - padding <? value then StlFail STL_CAPACITY_EXCEEDED
    else StlOk (round_up value padding).

Definition alignof_size_t : Z := 8.
Definition sizeof_size_t : Z := 8.

Definition hash_max_alignment (c : hash_map_config) : Z :=
  let alignment := alignof_size_t in
  let alignment := if alignment <? hc_key_align c then hc_key_align c else alignment in
  if alignment <? hc_value_align c then hc_value_align c else alignment.

(** The loop that doubles the bucket count until it is enough.  It starts at 16 and
    leaves when the next double would not fit, so that it never makes 64 rounds. *)
Fixpoint double_until (fuel : nat) (buckets requested : Z) : stl_result Z :=
  if buckets <? requested then
    if SIZE_MAX / 2 <? buckets then StlFail STL_CAPACITY_EXCEEDED
    else
      match fuel with
      | O => StlFail STL_CAPACITY_EXCEEDED
      | S fuel => double_until fuel (u64 (buckets * 2)) requested
      end
  else StlOk buckets.

Definition hash_buckets_for_entries (entries : Z) : stl_result Z :=
  if entries =? 0 then StlOk 0
  else
    let quotient := entries / 7 in
    let remainder := entries mod 7 in
    if SIZE_MAX / 3 <? quotient then StlFail STL_CAPACITY_EXCEEDED
    else
      let extra := u64 (u64 (quotient * 3) + (u64 (u64 (remainder * 3) + 6)) / 7) in
      match hash_add entries extra with
      | StlFail _ => StlFail STL_CAPACITY_EXCEEDED
      | StlOk requested =>
          let requested :=
            if requested <? SALTS_HASH_MIN_BUCKETS then SALTS_HASH_MIN_BUCKETS else requested in
          double_until 64 SALTS_HASH_MIN_BUCKETS requested
      end.

(** Where the arrays of a table lie in its block, and its size. *)
Record hash_layout := mk_hash_layout {
  hl_states_bytes : Z;
  hl_hashes_offset : Z;
  hl_keys_offset : Z;
  hl_values_offset : Z;
  hl_total : Z;
}.

(** [status = f (); if (status != STL_OK) return status;] *)
Definition checked {A B} (r : stl_result A) (k : A -> stl_result B) : stl_result B :=
  match r with StlOk a => k a | StlFail status => StlFail status end.

(** [if (... || f () != STL_OK) return STL_CAPACITY_EXCEEDED;] *)
Definition checked_capacity {A B} (r : stl_result A) (k : A -> stl_result B) : stl_result B :=
  match r with StlOk a => k a | StlFail _ => StlFail STL_CAPACITY_EXCEEDED end.

Definition hash_map_layout (c : hash_map_config) (capacity : Z) : stl_result hash_layout :=
  checked (hash_mul capacity 1) (fun states_bytes =>
  checked (hash_align states_bytes alignof_size_t) (fun hashes_offset =>
  checked_capacity (hash_mul capacity sizeof_size_t) (fun hashes_bytes =>
  checked_capacity (hash_add hashes_offset hashes_bytes) (fun total =>
  checked (hash_align total (hc_key_align c)) (fun keys_offset =>
  checked_capacity (hash_mul capacity (hc_key_stride c)) (fun keys_bytes =>
  checked_capacity (hash_add keys_offset keys_bytes) (fun total =>
  checked (hash_align total (hc_value_align c)) (fun values_offset =>
  checked_capacity (hash_mul capacity (hc_value_stride c)) (fun values_bytes =>
  checked_capacity (hash_add values_offset values_bytes) (fun total =>
  StlOk (mk_hash_layout states_bytes hashes_offset keys_offset values_offset total))))))))))).

Section HashMap.
Context {V U : Type} `{!ObjectTraits V U}.
Context (container_desc : addr).
#[local] Abbreviation hash_map := (hash_map_t V).

(** * Storage *)

Definition fresh_storage (block capacity : Z) : hash_storage V :=
  mk_hash_storage block (replicate (Z.to_nat capacity) SALTS_HASH_EMPTY)
    (replicate (Z.to_nat capacity) None) (replicate (Z.to_nat capacity) Raw)
    (replicate (Z.to_nat capacity) Raw).

Definition hash_map_allocate (capacity : Z) (m : hash_map) : store U (stl_status * hash_map) :=
  match hash_map_layout (hm_config m) capacity with
  | StlFail status => ret (status, m)
  | StlOk layout =>
      let* allocated := sequence_allocate 1 (hl_total layout) (hash_max_alignment (hm_config m)) in
      match allocated with
      | StlFail status => ret (status, m)
      | StlOk storage =>
          let* block := reading storage in
          ret (STL_OK, set_hm_table (Some (fresh_storage block capacity)) (hm_size m) capacity
                         (hm_tombstones m) m)
      end
  end.

Definition hash_destroy_value (type : option cmeta_type_desc) (value : cell V)
    : store U (cell V) :=
  match type with
  | None => ret value
  | Some t => let* f := reading (trait tr_destroy t) in destroy f value
  end.

(** A block for one object with a copy of [source] in it. *)
Definition hash_prepare (type : option cmeta_type_desc) (size stride alignment : Z)
    (source : option V) : store U (stl_status * option (Z * cell V)) :=
  match source with
  | None => ret (STL_INVALID_ARGUMENT, None)
  | Some v =>
      let* allocated := sequence_allocate 1 stride alignment in
      match allocated with
      | StlFail status => ret (status, None)
      | StlOk data =>
          let* block := reading data in
          match type with
          | None => ret (STL_OK, Some (block, Live v))
          | Some t =>
              let* f := reading (trait tr_copy_construct t) in
              let* (made, value) := copy_construct f Raw v in
              if made then ret (STL_OK, Some (block, value))
              else let* _ := sequence_deallocate data in ret (STL_OUT_OF_MEMORY, None)
          end
      end
  end.

Definition hash_discard (type : option cmeta_type_desc) (value : option (Z * cell V))
    : store U unit :=
  match value with
  | None => ret tt
  | Some (block, value) =>
      let* _ := hash_destroy_value type value in
      sequence_deallocate (Some block)
  end.

Definition hash_move_construct (type : option cmeta_type_desc) (destination source : cell V)
    : store U (cell V * cell V) :=
  match type with
  | Some t => let* f := reading (trait tr_move_construct t) in move_construct f destination source
  | None => let* destination := copy_bytes source in ret (destination, source)
  end.

Definition hash_move_destroy (type : option cmeta_type_desc) (destination source : cell V)
    : store U (cell V * cell V) :=
  let* (destination, source) := hash_move_construct type destination source in
  let* source := hash_destroy_value type source in
  ret (destination, source).

(** * Probing *)

Definition hash_map_hash (c : hash_map_config) (key : V) : option Z :=
  hash ←
    match hc_key_type c with
    | Some t => f ← trait tr_hash t; Some (u64 (call_hash f key))
    | None => f ← hc_hash c; Some (u64 (raw_hash f key (hc_key_size c) (hc_ctx c)))
    end;
  Some (if hash =? 0 then 1 else hash).

Definition hash_map_equal (c : hash_map_config) (left right : V) : option bool :=
  match hc_key_type c with
  | Some t => f ← trait tr_equal t; Some (call_equal f left right)
  | None => f ← hc_equal c; Some (raw_equal f left right (hc_key_size c) (hc_ctx c))
  end.

(** [(hash + probe) & mask]. *)
Definition probe_slot (capacity hash probe : Z) : nat :=
  Z.to_nat (Z.land (u64 (hash + probe)) (u64 (capacity - 1))).

(** The test on an occupied slot: the hash first, then the key. *)
Definition slot_holds (c : hash_map_config) (s : hash_storage V) (slot : nat) (state : Z)
    (key : V) (hash : Z) : option bool :=
  if negb (state =? SALTS_HASH_OCCUPIED) then Some false
  else
    match mjoin (hs_hashes s !! slot) with
    | None => None
    | Some stored =>
        if negb (stored =? hash) then Some false
        else object ← hs_keys s !! slot; v ← cell_value object; hash_map_equal c v key
    end.

(** The loop of [hash_map_find_slot], from [probe] on with [fuel] probes left. *)
Fixpoint find_slot_loop (c : hash_map_config) (s : hash_storage V) (capacity : Z) (key : V)
    (hash : Z) (fuel : nat) (probe : Z) : option (option nat) :=
  match fuel with
  | O => Some None
  | S fuel =>
      let slot := probe_slot capacity hash probe in
      match hs_states s !! slot with
      | None => None
      | Some state =>
          if state =? SALTS_HASH_EMPTY then Some None
          else
            match slot_holds c s slot state key hash with
            | None => None
            | Some true => Some (Some slot)
            | Some false => find_slot_loop c s capacity key hash fuel (probe + 1)
            end
      end
  end.

Definition hash_map_find_slot (m : hash_map) (key : V) (hash : Z) : option (option nat) :=
  if hm_capacity m =? 0 then Some None
  else
    s ← hm_storage m;
    find_slot_loop (hm_config m) s (hm_capacity m) key hash (Z.to_nat (hm_capacity m)) 0.

(** The loop of [hash_map_insert_slot]; no slot stands for [SIZE_MAX]. *)
Fixpoint insert_slot_loop (s : hash_storage V) (capacity hash : Z) (fuel : nat) (probe : Z)
    (first_tombstone : option nat) : option (option nat) :=
  match fuel with
  | O => Some first_tombstone
  | S fuel =>
      let slot := probe_slot capacity hash probe in
      state ← hs_states s !! slot;
      if state =? SALTS_HASH_TOMBSTONE then
        insert_slot_loop s capacity hash fuel (probe + 1)
          (match first_tombstone with None => Some slot | Some _ => first_tombstone end)
      else if state =? SALTS_HASH_EMPTY then
        Some (match first_tombstone with None => Some slot | Some _ => first_tombstone end)
      else insert_slot_loop s capacity hash fuel (probe + 1) first_tombstone
  end.

Definition hash_map_insert_slot (m : hash_map) (hash : Z) : option (option nat) :=
  s ← hm_storage m;
  insert_slot_loop s (hm_capacity m) hash (Z.to_nat (hm_capacity m)) 0 None.

(** * Rehashing *)

(** [p[slot] = x], which is undefined outside the array. *)
Definition write {A} (slot : nat) (x : A) (l : list A) : option (list A) :=
  _ ← l !! slot; Some (<[slot := x]> l).

(** [memset (p, x, n)]. *)
Definition fill {A} (n : nat) (x : A) (l : list A) : option (list A) :=
  if (n <=? length l)%nat then Some (replicate n x ++ drop n l) else None.

(** [map->hashes[slot] = hash; map->states[slot] = OCCUPIED] with the objects of the
    slot. *)
Definition occupy (slot : nat) (hash : Z) (key value : cell V) (s : hash_storage V)
    : option (hash_storage V) :=
  keys ← write slot key (hs_keys s);
  values ← write slot value (hs_values s);
  hashes ← write slot (Some hash) (hs_hashes s);
  states ← write slot SALTS_HASH_OCCUPIED (hs_states s);
  Some (mk_hash_storage (hs_block s) states hashes keys values).

(** The table after the insertion, and what is left of the source objects. *)
Definition hash_map_rehash_insert (m : hash_map) (hash : Z) (key value : cell V)
    : store U (hash_map * (cell V * cell V)) :=
  let c := hm_config m in
  let* slot := reading (mjoin (hash_map_insert_slot m hash)) in
  let* s := reading (hm_storage m) in
  let* old_key := reading (hs_keys s !! slot) in
  let* (new_key, key) := hash_move_construct (hc_key_type c) old_key key in
  let* old_value := reading (hs_values s !! slot) in
  let* (new_value, value) := hash_move_construct (hc_value_type c) old_value value in
  let* s := reading (occupy slot hash new_key new_value s) in
  ret (set_hm_table (Some s) (size_inc (hm_size m)) (hm_capacity m) (hm_tombstones m) m,
       (key, value)).

(** [for (slot = 0; slot < map->capacity; ++slot)]: moves the objects of [s] to
    [next] and ends the lives of what remains. *)
Fixpoint rehash_loop (s : hash_storage V) (next : hash_map) (slot fuel : nat)
    : store U hash_map :=
  match fuel with
  | O => ret next
  | S fuel =>
      let c := hm_config next in
      let* state := reading (hs_states s !! slot) in
      if negb (state =? SALTS_HASH_OCCUPIED) then rehash_loop s next (S slot) fuel
      else
        let* hash := reading (mjoin (hs_hashes s !! slot)) in
        let* key := reading (hs_keys s !! slot) in
        let* value := reading (hs_values s !! slot) in
        let* (next, (key, value)) := hash_map_rehash_insert next hash key value in
        let* _ := hash_destroy_value (hc_key_type c) key in
        let* _ := hash_destroy_value (hc_value_type c) value in
        rehash_loop s next (S slot) fuel
  end.

Definition block_of (storage : option (hash_storage V)) : option Z := hs_block <$> storage.

Definition hash_map_rehash (m : hash_map) (capacity : Z) : store U (stl_status * hash_map) :=
  let next := set_hm_table None 0 0 0 m in
  let* (status, next) := hash_map_allocate capacity next in
  if negb (bool_decide (status = STL_OK)) then ret (status, m)
  else
    let* next :=
      match hm_storage m with
      | None => reading (if hm_capacity m =? 0 then Some next else None)
      | Some s => rehash_loop s next 0 (Z.to_nat (hm_capacity m))
      end in
    let* _ := sequence_deallocate (block_of (hm_storage m)) in
    ret (STL_OK, set_hm_generation (hm_generation m) next).

Definition hash_map_ensure_insert (m : hash_map) : store U (stl_status * hash_map) :=
  if hm_size m =? SIZE_MAX then ret (STL_CAPACITY_EXCEEDED, m)
  else
    match hash_buckets_for_entries (u64 (hm_size m + 1)) with
    | StlFail status => ret (status, m)
    | StlOk buckets =>
        if (hm_capacity m <? buckets) ||
           ((hm_size m <? hm_tombstones m) && negb (hm_capacity m =? 0))
        then
          let buckets := if buckets <? hm_capacity m then hm_capacity m else buckets in
          hash_map_rehash m buckets
        else ret (STL_OK, m)
    end.

(** * Initialisation and destruction *)

Definition hash_map_initialize (map : option hash_map) (key_type value_type : option cmeta_type_desc)
    (key_size key_align value_size value_align entry_limit : Z)
    (hash equal ctx : option addr) : stl_status * option hash_map :=
  match map with
  | None => (STL_INVALID_ARGUMENT, map)
  | Some m =>
      if hm_initialized m then (STL_INVALID_ARGUMENT, map)
      else
        match sequence_stride key_size key_align, sequence_stride value_size value_align with
        | StlFail status, _ => (status, map)
        | StlOk _, StlFail status => (status, map)
        | StlOk key_stride, StlOk value_stride =>
            (STL_OK, Some (mk_hash_map None None 0 0 0
               (mk_hash_map_config key_size key_stride key_align value_size value_stride
                  value_align entry_limit key_type value_type hash equal ctx)
               (size_inc (hm_generation m)) true))
        end
  end.

Definition key_required : Z :=
  Z.lor (Z.lor (Z.lor CMETA_TRAIT_EQUAL CMETA_TRAIT_HASH) CMETA_TRAIT_COPY)
    (Z.lor CMETA_TRAIT_MOVE CMETA_TRAIT_DESTROY).
Definition value_required : Z :=
  Z.lor (Z.lor CMETA_TRAIT_COPY CMETA_TRAIT_MOVE) CMETA_TRAIT_DESTROY.

Definition hash_map_raw_init (map : option hash_map) (key_type value_type : option cmeta_type_desc)
    (entry_limit : Z) : stl_status * option hash_map :=
  match map with
  | None => (STL_INVALID_ARGUMENT, map)
  | Some m =>
      if hm_initialized m then (STL_INVALID_ARGUMENT, map)
      else
        match key_type, value_type with
        | Some k, Some v =>
            if (td_size k =? 0) || (td_size v =? 0) ||
               negb (sequence_alignment_valid (td_align k)) ||
               negb (sequence_alignment_valid (td_align v))
            then (STL_INVALID_ARGUMENT, map)
            else if negb (status_ok (cmeta_type_require_traits key_type key_required)) ||
                    negb (status_ok (cmeta_type_require_traits value_type value_required))
            then (STL_TRAIT_MISSING, map)
            else
              hash_map_initialize map key_type value_type (td_size k) (td_align k) (td_size v)
                (td_align v) entry_limit None None None
        | _, _ => (STL_INVALID_ARGUMENT, map)
        end
  end.

Definition hash_map_init_bytes (map : option hash_map)
    (key_size key_align value_size value_align entry_limit : Z) (hash equal ctx : option addr)
    : stl_status * option hash_map :=
  match map with
  | None => (STL_INVALID_ARGUMENT, map)
  | Some m =>
      if hm_initialized m || is_null hash || is_null equal then (STL_INVALID_ARGUMENT, map)
      else
        hash_map_initialize map None None key_size key_align value_size value_align entry_limit
          hash equal ctx
  end.

(** Ends the lives of the objects in the slots from [slot] on. *)
Fixpoint destroy_slots (c : hash_map_config) (s : hash_storage V) (slot fuel : nat)
    : store U (hash_storage V) :=
  match fuel with
  | O => ret s
  | S fuel =>
      let* state := reading (hs_states s !! slot) in
      if negb (state =? SALTS_HASH_OCCUPIED) then destroy_slots c s (S slot) fuel
      else
        let* key := reading (hs_keys s !! slot) in
        let* key := hash_destroy_value (hc_key_type c) key in
        let* value := reading (hs_values s !! slot) in
        let* value := hash_destroy_value (hc_value_type c) value in
        destroy_slots c
          (mk_hash_storage (hs_block s) (hs_states s) (hs_hashes s)
             (<[slot := key]> (hs_keys s)) (<[slot := value]> (hs_values s)))
          (S slot) fuel
  end.

(** The loop over the table, when there is one. *)
Definition destroy_entries (m : hash_map) : store U hash_map :=
  match hm_storage m with
  | None => reading (if hm_capacity m =? 0 then Some m else None)
  | Some s =>
      let* s := destroy_slots (hm_config m) s 0 (Z.to_nat (hm_capacity m)) in
      ret (set_hm_table (Some s) (hm_size m) (hm_capacity m) (hm_tombstones m) m)
  end.

Definition hash_map_raw_destroy_storage (map : option hash_map) : store U (option hash_map) :=
  match map with
  | None => ret None
  | Some m =>
      if hm_initialized m then
        let* m := destroy_entries m in
        let* _ := sequence_deallocate (block_of (hm_storage m)) in
        ret (Some (zero_map (size_inc (hm_generation m))))
      else ret (Some (zero_map (hm_generation m)))
  end.

(** [map] with the container descriptor and the types that [old] had, which the
    inline wrappers of hash_map.h put back. *)
Definition rebind (old m : hash_map) : hash_map :=
  let c := hm_config m in
  mk_hash_map (hm_descriptor old) (hm_storage m) (hm_size m) (hm_capacity m) (hm_tombstones m)
    (mk_hash_map_config (hc_key_size c) (hc_key_stride c) (hc_key_align c) (hc_value_size c)
       (hc_value_stride c) (hc_value_align c) (hc_entry_limit c) (hc_key_type (hm_config old))
       (hc_value_type (hm_config old)) (hc_hash c) (hc_equal c) (hc_ctx c))
    (hm_generation m) (hm_initialized m).

Definition hash_map_init (map : option hash_map) (entry_limit : Z)
    : stl_status * option hash_map :=
  match map with
  | None => (STL_INVALID_ARGUMENT, map)
  | Some m =>
      let c := hm_config m in
      if is_null (hc_key_type c) || is_null (hc_value_type c) then (STL_INVALID_ARGUMENT, map)
      else
        let (status, map) := hash_map_raw_init map (hc_key_type c) (hc_value_type c) entry_limit in
        (status, rebind m <$> map)
  end.

Definition hash_map_destroy (map : option hash_map) : store U (option hash_map) :=
  match map with
  | None => ret None
  | Some m => let* map := hash_map_raw_destroy_storage map in ret (rebind m <$> map)
  end.

(** ** Handles that were only bound to their types *)

(** What [hash_map_materialize_for_mutation] leaves: the map, and whether it
    initialised it.  The snapshot is the map it was called with. *)
Definition hash_map_materialize_for_mutation (map : option hash_map)
    : stl_status * option hash_map * bool :=
  if hash_map_valid map then (STL_OK, map, false)
  else if negb (hash_map_is_typed_semantic_zero container_desc map)
  then (STL_INVALID_ARGUMENT, map, false)
  else
    match map with
    | None => (STL_INVALID_ARGUMENT, map, false)
    | Some zero =>
        match hash_map_raw_init map (hc_key_type (hm_config zero)) (hc_value_type (hm_config zero))
                SIZE_MAX with
        | (STL_OK, Some m) =>
            (STL_OK, Some (set_hm_generation (hm_generation zero)
                             (set_hm_descriptor (hm_descriptor zero) m)), true)
        | (status, _) => (status, map, false)
        end
    end.

Definition hash_map_rollback_materialization (m zero_snapshot : hash_map) (materialized : bool)
    : store U hash_map :=
  if negb materialized then ret m
  else let* _ := hash_map_raw_destroy_storage (Some m) in ret zero_snapshot.

(** * Operations *)

(** A failure of an operation that began with a materialization. *)
Definition fail_and_rollback (status : stl_status) (m zero_snapshot : hash_map)
    (materialized : bool) : store U (stl_status * option hash_map) :=
  let* m := hash_map_rollback_materialization m zero_snapshot materialized in
  ret (status, Some m).

Definition hash_map_clear (map : option hash_map) : store U (option hash_map) :=
  match map with
  | Some m =>
      if negb (hash_map_valid map) then ret map
      else
        let* m := destroy_entries m in
        if hm_size m =? 0 then ret (Some m)
        else
          let* s := reading (hm_storage m) in
          let* states := reading (fill (Z.to_nat (hm_capacity m)) SALTS_HASH_EMPTY (hs_states s)) in
          let s := mk_hash_storage (hs_block s) states (hs_hashes s) (hs_keys s) (hs_values s) in
          ret (Some (touch (set_hm_table (Some s) 0 (hm_capacity m) 0 m)))
  | None => ret None
  end.

Definition hash_map_reserve (map : option hash_map) (min_entries : Z)
    : store U (stl_status * option hash_map) :=
  match map with
  | None => ret (STL_INVALID_ARGUMENT, None)
  | Some zero =>
      if negb (hash_map_valid map) && hash_map_is_typed_semantic_zero container_desc map &&
         (min_entries =? 0)
      then ret (STL_OK, map)
      else
        match hash_map_materialize_for_mutation map with
        | (STL_OK, Some m, materialized) =>
            if hc_entry_limit (hm_config m) <? min_entries
            then fail_and_rollback STL_CAPACITY_EXCEEDED m zero materialized
            else
              match hash_buckets_for_entries min_entries with
              | StlFail status => fail_and_rollback status m zero materialized
              | StlOk buckets =>
                  if (hm_capacity m <? buckets) ||
                     ((hm_size m <? hm_tombstones m) && negb (hm_capacity m =? 0))
                  then
                    let buckets := if buckets <? hm_capacity m then hm_capacity m else buckets in
                    let* (status, m) := hash_map_rehash m buckets in
                    if bool_decide (status = STL_OK) then ret (STL_OK, Some (touch m))
                    else fail_and_rollback status m zero materialized
                  else ret (STL_OK, Some m)
              end
        | (status, map, _) => ret (status, map)
        end
  end.

(** The branch of [hash_map_put] that found the key: the value is replaced. *)
Definition replace_value (m : hash_map) (slot : nat) (value : option V) (zero : hash_map)
    (materialized : bool) : store U (stl_status * option hash_map) :=
  let c := hm_config m in
  let* (status, prepared) :=
    hash_prepare (hc_value_type c) (hc_value_size c) (hc_value_stride c) (hc_value_align c) value in
  match prepared with
  | None => fail_and_rollback status m zero materialized
  | Some (block, new_value) =>
      let* s := reading (hm_storage m) in
      let* old := reading (hs_values s !! slot) in
      let* old := hash_destroy_value (hc_value_type c) old in
      let* (value, _) := hash_move_destroy (hc_value_type c) old new_value in
      let* _ := sequence_deallocate (Some block) in
      let s := mk_hash_storage (hs_block s) (hs_states s) (hs_hashes s) (hs_keys s)
                 (<[slot := value]> (hs_values s)) in
      ret (STL_OK, Some (touch (set_hm_table (Some s) (hm_size m) (hm_capacity m)
                                  (hm_tombstones m) m)))
  end.

(** The end of [hash_map_put]: the prepared objects move into a free slot. *)
Definition insert_entry (m : hash_map) (hash : Z) (key value : Z * cell V)
    : store U (stl_status * option hash_map) :=
  let c := hm_config m in
  let* slot := reading (mjoin (hash_map_insert_slot m hash)) in
  let* s := reading (hm_storage m) in
  let* old_key := reading (hs_keys s !! slot) in
  let* (new_key, _) := hash_move_destroy (hc_key_type c) old_key (snd key) in
  let* old_value := reading (hs_values s !! slot) in
  let* (new_value, _) := hash_move_destroy (hc_value_type c) old_value (snd value) in
  let* _ := sequence_deallocate (Some (fst key)) in
  let* _ := sequence_deallocate (Some (fst value)) in
  let* state := reading (hs_states s !! slot) in
  let tombstones := if state =? SALTS_HASH_TOMBSTONE then size_dec (hm_tombstones m)
                    else hm_tombstones m in
  let* s := reading (occupy slot hash new_key new_value s) in
  ret (STL_OK, Some (touch (set_hm_table (Some s) (size_inc (hm_size m)) (hm_capacity m)
                              tombstones m))).

(** The branch of [hash_map_put] for a new key. *)
Definition put_new (m : hash_map) (hash : Z) (key value : option V) (zero : hash_map)
    (materialized : bool) : store U (stl_status * option hash_map) :=
  let c := hm_config m in
  if hc_entry_limit c <=? hm_size m
  then fail_and_rollback STL_CAPACITY_EXCEEDED m zero materialized
  else
    let* (status, prepared_key) :=
      hash_prepare (hc_key_type c) (hc_key_size c) (hc_key_stride c) (hc_key_align c) key in
    match prepared_key with
    | None => fail_and_rollback status m zero materialized
    | Some new_key =>
        let* (status, prepared_value) :=
          hash_prepare (hc_value_type c) (hc_value_size c) (hc_value_stride c)
            (hc_value_align c) value in
        match prepared_value with
        | None =>
            let* _ := hash_discard (hc_key_type c) prepared_key in
            fail_and_rollback status m zero materialized
        | Some new_value =>
            let* (status, m) := hash_map_ensure_insert m in
            if bool_decide (status = STL_OK) then insert_entry m hash new_key new_value
            else
              let* _ := hash_discard (hc_key_type c) prepared_key in
              let* _ := hash_discard (hc_value_type c) prepared_value in
              fail_and_rollback status m zero materialized
        end
    end.

Definition hash_map_put (map : option hash_map) (key value : option V)
    : store U (stl_status * option hash_map) :=
  match map, key, value with
  | Some zero, Some k, Some _ =>
      match hash_map_materialize_for_mutation map with
      | (STL_OK, Some m, materialized) =>
          let* hash := reading (hash_map_hash (hm_config m) k) in
          let* found := reading (hash_map_find_slot m k hash) in
          match found with
          | Some slot => replace_value m slot value zero materialized
          | None => put_new m hash key value zero materialized
          end
      | (status, map, _) => ret (status, map)
      end
  | _, _, _ => ret (STL_INVALID_ARGUMENT, map)
  end.

(** The slot of the value, or NULL. *)
Definition hash_map_get (map : option hash_map) (key : option V) : option (option nat) :=
  match map, key with
  | Some m, Some k =>
      if negb (hash_map_valid map) then Some None
      else hash ← hash_map_hash (hm_config m) k; hash_map_find_slot m k hash
  | _, _ => Some None
  end.

Definition hash_map_get_const : option hash_map -> option V -> option (option nat) := hash_map_get.

Definition hash_map_contains (map : option hash_map) (key : option V) : option bool :=
  slot ← hash_map_get_const map key; Some (negb (is_null slot)).

(** [want] says whether the caller passed [out_value]; the removed value is then
    moved to it. *)
Definition hash_map_remove (map : option hash_map) (key : option V) (want : bool)
    : store U (stl_status * option hash_map * cell V) :=
  match map, key with
  | Some m, Some k =>
      if negb (hash_map_valid map) then ret (STL_INVALID_ARGUMENT, map, Raw)
      else
        let c := hm_config m in
        let* hash := reading (hash_map_hash c k) in
        let* found := reading (hash_map_find_slot m k hash) in
        match found with
        | None => ret (STL_NOT_FOUND, map, Raw)
        | Some slot =>
            let* s := reading (hm_storage m) in
            let* value := reading (hs_values s !! slot) in
            let* (out, value) :=
              if want then hash_move_destroy (hc_value_type c) Raw value
              else let* value := hash_destroy_value (hc_value_type c) value in ret (Raw, value) in
            let* key := reading (hs_keys s !! slot) in
            let* key := hash_destroy_value (hc_key_type c) key in
            let s := mk_hash_storage (hs_block s) (<[slot := SALTS_HASH_TOMBSTONE]> (hs_states s))
                       (hs_hashes s) (<[slot := key]> (hs_keys s))
                       (<[slot := value]> (hs_values s)) in
            ret (STL_OK, Some (touch (set_hm_table (Some s) (size_dec (hm_size m)) (hm_capacity m)
                                        (size_inc (hm_tombstones m)) m)), out)
        end
  | _, _ => ret (STL_INVALID_ARGUMENT, map, Raw)
  end.

(** ** Bulk construction *)

(** [for (index = 0; index < count; ++index)] of the two [from_arrays] functions,
    with [fuel] rows left. *)
Fixpoint put_rows (temporary : option hash_map) (keys values : list V) (index fuel : nat)
    : store U (stl_status * option hash_map) :=
  match fuel with
  | O => ret (STL_OK, temporary)
  | S fuel =>
      let* key := reading (keys !! index) in
      let* value := reading (values !! index) in
      let* (status, temporary) := hash_map_put temporary (Some key) (Some value) in
      if bool_decide (status = STL_OK) then put_rows temporary keys values (S index) fuel
      else
        let* temporary := hash_map_raw_destroy_storage temporary in
        ret (status, temporary)
  end.

(** The part the two functions share: [init] is what the initialisation of
    [temporary] answered. *)
Definition from_arrays (map : option hash_map) (keys values : option (list V)) (count : nat)
    (init : stl_status * option hash_map) : store U (stl_status * option hash_map) :=
  match map with
  | None => ret (STL_INVALID_ARGUMENT, None)
  | Some m =>
      if negb (count =? 0)%nat && (is_null keys || is_null values)
      then ret (STL_INVALID_ARGUMENT, map)
      else
        match init with
        | (STL_OK, temporary) =>
            let* (status, temporary) :=
              put_rows temporary (default [] keys) (default [] values) 0 count in
            if bool_decide (status = STL_OK) then
              let generation := size_inc (hm_generation m) in
              let* _ := if hm_initialized m then hash_map_raw_destroy_storage map else ret map in
              ret (STL_OK, set_hm_generation generation <$> temporary)
            else ret (status, map)
        | (status, _) => ret (status, map)
        end
  end.

Definition hash_map_raw_from_arrays (map : option hash_map) (keys values : option (list V))
    (count : nat) (key_type value_type : option cmeta_type_desc) (entry_limit : Z)
    : store U (stl_status * option hash_map) :=
  from_arrays map keys values count
    (hash_map_raw_init (Some (zero_map 0)) key_type value_type entry_limit).

Definition hash_map_from_arrays_bytes (map : option hash_map) (keys values : option (list V))
    (count : nat) (key_size key_align value_size value_align entry_limit : Z)
    (hash equal ctx : option addr) : store U (stl_status * option hash_map) :=
  from_arrays map keys values count
    (hash_map_init_bytes (Some (zero_map 0)) key_size key_align value_size value_align entry_limit
       hash equal ctx).

Definition hash_map_from_arrays (map : option hash_map) (keys values : option (list V))
    (count : nat) (entry_limit : Z) : store U (stl_status * option hash_map) :=
  match map with
  | None => ret (STL_INVALID_ARGUMENT, None)
  | Some m =>
      let c := hm_config m in
      if is_null (hc_key_type c) || is_null (hc_value_type c) then ret (STL_INVALID_ARGUMENT, map)
      else
        let* (status, map) :=
          hash_map_raw_from_arrays map keys values count (hc_key_type c) (hc_value_type c)
            entry_limit in
        ret (status, rebind m <$> map)
  end.

(** * Observers *)

Definition observe {A} (default : A) (field : hash_map -> A) (map : option hash_map) : A :=
  match map with
  | Some m => if hash_map_valid map then field m else default
  | None => default
  end.

Definition hash_map_size : option hash_map -> Z := observe 0 hm_size.
Definition hash_map_capacity : option hash_map -> Z := observe 0 hm_capacity.
Definition hash_map_entry_limit : option hash_map -> Z :=
  observe 0 (fun m => hc_entry_limit (hm_config m)).
Definition hash_map_generation (map : option hash_map) : Z :=
  match map with Some m => hm_generation m | None => 0 end.
Definition hash_map_empty (map : option hash_map) : bool := hash_map_size map =? 0.

(** The slot itself when it is occupied, or NULL. *)
Definition occupied_slot (map : option hash_map) (slot : Z) : option (option nat) :=
  observe (Some None) (fun m =>
    if slot <? hm_capacity m then
      s ← hm_storage m;
      state ← hs_states s !! Z.to_nat slot;
      Some (if state =? SALTS_HASH_OCCUPIED then Some (Z.to_nat slot) else None)
    else Some None) map.

Definition hash_map_key_at : option hash_map -> Z -> option (option nat) := occupied_slot.
Definition hash_map_key_at_const : option hash_map -> Z -> option (option nat) := hash_map_key_at.
Definition hash_map_value_at : option hash_map -> Z -> option (option nat) := occupied_slot.
Definition hash_map_value_at_const : option hash_map -> Z -> option (option nat) :=
  hash_map_value_at.

End HashMap.

(** * Keys that are bytes *)

(** The FNV-1a hash of the first [key_size] bytes. *)
Fixpoint fnv_loop (bytes : list Z) (hash : Z) : Z :=
  match bytes with
  | [] => hash
  | byte :: bytes => fnv_loop bytes (u64 (Z.lxor hash byte * 1099511628211))
  end.

Definition hash_bytes (key : list Z) (key_size : nat) : option Z :=
  if (key_size <=? length key)%nat then
    let hash := fnv_loop (take key_size key) 1469598103934665603 in
    Some (if hash =? 0 then 1 else hash)
  else None.

(** [memcmp (left, right, key_size) == 0]. *)
Definition hash_key_equal (left right : list Z) (key_size : nat) : option bool :=
  if (key_size <=? length left)%nat && (key_size <=? length right)%nat
  then Some (bool_decide (take key_size left = take key_size right))
  else None.
