(* ===== verification/CstlHashMapInvariant.v ===== *)
(** What every table of a hash map satisfies, and what probing finds in it.

    The slots an entry may sit in are those the probe sequence of its hash meets
    before the first empty slot; a table that keeps to this finds every key it
    holds, and says of every other key that it is absent.

    The changes a table undergoes: an entry enters a free slot, leaves its slot, or
    gets a new value.  Each keeps the invariant and changes what the table holds
    by exactly that entry.

    The finite map that a hash map implements: an association list, read up to
    the order of its entries. *)

From S2P Require Import Prelude.
From S2P Require Import CMetaType.
From S2P Require Import CstlSupport.
From S2P Require Import CstlObjects.
From S2P Require Import CstlHashMap.

(** * The probe sequence *)

(** The capacities of tables. *)
Definition bucket_count (capacity : Z) : Prop := exists n, 4 <= n < 64 /\ capacity = 2 ^ n.

Lemma bucket_count_range capacity : bucket_count capacity -> 16 <= capacity <= 2 ^ 63.
Proof.
  intros (n & Hn & ->). change 16 with (2 ^ 4). split; apply Z.pow_le_mono_r; lia.
Qed.

Lemma probe_slot_mod capacity hash probe :
  bucket_count capacity -> Z.of_nat (probe_slot capacity hash probe) = (hash + probe) mod capacity.
Proof.
  intros (n & Hn & ->). assert (16 <= 2 ^ n <= 2 ^ 63) by (apply bucket_count_range; by exists n).
  assert (Z.land (u64 (hash + probe)) (u64 (2 ^ n - 1)) = (hash + probe) mod 2 ^ n) as Hs.
  { assert (u64 (2 ^ n - 1) = Z.ones n) as ->.
    { unfold u64. rewrite Z.mod_small by lia. by rewrite Z.ones_equiv, Z.sub_1_r. }
    rewrite Z.land_ones by lia. unfold u64. apply Z.mod_mod_divide.
    exists (2 ^ (64 - n)). rewrite <- Z.pow_add_r by lia. f_equal. lia. }
  unfold probe_slot. rewrite Hs. apply Z2Nat.id, Z.mod_pos_bound. lia.
Qed.

Lemma probe_slot_lt capacity hash probe :
  bucket_count capacity -> (probe_slot capacity hash probe < Z.to_nat capacity)%nat.
Proof.
  intros Hc. pose proof (bucket_count_range _ Hc). apply Nat2Z.inj_lt.
  rewrite probe_slot_mod, Z2Nat.id by (done || lia). apply Z.mod_pos_bound. lia.
Qed.

(** The first [capacity] probes visit every slot. *)
Lemma probe_slot_covers capacity hash i :
  bucket_count capacity -> (i < Z.to_nat capacity)%nat ->
  exists p, 0 <= p < capacity /\ probe_slot capacity hash p = i.
Proof.
  intros Hc Hi. pose proof (bucket_count_range _ Hc).
  exists ((Z.of_nat i - hash) mod capacity). split; [apply Z.mod_pos_bound; lia|].
  apply Nat2Z.inj. rewrite probe_slot_mod by done.
  rewrite Z.add_mod_idemp_r by lia. replace (hash + (Z.of_nat i - hash)) with (Z.of_nat i) by lia.
  apply Z.mod_small. lia.
Qed.

(** * Settings *)

(** A configuration that initialisation accepted. *)
Record config_ok (c : hash_map_config) : Prop := {
  co_key_stride : 0 < hc_key_stride c <= SIZE_MAX;
  co_value_stride : 0 < hc_value_stride c <= SIZE_MAX;
  co_key_size : 0 < hc_key_size c;
  co_value_size : 0 < hc_value_size c;
  co_key_align : is_size (hc_key_align c) /\ sequence_alignment_valid (hc_key_align c) = true;
  co_value_align : is_size (hc_value_align c) /\ sequence_alignment_valid (hc_value_align c) = true;
  co_entry_limit : is_size (hc_entry_limit c);
  co_callbacks :
    match hc_key_type c, hc_value_type c with
    | Some _, Some _ =>
        supports (hc_key_type c) key_required /\ supports (hc_value_type c) value_required
    | None, None => is_Some (hc_hash c) /\ is_Some (hc_equal c)
    | _, _ => False
    end;
}.

Section Table.
Context {V U : Type} `{HV : ObjectTraits V U}.
Implicit Types c : hash_map_config.
Implicit Types s : hash_storage V.

Definition the_hash c (key : V) : Z := default 0 (hash_map_hash c key).
Definition the_equal c (a b : V) : bool := default false (hash_map_equal c a b).

(** What type_traits.h and hash_map.h ask of the hash and the equality of keys. *)
Class HashLaws (c : hash_map_config) := {
  equal_equivalence : Equivalence (fun a b => the_equal c a b = true);
  hash_respects : forall a b, the_equal c a b = true -> the_hash c a = the_hash c b;
}.

Lemma supports_sub type required sub :
  supports type required -> required <> 0 -> Z.land required sub = sub -> supports type sub.
Proof. destruct type as [t|]; [apply require_traits_sub|done]. Qed.

Lemma config_supports c :
  config_ok c ->
  supports (hc_key_type c) key_required /\ supports (hc_value_type c) value_required /\
  typed (hc_value_type c) = typed (hc_key_type c).
Proof.
  intros [_ _ _ _ _ _ _ H]. destruct (hc_key_type c), (hc_value_type c); simpl in *; tauto.
Qed.

Lemma hash_defined c key : config_ok c -> hash_map_hash c key = Some (the_hash c key).
Proof.
  intros [_ _ _ _ _ _ _ H]. unfold the_hash, hash_map_hash.
  destruct (hc_key_type c) as [t|], (hc_value_type c); try done.
  - destruct H as [H _]. simpl in H.
    destruct (trait_present t key_required CMETA_TRAIT_HASH tr_hash H) as [f ->]; [done| |done].
    unfold callback_flag. tauto.
  - by destruct H as [[f ->] _].
Qed.

Lemma equal_defined c a b : config_ok c -> hash_map_equal c a b = Some (the_equal c a b).
Proof.
  intros [_ _ _ _ _ _ _ H]. unfold the_equal, hash_map_equal.
  destruct (hc_key_type c) as [t|], (hc_value_type c); try done.
  - destruct H as [H _]. simpl in H.
    destruct (trait_present t key_required CMETA_TRAIT_EQUAL tr_equal H) as [f ->]; [done| |done].
    unfold callback_flag. tauto.
  - by destruct H as [_ [f ->]].
Qed.

(** * Slots and tables *)

Definition occupied s (i : nat) (k v : V) : Prop :=
  hs_states s !! i = Some SALTS_HASH_OCCUPIED /\
  hs_keys s !! i = Some (Live k) /\ hs_values s !! i = Some (Live v).

(** A slot that is not occupied: new objects may be moved into it. *)
Definition unoccupied c s (i : nat) : Prop :=
  exists state key value,
    hs_states s !! i = Some state /\
    (state = SALTS_HASH_EMPTY \/ state = SALTS_HASH_TOMBSTONE) /\
    hs_keys s !! i = Some key /\ vacant (hc_key_type c) key /\
    hs_values s !! i = Some value /\ vacant (hc_value_type c) value.

Definition slot_ok c s (i : nat) : Prop :=
  (exists k v, occupied s i k v /\ hs_hashes s !! i = Some (Some (the_hash c k))) \/
  unoccupied c s i.

(** The slot [i] is met by the probes of [hash] before the first empty slot. *)
Definition reaches (states : list Z) (capacity hash : Z) (i : nat) : Prop :=
  exists p, 0 <= p < capacity /\ probe_slot capacity hash p = i /\
    forall q, 0 <= q < p -> states !! probe_slot capacity hash q <> Some SALTS_HASH_EMPTY.

Record storage_inv c (capacity : Z) s : Prop := {
  si_capacity : bucket_count capacity;
  si_lengths :
    length (hs_states s) = Z.to_nat capacity /\ length (hs_hashes s) = Z.to_nat capacity /\
    length (hs_keys s) = Z.to_nat capacity /\ length (hs_values s) = Z.to_nat capacity;
  si_slots : forall i, (i < Z.to_nat capacity)%nat -> slot_ok c s i;
  si_reach : forall i k v, occupied s i k v -> reaches (hs_states s) capacity (the_hash c k) i;
  si_unique : forall i j k v k' v', occupied s i k v -> occupied s j k' v' ->
    the_equal c k k' = true -> i = j;
}.

Lemma occupied_lt c capacity s i k v :
  storage_inv c capacity s -> occupied s i k v -> (i < Z.to_nat capacity)%nat.
Proof. intros Hi (Hs & _). apply lookup_lt_Some in Hs. by rewrite (proj1 (si_lengths _ _ _ Hi)) in Hs. Qed.

Lemma occupied_det s i k v k' v' : occupied s i k v -> occupied s i k' v' -> k' = k /\ v' = v.
Proof. intros (_ & H1 & H2) (_ & H3 & H4). split; congruence. Qed.

Lemma unoccupied_not c s i k v : unoccupied c s i -> ~ occupied s i k v.
Proof. intros (st & ? & ? & H1 & H2 & _) (H3 & _). rewrite H1 in H3. injection H3 as ->. by destruct H2. Qed.

(** ** What the test on a slot answers *)

Lemma slot_holds_occupied c s i k v key :
  config_ok c -> occupied s i k v -> hs_hashes s !! i = Some (Some (the_hash c k)) ->
  slot_holds c s i SALTS_HASH_OCCUPIED key (the_hash c key) =
    Some (if the_hash c k =? the_hash c key then the_equal c k key else false).
Proof.
  intros Hc (_ & Hk & _) Hh. unfold slot_holds. simpl. rewrite Hh. simpl.
  destruct (the_hash c k =? the_hash c key); simpl; [|done]. rewrite Hk. simpl.
  by apply equal_defined.
Qed.

(** ** Lookup *)

Section Lookup.
Context (c : hash_map_config) (capacity : Z) (s : hash_storage V) (key : V).
Context (Hcfg : config_ok c) (Hlaws : HashLaws c) (Hinv : storage_inv c capacity s).

(** What the probes before [probe] have seen. *)
Definition passed (probe : Z) : Prop :=
  forall q, 0 <= q < probe ->
    let slot := probe_slot capacity (the_hash c key) q in
    hs_states s !! slot <> Some SALTS_HASH_EMPTY /\
    forall k v, occupied s slot k v -> the_equal c k key = false.

(** An entry with the key was passed, when the probes are at an empty slot or at
    their end. *)
Lemma passed_absent probe :
  0 <= probe -> passed probe ->
  probe = capacity \/
    hs_states s !! probe_slot capacity (the_hash c key) probe = Some SALTS_HASH_EMPTY ->
  forall i k v, occupied s i k v -> the_equal c k key = false.
Proof.
  intros Hp Hpassed Hend i k v Hocc. destruct (the_equal c k key) eqn:Heq; [|done].
  destruct (si_reach _ _ _ Hinv i k v Hocc) as (p & Hpr & Hslot & Hbefore).
  rewrite (hash_respects k key Heq) in Hslot, Hbefore.
  assert (p < probe) as Hlt.
  { destruct Hend as [->|Hempty]; [lia|]. destruct (Z.lt_trichotomy p probe) as [|[->|Hgt]]; [done| |].
    - exfalso. rewrite Hslot in Hempty. destruct Hocc as (Hs & _). by rewrite Hempty in Hs.
    - by destruct (Hbefore probe ltac:(lia)). }
  destruct (Hpassed p ltac:(lia)) as [_ Hno]. rewrite Hslot in Hno.
  by rewrite (Hno k v Hocc) in Heq.
Qed.

Lemma passed_next probe :
  0 <= probe -> passed probe ->
  hs_states s !! probe_slot capacity (the_hash c key) probe <> Some SALTS_HASH_EMPTY ->
  (forall k v, occupied s (probe_slot capacity (the_hash c key) probe) k v ->
     the_equal c k key = false) ->
  passed (probe + 1).
Proof.
  intros Hp Hpassed Hne Hno q Hq. destruct (decide (q = probe)) as [->|]; [done|]. apply Hpassed. lia.
Qed.

Definition lookup_answer (r : option nat) : Prop :=
  match r with
  | Some i => exists k v, occupied s i k v /\ the_equal c k key = true
  | None => forall i k v, occupied s i k v -> the_equal c k key = false
  end.

Lemma find_slot_loop_spec fuel probe :
  0 <= probe -> probe + Z.of_nat fuel = capacity -> passed probe ->
  exists r, find_slot_loop c s capacity key (the_hash c key) fuel probe = Some r /\ lookup_answer r.
Proof.
  revert probe. induction fuel as [|fuel IH]; intros probe Hp Hf Hpassed; simpl.
  - exists None. split; [done|]. refine (passed_absent probe Hp Hpassed _). left. lia.
  - set (slot := probe_slot capacity (the_hash c key) probe).
    assert (slot < Z.to_nat capacity)%nat as Hlt by apply probe_slot_lt, Hinv.
    destruct (si_slots _ _ _ Hinv slot Hlt) as [(k & v & Hocc & Hh)|Hun].
    + pose proof Hocc as (Hs & _). rewrite Hs. simpl.
      rewrite (slot_holds_occupied c s slot k v key Hcfg Hocc Hh).
      assert (forall k' v', occupied s slot k' v' -> k' = k) as Hdet.
      { intros k' v' Hocc'. by destruct (occupied_det _ _ _ _ _ _ Hocc Hocc'). }
      destruct (the_hash c k =? the_hash c key) eqn:Hhk;
        [destruct (the_equal c k key) eqn:Heq; [exists (Some slot); split; [done|by exists k, v]|]|].
      * apply IH; [lia|lia|]. apply passed_next; [done|done|by fold slot; rewrite Hs|].
        intros k' v' Hocc'. by rewrite (Hdet _ _ Hocc').
      * apply IH; [lia|lia|]. apply passed_next; [done|done|by fold slot; rewrite Hs|].
        intros k' v' Hocc'. rewrite (Hdet _ _ Hocc'). destruct (the_equal c k key) eqn:Heq; [|done].
        apply hash_respects in Heq. apply Z.eqb_neq in Hhk. done.
    + destruct Hun as (state & ck & cv & Hs & Hst & Hrest). rewrite Hs.
      destruct Hst as [->| ->]; simpl.
      * exists None. split; [done|]. refine (passed_absent probe Hp Hpassed _). by right.
      * apply IH; [lia|lia|].
        apply passed_next; [done|done|by fold slot; rewrite Hs|].
        intros k v (Hocc & _). fold slot in Hocc. by rewrite Hs in Hocc.
Qed.

Lemma find_slot_spec :
  exists r, find_slot_loop c s capacity key (the_hash c key) (Z.to_nat capacity) 0 = Some r /\
    lookup_answer r.
Proof.
  apply find_slot_loop_spec; [done| |].
  - pose proof (bucket_count_range _ (si_capacity _ _ _ Hinv)). lia.
  - intros q Hq. lia.
Qed.

End Lookup.

(** ** The slot for a new entry *)

(** A slot that an entry of [hash] may take. *)
Definition free_slot c s (capacity hash : Z) (i : nat) : Prop :=
  unoccupied c s i /\ (i < Z.to_nat capacity)%nat /\ reaches (hs_states s) capacity hash i.

Lemma insert_slot_loop_spec c capacity s hash fuel probe first :
  storage_inv c capacity s -> 0 <= probe -> probe + Z.of_nat fuel = capacity ->
  (forall q, 0 <= q < probe ->
     hs_states s !! probe_slot capacity hash q <> Some SALTS_HASH_EMPTY) ->
  (match first with
   | Some i => free_slot c s capacity hash i
   | None => exists p, probe <= p < capacity /\ unoccupied c s (probe_slot capacity hash p)
   end) ->
  exists i, insert_slot_loop s capacity hash fuel probe first = Some (Some i) /\
    free_slot c s capacity hash i.
Proof.
  intros Hinv. revert probe first.
  induction fuel as [|fuel IH]; intros probe first Hp Hf Hbefore Hfirst; simpl.
  - destruct first as [i|]; [by exists i|]. destruct Hfirst as (p & Hpr & _). lia.
  - set (slot := probe_slot capacity hash probe).
    assert (slot < Z.to_nat capacity)%nat as Hlt by apply probe_slot_lt, Hinv.
    assert (reaches (hs_states s) capacity hash slot) as Hreach
      by (exists probe; split_and!; [lia|lia|done|done]).
    destruct (si_slots _ _ _ Hinv slot Hlt) as [(k & v & Hocc & Hh)|Hun].
    + pose proof Hocc as (Hs & _). rewrite Hs. simpl. apply IH; [lia|lia| |].
      * intros q Hq. destruct (decide (q = probe)) as [->|]; [fold slot; by rewrite Hs|apply Hbefore; lia].
      * destruct first as [i|]; [done|]. destruct Hfirst as (p & Hpr & Hp').
        exists p. split; [|done]. destruct (decide (p = probe)) as [->|]; [|lia].
        exfalso. by apply (unoccupied_not _ _ _ k v Hp').
    + pose proof Hun as (state & ck & cv & Hs & Hst & Hrest). rewrite Hs.
      destruct Hst as [->| ->]; simpl.
      * destruct first as [i|]; [by exists i|]. by exists slot.
      * apply IH; [lia|lia| |].
        -- intros q Hq. destruct (decide (q = probe)) as [->|]; [fold slot; by rewrite Hs|apply Hbefore; lia].
        -- destruct first as [i|]; [done|]. by split_and!.
Qed.

Lemma insert_slot_spec c capacity s hash :
  storage_inv c capacity s -> (exists j, (j < Z.to_nat capacity)%nat /\ unoccupied c s j) ->
  exists i, insert_slot_loop s capacity hash (Z.to_nat capacity) 0 None = Some (Some i) /\
    free_slot c s capacity hash i.
Proof.
  intros Hinv (j & Hj & Hun). pose proof (bucket_count_range _ (si_capacity _ _ _ Hinv)).
  apply insert_slot_loop_spec; [done|done|lia|intros q Hq; lia|].
  destruct (probe_slot_covers capacity hash j (si_capacity _ _ _ Hinv) Hj) as (p & Hp & Hslot).
  exists p. by rewrite Hslot.
Qed.

End Table.

(** * Filtering by index *)

Definition option_list {A} (x : option A) : list A := match x with Some a => [a] | None => [] end.

Lemma omap_none {A} (f : nat -> option A) (l : list nat) : (forall i, i ∈ l -> f i = None) -> omap f l = [].
Proof.
  induction l as [|i l IH]; intros H; [done|]. csimpl. rewrite (H i) by apply list_elem_of_here.
  apply IH. intros j Hj. apply H. by apply list_elem_of_further.
Qed.

Lemma omap_ext {A} (f g : nat -> option A) (l : list nat) :
  (forall i, i ∈ l -> f i = g i) -> omap f l = omap g l.
Proof.
  induction l as [|i l IH]; intros H; [done|]. csimpl. rewrite (H i) by apply list_elem_of_here.
  rewrite IH; [done|]. intros j Hj. apply H. by apply list_elem_of_further.
Qed.

(** Two families that differ at one index. *)
Lemma omap_update {A} (f g : nat -> option A) i n :
  (i < n)%nat -> (forall j, j <> i -> g j = f j) ->
  exists l, omap f (seq 0 n) ≡ₚ option_list (f i) ++ l /\ omap g (seq 0 n) ≡ₚ option_list (g i) ++ l.
Proof.
  intros Hi Hfg. assert (seq 0 n = seq 0 i ++ i :: seq (S i) (n - S i)) as ->.
  { replace n with (i + S (n - S i))%nat at 1 by lia. rewrite seq_app. done. }
  exists (omap f (seq 0 i) ++ omap f (seq (S i) (n - S i))). rewrite !omap_app. csimpl.
  rewrite (omap_ext g f (seq 0 i)), (omap_ext g f (seq (S i) (n - S i))).
  - split; [destruct (f i)|destruct (g i)]; simpl; by rewrite ?Permutation_middle.
  - intros j Hj%elem_of_seq. apply Hfg. lia.
  - intros j Hj%elem_of_seq. apply Hfg. lia.
Qed.

Lemma omap_full {A} (f : nat -> option A) (l : list nat) :
  (forall i, i ∈ l -> is_Some (f i)) -> length (omap f l) = length l.
Proof.
  induction l as [|i l IH]; intros H; [done|]. csimpl.
  destruct (H i ltac:(apply list_elem_of_here)) as [x ->]. csimpl. f_equal. apply IH.
  intros j Hj. apply H. by apply list_elem_of_further.
Qed.

Lemma omap_length_le {A} (f : nat -> option A) (l : list nat) : (length (omap f l) <= length l)%nat.
Proof. induction l as [|i l IH]; csimpl; [lia|]. destruct (f i); csimpl; lia. Qed.

Section Table.
Context {V U : Type} `{HV : ObjectTraits V U}.
Implicit Types c : hash_map_config.
Implicit Types s : hash_storage V.

(** * What a table holds *)

Definition entry_at s (i : nat) : option (V * V) :=
  match hs_states s !! i with
  | Some state =>
      if state =? SALTS_HASH_OCCUPIED then
        match hs_keys s !! i, hs_values s !! i with
        | Some (Live k), Some (Live v) => Some (k, v)
        | _, _ => None
        end
      else None
  | None => None
  end.

(** The entries in the order of the slots. *)
Definition contents s : list (V * V) := omap (entry_at s) (seq 0 (length (hs_states s))).

Definition tombstones s : Z := count_if (Z.eqb SALTS_HASH_TOMBSTONE) (hs_states s).

Lemma entry_at_occupied s i k v : entry_at s i = Some (k, v) <-> occupied s i k v.
Proof.
  unfold entry_at, occupied. split.
  - destruct (hs_states s !! i) as [st|]; [|done].
    destruct (st =? SALTS_HASH_OCCUPIED) eqn:Hst; [|done]. apply Z.eqb_eq in Hst as ->.
    destruct (hs_keys s !! i) as [[|?|]|]; try done.
    destruct (hs_values s !! i) as [[|?|]|]; try done. by intros [= -> ->].
  - by intros (-> & -> & ->).
Qed.

Lemma elem_of_contents s k v : (k, v) ∈ contents s <-> exists i, occupied s i k v.
Proof.
  unfold contents. rewrite list_elem_of_omap. setoid_rewrite entry_at_occupied. split.
  - intros (i & _ & Hi). by exists i.
  - intros (i & Hi). exists i. split; [|done]. apply elem_of_seq.
    destruct Hi as (Hs & _). apply lookup_lt_Some in Hs. lia.
Qed.

Lemma unoccupied_entry c s i : unoccupied c s i -> entry_at s i = None.
Proof.
  intros Hun. destruct (entry_at s i) as [[k v]|] eqn:He; [|done].
  apply entry_at_occupied in He. by destruct (unoccupied_not _ _ _ _ _ Hun He).
Qed.

Lemma contents_length c capacity s :
  storage_inv c capacity s -> (length (contents s) <= Z.to_nat capacity)%nat.
Proof.
  intros Hi. destruct (si_lengths _ _ _ Hi) as (Hl & _). unfold contents. rewrite <- Hl.
  rewrite <- (length_seq (length (hs_states s)) 0) at 2. apply omap_length_le.
Qed.

(** A table that is not full has a slot to spare. *)
Lemma spare_slot c capacity s :
  storage_inv c capacity s -> (length (contents s) < Z.to_nat capacity)%nat ->
  exists j, (j < Z.to_nat capacity)%nat /\ unoccupied c s j.
Proof.
  intros Hi Hlt. destruct (si_lengths _ _ _ Hi) as (Hl & _).
  destruct (decide (Exists (fun j => entry_at s j = None) (seq 0 (length (hs_states s))))) as [He|He].
  - apply Exists_exists in He as (j & Hj%elem_of_seq & Hn). exists j. split; [lia|].
    destruct (si_slots _ _ _ Hi j ltac:(lia)) as [(k & v & Hocc & _)|]; [|done].
    apply entry_at_occupied in Hocc. congruence.
  - exfalso. assert (length (contents s) = length (hs_states s)) as Hfull; [|lia].
    unfold contents. rewrite omap_full, length_seq; [done|]. intros j Hj.
    destruct (entry_at s j) as [e|] eqn:Hn; [by exists e|]. exfalso. apply He, Exists_exists. eauto.
Qed.

(** * One slot changes *)

(** [s'] has the block and the lengths of [s], and the same slots but [i]. *)
Record changes s s' (i : nat) : Prop := {
  ch_block : hs_block s' = hs_block s;
  ch_lengths :
    length (hs_states s') = length (hs_states s) /\ length (hs_hashes s') = length (hs_hashes s) /\
    length (hs_keys s') = length (hs_keys s) /\ length (hs_values s') = length (hs_values s);
  ch_same : forall j, j <> i ->
    hs_states s' !! j = hs_states s !! j /\ hs_hashes s' !! j = hs_hashes s !! j /\
    hs_keys s' !! j = hs_keys s !! j /\ hs_values s' !! j = hs_values s !! j;
}.

Lemma changes_occupied s s' i j k v :
  changes s s' i -> j <> i -> occupied s' j k v <-> occupied s j k v.
Proof. intros H Hj. unfold occupied. by destruct (ch_same _ _ _ H j Hj) as (-> & _ & -> & ->). Qed.

Lemma changes_slot_ok c s s' i j :
  changes s s' i -> j <> i -> slot_ok c s j -> slot_ok c s' j.
Proof.
  intros H Hj. unfold slot_ok, unoccupied, occupied.
  by destruct (ch_same _ _ _ H j Hj) as (-> & -> & -> & ->).
Qed.

Lemma changes_contents s s' i :
  changes s s' i -> (i < length (hs_states s))%nat ->
  exists l, contents s ≡ₚ option_list (entry_at s i) ++ l /\
            contents s' ≡ₚ option_list (entry_at s' i) ++ l.
Proof.
  intros H Hi. unfold contents. destruct (ch_lengths _ _ _ H) as (-> & _).
  apply omap_update; [done|]. intros j Hj. unfold entry_at.
  by destruct (ch_same _ _ _ H j Hj) as (-> & _ & -> & ->).
Qed.

(** Slots that are passed stay passed unless one becomes empty. *)
Lemma reaches_mono capacity hash (states states' : list Z) i :
  (forall j, states !! j <> Some SALTS_HASH_EMPTY -> states' !! j <> Some SALTS_HASH_EMPTY) ->
  reaches states capacity hash i -> reaches states' capacity hash i.
Proof. intros H (p & Hp & Hs & Hb). exists p. split_and!; [lia|lia|done|]. auto. Qed.

(** A change of one slot that leaves no slot empty keeps the invariant when the new
    slot and its entry do. *)
Lemma changes_inv c capacity s s' i :
  storage_inv c capacity s -> changes s s' i ->
  hs_states s' !! i <> Some SALTS_HASH_EMPTY ->
  slot_ok c s' i ->
  (forall k v, occupied s' i k v -> reaches (hs_states s) capacity (the_hash c k) i) ->
  (forall k v j k' v', occupied s' i k v -> occupied s j k' v' -> j <> i ->
     the_equal c k k' = false /\ the_equal c k' k = false) ->
  storage_inv c capacity s'.
Proof.
  intros Hi Hch Hne Hok Hr Hu. pose proof Hi as [Hc Hl Hs Hre Hun].
  assert (forall j, hs_states s !! j <> Some SALTS_HASH_EMPTY ->
    hs_states s' !! j <> Some SALTS_HASH_EMPTY) as Hmono.
  { intros j Hj. destruct (decide (j = i)) as [->|Hji]; [done|].
    by destruct (ch_same _ _ _ Hch j Hji) as (-> & _). }
  split; [done| | | |].
  - by destruct (ch_lengths _ _ _ Hch) as (-> & -> & -> & ->).
  - intros j Hj. destruct (decide (j = i)) as [->|Hji]; [done|].
    by apply (changes_slot_ok c s s' i), Hs.
  - intros j k v Hocc. apply (reaches_mono _ _ (hs_states s)); [done|].
    destruct (decide (j = i)) as [->|Hji]; [by apply (Hr k v)|].
    apply (Hre j k v). by apply (changes_occupied s s' i).
  - intros j1 j2 k v k' v' H1 H2 Heq.
    destruct (decide (j1 = i)) as [->|Hj1], (decide (j2 = i)) as [->|Hj2]; [done| | |].
    + apply (changes_occupied s s' i) in H2; [|done..].
      destruct (Hu _ _ _ _ _ H1 H2 Hj2) as [Hf _]. congruence.
    + apply (changes_occupied s s' i) in H1; [|done..].
      destruct (Hu _ _ _ _ _ H2 H1 Hj1) as [_ Hf]. congruence.
    + apply (changes_occupied s s' i) in H1, H2; [|done..]. by eapply Hun.
Qed.

(** ** A new entry *)

Lemma write_spec {A} i (x y : A) l : l !! i = Some x -> write i y l = Some (<[i := y]> l).
Proof. unfold write. by intros ->. Qed.

Lemma occupy_spec c capacity s i k v :
  HashLaws c -> storage_inv c capacity s -> free_slot c s capacity (the_hash c k) i ->
  (forall j k' v', occupied s j k' v' -> the_equal c k' k = false) ->
  exists s', occupy i (the_hash c k) (Live k) (Live v) s = Some s' /\
    storage_inv c capacity s' /\ contents s' ≡ₚ (k, v) :: contents s /\
    hs_block s' = hs_block s /\
    exists state, hs_states s !! i = Some state /\
      tombstones s' = tombstones s - Z.b2z (SALTS_HASH_TOMBSTONE =? state).
Proof.
  intros Hlaws Hi (Hun & Hlt & Hreach) Hnew.
  pose proof Hun as (state & ck & cv & Hs & Hst & Hk & _ & Hv & _).
  destruct (si_lengths _ _ _ Hi) as (Ls & Lh & Lk & Lv).
  destruct (lookup_lt_is_Some_2 (hs_hashes s) i ltac:(lia)) as [h Hh].
  unfold occupy. rewrite (write_spec _ _ _ _ Hk), (write_spec _ _ _ _ Hv).
  rewrite (write_spec _ _ _ _ Hh), (write_spec _ _ _ _ Hs). simpl. eexists. split; [done|].
  set (s' := mk_hash_storage _ _ _ _ _).
  assert (changes s s' i) as Hch.
  { split; [done|simpl; by rewrite !length_insert|]. intros j Hj. simpl.
    by rewrite !list_lookup_insert_ne by done. }
  assert (occupied s' i k v) as Hocc.
  { unfold occupied. simpl. rewrite !list_lookup_insert_eq by lia. done. }
  assert (forall k' v', occupied s' i k' v' -> k' = k) as Hdet.
  { intros k' v' H. by destruct (occupied_det _ _ _ _ _ _ Hocc H). }
  split_and!.
  - apply (changes_inv c capacity s s' i); try done.
    + simpl. by rewrite list_lookup_insert_eq by lia.
    + left. exists k, v. split; [done|]. simpl. by rewrite list_lookup_insert_eq by lia.
    + intros k' v' H. by rewrite (Hdet _ _ H).
    + intros k' v' j k'' v'' H H' Hj. rewrite (Hdet _ _ H). split; [|by eapply Hnew].
      destruct (the_equal c k k'') eqn:He; [|done].
      pose proof (@symmetry _ _ (equal_equivalence (c := c)).(Equivalence_Symmetric) _ _ He) as He'.
      simpl in He'. by rewrite (Hnew j k'' v'' H') in He'.
  - destruct (changes_contents s s' i Hch ltac:(lia)) as (l & Hl & Hl').
    rewrite Hl', Hl. rewrite (proj2 (entry_at_occupied s' i k v) Hocc). simpl.
    by rewrite (unoccupied_entry c s i Hun).
  - done.
  - exists state. split; [done|]. unfold tombstones. simpl.
    rewrite (count_if_insert _ _ _ state) by done. simpl. lia.
Qed.

(** ** An entry that leaves *)

Lemma vacate_spec c capacity s i k v key value :
  storage_inv c capacity s -> occupied s i k v ->
  vacant (hc_key_type c) key -> vacant (hc_value_type c) value ->
  let s' := mk_hash_storage (hs_block s) (<[i := SALTS_HASH_TOMBSTONE]> (hs_states s))
              (hs_hashes s) (<[i := key]> (hs_keys s)) (<[i := value]> (hs_values s)) in
  storage_inv c capacity s' /\ contents s ≡ₚ (k, v) :: contents s' /\
  tombstones s' = tombstones s + 1.
Proof.
  intros Hi Hocc Hkey Hvalue s'. pose proof (occupied_lt _ _ _ _ _ _ Hi Hocc) as Hlt.
  destruct (si_lengths _ _ _ Hi) as (Ls & Lh & Lk & Lv).
  assert (changes s s' i) as Hch.
  { split; [done|simpl; by rewrite !length_insert|]. intros j Hj. simpl.
    by rewrite !list_lookup_insert_ne by done. }
  assert (unoccupied c s' i) as Hun.
  { exists SALTS_HASH_TOMBSTONE, key, value. simpl. rewrite !list_lookup_insert_eq by lia. tauto. }
  split_and!.
  - apply (changes_inv c capacity s s' i); try done.
    + simpl. by rewrite list_lookup_insert_eq by lia.
    + by right.
    + intros k' v' H. by destruct (unoccupied_not _ _ _ _ _ Hun H).
    + intros k' v' j k'' v'' H. by destruct (unoccupied_not _ _ _ _ _ Hun H).
  - destruct (changes_contents s s' i Hch ltac:(lia)) as (l & Hl & Hl').
    rewrite Hl', Hl, (proj2 (entry_at_occupied s i k v) Hocc), (unoccupied_entry c s' i) by done. done.
  - destruct Hocc as (Hs & _). unfold tombstones. simpl.
    rewrite (count_if_insert _ _ _ SALTS_HASH_OCCUPIED) by done. simpl. lia.
Qed.

(** ** A new value *)

Lemma revalue_spec c capacity s i k v v' :
  storage_inv c capacity s -> occupied s i k v ->
  let s' := mk_hash_storage (hs_block s) (hs_states s) (hs_hashes s) (hs_keys s)
              (<[i := Live v']> (hs_values s)) in
  storage_inv c capacity s' /\
  (exists l, contents s ≡ₚ (k, v) :: l /\ contents s' ≡ₚ (k, v') :: l) /\
  tombstones s' = tombstones s.
Proof.
  intros Hi Hocc s'. pose proof (occupied_lt _ _ _ _ _ _ Hi Hocc) as Hlt.
  destruct (si_lengths _ _ _ Hi) as (Ls & Lh & Lk & Lv).
  assert (changes s s' i) as Hch.
  { split; [done|simpl; by rewrite !length_insert|]. intros j Hj. simpl.
    by rewrite !list_lookup_insert_ne by done. }
  assert (occupied s' i k v') as Hocc'.
  { destruct Hocc as (? & ? & _). unfold occupied. simpl. by rewrite list_lookup_insert_eq by lia. }
  assert (forall k' w, occupied s' i k' w -> k' = k) as Hdet.
  { intros k' w H. by destruct (occupied_det _ _ _ _ _ _ Hocc' H). }
  split_and!.
  - apply (changes_inv c capacity s s' i); try done.
    + simpl. destruct Hocc as (-> & _). done.
    + left. exists k, v'. split; [done|]. simpl.
      destruct (si_slots _ _ _ Hi i Hlt) as [(k0 & v0 & Hocc0 & Hh)|Hun].
      * by destruct (occupied_det _ _ _ _ _ _ Hocc0 Hocc) as [-> _].
      * by destruct (unoccupied_not _ _ _ _ _ Hun Hocc).
    + intros k' w H. rewrite (Hdet _ _ H). by eapply si_reach.
    + intros k' w j k'' v'' H H' Hj. rewrite (Hdet _ _ H).
      split; [destruct (the_equal c k k'') eqn:He|destruct (the_equal c k'' k) eqn:He]; try done;
        exfalso; apply Hj; [symmetry|]; by eapply si_unique.
  - destruct (changes_contents s s' i Hch ltac:(lia)) as (l & Hl & Hl'). exists l.
    by rewrite Hl, Hl', (proj2 (entry_at_occupied s i k v) Hocc), (proj2 (entry_at_occupied s' i k v') Hocc').
  - done.
Qed.

End Table.

Section Assoc.
Context {V U : Type} `{HV : ObjectTraits V U}.
Implicit Types l : list (V * V).
Implicit Types c : hash_map_config.

(** * The reference operations *)

Definition has_key c (key : V) (e : V * V) : bool := the_equal c (fst e) key.

Definition assoc_has c (key : V) l : bool := existsb (has_key c key) l.

Definition assoc_get c (key : V) l : option V := snd <$> List.find (has_key c key) l.

(** A new value for a key that is there keeps the stored key. *)
Definition assoc_put c (key value : V) l : list (V * V) :=
  if assoc_has c key l
  then map (fun e => if has_key c key e then (fst e, value) else e) l
  else (key, value) :: l.

Definition assoc_remove c (key : V) l : list (V * V) :=
  List.filter (fun e => negb (has_key c key e)) l.

(** No two entries have the same key. *)
Fixpoint distinct c l : Prop :=
  match l with
  | [] => True
  | e :: l => (forall f, f ∈ l -> the_equal c (fst e) (fst f) = false) /\ distinct c l
  end.

(** * They do not depend on the order *)

Section Laws.
Context (c : hash_map_config) (Hlaws : HashLaws c).

Lemma equal_sym a b : the_equal c a b = the_equal c b a.
Proof.
  pose proof (equal_equivalence (c := c)) as [_ Hsym _].
  destruct (the_equal c a b) eqn:H1, (the_equal c b a) eqn:H2; [done| | |done].
  - apply Hsym in H1. congruence.
  - apply Hsym in H2. congruence.
Qed.

Lemma equal_refl a : the_equal c a a = true.
Proof. pose proof (equal_equivalence (c := c)) as [Hr _ _]. apply Hr. Qed.

Lemma equal_trans a b d : the_equal c a b = true -> the_equal c b d = true -> the_equal c a d = true.
Proof. pose proof (equal_equivalence (c := c)) as [_ _ Ht]. apply Ht. Qed.

Lemma has_key_true k v key : has_key c key (k, v) = true <-> the_equal c k key = true.
Proof. done. Qed.

Lemma assoc_has_true key l : assoc_has c key l = true <-> exists k v, (k, v) ∈ l /\ the_equal c k key = true.
Proof.
  unfold assoc_has. rewrite existsb_exists. setoid_rewrite <- list_elem_of_In. split.
  - intros ([k v] & Hin & He). by exists k, v.
  - intros (k & v & Hin & He). by exists (k, v).
Qed.

Lemma assoc_has_false key l :
  assoc_has c key l = false <-> forall k v, (k, v) ∈ l -> the_equal c k key = false.
Proof.
  rewrite <- not_true_iff_false, assoc_has_true. split.
  - intros H k v Hin. destruct (the_equal c k key) eqn:He; [|done]. destruct H. eauto.
  - intros H (k & v & Hin & He). by rewrite (H k v Hin) in He.
Qed.

#[export] Instance assoc_has_proper key : Proper ((≡ₚ) ==> eq) (assoc_has c key).
Proof.
  intros l l' Hp. apply eq_true_iff_eq. rewrite !assoc_has_true. by setoid_rewrite Hp.
Qed.

#[export] Instance assoc_put_proper key value : Proper ((≡ₚ) ==> (≡ₚ)) (assoc_put c key value).
Proof.
  intros l l' Hp. unfold assoc_put. rewrite (assoc_has_proper key l l' Hp).
  destruct (assoc_has c key l'); [by apply Permutation_map|by f_equiv].
Qed.

#[export] Instance assoc_remove_proper key : Proper ((≡ₚ) ==> (≡ₚ)) (assoc_remove c key).
Proof.
  intros l l' Hp. unfold assoc_remove. induction Hp; simpl.
  - done.
  - destruct (negb _); [by f_equiv|done].
  - destruct (negb (has_key c key x)), (negb (has_key c key y)); try done. apply Permutation_swap.
  - by etrans.
Qed.

Lemma distinct_perm l l' : l ≡ₚ l' -> distinct c l -> distinct c l'.
Proof.
  induction 1; simpl; [done| | |auto].
  - intros [H1 H2]. split; [|auto]. intros f Hf. apply H1. by rewrite H.
  - intros (H1 & H2 & H3). split_and!; [|intros f Hf; apply H1; by apply list_elem_of_further|done].
    intros f [->|Hf]%elem_of_cons; [|by apply H2]. rewrite equal_sym. apply H1, list_elem_of_here.
Qed.

(** With distinct keys there is one answer. *)
Lemma assoc_get_Some key v l :
  distinct c l -> assoc_get c key l = Some v <-> exists k, (k, v) ∈ l /\ the_equal c k key = true.
Proof.
  unfold assoc_get. induction l as [|[k0 v0] l IH]; simpl.
  - intros _. split; [done|]. intros (k & Hin & _). by apply elem_of_nil in Hin.
  - intros [Hd Hl]. unfold has_key at 1. simpl. destruct (the_equal c k0 key) eqn:He; simpl.
    + split; [intros [= ->]; exists k0; split; [apply list_elem_of_here|done]|].
      intros (k & [[= -> ->]|Hin]%elem_of_cons & Hk); [done|]. exfalso.
      rewrite equal_sym in Hk. pose proof (Hd (k, v) Hin) as Hf. simpl in Hf.
      by rewrite (equal_trans _ _ _ He Hk) in Hf.
    + rewrite IH by done. split.
      * intros (k & Hin & Hk). exists k. split; [by apply list_elem_of_further|done].
      * intros (k & [[= -> ->]|Hin]%elem_of_cons & Hk); [congruence|]. by exists k.
Qed.

Lemma assoc_get_perm key l l' : distinct c l -> l ≡ₚ l' -> assoc_get c key l = assoc_get c key l'.
Proof.
  intros Hd Hp. pose proof (distinct_perm _ _ Hp Hd) as Hd'. apply option_eq. intros v.
  rewrite (assoc_get_Some key v l Hd), (assoc_get_Some key v l' Hd'). by setoid_rewrite Hp.
Qed.

Lemma assoc_get_None key l : assoc_get c key l = None <-> assoc_has c key l = false.
Proof.
  unfold assoc_get, assoc_has. induction l as [|e l IH]; simpl; [done|].
  by destruct (has_key c key e); simpl.
Qed.

(** ** One entry at a time *)

Lemma others_keep key k v l :
  distinct c ((k, v) :: l) -> the_equal c k key = true ->
  forall e, e ∈ l -> has_key c key e = false.
Proof.
  intros [Hd _] He e Hin. pose proof (Hd e Hin) as Hf. simpl in Hf. unfold has_key.
  destruct (the_equal c (fst e) key) eqn:Hk; [|done]. rewrite equal_sym in Hk.
  by rewrite (equal_trans _ _ _ He Hk) in Hf.
Qed.

Lemma assoc_put_replaces key value k v l :
  distinct c ((k, v) :: l) -> the_equal c k key = true ->
  assoc_put c key value ((k, v) :: l) = (k, value) :: l.
Proof.
  intros Hd He. pose proof (others_keep _ _ _ _ Hd He) as Ho. unfold assoc_put, assoc_has. simpl.
  unfold has_key at 1 3. simpl. rewrite He. simpl. f_equal. clear Hd.
  induction l as [|e l IH]; simpl; [done|]. rewrite (Ho e) by apply list_elem_of_here.
  f_equal. apply IH. intros f Hf. apply Ho. by apply list_elem_of_further.
Qed.

Lemma assoc_remove_takes key k v l :
  distinct c ((k, v) :: l) -> the_equal c k key = true ->
  assoc_remove c key ((k, v) :: l) = l.
Proof.
  intros Hd He. pose proof (others_keep _ _ _ _ Hd He) as Ho. unfold assoc_remove. simpl.
  unfold has_key at 1. simpl. rewrite He. simpl. clear Hd.
  induction l as [|e l IH]; simpl; [done|]. rewrite (Ho e) by apply list_elem_of_here. simpl.
  f_equal. apply IH. intros f Hf. apply Ho. by apply list_elem_of_further.
Qed.

Lemma assoc_remove_absent key l : assoc_has c key l = false -> assoc_remove c key l = l.
Proof.
  intros Hn. unfold assoc_remove, assoc_has in *. induction l as [|e l IH]; simpl in *; [done|].
  apply orb_false_iff in Hn as [-> Hn]. simpl. by rewrite IH.
Qed.

(** ** A table holds distinct keys *)

Lemma distinct_omap (f : nat -> option (V * V)) a n :
  (forall i j e e', (i < j)%nat -> f i = Some e -> f j = Some e' ->
     the_equal c (fst e) (fst e') = false) ->
  distinct c (omap f (seq a n)).
Proof.
  intros Hf. revert a. induction n as [|n IH]; intros a; csimpl; [done|].
  destruct (f a) as [e|] eqn:He; csimpl; [|apply IH]. split; [|apply IH].
  intros e' (j & Hj%elem_of_seq & He')%list_elem_of_omap. apply (Hf a j); [lia|done|done].
Qed.

Lemma contents_distinct capacity s : storage_inv c capacity s -> distinct c (contents s).
Proof.
  intros Hi. apply distinct_omap. intros i j [k v] [k' v'] Hij He He'.
  apply entry_at_occupied in He, He'. simpl. destruct (the_equal c k k') eqn:Heq; [|done].
  pose proof (si_unique _ _ _ Hi _ _ _ _ _ _ He He' Heq). lia.
Qed.

End Laws.

End Assoc.
