(* ===== verification/CstlHashMapRehash.v ===== *)
(** The sizes a hash map computes: how many buckets it asks for, and where the four
    arrays lie in the block.

    Moving the entries of a hash map into a new table, and room for one more. *)

From S2P Require Import Prelude.
From S2P Require Import CMetaType.
From S2P Require Import CstlSupport.
From S2P Require Import CstlObjects.
From S2P Require Import CstlHashMap.
From S2P Require Import CstlHashMapInvariant.

(** * Buckets *)

Lemma double_until_spec fuel k requested :
  4 <= k < 64 -> 64 - k <= Z.of_nat fuel -> k = 4 \/ 2 ^ k < 2 * requested ->
  match double_until fuel (2 ^ k) requested with
  | StlOk b => bucket_count b /\ requested <= b /\ (b = 16 \/ b < 2 * requested)
  | StlFail status => status = STL_CAPACITY_EXCEEDED /\ 2 ^ 63 < requested
  end.
Proof.
  revert k. induction fuel as [|fuel IH]; intros k Hk Hf Hleast; [lia|].
  assert (0 < 2 ^ k) by lia. assert (2 ^ k <= 2 ^ 63) by (apply Z.pow_le_mono_r; lia).
  cbn [double_until]. destruct (2 ^ k <? requested) eqn:Hlt; destruct_bools.
  - destruct (SIZE_MAX / 2 <? 2 ^ k) eqn:Hbig; destruct_bools.
    + split; [done|]. change (SIZE_MAX / 2) with (2 ^ 63 - 1) in Hbig. lia.
    + change (SIZE_MAX / 2) with (2 ^ 63 - 1) in Hbig.
      assert (k < 63) as Hk63 by (apply Z.pow_lt_mono_r_iff with (a := 2); lia).
      assert (2 ^ k * 2 = 2 ^ (k + 1)) as Hd by (rewrite Z.pow_add_r by lia; lia).
      assert (u64 (2 ^ k * 2) = 2 ^ (k + 1)) as -> by (rewrite Hd; apply Z.mod_small; lia).
      apply IH; lia.
  - split_and!; [by exists k; split; [lia|]|lia|]. destruct Hleast as [->|]; [by left|right; lia].
Qed.

(** How many slots [entries] entries need: a load of at most seven in ten. *)
Definition slots_needed (entries : Z) : Z := (10 * entries + 6) / 7.

(** The bucket count asked for is the least one that is enough, and the request
    fails only when 2^63 slots are not. *)
Lemma buckets_spec entries :
  is_size entries ->
  match hash_buckets_for_entries entries with
  | StlOk b =>
      (entries = 0 /\ b = 0) \/
      (0 < entries /\ bucket_count b /\ slots_needed entries <= b /\
       (b = 16 \/ b < 2 * slots_needed entries))
  | StlFail status => status = STL_CAPACITY_EXCEEDED /\ 2 ^ 63 < slots_needed entries
  end.
Proof.
  unfold is_size, slots_needed. intros He. unfold hash_buckets_for_entries.
  destruct (entries =? 0) eqn:H0; destruct_bools; [by left|].
  pose proof (Z.div_mod entries 7 ltac:(lia)) as Hd. pose proof (Z.mod_pos_bound entries 7 ltac:(lia)) as Hr.
  set (q := entries / 7) in *. set (r := entries mod 7) in *.
  assert ((SIZE_MAX / 3 <? q) = false) as ->.
  { change (SIZE_MAX / 3) with 6148914691236517205. unfold SIZE_MAX in He. apply Z.ltb_ge. lia. }
  unfold SIZE_MAX in *.
  assert (u64 (q * 3) = q * 3) as -> by (apply Z.mod_small; lia).
  assert (u64 (r * 3) = r * 3) as -> by (apply Z.mod_small; lia).
  assert (u64 (r * 3 + 6) = r * 3 + 6) as -> by (apply Z.mod_small; lia).
  pose proof (Z.div_mod (r * 3 + 6) 7 ltac:(lia)) as Hd2.
  pose proof (Z.mod_pos_bound (r * 3 + 6) 7 ltac:(lia)) as Hr2.
  assert (u64 (q * 3 + (r * 3 + 6) / 7) = q * 3 + (r * 3 + 6) / 7) as -> by (apply Z.mod_small; lia).
  assert (entries + (q * 3 + (r * 3 + 6) / 7) = (10 * entries + 6) / 7) as Hreq.
  { apply Z.div_unique with (r := (r * 3 + 6) mod 7); [left; lia|]. lia. }
  unfold hash_add, SIZE_MAX. set (needed := (10 * entries + 6) / 7) in *.
  destruct (_ <? _) eqn:Hov; destruct_bools; [split; [done|lia]|].
  assert (u64 (entries + (q * 3 + (r * 3 + 6) / 7)) = needed) as ->.
  { rewrite Hreq. apply Z.mod_small. lia. }
  assert (0 < needed) by lia. unfold SALTS_HASH_MIN_BUCKETS.
  pose proof (double_until_spec 64 4 (if needed <? 16 then 16 else needed) ltac:(lia) ltac:(lia) ltac:(by left)) as Hspec.
  change (2 ^ 4) with 16 in Hspec.
  destruct (double_until _ _ _) as [b|status]; destruct (needed <? 16) eqn:Hsmall; destruct_bools.
  - right. destruct Hspec as (? & ? & ?). pose proof (bucket_count_range b ltac:(done)).
    split_and!; [lia|done|lia|]. left.
    match goal with H : bucket_count b |- _ => destruct H as (n & Hn & ->) end.
    assert (n < 5) by (apply Z.pow_lt_mono_r_iff with (a := 2); lia).
    replace n with 4 by lia. done.
  - right. destruct Hspec as (? & ? & ?). split_and!; [lia|done|lia|done].
  - destruct Hspec. lia.
  - done.
Qed.

(** Enough buckets leave a slot to spare. *)
Lemma slots_needed_lt entries : 0 <= entries -> entries <= slots_needed entries.
Proof. intros He. unfold slots_needed. apply Z.div_le_lower_bound; lia. Qed.

(** * The block *)

Lemma hash_mul_spec a b :
  0 <= a -> 0 <= b ->
  match hash_mul a b with
  | StlOk r => r = a * b /\ a * b <= SIZE_MAX
  | StlFail status => status = STL_CAPACITY_EXCEEDED /\ SIZE_MAX < a * b
  end.
Proof.
  intros Ha Hb. unfold hash_mul. destruct (negb _ && _) eqn:Hov.
  - split; [done|]. apply Z.lt_nge. intros Hle. apply product_checked_spec in Hle; [|done..]. congruence.
  - apply product_checked_spec in Hov; [|done..]. split; [|done].
    unfold SIZE_MAX in Hov. apply Z.mod_small. nia.
Qed.

Lemma hash_add_spec a b :
  0 <= a <= SIZE_MAX -> 0 <= b ->
  match hash_add a b with
  | StlOk r => r = a + b /\ a + b <= SIZE_MAX
  | StlFail status => status = STL_CAPACITY_EXCEEDED /\ SIZE_MAX < a + b
  end.
Proof.
  intros Ha Hb. unfold hash_add. destruct (_ <? b) eqn:Hov; destruct_bools; [split; [done|lia]|].
  split; [|lia]. unfold SIZE_MAX in *. apply Z.mod_small. lia.
Qed.

Lemma hash_align_spec value a :
  0 <= value <= SIZE_MAX -> is_size a -> sequence_alignment_valid a = true ->
  match hash_align value a with
  | StlOk r => value <= r < value + a /\ r mod a = 0 /\ r <= SIZE_MAX
  | StlFail status => status = STL_CAPACITY_EXCEEDED /\ SIZE_MAX < value + (a - 1)
  end.
Proof.
  intros Hv Ha Hval. unfold hash_align. rewrite Hval. simpl.
  destruct (sequence_alignment_inv a Ha Hval) as (k & Hk & Hak). assert (0 < a) by (subst; lia).
  unfold is_size in Ha.
  assert (u64 (a - 1) = a - 1) as -> by (unfold u64, SIZE_MAX in *; apply Z.mod_small; lia).
  destruct (_ <? value) eqn:Hov; destruct_bools; [split; [done|lia]|].
  by pose proof (round_up_spec value a ltac:(done) Hval ltac:(lia)) as (_ & ? & ? & ?).
Qed.

(** The arrays follow each other in the block without overlapping, each aligned for
    its elements, and end with it. *)
Record layout_ok (c : hash_map_config) (capacity : Z) (l : hash_layout) : Prop := {
  lo_states : hl_states_bytes l = capacity;
  lo_hashes : capacity <= hl_hashes_offset l /\ hl_hashes_offset l mod alignof_size_t = 0;
  lo_keys : hl_hashes_offset l + capacity * sizeof_size_t <= hl_keys_offset l /\
    hl_keys_offset l mod hc_key_align c = 0;
  lo_values : hl_keys_offset l + capacity * hc_key_stride c <= hl_values_offset l /\
    hl_values_offset l mod hc_value_align c = 0;
  lo_total : hl_total l = hl_values_offset l + capacity * hc_value_stride c /\
    hl_total l <= SIZE_MAX;
}.

Lemma layout_spec c capacity :
  config_ok c -> bucket_count capacity ->
  match hash_map_layout c capacity with
  | StlOk l => layout_ok c capacity l
  | StlFail status => status = STL_CAPACITY_EXCEEDED /\
      (* the padding included, the arrays do not fit *)
      SIZE_MAX < capacity * (1 + sizeof_size_t + hc_key_stride c + hc_value_stride c) +
        (alignof_size_t - 1) + (hc_key_align c - 1) + (hc_value_align c - 1)
  end.
Proof.
  intros [Hks Hvs _ _ [Hka Hkv] [Hva Hvv] _ _] Hb. pose proof (bucket_count_range _ Hb) as Hc.
  unfold is_size in *.
  assert (0 < hc_key_align c) by (destruct (sequence_alignment_inv _ Hka Hkv) as (? & ? & ->); lia).
  assert (0 < hc_value_align c) by (destruct (sequence_alignment_inv _ Hva Hvv) as (? & ? & ->); lia).
  unfold hash_map_layout, alignof_size_t, sizeof_size_t in *.
  pose proof (hash_mul_spec capacity 1 ltac:(lia) ltac:(lia)) as H1.
  destruct (hash_mul capacity 1) as [sb|?]; simpl; [|split; [by apply H1|lia]]. destruct H1 as [-> H1].
  pose proof (hash_align_spec (capacity * 1) 8 ltac:(lia) ltac:(done) ltac:(done)) as H2.
  destruct (hash_align _ 8) as [ho|?]; simpl; [|split; [by apply H2|lia]]. destruct H2 as (H2 & H2m & H2s).
  pose proof (hash_mul_spec capacity 8 ltac:(lia) ltac:(lia)) as H3.
  destruct (hash_mul capacity 8) as [hb|?]; simpl; [|split; [done|nia]]. destruct H3 as [-> H3].
  pose proof (hash_add_spec ho (capacity * 8) ltac:(lia) ltac:(lia)) as H4.
  destruct (hash_add _ _) as [t1|?]; simpl; [|split; [done|nia]]. destruct H4 as [-> H4].
  pose proof (hash_align_spec (ho + capacity * 8) (hc_key_align c) ltac:(lia) Hka Hkv) as H5.
  destruct (hash_align _ (hc_key_align c)) as [ko|?]; simpl; [|split; [by apply H5|nia]].
  destruct H5 as (H5 & H5m & H5s).
  pose proof (hash_mul_spec capacity (hc_key_stride c) ltac:(lia) ltac:(lia)) as H6.
  destruct (hash_mul capacity (hc_key_stride c)) as [kb|?]; simpl; [|split; [done|nia]]. destruct H6 as [-> H6].
  pose proof (hash_add_spec ko (capacity * hc_key_stride c) ltac:(lia) ltac:(lia)) as H7.
  destruct (hash_add ko _) as [t2|?]; simpl; [|split; [done|nia]]. destruct H7 as [-> H7].
  pose proof (hash_align_spec (ko + capacity * hc_key_stride c) (hc_value_align c) ltac:(nia) Hva Hvv) as H8.
  destruct (hash_align _ (hc_value_align c)) as [vo|?]; simpl; [|split; [by apply H8|nia]].
  destruct H8 as (H8 & H8m & H8s).
  pose proof (hash_mul_spec capacity (hc_value_stride c) ltac:(lia) ltac:(lia)) as H9.
  destruct (hash_mul capacity (hc_value_stride c)) as [vb|?]; simpl; [|split; [done|nia]]. destruct H9 as [-> H9].
  pose proof (hash_add_spec vo (capacity * hc_value_stride c) ltac:(lia) ltac:(lia)) as H10.
  destruct (hash_add vo _) as [t3|?]; simpl; [|split; [done|nia]]. destruct H10 as [-> H10].
  split; unfold alignof_size_t, sizeof_size_t; simpl; split_and?; lia || done.
Qed.

Lemma max_alignment_ok c :
  config_ok c -> is_size (hash_max_alignment c) /\
  sequence_alignment_valid (hash_max_alignment c) = true.
Proof.
  intros [_ _ _ _ Hk Hv _ _]. unfold hash_max_alignment, alignof_size_t.
  destruct (8 <? hc_key_align c); [destruct (hc_key_align c <? hc_value_align c); done|].
  by destruct (8 <? hc_value_align c).
Qed.

Section Rehash.
Context {V U : Type} `{HV : ObjectTraits V U} `{!TraitLaws V U}.
Implicit Types w : object_world U.
Implicit Types m : hash_map_t V.
Implicit Types s : hash_storage V.

(** * The objects of a slot *)

(** What a move leaves at its source. *)
Definition left_behind (type : option cmeta_type_desc) (v : V) : cell V :=
  match type with None => Live v | Some _ => Moved end.

Lemma hash_destroy_spec type (c : cell V) w :
  supports type CMETA_TRAIT_DESTROY -> c <> Raw \/ type = None ->
  wp (hash_destroy_value type c) (fun c' w' => c' = ended type c /\ delta w w' 0 (- typed type)) w.
Proof.
  intros Hs Hc. destruct type as [t|]; simpl in *.
  - find_trait. eapply wp_bind, wp_reading; [done|].
    eapply wp_mono; [apply destroy_spec; by destruct Hc|]. done.
  - apply wp_ret. split; [done|apply delta_refl].
Qed.

Lemma hash_move_construct_spec type (destination : cell V) v w :
  supports type CMETA_TRAIT_MOVE -> vacant type destination ->
  wp (hash_move_construct type destination (Live v)) (fun r w' =>
    r = (Live v, left_behind type v) /\ delta w w' 0 (typed type)) w.
Proof.
  intros Hs Hv. destruct type as [t|]; simpl in *.
  - rewrite Hv. find_trait. eapply wp_bind, wp_reading; [done|]. apply move_construct_spec.
  - eapply wp_bind, wp_bind, wp_reading; [done|]. apply wp_ret, wp_ret. split; [done|apply delta_refl].
Qed.

Lemma hash_move_destroy_spec type (destination : cell V) v w :
  supports type CMETA_TRAIT_MOVE -> supports type CMETA_TRAIT_DESTROY -> vacant type destination ->
  wp (hash_move_destroy type destination (Live v)) (fun r w' =>
    r = (Live v, ended type (Live v)) /\ delta w w' 0 0) w.
Proof.
  intros Hm Hd Hv. eapply wp_bind_mono; [by apply hash_move_construct_spec|].
  intros r w1 [-> H1]. eapply wp_bind_mono.
  - apply hash_destroy_spec; [done|]. destruct type; [by left|by right].
  - intros c w2 [-> H2]. apply wp_ret. split; [by destruct type|]. solve_delta.
Qed.

Lemma prepare_spec type size stride alignment v w :
  supports type CMETA_TRAIT_COPY -> 0 < stride <= SIZE_MAX -> is_size alignment ->
  sequence_alignment_valid alignment = true ->
  wp (hash_prepare type size stride alignment (Some v)) (fun r w' =>
    (exists block, r = (STL_OK, Some (block, Live v)) /\ delta w w' 1 (typed type)) \/
    (exists status, r = (status, None) /\ no_room status /\ delta w w' 0 0)) w.
Proof.
  intros Hs Hst Ha Hv. eapply wp_bind_mono; [by apply allocate_spec|].
  intros [data|status] w1; [intros [[block ->] H1]|intros [Hn H1]; apply wp_ret; right; by exists status].
  eapply wp_bind, wp_reading; [done|]. destruct type as [t|]; simpl in *.
  - find_trait. eapply wp_bind, wp_reading; [done|]. eapply wp_bind_mono; [apply copy_construct_spec|].
    intros r w2 [[-> H2]|[-> H2]].
    + apply wp_ret. left. exists block. split; [done|]. solve_delta.
    + eapply wp_bind_mono; [apply free_spec|]. intros ? w3 H3. apply wp_ret. right.
      eexists. split; [done|]. split; [by left|]. solve_delta.
  - apply wp_ret. left. by exists block.
Qed.

Lemma discard_spec type block v w :
  supports type CMETA_TRAIT_DESTROY ->
  wp (hash_discard type (Some (block, Live v))) (fun _ w' => delta w w' (-1) (- typed type)) w.
Proof.
  intros Hs. eapply wp_bind_mono; [apply hash_destroy_spec; [done|by left]|]. intros c w1 [_ H1].
  eapply wp_mono; [apply deallocate_spec|]. intros ? w2 H2. solve_delta.
Qed.

(** * Maps *)

Definition map_contents m : list (V * V) :=
  match hm_storage m with Some s => contents s | None => [] end.

Definition owned_blocks m : Z := if is_null (hm_storage m) then 0 else 1.

(** The objects a map of [size] entries keeps alive. *)
Definition entry_objects (c : hash_map_config) : Z := typed (hc_key_type c) + typed (hc_value_type c).
Definition owned_objects m : Z := hm_size m * entry_objects (hm_config m).

(** An initialised map between two operations. *)
Record map_inv m : Prop := {
  mi_initialized : hm_initialized m = true;
  mi_config : config_ok (hm_config m);
  mi_table :
    match hm_storage m with
    | Some s => storage_inv (hm_config m) (hm_capacity m) s /\ hm_tombstones m = tombstones s
    | None => hm_capacity m = 0 /\ hm_tombstones m = 0
    end;
  mi_size : hm_size m = Z.of_nat (length (map_contents m));
}.

(** [m'] is the handle [m] with another table. *)
Definition same_handle m m' : Prop :=
  hm_config m' = hm_config m /\ hm_descriptor m' = hm_descriptor m /\
  hm_generation m' = hm_generation m /\ hm_initialized m' = hm_initialized m.

Lemma same_handle_refl m : same_handle m m.
Proof. done. Qed.

Lemma same_handle_trans m1 m2 m3 : same_handle m1 m2 -> same_handle m2 m3 -> same_handle m1 m3.
Proof. intros (? & ? & ? & ?) (? & ? & ? & ?). split_and!; congruence. Qed.

Lemma map_capacity_cases m :
  map_inv m -> (hm_storage m = None /\ hm_capacity m = 0) \/
  (is_Some (hm_storage m) /\ bucket_count (hm_capacity m)).
Proof.
  intros [_ _ Ht _]. destruct (hm_storage m) as [s|]; [right|left; tauto].
  split; [done|]. apply (si_capacity _ _ _ (proj1 Ht)).
Qed.

Lemma map_size_le m : map_inv m -> 0 <= hm_size m <= hm_capacity m /\ hm_capacity m <= 2 ^ 63.
Proof.
  intros Hm. pose proof (mi_size m Hm) as Hs. pose proof (mi_table m Hm) as Ht.
  unfold map_contents in Hs. destruct (hm_storage m) as [s|].
  - destruct Ht as [Hi _]. pose proof (contents_length _ _ _ Hi).
    pose proof (bucket_count_range _ (si_capacity _ _ _ Hi)). lia.
  - simpl in Hs. destruct Ht as [-> _]. lia.
Qed.

Lemma map_tombstones_le m : map_inv m -> 0 <= hm_tombstones m <= hm_capacity m.
Proof.
  intros Hm. pose proof (mi_table m Hm) as Ht. destruct (hm_storage m) as [s|]; [|lia].
  destruct Ht as [Hi ->]. pose proof (bucket_count_range _ (si_capacity _ _ _ Hi)).
  pose proof (count_if_nonneg (Z.eqb SALTS_HASH_TOMBSTONE) (hs_states s)).
  pose proof (count_if_le (Z.eqb SALTS_HASH_TOMBSTONE) (hs_states s)).
  destruct (si_lengths _ _ _ Hi) as (Hl & _). unfold tombstones. lia.
Qed.

(** The supports of the types, in the form each callback needs. *)
Lemma map_supports m flag :
  config_ok (hm_config m) ->
  flag = CMETA_TRAIT_COPY \/ flag = CMETA_TRAIT_MOVE \/ flag = CMETA_TRAIT_DESTROY ->
  supports (hc_key_type (hm_config m)) flag /\ supports (hc_value_type (hm_config m)) flag.
Proof.
  intros Hc Hf. destruct (config_supports _ Hc) as (Hk & Hv & _).
  split; [eapply supports_sub; [exact Hk|done|]|eapply supports_sub; [exact Hv|done|]];
    by destruct Hf as [->|[->| ->]].
Qed.

(** ** Lookup in a map *)

Lemma map_find_spec m key :
  HashLaws (hm_config m) -> map_inv m ->
  exists r, hash_map_find_slot m key (the_hash (hm_config m) key) = Some r /\
    match r with
    | Some i => exists s k v, hm_storage m = Some s /\ occupied s i k v /\
        the_equal (hm_config m) k key = true
    | None => forall k v, (k, v) ∈ map_contents m -> the_equal (hm_config m) k key = false
    end.
Proof.
  intros Hlaws Hm. pose proof (mi_table m Hm) as Ht. unfold hash_map_find_slot, map_contents.
  destruct (hm_storage m) as [s|] eqn:Hst.
  - destruct Ht as [Hi _]. pose proof (bucket_count_range _ (si_capacity _ _ _ Hi)).
    rewrite (proj2 (Z.eqb_neq _ _)) by lia. simpl.
    destruct (find_slot_spec (hm_config m) (hm_capacity m) s key (mi_config m Hm) Hlaws Hi)
      as (r & -> & Hr). exists r. split; [done|]. destruct r as [i|].
    + destruct Hr as (k & v & Hocc & Heq). by exists s, k, v.
    + intros k v (i & Hocc)%elem_of_contents. by eapply Hr.
  - destruct Ht as [-> _]. exists None. split; [done|]. intros k v Hin. by apply elem_of_nil in Hin.
Qed.

(** * A new table *)

Lemma fresh_inv c capacity block :
  bucket_count capacity ->
  storage_inv c capacity (fresh_storage (V := V) block capacity) /\
  contents (fresh_storage (V := V) block capacity) = [] /\
  tombstones (fresh_storage (V := V) block capacity) = 0.
Proof.
  intros Hb. assert (forall i k v, ~ occupied (fresh_storage (V := V) block capacity) i k v) as Hno.
  { intros i k v (Hs & _). by apply lookup_replicate in Hs as [? _]. }
  split_and!.
  - split; [done| | | |].
    + simpl. by rewrite !length_replicate.
    + intros i Hi. right. exists SALTS_HASH_EMPTY, Raw, Raw. simpl.
      rewrite !lookup_replicate_2 by done. split_and!; [done|by left|done| |done|]; by destruct (_ : option _).
    + intros i k v Hocc. by destruct (Hno i k v).
    + intros i j k v k' v' Hocc. by destruct (Hno i k v).
  - apply omap_none. intros i _. destruct (entry_at _ i) as [[k v]|] eqn:He; [|done].
    apply entry_at_occupied in He. by destruct (Hno i k v).
  - apply count_if_replicate. done.
Qed.

Lemma map_allocate_spec capacity m w :
  config_ok (hm_config m) -> bucket_count capacity ->
  wp (hash_map_allocate capacity m) (fun r w' =>
    (exists block, r = (STL_OK, set_hm_table (Some (fresh_storage block capacity)) (hm_size m)
                                  capacity (hm_tombstones m) m) /\ delta w w' 1 0) \/
    (exists status, r = (status, m) /\ no_room status /\ delta w w' 0 0)) w.
Proof.
  intros Hc Hb. pose proof (layout_spec _ _ Hc Hb) as Hl. unfold hash_map_allocate.
  destruct (hash_map_layout _ capacity) as [l|status].
  - pose proof (bucket_count_range _ Hb). destruct Hl as [_ [Hho _] [Hko _] [Hvo _] [Ht Htm]].
    destruct (max_alignment_ok _ Hc) as [Ha Hav]. destruct Hc as [Hks Hvs _ _ _ _ _ _].
    unfold sizeof_size_t in *.
    eapply wp_bind_mono; [apply allocate_spec; [done|nia|done|done]|].
    intros [data|st] w'; [intros [[block ->] Hd]|intros [Hn Hd]].
    + eapply wp_bind, wp_reading; [done|]. apply wp_ret. left. by exists block.
    + apply wp_ret. right. by exists st.
  - destruct Hl as [-> _]. apply wp_ret. right. eexists. split; [done|].
    split; [by right|apply delta_refl].
Qed.

(** * Entries that move *)

Lemma rehash_insert_spec m k v w :
  HashLaws (hm_config m) -> map_inv m -> hm_size m < hm_capacity m -> hm_tombstones m = 0 ->
  (forall k' v', (k', v') ∈ map_contents m -> the_equal (hm_config m) k' k = false) ->
  let c := hm_config m in
  wp (hash_map_rehash_insert m (the_hash c k) (Live k) (Live v)) (fun r w' =>
    exists m', r = (m', (left_behind (hc_key_type c) k, left_behind (hc_value_type c) v)) /\
      map_inv m' /\ same_handle m m' /\ hm_capacity m' = hm_capacity m /\
      is_Some (hm_storage m') /\ hm_tombstones m' = 0 /\
      map_contents m' ≡ₚ (k, v) :: map_contents m /\ delta w w' 0 (entry_objects c)) w.
Proof.
  intros Hlaws Hm Hlt Hzero Hnew c. pose proof (map_size_le m Hm) as [Hsz Hcap].
  destruct (map_supports m CMETA_TRAIT_MOVE (mi_config m Hm) ltac:(tauto)) as [Hsk Hsv].
  pose proof (mi_table m Hm) as Ht. pose proof (mi_size m Hm) as Hsize. unfold map_contents in *.
  unfold hash_map_rehash_insert, hash_map_insert_slot.
  destruct (hm_storage m) as [s|] eqn:Hst; [|lia]. destruct Ht as [Hi Htomb]. simpl mbind.
  destruct (spare_slot _ _ _ Hi ltac:(lia)) as (j & Hj & Hun).
  destruct (insert_slot_spec c _ _ (the_hash c k) Hi ltac:(eauto)) as (i & -> & Hfree).
  eapply wp_bind, wp_reading; [done|]. eapply wp_bind, wp_reading; [done|].
  pose proof Hfree as [(state & ck & cv & Hs & Hstate & Hk & Hvk & Hv & Hvv) _].
  eapply wp_bind, wp_reading; [exact Hk|].
  eapply wp_bind_mono; [by apply hash_move_construct_spec|]. intros r1 w1 [-> H1].
  eapply wp_bind, wp_reading; [exact Hv|].
  eapply wp_bind_mono; [by apply hash_move_construct_spec|]. intros r2 w2 [-> H2].
  destruct (occupy_spec c _ s i k v Hlaws Hi Hfree) as (s' & Hocc & Hi' & Hcon & Hblock & st & Hst' & Htm).
  { intros j' k' v' Ho. apply (Hnew k' v'), elem_of_contents. by exists j'. }
  eapply wp_bind, wp_reading; [exact Hocc|]. apply wp_ret. eexists. split; [done|].
  rewrite Hs in Hst'. injection Hst' as <-.
  assert (tombstones s' = 0) as Htz.
  { pose proof (count_if_nonneg (Z.eqb SALTS_HASH_TOMBSTONE) (hs_states s')).
    unfold tombstones in *. destruct (_ =? state); simpl in Htm; lia. }
  split_and!; try done; [|unfold entry_objects, c in *; solve_delta].
  split; simpl; [apply Hm|apply Hm|by rewrite Htz|].
  rewrite size_inc_small by (unfold SIZE_MAX; lia). unfold map_contents. simpl. rewrite Hcon, Hsize.
  simpl. lia.
Qed.

(** The entries of the slots from [slot] on. *)
Definition remaining s (slot fuel : nat) : list (V * V) := omap (entry_at s) (seq slot fuel).

Lemma rehash_loop_spec c capacity s fuel slot m w :
  HashLaws c -> storage_inv c capacity s -> (slot + fuel = Z.to_nat capacity)%nat ->
  map_inv m -> hm_config m = c -> is_Some (hm_storage m) -> hm_tombstones m = 0 ->
  hm_size m + Z.of_nat (length (remaining s slot fuel)) <= hm_capacity m ->
  (forall k v k' v' j, (k, v) ∈ map_contents m -> occupied s j k' v' -> (slot <= j)%nat ->
     the_equal c k k' = false) ->
  wp (rehash_loop s m slot fuel) (fun m' w' =>
    map_inv m' /\ same_handle m m' /\ hm_capacity m' = hm_capacity m /\
    is_Some (hm_storage m') /\ hm_tombstones m' = 0 /\
    map_contents m' ≡ₚ remaining s slot fuel ++ map_contents m /\ delta w w' 0 0) w.
Proof.
  intros Hlaws Hi. revert slot m w.
  induction fuel as [|fuel IH]; intros slot m w Hf Hm Hc Hst Htz Hroom Hnew; cbn [rehash_loop].
  { apply wp_ret. split_and!; try done. apply delta_refl. }
  assert (remaining s slot (S fuel) = option_list (entry_at s slot) ++ remaining s (S slot) fuel) as Hrem.
  { unfold remaining. simpl seq. csimpl. by destruct (entry_at s slot). }
  assert (slot < Z.to_nat capacity)%nat as Hlt by lia.
  destruct (si_slots _ _ _ Hi slot Hlt) as [(k & v & Hocc & Hh)|Hun].
  - pose proof Hocc as (Hs & Hk & Hv).
    rewrite (proj2 (entry_at_occupied s slot k v) Hocc) in Hrem. simpl in Hrem. rewrite Hrem in *.
    simpl in Hroom. rewrite Hc.
    eapply wp_bind, wp_reading; [exact Hs|]. simpl.
    eapply wp_bind, wp_reading; [by rewrite Hh|].
    eapply wp_bind, wp_reading; [exact Hk|]. eapply wp_bind, wp_reading; [exact Hv|].
    eapply wp_bind_mono.
    { subst c. apply rehash_insert_spec; [done|done|lia|done|].
      intros k' v' Hin. by eapply Hnew. }
    rewrite Hc. intros r w1 (m1 & -> & Hm1 & Hsame & Hcap & Hst1 & Htz1 & Hcon & H1).
    destruct (map_supports m CMETA_TRAIT_DESTROY (mi_config m Hm) ltac:(tauto)) as [Hsk Hsv].
    rewrite Hc in Hsk, Hsv.
    eapply wp_bind_mono; [apply hash_destroy_spec; [done|by destruct (hc_key_type c); [left|right]]|].
    intros ? w2 [_ H2].
    eapply wp_bind_mono; [apply hash_destroy_spec; [done|by destruct (hc_value_type c); [left|right]]|].
    intros ? w3 [_ H3].
    pose proof Hsame as (Hcfg & Hdesc & Hgen & Hini).
    eapply wp_mono; [apply (IH (S slot) m1); try done|].
    + lia.
    + by rewrite Hcfg.
    + pose proof (mi_size _ Hm1) as E1. rewrite Hcon in E1. simpl in E1.
      pose proof (mi_size _ Hm). lia.
    + intros k1 v1 k2 v2 j Hin Hj Hge. rewrite Hcon in Hin.
      apply elem_of_cons in Hin as [[= -> ->]|Hin]; [|apply (Hnew k1 v1 k2 v2 j); [done|done|lia]].
      destruct (the_equal c k k2) eqn:He; [|done].
      assert (slot = j) by (by eapply si_unique). lia.
    + intros m' w' (Hm' & Hs' & Hcap' & Hst' & Htz' & Hcon' & H4).
      split_and!; [done|by eapply same_handle_trans| |done|done| |].
      * by rewrite Hcap'.
      * rewrite Hcon', Hcon. simpl. by rewrite Permutation_middle.
      * unfold entry_objects in *. solve_delta.
  - rewrite (unoccupied_entry _ _ _ Hun) in Hrem. simpl in Hrem. rewrite Hrem in *.
    destruct Hun as (state & ? & ? & Hs & Hstate & _).
    eapply wp_bind, wp_reading; [exact Hs|].
    replace (state =? SALTS_HASH_OCCUPIED) with false by (by destruct Hstate as [->| ->]). simpl.
    apply IH; try done; [lia|]. intros k v k' v' j Hin Hj Hge. apply (Hnew k v k' v' j); [done|done|lia].
Qed.

(** What a rehash or a reservation leaves: the same entries in another table. *)
Record moved_to m m' : Prop := {
  mt_inv : map_inv m';
  mt_handle : same_handle m m';
  mt_contents : map_contents m' ≡ₚ map_contents m;
  mt_size : hm_size m' = hm_size m;
}.

Lemma rehash_spec m capacity w :
  HashLaws (hm_config m) -> map_inv m -> bucket_count capacity -> hm_capacity m <= capacity ->
  wp (hash_map_rehash m capacity) (fun r w' =>
    (exists m', r = (STL_OK, m') /\ moved_to m m' /\ hm_capacity m' = capacity /\
       is_Some (hm_storage m') /\ hm_tombstones m' = 0 /\
       delta w w' (owned_blocks m' - owned_blocks m) 0) \/
    (exists status, r = (status, m) /\ no_room status /\ delta w w' 0 0)) w.
Proof.
  intros Hlaws Hm Hb Hle. pose proof (map_size_le m Hm) as [Hsz Hcap].
  pose proof (bucket_count_range _ Hb) as Hrange.
  eapply wp_bind_mono; [by apply (map_allocate_spec capacity (set_hm_table None 0 0 0 m)); [apply Hm|]|].
  intros r w1 [(block & -> & H1)|(status & -> & Hn & H1)].
  2: { rewrite bool_decide_false by (by destruct Hn as [->| ->]).
       apply wp_ret. right. by exists status. }
  rewrite bool_decide_true by done. cbn [negb].
  destruct (fresh_inv (hm_config m) capacity block Hb) as (Hfi & Hfc & Hft).
  set (next := set_hm_table _ _ _ _ _).
  assert (map_inv next) as Hnext.
  { split; simpl; [apply Hm|apply Hm|by rewrite Hft|]. unfold map_contents. simpl. by rewrite Hfc. }
  assert (same_handle m next) as Hsame by done.
  assert (map_contents next = []) as Hempty by (unfold map_contents; simpl; done).
  assert (exists Q : hash_map_t V -> object_world U -> Prop,
    wp (match hm_storage m with
        | None => reading (if hm_capacity m =? 0 then Some next else None)
        | Some s => rehash_loop s next 0 (Z.to_nat (hm_capacity m))
        end) Q w1 /\
    forall m' w', Q m' w' -> map_inv m' /\ same_handle m m' /\ hm_capacity m' = capacity /\
      is_Some (hm_storage m') /\ hm_tombstones m' = 0 /\ map_contents m' ≡ₚ map_contents m /\
      delta w1 w' 0 0) as (Q & Hwp & HQ).
  { pose proof (mi_table m Hm) as Ht. pose proof (mi_size m Hm) as Hsize.
    unfold map_contents in Hsize |- *. destruct (hm_storage m) as [s|].
    - destruct Ht as [Hi _]. destruct (si_lengths _ _ _ Hi) as (Hl & _).
      assert (remaining s 0 (Z.to_nat (hm_capacity m)) = contents s) as Hrem
        by (unfold remaining, contents; by rewrite Hl).
      eexists. split.
      + apply (rehash_loop_spec (hm_config m) (hm_capacity m) s); try done.
        * rewrite Hrem. simpl. lia.
        * intros k v k' v' j Hin. rewrite Hempty in Hin. by apply elem_of_nil in Hin.
      + intros m' w' (? & ? & Hcap' & ? & ? & Hcon & ?). rewrite Hrem, Hempty, app_nil_r in Hcon.
        split_and!; try done.
    - destruct Ht as [-> _]. exists (fun m' w' => m' = next /\ w' = w1). split; [by eapply wp_reading|].
      intros m' w' [-> ->]. split_and!; try done; [simpl; by rewrite Hfc|apply delta_refl]. }
  eapply wp_bind_mono; [exact Hwp|]. intros m' w2 Hq.
  destruct (HQ _ _ Hq) as (Hm' & Hs' & Hc' & Hst' & Htz' & Hcon' & H2).
  assert (moved_to m (set_hm_generation (hm_generation m) m')) as Hmoved.
  { destruct Hs' as (Hcfg & Hdesc & Hgen & Hini). split; [|split_and!; done|done|].
    - destruct Hm' as [? ? ? ?]. by split.
    - simpl. rewrite (mi_size _ Hm'), Hcon'. symmetry. apply mi_size, Hm. }
  assert (owned_blocks m' = 1) as Hown' by (unfold owned_blocks; by destruct Hst' as [? ->]).
  destruct (hm_storage m) as [s|] eqn:Hst; simpl block_of; cbn [sequence_deallocate].
  - eapply wp_bind_mono; [apply free_spec|]. intros ? w3 H3. apply wp_ret. left. eexists.
    split; [done|]. split_and!; try done. unfold owned_blocks in *. simpl. rewrite Hown', Hst. cbn [is_null]. solve_delta.
  - eapply wp_bind, wp_ret, wp_ret. left. eexists. split; [done|]. split_and!; try done.
    unfold owned_blocks in *. simpl. rewrite Hown', Hst. cbn [is_null]. solve_delta.
Qed.

(** ** Room for one more entry *)

Lemma ensure_insert_spec m w :
  HashLaws (hm_config m) -> map_inv m ->
  wp (hash_map_ensure_insert m) (fun r w' =>
    (exists m', r = (STL_OK, m') /\ moved_to m m' /\ hm_size m' < hm_capacity m' /\
       delta w w' (owned_blocks m' - owned_blocks m) 0) \/
    (exists status, r = (status, m) /\ no_room status /\ delta w w' 0 0)) w.
Proof.
  intros Hlaws Hm. pose proof (map_size_le m Hm) as [Hsz Hcap]. unfold hash_map_ensure_insert.
  rewrite (proj2 (Z.eqb_neq (hm_size m) SIZE_MAX)) by (unfold SIZE_MAX; lia).
  assert (u64 (hm_size m + 1) = hm_size m + 1) as -> by (apply Z.mod_small; lia).
  pose proof (buckets_spec (hm_size m + 1) ltac:(unfold is_size, SIZE_MAX; lia)) as Hb.
  pose proof (slots_needed_lt (hm_size m + 1) ltac:(lia)) as Hneed.
  destruct (hash_buckets_for_entries _) as [b|status].
  2: { destruct Hb as [-> _]. apply wp_ret. right. eexists. split; [done|].
       split; [by right|apply delta_refl]. }
  destruct Hb as [[? _]|(_ & Hb & Hle & _)]; [lia|].
  destruct (_ || _) eqn:Hre.
  - eapply wp_mono; [apply (rehash_spec m (if b <? hm_capacity m then hm_capacity m else b)); try done|].
    + destruct (b <? hm_capacity m) eqn:Hlt; [|done]. destruct_bools.
      destruct (map_capacity_cases m Hm) as [[_ H0]|[_ Hbc]]; [|done].
      pose proof (bucket_count_range b Hb). lia.
    + destruct (b <? hm_capacity m) eqn:Hlt; destruct_bools; lia.
    + intros r w' [(m' & -> & Hmv & Hc & _ & _ & Hd)|Hfail]; [left|by right].
      exists m'. split_and!; try done. rewrite Hc, (mt_size _ _ Hmv).
      destruct (b <? hm_capacity m) eqn:Hlt; destruct_bools; lia.
  - apply wp_ret. left. exists m. split; [done|]. apply orb_false_iff in Hre as [Hre _]. destruct_bools.
    split_and!; [by split|lia|]. rewrite Z.sub_diag. apply delta_refl.
Qed.

End Rehash.
