(* ===== verification/CstlHashMapOps.v ===== *)
(** What each operation of a hash map does to an initialised map: the result, the
    entries in terms of the finite map, and what it owns.

    Insertion into a hash map in any of its states, reservation of room, and the
    construction of a map from rows, in terms of the finite map. *)

From S2P Require Import Prelude.
From S2P Require Import CMetaType.
From S2P Require Import CstlSupport.
From S2P Require Import CstlObjects.
From S2P Require Import CstlHashMap.
From S2P Require Import CstlHashMapInvariant.
From S2P Require Import CstlHashMapRehash.

Section Ops.
Context {V U : Type} `{HV : ObjectTraits V U} `{!TraitLaws V U}.
Context (container_desc : addr).
Implicit Types w : object_world U.
Implicit Types m : hash_map_t V.
Implicit Types s : hash_storage V.

Lemma map_valid m : map_inv m -> hash_map_valid (Some m) = true.
Proof.
  intros [Hi [_ _ Hk Hv _ _ _ _] _ _]. unfold hash_map_valid. rewrite Hi.
  rewrite (proj2 (Z.eqb_neq (hc_key_size _) 0)), (proj2 (Z.eqb_neq (hc_value_size _) 0)) by lia. done.
Qed.

Lemma map_distinct m : HashLaws (hm_config m) -> map_inv m -> distinct (hm_config m) (map_contents m).
Proof.
  intros Hl Hm. pose proof (mi_table m Hm) as Ht. unfold map_contents.
  destruct (hm_storage m); [|done]. by eapply contents_distinct, Ht.
Qed.

(** * Ending all entries *)

(** The place of an entry that was destroyed. *)
Definition cleared c s (j : nat) : Prop :=
  exists key value, hs_keys s !! j = Some key /\ vacant (hc_key_type c) key /\
    hs_values s !! j = Some value /\ vacant (hc_value_type c) value.

Lemma destroy_slots_spec c s fuel slot w :
  supports (hc_key_type c) CMETA_TRAIT_DESTROY -> supports (hc_value_type c) CMETA_TRAIT_DESTROY ->
  (forall j, (slot <= j < slot + fuel)%nat -> slot_ok c s j) ->
  (forall j, (j < slot)%nat -> cleared c s j) ->
  wp (destroy_slots c s slot fuel) (fun s' w' =>
    hs_block s' = hs_block s /\ hs_states s' = hs_states s /\ hs_hashes s' = hs_hashes s /\
    length (hs_keys s') = length (hs_keys s) /\ length (hs_values s') = length (hs_values s) /\
    (forall j, (j < slot + fuel)%nat -> cleared c s' j) /\
    delta w w' 0 (- Z.of_nat (length (remaining s slot fuel)) * entry_objects c)) w.
Proof.
  intros Hsk Hsv. revert s slot w. induction fuel as [|fuel IH]; intros s slot w Hok Hcl; cbn [destroy_slots].
  { apply wp_ret. split_and!; try done; [|apply delta_refl]. intros j Hj. apply Hcl. lia. }
  assert (remaining s slot (S fuel) = option_list (entry_at s slot) ++ remaining s (S slot) fuel) as ->.
  { unfold remaining. simpl seq. csimpl. by destruct (entry_at s slot). }
  destruct (Hok slot ltac:(lia)) as [(k & v & Hocc & Hh)|Hun].
  - pose proof Hocc as (Hs & Hk & Hv). rewrite (proj2 (entry_at_occupied s slot k v) Hocc).
    eapply wp_bind, wp_reading; [exact Hs|]. simpl.
    eapply wp_bind, wp_reading; [exact Hk|].
    eapply wp_bind_mono; [apply hash_destroy_spec; [done|by left]|]. intros key w1 [-> H1].
    eapply wp_bind, wp_reading; [exact Hv|].
    eapply wp_bind_mono; [apply hash_destroy_spec; [done|by left]|]. intros value w2 [-> H2].
    pose proof (lookup_lt_Some _ _ _ Hk) as Hlk. pose proof (lookup_lt_Some _ _ _ Hv) as Hlv.
    set (s1 := mk_hash_storage _ _ _ _ _).
    assert (forall j, j <> slot -> hs_keys s1 !! j = hs_keys s !! j /\ hs_values s1 !! j = hs_values s !! j)
      as Hsame by (intros j Hj; simpl; by rewrite !list_lookup_insert_ne by done).
    assert (remaining s1 (S slot) fuel = remaining s (S slot) fuel) as Hrem.
    { apply omap_ext. intros j Hj%elem_of_seq. unfold entry_at.
      destruct (Hsame j ltac:(lia)) as [-> ->]. done. }
    eapply wp_mono; [apply (IH s1 (S slot))|].
    + intros j Hj. unfold slot_ok, unoccupied, occupied.
      destruct (Hsame j ltac:(lia)) as [-> ->]. apply (Hok j). lia.
    + intros j Hj. unfold cleared. destruct (decide (j = slot)) as [->|Hne].
      * do 2 eexists. simpl. rewrite !list_lookup_insert_eq by done.
        split_and!; [done|apply ended_vacant|done|apply ended_vacant].
      * destruct (Hsame j Hne) as [-> ->]. apply Hcl. lia.
    + intros s' w' (? & ? & ? & Hl1 & Hl2 & Hcl' & H3). simpl in Hl1, Hl2.
      rewrite length_insert in Hl1, Hl2. split_and!; try done; [intros j Hj; apply Hcl'; lia|].
      rewrite Hrem in H3. unfold entry_objects in *. simpl length.
      destruct H1, H2, H3. split; [lia|]. rewrite Nat2Z.inj_succ. lia.
  - rewrite (unoccupied_entry _ _ _ Hun). simpl option_list.
    destruct Hun as (state & key & value & Hs & Hstate & Hk & Hvk & Hv & Hvv).
    eapply wp_bind, wp_reading; [exact Hs|].
    replace (state =? SALTS_HASH_OCCUPIED) with false by (by destruct Hstate as [->| ->]). simpl.
    eapply wp_mono; [apply (IH s (S slot))|].
    + intros j Hj. apply Hok. lia.
    + intros j Hj. destruct (decide (j = slot)) as [->|]; [by exists key, value|]. apply Hcl. lia.
    + intros s' w' (? & ? & ? & ? & ? & Hcl' & H3). split_and!; try done. intros j Hj. apply Hcl'. lia.
Qed.

Lemma destroy_entries_spec m w :
  map_inv m ->
  wp (destroy_entries m) (fun m' w' =>
    hm_size m' = hm_size m /\ hm_capacity m' = hm_capacity m /\ hm_tombstones m' = hm_tombstones m /\
    same_handle m m' /\
    match hm_storage m, hm_storage m' with
    | None, None => True
    | Some s, Some s' => hs_block s' = hs_block s /\ hs_states s' = hs_states s /\
        length (hs_hashes s') = Z.to_nat (hm_capacity m) /\
        length (hs_keys s') = Z.to_nat (hm_capacity m) /\
        length (hs_values s') = Z.to_nat (hm_capacity m) /\
        forall j, (j < Z.to_nat (hm_capacity m))%nat -> cleared (hm_config m) s' j
    | _, _ => False
    end /\ delta w w' 0 (- owned_objects m)) w.
Proof.
  intros Hm. pose proof (mi_table m Hm) as Ht. pose proof (mi_size m Hm) as Hsize.
  unfold destroy_entries, map_contents, owned_objects in *. destruct (hm_storage m) as [s|] eqn:Hst.
  - destruct Ht as [Hi _]. destruct (si_lengths _ _ _ Hi) as (Ls & Lh & Lk & Lv).
    destruct (map_supports m CMETA_TRAIT_DESTROY (mi_config m Hm) ltac:(tauto)) as [Hsk Hsv].
    eapply wp_bind_mono; [apply destroy_slots_spec; [done|done| |]|].
    + intros j Hj. apply (si_slots _ _ _ Hi). lia.
    + intros j Hj. lia.
    + intros s' w' (Hb & Hs & Hh & Hk & Hv & Hcl & Hd). apply wp_ret. simpl.
      rewrite Hh, Hk, Hv. split_and!; try done.
      assert (remaining s 0 (Z.to_nat (hm_capacity m)) = contents s) as Hrem
        by (unfold remaining, contents; by rewrite Ls).
      rewrite Hrem in Hd. rewrite Hsize. replace (- (_ * _)) with (- Z.of_nat (length (contents s)) * entry_objects (hm_config m)) by lia. done.
  - destruct Ht as [Hc _]. simpl in Hsize. eapply wp_reading; [by rewrite Hc|]. rewrite Hst, Hsize.
    split_and!; try done. apply delta_refl.
Qed.

Lemma raw_destroy_spec m w :
  map_inv m ->
  wp (hash_map_raw_destroy_storage (Some m)) (fun r w' =>
    r = Some (zero_map (size_inc (hm_generation m))) /\
    delta w w' (- owned_blocks m) (- owned_objects m)) w.
Proof.
  intros Hm. unfold hash_map_raw_destroy_storage. rewrite (mi_initialized m Hm).
  eapply wp_bind_mono; [by apply destroy_entries_spec|].
  intros m' w1 (_ & _ & _ & (_ & _ & Hg & _) & Hst & H1). rewrite Hg. unfold owned_blocks.
  destruct (hm_storage m), (hm_storage m'); [|done|done|]; simpl block_of; cbn [sequence_deallocate is_null].
  - eapply wp_bind_mono; [apply free_spec|]. intros ? w2 H2. apply wp_ret. split; [done|]. solve_delta.
  - eapply wp_bind, wp_ret, wp_ret. split; [done|]. solve_delta.
Qed.

(** A table without entries whose places are vacant. *)
Lemma cleared_inv c capacity s :
  bucket_count capacity -> length (hs_states s) = Z.to_nat capacity ->
  length (hs_hashes s) = Z.to_nat capacity -> length (hs_keys s) = Z.to_nat capacity ->
  length (hs_values s) = Z.to_nat capacity ->
  (forall j, (j < Z.to_nat capacity)%nat -> cleared c s j) ->
  (forall j, (j < Z.to_nat capacity)%nat -> exists state, hs_states s !! j = Some state /\
     (state = SALTS_HASH_EMPTY \/ state = SALTS_HASH_TOMBSTONE)) ->
  storage_inv c capacity s /\ contents s = [].
Proof.
  intros Hb Ls Lh Lk Lv Hcl Hfree.
  assert (forall i k v, ~ occupied s i k v) as Hno.
  { intros i k v (Hs & _). pose proof (lookup_lt_Some _ _ _ Hs).
    destruct (Hfree i ltac:(lia)) as (state & Hst & Hor). rewrite Hs in Hst.
    injection Hst as <-. by destruct Hor. }
  split.
  - split; [done|done| | |].
    + intros i Hi. right. destruct (Hcl i Hi) as (key & value & ? & ? & ? & ?).
      destruct (Hfree i Hi) as (state & ? & ?). by exists state, key, value.
    + intros i k v Hocc. by destruct (Hno i k v).
    + intros i j k v k' v' Hocc. by destruct (Hno i k v).
  - apply omap_none. intros i _. destruct (entry_at s i) as [[k v]|] eqn:He; [|done].
    apply entry_at_occupied in He. by destruct (Hno i k v).
Qed.

Lemma no_entries_free c capacity s :
  storage_inv c capacity s -> contents s = [] ->
  forall j, (j < Z.to_nat capacity)%nat -> exists state, hs_states s !! j = Some state /\
    (state = SALTS_HASH_EMPTY \/ state = SALTS_HASH_TOMBSTONE).
Proof.
  intros Hi Hnil j Hj. destruct (si_slots _ _ _ Hi j Hj) as [(k & v & Hocc & _)|Hun].
  - assert ((k, v) ∈ contents s) as Hin by (apply elem_of_contents; by exists j).
    rewrite Hnil in Hin. by apply elem_of_nil in Hin.
  - destruct Hun as (state & ? & ? & Hs & Hor & _). by exists state.
Qed.

(** [hash_map_clear] empties the map and keeps its table. *)
Lemma clear_spec m w :
  map_inv m ->
  wp (hash_map_clear (Some m)) (fun r w' =>
    exists m', r = Some m' /\ map_inv m' /\ map_contents m' = [] /\
      hm_config m' = hm_config m /\ hm_capacity m' = hm_capacity m /\
      delta w w' (owned_blocks m' - owned_blocks m) (owned_objects m' - owned_objects m)) w.
Proof.
  intros Hm. pose proof (mi_table m Hm) as Ht. pose proof (mi_size m Hm) as Hsize.
  pose proof (map_size_le m Hm) as [Hsz Hcap].
  unfold hash_map_clear. rewrite (map_valid m Hm). simpl negb.
  eapply wp_bind_mono; [by apply destroy_entries_spec|].
  intros m1 w1 (Hs1 & Hc1 & Ht1 & (Hcfg & Hdesc & Hgen & Hini) & Hst & H1). rewrite Hs1.
  unfold owned_blocks, owned_objects in *.
  destruct (hm_size m =? 0) eqn:H0; destruct_bools.
  - apply wp_ret. exists m1. split; [done|].
    assert (map_contents m = []) as Hnil by (apply length_zero_iff_nil; lia).
    assert (map_inv m1 /\ map_contents m1 = []) as [Hm1 Hnil1].
    { unfold map_contents in *. destruct (hm_storage m) as [s|], (hm_storage m1) as [s1|] eqn:Hst1; try done.
      - destruct Ht as [Hi Htomb], Hst as (_ & Hstates & Lh & Lk & Lv & Hcl).
        destruct (cleared_inv (hm_config m) (hm_capacity m) s1) as [Hi1 Hnil1]; try done;
          [apply Hi|by rewrite Hstates; apply (si_lengths _ _ _ Hi)|rewrite Hstates; by eapply no_entries_free|].
        split; [|done]. split; unfold map_contents; rewrite ?Hst1, ?Hcfg, ?Hc1, ?Hini, ?Hs1, ?Hnil1;
          [apply Hm|apply Hm| |simpl; lia].
        split; [done|]. unfold tombstones in *. by rewrite Ht1, Hstates.
      - split; [|done]. split; unfold map_contents; rewrite ?Hst1, ?Hcfg, ?Hc1, ?Hini, ?Hs1, ?Ht1;
          [apply Hm|apply Hm|done|simpl; lia]. }
    split_and!; try done. rewrite Hs1, Hcfg, H0 in *.
    destruct (hm_storage m), (hm_storage m1); try done; simpl; solve_delta.
  - unfold map_contents in Hsize. destruct (hm_storage m) as [s|]; [|simpl in Hsize; lia].
    destruct (hm_storage m1) as [s1|] eqn:Hst1; [|done].
    destruct Ht as [Hi Htomb], Hst as (_ & Hstates & Lh & Lk & Lv & Hcl).
    destruct (si_lengths _ _ _ Hi) as (Ls & _).
    eapply wp_bind, wp_reading; [done|]. rewrite Hc1.
    eapply wp_bind, wp_reading; [unfold fill; by rewrite Hstates, Ls, Nat.leb_refl|].
    rewrite drop_ge, app_nil_r by lia. apply wp_ret. eexists. split; [done|].
    set (s2 := mk_hash_storage _ _ _ _ _).
    assert (forall j, (j < Z.to_nat (hm_capacity m))%nat -> hs_states s2 !! j = Some SALTS_HASH_EMPTY) as Hempty
      by (intros j Hj; simpl; by apply lookup_replicate_2).
    destruct (cleared_inv (hm_config m) (hm_capacity m) s2) as [Hi2 Hnil2]; try done;
      [apply Hi|simpl; by rewrite length_replicate|intros j Hj; rewrite Hempty by done; by eexists; split; [|left]|].
    split_and!; try done.
    split; simpl; rewrite ?Hcfg, ?Hini; [apply Hm|apply Hm| |unfold map_contents; simpl; by rewrite Hnil2].
    split; [done|]. unfold tombstones. simpl. symmetry. by apply count_if_replicate.
Qed.

(** * Lookup *)

(** What the search for a key finds, in terms of the finite map. *)
Lemma map_find_assoc m key :
  HashLaws (hm_config m) -> map_inv m ->
  exists r, hash_map_find_slot m key (the_hash (hm_config m) key) = Some r /\
    match r with
    | Some i => exists s k v, hm_storage m = Some s /\ occupied s i k v /\
        the_equal (hm_config m) k key = true /\
        assoc_get (hm_config m) key (map_contents m) = Some v
    | None => assoc_get (hm_config m) key (map_contents m) = None
    end.
Proof.
  intros Hl Hm. destruct (map_find_spec m key Hl Hm) as (r & Hr & Hspec). exists r. split; [done|].
  destruct r as [i|].
  - destruct Hspec as (s & k & v & Hst & Hocc & Heq). exists s, k, v. split_and!; try done.
    apply (assoc_get_Some _ Hl); [by apply map_distinct|]. exists k. split; [|done].
    unfold map_contents. rewrite Hst. apply elem_of_contents. by exists i.
  - by apply assoc_get_None, assoc_has_false.
Qed.

Lemma get_spec m key :
  HashLaws (hm_config m) -> map_inv m ->
  exists r, hash_map_get (Some m) (Some key) = Some r /\
    match r with
    | Some i => exists s v, hm_storage m = Some s /\ hs_values s !! i = Some (Live v) /\
        assoc_get (hm_config m) key (map_contents m) = Some v
    | None => assoc_get (hm_config m) key (map_contents m) = None
    end.
Proof.
  intros Hl Hm. destruct (map_find_assoc m key Hl Hm) as (r & Hr & Hspec). exists r.
  unfold hash_map_get. rewrite (map_valid m Hm). simpl negb. cbn iota.
  rewrite (hash_defined _ key (mi_config m Hm)). simpl. split; [done|].
  destruct r as [i|]; [|done]. destruct Hspec as (s & k & v & Hst & (_ & _ & Hv) & _ & Hg).
  by exists s, v.
Qed.

Lemma contains_spec m key :
  HashLaws (hm_config m) -> map_inv m ->
  hash_map_contains (Some m) (Some key) =
    Some (assoc_has (hm_config m) key (map_contents m)).
Proof.
  intros Hl Hm. destruct (get_spec m key Hl Hm) as (r & Hr & Hspec).
  unfold hash_map_contains, hash_map_get_const. rewrite Hr. simpl. f_equal.
  destruct r as [i|]; simpl.
  - destruct Hspec as (s & v & _ & _ & Hg). destruct (assoc_has _ key _) eqn:Hh; [done|].
    apply assoc_get_None in Hh. congruence.
  - symmetry. by apply assoc_get_None.
Qed.

(** * Removal *)

Lemma remove_spec m key (want : bool) w :
  HashLaws (hm_config m) -> map_inv m ->
  let c := hm_config m in
  wp (hash_map_remove (Some m) (Some key) want) (fun r w' =>
    match assoc_get c key (map_contents m) with
    | None => r = (STL_NOT_FOUND, Some m, Raw) /\ delta w w' 0 0
    | Some v => exists m', r = (STL_OK, Some m', if want then Live v else Raw) /\ map_inv m' /\
        hm_config m' = c /\ map_contents m' ≡ₚ assoc_remove c key (map_contents m) /\
        delta w w' (owned_blocks m' - owned_blocks m)
          (owned_objects m' - owned_objects m + (if want then typed (hc_value_type c) else 0))
    end) w.
Proof.
  intros Hl Hm. cbn zeta. destruct (map_find_assoc m key Hl Hm) as (r & Hr & Hspec).
  destruct (map_supports m CMETA_TRAIT_DESTROY (mi_config m Hm) ltac:(tauto)) as [Hdk Hdv].
  destruct (map_supports m CMETA_TRAIT_MOVE (mi_config m Hm) ltac:(tauto)) as [_ Hmv].
  unfold hash_map_remove. rewrite (map_valid m Hm). simpl negb. cbn iota.
  eapply wp_bind, wp_reading; [by apply hash_defined, Hm|].
  eapply wp_bind, wp_reading; [exact Hr|].
  destruct r as [i|].
  2: { rewrite Hspec. apply wp_ret. split; [done|apply delta_refl]. }
  destruct Hspec as (s & k & v & Hst & Hocc & Heq & Hget). rewrite Hget.
  pose proof Hocc as (_ & Hk & Hv). pose proof (mi_table m Hm) as Ht. pose proof (mi_size m Hm) as Hsize.
  pose proof (map_distinct m Hl Hm) as Hd. pose proof (map_size_le m Hm) as [Hsz Hcap].
  pose proof (map_tombstones_le m Hm) as Htle.
  unfold owned_blocks, owned_objects, map_contents in *. rewrite Hst in *. destruct Ht as [Hi Htomb].
  eapply wp_bind, wp_reading; [done|]. eapply wp_bind, wp_reading; [exact Hv|].
  eapply wp_bind_mono with (R := fun r w' => r = (if want then Live v else Raw, ended (hc_value_type (hm_config m)) (Live v)) /\
    delta w w' 0 (if want then 0 else - typed (hc_value_type (hm_config m)))).
  { destruct want.
    - apply hash_move_destroy_spec; [done|done|by destruct (hc_value_type (hm_config m))].
    - eapply wp_bind_mono; [apply hash_destroy_spec; [done|by left]|]. intros x w1 [-> H1].
      by apply wp_ret. }
  intros ? w1 [-> H1]. eapply wp_bind, wp_reading; [exact Hk|].
  eapply wp_bind_mono; [apply hash_destroy_spec; [done|by left]|]. intros x w2 [-> H2].
  destruct (vacate_spec (hm_config m) _ s i k v (ended (hc_key_type (hm_config m)) (Live k)) (ended (hc_value_type (hm_config m)) (Live v))
    Hi Hocc ltac:(apply ended_vacant) ltac:(apply ended_vacant)) as (Hi' & Hcon & Htm).
  apply wp_ret. eexists. split; [done|]. simpl.
  set (s' := mk_hash_storage _ _ _ _ _) in *.
  assert (0 < hm_size m) by (rewrite Hsize, Hcon; simpl; lia).
  assert (hm_tombstones m < SIZE_MAX) by (unfold SIZE_MAX; lia).
  assert (Z.of_nat (length (contents s')) = hm_size m - 1) as Hlen by (rewrite Hsize, Hcon; simpl; lia).
  rewrite size_dec_small by (unfold SIZE_MAX; lia). rewrite size_inc_small by lia.
  split_and!.
  - split; simpl; [apply Hm|apply Hm|split; [done|lia]|unfold map_contents; simpl; lia].
  - done.
  - pose proof (distinct_perm (hm_config m) Hl _ _ Hcon Hd) as Hd'.
    rewrite (assoc_remove_proper (hm_config m) key _ _ Hcon). by rewrite (assoc_remove_takes (hm_config m) Hl _ _ _ _ Hd' Heq).
  - unfold entry_objects. destruct want; solve_delta.
Qed.

(** * Insertion *)

Lemma rollback_spec m zero (materialized : bool) w :
  map_inv m -> (materialized = true -> hm_storage m = None) ->
  wp (hash_map_rollback_materialization m zero materialized) (fun r w' =>
    r = (if materialized then zero else m) /\ delta w w' 0 0) w.
Proof.
  intros Hm Hfresh. unfold hash_map_rollback_materialization. destruct materialized; simpl.
  - eapply wp_bind_mono; [by apply raw_destroy_spec|]. intros r w' [_ Hd]. apply wp_ret.
    split; [done|]. pose proof (mi_size m Hm) as Hsize.
    unfold owned_blocks, owned_objects, map_contents in *. rewrite Hfresh in * by done.
    simpl in Hsize. rewrite Hsize in Hd. simpl in Hd. solve_delta.
  - apply wp_ret. split; [done|apply delta_refl].
Qed.

Lemma map_fail_spec status m zero (materialized : bool) w :
  map_inv m -> (materialized = true -> hm_storage m = None) ->
  wp (fail_and_rollback status m zero materialized) (fun r w' =>
    r = (status, Some (if materialized then zero else m)) /\ delta w w' 0 0) w.
Proof.
  intros Hm Hfresh. eapply wp_bind_mono; [by apply rollback_spec|]. intros r w' [-> Hd]. by apply wp_ret.
Qed.

(** What a change of the entries does to what the map owns. *)
Definition owns_change m m' w w' : Prop :=
  delta w w' (owned_blocks m' - owned_blocks m) (owned_objects m' - owned_objects m).

Lemma replace_spec m i s k old v zero (materialized : bool) w :
  HashLaws (hm_config m) -> map_inv m -> (materialized = true -> hm_storage m = None) ->
  hm_storage m = Some s -> occupied s i k old ->
  wp (replace_value m i (Some v) zero materialized) (fun r w' =>
    (exists m', r = (STL_OK, Some m') /\ map_inv m' /\ hm_config m' = hm_config m /\
       (exists l, map_contents m ≡ₚ (k, old) :: l /\ map_contents m' ≡ₚ (k, v) :: l) /\
       owns_change m m' w w') \/
    (exists status, r = (status, Some (if materialized then zero else m)) /\ no_room status /\
       delta w w' 0 0)) w.
Proof.
  intros Hl Hm Hfresh Hst Hocc. pose proof (mi_config m Hm) as Hc.
  destruct (map_supports m CMETA_TRAIT_COPY Hc ltac:(tauto)) as [_ Hcopy].
  destruct (map_supports m CMETA_TRAIT_MOVE Hc ltac:(tauto)) as [_ Hmove].
  destruct (map_supports m CMETA_TRAIT_DESTROY Hc ltac:(tauto)) as [_ Hdestroy].
  unfold replace_value.
  eapply wp_bind_mono; [by apply prepare_spec; [..|apply Hc|apply Hc]; [|apply Hc]|].
  intros r w1 [(block & -> & H1)|(status & -> & Hn & H1)].
  2: { eapply wp_mono; [by apply map_fail_spec|]. intros r w2 [-> H2]. right. exists status.
       split_and!; [done|done|solve_delta]. }
  pose proof Hocc as (_ & _ & Hv).
  eapply wp_bind, wp_reading; [exact Hst|]. eapply wp_bind, wp_reading; [exact Hv|].
  eapply wp_bind_mono; [apply hash_destroy_spec; [done|by left]|]. intros x w2 [-> H2].
  eapply wp_bind_mono; [apply hash_move_destroy_spec; [done|done|apply ended_vacant]|].
  intros ? w3 [-> H3]. eapply wp_bind_mono; [apply deallocate_spec|]. intros ? w4 H4.
  pose proof (mi_table m Hm) as Ht. rewrite Hst in Ht. destruct Ht as [Hi Htomb].
  destruct (revalue_spec (hm_config m) _ s i k old v Hi Hocc) as (Hi' & (l & Hl1 & Hl2) & Htm).
  apply wp_ret. left. eexists. split; [done|]. set (s' := mk_hash_storage _ _ _ _ _) in *.
  split_and!.
  - split; simpl; [apply Hm|apply Hm|by rewrite Htm|]. rewrite (mi_size m Hm).
    unfold map_contents. rewrite Hst. simpl. by rewrite Hl1, Hl2.
  - done.
  - exists l. unfold map_contents. rewrite Hst. by split.
  - unfold owns_change, owned_blocks, owned_objects. simpl. rewrite Hst. cbn [is_null]. solve_delta.
Qed.

Lemma insert_entry_spec m k v kb vb w :
  HashLaws (hm_config m) -> map_inv m -> hm_size m < hm_capacity m ->
  assoc_has (hm_config m) k (map_contents m) = false ->
  wp (insert_entry m (the_hash (hm_config m) k) (kb, Live k) (vb, Live v)) (fun r w' =>
    exists m', r = (STL_OK, Some m') /\ map_inv m' /\ hm_config m' = hm_config m /\
      map_contents m' ≡ₚ (k, v) :: map_contents m /\ owned_blocks m' = owned_blocks m /\
      hm_size m' = hm_size m + 1 /\ delta w w' (-2) 0) w.
Proof.
  intros Hl Hm Hlt Hnew. pose proof (map_size_le m Hm) as [Hsz Hcap].
  destruct (map_supports m CMETA_TRAIT_MOVE (mi_config m Hm) ltac:(tauto)) as [Hmk Hmv].
  destruct (map_supports m CMETA_TRAIT_DESTROY (mi_config m Hm) ltac:(tauto)) as [Hdk Hdv].
  pose proof (mi_table m Hm) as Ht. pose proof (mi_size m Hm) as Hsize.
  pose proof (map_tombstones_le m Hm) as Htle.
  unfold owned_blocks, map_contents in *. unfold insert_entry, hash_map_insert_slot.
  destruct (hm_storage m) as [s|] eqn:Hst; [|lia]. destruct Ht as [Hi Htomb]. simpl mbind.
  destruct (spare_slot _ _ _ Hi ltac:(lia)) as (j & Hj & Hun).
  destruct (insert_slot_spec _ _ _ (the_hash (hm_config m) k) Hi ltac:(eauto)) as (i & -> & Hfree).
  eapply wp_bind, wp_reading; [done|]. eapply wp_bind, wp_reading; [done|].
  pose proof Hfree as [(state & ck & cv & Hs & Hstate & Hk & Hvk & Hv & Hvv) _].
  eapply wp_bind, wp_reading; [exact Hk|].
  eapply wp_bind_mono; [by apply hash_move_destroy_spec|]. intros ? w1 [-> H1].
  eapply wp_bind, wp_reading; [exact Hv|].
  eapply wp_bind_mono; [by apply hash_move_destroy_spec|]. intros ? w2 [-> H2].
  eapply wp_bind_mono; [apply deallocate_spec|]. intros ? w3 H3.
  eapply wp_bind_mono; [apply deallocate_spec|]. intros ? w4 H4.
  eapply wp_bind, wp_reading; [exact Hs|].
  destruct (occupy_spec (hm_config m) _ s i k v Hl Hi Hfree)
    as (s' & Hocc & Hi' & Hcon & Hblock & st & Hst' & Htm).
  { intros j' k' v' Ho. apply (proj1 (assoc_has_false _ k (contents s)) Hnew k' v'), elem_of_contents.
    by exists j'. }
  eapply wp_bind, wp_reading; [exact Hocc|]. apply wp_ret. eexists. split; [done|].
  rewrite Hs in Hst'. injection Hst' as <-.
  rewrite size_inc_small by (unfold SIZE_MAX; lia). split_and!; try done; [|solve_delta].
  split; simpl; [apply Hm|apply Hm|split; [done|]|unfold map_contents; simpl; rewrite Hcon; simpl; lia].
  rewrite Htm, Htomb, (Z.eqb_sym SALTS_HASH_TOMBSTONE state). destruct (state =? SALTS_HASH_TOMBSTONE) eqn:Hts; simpl; [|lia].
  apply size_dec_small. apply Z.eqb_eq in Hts as ->.
  pose proof (count_if_pos (Z.eqb SALTS_HASH_TOMBSTONE) i _ _ Hs eq_refl). unfold tombstones, SIZE_MAX in *. lia.
Qed.

(** The branch for a key that is not there. *)
Lemma put_new_spec m k v zero (materialized : bool) w :
  HashLaws (hm_config m) -> map_inv m -> (materialized = true -> hm_storage m = None) ->
  assoc_has (hm_config m) k (map_contents m) = false ->
  wp (put_new m (the_hash (hm_config m) k) (Some k) (Some v) zero materialized) (fun r w' =>
    (exists m', r = (STL_OK, Some m') /\ map_inv m' /\ hm_config m' = hm_config m /\
       hm_size m < hc_entry_limit (hm_config m) /\
       map_contents m' ≡ₚ (k, v) :: map_contents m /\ owns_change m m' w w') \/
    (exists status, r = (status, Some (if materialized then zero else m)) /\ no_room status /\
       (hc_entry_limit (hm_config m) <= hm_size m -> status = STL_CAPACITY_EXCEEDED) /\
       delta w w' 0 0)) w.
Proof.
  intros Hl Hm Hfresh Hnew. pose proof (mi_config m Hm) as Hc.
  destruct (map_supports m CMETA_TRAIT_COPY Hc ltac:(tauto)) as [Hck Hcv].
  destruct (map_supports m CMETA_TRAIT_DESTROY Hc ltac:(tauto)) as [Hdk Hdv].
  unfold put_new. destruct (hc_entry_limit (hm_config m) <=? hm_size m) eqn:Hlim; destruct_bools.
  { eapply wp_mono; [by apply map_fail_spec|]. intros r w' [-> Hd]. right. eexists.
    split_and!; [done|by right|done|done]. }
  eapply wp_bind_mono; [by apply prepare_spec; [..|apply Hc|apply Hc]; [|apply Hc]|].
  intros r w1 [(kb & -> & H1)|(status & -> & Hn & H1)].
  2: { eapply wp_mono; [by apply map_fail_spec|]. intros r w2 [-> H2]. right. exists status.
       split_and!; [done|done|lia|solve_delta]. }
  eapply wp_bind_mono; [by apply prepare_spec; [..|apply Hc|apply Hc]; [|apply Hc]|].
  intros r w2 [(vb & -> & H2)|(status & -> & Hn & H2)].
  2: { eapply wp_bind_mono; [by apply discard_spec|]. intros ? w3 H3.
       eapply wp_mono; [by apply map_fail_spec|]. intros r w4 [-> H4]. right. exists status.
       split_and!; [done|done|lia|solve_delta]. }
  eapply wp_bind_mono; [by apply ensure_insert_spec|].
  intros r w3 [(m1 & -> & Hmv & Hlt & H3)|(status & -> & Hn & H3)].
  - rewrite bool_decide_true by done. destruct Hmv as [Hm1 (Hcfg & _) Hcon Hsz].
    pose proof (insert_entry_spec m1 k v kb vb w3) as Hins. rewrite Hcfg in Hins.
    eapply wp_mono; [apply Hins; [done|done|done|]|].
    { by rewrite (assoc_has_proper (hm_config m) k _ _ Hcon). }
    intros r w' (m' & -> & Hm' & Hcfg' & Hcon' & Hob & Hsz' & H4). left. exists m'.
    split_and!; [done|done|congruence|lia|by rewrite Hcon', Hcon|].
    unfold owns_change, owned_objects, entry_objects in *. rewrite Hcfg', Hsz', Hsz, Hob. solve_delta.
  - rewrite bool_decide_false by (by destruct Hn as [->| ->]).
    eapply wp_bind_mono; [by apply discard_spec|]. intros ? w4 H4.
    eapply wp_bind_mono; [by apply discard_spec|]. intros ? w5 H5.
    eapply wp_mono; [by apply map_fail_spec|]. intros r w6 [-> H6]. right. exists status.
    split_and!; [done|done|lia|solve_delta].
Qed.

(** * Initialisation *)

(** [size] and [align] of a type are [size_t] fields. *)
Definition type_sizes (type : option cmeta_type_desc) : Prop :=
  match type with Some t => is_size (td_size t) /\ is_size (td_align t) | None => True end.

(** A map that was just initialised. *)
Record fresh_map m key_type value_type entry_limit : Prop := {
  fm_inv : map_inv m;
  fm_storage : hm_storage m = None;
  fm_key_type : hc_key_type (hm_config m) = key_type;
  fm_value_type : hc_value_type (hm_config m) = value_type;
  fm_limit : hc_entry_limit (hm_config m) = entry_limit;
}.

Lemma initialize_spec m key_type value_type key_size key_align value_size value_align entry_limit
    hash equal ctx :
  hm_initialized m = false -> is_size key_size -> is_size key_align -> is_size value_size ->
  is_size value_align -> is_size entry_limit ->
  match key_type, value_type with
  | Some _, Some _ => supports key_type key_required /\ supports value_type value_required
  | None, None => is_Some hash /\ is_Some equal
  | _, _ => False
  end ->
  match hash_map_initialize (Some m) key_type value_type key_size key_align value_size value_align
          entry_limit hash equal ctx with
  | (STL_OK, r) => exists m', r = Some m' /\ fresh_map m' key_type value_type entry_limit
  | (_, r) => r = Some m
  end.
Proof.
  intros Hi Hks Hka Hvs Hva Hel Hcb. unfold hash_map_initialize. rewrite Hi.
  pose proof (sequence_stride_spec key_size key_align Hks Hka) as Hk.
  destruct (sequence_stride key_size key_align) as [ks|st].
  2: { by destruct Hk as [[-> _]|[-> _]]. }
  pose proof (sequence_stride_spec value_size value_align Hvs Hva) as Hv.
  destruct (sequence_stride value_size value_align) as [vs|st].
  2: { by destruct Hv as [[-> _]|[-> _]]. }
  destruct Hk as (? & ? & ? & ? & ?), Hv as (? & ? & ? & ? & ?).
  eexists. split; [done|]. unfold is_size in *.
  split; [|done..]. split; simpl; [done| |done|done]. split; simpl; done || lia.
Qed.

Lemma raw_init_spec m key_type value_type entry_limit :
  hm_initialized m = false -> type_sizes key_type -> type_sizes value_type -> is_size entry_limit ->
  match hash_map_raw_init (Some m) key_type value_type entry_limit with
  | (STL_OK, r) => exists m', r = Some m' /\ fresh_map m' key_type value_type entry_limit
  | (_, r) => r = Some m
  end.
Proof.
  intros Hi Hk Hv Hel. unfold hash_map_raw_init. rewrite Hi.
  destruct key_type as [kt|], value_type as [vt|]; try done.
  destruct (_ || _); [done|]. destruct (_ || _) eqn:Htr; [done|].
  apply orb_false_iff in Htr as [Htk Htv]. apply negb_false_iff, bool_decide_eq_true in Htk, Htv.
  destruct Hk, Hv. apply initialize_spec; try done.
Qed.

Lemma init_bytes_spec m key_size key_align value_size value_align entry_limit hash equal ctx :
  hm_initialized m = false -> is_size key_size -> is_size key_align -> is_size value_size ->
  is_size value_align -> is_size entry_limit ->
  match hash_map_init_bytes (Some m) key_size key_align value_size value_align entry_limit
          hash equal ctx with
  | (STL_OK, r) => exists m', r = Some m' /\ fresh_map m' None None entry_limit
  | (_, r) => r = Some m
  end.
Proof.
  intros Hi ? ? ? ? ?. unfold hash_map_init_bytes. rewrite Hi. simpl.
  destruct hash as [h|], equal as [e|]; simpl; try done. apply initialize_spec; try done.
Qed.

(** * Handles that are only bound to their types *)

(** A handle an operation may be called on: initialised, or zero but for its types. *)
Definition usable m : Prop :=
  map_inv m \/
  (hash_map_is_typed_semantic_zero container_desc (Some m) = true /\
   type_sizes (hc_key_type (hm_config m)) /\ type_sizes (hc_value_type (hm_config m))).

Lemma bound_inv m :
  hash_map_is_typed_semantic_zero container_desc (Some m) = true ->
  hm_initialized m = false /\ hm_storage m = None /\ is_Some (hc_key_type (hm_config m)) /\
  is_Some (hc_value_type (hm_config m)) /\ hm_size m = 0.
Proof.
  unfold hash_map_is_typed_semantic_zero. intros H. repeat (apply andb_true_iff in H as [H ?]).
  repeat match goal with
  | Hn : negb _ = true |- _ => apply negb_true_iff in Hn
  | Hn : is_null _ = false |- _ => apply is_null_false in Hn
  | Hn : is_null _ = true |- _ => apply is_null_true in Hn
  | Hn : (_ =? _) = true |- _ => apply Z.eqb_eq in Hn
  end. tauto.
Qed.

Lemma equal_typed c c' t a b :
  hc_key_type c = Some t -> hc_key_type c' = Some t -> the_equal c a b = the_equal c' a b.
Proof. intros H H'. unfold the_equal, hash_map_equal. by rewrite H, H'. Qed.

Lemma hash_typed c c' t a :
  hc_key_type c = Some t -> hc_key_type c' = Some t -> the_hash c a = the_hash c' a.
Proof. intros H H'. unfold the_hash, hash_map_hash. by rewrite H, H'. Qed.

(** The laws of a typed map are laws of the callbacks of the key type. *)
Lemma laws_typed c c' :
  is_Some (hc_key_type c) -> hc_key_type c' = hc_key_type c -> HashLaws c -> HashLaws c'.
Proof.
  intros [t Ht] Htt [Heq Hh]. rewrite Ht in Htt.
  assert (forall a b, the_equal c' a b = the_equal c a b) as He by (intros; by eapply equal_typed).
  split.
  - destruct Heq as [Hr Hs Htr]. split; red; setoid_rewrite He; [apply Hr|apply Hs|apply Htr].
  - intros a b. rewrite He, !(hash_typed c' c t) by done. apply Hh.
Qed.

End Ops.

Section Put.
Context {V U : Type} `{HV : ObjectTraits V U} `{!TraitLaws V U}.
Context (container_desc : addr).
Implicit Types w : object_world U.
Implicit Types m : hash_map_t V.
Implicit Types s : hash_storage V.
#[local] Abbreviation put := (hash_map_put (V := V) container_desc).
#[local] Abbreviation reserve := (hash_map_reserve (V := V) container_desc).

(** * The settings of a map after an operation *)

(** The limit an operation on the handle works with. *)
Definition limit_of m : Z :=
  if hm_initialized m then hc_entry_limit (hm_config m) else SIZE_MAX.

(** An initialised handle keeps its settings; one that was only bound to its types
    gets those of the types. *)
Definition config_kept m m' : Prop :=
  if hm_initialized m then hm_config m' = hm_config m
  else hc_key_type (hm_config m') = hc_key_type (hm_config m) /\
    hc_value_type (hm_config m') = hc_value_type (hm_config m) /\
    hc_entry_limit (hm_config m') = SIZE_MAX.

Lemma has_key_ext c c' key (e : V * V) :
  (forall a b, the_equal c a b = the_equal c' a b) -> has_key c key e = has_key c' key e.
Proof. intros H. apply H. Qed.

Lemma assoc_has_ext c c' key (l : list (V * V)) :
  (forall a b, the_equal c a b = the_equal c' a b) -> assoc_has c key l = assoc_has c' key l.
Proof.
  intros H. unfold assoc_has. induction l as [|e l IH]; simpl; [done|].
  by rewrite IH, (has_key_ext c c').
Qed.

Lemma assoc_put_ext c c' key value (l : list (V * V)) :
  (forall a b, the_equal c a b = the_equal c' a b) ->
  assoc_put c key value l = assoc_put c' key value l.
Proof.
  intros H. unfold assoc_put. rewrite (assoc_has_ext c c') by done.
  destruct (assoc_has c' key l); [|done]. apply map_ext. intros e. by rewrite (has_key_ext c c').
Qed.

Lemma usable_inv m : usable container_desc m -> hm_initialized m = true -> map_inv m.
Proof. intros [Hm|(Hz & _)] Hi; [done|]. apply bound_inv in Hz. destruct Hz. congruence. Qed.

(** What materialization leaves: the same entries under the settings it gives. *)
Record ready m m' (materialized : bool) : Prop := {
  rd_inv : map_inv m';
  rd_kept : config_kept m m';
  rd_limit : hc_entry_limit (hm_config m') = limit_of m;
  rd_equal : forall a b, the_equal (hm_config m') a b = the_equal (hm_config m) a b;
  rd_contents : map_contents m' = map_contents m;
  rd_size : hm_size m' = hm_size m;
  rd_blocks : owned_blocks m' = owned_blocks m;
  rd_objects : owned_objects m' = owned_objects m;
  rd_fresh : materialized = true -> hm_storage m' = None;
  rd_zero : (if materialized then m else m') = m;
}.

Lemma ready_initialised m : map_inv m -> ready m m false.
Proof.
  intros Hm. pose proof (mi_initialized m Hm) as Hi.
  split; unfold config_kept, limit_of; rewrite ?Hi; done.
Qed.

Lemma ready_bound m m' limit_type value_type generation descriptor :
  hash_map_is_typed_semantic_zero container_desc (Some m) = true ->
  hc_key_type (hm_config m) = limit_type -> hc_value_type (hm_config m) = value_type ->
  fresh_map m' limit_type value_type SIZE_MAX ->
  ready m (set_hm_generation generation (set_hm_descriptor descriptor m')) true.
Proof.
  intros Hz Hk Hv [Hm' Hs' Hk' Hv' Hl']. destruct (bound_inv container_desc m Hz) as (Hi & Hst & [t Ht] & _ & Hsz).
  pose proof (mi_size m' Hm') as Hsize.
  unfold map_contents in Hsize. rewrite Hs' in Hsize. simpl in Hsize.
  split; unfold config_kept, limit_of, map_contents, owned_blocks, owned_objects; simpl;
    rewrite ?Hi, ?Hst, ?Hs', ?Hsize, ?Hsz, ?Hl'; try done.
  - destruct Hm' as [? ? ? ?]. by split.
  - split_and!; congruence.
  - intros a b. apply (equal_typed _ _ t); congruence.
Qed.

(** Materialization leaves an initialised map alone, initialises a bound handle,
    and changes nothing when it fails. *)
Lemma ready_spec m :
  usable container_desc m ->
  (exists status, hash_map_materialize_for_mutation container_desc (Some m) = (status, Some m, false) /\
     status <> STL_OK /\ hm_initialized m = false) \/
  (exists m' materialized,
     hash_map_materialize_for_mutation container_desc (Some m) = (STL_OK, Some m', materialized) /\
     ready m m' materialized).
Proof.
  unfold hash_map_materialize_for_mutation. intros [Hm|(Hz & Hk & Hv)].
  - rewrite (map_valid m Hm). right. exists m, false. split; [done|by apply ready_initialised].
  - destruct (bound_inv container_desc m Hz) as (Hi & _).
    unfold hash_map_valid. rewrite Hi. cbn [andb]. rewrite Hz. cbn [negb].
    pose proof (raw_init_spec m _ _ SIZE_MAX Hi Hk Hv ltac:(done)) as Hinit.
    destruct (hash_map_raw_init _ _ _ _) as [status r].
    destruct status; try (left; by eexists).
    destruct Hinit as (m' & -> & Hf). right. do 2 eexists. split; [done|]. by eapply ready_bound.
Qed.

Lemma ready_laws m m' b : ready m m' b -> HashLaws (hm_config m) ->
  is_Some (hc_key_type (hm_config m)) \/ hm_initialized m = true -> HashLaws (hm_config m').
Proof.
  intros [_ Hkept _ _ _ _ _ _ _ _] Hl Hor. unfold config_kept in Hkept.
  destruct (hm_initialized m); [by rewrite Hkept|]. destruct Hor as [Hs|]; [|done].
  by apply (laws_typed (hm_config m)); [|tauto|].
Qed.

Lemma usable_typed m : usable container_desc m ->
  is_Some (hc_key_type (hm_config m)) \/ hm_initialized m = true.
Proof. intros [Hm|(Hz & _)]; [right; apply Hm|left]. apply bound_inv in Hz. tauto. Qed.

Lemma ready_config m m1 m' b :
  ready m m1 b -> hm_config m' = hm_config m1 -> config_kept m m'.
Proof. intros [_ Hk _ _ _ _ _ _ _ _] Heq. unfold config_kept in *. by rewrite Heq. Qed.

Lemma ready_owns m m1 m' b w w' : ready m m1 b -> owns_change m1 m' w w' -> owns_change m m' w w'.
Proof. intros [_ _ _ _ _ _ Hb Ho _ _]. unfold owns_change. by rewrite Hb, Ho. Qed.

(** * Insertion *)

(** The outcomes of a change on a handle [m]: the new map, or a failure that left
    everything as it was. *)
Definition changed m (good : hash_map_t V -> Prop) (bad : stl_status -> Prop)
    (r : stl_status * option (hash_map_t V)) w w' : Prop :=
  (exists m', r = (STL_OK, Some m') /\ map_inv m' /\ config_kept m m' /\ good m' /\
     owns_change m m' w w') \/
  (exists status, r = (status, Some m) /\ status <> STL_OK /\
     (hm_initialized m = true -> no_room status /\ bad status) /\ delta w w' 0 0).

Lemma put_spec m k v w :
  HashLaws (hm_config m) -> usable container_desc m ->
  let c := hm_config m in
  wp (put (Some m) (Some k) (Some v)) (fun r w' =>
    changed m
      (fun m' => map_contents m' ≡ₚ assoc_put c k v (map_contents m) /\
         (assoc_has c k (map_contents m) = false -> hm_size m < limit_of m))
      (fun status => assoc_has c k (map_contents m) = false -> limit_of m <= hm_size m ->
         status = STL_CAPACITY_EXCEEDED) r w w') w.
Proof.
  intros Hl Hu. cbn zeta. unfold hash_map_put.
  destruct (ready_spec m Hu) as [(status & -> & Hs & Hi)|(m1 & b & -> & Hr)].
  { destruct status; try done; apply wp_ret; right; eexists;
      (split_and!; [done|done|by rewrite Hi|apply delta_refl]). }
  pose proof (ready_laws m m1 b Hr Hl (usable_typed m Hu)) as Hl1.
  pose proof (rd_inv m m1 b Hr) as Hm1. pose proof (rd_fresh m m1 b Hr) as Hfresh.
  pose proof (rd_equal m m1 b Hr) as Heq1.
  assert (no_room_ok : forall status, no_room status -> status <> STL_OK) by (by intros ? [->| ->]).
  eapply wp_bind, wp_reading; [by apply hash_defined, Hm1|].
  destruct (map_find_assoc m1 k Hl1 Hm1) as (r & Hfind & Hspec).
  eapply wp_bind, wp_reading; [exact Hfind|].
  destruct r as [i|].
  - destruct Hspec as (s & k' & old & Hst & Hocc & Hek & Hget).
    assert (assoc_has (hm_config m) k (map_contents m) = true) as Hhas.
    { destruct (assoc_has _ k _) eqn:Hh; [done|].
      rewrite <- (rd_contents m m1 b Hr), <- (assoc_has_ext _ _ k _ Heq1) in Hh.
      apply assoc_get_None in Hh. congruence. }
    eapply wp_mono; [by eapply replace_spec|].
    intros r w' [(m' & -> & Hm' & Hcfg & (l & Hl0 & Hl') & Hown)|(status & -> & Hn & Hd)].
    + left. exists m'. split_and!; [done|done|by eapply ready_config| |by rewrite Hhas|by eapply ready_owns].
      rewrite <- (rd_contents m m1 b Hr), <- (assoc_put_ext _ _ k v _ Heq1).
      pose proof (distinct_perm _ Hl1 _ _ Hl0 (map_distinct m1 Hl1 Hm1)) as Hd.
      rewrite (assoc_put_proper (hm_config m1) k v _ _ Hl0).
      by rewrite (assoc_put_replaces _ Hl1 k v k' old l Hd Hek).
    + right. exists status. rewrite (rd_zero m m1 b Hr).
      split_and!; [done|by apply no_room_ok|intros _; split; [done|by rewrite Hhas]|done].
  - assert (assoc_has (hm_config m1) k (map_contents m1) = false) as Hnew by (by apply assoc_get_None).
    eapply wp_mono; [by apply put_new_spec|].
    rewrite (assoc_has_ext _ _ k _ Heq1), (rd_contents m m1 b Hr) in Hnew.
    intros r w' [(m' & -> & Hm' & Hcfg & Hlt & Hcon & Hown)|(status & -> & Hn & Hlim & Hd)].
    + left. exists m'. rewrite (rd_limit m m1 b Hr), (rd_size m m1 b Hr) in Hlt.
      split_and!; [done|done|by eapply ready_config| |done|by eapply ready_owns].
      rewrite Hcon, (rd_contents m m1 b Hr). unfold assoc_put. by rewrite Hnew.
    + right. exists status. rewrite (rd_zero m m1 b Hr).
      rewrite (rd_limit m m1 b Hr), (rd_size m m1 b Hr) in Hlim.
      split_and!; [done|by apply no_room_ok|intros _; split; [done|auto]|done].
Qed.

(** * Reservation *)

Lemma no_room_not_ok status : no_room status -> status <> STL_OK.
Proof. by intros [->| ->]. Qed.

Lemma touch_inv m : map_inv m -> map_inv (touch m).
Proof. intros [? ? ? ?]. by split. Qed.

(** Room for [n] entries: the entries stay, and a failure leaves everything. *)
Lemma reserve_spec m n w :
  HashLaws (hm_config m) -> usable container_desc m -> is_size n ->
  wp (reserve (Some m) n) (fun r w' =>
    (r = (STL_OK, Some m) /\ n = 0 /\ hm_initialized m = false /\ delta w w' 0 0) \/
    changed m
      (fun m' => map_contents m' ≡ₚ map_contents m /\ n <= limit_of m /\
         slots_needed n <= hm_capacity m')
      (fun status => limit_of m < n -> status = STL_CAPACITY_EXCEEDED) r w w') w.
Proof.
  intros Hl Hu Hn. unfold hash_map_reserve.
  destruct (negb _ && _ && _) eqn:Hzero.
  { apply andb_true_iff in Hzero as [[Hz _]%andb_true_iff Hn0%Z.eqb_eq]. apply wp_ret. left.
    split_and!; try done; [|apply delta_refl]. destruct (hm_initialized m) eqn:Hi; [|done].
    by rewrite (map_valid m (usable_inv m Hu Hi)) in Hz. }
  destruct (ready_spec m Hu) as [(status & -> & Hs & Hi)|(m1 & b & -> & Hr)].
  { destruct status; try done; apply wp_ret; right; right; eexists;
      (split_and!; [done|done|by rewrite Hi|apply delta_refl]). }
  pose proof (ready_laws m m1 b Hr Hl (usable_typed m Hu)) as Hl1.
  pose proof (rd_inv m m1 b Hr) as Hm1. pose proof (rd_fresh m m1 b Hr) as Hfresh.
  assert (Hfail : forall status, no_room status -> (limit_of m < n -> status = STL_CAPACITY_EXCEEDED) ->
    forall w0, delta w w0 0 0 -> wp (fail_and_rollback status m1 m b) (fun r w' =>
      (r = (STL_OK, Some m) /\ n = 0 /\ hm_initialized m = false /\ delta w w' 0 0) \/
      changed m (fun m' => map_contents m' ≡ₚ map_contents m /\ n <= limit_of m /\
         slots_needed n <= hm_capacity m')
        (fun status => limit_of m < n -> status = STL_CAPACITY_EXCEEDED) r w w') w0).
  { intros status Hst Hlim w0 Hd. eapply wp_mono; [by apply map_fail_spec|]. intros r w' [-> Hd'].
    right. right. exists status. rewrite (rd_zero m m1 b Hr).
    split_and!; [done|by apply no_room_not_ok|done|solve_delta]. }
  rewrite (rd_limit m m1 b Hr). destruct (limit_of m <? n) eqn:Hlt; destruct_bools.
  { apply Hfail; [by right|done|apply delta_refl]. }
  pose proof (buckets_spec n Hn) as Hb. destruct (hash_buckets_for_entries n) as [bk|status].
  2: { destruct Hb as [-> _]. apply Hfail; [by right|done|apply delta_refl]. }
  assert (0 <= bk /\ slots_needed n <= bk) as [Hbk Hneed].
  { destruct Hb as [[-> ->]|(? & Hbc & ? & _)]; [by unfold slots_needed|].
    pose proof (bucket_count_range bk Hbc). lia. }
  destruct (_ || _) eqn:Hre.
  - assert (bucket_count (if bk <? hm_capacity m1 then hm_capacity m1 else bk)) as Hbc.
    { destruct (map_capacity_cases m1 Hm1) as [[_ H0]|[_ Hbc]]; destruct (bk <? hm_capacity m1) eqn:Hc;
        destruct_bools; try done; try lia; destruct Hb as [[-> ->]|(_ & Hbc' & _)]; try done; exfalso.
      - rewrite H0 in Hre. simpl in Hre. by rewrite andb_false_r in Hre.
      - pose proof (bucket_count_range _ Hbc). lia. }
    eapply wp_bind_mono; [apply rehash_spec; [done|done|exact Hbc|]|].
    { destruct (bk <? hm_capacity m1) eqn:Hc; destruct_bools; lia. }
    intros r w1 [(m' & -> & Hmv & Hcap & _ & _ & Hd)|(status & -> & Hnr & Hd)].
    + rewrite bool_decide_true by done. apply wp_ret. right. left. exists (touch m').
      destruct Hmv as [Hm' (Hcfg & _) Hcon Hsz]. pose proof (touch_inv m' Hm') as Htm.
      split_and!; [done|done|by eapply ready_config| |done| |].
      * change (map_contents (touch m')) with (map_contents m'). by rewrite Hcon, (rd_contents m m1 b Hr).
      * simpl. rewrite Hcap. destruct (bk <? hm_capacity m1) eqn:Hc; destruct_bools; lia.
      * eapply ready_owns; [done|]. unfold owns_change, owned_objects, owned_blocks in *. simpl.
        rewrite Hsz, Hcfg. solve_delta.
    + rewrite bool_decide_false by (by apply no_room_not_ok). apply Hfail; [done|lia|done].
  - apply orb_false_iff in Hre as [Hre _]. destruct_bools. apply wp_ret. right. left. exists m1.
    split_and!; [done|done|by eapply ready_config|by rewrite (rd_contents m m1 b Hr)|done|lia|].
    eapply ready_owns; [done|]. unfold owns_change. rewrite !Z.sub_diag. apply delta_refl.
Qed.

(** * Construction from rows *)

(** The entries after a row is put for each element of [rows]. *)
Definition put_all c (rows l : list (V * V)) : list (V * V) :=
  fold_left (fun l e => assoc_put c (fst e) (snd e) l) rows l.

#[export] Instance put_all_proper c rows : Proper ((≡ₚ) ==> (≡ₚ)) (put_all c rows).
Proof.
  induction rows as [|[k v] rows IH]; intros l l' Hp; simpl; [done|].
  apply IH. by apply assoc_put_proper.
Qed.

Lemma put_rows_spec (keys values : list V) fuel i m w :
  HashLaws (hm_config m) -> map_inv m ->
  (i + fuel <= length keys)%nat -> (i + fuel <= length values)%nat ->
  wp (put_rows container_desc (Some m) keys values i fuel) (fun r w' =>
    (exists m', r = (STL_OK, Some m') /\ map_inv m' /\ hm_config m' = hm_config m /\
       map_contents m' ≡ₚ
         put_all (hm_config m) (take fuel (drop i (zip keys values))) (map_contents m) /\
       owns_change m m' w w') \/
    (exists status temporary, r = (status, temporary) /\ no_room status /\
       delta w w' (- owned_blocks m) (- owned_objects m))) w.
Proof.
  revert i m w. induction fuel as [|fuel IH]; intros i m w Hl Hm Hk Hv; cbn [put_rows].
  { apply wp_ret. left. exists m. rewrite take_0. split_and!; try done.
    unfold owns_change. rewrite !Z.sub_diag. apply delta_refl. }
  destruct (lookup_lt_is_Some_2 keys i ltac:(lia)) as [k Ek].
  destruct (lookup_lt_is_Some_2 values i ltac:(lia)) as [v Ev].
  eapply wp_bind, wp_reading; [exact Ek|]. eapply wp_bind, wp_reading; [exact Ev|].
  eapply wp_bind_mono; [apply put_spec; [done|by left]|].
  intros r w1 [(m1 & -> & Hm1 & Hkept & [Hcon _] & H1)|(status & -> & Hs & Hbad & H1)].
  - rewrite bool_decide_true by done. unfold config_kept in Hkept. rewrite (mi_initialized m Hm) in Hkept.
    eapply wp_mono; [apply IH; [by rewrite Hkept|done|lia|lia]|].
    assert (drop i (zip keys values) = (k, v) :: drop (S i) (zip keys values)) as ->.
    { apply drop_S. rewrite lookup_zip_with, Ek. simpl. by rewrite Ev. }
    rewrite Hkept. intros r w2 [(m2 & -> & Hm2 & Hc2 & Hcon2 & H2)|(status & t & -> & Hn & H2)].
    + left. exists m2. split_and!; [done|done|done| |].
      * rewrite Hcon2. simpl. by apply put_all_proper.
      * unfold owns_change in *. solve_delta.
    + right. exists status, t. split_and!; [done|done|]. unfold owns_change in *. solve_delta.
  - destruct (Hbad (mi_initialized m Hm)) as [Hn _]. rewrite bool_decide_false by done.
    eapply wp_bind_mono; [by apply raw_destroy_spec|]. intros r w2 [-> H2]. apply wp_ret. right.
    do 2 eexists. split_and!; [done|done|]. solve_delta.
Qed.

(** What the two functions do once [temporary] was initialised. *)
Lemma from_arrays_spec m keys values count init w :
  map_inv m \/ hm_initialized m = false -> hm_storage m = None \/ hm_initialized m = true ->
  (count <= length (default [] keys))%nat -> (count <= length (default [] values))%nat ->
  match init with
  | (STL_OK, r) => exists t, r = Some t /\ map_inv t /\ hm_storage t = None /\ HashLaws (hm_config t)
  | _ => True
  end ->
  wp (from_arrays container_desc (Some m) keys values count init) (fun r w' =>
    (exists t m', init = (STL_OK, Some t) /\ r = (STL_OK, Some m') /\ map_inv m' /\
       hm_config m' = hm_config t /\ hm_generation m' = size_inc (hm_generation m) /\
       map_contents m' ≡ₚ put_all (hm_config t) (take count (zip (default [] keys) (default [] values))) [] /\
       delta w w' (owned_blocks m' - owned_blocks m)
         (owned_objects m' - (if hm_initialized m then owned_objects m else 0))) \/
    (exists status, r = (status, Some m) /\ status <> STL_OK /\ delta w w' 0 0)) w.
Proof.
  intros Hm Hst Hk Hv Hinit. unfold from_arrays. destruct (_ && _).
  { apply wp_ret. right. eexists. split_and!; [done|done|apply delta_refl]. }
  destruct init as [status r].
  destruct status; try (apply wp_ret; right; eexists; (split_and!; [done|done|apply delta_refl])).
  destruct Hinit as (t & -> & Ht & Htst & Hl). pose proof (mi_size t Ht) as Hts.
  assert (map_contents t = [] /\ owned_blocks t = 0 /\ owned_objects t = 0) as (Htc & Htb & Hto).
  { unfold map_contents, owned_blocks, owned_objects in *. rewrite Htst in *. simpl in Hts. by rewrite Hts. }
  eapply wp_bind_mono; [by apply put_rows_spec|].
  intros r w1 [(m1 & -> & Hm1 & Hc1 & Hcon & H1)|(status & t' & -> & Hn & H1)].
  2: { rewrite bool_decide_false by (by apply no_room_not_ok). apply wp_ret. right.
       eexists. split_and!; [done|by apply no_room_not_ok|]. rewrite Htb, Hto in H1. done. }
  rewrite bool_decide_true by done. rewrite drop_0, Htc in Hcon.
  unfold owns_change in H1. rewrite Htb, Hto in H1.
  assert (map_inv (set_hm_generation (size_inc (hm_generation m)) m1)) as Hm1' by (destruct Hm1; by split).
  eapply wp_bind_mono with (R := fun _ w2 =>
    delta w1 w2 (- owned_blocks m) (- (if hm_initialized m then owned_objects m else 0))).
  - destruct (hm_initialized m) eqn:Hi.
    + destruct Hm as [Hm|]; [|done]. eapply wp_mono; [by apply raw_destroy_spec|]. by intros r w2 [_ H2].
    + destruct Hst as [Hst|]; [|done]. apply wp_ret. unfold owned_blocks. rewrite Hst. apply delta_refl.
  - intros ? w2 H2. apply wp_ret. left. eexists t, _. split_and!; try done.
    unfold owned_blocks, owned_objects in *. simpl. solve_delta.
Qed.

End Put.
