(* ===== verification/CstlHashMapTheorems.v ===== *)
(** A hash map is a finite map: whatever operations are called on it, every answer
    is one that the association list of its entries gives, every failure is for
    want of room and changes nothing, and what it allocates and constructs is
    exactly what its entries need. *)

From S2P Require Import Prelude.
From S2P Require Import CMetaType.
From S2P Require Import CstlSupport.
From S2P Require Import CstlObjects.
From S2P Require Import CstlHashMap.
From S2P Require Import CstlHashMapInvariant.
From S2P Require Import CstlHashMapRehash.
From S2P Require Import CstlHashMapOps.

(** * Calls and their answers *)

Inductive map_call (V : Type) :=
  | CallPut (key value : V)
  | CallGet (key : V)
  | CallContains (key : V)
  | CallRemove (key : V) (want : bool)
  | CallClear
  | CallReserve (entries : Z)
  | CallSize.
Arguments CallPut {V} key value.
Arguments CallGet {V} key.
Arguments CallContains {V} key.
Arguments CallRemove {V} key want.
Arguments CallClear {V}.
Arguments CallReserve {V} entries.
Arguments CallSize {V}.

(** What the caller sees: a status, the object a pointer refers to, and so on. *)
Inductive map_answer (V : Type) :=
  | AnswerStatus (status : stl_status)
  | AnswerValue (value : option V)
  | AnswerBool (b : bool)
  | AnswerRemoved (status : stl_status) (out : cell V)
  | AnswerNothing
  | AnswerSize (size : Z).
Arguments AnswerStatus {V} status.
Arguments AnswerValue {V} value.
Arguments AnswerBool {V} b.
Arguments AnswerRemoved {V} status out.
Arguments AnswerNothing {V}.
Arguments AnswerSize {V} size.

Section Calls.
Context {V U : Type} `{HV : ObjectTraits V U}.
Context (container_desc : addr).
#[local] Abbreviation hash_map := (hash_map_t V).

(** The object at the slot a lookup returned. *)
Definition value_of_slot (map : option hash_map) (slot : option nat) : option (option V) :=
  match slot with
  | None => Some None
  | Some i =>
      m ← map; s ← hm_storage m; object ← hs_values s !! i; v ← cell_value object; Some (Some v)
  end.

Definition run_call (call : map_call V) (map : option hash_map)
    : store U (map_answer V * option hash_map) :=
  match call with
  | CallPut key value =>
      let* (status, map) := hash_map_put container_desc map (Some key) (Some value) in
      ret (AnswerStatus status, map)
  | CallGet key =>
      let* slot := reading (hash_map_get map (Some key)) in
      let* value := reading (value_of_slot map slot) in
      ret (AnswerValue value, map)
  | CallContains key =>
      let* b := reading (hash_map_contains map (Some key)) in ret (AnswerBool b, map)
  | CallRemove key want =>
      let* ((status, map), out) := hash_map_remove map (Some key) want in
      ret (AnswerRemoved status out, map)
  | CallClear => let* map := hash_map_clear map in ret (AnswerNothing, map)
  | CallReserve n =>
      let* (status, map) := hash_map_reserve container_desc map n in
      ret (AnswerStatus status, map)
  | CallSize => ret (AnswerSize (hash_map_size map), map)
  end.

Fixpoint run_calls (calls : list (map_call V)) (map : option hash_map)
    : store U (list (map_answer V) * option hash_map) :=
  match calls with
  | [] => ret ([], map)
  | call :: calls =>
      let* (a, map) := run_call call map in
      let* (answers, map) := run_calls calls map in
      ret (a :: answers, map)
  end.

(** ** The finite map *)

(** What the finite map with the entries [l] may answer, and its entries then. *)
Inductive answers (c : hash_map_config) (l : list (V * V)) :
    map_call V -> map_answer V -> list (V * V) -> Prop :=
  | answers_put k v :
      assoc_has c k l = true \/ Z.of_nat (length l) < hc_entry_limit c ->
      answers c l (CallPut k v) (AnswerStatus STL_OK) (assoc_put c k v l)
  | answers_put_no_room k v status :
      no_room status ->
      (assoc_has c k l = false -> hc_entry_limit c <= Z.of_nat (length l) ->
       status = STL_CAPACITY_EXCEEDED) ->
      answers c l (CallPut k v) (AnswerStatus status) l
  | answers_get k : answers c l (CallGet k) (AnswerValue (assoc_get c k l)) l
  | answers_contains k : answers c l (CallContains k) (AnswerBool (assoc_has c k l)) l
  | answers_remove k want v :
      assoc_get c k l = Some v ->
      answers c l (CallRemove k want) (AnswerRemoved STL_OK (if want : bool then Live v else Raw))
        (assoc_remove c k l)
  | answers_remove_absent k want :
      assoc_get c k l = None ->
      answers c l (CallRemove k want) (AnswerRemoved STL_NOT_FOUND Raw) l
  | answers_clear : answers c l CallClear AnswerNothing []
  | answers_reserve n :
      n <= hc_entry_limit c -> answers c l (CallReserve n) (AnswerStatus STL_OK) l
  | answers_reserve_no_room n status :
      no_room status -> (hc_entry_limit c < n -> status = STL_CAPACITY_EXCEEDED) ->
      answers c l (CallReserve n) (AnswerStatus status) l
  | answers_size : answers c l CallSize (AnswerSize (Z.of_nat (length l))) l.

Inductive answers_all (c : hash_map_config) :
    list (V * V) -> list (map_call V) -> list (map_answer V) -> list (V * V) -> Prop :=
  | answers_nil l : answers_all c l [] [] l
  | answers_cons l call a l1 calls as_ l2 :
      answers c l call a l1 -> answers_all c l1 calls as_ l2 ->
      answers_all c l (call :: calls) (a :: as_) l2.

(** The objects that removals handed to the caller. *)
Definition handed_out (c : hash_map_config) (a : map_answer V) : Z :=
  match a with AnswerRemoved _ (Live _) => typed (hc_value_type c) | _ => 0 end.

Definition all_handed_out (c : hash_map_config) (as_ : list (map_answer V)) : Z :=
  foldr (fun a n => handed_out c a + n) 0 as_.

(** The arguments are values of their C types. *)
Definition call_ok (call : map_call V) : Prop :=
  match call with CallReserve n => is_size n | _ => True end.

End Calls.

Section Refinement.
Context {V U : Type} `{HV : ObjectTraits V U} `{!TraitLaws V U}.
Context (container_desc : addr).
Implicit Types w : object_world U.
Implicit Types m : hash_map_t V.
#[local] Abbreviation run_call := (run_call container_desc).
#[local] Abbreviation run_calls := (run_calls container_desc).

(** One call: the answer and the entries are those of the finite map, and what is
    alive changes with the entries. *)
Definition call_sound m (l : list (V * V)) call (r : map_answer V * option (hash_map_t V)) w w' : Prop :=
  exists a m' l', r = (a, Some m') /\ map_inv m' /\ hm_config m' = hm_config m /\
    answers (hm_config m) l call a l' /\ map_contents m' ≡ₚ l' /\
    delta w w' (owned_blocks m' - owned_blocks m)
      (owned_objects m' - owned_objects m + handed_out (hm_config m) a).

Lemma unchanged_sound m l call a w w' :
  map_inv m -> map_contents m ≡ₚ l -> answers (hm_config m) l call a l ->
  handed_out (hm_config m) a = 0 -> delta w w' 0 0 -> call_sound m l call (a, Some m) w w'.
Proof.
  intros Hm Hl Ha Hh Hd. exists a, m, l. split_and!; try done.
  rewrite Hh, !Z.sub_diag. done.
Qed.

Lemma changed_sound m l l' call good bad (r : stl_status * option (hash_map_t V)) w w' :
  map_inv m -> map_contents m ≡ₚ l ->
  (forall m', good m' -> map_contents m' ≡ₚ l' /\ answers (hm_config m) l call (AnswerStatus STL_OK) l') ->
  (forall status, no_room status -> bad status -> answers (hm_config m) l call (AnswerStatus status) l) ->
  changed m good bad r w w' -> call_sound m l call (AnswerStatus (fst r), snd r) w w'.
Proof.
  intros Hm Hl Hgood Hbad. pose proof (mi_initialized m Hm) as Hi.
  intros [(m' & -> & Hm' & Hcfg & Hg & Hown)|(status & -> & _ & Hn & Hd)].
  - unfold config_kept in Hcfg. rewrite Hi in Hcfg. destruct (Hgood m' Hg) as [Hcon Ha].
    exists (AnswerStatus STL_OK), m', l'. split_and!; try done. simpl. by rewrite Z.add_0_r.
  - destruct (Hn Hi) as [Hnr Hb]. apply unchanged_sound; try done. by apply Hbad.
Qed.

Lemma call_spec m l call w :
  HashLaws (hm_config m) -> map_inv m -> map_contents m ≡ₚ l -> call_ok call ->
  wp (run_call call (Some m)) (fun r w' => call_sound m l call r w w') w.
Proof.
  intros Hlaws Hm Hl Hok. pose proof (map_distinct m Hlaws Hm) as Hd.
  pose proof (assoc_get_perm _ Hlaws) as Hgetp. pose proof (mi_size m Hm) as Hsize.
  assert (limit_of m = hc_entry_limit (hm_config m)) as Hlim
    by (unfold limit_of; by rewrite (mi_initialized m Hm)).
  destruct call as [k v|k|k|k want| |n|]; simpl run_call.
  - eapply wp_bind_mono; [apply put_spec; [done|by left]|].
    intros [status map] w' Hch. apply wp_ret. rewrite Hlim in Hch.
    eapply (changed_sound m l (assoc_put (hm_config m) k v l)) in Hch; [exact Hch|done|done| |].
    + intros m' [Hcon Hroom]. rewrite (assoc_has_proper _ k _ _ Hl) in Hroom.
      rewrite Hsize, Hl in Hroom. split; [by rewrite Hcon, (assoc_put_proper _ k v _ _ Hl)|].
      apply answers_put. destruct (assoc_has _ k l); [by left|right; auto].
    + intros st Hn Hb. rewrite (assoc_has_proper _ k _ _ Hl), Hsize, Hl in Hb. by apply answers_put_no_room.
  - destruct (get_spec m k Hlaws Hm) as (r & Hr & Hspec).
    eapply wp_bind, wp_reading; [exact Hr|].
    assert (value_of_slot (Some m) r = Some (assoc_get (hm_config m) k l)) as Hval.
    { rewrite <- (Hgetp k _ _ Hd Hl). destruct r as [i|]; simpl; [|by rewrite Hspec].
      destruct Hspec as (s & v & -> & Hv & ->). simpl. by rewrite Hv. }
    eapply wp_bind, wp_reading; [exact Hval|]. apply wp_ret.
    apply unchanged_sound; try done; [constructor|apply delta_refl].
  - eapply wp_bind, wp_reading; [by apply contains_spec|]. apply wp_ret.
    rewrite (assoc_has_proper _ k _ _ Hl).
    apply unchanged_sound; try done; [constructor|apply delta_refl].
  - eapply wp_bind_mono; [by apply remove_spec|]. cbn zeta. intros r w'.
    rewrite (Hgetp k _ _ Hd Hl). destruct (assoc_get _ k l) as [v|] eqn:Hget.
    + intros (m' & -> & Hm' & Hcfg & Hcon & H1). apply wp_ret.
      do 2 eexists. exists (assoc_remove (hm_config m) k l).
      split_and!; [done|done|done|by apply answers_remove| |by destruct want].
      by rewrite Hcon, (assoc_remove_proper _ k _ _ Hl).
    + intros [-> H1]. apply wp_ret. apply unchanged_sound; try done. by apply answers_remove_absent.
  - eapply wp_bind_mono; [by apply clear_spec|].
    intros r w' (m' & -> & Hm' & Hcon & Hcfg & _ & H1). apply wp_ret.
    exists AnswerNothing, m', []. split_and!; try done; [constructor|by rewrite Hcon|].
    simpl. by rewrite Z.add_0_r.
  - eapply wp_bind_mono; [apply reserve_spec; [done|by left|exact Hok]|].
    intros [status map] w' [(_ & _ & Hi & _)|Hch]; [by rewrite (mi_initialized m Hm) in Hi|].
    apply wp_ret. rewrite Hlim in Hch.
    eapply (changed_sound m l l) in Hch; [exact Hch|done|done| |].
    + intros m' (Hcon & Hle & _). split; [by rewrite Hcon|by apply answers_reserve].
    + intros st Hn Hb. by apply answers_reserve_no_room.
  - assert (hash_map_size (Some m) = Z.of_nat (length l)) as Hcount
      by (unfold hash_map_size, observe; by rewrite (map_valid m Hm), Hsize, Hl).
    apply wp_ret. simpl in Hcount. rewrite Hcount.
    apply unchanged_sound; try done; [constructor|apply delta_refl].
Qed.

(** Any calls. *)
Lemma calls_spec calls m l w :
  HashLaws (hm_config m) -> map_inv m -> map_contents m ≡ₚ l -> Forall call_ok calls ->
  wp (run_calls calls (Some m)) (fun r w' => exists as_ m' l',
    r = (as_, Some m') /\ map_inv m' /\ hm_config m' = hm_config m /\
    answers_all (hm_config m) l calls as_ l' /\ map_contents m' ≡ₚ l' /\
    delta w w' (owned_blocks m' - owned_blocks m)
      (owned_objects m' - owned_objects m + all_handed_out (hm_config m) as_)) w.
Proof.
  revert m l w. induction calls as [|call calls IH]; intros m l w Hlaws Hm Hl Hok; simpl.
  { apply wp_ret. exists [], m, l. split_and!; try done; [constructor|].
    simpl. rewrite !Z.sub_diag. apply delta_refl. }
  inversion_clear Hok as [|? ? Hc Hcs].
  eapply wp_bind_mono; [by apply call_spec|].
  intros r w1 (a & m1 & l1 & -> & Hm1 & Hcfg & Ha & Hcon & H1).
  eapply wp_bind_mono; [apply (IH m1 l1); [by rewrite Hcfg|done..]|].
  intros r w2 (as_ & m2 & l2 & -> & Hm2 & Hcfg2 & Has & Hcon2 & H2). rewrite Hcfg in *.
  apply wp_ret. exists (a :: as_), m2, l2. split_and!; try done; [by econstructor|].
  simpl. solve_delta.
Qed.

(** * Maps from their creation on *)

(** What the two initialisation functions make of a zero handle. *)
Inductive created : hash_map_t V -> Prop :=
  | created_typed generation key_type value_type entry_limit m :
      type_sizes key_type -> type_sizes value_type -> is_size entry_limit ->
      hash_map_raw_init (Some (zero_map generation)) key_type value_type entry_limit =
        (STL_OK, Some m) ->
      created m
  | created_bytes generation key_size key_align value_size value_align entry_limit hash equal ctx m :
      is_size key_size -> is_size key_align -> is_size value_size -> is_size value_align ->
      is_size entry_limit ->
      hash_map_init_bytes (Some (zero_map generation)) key_size key_align value_size value_align
        entry_limit hash equal ctx = (STL_OK, Some m) ->
      created m.

Lemma created_inv m :
  created m ->
  map_inv m /\ hm_storage m = None /\ map_contents m = [] /\ owned_blocks m = 0 /\ owned_objects m = 0.
Proof.
  intros Hc. assert (map_inv m /\ hm_storage m = None) as [Hm Hst].
  { destruct Hc as [g kt vt limit m Hk Hv Hl Hi|g ks ka vs va limit h e x m ? ? ? ? ? Hi].
    - pose proof (raw_init_spec (zero_map g) kt vt limit eq_refl Hk Hv Hl) as Hs. rewrite Hi in Hs.
      by destruct Hs as (m' & [= <-] & [Hm Hst _ _ _]).
    - pose proof (init_bytes_spec (zero_map g) ks ka vs va limit h e x eq_refl) as Hs.
      rewrite Hi in Hs. by destruct Hs as (m' & [= <-] & [Hm Hst _ _ _]). }
  pose proof (mi_size m Hm) as Hs. unfold map_contents, owned_blocks, owned_objects in *.
  rewrite Hst in *. simpl in Hs. by rewrite Hs.
Qed.

(** C13: (refinement) From its creation on, whatever operations are called on a hash
    map, in whatever order, none reads raw or moved memory or leaves the table, all
    return, and the answers are those of a finite map: a lookup finds the value that
    was put last under an equal key, a removal takes that entry out, the size counts
    the entries; a put of a new key or a reservation fails only for want of memory or
    of capacity, with CAPACITY_EXCEEDED beyond the entry limit, and leaves the map as
    it was. *)
Theorem hash_map_refines_map m calls w :
  created m -> HashLaws (hm_config m) -> Forall call_ok calls ->
  exists as_ m' w' l,
    run_calls calls (Some m) w = Some ((as_, Some m'), w') /\
    answers_all (hm_config m) [] calls as_ l /\
    map_inv m' /\ hm_config m' = hm_config m /\ map_contents m' ≡ₚ l.
Proof.
  intros (Hm & _ & Hnil & _)%created_inv Hl Hok.
  destruct (wp_run _ _ _ (calls_spec calls m [] w Hl Hm ltac:(by rewrite Hnil) Hok))
    as (r & w' & Hrun & as_ & m' & l & -> & ? & ? & ? & ? & _).
  by exists as_, m', w', l.
Qed.

(** C14: (safety) A hash map releases what it takes: after any calls, destroying it
    leaves as many blocks allocated as before its creation, and as many objects alive
    but for the values that removals handed to the caller; failed insertions, rehashes
    and replaced values leave none behind. *)
Theorem hash_map_releases_all m calls w :
  created m -> HashLaws (hm_config m) -> Forall call_ok calls ->
  exists as_ m' w' zero w'',
    run_calls calls (Some m) w = Some ((as_, Some m'), w') /\
    hash_map_raw_destroy_storage (Some m') w' = Some (Some zero, w'') /\
    hm_initialized zero = false /\ hm_storage zero = None /\
    ow_blocks w'' = ow_blocks w /\
    ow_objects w'' = ow_objects w + all_handed_out (hm_config m) as_.
Proof.
  intros (Hm & _ & Hnil & Hb & Ho)%created_inv Hl Hok.
  destruct (wp_run _ _ _ (calls_spec calls m [] w Hl Hm ltac:(by rewrite Hnil) Hok))
    as (r & w' & Hrun & as_ & m' & l & -> & Hm' & _ & _ & _ & Hd).
  destruct (wp_run _ _ _ (raw_destroy_spec m' w' Hm')) as (r' & w'' & Hdes & -> & Hd').
  do 5 eexists. split_and!; [done|done|done|done|..]; destruct Hd, Hd'; lia.
Qed.

(** (error) [hash_map_put] on any handle it may be called on, one that was only
    bound to its types included: it returns OK with the entries of the finite map
    after the insertion, a new key only below the entry limit; or it returns another
    status with the very handle it was given, a first initialisation rolled back, and
    nothing allocated or constructed, and on an initialised map that status is
    OUT_OF_MEMORY or CAPACITY_EXCEEDED, the latter whenever the key is new and the
    limit is reached. *)
Theorem hash_map_put_exact m k v w :
  HashLaws (hm_config m) -> usable container_desc m ->
  exists r w', hash_map_put container_desc (Some m) (Some k) (Some v) w = Some (r, w') /\
    ((exists m', r = (STL_OK, Some m') /\ map_inv m' /\
        map_contents m' ≡ₚ assoc_put (hm_config m) k v (map_contents m) /\
        (assoc_has (hm_config m) k (map_contents m) = false -> hm_size m < limit_of m) /\
        delta w w' (owned_blocks m' - owned_blocks m) (owned_objects m' - owned_objects m)) \/
     (exists status, r = (status, Some m) /\ status <> STL_OK /\ delta w w' 0 0 /\
        (hm_initialized m = true ->
           no_room status /\
           (assoc_has (hm_config m) k (map_contents m) = false -> limit_of m <= hm_size m ->
              status = STL_CAPACITY_EXCEEDED)))).
Proof.
  intros Hl Hu. destruct (wp_run _ _ _ (put_spec container_desc m k v w Hl Hu))
    as (r & w' & Hrun & [(m' & -> & ? & _ & [] & ?)|(status & -> & ? & ? & ?)]);
    exists r, w' || (do 2 eexists); (split; [exact Hrun|]); [left|right]; eauto 10.
Qed.

(** (functional) Building a typed map from arrays: it holds, up to order, what
    putting the rows one after the other into the empty finite map gives, later rows
    winning over earlier ones with an equal key; what the old map owned is released;
    and when a row or the initialisation fails, the old map is as it was and nothing
    stays allocated. *)
Theorem hash_map_from_arrays_exact m keys values count key_type value_type entry_limit w :
  map_inv m \/ (hm_initialized m = false /\ hm_storage m = None) ->
  type_sizes key_type -> type_sizes value_type -> is_size entry_limit ->
  (forall t, fresh_map t key_type value_type entry_limit -> HashLaws (hm_config t)) ->
  (count <= length keys)%nat -> (count <= length values)%nat ->
  exists r w',
    hash_map_raw_from_arrays container_desc (Some m) (Some keys) (Some values) count key_type
      value_type entry_limit w = Some (r, w') /\
    ((exists m', r = (STL_OK, Some m') /\ map_inv m' /\
        hc_entry_limit (hm_config m') = entry_limit /\
        map_contents m' ≡ₚ put_all (hm_config m') (take count (zip keys values)) [] /\
        delta w w' (owned_blocks m' - owned_blocks m)
          (owned_objects m' - (if hm_initialized m then owned_objects m else 0))) \/
     (exists status, r = (status, Some m) /\ status <> STL_OK /\ delta w w' 0 0)).
Proof.
  intros Hm Hk Hv Hel Hlaws Hck Hcv.
  pose proof (raw_init_spec (zero_map 0) key_type value_type entry_limit eq_refl Hk Hv Hel) as Hinit.
  unfold hash_map_raw_from_arrays. destruct (hash_map_raw_init _ _ _ _) as [status r0].
  assert (map_inv m \/ hm_initialized m = false) as H1 by tauto.
  assert (hm_storage m = None \/ hm_initialized m = true) as H2
    by (destruct Hm as [Hm|[_ ?]]; [right; apply Hm|by left]).
  assert (match (status, r0) with
    | (STL_OK, r) => exists t, r = Some t /\ map_inv t /\ hm_storage t = None /\ HashLaws (hm_config t)
    | _ => True
    end) as H3.
  { destruct status; try done. destruct Hinit as (t & -> & Hf). pose proof (Hlaws t Hf).
    exists t. by destruct Hf. }
  destruct (wp_run _ _ _ (from_arrays_spec container_desc m (Some keys) (Some values) count
    (status, r0) w H1 H2 Hck Hcv H3)) as (r & w' & Hrun & Hor).
  exists r, w'. split; [exact Hrun|].
  destruct Hor as [(t & m' & [= -> ->] & -> & ? & Hcfg & _ & Hcon & ?)|?]; [left|by right].
  exists m'. rewrite Hcfg. split_and!; try done.
  by destruct Hinit as (t' & [= ->] & [_ _ _ _ Hlim]).
Qed.

End Refinement.

(** (bounds) For every number of entries a [size_t] can hold, the bucket count
    asked for is a power of two from 16 on that keeps the load at seven in ten or
    less, and is the least one; none of the sums and products on the way wraps, the
    doubling loop ends, and CAPACITY_EXCEEDED is the answer exactly when 2^63 buckets
    would not be enough. *)
Theorem hash_map_buckets_exact entries :
  is_size entries ->
  match hash_buckets_for_entries entries with
  | StlOk b =>
      if entries =? 0 then b = 0
      else bucket_count b /\ 10 * entries <= 7 * b /\ (b = 16 \/ 7 * (b / 2) < 10 * entries)
  | StlFail status => status = STL_CAPACITY_EXCEEDED /\ 7 * 2 ^ 63 < 10 * entries
  end.
Proof.
  intros He. pose proof (buckets_spec entries He) as Hb. unfold slots_needed in Hb.
  pose proof (Z.div_mod (10 * entries + 6) 7 ltac:(lia)) as Hd.
  pose proof (Z.mod_pos_bound (10 * entries + 6) 7 ltac:(lia)) as Hr.
  destruct (hash_buckets_for_entries entries) as [b|status]; [|split; [apply Hb|lia]].
  destruct Hb as [[-> ->]|(Hpos & Hbc & Hle & Hor)]; [done|].
  rewrite (proj2 (Z.eqb_neq entries 0)) by lia. split_and!; [done|lia|].
  destruct Hor as [->|Hlt]; [by left|right]. destruct Hbc as (n & Hn & ->).
  assert (2 ^ n = 2 * 2 ^ (n - 1)) as E by (rewrite <- Z.pow_succ_r by lia; f_equal; lia).
  rewrite E, (Z.mul_comm 2), Z.div_mul by lia. lia.
Qed.

(** C27: (bounds) The four arrays of a table lie in its block one after the other, none
    overlapping the next, each aligned for its elements, and the block ends with the
    last; no offset wraps, and CAPACITY_EXCEEDED is answered only when the arrays and
    their padding do not fit a [size_t]. *)
Theorem hash_map_layout_disjoint c capacity :
  config_ok c -> bucket_count capacity ->
  match hash_map_layout c capacity with
  | StlOk l =>
      capacity <= hl_hashes_offset l /\
      hl_hashes_offset l + capacity * sizeof_size_t <= hl_keys_offset l /\
      hl_keys_offset l + capacity * hc_key_stride c <= hl_values_offset l /\
      hl_values_offset l + capacity * hc_value_stride c = hl_total l /\ hl_total l <= SIZE_MAX /\
      hl_hashes_offset l mod alignof_size_t = 0 /\ hl_keys_offset l mod hc_key_align c = 0 /\
      hl_values_offset l mod hc_value_align c = 0
  | StlFail status => status = STL_CAPACITY_EXCEEDED /\
      SIZE_MAX < capacity * (1 + sizeof_size_t + hc_key_stride c + hc_value_stride c) +
        (alignof_size_t - 1) + (hc_key_align c - 1) + (hc_value_align c - 1)
  end.
Proof.
  intros Hc Hb. pose proof (layout_spec c capacity Hc Hb) as Hl.
  destruct (hash_map_layout c capacity) as [l|]; [|done]. destruct Hl. split_and?; done || lia.
Qed.
