(* ===== verification/CstlHashSet.v ===== *)
(** The hash set of cstl (cstl/src/hash_set.c, cstl/include/cstl/hash_set.h): a hash map
    whose values are the byte 1, behind a handle that holds the type of the elements. *)

From S2P Require Import Prelude.
From S2P Require Import CMetaType.
From S2P Require Import CstlSupport.
From S2P Require Import CstlHashMap.

(** [hash_set_t]. *)
Record hash_set_t (V : Type) := mk_hash_set {
  hst_descriptor : option addr;
  hst_element_type : option cmeta_type_desc;
  hst_table : hash_map_t V;
}.
Arguments mk_hash_set {V}.
Arguments hst_descriptor {V}.
Arguments hst_element_type {V}.
Arguments hst_table {V}.

(** [hash_set_t temporary = {0}]. *)
Definition zero_hash_set {V} : hash_set_t V := mk_hash_set None None (zero_map 0).

(** A change behind [&set->table]. *)
Definition set_hst_table {V} (t : hash_map_t V) (s : hash_set_t V) : hash_set_t V :=
  mk_hash_set (hst_descriptor s) (hst_element_type s) t.

(** [map_desc] and [set_desc] are the addresses of the descriptors of the containers,
    [bool_type] is [cmeta_type_bool], and [present] the byte 1. *)
Section HashSet.
Context {V U : Type} `{!ObjectTraits V U}.
Context (map_desc set_desc : addr) (bool_type : cmeta_type_desc) (present : V).
#[local] Abbreviation hash_set := (hash_set_t V).
Implicit Types set : option hash_set.

(** A call on the table of a set that is not NULL. *)
Definition on_table {A} (s : hash_set) (call : store U (A * option (hash_map_t V)))
    : store U (A * option hash_set) :=
  let* (answer, t) := call in ret (answer, t ← t; Some (set_hst_table t s)).

Definition hash_set_is_typed_semantic_zero set : bool :=
  match set with
  | None => false
  | Some s =>
      let t := hst_table s in
      let c := hm_config t in
      bool_decide (hst_descriptor s = Some set_desc) && negb (is_null (hst_element_type s)) &&
      cmeta_type_desc_valid (hst_element_type s) &&
      negb (hm_initialized t) && is_null (hm_storage t) &&
      (hm_size t =? 0) && (hm_capacity t =? 0) && (hm_tombstones t =? 0) &&
      (hc_key_size c =? 0) && (hc_key_stride c =? 0) && (hc_key_align c =? 0) &&
      (hc_value_size c =? 0) && (hc_value_stride c =? 0) && (hc_value_align c =? 0) &&
      (hc_entry_limit c =? 0) && is_null (hm_descriptor t) &&
      is_null (hc_key_type c) && is_null (hc_value_type c) &&
      is_null (hc_hash c) && is_null (hc_equal c) && is_null (hc_ctx c)
  end.

Definition hash_set_raw_init set (key_type : option cmeta_type_desc) (limit : Z)
    : stl_status * option hash_set :=
  match set with
  | None => (STL_INVALID_ARGUMENT, None)
  | Some s =>
      let (status, t) := hash_map_raw_init (Some (hst_table s)) key_type (Some bool_type) limit in
      (status, t ← t; Some (set_hst_table t s))
  end.

(** The value is a byte. *)
Definition hash_set_init_bytes set (key_size key_align limit : Z) (hash equal ctx : option addr)
    : stl_status * option hash_set :=
  match set with
  | None => (STL_INVALID_ARGUMENT, None)
  | Some s =>
      let (status, t) := hash_map_init_bytes (Some (hst_table s)) key_size key_align 1 1 limit hash equal ctx in
      (status, t ← t; Some (set_hst_table t s))
  end.

Definition hash_set_init set (limit : Z) : stl_status * option hash_set :=
  match set with
  | None => (STL_INVALID_ARGUMENT, None)
  | Some s =>
      if is_null (hst_element_type s) then (STL_INVALID_ARGUMENT, set)
      else hash_set_raw_init set (hst_element_type s) limit
  end.

Definition hash_set_raw_destroy_storage set : store U (option hash_set) :=
  match set with
  | None => ret None
  | Some s =>
      let* t := hash_map_raw_destroy_storage (Some (hst_table s)) in
      ret (t ← t; Some (set_hst_table t s))
  end.

Definition hash_set_destroy : option hash_set -> store U (option hash_set) := hash_set_raw_destroy_storage.

Definition hash_set_clear set : store U (option hash_set) :=
  match set with
  | None => ret None
  | Some s => let* t := hash_map_clear (Some (hst_table s)) in ret (t ← t; Some (set_hst_table t s))
  end.

(** The handle after it, and whether it was initialised by it; the snapshot is the
    handle it was called with. *)
Definition hash_set_materialize_for_mutation set : stl_status * option hash_set * bool :=
  match set with
  | None => (STL_INVALID_ARGUMENT, set, false)
  | Some s =>
      if hm_initialized (hst_table s) then (STL_OK, set, false)
      else if negb (hash_set_is_typed_semantic_zero set) then (STL_INVALID_ARGUMENT, set, false)
      else
        match hash_set_raw_init set (hst_element_type s) SIZE_MAX with
        | (STL_OK, Some made) =>
            (STL_OK, Some (set_hst_table (set_hm_generation (hm_generation (hst_table s)) (hst_table made)) made), true)
        | (status, _) => (status, set, false)
        end
  end.

Definition hash_set_rollback_materialization set zero_snapshot (materialized : bool) : store U (option hash_set) :=
  if negb materialized then ret set
  else let* _ := hash_set_raw_destroy_storage set in ret zero_snapshot.

Definition hash_set_contains set (key : option V) : option bool :=
  match set with None => Some false | Some s => hash_map_contains (Some (hst_table s)) key end.

Definition hash_set_reserve set (min_entries : Z) : store U (stl_status * option hash_set) :=
  match set with
  | None => ret (STL_INVALID_ARGUMENT, None)
  | Some s =>
      if negb (hm_initialized (hst_table s)) && hash_set_is_typed_semantic_zero set && (min_entries =? 0)
      then ret (STL_OK, set)
      else
        match hash_set_materialize_for_mutation set with
        | (STL_OK, Some made, materialized) =>
            let* (status, reserved) := on_table made (hash_map_reserve map_desc (Some (hst_table made)) min_entries) in
            if bool_decide (status = STL_OK) then ret (STL_OK, reserved)
            else let* set := hash_set_rollback_materialization reserved set materialized in ret (status, set)
        | (status, set, _) => ret (status, set)
        end
  end.

Definition hash_set_add set (key : option V) : store U (stl_status * option hash_set) :=
  match set, key with
  | Some _, Some _ =>
      match hash_set_materialize_for_mutation set with
      | (STL_OK, Some made, materialized) =>
          let* found := reading (hash_map_contains (Some (hst_table made)) key) in
          if found : bool then ret (STL_OK, Some made)
          else
            let* (status, added) := on_table made (hash_map_put map_desc (Some (hst_table made)) key (Some present)) in
            if bool_decide (status = STL_OK) then ret (STL_OK, added)
            else let* set := hash_set_rollback_materialization added set materialized in ret (status, set)
      | (status, set, _) => ret (status, set)
      end
  | _, _ => ret (STL_INVALID_ARGUMENT, set)
  end.

Definition hash_set_remove set (key : option V) : store U (stl_status * option hash_set) :=
  match set with
  | None => ret (STL_INVALID_ARGUMENT, None)
  | Some s =>
      on_table s (let* (status, t, _) := hash_map_remove (Some (hst_table s)) key false in ret (status, t))
  end.

(** [for (index = 0u; index < count; ++index)], with [fuel] rows left. *)
Fixpoint add_rows (temporary : option hash_set) (keys : list V) (index fuel : nat)
    : store U (stl_status * option hash_set) :=
  match fuel with
  | O => ret (STL_OK, temporary)
  | S fuel =>
      let* key := reading (keys !! index) in
      let* (status, temporary) := hash_set_add temporary (Some key) in
      if bool_decide (status = STL_OK) then add_rows temporary keys (S index) fuel
      else let* temporary := hash_set_raw_destroy_storage temporary in ret (status, temporary)
  end.

(** [init] is what the initialisation of [temporary] answered. *)
Definition hash_set_from_common set (keys : option (list V)) (count : nat)
    (init : stl_status * option hash_set) : store U (stl_status * option hash_set) :=
  match set with
  | None => ret (STL_INVALID_ARGUMENT, None)
  | Some s =>
      if hm_initialized (hst_table s) then ret (STL_INVALID_ARGUMENT, set)
      else if negb (count =? 0)%nat && is_null keys then ret (STL_INVALID_ARGUMENT, set)
      else
        match init with
        | (STL_OK, temporary) =>
            let* (status, temporary) := add_rows temporary (default [] keys) 0 count in
            if bool_decide (status = STL_OK) then
              let generation := size_inc (hm_generation (hst_table s)) in
              ret (STL_OK, t ← temporary; Some (set_hst_table (set_hm_generation generation (hst_table t)) t))
            else ret (status, set)
        | (status, _) => ret (status, set)
        end
  end.

Definition hash_set_raw_from_array set (keys : option (list V)) (count : nat)
    (key_type : option cmeta_type_desc) (limit : Z) : store U (stl_status * option hash_set) :=
  if is_null key_type then ret (STL_INVALID_ARGUMENT, set)
  else hash_set_from_common set keys count (hash_set_raw_init (Some zero_hash_set) key_type limit).

Definition hash_set_from_array_bytes set (keys : option (list V)) (count : nat)
    (key_size key_align limit : Z) (hash equal ctx : option addr) : store U (stl_status * option hash_set) :=
  hash_set_from_common set keys count
    (hash_set_init_bytes (Some zero_hash_set) key_size key_align limit hash equal ctx).

(** Only the type of the elements is put back after it. *)
Definition hash_set_from_array set (keys : option (list V)) (count : nat) (limit : Z)
    : store U (stl_status * option hash_set) :=
  match set with
  | None => ret (STL_INVALID_ARGUMENT, None)
  | Some s =>
      if is_null (hst_element_type s) then ret (STL_INVALID_ARGUMENT, set)
      else
        let* (status, made) := hash_set_raw_from_array set keys count (hst_element_type s) limit in
        ret (status, t ← made; Some (mk_hash_set (hst_descriptor t) (hst_element_type s) (hst_table t)))
  end.

(** * Observers *)

Definition on_set {A} (default : A) (observe : option (hash_map_t V) -> A) set : A :=
  match set with None => default | Some s => observe (Some (hst_table s)) end.

Definition hash_set_size : option hash_set -> Z := on_set 0 hash_map_size.
Definition hash_set_capacity : option hash_set -> Z := on_set 0 hash_map_capacity.
Definition hash_set_entry_limit : option hash_set -> Z := on_set 0 hash_map_entry_limit.
Definition hash_set_generation : option hash_set -> Z := on_set 0 hash_map_generation.
Definition hash_set_empty set : bool := hash_set_size set =? 0.

(** The slot of the key, or NULL. *)
Definition hash_set_key_at set (slot : Z) : option (option nat) :=
  on_set (Some None) (fun t => hash_map_key_at t slot) set.

End HashSet.
