(* ===== verification/CstlHashSetTheorems.v ===== *)
(** A hash set is a finite set: whatever operations are called on it, from a handle that is
    only bound to its type or from an initialised one, every answer is one that the list of
    its elements gives, and a failure changes nothing. *)

From S2P Require Import Prelude.
From S2P Require Import CMetaType.
From S2P Require Import CstlSupport.
From S2P Require Import CstlObjects.
From S2P Require Import CstlHashMap.
From S2P Require Import CstlHashMapInvariant.
From S2P Require Import CstlHashMapRehash.
From S2P Require Import CstlHashMapOps.
From S2P Require Import CstlHashSet.

(** * Calls and their answers *)

Inductive hash_set_call (V : Type) :=
  | HashSetAdd (key : V)
  | HashSetContains (key : V)
  | HashSetRemove (key : V)
  | HashSetReserve (entries : Z)
  | HashSetElements
  | HashSetSize
  | HashSetClear.
Arguments HashSetAdd {V} key.
Arguments HashSetContains {V} key.
Arguments HashSetRemove {V} key.
Arguments HashSetReserve {V} entries.
Arguments HashSetElements {V}.
Arguments HashSetSize {V}.
Arguments HashSetClear {V}.

Inductive hash_set_answer (V : Type) :=
  | HashSetStatus (status : stl_status)
  | HashSetFlag (flag : bool)
  | HashSetList (elements : list V)
  | HashSetCount (count : Z)
  | HashSetCleared.
Arguments HashSetStatus {V} status.
Arguments HashSetFlag {V} flag.
Arguments HashSetList {V} elements.
Arguments HashSetCount {V} count.
Arguments HashSetCleared {V}.

Section Calls.
Context {V U : Type} `{HV : ObjectTraits V U}.
Context (map_desc set_desc : addr) (bool_type : cmeta_type_desc) (present : V).
#[local] Abbreviation hash_set := (hash_set_t V).

(** The key a slot number of [hash_set_key_at] refers to. *)
Definition key_of_slot (s : option hash_set) (slot : option nat) : option (option V) :=
  match slot with
  | None => Some None
  | Some i => s ← s; st ← hm_storage (hst_table s); object ← hs_keys st !! i; k ← cell_value object; Some (Some k)
  end.

(** A caller's loop over the slots. *)
Fixpoint keys_from (s : option hash_set) (slot fuel : nat) : option (list V) :=
  match fuel with
  | O => Some []
  | S fuel =>
      at_ ← hash_set_key_at s (Z.of_nat slot);
      key ← key_of_slot s at_;
      rest ← keys_from s (S slot) fuel;
      Some (option_list key ++ rest)
  end.

Definition run_hash_set_call (call : hash_set_call V) (s : option hash_set)
    : store U (hash_set_answer V * option hash_set) :=
  match call with
  | HashSetAdd k =>
      let* (status, s) := hash_set_add map_desc set_desc bool_type present s (Some k) in
      ret (HashSetStatus status, s)
  | HashSetContains k => let* b := reading (hash_set_contains s (Some k)) in ret (HashSetFlag b, s)
  | HashSetRemove k => let* (status, s) := hash_set_remove s (Some k) in ret (HashSetStatus status, s)
  | HashSetReserve n =>
      let* (status, s) := hash_set_reserve map_desc set_desc bool_type s n in ret (HashSetStatus status, s)
  | HashSetElements =>
      let* l := reading (keys_from s 0 (Z.to_nat (hash_set_capacity s))) in ret (HashSetList l, s)
  | HashSetSize => ret (HashSetCount (hash_set_size s), s)
  | HashSetClear => let* s := hash_set_clear s in ret (HashSetCleared, s)
  end.

Fixpoint run_hash_set_calls (calls : list (hash_set_call V)) (s : option hash_set)
    : store U (list (hash_set_answer V) * option hash_set) :=
  match calls with
  | [] => ret ([], s)
  | call :: calls =>
      let* (a, s) := run_hash_set_call call s in
      let* (answers, s) := run_hash_set_calls calls s in
      ret (a :: answers, s)
  end.

(** ** The list of elements *)

Definition among (equal : V -> V -> bool) (k : V) (keys : list V) : bool :=
  existsb (fun a => equal a k) keys.

Definition without (equal : V -> V -> bool) (k : V) (keys : list V) : list V :=
  List.filter (fun a => negb (equal a k)) keys.

(** What the set with the elements [keys] may answer.  [ready] says whether the handle is
    initialised; one that is not has no elements, and a removal from it is refused. *)
Inductive hash_set_answers (equal : V -> V -> bool) (limit : Z) (ready : bool) (keys : list V) :
    hash_set_call V -> hash_set_answer V -> bool -> list V -> Prop :=
  | hsa_add k :
      among equal k keys = false -> Z.of_nat (length keys) < limit ->
      hash_set_answers equal limit ready keys (HashSetAdd k) (HashSetStatus STL_OK) true (k :: keys)
  | hsa_add_present k :
      among equal k keys = true ->
      hash_set_answers equal limit ready keys (HashSetAdd k) (HashSetStatus STL_OK) ready keys
  | hsa_add_no_room k status :
      among equal k keys = false -> no_room status ->
      (limit <= Z.of_nat (length keys) -> status = STL_CAPACITY_EXCEEDED) ->
      hash_set_answers equal limit ready keys (HashSetAdd k) (HashSetStatus status) ready keys
  | hsa_contains k :
      hash_set_answers equal limit ready keys (HashSetContains k) (HashSetFlag (among equal k keys)) ready keys
  | hsa_remove k :
      among equal k keys = true ->
      hash_set_answers equal limit ready keys (HashSetRemove k) (HashSetStatus STL_OK) ready (without equal k keys)
  | hsa_remove_absent k :
      ready = true -> among equal k keys = false ->
      hash_set_answers equal limit ready keys (HashSetRemove k) (HashSetStatus STL_NOT_FOUND) ready keys
  | hsa_remove_unready k :
      ready = false ->
      hash_set_answers equal limit ready keys (HashSetRemove k) (HashSetStatus STL_INVALID_ARGUMENT) ready keys
  | hsa_reserve n :
      n <= limit ->
      hash_set_answers equal limit ready keys (HashSetReserve n) (HashSetStatus STL_OK)
        (ready || negb (n =? 0)) keys
  | hsa_reserve_no_room n status :
      no_room status -> (limit < n -> status = STL_CAPACITY_EXCEEDED) ->
      hash_set_answers equal limit ready keys (HashSetReserve n) (HashSetStatus status) ready keys
  | hsa_elements l :
      l ≡ₚ keys -> hash_set_answers equal limit ready keys HashSetElements (HashSetList l) ready keys
  | hsa_size :
      hash_set_answers equal limit ready keys HashSetSize (HashSetCount (Z.of_nat (length keys))) ready keys
  | hsa_clear : hash_set_answers equal limit ready keys HashSetClear HashSetCleared ready [].

Inductive hash_set_answers_all (equal : V -> V -> bool) (limit : Z) :
    bool -> list V -> list (hash_set_call V) -> list (hash_set_answer V) -> list V -> Prop :=
  | hash_set_answers_nil ready keys : hash_set_answers_all equal limit ready keys [] [] keys
  | hash_set_answers_cons ready keys call a ready1 keys1 calls as_ keys2 :
      hash_set_answers equal limit ready keys call a ready1 keys1 ->
      hash_set_answers_all equal limit ready1 keys1 calls as_ keys2 ->
      hash_set_answers_all equal limit ready keys (call :: calls) (a :: as_) keys2.

(** A call that only asks, and one that is refused, in which case even a handle that was
    only bound to its type is as it was, field by field. *)
Definition leaves_handle (call : hash_set_call V) (a : hash_set_answer V) : Prop :=
  match call, a with
  | HashSetAdd _, HashSetStatus status | HashSetRemove _, HashSetStatus status
  | HashSetReserve _, HashSetStatus status => status <> STL_OK
  | HashSetClear, _ => False
  | _, _ => True
  end.

Definition hash_set_call_ok (call : hash_set_call V) : Prop :=
  match call with HashSetReserve n => is_size n | _ => True end.

(** ** Elements as entries *)

Definition entry_of_key (k : V) : V * V := (k, present).

Lemma entry_among c k keys : assoc_has c k (entry_of_key <$> keys) = among (the_equal c) k keys.
Proof. induction keys as [|a keys IH]; [done|]. unfold among in *. csimpl. by rewrite <- IH. Qed.

Lemma entry_without c k keys :
  assoc_remove c k (entry_of_key <$> keys) = entry_of_key <$> without (the_equal c) k keys.
Proof.
  induction keys as [|a keys IH]; [done|]. unfold assoc_remove, without in *. csimpl. unfold has_key at 1. cbn [fst entry_of_key].
  destruct (the_equal c a k); csimpl; by rewrite IH.
Qed.

Lemma among_perm (equal : V -> V -> bool) k l l' : l ≡ₚ l' -> among equal k l = among equal k l'.
Proof.
  unfold among. induction 1; csimpl; [done|congruence| |congruence].
  destruct (equal _ k), (equal _ k); done.
Qed.

End Calls.

(** * A handle and its elements *)

Section Refinement.
Context {V U : Type} `{HV : ObjectTraits V U} `{!TraitLaws V U}.
Context (map_desc set_desc : addr) (bool_type : cmeta_type_desc) (present : V).
Implicit Types w : object_world U.
Implicit Types s : hash_set_t V.
Implicit Types keys : list V.
#[local] Abbreviation run_call := (run_hash_set_call map_desc set_desc bool_type present).
#[local] Abbreviation run_calls := (run_hash_set_calls map_desc set_desc bool_type present).
#[local] Abbreviation entry_of := (entry_of_key present).

(** The settings that count: those of the table, or of the type a handle is bound to. *)
Definition set_config s : hash_map_config :=
  if hm_initialized (hst_table s) then hm_config (hst_table s)
  else mk_hash_map_config 0 0 0 0 0 0 SIZE_MAX (hst_element_type s) (Some bool_type) None None None.

#[local] Abbreviation equal s := (the_equal (set_config s)).
#[local] Abbreviation limit s := (hc_entry_limit (set_config s)).

(** A handle that is only bound to a type that can be stored. *)
Record hash_set_bound s : Prop := {
  hb_zero : hash_set_is_typed_semantic_zero set_desc (Some s) = true;
  hb_sizes : type_sizes (hst_element_type s) /\ type_sizes (Some bool_type);
  hb_traits : fst (hash_set_raw_init bool_type (Some s) (hst_element_type s) SIZE_MAX) = STL_OK;
}.

Definition hash_set_inv s (ready : bool) keys : Prop :=
  if ready then map_inv (hst_table s) /\ map_contents (hst_table s) ≡ₚ entry_of <$> keys
  else hash_set_bound s /\ keys = [].

Record hash_set_kept s s' : Prop := {
  hk_descriptor : hst_descriptor s' = hst_descriptor s;
  hk_element_type : hst_element_type s' = hst_element_type s;
  hk_equal : equal s' = equal s;
  hk_limit : limit s' = limit s;
  hk_laws : HashLaws (set_config s) -> HashLaws (set_config s');
}.

#[export] Instance hash_set_kept_preorder : PreOrder hash_set_kept.
Proof. split; [by split|]. intros s1 s2 s3 [] []. split; [congruence..|auto]. Qed.

#[local] Abbreviation blocks s := (owned_blocks (hst_table s)).
#[local] Abbreviation objects s := (owned_objects (hst_table s)).

(** A new table with the settings of the old one. *)
Lemma kept_table s t :
  hm_initialized (hst_table s) = true -> hm_initialized t = true ->
  hm_config t = hm_config (hst_table s) -> hash_set_kept s (set_hst_table t s).
Proof.
  intros H1 H2 Hc. assert (set_config (set_hst_table t s) = set_config s) as E
    by (unfold set_config; simpl; by rewrite H1, H2).
  split; rewrite ?E; done.
Qed.

Lemma bound_fields s :
  hash_set_is_typed_semantic_zero set_desc (Some s) = true ->
  is_Some (hst_element_type s) /\ hm_initialized (hst_table s) = false /\ hm_storage (hst_table s) = None /\
  hm_size (hst_table s) = 0.
Proof.
  unfold hash_set_is_typed_semantic_zero. intros H. repeat (apply andb_true_iff in H as [H ?]).
  repeat match goal with
  | Hn : negb _ = true |- _ => apply negb_true_iff in Hn
  | Hn : is_null _ = false |- _ => apply is_null_false in Hn
  | Hn : is_null _ = true |- _ => apply is_null_true in Hn
  | Hn : (_ =? _) = true |- _ => apply Z.eqb_eq in Hn
  end. tauto.
Qed.

Lemma bound_owns s : hash_set_bound s -> blocks s = 0 /\ objects s = 0.
Proof.
  intros [Hz _ _]. destruct (bound_fields s Hz) as (_ & _ & Hst & Hsz).
  unfold owned_blocks, owned_objects. by rewrite Hst, Hsz.
Qed.

(** What materialization leaves. *)
Record made_ready s (ready : bool) keys s1 (materialized : bool) : Prop := {
  mr_inv : hash_set_inv s1 true keys;
  mr_kept : hash_set_kept s s1;
  mr_blocks : blocks s1 = blocks s;
  mr_objects : objects s1 = objects s;
  mr_ready : materialized = negb ready;
  mr_fresh : materialized = true -> blocks s1 = 0 /\ objects s1 = 0;
  mr_same : materialized = false -> s1 = s;
}.

Lemma materialize_spec s ready keys :
  hash_set_inv s ready keys ->
  exists s1 materialized,
    hash_set_materialize_for_mutation set_desc bool_type (Some s) = (STL_OK, Some s1, materialized) /\
    made_ready s ready keys s1 materialized.
Proof.
  intros Hs. unfold hash_set_materialize_for_mutation. destruct ready.
  - destruct Hs as [Hm Hc]. rewrite (mi_initialized _ Hm). exists s, false. split; [done|]. by split.
  - destruct Hs as [Hb ->]. pose proof Hb as [Hz [Hk Hbt] Hok]. pose proof (bound_owns s Hb) as [Hbl Hob].
    destruct (bound_fields s Hz) as (Ht & Hi & Hst & Hsz). rewrite Hi, Hz. cbn [negb].
    unfold hash_set_raw_init in *.
    pose proof (raw_init_spec (hst_table s) _ _ SIZE_MAX Hi Hk Hbt ltac:(done)) as Hr.
    destruct (hash_map_raw_init _ _ _ _) as [status t]. cbn [fst] in Hok. subst status.
    destruct Hr as (t' & -> & [Hinv Hst' Hkt Hvt Hl]). cbn [mbind option_bind].
    eexists _, true. split; [done|]. destruct Ht as [et Het].
    assert (map_contents t' = []) as Hcon by (unfold map_contents; by rewrite Hst').
    pose proof (mi_size _ Hinv) as Hsize. rewrite Hcon in Hsize. cbn in Hsize.
    split; cbn [hst_table set_hst_table set_hm_generation]; try done.
    + split; [by destruct Hinv as [? ? ? ?]|]. unfold map_contents in *. cbn. by rewrite Hcon.
    + assert (equal (set_hst_table (set_hm_generation (hm_generation (hst_table s)) t') s) = equal s) as He.
      { unfold set_config. cbn. rewrite (mi_initialized _ Hinv), Hi. unfold the_equal, hash_map_equal. by rewrite Hkt, Het. }
      split; try done; unfold set_config; cbn; rewrite (mi_initialized _ Hinv), Hi; cbn; [done|].
      apply laws_typed; cbn; [by rewrite Het|done].
    + rewrite Hbl. unfold owned_blocks. cbn. by rewrite Hst'.
    + rewrite Hob. unfold owned_objects. cbn. by rewrite Hsize.
    + intros _. unfold owned_blocks, owned_objects. cbn. by rewrite Hst', Hsize.
Qed.

(** After a failure that left the table alone, the handle is the one it was. *)
Lemma set_rollback_spec s ready keys s1 materialized w :
  made_ready s ready keys s1 materialized ->
  wp (hash_set_rollback_materialization (Some s1) (Some s) materialized)
    (fun r w' => r = Some s /\ delta w w' 0 0) w.
Proof.
  intros [[Hm _] _ _ _ _ Hf Hsm]. unfold hash_set_rollback_materialization.
  destruct materialized; cbn [negb].
  - destruct (Hf eq_refl) as [Hb Ho]. cbn [hash_set_raw_destroy_storage].
    eapply wp_bind, wp_bind_mono; [by apply raw_destroy_spec|].
    intros r w1 [-> H1]. apply wp_ret, wp_ret. split; [done|]. solve_delta.
  - rewrite Hsm by done. apply wp_ret. split; [done|apply delta_refl].
Qed.

Definition hash_set_call_sound s (ready : bool) keys call (r : hash_set_answer V * option (hash_set_t V)) w w' : Prop :=
  exists a s' ready' keys', r = (a, Some s') /\ hash_set_inv s' ready' keys' /\ hash_set_kept s s' /\
    hash_set_answers (equal s) (limit s) ready keys call a ready' keys' /\
    (leaves_handle call a -> s' = s) /\
    delta w w' (blocks s' - blocks s) (objects s' - objects s).

Lemma same_sound s ready keys call a w w' :
  hash_set_inv s ready keys -> hash_set_answers (equal s) (limit s) ready keys call a ready keys ->
  delta w w' 0 0 -> hash_set_call_sound s ready keys call (a, Some s) w w'.
Proof. intros Hs Ha Hd. exists a, s, ready, keys. rewrite !Z.sub_diag. by split_and!. Qed.

Lemma inv_ready s ready keys : hash_set_inv s ready keys -> hm_initialized (hst_table s) = ready.
Proof. destruct ready; [by intros [[] _]|]. intros [[Hz _ _] _]. by apply bound_fields in Hz as (_ & ? & _). Qed.

Lemma bound_table s keys :
  hash_set_inv s false keys -> hash_map_valid (Some (hst_table s)) = false.
Proof. intros Hs. unfold hash_map_valid. by rewrite (inv_ready _ _ _ Hs). Qed.

Lemma ready_config_eq s keys : hash_set_inv s true keys -> set_config s = hm_config (hst_table s).
Proof. intros Hs. unfold set_config. by rewrite (inv_ready _ _ _ Hs). Qed.

(** The new handle after a change of the table. *)
Lemma set_changed_sound s ready keys s1 b call a t' keys' w w' :
  made_ready s ready keys s1 b -> map_inv t' -> hm_config t' = hm_config (hst_table s1) ->
  map_contents t' ≡ₚ entry_of <$> keys' ->
  hash_set_answers (equal s) (limit s) ready keys call a true keys' -> ~ leaves_handle call a ->
  delta w w' (owned_blocks t' - blocks s1) (owned_objects t' - objects s1) ->
  hash_set_call_sound s ready keys call (a, Some (set_hst_table t' s1)) w w'.
Proof.
  intros [Hs1 Hk Hb Ho _ _ _] Ht Hc Hl Ha Hq Hd. exists a, (set_hst_table t' s1), true, keys'.
  split_and!; [done|done| |done|done|cbn [hst_table set_hst_table]; by rewrite <- Hb, <- Ho].
  etransitivity; [exact Hk|]. apply kept_table; [by apply (inv_ready _ _ _ Hs1)|apply Ht|done].
Qed.

Lemma contents_among s keys k :
  hash_set_inv s true keys ->
  assoc_has (hm_config (hst_table s)) k (map_contents (hst_table s)) = among (equal s) k keys.
Proof.
  intros Hs. rewrite (ready_config_eq _ _ Hs). destruct Hs as [_ Hl].
  by rewrite (assoc_has_proper _ k _ _ Hl), entry_among.
Qed.

Lemma hash_set_contains_spec s ready keys k :
  HashLaws (set_config s) -> hash_set_inv s ready keys ->
  hash_set_contains (Some s) (Some k) = Some (among (equal s) k keys).
Proof.
  intros Hl Hs. cbn [hash_set_contains]. destruct ready.
  - pose proof (contents_among s keys k Hs) as Ha. rewrite (ready_config_eq _ _ Hs) in Hl.
    rewrite contains_spec by (done || apply Hs). by rewrite Ha.
  - unfold hash_map_contains, hash_map_get_const, hash_map_get. rewrite (bound_table s keys Hs). cbn. by destruct Hs as [_ ->].
Qed.

Lemma table_self s : set_hst_table (hst_table s) s = s.
Proof. by destruct s. Qed.

Lemma hash_set_add_sound s ready keys k w :
  HashLaws (set_config s) -> hash_set_inv s ready keys ->
  wp (run_call (HashSetAdd k) (Some s))
    (fun r w' => hash_set_call_sound s ready keys (HashSetAdd k) r w w') w.
Proof.
  intros Hlaws Hs. cbn [run_hash_set_call hash_set_add].
  destruct (materialize_spec s ready keys Hs) as (s1 & b & -> & Hr). cbn iota beta.
  pose proof Hr as [Hs1 Hk Hb Ho Hrd Hf Hsm]. pose proof (hk_laws _ _ Hk Hlaws) as Hlaws1.
  pose proof (hash_set_contains_spec s1 true keys k Hlaws1 Hs1) as Hc. cbn [hash_set_contains] in Hc.
  rewrite (hk_equal _ _ Hk) in Hc.
  eapply wp_bind, wp_bind, wp_reading; [exact Hc|].
  destruct (among _ k keys) eqn:Ha.
  - assert (ready = true) as -> by (destruct ready; [done|]; by destruct Hs as [_ ->]).
    rewrite Hsm by done. apply wp_ret, wp_ret. apply same_sound; [done|by apply hsa_add_present|apply delta_refl].
  - unfold on_table. eapply wp_bind, wp_bind_mono.
    { apply put_spec; [by rewrite <- (ready_config_eq _ _ Hs1)|by left; apply Hs1]. }
    pose proof (contents_among s1 keys k Hs1) as Hca. rewrite (hk_equal _ _ Hk), Ha in Hca.
    destruct Hs1 as [Hm1 Hl1]. assert (hm_size (hst_table s1) = Z.of_nat (length keys)) as Hsz
      by (rewrite (mi_size _ Hm1), Hl1; by rewrite length_fmap).
    assert (limit_of (hst_table s1) = limit s) as Hlim.
    { rewrite <- (hk_limit _ _ Hk). unfold limit_of, set_config. by rewrite (mi_initialized _ Hm1). }
    intros r w1 [(t' & -> & Ht' & Hcfg & (Hcon & Hroom) & Hd)|(status & -> & Hne & Hbad & Hd)]; apply wp_ret.
    + rewrite bool_decide_true by done. apply wp_ret, wp_ret.
      unfold config_kept in Hcfg. rewrite (mi_initialized _ Hm1) in Hcfg.
      eapply set_changed_sound; [done|done|done| |apply hsa_add; [done|]|by intros []|exact Hd].
      * rewrite Hcon. unfold assoc_put. rewrite Hca. csimpl. by rewrite Hl1.
      * rewrite <- Hsz, <- Hlim. by apply Hroom.
    + rewrite bool_decide_false by done. destruct (Hbad (mi_initialized _ Hm1)) as [Hn Hfull].
      eapply wp_bind_mono; [cbn [mbind option_bind]; rewrite table_self; by eapply set_rollback_spec|].
      intros r w2 [-> H2]. apply wp_ret, wp_ret. apply same_sound; [done| |solve_delta].
      apply hsa_add_no_room; [done|done|]. intros. apply Hfull; [done|]. by rewrite Hsz, Hlim.
Qed.

Lemma hash_set_reserve_sound s ready keys n w :
  HashLaws (set_config s) -> hash_set_inv s ready keys -> is_size n ->
  wp (run_call (HashSetReserve n) (Some s))
    (fun r w' => hash_set_call_sound s ready keys (HashSetReserve n) r w w') w.
Proof.
  intros Hlaws Hs Hn. cbn [run_hash_set_call hash_set_reserve]. rewrite (inv_ready _ _ _ Hs).
  assert (0 <= limit s) as Hlim0.
  { destruct ready; [|unfold set_config; by rewrite (inv_ready _ _ _ Hs)].
    rewrite (ready_config_eq _ _ Hs). destruct Hs as [[_ [] _ _] _]. unfold is_size in *. lia. }
  destruct (negb ready && _ && (n =? 0)) eqn:E.
  { apply wp_bind, wp_ret, wp_ret.
    apply andb_true_iff in E as [[->%negb_true_iff _]%andb_true_iff ->%Z.eqb_eq].
    apply same_sound; [done|by constructor|apply delta_refl]. }
  destruct (materialize_spec s ready keys Hs) as (s1 & b & -> & Hr). cbn iota beta.
  pose proof Hr as [Hs1 Hk Hb Ho Hrd Hf Hsm]. pose proof (hk_laws _ _ Hk Hlaws) as Hlaws1.
  pose proof Hs1 as [Hm1 Hl1]. unfold on_table. eapply wp_bind, wp_bind, wp_bind_mono.
  { apply reserve_spec; [by rewrite <- (ready_config_eq _ _ Hs1)|by left|done]. }
  assert (limit_of (hst_table s1) = limit s) as Hlim.
  { rewrite <- (hk_limit _ _ Hk). unfold limit_of, set_config. by rewrite (mi_initialized _ Hm1). }
  intros r w1 [(_ & _ & Hni & _)|[(t' & -> & Ht' & Hcfg & (Hcon & Hle & _) & Hd)|(status & -> & Hne & Hbad & Hd)]];
    [by rewrite (mi_initialized _ Hm1) in Hni|apply wp_ret..].
  - rewrite bool_decide_true by done. apply wp_ret, wp_ret.
    unfold config_kept in Hcfg. rewrite (mi_initialized _ Hm1) in Hcfg.
    eapply set_changed_sound; [done|done|done|by rewrite Hcon| |by intros []|exact Hd].
    replace true with (ready || negb (n =? 0)); [apply hsa_reserve; by rewrite <- Hlim|].
    destruct ready; [done|]. cbn [negb andb orb] in *. destruct Hs as [[Hz _ _] _]. rewrite Hz in E. cbn in E. by rewrite E.
  - rewrite bool_decide_false by done. destruct (Hbad (mi_initialized _ Hm1)) as [Hn' Hfull].
    eapply wp_bind_mono; [cbn [mbind option_bind]; rewrite table_self; by eapply set_rollback_spec|].
    intros r w2 [-> H2]. apply wp_ret, wp_ret. apply same_sound; [done| |solve_delta].
    apply hsa_reserve_no_room; [done|]. by rewrite <- Hlim.
Qed.

Lemma hash_set_remove_sound s ready keys k w :
  HashLaws (set_config s) -> hash_set_inv s ready keys ->
  wp (run_call (HashSetRemove k) (Some s))
    (fun r w' => hash_set_call_sound s ready keys (HashSetRemove k) r w w') w.
Proof.
  intros Hlaws Hs. cbn [run_hash_set_call hash_set_remove]. unfold on_table. destruct ready.
  - eapply wp_bind, wp_bind, wp_bind_mono.
    { apply remove_spec; [by rewrite <- (ready_config_eq _ _ Hs)|apply Hs]. }
    pose proof (contents_among s keys k Hs) as Ha. cbv zeta. intros r w1.
    destruct (assoc_get _ k _) as [v|] eqn:Hg.
    + intros (t' & -> & Ht' & Hcfg & Hcon & Hd). apply wp_ret, wp_ret, wp_ret.
      eapply (set_changed_sound s true keys s false); [|done|done| |apply hsa_remove|by intros []|].
      * by split.
      * rewrite Hcon. destruct Hs as [Hm Hl]. rewrite (assoc_remove_proper _ k _ _ Hl), entry_without.
        unfold set_config. by rewrite (mi_initialized _ Hm).
      * rewrite <- Ha. destruct (assoc_has _ k _) eqn:Hh; [done|]. apply assoc_get_None in Hh. congruence.
      * by rewrite Z.add_0_r in Hd.
    + intros [-> Hd]. apply wp_ret, wp_ret, wp_ret. cbn [mbind option_bind]. rewrite table_self.
      apply same_sound; [done| |done]. apply hsa_remove_absent; [done|]. rewrite <- Ha. by apply assoc_get_None.
  - unfold hash_map_remove. rewrite (bound_table s keys Hs). cbn [negb].
    apply wp_bind, wp_bind, wp_bind, wp_ret, wp_ret, wp_ret, wp_ret. cbn [mbind option_bind]. rewrite table_self.
    apply same_sound; [done|by apply hsa_remove_unready|apply delta_refl].
Qed.

(** The loop over the slots meets every element. *)
Lemma keys_from_spec s st i n :
  map_inv (hst_table s) -> hm_storage (hst_table s) = Some st ->
  (i + n <= Z.to_nat (hm_capacity (hst_table s)))%nat ->
  keys_from (Some s) i n = Some (fst <$> omap (entry_at st) (seq i n)).
Proof.
  intros Hm Hst. pose proof (mi_table _ Hm) as Ht. rewrite Hst in Ht. destruct Ht as [Hi _].
  revert i. induction n as [|n IH]; intros i Hn; [done|].
  cbn [keys_from seq]. rewrite (IH (S i)) by lia.
  unfold hash_set_key_at, on_set, hash_map_key_at, occupied_slot, observe. rewrite (map_valid _ Hm).
  rewrite (proj2 (Z.ltb_lt _ _)) by lia. rewrite Hst, Nat2Z.id. cbn [mbind option_bind].
  destruct (si_slots _ _ _ Hi i ltac:(lia)) as [(k & v & Ho & _)|Hu].
  - pose proof (proj2 (entry_at_occupied _ _ _ _) Ho) as He. destruct Ho as (Hs & Hk & _).
    rewrite Hs. cbn. rewrite Hst. cbn. rewrite Hk. cbn. by rewrite He.
  - pose proof (unoccupied_entry _ _ _ Hu) as He. destruct Hu as (state & key & v & Hs & Hor & _).
    rewrite Hs. cbn [mbind option_bind]. rewrite (proj2 (Z.eqb_neq state SALTS_HASH_OCCUPIED)) by (by destruct Hor as [-> | ->]).
    cbn. by rewrite He.
Qed.

Lemma hash_set_elements_sound s ready keys w :
  hash_set_inv s ready keys ->
  wp (run_call HashSetElements (Some s))
    (fun r w' => hash_set_call_sound s ready keys HashSetElements r w w') w.
Proof.
  intros Hs. cbn [run_hash_set_call].
  assert (exists l, keys_from (Some s) 0 (Z.to_nat (hash_set_capacity (Some s))) = Some l /\ l ≡ₚ keys) as (l & E & Hl).
  { unfold hash_set_capacity, on_set, hash_map_capacity, observe. destruct ready.
    - destruct Hs as [Hm Hl]. rewrite (map_valid _ Hm). pose proof (mi_table _ Hm) as Ht.
      unfold map_contents in Hl. destruct (hm_storage (hst_table s)) as [st|] eqn:Hst.
      + destruct Ht as [Hi _]. rewrite (keys_from_spec s st) by (done || lia). eexists. split; [done|].
        rewrite <- (proj1 (si_lengths _ _ _ Hi)). fold (contents st). rewrite Hl, <- list_fmap_compose.
        by rewrite list_fmap_id.
      + destruct Ht as [-> _]. cbn. exists []. split; [done|]. apply Permutation_nil in Hl. by destruct keys.
    - rewrite (bound_table s keys Hs). exists []. split; [done|]. by destruct Hs as [_ ->]. }
  eapply wp_bind, wp_reading; [exact E|]. apply wp_ret. apply same_sound; [done|by constructor|apply delta_refl].
Qed.

Lemma hash_set_size_spec s ready keys :
  hash_set_inv s ready keys -> hash_set_size (Some s) = Z.of_nat (length keys).
Proof.
  intros Hs. unfold hash_set_size, on_set, hash_map_size, observe. destruct ready.
  - destruct Hs as [Hm Hl]. rewrite (map_valid _ Hm), (mi_size _ Hm), Hl. by rewrite length_fmap.
  - rewrite (bound_table s keys Hs). by destruct Hs as [_ ->].
Qed.

Lemma hash_set_clear_sound s ready keys w :
  hash_set_inv s ready keys ->
  wp (run_call HashSetClear (Some s))
    (fun r w' => hash_set_call_sound s ready keys HashSetClear r w w') w.
Proof.
  intros Hs. cbn [run_hash_set_call hash_set_clear]. destruct ready.
  - eapply wp_bind, wp_bind_mono; [apply clear_spec, Hs|].
    intros r w1 (t' & -> & Ht' & Hcon & Hcfg & _ & Hd). apply wp_ret, wp_ret.
    eapply (set_changed_sound s true keys s false) with (keys' := []); [by split|done|done|by rewrite Hcon|constructor|by intros []|done].
  - pose proof (bound_table s keys Hs) as Hv. unfold hash_map_clear. rewrite Hv. cbn [negb].
    apply wp_bind, wp_bind, wp_ret, wp_ret, wp_ret. cbn [mbind option_bind]. rewrite table_self.
    destruct Hs as [Hb ->]. apply same_sound; [done|constructor|apply delta_refl].
Qed.

Lemma hash_set_call_spec s ready keys call w :
  HashLaws (set_config s) -> hash_set_inv s ready keys -> hash_set_call_ok call ->
  wp (run_call call (Some s)) (fun r w' => hash_set_call_sound s ready keys call r w w') w.
Proof.
  intros Hlaws Hs Hok. destruct call as [k|k|k|n| | |].
  - by apply hash_set_add_sound.
  - eapply wp_bind, wp_reading; [by eapply hash_set_contains_spec|]. apply wp_ret.
    apply same_sound; [done|constructor|apply delta_refl].
  - by apply hash_set_remove_sound.
  - by apply hash_set_reserve_sound.
  - by apply hash_set_elements_sound.
  - pose proof (hash_set_size_spec _ _ _ Hs) as Hsz. cbn [run_hash_set_call]. rewrite Hsz. apply wp_ret.
    apply same_sound; [done|constructor|apply delta_refl].
  - by apply hash_set_clear_sound.
Qed.

(** Any calls. *)
Lemma hash_set_calls_spec calls s ready keys w :
  HashLaws (set_config s) -> hash_set_inv s ready keys -> Forall hash_set_call_ok calls ->
  wp (run_calls calls (Some s)) (fun r w' => exists as_ s' ready' keys',
    r = (as_, Some s') /\ hash_set_inv s' ready' keys' /\ hash_set_kept s s' /\
    hash_set_answers_all (equal s) (limit s) ready keys calls as_ keys' /\
    delta w w' (blocks s' - blocks s) (objects s' - objects s)) w.
Proof.
  revert s ready keys w. induction calls as [|call calls IH]; intros s ready keys w Hlaws Hs Hok; simpl.
  { apply wp_ret. exists [], s, ready, keys. rewrite !Z.sub_diag.
    split_and!; [done|done|done|constructor|apply delta_refl]. }
  inversion_clear Hok as [|? ? Hc Hcs].
  eapply wp_bind_mono; [by apply hash_set_call_spec|].
  intros r w1 (a & s1 & ready1 & keys1 & -> & Hs1 & Hk1 & Ha & _ & H1).
  eapply wp_bind_mono; [apply (IH s1 ready1 keys1); [by apply Hk1|done..]|].
  intros r w2 (as_ & s2 & ready2 & keys2 & -> & Hs2 & Hk2 & Has & H2).
  rewrite (hk_equal _ _ Hk1), (hk_limit _ _ Hk1) in Has.
  apply wp_ret. exists (a :: as_), s2, ready2, keys2.
  split_and!; [done|done|by etransitivity|by econstructor|solve_delta].
Qed.

(** * From the creation on *)

(** Handles without elements: bound to a type, or what initialisation makes of one whose
    table is zero. *)
Inductive hash_set_created : bool -> hash_set_t V -> Prop :=
  | hash_set_created_bound s : hash_set_bound s -> hash_set_created false s
  | hash_set_created_typed key_type limit s s' :
      hm_initialized (hst_table s) = false -> type_sizes key_type -> type_sizes (Some bool_type) ->
      is_size limit ->
      hash_set_raw_init bool_type (Some s) key_type limit = (STL_OK, Some s') ->
      hash_set_created true s'
  | hash_set_created_bytes key_size key_align limit hash eq ctx s s' :
      hm_initialized (hst_table s) = false -> is_size key_size -> is_size key_align -> is_size limit ->
      hash_set_init_bytes (Some s) key_size key_align limit hash eq ctx = (STL_OK, Some s') ->
      hash_set_created true s'.

Lemma fresh_created s t key_type value_type limit :
  fresh_map t key_type value_type limit ->
  hash_set_inv (set_hst_table t s) true [] /\ owned_blocks t = 0 /\ owned_objects t = 0.
Proof.
  intros [Hm Hst _ _ _]. pose proof (mi_size _ Hm) as Hsz.
  unfold map_contents in Hsz. rewrite Hst in Hsz. cbn in Hsz.
  split_and!; [split; [done|]| |]; cbn; unfold map_contents, owned_blocks, owned_objects; by rewrite ?Hst, ?Hsz.
Qed.

Lemma hash_set_created_inv ready s :
  hash_set_created ready s -> hash_set_inv s ready [] /\ blocks s = 0 /\ objects s = 0.
Proof.
  intros [s0 Hb|kt lim s0 s' Hi Hk Hb Hl E|ks ka lim h e x s0 s' Hi Hks Hka Hl E].
  - by split; [split|apply bound_owns].
  - unfold hash_set_raw_init in E. pose proof (raw_init_spec (hst_table s0) kt (Some bool_type) lim Hi Hk Hb Hl) as Hr.
    destruct (hash_map_raw_init _ _ _ _) as [status t]. injection E as -> E.
    destruct Hr as (t' & -> & Hf). injection E as <-. by eapply fresh_created.
  - unfold hash_set_init_bytes in E.
    pose proof (init_bytes_spec (hst_table s0) ks ka 1 1 lim h e x Hi Hks Hka ltac:(done) ltac:(done) Hl) as Hr.
    destruct (hash_map_init_bytes _ _ _ _ _ _ _ _ _) as [status t]. injection E as -> E.
    destruct Hr as (t' & -> & Hf). injection E as <-. by eapply fresh_created.
Qed.

(** C24: (refinement) Whatever operations are called on a hash set whose elements are hashed
    lawfully, initialised or only bound to its type, in whatever order, all are defined and
    return, and the answers are those of a finite set: an addition of a new element makes it
    one larger, of one that is there changes nothing, the slots hold each element once, and
    an addition or reservation fails only for want of memory or capacity.  A call that is
    refused, after whatever calls, leaves the handle exactly as it was, also one that was only
    bound to its type and was initialised for the call. *)
Theorem hash_set_refines_set ready s calls w :
  hash_set_created ready s -> HashLaws (set_config s) -> Forall hash_set_call_ok calls ->
  exists as_ s' w' ready' keys,
    run_calls calls (Some s) w = Some ((as_, Some s'), w') /\
    hash_set_answers_all (equal s) (limit s) ready [] calls as_ keys /\
    hash_set_inv s' ready' keys /\ hash_set_kept s s' /\
    forall call, hash_set_call_ok call -> exists a s'' w'',
      run_call call (Some s') w' = Some ((a, Some s''), w'') /\ (leaves_handle call a -> s'' = s').
Proof.
  intros [Hs _]%hash_set_created_inv Hl Hok.
  destruct (wp_run _ _ _ (hash_set_calls_spec calls s ready [] w Hl Hs Hok))
    as (r & w' & Hrun & as_ & s' & ready' & keys & -> & Hs' & Hk & ? & _).
  exists as_, s', w', ready', keys. split_and!; [done..|]. intros call Hc.
  destruct (wp_run _ _ _ (hash_set_call_spec s' ready' keys call w' (hk_laws _ _ Hk Hl) Hs' Hc))
    as (r & w'' & Hcall & a & s'' & _ & _ & -> & _ & _ & _ & Hsame & _).
  by exists a, s'', w''.
Qed.

End Refinement.
