(* ===== verification/CstlSequence.v ===== *)
(** What the vector and the heap of cstl share (cstl/src/vec.c, cstl/src/heap.c,
    cstl/src/vec_memory.h): an array of objects that grows, and its storage.

    The two sources repeat the same functions with their own names; here each is one
    definition, and the files of the containers give it the name and the minimal
    capacity it has there. *)

From S2P Require Import Prelude.
From S2P Require Import CMetaType.
From S2P Require Import CstlSupport.

(** * Storage *)

(** An allocator a vector is bound to: its context and its callbacks. *)
Record stl_allocator := mk_stl_allocator {
  al_context : option addr;
  al_allocate : option addr;
  al_deallocate : option addr;
}.

(** The callbacks of allocators, by address. *)
Class AllocatorCalls (U : Type) := {
  call_allocate : addr -> option addr -> Z -> U -> (stl_status * option Z) * U;
  call_deallocate : addr -> option addr -> Z -> Z -> U -> U;
}.

(** The address of the payload, and what [vec_memory_allocate] stores before it when
    an allocator was given: the original pointer and the byte count. *)
Record memory_block := mk_memory_block {
  bk_address : Z;
  bk_receipt : option (Z * Z);
}.

Definition sizeof_receipt : Z := 16.

(** An array in a block. *)
Record storage (V : Type) := mk_storage {
  st_block : memory_block;
  st_cells : list (cell V);
}.
Arguments mk_storage {V}.
Arguments st_block {V}.
Arguments st_cells {V}.

(** The fields of [vec_t] and [heap_t] that only initialisation sets. *)
Record sequence_config := mk_sequence_config {
  sc_size : Z;
  sc_stride : Z;
  sc_align : Z;
  sc_limit : Z;
  sc_type : option cmeta_type_desc;
}.

Definition zero_sequence_config : sequence_config := mk_sequence_config 0 0 0 0 None.

(** [data], [size], [capacity] and the configuration. *)
Record sequence (V : Type) := mk_sequence {
  sq_data : option (storage V);
  sq_size : Z;
  sq_capacity : Z;
  sq_config : sequence_config;
}.
Arguments mk_sequence {V}.
Arguments sq_data {V}.
Arguments sq_size {V}.
Arguments sq_capacity {V}.
Arguments sq_config {V}.

Definition zero_sequence {V} : sequence V := mk_sequence None 0 0 zero_sequence_config.

Definition set_sq_size {V} (size : Z) (q : sequence V) : sequence V :=
  mk_sequence (sq_data q) size (sq_capacity q) (sq_config q).

Definition set_sq_cells {V} (cells : list (cell V)) (q : sequence V) : sequence V :=
  mk_sequence ((fun s => mk_storage (st_block s) cells) <$> sq_data q) (sq_size q) (sq_capacity q)
    (sq_config q).

(** Nothing but the type is set. *)
Definition sequence_is_zero {V} (q : sequence V) : bool :=
  let c := sq_config q in
  is_null (sq_data q) && (sq_size q =? 0) && (sq_capacity q =? 0) && (sc_size c =? 0) &&
  (sc_stride c =? 0) && (sc_align c =? 0) && (sc_limit c =? 0) && negb (is_null (sc_type c)) &&
  cmeta_type_desc_valid (sc_type c).

(** * Capacity *)

(** The loop doubles the capacity until it is enough, or takes the limit.  It starts
    at one at least, so that it never makes 64 rounds. *)
Fixpoint double_capacity (fuel : nat) (capacity minimum limit : Z) : option Z :=
  if capacity <? minimum then
    if u64 (limit - capacity) <? capacity then Some limit
    else
      match fuel with
      | O => None
      | S fuel => double_capacity fuel (u64 (capacity * 2)) minimum limit
      end
  else Some capacity.

Definition next_capacity (first capacity minimum limit : Z) : option (stl_result Z) :=
  if limit <? minimum then Some (StlFail STL_CAPACITY_EXCEEDED)
  else
    let capacity := if capacity =? 0 then first else capacity in
    let capacity := if limit <? capacity then limit else capacity in
    StlOk <$> double_capacity 64 capacity minimum limit.

Section Sequence.
Context {V U : Type} `{!ObjectTraits V U} `{!AllocatorCalls U}.
#[local] Abbreviation cells := (list (cell V)).

(** * Blocks *)

(** [allocator->allocate (context, bytes, &raw)]. *)
Definition allocator_allocate (a : stl_allocator) (bytes : Z) : store U (stl_result (option Z)) :=
  let* f := reading (al_allocate a) in
  fun w =>
    let '((status, raw), u) := call_allocate f (al_context a) bytes (ow_user w) in
    if bool_decide (status = STL_OK)
    then Some (StlOk raw,
               mk_object_world u (if is_null raw then ow_blocks w else ow_blocks w + 1) (ow_objects w))
    else Some (StlFail status, mk_object_world u (ow_blocks w) (ow_objects w)).

Definition allocator_deallocate (a : stl_allocator) (raw bytes : Z) : store U unit :=
  let* f := reading (al_deallocate a) in
  fun w =>
    Some (tt, mk_object_world (call_deallocate f (al_context a) raw bytes (ow_user w))
                (ow_blocks w - 1) (ow_objects w)).

Definition vec_memory_allocate (allocator : option stl_allocator) (count stride alignment : Z)
    : store U (stl_result (option memory_block)) :=
  match allocator with
  | None =>
      let* allocated := sequence_allocate count stride alignment in
      ret match allocated with
          | StlOk data => StlOk ((fun address => mk_memory_block address None) <$> data)
          | StlFail status => StlFail status
          end
  | Some a =>
      if negb (sequence_alignment_valid alignment) then ret (StlFail STL_INVALID_ARGUMENT)
      else
        match sequence_bytes count stride with
        | StlFail status => ret (StlFail status)
        | StlOk bytes =>
            if bytes =? 0 then ret (StlOk None)
            else if SIZE_MAX - sizeof_receipt <? u64 (alignment - 1)
            then ret (StlFail STL_CAPACITY_EXCEEDED)
            else
              let overhead := u64 (sizeof_receipt + alignment - 1) in
              if SIZE_MAX - overhead <? bytes then ret (StlFail STL_CAPACITY_EXCEEDED)
              else
                let bytes := u64 (bytes + overhead) in
                let* allocated := allocator_allocate a bytes in
                match allocated with
                | StlFail status => ret (StlFail status)
                | StlOk None => ret (StlFail STL_OUT_OF_MEMORY)
                | StlOk (Some raw) =>
                    if SIZE_MAX - overhead <? raw
                    then
                      let* _ := allocator_deallocate a raw bytes in
                      ret (StlFail STL_CAPACITY_EXCEEDED)
                    else
                      let address := u64 (raw + sizeof_receipt) in
                      ret (StlOk (Some (mk_memory_block (round_up address (u64 (alignment - 1)))
                                          (Some (raw, bytes)))))
                end
        end
  end.

(** An allocator gets back only what it gave out: a block without a receipt, or a
    block with one when there is no allocator, makes the function undefined. *)
Definition vec_memory_deallocate (allocator : option stl_allocator) (data : option memory_block)
    : store U unit :=
  match allocator, data with
  | _, None => ret tt
  | None, Some b => if is_null (bk_receipt b) then free else reading None
  | Some a, Some b =>
      let* (raw, bytes) := reading (bk_receipt b) in allocator_deallocate a raw bytes
  end.

(** * Objects of the array *)

Definition cells_of (q : sequence V) : cells := default [] (st_cells <$> sq_data q).

Definition block_of (q : sequence V) : option memory_block := st_block <$> sq_data q.

(** [for (index = 0u; index < size; ++index) sequence_move_destroy (...)] between the
    old and the new array. *)
Fixpoint move_objects (type : option cmeta_type_desc) (old new : cells) (index fuel : nat)
    : store U (stl_status * (cells * cells)) :=
  match fuel with
  | O => ret (STL_OK, (old, new))
  | S fuel =>
      let* source := reading (old !! index) in
      let* destination := reading (new !! index) in
      let* (status, (destination, source)) := sequence_move_destroy type destination source in
      let old := <[index := source]> old in
      let new := <[index := destination]> new in
      if bool_decide (status = STL_OK) then move_objects type old new (S index) fuel
      else ret (status, (old, new))
  end.

(** What [vec_grow_to] and [heap_grow_to] do for a valid container: the status, and
    whether the storage changed. *)
Definition grow_sequence (first : Z) (allocator : option stl_allocator) (q : sequence V)
    (minimum : Z) : store U (stl_status * bool * sequence V) :=
  let c := sq_config q in
  if minimum <=? sq_capacity q then ret (STL_OK, false, q)
  else
    let* next := reading (next_capacity first (sq_capacity q) minimum (sc_limit c)) in
    match next with
    | StlFail status => ret (status, false, q)
    | StlOk capacity =>
        let* allocated := vec_memory_allocate allocator capacity (sc_stride c) (sc_align c) in
        match allocated with
        | StlFail status => ret (status, false, q)
        | StlOk data =>
            let* block := reading data in
            let size := Z.to_nat (sq_size q) in
            let fresh := replicate (Z.to_nat capacity) Raw in
            let* (status, (old, new)) :=
              match sc_type c with
              | None => ret (STL_OK, (cells_of q, take size (cells_of q) ++ drop size fresh))
              | Some _ => move_objects (sc_type c) (cells_of q) fresh 0 size
              end in
            if bool_decide (status = STL_OK) then
              let* _ := vec_memory_deallocate allocator (block_of q) in
              ret (STL_OK, true, mk_sequence (Some (mk_storage block new)) (sq_size q) capacity c)
            else
              let* _ := vec_memory_deallocate allocator data in
              ret (status, false, set_sq_cells old q)
        end
    end.

(** A block with a copy of [elem]. *)
Definition prepare_copy (allocator : option stl_allocator) (c : sequence_config) (elem : option V)
    : store U (stl_status * option (memory_block * cell V)) :=
  match elem with
  | None => ret (STL_INVALID_ARGUMENT, None)
  | Some _ =>
      let* allocated := vec_memory_allocate allocator 1 (sc_stride c) (sc_align c) in
      match allocated with
      | StlFail status => ret (status, None)
      | StlOk data =>
          let* block := reading data in
          let* (status, value) := sequence_copy (sc_type c) Raw elem in
          if bool_decide (status = STL_OK) then ret (STL_OK, Some (block, value))
          else let* _ := vec_memory_deallocate allocator data in ret (status, None)
      end
  end.

Definition discard_prepared (allocator : option stl_allocator) (c : sequence_config)
    (prepared : option (memory_block * cell V)) : store U unit :=
  match prepared with
  | None => ret tt
  | Some (block, value) =>
      let* _ := sequence_destroy_value (sc_type c) value in
      vec_memory_deallocate allocator (Some block)
  end.

(** [sequence_move_destroy] into the slot [to] from a place outside the array. *)
Definition move_in (q : sequence V) (to : Z) (source : cell V) : store U (stl_status * sequence V) :=
  let* destination := reading (cells_of q !! Z.to_nat to) in
  let* (status, (destination, _)) := sequence_move_destroy (sc_type (sq_config q)) destination source in
  ret (status, set_sq_cells (<[Z.to_nat to := destination]> (cells_of q)) q).

(** [sequence_move_destroy] between two slots. *)
Definition move_within (q : sequence V) (to from : Z) : store U (stl_status * sequence V) :=
  let* destination := reading (cells_of q !! Z.to_nat to) in
  let* source := reading (cells_of q !! Z.to_nat from) in
  let* (status, (destination, source)) :=
    sequence_move_destroy (sc_type (sq_config q)) destination source in
  ret (status, set_sq_cells (<[Z.to_nat to := destination]>
                               (<[Z.to_nat from := source]> (cells_of q))) q).

(** [sequence_destroy_value] on a slot. *)
Definition destroy_at (q : sequence V) (index : Z) : store U (stl_status * sequence V) :=
  let* object := reading (cells_of q !! Z.to_nat index) in
  let* (status, object) := sequence_destroy_value (sc_type (sq_config q)) object in
  ret (status, set_sq_cells (<[Z.to_nat index := object]> (cells_of q)) q).

(** [out_elem ? sequence_move_destroy (out_elem, slot) : sequence_destroy_value (slot)];
    [want] says whether there is an [out_elem]. *)
Definition take_out (q : sequence V) (index : Z) (want : bool)
    : store U (stl_status * cell V * sequence V) :=
  if want then
    let* source := reading (cells_of q !! Z.to_nat index) in
    let* (status, (out, source)) := sequence_move_destroy (sc_type (sq_config q)) Raw source in
    ret (status, out, set_sq_cells (<[Z.to_nat index := source]> (cells_of q)) q)
  else
    let* (status, q) := destroy_at q index in ret (status, Raw, q).

(** The loop of [vec_clear] and [heap_clear]. *)
Fixpoint clear_objects (q : sequence V) (index fuel : nat) : store U (stl_status * sequence V) :=
  match fuel with
  | O => ret (STL_OK, q)
  | S fuel =>
      let* (status, q) := destroy_at q (Z.of_nat index) in
      if bool_decide (status = STL_OK) then clear_objects q (S index) fuel else ret (status, q)
  end.

End Sequence.
