(* ===== verification/CstlSequenceSpecs.v ===== *)
(** What the shared functions of vectors and heaps do to an array that holds a list
    of objects. *)

From S2P Require Import Prelude.
From S2P Require Import CMetaType.
From S2P Require Import CstlSupport.
From S2P Require Import CstlObjects.
From S2P Require Import CstlSequence.

(** * Settings *)

Definition element_traits : Z :=
  Z.lor (Z.lor CMETA_TRAIT_COPY CMETA_TRAIT_MOVE) CMETA_TRAIT_DESTROY.

(** A configuration that initialisation accepted. *)
Record sequence_config_ok (c : sequence_config) : Prop := {
  sk_size : 0 < sc_size c;
  sk_stride : 0 < sc_stride c <= SIZE_MAX;
  sk_align : is_size (sc_align c) /\ sequence_alignment_valid (sc_align c) = true;
  sk_limit : is_size (sc_limit c);
  sk_type : supports (sc_type c) element_traits;
}.

Lemma element_supports c flags :
  sequence_config_ok c -> flags <> 0 -> Z.land element_traits flags = flags -> supports (sc_type c) flags.
Proof.
  intros [_ _ _ _ Ht] Hf Hsub. destruct (sc_type c) as [t|]; [|done]. simpl in *.
  by apply (require_traits_sub t element_traits).
Qed.

Lemma require_type_spec t compare :
  sequence_require_type (Some t) compare = STL_OK ->
  cmeta_type_require_traits (Some t) (if compare then Z.lor element_traits CMETA_TRAIT_COMPARE
    else element_traits) = CMETA_OK.
Proof.
  unfold sequence_require_type. destruct (_ || _); [done|].
  destruct (status_ok _) eqn:Hr; [|done]. intros _. apply bool_decide_eq_true in Hr.
  by destruct compare.
Qed.

(** The sizes of a type are [size_t] fields. *)
Definition element_sizes (type : option cmeta_type_desc) : Prop :=
  match type with Some t => is_size (td_size t) /\ is_size (td_align t) | None => True end.

(** An allocator whose callbacks are set, or none. *)
Definition allocator_ok (allocator : option stl_allocator) : Prop :=
  match allocator with
  | None => True
  | Some a => is_Some (al_allocate a) /\ is_Some (al_deallocate a)
  end.

(** A block that [allocator] gave out. *)
Definition block_from (allocator : option stl_allocator) (b : memory_block) : Prop :=
  is_null (bk_receipt b) = is_null allocator.

(** The failures of an allocation: an allocator may answer any status but OK. *)
Definition refusal (allocator : option stl_allocator) (status : stl_status) : Prop :=
  if is_null allocator then no_room status else status <> STL_OK.

Lemma refusal_no_room allocator status : no_room status -> refusal allocator status.
Proof. intros Hn. unfold refusal. destruct (is_null allocator); [done|]. by destruct Hn as [->| ->]. Qed.

Lemma refusal_not_ok allocator status : refusal allocator status -> status <> STL_OK.
Proof. unfold refusal. destruct (is_null allocator); [|done]. by intros [->| ->]. Qed.

Lemma double_capacity_spec fuel capacity minimum limit :
  2 ^ (64 - Z.of_nat fuel) <= capacity <= limit -> (fuel <= 64)%nat -> minimum <= limit -> is_size limit ->
  exists r, double_capacity fuel capacity minimum limit = Some r /\ minimum <= r <= limit /\ capacity <= r.
Proof.
  unfold is_size, SIZE_MAX. revert capacity.
  induction fuel as [|fuel IH]; intros capacity Hc Hf Hm Hl; cbn [double_capacity].
  { change (2 ^ (64 - Z.of_nat 0)) with (2 ^ 64) in Hc. lia. }
  assert (0 < 2 ^ (64 - Z.of_nat (S fuel))) by lia.
  destruct (capacity <? minimum) eqn:Hlt; destruct_bools; [|by exists capacity; split; [|lia]].
  assert (u64 (limit - capacity) = limit - capacity) as -> by (apply Z.mod_small; lia).
  destruct (_ <? capacity) eqn:Hbig; destruct_bools; [exists limit; split; [done|lia]|].
  assert (u64 (capacity * 2) = capacity * 2) as -> by (apply Z.mod_small; lia).
  assert (2 ^ (64 - Z.of_nat fuel) = 2 * 2 ^ (64 - Z.of_nat (S fuel))) as E
    by (rewrite <- Z.pow_succ_r by lia; f_equal; lia).
  destruct (IH (capacity * 2)) as (r & -> & Hr & Hcr); [lia..|]. exists r. split; [done|lia].
Qed.

Lemma next_capacity_spec first capacity minimum limit :
  0 < first -> 0 <= capacity < minimum -> is_size limit ->
  exists r, next_capacity first capacity minimum limit = Some r /\
    match r with
    | StlOk c => minimum <= c <= limit
    | StlFail status => status = STL_CAPACITY_EXCEEDED /\ limit < minimum
    end.
Proof.
  intros Hf Hc Hl. unfold next_capacity. destruct (limit <? minimum) eqn:Hlim; destruct_bools.
  { by eexists. }
  set (c0 := if capacity =? 0 then first else capacity).
  assert (0 < c0) by (unfold c0; destruct (capacity =? 0) eqn:?; destruct_bools; lia).
  destruct (double_capacity_spec 64 (if limit <? c0 then limit else c0) minimum limit) as (r & -> & Hr & _);
    [|lia|done|done|].
  - change (2 ^ (64 - Z.of_nat 64)) with 1. destruct (limit <? c0) eqn:?; destruct_bools; lia.
  - by eexists.
Qed.

(** * Arrays *)

Section Holds.
Context {V : Type}.
Implicit Types q : sequence V.
Implicit Types l : list V.

(** The array of [q] holds the objects [l], and behind them there is room. *)
Record holds (allocator : option stl_allocator) q l : Prop := {
  ho_size : sq_size q = Z.of_nat (length l);
  ho_config : sequence_config_ok (sq_config q);
  ho_capacity : sq_capacity q <= sc_limit (sq_config q);
  ho_data :
    match sq_data q with
    | None => l = [] /\ sq_capacity q = 0
    | Some s =>
        block_from allocator (st_block s) /\
        exists rest, st_cells s = (Live <$> l) ++ rest /\
          Forall (vacant (sc_type (sq_config q))) rest /\
          sq_capacity q = Z.of_nat (length l + length rest)
    end;
}.

Definition sequence_blocks q : Z := if is_null (sq_data q) then 0 else 1.

Definition sequence_objects q : Z := sq_size q * typed (sc_type (sq_config q)).

Lemma holds_cells allocator q l :
  holds allocator q l ->
  exists rest, cells_of q = (Live <$> l) ++ rest /\ Forall (vacant (sc_type (sq_config q))) rest /\
    sq_capacity q = Z.of_nat (length l + length rest).
Proof.
  intros [_ _ _ Hd]. unfold cells_of. destruct (sq_data q) as [s|]; simpl; [by destruct Hd|].
  destruct Hd as [-> ->]. exists []. by split_and!; [|constructor|].
Qed.

Lemma holds_range allocator q l :
  holds allocator q l -> 0 <= sq_size q <= sq_capacity q /\ sq_capacity q <= SIZE_MAX.
Proof.
  intros H. destruct (holds_cells _ _ _ H) as (rest & _ & _ & Hcap). destruct H as [-> Hc Hl _].
  destruct Hc as [_ _ _ Hs _]. unfold is_size in Hs. lia.
Qed.

(** Other cells for the same array. *)
Lemma holds_intro allocator q l q' l' rest' :
  holds allocator q l -> is_Some (sq_data q) ->
  sq_data q' = (fun s => mk_storage (st_block s) ((Live <$> l') ++ rest')) <$> sq_data q ->
  sq_config q' = sq_config q -> sq_capacity q' = sq_capacity q -> sq_size q' = Z.of_nat (length l') ->
  Forall (vacant (sc_type (sq_config q))) rest' ->
  Z.of_nat (length l' + length rest') = sq_capacity q -> holds allocator q' l'.
Proof.
  intros [_ Hc Hl Hd] [s Hs] Hd' Hcfg Hcap Hsz Hr Hlen. rewrite Hs in *. simpl in Hd'.
  split; rewrite ?Hcfg, ?Hcap, ?Hd'; try done. destruct Hd as [Hb _]. split; [done|].
  by exists rest'.
Qed.

Lemma cells_set cells q : is_Some (sq_data q) -> cells_of (set_sq_cells cells q) = cells.
Proof. intros [s Hs]. unfold cells_of, set_sq_cells. simpl. by rewrite Hs. Qed.

Lemma set_sq_cells_twice cells cells' q :
  set_sq_cells cells (set_sq_cells cells' q) = set_sq_cells cells q.
Proof. unfold set_sq_cells. simpl. f_equal. by destruct (sq_data q). Qed.

Lemma set_sq_cells_same q : set_sq_cells (cells_of q) q = q.
Proof.
  unfold set_sq_cells, cells_of. destruct q as [[[b c]|] ? ? ?]; done.
Qed.

(** A cell of the array is there only if the array is. *)
Lemma cells_data q i c : cells_of q !! i = Some c -> is_Some (sq_data q).
Proof. unfold cells_of. by destruct (sq_data q). Qed.

(** The objects of the list, and the place behind them. *)
Lemma live_cell l (rest : list (cell V)) i v :
  l !! i = Some v -> ((Live <$> l) ++ rest) !! i = Some (Live v).
Proof.
  intros Hi. pose proof (lookup_lt_Some _ _ _ Hi).
  rewrite lookup_app_l by (rewrite length_fmap; lia). by rewrite list_lookup_fmap, Hi.
Qed.

Lemma middle_cell (l : list V) (c : cell V) rest i :
  i = length l -> ((Live <$> l) ++ c :: rest) !! i = Some c.
Proof. intros ->. apply list_lookup_middle. by rewrite length_fmap. Qed.

Lemma middle_insert (l : list V) (c c' : cell V) rest i :
  i = length l -> <[i := c']> ((Live <$> l) ++ c :: rest) = (Live <$> l) ++ c' :: rest.
Proof.
  intros ->. rewrite insert_app_r_alt by (by rewrite length_fmap).
  by rewrite length_fmap, Nat.sub_diag.
Qed.

Lemma live_insert l (rest : list (cell V)) i v :
  (i < length l)%nat -> <[i := Live v]> ((Live <$> l) ++ rest) = (Live <$> <[i := v]> l) ++ rest.
Proof.
  intros Hi. rewrite insert_app_l by (by rewrite length_fmap). by rewrite list_fmap_insert.
Qed.

(** A free slot behind the objects takes one more. *)
Lemma holds_room allocator q l :
  holds allocator q l -> Z.of_nat (length l) < sq_capacity q ->
  exists c rest, cells_of q = (Live <$> l) ++ c :: rest /\ vacant (sc_type (sq_config q)) c /\
    Forall (vacant (sc_type (sq_config q))) rest /\ is_Some (sq_data q) /\
    Z.of_nat (length l + S (length rest)) = sq_capacity q.
Proof.
  intros Hh Hlt. destruct (holds_cells _ _ _ Hh) as (rest & Hcells & Hv & Hcap).
  destruct rest as [|c rest]; [simpl in Hcap; lia|]. apply Forall_cons in Hv as [Hc Hv].
  exists c, rest. split_and!; try done. apply (cells_data q (length l) c). rewrite Hcells. by apply middle_cell.
Qed.

Lemma live_middle l1 v l2 (rest : list (cell V)) :
  (Live <$> l1 ++ v :: l2) ++ rest = (Live <$> l1) ++ Live v :: (Live <$> l2) ++ rest.
Proof. by rewrite fmap_app, <- app_assoc. Qed.

Lemma holds_objects allocator q l :
  holds allocator q l -> l <> [] ->
  exists rest, cells_of q = (Live <$> l) ++ rest /\ Forall (vacant (sc_type (sq_config q))) rest /\
    is_Some (sq_data q) /\ Z.of_nat (length l + length rest) = sq_capacity q.
Proof.
  intros Hh Hne. destruct (holds_cells _ _ _ Hh) as (rest & Hcells & Hv & Hcap).
  exists rest. split_and!; [done|done| |done].
  pose proof (ho_data _ _ _ Hh) as Hd. destruct (sq_data _); [done|]. by destruct Hd.
Qed.

Lemma sequence_is_zero_inv q :
  sequence_is_zero q = true ->
  sq_data q = None /\ sq_size q = 0 /\ is_Some (sc_type (sq_config q)).
Proof.
  unfold sequence_is_zero. intros H. repeat (apply andb_true_iff in H as [H ?]).
  repeat match goal with
  | Hn : negb _ = true |- _ => apply negb_true_iff in Hn
  | Hn : is_null _ = false |- _ => apply is_null_false in Hn
  | Hn : is_null _ = true |- _ => apply is_null_true in Hn
  | Hn : (_ =? _) = true |- _ => apply Z.eqb_eq in Hn
  end. tauto.
Qed.

End Holds.

Section Specs.
Context {V U : Type} `{HV : ObjectTraits V U} `{!TraitLaws V U} `{!AllocatorCalls U}.
Implicit Types w : object_world U.
Implicit Types q : sequence V.
Implicit Types l : list V.

(** * Blocks *)

Lemma allocator_deallocate_spec a raw bytes w :
  is_Some (al_deallocate a) -> wp (allocator_deallocate a raw bytes) (fun _ w' => delta w w' (-1) 0) w.
Proof.
  intros [f Hf]. eapply wp_bind, wp_reading; [exact Hf|]. split; simpl; lia.
Qed.

Lemma allocator_allocate_spec a bytes w :
  is_Some (al_allocate a) ->
  wp (allocator_allocate a bytes) (fun r w' =>
    match r with
    | StlOk (Some raw) => delta w w' 1 0
    | StlOk None => delta w w' 0 0
    | StlFail status => status <> STL_OK /\ delta w w' 0 0
    end) w.
Proof.
  intros [f Hf]. eapply wp_bind, wp_reading; [exact Hf|]. unfold wp.
  destruct (call_allocate f _ _ _) as [[status raw] u].
  destruct (bool_decide (status = STL_OK)) eqn:Hs.
  - destruct raw; split; simpl; lia.
  - apply bool_decide_eq_false in Hs. split; [done|split; simpl; lia].
Qed.

Lemma memory_allocate_spec allocator count stride alignment w :
  allocator_ok allocator -> 0 < count <= SIZE_MAX -> 0 < stride <= SIZE_MAX -> is_size alignment ->
  sequence_alignment_valid alignment = true ->
  wp (vec_memory_allocate allocator count stride alignment) (fun r w' =>
    match r with
    | StlOk data => (exists b, data = Some b /\ block_from allocator b) /\ delta w w' 1 0
    | StlFail status => refusal allocator status /\ delta w w' 0 0
    end) w.
Proof.
  intros Hok Hc Hs Ha Hv. unfold vec_memory_allocate. destruct allocator as [a|].
  2: { eapply wp_bind_mono; [by apply allocate_spec|]. intros [data|status] w' H; apply wp_ret; simpl; [|done].
       destruct H as [[x ->] Hd]. split; [by eexists|done]. }
  rewrite Hv. simpl negb. unfold sequence_bytes.
  assert (Hfull : forall w', delta w w' 0 0 -> wp (U := U) (ret (StlFail (A := option memory_block) STL_CAPACITY_EXCEEDED)) (fun r w' =>
    match r with
    | StlOk data => (exists b, data = Some b /\ block_from (Some a) b) /\ delta w w' 1 0
    | StlFail status => refusal (Some a) status /\ delta w w' 0 0
    end) w') by (intros w' Hd; apply wp_ret; by split).
  destruct (negb _ && _) eqn:Hb; [apply Hfull, delta_refl|].
  apply product_checked_spec in Hb; [|lia..].
  assert (u64 (count * stride) = count * stride) as -> by (unfold u64, SIZE_MAX in *; apply Z.mod_small; nia).
  rewrite (proj2 (Z.eqb_neq (count * stride) 0)) by nia.
  destruct (_ <? u64 (alignment - 1)); [apply Hfull, delta_refl|].
  destruct (_ <? count * stride); [apply Hfull, delta_refl|].
  destruct Hok as [Hal Hde].
  eapply wp_bind_mono; [by apply allocator_allocate_spec|]. intros [[raw|]|status] w1 H1.
  - destruct (_ <? raw).
    + eapply wp_bind_mono; [by apply allocator_deallocate_spec|]. intros ? w2 H2. apply Hfull. solve_delta.
    + apply wp_ret. split; [by eexists|done].
  - apply wp_ret. by split.
  - by apply wp_ret.
Qed.

Lemma memory_deallocate_spec allocator b w :
  allocator_ok allocator -> block_from allocator b ->
  wp (vec_memory_deallocate allocator (Some b)) (fun _ w' => delta w w' (-1) 0) w.
Proof.
  intros Hok Hb. unfold block_from in Hb. destruct allocator as [a|]; cbn [vec_memory_deallocate].
  - apply is_null_false in Hb as [[raw bytes] ->]. eapply wp_bind, wp_reading; [done|].
    apply allocator_deallocate_spec, Hok.
  - rewrite Hb. apply free_spec.
Qed.

(** * Single objects *)

Lemma move_in_spec q (i : nat) c v w :
  sequence_config_ok (sq_config q) -> cells_of q !! i = Some c -> vacant (sc_type (sq_config q)) c ->
  wp (move_in q (Z.of_nat i) (Live v)) (fun r w' =>
    r = (STL_OK, set_sq_cells (<[i := Live v]> (cells_of q)) q) /\ delta w w' 0 0) w.
Proof.
  intros Hc Hi Hv. unfold move_in. rewrite Nat2Z.id. eapply wp_bind, wp_reading; [exact Hi|].
  eapply wp_bind_mono; [apply sequence_move_destroy_spec; [by apply element_supports|done]|].
  intros ? w' [-> Hd]. by apply wp_ret.
Qed.

Lemma move_within_spec q (i j : nat) c v w :
  sequence_config_ok (sq_config q) -> cells_of q !! i = Some c -> vacant (sc_type (sq_config q)) c ->
  cells_of q !! j = Some (Live v) ->
  wp (move_within q (Z.of_nat i) (Z.of_nat j)) (fun r w' =>
    r = (STL_OK, set_sq_cells (<[i := Live v]>
          (<[j := ended (sc_type (sq_config q)) (Live v)]> (cells_of q))) q) /\ delta w w' 0 0) w.
Proof.
  intros Hc Hi Hv Hj. unfold move_within. rewrite !Nat2Z.id. eapply wp_bind, wp_reading; [exact Hi|].
  eapply wp_bind, wp_reading; [exact Hj|].
  eapply wp_bind_mono; [apply sequence_move_destroy_spec; [by apply element_supports|done]|].
  intros ? w' [-> Hd]. by apply wp_ret.
Qed.

Lemma destroy_at_spec q (i : nat) v w :
  sequence_config_ok (sq_config q) -> cells_of q !! i = Some (Live v) ->
  wp (destroy_at q (Z.of_nat i)) (fun r w' =>
    r = (STL_OK, set_sq_cells (<[i := ended (sc_type (sq_config q)) (Live v)]> (cells_of q)) q) /\
    delta w w' 0 (- typed (sc_type (sq_config q)))) w.
Proof.
  intros Hc Hi. unfold destroy_at. rewrite Nat2Z.id. eapply wp_bind, wp_reading; [exact Hi|].
  eapply wp_bind_mono; [apply sequence_destroy_value_spec; [by apply element_supports|by left]|].
  intros ? w' [-> Hd]. by apply wp_ret.
Qed.

Lemma take_out_spec q (i : nat) v (want : bool) w :
  sequence_config_ok (sq_config q) -> cells_of q !! i = Some (Live v) ->
  wp (take_out q (Z.of_nat i) want) (fun r w' =>
    r = (STL_OK, if want then Live v else Raw,
         set_sq_cells (<[i := ended (sc_type (sq_config q)) (Live v)]> (cells_of q)) q) /\
    delta w w' 0 (if want then 0 else - typed (sc_type (sq_config q)))) w.
Proof.
  intros Hc Hi. unfold take_out. destruct want.
  - rewrite Nat2Z.id. eapply wp_bind, wp_reading; [exact Hi|].
    eapply wp_bind_mono; [apply sequence_move_destroy_spec; [by apply element_supports|]|].
    + by destruct (sc_type _).
    + intros ? w' [-> Hd]. by apply wp_ret.
  - eapply wp_bind_mono; [by apply destroy_at_spec|]. intros ? w' [-> Hd]. by apply wp_ret.
Qed.

Lemma prepare_copy_spec allocator c v w :
  allocator_ok allocator -> sequence_config_ok c ->
  wp (prepare_copy allocator c (Some v)) (fun r w' =>
    (exists b, r = (STL_OK, Some (b, Live v)) /\ block_from allocator b /\ delta w w' 1 (typed (sc_type c))) \/
    (exists status, r = (status, None) /\ refusal allocator status /\ delta w w' 0 0)) w.
Proof.
  intros Hok Hc. destruct (sk_align c Hc) as [Ha Hv]. pose proof (sk_stride c Hc) as Hs.
  eapply wp_bind_mono; [apply memory_allocate_spec; try done; unfold SIZE_MAX; lia|].
  intros [data|status] w1; [intros [(b & -> & Hb) H1]|intros [Hn H1]; apply wp_ret; right; by exists status].
  eapply wp_bind, wp_reading; [done|].
  eapply wp_bind_mono; [apply sequence_copy_spec; by apply element_supports|]. intros r w2 [[-> H2]|[-> H2]].
  - apply wp_ret. left. exists b. split_and!; [done|done|]. solve_delta.
  - rewrite bool_decide_false by done. eapply wp_bind_mono; [by apply memory_deallocate_spec|].
    intros ? w3 H3. apply wp_ret. right. eexists. split_and!; [done|apply refusal_no_room; by left|]. solve_delta.
Qed.

Lemma discard_prepared_spec allocator c b v w :
  allocator_ok allocator -> sequence_config_ok c -> block_from allocator b ->
  wp (discard_prepared allocator c (Some (b, Live v))) (fun _ w' => delta w w' (-1) (- typed (sc_type c))) w.
Proof.
  intros Hok Hc Hb. eapply wp_bind_mono.
  - apply sequence_destroy_value_spec; [by apply element_supports|by left].
  - intros ? w1 [_ H1]. eapply wp_mono; [by apply memory_deallocate_spec|]. intros ? w2 H2. solve_delta.
Qed.

(** The block of an array. *)
Lemma release_spec allocator q l w :
  allocator_ok allocator -> holds allocator q l ->
  wp (vec_memory_deallocate allocator (block_of q)) (fun _ w' => delta w w' (- sequence_blocks q) 0) w.
Proof.
  intros Hok Hh. unfold sequence_blocks, block_of. pose proof (ho_data _ _ _ Hh) as Hd.
  destruct (sq_data q) as [s|]; simpl.
  - apply memory_deallocate_spec; [done|apply Hd].
  - destruct allocator; apply wp_ret, delta_refl.
Qed.

(** * Growth *)

Lemma move_objects_spec type old fuel index n l w :
  supports type (Z.lor CMETA_TRAIT_MOVE CMETA_TRAIT_DESTROY) ->
  (index + fuel = length l)%nat -> (fuel <= n)%nat ->
  (forall k v, (index <= k)%nat -> l !! k = Some v -> old !! k = Some (Live v)) ->
  wp (move_objects type old ((Live <$> take index l) ++ replicate n Raw) index fuel) (fun r w' =>
    exists old', r = (STL_OK, (old', (Live <$> l) ++ replicate (n - fuel) Raw)) /\ delta w w' 0 0) w.
Proof.
  intros Hs. revert old index n w. induction fuel as [|fuel IH]; intros old index n w Hi Hn Hold; cbn [move_objects].
  { apply wp_ret. exists old. rewrite take_ge, Nat.sub_0_r by lia. split; [done|apply delta_refl]. }
  destruct (lookup_lt_is_Some_2 l index ltac:(lia)) as [v Hv]. destruct n as [|n]; [lia|].
  assert (index = length (take index l)) as Hlen by (rewrite length_take; lia).
  eapply wp_bind, wp_reading; [by apply Hold|]. simpl replicate.
  eapply wp_bind, wp_reading; [by apply middle_cell|].
  eapply wp_bind_mono; [apply sequence_move_destroy_spec; [done|by destruct type]|]. intros ? w1 [-> H1].
  rewrite bool_decide_true by done. rewrite middle_insert by done.
  assert ((Live <$> take index l) ++ Live v :: replicate n Raw =
    (Live <$> take (S index) l) ++ replicate n Raw) as ->
    by (by rewrite (take_S_r _ _ _ Hv), fmap_app, <- app_assoc).
  eapply wp_mono; [apply IH; [lia|lia|]|].
  - intros k u Hk Hu. rewrite list_lookup_insert_ne by lia. apply Hold; [lia|done].
  - intros r w2 (old' & -> & H2). exists old'. split; [done|]. solve_delta.
Qed.

Lemma grow_sequence_spec first allocator q minimum l w :
  allocator_ok allocator -> 0 < first -> holds allocator q l -> is_size minimum ->
  wp (grow_sequence first allocator q minimum) (fun r w' =>
    (exists changed q', r = (STL_OK, changed, q') /\ holds allocator q' l /\ sq_config q' = sq_config q /\
       minimum <= sq_capacity q' /\ (minimum <= sq_capacity q \/ minimum <= sc_limit (sq_config q)) /\
       delta w w' (sequence_blocks q' - sequence_blocks q) 0) \/
    (exists status, r = (status, false, q) /\ refusal allocator status /\
       (sc_limit (sq_config q) < minimum -> status = STL_CAPACITY_EXCEEDED) /\ delta w w' 0 0)) w.
Proof.
  intros Hok Hf Hh Hmin. pose proof (ho_config _ _ _ Hh) as Hc. pose proof (holds_range _ _ _ Hh) as [Hsz Hcap].
  unfold grow_sequence. destruct (minimum <=? sq_capacity q) eqn:Hle; destruct_bools.
  { apply wp_ret. left. exists false, q. split_and!; try done; [by left|].
    rewrite Z.sub_diag. apply delta_refl. }
  destruct (next_capacity_spec first (sq_capacity q) minimum (sc_limit (sq_config q))) as (r & Hr & Hspec);
    [done|lia|apply Hc|].
  eapply wp_bind, wp_reading; [exact Hr|]. destruct r as [capacity|status].
  2: { destruct Hspec as [-> Hlim]. apply wp_ret. right. eexists.
       split_and!; [done|apply refusal_no_room; by right|done|apply delta_refl]. }
  destruct (sk_align _ Hc) as [Ha Hv]. pose proof (sk_stride _ Hc) as Hst. pose proof (sk_limit _ Hc) as Hls.
  unfold is_size in *.
  eapply wp_bind_mono; [apply memory_allocate_spec; try done; lia|].
  intros [data|status] w1.
  2: { intros [Hn H1]. apply wp_ret. right. exists status. split_and!; [done|done|lia|done]. }
  intros [(b & -> & Hb) H1]. eapply wp_bind, wp_reading; [done|].
  destruct (holds_cells _ _ _ Hh) as (rest & Hcells & Hvac & Hcapr).
  pose proof (ho_size _ _ _ Hh) as Hsize.
  assert (Z.to_nat (sq_size q) = length l) as -> by lia.
  eapply wp_bind_mono with (R := fun r w2 => exists old,
    r = (STL_OK, (old, (Live <$> l) ++ replicate (Z.to_nat capacity - length l) Raw)) /\ delta w1 w2 0 0).
  { destruct (sc_type (sq_config q)) as [t|] eqn:Ht.
    - pose proof (element_supports _ (Z.lor CMETA_TRAIT_MOVE CMETA_TRAIT_DESTROY) Hc ltac:(done) ltac:(done)) as Hs.
      rewrite Ht in Hs.
      eapply (move_objects_spec (Some t) (cells_of q) (length l) 0 (Z.to_nat capacity) l); [exact Hs|lia|lia|].
      intros k v _ Hk. rewrite Hcells. by apply live_cell.
    - apply wp_ret. exists (cells_of q). split; [|apply delta_refl]. do 2 f_equal. rewrite Hcells.
      rewrite take_app_length' by (by rewrite length_fmap). f_equal. by rewrite drop_replicate. }
  intros r w2 (old & -> & H2). rewrite bool_decide_true by done.
  eapply wp_bind_mono; [by eapply release_spec|]. intros ? w3 H3. apply wp_ret. left. do 2 eexists. split; [done|]. simpl. split_and!.
  - split; simpl; [done|done|lia|]. split; [done|]. eexists. split_and!; [done| |].
    + apply Forall_replicate. by destruct (sc_type _).
    + rewrite length_replicate. lia.
  - done.
  - lia.
  - right. lia.
  - unfold sequence_blocks in *. simpl. solve_delta.
Qed.

(** * Clearing *)

Lemma clear_objects_spec q l (rest ended_ : list (cell V)) index w :
  sequence_config_ok (sq_config q) -> cells_of q = ended_ ++ (Live <$> l) ++ rest ->
  length ended_ = index -> Forall (vacant (sc_type (sq_config q))) ended_ ->
  wp (clear_objects q index (length l)) (fun r w' => exists cells',
    r = (STL_OK, set_sq_cells (cells' ++ rest) q) /\ Forall (vacant (sc_type (sq_config q))) cells' /\
    length cells' = (index + length l)%nat /\
    delta w w' 0 (- (Z.of_nat (length l) * typed (sc_type (sq_config q))))) w.
Proof.
  intros Hc. revert q ended_ index w Hc. induction l as [|v l IH]; intros q ended_ index w Hc Hcells Hlen Hv;
    cbn [clear_objects length].
  { apply wp_ret. exists ended_. simpl in Hcells. rewrite <- Hcells, set_sq_cells_same, Nat.add_0_r.
    split_and!; [done|done|done|apply delta_refl]. }
  assert (cells_of q !! index = Some (Live v)) as Hi
    by (rewrite Hcells; simpl; by apply list_lookup_middle).
  eapply wp_bind_mono; [by apply destroy_at_spec|]. intros ? w1 [-> H1].
  rewrite bool_decide_true by done.
  pose proof (cells_data _ _ _ Hi) as Hd.
  assert (<[index := ended (sc_type (sq_config q)) (Live v)]> (cells_of q) =
    (ended_ ++ [ended (sc_type (sq_config q)) (Live v)]) ++ (Live <$> l) ++ rest) as ->.
  { rewrite Hcells, <- app_assoc. subst index. by rewrite insert_app_r_alt, Nat.sub_diag by lia. }
  set (q1 := set_sq_cells _ q).
  eapply wp_mono; [apply (IH q1 (ended_ ++ [ended (sc_type (sq_config q)) (Live v)]) (S index)); [done| | |]|].
  - by apply cells_set.
  - rewrite length_app. simpl. lia.
  - apply Forall_app. split; [done|]. apply Forall_singleton. unfold ended. simpl. by destruct (sc_type (sq_config q)).
  - intros r w2 (cells' & -> & Hv' & Hl' & H2). exists cells'. unfold q1. rewrite set_sq_cells_twice.
    simpl in *. split_and!; [done|done|lia|].
    unfold ended in *. solve_delta.
Qed.

Lemma clear_holds allocator q l w :
  holds allocator q l ->
  wp (clear_objects q 0 (Z.to_nat (sq_size q))) (fun r w' => exists q',
    r = (STL_OK, q') /\ holds allocator (set_sq_size 0 q') [] /\ sq_config q' = sq_config q /\
    sq_data q' = sq_data (set_sq_size 0 q') /\ (sq_size q = 0 -> q' = q) /\
    sq_size q' = sq_size q /\ sequence_blocks q' = sequence_blocks q /\
    block_of q' = block_of q /\ sq_capacity q' = sq_capacity q /\
    delta w w' 0 (- sequence_objects q)) w.
Proof.
  intros Hh. pose proof (ho_config _ _ _ Hh) as Hc. pose proof (ho_size _ _ _ Hh) as Hs.
  destruct (holds_cells _ _ _ Hh) as (rest & Hcells & Hvac & Hcap).
  replace (Z.to_nat (sq_size q)) with (length l) by lia.
  eapply wp_mono; [apply (clear_objects_spec q l rest []); try done|].
  intros r w' (cells' & -> & Hv & Hlen & Hd). eexists. split; [done|].
  destruct Hh as [_ _ Hl Hdata]. unfold sequence_objects, sequence_blocks, block_of. split_and!; try done.
  - split; simpl; [done|done|done|]. destruct (sq_data q) as [s|]; simpl.
    + destruct Hdata as [Hb _]. split; [done|]. exists (cells' ++ rest).
      split_and!; [done|by apply Forall_app|]. rewrite length_app. lia.
    + destruct Hdata as [-> ->]. done.
  - intros H0. destruct l; [|simpl in Hs; lia]. simpl in Hlen. destruct cells'; [|done].
    simpl in *. rewrite <- Hcells. apply set_sq_cells_same.
  - simpl. by destruct (sq_data q).
  - simpl. by destruct (sq_data q).
  - rewrite Hs. solve_delta.
Qed.

End Specs.
