(* ===== verification/CstlVec.v ===== *)
(** The vector of cstl (cstl/include/cstl/vec.h, vec_alloc.h, cstl/src/vec.c) and the
    stack over it (cstl/include/cstl/stack.h).

    A pointer to an element is the number of its slot.  [elem] arguments are what the
    caller's pointers refer to at the call: the code copies them before it moves any
    object of the vector. *)

From S2P Require Import Prelude.
From S2P Require Import CMetaType.
From S2P Require Import CstlSupport.
From S2P Require Import CstlSequence.

Definition SALTS_VEC_MIN_CAPACITY : Z := 8.

Record vec_t (V : Type) := mk_vec {
  vc_descriptor : option addr;
  vc_sequence : sequence V;
  vc_generation : Z;
  vc_initialized : bool;
}.
Arguments mk_vec {V}.
Arguments vc_descriptor {V}.
Arguments vc_sequence {V}.
Arguments vc_generation {V}.
Arguments vc_initialized {V}.

(** [vec_t temporary = {0}]. *)
Definition zero_vec {V} (generation : Z) : vec_t V := mk_vec None zero_sequence generation false.

Definition set_vc_sequence {V} (q : sequence V) (v : vec_t V) : vec_t V :=
  mk_vec (vc_descriptor v) q (vc_generation v) (vc_initialized v).

Definition set_vc_generation {V} (generation : Z) (v : vec_t V) : vec_t V :=
  mk_vec (vc_descriptor v) (vc_sequence v) generation (vc_initialized v).

Definition set_vc_descriptor {V} (descriptor : option addr) (v : vec_t V) : vec_t V :=
  mk_vec descriptor (vc_sequence v) (vc_generation v) (vc_initialized v).

(** [++vec->generation] with the new contents. *)
Definition vec_changed {V} (q : sequence V) (v : vec_t V) : vec_t V :=
  set_vc_generation (size_inc (vc_generation v)) (set_vc_sequence q v).

Section Vec.
Context {V U : Type} `{!ObjectTraits V U} `{!AllocatorCalls U}.
(** The descriptors of vectors and stacks, and the object whose bytes are zero. *)
Context (vec_desc stack_desc : addr) (zero_object : V).
#[local] Abbreviation vec := (vec_t V).
#[local] Abbreviation config v := (sq_config (vc_sequence v)).
#[local] Abbreviation size v := (sq_size (vc_sequence v)).

Definition vec_valid (v : option vec) : bool :=
  match v with
  | None => false
  | Some v => vc_initialized v && negb (sc_size (config v) =? 0)
  end.

Definition vec_is_typed_semantic_zero (v : option vec) : bool :=
  match v with
  | None => false
  | Some v =>
      negb (vc_initialized v) && sequence_is_zero (vc_sequence v) &&
      (bool_decide (vc_descriptor v = Some vec_desc) ||
       bool_decide (vc_descriptor v = Some stack_desc))
  end.

(** * Initialisation *)

Definition vec_initialize (v : option vec) (type : option cmeta_type_desc)
    (elem_size elem_align limit : Z) : stl_status * option vec :=
  match v with
  | None => (STL_INVALID_ARGUMENT, v)
  | Some old =>
      if vc_initialized old then (STL_INVALID_ARGUMENT, v)
      else
        match sequence_stride elem_size elem_align with
        | StlFail status => (status, v)
        | StlOk stride =>
            (STL_OK, Some (mk_vec None
               (mk_sequence None 0 0 (mk_sequence_config elem_size stride elem_align limit type))
               (size_inc (vc_generation old)) true))
        end
  end.

Definition vec_init_bytes (v : option vec) (elem_size elem_align element_limit : Z)
    : stl_status * option vec :=
  vec_initialize v None elem_size elem_align element_limit.

Definition vec_raw_init (v : option vec) (element_type : option cmeta_type_desc)
    (element_limit : Z) : stl_status * option vec :=
  match v with
  | None => (STL_INVALID_ARGUMENT, v)
  | Some old =>
      if vc_initialized old then (STL_INVALID_ARGUMENT, v)
      else
        match element_type, sequence_require_type element_type false with
        | Some t, STL_OK => vec_initialize v element_type (td_size t) (td_align t) element_limit
        | None, STL_OK => (STL_INVALID_ARGUMENT, v)
        | _, status => (status, v)
        end
  end.

(** The handle after it, and whether it was initialised by it. *)
Definition vec_materialize_for_mutation (v : option vec) : stl_status * option vec * bool :=
  if vec_valid v then (STL_OK, v, false)
  else if negb (vec_is_typed_semantic_zero v) then (STL_INVALID_ARGUMENT, v, false)
  else
    match v with
    | None => (STL_INVALID_ARGUMENT, v, false)
    | Some zero =>
        match vec_raw_init v (sc_type (config zero)) SIZE_MAX with
        | (STL_OK, Some m) =>
            (STL_OK, Some (set_vc_generation (vc_generation zero)
                             (set_vc_descriptor (vc_descriptor zero) m)), true)
        | (status, _) => (status, v, false)
        end
    end.

(** * Destruction *)

(** The status and the vector; the objects that were destroyed before a failure stay
    destroyed. *)
Definition vec_clear (v : option vec) : store U (stl_status * option vec) :=
  match v with
  | None => ret (STL_INVALID_ARGUMENT, v)
  | Some m =>
      if negb (vec_valid v) then ret (STL_INVALID_ARGUMENT, v)
      else
        let* (status, q) := clear_objects (vc_sequence m) 0 (Z.to_nat (size m)) in
        if bool_decide (status = STL_OK) then
          if size m =? 0 then ret (STL_OK, Some (set_vc_sequence q m))
          else ret (STL_OK, Some (vec_changed (set_sq_size 0 q) m))
        else ret (status, Some (set_vc_sequence q m))
  end.

Definition vec_raw_destroy_storage (v : option vec) : store U (option vec) :=
  match v with
  | None => ret None
  | Some m =>
      if vc_initialized m then
        let* (_, cleared) := vec_clear v in
        let* m := reading cleared in
        let* _ := vec_memory_deallocate None (block_of (vc_sequence m)) in
        ret (Some (zero_vec (size_inc (vc_generation m))))
      else ret (Some (zero_vec (vc_generation m)))
  end.

Definition vec_rollback_materialization (m zero_snapshot : vec) (materialized : bool)
    : store U vec :=
  if negb materialized then ret m
  else let* _ := vec_raw_destroy_storage (Some m) in ret zero_snapshot.

(** A failure of an operation that began with a materialization. *)
Definition vec_fail (status : stl_status) (m zero_snapshot : vec) (materialized : bool)
    : store U (stl_status * option vec) :=
  let* m := vec_rollback_materialization m zero_snapshot materialized in ret (status, Some m).

(** * Growth *)

Definition vec_grow_to (v : vec) (minimum : Z) (allocator : option stl_allocator)
    : store U (stl_status * bool * vec) :=
  if negb (vec_valid (Some v)) then ret (STL_INVALID_ARGUMENT, false, v)
  else
    let* (status, changed, q) :=
      grow_sequence SALTS_VEC_MIN_CAPACITY allocator (vc_sequence v) minimum in
    ret (status, changed, set_vc_sequence q v).

Definition vec_reserve (v : option vec) (min_capacity : Z) : store U (stl_status * option vec) :=
  match v with
  | None => ret (STL_INVALID_ARGUMENT, v)
  | Some m =>
      let* (status, changed, m) := vec_grow_to m min_capacity None in
      if bool_decide (status = STL_OK) && changed
      then ret (status, Some (vec_changed (vc_sequence m) m))
      else ret (status, Some m)
  end.

(** [while (vec->size > new_size)]: destroys from the end. *)
Fixpoint shrink_loop (q : sequence V) (new_size : Z) (fuel : nat)
    : store U (stl_status * sequence V) :=
  if new_size <? sq_size q then
    match fuel with
    | O => reading None
    | S fuel =>
        let q := set_sq_size (size_dec (sq_size q)) q in
        let* (status, q) := destroy_at q (sq_size q) in
        if bool_decide (status = STL_OK) then shrink_loop q new_size fuel else ret (status, q)
    end
  else ret (STL_OK, q).

(** [memset] of the slots from [from] to [to] with zero bytes. *)
Definition fill_zero (from to : nat) (q : sequence V) : sequence V :=
  set_sq_cells (take from (cells_of q) ++ replicate (to - from) (Live zero_object) ++
                drop to (cells_of q)) q.

Definition vec_resize_using (v : option vec) (new_size : Z) (allocator : option stl_allocator)
    : store U (stl_status * option vec) :=
  match v with
  | None => ret (STL_INVALID_ARGUMENT, v)
  | Some m =>
      let q := vc_sequence m in
      let old_size := sq_size q in
      if negb (vec_valid v) then ret (STL_INVALID_ARGUMENT, v)
      else if sc_limit (sq_config q) <? new_size then ret (STL_CAPACITY_EXCEEDED, v)
      else if new_size =? old_size then ret (STL_OK, v)
      else if new_size <? old_size then
        let* (status, q) := shrink_loop q new_size (Z.to_nat old_size) in
        if bool_decide (status = STL_OK) then ret (STL_OK, Some (vec_changed q m))
        else ret (status, Some (set_vc_sequence q m))
      else if negb (is_null (sc_type (sq_config q))) then ret (STL_TRAIT_MISSING, v)
      else
        let* (status, changed, m) := vec_grow_to m new_size allocator in
        if bool_decide (status = STL_OK) then
          let q := fill_zero (Z.to_nat old_size) (Z.to_nat new_size) (vc_sequence m) in
          ret (STL_OK, Some (vec_changed (set_sq_size new_size q) m))
        else ret (status, Some m)
  end.

Definition vec_resize (v : option vec) (new_size : Z) : store U (stl_status * option vec) :=
  vec_resize_using v new_size None.

(** * Insertion *)

(** The end of [vec_push_using]: the prepared object moves into the slot behind the
    last one. *)
Definition push_prepared (m zero_snapshot : vec) (materialized : bool)
    (prepared : memory_block * cell V) (allocator : option stl_allocator)
    : store U (stl_status * option vec) :=
  let* (status, q) := move_in (vc_sequence m) (size m) (snd prepared) in
  let* _ := vec_memory_deallocate allocator (Some (fst prepared)) in
  if bool_decide (status = STL_OK)
  then ret (STL_OK, Some (vec_changed (set_sq_size (size_inc (sq_size q)) q) m))
  else vec_fail status (set_vc_sequence q m) zero_snapshot materialized.

Definition vec_push_using (v : option vec) (elem : option V) (allocator : option stl_allocator)
    : store U (stl_status * option vec) :=
  match v, elem with
  | Some zero, Some _ =>
      if negb (vec_valid v) && negb (is_null allocator) then ret (STL_INVALID_ARGUMENT, v)
      else
        match vec_materialize_for_mutation v with
        | (STL_OK, Some m, materialized) =>
            if sc_limit (config m) <=? size m
            then vec_fail STL_CAPACITY_EXCEEDED m zero materialized
            else
              let* (status, prepared) := prepare_copy allocator (config m) elem in
              match prepared with
              | None => vec_fail status m zero materialized
              | Some new =>
                  let* (status, changed, m) := vec_grow_to m (u64 (size m + 1)) allocator in
                  if bool_decide (status = STL_OK)
                  then push_prepared m zero materialized new allocator
                  else
                    let* _ := discard_prepared allocator (config m) prepared in
                    vec_fail status m zero materialized
              end
        | (status, v, _) => ret (status, v)
        end
  | _, _ => ret (STL_INVALID_ARGUMENT, v)
  end.

Definition vec_push (v : option vec) (elem : option V) : store U (stl_status * option vec) :=
  vec_push_using v elem None.

(** [for (cursor = size; cursor > index; --cursor)]: each object moves one slot up. *)
Fixpoint shift_up (q : sequence V) (index cursor : nat) : store U (sequence V) :=
  match cursor with
  | O => ret q
  | S below =>
      if (index <? cursor)%nat then
        let* (_, q) := move_within q (Z.of_nat cursor) (Z.of_nat below) in
        shift_up q index below
      else ret q
  end.

(** [memmove] of the untyped objects from [index] on, one slot up. *)
Definition memmove_up (q : sequence V) (index size : nat) : option (sequence V) :=
  let cells := cells_of q in
  if (S size <=? length cells)%nat then
    Some (set_sq_cells (take (S index) cells ++ take (size - index) (drop index cells) ++
                        drop (S size) cells) q)
  else None.

Definition vec_insert (v : option vec) (index : Z) (elem : option V)
    : store U (stl_status * option vec) :=
  match v, elem with
  | Some m, Some _ =>
      if negb (vec_valid v) || (size m <? index) then ret (STL_INVALID_ARGUMENT, v)
      else if sc_limit (config m) <=? size m then ret (STL_CAPACITY_EXCEEDED, v)
      else
        let* (status, prepared) := prepare_copy None (config m) elem in
        match prepared with
        | None => ret (status, v)
        | Some new =>
            let* (status, changed, m) := vec_grow_to m (u64 (size m + 1)) None in
            if bool_decide (status = STL_OK) then
              let* q :=
                match sc_type (config m) with
                | None => reading (memmove_up (vc_sequence m) (Z.to_nat index) (Z.to_nat (size m)))
                | Some _ => shift_up (vc_sequence m) (Z.to_nat index) (Z.to_nat (size m))
                end in
              let* (status, q) := move_in q index (snd new) in
              let* _ := vec_memory_deallocate None (Some (fst new)) in
              if bool_decide (status = STL_OK)
              then ret (STL_OK, Some (vec_changed (set_sq_size (size_inc (sq_size q)) q) m))
              else ret (status, Some (set_vc_sequence q m))
            else
              let* _ := discard_prepared None (config m) prepared in ret (status, Some m)
        end
  | _, _ => ret (STL_INVALID_ARGUMENT, v)
  end.

Definition vec_set (v : option vec) (index : Z) (elem : option V)
    : store U (stl_status * option vec) :=
  match v, elem with
  | Some m, Some _ =>
      if negb (vec_valid v) || (size m <=? index) then ret (STL_INVALID_ARGUMENT, v)
      else
        let* (status, prepared) := prepare_copy None (config m) elem in
        match prepared with
        | None => ret (status, v)
        | Some new =>
            let* (status, q) := destroy_at (vc_sequence m) index in
            let* (status, q) :=
              if bool_decide (status = STL_OK) then move_in q index (snd new)
              else ret (status, q) in
            let* _ := vec_memory_deallocate None (Some (fst new)) in
            if bool_decide (status = STL_OK) then ret (STL_OK, Some (vec_changed q m))
            else ret (status, Some (set_vc_sequence q m))
        end
  | _, _ => ret (STL_INVALID_ARGUMENT, v)
  end.

(** * Removal *)

(** The status, the vector and what was moved to [out_elem]. *)
Definition vec_pop (v : option vec) (want : bool) : store U (stl_status * option vec * cell V) :=
  match v with
  | None => ret (STL_INVALID_ARGUMENT, v, Raw)
  | Some m =>
      if negb (vec_valid v) then ret (STL_INVALID_ARGUMENT, v, Raw)
      else if size m =? 0 then ret (STL_EMPTY, v, Raw)
      else
        let index := size_dec (size m) in
        let* (status, out, q) := take_out (vc_sequence m) index want in
        if bool_decide (status = STL_OK)
        then ret (STL_OK, Some (vec_changed (set_sq_size index q) m), out)
        else ret (status, Some (set_vc_sequence q m), out)
  end.

(** [for (cursor = index; cursor + 1u < size; ++cursor)]: each object moves one slot
    down. *)
Fixpoint shift_down (q : sequence V) (cursor fuel : nat) : store U (sequence V) :=
  match fuel with
  | O => ret q
  | S fuel =>
      let* (_, q) := move_within q (Z.of_nat cursor) (Z.of_nat (S cursor)) in
      shift_down q (S cursor) fuel
  end.

(** [memmove] of the untyped objects behind [index], one slot down. *)
Definition memmove_down (q : sequence V) (index size : nat) : option (sequence V) :=
  let cells := cells_of q in
  if (size <=? length cells)%nat then
    Some (set_sq_cells (take index cells ++ take (size - index - 1) (drop (S index) cells) ++
                        drop (size - 1) cells) q)
  else None.

Definition vec_erase (v : option vec) (index : Z) (want : bool)
    : store U (stl_status * option vec * cell V) :=
  match v with
  | None => ret (STL_INVALID_ARGUMENT, v, Raw)
  | Some m =>
      if negb (vec_valid v) || (size m <=? index) then ret (STL_INVALID_ARGUMENT, v, Raw)
      else
        let* (status, out, q) := take_out (vc_sequence m) index want in
        if bool_decide (status = STL_OK) then
          let i := Z.to_nat index in
          let n := Z.to_nat (size m) in
          let* q :=
            match sc_type (config m) with
            | None => reading (memmove_down q i n)
            | Some _ => shift_down q i (n - i - 1)
            end in
          ret (STL_OK, Some (vec_changed (set_sq_size (size_dec (sq_size q)) q) m), out)
        else ret (status, Some (set_vc_sequence q m), out)
  end.

Definition vec_swap_remove (v : option vec) (index : Z) (want : bool)
    : store U (stl_status * option vec * cell V) :=
  match v with
  | None => ret (STL_INVALID_ARGUMENT, v, Raw)
  | Some m =>
      if negb (vec_valid v) || (size m <=? index) then ret (STL_INVALID_ARGUMENT, v, Raw)
      else
        let last := size_dec (size m) in
        let* (status, out, q) := take_out (vc_sequence m) index want in
        if bool_decide (status = STL_OK) then
          let* (status, q) :=
            if index =? last then ret (STL_OK, q) else move_within q index last in
          if bool_decide (status = STL_OK)
          then ret (STL_OK, Some (vec_changed (set_sq_size (size_dec (sq_size q)) q) m), out)
          else ret (status, Some (set_vc_sequence q m), out)
        else ret (status, Some (set_vc_sequence q m), out)
  end.

(** * Construction from an array *)

Fixpoint push_rows (temporary : option vec) (elements : list V) (index fuel : nat)
    : store U (stl_status * option vec) :=
  match fuel with
  | O => ret (STL_OK, temporary)
  | S fuel =>
      let* elem := reading (elements !! index) in
      let* (status, temporary) := vec_push temporary (Some elem) in
      if bool_decide (status = STL_OK) then push_rows temporary elements (S index) fuel
      else
        let* temporary := vec_raw_destroy_storage temporary in ret (status, temporary)
  end.

(** What the two functions share: [init] is what the initialisation of [temporary]
    answered. *)
Definition vec_from_rows (v : option vec) (elements : option (list V)) (count : nat) (limit : Z)
    (init : stl_status * option vec) : store U (stl_status * option vec) :=
  match v with
  | None => ret (STL_INVALID_ARGUMENT, v)
  | Some m =>
      if vc_initialized m then ret (STL_INVALID_ARGUMENT, v)
      else if (negb (count =? 0)%nat && is_null elements) || (limit <? Z.of_nat count)
      then ret (if limit <? Z.of_nat count then STL_CAPACITY_EXCEEDED else STL_INVALID_ARGUMENT, v)
      else
        match init with
        | (STL_OK, temporary) =>
            let* (status, temporary) := push_rows temporary (default [] elements) 0 count in
            if bool_decide (status = STL_OK)
            then ret (STL_OK, set_vc_generation (size_inc (vc_generation m)) <$> temporary)
            else ret (status, v)
        | (status, _) => ret (status, v)
        end
  end.

Definition vec_from_array_bytes (v : option vec) (elements : option (list V)) (count : nat)
    (elem_size elem_align limit : Z) : store U (stl_status * option vec) :=
  vec_from_rows v elements count limit
    (vec_init_bytes (Some (zero_vec 0)) elem_size elem_align limit).

Definition vec_raw_from_array (v : option vec) (elements : option (list V)) (count : nat)
    (type : option cmeta_type_desc) (limit : Z) : store U (stl_status * option vec) :=
  vec_from_rows v elements count limit (vec_raw_init (Some (zero_vec 0)) type limit).

(** * Typed handles *)

(** The type of a handle, put back when the call failed. *)
Definition set_vc_type (type : option cmeta_type_desc) (v : vec) : vec :=
  let q := vc_sequence v in
  let c := sq_config q in
  set_vc_sequence (mk_sequence (sq_data q) (sq_size q) (sq_capacity q)
    (mk_sequence_config (sc_size c) (sc_stride c) (sc_align c) (sc_limit c) type)) v.

Definition vec_rebind (old : vec) (status : stl_status) (v : vec) : vec :=
  let v := set_vc_descriptor (vc_descriptor old) v in
  if bool_decide (status = STL_OK) then v else set_vc_type (sc_type (config old)) v.

Definition vec_init (v : option vec) (element_limit : Z) : stl_status * option vec :=
  match v with
  | None => (STL_INVALID_ARGUMENT, v)
  | Some old =>
      if is_null (sc_type (config old)) then (STL_INVALID_ARGUMENT, v)
      else
        let (status, v) := vec_raw_init v (sc_type (config old)) element_limit in
        (status, vec_rebind old status <$> v)
  end.

Definition vec_from_array (v : option vec) (elements : option (list V)) (count : nat)
    (element_limit : Z) : store U (stl_status * option vec) :=
  match v with
  | None => ret (STL_INVALID_ARGUMENT, v)
  | Some old =>
      if is_null (sc_type (config old)) then ret (STL_INVALID_ARGUMENT, v)
      else
        let* (status, v) :=
          vec_raw_from_array v elements count (sc_type (config old)) element_limit in
        ret (status, vec_rebind old status <$> v)
  end.

Definition vec_destroy (v : option vec) : store U (option vec) :=
  match v with
  | None => ret None
  | Some old =>
      let* v := vec_raw_destroy_storage v in
      ret ((fun v => set_vc_type (sc_type (config old)) (set_vc_descriptor (vc_descriptor old) v)) <$> v)
  end.

(** * Access *)

(** The slot, or NULL. *)
Definition vec_at (v : option vec) (index : Z) : option nat :=
  match v with
  | Some m => if vec_valid v && (index <? size m) then Some (Z.to_nat index) else None
  | None => None
  end.

Definition vec_at_const : option vec -> Z -> option nat := vec_at.

(** The address of the array, or NULL. *)
Definition vec_data (v : option vec) : option Z :=
  match v with
  | Some m => if vec_valid v then bk_address <$> block_of (vc_sequence m) else None
  | None => None
  end.

Definition vec_data_const : option vec -> option Z := vec_data.

Definition vec_size (v : option vec) : Z :=
  match v with Some m => if vec_valid v then size m else 0 | None => 0 end.

Definition vec_capacity (v : option vec) : Z :=
  match v with Some m => if vec_valid v then sq_capacity (vc_sequence m) else 0 | None => 0 end.

Definition vec_generation (v : option vec) : Z :=
  match v with Some m => vc_generation m | None => 0 end.

Definition vec_empty (v : option vec) : bool := vec_size v =? 0.

(** * Owners with an allocator *)

Record vec_alloc := mk_vec_alloc {
  va_vec : vec;
  va_allocator : stl_allocator;
  va_address : Z;
}.

Definition sizeof_vec_alloc : Z := 112.

Definition vec_alloc_create (type : option cmeta_type_desc) (size align limit : Z)
    (allocator : option stl_allocator) (want : bool) : store U (stl_status * option vec_alloc) :=
  match allocator with
  | Some selected =>
      if negb want || is_null (al_allocate selected) || is_null (al_deallocate selected)
      then ret (STL_INVALID_ARGUMENT, None)
      else
        match
          match type with
          | Some _ => vec_raw_init (Some (zero_vec 0)) type limit
          | None => vec_init_bytes (Some (zero_vec 0)) size align limit
          end
        with
        | (STL_OK, Some initial) =>
            let* allocated := allocator_allocate selected sizeof_vec_alloc in
            match allocated with
            | StlFail status => ret (status, None)
            | StlOk None => ret (STL_OUT_OF_MEMORY, None)
            | StlOk (Some address) => ret (STL_OK, Some (mk_vec_alloc initial selected address))
            end
        | (status, _) => ret (status, None)
        end
  | None => ret (STL_INVALID_ARGUMENT, None)
  end.

Definition vec_alloc_new (type : option cmeta_type_desc) (limit : Z)
    (allocator : option stl_allocator) (want : bool) : store U (stl_status * option vec_alloc) :=
  match type with
  | None => ret (STL_INVALID_ARGUMENT, None)
  | Some _ => vec_alloc_create type 0 0 limit allocator want
  end.

Definition vec_alloc_new_bytes (size align limit : Z) (allocator : option stl_allocator)
    (want : bool) : store U (stl_status * option vec_alloc) :=
  vec_alloc_create None size align limit allocator want.

Definition set_va_vec (v : vec) (o : vec_alloc) : vec_alloc :=
  mk_vec_alloc v (va_allocator o) (va_address o).

Definition vec_alloc_push (owner : option vec_alloc) (element : option V)
    : store U (stl_status * option vec_alloc) :=
  match owner with
  | None => ret (STL_INVALID_ARGUMENT, None)
  | Some o =>
      let* (status, v) := vec_push_using (Some (va_vec o)) element (Some (va_allocator o)) in
      ret (status, (fun v => set_va_vec v o) <$> v)
  end.

Definition vec_alloc_resize (owner : option vec_alloc) (new_size : Z)
    : store U (stl_status * option vec_alloc) :=
  match owner with
  | None => ret (STL_INVALID_ARGUMENT, None)
  | Some o =>
      let* (status, v) := vec_resize_using (Some (va_vec o)) new_size (Some (va_allocator o)) in
      ret (status, (fun v => set_va_vec v o) <$> v)
  end.

Definition vec_alloc_at (owner : option vec_alloc) (index : Z) : option nat :=
  o ← owner; vec_at (Some (va_vec o)) index.

Definition vec_alloc_view (owner : option vec_alloc) : option vec := va_vec <$> owner.

Definition vec_alloc_destroy (owner : option vec_alloc) : store U unit :=
  match owner with
  | None => ret tt
  | Some o =>
      let* (_, cleared) := vec_clear (Some (va_vec o)) in
      let* v := reading cleared in
      let* _ := vec_memory_deallocate (Some (va_allocator o)) (block_of (vc_sequence v)) in
      allocator_deallocate (va_allocator o) (va_address o) sizeof_vec_alloc
  end.

End Vec.
