(* ===== verification/CstlVecOps.v ===== *)
(** What each operation of a vector does to the list of its objects and to what is
    alive. *)

From S2P Require Import Prelude.
From S2P Require Import CMetaType.
From S2P Require Import CstlSupport.
From S2P Require Import CstlObjects.
From S2P Require Import CstlSequence.
From S2P Require Import CstlSequenceSpecs.
From S2P Require Import CstlVec.

Section VecOps.
Context {V U : Type} `{HV : ObjectTraits V U} `{!TraitLaws V U} `{!AllocatorCalls U}.
Context (vec_desc stack_desc : addr) (zero_object : V).
Implicit Types w : object_world U.
Implicit Types m : vec_t V.
Implicit Types q : sequence V.
Implicit Types l : list V.
Implicit Types want : bool.

(** An initialised vector of the objects [l], whose storage is [allocator]'s. *)
Record vec_inv (allocator : option stl_allocator) m l : Prop := {
  vi_initialized : vc_initialized m = true;
  vi_holds : holds allocator (vc_sequence m) l;
}.

Definition vec_config m : sequence_config := sq_config (vc_sequence m).
Definition vec_blocks m : Z := sequence_blocks (vc_sequence m).
Definition vec_objects m : Z := sequence_objects (vc_sequence m).

Lemma vec_inv_valid allocator m l : vec_inv allocator m l -> vec_valid (Some m) = true.
Proof.
  intros [Hi Hh]. pose proof (sk_size _ (ho_config _ _ _ Hh)). unfold vec_valid. rewrite Hi.
  rewrite (proj2 (Z.eqb_neq _ _)) by lia. done.
Qed.

Lemma vec_inv_size allocator m l : vec_inv allocator m l -> sq_size (vc_sequence m) = Z.of_nat (length l).
Proof. intros [_ Hh]. apply Hh. Qed.

Lemma vec_inv_changed allocator m q l :
  vc_initialized m = true -> holds allocator q l -> vec_inv allocator (vec_changed q m) l.
Proof. by split. Qed.

(** [m'] is the vector [m] with other objects, and owns accordingly. *)
Definition vec_moved m m' w w' (objects : Z) : Prop :=
  vec_config m' = vec_config m /\
  delta w w' (vec_blocks m' - vec_blocks m) (vec_objects m' - vec_objects m + objects).

(** * Shifts *)

Lemma shift_down_spec q (l1 l2 : list V) (hole : cell V) rest w :
  sequence_config_ok (sq_config q) -> cells_of q = (Live <$> l1) ++ hole :: (Live <$> l2) ++ rest ->
  vacant (sc_type (sq_config q)) hole ->
  wp (shift_down q (length l1) (length l2)) (fun q' w' => exists hole',
    q' = set_sq_cells ((Live <$> l1 ++ l2) ++ hole' :: rest) q /\
    vacant (sc_type (sq_config q)) hole' /\ delta w w' 0 0) w.
Proof.
  intros Hc. revert q l1 hole w Hc. induction l2 as [|v l2 IH]; intros q l1 hole w Hc Hcells Hv;
    cbn [shift_down length].
  { apply wp_ret. exists hole. rewrite app_nil_r. simpl in Hcells.
    rewrite <- Hcells, set_sq_cells_same. split_and!; [done|done|apply delta_refl]. }
  assert (cells_of q !! length l1 = Some hole) as Hi by (rewrite Hcells; by apply middle_cell).
  assert (cells_of q !! S (length l1) = Some (Live v)) as Hj.
  { rewrite Hcells, cons_middle, app_assoc. simpl. apply list_lookup_middle.
    rewrite length_app, length_fmap. simpl. lia. }
  pose proof (cells_data _ _ _ Hi) as Hd.
  eapply wp_bind_mono; [by apply (move_within_spec q (length l1) (S (length l1)) hole v)|].
  intros ? w1 [-> H1].
  set (hole' := ended (sc_type (sq_config q)) (Live v)).
  assert (<[length l1 := Live v]> (<[S (length l1) := hole']> (cells_of q)) =
    (Live <$> l1 ++ [v]) ++ hole' :: (Live <$> l2) ++ rest) as ->.
  { rewrite Hcells, fmap_app, <- app_assoc. simpl.
    rewrite insert_app_r_alt by (rewrite length_fmap; lia). rewrite length_fmap.
    replace (S (length l1) - length l1)%nat with 1%nat by lia. simpl. by rewrite middle_insert. }
  set (q1 := set_sq_cells _ q).
  replace (S (length l1)) with (length (l1 ++ [v])) by (rewrite length_app; simpl; lia).
  eapply wp_mono; [apply (IH q1 (l1 ++ [v]) hole'); [done|by apply cells_set|]|].
  - unfold hole', ended. simpl. by destruct (sc_type (sq_config q)).
  - intros q' w2 (hole2 & -> & Hv2 & H2). exists hole2. unfold q1. rewrite set_sq_cells_twice.
    rewrite <- app_assoc. split_and!; [done|done|]. solve_delta.
Qed.

Lemma shift_up_spec q (l1 l2 : list V) (hole : cell V) rest w :
  sequence_config_ok (sq_config q) -> cells_of q = (Live <$> l1 ++ l2) ++ hole :: rest ->
  vacant (sc_type (sq_config q)) hole ->
  wp (shift_up q (length l1) (length l1 + length l2)) (fun q' w' => exists hole',
    q' = set_sq_cells ((Live <$> l1) ++ hole' :: (Live <$> l2) ++ rest) q /\
    vacant (sc_type (sq_config q)) hole' /\ delta w w' 0 0) w.
Proof.
  revert q hole rest w. induction l2 as [|v l2 IH] using rev_ind; intros q hole rest w Hc Hcells Hv.
  { rewrite app_nil_r in Hcells. simpl. rewrite Nat.add_0_r.
    assert (wp (shift_up q (length l1) (length l1)) (fun q' w' => q' = q /\ w' = w) w) as Hstop.
    { destruct (length l1); cbn [shift_up]; [by apply wp_ret|]. rewrite Nat.ltb_irrefl. by apply wp_ret. }
    eapply wp_mono; [exact Hstop|]. intros q' w' [-> ->]. exists hole.
    rewrite <- Hcells, set_sq_cells_same. split_and!; [done|done|apply delta_refl]. }
  rewrite length_app. replace (length l1 + (length l2 + length [v]))%nat with (S (length l1 + length l2)) by (simpl; lia).
  cbn [shift_up]. rewrite (proj2 (Nat.ltb_lt _ _)) by lia.
  assert (cells_of q !! S (length l1 + length l2) = Some hole) as Hi.
  { rewrite Hcells. apply middle_cell. rewrite !length_app. simpl. lia. }
  assert (cells_of q !! (length l1 + length l2)%nat = Some (Live v)) as Hj.
  { rewrite Hcells. apply live_cell. rewrite app_assoc. apply list_lookup_middle. by rewrite length_app. }
  pose proof (cells_data _ _ _ Hi) as Hd.
  eapply wp_bind_mono; [by apply (move_within_spec q (S (length l1 + length l2)) (length l1 + length l2) hole v)|].
  intros ? w1 [-> H1]. set (hole' := ended (sc_type (sq_config q)) (Live v)).
  assert (<[S (length l1 + length l2) := Live v]> (<[(length l1 + length l2)%nat := hole']> (cells_of q)) =
    (Live <$> l1 ++ l2) ++ hole' :: Live v :: rest) as ->.
  { rewrite Hcells, app_assoc, fmap_app, <- app_assoc. simpl. rewrite middle_insert by (by rewrite length_app).
    rewrite insert_app_r_alt by (rewrite length_fmap, length_app; lia).
    rewrite length_fmap, length_app.
    by replace (S (length l1 + length l2) - (length l1 + length l2))%nat with 1%nat by lia. }
  set (q1 := set_sq_cells _ q).
  eapply wp_mono; [apply (IH q1 hole' (Live v :: rest)); [done|by apply cells_set|]|].
  - unfold hole', ended. simpl. by destruct (sc_type (sq_config q)).
  - intros q' w2 (hole2 & -> & Hv2 & H2). exists hole2. unfold q1. rewrite set_sq_cells_twice.
    rewrite fmap_app, <- app_assoc. split_and!; [done|done|]. solve_delta.
Qed.

(** * Initialisation *)

(** A vector that was just initialised. *)
Record fresh_vec m type limit : Prop := {
  fv_inv : forall allocator, vec_inv allocator m [];
  fv_data : sq_data (vc_sequence m) = None;
  fv_type : sc_type (vec_config m) = type;
  fv_limit : sc_limit (vec_config m) = limit;
}.

Lemma vec_initialize_spec m type size align limit :
  vc_initialized m = false -> is_size size -> is_size align -> is_size limit ->
  supports type element_traits ->
  match vec_initialize (Some m) type size align limit with
  | (STL_OK, r) => exists m', r = Some m' /\ fresh_vec m' type limit
  | (_, r) => r = Some m
  end.
Proof.
  intros Hi Hs Ha Hl Ht. unfold vec_initialize. rewrite Hi.
  pose proof (sequence_stride_spec size align Hs Ha) as Hst.
  destruct (sequence_stride size align) as [stride|status].
  2: { by destruct Hst as [[-> _]|[-> _]]. }
  destruct Hst as (? & ? & ? & ? & ?). eexists. split; [done|]. unfold is_size in *.
  split; simpl; [|done..]. intros allocator. split; [done|].
  split; simpl; [done| |lia|done]. split; simpl; done || lia.
Qed.

Lemma vec_raw_init_spec m type limit :
  vc_initialized m = false -> element_sizes type -> is_size limit ->
  match vec_raw_init (Some m) type limit with
  | (STL_OK, r) => exists m', r = Some m' /\ fresh_vec m' type limit
  | (_, r) => r = Some m
  end.
Proof.
  intros Hi Hsz Hl. unfold vec_raw_init. rewrite Hi. destruct type as [t|]; [|done].
  destruct (sequence_require_type (Some t) false) eqn:Hr; try done.
  apply vec_initialize_spec; try done; try apply Hsz. simpl. by apply (require_type_spec t false).
Qed.

(** * Handles that are only bound to their type *)

Definition vec_bound m : Prop :=
  vec_is_typed_semantic_zero vec_desc stack_desc (Some m) = true /\ element_sizes (sc_type (vec_config m)).

Definition vec_usable (allocator : option stl_allocator) m l : Prop :=
  vec_inv allocator m l \/ (allocator = None /\ l = [] /\ vec_bound m).

(** The limit an operation on the handle works with. *)
Definition vec_limit m : Z := if vc_initialized m then sc_limit (vec_config m) else SIZE_MAX.

Definition vec_kept m m' : Prop :=
  if vc_initialized m then vec_config m' = vec_config m
  else sc_type (vec_config m') = sc_type (vec_config m) /\ sc_limit (vec_config m') = SIZE_MAX.

Lemma vec_bound_inv m :
  vec_bound m ->
  vc_initialized m = false /\ sq_data (vc_sequence m) = None /\ sq_size (vc_sequence m) = 0.
Proof.
  intros [Hz _]. unfold vec_is_typed_semantic_zero in Hz.
  apply andb_true_iff in Hz as [[Hi Hq]%andb_true_iff _]. apply negb_true_iff in Hi.
  apply sequence_is_zero_inv in Hq. tauto.
Qed.

(** What materialization leaves. *)
Record vec_ready allocator m m' l (materialized : bool) : Prop := {
  vr_inv : vec_inv allocator m' l;
  vr_kept : vec_kept m m';
  vr_limit : sc_limit (vec_config m') = vec_limit m;
  vr_blocks : vec_blocks m' = vec_blocks m;
  vr_objects : vec_objects m' = vec_objects m;
  vr_type : sc_type (vec_config m') = sc_type (vec_config m);
  vr_fresh : materialized = true -> allocator = None /\ l = [] /\ sq_data (vc_sequence m') = None;
  vr_zero : (if materialized then m else m') = m;
}.

Lemma vec_ready_spec allocator m l :
  vec_usable allocator m l ->
  (exists status, vec_materialize_for_mutation vec_desc stack_desc (Some m) = (status, Some m, false) /\
     status <> STL_OK /\ vc_initialized m = false) \/
  (exists m' materialized,
     vec_materialize_for_mutation vec_desc stack_desc (Some m) = (STL_OK, Some m', materialized) /\
     vec_ready allocator m m' l materialized).
Proof.
  unfold vec_materialize_for_mutation. intros [Hm|(-> & -> & Hb)].
  - rewrite (vec_inv_valid _ _ _ Hm). right. exists m, false. split; [done|].
    pose proof (vi_initialized _ _ _ Hm) as Hi.
    split; unfold vec_kept, vec_limit; rewrite ?Hi; done.
  - destruct (vec_bound_inv m Hb) as (Hi & Hd & Hs). pose proof Hb as [Hz Hsz].
    unfold vec_valid. rewrite Hi. cbn [andb]. rewrite Hz. cbn [negb].
    pose proof (vec_raw_init_spec m (sc_type (vec_config m)) SIZE_MAX Hi Hsz ltac:(done)) as Hinit.
    unfold vec_config in Hinit.
    destruct (vec_raw_init _ _ _) as [status r].
    destruct status; try (left; by eexists).
    destruct Hinit as (m' & -> & [Hm' Hd' Ht' Hl']). right. do 2 eexists. split; [done|].
    pose proof (vec_inv_size None m' [] (Hm' None)) as Hs'.
    unfold vec_config in *. split; unfold vec_kept, vec_limit, vec_blocks, vec_objects, sequence_blocks,
      sequence_objects, vec_config; simpl; rewrite ?Hi, ?Hd, ?Hd', ?Hs, ?Hs', ?Hl', ?Ht'; try done.
    by destruct (Hm' None).
Qed.

(** * Destruction *)

Lemma vec_clear_spec allocator m l w :
  vec_inv allocator m l ->
  wp (vec_clear (Some m)) (fun r w' => exists m', r = (STL_OK, Some m') /\ vec_inv allocator m' [] /\
    block_of (vc_sequence m') = block_of (vc_sequence m) /\ vec_blocks m' = vec_blocks m /\
    sq_capacity (vc_sequence m') = sq_capacity (vc_sequence m) /\
    vec_moved m m' w w' 0) w.
Proof.
  intros Hm. pose proof Hm as [Hi Hh]. unfold vec_clear. rewrite (vec_inv_valid _ _ _ Hm). cbn [negb].
  eapply wp_bind_mono; [eapply clear_holds, Hh|].
  intros r w1 (q' & -> & Hh' & Hcfg & Hdata & Hsame & Hsz & Hbl & Hblk & Hcap & H1).
  rewrite bool_decide_true by done.
  unfold vec_moved, vec_config, vec_blocks, vec_objects, sequence_objects in *.
  destruct (sq_size (vc_sequence m) =? 0) eqn:H0; destruct_bools; apply wp_ret.
  - exists (set_vc_sequence q' m). rewrite (Hsame H0) in *. split_and!; try done.
    + split; [done|]. simpl. replace (vc_sequence m) with (set_sq_size 0 (vc_sequence m)); [done|].
      unfold set_sq_size. destruct (vc_sequence m). simpl in *. by subst.
    + rewrite H0 in H1. unfold vec_config in *. simpl. solve_delta.
  - exists (vec_changed (set_sq_size 0 q') m). split_and!; try done.
    simpl. rewrite Hcfg. unfold sequence_blocks in *. simpl. rewrite Hbl. solve_delta.
Qed.

Lemma vec_destroy_storage_spec m l w :
  vec_inv None m l ->
  wp (vec_raw_destroy_storage (Some m)) (fun r w' => exists generation,
    r = Some (zero_vec generation) /\ delta w w' (- vec_blocks m) (- vec_objects m)) w.
Proof.
  intros Hm. unfold vec_raw_destroy_storage. rewrite (vi_initialized _ _ _ Hm).
  eapply wp_bind_mono; [eapply vec_clear_spec, Hm|].
  intros r w1 (m' & -> & Hm' & Hblk & Hbl & _ & Hcfg & H1). eapply wp_bind, wp_reading; [done|].
  pose proof (vec_inv_size _ _ _ Hm') as Hs'. simpl in Hs'.
  eapply wp_bind_mono; [eapply release_spec; [done|apply Hm']|]. intros ? w2 H2. apply wp_ret.
  eexists. split; [done|]. unfold vec_blocks, vec_objects, sequence_objects in *. rewrite Hs' in H1.
  simpl in H1. solve_delta.
Qed.

Lemma vec_fail_spec status m zero (materialized : bool) l w :
  (materialized = true -> l = [] /\ sq_data (vc_sequence m) = None /\ vec_inv None m l) ->
  wp (vec_fail status m zero materialized) (fun r w' =>
    r = (status, Some (if materialized then zero else m)) /\ delta w w' 0 0) w.
Proof.
  intros Hfresh. unfold vec_fail, vec_rollback_materialization. destruct materialized; simpl.
  - destruct Hfresh as (-> & Hd & Hm); [done|]. eapply wp_bind, wp_bind_mono; [by eapply vec_destroy_storage_spec|].
    intros ? w1 (g & -> & H1). apply wp_ret, wp_ret. split; [done|].
    pose proof (vec_inv_size _ _ _ Hm) as Hs. unfold vec_blocks, vec_objects, sequence_blocks, sequence_objects in *.
    rewrite Hd, Hs in H1. simpl in H1. solve_delta.
  - apply wp_ret. split; [done|apply delta_refl].
Qed.

(** * Growth *)

(** The outcomes of an operation that may lack room: the objects are [l'], or the
    very handle comes back with nothing changed. *)
Definition vec_outcome (allocator : option stl_allocator) m l' (good : Prop) (bad : stl_status -> Prop)
    (r : stl_status * option (vec_t V)) w w' : Prop :=
  (exists m', r = (STL_OK, Some m') /\ vec_inv allocator m' l' /\ vec_kept m m' /\ good /\
     delta w w' (vec_blocks m' - vec_blocks m) (vec_objects m' - vec_objects m)) \/
  (exists status, r = (status, Some m) /\ status <> STL_OK /\
     (vc_initialized m = true -> refusal allocator status /\ bad status) /\ delta w w' 0 0).

Lemma vec_kept_config m m' : vc_initialized m = true -> vec_config m' = vec_config m -> vec_kept m m'.
Proof. unfold vec_kept. by intros ->. Qed.

Lemma vec_grow_spec allocator m l minimum w :
  allocator_ok allocator -> vec_inv allocator m l -> is_size minimum ->
  wp (vec_grow_to m minimum allocator) (fun r w' =>
    (exists changed m', r = (STL_OK, changed, m') /\ vec_inv allocator m' l /\
       vec_config m' = vec_config m /\ minimum <= sq_capacity (vc_sequence m') /\
       (minimum <= sq_capacity (vc_sequence m) \/ minimum <= sc_limit (vec_config m)) /\
       delta w w' (vec_blocks m' - vec_blocks m) 0) \/
    (exists status, r = (status, false, m) /\ refusal allocator status /\
       (sc_limit (vec_config m) < minimum -> status = STL_CAPACITY_EXCEEDED) /\ delta w w' 0 0)) w.
Proof.
  intros Hok Hm Hmin. pose proof Hm as [Hi Hh]. unfold vec_grow_to.
  rewrite (vec_inv_valid _ _ _ Hm). cbn [negb].
  eapply wp_bind_mono; [by eapply grow_sequence_spec|].
  intros r w1 [(ch & q' & -> & Hh' & Hcfg & Hle & Hor & H1)|(status & -> & Hr & Hl & H1)]; apply wp_ret.
  - left. by exists ch, (set_vc_sequence q' m).
  - right. exists status. split_and!; try done. f_equal. by destruct m.
Qed.

Lemma vec_reserve_spec m l n w :
  vec_inv None m l -> is_size n ->
  wp (vec_reserve (Some m) n) (fun r w' =>
    vec_outcome None m l (n <= sc_limit (vec_config m))
      (fun status => sc_limit (vec_config m) < n -> status = STL_CAPACITY_EXCEEDED) r w w') w.
Proof.
  intros Hm Hn. pose proof Hm as [Hi Hh].
  eapply wp_bind_mono; [by apply vec_grow_spec|].
  intros r w1 [(ch & m' & -> & Hm' & Hcfg & Hle & _ & H1)|(status & -> & Hr & Hl & H1)].
  - rewrite bool_decide_true by done. cbn [andb].
    assert (n <= sc_limit (vec_config m)) as Hlim
      by (rewrite <- Hcfg; pose proof (ho_capacity _ _ _ (vi_holds _ _ _ Hm')); unfold vec_config; lia).
    assert (vec_objects m' = vec_objects m) as Ho.
    { unfold vec_objects, sequence_objects. rewrite (vec_inv_size _ _ _ Hm), (vec_inv_size _ _ _ Hm').
      unfold vec_config in Hcfg. by rewrite Hcfg. }
    destruct ch; apply wp_ret; left.
    + exists (vec_changed (vc_sequence m') m'). split_and!; [done|by destruct Hm'|by apply vec_kept_config|done|].
      change (delta w w1 (vec_blocks m' - vec_blocks m) (vec_objects m' - vec_objects m)).
      rewrite Ho, Z.sub_diag. done.
    + exists m'. split_and!; [done|done|by apply vec_kept_config|done|]. rewrite Ho, Z.sub_diag. done.
  - assert (status <> STL_OK) as Hne by (by eapply refusal_not_ok).
    rewrite bool_decide_false by done. apply wp_ret. right. exists status. by split_and!.
Qed.

(** * Insertion *)

Lemma push_prepared_spec allocator m zero (materialized : bool) l v b w :
  allocator_ok allocator -> vec_inv allocator m l -> block_from allocator b ->
  Z.of_nat (length l) < sq_capacity (vc_sequence m) ->
  wp (push_prepared m zero materialized (b, Live v) allocator) (fun r w' =>
    exists m', r = (STL_OK, Some m') /\ vec_inv allocator m' (l ++ [v]) /\ vec_config m' = vec_config m /\
      vec_blocks m' = vec_blocks m /\ delta w w' (-1) 0) w.
Proof.
  intros Hok Hm Hb Hlt. pose proof Hm as [Hi Hh]. pose proof (holds_range _ _ _ Hh) as [Hsz Hcap].
  destruct (holds_room _ _ _ Hh Hlt) as (c & rest & Hcells & Hc & Hv & Hd & Hlen).
  unfold push_prepared. rewrite (vec_inv_size _ _ _ Hm).
  eapply wp_bind_mono; [eapply (move_in_spec _ (length l) c v); [apply Hh|by rewrite Hcells; apply middle_cell|done]|].
  intros ? w1 [-> H1]. eapply wp_bind_mono; [by apply memory_deallocate_spec|]. intros ? w2 H2.
  rewrite bool_decide_true by done. apply wp_ret. eexists. split; [done|].
  rewrite Hcells, middle_insert by done. split_and!; [|done|by unfold vec_blocks, sequence_blocks; simpl; destruct (sq_data _)|solve_delta].
  split; [done|]. pose proof (ho_size _ _ _ Hh) as Hs.
  eapply (holds_intro _ _ _ _ (l ++ [v]) rest Hh Hd); try done.
  - simpl. by rewrite fmap_app, <- app_assoc.
  - simpl. rewrite size_inc_small by (unfold SIZE_MAX in *; lia). rewrite length_app. simpl. lia.
  - rewrite length_app. simpl. lia.
Qed.

Lemma vec_push_using_spec allocator m l v w :
  allocator_ok allocator -> vec_usable allocator m l ->
  wp (vec_push_using vec_desc stack_desc (Some m) (Some v) allocator) (fun r w' =>
    vec_outcome allocator m (l ++ [v]) (Z.of_nat (length l) < vec_limit m)
      (fun status => vec_limit m <= Z.of_nat (length l) -> status = STL_CAPACITY_EXCEEDED) r w w') w.
Proof.
  intros Hok Hu. unfold vec_push_using.
  destruct (negb _ && _) eqn:Hbad.
  { exfalso. apply andb_true_iff in Hbad as [Hv%negb_true_iff Ha%negb_true_iff].
    destruct Hu as [Hm|(-> & _)]; [|done]. by rewrite (vec_inv_valid _ _ _ Hm) in Hv. }
  destruct (vec_ready_spec allocator m l Hu) as [(status & -> & Hs & Hi)|(m1 & b & -> & Hr)].
  { destruct status; try done; apply wp_ret; right; eexists;
      (split_and!; [done|done|by rewrite Hi|apply delta_refl]). }
  destruct Hr as [Hm1 Hkept Hlim Hbl Hob Hty Hfresh Hzero].
  pose proof (vec_inv_size _ _ _ Hm1) as Hsz. fold (vec_config m1). rewrite Hsz, Hlim.
  assert (Hfail : forall status w', refusal allocator status -> delta w w' 0 0 ->
    (vec_limit m <= Z.of_nat (length l) -> status = STL_CAPACITY_EXCEEDED) ->
    wp (vec_fail status m1 m b) (fun r w' =>
      vec_outcome allocator m (l ++ [v]) (Z.of_nat (length l) < vec_limit m)
        (fun status => vec_limit m <= Z.of_nat (length l) -> status = STL_CAPACITY_EXCEEDED) r w w') w').
  { intros status w' Hst Hd Hc. eapply wp_mono; [apply (vec_fail_spec _ _ _ _ l)|].
    { intros Hb. destruct (Hfresh Hb) as (-> & -> & ?). done. }
    intros r w2 [-> H2]. right. exists status. rewrite Hzero.
    split_and!; [done|by eapply refusal_not_ok|done|solve_delta]. }
  destruct (_ <=? _) eqn:Hfull; destruct_bools.
  { apply Hfail; [apply refusal_no_room; by right|apply delta_refl|done]. }
  pose proof (ho_config _ _ _ (vi_holds _ _ _ Hm1)) as Hc. pose proof (sk_limit _ Hc) as Hls.
  unfold is_size in Hls. unfold vec_config in *.
  eapply wp_bind_mono; [by apply prepare_copy_spec|].
  intros r w1 [(blk & -> & Hblk & H1)|(status & -> & Hst & H1)]; [|apply Hfail; [done|done|lia]].
  assert (u64 (Z.of_nat (length l) + 1) = Z.of_nat (length l) + 1) as ->
    by (unfold u64, SIZE_MAX in *; apply Z.mod_small; lia).
  eapply wp_bind_mono; [apply vec_grow_spec; [done|done|unfold is_size; lia]|].
  intros r w2 [(ch & m2 & -> & Hm2 & Hcfg & Hle & _ & H2)|(status & -> & Hst & _ & H2)].
  - rewrite bool_decide_true by done.
    eapply wp_mono; [eapply (push_prepared_spec allocator m2); [done|done|done|lia]|].
    intros r w3 (m3 & -> & Hm3 & Hcfg3 & Hbl3 & H3). left. exists m3. split_and!; try done.
    + unfold vec_kept, vec_config in *. by rewrite Hcfg3, Hcfg.
    + unfold vec_objects, sequence_objects, vec_config in *.
      pose proof (vec_inv_size _ _ _ Hm3) as Hs3. rewrite length_app in Hs3. simpl in Hs3.
      rewrite Hs3, Hcfg3, Hcfg. rewrite Hsz in Hob. rewrite <- Hob, Hbl3. rewrite <- Hbl. solve_delta.
  - rewrite bool_decide_false by (by eapply refusal_not_ok).
    eapply wp_bind_mono; [by apply discard_prepared_spec|]. intros ? w3 H3.
    apply Hfail; [done|solve_delta|lia].
Qed.

(** [memmove] of untyped objects leaves some object in the gap. *)
Lemma memmove_up_spec q (l1 l2 : list V) (c : cell V) rest :
  cells_of q = (Live <$> l1 ++ l2) ++ c :: rest ->
  exists hole, memmove_up q (length l1) (length l1 + length l2) =
    Some (set_sq_cells ((Live <$> l1) ++ hole :: (Live <$> l2) ++ rest) q).
Proof.
  intros Hcells. unfold memmove_up. rewrite Hcells.
  rewrite (proj2 (Nat.leb_le _ _)) by (rewrite length_app, length_fmap, length_app; simpl; lia).
  rewrite fmap_app, <- app_assoc.
  assert (exists hole tail, (Live <$> l2) ++ c :: rest = hole :: tail) as (hole & tail & Hht)
    by (destruct l2; simpl; eauto).
  exists hole. do 2 f_equal. rewrite Hht at 1.
  assert (take (S (length l1)) ((Live <$> l1) ++ hole :: tail) = (Live <$> l1) ++ [hole]) as ->
    by (rewrite (cons_middle hole), app_assoc; apply take_app_length';
        rewrite length_app, length_fmap; simpl; lia).
  rewrite <- app_assoc. simpl. do 2 f_equal.
  rewrite drop_app_length' by (by rewrite length_fmap).
  rewrite take_app_length' by (rewrite length_fmap; lia). f_equal.
  rewrite (cons_middle c), !app_assoc, drop_app_length'; [done|].
  rewrite !length_app, !length_fmap. simpl. lia.
Qed.

Lemma memmove_down_spec q (l1 l2 : list V) (hole : cell V) rest :
  cells_of q = (Live <$> l1) ++ hole :: (Live <$> l2) ++ rest ->
  exists hole', memmove_down q (length l1) (length l1 + S (length l2)) =
    Some (set_sq_cells ((Live <$> l1 ++ l2) ++ hole' :: rest) q).
Proof.
  intros Hcells. unfold memmove_down. rewrite Hcells.
  rewrite (proj2 (Nat.leb_le _ _)) by (rewrite length_app; simpl; rewrite length_app, !length_fmap; lia).
  assert (exists front hole', hole :: (Live <$> l2) = front ++ [hole'] /\ length front = length l2)
    as (front & hole' & Hfh & Hlen).
  { destruct l2 as [|v l2 _] using rev_ind; [by exists [], hole|].
    exists (hole :: (Live <$> l2)), (Live v). rewrite fmap_app. split; [done|]. simpl.
    rewrite length_fmap, length_app. simpl. lia. }
  exists hole'. do 2 f_equal. rewrite take_app_length' by (by rewrite length_fmap).
  rewrite fmap_app, <- app_assoc. f_equal.
  replace (length l1 + S (length l2) - length l1 - 1)%nat with (length l2) by lia.
  replace (length l1 + S (length l2) - 1)%nat with (length l1 + length l2)%nat by lia.
  assert (drop (S (length l1)) ((Live <$> l1) ++ hole :: (Live <$> l2) ++ rest) = (Live <$> l2) ++ rest) as ->.
  { rewrite (cons_middle hole), app_assoc, drop_app_length'; [done|].
    rewrite length_app, length_fmap. simpl. lia. }
  rewrite take_app_length' by (by rewrite length_fmap). f_equal.
  change (hole :: (Live <$> l2) ++ rest) with ((hole :: (Live <$> l2)) ++ rest).
  rewrite Hfh, <- app_assoc, app_assoc, drop_app_length'; [done|].
  rewrite length_app, length_fmap, Hlen. lia.
Qed.

(** The cells of a vector after a change keep its storage. *)
Lemma vec_blocks_cells m cells n :
  vec_blocks (vec_changed (set_sq_size n (set_sq_cells cells (vc_sequence m))) m) = vec_blocks m.
Proof. unfold vec_blocks, sequence_blocks. simpl. by destruct (sq_data _). Qed.

(** A vector with [l'] in its storage, which has room for it. *)
Lemma vec_rewritten allocator m l l' rest :
  vec_inv allocator m l -> is_Some (sq_data (vc_sequence m)) ->
  Forall (vacant (sc_type (vec_config m))) rest ->
  Z.of_nat (length l' + length rest) = sq_capacity (vc_sequence m) ->
  vec_inv allocator (vec_changed (set_sq_size (Z.of_nat (length l'))
    (set_sq_cells ((Live <$> l') ++ rest) (vc_sequence m))) m) l'.
Proof.
  intros [Hi Hh] Hd Hv Hlen. split; [done|]. by eapply (holds_intro _ _ _ _ l' rest Hh Hd).
Qed.

Lemma vec_objects_inv allocator m l : vec_inv allocator m l ->
  vec_objects m = Z.of_nat (length l) * typed (sc_type (vec_config m)).
Proof. intros Hm. unfold vec_objects, sequence_objects. by rewrite (vec_inv_size _ _ _ Hm). Qed.

(** What a successful operation owns, from the objects it added. *)
Lemma vec_succeeds allocator m m' l l' (good : Prop) bad w w' :
  vec_inv allocator m l -> vec_inv allocator m' l' -> vec_config m' = vec_config m -> good ->
  delta w w' (vec_blocks m' - vec_blocks m)
    ((Z.of_nat (length l') - Z.of_nat (length l)) * typed (sc_type (vec_config m))) ->
  vec_outcome allocator m l' good bad (STL_OK, Some m') w w'.
Proof.
  intros Hm Hm' Hcfg Hg Hd. left. exists m'. split_and!; try done.
  - apply vec_kept_config; [apply Hm|done].
  - rewrite (vec_objects_inv _ _ _ Hm), (vec_objects_inv _ _ _ Hm'), Hcfg. solve_delta.
Qed.

Lemma insert_gap_spec m (l1 l2 : list V) (c : cell V) rest w :
  vec_inv None m (l1 ++ l2) -> cells_of (vc_sequence m) = (Live <$> l1 ++ l2) ++ c :: rest ->
  vacant (sc_type (vec_config m)) c ->
  wp (match sc_type (vec_config m) with
      | None => reading (memmove_up (vc_sequence m) (length l1) (length (l1 ++ l2)))
      | Some _ => shift_up (vc_sequence m) (length l1) (length (l1 ++ l2))
      end) (fun q' w' => exists hole,
    q' = set_sq_cells ((Live <$> l1) ++ hole :: (Live <$> l2) ++ rest) (vc_sequence m) /\
    vacant (sc_type (vec_config m)) hole /\ delta w w' 0 0) w.
Proof.
  intros [Hi Hh] Hcells Hv. rewrite length_app. unfold vec_config in *.
  destruct (sc_type (sq_config (vc_sequence m))) as [t|] eqn:Ht.
  - eapply wp_mono; [eapply shift_up_spec; [apply Hh|exact Hcells|by rewrite Ht]|].
    rewrite Ht. done.
  - destruct (memmove_up_spec _ _ _ _ _ Hcells) as (hole & Hmm).
    eapply wp_reading; [exact Hmm|]. exists hole. split_and!; [done|done|apply delta_refl].
Qed.

Lemma vec_insert_spec m (l1 l2 : list V) v w :
  vec_inv None m (l1 ++ l2) ->
  wp (vec_insert (Some m) (Z.of_nat (length l1)) (Some v)) (fun r w' =>
    vec_outcome None m (l1 ++ v :: l2) (Z.of_nat (length (l1 ++ l2)) < sc_limit (vec_config m))
      (fun status => sc_limit (vec_config m) <= Z.of_nat (length (l1 ++ l2)) ->
         status = STL_CAPACITY_EXCEEDED) r w w') w.
Proof.
  intros Hm. pose proof Hm as [Hi Hh]. pose proof (vec_inv_size _ _ _ Hm) as Hsz.
  pose proof (ho_config _ _ _ Hh) as Hc. pose proof (sk_limit _ Hc) as Hls. unfold is_size in Hls.
  unfold vec_insert. rewrite (vec_inv_valid _ _ _ Hm), Hsz. fold (vec_config m).
  rewrite (proj2 (Z.ltb_ge _ _)) by (rewrite length_app; lia). cbn [negb orb].
  assert (Hfail : forall status w', no_room status -> delta w w' 0 0 ->
    (sc_limit (vec_config m) <= Z.of_nat (length (l1 ++ l2)) -> status = STL_CAPACITY_EXCEEDED) ->
    vec_outcome None m (l1 ++ v :: l2) (Z.of_nat (length (l1 ++ l2)) < sc_limit (vec_config m))
      (fun status => sc_limit (vec_config m) <= Z.of_nat (length (l1 ++ l2)) ->
         status = STL_CAPACITY_EXCEEDED) (status, Some m) w w').
  { intros status w' Hn Hd Hl. right. exists status. split_and!; try done. by destruct Hn as [->| ->]. }
  destruct (_ <=? _) eqn:Hfull; destruct_bools; [apply wp_ret, Hfail; [by right|apply delta_refl|done]|].
  unfold vec_config in *.
  eapply wp_bind_mono; [by apply prepare_copy_spec|].
  intros r w1 [(blk & -> & Hblk & H1)|(status & -> & Hst & H1)]; [|apply wp_ret, Hfail; [done|done|lia]].
  assert (u64 (Z.of_nat (length (l1 ++ l2)) + 1) = Z.of_nat (length (l1 ++ l2)) + 1) as ->
    by (unfold u64, SIZE_MAX in *; apply Z.mod_small; lia).
  eapply wp_bind_mono; [apply vec_grow_spec; [done|done|unfold is_size; lia]|].
  intros r w2 [(ch & m2 & -> & Hm2 & Hcfg & Hle & _ & H2)|(status & -> & Hst & _ & H2)].
  2: { rewrite bool_decide_false by (by destruct Hst as [->| ->]).
       eapply wp_bind_mono; [by apply discard_prepared_spec|]. intros ? w3 H3.
       apply wp_ret, Hfail; [done|solve_delta|lia]. }
  rewrite bool_decide_true by done. pose proof Hm2 as [Hi2 Hh2].
  destruct (holds_room _ _ _ Hh2 ltac:(lia)) as (c & rest & Hcells & Hvc & Hv & Hd & Hlen).
  rewrite (vec_inv_size _ _ _ Hm2), !Nat2Z.id.
  eapply wp_bind_mono; [by apply (insert_gap_spec m2 l1 l2 c rest)|]. intros q' w3 (hole & -> & Hvh & H3).
  set (q := set_sq_cells _ _).
  assert (cells_of q = (Live <$> l1) ++ hole :: (Live <$> l2) ++ rest) as Hq by (by apply cells_set).
  eapply wp_bind_mono.
  { apply (move_in_spec q (length l1) hole v); [apply Hh2|by rewrite Hq; apply middle_cell|done]. }
  intros ? w4 [-> H4]. eapply wp_bind_mono; [by apply memory_deallocate_spec|]. intros ? w5 H5.
  rewrite bool_decide_true by done. apply wp_ret. unfold q in *. rewrite Hq, middle_insert by done.
  rewrite set_sq_cells_twice. simpl sq_size. rewrite (vec_inv_size _ _ _ Hm2).
  rewrite size_inc_small by lia.
  assert (Z.of_nat (length (l1 ++ v :: l2)) = Z.of_nat (length (l1 ++ l2)) + 1) as Hl'
    by (rewrite !length_app; simpl; lia).
  assert ((Live <$> l1) ++ Live v :: (Live <$> l2) ++ rest = (Live <$> l1 ++ v :: l2) ++ rest) as ->
    by (by rewrite fmap_app, <- app_assoc).
  rewrite <- Hl'.
  eapply vec_succeeds; [done|apply (vec_rewritten None m2 _ _ rest Hm2 Hd Hv); lia|done|lia|].
  rewrite vec_blocks_cells, Hl'. unfold vec_config in *. rewrite Hcfg in *. solve_delta.
Qed.

(** * Replacement and removal *)

Lemma vec_inv_cells allocator m l :
  vec_inv allocator m l -> l <> [] ->
  exists rest, cells_of (vc_sequence m) = (Live <$> l) ++ rest /\
    Forall (vacant (sc_type (vec_config m))) rest /\ is_Some (sq_data (vc_sequence m)) /\
    Z.of_nat (length l + length rest) = sq_capacity (vc_sequence m).
Proof. intros [_ Hh]. by apply (holds_objects allocator). Qed.

Lemma vec_set_spec m l (i : nat) v w :
  vec_inv None m l -> (i < length l)%nat ->
  wp (vec_set (Some m) (Z.of_nat i) (Some v)) (fun r w' =>
    vec_outcome None m (<[i := v]> l) True (fun _ => True) r w w') w.
Proof.
  intros Hm Hi. pose proof Hm as [Hin Hh]. pose proof (vec_inv_size _ _ _ Hm) as Hsz.
  unfold vec_set. rewrite (vec_inv_valid _ _ _ Hm), Hsz.
  rewrite (proj2 (Z.leb_gt _ _)) by lia. cbn [negb orb].
  eapply wp_bind_mono; [apply prepare_copy_spec; [done|apply Hh]|].
  intros r w1 [(b & -> & Hb & H1)|(status & -> & Hst & H1)].
  2: { apply wp_ret. right. exists status. split_and!; [done|by eapply refusal_not_ok|done|done]. }
  destruct (lookup_lt_is_Some_2 l i Hi) as [u Hu].
  destruct (vec_inv_cells None m l Hm) as (rest & Hcells & Hv & Hd & Hcap); [by destruct l|].
  eapply wp_bind_mono.
  { apply (destroy_at_spec _ i u); [apply Hh|]. rewrite Hcells. by apply live_cell. }
  intros ? w2 [-> H2]. rewrite bool_decide_true by done.
  set (q := set_sq_cells _ _).
  assert (cells_of q = <[i := ended (sc_type (vec_config m)) (Live u)]> ((Live <$> l) ++ rest)) as Hq
    by (unfold q; by rewrite cells_set, Hcells).
  eapply wp_bind_mono.
  { apply (move_in_spec q i (ended (sc_type (vec_config m)) (Live u)) v); [apply Hh| |apply ended_vacant].
    rewrite Hq. apply list_lookup_insert_eq. rewrite length_app, length_fmap. lia. }
  intros ? w3 [-> H3]. eapply wp_bind_mono; [by apply memory_deallocate_spec|]. intros ? w4 H4.
  rewrite bool_decide_true by done. apply wp_ret. rewrite Hq, list_insert_insert_eq, live_insert by done.
  unfold q. rewrite set_sq_cells_twice.
  assert (vec_inv None (vec_changed (set_sq_cells ((Live <$> <[i := v]> l) ++ rest) (vc_sequence m)) m)
    (<[i := v]> l)) as Hm'.
  { split; [done|]. eapply (holds_intro _ _ _ _ _ rest Hh Hd); simpl; rewrite ?length_insert; done. }
  eapply vec_succeeds; [done|exact Hm'|done|done|].
  rewrite length_insert, Z.sub_diag. unfold vec_config, vec_blocks, sequence_blocks in *. simpl.
  destruct (sq_data (vc_sequence m)); simpl; solve_delta.
Qed.

(** The outcome of a removal: [v] left the vector, and the caller has it if it asked
    for it. *)
Definition vec_taken allocator m l' v (want : bool) (r : stl_status * option (vec_t V) * cell V)
    w w' : Prop :=
  exists m', r = (STL_OK, Some m', if want then Live v else Raw) /\ vec_inv allocator m' l' /\
    vec_config m' = vec_config m /\ vec_blocks m' = vec_blocks m /\
    delta w w' 0 (if want then 0 else - typed (sc_type (vec_config m))).

Lemma vec_taken_intro allocator m l l' rest v want w w' :
  vec_inv allocator m l -> is_Some (sq_data (vc_sequence m)) ->
  Forall (vacant (sc_type (vec_config m))) rest ->
  Z.of_nat (length l' + length rest) = sq_capacity (vc_sequence m) ->
  delta w w' 0 (if want then 0 else - typed (sc_type (vec_config m))) ->
  vec_taken allocator m l' v want (STL_OK, Some (vec_changed (set_sq_size (Z.of_nat (length l'))
    (set_sq_cells ((Live <$> l') ++ rest) (vc_sequence m))) m), if want then Live v else Raw) w w'.
Proof.
  intros Hm Hd Hv Hlen Hdel. eexists. split_and!; [done| |done| |done].
  - by eapply vec_rewritten.
  - apply vec_blocks_cells.
Qed.

Lemma vec_pop_spec allocator m l v want w :
  vec_inv allocator m (l ++ [v]) ->
  wp (vec_pop (Some m) want) (fun r w' => vec_taken allocator m l v want r w w') w.
Proof.
  intros Hm. pose proof Hm as [_ Hh]. pose proof (holds_range _ _ _ Hh) as [Hr Hcap].
  pose proof (vec_inv_size _ _ _ Hm) as Hsz. rewrite length_app in Hsz. simpl in Hsz.
  unfold vec_pop. rewrite (vec_inv_valid _ _ _ Hm). cbn [negb].
  rewrite (proj2 (Z.eqb_neq _ _)), size_dec_small by lia.
  assert (sq_size (vc_sequence m) - 1 = Z.of_nat (length l)) as -> by lia.
  destruct (vec_inv_cells _ _ _ Hm) as (rest & Hcells & Hv & Hd & Hlen); [by destruct l|].
  eapply wp_bind_mono.
  { apply (take_out_spec _ (length l) v); [apply Hh|]. rewrite Hcells. apply live_cell.
    by apply list_lookup_middle. }
  intros ? w1 [-> H1]. rewrite bool_decide_true by done. apply wp_ret.
  rewrite Hcells, live_middle, middle_insert by done. simpl app.
  rewrite length_app in Hlen. simpl in Hlen.
  eapply (vec_taken_intro _ _ _ l (_ :: rest)); [done|done|constructor; [apply ended_vacant|done]| |done].
  simpl. lia.
Qed.

Lemma close_gap_spec allocator m (l1 l2 : list V) v (c : cell V) rest q w :
  vec_inv allocator m (l1 ++ v :: l2) -> vacant (sc_type (vec_config m)) c ->
  is_Some (sq_data (vc_sequence m)) ->
  q = set_sq_cells ((Live <$> l1) ++ c :: (Live <$> l2) ++ rest) (vc_sequence m) ->
  wp (match sc_type (vec_config m) with
      | None => reading (memmove_down q (length l1) (length (l1 ++ v :: l2)))
      | Some _ => shift_down q (length l1) (length (l1 ++ v :: l2) - length l1 - 1)
      end) (fun q' w' => exists hole,
    q' = set_sq_cells ((Live <$> l1 ++ l2) ++ hole :: rest) (vc_sequence m) /\
    vacant (sc_type (vec_config m)) hole /\ delta w w' 0 0) w.
Proof.
  intros [Hi Hh] Hv Hd ->. rewrite length_app. cbn [length].
  set (q := set_sq_cells _ _).
  assert (cells_of q = (Live <$> l1) ++ c :: (Live <$> l2) ++ rest) as Hq by (by apply cells_set).
  unfold vec_config in *. destruct (sc_type (sq_config (vc_sequence m))) as [t|] eqn:Ht.
  - replace (length l1 + S (length l2) - length l1 - 1)%nat with (length l2) by lia.
    eapply wp_mono; [eapply (shift_down_spec q l1 l2 c rest); [apply Hh|done|]; simpl; by rewrite Ht|].
    intros q' w' (hole & -> & Hvh & Hdel). exists hole. unfold q. rewrite set_sq_cells_twice.
    split_and!; [done| |done]. simpl in Hvh. by rewrite Ht in Hvh.
  - destruct (memmove_down_spec q l1 l2 c rest Hq) as (hole & Hmm).
    eapply wp_reading; [exact Hmm|]. exists hole. unfold q. rewrite set_sq_cells_twice.
    split_and!; [done|done|apply delta_refl].
Qed.

Lemma vec_erase_spec allocator m (l1 l2 : list V) v want w :
  vec_inv allocator m (l1 ++ v :: l2) ->
  wp (vec_erase (Some m) (Z.of_nat (length l1)) want)
    (fun r w' => vec_taken allocator m (l1 ++ l2) v want r w w') w.
Proof.
  intros Hm. pose proof Hm as [_ Hh]. pose proof (holds_range _ _ _ Hh) as [Hr Hcap].
  pose proof (vec_inv_size _ _ _ Hm) as Hsz.
  assert (length (l1 ++ v :: l2) = S (length (l1 ++ l2))) as Hlen'
    by (rewrite !length_app; simpl; lia).
  unfold vec_erase. rewrite (vec_inv_valid _ _ _ Hm), Hsz. cbn [negb orb].
  rewrite (proj2 (Z.leb_gt _ _)) by (rewrite length_app; simpl; lia).
  destruct (vec_inv_cells _ _ _ Hm) as (rest & Hcells & Hv & Hd & Hlen); [by destruct l1|].
  eapply wp_bind_mono.
  { apply (take_out_spec _ (length l1) v); [apply Hh|]. rewrite Hcells. apply live_cell.
    by apply list_lookup_middle. }
  intros ? w1 [-> H1]. rewrite bool_decide_true by done. rewrite !Nat2Z.id.
  rewrite Hcells, live_middle, middle_insert by done. simpl sc_type. fold (vec_config m).
  eapply wp_bind_mono; [apply (close_gap_spec allocator m l1 l2 v (ended (sc_type (vec_config m)) (Live v)) rest); [done|apply ended_vacant|done|done]|].
  intros q' w2 (hole & -> & Hvh & H2). apply wp_ret. cbn [sq_size set_sq_cells].
  rewrite Hsz, size_dec_small by (rewrite <- Hsz; lia).
  replace (Z.of_nat (length (l1 ++ v :: l2)) - 1) with (Z.of_nat (length (l1 ++ l2))) by lia.
  eapply (vec_taken_intro _ _ _ _ (hole :: rest)); [done|done|by constructor|simpl; lia|].
  unfold vec_config in *. destruct want; solve_delta.
Qed.


(** The last object takes the place of the removed one. *)
Lemma vec_swap_remove_spec allocator m l x (i : nat) v want w :
  vec_inv allocator m (l ++ [x]) -> (l ++ [x]) !! i = Some v ->
  wp (vec_swap_remove (Some m) (Z.of_nat i) want)
    (fun r w' => vec_taken allocator m (<[i := x]> l) v want r w w') w.
Proof.
  intros Hm Hi. pose proof Hm as [_ Hh]. pose proof (holds_range _ _ _ Hh) as [Hr Hcap].
  pose proof (vec_inv_size _ _ _ Hm) as Hsz. pose proof (lookup_lt_Some _ _ _ Hi) as Hlt.
  rewrite length_app in Hsz, Hlt. simpl in Hsz, Hlt.
  unfold vec_swap_remove. rewrite (vec_inv_valid _ _ _ Hm). cbn [negb orb].
  rewrite (proj2 (Z.leb_gt _ _)) by lia.
  destruct (vec_inv_cells _ _ _ Hm) as (rest & Hcells & Hv & Hd & Hlen); [by destruct l|].
  rewrite length_app in Hlen. simpl in Hlen.
  eapply wp_bind_mono.
  { apply (take_out_spec _ i v); [apply Hh|]. rewrite Hcells. by apply live_cell. }
  intros ? w1 [-> H1]. rewrite bool_decide_true by done. fold (vec_config m).
  set (e := ended _ (Live v)). set (q := set_sq_cells _ _).
  assert (cells_of q = <[i := e]> ((Live <$> l ++ [x]) ++ rest)) as Hq
    by (unfold q; by rewrite cells_set, Hcells).
  assert (Hdone : forall c w2, vacant (sc_type (vec_config m)) c -> delta w w2 0
      (if want then 0 else - typed (sc_type (vec_config m))) ->
    vec_taken allocator m (<[i := x]> l) v want (STL_OK, Some (vec_changed (set_sq_size
      (Z.of_nat (length (<[i := x]> l))) (set_sq_cells ((Live <$> <[i := x]> l) ++ c :: rest)
      (vc_sequence m))) m), if want then Live v else Raw) w w2).
  { intros c w2 Hc Hdel. apply (vec_taken_intro _ _ (l ++ [x]) _ (c :: rest)); try done; [by constructor|].
    rewrite length_insert. simpl. lia. }
  assert (Hn : size_dec (sq_size q) = Z.of_nat (length (<[i := x]> l)))
    by (simpl; rewrite length_insert, size_dec_small by lia; lia).
  rewrite size_dec_small by lia. destruct (_ =? _) eqn:Hlast; destruct_bools.
  - assert (i = length l) as -> by lia. cbn [bind]. eapply wp_bind, wp_ret. rewrite bool_decide_true by done.
    apply wp_ret. rewrite Hn. unfold q. rewrite Hcells, live_middle, middle_insert by done.
    specialize (Hdone e w1). rewrite list_insert_ge in Hdone |- * by lia.
    apply Hdone; [apply ended_vacant|done].
  - assert (sq_size (vc_sequence m) - 1 = Z.of_nat (length l)) as -> by lia.
    eapply wp_bind_mono.
    { apply (move_within_spec q i (length l) e x); [apply Hh| |apply ended_vacant|]; rewrite Hq.
      - apply list_lookup_insert_eq. rewrite !length_app, length_fmap, length_app. lia.
      - rewrite list_lookup_insert_ne by lia. apply live_cell. by apply list_lookup_middle. }
    intros ? w2 [-> H2]. rewrite bool_decide_true by done. apply wp_ret. cbn [sq_size set_sq_cells].
    change (sq_size (vc_sequence m)) with (sq_size q). rewrite Hn, Hq.
    rewrite (list_insert_insert_ne _ (length l) i), list_insert_insert_eq by lia.
    rewrite live_middle, middle_insert, live_insert by lia. unfold q. rewrite set_sq_cells_twice. apply Hdone; [apply ended_vacant|unfold vec_config in *; destruct want; solve_delta].
Qed.

(** * Resizing *)

Lemma shrink_loop_spec l1 l2 rest q w :
  sequence_config_ok (sq_config q) -> sq_size q = Z.of_nat (length (l1 ++ l2)) /\ sq_size q <= SIZE_MAX ->
  cells_of q = (Live <$> l1 ++ l2) ++ rest -> Forall (vacant (sc_type (sq_config q))) rest ->
  wp (shrink_loop q (Z.of_nat (length l1)) (length (l1 ++ l2))) (fun r w' => exists rest',
    r = (STL_OK, set_sq_size (Z.of_nat (length l1)) (set_sq_cells ((Live <$> l1) ++ rest') q)) /\
    Forall (vacant (sc_type (sq_config q))) rest' /\ length rest' = (length l2 + length rest)%nat /\
    delta w w' 0 (- (Z.of_nat (length l2) * typed (sc_type (sq_config q))))) w.
Proof.
  revert q rest w. induction l2 as [|v l2 IH] using rev_ind; intros q rest w Hc [Hsz Hmax] Hcells Hv.
  { rewrite app_nil_r in *. destruct (length l1) eqn:Hl; cbn [shrink_loop]; rewrite <- Hl in *;
      rewrite Hsz, Z.ltb_irrefl; apply wp_ret; exists rest;
      rewrite <- Hcells, set_sq_cells_same; unfold set_sq_size; rewrite <- Hsz;
      (split_and!; [by destruct q|done|done|apply delta_refl]). }
  rewrite (app_assoc l1) in *.
  assert (length ((l1 ++ l2) ++ [v]) = S (length (l1 ++ l2))) as Hs by (rewrite length_app; simpl; lia).
  rewrite Hs in *. cbn [shrink_loop].
  rewrite (proj2 (Z.ltb_lt _ _)) by (rewrite Hsz, length_app; lia).
  rewrite size_dec_small by lia. cbn [sq_size set_sq_size].
  assert (sq_size q - 1 = Z.of_nat (length (l1 ++ l2))) as -> by lia.
  set (q1 := set_sq_size _ q).
  assert (cells_of q1 !! length (l1 ++ l2) = Some (Live v)) as Hi
    by (change (cells_of q1) with (cells_of q); rewrite Hcells; apply live_cell; by apply list_lookup_middle).
  eapply wp_bind_mono; [by apply (destroy_at_spec q1 (length (l1 ++ l2)) v)|].
  intros ? w1 [-> H1]. rewrite bool_decide_true by done.
  change (cells_of q1) with (cells_of q). rewrite Hcells, live_middle, middle_insert by done.
  set (e := ended _ _). set (q2 := set_sq_cells _ q1). simpl app in q2.
  eapply wp_mono; [apply (IH q2 (e :: rest)); [done|split; [done|simpl; lia]| |]|].
  - unfold q2. rewrite cells_set; [done|]. by apply (cells_data q1 _ _ Hi).
  - constructor; [apply ended_vacant|done].
  - intros r w2 (rest' & -> & Hv' & Hl' & H2). exists rest'. unfold q2, q1 in *.
    rewrite (length_app l2). cbn [length sq_config set_sq_cells set_sq_size] in *.
    split_and!; [|done|lia|solve_delta].
    unfold set_sq_size, set_sq_cells. simpl. by destruct (sq_data q).
Qed.


(** [memset] behind the objects. *)
Lemma fill_zero_spec q l (rest : list (cell V)) (n : nat) :
  cells_of q = (Live <$> l) ++ rest -> (length l <= n <= length l + length rest)%nat ->
  fill_zero zero_object (length l) n q =
    set_sq_cells ((Live <$> l ++ replicate (n - length l) zero_object) ++ drop (n - length l) rest) q.
Proof.
  intros Hcells Hn. unfold fill_zero. rewrite Hcells.
  rewrite take_app_length' by (by rewrite length_fmap).
  rewrite (drop_app_ge _ rest n) by (rewrite length_fmap; lia).
  by rewrite length_fmap, fmap_app, fmap_replicate, <- app_assoc.
Qed.

(** The objects after a resize. *)
Definition resized (n : nat) l : list V :=
  take n l ++ replicate (n - length l) zero_object.

Lemma vec_resize_using_spec allocator m l n w :
  allocator_ok allocator -> vec_inv allocator m l -> is_size n ->
  (n <= Z.of_nat (length l) \/ sc_type (vec_config m) = None) ->
  wp (vec_resize_using zero_object (Some m) n allocator) (fun r w' =>
    vec_outcome allocator m (resized (Z.to_nat n) l) (n <= sc_limit (vec_config m))
      (fun status => sc_limit (vec_config m) < n -> status = STL_CAPACITY_EXCEEDED) r w w') w.
Proof.
  intros Hok Hm Hn Hcase. pose proof Hm as [Hi Hh]. pose proof (vec_inv_size _ _ _ Hm) as Hsz.
  pose proof (holds_range _ _ _ Hh) as [Hr Hcap]. unfold is_size in Hn.
  unfold vec_resize_using. rewrite (vec_inv_valid _ _ _ Hm). cbn [negb].
  destruct (_ <? n) eqn:Hlim; destruct_bools.
  { apply wp_ret. right. eexists. split_and!; [done|done| |apply delta_refl].
    intros _. split; [apply refusal_no_room; by right|done]. }
  destruct (n =? _) eqn:Heq; destruct_bools.
  { assert (resized (Z.to_nat n) l = l) as ->.
    { unfold resized. assert (Z.to_nat n = length l) as -> by lia.
      by rewrite Nat.sub_diag, app_nil_r, firstn_all. }
    apply wp_ret. eapply vec_succeeds; [done|done|done|done|]. rewrite !Z.sub_diag. apply delta_refl. }
  destruct (n <? _) eqn:Hlt; destruct_bools.
  - assert (resized (Z.to_nat n) l = take (Z.to_nat n) l) as ->.
    { unfold resized. replace (Z.to_nat n - length l)%nat with O by lia. by rewrite app_nil_r. }
    assert (length (take (Z.to_nat n) l) = Z.to_nat n) as Hl1 by (rewrite length_take; lia).
    destruct (vec_inv_cells _ _ _ Hm) as (rest & Hcells & Hv & Hd & Hlen); [by intros ->; simpl in *; lia|].
    rewrite Hsz, Nat2Z.id.
    pose proof (take_drop (Z.to_nat n) l) as Hsplit. pose proof (length_drop l (Z.to_nat n)) as Hl2.
    set (l1 := take (Z.to_nat n) l) in *. set (l2 := drop (Z.to_nat n) l) in *.
    replace n with (Z.of_nat (length l1)) by lia. rewrite <- Hsplit in Hcells, Hsz |- *.
    eapply wp_bind_mono; [apply (shrink_loop_spec l1 l2 rest); [apply Hh|split; [done|lia]|done|done]|].
    intros r w1 (rest' & -> & Hv' & Hl' & H1). rewrite bool_decide_true by done. apply wp_ret.
    rewrite Hsplit in *.
    eapply vec_succeeds; [done|apply (vec_rewritten allocator m l l1 rest'); try done; lia|done|unfold vec_config; lia|].
    rewrite vec_blocks_cells, Hl1. unfold vec_config. solve_delta.
  - destruct Hcase as [Hcase|Hty]; [lia|]. unfold vec_config in Hty. rewrite Hty. cbn [is_null negb].
    eapply wp_bind_mono; [by apply vec_grow_spec|].
    intros r w1 [(ch & m' & -> & Hm' & Hcfg & Hle & _ & H1)|(status & -> & Hst & Hb & H1)].
    2: { rewrite bool_decide_false by (by eapply refusal_not_ok). apply wp_ret. right. exists status.
         split_and!; [done|by eapply refusal_not_ok|done|done]. }
    rewrite bool_decide_true by done. apply wp_ret.
    destruct (holds_room _ _ _ (vi_holds _ _ _ Hm') ltac:(lia)) as (c & rest & Hcells & Hc & Hv & Hd & Hlen).
    rewrite Hsz, Nat2Z.id. rewrite (fill_zero_spec _ l (c :: rest)) by (done || simpl; lia).
    assert (resized (Z.to_nat n) l = l ++ replicate (Z.to_nat n - length l) zero_object) as ->
      by (unfold resized; by rewrite take_ge by lia).
    assert (Z.of_nat (length (l ++ replicate (Z.to_nat n - length l) zero_object)) = n) as Hl'
      by (rewrite length_app, length_replicate; lia).
    pose proof (vec_rewritten allocator m' l (l ++ replicate (Z.to_nat n - length l) zero_object)
      (drop (Z.to_nat n - length l) (c :: rest)) Hm' Hd) as Hm2.
    rewrite Hl' in Hm2.
    eapply vec_succeeds; [done|apply Hm2|done|done|].
    + apply Forall_drop. by constructor.
    + rewrite length_drop, length_app, length_replicate. simpl. lia.
    + rewrite vec_blocks_cells. unfold vec_config in *. rewrite Hty. simpl typed. solve_delta.
Qed.

Lemma vec_resize_beyond_spec allocator m l n w :
  vec_inv allocator m l -> sc_limit (vec_config m) < n ->
  vec_resize_using zero_object (Some m) n allocator w = Some ((STL_CAPACITY_EXCEEDED, Some m), w).
Proof.
  intros Hm Hn. unfold vec_resize_using. rewrite (vec_inv_valid _ _ _ Hm). unfold vec_config in *.
  by rewrite (proj2 (Z.ltb_lt _ _) Hn).
Qed.

(** Objects of a type are not resized from zero bytes. *)
Lemma vec_resize_typed_spec allocator m l n t w :
  vec_inv allocator m l -> sc_type (vec_config m) = Some t ->
  Z.of_nat (length l) < n <= sc_limit (vec_config m) ->
  vec_resize_using zero_object (Some m) n allocator w = Some ((STL_TRAIT_MISSING, Some m), w).
Proof.
  intros Hm Ht Hn. unfold vec_resize_using. rewrite (vec_inv_valid _ _ _ Hm), (vec_inv_size _ _ _ Hm).
  unfold vec_config in *. cbn [negb]. rewrite (proj2 (Z.ltb_ge _ _)) by lia.
  rewrite (proj2 (Z.eqb_neq _ _)) by lia. rewrite (proj2 (Z.ltb_ge _ _)) by lia. by rewrite Ht.
Qed.


End VecOps.
