(* ===== verification/CstlVecTheorems.v ===== *)
(** A vector is a list: whatever operations are called on it, every answer is one that
    the list of its objects gives, every failure changes nothing, and what it allocates
    and constructs is exactly what its objects need; with and without an allocator of
    its own. *)

From S2P Require Import Prelude.
From S2P Require Import CMetaType.
From S2P Require Import CstlSupport.
From S2P Require Import CstlObjects.
From S2P Require Import CstlSequence.
From S2P Require Import CstlSequenceSpecs.
From S2P Require Import CstlVec.
From S2P Require Import CstlVecOps.

(** * Calls and their answers *)

Inductive vec_call (V : Type) :=
  | VecPush (value : V)
  | VecInsert (index : Z) (value : V)
  | VecSet (index : Z) (value : V)
  | VecPop (want : bool)
  | VecErase (index : Z) (want : bool)
  | VecSwapRemove (index : Z) (want : bool)
  | VecClear
  | VecReserve (capacity : Z)
  | VecResize (size : Z)
  | VecAt (index : Z)
  | VecSize.
Arguments VecPush {V} value.
Arguments VecInsert {V} index value.
Arguments VecSet {V} index value.
Arguments VecPop {V} want.
Arguments VecErase {V} index want.
Arguments VecSwapRemove {V} index want.
Arguments VecClear {V}.
Arguments VecReserve {V} capacity.
Arguments VecResize {V} size.
Arguments VecAt {V} index.
Arguments VecSize {V}.

Inductive vec_answer (V : Type) :=
  | VecStatus (status : stl_status)
  | VecTaken (status : stl_status) (out : cell V)
  | VecValue (value : option V)
  | VecCount (size : Z).
Arguments VecStatus {V} status.
Arguments VecTaken {V} status out.
Arguments VecValue {V} value.
Arguments VecCount {V} size.

Section Calls.
Context {V U : Type} `{HV : ObjectTraits V U} `{!AllocatorCalls U}.
Context (vec_desc stack_desc : addr) (zero_object : V).
#[local] Abbreviation vec := (vec_t V).

(** The object at the slot [vec_at] returned. *)
Definition value_at (v : option vec) (slot : option nat) : option (option V) :=
  match slot with
  | None => Some None
  | Some i =>
      m ← v; object ← cells_of (vc_sequence m) !! i; value ← cell_value object; Some (Some value)
  end.

Definition run_vec_call (call : vec_call V) (v : option vec) : store U (vec_answer V * option vec) :=
  match call with
  | VecPush value =>
      let* (status, v) := vec_push vec_desc stack_desc v (Some value) in ret (VecStatus status, v)
  | VecInsert i value =>
      let* (status, v) := vec_insert v i (Some value) in ret (VecStatus status, v)
  | VecSet i value => let* (status, v) := vec_set v i (Some value) in ret (VecStatus status, v)
  | VecPop want => let* ((status, v), out) := vec_pop v want in ret (VecTaken status out, v)
  | VecErase i want => let* ((status, v), out) := vec_erase v i want in ret (VecTaken status out, v)
  | VecSwapRemove i want =>
      let* ((status, v), out) := vec_swap_remove v i want in ret (VecTaken status out, v)
  | VecClear => let* (status, v) := vec_clear v in ret (VecStatus status, v)
  | VecReserve n => let* (status, v) := vec_reserve v n in ret (VecStatus status, v)
  | VecResize n => let* (status, v) := vec_resize zero_object v n in ret (VecStatus status, v)
  | VecAt i =>
      let* value := reading (value_at v (vec_at v i)) in ret (VecValue value, v)
  | VecSize => ret (VecCount (vec_size v), v)
  end.

Fixpoint run_vec_calls (calls : list (vec_call V)) (v : option vec)
    : store U (list (vec_answer V) * option vec) :=
  match calls with
  | [] => ret ([], v)
  | call :: calls =>
      let* (a, v) := run_vec_call call v in
      let* (answers, v) := run_vec_calls calls v in
      ret (a :: answers, v)
  end.

(** ** The list *)

Definition at_index (i : Z) (l : list V) : option V := l !! Z.to_nat i.

(** The last object takes the place of the one at [i]. *)
Definition swap_removed (i : nat) (l : list V) : list V :=
  match last l with
  | Some x => take (length l - 1) (<[i := x]> l)
  | None => l
  end.

(** What a list with at most [limit] elements may answer, and the list then. *)
Inductive list_answers (c : sequence_config) (l : list V) :
    vec_call V -> vec_answer V -> list V -> Prop :=
  | list_push v :
      Z.of_nat (length l) < sc_limit c -> list_answers c l (VecPush v) (VecStatus STL_OK) (l ++ [v])
  | list_insert i v :
      i <= Z.of_nat (length l) < sc_limit c ->
      list_answers c l (VecInsert i v) (VecStatus STL_OK)
        (take (Z.to_nat i) l ++ v :: drop (Z.to_nat i) l)
  | list_no_room call status :
      no_room status ->
      match call with
      | VecPush _ => sc_limit c <= Z.of_nat (length l) -> status = STL_CAPACITY_EXCEEDED
      | VecInsert i _ => i <= Z.of_nat (length l) /\
          (sc_limit c <= Z.of_nat (length l) -> status = STL_CAPACITY_EXCEEDED)
      | VecSet i _ => i < Z.of_nat (length l)
      | VecReserve n | VecResize n => sc_limit c < n -> status = STL_CAPACITY_EXCEEDED
      | _ => False
      end ->
      list_answers c l call (VecStatus status) l
  | list_insert_outside i v :
      Z.of_nat (length l) < i -> list_answers c l (VecInsert i v) (VecStatus STL_INVALID_ARGUMENT) l
  | list_set i v :
      i < Z.of_nat (length l) ->
      list_answers c l (VecSet i v) (VecStatus STL_OK) (<[Z.to_nat i := v]> l)
  | list_set_outside i v :
      Z.of_nat (length l) <= i -> list_answers c l (VecSet i v) (VecStatus STL_INVALID_ARGUMENT) l
  | list_pop want l0 v :
      l = l0 ++ [v] ->
      list_answers c l (VecPop want) (VecTaken STL_OK (if want : bool then Live v else Raw)) l0
  | list_pop_empty want : l = [] -> list_answers c l (VecPop want) (VecTaken STL_EMPTY Raw) l
  | list_erase i want v :
      at_index i l = Some v ->
      list_answers c l (VecErase i want) (VecTaken STL_OK (if want : bool then Live v else Raw))
        (delete (Z.to_nat i) l)
  | list_erase_outside i want :
      Z.of_nat (length l) <= i ->
      list_answers c l (VecErase i want) (VecTaken STL_INVALID_ARGUMENT Raw) l
  | list_swap_remove i want v :
      at_index i l = Some v ->
      list_answers c l (VecSwapRemove i want) (VecTaken STL_OK (if want : bool then Live v else Raw))
        (swap_removed (Z.to_nat i) l)
  | list_swap_remove_outside i want :
      Z.of_nat (length l) <= i ->
      list_answers c l (VecSwapRemove i want) (VecTaken STL_INVALID_ARGUMENT Raw) l
  | list_clear : list_answers c l VecClear (VecStatus STL_OK) []
  | list_reserve n : n <= sc_limit c -> list_answers c l (VecReserve n) (VecStatus STL_OK) l
  | list_resize n :
      n <= sc_limit c -> n <= Z.of_nat (length l) \/ sc_type c = None ->
      list_answers c l (VecResize n) (VecStatus STL_OK) (resized zero_object (Z.to_nat n) l)
  | list_resize_typed n :
      Z.of_nat (length l) < n <= sc_limit c -> sc_type c <> None ->
      list_answers c l (VecResize n) (VecStatus STL_TRAIT_MISSING) l
  | list_at i : list_answers c l (VecAt i) (VecValue (at_index i l)) l
  | list_size : list_answers c l VecSize (VecCount (Z.of_nat (length l))) l.

Inductive list_answers_all (c : sequence_config) :
    list V -> list (vec_call V) -> list (vec_answer V) -> list V -> Prop :=
  | list_answers_nil l : list_answers_all c l [] [] l
  | list_answers_cons l call a l1 calls as_ l2 :
      list_answers c l call a l1 -> list_answers_all c l1 calls as_ l2 ->
      list_answers_all c l (call :: calls) (a :: as_) l2.

(** The objects that removals handed to the caller. *)
Definition vec_handed_out (c : sequence_config) (a : vec_answer V) : Z :=
  match a with VecTaken _ (Live _) => typed (sc_type c) | _ => 0 end.

Definition vec_all_handed_out (c : sequence_config) (as_ : list (vec_answer V)) : Z :=
  foldr (fun a n => vec_handed_out c a + n) 0 as_.

(** The arguments are values of their C types. *)
Definition vec_call_ok (call : vec_call V) : Prop :=
  match call with
  | VecInsert i _ | VecSet i _ | VecErase i _ | VecSwapRemove i _ | VecReserve i | VecResize i
  | VecAt i => is_size i
  | _ => True
  end.

End Calls.

Section Refinement.
Context {V U : Type} `{HV : ObjectTraits V U} `{!TraitLaws V U} `{!AllocatorCalls U}.
Context (vec_desc stack_desc : addr) (zero_object : V).
Implicit Types w : object_world U.
Implicit Types m : vec_t V.
Implicit Types l : list V.
#[local] Abbreviation run_call := (run_vec_call vec_desc stack_desc zero_object).
#[local] Abbreviation run_calls := (run_vec_calls vec_desc stack_desc zero_object).
#[local] Abbreviation list_answers := (list_answers zero_object).
#[local] Abbreviation list_answers_all := (list_answers_all zero_object).

(** * One call *)

Definition vec_call_sound m l call (r : vec_answer V * option (vec_t V)) w w' : Prop :=
  exists a m' l', r = (a, Some m') /\ vec_inv None m' l' /\ vec_config m' = vec_config m /\
    list_answers (vec_config m) l call a l' /\
    delta w w' (vec_blocks m' - vec_blocks m)
      (vec_objects m' - vec_objects m + vec_handed_out (vec_config m) a).

Lemma vec_unchanged_sound m l call a w w' :
  vec_inv None m l -> list_answers (vec_config m) l call a l ->
  vec_handed_out (vec_config m) a = 0 -> delta w w' 0 0 -> vec_call_sound m l call (a, Some m) w w'.
Proof.
  intros Hm Ha Hh Hd. exists a, m, l. split_and!; try done. by rewrite Hh, !Z.sub_diag.
Qed.

Lemma vec_outcome_sound m l l' call good bad r w w' :
  vec_inv None m l ->
  (good -> list_answers (vec_config m) l call (VecStatus STL_OK) l') ->
  (forall status, no_room status -> bad status -> list_answers (vec_config m) l call (VecStatus status) l) ->
  vec_outcome None m l' good bad r w w' -> vec_call_sound m l call (VecStatus (fst r), snd r) w w'.
Proof.
  intros Hm Hgood Hbad. pose proof (vi_initialized _ _ _ Hm) as Hi.
  intros [(m' & -> & Hm' & Hcfg & Hg & Hd)|(status & -> & _ & Hn & Hd)].
  - unfold vec_kept in Hcfg. rewrite Hi in Hcfg. exists (VecStatus STL_OK), m', l'.
    split_and!; [done|done|done|auto|]. simpl. by rewrite Z.add_0_r.
  - destruct (Hn Hi) as [Hnr Hb]. apply vec_unchanged_sound; try done. by apply Hbad.
Qed.

Lemma vec_taken_sound m l l' call v (want : bool) r w w' :
  vec_inv None m l -> length l = S (length l') ->
  list_answers (vec_config m) l call (VecTaken STL_OK (if want then Live v else Raw)) l' ->
  vec_taken None m l' v want r w w' ->
  vec_call_sound m l call (VecTaken (fst (fst r)) (snd r), snd (fst r)) w w'.
Proof.
  intros Hm Hlen Ha (m' & -> & Hm' & Hcfg & Hb & Hd). do 3 eexists. split_and!; try done.
  rewrite (vec_objects_inv _ _ _ Hm), (vec_objects_inv _ _ _ Hm'), Hcfg, Hlen, Hb.
  destruct want; simpl in *; solve_delta.
Qed.

Lemma vec_at_spec allocator m l i : vec_inv allocator m l -> is_size i ->
  value_at (Some m) (vec_at (Some m) i) = Some (at_index i l).
Proof.
  intros Hm Hi. pose proof (vec_inv_size _ _ _ Hm) as Hsz. unfold vec_at, at_index, is_size in *.
  rewrite (vec_inv_valid _ _ _ Hm), Hsz. cbn [andb].
  destruct (i <? _) eqn:Hlt; destruct_bools.
  - destruct (lookup_lt_is_Some_2 l (Z.to_nat i) ltac:(lia)) as [v Hv].
    destruct (holds_cells _ _ _ (vi_holds _ _ _ Hm)) as (rest & Hcells & _).
    cbn [value_at mbind option_bind]. rewrite Hcells, (live_cell _ _ _ _ Hv), Hv. done.
  - cbn [value_at]. rewrite lookup_ge_None_2 by lia. done.
Qed.

Lemma split_at l (i : nat) v : l !! i = Some v ->
  l = take i l ++ v :: drop (S i) l /\ delete i l = take i l ++ drop (S i) l /\ length (take i l) = i.
Proof.
  intros Hi. pose proof (lookup_lt_Some _ _ _ Hi). split_and!.
  - by rewrite take_drop_middle.
  - by rewrite delete_take_drop.
  - rewrite length_take. lia.
Qed.

Lemma vec_removed_outside_spec m l i (want : bool) w :
  vec_inv None m l -> Z.of_nat (length l) <= i ->
  vec_erase (Some m) i want w = Some ((STL_INVALID_ARGUMENT, Some m, Raw), w) /\
  vec_swap_remove (Some m) i want w = Some ((STL_INVALID_ARGUMENT, Some m, Raw), w).
Proof.
  intros Hm Hi. unfold vec_erase, vec_swap_remove.
  rewrite (vec_inv_valid _ _ _ Hm), (vec_inv_size _ _ _ Hm), (proj2 (Z.leb_le _ _) Hi). done.
Qed.

Lemma swap_removed_spec l x (i : nat) v :
  (l ++ [x]) !! i = Some v -> swap_removed i (l ++ [x]) = <[i := x]> l.
Proof.
  intros Hi%lookup_lt_Some. rewrite length_app in Hi. simpl in Hi.
  unfold swap_removed. rewrite last_snoc, length_app, Nat.add_sub.
  destruct (decide (i < length l)%nat).
  - rewrite insert_app_l by lia. by rewrite take_app_length' by (by rewrite length_insert).
  - assert (i = length l) as -> by lia. rewrite (list_insert_ge l) by lia.
    rewrite insert_app_r_alt by lia. by rewrite take_app_length.
Qed.

Lemma snoc_cases l : l = [] \/ exists l0 v, l = l0 ++ [v].
Proof. destruct l as [|v l0 _] using rev_ind; [by left|right; eauto]. Qed.

(** The calls on a vector that holds [l]. *)
Section Sound.
Context (m : vec_t V) (l : list V) (Hm : vec_inv None m l).

Lemma vec_same_sound call a w :
  list_answers (vec_config m) l call a l -> vec_handed_out (vec_config m) a = 0 ->
  vec_call_sound m l call (a, Some m) w w.
Proof. intros. apply vec_unchanged_sound; try done. apply delta_refl. Qed.

Lemma vec_push_sound v w :
  wp (run_call (VecPush v) (Some m)) (fun r w' => vec_call_sound m l (VecPush v) r w w') w.
Proof.
  eapply wp_bind_mono; [apply vec_push_using_spec; [done|by left]|].
  intros [status v'] w' Hch. apply wp_ret. unfold vec_limit in Hch.
  rewrite (vi_initialized _ _ _ Hm) in Hch.
  eapply vec_outcome_sound in Hch; [exact Hch|done|by apply list_push|].
  intros. by apply list_no_room.
Qed.

Lemma vec_insert_sound i v w :
  is_size i ->
  wp (run_call (VecInsert i v) (Some m)) (fun r w' => vec_call_sound m l (VecInsert i v) r w w') w.
Proof.
  intros Hi. unfold is_size in Hi. destruct (decide (i <= Z.of_nat (length l))) as [Hle|Hgt].
  - pose proof Hm as Hm'. rewrite <- (take_drop (Z.to_nat i) l) in Hm'.
    assert (i = Z.of_nat (length (take (Z.to_nat i) l))) as Hi' by (rewrite length_take; lia).
    cbn [run_vec_call]. rewrite Hi' at 1.
    eapply wp_bind_mono; [by apply vec_insert_spec|]. rewrite take_drop.
    intros [status v'] w' Hch. apply wp_ret.
    eapply vec_outcome_sound in Hch; [exact Hch|done| |].
    + intros Hroom. by apply list_insert.
    + intros st Hn Hb. by apply list_no_room.
  - cbn [run_vec_call]. unfold vec_insert.
    rewrite (vec_inv_valid _ _ _ Hm), (vec_inv_size _ _ _ Hm), (proj2 (Z.ltb_lt _ _)) by lia.
    apply vec_same_sound; [|done]. apply list_insert_outside. lia.
Qed.

Lemma vec_set_sound i v w :
  is_size i ->
  wp (run_call (VecSet i v) (Some m)) (fun r w' => vec_call_sound m l (VecSet i v) r w w') w.
Proof.
  intros Hi. unfold is_size in Hi. cbn [run_vec_call].
  destruct (decide (i < Z.of_nat (length l))) as [Hlt|Hge].
  - assert (i = Z.of_nat (Z.to_nat i)) as Hi' by lia. rewrite Hi' at 1.
    eapply wp_bind_mono; [apply vec_set_spec; [done|lia]|].
    intros [status v'] w' Hch. apply wp_ret.
    eapply vec_outcome_sound in Hch; [exact Hch|done|by intros; apply list_set|].
    intros st Hn Hb. by apply list_no_room.
  - unfold vec_set. rewrite (vec_inv_valid _ _ _ Hm), (vec_inv_size _ _ _ Hm).
    rewrite (proj2 (Z.leb_le _ _)) by lia.
    apply vec_same_sound; [|done]. apply list_set_outside. lia.
Qed.

Lemma vec_pop_sound want w :
  wp (run_call (VecPop want) (Some m)) (fun r w' => vec_call_sound m l (VecPop want) r w w') w.
Proof.
  cbn [run_vec_call]. destruct (snoc_cases l) as [Hl|(l0 & v & Hl)].
  - eapply wp_bind, wp_eval.
    + unfold vec_pop. by rewrite (vec_inv_valid _ _ _ Hm), (vec_inv_size _ _ _ Hm), Hl.
    + apply wp_ret, vec_same_sound; [by apply list_pop_empty|done].
  - pose proof Hm as Hm'. rewrite Hl in Hm'.
    eapply wp_bind_mono; [by apply vec_pop_spec|]. intros [[status v'] out] w' Hch. apply wp_ret.
    eapply vec_taken_sound in Hch; [exact Hch|done|rewrite Hl, length_app; simpl; lia|by apply list_pop].
Qed.

Lemma vec_erase_sound i want w :
  is_size i ->
  wp (run_call (VecErase i want) (Some m)) (fun r w' => vec_call_sound m l (VecErase i want) r w w') w.
Proof.
  intros Hi. unfold is_size in Hi. cbn [run_vec_call].
  destruct (at_index i l) as [v|] eqn:Hat; pose proof Hat as Hat'; unfold at_index in Hat'.
  - destruct (split_at l _ v Hat') as (Hl & Hdel & Hlen). pose proof Hm as Hm'. rewrite Hl in Hm'.
    assert (i = Z.of_nat (length (take (Z.to_nat i) l))) as Hi' by lia. rewrite Hi' at 1.
    eapply wp_bind_mono; [by apply vec_erase_spec|]. rewrite <- Hdel.
    intros [[status v'] out] w' Hch. apply wp_ret.
    eapply vec_taken_sound in Hch; [exact Hch|done| |by apply list_erase].
    rewrite Hdel. rewrite Hl at 1. rewrite !length_app. simpl. lia.
  - apply lookup_ge_None in Hat'.
    eapply wp_bind, wp_eval; [apply (vec_removed_outside_spec m l); [done|lia]|].
    apply wp_ret, vec_same_sound; [apply list_erase_outside; lia|done].
Qed.

Lemma vec_swap_remove_sound i want w :
  is_size i ->
  wp (run_call (VecSwapRemove i want) (Some m))
    (fun r w' => vec_call_sound m l (VecSwapRemove i want) r w w') w.
Proof.
  intros Hi. unfold is_size in Hi. cbn [run_vec_call].
  destruct (at_index i l) as [v|] eqn:Hat; pose proof Hat as Hat'; unfold at_index in Hat'.
  - destruct (snoc_cases l) as [Hl|(l0 & x & Hl)]; [by rewrite Hl in Hat'|].
    pose proof Hm as Hm'. rewrite Hl in Hm', Hat'.
    assert (i = Z.of_nat (Z.to_nat i)) as Hi' by lia. rewrite Hi' at 1.
    eapply wp_bind_mono; [by apply vec_swap_remove_spec|].
    intros [[status v'] out] w' Hch. apply wp_ret.
    eapply vec_taken_sound in Hch; [exact Hch|done|rewrite Hl, length_app, length_insert; simpl; lia|].
    rewrite <- (swap_removed_spec l0 x _ v Hat'), <- Hl. by apply list_swap_remove.
  - apply lookup_ge_None in Hat'.
    eapply wp_bind, wp_eval; [apply (vec_removed_outside_spec m l); [done|lia]|].
    apply wp_ret, vec_same_sound; [apply list_swap_remove_outside; lia|done].
Qed.

Lemma vec_resize_sound n w :
  is_size n ->
  wp (run_call (VecResize n) (Some m)) (fun r w' => vec_call_sound m l (VecResize n) r w w') w.
Proof.
  intros Hn. cbn [run_vec_call].
  destruct (decide (sc_limit (vec_config m) < n)) as [Hbig|Hlim].
  { eapply wp_bind, wp_eval; [by eapply vec_resize_beyond_spec|].
    apply wp_ret, vec_same_sound; [|done]. apply list_no_room; [by right|done]. }
  destruct (decide (Z.of_nat (length l) < n /\ sc_type (vec_config m) <> None)) as [[Hgt Ht]|Hno].
  { destruct (sc_type (vec_config m)) as [t|] eqn:Hty; [|done].
    eapply wp_bind, wp_eval; [eapply vec_resize_typed_spec; [done|done|lia]|].
    apply wp_ret, vec_same_sound; [|done]. apply list_resize_typed; [lia|by rewrite Hty]. }
  assert (n <= Z.of_nat (length l) \/ sc_type (vec_config m) = None) as Hcase
    by (destruct (sc_type (vec_config m)); [left; apply Z.nlt_ge; naive_solver|by right]).
  eapply wp_bind_mono; [by apply vec_resize_using_spec|].
  intros [status v'] w' Hch. apply wp_ret.
  eapply vec_outcome_sound in Hch; [exact Hch|done|by intros; apply list_resize|].
  intros. by apply list_no_room.
Qed.

End Sound.

Lemma vec_call_spec m l call w :
  vec_inv None m l -> vec_call_ok call ->
  wp (run_call call (Some m)) (fun r w' => vec_call_sound m l call r w w') w.
Proof.
  intros Hm Hok. destruct call as [v|i v|i v|want|i want|i want| |n|n|i|].
  - by apply vec_push_sound.
  - by apply vec_insert_sound.
  - by apply vec_set_sound.
  - by apply vec_pop_sound.
  - by apply vec_erase_sound.
  - by apply vec_swap_remove_sound.
  - eapply wp_bind_mono; [by eapply vec_clear_spec|].
    intros r w' (m' & -> & Hm' & _ & _ & _ & Hcfg & Hd). apply wp_ret. exists (VecStatus STL_OK), m', [].
    split_and!; [done|done|done|constructor|done].
  - eapply wp_bind_mono; [by apply vec_reserve_spec|]. intros [status v'] w' Hch. apply wp_ret.
    eapply vec_outcome_sound in Hch; [exact Hch|done|by intros; apply list_reserve|].
    intros. by apply list_no_room.
  - by apply vec_resize_sound.
  - eapply wp_bind, wp_reading; [by eapply vec_at_spec|].
    apply wp_ret, vec_same_sound; [done|constructor|done].
  - cbn [run_vec_call]. unfold vec_size.
    rewrite (vec_inv_valid _ _ _ Hm), (vec_inv_size _ _ _ Hm).
    apply wp_ret, vec_same_sound; [done|constructor|done].
Qed.

(** Any calls. *)
Lemma vec_calls_spec calls m l w :
  vec_inv None m l -> Forall vec_call_ok calls ->
  wp (run_calls calls (Some m)) (fun r w' => exists as_ m' l',
    r = (as_, Some m') /\ vec_inv None m' l' /\ vec_config m' = vec_config m /\
    list_answers_all (vec_config m) l calls as_ l' /\
    delta w w' (vec_blocks m' - vec_blocks m)
      (vec_objects m' - vec_objects m + vec_all_handed_out (vec_config m) as_)) w.
Proof.
  revert m l w. induction calls as [|call calls IH]; intros m l w Hm Hok; simpl.
  { apply wp_ret. exists [], m, l. split_and!; try done; [constructor|].
    simpl. rewrite !Z.sub_diag. apply delta_refl. }
  inversion_clear Hok as [|? ? Hc Hcs].
  eapply wp_bind_mono; [by apply vec_call_spec|].
  intros r w1 (a & m1 & l1 & -> & Hm1 & Hcfg & Ha & H1).
  eapply wp_bind_mono; [by apply (IH m1 l1)|].
  intros r w2 (as_ & m2 & l2 & -> & Hm2 & Hcfg2 & Has & H2). rewrite Hcfg in *.
  apply wp_ret. exists (a :: as_), m2, l2. split_and!; try done; [by econstructor|].
  simpl. solve_delta.
Qed.

(** * Construction from an array *)

Lemma push_rows_spec elements fuel index m l w :
  vec_inv None m l -> (index + fuel <= length elements)%nat ->
  wp (push_rows vec_desc stack_desc (Some m) elements index fuel) (fun r w' =>
    (exists m', r = (STL_OK, Some m') /\ vec_inv None m' (l ++ take fuel (drop index elements)) /\
       vec_config m' = vec_config m /\
       delta w w' (vec_blocks m' - vec_blocks m) (vec_objects m' - vec_objects m)) \/
    (exists status zero, r = (status, zero) /\ no_room status /\
       delta w w' (- vec_blocks m) (- vec_objects m))) w.
Proof.
  revert index m l w. induction fuel as [|fuel IH]; intros index m l w Hm Hlen; cbn [push_rows].
  { apply wp_ret. left. exists m. rewrite take_0, app_nil_r, !Z.sub_diag. split_and!; try done. apply delta_refl. }
  destruct (lookup_lt_is_Some_2 elements index ltac:(lia)) as [v Hv].
  eapply wp_bind, wp_reading; [exact Hv|].
  eapply wp_bind_mono; [apply vec_push_using_spec; [done|by left]|].
  intros r w1 [(m1 & -> & Hm1 & Hcfg & _ & H1)|(status & -> & Hs & Hn & H1)].
  - unfold vec_kept in Hcfg. rewrite (vi_initialized _ _ _ Hm) in Hcfg. rewrite bool_decide_true by done.
    eapply wp_mono; [apply (IH (S index) m1 _ w1 Hm1); lia|].
    rewrite (drop_S _ _ _ Hv). cbn [take].
    replace (l ++ v :: take fuel (drop (S index) elements))
      with ((l ++ [v]) ++ take fuel (drop (S index) elements)) by (by rewrite <- app_assoc).
    intros r w2 [(m2 & -> & Hm2 & Hcfg2 & H2)|(status & z & -> & Hn & H2)].
    + left. exists m2. split_and!; [done|done|by rewrite Hcfg2|solve_delta].
    + right. exists status, z. split_and!; [done|done|solve_delta].
  - rewrite bool_decide_false by done.
    eapply wp_bind_mono; [by eapply vec_destroy_storage_spec|]. intros r w2 (g & -> & H2). apply wp_ret.
    right. do 2 eexists. split_and!; [done| |solve_delta]. apply Hn, Hm.
Qed.

Lemma fresh_owns m type limit : fresh_vec m type limit -> vec_blocks m = 0 /\ vec_objects m = 0.
Proof.
  intros [Hm Hd _ _]. pose proof (vec_inv_size _ _ _ (Hm None)) as Hs.
  unfold vec_blocks, vec_objects, sequence_blocks, sequence_objects. by rewrite Hd, Hs.
Qed.

Lemma vec_raw_from_array_spec m elements (count : nat) type limit w :
  element_sizes type -> is_size limit -> (count <= length elements)%nat ->
  wp (vec_raw_from_array vec_desc stack_desc (Some m) (Some elements) count type limit) (fun r w' =>
    (exists m', r = (STL_OK, Some m') /\ vec_inv None m' (take count elements) /\
       sc_type (vec_config m') = type /\ sc_limit (vec_config m') = limit /\
       vc_initialized m = false /\ delta w w' (vec_blocks m') (vec_objects m')) \/
    (exists status, r = (status, Some m) /\ status <> STL_OK /\ delta w w' 0 0)) w.
Proof.
  intros Hs Hl Hc. unfold vec_raw_from_array, vec_from_rows.
  assert (Hfail : forall status w', status <> STL_OK -> delta w w' 0 0 ->
    (exists m', (status, Some m) = (STL_OK, Some m') /\ vec_inv None m' (take count elements) /\
       sc_type (vec_config m') = type /\ sc_limit (vec_config m') = limit /\
       vc_initialized m = false /\ delta w w' (vec_blocks m') (vec_objects m')) \/
    (exists status', (status, Some m) = (status', Some m) /\ status' <> STL_OK /\ delta w w' 0 0))
    by (right; eauto).
  destruct (vc_initialized m) eqn:Hi; [apply wp_ret, Hfail; [done|apply delta_refl]|].
  destruct (_ || _); [apply wp_ret, Hfail; [by destruct (limit <? _)|apply delta_refl]|].
  pose proof (vec_raw_init_spec (zero_vec (V := V) 0) type limit eq_refl Hs Hl) as Hinit.
  destruct (vec_raw_init _ _ _) as [status temporary]. destruct status;
    try (apply wp_ret, Hfail; [done|apply delta_refl]).
  destruct Hinit as (m0 & -> & Hm0). destruct (fresh_owns _ _ _ Hm0) as [Hb Ho].
  destruct Hm0 as [Hinv _ Hty Hlim]. cbn [default].
  eapply wp_bind_mono; [apply push_rows_spec; [apply Hinv|cbn [from_option id]; lia]|].
  intros r w1 [(m1 & -> & Hm1 & Hcfg & H1)|(status & z & -> & Hn & H1)].
  - rewrite bool_decide_true by done. apply wp_ret. left. eexists. split; [done|].
    rewrite drop_0 in Hm1. rewrite <- Hcfg in Hty, Hlim. split_and!; [by destruct Hm1|done|done|done|].
    change (delta w w1 (vec_blocks m1) (vec_objects m1)). solve_delta.
  - rewrite bool_decide_false by (by destruct Hn as [->| ->]). apply wp_ret, Hfail; [|solve_delta].
    by destruct Hn as [->| ->].
Qed.


(** * Vectors from their creation on *)

(** What the two initialisation functions make of a zero handle. *)
Inductive vec_created : vec_t V -> Prop :=
  | vec_created_typed generation type limit m :
      element_sizes type -> is_size limit ->
      vec_raw_init (Some (zero_vec generation)) type limit = (STL_OK, Some m) -> vec_created m
  | vec_created_bytes generation size align limit m :
      is_size size -> is_size align -> is_size limit ->
      vec_init_bytes (Some (zero_vec generation)) size align limit = (STL_OK, Some m) -> vec_created m.

Lemma vec_init_bytes_spec generation size align limit m :
  is_size size -> is_size align -> is_size limit ->
  vec_init_bytes (Some (zero_vec (V := V) generation)) size align limit = (STL_OK, Some m) ->
  fresh_vec m None limit.
Proof.
  intros Hs Ha Hl Hinit.
  pose proof (vec_initialize_spec (zero_vec (V := V) generation) None size align limit eq_refl Hs Ha Hl I) as H.
  unfold vec_init_bytes in Hinit. rewrite Hinit in H. by destruct H as (m' & [= <-] & H).
Qed.

Lemma vec_created_fresh m : vec_created m -> exists type limit, fresh_vec m type limit.
Proof.
  intros [g type limit m' Hs Hl Hi|g size align limit m' Hs Ha Hl Hi].
  - pose proof (vec_raw_init_spec (zero_vec (V := V) g) type limit eq_refl Hs Hl) as H. rewrite Hi in H.
    destruct H as (m0 & [= <-] & H). eauto.
  - apply vec_init_bytes_spec in Hi; eauto.
Qed.

(** C15: (refinement) From its creation on, whatever operations are called on a vector, in
    whatever order and with whatever indices, none reads raw or moved memory or leaves the
    array, all return, and the answers are those of a list: pushes append, insertions and
    removals shift the rest, a swap-removal moves the last object, an index beyond the size
    is refused; a push, insertion, replacement, reservation or growth fails only for want
    of memory or capacity, with CAPACITY_EXCEEDED beyond the limit, and leaves the objects
    as they were; and a typed vector does not grow by zero bytes. *)
Theorem vec_refines_list m calls w :
  vec_created m -> Forall vec_call_ok calls ->
  exists as_ m' w' l,
    run_calls calls (Some m) w = Some ((as_, Some m'), w') /\
    list_answers_all (vec_config m) [] calls as_ l /\
    vec_inv None m' l /\ vec_config m' = vec_config m.
Proof.
  intros (type & limit & [Hm _ _ _])%vec_created_fresh Hok.
  destruct (wp_run _ _ _ (vec_calls_spec calls m [] w (Hm None) Hok))
    as (r & w' & Hrun & as_ & m' & l & -> & ? & ? & ? & _).
  by exists as_, m', w', l.
Qed.

(** C16: (safety) A vector releases what it takes: after any calls, destroying it leaves as
    many blocks allocated as before its creation, and as many objects alive but for those
    that removals handed to the caller; the temporaries of failed insertions, the arrays
    that growth replaced and replaced objects are gone. *)
Theorem vec_releases_all m calls w :
  vec_created m -> Forall vec_call_ok calls ->
  exists as_ m' w' zero w'',
    run_calls calls (Some m) w = Some ((as_, Some m'), w') /\
    vec_raw_destroy_storage (Some m') w' = Some (Some zero, w'') /\
    vc_initialized zero = false /\ sq_data (vc_sequence zero) = None /\
    ow_blocks w'' = ow_blocks w /\
    ow_objects w'' = ow_objects w + vec_all_handed_out (vec_config m) as_.
Proof.
  intros (type & limit & Hf)%vec_created_fresh Hok. destruct (fresh_owns _ _ _ Hf) as [Hb Ho].
  destruct Hf as [Hm _ _ _].
  destruct (wp_run _ _ _ (vec_calls_spec calls m [] w (Hm None) Hok))
    as (r & w' & Hrun & as_ & m' & l & -> & Hm' & _ & _ & Hd).
  destruct (wp_run _ _ _ (vec_destroy_storage_spec m' l w' Hm')) as (r' & w'' & Hdes & g & -> & Hd').
  do 5 eexists. split_and!; [done|done|done|done|..]; destruct Hd, Hd'; lia.
Qed.

(** * Owners with an allocator *)

Inductive owner_call : Type :=
  | OwnerPush (value : V)
  | OwnerResize (size : Z).

Definition run_owner_call (call : owner_call) (owner : option (vec_alloc (V := V)))
    : store U (stl_status * option vec_alloc) :=
  match call with
  | OwnerPush value => vec_alloc_push vec_desc stack_desc owner (Some value)
  | OwnerResize n => vec_alloc_resize zero_object owner n
  end.

Fixpoint run_owner_calls (calls : list owner_call) (owner : option (vec_alloc (V := V)))
    : store U (list stl_status * option vec_alloc) :=
  match calls with
  | [] => ret ([], owner)
  | call :: calls =>
      let* (status, owner) := run_owner_call call owner in
      let* (answers, owner) := run_owner_calls calls owner in
      ret (status :: answers, owner)
  end.

(** A call that answers OK did its work; any other answer left the list. *)
Definition owner_step (l : list V) (call : owner_call) (status : stl_status) : list V :=
  if bool_decide (status = STL_OK) then
    match call with
    | OwnerPush v => l ++ [v]
    | OwnerResize n => resized zero_object (Z.to_nat n) l
    end
  else l.

Fixpoint owner_steps (l : list V) (calls : list owner_call) (answers : list stl_status) : list V :=
  match calls, answers with
  | call :: calls, status :: answers => owner_steps (owner_step l call status) calls answers
  | _, _ => l
  end.

Definition owner_call_ok (call : owner_call) : Prop :=
  match call with OwnerPush _ => True | OwnerResize n => is_size n end.

(** A call that answered OK left the objects [l'], any other left [l]. *)
Definition vec_result allocator m l l' (r : stl_status * option (vec_t V)) w w' : Prop :=
  exists status m', r = (status, Some m') /\
    vec_inv allocator m' (if bool_decide (status = STL_OK) then l' else l) /\
    vec_config m' = vec_config m /\
    delta w w' (vec_blocks m' - vec_blocks m) (vec_objects m' - vec_objects m).

Lemma vec_outcome_result allocator m l l' good bad r w w' :
  vec_inv allocator m l -> vec_outcome allocator m l' good bad r w w' -> vec_result allocator m l l' r w w'.
Proof.
  intros Hm [(m' & -> & Hm' & Hcfg & _ & Hd)|(status & -> & Hs & _ & Hd)].
  - unfold vec_kept in Hcfg. rewrite (vi_initialized _ _ _ Hm) in Hcfg. by exists STL_OK, m'.
  - exists status, m. rewrite bool_decide_false, !Z.sub_diag by done. done.
Qed.

Lemma vec_unchanged_result allocator m l l' status w :
  vec_inv allocator m l -> status <> STL_OK -> vec_result allocator m l l' (status, Some m) w w.
Proof.
  intros Hm Hs. exists status, m. rewrite bool_decide_false, !Z.sub_diag by done.
  split_and!; try done. apply delta_refl.
Qed.

Lemma vec_resize_result allocator m l n w :
  allocator_ok allocator -> vec_inv allocator m l -> is_size n ->
  wp (vec_resize_using zero_object (Some m) n allocator)
    (fun r w' => vec_result allocator m l (resized zero_object (Z.to_nat n) l) r w w') w.
Proof.
  intros Hok Hm Hn. destruct (decide (sc_limit (vec_config m) < n)) as [Hbig|Hlim].
  { eapply wp_eval; [by eapply vec_resize_beyond_spec|by apply vec_unchanged_result]. }
  destruct (decide (Z.of_nat (length l) < n /\ sc_type (vec_config m) <> None)) as [[Hgt Ht]|Hno].
  { destruct (sc_type (vec_config m)) as [t|] eqn:Hty; [|done].
    eapply wp_eval; [eapply vec_resize_typed_spec; [done|done|lia]|by apply vec_unchanged_result]. }
  eapply wp_mono; [apply vec_resize_using_spec; [done|done|done|]|].
  - destruct (sc_type _); [left; apply Z.nlt_ge; naive_solver|by right].
  - intros r w' Hch. eapply vec_outcome_result; [done|exact Hch].
Qed.

Lemma owner_call_spec o l call w :
  allocator_ok (Some (va_allocator o)) -> vec_inv (Some (va_allocator o)) (va_vec o) l ->
  owner_call_ok call ->
  wp (run_owner_call call (Some o)) (fun r w' => exists status m,
    r = (status, Some (set_va_vec m o)) /\
    vec_inv (Some (va_allocator o)) m (owner_step l call status) /\
    vec_config m = vec_config (va_vec o) /\
    delta w w' (vec_blocks m - vec_blocks (va_vec o)) (vec_objects m - vec_objects (va_vec o))) w.
Proof.
  intros Hok Hm Hcall. unfold owner_step. destruct call as [v|n].
  - eapply wp_bind_mono; [apply vec_push_using_spec; [done|by left]|].
    intros r w' (status & m & -> & Hm' & Hcfg & Hd)%(vec_outcome_result _ _ l); [|done].
    apply wp_ret. by exists status, m.
  - eapply wp_bind_mono; [by apply vec_resize_result|].
    intros r w' (status & m & -> & Hm' & Hcfg & Hd). apply wp_ret. by exists status, m.
Qed.

Lemma owner_calls_spec calls o l w :
  allocator_ok (Some (va_allocator o)) -> vec_inv (Some (va_allocator o)) (va_vec o) l ->
  Forall owner_call_ok calls ->
  wp (run_owner_calls calls (Some o)) (fun r w' => exists answers m,
    r = (answers, Some (set_va_vec m o)) /\ length answers = length calls /\
    vec_inv (Some (va_allocator o)) m (owner_steps l calls answers) /\
    vec_config m = vec_config (va_vec o) /\
    delta w w' (vec_blocks m - vec_blocks (va_vec o)) (vec_objects m - vec_objects (va_vec o))) w.
Proof.
  intros Hok Hm Hcalls. revert o l w Hok Hm.
  induction Hcalls as [|call calls Hcall _ IH]; intros o l w Hok Hm; simpl.
  { apply wp_ret. exists [], (va_vec o). rewrite !Z.sub_diag. destruct o.
    split_and!; try done. apply delta_refl. }
  eapply wp_bind_mono; [by eapply owner_call_spec|].
  intros r w1 (status & m1 & -> & Hm1 & Hcfg1 & H1).
  eapply wp_bind_mono; [by apply (IH (set_va_vec m1 o) (owner_step l call status))|].
  intros r w2 (answers & m2 & -> & Hlen & Hm2 & Hcfg2 & H2). apply wp_ret.
  exists (status :: answers), m2. simpl in *.
  split_and!; [done|lia|done|by rewrite Hcfg2, Hcfg1|solve_delta].
Qed.

Lemma vec_alloc_create_spec type size align limit a w :
  allocator_ok (Some a) -> element_sizes type -> is_size size -> is_size align -> is_size limit ->
  wp (vec_alloc_create (V := V) type size align limit (Some a) true) (fun r w' =>
    (exists o, r = (STL_OK, Some o) /\ va_allocator o = a /\ fresh_vec (va_vec o) type limit /\
       delta w w' 1 0) \/
    (exists status, r = (status, None) /\ status <> STL_OK /\ delta w w' 0 0)) w.
Proof.
  intros Hok Hs Hsz Hal Hl. unfold vec_alloc_create.
  assert (is_null (al_allocate a) = false /\ is_null (al_deallocate a) = false) as [-> ->]
    by (destruct Hok as [[? ->] [? ->]]; done).
  cbn [negb orb].
  set (init := match type with Some _ => _ | None => _ end).
  assert (match init with
    | (STL_OK, r) => exists m', r = Some m' /\ fresh_vec (V := V) m' type limit
    | _ => True
    end) as Hinit.
  { unfold init. destruct type as [t|].
    - pose proof (vec_raw_init_spec (zero_vec (V := V) 0) (Some t) limit eq_refl Hs Hl) as H.
      destruct (vec_raw_init _ _ _) as [status r]. by destruct status.
    - destruct (vec_init_bytes _ _ _ _) as [status r] eqn:Hb. destruct status; try done.
      destruct r as [m|].
      + exists m. split; [done|]. by apply (vec_init_bytes_spec 0 size align).
      + unfold vec_init_bytes, vec_initialize in Hb. simpl in Hb. by destruct (sequence_stride _ _). }
  assert (Hfail : forall status w', status <> STL_OK -> delta w w' 0 0 ->
    (exists o, (status, None) = (STL_OK, Some o) /\ va_allocator o = a /\
       fresh_vec (V := V) (va_vec o) type limit /\ delta w w' 1 0) \/
    (exists status', (status, @None (vec_alloc (V := V))) = (status', None) /\ status' <> STL_OK /\ delta w w' 0 0))
    by (right; eauto).
  destruct init as [status r]. destruct status; try (apply wp_ret, Hfail; [done|apply delta_refl]).
  destruct Hinit as (m & -> & Hm).
  eapply wp_bind_mono; [apply allocator_allocate_spec, Hok|].
  intros [[address|]|status] w1 H1; apply wp_ret.
  - left. by eexists.
  - by apply Hfail.
  - destruct H1. by apply Hfail.
Qed.

Lemma vec_alloc_destroy_spec o l w :
  allocator_ok (Some (va_allocator o)) -> vec_inv (Some (va_allocator o)) (va_vec o) l ->
  wp (vec_alloc_destroy (Some o)) (fun _ w' =>
    delta w w' (- vec_blocks (va_vec o) - 1) (- vec_objects (va_vec o))) w.
Proof.
  intros Hok Hm. unfold vec_alloc_destroy.
  eapply wp_bind_mono; [by eapply vec_clear_spec|].
  intros r w1 (m' & -> & Hm' & Hblk & Hbl & _ & Hcfg & H1). eapply wp_bind, wp_reading; [done|].
  eapply wp_bind_mono; [eapply release_spec; [done|apply Hm']|]. intros ? w2 H2.
  eapply wp_mono; [apply allocator_deallocate_spec, Hok|]. intros ? w3 H3.
  rewrite (vec_objects_inv _ _ _ Hm') in H1. unfold vec_blocks in *. simpl in H1. solve_delta.
Qed.

(** (safety) A vector that owns an allocator, from [vec_alloc_create] on: the creation
    fails with no owner and nothing allocated, or makes an empty one.  Then any pushes and
    resizes return, those that answer OK do what they do to a list, the others leave it as
    it was, and [vec_alloc_at] reads it.  Destroying the owner has given back as many
    blocks as the allocator handed out, the owner itself among them, and every object is
    destroyed. *)
Theorem vec_alloc_contract type size align limit a calls w :
  is_Some (al_allocate a) -> is_Some (al_deallocate a) -> element_sizes type ->
  is_size size -> is_size align -> is_size limit -> Forall owner_call_ok calls ->
  exists r w1, vec_alloc_create type size align limit (Some a) true w = Some (r, w1) /\
    match r with
    | (STL_OK, Some o) => exists answers o' w2 w3,
        run_owner_calls calls (Some o) w1 = Some ((answers, Some o'), w2) /\
        length answers = length calls /\
        vec_size (Some (va_vec o')) = Z.of_nat (length (owner_steps [] calls answers)) /\
        (forall i, is_size i ->
           value_at (Some (va_vec o')) (vec_alloc_at (Some o') i) =
             Some (at_index i (owner_steps [] calls answers))) /\
        vec_alloc_destroy (Some o') w2 = Some (tt, w3) /\
        ow_blocks w3 = ow_blocks w /\ ow_objects w3 = ow_objects w
    | (status, o) => status <> STL_OK /\ o = None /\ delta w w1 0 0
    end.
Proof.
  intros Ha Hd Hs Hsz Hal Hl Hcalls. assert (allocator_ok (Some a)) as Hok by done.
  destruct (wp_run _ _ _ (vec_alloc_create_spec type size align limit a w Hok Hs Hsz Hal Hl))
    as (r & w1 & -> & [(o & -> & Ho & Hf & H1)|(status & -> & Hst & H1)]); do 2 eexists; (split; [done|]).
  2: { by destruct status. }
  destruct (fresh_owns _ _ _ Hf) as [Hb Hob]. destruct Hf as [Hm _ _ _]. subst a.
  destruct (wp_run _ _ _ (owner_calls_spec calls o [] w1 Hok (Hm _) Hcalls))
    as (r & w2 & Hrun & answers & m & -> & Hlen & Hm2 & Hcfg & H2).
  destruct (wp_run _ _ _ (vec_alloc_destroy_spec (set_va_vec m o) _ w2 Hok Hm2)) as ([] & w3 & Hdes & H3).
  exists answers, (set_va_vec m o), w2, w3. cbn [va_vec set_va_vec va_allocator] in *. split_and!; try done.
  - unfold vec_size. by rewrite (vec_inv_valid _ _ _ Hm2), (vec_inv_size _ _ _ Hm2).
  - intros i Hi. by eapply vec_at_spec.
  - destruct H1, H2, H3. lia.
  - destruct H1, H2, H3. lia.
Qed.


End Refinement.
