(* ===== verification/CstlHeap.v ===== *)
(** The binary heap of cstl (cstl/include/cstl/heap.h, cstl/src/heap.c).

    The first object is the least; a pointer to it is slot 0.  The scratch object that
    swaps go through is a cell of its own block. *)

From S2P Require Import Prelude.
From S2P Require Import CMetaType.
From S2P Require Import CstlSupport.
From S2P Require Import CstlSequence.

Definition SALTS_HEAP_MIN_CAPACITY : Z := 8.

Record heap_t (V : Type) := mk_heap {
  hp_descriptor : option addr;
  hp_sequence : sequence V;
  hp_compare : option addr;
  hp_compare_ctx : option addr;
  hp_generation : Z;
  hp_initialized : bool;
}.
Arguments mk_heap {V}.
Arguments hp_descriptor {V}.
Arguments hp_sequence {V}.
Arguments hp_compare {V}.
Arguments hp_compare_ctx {V}.
Arguments hp_generation {V}.
Arguments hp_initialized {V}.

(** [heap_t temporary = {0}]. *)
Definition zero_heap {V} (generation : Z) : heap_t V :=
  mk_heap None zero_sequence None None generation false.

Definition set_hp_sequence {V} (q : sequence V) (h : heap_t V) : heap_t V :=
  mk_heap (hp_descriptor h) q (hp_compare h) (hp_compare_ctx h) (hp_generation h)
    (hp_initialized h).

Definition set_hp_generation {V} (generation : Z) (h : heap_t V) : heap_t V :=
  mk_heap (hp_descriptor h) (hp_sequence h) (hp_compare h) (hp_compare_ctx h) generation
    (hp_initialized h).

Definition set_hp_descriptor {V} (descriptor : option addr) (h : heap_t V) : heap_t V :=
  mk_heap descriptor (hp_sequence h) (hp_compare h) (hp_compare_ctx h) (hp_generation h)
    (hp_initialized h).

(** [++heap->generation] with the new contents. *)
Definition heap_changed {V} (q : sequence V) (h : heap_t V) : heap_t V :=
  set_hp_generation (size_inc (hp_generation h)) (set_hp_sequence q h).

Section Heap.
Context {V U : Type} `{!ObjectTraits V U} `{!AllocatorCalls U}.
Context (heap_desc : addr).
#[local] Abbreviation heap := (heap_t V).
#[local] Abbreviation config h := (sq_config (hp_sequence h)).
#[local] Abbreviation size h := (sq_size (hp_sequence h)).

Definition heap_valid (h : option heap) : bool :=
  match h with
  | None => false
  | Some h =>
      hp_initialized h && negb (sc_size (config h) =? 0) &&
      (negb (is_null (sc_type (config h))) || negb (is_null (hp_compare h)))
  end.

Definition heap_is_typed_semantic_zero (h : option heap) : bool :=
  match h with
  | None => false
  | Some h =>
      negb (hp_initialized h) && sequence_is_zero (hp_sequence h) && is_null (hp_compare h) &&
      is_null (hp_compare_ctx h) && bool_decide (hp_descriptor h = Some heap_desc)
  end.

(** * Order *)

(** The answer of the comparison of two slots. *)
Definition heap_compare_values (h : heap) (q : sequence V) (left right : Z) : option Z :=
  a ← cells_of q !! Z.to_nat left ≫= cell_value;
  b ← cells_of q !! Z.to_nat right ≫= cell_value;
  match sc_type (config h) with
  | Some t => f ← trait tr_compare t; Some (call_compare f a b)
  | None => f ← hp_compare h; Some (raw_compare f a b (hp_compare_ctx h))
  end.

Definition heap_less (h : heap) (q : sequence V) (left right : Z) : option bool :=
  answer ← heap_compare_values h q left right; Some (answer <? 0).

(** One [sequence_move_destroy] out of a slot to the scratch object. *)
Definition move_out (q : sequence V) (from : Z) (scratch : cell V)
    : store U (stl_status * cell V * sequence V) :=
  let* source := reading (cells_of q !! Z.to_nat from) in
  let* (status, (scratch, source)) := sequence_move_destroy (sc_type (sq_config q)) scratch source in
  ret (status, scratch, set_sq_cells (<[Z.to_nat from := source]> (cells_of q)) q).

(** The statuses are ignored. [memcpy] of untyped objects is [sequence_move_destroy]
    without a type. *)
Definition heap_swap (q : sequence V) (left right : Z) (scratch : cell V)
    : store U (sequence V * cell V) :=
  if left =? right then ret (q, scratch)
  else
    let* ((_, scratch), q) := move_out q left scratch in
    let* (_, q) := move_within q left right in
    let* destination := reading (cells_of q !! Z.to_nat right) in
    let* (_, (destination, scratch)) :=
      sequence_move_destroy (sc_type (sq_config q)) destination scratch in
    ret (set_sq_cells (<[Z.to_nat right := destination]> (cells_of q)) q, scratch).

(** [while (index)]; the index at least halves in a round. *)
Fixpoint sift_up_loop (h : heap) (fuel : nat) (q : sequence V) (index : Z) (scratch : cell V)
    : store U (sequence V * cell V) :=
  if index =? 0 then ret (q, scratch)
  else
    match fuel with
    | O => reading None
    | S fuel =>
        let parent := u64 (index - 1) / 2 in
        let* less := reading (heap_less h q index parent) in
        if negb less then ret (q, scratch)
        else
          let* (q, scratch) := heap_swap q index parent scratch in
          sift_up_loop h fuel q parent scratch
    end.

Definition heap_sift_up (h : heap) (q : sequence V) (index : Z) (scratch : cell V)
    : store U (sequence V * cell V) :=
  sift_up_loop h 64 q index scratch.

(** [left < size && heap_less (left, best)], without the comparison when there is no
    such slot. *)
Definition better (h : heap) (q : sequence V) (candidate best : Z) : option Z :=
  if candidate <? sq_size q then
    less ← heap_less h q candidate best; Some (if less : bool then candidate else best)
  else Some best.

(** [for (;;)]; the index at least doubles in a round. *)
Fixpoint sift_down_loop (h : heap) (fuel : nat) (q : sequence V) (index : Z) (scratch : cell V)
    : store U (sequence V * cell V) :=
  if (SIZE_MAX - 1) / 2 <? index then ret (q, scratch)
  else
    let left := u64 (index * 2 + 1) in
    let right := size_inc left in
    let* best := reading (better h q left index) in
    let* best := reading (better h q right best) in
    if best =? index then ret (q, scratch)
    else
      match fuel with
      | O => reading None
      | S fuel =>
          let* (q, scratch) := heap_swap q index best scratch in
          sift_down_loop h fuel q best scratch
      end.

Definition heap_sift_down (h : heap) (q : sequence V) (index : Z) (scratch : cell V)
    : store U (sequence V * cell V) :=
  sift_down_loop h 64 q index scratch.

(** * Initialisation *)

Definition heap_initialize (h : option heap) (type : option cmeta_type_desc)
    (elem_size elem_align limit : Z) (compare context : option addr) : stl_status * option heap :=
  match h with
  | None => (STL_INVALID_ARGUMENT, h)
  | Some old =>
      if is_null type && is_null compare then (STL_INVALID_ARGUMENT, h)
      else if hp_initialized old then (STL_INVALID_ARGUMENT, h)
      else
        match sequence_stride elem_size elem_align with
        | StlFail status => (status, h)
        | StlOk stride =>
            (STL_OK, Some (mk_heap None
               (mk_sequence None 0 0 (mk_sequence_config elem_size stride elem_align limit type))
               compare context (size_inc (hp_generation old)) true))
        end
  end.

Definition heap_init_bytes (h : option heap) (elem_size elem_align element_limit : Z)
    (compare compare_ctx : option addr) : stl_status * option heap :=
  heap_initialize h None elem_size elem_align element_limit compare compare_ctx.

Definition heap_raw_init (h : option heap) (element_type : option cmeta_type_desc)
    (element_limit : Z) : stl_status * option heap :=
  match h with
  | None => (STL_INVALID_ARGUMENT, h)
  | Some old =>
      if hp_initialized old then (STL_INVALID_ARGUMENT, h)
      else
        match element_type, sequence_require_type element_type true with
        | Some t, STL_OK =>
            heap_initialize h element_type (td_size t) (td_align t) element_limit None None
        | None, STL_OK => (STL_INVALID_ARGUMENT, h)
        | _, status => (status, h)
        end
  end.

(** The handle after it, and whether it was initialised by it. *)
Definition heap_materialize_for_mutation (h : option heap) : stl_status * option heap * bool :=
  if heap_valid h then (STL_OK, h, false)
  else if negb (heap_is_typed_semantic_zero h) then (STL_INVALID_ARGUMENT, h, false)
  else
    match h with
    | None => (STL_INVALID_ARGUMENT, h, false)
    | Some zero =>
        match heap_raw_init h (sc_type (config zero)) SIZE_MAX with
        | (STL_OK, Some m) =>
            (STL_OK, Some (set_hp_generation (hp_generation zero)
                             (set_hp_descriptor (hp_descriptor zero) m)), true)
        | (status, _) => (status, h, false)
        end
    end.

(** * Destruction *)

Definition heap_clear (h : option heap) : store U (stl_status * option heap) :=
  match h with
  | None => ret (STL_INVALID_ARGUMENT, h)
  | Some m =>
      if negb (heap_valid h) then ret (STL_INVALID_ARGUMENT, h)
      else
        let* (status, q) := clear_objects (hp_sequence m) 0 (Z.to_nat (size m)) in
        if bool_decide (status = STL_OK) then
          if size m =? 0 then ret (STL_OK, Some (set_hp_sequence q m))
          else ret (STL_OK, Some (heap_changed (set_sq_size 0 q) m))
        else ret (status, Some (set_hp_sequence q m))
  end.

Definition heap_raw_destroy_storage (h : option heap) : store U (option heap) :=
  match h with
  | None => ret None
  | Some m =>
      if hp_initialized m then
        let* (_, cleared) := heap_clear h in
        let* m := reading cleared in
        let* _ := vec_memory_deallocate None (block_of (hp_sequence m)) in
        ret (Some (zero_heap (size_inc (hp_generation m))))
      else ret (Some (zero_heap (hp_generation m)))
  end.

Definition heap_rollback_materialization (m zero_snapshot : heap) (materialized : bool)
    : store U heap :=
  if negb materialized then ret m
  else let* _ := heap_raw_destroy_storage (Some m) in ret zero_snapshot.

(** A failure of [heap_push]. *)
Definition heap_fail (status : stl_status) (m zero_snapshot : heap) (materialized : bool)
    : store U (stl_status * option heap) :=
  let* m := heap_rollback_materialization m zero_snapshot materialized in ret (status, Some m).

(** * Operations *)

Definition heap_grow_to (h : heap) (minimum : Z) : store U (stl_status * bool * heap) :=
  if negb (heap_valid (Some h)) then ret (STL_INVALID_ARGUMENT, false, h)
  else
    let* (status, changed, q) :=
      grow_sequence SALTS_HEAP_MIN_CAPACITY None (hp_sequence h) minimum in
    ret (status, changed, set_hp_sequence q h).

Definition heap_reserve (h : option heap) (min_capacity : Z) : store U (stl_status * option heap) :=
  match h with
  | None => ret (STL_INVALID_ARGUMENT, h)
  | Some m =>
      let* (status, changed, m) := heap_grow_to m min_capacity in
      if bool_decide (status = STL_OK) && changed
      then ret (status, Some (heap_changed (hp_sequence m) m))
      else ret (status, Some m)
  end.

(** The end of [heap_push]: the prepared object moves into the slot behind the last
    one and up. *)
Definition heap_push_prepared (m zero_snapshot : heap) (materialized : bool)
    (prepared : memory_block * cell V) (scratch : memory_block) : store U (stl_status * option heap) :=
  let* (status, q) := move_in (hp_sequence m) (size m) (snd prepared) in
  let* _ := vec_memory_deallocate None (Some (fst prepared)) in
  if bool_decide (status = STL_OK) then
    let q := set_sq_size (size_inc (sq_size q)) q in
    let* (q, _) := heap_sift_up m q (size_dec (sq_size q)) Raw in
    let* _ := vec_memory_deallocate None (Some scratch) in
    ret (STL_OK, Some (heap_changed q m))
  else
    let* _ := vec_memory_deallocate None (Some scratch) in
    heap_fail status (set_hp_sequence q m) zero_snapshot materialized.

Definition heap_push (h : option heap) (elem : option V) : store U (stl_status * option heap) :=
  match h, elem with
  | Some zero, Some _ =>
      match heap_materialize_for_mutation h with
      | (STL_OK, Some m, materialized) =>
          if sc_limit (config m) <=? size m
          then heap_fail STL_CAPACITY_EXCEEDED m zero materialized
          else
            let* (status, prepared) := prepare_copy None (config m) elem in
            match prepared with
            | None => heap_fail status m zero materialized
            | Some new =>
                let* allocated :=
                  vec_memory_allocate None 1 (sc_stride (config m)) (sc_align (config m)) in
                match allocated with
                | StlFail status =>
                    let* _ := discard_prepared None (config m) prepared in
                    heap_fail status m zero materialized
                | StlOk data =>
                    let* scratch := reading data in
                    let* (status, _, m) := heap_grow_to m (u64 (size m + 1)) in
                    if bool_decide (status = STL_OK)
                    then heap_push_prepared m zero materialized new scratch
                    else
                      let* _ := vec_memory_deallocate None data in
                      let* _ := discard_prepared None (config m) prepared in
                      heap_fail status m zero materialized
                end
            end
      | (status, h, _) => ret (status, h)
      end
  | _, _ => ret (STL_INVALID_ARGUMENT, h)
  end.

(** What [heap_pop] does once it has its scratch object, if it needs one. *)
Definition heap_pop_with (m : heap) (want : bool) (scratch : option memory_block)
    : store U (stl_status * option heap * cell V) :=
  let* (status, out, q) := take_out (hp_sequence m) 0 want in
  if bool_decide (status = STL_OK) then
    let last := size_dec (size m) in
    let* q :=
      if last =? 0 then ret q else let* (_, q) := move_within q 0 last in ret q in
    let q := set_sq_size last q in
    let* q :=
      if last =? 0 then ret q else let* (q, _) := heap_sift_down m q 0 Raw in ret q in
    let* _ := vec_memory_deallocate None scratch in
    ret (STL_OK, Some (heap_changed q m), out)
  else
    let* _ := vec_memory_deallocate None scratch in
    ret (status, Some (set_hp_sequence q m), out).

Definition heap_pop (h : option heap) (want : bool) : store U (stl_status * option heap * cell V) :=
  match h with
  | None => ret (STL_INVALID_ARGUMENT, h, Raw)
  | Some m =>
      if negb (heap_valid h) then ret (STL_INVALID_ARGUMENT, h, Raw)
      else if size m =? 0 then ret (STL_EMPTY, h, Raw)
      else if 1 <? size m then
        let* allocated := vec_memory_allocate None 1 (sc_stride (config m)) (sc_align (config m)) in
        match allocated with
        | StlFail status => ret (status, h, Raw)
        | StlOk data => heap_pop_with m want data
        end
      else heap_pop_with m want None
  end.

(** * Construction from an array *)

Fixpoint push_elements (temporary : option heap) (elements : list V) (index fuel : nat)
    : store U (stl_status * option heap) :=
  match fuel with
  | O => ret (STL_OK, temporary)
  | S fuel =>
      let* elem := reading (elements !! index) in
      let* (status, temporary) := heap_push temporary (Some elem) in
      if bool_decide (status = STL_OK) then push_elements temporary elements (S index) fuel
      else
        let* temporary := heap_raw_destroy_storage temporary in ret (status, temporary)
  end.

(** What the two functions share: [init] is what the initialisation of [temporary]
    answered. *)
Definition heap_from_rows (h : option heap) (elements : option (list V)) (count : nat) (limit : Z)
    (init : stl_status * option heap) : store U (stl_status * option heap) :=
  match h with
  | None => ret (STL_INVALID_ARGUMENT, h)
  | Some m =>
      if hp_initialized m then ret (STL_INVALID_ARGUMENT, h)
      else if (negb (count =? 0)%nat && is_null elements) || (limit <? Z.of_nat count)
      then ret (if limit <? Z.of_nat count then STL_CAPACITY_EXCEEDED else STL_INVALID_ARGUMENT, h)
      else
        match init with
        | (STL_OK, temporary) =>
            let* (status, temporary) := push_elements temporary (default [] elements) 0 count in
            if bool_decide (status = STL_OK)
            then ret (STL_OK, set_hp_generation (size_inc (hp_generation m)) <$> temporary)
            else ret (status, h)
        | (status, _) => ret (status, h)
        end
  end.

Definition heap_from_array_bytes (h : option heap) (elements : option (list V)) (count : nat)
    (elem_size elem_align limit : Z) (compare context : option addr)
    : store U (stl_status * option heap) :=
  heap_from_rows h elements count limit
    (heap_init_bytes (Some (zero_heap 0)) elem_size elem_align limit compare context).

Definition heap_raw_from_array (h : option heap) (elements : option (list V)) (count : nat)
    (type : option cmeta_type_desc) (limit : Z) : store U (stl_status * option heap) :=
  heap_from_rows h elements count limit (heap_raw_init (Some (zero_heap 0)) type limit).

(** * Typed handles *)

(** The descriptor and the type of a handle, put back by the wrappers of heap.h. *)
Definition heap_rebind (old h : heap) : heap :=
  let q := hp_sequence h in
  let c := sq_config q in
  set_hp_descriptor (hp_descriptor old)
    (set_hp_sequence (mk_sequence (sq_data q) (sq_size q) (sq_capacity q)
       (mk_sequence_config (sc_size c) (sc_stride c) (sc_align c) (sc_limit c)
          (sc_type (config old)))) h).

Definition heap_init (h : option heap) (element_limit : Z) : stl_status * option heap :=
  match h with
  | None => (STL_INVALID_ARGUMENT, h)
  | Some old =>
      if is_null (sc_type (config old)) then (STL_INVALID_ARGUMENT, h)
      else
        let (status, h) := heap_raw_init h (sc_type (config old)) element_limit in
        (status, heap_rebind old <$> h)
  end.

Definition heap_from_array (h : option heap) (elements : option (list V)) (count : nat)
    (element_limit : Z) : store U (stl_status * option heap) :=
  match h with
  | None => ret (STL_INVALID_ARGUMENT, h)
  | Some old =>
      if is_null (sc_type (config old)) then ret (STL_INVALID_ARGUMENT, h)
      else
        let* (status, h) :=
          heap_raw_from_array h elements count (sc_type (config old)) element_limit in
        ret (status, heap_rebind old <$> h)
  end.

Definition heap_destroy (h : option heap) : store U (option heap) :=
  match h with
  | None => ret None
  | Some old => let* h := heap_raw_destroy_storage h in ret (heap_rebind old <$> h)
  end.

(** * Access *)

Definition heap_peek (h : option heap) : option nat :=
  match h with
  | Some m => if heap_valid h && negb (size m =? 0) then Some O else None
  | None => None
  end.

Definition heap_at_const (h : option heap) (index : Z) : option nat :=
  match h with
  | Some m => if size m <=? index then None else Some (Z.to_nat index)
  | None => None
  end.

Definition heap_size (h : option heap) : Z :=
  match h with Some m => if heap_valid h then size m else 0 | None => 0 end.

Definition heap_capacity (h : option heap) : Z :=
  match h with Some m => if heap_valid h then sq_capacity (hp_sequence m) else 0 | None => 0 end.

Definition heap_generation (h : option heap) : Z :=
  match h with Some m => hp_generation m | None => 0 end.

Definition heap_empty (h : option heap) : bool := heap_size h =? 0.

End Heap.
