(* ===== verification/CstlMerge.v ===== *)
(** Stable sorting of lists: what it is, that there is one result, and that merging
    runs of growing width reaches it. *)

From S2P Require Import Prelude.

Section Merge.
Context {A : Type} (le : A -> A -> bool).
Implicit Types l : list A.

(** The order the code sorts by: a comparison that answers at most zero. *)
Class TotalPreorder := {
  le_total : forall a b, le a b = true \/ le b a = true;
  le_trans : forall a b c, le a b = true -> le b c = true -> le a c = true;
}.

(** Objects the order does not tell apart. *)
Definition same (a b : A) : bool := le a b && le b a.

Fixpoint ascending l : Prop :=
  match l with
  | [] => True
  | a :: l => (forall b, b ∈ l -> le a b = true) /\ ascending l
  end.

Definition only (p : A -> bool) l : list A := List.filter p l.

(** [l'] is [l] sorted, and objects that compare equal keep their order. *)
Record stable_sorted l l' : Prop := {
  ss_ascending : ascending l';
  ss_perm : l' ≡ₚ l;
  ss_stable : forall a, only (same a) l' = only (same a) l;
}.

(** ** The reference *)

Fixpoint insert_last (a : A) l : list A :=
  match l with
  | [] => [a]
  | b :: l' => if le b a then b :: insert_last a l' else a :: l
  end.

(** Insertion sort: each object goes behind those that are not after it. *)
Definition insertion_sort l : list A := fold_left (fun sorted a => insert_last a sorted) l [].

(** ** Merging *)

Fixpoint merge l1 : list A -> list A :=
  fix merge_right l2 :=
    match l1, l2 with
    | [], _ => l2
    | _, [] => l1
    | a :: l1', b :: l2' => if le a b then a :: merge l1' l2 else b :: merge_right l2'
    end.

(** One pass over runs of [width] objects. *)
Fixpoint merge_runs (fuel width : nat) l : list A :=
  match fuel, l with
  | S fuel, _ :: _ =>
      merge (take width l) (take width (drop width l)) ++
      merge_runs fuel width (drop width (drop width l))
  | _, _ => l
  end.

(** [l] consists of ascending runs of [width] objects, the last one maybe shorter. *)
Inductive runs (width : nat) : list A -> Prop :=
  | runs_last l : ascending l -> (length l <= width)%nat -> runs width l
  | runs_cons l1 l2 :
      ascending l1 -> length l1 = width -> runs width l2 -> runs width (l1 ++ l2).

Context `{Hle : TotalPreorder}.

Lemma le_refl a : le a a = true.
Proof. by destruct (le_total a a). Qed.

Lemma same_true a b : same a b = true <-> le a b = true /\ le b a = true.
Proof. apply andb_true_iff. Qed.

Lemma only_app p l1 l2 : only p (l1 ++ l2) = only p l1 ++ only p l2.
Proof. apply List.filter_app. Qed.

Lemma only_cons p a l : only p (a :: l) = if p a then a :: only p l else only p l.
Proof. done. Qed.

Lemma only_none p l : (forall b, b ∈ l -> p b = false) -> only p l = [].
Proof.
  induction l as [|b l IH]; intros Hn; simpl; [done|].
  rewrite (Hn b) by apply list_elem_of_here. apply IH. intros c Hc. apply Hn. by right.
Qed.

(** *** One result *)

Lemma stable_sorted_unique l1 l2 :
  ascending l1 -> ascending l2 -> (forall a, only (same a) l1 = only (same a) l2) -> l1 = l2.
Proof.
  assert (Hhead : forall a (l : list A), only (same a) (a :: l) = a :: only (same a) l)
    by (intros a l; simpl; unfold same; by rewrite le_refl).
  revert l2. induction l1 as [|a l1 IH]; intros [|b l2] H1 H2 Heq; [done|..].
  - specialize (Heq b). by rewrite Hhead in Heq.
  - specialize (Heq a). by rewrite Hhead in Heq.
  - destruct H1 as [Ha H1], H2 as [Hb H2].
    assert (a ∈ b :: l2 /\ b ∈ a :: l1) as [Hin1 Hin2].
    { split.
      - assert (a ∈ only (same a) (b :: l2)) as Hin by (rewrite <- Heq, Hhead; apply list_elem_of_here).
        apply list_elem_of_In, filter_In in Hin as [Hin _]. by apply list_elem_of_In.
      - assert (b ∈ only (same b) (a :: l1)) as Hin by (rewrite Heq, Hhead; apply list_elem_of_here).
        apply list_elem_of_In, filter_In in Hin as [Hin _]. by apply list_elem_of_In. }
    assert (same a b = true) as Hab.
    { apply same_true. apply elem_of_cons in Hin1 as [->|Hin1]; [by rewrite le_refl|].
      apply elem_of_cons in Hin2 as [->|Hin2]; [by rewrite le_refl|]. auto. }
    pose proof (Heq a) as He. rewrite Hhead in He. simpl in He. rewrite Hab in He.
    injection He as <- He. f_equal. apply IH; [done..|]. intros c. specialize (Heq c).
    simpl in Heq. destruct (same c a); congruence.
Qed.

Lemma elem_of_insert_last a b l : b ∈ insert_last a l <-> b = a \/ b ∈ l.
Proof.
  induction l as [|c l IH]; simpl; [set_solver|].
  destruct (le c a); rewrite ?elem_of_cons, ?IH; tauto.
Qed.

Lemma insert_last_ascending a l : ascending l -> ascending (insert_last a l).
Proof.
  induction l as [|b l IH]; intros Hl; simpl in *; [set_solver|]. destruct Hl as [Hb Hl].
  destruct (le b a) eqn:Hba; simpl; split; auto.
  - intros c [->|Hc]%elem_of_insert_last; auto.
  - destruct (le_total a b) as [Hab|]; [|congruence].
    intros c [->|Hc]%elem_of_cons; [done|]. eapply le_trans; eauto.
Qed.

Lemma insert_last_perm a l : insert_last a l ≡ₚ a :: l.
Proof.
  induction l as [|b l IH]; simpl; [done|]. destruct (le b a); [|done]. rewrite IH. apply Permutation_swap.
Qed.

Lemma insert_last_stable a l c :
  ascending l -> only (same c) (insert_last a l) = only (same c) l ++ only (same c) [a].
Proof.
  induction l as [|b l IH]; intros Hl; simpl in *; [done|]. destruct Hl as [Hb Hl].
  destruct (le b a) eqn:Hba; simpl.
  - rewrite IH by done. by destruct (same c b).
  - destruct (same c a) eqn:Hca; simpl; [|by rewrite app_nil_r].
    assert (forall d, d ∈ b :: l -> same c d = false) as Hnone.
    { intros d Hd. apply not_true_iff_false. intros Hcd.
      apply same_true in Hca as [Hca Hac], Hcd as [Hcd Hdc].
      assert (le d a = true) by (by apply le_trans with c).
      assert (le b d = true) by (apply elem_of_cons in Hd as [->|Hd]; [apply le_refl|auto]).
      assert (le b a = true) by (by apply le_trans with d). congruence. }
    pose proof (only_none (same c) (b :: l) Hnone) as Hn. simpl in Hn. by rewrite Hn.
Qed.

Lemma insertion_sort_spec l : stable_sorted l (insertion_sort l).
Proof.
  unfold insertion_sort.
  assert (forall sorted done_, stable_sorted done_ sorted ->
    stable_sorted (done_ ++ l) (fold_left (fun sorted a => insert_last a sorted) l sorted)) as H.
  { induction l as [|a l IH]; intros sorted done_ [Ha Hp Hs]; simpl; [by rewrite app_nil_r|].
    rewrite cons_middle, app_assoc. apply IH. split.
    - by apply insert_last_ascending.
    - by rewrite insert_last_perm, Hp, (Permutation_app_comm done_).
    - intros c. rewrite insert_last_stable, only_app by done. by rewrite Hs. }
  by apply (H [] []).
Qed.

(** *** Merging *)

Lemma merge_nil_r l : merge l [] = l.
Proof. by destruct l. Qed.

Lemma merge_cons a l1 b l2 :
  merge (a :: l1) (b :: l2) =
    if le a b then a :: merge l1 (b :: l2) else b :: merge (a :: l1) l2.
Proof. done. Qed.

Lemma merge_perm l1 l2 : merge l1 l2 ≡ₚ l1 ++ l2.
Proof.
  revert l2. induction l1 as [|a l1 IH]; intros l2; [by destruct l2|].
  induction l2 as [|b l2 IH2]; [by rewrite merge_nil_r, app_nil_r|].
  rewrite merge_cons. destruct (le a b); simpl; [by rewrite IH|].
  rewrite IH2. simpl. rewrite Permutation_swap. by rewrite (Permutation_middle l1).
Qed.

Lemma merge_ascending l1 l2 : ascending l1 -> ascending l2 -> ascending (merge l1 l2).
Proof.
  revert l2. induction l1 as [|a l1 IH]; intros l2 H1 H2; [by destruct l2|].
  induction l2 as [|b l2 IH2]; [by rewrite merge_nil_r|].
  rewrite merge_cons. destruct H1 as [Ha H1], H2 as [Hb H2].
  destruct (le a b) eqn:Hab; cbn [ascending]; split.
  - intros c Hc. rewrite merge_perm in Hc. apply elem_of_app in Hc as [Hc|Hc]; [auto|].
    apply elem_of_cons in Hc as [->|Hc]; [done|]. apply le_trans with b; auto.
  - apply IH; [done|by split].
  - destruct (le_total a b) as [|Hba]; [congruence|].
    intros c Hc. rewrite merge_perm in Hc. apply elem_of_app in Hc as [Hc|Hc]; [|auto].
    apply elem_of_cons in Hc as [->|Hc]; [done|]. apply le_trans with a; auto.
  - by apply IH2.
Qed.

Lemma merge_stable l1 l2 c :
  ascending l1 -> ascending l2 ->
  only (same c) (merge l1 l2) = only (same c) l1 ++ only (same c) l2.
Proof.
  revert l2. induction l1 as [|a l1 IH]; intros l2 H1 H2; [by destruct l2|].
  induction l2 as [|b l2 IH2]; [by rewrite merge_nil_r, app_nil_r|].
  rewrite merge_cons. destruct (le a b) eqn:Hab.
  - rewrite !only_cons, IH by (done || apply H1). rewrite only_cons. by destruct (same c a).
  - rewrite (only_cons _ b), IH2, (only_cons _ b) by (done || apply H2). destruct (same c b) eqn:Hcb; [|done].
    rewrite (only_none (same c) (a :: l1)); [done|].
    intros d Hd. apply not_true_iff_false. intros Hcd.
    apply same_true in Hcb as [Hcb Hbc], Hcd as [Hcd Hdc].
    assert (le a d = true) by (destruct H1; apply elem_of_cons in Hd as [->|Hd]; [apply le_refl|auto]).
    assert (le d b = true) by (by apply le_trans with c).
    assert (le a b = true) by (by apply le_trans with d). congruence.
Qed.

Lemma merge_runs_len width fuel l : length (merge_runs fuel width l) = length l.
Proof.
  revert l. induction fuel as [|fuel IH]; intros [|x l0]; [done..|]. cbn [merge_runs].
  set (l := x :: l0). rewrite length_app, IH, merge_perm, <- length_app, <- app_assoc.
  by rewrite !take_drop.
Qed.

Lemma merge_length l1 l2 : length (merge l1 l2) = (length l1 + length l2)%nat.
Proof. by rewrite merge_perm, length_app. Qed.

(** *** Passes *)

Lemma runs_ascending width l : runs width l -> (length l <= width)%nat -> ascending l.
Proof.
  destruct 1 as [|l1 l2 H1 Hl _]; [done|]. rewrite length_app. intros Hlen.
  destruct l2; [by rewrite app_nil_r|]. simpl in Hlen. lia.
Qed.

Lemma runs_split width l :
  runs width l -> ascending (take width l) /\ runs width (drop width l).
Proof.
  destruct 1 as [l Ha Hl|l1 l2 Ha <- Hr].
  - rewrite take_ge, drop_ge by done. split; [done|]. apply runs_last; simpl; [done|lia].
  - by rewrite take_app_length, drop_app_length.
Qed.

Lemma runs_one l : runs 1 l.
Proof.
  induction l as [|a l IH]; [by apply runs_last; simpl; [|lia]|].
  change (a :: l) with ([a] ++ l). apply runs_cons; [|done|done]. simpl. set_solver.
Qed.

(** A pass doubles the width of the runs and is stable. *)
Lemma merge_runs_spec width fuel l :
  (0 < width)%nat -> (length l <= fuel)%nat -> runs width l ->
  runs (2 * width) (merge_runs fuel width l) /\ merge_runs fuel width l ≡ₚ l /\
  (forall a, only (same a) (merge_runs fuel width l) = only (same a) l).
Proof.
  intros Hw. revert l. induction fuel as [|fuel IH]; intros l Hl Hr; simpl.
  { destruct l; [|simpl in Hl; lia]. split_and!; [by apply runs_last; simpl; [|lia]|done|done]. }
  destruct l as [|x l0]; [split_and!; [by apply runs_last; simpl; [|lia]|done|done]|].
  set (l := x :: l0) in *.
  destruct (runs_split _ _ Hr) as [Ha1 Hr1]. destruct (runs_split _ _ Hr1) as [Ha2 Hr2].
  destruct (IH (drop width (drop width l))) as (IHr & IHp & IHs); [|done|].
  { rewrite !length_drop. simpl. simpl in Hl. lia. }
  assert (l = take width l ++ take width (drop width l) ++ drop width (drop width l)) as Hsplit
    by (by rewrite !take_drop).
  split_and!.
  - destruct (decide (length l <= 2 * width)%nat) as [Hlen|Hgt].
    + rewrite (drop_ge (drop width l)) by (rewrite length_drop; lia).
      assert (merge_runs fuel width [] = []) as -> by (by destruct fuel). rewrite app_nil_r.
      apply runs_last; [by apply merge_ascending|].
      rewrite merge_length, !length_take, length_drop. lia.
    + apply runs_cons; [by apply merge_ascending| |by apply IHr].
      rewrite merge_length, !length_take, length_drop. lia.
  - rewrite merge_perm, IHp, <- app_assoc. by rewrite <- Hsplit.
  - intros a. rewrite only_app, merge_stable, IHs by done. rewrite <- app_assoc, <- !only_app.
    by rewrite <- Hsplit.
Qed.


End Merge.

Arguments TotalPreorder {A} le.
