(* ===== verification/CstlHeapOps.v ===== *)
(** Heap order on lists: the object at [i] is not before the one at [(i - 1) / 2], and
    how exchanges along an edge repair the order.

    What each operation of a heap does to the list of its objects, to their order and
    to what is alive. *)

From S2P Require Import Prelude.
From S2P Require Import CMetaType.
From S2P Require Import CstlSupport.
From S2P Require Import CstlObjects.
From S2P Require Import CstlSequence.
From S2P Require Import CstlSequenceSpecs.
From S2P Require Import CstlHeap.
From S2P Require Import CstlMerge.

Section Order.
Context {A : Type} (le : A -> A -> bool) {Hle : TotalPreorder le}.
Implicit Types l : list A.

Definition parent (i : nat) : nat := (i - 1) / 2.

Lemma parent_spec i : (0 < i)%nat -> (i = 2 * parent i + 1 \/ i = 2 * parent i + 2)%nat.
Proof.
  intros Hi. unfold parent. pose proof (Nat.div_mod_eq (i - 1) 2).
  pose proof (Nat.mod_upper_bound (i - 1) 2). lia.
Qed.

Lemma parent_lt i : (0 < i)%nat -> (parent i < i)%nat.
Proof. intros Hi. pose proof (parent_spec i Hi). lia. Qed.

Definition edge_ok l (p c : nat) : Prop :=
  forall a b, l !! p = Some a -> l !! c = Some b -> le a b = true.

Definition heap_ordered l : Prop := forall j, (0 < j)%nat -> edge_ok l (parent j) j.

(** Only the object at [i] may be before its parent. *)
Record rising l (i : nat) : Prop := {
  ri_edges : forall j, (0 < j)%nat -> j <> i -> edge_ok l (parent j) j;
  ri_over : forall j, (0 < j)%nat -> parent j = i -> (0 < i)%nat -> edge_ok l (parent i) j;
}.

(** Only the object at [i] may be behind its children. *)
Record sinking l (i : nat) : Prop := {
  si_edges : forall j, (0 < j)%nat -> parent j <> i -> edge_ok l (parent j) j;
  si_over : forall j, (0 < j)%nat -> parent j = i -> (0 < i)%nat -> edge_ok l (parent i) j;
}.

Definition swapped (i : nat) (a : A) (j : nat) (b : A) l : list A := <[i := b]> (<[j := a]> l).

Lemma lookup_swapped l i a j b k :
  l !! i = Some a -> l !! j = Some b ->
  swapped i a j b l !! k = if decide (k = i) then Some b else if decide (k = j) then Some a else l !! k.
Proof.
  intros Hi%lookup_lt_Some Hj%lookup_lt_Some. unfold swapped.
  destruct (decide (k = i)) as [->|Hki]; [apply list_lookup_insert_eq; by rewrite length_insert|].
  rewrite list_lookup_insert_ne by done.
  destruct (decide (k = j)) as [->|Hkj]; [by apply list_lookup_insert_eq|].
  by rewrite list_lookup_insert_ne.
Qed.

Lemma swapped_perm l i a j b : l !! i = Some a -> l !! j = Some b -> swapped i a j b l ≡ₚ l.
Proof. intros Hi Hj. by apply Permutation_insert_swap. Qed.

Lemma rising_done l i : rising l i -> (0 < i -> edge_ok l (parent i) i)%nat -> heap_ordered l.
Proof.
  intros [He _] Hi j Hj. destruct (decide (j = i)) as [->|]; [by apply Hi|by apply He].
Qed.

Lemma sinking_done l i :
  sinking l i -> (forall j, (0 < j)%nat -> parent j = i -> edge_ok l i j) -> heap_ordered l.
Proof.
  intros [He _] Hi j Hj. destruct (decide (parent j = i)) as [E|]; [|by apply He].
  rewrite E. by apply Hi.
Qed.

Lemma rising_swap l i c p :
  rising l i -> (0 < i)%nat -> l !! i = Some c -> l !! parent i = Some p -> le c p = true ->
  rising (swapped i c (parent i) p l) (parent i).
Proof.
  intros [He Ho] Hi0 Hi Hp Hcp. pose proof (parent_lt i Hi0) as Hlt.
  split.
  - intros j Hj Hne a b. pose proof (parent_lt j Hj) as Hltj.
    rewrite !(lookup_swapped _ _ _ _ _ _ Hi Hp).
    destruct (decide (parent j = i)) as [E|E].
    + rewrite decide_False by lia. rewrite decide_False by lia. intros [= <-] Hb.
      by apply (Ho j Hj E Hi0).
    + destruct (decide (j = i)) as [->|Hji].
      { rewrite decide_True by done. by intros [= <-] [= <-]. }
      rewrite (decide_False (P := j = parent i)) by done.
      destruct (decide (parent j = parent i)) as [E'|E']; [|by apply He].
      intros [= <-] Hb. apply (le_trans le _ p); [done|]. apply (He j Hj Hji); [by rewrite E'|done].
  - intros j Hj Hpj H0 g b. pose proof (parent_lt _ H0). pose proof (parent_lt j Hj).
    rewrite !(lookup_swapped _ _ _ _ _ _ Hi Hp).
    rewrite decide_False by lia. rewrite decide_False by lia. intros Hg.
    assert (le g p = true) as Hgp by (apply (He (parent i) H0); [lia|done|done]).
    destruct (decide (j = i)) as [->|Hji]; [by intros [= <-]|].
    rewrite decide_False by lia. intros Hb. apply (le_trans le _ p); [done|].
    apply (He j Hj Hji); [by rewrite Hpj|done].
Qed.

Lemma sinking_swap l i k x y :
  sinking l i -> (0 < k)%nat -> parent k = i -> l !! i = Some x -> l !! k = Some y -> le y x = true ->
  (forall j z, (0 < j)%nat -> parent j = i -> l !! j = Some z -> le y z = true) ->
  sinking (swapped i x k y l) k.
Proof.
  intros [He Ho] Hk Hpk Hi Hy Hyx Hsib. pose proof (parent_lt k Hk) as Hlt.
  split.
  - intros j Hj Hne a b. pose proof (parent_lt j Hj) as Hltj.
    rewrite !(lookup_swapped _ _ _ _ _ _ Hi Hy).
    destruct (decide (parent j = i)) as [E|E].
    + rewrite decide_False by lia. intros [= <-]. destruct (decide (j = k)) as [->|Hjk]; [by intros [= <-]|].
      intros Hb. by apply (Hsib j).
    + rewrite (decide_False (P := parent j = k)) by done.
      destruct (decide (j = i)) as [->|Hji].
      { intros Ha [= <-]. by apply (Ho k Hk Hpk Hj). }
      rewrite (decide_False (P := j = k)) by congruence. by apply He.
  - intros j Hj Hpj _ a b. pose proof (parent_lt j Hj).
    rewrite !(lookup_swapped _ _ _ _ _ _ Hi Hy).
    rewrite decide_True by done. rewrite decide_False by lia. rewrite decide_False by lia.
    intros [= <-] Hb. apply (He j Hj); [lia|by rewrite Hpj|done].
Qed.

(** ** Heaps *)

Lemma heap_ordered_nil : heap_ordered [].
Proof. by intros j _ a b. Qed.

Lemma heap_ordered_snoc l v : heap_ordered l -> rising (l ++ [v]) (length l).
Proof.
  intros Hl. split.
  - intros j Hj Hne a b Ha Hb. pose proof (parent_lt j Hj). pose proof (lookup_lt_Some _ _ _ Hb) as Hlt.
    rewrite length_app in Hlt. simpl in Hlt. rewrite lookup_app_l in Ha by lia.
    rewrite lookup_app_l in Hb by lia. by apply (Hl j).
  - intros j Hj Hp _ a b Ha Hb. pose proof (parent_lt j Hj). apply lookup_lt_Some in Hb.
    rewrite length_app in Hb. simpl in Hb. lia.
Qed.

(** The last object takes the place of the removed first one. *)
Lemma heap_ordered_pop v l x : heap_ordered (v :: l ++ [x]) -> sinking (x :: l) 0.
Proof.
  intros Hl. split; [|lia]. intros j Hj Hne a b Ha Hb.
  destruct j as [|j]; [lia|]. simpl in Hb. pose proof (lookup_lt_Some _ _ _ Hb) as Hlt.
  destruct (parent (S j)) as [|p] eqn:Hp; [done|]. simpl in Ha.
  apply (Hl (S j) ltac:(lia)).
  - rewrite Hp. simpl. rewrite lookup_app_l; [done|by eapply lookup_lt_Some].
  - simpl. by rewrite lookup_app_l.
Qed.

(** The first object is a least one. *)
Lemma heap_least v l : heap_ordered (v :: l) -> forall x, x ∈ v :: l -> le v x = true.
Proof.
  intros Hl x [i Hi]%list_elem_of_lookup_1. revert x Hi.
  induction (lt_wf i) as [i _ IH]. intros x Hi. destruct i as [|i].
  - injection Hi as ->. by destruct (le_total le x x).
  - pose proof (parent_lt (S i) ltac:(lia)) as Hp. pose proof (lookup_lt_Some _ _ _ Hi) as Hlt.
    destruct (lookup_lt_is_Some_2 (v :: l) (parent (S i)) ltac:(lia)) as [p Hpp].
    apply (le_trans le _ p); [by apply (IH _ Hp)|]. by apply (Hl (S i) ltac:(lia)).
Qed.

End Order.

Definition heap_required : Z := Z.lor element_traits CMETA_TRAIT_COMPARE.

Section HeapOps.
Context {V U : Type} `{HV : ObjectTraits V U} `{!TraitLaws V U} `{!AllocatorCalls U}.
Context (heap_desc : addr).
Implicit Types w : object_world U.
Implicit Types m : heap_t V.
Implicit Types q : sequence V.
Implicit Types l : list V.
Implicit Types want : bool.

Definition heap_config m : sequence_config := sq_config (hp_sequence m).
Definition heap_blocks m : Z := sequence_blocks (hp_sequence m).
Definition heap_objects m : Z := sequence_objects (hp_sequence m).

(** * Order *)

(** There is a comparison to call. *)
Definition heap_comparable m : Prop :=
  match sc_type (heap_config m) with
  | Some t => cmeta_type_require_traits (Some t) heap_required = CMETA_OK
  | None => is_Some (hp_compare m)
  end.

(** What the comparison of the heap answers. *)
Definition heap_answer m (a b : V) : Z :=
  match sc_type (heap_config m) with
  | Some t => match trait tr_compare t with Some f => call_compare f a b | None => 0 end
  | None => match hp_compare m with Some f => raw_compare f a b (hp_compare_ctx m) | None => 0 end
  end.

Definition heap_before m (a b : V) : bool := heap_answer m a b <? 0.

(** [b] is not before [a]. *)
Definition heap_le m (a b : V) : bool := negb (heap_before m b a).

(** The comparison of the heap orders its objects: of two one is not behind the other,
    and what is not behind is so along chains. *)
#[local] Abbreviation HeapLaws m := (TotalPreorder (heap_le m)).

Lemma heap_before_le m a b : HeapLaws m -> heap_before m a b = true -> heap_le m a b = true.
Proof.
  intros Hle Hb. destruct (le_total (heap_le m) a b) as [H|H]; [done|].
  unfold heap_le in H. by rewrite Hb in H.
Qed.

Lemma heap_less_spec m q (i j : nat) a b :
  heap_comparable m -> cells_of q !! i = Some (Live a) -> cells_of q !! j = Some (Live b) ->
  heap_less m q (Z.of_nat i) (Z.of_nat j) = Some (heap_before m a b).
Proof.
  intros Hc Hi Hj. unfold heap_less, heap_compare_values, heap_before, heap_answer, heap_comparable, heap_config in *.
  rewrite !Nat2Z.id, Hi, Hj. cbn [mbind option_bind cell_value].
  destruct (sc_type _) as [t|].
  - destruct (trait_present t heap_required CMETA_TRAIT_COMPARE tr_compare Hc) as [f ->]; [done| |done].
    unfold callback_flag. tauto.
  - by destruct Hc as [f ->].
Qed.

(** * Exchanges *)

Lemma move_out_spec q (i : nat) v (scratch : cell V) w :
  sequence_config_ok (sq_config q) -> cells_of q !! i = Some (Live v) ->
  vacant (sc_type (sq_config q)) scratch ->
  wp (move_out q (Z.of_nat i) scratch) (fun r w' =>
    r = (STL_OK, Live v, set_sq_cells (<[i := ended (sc_type (sq_config q)) (Live v)]> (cells_of q)) q) /\
    delta w w' 0 0) w.
Proof.
  intros Hc Hi Hv. unfold move_out. rewrite Nat2Z.id. eapply wp_bind, wp_reading; [exact Hi|].
  eapply wp_bind_mono; [apply sequence_move_destroy_spec; [by apply element_supports|done]|].
  intros ? w' [-> Hd]. by apply wp_ret.
Qed.

Lemma heap_swap_spec q l rest (i j : nat) a b scratch w :
  sequence_config_ok (sq_config q) -> cells_of q = (Live <$> l) ++ rest ->
  l !! i = Some a -> l !! j = Some b -> i <> j -> vacant (sc_type (sq_config q)) scratch ->
  wp (heap_swap q (Z.of_nat i) (Z.of_nat j) scratch) (fun r w' => exists scratch',
    r = (set_sq_cells ((Live <$> swapped i a j b l) ++ rest) q, scratch') /\
    vacant (sc_type (sq_config q)) scratch' /\ delta w w' 0 0) w.
Proof.
  intros Hc Hcells Hi Hj Hne Hv. unfold heap_swap. rewrite (proj2 (Z.eqb_neq _ _)) by lia.
  pose proof (lookup_lt_Some _ _ _ Hi) as Hli. pose proof (lookup_lt_Some _ _ _ Hj) as Hlj.
  assert (cells_of q !! i = Some (Live a)) as Hci by (rewrite Hcells; by apply live_cell).
  assert (cells_of q !! j = Some (Live b)) as Hcj by (rewrite Hcells; by apply live_cell).
  pose proof (cells_data _ _ _ Hci) as Hd.
  assert (length l <= length (cells_of q))%nat as Hlen by (rewrite Hcells, length_app, length_fmap; lia).
  eapply wp_bind_mono; [by apply (move_out_spec q i a)|]. intros ? w1 [-> H1].
  set (e := ended _ (Live a)). set (q1 := set_sq_cells _ q).
  assert (cells_of q1 = <[i := e]> (cells_of q)) as Hq1 by (by apply cells_set).
  eapply wp_bind_mono.
  { apply (move_within_spec q1 i j e b); [done| |by destruct (sc_type _)|]; rewrite Hq1.
    - apply list_lookup_insert_eq. lia.
    - by rewrite list_lookup_insert_ne. }
  intros ? w2 [-> H2]. cbn [fst snd]. set (e' := ended _ (Live b)). set (q2 := set_sq_cells _ q1).
  assert (cells_of q2 = <[i := Live b]> (<[j := e']> (<[i := e]> (cells_of q)))) as Hq2
    by (unfold q2; rewrite cells_set, Hq1; [done|]; unfold q1; simpl; by destruct Hd as [? ->]).
  rewrite Nat2Z.id. eapply wp_bind, wp_reading.
  { rewrite Hq2, list_lookup_insert_ne by done. apply list_lookup_insert_eq. rewrite length_insert. lia. }
  eapply wp_bind_mono.
  { apply (sequence_move_destroy_spec (sc_type (sq_config q2)) e' a);
      [by apply (element_supports (sq_config q))|unfold e'; simpl; by destruct (sc_type _)]. }
  intros ? w3 [-> H3]. apply wp_ret. exists (ended (sc_type (sq_config q2)) (Live a)).
  split; [|split; [apply ended_vacant|solve_delta]].
  f_equal. rewrite Hq2. unfold q2, q1. rewrite !set_sq_cells_twice. f_equal.
  rewrite (list_insert_insert_ne _ j i), list_insert_insert_eq by done.
  rewrite (list_insert_insert_ne _ j i), list_insert_insert_eq by done.
  rewrite Hcells. unfold swapped. rewrite (live_insert l) by done.
  rewrite live_insert by (by rewrite length_insert). done.
Qed.

(** * Sifting *)

(** A rearrangement of the objects of [q]. *)
Definition rearranged m q l rest (r : sequence V * cell V) w w' : Prop :=
  exists l' scratch, r = (set_sq_cells ((Live <$> l') ++ rest) q, scratch) /\ l' ≡ₚ l /\
    heap_ordered (heap_le m) l' /\ vacant (sc_type (sq_config q)) scratch /\ delta w w' 0 0.

Lemma rearranged_same m q l rest scratch w :
  cells_of q = (Live <$> l) ++ rest -> heap_ordered (heap_le m) l ->
  vacant (sc_type (sq_config q)) scratch -> rearranged m q l rest (q, scratch) w w.
Proof.
  intros Hcells Hl Hv. exists l, scratch. rewrite <- Hcells, set_sq_cells_same.
  split_and!; try done. apply delta_refl.
Qed.

Lemma rearranged_after m q l l1 rest r w w1 w' :
  rearranged m (set_sq_cells ((Live <$> l1) ++ rest) q) l1 rest r w1 w' -> l1 ≡ₚ l -> delta w w1 0 0 ->
  rearranged m q l rest r w w'.
Proof.
  intros (l' & s & -> & Hp & Ho & Hv & H1) Hl1 H0. exists l', s. rewrite set_sq_cells_twice.
  split_and!; try done; [by rewrite Hp|solve_delta].
Qed.


Lemma u64_index (i : nat) : (0 < i)%nat -> Z.of_nat i <= SIZE_MAX ->
  u64 (Z.of_nat i - 1) / 2 = Z.of_nat (parent i).
Proof.
  intros Hi Hmax. assert (u64 (Z.of_nat i - 1) = Z.of_nat (i - 1)) as ->
    by (unfold u64, SIZE_MAX in *; rewrite Z.mod_small; lia).
  unfold parent. by rewrite Nat2Z.inj_div.
Qed.

Lemma sift_up_spec m fuel q l rest (i : nat) scratch w :
  HeapLaws m -> heap_comparable m -> sequence_config_ok (sq_config q) ->
  cells_of q = (Live <$> l) ++ rest -> vacant (sc_type (sq_config q)) scratch ->
  (i < length l)%nat -> Z.of_nat i < 2 ^ Z.of_nat fuel -> Z.of_nat i <= SIZE_MAX ->
  rising (heap_le m) l i ->
  wp (sift_up_loop m fuel q (Z.of_nat i) scratch) (fun r w' => rearranged m q l rest r w w') w.
Proof.
  intros Hlaws Hcmp. revert q l i scratch w.
  induction fuel as [|fuel IH]; intros q l i scratch w Hc Hcells Hv Hi Hf Hmax Hr; cbn [sift_up_loop].
  { assert (i = O) as -> by (change (2 ^ Z.of_nat 0) with 1 in Hf; lia). apply wp_ret.
    apply rearranged_same; try done. eapply rising_done; [done|lia]. }
  destruct (_ =? 0) eqn:H0; destruct_bools.
  { apply wp_ret. apply rearranged_same; try done. eapply rising_done; [done|lia]. }
  rewrite u64_index by lia. pose proof (parent_spec i ltac:(lia)) as Hp.
  destruct (lookup_lt_is_Some_2 l i Hi) as [c Hci].
  destruct (lookup_lt_is_Some_2 l (parent i) ltac:(lia)) as [p Hpi].
  eapply wp_bind, wp_reading.
  { apply heap_less_spec; [done|..]; rewrite Hcells; by apply live_cell. }
  destruct (heap_before m c p) eqn:Hb; cbn [negb].
  - eapply wp_bind_mono; [by apply (heap_swap_spec q l rest i (parent i) c p); try done; lia|].
    intros r w1 (scratch' & -> & Hv' & H1). cbn [fst snd].
    assert (is_Some (sq_data q)) as Hd by (apply (cells_data q i (Live c)); rewrite Hcells; by apply live_cell).
    pose proof (swapped_perm l _ _ _ _ Hci Hpi) as Hperm.
    eapply wp_mono; [apply (IH _ (swapped i c (parent i) p l)); try done|].
    + by apply cells_set.
    + rewrite Hperm. lia.
    + rewrite Nat2Z.inj_succ, Z.pow_succ_r in Hf by lia. lia.
    + lia.
    + apply (rising_swap (heap_le m)); try done; [lia|]. by apply heap_before_le.
    + intros r w2 Hr2. eapply rearranged_after; [exact Hr2|done|done].
  - apply wp_ret. apply rearranged_same; try done. eapply rising_done; [done|].
    intros _ a b Ha Hb'. simplify_eq. unfold heap_le. by rewrite Hb.
Qed.

(** The index [better] chooses. *)
Lemma better_spec m q l rest (k b : nat) y :
  heap_comparable m -> cells_of q = (Live <$> l) ++ rest -> sq_size q = Z.of_nat (length l) ->
  l !! b = Some y ->
  exists b' y', better m q (Z.of_nat k) (Z.of_nat b) = Some (Z.of_nat b') /\ l !! b' = Some y' /\
    ((b' = b /\ y' = y /\ forall z, l !! k = Some z -> heap_before m z y = false) \/
     (b' = k /\ heap_before m y' y = true)).
Proof.
  intros Hc Hcells Hsz Hb. unfold better. rewrite Hsz.
  destruct (_ <? _) eqn:Hlt; destruct_bools.
  - destruct (lookup_lt_is_Some_2 l k ltac:(lia)) as [z Hz].
    rewrite (heap_less_spec m q k b z y) by (done || rewrite Hcells; by apply live_cell).
    cbn [mbind option_bind]. destruct (heap_before m z y) eqn:Hzy.
    + exists k, z. split_and!; try done. by right.
    + exists b, y. split_and!; try done. left. split_and!; try done. intros z' Hz'. by simplify_eq.
  - exists b, y. split_and!; try done. left. split_and!; try done.
    intros z Hz. apply lookup_lt_Some in Hz. lia.
Qed.

Lemma not_before_le m a b : heap_before m b a = false -> heap_le m a b = true.
Proof. unfold heap_le. by intros ->. Qed.

(** The better of the two children and the object at [i] itself: it is not behind any
    of them. *)
Lemma best_spec m q l rest (i : nat) x :
  HeapLaws m -> heap_comparable m -> cells_of q = (Live <$> l) ++ rest ->
  sq_size q = Z.of_nat (length l) -> l !! i = Some x ->
  exists b y, better m q (Z.of_nat (2 * i + 1)) (Z.of_nat i) ≫= better m q (Z.of_nat (2 * i + 2)) =
      Some (Z.of_nat b) /\ l !! b = Some y /\ heap_le m y x = true /\
    (b = i \/ (0 < b)%nat /\ parent b = i) /\
    forall j z, (0 < j)%nat -> parent j = i -> l !! j = Some z -> heap_le m y z = true.
Proof.
  intros Hlaws Hc Hcells Hsz Hx.
  destruct (better_spec m q l rest (2 * i + 1) i x Hc Hcells Hsz Hx) as (b1 & y1 & -> & Hb1 & H1).
  destruct (better_spec m q l rest (2 * i + 2) b1 y1 Hc Hcells Hsz Hb1) as (b2 & y2 & Hbest & Hb2 & H2).
  assert (heap_le m y1 x = true) as Hy1.
  { destruct H1 as [(-> & -> & _)|[_ H1]]; [by destruct (le_total (heap_le m) x x)|by apply heap_before_le]. }
  assert (heap_le m y2 y1 = true) as Hy2.
  { destruct H2 as [(-> & -> & _)|[_ H2]]; [by destruct (le_total (heap_le m) y1 y1)|by apply heap_before_le]. }
  exists b2, y2. split_and!; [done|done|by apply (le_trans (heap_le m) _ y1)| |].
  - destruct H2 as [(-> & _)|[-> _]]; [|right; split; [lia|unfold parent]].
    2: { symmetry. apply (Nat.div_unique _ _ _ 1); lia. }
    destruct H1 as [(-> & _)|[-> _]]; [by left|right; split; [lia|unfold parent]].
    symmetry. apply (Nat.div_unique _ _ _ 0); lia.
  - intros j z Hj Hpj Hz. destruct (parent_spec j Hj) as [E|E]; rewrite Hpj in E; subst j.
    + apply (le_trans (heap_le m) _ y1); [done|]. destruct H1 as [(-> & -> & H1)|[-> H1]].
      * apply not_before_le. by apply H1.
      * assert (y1 = z) as -> by congruence. by destruct (le_total (heap_le m) z z).
    + destruct H2 as [(-> & -> & H2)|[-> H2]].
      * apply not_before_le. by apply H2.
      * assert (y2 = z) as -> by congruence. by destruct (le_total (heap_le m) z z).
Qed.

(** The fewest objects for which the index of a right child would wrap to 0. *)
Definition HEAP_INDEX_LIMIT : Z := 2 ^ 63 - 1.

Lemma sift_down_spec m fuel q l rest (i : nat) scratch w :
  HeapLaws m -> heap_comparable m -> sequence_config_ok (sq_config q) ->
  cells_of q = (Live <$> l) ++ rest -> sq_size q = Z.of_nat (length l) ->
  vacant (sc_type (sq_config q)) scratch ->
  (i < length l)%nat -> Z.of_nat (length l) <= (Z.of_nat i + 1) * 2 ^ Z.of_nat fuel ->
  Z.of_nat (length l) <= HEAP_INDEX_LIMIT -> sinking (heap_le m) l i ->
  wp (sift_down_loop m fuel q (Z.of_nat i) scratch) (fun r w' => rearranged m q l rest r w w') w.
Proof.
  intros Hlaws Hcmp. unfold HEAP_INDEX_LIMIT. revert q l i scratch w.
  induction fuel as [|fuel IH]; intros q l i scratch w Hc Hcells Hsz Hv Hi Hf Hmax Hs; cbn [sift_down_loop].
  all: rewrite (proj2 (Z.ltb_ge _ _)) by (change ((SIZE_MAX - 1) / 2) with (2 ^ 63 - 1); lia).
  all: assert (u64 (Z.of_nat i * 2 + 1) = Z.of_nat (2 * i + 1)) as -> by (unfold u64; rewrite Z.mod_small; lia).
  all: rewrite size_inc_small by (unfold SIZE_MAX; lia).
  all: replace (Z.of_nat (2 * i + 1) + 1) with (Z.of_nat (2 * i + 2)) by lia.
  all: destruct (lookup_lt_is_Some_2 l i Hi) as [x Hx].
  all: destruct (best_spec m q l rest i x Hlaws Hcmp Hcells Hsz Hx) as (b & y & Hbest & Hb & Hyx & Hbi & Hleast).
  all: destruct (better m q (Z.of_nat (2 * i + 1)) (Z.of_nat i)) as [b1|] eqn:Hb1; [|done].
  all: cbn [mbind option_bind] in Hbest.
  all: eapply wp_bind, wp_reading; [done|]; eapply wp_bind, wp_reading; [exact Hbest|].
  all: destruct (_ =? _) eqn:Hbe; destruct_bools.
  1, 3: assert (b = i) as -> by lia; simplify_eq; apply wp_ret, rearranged_same; try done;
    eapply sinking_done; [done|]; intros j Hj Hp a c Ha Hcj; simplify_eq; by apply (Hleast j).
  - apply lookup_lt_Some in Hb. exfalso. change (2 ^ Z.of_nat 0) with 1 in Hf.
    destruct Hbi as [->|[Hb0 Hpb]]; [lia|]. pose proof (parent_spec b Hb0). lia.
  - destruct Hbi as [->|[Hb0 Hpb]]; [lia|]. pose proof (parent_spec b Hb0) as Hpar. rewrite Hpb in Hpar.
    eapply wp_bind_mono; [by apply (heap_swap_spec q l rest i b x y); try done; lia|].
    intros r w1 (scratch' & -> & Hv' & H1). cbn [fst snd].
    assert (is_Some (sq_data q)) as Hd by (apply (cells_data q i (Live x)); rewrite Hcells; by apply live_cell).
    pose proof (swapped_perm l _ _ _ _ Hx Hb) as Hperm. pose proof (lookup_lt_Some _ _ _ Hb).
    eapply wp_mono; [apply (IH _ (swapped i x b y l)); try done|].
    + by apply cells_set.
    + simpl. by rewrite Hperm.
    + rewrite Hperm. lia.
    + rewrite Hperm. rewrite Nat2Z.inj_succ, Z.pow_succ_r in Hf by lia. nia.
    + by rewrite Hperm.
    + by apply (sinking_swap (heap_le m)).
    + intros r w2 Hr2. eapply rearranged_after; [exact Hr2|done|done].
Qed.

(** * Heaps *)

(** An initialised heap of the objects [l], in heap order. *)
Record heap_inv m l : Prop := {
  hi_initialized : hp_initialized m = true;
  hi_holds : holds None (hp_sequence m) l;
  hi_comparable : heap_comparable m;
  hi_ordered : heap_ordered (heap_le m) l;
}.

Lemma heap_inv_valid m l : heap_inv m l -> heap_valid (Some m) = true.
Proof.
  intros [Hi Hh Hc _]. pose proof (sk_size _ (ho_config _ _ _ Hh)). unfold heap_valid. rewrite Hi.
  rewrite (proj2 (Z.eqb_neq _ _)) by lia. cbn [negb andb]. unfold heap_comparable, heap_config in Hc.
  destruct (sc_type _); [done|]. by destruct Hc as [? ->].
Qed.

Lemma heap_inv_size m l : heap_inv m l -> sq_size (hp_sequence m) = Z.of_nat (length l).
Proof. intros [_ Hh _ _]. apply Hh. Qed.

(** The limit an operation on the handle works with. *)
Definition heap_limit m : Z := if hp_initialized m then sc_limit (heap_config m) else SIZE_MAX.

(** What no operation changes. *)
Record heap_kept m m' : Prop := {
  hk_type : sc_type (heap_config m') = sc_type (heap_config m);
  hk_compare : hp_compare m' = hp_compare m;
  hk_context : hp_compare_ctx m' = hp_compare_ctx m;
  hk_limit : sc_limit (heap_config m') = heap_limit m;
}.

Lemma heap_kept_le m m' : heap_kept m m' -> heap_le m' = heap_le m.
Proof.
  intros [Ht Hc Hx _]. unfold heap_le, heap_before, heap_answer. by rewrite Ht, Hc, Hx.
Qed.

Lemma heap_kept_comparable m m' : heap_kept m m' -> heap_comparable m -> heap_comparable m'.
Proof. intros [Ht Hc _ _]. unfold heap_comparable. by rewrite Ht, Hc. Qed.

Lemma heap_kept_sequence m q :
  hp_initialized m = true -> sq_config q = heap_config m -> heap_kept m (set_hp_sequence q m).
Proof.
  intros Hi Hq. split; try done; unfold heap_config, heap_limit in *; simpl; rewrite ?Hq, ?Hi; done.
Qed.

Lemma heap_kept_changed m q : heap_kept m (set_hp_sequence q m) -> heap_kept m (heap_changed q m).
Proof. by intros []. Qed.

Lemma heap_kept_refl m : hp_initialized m = true -> heap_kept m m.
Proof. intros Hi. split; try done. unfold heap_limit. by rewrite Hi. Qed.

Lemma heap_kept_trans m m1 m2 :
  hp_initialized m1 = true -> heap_kept m m1 -> heap_kept m1 m2 -> heap_kept m m2.
Proof.
  intros Hi [? ? ? ?] [? ? ? Hl]. unfold heap_limit in Hl. rewrite Hi in Hl. split; congruence.
Qed.

(** The heap with other objects in its storage. *)
Lemma heap_inv_sequence m l q l' :
  heap_inv m l -> holds None q l' -> sq_config q = heap_config m -> heap_ordered (heap_le m) l' ->
  heap_inv (set_hp_sequence q m) l' /\ heap_inv (heap_changed q m) l'.
Proof.
  intros [Hi _ Hc _] Hh Hq Ho. pose proof (heap_kept_sequence m q Hi Hq) as Hk.
  pose proof (heap_kept_le _ _ Hk) as Hle. pose proof (heap_kept_comparable _ _ Hk Hc) as Hc'.
  assert (heap_ordered (heap_le (set_hp_sequence q m)) l') as Ho' by (by rewrite Hle).
  by split; split.
Qed.

Lemma heap_objects_inv m l :
  heap_inv m l -> heap_objects m = Z.of_nat (length l) * typed (sc_type (heap_config m)).
Proof. intros Hm. unfold heap_objects, sequence_objects. by rewrite (heap_inv_size _ _ Hm). Qed.

(** ** Initialisation *)

(** A heap that was just initialised. *)
Record fresh_heap m type compare ctx limit : Prop := {
  fh_inv : heap_inv m [];
  fh_data : sq_data (hp_sequence m) = None;
  fh_type : sc_type (heap_config m) = type;
  fh_compare : hp_compare m = compare /\ hp_compare_ctx m = ctx;
  fh_limit : sc_limit (heap_config m) = limit;
}.

Lemma heap_initialize_spec m type size align limit compare ctx :
  hp_initialized m = false -> is_size size -> is_size align -> is_size limit ->
  supports type heap_required ->
  match heap_initialize (Some m) type size align limit compare ctx with
  | (STL_OK, r) => exists m', r = Some m' /\ fresh_heap m' type compare ctx limit
  | (_, r) => r = Some m
  end.
Proof.
  intros Hi Hs Ha Hl Ht. unfold heap_initialize. destruct (is_null type && is_null compare) eqn:Hnull; [done|].
  rewrite Hi. pose proof (sequence_stride_spec size align Hs Ha) as Hst.
  destruct (sequence_stride size align) as [stride|status].
  2: { by destruct Hst as [[-> _]|[-> _]]. }
  destruct Hst as (? & ? & ? & ? & ?). eexists. split; [done|]. unfold is_size in *.
  split; simpl; [|done..]. split; simpl; [done| | |apply heap_ordered_nil].
  - split; simpl; [done| |lia|done]. split; simpl; try done; try lia.
    destruct type as [t|]; [|done]. simpl in *. by apply (require_traits_sub t heap_required).
  - unfold heap_comparable. simpl. destruct type; [done|]. simpl in Hnull. by apply is_null_false.
Qed.

Lemma heap_raw_init_spec m type limit :
  hp_initialized m = false -> element_sizes type -> is_size limit ->
  match heap_raw_init (Some m) type limit with
  | (STL_OK, r) => exists m', r = Some m' /\ fresh_heap m' type None None limit
  | (_, r) => r = Some m
  end.
Proof.
  intros Hi Hsz Hl. unfold heap_raw_init. rewrite Hi. destruct type as [t|]; [|done].
  destruct (sequence_require_type (Some t) true) eqn:Hr; try done.
  apply heap_initialize_spec; try done; try apply Hsz. simpl. by apply (require_type_spec t true).
Qed.

(** ** Handles that are only bound to their type *)

Definition heap_bound m : Prop :=
  heap_is_typed_semantic_zero heap_desc (Some m) = true /\ element_sizes (sc_type (heap_config m)).

Definition heap_usable m l : Prop := heap_inv m l \/ (l = [] /\ heap_bound m).

Lemma heap_bound_inv m :
  heap_bound m ->
  hp_initialized m = false /\ sq_data (hp_sequence m) = None /\ sq_size (hp_sequence m) = 0 /\
  hp_compare m = None /\ hp_compare_ctx m = None.
Proof.
  intros [Hz _]. unfold heap_is_typed_semantic_zero in Hz.
  apply andb_true_iff in Hz as [[[[Hi Hq]%andb_true_iff Hc]%andb_true_iff Hx]%andb_true_iff _].
  apply negb_true_iff in Hi. apply is_null_true in Hc, Hx.
  apply sequence_is_zero_inv in Hq. tauto.
Qed.

(** What materialization leaves. *)
Record heap_ready m m' l (materialized : bool) : Prop := {
  hr_inv : heap_inv m' l;
  hr_kept : heap_kept m m';
  hr_blocks : heap_blocks m' = heap_blocks m;
  hr_objects : heap_objects m' = heap_objects m;
  hr_fresh : materialized = true -> l = [] /\ sq_data (hp_sequence m') = None;
  hr_zero : (if materialized then m else m') = m;
}.

Lemma heap_ready_spec m l :
  heap_usable m l ->
  (exists status, heap_materialize_for_mutation heap_desc (Some m) = (status, Some m, false) /\
     status <> STL_OK /\ hp_initialized m = false) \/
  (exists m' materialized,
     heap_materialize_for_mutation heap_desc (Some m) = (STL_OK, Some m', materialized) /\
     heap_ready m m' l materialized).
Proof.
  unfold heap_materialize_for_mutation. intros [Hm|(-> & Hb)].
  - rewrite (heap_inv_valid _ _ Hm). right. exists m, false. split; [done|].
    split; try done. apply heap_kept_refl, Hm.
  - destruct (heap_bound_inv m Hb) as (Hi & Hd & Hs & Hc & Hx). pose proof Hb as [Hz Hsz].
    unfold heap_valid. rewrite Hi. cbn [andb]. rewrite Hz. cbn [negb].
    pose proof (heap_raw_init_spec m (sc_type (heap_config m)) SIZE_MAX Hi Hsz ltac:(done)) as Hinit.
    unfold heap_config in Hinit.
    destruct (heap_raw_init _ _ _) as [status r].
    destruct status; try (left; by eexists).
    destruct Hinit as (m' & -> & [Hm' Hd' Ht' [Hc' Hx'] Hl']). right. do 2 eexists. split; [done|].
    pose proof (heap_inv_size _ _ Hm') as Hs'. unfold heap_config in *.
    split; unfold heap_blocks, heap_objects, sequence_blocks, sequence_objects, heap_config; simpl;
      rewrite ?Hd, ?Hd', ?Hs, ?Hs', ?Ht'; try done.
    + by destruct Hm'.
    + split; unfold heap_config, heap_limit; simpl; rewrite ?Hi; congruence.
Qed.

(** ** Destruction *)

Lemma heap_clear_spec m l w :
  heap_inv m l ->
  wp (heap_clear (Some m)) (fun r w' => exists m', r = (STL_OK, Some m') /\ heap_inv m' [] /\
    block_of (hp_sequence m') = block_of (hp_sequence m) /\ heap_blocks m' = heap_blocks m /\
    heap_kept m m' /\ delta w w' 0 (heap_objects m' - heap_objects m)) w.
Proof.
  intros Hm. pose proof Hm as [Hi Hh _ _]. unfold heap_clear. rewrite (heap_inv_valid _ _ Hm). cbn [negb].
  eapply wp_bind_mono; [eapply clear_holds, Hh|].
  intros r w1 (q' & -> & Hh' & Hcfg & Hdata & Hsame & Hsz & Hbl & Hblk & Hcap & H1).
  rewrite bool_decide_true by done.
  assert (heap_ordered (heap_le m) []) as Ho by apply heap_ordered_nil.
  assert (heap_objects (heap_changed (set_sq_size 0 q') m) = 0) as Hob by done.
  destruct (sq_size (hp_sequence m) =? 0) eqn:H0; destruct_bools; apply wp_ret.
  - rewrite (Hsame H0) in *. exists (set_hp_sequence (hp_sequence m) m).
    assert (holds None (hp_sequence m) []) as Hh0.
    { replace (hp_sequence m) with (set_sq_size 0 (hp_sequence m)); [done|].
      unfold set_sq_size. destruct (hp_sequence m). simpl in *. by subst. }
    split_and!; try done; [by apply (heap_inv_sequence m l)|by apply heap_kept_sequence|].
    unfold heap_objects, sequence_objects in *. simpl. rewrite H0 in *. solve_delta.
  - exists (heap_changed (set_sq_size 0 q') m). split_and!; try done.
    + by apply (heap_inv_sequence m l).
    + apply heap_kept_changed. by apply heap_kept_sequence.
Qed.

Lemma heap_destroy_storage_spec m l w :
  heap_inv m l ->
  wp (heap_raw_destroy_storage (Some m)) (fun r w' => exists generation,
    r = Some (zero_heap generation) /\ delta w w' (- heap_blocks m) (- heap_objects m)) w.
Proof.
  intros Hm. unfold heap_raw_destroy_storage. rewrite (hi_initialized _ _ Hm).
  eapply wp_bind_mono; [eapply heap_clear_spec, Hm|].
  intros r w1 (m' & -> & Hm' & Hblk & Hbl & Hk & H1). eapply wp_bind, wp_reading; [done|].
  rewrite (heap_objects_inv _ _ Hm') in H1. simpl in H1.
  eapply wp_bind_mono; [eapply release_spec; [done|apply Hm']|]. intros ? w2 H2. apply wp_ret.
  eexists. split; [done|]. unfold heap_blocks in *. solve_delta.
Qed.

Lemma heap_fail_spec status m zero (materialized : bool) l w :
  (materialized = true -> l = [] /\ sq_data (hp_sequence m) = None /\ heap_inv m l) ->
  wp (heap_fail status m zero materialized) (fun r w' =>
    r = (status, Some (if materialized then zero else m)) /\ delta w w' 0 0) w.
Proof.
  intros Hfresh. unfold heap_fail, heap_rollback_materialization. destruct materialized; simpl.
  - destruct Hfresh as (-> & Hd & Hm); [done|].
    eapply wp_bind, wp_bind_mono; [by eapply heap_destroy_storage_spec|].
    intros ? w1 (g & -> & H1). apply wp_ret, wp_ret. split; [done|].
    rewrite (heap_objects_inv _ _ Hm) in H1. unfold heap_blocks, sequence_blocks in *.
    rewrite Hd in H1. simpl in H1. solve_delta.
  - apply wp_ret. split; [done|apply delta_refl].
Qed.


(** * Operations *)

(** The outcomes of an operation that may lack room: the objects are those of [l'], in
    some heap order, or the very handle comes back with nothing changed. *)
Definition heap_outcome m l' (good : Prop) (bad : stl_status -> Prop)
    (r : stl_status * option (heap_t V)) w w' : Prop :=
  (exists m' l'', r = (STL_OK, Some m') /\ heap_inv m' l'' /\ l'' ≡ₚ l' /\ heap_kept m m' /\ good /\
     delta w w' (heap_blocks m' - heap_blocks m) (heap_objects m' - heap_objects m)) \/
  (exists status, r = (status, Some m) /\ status <> STL_OK /\
     (hp_initialized m = true -> no_room status /\ bad status) /\ delta w w' 0 0).

Lemma heap_grow_spec m l minimum w :
  heap_inv m l -> is_size minimum ->
  wp (heap_grow_to m minimum) (fun r w' =>
    (exists changed m', r = (STL_OK, changed, m') /\ heap_inv m' l /\
       heap_config m' = heap_config m /\ heap_kept m m' /\ minimum <= sq_capacity (hp_sequence m') /\
       delta w w' (heap_blocks m' - heap_blocks m) 0) \/
    (exists status, r = (status, false, m) /\ no_room status /\
       (sc_limit (heap_config m) < minimum -> status = STL_CAPACITY_EXCEEDED) /\ delta w w' 0 0)) w.
Proof.
  intros Hm Hmin. pose proof Hm as [Hi Hh Hc Ho]. unfold heap_grow_to.
  rewrite (heap_inv_valid _ _ Hm). cbn [negb].
  eapply wp_bind_mono; [by eapply grow_sequence_spec|].
  intros r w1 [(ch & q' & -> & Hh' & Hcfg & Hle & _ & H1)|(status & -> & Hr & Hl & H1)]; apply wp_ret.
  - left. exists ch, (set_hp_sequence q' m). split_and!; try done.
    + by apply (heap_inv_sequence m l).
    + by apply heap_kept_sequence.
  - right. exists status. split_and!; try done. f_equal. by destruct m.
Qed.

Lemma heap_reserve_spec m l n w :
  heap_inv m l -> is_size n ->
  wp (heap_reserve (Some m) n) (fun r w' =>
    heap_outcome m l (n <= sc_limit (heap_config m))
      (fun status => sc_limit (heap_config m) < n -> status = STL_CAPACITY_EXCEEDED) r w w') w.
Proof.
  intros Hm Hn. unfold heap_reserve. eapply wp_bind_mono; [by apply heap_grow_spec|].
  intros r w1 [(ch & m' & -> & Hm' & Hcfg & Hk & Hle & H1)|(status & -> & Hr & Hl & H1)].
  - rewrite bool_decide_true by done. cbn [andb].
    assert (n <= sc_limit (heap_config m)) as Hlim
      by (rewrite <- Hcfg; pose proof (ho_capacity _ _ _ (hi_holds _ _ Hm')); unfold heap_config; lia).
    assert (heap_objects m' - heap_objects m = 0) as Hob
      by (rewrite (heap_objects_inv _ _ Hm), (heap_objects_inv _ _ Hm'), Hcfg; lia).
    destruct ch; apply wp_ret; left; [exists (heap_changed (hp_sequence m') m'), l|exists m', l];
      (split_and!; [done|by destruct Hm'|done|by destruct Hk|done|]); [|by rewrite Hob].
    change (delta w w1 (heap_blocks m' - heap_blocks m) (heap_objects m' - heap_objects m)). by rewrite Hob.
  - assert (status <> STL_OK) as Hne by (by destruct Hr as [->| ->]).
    rewrite bool_decide_false by done. apply wp_ret. right. exists status. by split_and!.
Qed.

Lemma heap_push_prepared_spec m zero (materialized : bool) l v b scratch w :
  HeapLaws m -> heap_inv m l -> block_from None b -> block_from None scratch ->
  Z.of_nat (length l) < sq_capacity (hp_sequence m) ->
  wp (heap_push_prepared m zero materialized (b, Live v) scratch) (fun r w' =>
    exists m' l', r = (STL_OK, Some m') /\ heap_inv m' l' /\ l' ≡ₚ v :: l /\ heap_kept m m' /\
      heap_blocks m' = heap_blocks m /\ delta w w' (-2) 0) w.
Proof.
  intros Hlaws Hm Hb Hs Hlt. pose proof Hm as [Hi Hh Hcmp Ho].
  pose proof (holds_range _ _ _ Hh) as [Hsz Hcap]. pose proof (ho_config _ _ _ Hh) as Hc.
  destruct (holds_room _ _ _ Hh Hlt) as (c & rest & Hcells & Hvc & Hv & Hd & Hlen).
  unfold heap_push_prepared. rewrite (heap_inv_size _ _ Hm).
  eapply wp_bind_mono; [eapply (move_in_spec _ (length l) c v); [done|by rewrite Hcells; apply middle_cell|done]|].
  intros ? w1 [-> H1]. eapply wp_bind_mono; [by apply memory_deallocate_spec|]. intros ? w2 H2.
  rewrite bool_decide_true by done. rewrite Hcells, middle_insert by done.
  cbn [sq_size set_sq_cells set_sq_size]. rewrite (heap_inv_size _ _ Hm), size_inc_small by lia.
  rewrite size_dec_small, Z.add_simpl_r by lia.
  set (q := set_sq_size _ _).
  assert (cells_of q = (Live <$> l ++ [v]) ++ rest) as Hq
    by (unfold q; rewrite fmap_app, <- app_assoc; by apply cells_set).
  eapply wp_bind_mono.
  { apply (sift_up_spec m 64 q (l ++ [v]) rest (length l)); try done.
    - simpl. by destruct (sc_type _).
    - rewrite length_app. simpl. lia.
    - change (2 ^ Z.of_nat 64) with (SIZE_MAX + 1). lia.
    - lia.
    - by apply heap_ordered_snoc. }
  intros r w3 (l' & s & -> & Hp & Hol & _ & H3). cbn [fst snd].
  eapply wp_bind_mono; [by apply memory_deallocate_spec|]. intros ? w4 H4. apply wp_ret.
  assert (length l' = S (length l)) as Hl' by (rewrite Hp, length_app; simpl; lia).
  set (q' := set_sq_cells _ q).
  assert (holds None q' l') as Hh'.
  { eapply (holds_intro _ _ _ _ l' rest Hh Hd); try done; unfold q', q; simpl.
    - by destruct Hd as [? ->].
    - lia.
    - lia. }
  exists (heap_changed q' m), l'. split_and!; [done| |by rewrite Hp, Permutation_app_comm| | |solve_delta].
  - by apply (heap_inv_sequence m l).
  - apply heap_kept_changed. by apply heap_kept_sequence.
  - unfold heap_blocks, sequence_blocks. simpl. by destruct Hd as [? ->].
Qed.

Lemma heap_push_spec m l v w :
  HeapLaws m -> heap_usable m l ->
  wp (heap_push heap_desc (Some m) (Some v)) (fun r w' =>
    heap_outcome m (v :: l) (Z.of_nat (length l) < heap_limit m)
      (fun status => heap_limit m <= Z.of_nat (length l) -> status = STL_CAPACITY_EXCEEDED) r w w') w.
Proof.
  intros Hlaws Hu. unfold heap_push.
  destruct (heap_ready_spec m l Hu) as [(status & -> & Hs & Hi)|(m1 & b & -> & Hr)].
  { destruct status; try done; apply wp_ret; right; eexists;
      (split_and!; [done|done|by rewrite Hi|apply delta_refl]). }
  destruct Hr as [Hm1 Hkept Hbl Hob Hfresh Hzero].
  pose proof (heap_inv_size _ _ Hm1) as Hsz. fold (heap_config m1). rewrite Hsz, (hk_limit _ _ Hkept).
  assert (Hfail : forall status w', no_room status -> delta w w' 0 0 ->
    (heap_limit m <= Z.of_nat (length l) -> status = STL_CAPACITY_EXCEEDED) ->
    wp (heap_fail status m1 m b) (fun r w' =>
      heap_outcome m (v :: l) (Z.of_nat (length l) < heap_limit m)
        (fun status => heap_limit m <= Z.of_nat (length l) -> status = STL_CAPACITY_EXCEEDED) r w w') w').
  { intros status w' Hst Hd Hc. eapply wp_mono; [apply (heap_fail_spec _ _ _ _ l)|].
    { intros Hb. destruct (Hfresh Hb) as (-> & ?). done. }
    intros r w2 [-> H2]. right. exists status. rewrite Hzero.
    split_and!; [done|by destruct Hst as [->| ->]|done|solve_delta]. }
  destruct (_ <=? _) eqn:Hfull; destruct_bools.
  { apply Hfail; [by right|apply delta_refl|done]. }
  pose proof (ho_config _ _ _ (hi_holds _ _ Hm1)) as Hc. pose proof (sk_limit _ Hc) as Hls.
  pose proof (hk_limit _ _ Hkept) as Hlim1.
  unfold is_size in Hls. unfold heap_config in *.
  eapply wp_bind_mono; [by apply prepare_copy_spec|].
  intros r w1 [(blk & -> & Hblk & H1)|(status & -> & Hst & H1)]; [|apply Hfail; [done|done|lia]].
  destruct (sk_align _ Hc) as [Ha Hval]. pose proof (sk_stride _ Hc) as Hst.
  eapply wp_bind_mono; [apply memory_allocate_spec; try done; unfold SIZE_MAX; lia|].
  intros [data|status] w2.
  2: { intros [Hn H2]. eapply wp_bind_mono; [by apply discard_prepared_spec|]. intros ? w3 H3.
       apply Hfail; [done|solve_delta|lia]. }
  intros [(scratch & -> & Hscr) H2]. eapply wp_bind, wp_reading; [done|].
  assert (u64 (Z.of_nat (length l) + 1) = Z.of_nat (length l) + 1) as ->
    by (unfold u64, SIZE_MAX in *; apply Z.mod_small; lia).
  eapply wp_bind_mono; [apply heap_grow_spec; [done|unfold is_size; lia]|].
  intros r w3 [(ch & m2 & -> & Hm2 & Hcfg & Hk2 & Hle & H3)|(status & -> & Hn & _ & H3)].
  - rewrite bool_decide_true by done.
    assert (heap_kept m m2) as Hk by (apply (heap_kept_trans m m1); [apply Hm1|done|done]).
    eapply wp_mono; [apply (heap_push_prepared_spec m2 m b l); try done; [by rewrite (heap_kept_le m)|lia]|].
    intros r w4 (m3 & l3 & -> & Hm3 & Hp3 & Hk3 & Hbl3 & H4). left. exists m3, l3.
    split_and!; try done; [apply (heap_kept_trans m m2); [apply Hm2|done|done]|].
    rewrite <- Hob, (heap_objects_inv _ _ Hm1), (heap_objects_inv _ _ Hm3), Hp3, Hbl3, <- Hbl.
    rewrite (hk_type _ _ Hk3). unfold heap_config in *. rewrite Hcfg. cbn [length]. solve_delta.
  - rewrite bool_decide_false by (by destruct Hn as [->| ->]).
    eapply wp_bind_mono; [by apply memory_deallocate_spec|]. intros ? w4 H4.
    eapply wp_bind_mono; [by apply discard_prepared_spec|]. intros ? w5 H5.
    apply Hfail; [done|solve_delta|lia].
Qed.


(** The objects behind a heap that lost its first one. *)
Lemma heap_inv_cells m l q l' rest :
  heap_inv m l -> is_Some (sq_data (hp_sequence m)) -> heap_ordered (heap_le m) l' ->
  Forall (vacant (sc_type (heap_config m))) rest ->
  Z.of_nat (length l' + length rest) = sq_capacity (hp_sequence m) ->
  q = set_sq_size (Z.of_nat (length l')) (set_sq_cells ((Live <$> l') ++ rest) (hp_sequence m)) ->
  heap_inv (heap_changed q m) l' /\ heap_kept m (heap_changed q m) /\
  heap_blocks (heap_changed q m) = heap_blocks m.
Proof.
  intros Hm Hd Ho Hv Hlen ->. pose proof Hm as [Hi Hh _ _]. split_and!.
  - apply (heap_inv_sequence m l); try done. by eapply (holds_intro _ _ _ _ l' rest Hh Hd).
  - apply heap_kept_changed. by apply heap_kept_sequence.
  - unfold heap_blocks, sequence_blocks. simpl. by destruct Hd as [? ->].
Qed.

(** The outcome of a removal of the first object. *)
Definition heap_taken m l v want (r : stl_status * option (heap_t V) * cell V) w w' (blocks : Z) : Prop :=
  exists m' l', r = (STL_OK, Some m', if want then Live v else Raw) /\ heap_inv m' l' /\ l' ≡ₚ l /\
    heap_kept m m' /\ heap_blocks m' = heap_blocks m /\
    delta w w' (- blocks) (if want then 0 else - typed (sc_type (heap_config m))).

Lemma heap_pop_single_spec m v want w :
  heap_inv m [v] ->
  wp (heap_pop_with m want None) (fun r w' => heap_taken m [] v want r w w' 0) w.
Proof.
  intros Hm. pose proof Hm as [Hi Hh Hcmp Ho]. unfold heap_pop_with.
  destruct (holds_objects _ _ _ Hh ltac:(done)) as (rest & Hcells & Hv & Hd & Hlen).
  eapply wp_bind_mono; [apply (take_out_spec _ 0 v); [apply Hh|by rewrite Hcells]|].
  intros ? w1 [-> H1]. rewrite bool_decide_true by done. rewrite (heap_inv_size _ _ Hm).
  change (size_dec (Z.of_nat (length [v]))) with 0. rewrite Z.eqb_refl.
  eapply wp_bind, wp_ret. eapply wp_bind, wp_ret. eapply wp_bind, wp_ret. apply wp_ret.
  rewrite Hcells. simpl app. cbn [insert list_insert].
  set (c := ended _ _).
  assert (heap_ordered (heap_le m) []) as Ho' by apply heap_ordered_nil.
  assert (Forall (vacant (sc_type (heap_config m))) (c :: rest)) as Hv'
    by (constructor; [apply ended_vacant|done]).
  destruct (heap_inv_cells m [v] (set_sq_size 0 (set_sq_cells (c :: rest) (hp_sequence m))) [] (c :: rest)
    Hm Hd Ho' Hv' Hlen eq_refl) as (Hm' & Hk & Hb).
  do 2 eexists. by split_and!.
Qed.

Lemma heap_pop_many_spec m v t want scratch w :
  HeapLaws m -> heap_inv m (v :: t) -> t <> [] -> Z.of_nat (length t) <= HEAP_INDEX_LIMIT ->
  block_from None scratch ->
  wp (heap_pop_with m want (Some scratch)) (fun r w' => heap_taken m t v want r w w' 1) w.
Proof.
  intros Hlaws Hm Ht Hlim Hs. pose proof Hm as [Hi Hh Hcmp Ho]. unfold heap_pop_with.
  pose proof (holds_range _ _ _ Hh) as [Hsz Hcap]. pose proof (heap_inv_size _ _ Hm) as Hsize.
  destruct (holds_objects _ _ _ Hh ltac:(done)) as (rest & Hcells & Hv & Hd & Hlen).
  eapply wp_bind_mono; [apply (take_out_spec _ 0 v); [apply Hh|by rewrite Hcells]|].
  intros ? w1 [-> H1]. rewrite bool_decide_true by done. rewrite Hsize, size_dec_small by (simpl in *; lia).
  destruct (exists_last Ht) as (t0 & x & ->). clear Ht.
  cbn [length] in *. rewrite length_app in *. cbn [length] in *.
  replace (Z.of_nat (S (length t0 + 1)) - 1) with (Z.of_nat (S (length t0))) by lia.
  rewrite (proj2 (Z.eqb_neq _ _)) by lia.
  rewrite Hcells, fmap_cons, fmap_app. cbn [insert list_insert app]. rewrite <- app_assoc.
  set (c := ended _ (Live v)). set (q1 := set_sq_cells _ _).
  assert (cells_of q1 = c :: (Live <$> t0) ++ Live x :: rest) as Hq1 by (by apply cells_set).
  eapply wp_bind_mono with (R := fun q w' =>
    q = set_sq_cells ((Live <$> x :: t0) ++ ended (sc_type (sq_config q1)) (Live x) :: rest) q1 /\
    delta w1 w' 0 0).
  { eapply wp_bind_mono.
    - apply (move_within_spec q1 0 (S (length t0)) c x); [apply Hh|by rewrite Hq1|apply ended_vacant|].
      rewrite Hq1. by apply middle_cell.
    - intros ? w2 [-> H2]. apply wp_ret. split; [|done].
      f_equal. rewrite Hq1. cbn [insert list_insert fmap list_fmap app]. f_equal. by apply middle_insert. }
  intros ? w2 [-> H2]. set (e := ended _ (Live x)). set (q2 := set_sq_size _ _).
  assert (cells_of q2 = (Live <$> x :: t0) ++ e :: rest) as Hq2
    by (unfold q2, q1; rewrite set_sq_cells_twice; by apply cells_set).
  eapply wp_bind_mono with (R := fun q w' =>
    exists s, rearranged m q2 (x :: t0) (e :: rest) (q, s) w2 w').
  { eapply wp_bind_mono.
    - apply (sift_down_spec m 64 q2 (x :: t0) (e :: rest) 0); try done.
      + apply Hh.
      + unfold q2, q1. simpl. by destruct (sc_type _).
      + simpl. lia.
      + unfold HEAP_INDEX_LIMIT in *. change (2 ^ Z.of_nat 64) with (2 ^ 64). simpl length. lia.
      + simpl length. lia.
      + by apply (heap_ordered_pop _ v).
    - intros r w3 Hr. destruct r as [q3 s]. apply wp_ret.
      by exists s. }
  intros q3 w3 (s & l' & s' & [= -> _] & Hp & Hol & _ & H3).
  eapply wp_bind_mono; [by apply memory_deallocate_spec|]. intros ? w4 H4. apply wp_ret.
  assert (length l' = S (length t0)) as Hl' by (by rewrite Hp).
  assert (Forall (vacant (sc_type (heap_config m))) (e :: rest)) as Hv'
    by (constructor; [apply ended_vacant|done]).
  destruct (heap_inv_cells m (v :: t0 ++ [x]) (set_sq_cells ((Live <$> l') ++ e :: rest) q2) l' (e :: rest)
    Hm Hd Hol Hv') as (Hm' & Hk & Hb).
  { simpl. lia. }
  { unfold q2, q1. rewrite Hl'. unfold set_sq_cells, set_sq_size. simpl. by destruct Hd as [? ->]. }
  do 2 eexists. split_and!; [done|exact Hm'|by rewrite Hp, Permutation_cons_append|done|done|].
  unfold heap_config. destruct want; solve_delta.
Qed.

Lemma heap_pop_spec m v t want w :
  HeapLaws m -> heap_inv m (v :: t) -> Z.of_nat (length t) <= HEAP_INDEX_LIMIT ->
  wp (heap_pop (Some m) want) (fun r w' =>
    heap_taken m t v want r w w' 0 \/
    (exists status, r = (status, Some m, Raw) /\ no_room status /\ t <> [] /\ delta w w' 0 0)) w.
Proof.
  intros Hlaws Hm Hlim. unfold heap_pop. rewrite (heap_inv_valid _ _ Hm), (heap_inv_size _ _ Hm). cbn [negb].
  rewrite (proj2 (Z.eqb_neq _ _)) by (simpl; lia). destruct t as [|x t].
  - simpl. eapply wp_mono; [by apply heap_pop_single_spec|]. by left.
  - rewrite (proj2 (Z.ltb_lt _ _)) by (simpl; lia).
    pose proof (ho_config _ _ _ (hi_holds _ _ Hm)) as Hc.
    destruct (sk_align _ Hc) as [Ha Hval]. pose proof (sk_stride _ Hc) as Hst.
    eapply wp_bind_mono; [apply memory_allocate_spec; try done; unfold SIZE_MAX; lia|].
    intros [data|status] w1.
    + intros [(scratch & -> & Hscr) H1].
      eapply wp_mono; [by apply heap_pop_many_spec|].
      intros r w2 (m' & l' & -> & Hm' & Hp & Hk & Hb & H2). left. exists m', l'.
      split_and!; try done. destruct want; solve_delta.
    + intros [Hn H1]. apply wp_ret. right. by exists status.
Qed.


End HeapOps.
