(* ===== verification/CstlHeapTheorems.v ===== *)
(** A heap is a priority queue: whatever operations are called on it, every answer is
    one that the collection of its objects gives, what comes out is a least object,
    every failure changes nothing, and what it allocates and constructs is exactly what
    its objects need. *)

From S2P Require Import Prelude.
From S2P Require Import CMetaType.
From S2P Require Import CstlSupport.
From S2P Require Import CstlObjects.
From S2P Require Import CstlSequence.
From S2P Require Import CstlSequenceSpecs.
From S2P Require Import CstlHeap.
From S2P Require Import CstlMerge.
From S2P Require Import CstlHeapOps.

(** * Calls and their answers *)

Inductive heap_call (V : Type) :=
  | HeapPush (value : V)
  | HeapPop (want : bool)
  | HeapPeek
  | HeapClear
  | HeapReserve (capacity : Z)
  | HeapSize.
Arguments HeapPush {V} value.
Arguments HeapPop {V} want.
Arguments HeapPeek {V}.
Arguments HeapClear {V}.
Arguments HeapReserve {V} capacity.
Arguments HeapSize {V}.

Inductive queue_answer (V : Type) :=
  | QueueStatus (status : stl_status)
  | QueueTaken (status : stl_status) (out : cell V)
  | QueueValue (value : option V)
  | QueueCount (size : Z).
Arguments QueueStatus {V} status.
Arguments QueueTaken {V} status out.
Arguments QueueValue {V} value.
Arguments QueueCount {V} size.

Section Calls.
Context {V U : Type} `{HV : ObjectTraits V U} `{!AllocatorCalls U}.
Context (heap_desc : addr).
#[local] Abbreviation heap := (heap_t V).

(** The object at the slot [heap_peek] returned. *)
Definition peeked (h : option heap) (slot : option nat) : option (option V) :=
  match slot with
  | None => Some None
  | Some i =>
      m ← h; object ← cells_of (hp_sequence m) !! i; value ← cell_value object; Some (Some value)
  end.

Definition run_heap_call (call : heap_call V) (h : option heap)
    : store U (queue_answer V * option heap) :=
  match call with
  | HeapPush value =>
      let* (status, h) := heap_push heap_desc h (Some value) in ret (QueueStatus status, h)
  | HeapPop want => let* ((status, h), out) := heap_pop h want in ret (QueueTaken status out, h)
  | HeapPeek => let* value := reading (peeked h (heap_peek h)) in ret (QueueValue value, h)
  | HeapClear => let* (status, h) := heap_clear h in ret (QueueStatus status, h)
  | HeapReserve n => let* (status, h) := heap_reserve h n in ret (QueueStatus status, h)
  | HeapSize => ret (QueueCount (heap_size h), h)
  end.

Fixpoint run_heap_calls (calls : list (heap_call V)) (h : option heap)
    : store U (list (queue_answer V) * option heap) :=
  match calls with
  | [] => ret ([], h)
  | call :: calls =>
      let* (a, h) := run_heap_call call h in
      let* (answers, h) := run_heap_calls calls h in
      ret (a :: answers, h)
  end.

(** ** The priority queue *)

(** An object of [l] that none is before. *)
Definition least (le : V -> V -> bool) (l : list V) (v : V) : Prop :=
  v ∈ l /\ forall x, x ∈ l -> le v x = true.

(** What a priority queue of the objects [l] may answer, and its objects then.  A removal
    needs a scratch object unless it takes the last one. *)
Inductive queue_answers (le : V -> V -> bool) (limit : Z) (l : list V) :
    heap_call V -> queue_answer V -> list V -> Prop :=
  | queue_push v :
      Z.of_nat (length l) < limit ->
      queue_answers le limit l (HeapPush v) (QueueStatus STL_OK) (v :: l)
  | queue_push_no_room v status :
      no_room status -> (limit <= Z.of_nat (length l) -> status = STL_CAPACITY_EXCEEDED) ->
      queue_answers le limit l (HeapPush v) (QueueStatus status) l
  | queue_pop want v l' :
      least le l v -> l ≡ₚ v :: l' ->
      queue_answers le limit l (HeapPop want) (QueueTaken STL_OK (if want : bool then Live v else Raw)) l'
  | queue_pop_no_room want status :
      no_room status -> (1 < length l)%nat ->
      queue_answers le limit l (HeapPop want) (QueueTaken status Raw) l
  | queue_pop_empty want :
      l = [] -> queue_answers le limit l (HeapPop want) (QueueTaken STL_EMPTY Raw) l
  | queue_peek v : least le l v -> queue_answers le limit l HeapPeek (QueueValue (Some v)) l
  | queue_peek_empty : l = [] -> queue_answers le limit l HeapPeek (QueueValue None) l
  | queue_clear : queue_answers le limit l HeapClear (QueueStatus STL_OK) []
  | queue_reserve n :
      n <= limit -> queue_answers le limit l (HeapReserve n) (QueueStatus STL_OK) l
  | queue_reserve_no_room n status :
      no_room status -> (limit < n -> status = STL_CAPACITY_EXCEEDED) ->
      queue_answers le limit l (HeapReserve n) (QueueStatus status) l
  | queue_size : queue_answers le limit l HeapSize (QueueCount (Z.of_nat (length l))) l.

Inductive queue_answers_all (le : V -> V -> bool) (limit : Z) :
    list V -> list (heap_call V) -> list (queue_answer V) -> list V -> Prop :=
  | queue_answers_nil l : queue_answers_all le limit l [] [] l
  | queue_answers_cons l call a l1 calls as_ l2 :
      queue_answers le limit l call a l1 -> queue_answers_all le limit l1 calls as_ l2 ->
      queue_answers_all le limit l (call :: calls) (a :: as_) l2.

(** The objects that removals handed to the caller. *)
Definition queue_handed_out (type : option cmeta_type_desc) (a : queue_answer V) : Z :=
  match a with QueueTaken _ (Live _) => typed type | _ => 0 end.

Definition queue_all_handed_out (type : option cmeta_type_desc) (as_ : list (queue_answer V)) : Z :=
  foldr (fun a n => queue_handed_out type a + n) 0 as_.

(** The arguments are values of their C types. *)
Definition heap_call_ok (call : heap_call V) : Prop :=
  match call with HeapReserve n => is_size n | _ => True end.

End Calls.

Section Refinement.
Context {V U : Type} `{HV : ObjectTraits V U} `{!TraitLaws V U} `{!AllocatorCalls U}.
Context (heap_desc : addr).
Implicit Types w : object_world U.
Implicit Types m : heap_t V.
Implicit Types l : list V.
#[local] Abbreviation run_call := (run_heap_call heap_desc).
#[local] Abbreviation run_calls := (run_heap_calls heap_desc).
#[local] Abbreviation HeapLaws m := (TotalPreorder (heap_le m)).

Definition heap_call_sound m l call (r : queue_answer V * option (heap_t V)) w w' : Prop :=
  exists a m' l' k, r = (a, Some m') /\ heap_inv m' k /\ k ≡ₚ l' /\ heap_kept m m' /\
    queue_answers (heap_le m) (heap_limit m) l call a l' /\
    delta w w' (heap_blocks m' - heap_blocks m)
      (heap_objects m' - heap_objects m + queue_handed_out (sc_type (heap_config m)) a).

Lemma heap_unchanged_sound m l k call a w w' :
  heap_inv m k -> k ≡ₚ l -> queue_answers (heap_le m) (heap_limit m) l call a l ->
  queue_handed_out (sc_type (heap_config m)) a = 0 -> delta w w' 0 0 ->
  heap_call_sound m l call (a, Some m) w w'.
Proof.
  intros Hm Hl Ha Hh Hd. exists a, m, l, k. split_and!; try done.
  - apply heap_kept_refl, Hm.
  - by rewrite Hh, !Z.sub_diag.
Qed.

Lemma heap_outcome_sound m l k k' l' call good bad r w w' :
  heap_inv m k -> k ≡ₚ l -> k' ≡ₚ l' ->
  (good -> queue_answers (heap_le m) (heap_limit m) l call (QueueStatus STL_OK) l') ->
  (forall status, no_room status -> bad status ->
     queue_answers (heap_le m) (heap_limit m) l call (QueueStatus status) l) ->
  heap_outcome m k' good bad r w w' -> heap_call_sound m l call (QueueStatus (fst r), snd r) w w'.
Proof.
  intros Hm Hl Hl' Hgood Hbad. pose proof (hi_initialized _ _ Hm) as Hi.
  intros [(m' & k2 & -> & Hm' & Hp & Hk & Hg & Hd)|(status & -> & _ & Hn & Hd)].
  - exists (QueueStatus STL_OK), m', l', k2. split_and!; [done|done|by rewrite Hp|done|auto|].
    simpl. by rewrite Z.add_0_r.
  - destruct (Hn Hi) as [Hnr Hb]. eapply heap_unchanged_sound; try done. by apply Hbad.
Qed.

Lemma least_proper le l k v : k ≡ₚ l -> least le k v -> least (V := V) le l v.
Proof. intros Hp [Hin Hle]. split; [by rewrite <- Hp|]. intros x Hx. apply Hle. by rewrite Hp. Qed.

Lemma heap_head_least m v t : HeapLaws m -> heap_inv m (v :: t) -> least (heap_le m) (v :: t) v.
Proof.
  intros Hl Hm. split; [apply list_elem_of_here|]. apply heap_least; [done|apply Hm].
Qed.

Lemma heap_pop_sound m l k want w :
  HeapLaws m -> heap_inv m k -> k ≡ₚ l -> Z.of_nat (length k) <= HEAP_INDEX_LIMIT ->
  wp (run_call (HeapPop want) (Some m)) (fun r w' => heap_call_sound m l (HeapPop want) r w w') w.
Proof.
  intros Hlaws Hm Hl Hlim. cbn [run_heap_call]. destruct k as [|v t].
  - apply Permutation_nil in Hl as ->. eapply wp_bind, wp_eval.
    + unfold heap_pop. by rewrite (heap_inv_valid _ _ Hm), (heap_inv_size _ _ Hm).
    + apply wp_ret. eapply heap_unchanged_sound; try done; [by apply queue_pop_empty|apply delta_refl].
  - eapply wp_bind_mono; [apply heap_pop_spec; [done|done|simpl in Hlim; lia]|].
    intros r w' [(m' & t' & -> & Hm' & Hp & Hk & Hb & Hd)|(status & -> & Hn & Ht & Hd)]; apply wp_ret.
    + do 2 eexists. exists t, t'. split_and!; [done|done|done|done| |].
      * apply queue_pop; [|done]. eapply least_proper; [done|by apply heap_head_least].
      * rewrite (heap_objects_inv _ _ Hm), (heap_objects_inv _ _ Hm'), Hp, (hk_type _ _ Hk).
        cbn [length]. destruct want; simpl in *; solve_delta.
    + eapply heap_unchanged_sound; try done. apply queue_pop_no_room; [done|].
      rewrite <- Hl. destruct t; [done|]. simpl. lia.
Qed.

Lemma heap_peek_sound m l k w :
  HeapLaws m -> heap_inv m k -> k ≡ₚ l ->
  wp (run_call HeapPeek (Some m)) (fun r w' => heap_call_sound m l HeapPeek r w w') w.
Proof.
  intros Hlaws Hm Hl. cbn [run_heap_call]. unfold heap_peek.
  rewrite (heap_inv_valid _ _ Hm), (heap_inv_size _ _ Hm).
  assert (Hsame : forall a w, queue_answers (heap_le m) (heap_limit m) l HeapPeek a l ->
    queue_handed_out (sc_type (heap_config m)) a = 0 -> heap_call_sound m l HeapPeek (a, Some m) w w)
    by (intros; eapply heap_unchanged_sound; try done; apply delta_refl).
  destruct k as [|v t].
  - apply Permutation_nil in Hl as ->. eapply wp_bind, wp_reading; [done|].
    apply wp_ret, Hsame; [by apply queue_peek_empty|done].
  - destruct (holds_cells _ _ _ (hi_holds _ _ Hm)) as (rest & Hcells & _).
    rewrite (proj2 (Z.eqb_neq _ _)) by (simpl; lia). cbn [negb andb].
    eapply wp_bind, wp_reading; [cbn [peeked mbind option_bind]; by rewrite Hcells|].
    apply wp_ret, Hsame; [|done]. apply queue_peek. eapply least_proper; [done|by apply heap_head_least].
Qed.

Lemma heap_call_spec m l k call w :
  HeapLaws m -> heap_inv m k -> k ≡ₚ l -> heap_limit m <= HEAP_INDEX_LIMIT -> heap_call_ok call ->
  wp (run_call call (Some m)) (fun r w' => heap_call_sound m l call r w w') w.
Proof.
  intros Hlaws Hm Hl Hlim Hok. pose proof (hi_initialized _ _ Hm) as Hi.
  assert (heap_limit m = sc_limit (heap_config m)) as Hlim' by (unfold heap_limit; by rewrite Hi).
  assert (length k = length l) as Hlen by (by rewrite Hl).
  pose proof (ho_capacity _ _ _ (hi_holds _ _ Hm)) as Hcap.
  destruct (holds_range _ _ _ (hi_holds _ _ Hm)) as [Hsz _]. pose proof (heap_inv_size _ _ Hm) as Hs.
  destruct call as [v|want| | |n|].
  - eapply wp_bind_mono; [apply heap_push_spec; [done|by left]|].
    intros [status h] w' Hch. apply wp_ret.
    eapply (heap_outcome_sound m l k (v :: k) (v :: l)) in Hch; [exact Hch|done|done|by rewrite Hl| |];
      rewrite Hlen; intros; [by apply queue_push|by apply queue_push_no_room].
  - apply (heap_pop_sound m l k); try done. unfold heap_config in *. lia.
  - by apply (heap_peek_sound m l k).
  - eapply wp_bind_mono; [by eapply heap_clear_spec|].
    intros r w' (m' & -> & Hm' & _ & Hb & Hk & Hd). apply wp_ret.
    exists (QueueStatus STL_OK), m', [], []. split_and!; try done; [constructor|].
    simpl. by rewrite Hb, Z.sub_diag, Z.add_0_r.
  - eapply wp_bind_mono; [by apply heap_reserve_spec|]. intros [status h] w' Hch. apply wp_ret.
    rewrite <- Hlim' in Hch.
    eapply (heap_outcome_sound m l k k l) in Hch; [exact Hch|done|done|done|by apply queue_reserve|].
    intros. by apply queue_reserve_no_room.
  - cbn [run_heap_call]. unfold heap_size. rewrite (heap_inv_valid _ _ Hm), Hs, Hlen.
    apply wp_ret. eapply heap_unchanged_sound; try done; [constructor|apply delta_refl].
Qed.

(** Any calls. *)
Lemma heap_calls_spec calls m l k w :
  HeapLaws m -> heap_inv m k -> k ≡ₚ l -> heap_limit m <= HEAP_INDEX_LIMIT -> Forall heap_call_ok calls ->
  wp (run_calls calls (Some m)) (fun r w' => exists as_ m' l' k',
    r = (as_, Some m') /\ heap_inv m' k' /\ k' ≡ₚ l' /\ heap_kept m m' /\
    queue_answers_all (heap_le m) (heap_limit m) l calls as_ l' /\
    delta w w' (heap_blocks m' - heap_blocks m)
      (heap_objects m' - heap_objects m + queue_all_handed_out (sc_type (heap_config m)) as_)) w.
Proof.
  revert m l k w. induction calls as [|call calls IH]; intros m l k w Hlaws Hm Hl Hlim Hok; simpl.
  { apply wp_ret. exists [], m, l, k. split_and!; try done; [apply heap_kept_refl, Hm|constructor|].
    simpl. rewrite !Z.sub_diag. apply delta_refl. }
  inversion_clear Hok as [|? ? Hc Hcs].
  eapply wp_bind_mono; [by eapply heap_call_spec|].
  intros r w1 (a & m1 & l1 & k1 & -> & Hm1 & Hp1 & Hk1 & Ha & H1).
  pose proof (heap_kept_le _ _ Hk1) as Hle1.
  assert (heap_limit m1 = heap_limit m) as Hlim1.
  { rewrite <- (hk_limit _ _ Hk1). unfold heap_limit at 1. by rewrite (hi_initialized _ _ Hm1). }
  eapply wp_bind_mono; [apply (IH m1 l1 k1); rewrite ?Hle1, ?Hlim1; done|].
  intros r w2 (as_ & m2 & l2 & k2 & -> & Hm2 & Hp2 & Hk2 & Has & H2).
  rewrite Hle1, Hlim1, (hk_type _ _ Hk1) in *.
  apply wp_ret. exists (a :: as_), m2, l2, k2. split_and!; try done; [|by econstructor|simpl; solve_delta].
  apply (heap_kept_trans m m1); [apply Hm1|done|done].
Qed.

(** * Construction from an array *)

Lemma push_elements_spec elements fuel index m l w :
  HeapLaws m -> heap_inv m l -> (index + fuel <= length elements)%nat ->
  wp (push_elements heap_desc (Some m) elements index fuel) (fun r w' =>
    (exists m' l', r = (STL_OK, Some m') /\ heap_inv m' l' /\
       l' ≡ₚ l ++ take fuel (drop index elements) /\ heap_kept m m' /\
       delta w w' (heap_blocks m' - heap_blocks m) (heap_objects m' - heap_objects m)) \/
    (exists status zero, r = (status, zero) /\ no_room status /\
       delta w w' (- heap_blocks m) (- heap_objects m))) w.
Proof.
  revert index m l w. induction fuel as [|fuel IH]; intros index m l w Hlaws Hm Hlen; cbn [push_elements].
  { apply wp_ret. left. exists m, l. rewrite take_0, app_nil_r, !Z.sub_diag.
    split_and!; try done; [apply heap_kept_refl, Hm|apply delta_refl]. }
  destruct (lookup_lt_is_Some_2 elements index ltac:(lia)) as [v Hv].
  eapply wp_bind, wp_reading; [exact Hv|].
  eapply wp_bind_mono; [apply heap_push_spec; [done|by left]|].
  intros r w1 [(m1 & l1 & -> & Hm1 & Hp1 & Hk1 & _ & H1)|(status & -> & Hs & Hn & H1)].
  - rewrite bool_decide_true by done. pose proof (heap_kept_le _ _ Hk1) as Hle1.
    eapply wp_mono; [apply (IH (S index) m1 l1 w1); [by rewrite Hle1|done|lia]|].
    rewrite (drop_S _ _ _ Hv). cbn [take].
    intros r w2 [(m2 & l2 & -> & Hm2 & Hp2 & Hk2 & H2)|(status & z & -> & Hn & H2)].
    + left. exists m2, l2. split_and!; [done|done| | |solve_delta].
      * rewrite Hp2, Hp1. by rewrite <- Permutation_middle.
      * apply (heap_kept_trans m m1); [apply Hm1|done|done].
    + right. exists status, z. split_and!; [done|done|solve_delta].
  - rewrite bool_decide_false by done.
    eapply wp_bind_mono; [by eapply heap_destroy_storage_spec|]. intros r w2 (g & -> & H2). apply wp_ret.
    right. do 2 eexists. split_and!; [done| |solve_delta]. apply Hn, Hm.
Qed.

Lemma fresh_heap_owns m type compare ctx limit :
  fresh_heap m type compare ctx limit -> heap_blocks m = 0 /\ heap_objects m = 0.
Proof.
  intros [Hm Hd _ _ _]. pose proof (heap_inv_size _ _ Hm) as Hs.
  unfold heap_blocks, heap_objects, sequence_blocks, sequence_objects. by rewrite Hd, Hs.
Qed.

(** The order of a type. *)
Definition type_not_after (t : cmeta_type_desc) (a b : V) : bool :=
  negb (match trait tr_compare t with Some f => call_compare f b a | None => 0 end <? 0).

(** [heap_raw_from_array] on any handle: it returns OK, with a heap of the
    first [count] elements and the limit that was asked for, only for a handle that was not
    initialised; or another status with the very handle it was given and nothing allocated
    or constructed. *)
Theorem heap_from_array_exact m elements (count : nat) t limit w :
  TotalPreorder (type_not_after t) -> element_sizes (Some t) -> is_size limit ->
  (count <= length elements)%nat ->
  exists r w', heap_raw_from_array heap_desc (Some m) (Some elements) count (Some t) limit w = Some (r, w') /\
    ((exists m' l', r = (STL_OK, Some m') /\ heap_inv m' l' /\ l' ≡ₚ take count elements /\
        sc_type (heap_config m') = Some t /\ sc_limit (heap_config m') = limit /\
        hp_initialized m = false /\ delta w w' (heap_blocks m') (heap_objects m')) \/
     (exists status, r = (status, Some m) /\ status <> STL_OK /\ delta w w' 0 0)).
Proof.
  intros Hlaws Hs Hl Hc. apply (wp_run _ (fun r w' => _)). unfold heap_raw_from_array, heap_from_rows.
  assert (Hfail : forall status w', status <> STL_OK -> delta w w' 0 0 ->
    (exists m' l', (status, Some m) = (STL_OK, Some m') /\ heap_inv m' l' /\ l' ≡ₚ take count elements /\
       sc_type (heap_config m') = Some t /\ sc_limit (heap_config m') = limit /\
       hp_initialized m = false /\ delta w w' (heap_blocks m') (heap_objects m')) \/
    (exists status', (status, Some m) = (status', Some m) /\ status' <> STL_OK /\ delta w w' 0 0))
    by (right; eauto).
  destruct (hp_initialized m) eqn:Hi; [apply wp_ret, Hfail; [done|apply delta_refl]|].
  destruct (_ || _); [apply wp_ret, Hfail; [by destruct (limit <? _)|apply delta_refl]|].
  pose proof (heap_raw_init_spec (zero_heap (V := V) 0) (Some t) limit eq_refl Hs Hl) as Hinit.
  destruct (heap_raw_init _ _ _) as [status temporary]. destruct status;
    try (apply wp_ret, Hfail; [done|apply delta_refl]).
  destruct Hinit as (m0 & -> & Hm0). destruct (fresh_heap_owns _ _ _ _ _ Hm0) as [Hb Ho].
  destruct Hm0 as [Hinv _ Hty _ Hlim]. cbn [default].
  assert (HeapLaws m0) as Hlaws0 by (unfold heap_le, heap_before, heap_answer; by rewrite Hty).
  eapply wp_bind_mono; [by apply (push_elements_spec elements count 0 m0 [])|].
  intros r w1 [(m1 & l1 & -> & Hm1 & Hp & Hk & H1)|(status & z & -> & Hn & H1)].
  - rewrite bool_decide_true by done. apply wp_ret. left.
    exists (set_hp_generation (size_inc (hp_generation m)) m1), l1. split_and!; try done.
    + by destruct Hm1.
    + etransitivity; [apply (hk_type _ _ Hk)|done].
    + etransitivity; [apply (hk_limit _ _ Hk)|]. unfold heap_limit. by rewrite (hi_initialized _ _ Hinv).
    + change (delta w w1 (heap_blocks m1) (heap_objects m1)). solve_delta.
  - rewrite bool_decide_false by (by destruct Hn as [->| ->]). apply wp_ret, Hfail; [|solve_delta].
    by destruct Hn as [->| ->].
Qed.

(** * Heaps from their creation on *)

(** What the two initialisation functions make of a zero handle. *)
Inductive heap_created : heap_t V -> Prop :=
  | heap_created_typed generation type limit m :
      element_sizes type -> is_size limit ->
      heap_raw_init (Some (zero_heap generation)) type limit = (STL_OK, Some m) -> heap_created m
  | heap_created_bytes generation size align limit compare ctx m :
      is_size size -> is_size align -> is_size limit ->
      heap_init_bytes (Some (zero_heap generation)) size align limit compare ctx = (STL_OK, Some m) ->
      heap_created m.

Lemma heap_created_fresh m : heap_created m -> exists type compare ctx limit, fresh_heap m type compare ctx limit.
Proof.
  intros [g type limit m' Hs Hl Hi|g size align limit compare ctx m' Hs Ha Hl Hi].
  - pose proof (heap_raw_init_spec (zero_heap (V := V) g) type limit eq_refl Hs Hl) as H. rewrite Hi in H.
    destruct H as (m0 & [= <-] & H). eauto.
  - pose proof (heap_initialize_spec (zero_heap (V := V) g) None size align limit compare ctx eq_refl Hs Ha Hl I) as H.
    unfold heap_init_bytes in Hi. rewrite Hi in H. destruct H as (m0 & [= <-] & H). eauto.
Qed.

(** C17: (refinement) From its creation on, whatever operations are called on a heap with a
    comparison that orders its objects, in whatever order, none reads raw or moved memory
    or leaves the array, all return (64 rounds sift any object), and the answers are those
    of a priority queue: a pop hands out, and a peek shows, an object that none is before; no
    object is lost or doubled; a push, reservation or pop fails only for want of memory or
    capacity and leaves the objects as they were.  The limit keeps the indices of children
    within [size_t]. *)
Theorem heap_refines_queue m calls w :
  heap_created m -> TotalPreorder (heap_le m) -> heap_limit m <= HEAP_INDEX_LIMIT ->
  Forall heap_call_ok calls ->
  exists as_ m' w' l k,
    run_calls calls (Some m) w = Some ((as_, Some m'), w') /\
    queue_answers_all (heap_le m) (heap_limit m) [] calls as_ l /\
    heap_inv m' k /\ k ≡ₚ l /\ heap_kept m m'.
Proof.
  intros (type & compare & ctx & limit & [Hm _ _ _ _])%heap_created_fresh Hl Hlim Hok.
  destruct (wp_run _ _ _ (heap_calls_spec calls m [] [] w Hl Hm (Permutation_refl _) Hlim Hok))
    as (r & w' & Hrun & as_ & m' & l & k & -> & ? & ? & ? & ? & _).
  by exists as_, m', w', l, k.
Qed.

(** (safety) A heap releases what it takes: after any calls, destroying it leaves as
    many blocks allocated as before its creation, and as many objects alive but for those
    that pops handed to the caller; the scratch objects of sifting and the temporaries of
    failed pushes are gone. *)
Theorem heap_releases_all m calls w :
  heap_created m -> TotalPreorder (heap_le m) -> heap_limit m <= HEAP_INDEX_LIMIT ->
  Forall heap_call_ok calls ->
  exists as_ m' w' zero w'',
    run_calls calls (Some m) w = Some ((as_, Some m'), w') /\
    heap_raw_destroy_storage (Some m') w' = Some (Some zero, w'') /\
    hp_initialized zero = false /\ sq_data (hp_sequence zero) = None /\
    ow_blocks w'' = ow_blocks w /\
    ow_objects w'' = ow_objects w + queue_all_handed_out (sc_type (heap_config m)) as_.
Proof.
  intros (type & compare & ctx & limit & Hf)%heap_created_fresh Hl Hlim Hok.
  destruct (fresh_heap_owns _ _ _ _ _ Hf) as [Hb Ho]. destruct Hf as [Hm _ _ _ _].
  destruct (wp_run _ _ _ (heap_calls_spec calls m [] [] w Hl Hm (Permutation_refl _) Hlim Hok))
    as (r & w' & Hrun & as_ & m' & l & k & -> & Hm' & _ & _ & _ & Hd).
  destruct (wp_run _ _ _ (heap_destroy_storage_spec m' k w' Hm')) as (r' & w'' & Hdes & g & -> & Hd').
  do 5 eexists. split_and!; [done|done|done|done|..]; destruct Hd, Hd'; lia.
Qed.


End Refinement.
