(* ===== verification/CstlSort.v ===== *)
(** The stable sort of cstl (cstl/include/cstl/sort.h, cstl/src/sort.c): a bottom-up
    merge sort between the caller's array and one temporary array.

    An array of objects is a list of cells.  Sizes and indices are [size_t] values
    with their wrap-around; a cell that is not there makes a function undefined. *)

From S2P Require Import Prelude.
From S2P Require Import CMetaType.
From S2P Require Import CstlSupport.

Section Sort.
Context {V U : Type} `{!ObjectTraits V U}.
#[local] Abbreviation cells := (list (cell V)).
Implicit Types t : cmeta_type_desc.

(** [sort_slot]. *)
Definition sort_slot (data : cells) (index : Z) : option (cell V) := data !! Z.to_nat index.

Definition put_slot (index : Z) (c : cell V) (data : cells) : cells := <[Z.to_nat index := c]> data.

(** [sort_destroy_range] from [index] on, [fuel] objects. *)
Fixpoint destroy_range_loop t (data : cells) (index : nat) (fuel : nat) : store U cells :=
  match fuel with
  | O => ret data
  | S fuel =>
      let* f := reading (trait tr_destroy t) in
      let* object := reading (data !! index) in
      let* object := destroy f object in
      destroy_range_loop t (<[index := object]> data) (S index) fuel
  end.

Definition sort_destroy_range t (data : cells) (count : nat) : store U cells :=
  destroy_range_loop t data 0 count.

(** [move_construct] into a slot of one array from a slot of another, and [destroy]
    of what is left there. *)
Definition move_slot t (source destination : cells) (from to : Z) : store U (cells * cells) :=
  let* move := reading (trait tr_move_construct t) in
  let* new := reading (sort_slot destination to) in
  let* old := reading (sort_slot source from) in
  let* (new, old) := move_construct move new old in
  let* end_life := reading (trait tr_destroy t) in
  let* old := destroy end_life old in
  ret (put_slot from old source, put_slot to new destination).

(** [compare (left, right) <= 0] on two slots. *)
Definition not_after t (data : cells) (left right : Z) : option bool :=
  f ← trait tr_compare t;
  a ← sort_slot data left ≫= cell_value;
  b ← sort_slot data right ≫= cell_value;
  Some (call_compare f a b <=? 0).

(** The first loop of [sort_merge]: both runs have objects left.  The result is the
    arrays with [first], [second] and [output]. *)
Fixpoint merge_loop t (fuel : nat) (source destination : cells)
    (first second output middle right : Z) : store U (cells * cells * (Z * Z * Z)) :=
  if (first <? middle) && (second <? right) then
    match fuel with
    | O => reading None
    | S fuel =>
        let* left_first := reading (not_after t source first second) in
        let selected := if left_first : bool then first else second in
        let* (source, destination) := move_slot t source destination selected output in
        merge_loop t fuel source destination
          (if left_first then size_inc first else first)
          (if left_first then second else size_inc second) (size_inc output) middle right
    end
  else ret (source, destination, (first, second, output)).

(** The other two loops: what is left of one run. *)
Fixpoint drain_loop t (fuel : nat) (source destination : cells) (first output limit : Z)
    : store U (cells * cells * Z) :=
  if first <? limit then
    match fuel with
    | O => reading None
    | S fuel =>
        let* (source, destination) := move_slot t source destination first output in
        drain_loop t fuel source destination (size_inc first) (size_inc output) limit
    end
  else ret (source, destination, output).

(** No loop runs more often than there are objects between [left] and [right]. *)
Definition sort_merge t (source destination : cells) (left middle right : Z)
    : store U (cells * cells) :=
  let fuel := Z.to_nat (right - left) in
  let* ((source, destination), ((first, second), output)) :=
    merge_loop t fuel source destination left middle left middle right in
  let* ((source, destination), output) :=
    drain_loop t fuel source destination first output middle in
  let* ((source, destination), output) :=
    drain_loop t fuel source destination second output right in
  ret (source, destination).

(** [left + width < count ? left + width : count]. *)
Definition run_end (left width count : Z) : Z :=
  if u64 (left + width) <? count then u64 (left + width) else count.

(** [for (left = 0u; left < count; left += width * 2u)]. *)
Fixpoint merge_pass_loop t (fuel : nat) (source destination : cells) (count width left : Z)
    : store U (cells * cells) :=
  if left <? count then
    match fuel with
    | O => reading None
    | S fuel =>
        let middle := run_end left width count in
        let right := run_end middle width count in
        let* (source, destination) := sort_merge t source destination left middle right in
        merge_pass_loop t fuel source destination count width (u64 (left + u64 (width * 2)))
    end
  else ret (source, destination).

(** [for (width = 1u; width < count;)]; [in_base] says whether [source] is [base]. *)
Fixpoint merge_passes t (fuel : nat) (source destination : cells) (in_base : bool)
    (count width : Z) : store U (cells * cells * bool) :=
  if width <? count then
    match fuel with
    | O => reading None
    | S fuel =>
        let* (source, destination) :=
          merge_pass_loop t (Z.to_nat count) source destination count width 0 in
        merge_passes t fuel destination source (negb in_base) count
          (if count / 2 <? width then count else u64 (width * 2))
    end
  else ret (source, destination, in_base).

(** The copies of the objects: whether all were made, how many, and the array. *)
Fixpoint copy_range_loop t (base scratch : cells) (copied : nat) (fuel : nat)
    : store U (bool * nat * cells) :=
  match fuel with
  | O => ret (true, copied, scratch)
  | S fuel =>
      let* f := reading (trait tr_copy_construct t) in
      let* place := reading (scratch !! copied) in
      let* object := reading (base !! copied ≫= cell_value) in
      let* (made, place) := copy_construct f place object in
      if made : bool then copy_range_loop t base (<[copied := place]> scratch) (S copied) fuel
      else ret (false, copied, scratch)
  end.

(** The last loop: the sorted objects go back to [base]. *)
Fixpoint move_back_loop t (source base : cells) (index : nat) (fuel : nat)
    : store U (cells * cells) :=
  match fuel with
  | O => ret (source, base)
  | S fuel =>
      let* (source, base) := move_slot t source base (Z.of_nat index) (Z.of_nat index) in
      move_back_loop t source base (S index) fuel
  end.

Definition sort_required : Z :=
  Z.lor (Z.lor CMETA_TRAIT_COMPARE CMETA_TRAIT_COPY) (Z.lor CMETA_TRAIT_MOVE CMETA_TRAIT_DESTROY).

(** What follows once the temporary array is there. *)
Definition sort_with_scratch t (data : cells) (count : nat) (block : Z)
    : store U (stl_status * cells) :=
  let* ((made, copied), scratch) := copy_range_loop t data (replicate count Raw) 0 count in
  if made : bool then
    let* data := sort_destroy_range t data count in
    let* ((source, destination), in_base) :=
      merge_passes t count scratch data false (Z.of_nat count) 1 in
    let* data :=
      if in_base : bool then ret source
      else let* (_, data) := move_back_loop t source destination 0 count in ret data in
    let* _ := sequence_deallocate (Some block) in
    ret (STL_OK, data)
  else
    let* _ := sort_destroy_range t scratch copied in
    let* _ := sequence_deallocate (Some block) in
    ret (STL_OUT_OF_MEMORY, data).

(** [base] is an address and the array it refers to. *)
Definition stable_sort (base : option (Z * cells)) (count : Z) (type : option cmeta_type_desc)
    (scratch_byte_limit : Z) : store U (stl_status * option (Z * cells)) :=
  match type with
  | None => ret (STL_INVALID_ARGUMENT, base)
  | Some t =>
      if (td_size t =? 0) || negb (sequence_alignment_valid (td_align t))
      then ret (STL_INVALID_ARGUMENT, base)
      else if negb (status_ok (cmeta_type_require_traits type sort_required))
      then ret (STL_TRAIT_MISSING, base)
      else if count =? 0 then ret (STL_OK, base)
      else
        match base with
        | None => ret (STL_INVALID_ARGUMENT, base)
        | Some (address, data) =>
            if negb (address mod td_align t =? 0) then ret (STL_INVALID_ARGUMENT, base)
            else if count =? 1 then ret (STL_OK, base)
            else
              match sequence_stride (td_size t) (td_align t) with
              | StlFail status => ret (status, base)
              | StlOk stride =>
                  match sequence_bytes count stride with
                  | StlFail status => ret (status, base)
                  | StlOk bytes =>
                      if scratch_byte_limit <? bytes then ret (STL_CAPACITY_EXCEEDED, base)
                      else
                        let* scratch := sequence_allocate count stride (td_align t) in
                        match scratch with
                        | StlFail status => ret (status, base)
                        | StlOk scratch =>
                            let* block := reading scratch in
                            let* (status, data) :=
                              sort_with_scratch t data (Z.to_nat count) block in
                            ret (status, Some (address, data))
                        end
                  end
              end
        end
  end.

End Sort.
