(* ===== verification/CstlSortTheorems.v ===== *)
(** The stable sort of cstl sorts: whatever the comparison of the type, if it is a
    total preorder, the array ends up as a stable insertion sort would leave it, and
    for want of memory it stays as it was. *)

From S2P Require Import Prelude.
From S2P Require Import CMetaType.
From S2P Require Import CstlSupport.
From S2P Require Import CstlObjects.
From S2P Require Import CstlMerge.
From S2P Require Import CstlSort.

(** * Parts of an array *)

Section Cells.
Context {V : Type}.
Implicit Types data : list (cell V).
Implicit Types l : list V.

(** The objects [l] live from slot [i] on. *)
Definition live_at data (i : nat) l : Prop :=
  forall k v, l !! k = Some v -> data !! (i + k)%nat = Some (Live v).

Definition raw_at data (i n : nat) : Prop :=
  forall k, (i <= k < i + n)%nat -> data !! k = Some Raw.

(** Only slots in [P] changed. *)
Definition kept data data' (P : nat -> Prop) : Prop :=
  length data' = length data /\ forall k, ~ P k -> data' !! k = data !! k.

Lemma kept_refl data P : kept data data P.
Proof. done. Qed.

Lemma kept_trans data1 data2 data3 P1 P2 P :
  kept data1 data2 P1 -> kept data2 data3 P2 -> (forall k, P1 k \/ P2 k -> P k) ->
  kept data1 data3 P.
Proof.
  intros [L1 K1] [L2 K2] HP. split; [congruence|]. intros k Hk.
  rewrite K2, K1; [done|..]; intros ?; apply Hk, HP; tauto.
Qed.

Lemma kept_insert data i c : kept data (<[i := c]> data) (fun k => k = i).
Proof. split; [by rewrite length_insert|]. intros k Hk. by apply list_lookup_insert_ne. Qed.

Lemma live_at_kept data data' i l P :
  kept data data' P -> live_at data i l -> (forall k, P k -> (k < i \/ i + length l <= k)%nat) ->
  live_at data' i l.
Proof.
  intros [_ Hk] Hl HP k v Hv. pose proof (lookup_lt_Some _ _ _ Hv). rewrite Hk; [by apply Hl|].
  intros Hp%HP. lia.
Qed.

Lemma raw_at_kept data data' i n P :
  kept data data' P -> raw_at data i n -> (forall k, P k -> (k < i \/ i + n <= k)%nat) ->
  raw_at data' i n.
Proof. intros [_ Hk] Hr HP k Hn. rewrite Hk; [by apply Hr|]. intros Hp%HP. lia. Qed.

Lemma live_at_cons data i v l :
  live_at data i (v :: l) <-> data !! i = Some (Live v) /\ live_at data (S i) l.
Proof.
  split.
  - intros H. split; [rewrite <- (Nat.add_0_r i); by apply H|].
    intros k u Hu. replace (S i + k)%nat with (i + S k)%nat by lia. by apply H.
  - intros [Hv H] [|k] u Hu; simpl in Hu; [rewrite Nat.add_0_r; congruence|].
    replace (i + S k)%nat with (S i + k)%nat by lia. by apply H.
Qed.

Lemma live_at_app data i l1 l2 :
  live_at data i (l1 ++ l2) <-> live_at data i l1 /\ live_at data (i + length l1) l2.
Proof.
  revert i. induction l1 as [|v l1 IH]; intros i; simpl.
  - rewrite Nat.add_0_r. split; [intros H; split; [done|exact H]|tauto].
  - rewrite !live_at_cons, IH. replace (S i + length l1)%nat with (i + S (length l1))%nat by lia. tauto.
Qed.

Lemma live_at_all data l : length data = length l -> live_at data 0 l <-> data = Live <$> l.
Proof.
  intros Hlen. split.
  - intros H. apply list_eq. intros i. rewrite list_lookup_fmap.
    destruct (l !! i) as [v|] eqn:Hi; simpl; [by apply H|].
    apply lookup_ge_None in Hi. apply lookup_ge_None. lia.
  - intros -> k v Hv. simpl. by rewrite list_lookup_fmap, Hv.
Qed.

Lemma raw_at_all data n : length data = n -> raw_at data 0 n <-> data = replicate n Raw.
Proof.
  intros Hlen. split.
  - intros H. apply list_eq. intros i. destruct (decide (i < n)%nat) as [Hi|Hi].
    + rewrite lookup_replicate_2 by done. apply H. lia.
    + rewrite !lookup_ge_None_2; [done|rewrite length_replicate; lia|lia].
  - intros -> k Hk. apply lookup_replicate_2. lia.
Qed.

End Cells.

Section SortTheorems.
Context {V U : Type} `{HV : ObjectTraits V U} `{!TraitLaws V U}.
Context (t : cmeta_type_desc).
Context (Hreq : cmeta_type_require_traits (Some t) sort_required = CMETA_OK).
Implicit Types w : object_world U.
Implicit Types s d : list (cell V).
Implicit Types l : list V.

(** The order the type sorts by. *)
Definition type_le (a b : V) : bool :=
  match trait tr_compare t with Some f => call_compare f a b <=? 0 | None => false end.

Lemma to_nat_inc (i : nat) : Z.of_nat i < SIZE_MAX -> size_inc (Z.of_nat i) = Z.of_nat (S i).
Proof. intros Hi. rewrite size_inc_small by lia. lia. Qed.

(** * One object *)

Lemma move_slot_spec s d (i j : nat) v w :
  s !! i = Some (Live v) -> d !! j = Some Raw ->
  wp (move_slot t s d (Z.of_nat i) (Z.of_nat j)) (fun r w' =>
    r = (<[i := Raw]> s, <[j := Live v]> d) /\ delta w w' 0 0) w.
Proof.
  intros Hs Hd. unfold move_slot, sort_slot, put_slot. rewrite !Nat2Z.id. do 2 find_trait.
  eapply wp_bind, wp_reading; [done|]. eapply wp_bind, wp_reading; [exact Hd|].
  eapply wp_bind, wp_reading; [exact Hs|].
  eapply wp_bind_mono; [apply move_construct_spec|]. intros ? w1 [-> H1].
  eapply wp_bind, wp_reading; [done|].
  eapply wp_bind_mono; [by apply destroy_spec|]. intros ? w2 [-> H2].
  apply wp_ret. split; [done|]. solve_delta.
Qed.

Lemma not_after_spec s (i j : nat) a b :
  s !! i = Some (Live a) -> s !! j = Some (Live b) ->
  not_after t s (Z.of_nat i) (Z.of_nat j) = Some (type_le a b).
Proof.
  intros Hi Hj. unfold not_after, sort_slot, type_le. rewrite !Nat2Z.id, Hi, Hj.
  destruct (trait_present t sort_required CMETA_TRAIT_COMPARE tr_compare Hreq) as [f ->]; [done| |done].
  unfold callback_flag. tauto.
Qed.

Lemma destroy_range_loop_spec s i n w :
  (forall k, (i <= k < i + n)%nat -> exists v, s !! k = Some (Live v)) ->
  wp (destroy_range_loop t s i n) (fun s' w' =>
    raw_at s' i n /\ kept s s' (fun k => (i <= k < i + n)%nat) /\ delta w w' 0 (- Z.of_nat n)) w.
Proof.
  revert s i w. induction n as [|n IH]; intros s i w Hl; cbn [destroy_range_loop].
  { apply wp_ret. split_and!; [intros k Hk; lia|apply kept_refl|apply delta_refl]. }
  find_trait. eapply wp_bind, wp_reading; [done|].
  destruct (Hl i ltac:(lia)) as [v Hv]. eapply wp_bind, wp_reading; [exact Hv|].
  eapply wp_bind_mono; [by apply destroy_spec|]. intros ? w1 [-> H1].
  pose proof (lookup_lt_Some _ _ _ Hv) as Hlt.
  eapply wp_mono; [apply IH|].
  { intros k Hk. rewrite list_lookup_insert_ne by lia. apply Hl. lia. }
  intros s' w' (Hr & Hk & H2). split_and!.
  - intros k Hn. destruct (decide (k = i)) as [->|]; [|apply Hr; lia].
    rewrite (proj2 Hk) by lia. by apply list_lookup_insert_eq.
  - eapply kept_trans; [apply kept_insert|exact Hk|]. simpl. lia.
  - solve_delta.
Qed.

(** * One merge *)

Lemma drain_loop_spec fuel s d (i j e : nat) l w :
  (i + length l = e)%nat -> (length l <= fuel)%nat -> Z.of_nat e <= SIZE_MAX ->
  Z.of_nat (j + length l) <= SIZE_MAX -> live_at s i l -> raw_at d j (length l) ->
  wp (drain_loop t fuel s d (Z.of_nat i) (Z.of_nat j) (Z.of_nat e)) (fun r w' =>
    exists s' d', r = (s', d', Z.of_nat (j + length l)) /\
      raw_at s' i (length l) /\ kept s s' (fun k => (i <= k < e)%nat) /\
      live_at d' j l /\ kept d d' (fun k => (j <= k < j + length l)%nat) /\ delta w w' 0 0) w.
Proof.
  revert s d i j l w. induction fuel as [|fuel IH]; intros s d i j l w He Hf Hs1 Hs2 Hl Hr;
    cbn [drain_loop]; (destruct l as [|v l]; simpl in *;
    [rewrite (proj2 (Z.ltb_ge _ _)) by lia; apply wp_ret; exists s, d; rewrite Nat.add_0_r;
     split_and!; [done|intros k Hk; lia|apply kept_refl|done|apply kept_refl|apply delta_refl]|]);
    [lia|].
  rewrite (proj2 (Z.ltb_lt _ _)) by lia. apply live_at_cons in Hl as [Hv Hl].
  assert (d !! j = Some Raw) as Hd by (apply Hr; lia).
  eapply wp_bind_mono; [by apply move_slot_spec|]. intros ? w1 [-> H1].
  pose proof (lookup_lt_Some _ _ _ Hv). pose proof (lookup_lt_Some _ _ _ Hd).
  rewrite !to_nat_inc by (unfold SIZE_MAX in *; lia).
  eapply wp_mono; [apply (IH _ _ (S i) (S j) l); try lia|].
  - eapply live_at_kept; [apply kept_insert|done|]. simpl. lia.
  - eapply raw_at_kept; [apply kept_insert| |].
    { intros k Hk. apply Hr. lia. } simpl. lia.
  - intros r w2 (s' & d' & -> & Hr' & Hk' & Hl' & Hkd & H2). exists s', d'. split_and!.
    + do 2 f_equal. lia.
    + intros k Hk. destruct (decide (k = i)) as [->|]; [|apply Hr'; lia].
      rewrite (proj2 Hk') by lia. by apply list_lookup_insert_eq.
    + eapply kept_trans; [apply kept_insert|exact Hk'|]. simpl. lia.
    + apply live_at_cons. split; [|done]. rewrite (proj2 Hkd) by lia. by apply list_lookup_insert_eq.
    + eapply kept_trans; [apply kept_insert|exact Hkd|]. simpl. lia.
    + solve_delta.
Qed.

(** What the first loop of a merge leaves: [out] was moved to the destination, [l1']
    and [l2'] are left of the runs. *)
Record part_merged s d (i m j e o : nat) l1 l2 s' d' (i' j' : nat) out l1' l2' : Prop := {
  pm_done : l1' = [] \/ l2' = [];
  pm_out : merge type_le l1 l2 = out ++ l1' ++ l2';
  pm_first : (i <= i')%nat /\ (i' + length l1' = m)%nat;
  pm_second : (j <= j')%nat /\ (j' + length l2' = e)%nat;
  pm_live1 : live_at s' i' l1';
  pm_live2 : live_at s' j' l2';
  pm_raw1 : raw_at s' i (i' - i);
  pm_raw2 : raw_at s' j (j' - j);
  pm_source : kept s s' (fun k => (i <= k < i')%nat \/ (j <= k < j')%nat);
  pm_live : live_at d' o out;
  pm_destination : kept d d' (fun k => (o <= k < o + length out)%nat);
}.

Definition merge_loop_post s d (i m j e o : nat) l1 l2
    (r : list (cell V) * list (cell V) * (Z * Z * Z)) w w' : Prop :=
  exists s' d' i' j' out l1' l2',
    r = (s', d', (Z.of_nat i', Z.of_nat j', Z.of_nat (o + length out))) /\
    part_merged s d i m j e o l1 l2 s' d' i' j' out l1' l2' /\ delta w w' 0 0.

Lemma merge_loop_done fuel s d (i m j e o : nat) l1 l2 w :
  l1 = [] \/ l2 = [] -> (i + length l1 = m)%nat -> (j + length l2 = e)%nat ->
  live_at s i l1 -> live_at s j l2 ->
  wp (merge_loop t fuel s d (Z.of_nat i) (Z.of_nat j) (Z.of_nat o) (Z.of_nat m) (Z.of_nat e))
    (fun r w' => merge_loop_post s d i m j e o l1 l2 r w w') w.
Proof.
  intros Hor Hm He Hl1 Hl2.
  assert ((Z.of_nat i <? Z.of_nat m) && (Z.of_nat j <? Z.of_nat e) = false) as Hc.
  { apply andb_false_iff. rewrite !Z.ltb_ge. destruct Hor as [->| ->]; simpl in *; lia. }
  assert (merge_loop_post s d i m j e o l1 l2 (s, d, (Z.of_nat i, Z.of_nat j, Z.of_nat o)) w w) as Hp.
  { exists s, d, i, j, [], l1, l2. rewrite Nat.add_0_r. split; [done|]. split; [|apply delta_refl].
    split; try done; try apply kept_refl.
    - destruct Hor as [->| ->]; simpl; [by destruct l2|by rewrite merge_nil_r, app_nil_r].
    - intros k Hk. lia.
    - intros k Hk. lia. }
  by destruct fuel; cbn [merge_loop]; rewrite Hc; apply wp_ret.
Qed.

(** One round: [a], from the run it heads, was moved. *)
Lemma part_merged_left s d i m j e o a l1 l2 s' d' i' j' out l1' l2' :
  s !! i = Some (Live a) -> d !! o = Some Raw -> (i < m <= j)%nat -> (j <= e)%nat ->
  merge type_le (a :: l1) l2 = a :: merge type_le l1 l2 ->
  part_merged (<[i := Raw]> s) (<[o := Live a]> d) (S i) m j e (S o) l1 l2 s' d' i' j' out l1' l2' ->
  part_merged s d i m j e o (a :: l1) l2 s' d' i' j' (a :: out) l1' l2'.
Proof.
  intros Ha Hd Him Hje Hmerge [? ? ? ? ? ? Hr1 Hr2 Hks ? Hkd].
  pose proof (lookup_lt_Some _ _ _ Ha). pose proof (lookup_lt_Some _ _ _ Hd).
  assert (s' !! i = Some Raw) as Hi
    by (rewrite (proj2 Hks) by lia; by apply list_lookup_insert_eq).
  split; try done; try lia.
  - rewrite Hmerge. cbn [app]. by f_equal.
  - intros k Hk. destruct (decide (k = i)) as [->|]; [done|]. apply Hr1. lia.
  - eapply kept_trans; [apply kept_insert|exact Hks|]. simpl. lia.
  - apply live_at_cons. split; [|done]. rewrite (proj2 Hkd) by lia. by apply list_lookup_insert_eq.
  - eapply kept_trans; [apply kept_insert|exact Hkd|]. simpl. lia.
Qed.

Lemma part_merged_right s d i m j e o b l1 l2 s' d' i' j' out l1' l2' :
  s !! j = Some (Live b) -> d !! o = Some Raw -> (i <= m <= j)%nat -> (j < e)%nat ->
  merge type_le l1 (b :: l2) = b :: merge type_le l1 l2 ->
  part_merged (<[j := Raw]> s) (<[o := Live b]> d) i m (S j) e (S o) l1 l2 s' d' i' j' out l1' l2' ->
  part_merged s d i m j e o l1 (b :: l2) s' d' i' j' (b :: out) l1' l2'.
Proof.
  intros Hb Hd Him Hje Hmerge [? ? ? ? ? ? Hr1 Hr2 Hks ? Hkd].
  pose proof (lookup_lt_Some _ _ _ Hb). pose proof (lookup_lt_Some _ _ _ Hd).
  assert (s' !! j = Some Raw) as Hj
    by (rewrite (proj2 Hks) by lia; by apply list_lookup_insert_eq).
  split; try done; try lia.
  - rewrite Hmerge. cbn [app]. by f_equal.
  - intros k Hk. destruct (decide (k = j)) as [->|]; [done|]. apply Hr2. lia.
  - eapply kept_trans; [apply kept_insert|exact Hks|]. simpl. lia.
  - apply live_at_cons. split; [|done]. rewrite (proj2 Hkd) by lia. by apply list_lookup_insert_eq.
  - eapply kept_trans; [apply kept_insert|exact Hkd|]. simpl. lia.
Qed.

Lemma merge_loop_spec fuel s d (i m j e o : nat) l1 l2 w :
  (i + length l1 = m)%nat -> (j + length l2 = e)%nat -> (m <= j)%nat ->
  (length l1 + length l2 <= fuel)%nat -> Z.of_nat e <= SIZE_MAX ->
  Z.of_nat (o + length l1 + length l2) <= SIZE_MAX ->
  live_at s i l1 -> live_at s j l2 -> raw_at d o (length l1 + length l2) ->
  wp (merge_loop t fuel s d (Z.of_nat i) (Z.of_nat j) (Z.of_nat o) (Z.of_nat m) (Z.of_nat e))
    (fun r w' => merge_loop_post s d i m j e o l1 l2 r w w') w.
Proof.
  revert s d i j o l1 l2 w.
  induction fuel as [|fuel IH]; intros s d i j o l1 l2 w Hm He Hmj Hf Hs Hso Hl1 Hl2 Hr.
  { destruct l1; [|simpl in Hf; lia]. apply merge_loop_done; try done. by left. }
  destruct l1 as [|a l1]; [apply merge_loop_done; try done; by left|].
  destruct l2 as [|b l2]; [apply merge_loop_done; try done; by right|].
  cbn [merge_loop]. simpl length in *. rewrite !(proj2 (Z.ltb_lt _ _)) by lia. cbn [andb].
  pose proof Hl1 as [Ha Hl1']%live_at_cons. pose proof Hl2 as [Hb Hl2']%live_at_cons.
  assert (d !! o = Some Raw) as Hd by (apply Hr; lia). unfold SIZE_MAX in *.
  eapply wp_bind, wp_reading; [by apply not_after_spec|].
  destruct (type_le a b) eqn:Hab.
  - eapply wp_bind_mono; [by apply move_slot_spec|]. intros ? w1 [-> H1].
    rewrite !to_nat_inc by (unfold SIZE_MAX; lia).
    eapply wp_mono; [apply (IH _ _ (S i) j (S o) l1 (b :: l2)); simpl length; try lia|].
    + eapply live_at_kept; [apply kept_insert|done|]. simpl. lia.
    + eapply live_at_kept; [apply kept_insert|done|]. simpl. lia.
    + eapply raw_at_kept; [apply kept_insert| |]; [intros k Hk; apply Hr; lia|]. simpl. lia.
    + intros r w2 (s' & d' & i' & j' & out & l1' & l2' & -> & Hp & H2).
      exists s', d', i', j', (a :: out), l1', l2'. split; [simpl; do 3 f_equal; lia|].
      split; [|solve_delta]. apply part_merged_left; try done; try lia.
      rewrite merge_cons. by rewrite Hab.
  - eapply wp_bind_mono; [by apply move_slot_spec|]. intros ? w1 [-> H1].
    rewrite !to_nat_inc by (unfold SIZE_MAX; lia).
    eapply wp_mono; [apply (IH _ _ i (S j) (S o) (a :: l1) l2); simpl length; try lia|].
    + eapply live_at_kept; [apply kept_insert|done|]. simpl. lia.
    + eapply live_at_kept; [apply kept_insert|done|]. simpl. lia.
    + eapply raw_at_kept; [apply kept_insert| |]; [intros k Hk; apply Hr; lia|]. simpl. lia.
    + intros r w2 (s' & d' & i' & j' & out & l1' & l2' & -> & Hp & H2).
      exists s', d', i', j', (b :: out), l1', l2'. split; [simpl; do 3 f_equal; lia|].
      split; [|solve_delta]. apply part_merged_right; try done; try lia.
      rewrite merge_cons. by rewrite Hab.
Qed.

(** A whole merge: the two runs end up merged in the other array. *)
Lemma sort_merge_spec s d (i m e : nat) l1 l2 w :
  (i + length l1 = m)%nat -> (m + length l2 = e)%nat -> Z.of_nat e <= SIZE_MAX ->
  live_at s i l1 -> live_at s m l2 -> raw_at d i (e - i) ->
  wp (sort_merge t s d (Z.of_nat i) (Z.of_nat m) (Z.of_nat e)) (fun r w' =>
    exists s' d', r = (s', d') /\
      raw_at s' i (e - i) /\ kept s s' (fun k => (i <= k < e)%nat) /\
      live_at d' i (merge type_le l1 l2) /\ kept d d' (fun k => (i <= k < e)%nat) /\
      delta w w' 0 0) w.
Proof.
  intros Hm He Hs Hl1 Hl2 Hr. unfold sort_merge.
  assert (Z.to_nat (Z.of_nat e - Z.of_nat i) = length l1 + length l2)%nat as -> by lia.
  eapply wp_bind_mono; [apply (merge_loop_spec _ s d i m m e i l1 l2); try done; try lia|].
  { by replace (length l1 + length l2)%nat with (e - i)%nat by lia. }
  intros r w1 (s1 & d1 & i' & j' & out & l1' & l2' & -> & [Hdone Hout Hi Hj Hl1' Hl2' Hr1 Hr2 Hks Hlo Hkd] & H1).
  pose proof (merge_length type_le l1 l2) as Hlen. rewrite Hout, !length_app in Hlen.
  eapply wp_bind_mono.
  { apply (drain_loop_spec _ s1 d1 i' (i + length out) m l1'); try done; try lia.
    eapply raw_at_kept; [exact Hkd| |simpl; lia]. intros k Hk. apply Hr. lia. }
  intros r w2 (s2 & d2 & -> & Hrs2 & Hks2 & Hl2d & Hkd2 & H2).
  eapply wp_bind_mono.
  { apply (drain_loop_spec _ s2 d2 j' (i + length out + length l1') e l2'); try done; try lia.
    - eapply live_at_kept; [exact Hks2|done|simpl; lia].
    - eapply raw_at_kept; [exact Hkd2| |simpl; lia].
      eapply raw_at_kept; [exact Hkd| |simpl; lia]. intros k Hk. apply Hr. lia. }
  intros r w3 (s3 & d3 & -> & Hrs3 & Hks3 & Hl3 & Hkd3 & H3).
  apply wp_ret. exists s3, d3. split_and!; [done|..|solve_delta].
  - intros k Hk.
    destruct (decide (j' <= k)%nat); [apply Hrs3; lia|]. rewrite (proj2 Hks3) by lia.
    destruct (decide (i' <= k < m)%nat); [apply Hrs2; lia|]. rewrite (proj2 Hks2) by lia.
    destruct (decide (k < m)%nat); [apply Hr1; lia|apply Hr2; lia].
  - eapply kept_trans; [eapply kept_trans; [exact Hks|exact Hks2|intros k Hk; exact Hk]|exact Hks3|].
    simpl. lia.
  - rewrite Hout. apply live_at_app. split; [|apply live_at_app; split].
    + eapply live_at_kept; [exact Hkd3| |simpl; lia]. eapply live_at_kept; [exact Hkd2|done|simpl; lia].
    + eapply live_at_kept; [exact Hkd3|done|simpl; lia].
    + done.
  - eapply kept_trans; [eapply kept_trans; [exact Hkd|exact Hkd2|intros k Hk; exact Hk]|exact Hkd3|].
    simpl. lia.
Qed.

(** * Passes *)

(** Indices up to three times the count do not wrap. *)
Definition array_count (n : nat) : Prop := Z.of_nat n < 2 ^ 63.

Lemma run_end_spec (left width n : nat) :
  array_count n -> (left <= n)%nat -> (width < n)%nat ->
  run_end (Z.of_nat left) (Z.of_nat width) (Z.of_nat n) = Z.of_nat (left + width `min` (n - left)).
Proof.
  unfold array_count. intros Hn Hl Hw. unfold run_end.
  assert (u64 (Z.of_nat left + Z.of_nat width) = Z.of_nat (left + width)) as ->
    by (rewrite Nat2Z.inj_add; apply Z.mod_small; lia).
  destruct (_ <? _) eqn:Hlt; destruct_bools; f_equal; lia.
Qed.

Lemma merge_pass_spec fuel s d (left width n : nat) l w :
  array_count n -> (0 < width < n)%nat -> (left = 0 \/ 2 * width <= left)%nat ->
  (left + length l = n)%nat \/ (l = [] /\ n <= left)%nat -> (length l <= fuel)%nat ->
  live_at s left l -> raw_at d left (length l) ->
  wp (merge_pass_loop t fuel s d (Z.of_nat n) (Z.of_nat width) (Z.of_nat left)) (fun r w' =>
    exists s' d', r = (s', d') /\
      raw_at s' left (length l) /\ kept s s' (fun k => (left <= k < left + length l)%nat) /\
      live_at d' left (merge_runs type_le fuel width l) /\
      kept d d' (fun k => (left <= k < left + length l)%nat) /\ delta w w' 0 0) w.
Proof.
  intros Hn Hw. revert s d left l w.
  induction fuel as [|fuel IH]; intros s d left l w Hleft Hlen Hf Hl Hr; cbn [merge_pass_loop].
  all: destruct (decide (l = [])) as [->|Hne].
  1, 3: rewrite (proj2 (Z.ltb_ge _ _)) by (simpl in Hlen; lia); apply wp_ret; exists s, d;
    simpl; rewrite Nat.add_0_r; split_and!;
    [done|intros k Hk; lia|apply kept_refl|intros k v Hk; by rewrite lookup_nil in Hk|apply kept_refl|apply delta_refl].
  { destruct l; [done|simpl in Hf; lia]. }
  destruct Hlen as [Hlen|[? _]]; [|done].
  assert (0 < length l)%nat by (destruct l; [done|simpl; lia]).
  unfold array_count in Hn. rewrite (proj2 (Z.ltb_lt _ _)) by lia.
  set (l1 := take width l). set (l2 := take width (drop width l)). set (l3 := drop width (drop width l)).
  assert (l = l1 ++ l2 ++ l3) as Hsplit by (unfold l1, l2, l3; by rewrite !take_drop).
  assert (length l1 = width `min` length l)%nat as L1 by (unfold l1; by rewrite length_take).
  assert (length l2 = width `min` (length l - width))%nat as L2
    by (unfold l2; by rewrite length_take, length_drop).
  assert (length l3 = length l - width - width)%nat as L3 by (unfold l3; by rewrite !length_drop).
  rewrite Hsplit in Hl. apply live_at_app in Hl as [Hl1 Hl]. apply live_at_app in Hl as [Hl2 Hl3].
  rewrite run_end_spec by (done || lia).
  assert (left + width `min` (n - left) = left + length l1)%nat as -> by lia.
  rewrite run_end_spec by (done || lia).
  assert (left + length l1 + width `min` (n - (left + length l1)) = left + length l1 + length l2)%nat as -> by lia.
  eapply wp_bind_mono.
  { apply (sort_merge_spec s d left _ _ l1 l2); try done.
    - unfold SIZE_MAX. lia.
    - intros k Hk. apply Hr. lia. }
  intros r w1 (s1 & d1 & -> & Hr1 & Hk1 & Hm1 & Hd1 & H1).
  assert (u64 (Z.of_nat left + u64 (Z.of_nat width * 2)) = Z.of_nat (left + 2 * width)) as ->.
  { unfold u64. rewrite (Z.mod_small (Z.of_nat width * 2)) by lia. rewrite Z.mod_small by lia. lia. }
  assert (merge_runs type_le (S fuel) width l = merge type_le l1 l2 ++ merge_runs type_le fuel width l3) as Hmr
    by (by destruct l).
  rewrite Hmr. pose proof (merge_length type_le l1 l2) as Hml.
  assert (length l3 = 0 \/ left + length l1 + length l2 = left + 2 * width)%nat as Hpos by lia.
  assert (Hat : forall data k l', k = (left + length l1 + length l2)%nat -> length l' = length l3 ->
    live_at data k l' <-> live_at data (left + 2 * width)%nat l').
  { intros data k l' -> Hll. destruct Hpos as [H0| ->]; [|done].
    destruct l'; [|simpl in *; lia]. split; intros _ k' v Hk; by rewrite lookup_nil in Hk. }
  assert (length (merge_runs type_le fuel width l3) = length l3) as Hrl by (apply merge_runs_len; lia).
  eapply wp_mono; [apply (IH s1 d1 (left + 2 * width)%nat l3); try lia|].
  - destruct (decide (length l3 = 0)%nat) as [H0|]; [right|left; lia].
    split; [by apply length_zero_iff_nil|lia].
  - apply (Hat _ (left + length l1 + length l2)%nat); [done|done|].
    eapply live_at_kept; [exact Hk1|done|]. simpl. lia.
  - eapply raw_at_kept; [exact Hd1| |simpl; lia]. intros k Hk. apply Hr. lia.
  - intros r w2 (s2 & d2 & -> & Hr2 & Hk2 & Hm2 & Hd2 & H2).
    exists s2, d2. split_and!; [done|..|solve_delta].
    + intros k Hk. destruct (decide (left + 2 * width <= k)%nat); [apply Hr2; lia|].
      rewrite (proj2 Hk2) by lia. apply Hr1. lia.
    + eapply kept_trans; [exact Hk1|exact Hk2|]. simpl. lia.
    + apply live_at_app. split; [eapply live_at_kept; [exact Hd2|done|]; simpl; lia|].
      apply Hat; [lia|done|done].
    + eapply kept_trans; [exact Hd1|exact Hd2|]. simpl. lia.
Qed.

Context `{!TotalPreorder type_le}.

(** All passes: the runs grow until there is one. *)
Lemma merge_passes_spec fuel (in_base : bool) (width n : nat) l w :
  array_count n -> length l = n -> (0 < width)%nat -> (n <= fuel + width)%nat -> runs type_le width l ->
  wp (merge_passes t fuel (Live <$> l) (replicate n Raw) in_base (Z.of_nat n) (Z.of_nat width))
    (fun r w' => exists l' b,
      r = (Live <$> l', replicate n Raw, b) /\ stable_sorted type_le l l' /\ delta w w' 0 0) w.
Proof.
  intros Hn Hl. revert in_base width l w Hl.
  induction fuel as [|fuel IH]; intros in_base width l w Hl Hw Hf Hr; cbn [merge_passes].
  all: destruct (decide (n <= width)%nat) as [Hle|Hgt].
  1, 3: rewrite (proj2 (Z.ltb_ge _ _)) by lia; apply wp_ret; exists l, in_base;
    split_and!; [done|split; [eapply runs_ascending; [exact Hr|lia]|done|done]|apply delta_refl].
  { lia. }
  rewrite (proj2 (Z.ltb_lt _ _)) by lia. rewrite Nat2Z.id.
  eapply wp_bind_mono.
  { apply (merge_pass_spec n _ _ 0 width n l); try done; try lia.
    - by apply live_at_all; [rewrite length_fmap|].
    - apply raw_at_all; [by rewrite length_replicate|by rewrite Hl]. }
  intros r w1 (s1 & d1 & -> & Hr1 & [Ls _] & Hm1 & [Ld _] & H1).
  destruct (merge_runs_spec type_le width n l Hw ltac:(lia) Hr) as (Hruns & Hperm & Hst).
  pose proof (merge_runs_len type_le width n l) as Hlen.
  set (l1 := merge_runs type_le n width l) in *.
  rewrite length_fmap in Ls. rewrite length_replicate in Ld.
  apply live_at_all in Hm1 as ->; [|congruence]. apply raw_at_all in Hr1 as ->; [|done].
  rewrite Hl.
  assert (exists width', (if Z.of_nat n / 2 <? Z.of_nat width then Z.of_nat n
      else u64 (Z.of_nat width * 2)) = Z.of_nat width' /\ (width < width')%nat /\
      runs type_le width' l1) as (width' & -> & Hw' & Hr').
  { pose proof (Z.div_mod (Z.of_nat n) 2 ltac:(lia)). pose proof (Z.mod_pos_bound (Z.of_nat n) 2 ltac:(lia)).
    unfold array_count in Hn. destruct (_ <? Z.of_nat width) eqn:Hlt; destruct_bools.
    - exists n. split_and!; [done|lia|]. apply runs_last; [|lia]. eapply runs_ascending; [exact Hruns|lia].
    - exists (2 * width)%nat. split_and!; [unfold u64; rewrite Z.mod_small; lia|lia|done]. }
  eapply wp_mono; [apply (IH (negb in_base) width' l1); [lia|lia|lia|done]|].
  intros r w2 (l' & b & -> & [Ha Hp Hs] & H2). exists l', b. split_and!; [done| |solve_delta].
  split; [done|by rewrite Hp|]. intros a. by rewrite Hs, Hst.
Qed.

(** * Copies *)

Lemma copy_range_loop_spec fuel copied l w :
  (copied + fuel = length l)%nat ->
  wp (copy_range_loop t (Live <$> l) ((Live <$> take copied l) ++ replicate fuel Raw) copied fuel)
    (fun r w' =>
      (r = (true, length l, Live <$> l) /\ delta w w' 0 (Z.of_nat fuel)) \/
      (exists c scratch, r = (false, c, scratch) /\ live_at scratch 0 (take c l) /\ (c <= length l)%nat /\
         delta w w' 0 (Z.of_nat c - Z.of_nat copied))) w.
Proof.
  revert copied w. induction fuel as [|fuel IH]; intros copied w Hc; cbn [copy_range_loop].
  { apply wp_ret. left. rewrite app_nil_r, take_ge by lia. split; [do 2 f_equal; lia|apply delta_refl]. }
  destruct (lookup_lt_is_Some_2 l copied ltac:(lia)) as [v Hv].
  assert (length (Live <$> take copied l) = copied) as Hlen by (rewrite length_fmap, length_take; lia).
  find_trait. eapply wp_bind, wp_reading; [done|].
  eapply wp_bind, wp_reading; [rewrite lookup_app_r by lia; by rewrite Hlen, Nat.sub_diag|].
  eapply wp_bind, wp_reading; [by rewrite list_lookup_fmap, Hv|].
  eapply wp_bind_mono; [apply copy_construct_spec|]. intros r w1 [[-> H1]|[-> H1]].
  - assert (<[copied := Live v]> ((Live <$> take copied l) ++ replicate (S fuel) Raw) =
      (Live <$> take (S copied) l) ++ replicate fuel Raw) as ->.
    { rewrite insert_app_r_alt by lia. rewrite Hlen, Nat.sub_diag. simpl.
      by rewrite (take_S_r _ _ _ Hv), fmap_app, <- app_assoc. }
    eapply wp_mono; [apply IH; lia|].
    intros r w2 [[-> H2]|(c & sc & -> & Hlv & Hcl & H2)]; [left|right].
    + split; [done|]. solve_delta.
    + exists c, sc. split_and!; [done|done|done|]. solve_delta.
  - apply wp_ret. right. do 2 eexists. split; [done|]. split; [|split; [lia|solve_delta]].
    intros k u Hu. simpl. pose proof (lookup_lt_Some _ _ _ Hu) as Hk. rewrite length_take in Hk.
    rewrite lookup_app_l by lia. by rewrite list_lookup_fmap, Hu.
Qed.

Lemma move_back_loop_spec fuel s d i l w :
  length s = length l -> length d = length l -> (i + fuel = length l)%nat ->
  live_at d 0 (take i l) -> live_at s i (drop i l) -> raw_at d i fuel ->
  wp (move_back_loop t s d i fuel) (fun r w' =>
    exists s', r = (s', Live <$> l) /\ delta w w' 0 0) w.
Proof.
  revert s d i w. induction fuel as [|fuel IH]; intros s d i w Ls Ld Hi Hd Hs Hr; cbn [move_back_loop].
  { apply wp_ret. exists s. split; [|apply delta_refl]. f_equal. apply live_at_all; [done|].
    by rewrite take_ge in Hd by lia. }
  destruct (lookup_lt_is_Some_2 l i ltac:(lia)) as [v Hv].
  rewrite (drop_S _ _ _ Hv) in Hs. apply live_at_cons in Hs as [Hv' Hs].
  assert (d !! i = Some Raw) as Hdi by (apply Hr; lia).
  eapply wp_bind_mono; [by apply move_slot_spec|]. intros ? w1 [-> H1].
  eapply wp_mono; [apply IH|].
  - by rewrite length_insert.
  - by rewrite length_insert.
  - lia.
  - rewrite (take_S_r _ _ _ Hv). apply live_at_app. rewrite length_take.
    replace (0 + i `min` length l)%nat with i by lia. split.
    + eapply live_at_kept; [apply kept_insert|done|]. simpl. rewrite length_take. lia.
    + apply live_at_cons. split; [apply list_lookup_insert_eq; lia|]. intros k u Hu. by rewrite lookup_nil in Hu.
  - eapply live_at_kept; [apply kept_insert|done|]. simpl. lia.
  - eapply raw_at_kept; [apply kept_insert| |]; [intros k Hk; apply Hr; lia|]. simpl. lia.
  - intros r w2 (s' & -> & H2). exists s'. split; [done|]. solve_delta.
Qed.

(** * The sort *)

Lemma sort_with_scratch_spec l block w :
  (0 < length l)%nat -> array_count (length l) ->
  wp (sort_with_scratch t (Live <$> l) (length l) block) (fun r w' =>
    (exists l', r = (STL_OK, Live <$> l') /\ stable_sorted type_le l l' /\ delta w w' (-1) 0) \/
    (r = (STL_OUT_OF_MEMORY, Live <$> l) /\ delta w w' (-1) 0)) w.
Proof.
  intros Hpos Hn. unfold sort_with_scratch.
  eapply wp_bind_mono; [apply (copy_range_loop_spec (length l) 0 l); lia|].
  intros r w1 [[-> H1]|(c & sc & -> & Hlv & Hc & H1)].
  - eapply wp_bind_mono.
    { apply destroy_range_loop_spec. intros k Hk. destruct (lookup_lt_is_Some_2 l k ltac:(lia)) as [v Hv].
      exists v. by rewrite list_lookup_fmap, Hv. }
    intros data w2 (Hr & [Ld _] & H2). rewrite length_fmap in Ld. apply raw_at_all in Hr as ->; [|done].
    eapply wp_bind_mono; [apply (merge_passes_spec (length l) false 1); try done; try lia; by apply runs_one|].
    intros r w3 (l' & b & -> & Hs & H3).
    assert (length l' = length l) as Hlen by (by rewrite (ss_perm _ _ _ Hs)).
    eapply wp_bind_mono with (R := fun data w4 => data = Live <$> l' /\ delta w3 w4 0 0).
    { destruct b; [apply wp_ret; split; [done|apply delta_refl]|].
      eapply wp_bind_mono.
      { apply (move_back_loop_spec _ _ _ 0 l'); simpl; rewrite ?length_fmap, ?length_replicate; try lia.
        - intros k v Hk. by rewrite take_0, lookup_nil in Hk.
        - intros k v Hk. rewrite drop_0 in Hk. simpl. by rewrite list_lookup_fmap, Hk.
        - intros k Hk. apply lookup_replicate_2. lia. }
      intros r w4 (s' & -> & H4). apply wp_ret. by split. }
    intros data w4 [-> H4]. eapply wp_bind_mono; [apply deallocate_spec|]. intros ? w5 H5.
    apply wp_ret. left. exists l'. split_and!; [done|done|]. solve_delta.
  - eapply wp_bind_mono.
    { apply destroy_range_loop_spec. intros k Hk. destruct (lookup_lt_is_Some_2 (take c l) k) as [v Hv].
      { rewrite length_take. lia. } exists v. by apply Hlv. }
    intros data w2 (_ & _ & H2). eapply wp_bind_mono; [apply deallocate_spec|]. intros ? w3 H3.
    apply wp_ret. right. split; [done|]. solve_delta.
Qed.

Lemma short_stable_sorted l : (length l <= 1)%nat -> stable_sorted type_le l l.
Proof. intros Hl. split; [|done|done]. by apply (runs_ascending type_le 1); [apply runs_one|]. Qed.

Lemma stable_sorted_reference l l' : stable_sorted type_le l l' -> l' = insertion_sort type_le l.
Proof.
  intros [Ha _ Hs]. destruct (insertion_sort_spec type_le l) as [Ha' _ Hs'].
  apply (stable_sorted_unique type_le); [done|done|]. intros a. by rewrite Hs, Hs'.
Qed.

Lemma stable_sort_spec address l limit w :
  0 < td_size t <= SIZE_MAX -> is_size (td_align t) -> sequence_alignment_valid (td_align t) = true ->
  address mod td_align t = 0 -> array_count (length l) ->
  wp (stable_sort (Some (address, Live <$> l)) (Z.of_nat (length l)) (Some t) limit) (fun r w' =>
    exists status l', r = (status, Some (address, Live <$> l')) /\ delta w w' 0 0 /\
      ((status = STL_OK /\ stable_sorted type_le l l') \/ (no_room status /\ l' = l)) /\
      ((1 < length l)%nat -> limit < Z.of_nat (length l) * td_size t ->
       status = STL_CAPACITY_EXCEEDED)) w.
Proof.
  intros Hsz Ha Hval Haddr Hn. unfold stable_sort.
  rewrite (proj2 (Z.eqb_neq (td_size t) 0)), Hval, Hreq by lia. cbn [negb orb status_ok].
  rewrite Haddr, Z.eqb_refl. cbn [negb].
  destruct (Z.of_nat (length l) =? 0) eqn:H0; destruct_bools.
  { apply wp_ret. exists STL_OK, l. split_and!; [done|apply delta_refl| |lia].
    left. split; [done|]. apply short_stable_sorted. lia. }
  destruct (Z.of_nat (length l) =? 1) eqn:H1; destruct_bools.
  { apply wp_ret. exists STL_OK, l. split_and!; [done|apply delta_refl| |lia].
    left. split; [done|]. apply short_stable_sorted. lia. }
  assert (Hfull : forall status w', no_room status -> delta w w' 0 0 ->
    ((1 < length l)%nat -> limit < Z.of_nat (length l) * td_size t -> status = STL_CAPACITY_EXCEEDED) ->
    exists status' l', (status, Some (address, Live <$> l)) = (status', Some (address, Live <$> l')) /\
      delta w w' 0 0 /\
      ((status' = STL_OK /\ stable_sorted type_le l l') \/ (no_room status' /\ l' = l)) /\
      ((1 < length l)%nat -> limit < Z.of_nat (length l) * td_size t ->
       status' = STL_CAPACITY_EXCEEDED)).
  { intros status w' Hs Hd Hlim. exists status, l. split_and!; try done. by right. }
  pose proof (sequence_stride_spec (td_size t) (td_align t) ltac:(unfold is_size; lia) Ha) as Hst.
  destruct (sequence_stride _ _) as [stride|status].
  2: { destruct Hst as [[-> Hc]|[-> _]]; [exfalso|apply wp_ret, Hfull; [by right|apply delta_refl|done]].
       destruct Hc as [Hc|Hc]; [lia|congruence]. }
  unfold sequence_bytes.
  destruct (negb _ && _) eqn:Hb.
  { apply wp_ret, Hfull; [by right|apply delta_refl|done]. }
  apply product_checked_spec in Hb; [|lia..].
  assert (td_size t <= stride <= SIZE_MAX) as Hstride by lia.
  assert (u64 (Z.of_nat (length l) * stride) = Z.of_nat (length l) * stride) as ->
    by (unfold u64, SIZE_MAX in *; apply Z.mod_small; nia).
  destruct (limit <? _) eqn:Hlim; destruct_bools.
  { apply wp_ret, Hfull; [by right|apply delta_refl|done]. }
  assert (Hroom : forall status : stl_status, (1 < length l)%nat ->
    limit < Z.of_nat (length l) * td_size t -> status = STL_CAPACITY_EXCEEDED) by (intros; nia).
  unfold array_count in Hn.
  eapply wp_bind_mono; [apply allocate_spec; [unfold SIZE_MAX; lia|lia|done|done]|].
  intros [data|status] w1.
  2: { intros [Hnr Hd]. apply wp_ret, Hfull; [done|done|apply Hroom]. }
  intros [[block ->] Hd1]. eapply wp_bind, wp_reading; [done|]. rewrite Nat2Z.id.
  eapply wp_bind_mono; [apply sort_with_scratch_spec; [lia|done]|].
  intros r w2 [(l' & -> & Hs & Hd2)|[-> Hd2]]; apply wp_ret.
  - exists STL_OK, l'. split_and!; [done|solve_delta|by left|apply Hroom].
  - apply Hfull; [by left|solve_delta|apply Hroom].
Qed.

(** C18: (equivalence) [stable_sort] sorts as a stable insertion sort does: for every
    comparison that is a total preorder, whatever the allocator and the copies do, it
    is defined and returns; on OK the array holds what the reference gives, an
    ascending permutation in which objects that compare equal keep their order;
    otherwise the status is OUT_OF_MEMORY or CAPACITY_EXCEEDED and the array is as it
    was, the latter whenever the scratch limit is below the size of the array. Every
    object and block made on the way is gone. *)
Theorem stable_sort_exact address l limit w :
  0 < td_size t <= SIZE_MAX -> is_size (td_align t) -> sequence_alignment_valid (td_align t) = true ->
  address mod td_align t = 0 -> array_count (length l) ->
  exists status l' w',
    stable_sort (Some (address, Live <$> l)) (Z.of_nat (length l)) (Some t) limit w =
      Some ((status, Some (address, Live <$> l')), w') /\
    ow_blocks w' = ow_blocks w /\ ow_objects w' = ow_objects w /\
    ((status = STL_OK /\ l' = insertion_sort type_le l /\ stable_sorted type_le l l') \/
     (no_room status /\ l' = l)) /\
    ((1 < length l)%nat -> limit < Z.of_nat (length l) * td_size t ->
     status = STL_CAPACITY_EXCEEDED).
Proof.
  intros H1 H2 H3 H4 H5.
  destruct (wp_run _ _ _ (stable_sort_spec address l limit w H1 H2 H3 H4 H5))
    as (r & w' & Hrun & status & l' & -> & [] & Hor & Hlim).
  exists status, l', w'. split_and!; [done|lia|lia| |done].
  destruct Hor as [[-> Hs]|?]; [left|by right]. split_and!; [done|by apply stable_sorted_reference|done].
Qed.

End SortTheorems.
