(* ===== verification/CstlChain.v ===== *)
(** Doubly linked lists of cells in a store by address: the pointers the list of cstl
    (cstl/src/list.c) and the B-tree, for the order of its entries (cstl/src/btree.c), set
    when a cell comes in and when one goes.

    A cell carries data of the client.  Following NULL or a cell that is gone is
    undefined. *)

From S2P Require Import Prelude.

(** [list_node_t] and [btree_entry_link_t]. *)
Record link (D : Type) := mk_link {
  ln_previous : option addr;
  ln_next : option addr;
  ln_data : D;
}.
Arguments mk_link {D}.
Arguments ln_previous {D}.
Arguments ln_next {D}.
Arguments ln_data {D}.

(** The two ends, and the cells that are allocated. *)
Record links (D : Type) := mk_links {
  lk_head : option addr;
  lk_tail : option addr;
  lk_store : gmap addr (link D);
}.
Arguments mk_links {D}.
Arguments lk_head {D}.
Arguments lk_tail {D}.
Arguments lk_store {D}.

Definition no_links {D} : links D := mk_links None None ∅.

Section Pointers.
Context {D : Type}.
Implicit Types l : links D.
Implicit Types p : option addr.

Definition link_previous p (n : link D) : link D := mk_link p (ln_next n) (ln_data n).
Definition link_next p (n : link D) : link D := mk_link (ln_previous n) p (ln_data n).
Definition link_data (d : D) (n : link D) : link D := mk_link (ln_previous n) (ln_next n) d.

Definition set_lk_head p l : links D := mk_links p (lk_tail l) (lk_store l).
Definition set_lk_tail p l : links D := mk_links (lk_head l) p (lk_store l).
Definition set_lk_store (store : gmap addr (link D)) l : links D := mk_links (lk_head l) (lk_tail l) store.

(** [*p] and an assignment to a field of [*p]. *)
Definition link_at l p : option (link D) := a ← p; lk_store l !! a.

Definition update_link p (f : link D -> link D) l : option (links D) :=
  a ← p; n ← lk_store l !! a; Some (set_lk_store (<[a := f n]> (lk_store l)) l).

(** An address no cell has. *)
Definition fresh_address l : addr := map_fold (fun a _ top => Z.max a top) 0 (lk_store l) + 1.

(** The part of [list_insert_between] and [btree_link_insert_before] that sets pointers,
    for the new cell at [a]. *)
Definition insert_link (a : addr) (d : D) (previous next : option addr) l : option (links D) :=
  let l := set_lk_store (<[a := mk_link previous next d]> (lk_store l)) l in
  l ← (if is_null previous then Some (set_lk_head (Some a) l) else update_link previous (link_next (Some a)) l);
  if is_null next then Some (set_lk_tail (Some a) l) else update_link next (link_previous (Some a)) l.

(** The part of [list_remove_node] and [btree_link_unlink] that sets pointers. *)
Definition unlink_link (a : addr) l : option (links D) :=
  n ← link_at l (Some a);
  l ← (if is_null (ln_previous n) then Some (set_lk_head (ln_next n) l)
       else update_link (ln_previous n) (link_next (ln_next n)) l);
  if is_null (ln_next n) then Some (set_lk_tail (ln_previous n) l)
  else update_link (ln_next n) (link_previous (ln_previous n)) l.

(** [free (link)]. *)
Definition free_link (a : addr) l : links D := set_lk_store (delete a (lk_store l)) l.

(** * Chains *)

Definition first_of (xs : list (addr * D)) (end_ : option addr) : option addr :=
  match xs with [] => end_ | x :: _ => Some (fst x) end.

Definition last_of (start : option addr) (xs : list (addr * D)) : option addr :=
  match last xs with None => start | Some x => Some (fst x) end.

(** The cells [xs], by address and data, between [start] and [end_]. *)
Fixpoint chained (store : gmap addr (link D)) (start : option addr) (xs : list (addr * D)) (end_ : option addr) : Prop :=
  match xs with
  | [] => True
  | (a, d) :: xs => store !! a = Some (mk_link start (first_of xs end_) d) /\ chained store (Some a) xs end_
  end.

(** The list holds the cells [xs] and no others. *)
Record linked l (xs : list (addr * D)) : Prop := {
  lk_distinct : NoDup xs.*1;
  lk_first : lk_head l = first_of xs None;
  lk_last : lk_tail l = last_of None xs;
  lk_chain : chained (lk_store l) None xs None;
  lk_count : size (lk_store l) = length xs;
}.

Lemma linked_nil : linked no_links [].
Proof. split; try done. apply NoDup_nil_2. Qed.

Lemma first_of_app xs ys end_ : first_of (xs ++ ys) end_ = first_of xs (first_of ys end_).
Proof. by destruct xs as [|[]]. Qed.

Lemma last_of_app start xs ys : last_of start (xs ++ ys) = last_of (last_of start xs) ys.
Proof. unfold last_of. rewrite last_app. by destruct (last ys), (last xs). Qed.

Lemma last_of_cons start x xs : last_of start (x :: xs) = last_of (Some (fst x)) xs.
Proof. apply (last_of_app start [x] xs). Qed.

Lemma last_of_snoc start xs x : last_of start (xs ++ [x]) = Some (fst x).
Proof. by rewrite last_of_app. Qed.

Lemma last_of_in xs a : last_of None xs = Some a -> exists ys d, xs = ys ++ [(a, d)].
Proof.
  unfold last_of. destruct (last xs) as [[b d]|] eqn:E; [|done]. intros [= <-].
  apply last_Some in E as [ys ->]. by exists ys, d.
Qed.

Lemma last_of_none xs : last_of None xs = None -> xs = [].
Proof. unfold last_of. destruct (last xs) eqn:E; [done|]. by apply last_None in E. Qed.

Lemma chained_app store start xs ys end_ :
  chained store start (xs ++ ys) end_ <->
  chained store start xs (first_of ys end_) /\ chained store (last_of start xs) ys end_.
Proof.
  revert start. induction xs as [|[a d] xs IH]; intros start; simpl; [by destruct ys as [|[]]; tauto|].
  rewrite IH, first_of_app, last_of_cons. cbn [fst]. tauto.
Qed.

Lemma chained_frame store store' start xs end_ :
  (forall a, a ∈ xs.*1 -> store' !! a = store !! a) -> chained store start xs end_ -> chained store' start xs end_.
Proof.
  revert start. induction xs as [|[a d] xs IH]; intros start Hs; simpl; [done|]. intros [Ha Hc].
  split; [by rewrite Hs by (csimpl; left)|]. apply IH; [|done]. intros b Hb. apply Hs. csimpl. by right.
Qed.

Lemma chained_insert store start xs end_ a n :
  a ∉ xs.*1 -> chained store start xs end_ -> chained (<[a := n]> store) start xs end_.
Proof. intros Ha. apply chained_frame. intros b Hb. apply lookup_insert_ne. by intros ->. Qed.

Lemma chained_lookup store start xs end_ a :
  chained store start xs end_ -> a ∈ xs.*1 -> exists n, store !! a = Some n.
Proof.
  revert start. induction xs as [|[b d] xs IH]; intros start; csimpl; [set_solver|].
  intros [Hb Hc] [->|Ha]%elem_of_cons; eauto.
Qed.

(** The cell in the middle. *)
Lemma chained_middle store start xs a d ys end_ :
  chained store start (xs ++ (a, d) :: ys) end_ ->
  store !! a = Some (mk_link (last_of start xs) (first_of ys end_) d).
Proof. rewrite chained_app. by intros [_ [? _]]. Qed.

Lemma linked_middle l xs a d ys :
  linked l (xs ++ (a, d) :: ys) ->
  link_at l (Some a) = Some (mk_link (last_of None xs) (first_of ys None) d).
Proof. intros [_ _ _ Hc _]. by eapply chained_middle. Qed.

(** Setting the end of a chain, and its start. *)
Lemma chained_set_end store start xs a d p q :
  NoDup (xs ++ [(a, d)]).*1 -> chained store start (xs ++ [(a, d)]) p ->
  chained (<[a := mk_link (last_of start xs) q d]> store) start (xs ++ [(a, d)]) q.
Proof.
  rewrite fmap_app, NoDup_app. intros (_ & Hd & _). rewrite !chained_app. intros [Hc _]. split.
  - apply chained_insert; [|done]. intros Ha. by apply (Hd a Ha), list_elem_of_here.
  - csimpl. by rewrite lookup_insert_eq.
Qed.

Lemma chained_set_start store p q a d ys end_ :
  NoDup ((a, d) :: ys).*1 -> chained store p ((a, d) :: ys) end_ ->
  chained (<[a := mk_link q (first_of ys end_) d]> store) q ((a, d) :: ys) end_.
Proof.
  csimpl. intros [Ha _]%NoDup_cons [_ Hc]. split; [by rewrite lookup_insert_eq|]. by apply chained_insert.
Qed.

Lemma fresh_address_spec l : lk_store l !! fresh_address l = None.
Proof.
  destruct (lk_store l !! fresh_address l) as [n|] eqn:E; [exfalso|done]. unfold fresh_address in E.
  assert (forall a m, lk_store l !! a = Some m -> a <= map_fold (fun a _ top => Z.max a top) 0 (lk_store l)) as H.
  { generalize (lk_store l). clear. intros store.
    apply (map_fold_weak_ind (fun top (store : gmap addr (link D)) => forall a m, store !! a = Some m -> a <= top)); [done|].
    intros i x m r Hi IH a n. destruct (decide (a = i)) as [->|Hne]; [lia|].
    rewrite lookup_insert_ne by done. intros Ha. specialize (IH a n Ha). lia. }
  specialize (H _ _ E). lia.
Qed.

Lemma fresh_address_in l xs : linked l xs -> fresh_address l ∉ xs.*1.
Proof.
  intros [_ _ _ Hc _] Hin. destruct (chained_lookup _ _ _ _ _ Hc Hin) as [n Hn].
  by rewrite fresh_address_spec in Hn.
Qed.

Lemma update_link_some a f l n :
  lk_store l !! a = Some n -> update_link (Some a) f l = Some (set_lk_store (<[a := f n]> (lk_store l)) l).
Proof. intros Hn. unfold update_link. cbn [mbind option_bind]. by rewrite Hn. Qed.

Lemma size_insert_present (store : gmap addr (link D)) a n m :
  store !! a = Some m -> size (<[a := n]> store) = size store.
Proof. intros Ha. by eapply map_size_insert_Some. Qed.

(** ** The pointer before a place, and the one behind it *)

(** What the list becomes when the pointer that leads behind [xs] is set to [p]. *)
Lemma set_before l xs ys start p :
  NoDup (xs ++ ys).*1 -> lk_head l = first_of xs start -> chained (lk_store l) None xs start ->
  exists l', (if is_null (last_of None xs) then Some (set_lk_head p l)
              else update_link (last_of None xs) (link_next p) l) = Some l' /\
    lk_head l' = first_of xs p /\ lk_tail l' = lk_tail l /\ chained (lk_store l') None xs p /\
    (forall a, a ∉ xs.*1 -> lk_store l' !! a = lk_store l !! a) /\ size (lk_store l') = size (lk_store l).
Proof.
  intros Hd Hh Hc. destruct (last_of None xs) as [b|] eqn:Hb.
  2: { apply last_of_none in Hb as ->. eexists. split_and!; [done..|]. done. }
  apply last_of_in in Hb as (zs & e & ->). cbn [is_null].
  assert (lk_store l !! b = Some (mk_link (last_of None zs) start e)) as Hn by (by eapply chained_middle in Hc).
  rewrite (update_link_some _ _ _ _ Hn). eexists. split; [done|]. cbn [lk_head lk_tail lk_store set_lk_store].
  rewrite fmap_app in Hd. apply NoDup_app in Hd as (Hd & _).
  split_and!; [|done| | |].
  - rewrite Hh. by destruct zs as [|[]].
  - by eapply chained_set_end.
  - intros a Ha. apply lookup_insert_ne. intros ->. apply Ha. rewrite fmap_app. set_solver.
  - by eapply size_insert_present.
Qed.

(** The same of the pointer that leads back from [ys]. *)
Lemma set_behind l xs ys end_ p :
  NoDup (xs ++ ys).*1 -> lk_tail l = last_of end_ ys -> chained (lk_store l) end_ ys None ->
  exists l', (if is_null (first_of ys None) then Some (set_lk_tail p l)
              else update_link (first_of ys None) (link_previous p) l) = Some l' /\
    lk_head l' = lk_head l /\ lk_tail l' = last_of p ys /\ chained (lk_store l') p ys None /\
    (forall a, a ∉ ys.*1 -> lk_store l' !! a = lk_store l !! a) /\ size (lk_store l') = size (lk_store l).
Proof.
  intros Hd Ht Hc. destruct ys as [|[b e] ys]; cbn [first_of fst is_null]; [by eexists|].
  pose proof Hc as [Hn _]. rewrite (update_link_some _ _ _ _ Hn). eexists. split; [done|].
  cbn [lk_head lk_tail lk_store set_lk_store]. rewrite fmap_app in Hd. apply NoDup_app in Hd as (_ & _ & Hd).
  split_and!; [done| | | |].
  - by rewrite Ht, !last_of_cons.
  - by eapply chained_set_start.
  - intros a Ha. apply lookup_insert_ne. intros ->. apply Ha. set_solver.
  - by eapply size_insert_present.
Qed.

(** ** In and out *)

Lemma insert_link_spec l xs ys a d :
  linked l (xs ++ ys) -> lk_store l !! a = None ->
  exists l', insert_link a d (last_of None xs) (first_of ys None) l = Some l' /\ linked l' (xs ++ (a, d) :: ys).
Proof.
  intros [Hd Hh Ht Hc Hs] Ha. pose proof Hc as [Hx Hy]%chained_app.
  assert (a ∉ xs.*1 /\ a ∉ ys.*1) as [Hax Hay].
  { split; intros Hin; [destruct (chained_lookup _ _ _ _ _ Hx Hin)|destruct (chained_lookup _ _ _ _ _ Hy Hin)]; congruence. }
  rewrite first_of_app in Hh. rewrite last_of_app in Ht. unfold insert_link.
  set (n := mk_link (last_of None xs) (first_of ys None) d).
  set (l0 := set_lk_store (<[a := n]> (lk_store l)) l).
  assert (forall start zs end_, a ∉ zs.*1 -> chained (lk_store l) start zs end_ -> chained (lk_store l0) start zs end_) as Hfr
    by (intros start zs end_; apply chained_insert).
  destruct (set_before l0 xs ys _ (Some a) Hd Hh (Hfr _ _ _ Hax Hx)) as (l1 & E1 & Hh1 & Ht1 & Hx1 & Hf1 & Hs1).
  rewrite E1. cbn [mbind option_bind].
  assert (forall b, b ∈ ys.*1 -> b ∉ xs.*1) as Hdis
    by (rewrite fmap_app in Hd; apply NoDup_app in Hd as (_ & Hd & _); intros b Hb Hb'; by apply (Hd b)).
  assert (chained (lk_store l1) (last_of None xs) ys None) as Hy1.
  { eapply chained_frame, Hfr, Hy; [|done]. intros b Hb. by apply Hf1, Hdis. }
  destruct (set_behind l1 xs ys _ (Some a) Hd (eq_trans Ht1 Ht) Hy1) as (l2 & E2 & Hh2 & Ht2 & Hy2 & Hf2 & Hs2).
  exists l2. split; [exact E2|]. split.
  - rewrite fmap_app in Hd |- *. csimpl. rewrite <- Permutation_middle. apply NoDup_cons. split; [|done]. set_solver.
  - by rewrite Hh2, Hh1, first_of_app.
  - by rewrite Ht2, last_of_app, last_of_cons.
  - apply chained_app. split; [|split; [|done]].
    + eapply chained_frame; [|exact Hx1]. intros b Hb. apply Hf2. intros Hb'. by apply (Hdis b).
    + rewrite Hf2, Hf1 by done. unfold l0. cbn [lk_store set_lk_store]. by rewrite lookup_insert_eq.
  - rewrite Hs2, Hs1. unfold l0. cbn [lk_store set_lk_store]. rewrite map_size_insert_None, Hs, !length_app by done. simpl. lia.
Qed.

Lemma unlink_link_spec l xs a d ys :
  linked l (xs ++ (a, d) :: ys) ->
  exists l', unlink_link a l = Some l' /\ linked (free_link a l') (xs ++ ys) /\
    link_at l' (Some a) = link_at l (Some a).
Proof.
  intros Hl. unfold unlink_link. rewrite (linked_middle _ _ _ _ _ Hl). cbn [mbind option_bind ln_previous ln_next].
  destruct Hl as [Hd Hh Ht Hc Hs]. pose proof Hc as [Hx [Ha Hy]]%chained_app.
  rewrite first_of_app in Hh. rewrite last_of_app, last_of_cons in Ht. cbn [fst] in Ht.
  assert (NoDup (xs ++ ys).*1 /\ a ∉ xs.*1 /\ a ∉ ys.*1) as (Hd' & Hax & Hay).
  { rewrite fmap_app in Hd |- *. csimpl in Hd. rewrite <- Permutation_middle in Hd. apply NoDup_cons in Hd as [? ?].
    split; [done|]. set_solver. }
  destruct (set_before l xs ys _ (first_of ys None) Hd' Hh Hx) as (l1 & E1 & Hh1 & Ht1 & Hx1 & Hf1 & Hs1).
  rewrite E1. cbn [mbind option_bind].
  assert (forall b, b ∈ ys.*1 -> b ∉ xs.*1) as Hdis
    by (rewrite fmap_app in Hd'; apply NoDup_app in Hd' as (_ & Hd' & _); intros b Hb Hb'; by apply (Hd' b)).
  assert (chained (lk_store l1) (Some a) ys None) as Hy1
    by (eapply chained_frame, Hy; intros b Hb; by apply Hf1, Hdis).
  destruct (set_behind l1 xs ys _ (last_of None xs) Hd' (eq_trans Ht1 Ht) Hy1) as (l2 & E2 & Hh2 & Ht2 & Hy2 & Hf2 & Hs2).
  assert (lk_store l2 !! a = lk_store l !! a) as Ea by (by rewrite Hf2, Hf1).
  exists l2. split_and!; [exact E2| |unfold link_at; cbn; by rewrite Ea]. split.
  - done.
  - cbn. by rewrite Hh2, Hh1, first_of_app.
  - cbn. by rewrite Ht2, last_of_app.
  - cbn. apply chained_app. split.
    + eapply chained_frame; [|exact Hx1]. intros b Hb. rewrite lookup_delete_ne by (by intros ->).
      apply Hf2. intros Hb'. by apply (Hdis b).
    + eapply chained_frame, Hy2. intros b Hb. by rewrite lookup_delete_ne by (by intros ->).
  - cbn. rewrite map_size_delete, Ea, Ha, Hs2, Hs1, Hs, !length_app. simpl. lia.
Qed.

(** The data of a cell changes. *)
Lemma linked_data l xs a d e ys :
  linked l (xs ++ (a, d) :: ys) ->
  exists l', update_link (Some a) (link_data e) l = Some l' /\ linked l' (xs ++ (a, e) :: ys).
Proof.
  intros [Hd Hh Ht Hc Hs]. pose proof Hc as [Hx [Ha Hy]]%chained_app.
  rewrite (update_link_some _ _ _ _ Ha). eexists. split; [done|].
  assert (a ∉ xs.*1 /\ a ∉ ys.*1) as [Hax Hay].
  { rewrite fmap_app in Hd. csimpl in Hd. rewrite <- Permutation_middle in Hd. apply NoDup_cons in Hd as [? ?]. set_solver. }
  split; cbn [lk_head lk_tail lk_store set_lk_store].
  - rewrite fmap_app in Hd |- *. done.
  - rewrite Hh. by rewrite !first_of_app.
  - rewrite Ht. by rewrite !last_of_app, !last_of_cons.
  - apply chained_app. split_and!; [by apply chained_insert|split; [by rewrite lookup_insert_eq|by apply chained_insert]].
  - erewrite size_insert_present by done. rewrite Hs, !length_app. done.
Qed.

End Pointers.
