(* ===== verification/CstlList.v ===== *)
(** The doubly linked list of cstl (cstl/src/list.c, cstl/include/cstl/list.h). *)

From S2P Require Import Prelude.
From S2P Require Import CMetaType.
From S2P Require Import CstlSupport.
From S2P Require Import CstlChain.

(** The fields of [list_impl_t] that only [list_initialize] sets. *)
Record list_config := mk_list_config {
  lc_elem_size : Z;
  lc_elem_stride : Z;
  lc_elem_align : Z;
  lc_element_limit : Z;
  lc_element_type : option cmeta_type_desc;
}.

(** [list_impl_t]: a cell carries the block its [value] points at and the object there. *)
Record list_impl_t (V : Type) := mk_list_impl {
  li_links : links (Z * cell V);
  li_size : Z;
  li_config : list_config;
}.
Arguments mk_list_impl {V}.
Arguments li_links {V}.
Arguments li_size {V}.
Arguments li_config {V}.

Record list_t (V : Type) := mk_list {
  lt_descriptor : option addr;
  lt_element_type : option cmeta_type_desc;
  lt_impl : option (list_impl_t V);
  lt_generation : Z;
}.
Arguments mk_list {V}.
Arguments lt_descriptor {V}.
Arguments lt_element_type {V}.
Arguments lt_impl {V}.
Arguments lt_generation {V}.

(** [owner] is the address of a list. *)
Record list_iter := mk_list_iter {
  it_owner : addr;
  it_node : option addr;
}.

(** [list_t temporary = {0}]. *)
Definition zero_list {V} : list_t V := mk_list None None None 0.

(** [sizeof (list_node_t)] and [sizeof (list_impl_t)]. *)
Definition sizeof_list_node : Z := 24.
Definition sizeof_list_impl : Z := 64.

Section List_.
Context {V U : Type} `{!ObjectTraits V U}.
(** The addresses of the descriptor of lists and of the list itself. *)
Context (list_desc self : addr).
#[local] Abbreviation list_ := (list_t V).
#[local] Abbreviation impl_t := (list_impl_t V).
Implicit Types m : list_.
Implicit Types handle : option list_.

Definition set_lt_impl (i : option impl_t) m : list_ :=
  mk_list (lt_descriptor m) (lt_element_type m) i (lt_generation m).
Definition set_lt_generation (generation : Z) m : list_ :=
  mk_list (lt_descriptor m) (lt_element_type m) (lt_impl m) generation.

(** A change of the implementation with [++list->generation]. *)
Definition list_changed (i : option impl_t) m : list_ :=
  set_lt_generation (size_inc (lt_generation m)) (set_lt_impl i m).

Definition set_li_links (l : links (Z * cell V)) (i : impl_t) : impl_t := mk_list_impl l (li_size i) (li_config i).
Definition set_li_size (size : Z) (i : impl_t) : impl_t := mk_list_impl (li_links i) size (li_config i).

Definition list_impl handle : option impl_t := m ← handle; lt_impl m.

Definition list_valid handle : bool :=
  match list_impl handle with None => false | Some i => negb (lc_elem_size (li_config i) =? 0) end.

(** The value of a new node; [calloc] of the node itself and a copy of the element in a
    block of its own. *)
Definition list_node_new (c : list_config) (elem : option V) : store U (stl_result (Z * cell V)) :=
  let* allocated := malloc sizeof_list_node in
  match allocated with
  | None => ret (StlFail STL_OUT_OF_MEMORY)
  | Some _ =>
      let* value := sequence_allocate 1 (lc_elem_stride c) (lc_elem_align c) in
      match value with
      | StlFail status => let* _ := free in ret (StlFail status)
      | StlOk data =>
          let* (status, object) := sequence_copy (lc_element_type c) Raw elem in
          if bool_decide (status = STL_OK) then
            let* block := reading data in ret (StlOk (block, object))
          else
            let* _ := sequence_deallocate data in
            let* _ := free in
            ret (StlFail status)
      end
  end.

Definition list_node_free (value : Z * cell V) : store U unit :=
  let* _ := sequence_deallocate (Some (fst value)) in free.

Definition list_initialize handle (element_type : option cmeta_type_desc) (elem_size elem_align limit : Z)
    : store U (stl_status * option list_) :=
  match handle with
  | None => ret (STL_INVALID_ARGUMENT, handle)
  | Some m =>
      if negb (is_null (lt_impl m)) then ret (STL_INVALID_ARGUMENT, handle)
      else
        match sequence_stride elem_size elem_align with
        | StlFail status => ret (status, handle)
        | StlOk stride =>
            let* allocated := malloc sizeof_list_impl in
            match allocated with
            | None => ret (STL_OUT_OF_MEMORY, handle)
            | Some _ =>
                let c := mk_list_config elem_size stride elem_align limit element_type in
                ret (STL_OK, Some (list_changed (Some (mk_list_impl no_links 0 c)) m))
            end
        end
  end.

Definition list_init_bytes handle (elem_size elem_align limit : Z) : store U (stl_status * option list_) :=
  list_initialize handle None elem_size elem_align limit.

Definition list_raw_init handle (element_type : option cmeta_type_desc) (limit : Z)
    : store U (stl_status * option list_) :=
  match handle with
  | None => ret (STL_INVALID_ARGUMENT, handle)
  | Some m =>
      if negb (is_null (lt_impl m)) then ret (STL_INVALID_ARGUMENT, handle)
      else
        let status := sequence_require_type element_type false in
        match element_type with
        | Some t =>
            if bool_decide (status = STL_OK)
            then list_initialize handle element_type (td_size t) (td_align t) limit
            else ret (status, handle)
        | None => ret (status, handle)
        end
  end.

Definition list_is_typed_semantic_zero handle : bool :=
  match handle with
  | None => false
  | Some m =>
      is_null (lt_impl m) && bool_decide (lt_descriptor m = Some list_desc) &&
      negb (is_null (lt_element_type m)) && cmeta_type_desc_valid (lt_element_type m)
  end.

(** The loop of [list_release_nodes]. *)
Fixpoint release_nodes (fuel : nat) (c : list_config) (l : links (Z * cell V)) (node : option addr)
    : store U (links (Z * cell V)) :=
  match node with
  | None => ret l
  | Some a =>
      match fuel with
      | O => reading None
      | S fuel =>
          let* n := reading (link_at l node) in
          let* (_, object) := sequence_destroy_value (lc_element_type c) (snd (ln_data n)) in
          let* _ := list_node_free (fst (ln_data n), object) in
          release_nodes fuel c (free_link a l) (ln_next n)
      end
  end.

(** It has more rounds than there are nodes. *)
Definition list_release_nodes (i : impl_t) : store U impl_t :=
  let l := li_links i in
  let* l := release_nodes (S (size (lk_store l))) (li_config i) l (lk_head l) in
  ret (set_li_size 0 (set_li_links (set_lk_tail None (set_lk_head None l)) i)).

Definition list_clear handle : store U (option list_) :=
  match handle, list_impl handle with
  | Some m, Some i =>
      if is_null (lk_head (li_links i)) then ret handle
      else let* i := list_release_nodes i in ret (Some (list_changed (Some i) m))
  | _, _ => ret handle
  end.

Definition list_raw_destroy_storage handle : store U (option list_) :=
  match handle, list_impl handle with
  | Some m, Some i =>
      let* _ := list_release_nodes i in
      let* _ := free in
      ret (Some (list_changed None m))
  | _, _ => ret handle
  end.

(** The handle after it, and whether it was initialised by it; the snapshot is the
    handle it was called with. *)
Definition list_materialize_for_mutation handle : store U (stl_status * option list_ * bool) :=
  if list_valid handle then ret (STL_OK, handle, false)
  else if negb (list_is_typed_semantic_zero handle) then ret (STL_INVALID_ARGUMENT, handle, false)
  else
    match handle with
    | None => ret (STL_INVALID_ARGUMENT, handle, false)
    | Some zero =>
        let* (status, made) := list_raw_init handle (lt_element_type zero) SIZE_MAX in
        if bool_decide (status = STL_OK)
        then ret (STL_OK, m ← made; Some (set_lt_generation (lt_generation zero) m), true)
        else ret (status, handle, false)
    end.

Definition list_rollback_materialization handle zero_snapshot (materialized : bool) : store U (option list_) :=
  if negb materialized then ret handle
  else let* _ := list_raw_destroy_storage handle in ret zero_snapshot.

(** The status, the list, and the iterator at the new node. *)
Definition list_insert_between handle (previous next : option addr) (elem : option V)
    : store U (stl_status * option list_ * option list_iter) :=
  match handle, list_impl handle with
  | Some m, Some i =>
      if is_null elem then ret (STL_INVALID_ARGUMENT, handle, None)
      else if lc_element_limit (li_config i) <=? li_size i then ret (STL_CAPACITY_EXCEEDED, handle, None)
      else
        let* made := list_node_new (li_config i) elem in
        match made with
        | StlFail status => ret (status, handle, None)
        | StlOk value =>
            let a := fresh_address (li_links i) in
            let* l := reading (insert_link a value previous next (li_links i)) in
            ret (STL_OK, Some (list_changed (Some (set_li_size (size_inc (li_size i)) (set_li_links l i))) m),
                 Some (mk_list_iter self (Some a)))
        end
  | _, _ => ret (STL_INVALID_ARGUMENT, handle, None)
  end.

(** What [list_push_front] and [list_push_back] share: the new node goes between the
    nodes [ends] names. *)
Definition list_push (ends : links (Z * cell V) -> option addr * option addr) handle (elem : option V)
    : store U (stl_status * option list_ * option list_iter) :=
  if is_null elem then ret (STL_INVALID_ARGUMENT, handle, None)
  else
    let* (status, made, materialized) := list_materialize_for_mutation handle in
    if bool_decide (status = STL_OK) then
      let* i := reading (list_impl made) in
      let (previous, next) := ends (li_links i) in
      let* (status, pushed, iterator) := list_insert_between made previous next elem in
      if bool_decide (status = STL_OK) then ret (STL_OK, pushed, iterator)
      else let* handle := list_rollback_materialization pushed handle materialized in ret (status, handle, None)
    else ret (status, made, None).

Definition list_push_front : option list_ -> option V -> store U (stl_status * option list_ * option list_iter) :=
  list_push (fun l => (None, lk_head l)).
Definition list_push_back : option list_ -> option V -> store U (stl_status * option list_ * option list_iter) :=
  list_push (fun l => (lk_tail l, None)).

Definition list_iterator_matches handle (position : list_iter) : bool :=
  list_valid handle && bool_decide (it_owner position = self) && negb (is_null (it_node position)).

Definition list_insert_before handle (position : list_iter) (elem : option V)
    : store U (stl_status * option list_ * option list_iter) :=
  if negb (list_iterator_matches handle position) then ret (STL_INVALID_ARGUMENT, handle, None)
  else
    let next := it_node position in
    let* n := reading (i ← list_impl handle; link_at (li_links i) next) in
    list_insert_between handle (ln_previous n) next elem.

Definition list_insert_after handle (position : list_iter) (elem : option V)
    : store U (stl_status * option list_ * option list_iter) :=
  if negb (list_iterator_matches handle position) then ret (STL_INVALID_ARGUMENT, handle, None)
  else
    let previous := it_node position in
    let* n := reading (i ← list_impl handle; link_at (li_links i) previous) in
    list_insert_between handle previous (ln_next n) elem.

(** [want] says whether the caller passed [out_elem], which is then the cell. *)
Definition list_remove_node handle (node : option addr) (want : bool)
    : store U (stl_status * option list_ * cell V) :=
  match handle, list_impl handle, node with
  | Some m, Some i, Some a =>
      let c := li_config i in
      let* n := reading (link_at (li_links i) node) in
      let (block, object) := ln_data n in
      let* (status, (out, object)) :=
        (if want then sequence_move_destroy (lc_element_type c) Raw object
         else let* (status, object) := sequence_destroy_value (lc_element_type c) object in
              ret (status, (Raw, object))) in
      if bool_decide (status = STL_OK) then
        let* l := reading (unlink_link a (li_links i)) in
        let* _ := list_node_free (block, object) in
        ret (STL_OK, Some (list_changed (Some (set_li_size (size_dec (li_size i)) (set_li_links (free_link a l) i))) m), out)
      else ret (status, handle, Raw)
  | _, _, _ => reading None
  end.

Definition list_erase handle (position : list_iter) (want : bool) : store U (stl_status * option list_ * cell V) :=
  if negb (list_iterator_matches handle position) then ret (STL_INVALID_ARGUMENT, handle, Raw)
  else list_remove_node handle (it_node position) want.

(** What [list_pop_front] and [list_pop_back] share. *)
Definition list_pop (end_ : links (Z * cell V) -> option addr) handle (want : bool)
    : store U (stl_status * option list_ * cell V) :=
  match list_impl handle with
  | None => ret (STL_INVALID_ARGUMENT, handle, Raw)
  | Some i =>
      if is_null (end_ (li_links i)) then ret (STL_EMPTY, handle, Raw)
      else list_remove_node handle (end_ (li_links i)) want
  end.

Definition list_pop_front : option list_ -> bool -> store U (stl_status * option list_ * cell V) := list_pop lk_head.
Definition list_pop_back : option list_ -> bool -> store U (stl_status * option list_ * cell V) := list_pop lk_tail.

(** * Construction from an array *)

(** [for (index = 0u; index < count; ++index)], with [fuel] rows left. *)
Fixpoint push_rows (temporary : option list_) (elements : list V) (index fuel : nat)
    : store U (stl_status * option list_) :=
  match fuel with
  | O => ret (STL_OK, temporary)
  | S fuel =>
      let* elem := reading (elements !! index) in
      let* (status, temporary, _) := list_push_back temporary (Some elem) in
      if bool_decide (status = STL_OK) then push_rows temporary elements (S index) fuel
      else let* temporary := list_raw_destroy_storage temporary in ret (status, temporary)
  end.

Definition list_from_common handle (elements : option (list V)) (count : nat) (limit : Z)
    (init : store U (stl_status * option list_)) : store U (stl_status * option list_) :=
  match handle with
  | None => ret (STL_INVALID_ARGUMENT, handle)
  | Some m =>
      if negb (is_null (lt_impl m)) then ret (STL_INVALID_ARGUMENT, handle)
      else if limit <? Z.of_nat count then ret (STL_CAPACITY_EXCEEDED, handle)
      else if negb (count =? 0)%nat && is_null elements then ret (STL_INVALID_ARGUMENT, handle)
      else
        let* (status, temporary) := init in
        if bool_decide (status = STL_OK) then
          let* (status, temporary) := push_rows temporary (default [] elements) 0 count in
          if bool_decide (status = STL_OK)
          then ret (STL_OK, set_lt_generation (size_inc (lt_generation m)) <$> temporary)
          else ret (status, handle)
        else ret (status, handle)
  end.

Definition list_raw_from_array handle (elements : option (list V)) (count : nat)
    (element_type : option cmeta_type_desc) (limit : Z) : store U (stl_status * option list_) :=
  if is_null element_type then ret (STL_INVALID_ARGUMENT, handle)
  else list_from_common handle elements count limit (list_raw_init (Some zero_list) element_type limit).

Definition list_from_array_bytes handle (elements : option (list V)) (count : nat)
    (elem_size elem_align limit : Z) : store U (stl_status * option list_) :=
  list_from_common handle elements count limit (list_init_bytes (Some zero_list) elem_size elem_align limit).

(** * The inline entry points *)

(** [made] with the descriptor and the type that [m] had. *)
Definition list_rebind m (made : option list_) : option list_ :=
  (fun t => mk_list (lt_descriptor m) (lt_element_type m) (lt_impl t) (lt_generation t)) <$> made.

Definition list_init handle (limit : Z) : store U (stl_status * option list_) :=
  match handle with
  | None => ret (STL_INVALID_ARGUMENT, handle)
  | Some m =>
      if is_null (lt_element_type m) then ret (STL_INVALID_ARGUMENT, handle)
      else let* (status, made) := list_raw_init handle (lt_element_type m) limit in ret (status, list_rebind m made)
  end.

Definition list_from_array handle (elements : option (list V)) (count : nat) (limit : Z)
    : store U (stl_status * option list_) :=
  match handle with
  | None => ret (STL_INVALID_ARGUMENT, handle)
  | Some m =>
      if is_null (lt_element_type m) then ret (STL_INVALID_ARGUMENT, handle)
      else
        let* (status, made) := list_raw_from_array handle elements count (lt_element_type m) limit in
        ret (status, list_rebind m made)
  end.

Definition list_destroy handle : store U (option list_) :=
  match handle with
  | None => ret handle
  | Some m => let* made := list_raw_destroy_storage handle in ret (list_rebind m made)
  end.

(** * Iterators and observers *)

Definition list_begin handle : list_iter :=
  mk_list_iter self (i ← list_impl handle; lk_head (li_links i)).
Definition list_end : list_iter := mk_list_iter self None.

(** [handle] is what the owner of the iterator points at. *)
Definition list_iter_next handle (iterator : option list_iter) : option (stl_status * option list_iter) :=
  match iterator, list_impl handle with
  | Some it, Some i =>
      if negb (list_valid handle) || is_null (it_node it) then Some (STL_NOT_FOUND, iterator)
      else n ← link_at (li_links i) (it_node it); Some (STL_OK, Some (mk_list_iter (it_owner it) (ln_next n)))
  | _, _ => Some (STL_NOT_FOUND, iterator)
  end.

Definition list_iter_prev handle (iterator : option list_iter) : option (stl_status * option list_iter) :=
  match iterator, list_impl handle with
  | Some it, Some i =>
      if negb (list_valid handle) then Some (STL_INVALID_ARGUMENT, iterator)
      else if is_null (it_node it) then
        if is_null (lk_tail (li_links i)) then Some (STL_NOT_FOUND, iterator)
        else Some (STL_OK, Some (mk_list_iter (it_owner it) (lk_tail (li_links i))))
      else
        n ← link_at (li_links i) (it_node it);
        if is_null (ln_previous n) then Some (STL_NOT_FOUND, iterator)
        else Some (STL_OK, Some (mk_list_iter (it_owner it) (ln_previous n)))
  | _, _ => Some (STL_INVALID_ARGUMENT, iterator)
  end.

Definition list_iter_equal (left right : list_iter) : bool :=
  bool_decide (it_owner left = it_owner right) && bool_decide (it_node left = it_node right).

(** The object at a node, or NULL. *)
Definition list_value_at handle (node : option addr) : option (option V) :=
  match list_impl handle, node with
  | Some i, Some _ => n ← link_at (li_links i) node; v ← cell_value (snd (ln_data n)); Some (Some v)
  | _, _ => Some None
  end.

Definition list_iter_value handle (iterator : list_iter) : option (option V) :=
  if negb (list_valid handle) || is_null (it_node iterator) then Some None
  else list_value_at handle (it_node iterator).
Definition list_iter_value_const : option list_ -> list_iter -> option (option V) := list_iter_value.

Definition list_front handle : option (option V) := list_value_at handle (i ← list_impl handle; lk_head (li_links i)).
Definition list_front_const : option list_ -> option (option V) := list_front.
Definition list_back handle : option (option V) := list_value_at handle (i ← list_impl handle; lk_tail (li_links i)).
Definition list_back_const : option list_ -> option (option V) := list_back.

Definition list_size handle : Z := match list_impl handle with None => 0 | Some i => li_size i end.
Definition list_generation handle : Z := match handle with None => 0 | Some m => lt_generation m end.
Definition list_empty handle : bool := list_size handle =? 0.

(** The object, if there is one, and the cursor. *)
Definition list_range_next handle (cursor : option range_cursor) : option (option V * option range_cursor) :=
  match list_impl handle, cursor with
  | Some i, Some c =>
      if negb (is_null (cur_owner c)) && negb (bool_decide (cur_owner c = Some self))
      then Some (None, cursor)
      else
        let node := if is_null (cur_owner c) then lk_head (li_links i) else cur_node c in
        let c := mk_range_cursor (cur_node c) (Some self) in
        if is_null node then Some (None, Some c)
        else
          n ← link_at (li_links i) node;
          v ← cell_value (snd (ln_data n));
          Some (Some v, Some (mk_range_cursor (ln_next n) (Some self)))
  | _, _ => Some (None, cursor)
  end.

End List_.
