(* ===== verification/CstlListTheorems.v ===== *)
(** The doubly linked list of cstl is a list of named places: whatever operations are called
    on it, an iterator stays at its element until that element goes, every answer is one that
    the list of elements gives, and a failure changes nothing. *)

From S2P Require Import Prelude.
From S2P Require Import CMetaType.
From S2P Require Import CstlSupport.
From S2P Require Import CstlObjects.
From S2P Require Import CstlSequenceSpecs.
From S2P Require Import CstlChain.
From S2P Require Import CstlList.

(** * Lists that hold elements at places *)

Section Invariant.
Context {V U : Type} `{HV : ObjectTraits V U} `{!TraitLaws V U}.
Context (list_desc self : addr).
Implicit Types w : object_world U.
Implicit Types m : list_t V.
Implicit Types xs : list (addr * V).
Implicit Types ys : list (addr * (Z * cell V)).

(** Settings that initialisation accepted. *)
Record list_config_ok (c : list_config) : Prop := {
  lo_size : 0 < lc_elem_size c;
  lo_stride : 0 < lc_elem_stride c <= SIZE_MAX;
  lo_align : is_size (lc_elem_align c) /\ sequence_alignment_valid (lc_elem_align c) = true;
  lo_limit : is_size (lc_element_limit c);
  lo_type : supports (lc_element_type c) element_traits;
}.

Lemma list_supports c flags :
  list_config_ok c -> flags <> 0 -> Z.land element_traits flags = flags -> supports (lc_element_type c) flags.
Proof.
  intros Hc Hf Hl. pose proof (lo_type c Hc) as Ht. destruct (lc_element_type c) as [t|]; [|done].
  by apply (require_traits_sub t element_traits).
Qed.

(** The cells [ys] hold the elements [xs]. *)
Definition holds ys xs : Prop := Forall2 (fun y x => fst y = fst x /\ snd (snd y) = Live (snd x)) ys xs.

Record impl_inv (i : list_impl_t V) ys xs : Prop := {
  ii_config : list_config_ok (li_config i);
  ii_links : linked (li_links i) ys;
  ii_holds : holds ys xs;
  ii_size : li_size i = Z.of_nat (length xs);
  ii_room : Z.of_nat (length xs) <= lc_element_limit (li_config i);
}.

(** A handle that is only bound to a type that can be stored. *)
Record list_bound m : Prop := {
  lb_zero : list_is_typed_semantic_zero list_desc (Some m) = true;
  lb_sizes : element_sizes (lt_element_type m);
  lb_type : sequence_require_type (lt_element_type m) false = STL_OK;
  lb_stride : forall t, lt_element_type m = Some t -> exists s, sequence_stride (td_size t) (td_align t) = StlOk s;
}.

Definition list_inv m (ready : bool) xs : Prop :=
  if ready then exists i ys, lt_impl m = Some i /\ impl_inv i ys xs
  else list_bound m /\ xs = [].

Definition list_limit m : Z :=
  match lt_impl m with Some i => lc_element_limit (li_config i) | None => SIZE_MAX end.
Definition list_type m : option cmeta_type_desc :=
  match lt_impl m with Some i => lc_element_type (li_config i) | None => lt_element_type m end.

(** What a list owns: a block for itself and two for each element. *)
Definition list_blocks m : Z := match lt_impl m with Some i => 1 + 2 * li_size i | None => 0 end.
Definition list_objects m : Z :=
  match lt_impl m with Some i => li_size i * typed (lc_element_type (li_config i)) | None => 0 end.

Record list_kept m m' : Prop := {
  lk_descriptor : lt_descriptor m' = lt_descriptor m;
  lk_element_type : lt_element_type m' = lt_element_type m;
  lk_limit : list_limit m' = list_limit m;
  lk_type : list_type m' = list_type m;
}.

#[export] Instance list_kept_preorder : PreOrder list_kept.
Proof. split; [by split|]. intros m1 m2 m3 [] []. split; congruence. Qed.

Lemma list_valid_ready m xs : list_inv m true xs -> list_valid (Some m) = true.
Proof.
  intros (i & ys & Hi & Hok). unfold list_valid, list_impl. cbn [mbind option_bind]. rewrite Hi.
  pose proof (lo_size _ (ii_config _ _ _ Hok)). by rewrite (proj2 (Z.eqb_neq _ _)) by lia.
Qed.

Lemma bound_impl m : list_bound m -> lt_impl m = None.
Proof.
  intros [Hz _ _ _]. unfold list_is_typed_semantic_zero in Hz. rewrite !andb_true_iff in Hz.
  by destruct Hz as [[[?%is_null_true _] _] _].
Qed.

(** ** The cells of the elements *)

Lemma holds_names ys xs : holds ys xs -> ys.*1 = xs.*1.
Proof. induction 1 as [|y x ys xs [E _] _ IH]; csimpl; [done|]. by rewrite E, IH. Qed.

Lemma holds_length ys xs : holds ys xs -> length ys = length xs.
Proof. apply Forall2_length. Qed.

Lemma holds_middle ys xs1 a v xs2 :
  holds ys (xs1 ++ (a, v) :: xs2) ->
  exists ys1 b ys2, ys = ys1 ++ (a, (b, Live v)) :: ys2 /\ holds ys1 xs1 /\ holds ys2 xs2.
Proof.
  intros (ys1 & k & H1 & H2 & ->)%Forall2_app_inv_r.
  apply Forall2_cons_inv_r in H2 as ([c [b o]] & ys2 & [Hc Ho] & H2 & ->). simpl in Hc, Ho. subst.
  by exists ys1, b, ys2.
Qed.

Lemma holds_split ys xs1 xs2 :
  holds ys (xs1 ++ xs2) -> exists ys1 ys2, ys = ys1 ++ ys2 /\ holds ys1 xs1 /\ holds ys2 xs2.
Proof. intros (ys1 & ys2 & H1 & H2 & ->)%Forall2_app_inv_r. by exists ys1, ys2. Qed.

(** The address of the first place, of the last one. *)
Definition first_place xs (end_ : option addr) : option addr := match xs with [] => end_ | x :: _ => Some (fst x) end.
Definition last_place (start : option addr) xs : option addr := match last xs with None => start | Some x => Some (fst x) end.

Lemma holds_first ys xs end_ : holds ys xs -> first_of ys end_ = first_place xs end_.
Proof. intros H. inversion H as [|y x ? ? [E _]]; subst; simpl; by rewrite ?E. Qed.

Lemma holds_last ys xs start : holds ys xs -> last_of start ys = last_place start xs.
Proof.
  intros H. unfold last_of, last_place. induction H as [|y x ys xs [E _] Hh IH]; [done|].
  inversion Hh; subst; simpl; [by rewrite E|]. exact IH.
Qed.

(** * What changes the list *)

Lemma list_node_new_spec c v w :
  list_config_ok c ->
  wp (list_node_new c (Some v)) (fun r w' =>
    (exists b, r = StlOk (b, Live v) /\ delta w w' 2 (typed (lc_element_type c))) \/
    (exists status, r = StlFail status /\ no_room status /\ delta w w' 0 0)) w.
Proof.
  intros Hc. destruct (lo_align c Hc) as [Ha Hav]. unfold list_node_new.
  eapply wp_bind_mono; [apply malloc_spec|]. intros [n|] w1 H1; simpl in H1.
  2: { apply wp_ret. right. eexists. split_and!; [done|by left|done]. }
  eapply wp_bind_mono; [apply allocate_spec; try done; apply Hc|].
  intros [data|status] w2; [intros [[b ->] H2]|intros [Hn H2]].
  2: { eapply wp_bind_mono; [apply free_spec|]. intros ? w3 H3. apply wp_ret. right. exists status.
       split_and!; [done|done|solve_delta]. }
  eapply wp_bind_mono; [apply sequence_copy_spec; by apply list_supports|].
  intros r w3 [[-> H3]|[-> H3]].
  - rewrite bool_decide_true by done. eapply wp_bind, wp_reading; [done|]. apply wp_ret. left. exists b.
    split; [done|]. solve_delta.
  - rewrite bool_decide_false by done. eapply wp_bind_mono; [apply deallocate_spec|]. intros ? w4 H4.
    eapply wp_bind_mono; [apply free_spec|]. intros ? w5 H5. apply wp_ret. right. eexists.
    split_and!; [done|by left|solve_delta].
Qed.

Lemma list_node_free_spec (b : Z) (object : cell V) w : wp (list_node_free (b, object)) (fun _ w' => delta w w' (-2) 0) w.
Proof.
  eapply wp_bind_mono; [apply deallocate_spec|]. intros ? w1 H1. eapply wp_mono; [apply free_spec|].
  intros ? w2 H2. solve_delta.
Qed.

(** A new element between two places. *)
Lemma insert_between_spec m xs1 xs2 v w :
  list_inv m true (xs1 ++ xs2) ->
  wp (list_insert_between self (Some m) (last_place None xs1) (first_place xs2 None) (Some v)) (fun r w' =>
    (exists m' a, r = (STL_OK, Some m', Some (mk_list_iter self (Some a))) /\
       list_inv m' true (xs1 ++ (a, v) :: xs2) /\ list_kept m m' /\ a ∉ (xs1 ++ xs2).*1 /\
       Z.of_nat (length (xs1 ++ xs2)) < list_limit m /\
       delta w w' (list_blocks m' - list_blocks m) (list_objects m' - list_objects m)) \/
    (exists status, r = (status, Some m, None) /\ no_room status /\
       (list_limit m <= Z.of_nat (length (xs1 ++ xs2)) -> status = STL_CAPACITY_EXCEEDED) /\ delta w w' 0 0)) w.
Proof.
  intros (i & ys & Hi & Hok). pose proof (ii_config _ _ _ Hok) as Hc. pose proof (ii_size _ _ _ Hok) as Hs.
  unfold list_insert_between, list_impl, list_limit, list_blocks, list_objects. cbn [mbind option_bind]. rewrite Hi.
  cbn [is_null]. destruct (lc_element_limit (li_config i) <=? li_size i) eqn:Hl; destruct_bools.
  { apply wp_ret. right. eexists. split_and!; [done|by right|done|apply delta_refl]. }
  eapply wp_bind_mono; [by apply list_node_new_spec|].
  intros r w1 [(b & -> & H1)|(status & -> & Hn & H1)].
  2: { apply wp_ret. right. exists status. split_and!; [done|done|lia|done]. }
  destruct (holds_split _ _ _ (ii_holds _ _ _ Hok)) as (ys1 & ys2 & -> & Hy1 & Hy2).
  rewrite <- (holds_last _ _ _ Hy1), <- (holds_first _ _ _ Hy2). set (a := fresh_address (li_links i)).
  destruct (insert_link_spec (li_links i) ys1 ys2 a (b, Live v) (ii_links _ _ _ Hok) (fresh_address_spec _))
    as (l' & El & Hl').
  eapply wp_bind, wp_reading; [exact El|]. apply wp_ret. left. eexists _, a. split; [done|].
  pose proof (lo_limit _ Hc). unfold is_size in *.
  split_and!; cbn [lt_impl list_changed set_lt_generation set_lt_impl li_size li_config set_li_size set_li_links].
  - eexists _, (ys1 ++ (a, (b, Live v)) :: ys2). split; [done|]. rewrite length_app in *.
    split; cbn [li_links li_size li_config set_li_size set_li_links]; rewrite ?length_app; cbn [length]; try done.
    + by apply Forall2_app; [|constructor].
    + rewrite Hs. rewrite size_inc_small by lia. lia.
    + lia.
  - split; try done; unfold list_limit, list_type; cbn; by rewrite Hi.
  - rewrite <- (holds_names _ _ (ii_holds _ _ _ Hok)). apply (fresh_address_in _ _ (ii_links _ _ _ Hok)).
  - lia.
  - rewrite size_inc_small by lia. solve_delta.
Qed.

(** The element at a place goes. *)
Lemma remove_node_spec m xs1 a v xs2 (want : bool) w :
  list_inv m true (xs1 ++ (a, v) :: xs2) ->
  wp (list_remove_node (Some m) (Some a) want) (fun r w' =>
    exists m', r = (STL_OK, Some m', if want then Live v else Raw) /\ list_inv m' true (xs1 ++ xs2) /\
      list_kept m m' /\
      delta w w' (list_blocks m' - list_blocks m)
        (list_objects m' - list_objects m + (if want then typed (list_type m) else 0))) w.
Proof.
  intros (i & ys & Hi & Hok). pose proof (ii_config _ _ _ Hok) as Hc. pose proof (ii_size _ _ _ Hok) as Hs.
  destruct (holds_middle _ _ _ _ _ (ii_holds _ _ _ Hok)) as (ys1 & b & ys2 & -> & Hy1 & Hy2).
  unfold list_remove_node, list_impl, list_type, list_blocks, list_objects. cbn [mbind option_bind]. rewrite Hi.
  eapply wp_bind, wp_reading; [by eapply linked_middle, (ii_links _ _ _ Hok)|]. cbn [ln_data].
  assert (wp (U := U) (if want then sequence_move_destroy (lc_element_type (li_config i)) Raw (Live v)
       else let* (status, object) := sequence_destroy_value (lc_element_type (li_config i)) (Live v) in
            ret (status, (Raw, object)))
    (fun r w' => r = (STL_OK, (if want then Live v else Raw, ended (lc_element_type (li_config i)) (Live v))) /\
       delta w w' 0 (if want then 0 else - typed (lc_element_type (li_config i)))) w) as Htake.
  { destruct want.
    - eapply wp_mono; [apply sequence_move_destroy_spec; [by apply list_supports|by destruct (lc_element_type _)]|].
      intros r w1 [-> H1]. done.
    - eapply wp_bind_mono; [apply sequence_destroy_value_spec; [by apply list_supports|by left]|].
      intros r w1 [-> H1]. by apply wp_ret. }
  eapply wp_bind_mono; [exact Htake|]. intros r w1 [-> H1]. rewrite bool_decide_true by done.
  destruct (unlink_link_spec _ _ _ _ _ (ii_links _ _ _ Hok)) as (l' & El & Hl' & _).
  eapply wp_bind, wp_reading; [exact El|]. eapply wp_bind_mono; [apply list_node_free_spec|]. intros ? w2 H2.
  apply wp_ret. eexists. split; [done|].
  pose proof (ii_room _ _ _ Hok) as Hr. pose proof (lo_limit _ Hc). unfold is_size in *.
  rewrite length_app in *. cbn [length] in *.
  assert (size_dec (li_size i) = li_size i - 1) as Hdec by (apply size_dec_small; lia).
  split_and!; cbn [lt_impl list_changed set_lt_generation set_lt_impl li_size li_config set_li_size set_li_links].
  - eexists _, (ys1 ++ ys2). split; [done|].
    split; cbn [li_links li_size li_config set_li_size set_li_links]; rewrite ?length_app; try done; [|lia|lia].
    by apply Forall2_app.
  - split; try done; unfold list_limit, list_type; cbn; by rewrite Hi.
  - rewrite Hdec. destruct want; solve_delta.
Qed.

(** All elements go. *)
Lemma release_nodes_spec c fuel l start ys xs w :
  list_config_ok c -> NoDup ys.*1 -> chained (lk_store l) start ys None -> size (lk_store l) = length ys ->
  holds ys xs -> (length xs < fuel)%nat ->
  wp (release_nodes fuel c l (first_of ys None)) (fun l' w' =>
    lk_store l' = ∅ /\
    delta w w' (- (2 * Z.of_nat (length xs))) (- (Z.of_nat (length xs) * typed (lc_element_type c)))) w.
Proof.
  intros Hc. revert l start ys xs w. induction fuel as [|fuel IH]; intros l start ys xs w Hd Hch Hs Hh Hf; [lia|].
  destruct Hh as [|[a [b o]] [a' v] ys xs [E1 E2] Hh]; [|simpl in E1, E2; subst].
  { apply wp_ret. split; [by apply map_size_empty_inv|apply delta_refl]. }
  csimpl in Hd. apply NoDup_cons in Hd as [Ha Hd]. destruct Hch as [Hn Hch]. simpl in Hs, Hf.
  cbn [release_nodes first_of fst]. eapply wp_bind, wp_reading; [exact Hn|]. cbn [ln_data ln_next fst snd].
  eapply wp_bind_mono; [apply sequence_destroy_value_spec; [by apply list_supports|by left]|].
  intros r w1 [-> H1]. eapply wp_bind_mono; [apply list_node_free_spec|]. intros ? w2 H2.
  eapply wp_mono; [eapply (IH (free_link a' l) (Some a') ys xs); [done| | |done|lia]|].
  - eapply chained_frame, Hch. intros q Hq. cbn. by rewrite lookup_delete_ne by (by intros ->).
  - cbn. rewrite map_size_delete, Hn. lia.
  - intros l' w3 [El H3]. split; [done|]. cbn [length]. solve_delta.
Qed.

Lemma list_release_spec i ys xs w :
  impl_inv i ys xs ->
  wp (list_release_nodes i) (fun i' w' => impl_inv i' [] [] /\ li_config i' = li_config i /\
    delta w w' (- (2 * li_size i)) (- (li_size i * typed (lc_element_type (li_config i))))) w.
Proof.
  intros [Hc [Hd Hf _ Hch Hn] Hh Hs Hr]. unfold list_release_nodes. rewrite Hf, Hs.
  pose proof (holds_length _ _ Hh) as Hlen.
  eapply wp_bind_mono; [eapply (release_nodes_spec _ _ _ _ ys xs); try done; lia|].
  intros l w1 [El H1]. apply wp_ret. split_and!; [|done|done].
  split; cbn; try done; [|constructor|destruct (lo_limit _ Hc); lia].
  split; cbn; try done; [apply NoDup_nil_2|by rewrite El].
Qed.

Lemma list_clear_spec m (ready : bool) xs w :
  list_inv m ready xs ->
  wp (list_clear (Some m)) (fun r w' => exists m', r = Some m' /\ list_inv m' ready [] /\ list_kept m m' /\
    delta w w' (list_blocks m' - list_blocks m) (list_objects m' - list_objects m)) w.
Proof.
  intros Hm. unfold list_clear, list_impl. cbn [mbind option_bind]. destruct ready.
  2: { destruct Hm as [Hb ->]. rewrite (bound_impl m Hb). apply wp_ret. exists m. rewrite !Z.sub_diag.
       split_and!; [done|done|done|apply delta_refl]. }
  destruct Hm as (i & ys & Hi & Hok). rewrite Hi. unfold list_blocks, list_objects. rewrite Hi.
  destruct (is_null (lk_head (li_links i))) eqn:Hn.
  - apply wp_ret. exists m. rewrite Hi, !Z.sub_diag. split_and!; [done| |done|apply delta_refl].
    apply is_null_true in Hn. pose proof (lk_first _ _ (ii_links _ _ _ Hok)) as Hf. rewrite Hn in Hf.
    destruct ys as [|[]]; [|done]. pose proof (ii_holds _ _ _ Hok) as Hh. inversion Hh; subst. by exists i, [].
  - eapply wp_bind_mono; [by eapply list_release_spec|]. intros i' w1 (Hi' & Hcfg & H1). apply wp_ret.
    eexists. split; [done|]. split_and!.
    + by exists i', [].
    + split; try done; unfold list_limit, list_type; cbn; by rewrite Hi, Hcfg.
    + cbn. pose proof (ii_size _ _ _ Hi') as Hz. simpl in Hz. rewrite Hz, Hcfg. solve_delta.
Qed.

Lemma list_destroy_spec m (ready : bool) xs w :
  list_inv m ready xs ->
  wp (list_raw_destroy_storage (Some m)) (fun r w' => exists m', r = Some m' /\ lt_impl m' = None /\
    delta w w' (- list_blocks m) (- list_objects m)) w.
Proof.
  intros Hm. unfold list_raw_destroy_storage, list_impl, list_blocks, list_objects. cbn [mbind option_bind].
  destruct ready.
  2: { destruct Hm as [Hb ->]. rewrite (bound_impl m Hb). apply wp_ret. exists m.
       split_and!; [done|by apply bound_impl|apply delta_refl]. }
  destruct Hm as (i & ys & Hi & Hok). rewrite Hi.
  eapply wp_bind_mono; [by eapply list_release_spec|]. intros i' w1 (Hi' & Hcfg & H1).
  eapply wp_bind_mono; [apply free_spec|]. intros ? w2 H2. apply wp_ret. eexists. split_and!; [done|done|solve_delta].
Qed.

(** * Initialisation *)

Lemma list_initialize_spec m type elem_size elem_align limit w :
  lt_impl m = None -> is_size elem_size -> is_size elem_align -> is_size limit -> supports type element_traits ->
  wp (list_initialize (Some m) type elem_size elem_align limit) (fun r w' =>
    (exists m', r = (STL_OK, Some m') /\ list_inv m' true [] /\ lt_descriptor m' = lt_descriptor m /\
       lt_element_type m' = lt_element_type m /\ list_limit m' = limit /\ list_type m' = type /\ delta w w' 1 0 /\
       list_blocks m' = 1 /\ list_objects m' = 0) \/
    (exists status, r = (status, Some m) /\ delta w w' 0 0 /\
       (status = STL_OUT_OF_MEMORY \/ sequence_stride elem_size elem_align = StlFail status /\ status <> STL_OK))) w.
Proof.
  intros Hn Hes Hea Hl Ht. unfold list_initialize. rewrite Hn. cbn [is_null negb].
  pose proof (sequence_stride_spec elem_size elem_align Hes Hea) as Hs.
  destruct (sequence_stride elem_size elem_align) as [stride|status].
  2: { apply wp_ret. right. exists status. split_and!; [done|apply delta_refl|right].
       by destruct Hs as [[-> _]|[-> _]]. }
  destruct Hs as (H0 & Hst & Hsm & Hal & Hav).
  eapply wp_bind_mono; [apply malloc_spec|]. intros [a|] w1 H1; simpl in H1; apply wp_ret.
  - left. eexists. split; [done|]. unfold list_limit, list_type, list_blocks, list_objects.
    split_and!; cbn; try done. eexists _, []. split; [done|].
    split; cbn; [|apply linked_nil|constructor|done|unfold is_size in *; lia]. split; cbn; unfold is_size in *; (done || lia).
  - right. eexists. split_and!; [done|done|by left].
Qed.

Lemma list_raw_init_spec m type limit w :
  lt_impl m = None -> element_sizes type -> is_size limit ->
  wp (list_raw_init (Some m) type limit) (fun r w' =>
    (exists m', r = (STL_OK, Some m') /\ list_inv m' true [] /\ lt_descriptor m' = lt_descriptor m /\
       lt_element_type m' = lt_element_type m /\ list_limit m' = limit /\ list_type m' = type /\ delta w w' 1 0 /\
       list_blocks m' = 1 /\ list_objects m' = 0) \/
    (exists status, r = (status, Some m) /\ status <> STL_OK /\ delta w w' 0 0 /\
       (sequence_require_type type false = STL_OK ->
        (forall t, type = Some t -> exists s, sequence_stride (td_size t) (td_align t) = StlOk s) ->
        status = STL_OUT_OF_MEMORY))) w.
Proof.
  intros Hn Hs Hl. unfold list_raw_init. rewrite Hn. cbn [is_null negb].
  destruct type as [t|].
  2: { apply wp_ret. right. eexists. split_and!; [done|done|apply delta_refl|done]. }
  destruct (bool_decide _) eqn:Hr.
  2: { apply bool_decide_eq_false in Hr. apply wp_ret. right. eexists. split_and!; [done|done|apply delta_refl|done]. }
  apply bool_decide_eq_true in Hr. pose proof (require_type_spec t false Hr) as Hq. destruct Hs as [Hs1 Hs2].
  eapply wp_mono; [by apply (list_initialize_spec m (Some t) (td_size t) (td_align t) limit)|].
  intros r w' [Hok|(status & -> & H1 & Hor)]; [by left|right]. exists status.
  split_and!; [done|by destruct Hor as [->|[_ ?]]|done|].
  intros _ Hst. destruct Hor as [?|[E _]]; [done|]. destruct (Hst t eq_refl) as [s E']. congruence.
Qed.

(** ** Handles that are only bound *)

(** What materialization leaves. *)
Record list_made m (ready : bool) xs m1 (materialized : bool) : Prop := {
  lm_inv : list_inv m1 true xs;
  lm_kept : list_kept m m1;
  lm_ready : materialized = negb ready;
  lm_same : materialized = false -> m1 = m;
  lm_owned : materialized = true -> list_blocks m = 0 /\ list_objects m = 0 /\ list_blocks m1 = 1 /\ list_objects m1 = 0;
}.

Lemma list_materialize_spec m (ready : bool) xs w :
  list_inv m ready xs ->
  wp (list_materialize_for_mutation list_desc (Some m)) (fun r w' =>
    (exists m1 b, r = (STL_OK, Some m1, b) /\ list_made m ready xs m1 b /\ delta w w' (if b then 1 else 0) 0) \/
    (r = (STL_OUT_OF_MEMORY, Some m, false) /\ ready = false /\ delta w w' 0 0)) w.
Proof.
  intros Hm. unfold list_materialize_for_mutation. destruct ready.
  { rewrite (list_valid_ready _ _ Hm). apply wp_ret. left. exists m, false. split_and!; [done|by split|apply delta_refl]. }
  pose proof Hm as [Hb ->]. pose proof (bound_impl m Hb) as Hi.
  assert (list_valid (Some m) = false) as -> by (unfold list_valid, list_impl; cbn; by rewrite Hi).
  rewrite (lb_zero m Hb). cbn [negb].
  eapply wp_bind_mono; [apply list_raw_init_spec; [done|apply Hb|done]|].
  intros r w1 [(m' & -> & Hinv & Hd & Ht & Hl & Hty & H1 & Hbl & Hob)|(status & -> & Hs & H1 & Hwhy)].
  - rewrite bool_decide_true by done. apply wp_ret. left. eexists _, true. split; [done|]. split; [|done].
    assert (list_blocks m = 0 /\ list_objects m = 0) as [B0 O0] by (unfold list_blocks, list_objects; by rewrite Hi).
    split; cbn; try done.
    split; cbn; [done..| |]; unfold list_limit, list_type in *; cbn; by rewrite Hi.
  - rewrite bool_decide_false by done. apply wp_ret. right.
    rewrite (Hwhy (lb_type m Hb) (lb_stride m Hb)). done.
Qed.

Lemma list_rollback_spec m (ready : bool) xs m1 b w :
  list_made m ready xs m1 b ->
  wp (list_rollback_materialization (Some m1) (Some m) b) (fun r w' =>
    r = Some m /\ delta w w' (if b then -1 else 0) 0) w.
Proof.
  intros [Hi _ _ Hsame Hown]. unfold list_rollback_materialization. destruct b; cbn [negb].
  - destruct (Hown eq_refl) as (_ & _ & Hb & Ho). eapply wp_bind_mono; [by eapply list_destroy_spec|].
    intros r w1 (m' & -> & _ & H1). apply wp_ret. split; [done|]. solve_delta.
  - rewrite Hsame by done. apply wp_ret. split; [done|apply delta_refl].
Qed.

(** What an insertion may come to. *)
Definition list_inserted m (ready : bool) xs1 v xs2 (r : stl_status * option (list_t V) * option list_iter) w w' : Prop :=
  (exists m' a, r = (STL_OK, Some m', Some (mk_list_iter self (Some a))) /\
     list_inv m' true (xs1 ++ (a, v) :: xs2) /\ list_kept m m' /\ a ∉ (xs1 ++ xs2).*1 /\
     Z.of_nat (length (xs1 ++ xs2)) < list_limit m /\
     delta w w' (list_blocks m' - list_blocks m) (list_objects m' - list_objects m)) \/
  (exists status, r = (status, Some m, None) /\ no_room status /\
     (ready = true -> list_limit m <= Z.of_nat (length (xs1 ++ xs2)) -> status = STL_CAPACITY_EXCEEDED) /\ delta w w' 0 0).

(** A push between the ends the code names. *)
Lemma list_push_spec ends m (ready : bool) xs1 xs2 v w :
  list_inv m ready (xs1 ++ xs2) ->
  (forall i ys, impl_inv i ys (xs1 ++ xs2) -> ends (li_links i) = (last_place None xs1, first_place xs2 None)) ->
  wp (list_push list_desc self ends (Some m) (Some v)) (fun r w' => list_inserted m ready xs1 v xs2 r w w') w.
Proof.
  intros Hm He. unfold list_push. cbn [is_null].
  eapply wp_bind_mono; [by eapply list_materialize_spec|].
  intros r w1 [(m1 & b & -> & Hmade & H1)|(-> & -> & H1)].
  2: { rewrite bool_decide_false by done. apply wp_ret. right. eexists. split_and!; [done|by left|done|done]. }
  rewrite bool_decide_true by done. pose proof Hmade as [Hm1 Hk Hrd Hsame Hown].
  pose proof Hm1 as (i & ys & Hi & Hok).
  eapply wp_bind, wp_reading; [exact Hi|]. rewrite (He i ys Hok).
  eapply wp_bind_mono; [apply insert_between_spec; by exists i, ys|].
  assert (list_blocks m1 - list_blocks m = (if b then 1 else 0) /\ list_objects m1 - list_objects m = 0) as [Hb0 Ho0].
  { destruct b; [destruct (Hown eq_refl); lia|]. rewrite (Hsame eq_refl). lia. }
  intros r w2 [(m' & a & -> & Hm' & Hk' & Ha & Hlt & H2)|(status & -> & Hn & Hfull & H2)].
  - rewrite bool_decide_true by done. apply wp_ret. left. exists m', a. rewrite <- (lk_limit _ _ Hk).
    split_and!; [done|done|by etransitivity|done|done|solve_delta].
  - rewrite bool_decide_false by (by destruct Hn as [-> | ->]).
    eapply wp_bind_mono; [by eapply list_rollback_spec|]. intros r w3 [-> H3]. apply wp_ret.
    right. exists status. split_and!; [done|done|intros _; by rewrite <- (lk_limit _ _ Hk)|destruct b; solve_delta].
Qed.

End Invariant.

(** * Calls and their answers *)

(** A client keeps the iterators it got, in order, and names one by its position; a position
    beyond them is the end iterator.  [want] asks for the object that goes. *)
Inductive list_call (V : Type) :=
  | ListPushFront (value : V)
  | ListPushBack (value : V)
  | ListInsertBefore (h : nat) (value : V)
  | ListInsertAfter (h : nat) (value : V)
  | ListErase (h : nat) (want : bool)
  | ListPopFront (want : bool)
  | ListPopBack (want : bool)
  | ListValue (h : nat)
  | ListNext (h : nat)
  | ListPrev (h : nat)
  | ListForward
  | ListBackward
  | ListFront
  | ListBack
  | ListSize
  | ListClear.
Arguments ListPushFront {V} value.
Arguments ListPushBack {V} value.
Arguments ListInsertBefore {V} h value.
Arguments ListInsertAfter {V} h value.
Arguments ListErase {V} h want.
Arguments ListPopFront {V} want.
Arguments ListPopBack {V} want.
Arguments ListValue {V} h.
Arguments ListNext {V} h.
Arguments ListPrev {V} h.
Arguments ListForward {V}.
Arguments ListBackward {V}.
Arguments ListFront {V}.
Arguments ListBack {V}.
Arguments ListSize {V}.
Arguments ListClear {V}.

Inductive list_answer (V : Type) :=
  | ListStatus (status : stl_status)
  | ListRemoved (status : stl_status) (out : cell V)
  | ListObject (object : option V)
  | ListObjects (objects : list V)
  | ListCount (count : Z)
  | ListCleared.
Arguments ListStatus {V} status.
Arguments ListRemoved {V} status out.
Arguments ListObject {V} object.
Arguments ListObjects {V} objects.
Arguments ListCount {V} count.
Arguments ListCleared {V}.

Section Calls.
Context {V U : Type} `{HV : ObjectTraits V U}.
Context (list_desc self : addr).
#[local] Abbreviation handle := (option (list_t V)).
#[local] Abbreviation iterators := (list list_iter).

Definition iterator_at (its : iterators) (h : nat) : list_iter := default (list_end self) (its !! h).

(** A client that removes the element of an iterator forgets the iterators equal to it. *)
Definition forget (gone : list_iter) (its : iterators) : iterators :=
  List.filter (fun it => negb (list_iter_equal gone it)) its.

(** And keeps those that calls handed to it. *)
Definition remember (it : option list_iter) (its : iterators) : iterators :=
  match it with Some it => its ++ [it] | None => its end.

(** From an iterator to the end, and from the end back. *)
Fixpoint list_walk (fuel : nat) (l : handle) (it : list_iter) : option (list V) :=
  if list_iter_equal it (list_end self) then Some []
  else
    match fuel with
    | O => None
    | S fuel =>
        object ← list_iter_value l it; v ← object;
        '(status, it) ← list_iter_next l (Some it);
        it ← it;
        if bool_decide (status = STL_OK) then rest ← list_walk fuel l it; Some (v :: rest) else None
    end.

Fixpoint list_walk_back (fuel : nat) (l : handle) (it : list_iter) : option (list V) :=
  '(status, it) ← list_iter_prev l (Some it);
  it ← it;
  if bool_decide (status = STL_OK) then
    match fuel with
    | O => None
    | S fuel => object ← list_iter_value l it; v ← object; rest ← list_walk_back fuel l it; Some (v :: rest)
    end
  else Some [].

(** An iterator is copied and moved. *)
Definition moved_iterator (r : option (stl_status * option list_iter)) : option (stl_status * option list_iter) :=
  '(status, it) ← r; Some (status, if bool_decide (status = STL_OK) then it else None).

Definition run_list_call (call : list_call V) (its : iterators) (l : handle)
    : store U (list_answer V * iterators * handle) :=
  let fuel := S (Z.to_nat (list_size l)) in
  match call with
  | ListPushFront v =>
      let* (status, l, it) := list_push_front list_desc self l (Some v) in
      ret (ListStatus status, remember it its, l)
  | ListPushBack v =>
      let* (status, l, it) := list_push_back list_desc self l (Some v) in
      ret (ListStatus status, remember it its, l)
  | ListInsertBefore h v =>
      let* (status, l, it) := list_insert_before self l (iterator_at its h) (Some v) in
      ret (ListStatus status, remember it its, l)
  | ListInsertAfter h v =>
      let* (status, l, it) := list_insert_after self l (iterator_at its h) (Some v) in
      ret (ListStatus status, remember it its, l)
  | ListErase h want =>
      let gone := iterator_at its h in
      let* (status, l, out) := list_erase self l gone want in
      ret (ListRemoved status out, if bool_decide (status = STL_OK) then forget gone its else its, l)
  | ListPopFront want =>
      let gone := list_begin self l in
      let* (status, l, out) := list_pop_front l want in
      ret (ListRemoved status out, if bool_decide (status = STL_OK) then forget gone its else its, l)
  | ListPopBack want =>
      let* last := reading (list_iter_prev l (Some (list_end self))) in
      let* (status, l, out) := list_pop_back l want in
      ret (ListRemoved status out,
           if bool_decide (status = STL_OK) then forget (default (list_end self) (snd last)) its else its, l)
  | ListValue h => let* v := reading (list_iter_value l (iterator_at its h)) in ret (ListObject v, its, l)
  | ListNext h =>
      let* (status, it) := reading (moved_iterator (list_iter_next l (Some (iterator_at its h)))) in
      ret (ListStatus status, remember it its, l)
  | ListPrev h =>
      let* (status, it) := reading (moved_iterator (list_iter_prev l (Some (iterator_at its h)))) in
      ret (ListStatus status, remember it its, l)
  | ListForward => let* vs := reading (list_walk fuel l (list_begin self l)) in ret (ListObjects vs, its, l)
  | ListBackward => let* vs := reading (list_walk_back fuel l (list_end self)) in ret (ListObjects vs, its, l)
  | ListFront => let* v := reading (list_front l) in ret (ListObject v, its, l)
  | ListBack => let* v := reading (list_back l) in ret (ListObject v, its, l)
  | ListSize => ret (ListCount (list_size l), its, l)
  | ListClear => let* l := list_clear l in ret (ListCleared, [], l)
  end.

Fixpoint run_list_calls (calls : list (list_call V)) (its : iterators) (l : handle)
    : store U (list (list_answer V) * iterators * handle) :=
  match calls with
  | [] => ret ([], its, l)
  | call :: calls =>
      let* (a, its, l) := run_list_call call its l in
      let* (answers, its, l) := run_list_calls calls its l in
      ret (a :: answers, its, l)
  end.

(** ** The list of places *)

(** The iterator at a place. *)
Definition at_place (p : option addr) : list_iter := mk_list_iter self p.

(** What the list of elements [xs], each at a place of its own, may answer; [ready] says
    whether the handle is initialised, [its] are the iterators of the client. *)
Inductive list_answers (limit : Z) (ready : bool) (its : iterators) (xs : list (addr * V)) :
    list_call V -> list_answer V -> bool -> iterators -> list (addr * V) -> Prop :=
  | la_push_front v a :
      Z.of_nat (length xs) < limit -> a ∉ xs.*1 ->
      list_answers limit ready its xs (ListPushFront v) (ListStatus STL_OK) true (its ++ [at_place (Some a)]) ((a, v) :: xs)
  | la_push_back v a :
      Z.of_nat (length xs) < limit -> a ∉ xs.*1 ->
      list_answers limit ready its xs (ListPushBack v) (ListStatus STL_OK) true (its ++ [at_place (Some a)]) (xs ++ [(a, v)])
  | la_push_no_room call v status :
      call = ListPushFront v \/ call = ListPushBack v -> no_room status ->
      (ready = true -> limit <= Z.of_nat (length xs) -> status = STL_CAPACITY_EXCEEDED) ->
      list_answers limit ready its xs call (ListStatus status) ready its xs
  | la_insert_before h v xs1 b u xs2 a :
      xs = xs1 ++ (b, u) :: xs2 -> iterator_at its h = at_place (Some b) ->
      Z.of_nat (length xs) < limit -> a ∉ xs.*1 ->
      list_answers limit ready its xs (ListInsertBefore h v) (ListStatus STL_OK)
        ready (its ++ [at_place (Some a)]) (xs1 ++ (a, v) :: (b, u) :: xs2)
  | la_insert_after h v xs1 b u xs2 a :
      xs = xs1 ++ (b, u) :: xs2 -> iterator_at its h = at_place (Some b) ->
      Z.of_nat (length xs) < limit -> a ∉ xs.*1 ->
      list_answers limit ready its xs (ListInsertAfter h v) (ListStatus STL_OK)
        ready (its ++ [at_place (Some a)]) (xs1 ++ (b, u) :: (a, v) :: xs2)
  | la_insert_no_room call h v b status :
      call = ListInsertBefore h v \/ call = ListInsertAfter h v -> iterator_at its h = at_place (Some b) ->
      no_room status -> (limit <= Z.of_nat (length xs) -> status = STL_CAPACITY_EXCEEDED) ->
      list_answers limit ready its xs call (ListStatus status) ready its xs
  | la_insert_end call h v :
      call = ListInsertBefore h v \/ call = ListInsertAfter h v -> iterator_at its h = at_place None ->
      list_answers limit ready its xs call (ListStatus STL_INVALID_ARGUMENT) ready its xs
  | la_erase h want xs1 b u xs2 :
      xs = xs1 ++ (b, u) :: xs2 -> iterator_at its h = at_place (Some b) ->
      list_answers limit ready its xs (ListErase h want) (ListRemoved STL_OK (if want then Live u else Raw))
        ready (forget (at_place (Some b)) its) (xs1 ++ xs2)
  | la_erase_end h want :
      iterator_at its h = at_place None ->
      list_answers limit ready its xs (ListErase h want) (ListRemoved STL_INVALID_ARGUMENT Raw) ready its xs
  | la_pop_front want b u xs' :
      xs = (b, u) :: xs' ->
      list_answers limit ready its xs (ListPopFront want) (ListRemoved STL_OK (if want then Live u else Raw))
        ready (forget (at_place (Some b)) its) xs'
  | la_pop_back want b u xs' :
      xs = xs' ++ [(b, u)] ->
      list_answers limit ready its xs (ListPopBack want) (ListRemoved STL_OK (if want then Live u else Raw))
        ready (forget (at_place (Some b)) its) xs'
  | la_pop_empty call want :
      call = ListPopFront want \/ call = ListPopBack want -> xs = [] ->
      list_answers limit ready its xs call
        (ListRemoved (if ready then STL_EMPTY else STL_INVALID_ARGUMENT) Raw) ready its xs
  | la_value h xs1 b u xs2 :
      xs = xs1 ++ (b, u) :: xs2 -> iterator_at its h = at_place (Some b) ->
      list_answers limit ready its xs (ListValue h) (ListObject (Some u)) ready its xs
  | la_value_end h :
      iterator_at its h = at_place None -> list_answers limit ready its xs (ListValue h) (ListObject None) ready its xs
  | la_next h xs1 b u xs2 :
      xs = xs1 ++ (b, u) :: xs2 -> iterator_at its h = at_place (Some b) ->
      list_answers limit ready its xs (ListNext h) (ListStatus STL_OK)
        ready (its ++ [at_place (first_place xs2 None)]) xs
  | la_next_end h :
      iterator_at its h = at_place None ->
      list_answers limit ready its xs (ListNext h) (ListStatus STL_NOT_FOUND) ready its xs
  | la_prev h xs1 b u xs2 c :
      xs = xs1 ++ (b, u) :: xs2 -> iterator_at its h = at_place (Some b) -> last_place None xs1 = Some c ->
      list_answers limit ready its xs (ListPrev h) (ListStatus STL_OK) ready (its ++ [at_place (Some c)]) xs
  | la_prev_first h b u xs2 :
      xs = (b, u) :: xs2 -> iterator_at its h = at_place (Some b) ->
      list_answers limit ready its xs (ListPrev h) (ListStatus STL_NOT_FOUND) ready its xs
  | la_prev_end h c :
      iterator_at its h = at_place None -> last_place None xs = Some c ->
      list_answers limit ready its xs (ListPrev h) (ListStatus STL_OK) ready (its ++ [at_place (Some c)]) xs
  | la_prev_empty h :
      xs = [] -> list_answers limit ready its xs (ListPrev h)
        (ListStatus (if ready then STL_NOT_FOUND else STL_INVALID_ARGUMENT)) ready its xs
  | la_forward : list_answers limit ready its xs ListForward (ListObjects xs.*2) ready its xs
  | la_backward : list_answers limit ready its xs ListBackward (ListObjects (rev xs.*2)) ready its xs
  | la_front : list_answers limit ready its xs ListFront (ListObject (head xs.*2)) ready its xs
  | la_back : list_answers limit ready its xs ListBack (ListObject (last xs.*2)) ready its xs
  | la_size : list_answers limit ready its xs ListSize (ListCount (Z.of_nat (length xs))) ready its xs
  | la_clear : list_answers limit ready its xs ListClear ListCleared ready [] [].

Inductive list_answers_all (limit : Z) :
    bool -> iterators -> list (addr * V) -> list (list_call V) -> list (list_answer V) -> iterators ->
    list (addr * V) -> Prop :=
  | list_answers_nil ready its xs : list_answers_all limit ready its xs [] [] its xs
  | list_answers_cons ready its xs call a ready1 its1 xs1 calls as_ its2 xs2 :
      list_answers limit ready its xs call a ready1 its1 xs1 ->
      list_answers_all limit ready1 its1 xs1 calls as_ its2 xs2 ->
      list_answers_all limit ready its xs (call :: calls) (a :: as_) its2 xs2.

Definition list_handed_out (type : option cmeta_type_desc) (a : list_answer V) : Z :=
  match a with ListRemoved _ (Live _) => typed type | _ => 0 end.

Definition list_all_handed_out (type : option cmeta_type_desc) (as_ : list (list_answer V)) : Z :=
  foldr (fun a n => list_handed_out type a + n) 0 as_.

End Calls.

(** * Every call answers as the list does *)

Section Refinement.
Context {V U : Type} `{HV : ObjectTraits V U} `{!TraitLaws V U}.
Context (list_desc self : addr).
Implicit Types w : object_world U.
Implicit Types m : list_t V.
Implicit Types xs : list (addr * V).
Implicit Types its : list list_iter.
#[local] Abbreviation run_call := (run_list_call list_desc self).
#[local] Abbreviation run_calls := (run_list_calls list_desc self).
#[local] Abbreviation answers := (list_answers self).
#[local] Abbreviation at_place := (at_place self).
#[local] Abbreviation iterator_at := (iterator_at self).
#[local] Abbreviation inv := (list_inv list_desc).

(** The iterators are at elements or at the end. *)
Definition at_elements its xs : Prop :=
  Forall (fun it => it_owner it = self /\ forall b, it_node it = Some b -> b ∈ xs.*1) its.

Lemma iterator_cases its xs h :
  at_elements its xs ->
  iterator_at its h = at_place None \/
  exists xs1 b u xs2, xs = xs1 ++ (b, u) :: xs2 /\ iterator_at its h = at_place (Some b).
Proof.
  intros Hp. unfold iterator_at. destruct (its !! h) as [[o n]|] eqn:E; [|by left].
  apply (proj1 (Forall_lookup _ _) Hp) in E as [Ho Hn]. simpl in Ho, Hn. subst o. simpl.
  destruct n as [b|]; [right|by left]. pose proof (Hn b eq_refl) as Hb.
  apply list_elem_of_fmap in Hb as ([b' u] & -> & Hb). apply list_elem_of_split in Hb as (xs1 & xs2 & ->).
  by exists xs1, b', u, xs2.
Qed.

Lemma at_elements_grow its xs xs' it :
  at_elements its xs -> (forall b, b ∈ xs.*1 -> b ∈ xs'.*1) -> it_owner it = self ->
  (forall b, it_node it = Some b -> b ∈ xs'.*1) -> at_elements (its ++ [it]) xs'.
Proof.
  intros Hp Hsub Ho Hn. apply Forall_app. split; [|by constructor].
  eapply Forall_impl; [exact Hp|]. simpl. intros it' [? Hn']. split; [done|]. auto.
Qed.

Lemma at_elements_forget its xs1 b u xs2 :
  at_elements its (xs1 ++ (b, u) :: xs2) -> at_elements (forget (at_place (Some b)) its) (xs1 ++ xs2).
Proof.
  intros Hp. apply Forall_forall. intros it Hit. unfold forget in Hit. apply list_elem_of_In, filter_In in Hit as [Hit Hne].
  apply list_elem_of_In in Hit. apply (proj1 (Forall_forall _ _) Hp) in Hit as [Ho Hn]. split; [done|]. intros c Hc.
  specialize (Hn c Hc). rewrite fmap_app in Hn |- *. csimpl in Hn.
  unfold list_iter_equal in Hne. simpl in Hne. rewrite Ho, Hc in Hne.
  rewrite bool_decide_true in Hne by done. cbn in Hne. apply negb_true_iff, bool_decide_eq_false in Hne.
  apply elem_of_app in Hn as [Hn|[->|Hn]%elem_of_cons]; [set_solver|by destruct Hne|set_solver].
Qed.

Definition list_call_sound m (ready : bool) its xs call (r : list_answer V * list list_iter * option (list_t V)) w w' : Prop :=
  exists a m' ready' its' xs', r = (a, its', Some m') /\ inv m' ready' xs' /\ list_kept m m' /\ at_elements its' xs' /\
    answers (list_limit m) ready its xs call a ready' its' xs' /\
    delta w w' (list_blocks m' - list_blocks m)
      (list_objects m' - list_objects m + list_handed_out (list_type m) a).

Lemma list_same_sound m ready its xs call a w w' :
  inv m ready xs -> at_elements its xs -> answers (list_limit m) ready its xs call a ready its xs ->
  list_handed_out (list_type m) a = 0 -> delta w w' 0 0 ->
  list_call_sound m ready its xs call (a, its, Some m) w w'.
Proof.
  intros Hm Hp Ha Hh Hd. exists a, m, ready, its, xs. rewrite Hh, !Z.sub_diag. by split_and!.
Qed.

(** A new iterator. *)
Lemma list_moved_sound m ready its xs call it w :
  inv m ready xs -> at_elements its xs -> answers (list_limit m) ready its xs call (ListStatus STL_OK) ready (its ++ [it]) xs ->
  it_owner it = self -> (forall b, it_node it = Some b -> b ∈ xs.*1) ->
  list_call_sound m ready its xs call (ListStatus STL_OK, its ++ [it], Some m) w w.
Proof.
  intros Hm Hp Ha Ho Hn. exists (ListStatus STL_OK), m, ready, (its ++ [it]), xs. simpl. rewrite Z.add_0_r, !Z.sub_diag.
  split_and!; [done..|by eapply at_elements_grow|done|apply delta_refl].
Qed.

(** An insertion as a call. *)
Lemma list_inserted_sound m ready its xs1 v xs2 call status l it w w' :
  inv m ready (xs1 ++ xs2) -> at_elements its (xs1 ++ xs2) ->
  (forall a, Z.of_nat (length (xs1 ++ xs2)) < list_limit m -> a ∉ (xs1 ++ xs2).*1 ->
    answers (list_limit m) ready its (xs1 ++ xs2) call (ListStatus STL_OK) true (its ++ [at_place (Some a)]) (xs1 ++ (a, v) :: xs2)) ->
  (forall status, no_room status ->
    (ready = true -> list_limit m <= Z.of_nat (length (xs1 ++ xs2)) -> status = STL_CAPACITY_EXCEEDED) ->
    answers (list_limit m) ready its (xs1 ++ xs2) call (ListStatus status) ready its (xs1 ++ xs2)) ->
  list_inserted list_desc self m ready xs1 v xs2 (status, l, it) w w' ->
  list_call_sound m ready its (xs1 ++ xs2) call (ListStatus status, remember it its, l) w w'.
Proof.
  intros Hm Hp Hok Hbad [(m' & a & [= -> -> ->] & Hm' & Hk & Ha & Hlt & Hd)|(st & [= -> -> ->] & Hn & Hfull & Hd)].
  - exists (ListStatus STL_OK), m', true, (its ++ [at_place (Some a)]), (xs1 ++ (a, v) :: xs2).
    simpl. rewrite Z.add_0_r. split_and!; [done..| |by apply Hok|done].
    eapply at_elements_grow; [exact Hp| |done|].
    + intros b. rewrite !fmap_app. csimpl. set_solver.
    + intros b [= ->]. rewrite fmap_app. csimpl. set_solver.
  - apply list_same_sound; [done|done|by apply Hbad|done|done].
Qed.

Lemma exists_last' {A} (l : list A) : l = [] \/ exists l' x, l = l' ++ [x].
Proof. destruct (decide (l = [])) as [->|Hl]; [by left|right]. destruct (exists_last Hl) as (l' & x & ->). eauto. Qed.

(** What a place knows. *)
Lemma place_spec m xs1 b u xs2 i ys :
  lt_impl m = Some i -> impl_inv i ys (xs1 ++ (b, u) :: xs2) ->
  exists block, link_at (li_links i) (Some b) = Some (mk_link (last_place None xs1) (first_place xs2 None) (block, Live u)).
Proof.
  intros Hi Hok. destruct (holds_middle _ _ _ _ _ (ii_holds _ _ _ Hok)) as (ys1 & blk & ys2 & -> & H1 & H2).
  exists blk. rewrite (linked_middle _ _ _ _ _ (ii_links _ _ _ Hok)).
  by rewrite (holds_last _ _ _ H1), (holds_first _ _ _ H2).
Qed.

Lemma impl_head i ys xs : impl_inv i ys xs -> lk_head (li_links i) = first_place xs None.
Proof. intros Hok. rewrite (lk_first _ _ (ii_links _ _ _ Hok)). apply holds_first, (ii_holds _ _ _ Hok). Qed.

Lemma impl_tail i ys xs : impl_inv i ys xs -> lk_tail (li_links i) = last_place None xs.
Proof. intros Hok. rewrite (lk_last _ _ (ii_links _ _ _ Hok)). apply holds_last, (ii_holds _ _ _ Hok). Qed.

Lemma last_place_snoc start xs x : last_place start (xs ++ [x]) = Some (fst x).
Proof. unfold last_place. by rewrite last_app. Qed.

Lemma last_place_in xs b : last_place None xs = Some b -> b ∈ xs.*1.
Proof.
  unfold last_place. destruct (last xs) as [[c u]|] eqn:E; [|done]. intros [= ->].
  apply last_Some in E as [ys ->]. rewrite fmap_app. set_solver.
Qed.

Lemma last_place_none xs : last_place None xs = None -> xs = [].
Proof. unfold last_place. destruct (last xs) eqn:E; [done|]. by apply last_None in E. Qed.

Lemma not_ready_empty m xs : inv m false xs -> xs = [] /\ lt_impl m = None /\ list_valid (Some m) = false.
Proof.
  intros [Hb ->]. pose proof (bound_impl _ _ Hb) as Hi. split_and!; [done|done|].
  unfold list_valid, list_impl. cbn [mbind option_bind]. by rewrite Hi.
Qed.

(** ** Insertions *)

Lemma push_front_sound m ready its xs v w :
  inv m ready xs -> at_elements its xs ->
  wp (run_call (ListPushFront v) its (Some m))
    (fun r w' => list_call_sound m ready its xs (ListPushFront v) r w w') w.
Proof.
  intros Hm Hp. cbn [run_list_call]. eapply wp_bind_mono.
  { apply (list_push_spec list_desc self (fun l => (None, lk_head l)) m ready [] xs); [done|].
    intros i ys Hok. by rewrite (impl_head _ _ _ Hok). }
  intros [[status l] it] w' H. apply wp_ret. eapply (list_inserted_sound m ready its [] v xs); [done|done| | |exact H].
  - intros a Hlt Ha. by apply (la_push_front self (list_limit m) ready its xs v a).
  - intros st Hn Hf. eapply la_push_no_room; [by left|done|done].
Qed.

Lemma push_back_sound m ready its xs v w :
  inv m ready xs -> at_elements its xs ->
  wp (run_call (ListPushBack v) its (Some m))
    (fun r w' => list_call_sound m ready its xs (ListPushBack v) r w w') w.
Proof.
  intros Hm Hp. cbn [run_list_call]. assert (xs ++ [] = xs) as E by apply app_nil_r. eapply wp_bind_mono.
  { apply (list_push_spec list_desc self (fun l => (lk_tail l, None)) m ready xs []); [by rewrite E|].
    intros i ys Hok. rewrite E in Hok. by rewrite (impl_tail _ _ _ Hok). }
  intros [[status l] it] w' H. apply wp_ret.
  rewrite <- E at 1. eapply (list_inserted_sound m ready its xs v []); rewrite ?E; [done|done| | |exact H].
  - intros a Hlt Ha. by apply la_push_back.
  - intros st Hn Hf. eapply la_push_no_room; [by right|done|done].
Qed.

Lemma insert_before_sound m ready its xs h v w :
  inv m ready xs -> at_elements its xs ->
  wp (run_call (ListInsertBefore h v) its (Some m))
    (fun r w' => list_call_sound m ready its xs (ListInsertBefore h v) r w w') w.
Proof.
  intros Hm Hp. cbn [run_list_call]. unfold list_insert_before, list_iterator_matches.
  destruct (iterator_cases its xs h Hp) as [E|(xs1 & b & u & xs2 & -> & E)]; rewrite E; cbn [it_owner it_node at_place is_null].
  { rewrite andb_false_r. cbn [negb]. apply wp_bind, wp_ret, wp_ret. apply list_same_sound; [done|done| |done|apply delta_refl].
    eapply la_insert_end; [by left|done]. }
  destruct ready; [|by destruct (not_ready_empty _ _ Hm) as (Hx & _); destruct xs1].
  rewrite (list_valid_ready _ _ _ Hm), bool_decide_true by done. cbn [andb negb].
  pose proof Hm as (i & ys & Hi & Hok). destruct (place_spec _ _ _ _ _ _ _ Hi Hok) as [blk Hl].
  eapply wp_bind, wp_bind, wp_reading; [unfold list_impl; cbn [mbind option_bind]; rewrite Hi; exact Hl|]. cbn [ln_previous].
  eapply wp_mono; [apply (insert_between_spec list_desc self m xs1 ((b, u) :: xs2) v w Hm)|].
  intros [[status l] it] w' H. apply wp_ret.
  eapply (list_inserted_sound m true its xs1 v ((b, u) :: xs2)); [done|done| | |].
  - intros a Hlt Ha. by eapply la_insert_before.
  - intros st Hn Hf. eapply la_insert_no_room; [by left|done|done|auto].
  - destruct H as [H|(st & ? & ? & ? & ?)]; [by left|right]. exists st. split_and!; auto.
Qed.

Lemma insert_after_sound m ready its xs h v w :
  inv m ready xs -> at_elements its xs ->
  wp (run_call (ListInsertAfter h v) its (Some m))
    (fun r w' => list_call_sound m ready its xs (ListInsertAfter h v) r w w') w.
Proof.
  intros Hm Hp. cbn [run_list_call]. unfold list_insert_after, list_iterator_matches.
  destruct (iterator_cases its xs h Hp) as [E|(xs1 & b & u & xs2 & -> & E)]; rewrite E; cbn [it_owner it_node at_place is_null].
  { rewrite andb_false_r. cbn [negb]. apply wp_bind, wp_ret, wp_ret. apply list_same_sound; [done|done| |done|apply delta_refl].
    eapply la_insert_end; [by right|done]. }
  destruct ready; [|by destruct (not_ready_empty _ _ Hm) as (Hx & _); destruct xs1].
  rewrite (list_valid_ready _ _ _ Hm), bool_decide_true by done. cbn [andb negb].
  pose proof Hm as (i & ys & Hi & Hok). destruct (place_spec _ _ _ _ _ _ _ Hi Hok) as [blk Hl].
  eapply wp_bind, wp_bind, wp_reading; [unfold list_impl; cbn [mbind option_bind]; rewrite Hi; exact Hl|]. cbn [ln_next].
  assert (xs1 ++ (b, u) :: xs2 = (xs1 ++ [(b, u)]) ++ xs2) as Ex by (by rewrite <- app_assoc).
  rewrite <- (last_place_snoc None xs1 (b, u)) at 1.
  eapply wp_mono; [apply (insert_between_spec list_desc self m (xs1 ++ [(b, u)]) xs2 v w); by rewrite <- Ex|].
  intros [[status l] it] w' H. apply wp_ret.
  rewrite Ex in *. eapply (list_inserted_sound m true its (xs1 ++ [(b, u)]) v xs2); [done|done| | |].
  - intros a Hlt Ha. replace ((xs1 ++ [(b, u)]) ++ (a, v) :: xs2) with (xs1 ++ (b, u) :: (a, v) :: xs2) by by rewrite <- app_assoc.
    by eapply la_insert_after; [rewrite <- app_assoc|..].
  - intros st Hn Hf. eapply la_insert_no_room; [by right|done|done|auto].
  - destruct H as [H|(st & ? & ? & ? & ?)]; [by left|right]. exists st. split_and!; auto.
Qed.

(** ** Removals *)

(** The element at a place goes, and with it its iterators. *)
Lemma list_removed_sound m its xs1 b u xs2 call (want : bool) w :
  inv m true (xs1 ++ (b, u) :: xs2) -> at_elements its (xs1 ++ (b, u) :: xs2) ->
  answers (list_limit m) true its (xs1 ++ (b, u) :: xs2) call (ListRemoved STL_OK (if want then Live u else Raw))
    true (forget (at_place (Some b)) its) (xs1 ++ xs2) ->
  wp (let* (status, l, out) := list_remove_node (Some m) (Some b) want in
      ret (ListRemoved status out, if bool_decide (status = STL_OK) then forget (at_place (Some b)) its else its, l))
    (fun r w' => list_call_sound m true its (xs1 ++ (b, u) :: xs2) call r w w') w.
Proof.
  intros Hm Hp Ha. eapply wp_bind_mono; [by eapply remove_node_spec|].
  intros r w1 (m' & -> & Hm' & Hk & H1). apply wp_ret. rewrite bool_decide_true by done.
  eexists _, m', true, _, (xs1 ++ xs2). split_and!; [done|done|done|by eapply at_elements_forget|exact Ha|].
  destruct want; simpl; simpl in H1; solve_delta.
Qed.

Lemma erase_sound m ready its xs h (want : bool) w :
  inv m ready xs -> at_elements its xs ->
  wp (run_call (ListErase h want) its (Some m))
    (fun r w' => list_call_sound m ready its xs (ListErase h want) r w w') w.
Proof.
  intros Hm Hp. cbn [run_list_call]. unfold list_erase, list_iterator_matches.
  destruct (iterator_cases its xs h Hp) as [E|(xs1 & b & u & xs2 & -> & E)]; rewrite E; cbn [it_owner it_node at_place is_null].
  { rewrite andb_false_r. cbn [negb]. apply wp_bind, wp_ret, wp_ret. rewrite bool_decide_false by done.
    apply list_same_sound; [done|done| |done|apply delta_refl]. by apply la_erase_end. }
  destruct ready; [|by destruct (not_ready_empty _ _ Hm) as (Hx & _); destruct xs1].
  rewrite (list_valid_ready _ _ _ Hm), bool_decide_true by done. cbn [andb negb].
  apply list_removed_sound; [done|done|by eapply la_erase].
Qed.

Lemma pop_empty_sound m ready its call end_ (want : bool) gone w :
  call = ListPopFront want \/ call = ListPopBack want ->
  (forall i ys, impl_inv i ys [] -> end_ (li_links i) = None) -> inv m ready [] -> at_elements its [] ->
  wp (let* (status, l, out) := list_pop end_ (Some m) want in
      ret (ListRemoved status out, if bool_decide (status = STL_OK) then forget gone its else its, l))
    (fun r w' => list_call_sound m ready its [] call r w w') w.
Proof.
  intros Hcall He Hm Hp. unfold list_pop, list_impl. cbn [mbind option_bind].
  assert (list_call_sound m ready its [] call (ListRemoved (if ready then STL_EMPTY else STL_INVALID_ARGUMENT) Raw, its, Some m) w w)
    as H by (apply list_same_sound; [done|done|by eapply la_pop_empty|done|apply delta_refl]).
  destruct ready.
  - destruct Hm as (i & ys & Hi & Hok). rewrite Hi, (He i ys Hok). cbn [is_null].
    apply wp_bind, wp_ret, wp_ret. by rewrite bool_decide_false.
  - destruct (not_ready_empty _ _ Hm) as (_ & Hi & _). rewrite Hi.
    apply wp_bind, wp_ret, wp_ret. by rewrite bool_decide_false.
Qed.

Lemma pop_front_sound m ready its xs (want : bool) w :
  inv m ready xs -> at_elements its xs ->
  wp (run_call (ListPopFront want) its (Some m))
    (fun r w' => list_call_sound m ready its xs (ListPopFront want) r w w') w.
Proof.
  intros Hm Hp. cbn [run_list_call]. unfold list_pop_front. destruct xs as [|[b u] xs].
  { apply pop_empty_sound; [by left| |done|done]. intros i ys Hok. by rewrite (impl_head _ _ _ Hok). }
  destruct ready; [|by destruct (not_ready_empty _ _ Hm)].
  pose proof Hm as (i & ys & Hi & Hok). pose proof (impl_head _ _ _ Hok) as Hh.
  unfold list_pop, list_begin, list_impl. cbn [mbind option_bind]. rewrite Hi. cbn [mbind option_bind].
  rewrite Hh. cbn [first_place fst is_null].
  apply (list_removed_sound m its [] b u xs); [done|done|by eapply la_pop_front].
Qed.

Lemma pop_back_sound m ready its xs (want : bool) w :
  inv m ready xs -> at_elements its xs ->
  wp (run_call (ListPopBack want) its (Some m))
    (fun r w' => list_call_sound m ready its xs (ListPopBack want) r w w') w.
Proof.
  intros Hm Hp. cbn [run_list_call].
  assert (exists r, list_iter_prev (Some m) (Some (list_end self)) = Some r) as [r0 E0].
  { unfold list_iter_prev, list_impl. cbn [mbind option_bind]. destruct (lt_impl m); [|by eexists].
    destruct (negb _); [by eexists|]. cbn. destruct (is_null _); by eexists. }
  eapply wp_bind, wp_reading; [exact E0|]. unfold list_pop_back.
  destruct (exists_last' xs) as [->|(xs' & [b u] & ->)].
  { apply pop_empty_sound; [by right| |done|done]. intros i ys Hok. by rewrite (impl_tail _ _ _ Hok). }
  destruct ready; [|by destruct (not_ready_empty _ _ Hm) as [Hx _]; destruct xs'].
  pose proof Hm as (i & ys & Hi & Hok). pose proof (impl_tail _ _ _ Hok) as Ht. rewrite last_place_snoc in Ht. cbn [fst] in Ht.
  assert (snd r0 = Some (at_place (Some b))) as ->.
  { revert E0. unfold list_iter_prev, list_impl. cbn [mbind option_bind]. rewrite (list_valid_ready _ _ _ Hm), Hi, Ht.
    by intros [= <-]. }
  unfold list_pop, list_impl. cbn [mbind option_bind default]. rewrite Hi, Ht. cbn [is_null].
  apply list_removed_sound; [done|done|]. rewrite app_nil_r. by eapply la_pop_back.
Qed.

(** ** Iterators *)

Lemma value_sound m ready its xs h w :
  inv m ready xs -> at_elements its xs ->
  wp (run_call (ListValue h) its (Some m)) (fun r w' => list_call_sound m ready its xs (ListValue h) r w w') w.
Proof.
  intros Hm Hp. cbn [run_list_call].
  destruct (iterator_cases its xs h Hp) as [E|(xs1 & b & u & xs2 & -> & E)]; rewrite E; unfold list_iter_value; cbn [it_node at_place is_null].
  { rewrite orb_true_r. eapply wp_bind, wp_reading; [done|]. apply wp_ret.
    apply list_same_sound; [done|done|by apply la_value_end|done|apply delta_refl]. }
  destruct ready; [|by destruct (not_ready_empty _ _ Hm) as (Hx & _); destruct xs1].
  rewrite (list_valid_ready _ _ _ Hm). cbn [negb orb].
  pose proof Hm as (i & ys & Hi & Hok). destruct (place_spec _ _ _ _ _ _ _ Hi Hok) as [blk Hl].
  eapply wp_bind, wp_reading.
  { unfold list_value_at, list_impl. cbn [mbind option_bind]. by rewrite Hi, Hl. }
  apply wp_ret. apply list_same_sound; [done|done|by eapply la_value|done|apply delta_refl].
Qed.

Lemma first_place_in xs1 x xs2 b : first_place xs2 None = Some b -> b ∈ (xs1 ++ x :: xs2).*1.
Proof. destruct xs2 as [|[c u] xs2]; [done|]. intros [= ->]. rewrite fmap_app. csimpl. set_solver. Qed.

Lemma next_sound m ready its xs h w :
  inv m ready xs -> at_elements its xs ->
  wp (run_call (ListNext h) its (Some m)) (fun r w' => list_call_sound m ready its xs (ListNext h) r w w') w.
Proof.
  intros Hm Hp. cbn [run_list_call]. unfold list_iter_next, list_impl. cbn [mbind option_bind].
  destruct (iterator_cases its xs h Hp) as [E|(xs1 & b & u & xs2 & -> & E)]; rewrite E; cbn [it_node it_owner at_place is_null].
  { rewrite orb_true_r. eapply wp_bind, wp_reading; [by destruct (lt_impl m)|]. apply wp_ret.
    apply list_same_sound; [done|done|by apply la_next_end|done|apply delta_refl]. }
  destruct ready; [|by destruct (not_ready_empty _ _ Hm) as (Hx & _); destruct xs1].
  rewrite (list_valid_ready _ _ _ Hm). cbn [negb orb].
  pose proof Hm as (i & ys & Hi & Hok). destruct (place_spec _ _ _ _ _ _ _ Hi Hok) as [blk Hl].
  rewrite Hi, Hl. eapply wp_bind, wp_reading; [done|]. cbn [ln_next]. apply wp_ret.
  apply list_moved_sound; [done|done|by eapply la_next|done|]. intros c. apply first_place_in.
Qed.

Lemma prev_sound m ready its xs h w :
  inv m ready xs -> at_elements its xs ->
  wp (run_call (ListPrev h) its (Some m)) (fun r w' => list_call_sound m ready its xs (ListPrev h) r w w') w.
Proof.
  intros Hm Hp. cbn [run_list_call]. unfold list_iter_prev, list_impl. cbn [mbind option_bind]. destruct ready.
  2: { destruct (not_ready_empty _ _ Hm) as (-> & Hi & _). rewrite Hi. eapply wp_bind, wp_reading; [done|]. apply wp_ret.
       apply list_same_sound; [done|done|by apply (la_prev_empty self (list_limit m) false)|done|apply delta_refl]. }
  rewrite (list_valid_ready _ _ _ Hm). cbn [negb]. pose proof Hm as (i & ys & Hi & Hok). rewrite Hi.
  destruct (iterator_cases its xs h Hp) as [E|(xs1 & b & u & xs2 & -> & E)]; rewrite E; cbn [it_node it_owner at_place is_null].
  - rewrite (impl_tail _ _ _ Hok). destruct (last_place None xs) as [c|] eqn:Hlast; cbn [is_null].
    + eapply wp_bind, wp_reading; [done|]. apply wp_ret.
      apply list_moved_sound; [done|done|by eapply la_prev_end|done|]. intros d [= <-]. by apply last_place_in.
    + apply last_place_none in Hlast as ->. eapply wp_bind, wp_reading; [done|]. apply wp_ret.
      apply list_same_sound; [done|done|by apply (la_prev_empty self (list_limit m) true)|done|apply delta_refl].
  - destruct (place_spec _ _ _ _ _ _ _ Hi Hok) as [blk Hl]. rewrite Hl. cbn [mbind option_bind ln_previous].
    destruct (last_place None xs1) as [c|] eqn:Hlast; cbn [is_null].
    + eapply wp_bind, wp_reading; [done|]. apply wp_ret.
      apply list_moved_sound; [done|done|by eapply la_prev|done|]. intros d [= <-].
      apply last_place_in in Hlast. rewrite fmap_app. set_solver.
    + apply last_place_none in Hlast as ->. eapply wp_bind, wp_reading; [done|]. apply wp_ret.
      apply list_same_sound; [done|done|by eapply la_prev_first|done|apply delta_refl].
Qed.

(** ** Walks *)

Lemma list_walk_spec m i ys xs1 xs2 fuel :
  inv m true (xs1 ++ xs2) -> lt_impl m = Some i -> impl_inv i ys (xs1 ++ xs2) -> (length xs2 < fuel)%nat ->
  list_walk self fuel (Some m) (at_place (first_place xs2 None)) = Some xs2.*2.
Proof.
  intros Hm Hi Hok. revert xs1 fuel Hm Hok. induction xs2 as [|[b u] xs2 IH]; intros xs1 fuel Hm Hok Hf;
    (destruct fuel as [|fuel]; [simpl in Hf; lia|]); cbn [list_walk first_place fst];
    unfold list_iter_equal, list_end; cbn [it_owner it_node at_place].
  { by rewrite !bool_decide_true. }
  rewrite andb_comm, bool_decide_false by done. cbn [andb].
  destruct (place_spec _ _ _ _ _ _ _ Hi Hok) as [blk Hl].
  unfold list_iter_value, list_iter_next, list_value_at, list_impl. cbn [mbind option_bind it_node it_owner is_null].
  rewrite (list_valid_ready _ _ _ Hm), Hi. cbn [negb orb it_node list_end at_place]. rewrite Hl. cbn.
  assert (xs1 ++ (b, u) :: xs2 = (xs1 ++ [(b, u)]) ++ xs2) as Ex by (by rewrite <- app_assoc). rewrite Ex in *.
  simpl in Hf. fold (at_place (first_place xs2 None)). rewrite (IH (xs1 ++ [(b, u)]) fuel) by (done || lia). done.
Qed.

Lemma list_walk_back_spec m i ys xs1 xs2 fuel it :
  inv m true (xs1 ++ xs2) -> lt_impl m = Some i -> impl_inv i ys (xs1 ++ xs2) -> (length xs1 < fuel)%nat ->
  it = at_place (first_place xs2 None) ->
  list_walk_back fuel (Some m) it = Some (rev xs1.*2).
Proof.
  intros Hm Hi Hok. revert xs2 fuel it Hm Hok. induction xs1 as [|[b u] xs1 IH] using rev_ind; intros xs2 fuel it Hm Hok Hf ->;
    (destruct fuel as [|fuel]; [simpl in Hf; lia|]); cbn [list_walk_back].
  - assert (list_iter_prev (Some m) (Some (at_place (first_place xs2 None))) =
      Some (STL_NOT_FOUND, Some (at_place (first_place xs2 None)))) as ->; [|done].
    unfold list_iter_prev, list_impl. cbn [mbind option_bind it_node at_place].
    rewrite (list_valid_ready _ _ _ Hm), Hi. cbn [negb]. destruct xs2 as [|[c v] xs2]; cbn [first_place fst is_null].
    + by rewrite (impl_tail _ _ _ Hok).
    + destruct (place_spec m [] c v xs2 _ _ Hi Hok) as [blk Hl]. by rewrite Hl.
  - assert (list_iter_prev (Some m) (Some (at_place (first_place xs2 None))) = Some (STL_OK, Some (at_place (Some b)))) as ->.
    { unfold list_iter_prev, list_impl. cbn [mbind option_bind it_node at_place].
      rewrite (list_valid_ready _ _ _ Hm), Hi. cbn [negb]. destruct xs2 as [|[c v] xs2]; cbn [first_place fst is_null].
      - rewrite (impl_tail _ _ _ Hok), app_nil_r, last_place_snoc. done.
      - destruct (place_spec m (xs1 ++ [(b, u)]) c v xs2 _ _ Hi Hok) as [blk Hl]. rewrite Hl. cbn.
        by rewrite last_place_snoc. }
    cbn [mbind option_bind]. rewrite bool_decide_true by done.
    assert (xs1 ++ [(b, u)] ++ xs2 = (xs1 ++ [(b, u)]) ++ xs2) as Ex by (by rewrite <- app_assoc).
    rewrite <- Ex in *. cbn [app] in *. destruct (place_spec _ _ _ _ _ _ _ Hi Hok) as [blk Hl].
    unfold list_iter_value, list_value_at, list_impl. cbn [mbind option_bind it_node is_null at_place].
    rewrite (list_valid_ready _ _ _ Hm), Hi, Hl. cbn [negb orb mbind option_bind ln_data snd cell_value].
    rewrite length_app in Hf. simpl in Hf. rewrite (IH ((b, u) :: xs2) fuel) by (done || lia). cbn [mbind option_bind].
    by rewrite fmap_app, rev_app_distr.
Qed.

Lemma list_size_spec m ready xs : inv m ready xs -> list_size (Some m) = Z.of_nat (length xs).
Proof.
  unfold list_size, list_impl. cbn [mbind option_bind]. destruct ready.
  - intros (i & ys & -> & Hok). apply Hok.
  - intros Hm. by destruct (not_ready_empty _ _ Hm) as (-> & -> & _).
Qed.

Lemma list_seen_sound {A} m ready its xs call (x : option A) y (a : A -> list_answer V) w :
  inv m ready xs -> at_elements its xs -> x = Some y -> answers (list_limit m) ready its xs call (a y) ready its xs ->
  list_handed_out (list_type m) (a y) = 0 ->
  wp (let* y := reading x in ret (a y, its, Some m)) (fun r w' => list_call_sound m ready its xs call r w w') w.
Proof.
  intros Hm Hp Hx Ha Hh. eapply wp_bind, wp_reading; [exact Hx|]. apply wp_ret.
  apply list_same_sound; [done|done|done|done|apply delta_refl].
Qed.

Lemma list_forward_value m ready xs :
  inv m ready xs ->
  list_walk self (S (Z.to_nat (list_size (Some m)))) (Some m) (list_begin self (Some m)) = Some xs.*2.
Proof.
  intros Hm. pose proof (list_size_spec m ready xs Hm) as Hs. rewrite Hs, Nat2Z.id. destruct ready.
  - pose proof Hm as (i & ys & Hi & Hok). unfold list_begin, list_impl. cbn [mbind option_bind]. rewrite Hi. cbn [mbind option_bind].
    rewrite (impl_head _ _ _ Hok). fold (at_place (first_place xs None)). eapply (list_walk_spec m i ys [] xs); [done|done|done|lia].
  - destruct (not_ready_empty _ _ Hm) as (-> & Hi & _). unfold list_begin, list_impl. cbn [mbind option_bind]. rewrite Hi.
    cbn. unfold list_iter_equal, list_end. cbn. by rewrite !bool_decide_true.
Qed.

Lemma list_backward_value m ready xs :
  inv m ready xs ->
  list_walk_back (S (Z.to_nat (list_size (Some m)))) (Some m) (list_end self) = Some (rev xs.*2).
Proof.
  intros Hm. pose proof (list_size_spec m ready xs Hm) as Hs. rewrite Hs, Nat2Z.id. destruct ready.
  - pose proof Hm as (i & ys & Hi & Hok). eapply (list_walk_back_spec m i ys xs []); rewrite ?app_nil_r; (done || lia).
  - destruct (not_ready_empty _ _ Hm) as (-> & Hi & _). cbn [list_walk_back].
    unfold list_iter_prev, list_impl. cbn [mbind option_bind]. by rewrite Hi.
Qed.

Lemma list_front_value m ready xs : inv m ready xs -> list_front (Some m) = Some (head xs.*2).
Proof.
  intros Hm. unfold list_front, list_value_at, list_impl. cbn [mbind option_bind]. destruct ready.
  - pose proof Hm as (i & ys & Hi & Hok). rewrite Hi. cbn [mbind option_bind]. rewrite (impl_head _ _ _ Hok).
    destruct xs as [|[b u] xs]; [done|]. cbn [first_place fst].
    destruct (place_spec m [] b u xs _ _ Hi Hok) as [blk Hl]. by rewrite Hl.
  - by destruct (not_ready_empty _ _ Hm) as (-> & -> & _).
Qed.

Lemma list_back_value m ready xs : inv m ready xs -> list_back (Some m) = Some (last xs.*2).
Proof.
  intros Hm. unfold list_back, list_value_at, list_impl. cbn [mbind option_bind]. destruct ready.
  - pose proof Hm as (i & ys & Hi & Hok). rewrite Hi. cbn [mbind option_bind]. rewrite (impl_tail _ _ _ Hok).
    destruct (exists_last' xs) as [->|(xs' & [b u] & ->)]; [done|]. rewrite last_place_snoc. cbn [fst].
    destruct (place_spec m xs' b u [] _ _ Hi Hok) as [blk Hl]. rewrite Hl. rewrite fmap_app, last_app. done.
  - by destruct (not_ready_empty _ _ Hm) as (-> & -> & _).
Qed.

Lemma list_call_spec m ready its xs call w :
  inv m ready xs -> at_elements its xs ->
  wp (run_call call its (Some m)) (fun r w' => list_call_sound m ready its xs call r w w') w.
Proof.
  intros Hm Hp. destruct call as [v|v|h v|h v|h want|want|want|h|h|h| | | | | |].
  - by apply push_front_sound.
  - by apply push_back_sound.
  - by apply insert_before_sound.
  - by apply insert_after_sound.
  - by apply erase_sound.
  - by apply pop_front_sound.
  - by apply pop_back_sound.
  - by apply value_sound.
  - by apply next_sound.
  - by apply prev_sound.
  - eapply list_seen_sound; [done|done|by eapply list_forward_value|constructor|done].
  - eapply list_seen_sound; [done|done|by eapply list_backward_value|constructor|done].
  - eapply list_seen_sound; [done|done|by eapply list_front_value|constructor|done].
  - eapply list_seen_sound; [done|done|by eapply list_back_value|constructor|done].
  - cbn [run_list_call]. pose proof (list_size_spec _ _ _ Hm) as Hs. rewrite Hs. apply wp_ret.
    apply list_same_sound; [done|done|constructor|done|apply delta_refl].
  - cbn [run_list_call]. eapply wp_bind_mono; [by eapply list_clear_spec|].
    intros r w1 (m' & -> & Hm' & Hk & H1). apply wp_ret.
    exists ListCleared, m', ready, [], []. simpl. rewrite Z.add_0_r.
    split_and!; [done|done|done|by constructor|constructor|done].
Qed.

(** Any calls. *)
Lemma list_calls_spec calls m ready its xs w :
  inv m ready xs -> at_elements its xs ->
  wp (run_calls calls its (Some m)) (fun r w' => exists as_ its' m' ready' xs',
    r = (as_, its', Some m') /\ inv m' ready' xs' /\ list_kept m m' /\ at_elements its' xs' /\
    list_answers_all self (list_limit m) ready its xs calls as_ its' xs' /\
    delta w w' (list_blocks m' - list_blocks m)
      (list_objects m' - list_objects m + list_all_handed_out (list_type m) as_)) w.
Proof.
  revert m ready its xs w. induction calls as [|call calls IH]; intros m ready its xs w Hm Hp; simpl.
  { apply wp_ret. exists [], its, m, ready, xs. simpl. rewrite Z.add_0_r, !Z.sub_diag.
    split_and!; [done..|constructor|apply delta_refl]. }
  eapply wp_bind_mono; [by apply list_call_spec|].
  intros r w1 (a & m1 & ready1 & its1 & xs1 & -> & Hm1 & Hk1 & Hp1 & Ha & H1).
  eapply wp_bind_mono; [by apply (IH m1 ready1 its1 xs1)|].
  intros r w2 (as_ & its2 & m2 & ready2 & xs2 & -> & Hm2 & Hk2 & Hp2 & Has & H2).
  rewrite (lk_limit _ _ Hk1), (lk_type _ _ Hk1) in *.
  apply wp_ret. exists (a :: as_), its2, m2, ready2, xs2.
  split_and!; [done|done|by etransitivity|done|by econstructor|simpl; solve_delta].
Qed.

(** Lists without elements: bound to a type, or what an initialisation makes of a handle
    without a list. *)
Inductive list_created w : bool -> list_t V -> object_world U -> Prop :=
  | list_created_bound m : list_bound list_desc m -> list_created w false m w
  | list_created_typed type limit m m' w' :
      lt_impl m = None -> element_sizes type -> is_size limit ->
      list_raw_init (Some m) type limit w = Some ((STL_OK, Some m'), w') -> list_created w true m' w'
  | list_created_bytes elem_size elem_align limit m m' w' :
      lt_impl m = None -> is_size elem_size -> is_size elem_align -> is_size limit ->
      list_init_bytes (Some m) elem_size elem_align limit w = Some ((STL_OK, Some m'), w') ->
      list_created w true m' w'.

Lemma list_created_inv w ready m w1 :
  list_created w ready m w1 -> inv m ready [] /\ delta w w1 (list_blocks m) (list_objects m).
Proof.
  intros [m0 Hb|type limit m0 m' w' H0 Hs Hl E|es ea limit m0 m' w' H0 Hes Hea Hl E].
  - split; [by split|]. unfold list_blocks, list_objects. rewrite (bound_impl _ _ Hb). apply delta_refl.
  - destruct (wp_run _ _ _ (list_raw_init_spec list_desc m0 type limit w H0 Hs Hl)) as (r & w2 & E' & Hr).
    rewrite E in E'. injection E' as <- <-.
    destruct Hr as [(m1 & [= <-] & Hinv & _ & _ & _ & _ & Hd & -> & ->)|(st & [= <- _] & Hne & _)]; done.
  - destruct (wp_run _ _ _ (list_initialize_spec list_desc m0 None es ea limit w H0 Hes Hea Hl I)) as (r & w2 & E' & Hr).
    unfold list_init_bytes in E. rewrite E in E'. injection E' as <- <-.
    destruct Hr as [(m1 & [= <-] & Hinv & _ & _ & _ & _ & Hd & -> & ->)|(st & [= <- _] & _ & [?|[_ ?]])]; done.
Qed.

(** C23: (refinement) Whatever operations are called on a linked list, initialised or only
    bound to its type, in whatever order, none follows a pointer to a node that is gone or
    reads a raw or moved object, all return, and the answers are those of a list of elements
    at distinct places: an insertion puts the element at a new place beside the iterator's,
    an iterator stays at its element whatever comes and goes beside it, walks go through the
    elements in order, and an insertion fails only for want of memory or capacity and
    changes nothing.  Destroyed afterwards, the list leaves as many blocks as before its
    creation, and as many objects but for those that removals handed to the caller. *)
Theorem list_refines_places w ready m w1 calls :
  list_created w ready m w1 ->
  exists as_ its m' w2 xs m'' w3,
    run_calls calls [] (Some m) w1 = Some ((as_, its, Some m'), w2) /\
    list_answers_all self (list_limit m) ready [] [] calls as_ its xs /\ NoDup xs.*1 /\
    list_raw_destroy_storage (Some m') w2 = Some (Some m'', w3) /\
    ow_blocks w3 = ow_blocks w /\
    ow_objects w3 = ow_objects w + list_all_handed_out (list_type m) as_.
Proof.
  intros [Hm H0]%list_created_inv.
  destruct (wp_run _ _ _ (list_calls_spec calls m ready [] [] w1 Hm ltac:(by constructor)))
    as (r & w2 & Hrun & as_ & its & m' & ready' & xs & -> & Hm' & Hk & _ & Ha & H1).
  destruct (wp_run _ _ _ (list_destroy_spec list_desc m' ready' xs w2 Hm')) as (r & w3 & Hdes & m'' & -> & _ & H2).
  exists as_, its, m', w2, xs, m'', w3. split_and!; [done|done| |done|destruct H0, H1, H2; lia..].
  destruct ready'; [|destruct Hm' as [_ ->]; apply NoDup_nil_2].
  destruct Hm' as (i & ys & _ & Hok). rewrite <- (holds_names _ _ (ii_holds _ _ _ Hok)). apply (lk_distinct _ _ (ii_links _ _ _ Hok)).
Qed.

End Refinement.
