(* ===== verification/CstlDeque.v ===== *)
(** The double-ended queue of cstl (cstl/include/cstl/deque.h, cstl/src/deque.c): a ring of
    objects that grows.

    The array and its storage are those of [CstlSequence]; the object at an index is in the
    slot behind [head] by it, around the end of the array.  A pointer to an object is its
    slot. *)

From S2P Require Import Prelude.
From S2P Require Import CMetaType.
From S2P Require Import CstlSupport.
From S2P Require Import CstlSequence.

Definition SALTS_DEQUE_MIN_CAPACITY : Z := 8.

Record deque_t (V : Type) := mk_deque {
  dq_descriptor : option addr;
  dq_sequence : sequence V;
  dq_head : Z;
  dq_generation : Z;
  dq_initialized : bool;
}.
Arguments mk_deque {V}.
Arguments dq_descriptor {V}.
Arguments dq_sequence {V}.
Arguments dq_head {V}.
Arguments dq_generation {V}.
Arguments dq_initialized {V}.

(** [memset] to zero, but for the generation. *)
Definition zero_deque {V} (generation : Z) : deque_t V := mk_deque None zero_sequence 0 generation false.

Definition set_dq_sequence {V} (q : sequence V) (d : deque_t V) : deque_t V :=
  mk_deque (dq_descriptor d) q (dq_head d) (dq_generation d) (dq_initialized d).

Definition set_dq_head {V} (head : Z) (d : deque_t V) : deque_t V :=
  mk_deque (dq_descriptor d) (dq_sequence d) head (dq_generation d) (dq_initialized d).

Definition set_dq_generation {V} (generation : Z) (d : deque_t V) : deque_t V :=
  mk_deque (dq_descriptor d) (dq_sequence d) (dq_head d) generation (dq_initialized d).

Definition set_dq_descriptor {V} (descriptor : option addr) (d : deque_t V) : deque_t V :=
  mk_deque descriptor (dq_sequence d) (dq_head d) (dq_generation d) (dq_initialized d).

(** [++deque->generation] with the new contents. *)
Definition deque_changed {V} (q : sequence V) (head : Z) (d : deque_t V) : deque_t V :=
  set_dq_generation (size_inc (dq_generation d)) (set_dq_head head (set_dq_sequence q d)).

Section Deque.
Context {V U : Type} `{!ObjectTraits V U} `{!AllocatorCalls U}.
(** The addresses of [stl_deque_container_desc] and [stl_queue_container_desc]. *)
Context (deque_desc queue_desc : addr).
#[local] Abbreviation deque := (deque_t V).
#[local] Abbreviation config d := (sq_config (dq_sequence d)).
#[local] Abbreviation size d := (sq_size (dq_sequence d)).
#[local] Abbreviation capacity d := (sq_capacity (dq_sequence d)).

Definition deque_valid (d : option deque) : bool :=
  match d with
  | None => false
  | Some d => dq_initialized d && negb (sc_size (config d) =? 0)
  end.

Definition deque_is_typed_semantic_zero (d : option deque) : bool :=
  match d with
  | None => false
  | Some d =>
      negb (dq_initialized d) && sequence_is_zero (dq_sequence d) && (dq_head d =? 0) &&
      (bool_decide (dq_descriptor d = Some deque_desc) || bool_decide (dq_descriptor d = Some queue_desc))
  end.

(** * Slots *)

(** [(deque->head + index) % deque->capacity]; a capacity of 0 makes it undefined. *)
Definition deque_physical (d : deque) (index : Z) : option Z :=
  if capacity d =? 0 then None else Some (u64 (dq_head d + index) mod capacity d).

Definition deque_at_slot : deque -> Z -> option Z := deque_physical.

(** [for (index = 0u; index < deque->size; ++index) sequence_move_destroy (...)] from the
    ring to the new array. *)
Fixpoint move_ring (d : deque) (old new : list (cell V)) (index fuel : nat)
    : store U (stl_status * (list (cell V) * list (cell V))) :=
  match fuel with
  | O => ret (STL_OK, (old, new))
  | S fuel =>
      let* from := reading (deque_at_slot d (Z.of_nat index)) in
      let* source := reading (old !! Z.to_nat from) in
      let* destination := reading (new !! index) in
      let* (status, (destination, source)) := sequence_move_destroy (sc_type (config d)) destination source in
      let old := <[Z.to_nat from := source]> old in
      let new := <[index := destination]> new in
      if bool_decide (status = STL_OK) then move_ring d old new (S index) fuel
      else ret (status, (old, new))
  end.

(** The status, and whether the storage changed. *)
Definition deque_grow_to (d : deque) (minimum : Z) : store U (stl_status * bool * deque) :=
  let q := dq_sequence d in
  let c := sq_config q in
  if negb (deque_valid (Some d)) then ret (STL_INVALID_ARGUMENT, false, d)
  else if minimum <=? sq_capacity q then ret (STL_OK, false, d)
  else
    let* next := reading (next_capacity SALTS_DEQUE_MIN_CAPACITY (sq_capacity q) minimum (sc_limit c)) in
    match next with
    | StlFail status => ret (status, false, d)
    | StlOk capacity =>
        let* allocated := vec_memory_allocate None capacity (sc_stride c) (sc_align c) in
        match allocated with
        | StlFail status => ret (status, false, d)
        | StlOk data =>
            let* block := reading data in
            let fresh := replicate (Z.to_nat capacity) Raw in
            let* (status, (old, new)) := move_ring d (cells_of q) fresh 0 (Z.to_nat (sq_size q)) in
            if bool_decide (status = STL_OK) then
              let* _ := vec_memory_deallocate None (block_of q) in
              ret (STL_OK, true,
                   set_dq_head 0 (set_dq_sequence
                     (mk_sequence (Some (mk_storage block new)) (sq_size q) capacity c) d))
            else
              let* _ := vec_memory_deallocate None data in
              ret (status, false, set_dq_sequence (set_sq_cells old q) d)
        end
    end.

(** * Initialisation *)

Definition deque_initialize (d : option deque) (type : option cmeta_type_desc)
    (elem_size elem_align limit : Z) : stl_status * option deque :=
  match d with
  | None => (STL_INVALID_ARGUMENT, d)
  | Some old =>
      if dq_initialized old then (STL_INVALID_ARGUMENT, d)
      else
        match sequence_stride elem_size elem_align with
        | StlFail status => (status, d)
        | StlOk stride =>
            (STL_OK, Some (mk_deque None
               (mk_sequence None 0 0 (mk_sequence_config elem_size stride elem_align limit type))
               0 (size_inc (dq_generation old)) true))
        end
  end.

Definition deque_init_bytes (d : option deque) (elem_size elem_align element_limit : Z)
    : stl_status * option deque := deque_initialize d None elem_size elem_align element_limit.

Definition deque_raw_init (d : option deque) (element_type : option cmeta_type_desc) (element_limit : Z)
    : stl_status * option deque :=
  match d with
  | None => (STL_INVALID_ARGUMENT, d)
  | Some old =>
      if dq_initialized old then (STL_INVALID_ARGUMENT, d)
      else
        match element_type, sequence_require_type element_type false with
        | Some t, STL_OK => deque_initialize d element_type (td_size t) (td_align t) element_limit
        | None, STL_OK => (STL_INVALID_ARGUMENT, d)
        | _, status => (status, d)
        end
  end.

(** The handle after it, and whether it was initialised by it. *)
Definition deque_materialize_for_mutation (d : option deque) : stl_status * option deque * bool :=
  if deque_valid d then (STL_OK, d, false)
  else if negb (deque_is_typed_semantic_zero d) then (STL_INVALID_ARGUMENT, d, false)
  else
    match d with
    | None => (STL_INVALID_ARGUMENT, d, false)
    | Some zero =>
        match deque_raw_init d (sc_type (config zero)) SIZE_MAX with
        | (STL_OK, Some m) =>
            (STL_OK, Some (set_dq_generation (dq_generation zero)
                             (set_dq_descriptor (dq_descriptor zero) m)), true)
        | (status, _) => (status, d, false)
        end
    end.

(** * Destruction *)

(** The loop of [deque_clear]. *)
Fixpoint clear_ring (d : deque) (q : sequence V) (index fuel : nat) : store U (stl_status * sequence V) :=
  match fuel with
  | O => ret (STL_OK, q)
  | S fuel =>
      let* slot := reading (deque_at_slot d (Z.of_nat index)) in
      let* (status, q) := destroy_at q slot in
      if bool_decide (status = STL_OK) then clear_ring d q (S index) fuel else ret (status, q)
  end.

Definition deque_clear (d : option deque) : store U (stl_status * option deque) :=
  match d with
  | None => ret (STL_INVALID_ARGUMENT, d)
  | Some m =>
      if negb (deque_valid d) then ret (STL_INVALID_ARGUMENT, d)
      else
        let* (status, q) := clear_ring m (dq_sequence m) 0 (Z.to_nat (size m)) in
        if bool_decide (status = STL_OK) then
          if size m =? 0 then ret (STL_OK, Some (set_dq_sequence q m))
          else ret (STL_OK, Some (deque_changed (set_sq_size 0 q) 0 m))
        else ret (status, Some (set_dq_sequence q m))
  end.

Definition deque_raw_destroy_storage (d : option deque) : store U (option deque) :=
  match d with
  | None => ret None
  | Some m =>
      if dq_initialized m then
        let* (_, cleared) := deque_clear d in
        let* m := reading cleared in
        let* _ := vec_memory_deallocate None (block_of (dq_sequence m)) in
        ret (Some (zero_deque (size_inc (dq_generation m))))
      else ret (Some (zero_deque (dq_generation m)))
  end.

Definition deque_rollback_materialization (m zero_snapshot : deque) (materialized : bool) : store U deque :=
  if negb materialized then ret m
  else let* _ := deque_raw_destroy_storage (Some m) in ret zero_snapshot.

(** A failure of a push. *)
Definition deque_fail (status : stl_status) (m zero_snapshot : deque) (materialized : bool)
    : store U (stl_status * option deque) :=
  let* m := deque_rollback_materialization m zero_snapshot materialized in ret (status, Some m).

(** * Operations *)

Definition deque_reserve (d : option deque) (min_capacity : Z) : store U (stl_status * option deque) :=
  match d with
  | None => ret (STL_INVALID_ARGUMENT, d)
  | Some m =>
      let* (status, changed, m) := deque_grow_to m min_capacity in
      if bool_decide (status = STL_OK) && changed
      then ret (status, Some (set_dq_generation (size_inc (dq_generation m)) m))
      else ret (status, Some m)
  end.

(** The slot of a new object, and the head then. *)
Definition back_slot (m : deque) : option (Z * Z) :=
  slot ← deque_physical m (size m); Some (slot, dq_head m).
Definition front_slot (m : deque) : option (Z * Z) :=
  let head := if dq_head m =? 0 then size_dec (capacity m) else size_dec (dq_head m) in Some (head, head).

(** What [deque_push_back] and [deque_push_front] share; they differ in the slot. *)
Definition deque_push (slot_of : deque -> option (Z * Z)) (d : option deque) (elem : option V)
    : store U (stl_status * option deque) :=
  match d, elem with
  | Some zero, Some _ =>
      match deque_materialize_for_mutation d with
      | (STL_OK, Some m, materialized) =>
          if sc_limit (config m) <=? size m
          then deque_fail STL_CAPACITY_EXCEEDED m zero materialized
          else
            let* (status, prepared) := prepare_copy None (config m) elem in
            match prepared with
            | None => deque_fail status m zero materialized
            | Some new =>
                let* (status, _, m) := deque_grow_to m (u64 (size m + 1)) in
                if bool_decide (status = STL_OK) then
                  let* (slot, head) := reading (slot_of m) in
                  let* (status, q) := move_in (dq_sequence m) slot (snd new) in
                  let* _ := vec_memory_deallocate None (Some (fst new)) in
                  if bool_decide (status = STL_OK)
                  then ret (STL_OK, Some (deque_changed (set_sq_size (size_inc (sq_size q)) q) head m))
                  else deque_fail status (set_dq_sequence q m) zero materialized
                else
                  let* _ := discard_prepared None (config m) prepared in
                  deque_fail status m zero materialized
            end
      | (status, d, _) => ret (status, d)
      end
  | _, _ => ret (STL_INVALID_ARGUMENT, d)
  end.

Definition deque_push_back : option deque -> option V -> store U (stl_status * option deque) :=
  deque_push back_slot.
Definition deque_push_front : option deque -> option V -> store U (stl_status * option deque) :=
  deque_push front_slot.

Definition deque_pop_back (d : option deque) (want : bool) : store U (stl_status * option deque * cell V) :=
  match d with
  | None => ret (STL_INVALID_ARGUMENT, d, Raw)
  | Some m =>
      if negb (deque_valid d) then ret (STL_INVALID_ARGUMENT, d, Raw)
      else if size m =? 0 then ret (STL_EMPTY, d, Raw)
      else
        let* slot := reading (deque_physical m (size_dec (size m))) in
        let* (status, out, q) := take_out (dq_sequence m) slot want in
        if bool_decide (status = STL_OK) then
          let size := size_dec (size m) in
          let head := if size =? 0 then 0 else dq_head m in
          ret (STL_OK, Some (deque_changed (set_sq_size size q) head m), out)
        else ret (status, Some (set_dq_sequence q m), out)
  end.

Definition deque_pop_front (d : option deque) (want : bool) : store U (stl_status * option deque * cell V) :=
  match d with
  | None => ret (STL_INVALID_ARGUMENT, d, Raw)
  | Some m =>
      if negb (deque_valid d) then ret (STL_INVALID_ARGUMENT, d, Raw)
      else if size m =? 0 then ret (STL_EMPTY, d, Raw)
      else
        let* (status, out, q) := take_out (dq_sequence m) (dq_head m) want in
        if bool_decide (status = STL_OK) then
          let* next := reading (deque_physical m 1) in
          let size := size_dec (size m) in
          let head := if size =? 0 then 0 else next in
          ret (STL_OK, Some (deque_changed (set_sq_size size q) head m), out)
        else ret (status, Some (set_dq_sequence q m), out)
  end.

Definition deque_set (d : option deque) (index : Z) (elem : option V) : store U (stl_status * option deque) :=
  match d with
  | None => ret (STL_INVALID_ARGUMENT, d)
  | Some m =>
      if negb (deque_valid d) || is_null elem || (size m <=? index) then ret (STL_INVALID_ARGUMENT, d)
      else
        let* (status, prepared) := prepare_copy None (config m) elem in
        match prepared with
        | None => ret (status, d)
        | Some (block, value) =>
            let* slot := reading (deque_at_slot m index) in
            let* (status, q) := destroy_at (dq_sequence m) slot in
            let* (status, q) :=
              if bool_decide (status = STL_OK) then move_in q slot value else ret (status, q) in
            let* _ := vec_memory_deallocate None (Some block) in
            if bool_decide (status = STL_OK) then ret (STL_OK, Some (deque_changed q (dq_head m) m))
            else ret (status, Some (set_dq_sequence q m))
        end
  end.

(** The slot a pointer stands for, or NULL. *)
Definition deque_front (d : option deque) : option Z :=
  m ← d; if deque_valid d && negb (size m =? 0) then Some (dq_head m) else None.

Definition deque_at (d : option deque) (index : Z) : option Z :=
  m ← d; if deque_valid d && (index <? size m) then deque_at_slot m index else None.

Definition deque_back (d : option deque) : option Z :=
  m ← d; if deque_valid d && negb (size m =? 0) then deque_at_slot m (size_dec (size m)) else None.

Definition deque_size (d : option deque) : Z :=
  match d with Some m => if deque_valid d then size m else 0 | None => 0 end.
Definition deque_capacity (d : option deque) : Z :=
  match d with Some m => if deque_valid d then capacity m else 0 | None => 0 end.
Definition deque_generation (d : option deque) : Z :=
  match d with Some m => dq_generation m | None => 0 end.
Definition deque_empty (d : option deque) : bool := deque_size d =? 0.

(** * Construction from an array *)

Fixpoint push_back_all (temporary : option deque) (elements : list V) (index fuel : nat)
    : store U (stl_status * option deque) :=
  match fuel with
  | O => ret (STL_OK, temporary)
  | S fuel =>
      let* elem := reading (elements !! index) in
      let* (status, temporary) := deque_push_back temporary (Some elem) in
      if bool_decide (status = STL_OK) then push_back_all temporary elements (S index) fuel
      else let* temporary := deque_raw_destroy_storage temporary in ret (status, temporary)
  end.

(** What the two functions share: [init] is what the initialisation of [temporary]
    answered. *)
Definition deque_from_rows (d : option deque) (elements : option (list V)) (count : nat) (limit : Z)
    (init : stl_status * option deque) : store U (stl_status * option deque) :=
  match d with
  | None => ret (STL_INVALID_ARGUMENT, d)
  | Some m =>
      if dq_initialized m then ret (STL_INVALID_ARGUMENT, d)
      else if (negb (count =? 0)%nat && is_null elements) || (limit <? Z.of_nat count)
      then ret (if limit <? Z.of_nat count then STL_CAPACITY_EXCEEDED else STL_INVALID_ARGUMENT, d)
      else
        match init with
        | (STL_OK, temporary) =>
            let* (status, temporary) := push_back_all temporary (default [] elements) 0 count in
            if bool_decide (status = STL_OK)
            then ret (STL_OK, set_dq_generation (size_inc (dq_generation m)) <$> temporary)
            else ret (status, d)
        | (status, _) => ret (status, d)
        end
  end.

Definition deque_from_array_bytes (d : option deque) (elements : option (list V)) (count : nat)
    (elem_size elem_align limit : Z) : store U (stl_status * option deque) :=
  deque_from_rows d elements count limit (deque_init_bytes (Some (zero_deque 0)) elem_size elem_align limit).

Definition deque_raw_from_array (d : option deque) (elements : option (list V)) (count : nat)
    (type : option cmeta_type_desc) (limit : Z) : store U (stl_status * option deque) :=
  deque_from_rows d elements count limit (deque_raw_init (Some (zero_deque 0)) type limit).

(** * Typed handles *)

(** The descriptor and the type of a handle, put back by the wrappers of deque.h. *)
Definition deque_rebind (old d : deque) : deque :=
  let q := dq_sequence d in
  let c := sq_config q in
  set_dq_descriptor (dq_descriptor old)
    (set_dq_sequence (mk_sequence (sq_data q) (sq_size q) (sq_capacity q)
       (mk_sequence_config (sc_size c) (sc_stride c) (sc_align c) (sc_limit c) (sc_type (config old)))) d).

Definition deque_init (d : option deque) (element_limit : Z) : stl_status * option deque :=
  match d with
  | None => (STL_INVALID_ARGUMENT, d)
  | Some old =>
      if is_null (sc_type (config old)) then (STL_INVALID_ARGUMENT, d)
      else
        let (status, d) := deque_raw_init d (sc_type (config old)) element_limit in
        (status, deque_rebind old <$> d)
  end.

Definition deque_from_array (d : option deque) (elements : option (list V)) (count : nat)
    (element_limit : Z) : store U (stl_status * option deque) :=
  match d with
  | None => ret (STL_INVALID_ARGUMENT, d)
  | Some old =>
      if is_null (sc_type (config old)) then ret (STL_INVALID_ARGUMENT, d)
      else
        let* (status, d) := deque_raw_from_array d elements count (sc_type (config old)) element_limit in
        ret (status, deque_rebind old <$> d)
  end.

Definition deque_destroy (d : option deque) : store U (option deque) :=
  match d with
  | None => ret None
  | Some old => let* d := deque_raw_destroy_storage d in ret (deque_rebind old <$> d)
  end.

End Deque.
