(* ===== verification/CstlDequeTheorems.v ===== *)
(** What each operation of a double-ended queue does to the list of its objects and to what
    is alive.

    A double-ended queue is a list: whatever operations are called on it, every answer is
    one that the list of its objects gives, every failure changes nothing, and what it
    allocates and constructs is exactly what its objects need. *)

From S2P Require Import Prelude.
From S2P Require Import CMetaType.
From S2P Require Import CstlSupport.
From S2P Require Import CstlObjects.
From S2P Require Import CstlSequence.
From S2P Require Import CstlSequenceSpecs.
From S2P Require Import CstlDeque.

(** * Rings *)

Section Rings.
Context {A : Type}.
Implicit Types l r : list A.

Lemma rotate_add_next h i n : (0 < n)%nat -> rotate_nat_add (rotate_nat_add h 1 n) i n = rotate_nat_add h (S i) n.
Proof.
  intros Hn. unfold rotate_nat_add. rewrite Z2Nat.id by (apply Z.mod_pos_bound; lia).
  rewrite Zplus_mod_idemp_l. do 2 f_equal. lia.
Qed.

Lemma rotate_add_around h n : (h < n)%nat -> rotate_nat_add h n n = h.
Proof.
  intros Hn. unfold rotate_nat_add. rewrite <- (Z.mul_1_l (Z.of_nat n)) at 1. rewrite Z_mod_plus_full.
  rewrite Z.mod_small by lia. apply Nat2Z.id.
Qed.

Lemma rotate_next l h x r :
  (h < length l)%nat -> rotate h l = x :: r -> rotate (rotate_nat_add h 1 (length l)) l = r ++ [x].
Proof.
  intros Hh E. assert (length l = S (length r)) as Hlen by (by rewrite <- (length_rotate l h), E).
  apply list_eq. intros i. destruct (decide (i < length l)%nat) as [Hi|Hi].
  2: { rewrite !(proj2 (lookup_ge_None _ _)); [done| |]; rewrite ?length_rotate, ?length_app; simpl; lia. }
  rewrite lookup_rotate_r by done.
  assert (forall j, (j < length l)%nat -> l !! rotate_nat_add h j (length l) = (x :: r) !! j) as Hring
    by (intros j Hj; by rewrite <- lookup_rotate_r, E).
  destruct (decide (S i < length l)%nat) as [Hsi|Hsi].
  - rewrite lookup_app_l by lia. change (r !! i) with ((x :: r) !! S i). rewrite <- Hring by done. f_equal.
    apply rotate_add_next. lia.
  - rewrite lookup_app_r by lia. replace (i - length r)%nat with 0%nat by lia. simpl.
    change (Some x) with ((x :: r) !! 0%nat). rewrite <- Hring by lia. f_equal.
    rewrite rotate_add_next, (rotate_nat_add_0 h) by lia. replace (S i) with (length l) by lia. by apply rotate_add_around.
Qed.

(** A step back. *)
Lemma rotate_previous l h x r :
  (h < length l)%nat -> rotate (rotate_nat_add h 1 (length l)) l = r ++ [x] -> rotate h l = x :: r.
Proof.
  intros Hh E. destruct (rotate h l) as [|y r'] eqn:E'.
  - apply (f_equal length) in E'. rewrite length_rotate in E'. simpl in E'. lia.
  - rewrite (rotate_next l h y r') in E by done. by apply app_inj_tail in E as [-> ->].
Qed.

Lemma rotate_nothing h : rotate h (@nil A) = [].
Proof. by destruct h. Qed.

Lemma rotate_perm l h : rotate h l ≡ₚ l.
Proof. unfold rotate. rewrite (Permutation_app_comm _ (take _ _)). by rewrite take_drop. Qed.

End Rings.

(** The largest limit for which the sum of the head and an index does not wrap. *)
Definition RING_LIMIT : Z := 2 ^ 63.

Section DequeOps.
Context {V U : Type} `{HV : ObjectTraits V U} `{!TraitLaws V U} `{!AllocatorCalls U}.
Context (deque_desc queue_desc : addr).
Implicit Types w : object_world U.
Implicit Types m : deque_t V.
Implicit Types q : sequence V.
Implicit Types l : list V.
Implicit Types want : bool.

Definition deque_config m : sequence_config := sq_config (dq_sequence m).
Definition deque_blocks m : Z := sequence_blocks (dq_sequence m).
Definition deque_objects m : Z := sequence_objects (dq_sequence m).
Definition deque_limit m : Z := sc_limit (deque_config m).

(** * The invariant *)

(** The ring from the head on. *)
Definition ring_of m : list (cell V) := rotate (Z.to_nat (dq_head m)) (cells_of (dq_sequence m)).

(** An initialised queue whose ring holds the objects [l], from the head on. *)
Record deque_inv m l : Prop := {
  di_initialized : dq_initialized m = true;
  di_size : sq_size (dq_sequence m) = Z.of_nat (length l);
  di_config : sequence_config_ok (deque_config m);
  di_capacity : sq_capacity (dq_sequence m) <= deque_limit m;
  di_small : deque_limit m <= RING_LIMIT;
  di_block : match sq_data (dq_sequence m) with Some s => block_from None (st_block s) | None => True end;
  di_cells : sq_capacity (dq_sequence m) = Z.of_nat (length (cells_of (dq_sequence m)));
  di_head : 0 <= dq_head m <= 0 \/ 0 <= dq_head m < sq_capacity (dq_sequence m);
  di_ring : exists rest, ring_of m = (Live <$> l) ++ rest /\ Forall (vacant (sc_type (deque_config m))) rest;
}.

Lemma deque_inv_valid m l : deque_inv m l -> deque_valid (Some m) = true.
Proof.
  intros H. unfold deque_valid. rewrite (di_initialized _ _ H). pose proof (sk_size _ (di_config _ _ H)) as Hs.
  unfold deque_config in Hs. by rewrite (proj2 (Z.eqb_neq _ _)) by lia.
Qed.

Lemma deque_inv_range m l :
  deque_inv m l -> 0 <= sq_size (dq_sequence m) <= sq_capacity (dq_sequence m) /\
    sq_capacity (dq_sequence m) <= RING_LIMIT.
Proof.
  intros H. destruct (di_ring _ _ H) as (rest & E & _). apply (f_equal length) in E.
  unfold ring_of in E. rewrite length_rotate, length_app, length_fmap in E.
  rewrite (di_size _ _ H), (di_cells _ _ H). pose proof (di_capacity _ _ H) as Hc. rewrite (di_cells _ _ H) in Hc.
  pose proof (di_small _ _ H). lia.
Qed.

Lemma deque_head_range m l :
  deque_inv m l -> 0 < sq_capacity (dq_sequence m) -> 0 <= dq_head m < sq_capacity (dq_sequence m).
Proof. intros H Hc. destruct (di_head _ _ H); lia. Qed.

(** The slot of an index. *)
Definition slot_at m (i : nat) : nat :=
  rotate_nat_add (Z.to_nat (dq_head m)) i (length (cells_of (dq_sequence m))).

Lemma physical_spec m l (i : nat) :
  deque_inv m l -> Z.of_nat i < sq_capacity (dq_sequence m) ->
  deque_physical m (Z.of_nat i) = Some (Z.of_nat (slot_at m i)).
Proof.
  intros H Hi. pose proof (deque_head_range _ _ H ltac:(lia)) as Hh. pose proof (deque_inv_range _ _ H) as [_ Hr].
  unfold deque_physical. rewrite (proj2 (Z.eqb_neq _ _)) by lia. f_equal. unfold slot_at, rotate_nat_add.
  rewrite (Z2Nat.id (dq_head m)) by lia. rewrite <- (di_cells _ _ H).
  assert (u64 (dq_head m + Z.of_nat i) = dq_head m + Z.of_nat i) as -> by (unfold RING_LIMIT in Hr; unfold u64; rewrite Z.mod_small; lia).
  rewrite Z2Nat.id; [done|]. apply Z.mod_pos_bound. lia.
Qed.

Lemma slot_cell m l i :
  deque_inv m l -> (i < length (cells_of (dq_sequence m)))%nat ->
  cells_of (dq_sequence m) !! slot_at m i = ring_of m !! i.
Proof. intros H Hi. unfold ring_of, slot_at. by rewrite lookup_rotate_r. Qed.

Lemma slot_insert m (i : nat) c :
  (i < length (cells_of (dq_sequence m)))%nat ->
  rotate (Z.to_nat (dq_head m)) (<[slot_at m i := c]> (cells_of (dq_sequence m))) = <[i := c]> (ring_of m).
Proof. intros Hi. unfold slot_at, ring_of. by rewrite rotate_insert_l. Qed.

(** The object at an index. *)
Lemma object_at m l i v :
  deque_inv m l -> l !! i = Some v ->
  (i < length (cells_of (dq_sequence m)))%nat /\ deque_physical m (Z.of_nat i) = Some (Z.of_nat (slot_at m i)) /\
  cells_of (dq_sequence m) !! slot_at m i = Some (Live v).
Proof.
  intros H Hv. pose proof (lookup_lt_Some _ _ _ Hv) as Hi. pose proof (deque_inv_range _ _ H) as [[_ Hc] _].
  rewrite (di_size _ _ H), (di_cells _ _ H) in Hc.
  assert (i < length (cells_of (dq_sequence m)))%nat as Hlt by lia. split_and!; [done| |].
  - eapply physical_spec; [done|]. rewrite (di_cells _ _ H). lia.
  - rewrite (slot_cell m l) by done. destruct (di_ring _ _ H) as (rest & -> & _). by apply live_cell.
Qed.

(** What no operation changes. *)
Definition deque_kept m m' : Prop := deque_config m' = deque_config m.

(** Other cells and another head for the same array. *)
Lemma deque_inv_changed m l q' head' l' rest' :
  deque_inv m l -> is_Some (sq_data (dq_sequence m)) ->
  sq_config q' = deque_config m -> sq_capacity q' = sq_capacity (dq_sequence m) ->
  st_block <$> sq_data q' = st_block <$> sq_data (dq_sequence m) ->
  length (cells_of q') = length (cells_of (dq_sequence m)) -> sq_size q' = Z.of_nat (length l') ->
  0 <= head' < sq_capacity (dq_sequence m) \/ head' = 0 ->
  rotate (Z.to_nat head') (cells_of q') = (Live <$> l') ++ rest' ->
  Forall (vacant (sc_type (deque_config m))) rest' ->
  deque_inv (deque_changed q' head' m) l' /\ deque_kept m (deque_changed q' head' m).
Proof.
  intros H [s Hs] Hc Hcap Hb Hlen Hsz Hh Hring Hv. split; [|exact Hc].
  split; unfold deque_limit, deque_config, ring_of in *; simpl; rewrite ?Hc; try apply H; try done.
  - rewrite Hcap. apply H.
  - pose proof (di_block _ _ H) as Hblk. rewrite Hs in Hb, Hblk. destruct (sq_data q') as [s'|]; [|done].
    injection Hb as Hb. by rewrite Hb.
  - rewrite Hcap, Hlen. apply H.
  - rewrite Hcap. destruct Hh as [|Hh]; [by right|left; lia].
  - by exists rest'.
Qed.

(** * Growth *)

Lemma slot_at_inj m (i j : nat) :
  (Z.to_nat (dq_head m) < length (cells_of (dq_sequence m)))%nat ->
  (i < length (cells_of (dq_sequence m)))%nat -> (j < length (cells_of (dq_sequence m)))%nat ->
  slot_at m i = slot_at m j -> i = j.
Proof.
  intros Hh Hi Hj. unfold slot_at. rewrite !rotate_nat_add_alt by done. repeat case_decide; lia.
Qed.

Lemma head_below m l i v :
  deque_inv m l -> l !! i = Some v -> (Z.to_nat (dq_head m) < length (cells_of (dq_sequence m)))%nat.
Proof.
  intros H Hv. destruct (object_at _ _ _ _ H Hv) as (Hi & _). pose proof (di_cells _ _ H) as Hc.
  pose proof (deque_head_range _ _ H ltac:(lia)). lia.
Qed.

Lemma move_ring_spec m l old fuel index n w :
  deque_inv m l -> (index + fuel = length l)%nat -> (fuel <= n)%nat ->
  (forall k v, (index <= k)%nat -> l !! k = Some v -> old !! slot_at m k = Some (Live v)) ->
  wp (move_ring m old ((Live <$> take index l) ++ replicate n Raw) index fuel) (fun r w' =>
    exists old', r = (STL_OK, (old', (Live <$> l) ++ replicate (n - fuel) Raw)) /\ delta w w' 0 0) w.
Proof.
  intros H. revert old index n w. induction fuel as [|fuel IH]; intros old index n w Hi Hn Hold; cbn [move_ring].
  { apply wp_ret. exists old. rewrite take_ge, Nat.sub_0_r by lia. split; [done|apply delta_refl]. }
  destruct (lookup_lt_is_Some_2 l index ltac:(lia)) as [v Hv]. destruct n as [|n]; [lia|].
  destruct (object_at _ _ _ _ H Hv) as (Hlt & Hp & _). pose proof (head_below _ _ _ _ H Hv) as Hh.
  eapply wp_bind, wp_reading; [exact Hp|]. rewrite Nat2Z.id.
  eapply wp_bind, wp_reading; [by apply Hold|]. simpl replicate.
  eapply wp_bind, wp_reading; [apply middle_cell; rewrite length_take; lia|].
  eapply wp_bind_mono; [apply sequence_move_destroy_spec; [apply element_supports; [apply (di_config _ _ H)|done|done]|by destruct (sc_type _)]|].
  intros ? w1 [-> H1]. rewrite bool_decide_true by done. rewrite middle_insert by (rewrite length_take; lia).
  assert ((Live <$> take index l) ++ Live v :: replicate n Raw =
    (Live <$> take (S index) l) ++ replicate n Raw) as ->
    by (by rewrite (take_S_r _ _ _ Hv), fmap_app, <- app_assoc).
  eapply wp_mono; [apply IH; [lia|lia|]|].
  - intros k u Hk Hu. rewrite list_lookup_insert_ne; [apply Hold; [lia|done]|].
    intros E. destruct (object_at _ _ _ _ H Hu) as (Hlt' & _). apply slot_at_inj in E; [lia|done..].
  - intros r w2 (old' & -> & H2). exists old'. split; [done|]. solve_delta.
Qed.

(** The block of the ring. *)
Lemma release_ring_spec m l w :
  deque_inv m l ->
  wp (vec_memory_deallocate None (block_of (dq_sequence m))) (fun _ w' => delta w w' (- deque_blocks m) 0) w.
Proof.
  intros H. unfold deque_blocks, sequence_blocks, block_of. pose proof (di_block _ _ H) as Hb.
  destruct (sq_data (dq_sequence m)) as [s|]; simpl; [by apply (memory_deallocate_spec None)|apply wp_ret, delta_refl].
Qed.

Lemma rotate_start {A} (l : list A) : rotate 0 l = l.
Proof. unfold rotate. destruct l; [done|]. rewrite Nat.mod_small by (simpl; lia). by rewrite drop_0, take_0, app_nil_r. Qed.

(** A new block, with the ring from its start. *)
Lemma moved_inv m l block (capacity : Z) :
  deque_inv m l -> block_from None block -> Z.of_nat (length l) < capacity -> capacity <= deque_limit m ->
  deque_inv (set_dq_head 0 (set_dq_sequence (mk_sequence
    (Some (mk_storage block ((Live <$> l) ++ replicate (Z.to_nat capacity - length l) Raw)))
    (sq_size (dq_sequence m)) capacity (deque_config m)) m)) l.
Proof.
  intros H Hb Hlo Hhi. split; unfold deque_limit, deque_config, ring_of in *; simpl; try apply H; try done.
  - unfold cells_of. simpl. rewrite length_app, length_fmap, length_replicate. lia.
  - by left.
  - unfold cells_of. simpl. rewrite rotate_start. eexists. split; [done|]. apply Forall_replicate. by destruct (sc_type _).
Qed.

Lemma deque_grow_spec m l minimum w :
  deque_inv m l -> is_size minimum ->
  wp (deque_grow_to m minimum) (fun r w' =>
    (exists changed m', r = (STL_OK, changed, m') /\ deque_inv m' l /\ deque_kept m m' /\
       minimum <= sq_capacity (dq_sequence m') /\ (changed = true -> minimum <= deque_limit m) /\
       deque_objects m' = deque_objects m /\
       delta w w' (deque_blocks m' - deque_blocks m) 0) \/
    (exists status, r = (status, false, m) /\ no_room status /\
       (deque_limit m < minimum -> status = STL_CAPACITY_EXCEEDED) /\ delta w w' 0 0)) w.
Proof.
  intros H Hmin. pose proof (di_config _ _ H) as Hc. pose proof (deque_inv_range _ _ H) as [Hsz Hcap].
  unfold deque_grow_to. rewrite (deque_inv_valid _ _ H). cbn [negb]. fold (deque_config m).
  destruct (minimum <=? _) eqn:Hle; destruct_bools.
  { apply wp_ret. left. exists false, m. split_and!; try done. rewrite Z.sub_diag. apply delta_refl. }
  destruct (next_capacity_spec SALTS_DEQUE_MIN_CAPACITY (sq_capacity (dq_sequence m)) minimum (deque_limit m))
    as (r & Hr & Hspec); [done|lia|apply Hc|].
  eapply wp_bind, wp_reading; [exact Hr|]. destruct r as [capacity|status].
  2: { destruct Hspec as [-> Hlim]. apply wp_ret. right. eexists. split_and!; [done|by right|done|apply delta_refl]. }
  destruct (sk_align _ Hc) as [Ha Hv]. pose proof (sk_stride _ Hc) as Hst. pose proof (di_small _ _ H) as Hsm.
  unfold RING_LIMIT, is_size in *.
  eapply wp_bind_mono; [apply (memory_allocate_spec None); try done; unfold SIZE_MAX in *; lia|].
  intros [data|status] w1.
  2: { intros [Hn H1]. apply wp_ret. right. exists status. split_and!; [done|done|lia|done]. }
  intros [(b & -> & Hb) H1]. eapply wp_bind, wp_reading; [done|].
  pose proof (di_size _ _ H) as Hsize. rewrite Hsize, Nat2Z.id.
  eapply wp_bind_mono.
  { eapply (move_ring_spec m l (cells_of (dq_sequence m)) (length l) 0 (Z.to_nat capacity)); [done|lia|lia|].
    intros k v _ Hk. by eapply object_at. }
  intros r w2 (old & -> & H2). rewrite bool_decide_true by done.
  eapply wp_bind_mono; [by eapply release_ring_spec|]. intros ? w3 H3. apply wp_ret. left. do 2 eexists.
  rewrite <- Hsize. split; [done|]. split; [apply moved_inv; [done|done|lia|lia]|].
  split_and!; [done|simpl; lia|lia|done|]. unfold deque_blocks, sequence_blocks in *. simpl in *. solve_delta.
Qed.

(** * Pushes *)

(** Where a new object goes: a vacant cell, and the ring from the new head on once the
    object is in it. *)
Definition slot_spec (slot_of : deque_t V -> option (Z * Z)) (add : list V -> V -> list V) : Prop :=
  forall m l v, deque_inv m l -> Z.of_nat (length l) < sq_capacity (dq_sequence m) ->
    exists (i : nat) head c rest', slot_of m = Some (Z.of_nat i, head) /\
      cells_of (dq_sequence m) !! i = Some c /\ vacant (sc_type (deque_config m)) c /\
      0 <= head < sq_capacity (dq_sequence m) /\ length (add l v) = S (length l) /\
      rotate (Z.to_nat head) (<[i := Live v]> (cells_of (dq_sequence m))) = (Live <$> add l v) ++ rest' /\
      Forall (vacant (sc_type (deque_config m))) rest'.

Lemma back_slot_spec : slot_spec back_slot (fun l v => l ++ [v]).
Proof.
  intros m l v H Hl. unfold back_slot. rewrite (di_size _ _ H), (physical_spec _ _ _ H Hl). cbn [mbind option_bind].
  destruct (di_ring _ _ H) as (rest & E & Hv). pose proof (di_cells _ _ H) as Hc. rewrite Hc in Hl.
  assert (length l < length (cells_of (dq_sequence m)))%nat as Hlt by lia.
  assert (length (ring_of m) = length (cells_of (dq_sequence m))) as Hring by apply length_rotate.
  destruct rest as [|c rest]; [rewrite E, app_nil_r, length_fmap in Hring; lia|].
  apply Forall_cons in Hv as [Hv Hrest]. exists (slot_at m (length l)), (dq_head m), c, rest.
  rewrite (slot_cell m l), E, middle_cell, slot_insert, E, middle_insert by done. split_and!; try done.
  - pose proof (deque_head_range _ _ H ltac:(lia)). lia.
  - pose proof (deque_head_range _ _ H ltac:(lia)). lia.
  - rewrite length_app. simpl. lia.
  - by rewrite fmap_app, <- app_assoc.
Qed.

Lemma front_slot_spec : slot_spec front_slot (fun l v => v :: l).
Proof.
  intros m l v H Hl. unfold front_slot. pose proof (deque_head_range _ _ H ltac:(lia)) as Hh.
  pose proof (deque_inv_range _ _ H) as [_ Hr]. pose proof (di_cells _ _ H) as Hc. unfold RING_LIMIT in Hr.
  set (n := length (cells_of (dq_sequence m))) in *.
  set (head := if dq_head m =? 0 then size_dec (sq_capacity (dq_sequence m)) else size_dec (dq_head m)).
  assert (0 <= head < Z.of_nat n /\ rotate_nat_add (Z.to_nat head) 1 n = Z.to_nat (dq_head m)) as [Hhead Hnext].
  { unfold head. destruct (_ =? 0) eqn:H0; destruct_bools; rewrite size_dec_small by (unfold SIZE_MAX; lia).
    - split; [lia|]. unfold rotate_nat_add. rewrite Z2Nat.id by lia. rewrite Hc.
      replace (Z.of_nat n - 1 + Z.of_nat 1) with (Z.of_nat n) by lia. rewrite Z_mod_same_full. lia.
    - split; [lia|]. unfold rotate_nat_add. rewrite Z2Nat.id by lia. rewrite Z.mod_small by lia. lia. }
  destruct (di_ring _ _ H) as (rest & E & Hv).
  assert (length (ring_of m) = n) as Hring by apply length_rotate.
  destruct rest as [|c rest] using rev_ind; [rewrite E, app_nil_r, length_fmap in Hring; lia|clear IHrest].
  rewrite Forall_app, Forall_singleton in Hv. destruct Hv as [Hrest Hv]. unfold ring_of in E. rewrite <- Hnext, app_assoc in E.
  apply rotate_previous in E as Hprev; [|fold n; lia].
  exists (Z.to_nat head), head, c, rest. rewrite Z2Nat.id by lia. split_and!; try done; try lia.
  - assert (rotate (Z.to_nat head) (cells_of (dq_sequence m)) !! 0%nat = Some c) as Hc0 by (by rewrite Hprev).
    rewrite lookup_rotate_r in Hc0 by (fold n; lia). by rewrite rotate_nat_add_0 in Hc0 by (fold n; lia).
  - rewrite <- (rotate_nat_add_0 (Z.to_nat head) n) at 2 by lia. unfold n. rewrite rotate_insert_l by (fold n; lia).
    by rewrite Hprev.
Qed.

Definition pushed m l l' (r : stl_status * option (deque_t V)) w w' : Prop :=
  (exists m', r = (STL_OK, Some m') /\ deque_inv m' l' /\ deque_kept m m' /\ Z.of_nat (length l) < deque_limit m /\
     delta w w' (deque_blocks m' - deque_blocks m) (deque_objects m' - deque_objects m)) \/
  (exists status, r = (status, Some m) /\ no_room status /\
     (deque_limit m <= Z.of_nat (length l) -> status = STL_CAPACITY_EXCEEDED) /\ delta w w' 0 0).

Lemma deque_kept_trans m1 m2 m3 : deque_kept m1 m2 -> deque_kept m2 m3 -> deque_kept m1 m3.
Proof. unfold deque_kept. congruence. Qed.

Lemma deque_push_spec slot_of add m l v w :
  slot_spec slot_of add -> deque_inv m l ->
  wp (deque_push deque_desc queue_desc slot_of (Some m) (Some v)) (fun r w' => pushed m l (add l v) r w w') w.
Proof.
  intros Hslot H. pose proof (di_config _ _ H) as Hc. unfold deque_push, deque_materialize_for_mutation.
  rewrite (deque_inv_valid _ _ H). fold (deque_config m). fold (deque_limit m). rewrite (di_size _ _ H).
  destruct (_ <=? _) eqn:Hfull; destruct_bools.
  { eapply wp_bind, wp_ret, wp_ret. right. eexists. split_and!; [done|by right|done|apply delta_refl]. }
  eapply wp_bind_mono; [by apply (prepare_copy_spec None)|].
  intros r w1 [(b & -> & Hb & H1)|(status & -> & Hn & H1)].
  2: { eapply wp_bind, wp_ret, wp_ret. right. exists status. split_and!; [done|done|lia|done]. }
  pose proof (di_small _ _ H) as Hsm. unfold RING_LIMIT in Hsm.
  assert (u64 (Z.of_nat (length l) + 1) = Z.of_nat (length l) + 1) as -> by (unfold u64; apply Z.mod_small; lia).
  eapply wp_bind_mono; [apply (deque_grow_spec m l); [done|unfold is_size, SIZE_MAX; lia]|].
  intros r w2 [(changed & m1 & -> & Hm1 & Hk1 & Hcap & _ & Ho & H2)|(status & -> & Hn & Hl & H2)].
  - rewrite bool_decide_true by done.
    destruct (Hslot m1 l v Hm1 ltac:(lia)) as (i & head & c & rest & Es & Hi & Hv & Hh & Hlen & Ering & Hrest).
    eapply wp_bind, wp_reading; [exact Es|]. cbn [fst snd].
    eapply wp_bind_mono; [by apply (move_in_spec _ _ c), Hv; first apply (di_config _ _ Hm1)|].
    intros ? w3 [-> H3]. eapply wp_bind_mono; [by apply (memory_deallocate_spec None)|]. intros ? w4 H4.
    rewrite bool_decide_true by done. apply wp_ret. left. pose proof (cells_data _ _ _ Hi) as Hd.
    assert (is_size (sq_size (dq_sequence m1) + 1)) as Hsz
      by (rewrite (di_size _ _ Hm1); unfold is_size, SIZE_MAX; lia).
    cbn [sq_size set_sq_cells]. rewrite (di_size _ _ Hm1) in *. rewrite size_inc_small by (unfold is_size, SIZE_MAX in *; lia).
    edestruct (deque_inv_changed m1 l (set_sq_size (Z.of_nat (length l) + 1)
      (set_sq_cells (<[i := Live v]> (cells_of (dq_sequence m1))) (dq_sequence m1))) head (add l v) rest) as [Hinv Hk2]; try done.
    + destruct Hd as [s Hs]. simpl. by rewrite Hs.
    + change (cells_of (set_sq_size ?z ?q)) with (cells_of q). rewrite cells_set by done. apply length_insert.
    + simpl. lia.
    + by left.
    + change (cells_of (set_sq_size ?z ?q)) with (cells_of q). by rewrite cells_set.
    + eexists. split; [done|]. split; [exact Hinv|]. split; [by eapply deque_kept_trans|]. split; [lia|].
      unfold deque_kept, deque_config in Hk1, Hk2. unfold deque_blocks, deque_objects, sequence_blocks, sequence_objects in *.
      simpl in *. rewrite (di_size _ _ H) in Ho |- *. rewrite (di_size _ _ Hm1) in Ho. destruct Hd as [s Hs].
      rewrite Hs in *. simpl in *. fold (deque_config m) in *. unfold deque_config in *. rewrite Hk1 in *. solve_delta.
  - rewrite bool_decide_false by (by destruct Hn as [->| ->]).
    eapply wp_bind_mono; [by apply (discard_prepared_spec None)|]. intros ? w3 H3.
    eapply wp_bind, wp_ret, wp_ret. right. exists status. unfold deque_config in *.
    split_and!; [done|done|lia|solve_delta].
Qed.

(** * Removals *)

(** An empty ring begins anywhere. *)
Lemma emptied_ring (l : list V) type head (cells : list (cell V)) rest :
  rotate head cells = (Live <$> l) ++ rest -> Forall (vacant type) rest ->
  exists rest', rotate (if decide (l = []) then 0%nat else head) cells = (Live <$> l) ++ rest' /\
    Forall (vacant type) rest'.
Proof.
  intros E Hv. destruct (decide (l = [])) as [->|]; [|by exists rest]. rewrite rotate_start.
  exists cells. split; [done|]. simpl in E. rewrite <- (rotate_perm cells head), E. done.
Qed.

Lemma next_slot m l :
  deque_inv m l -> 0 < sq_capacity (dq_sequence m) ->
  deque_physical m 1 = Some (Z.of_nat (rotate_nat_add (Z.to_nat (dq_head m)) 1 (length (cells_of (dq_sequence m))))).
Proof.
  intros H Hc. pose proof (deque_head_range _ _ H Hc) as Hh. pose proof (deque_inv_range _ _ H) as [_ Hr].
  unfold deque_physical. rewrite (proj2 (Z.eqb_neq _ _)) by lia. f_equal. unfold rotate_nat_add.
  rewrite (Z2Nat.id (dq_head m)) by lia. rewrite <- (di_cells _ _ H). unfold RING_LIMIT in Hr.
  rewrite Z2Nat.id by (apply Z.mod_pos_bound; lia). unfold u64. by rewrite (Z.mod_small (dq_head m + 1)) by lia.
Qed.

(** An object left the ring, which begins at [head] then. *)
Lemma removed_inv m l (i : nat) v l' head rest' :
  deque_inv m l -> l !! i = Some v -> length l = S (length l') -> 0 <= head < sq_capacity (dq_sequence m) ->
  let e := ended (sc_type (deque_config m)) (Live v) in
  rotate (Z.to_nat head) (<[slot_at m i := e]> (cells_of (dq_sequence m))) = (Live <$> l') ++ rest' ->
  Forall (vacant (sc_type (deque_config m))) rest' ->
  let n := size_dec (sq_size (dq_sequence m)) in
  let m' := deque_changed (set_sq_size n (set_sq_cells (<[slot_at m i := e]> (cells_of (dq_sequence m))) (dq_sequence m)))
    (if n =? 0 then 0 else head) m in
  deque_inv m' l' /\ deque_kept m m' /\ deque_blocks m' = deque_blocks m /\
  deque_objects m' - deque_objects m = - typed (sc_type (deque_config m)).
Proof.
  intros H Hv Hlen Hh e Hring Hrest n m'. destruct (object_at _ _ _ _ H Hv) as (Hi & _ & Hcell).
  pose proof (cells_data _ _ _ Hcell) as Hd. pose proof (deque_inv_range _ _ H) as [[_ Hsz] Hr]. unfold RING_LIMIT in Hr.
  assert (n = Z.of_nat (length l')) as Hn
    by (unfold n; rewrite (di_size _ _ H) in *; rewrite size_dec_small by (unfold SIZE_MAX; lia); lia).
  destruct (emptied_ring l' (sc_type (deque_config m)) _ _ _ Hring Hrest) as (rest & E & Hv').
  assert (Z.to_nat (if n =? 0 then 0 else head) = if decide (l' = []) then 0%nat else Z.to_nat head) as Ehead.
  { rewrite Hn. destruct l'; [done|]. by rewrite (proj2 (Z.eqb_neq _ _)) by (simpl; lia). }
  edestruct (deque_inv_changed m l (set_sq_size n (set_sq_cells (<[slot_at m i := e]> (cells_of (dq_sequence m))) (dq_sequence m)))
    (if n =? 0 then 0 else head) l' rest) as [Hinv Hk]; try done.
  - destruct Hd as [s Hs]. simpl. by rewrite Hs.
  - change (cells_of (set_sq_size ?z ?q)) with (cells_of q). rewrite cells_set by done. apply length_insert.
  - destruct (n =? 0); [by right|by left].
  - change (cells_of (set_sq_size ?z ?q)) with (cells_of q). rewrite cells_set by done. by rewrite Ehead.
  - split_and!; [exact Hinv|exact Hk| |].
    + unfold deque_blocks, sequence_blocks. simpl. by destruct (sq_data (dq_sequence m)).
    + change (deque_inv m' l') in Hinv. change (deque_config m' = deque_config m) in Hk.
      unfold deque_objects, sequence_objects. rewrite (di_size _ _ Hinv), (di_size _ _ H), Hlen.
      unfold deque_config in *. rewrite Hk. lia.
Qed.

Definition popped m l v l' want (r : stl_status * option (deque_t V) * cell V) w w' : Prop :=
  exists m', r = (STL_OK, Some m', if want then Live v else Raw) /\ deque_inv m' l' /\ deque_kept m m' /\
    delta w w' (deque_blocks m' - deque_blocks m)
      (deque_objects m' - deque_objects m + if want then typed (sc_type (deque_config m)) else 0).

Lemma deque_pop_back_spec m l v want w :
  deque_inv m (l ++ [v]) ->
  wp (deque_pop_back (Some m) want) (fun r w' => popped m (l ++ [v]) v l want r w w') w.
Proof.
  intros H. pose proof (deque_inv_range _ _ H) as [[_ Hsz] Hr]. pose proof (di_size _ _ H) as Hs.
  rewrite length_app in Hs. cbn [length] in Hs. unfold RING_LIMIT in Hr.
  assert ((l ++ [v]) !! length l = Some v) as Hv by (by apply list_lookup_middle).
  destruct (object_at _ _ _ _ H Hv) as (Hi & Hp & Hcell).
  unfold deque_pop_back. rewrite (deque_inv_valid _ _ H), (proj2 (Z.eqb_neq _ _)) by lia. cbn [negb].
  assert (size_dec (sq_size (dq_sequence m)) = Z.of_nat (length l)) as Hn
    by (rewrite Hs, size_dec_small by (unfold SIZE_MAX; lia); lia).
  rewrite Hn at 1. eapply wp_bind, wp_reading; [exact Hp|].
  eapply wp_bind_mono; [by apply take_out_spec; [apply (di_config _ _ H)|]|]. intros ? w1 [-> H1].
  rewrite bool_decide_true by done. apply wp_ret.
  destruct (di_ring _ _ H) as (rest & E & Hrest).
  edestruct (removed_inv m (l ++ [v]) (length l) v l (dq_head m)) as (Hinv & Hk & Hb & Ho); [done|done| | |..].
  - rewrite length_app. simpl. lia.
  - apply (deque_head_range _ _ H). lia.
  - rewrite slot_insert by done. rewrite E, fmap_app, <- app_assoc. simpl. by rewrite middle_insert.
  - apply Forall_cons. split; [apply ended_vacant|exact Hrest].
  - eexists. split; [done|]. split; [exact Hinv|]. split; [exact Hk|]. unfold deque_config in *. rewrite Hb, Ho.
    destruct want; solve_delta.
Qed.

Lemma deque_pop_front_spec m l v want w :
  deque_inv m (v :: l) ->
  wp (deque_pop_front (Some m) want) (fun r w' => popped m (v :: l) v l want r w w') w.
Proof.
  intros H. pose proof (deque_inv_range _ _ H) as [[_ Hsz] Hr]. pose proof (di_size _ _ H) as Hs. cbn [length] in Hs.
  unfold RING_LIMIT in Hr. pose proof (deque_head_range _ _ H ltac:(lia)) as Hh. pose proof (di_cells _ _ H) as Hc.
  destruct (object_at m (v :: l) 0 v H eq_refl) as (Hi & _ & Hcell).
  assert (slot_at m 0 = Z.to_nat (dq_head m)) as H0 by (apply rotate_nat_add_0; lia).
  unfold deque_pop_front. rewrite (deque_inv_valid _ _ H), (proj2 (Z.eqb_neq _ _)) by lia. cbn [negb].
  rewrite <- (Z2Nat.id (dq_head m)), <- H0 at 1 by lia.
  eapply wp_bind_mono; [by apply take_out_spec; [apply (di_config _ _ H)|]|]. intros ? w1 [-> H1].
  rewrite bool_decide_true by done. eapply wp_bind, wp_reading; [eapply next_slot; [done|lia]|]. apply wp_ret.
  destruct (di_ring _ _ H) as (rest & E & Hrest). set (e := ended (sc_type (deque_config m)) (Live v)).
  assert (rotate (Z.to_nat (dq_head m)) (<[slot_at m 0 := e]> (cells_of (dq_sequence m))) = e :: (Live <$> l) ++ rest) as Ering
    by (rewrite slot_insert by done; by rewrite E).
  apply rotate_next in Ering; [|rewrite length_insert; lia]. rewrite length_insert in Ering.
  edestruct (removed_inv m (v :: l) 0 v l (Z.of_nat (rotate_nat_add (Z.to_nat (dq_head m)) 1 (length (cells_of (dq_sequence m))))))
    as (Hinv & Hk & Hb & Ho); [done|done|done| |..].
  - pose proof (rotate_nat_add_lt (Z.to_nat (dq_head m)) 1 (length (cells_of (dq_sequence m))) ltac:(lia)). lia.
  - rewrite Nat2Z.id. fold e. by rewrite Ering, <- app_assoc.
  - apply Forall_app. split; [exact Hrest|]. apply Forall_singleton, ended_vacant.
  - eexists. split; [done|]. split; [exact Hinv|]. split; [exact Hk|]. unfold deque_config in *. rewrite Hb, Ho.
    destruct want; solve_delta.
Qed.

(** * Assignment *)

Lemma deque_set_spec m l (i : Z) v w :
  deque_inv m l -> is_size i ->
  wp (deque_set (Some m) i (Some v)) (fun r w' =>
    (exists m', r = (STL_OK, Some m') /\ i < Z.of_nat (length l) /\ deque_inv m' (<[Z.to_nat i := v]> l) /\
       deque_kept m m' /\ delta w w' (deque_blocks m' - deque_blocks m) (deque_objects m' - deque_objects m)) \/
    (r = (STL_INVALID_ARGUMENT, Some m) /\ Z.of_nat (length l) <= i /\ delta w w' 0 0) \/
    (exists status, r = (status, Some m) /\ no_room status /\ i < Z.of_nat (length l) /\ delta w w' 0 0)) w.
Proof.
  intros H Hi. unfold is_size in Hi. pose proof (di_config _ _ H) as Hc. unfold deque_set. rewrite (deque_inv_valid _ _ H), (di_size _ _ H).
  cbn [is_null negb orb]. destruct (_ <=? i) eqn:Hle; destruct_bools.
  { apply wp_ret. right. left. split_and!; [done|done|apply delta_refl]. }
  eapply wp_bind_mono; [by apply (prepare_copy_spec None)|].
  intros r w1 [(b & -> & Hb & H1)|(status & -> & Hn & H1)].
  2: { apply wp_ret. right. right. exists status. by split_and!. }
  destruct (lookup_lt_is_Some_2 l (Z.to_nat i) ltac:(lia)) as [u Hu].
  destruct (object_at _ _ _ _ H Hu) as (Hlt & Hp & Hcell). rewrite Z2Nat.id in Hp by lia.
  eapply wp_bind, wp_reading; [exact Hp|].
  eapply wp_bind_mono; [by apply destroy_at_spec|]. intros ? w2 [-> H2]. rewrite bool_decide_true by done.
  pose proof (cells_data _ _ _ Hcell) as Hd. set (e := ended (sc_type (sq_config (dq_sequence m))) (Live u)) in *.
  set (s := slot_at m (Z.to_nat i)) in *.
  assert (s < length (cells_of (dq_sequence m)))%nat as Hslt by (by apply lookup_lt_Some in Hcell).
  eapply wp_bind_mono.
  { apply (move_in_spec _ s e v); [done|rewrite cells_set by done; by apply list_lookup_insert_eq|apply ended_vacant]. }
  intros ? w3 [-> H3]. eapply wp_bind_mono; [by apply (memory_deallocate_spec None)|]. intros ? w4 H4.
  rewrite bool_decide_true by done. apply wp_ret. left. rewrite cells_set, set_sq_cells_twice, list_insert_insert_eq by done.
  destruct (di_ring _ _ H) as (rest & E & Hrest).
  edestruct (deque_inv_changed m l (set_sq_cells (<[s := Live v]> (cells_of (dq_sequence m))) (dq_sequence m)) (dq_head m)
    (<[Z.to_nat i := v]> l) rest) as [Hinv Hk]; try done.
  - destruct Hd as [st Hs]. simpl. by rewrite Hs.
  - rewrite cells_set by done. apply length_insert.
  - rewrite length_insert. apply (di_size _ _ H).
  - destruct (di_head _ _ H); [right; lia|by left].
  - rewrite cells_set by done. unfold s. rewrite slot_insert, E by done. rewrite list_fmap_insert.
    apply insert_app_l. rewrite length_fmap. lia.
  - eexists. split; [done|]. split; [lia|]. split; [exact Hinv|]. split; [exact Hk|].
    assert (deque_blocks (deque_changed (set_sq_cells (<[s := Live v]> (cells_of (dq_sequence m))) (dq_sequence m)) (dq_head m) m) = deque_blocks m) as ->
      by (unfold deque_blocks, sequence_blocks; simpl; by destruct (sq_data (dq_sequence m))).
    change (deque_objects (deque_changed (set_sq_cells (<[s := Live v]> (cells_of (dq_sequence m))) (dq_sequence m)) (dq_head m) m)) with (deque_objects m).
    unfold deque_config in *. solve_delta.
Qed.

Lemma deque_reserve_spec m l n w :
  deque_inv m l -> is_size n ->
  wp (deque_reserve (Some m) n) (fun r w' =>
    (exists m', r = (STL_OK, Some m') /\ deque_inv m' l /\ deque_kept m m' /\
       delta w w' (deque_blocks m' - deque_blocks m) (deque_objects m' - deque_objects m)) \/
    (exists status, r = (status, Some m) /\ no_room status /\
       (deque_limit m < n -> status = STL_CAPACITY_EXCEEDED) /\ delta w w' 0 0)) w.
Proof.
  intros H Hn. eapply wp_bind_mono; [by eapply deque_grow_spec|].
  intros r w1 [(changed & m' & -> & Hm' & Hk & _ & _ & Ho & H1)|(status & -> & Hs & Hl & H1)].
  - rewrite bool_decide_true by done. cbn [andb].
    destruct changed; apply wp_ret; left; eexists; (split; [done|]).
    + split; [by destruct Hm'; split|]. split; [done|]. change (deque_objects (set_dq_generation _ m')) with (deque_objects m').
      rewrite Ho, Z.sub_diag. exact H1.
    + split_and!; [done|done|]. rewrite Ho, Z.sub_diag. exact H1.
  - rewrite bool_decide_false by (by destruct Hs as [->| ->]). apply wp_ret. right. exists status. by split_and!.
Qed.

(** * Clearing and destruction *)

Lemma clear_ring_spec m q l e rest index w :
  deque_inv m (e ++ l) -> sq_config q = deque_config m -> is_Some (sq_data q) ->
  length (cells_of q) = length (cells_of (dq_sequence m)) -> index = length e ->
  (exists e', rotate (Z.to_nat (dq_head m)) (cells_of q) = e' ++ (Live <$> l) ++ rest /\ length e' = index /\
     Forall (vacant (sc_type (deque_config m))) e') ->
  Forall (vacant (sc_type (deque_config m))) rest ->
  wp (clear_ring m q index (length l)) (fun r w' => exists cells',
    r = (STL_OK, set_sq_cells cells' q) /\ length cells' = length (cells_of q) /\
    Forall (vacant (sc_type (deque_config m))) cells' /\
    delta w w' 0 (- (Z.of_nat (length l) * typed (sc_type (deque_config m))))) w.
Proof.
  revert q e index w. induction l as [|v l IH]; intros q e index w H Hc Hd Hlen Hidx (e' & E & He & Hve) Hrest;
    cbn [clear_ring length].
  { apply wp_ret. exists (cells_of q). rewrite set_sq_cells_same. split_and!; [done|done| |apply delta_refl].
    rewrite <- (rotate_perm (cells_of q) (Z.to_nat (dq_head m))), E. simpl. by apply Forall_app. }
  assert ((e ++ v :: l) !! index = Some v) as Hv by (subst index; by apply list_lookup_middle).
  destruct (object_at _ _ _ _ H Hv) as (Hi & Hp & _).
  eapply wp_bind, wp_reading; [exact Hp|].
  assert (cells_of q !! slot_at m index = Some (Live v)) as Hcell.
  { unfold slot_at. rewrite <- Hlen, <- lookup_rotate_r, E by lia. simpl. by apply list_lookup_middle. }
  eapply wp_bind_mono; [by apply destroy_at_spec; [rewrite Hc; apply (di_config _ _ H)|]|]. intros ? w1 [-> H1].
  rewrite bool_decide_true by done. rewrite Hc in H1 |- *. set (x := ended (sc_type (deque_config m)) (Live v)).
  eapply wp_mono; [apply (IH (set_sq_cells (<[slot_at m index := x]> (cells_of q)) q) (e ++ [v]) (S index))|].
  - by rewrite <- app_assoc.
  - done.
  - destruct Hd as [s Hs]. simpl. by rewrite Hs.
  - rewrite cells_set by done. by rewrite length_insert.
  - rewrite length_app. simpl. lia.
  - exists (e' ++ [x]). rewrite cells_set by done. unfold slot_at. rewrite <- Hlen, rotate_insert_l, E by lia.
    rewrite insert_app_r_alt, He, Nat.sub_diag, <- app_assoc by lia. simpl. split_and!; [done|rewrite length_app; simpl; lia|].
    apply Forall_app. split; [done|]. apply Forall_singleton, ended_vacant.
  - done.
  - intros r w2 (cells' & -> & Hl' & Hv' & H2). exists cells'. rewrite set_sq_cells_twice.
    rewrite cells_set, length_insert in Hl' by done. split_and!; [done|done|done|]. solve_delta.
Qed.

Lemma deque_clear_spec m l w :
  deque_inv m l ->
  wp (deque_clear (Some m)) (fun r w' => exists m', r = (STL_OK, Some m') /\ deque_inv m' [] /\ deque_kept m m' /\
    deque_blocks m' = deque_blocks m /\ dq_initialized m' = true /\
    delta w w' 0 (deque_objects m' - deque_objects m)) w.
Proof.
  intros H. unfold deque_clear. rewrite (deque_inv_valid _ _ H). cbn [negb]. pose proof (di_size _ _ H) as Hs. rewrite Hs, Nat2Z.id.
  destruct (di_ring _ _ H) as (rest & E & Hrest). destruct l as [|v l].
  { cbn [clear_ring length]. eapply wp_bind, wp_ret. rewrite bool_decide_true by done. apply wp_ret. exists m.
    rewrite Z.sub_diag. split_and!; try done; [by destruct m|apply H|apply delta_refl]. }
  destruct (object_at m (v :: l) 0 v H eq_refl) as (_ & _ & Hcell). pose proof (cells_data _ _ _ Hcell) as Hd.
  eapply wp_bind_mono; [apply (clear_ring_spec m (dq_sequence m) (v :: l) [] rest 0); try done; by exists []|].
  intros r w1 (cells' & -> & Hlen & Hv & H1). rewrite bool_decide_true by done.
  rewrite (proj2 (Z.eqb_neq _ _)) by (simpl; lia). apply wp_ret.
  edestruct (deque_inv_changed m (v :: l) (set_sq_size 0 (set_sq_cells cells' (dq_sequence m))) 0 [] cells') as [Hinv Hk]; try done.
  - destruct Hd as [s Hs']. simpl. by rewrite Hs'.
  - change (cells_of (set_sq_size ?z ?q)) with (cells_of q). by rewrite cells_set.
  - by right.
  - change (cells_of (set_sq_size ?z ?q)) with (cells_of q). rewrite cells_set by done. by rewrite rotate_start.
  - eexists. split; [done|]. split; [exact Hinv|]. split; [exact Hk|]. split_and!.
    + unfold deque_blocks, sequence_blocks. simpl. by destruct (sq_data (dq_sequence m)).
    + apply H.
    + unfold deque_objects, sequence_objects. simpl. rewrite Hs. unfold deque_config in *. solve_delta.
Qed.

Lemma deque_destroy_spec m l w :
  deque_inv m l ->
  wp (deque_raw_destroy_storage (Some m)) (fun r w' =>
    (exists g, r = Some (zero_deque g)) /\ delta w w' (- deque_blocks m) (- deque_objects m)) w.
Proof.
  intros H. unfold deque_raw_destroy_storage. rewrite (di_initialized _ _ H).
  eapply wp_bind_mono; [by eapply deque_clear_spec|]. intros ? w1 (m' & -> & Hm' & Hk & Hb & _ & H1).
  eapply wp_bind, wp_reading; [done|]. eapply wp_bind_mono; [by eapply release_ring_spec|]. intros ? w2 H2. apply wp_ret.
  split; [by eexists|].
  assert (deque_objects m' = 0) as Ho by (unfold deque_objects, sequence_objects; by rewrite (di_size _ _ Hm')).
  rewrite Ho in H1. rewrite Hb in H2. solve_delta.
Qed.

(** * Initialisation *)

Lemma deque_initialize_spec m type size align limit :
  dq_initialized m = false -> is_size size -> is_size align -> is_size limit -> limit <= RING_LIMIT ->
  supports type element_traits ->
  match deque_initialize (Some m) type size align limit with
  | (STL_OK, r) => exists m', r = Some m' /\ deque_inv m' [] /\ sq_data (dq_sequence m') = None /\
      deque_limit m' = limit /\ sc_type (deque_config m') = type
  | (_, r) => r = Some m
  end.
Proof.
  intros Hi Hs Ha Hl Hr Ht. unfold deque_initialize. rewrite Hi. pose proof (sequence_stride_spec size align Hs Ha) as Hst.
  destruct (sequence_stride size align) as [stride|status]; [|by destruct Hst as [[-> _]|[-> _]]].
  destruct Hst as (? & ? & ? & ? & ?). eexists. split; [done|]. unfold is_size in *. split_and!; try done.
  split; unfold deque_limit, deque_config, ring_of; simpl; try done; try lia.
  - by split; simpl; try lia.
  - exists []. by split.
Qed.

Lemma deque_raw_init_spec m type limit :
  dq_initialized m = false -> element_sizes type -> is_size limit -> limit <= RING_LIMIT ->
  match deque_raw_init (Some m) type limit with
  | (STL_OK, r) => exists m', r = Some m' /\ deque_inv m' [] /\ sq_data (dq_sequence m') = None /\
      deque_limit m' = limit /\ sc_type (deque_config m') = type
  | (_, r) => r = Some m
  end.
Proof.
  intros Hi Hsz Hl Hr. unfold deque_raw_init. rewrite Hi. destruct type as [t|]; [|done].
  destruct (sequence_require_type (Some t) false) eqn:Ht; try done.
  apply deque_initialize_spec; try done; try apply Hsz. by apply (require_type_spec t false).
Qed.

(** * Reading *)

(** The object at the slot a pointer stands for. *)
Definition pointed m (slot : option Z) : option (option V) :=
  match slot with
  | None => Some None
  | Some i => c ← cells_of (dq_sequence m) !! Z.to_nat i; v ← cell_value c; Some (Some v)
  end.

Lemma deque_at_spec m l (i : Z) :
  deque_inv m l -> is_size i -> pointed m (deque_at (Some m) i) = Some (if i <? Z.of_nat (length l) then l !! Z.to_nat i else None).
Proof.
  intros H Hi. unfold deque_at. cbn [mbind option_bind]. rewrite (deque_inv_valid _ _ H), (di_size _ _ H). cbn [andb].
  destruct (_ <? _) eqn:Hlt; destruct_bools; [|done]. unfold is_size in Hi.
  destruct (lookup_lt_is_Some_2 l (Z.to_nat i) ltac:(lia)) as [v Hv]. destruct (object_at _ _ _ _ H Hv) as (_ & Hp & Hcell).
  rewrite Z2Nat.id in Hp by lia. unfold deque_at_slot. rewrite Hp. cbn [pointed]. by rewrite Nat2Z.id, Hcell, Hv.
Qed.

Lemma deque_front_spec m l : deque_inv m l -> pointed m (deque_front (Some m)) = Some (head l).
Proof.
  intros H. unfold deque_front. cbn [mbind option_bind]. rewrite (deque_inv_valid _ _ H), (di_size _ _ H). cbn [andb].
  destruct l as [|v l]; [done|]. rewrite (proj2 (Z.eqb_neq _ _)) by (simpl; lia). cbn [negb pointed].
  destruct (object_at m (v :: l) 0 v H eq_refl) as (_ & _ & Hcell).
  pose proof (head_below m (v :: l) 0 v H eq_refl) as Hh. unfold slot_at in Hcell.
  rewrite rotate_nat_add_0 in Hcell by done. by rewrite Hcell.
Qed.

Lemma deque_back_spec m l : deque_inv m l -> pointed m (deque_back (Some m)) = Some (last l).
Proof.
  intros H. unfold deque_back. cbn [mbind option_bind]. rewrite (deque_inv_valid _ _ H), (di_size _ _ H). cbn [andb].
  destruct l as [|v l _] using rev_ind; [done|]. pose proof (deque_inv_range _ _ H) as [[_ Hsz] Hr].
  rewrite (di_size _ _ H) in Hsz. rewrite length_app in *. cbn [length] in *. unfold RING_LIMIT in Hr.
  rewrite (proj2 (Z.eqb_neq _ _)) by lia. cbn [negb].
  assert ((l ++ [v]) !! length l = Some v) as Hv by (by apply list_lookup_middle).
  destruct (object_at _ _ _ _ H Hv) as (_ & Hp & Hcell).
  rewrite size_dec_small by (unfold SIZE_MAX; lia). replace (Z.of_nat (length l + 1) - 1) with (Z.of_nat (length l)) by lia.
  unfold deque_at_slot. rewrite Hp. cbn [pointed]. by rewrite Nat2Z.id, Hcell, last_snoc.
Qed.

Lemma deque_size_spec m l : deque_inv m l -> deque_size (Some m) = Z.of_nat (length l).
Proof. intros H. unfold deque_size. by rewrite (deque_inv_valid _ _ H), (di_size _ _ H). Qed.

End DequeOps.

(** * Calls and their answers *)

Inductive deque_call (V : Type) :=
  | DequePushBack (value : V)
  | DequePushFront (value : V)
  | DequePopBack (want : bool)
  | DequePopFront (want : bool)
  | DequeSet (index : Z) (value : V)
  | DequeAt (index : Z)
  | DequeFront
  | DequeBack
  | DequeReserve (capacity : Z)
  | DequeClear
  | DequeSize.
Arguments DequePushBack {V} value.
Arguments DequePushFront {V} value.
Arguments DequePopBack {V} want.
Arguments DequePopFront {V} want.
Arguments DequeSet {V} index value.
Arguments DequeAt {V} index.
Arguments DequeFront {V}.
Arguments DequeBack {V}.
Arguments DequeReserve {V} capacity.
Arguments DequeClear {V}.
Arguments DequeSize {V}.

Inductive deque_answer (V : Type) :=
  | DequeStatus (status : stl_status)
  | DequeTaken (status : stl_status) (out : cell V)
  | DequeValue (value : option V)
  | DequeCount (size : Z).
Arguments DequeStatus {V} status.
Arguments DequeTaken {V} status out.
Arguments DequeValue {V} value.
Arguments DequeCount {V} size.

Section Calls.
Context {V U : Type} `{HV : ObjectTraits V U} `{!AllocatorCalls U}.
Context (deque_desc queue_desc : addr).
#[local] Abbreviation deque := (deque_t V).

(** The object a pointer leads to. *)
Definition read_slot (d : option deque) (slot : option Z) : option (option V) :=
  match d with Some m => pointed m slot | None => Some None end.

Definition run_deque_call (call : deque_call V) (d : option deque) : store U (deque_answer V * option deque) :=
  match call with
  | DequePushBack v =>
      let* (status, d) := deque_push_back deque_desc queue_desc d (Some v) in ret (DequeStatus status, d)
  | DequePushFront v =>
      let* (status, d) := deque_push_front deque_desc queue_desc d (Some v) in ret (DequeStatus status, d)
  | DequePopBack want => let* ((status, d), out) := deque_pop_back d want in ret (DequeTaken status out, d)
  | DequePopFront want => let* ((status, d), out) := deque_pop_front d want in ret (DequeTaken status out, d)
  | DequeSet i v => let* (status, d) := deque_set d i (Some v) in ret (DequeStatus status, d)
  | DequeAt i => let* v := reading (read_slot d (deque_at d i)) in ret (DequeValue v, d)
  | DequeFront => let* v := reading (read_slot d (deque_front d)) in ret (DequeValue v, d)
  | DequeBack => let* v := reading (read_slot d (deque_back d)) in ret (DequeValue v, d)
  | DequeReserve n => let* (status, d) := deque_reserve d n in ret (DequeStatus status, d)
  | DequeClear => let* (status, d) := deque_clear d in ret (DequeStatus status, d)
  | DequeSize => ret (DequeCount (deque_size d), d)
  end.

Fixpoint run_deque_calls (calls : list (deque_call V)) (d : option deque)
    : store U (list (deque_answer V) * option deque) :=
  match calls with
  | [] => ret ([], d)
  | call :: calls =>
      let* (a, d) := run_deque_call call d in
      let* (answers, d) := run_deque_calls calls d in
      ret (a :: answers, d)
  end.

(** ** The list *)

(** What the list [l] may answer, and the list then. *)
Inductive deque_answers (limit : Z) (l : list V) : deque_call V -> deque_answer V -> list V -> Prop :=
  | da_push_back v :
      Z.of_nat (length l) < limit -> deque_answers limit l (DequePushBack v) (DequeStatus STL_OK) (l ++ [v])
  | da_push_front v :
      Z.of_nat (length l) < limit -> deque_answers limit l (DequePushFront v) (DequeStatus STL_OK) (v :: l)
  | da_push_no_room call status v :
      call = DequePushBack v \/ call = DequePushFront v ->
      no_room status -> (limit <= Z.of_nat (length l) -> status = STL_CAPACITY_EXCEEDED) ->
      deque_answers limit l call (DequeStatus status) l
  | da_pop_back want l' v :
      l = l' ++ [v] ->
      deque_answers limit l (DequePopBack want) (DequeTaken STL_OK (if want : bool then Live v else Raw)) l'
  | da_pop_front want l' v :
      l = v :: l' ->
      deque_answers limit l (DequePopFront want) (DequeTaken STL_OK (if want : bool then Live v else Raw)) l'
  | da_pop_empty call want :
      call = DequePopBack want \/ call = DequePopFront want -> l = [] ->
      deque_answers limit l call (DequeTaken STL_EMPTY Raw) l
  | da_set i v :
      i < Z.of_nat (length l) ->
      deque_answers limit l (DequeSet i v) (DequeStatus STL_OK) (<[Z.to_nat i := v]> l)
  | da_set_outside i v :
      Z.of_nat (length l) <= i -> deque_answers limit l (DequeSet i v) (DequeStatus STL_INVALID_ARGUMENT) l
  | da_set_no_room i v status :
      i < Z.of_nat (length l) -> no_room status -> deque_answers limit l (DequeSet i v) (DequeStatus status) l
  | da_at i :
      deque_answers limit l (DequeAt i) (DequeValue (if i <? Z.of_nat (length l) then l !! Z.to_nat i else None)) l
  | da_front : deque_answers limit l DequeFront (DequeValue (head l)) l
  | da_back : deque_answers limit l DequeBack (DequeValue (last l)) l
  | da_reserve n : deque_answers limit l (DequeReserve n) (DequeStatus STL_OK) l
  | da_reserve_no_room n status :
      no_room status -> (limit < n -> status = STL_CAPACITY_EXCEEDED) ->
      deque_answers limit l (DequeReserve n) (DequeStatus status) l
  | da_clear : deque_answers limit l DequeClear (DequeStatus STL_OK) []
  | da_size : deque_answers limit l DequeSize (DequeCount (Z.of_nat (length l))) l.

Inductive deque_answers_all (limit : Z) :
    list V -> list (deque_call V) -> list (deque_answer V) -> list V -> Prop :=
  | deque_answers_nil l : deque_answers_all limit l [] [] l
  | deque_answers_cons l call a l1 calls as_ l2 :
      deque_answers limit l call a l1 -> deque_answers_all limit l1 calls as_ l2 ->
      deque_answers_all limit l (call :: calls) (a :: as_) l2.

(** The objects that removals handed to the caller. *)
Definition deque_handed_out (type : option cmeta_type_desc) (a : deque_answer V) : Z :=
  match a with DequeTaken _ (Live _) => typed type | _ => 0 end.

Definition deque_all_handed_out (type : option cmeta_type_desc) (as_ : list (deque_answer V)) : Z :=
  foldr (fun a n => deque_handed_out type a + n) 0 as_.

(** The arguments are values of their C types. *)
Definition deque_call_ok (call : deque_call V) : Prop :=
  match call with DequeReserve n | DequeAt n | DequeSet n _ => is_size n | _ => True end.

End Calls.

Section Refinement.
Context {V U : Type} `{HV : ObjectTraits V U} `{!TraitLaws V U} `{!AllocatorCalls U}.
Context (deque_desc queue_desc : addr).
Implicit Types w : object_world U.
Implicit Types m : deque_t V.
Implicit Types l : list V.
#[local] Abbreviation run_call := (run_deque_call deque_desc queue_desc).
#[local] Abbreviation run_calls := (run_deque_calls deque_desc queue_desc).
#[local] Abbreviation type m := (sc_type (deque_config m)).

Definition deque_call_sound m l call (r : deque_answer V * option (deque_t V)) w w' : Prop :=
  exists a m' l', r = (a, Some m') /\ deque_inv m' l' /\ deque_kept m m' /\
    deque_answers (deque_limit m) l call a l' /\
    delta w w' (deque_blocks m' - deque_blocks m)
      (deque_objects m' - deque_objects m + deque_handed_out (type m) a).

Lemma deque_unchanged_sound m l call a w w' :
  deque_inv m l -> deque_answers (deque_limit m) l call a l -> deque_handed_out (type m) a = 0 ->
  delta w w' 0 0 -> deque_call_sound m l call (a, Some m) w w'.
Proof. intros Hm Ha Hh Hd. exists a, m, l. split_and!; try done. by rewrite Hh, !Z.sub_diag. Qed.

Lemma deque_pushed_sound m l l' call v r w w' :
  call = DequePushBack v \/ call = DequePushFront v -> deque_inv m l ->
  (Z.of_nat (length l) < deque_limit m -> deque_answers (deque_limit m) l call (DequeStatus STL_OK) l') ->
  pushed m l l' r w w' -> deque_call_sound m l call (DequeStatus (fst r), snd r) w w'.
Proof.
  intros Hcall Hm Hgood [(m' & -> & Hm' & Hk & Hl & Hd)|(status & -> & Hn & Hl & Hd)].
  - exists (DequeStatus STL_OK), m', l'. split_and!; try done; [by apply Hgood|]. simpl. by rewrite Z.add_0_r.
  - apply deque_unchanged_sound; try done. by eapply da_push_no_room.
Qed.

Lemma deque_popped_sound m l v l' call want r w w' :
  deque_answers (deque_limit m) l call (DequeTaken STL_OK (if want : bool then Live v else Raw)) l' ->
  popped m l v l' want r w w' -> deque_call_sound m l call (DequeTaken (fst (fst r)) (snd r), snd (fst r)) w w'.
Proof.
  intros Ha (m' & -> & Hm' & Hk & Hd). do 3 eexists. split_and!; [done|done|done|done|]. by destruct want.
Qed.

Lemma pop_empty_wp m call w want (pop : option (deque_t V) -> bool -> store U (stl_status * option (deque_t V) * cell V)) :
  call = DequePopBack want \/ call = DequePopFront want -> deque_inv m [] -> pop (Some m) want w = Some ((STL_EMPTY, Some m, Raw), w) ->
  wp (let* ((status, d), out) := pop (Some m) want in ret (DequeTaken status out, d))
    (fun r w' => deque_call_sound m [] call r w w') w.
Proof.
  intros Hcall Hm E. eapply wp_bind, wp_eval; [exact E|]. apply wp_ret.
  apply deque_unchanged_sound; [done|by eapply da_pop_empty|done|apply delta_refl].
Qed.

Lemma deque_read_wp m l call slot v w :
  deque_inv m l -> pointed m slot = Some v -> deque_answers (deque_limit m) l call (DequeValue v) l ->
  wp (let* v := reading (read_slot (Some m) slot) in ret (DequeValue v, Some m))
    (fun r w' => deque_call_sound m l call r w w') w.
Proof.
  intros Hm Hv Ha. eapply wp_bind, wp_reading; [exact Hv|]. apply wp_ret, deque_unchanged_sound; try done. apply delta_refl.
Qed.

Lemma deque_call_spec m l call w :
  deque_inv m l -> deque_call_ok call -> wp (run_call call (Some m)) (fun r w' => deque_call_sound m l call r w w') w.
Proof.
  intros Hm Hok. destruct call as [v|v|want|want|i v|i| | |n| |]; cbn [run_deque_call].
  - eapply wp_bind_mono; [apply (deque_push_spec _ _ _ _ _ _ v _ back_slot_spec Hm)|]. intros [status d] w' H. apply wp_ret.
    apply (deque_pushed_sound _ _ _ _ v _ _ _ (or_introl eq_refl) Hm) in H; [exact H|]. by constructor.
  - eapply wp_bind_mono; [apply (deque_push_spec _ _ _ _ _ _ v _ front_slot_spec Hm)|]. intros [status d] w' H. apply wp_ret.
    apply (deque_pushed_sound _ _ _ _ v _ _ _ (or_intror eq_refl) Hm) in H; [exact H|]. by constructor.
  - destruct l as [|v l _] using rev_ind.
    + apply pop_empty_wp; [by left|done|]. unfold deque_pop_back. by rewrite (deque_inv_valid _ _ Hm), (di_size _ _ Hm).
    + eapply wp_bind_mono; [by apply deque_pop_back_spec|]. intros [[status d] out] w' H. apply wp_ret.
      eapply deque_popped_sound in H; [exact H|]. by constructor.
  - destruct l as [|v l].
    + apply pop_empty_wp; [by right|done|]. unfold deque_pop_front. by rewrite (deque_inv_valid _ _ Hm), (di_size _ _ Hm).
    + eapply wp_bind_mono; [by apply deque_pop_front_spec|]. intros [[status d] out] w' H. apply wp_ret.
      eapply deque_popped_sound in H; [exact H|]. by constructor.
  - eapply wp_bind_mono; [by apply deque_set_spec|].
    intros r w' [(m' & -> & Hi & Hm' & Hk & Hd)|[(-> & Hi & Hd)|(status & -> & Hn & Hi & Hd)]]; apply wp_ret.
    + exists (DequeStatus STL_OK), m', (<[Z.to_nat i := v]> l). split_and!; try done; [by constructor|]. simpl. by rewrite Z.add_0_r.
    + apply deque_unchanged_sound; try done. by constructor.
    + apply deque_unchanged_sound; try done. by apply da_set_no_room.
  - eapply deque_read_wp; [done|by apply deque_at_spec|constructor].
  - eapply deque_read_wp; [done|by apply deque_front_spec|constructor].
  - eapply deque_read_wp; [done|by apply deque_back_spec|constructor].
  - eapply wp_bind_mono; [by eapply deque_reserve_spec|].
    intros r w' [(m' & -> & Hm' & Hk & Hd)|(status & -> & Hn & Hl & Hd)]; apply wp_ret.
    + exists (DequeStatus STL_OK), m', l. split_and!; try done; [by constructor|]. simpl. by rewrite Z.add_0_r.
    + apply deque_unchanged_sound; try done. by apply da_reserve_no_room.
  - eapply wp_bind_mono; [by eapply deque_clear_spec|]. intros r w' (m' & -> & Hm' & Hk & Hb & _ & Hd). apply wp_ret.
    exists (DequeStatus STL_OK), m', []. split_and!; try done; [constructor|]. simpl. by rewrite Hb, Z.sub_diag, Z.add_0_r.
  - apply wp_ret. rewrite (deque_size_spec _ _ Hm). apply deque_unchanged_sound; try done; [constructor|apply delta_refl].
Qed.

(** Any calls. *)
Lemma deque_calls_spec calls m l w :
  deque_inv m l -> Forall deque_call_ok calls ->
  wp (run_calls calls (Some m)) (fun r w' => exists as_ m' l',
    r = (as_, Some m') /\ deque_inv m' l' /\ deque_kept m m' /\
    deque_answers_all (deque_limit m) l calls as_ l' /\
    delta w w' (deque_blocks m' - deque_blocks m)
      (deque_objects m' - deque_objects m + deque_all_handed_out (type m) as_)) w.
Proof.
  revert m l w. induction calls as [|call calls IH]; intros m l w Hm Hok; simpl.
  { apply wp_ret. exists [], m, l. split_and!; try done; [constructor|]. simpl. rewrite !Z.sub_diag. apply delta_refl. }
  inversion_clear Hok as [|? ? Hc Hcs].
  eapply wp_bind_mono; [by eapply deque_call_spec|]. intros r w1 (a & m1 & l1 & -> & Hm1 & Hk1 & Ha & H1).
  eapply wp_bind_mono; [by apply (IH m1 l1)|]. intros r w2 (as_ & m2 & l2 & -> & Hm2 & Hk2 & Has & H2).
  assert (deque_limit m1 = deque_limit m /\ type m1 = type m) as [Hlim Ht]
    by (unfold deque_limit; unfold deque_kept in Hk1; by rewrite Hk1). rewrite Hlim, Ht in *.
  apply wp_ret. exists (a :: as_), m2, l2. split_and!; try done; [by eapply deque_kept_trans|by econstructor|simpl; solve_delta].
Qed.

(** What the two initialisation functions make of a zero handle; the sum of the head and
    an index stays within [size_t]. *)
Inductive deque_created : deque_t V -> Prop :=
  | deque_created_typed generation type limit m :
      element_sizes type -> is_size limit -> limit <= RING_LIMIT ->
      deque_raw_init (Some (zero_deque generation)) type limit = (STL_OK, Some m) -> deque_created m
  | deque_created_bytes generation size align limit m :
      is_size size -> is_size align -> is_size limit -> limit <= RING_LIMIT ->
      deque_init_bytes (Some (zero_deque generation)) size align limit = (STL_OK, Some m) -> deque_created m.

Lemma deque_created_inv m :
  deque_created m -> deque_inv m [] /\ deque_blocks m = 0 /\ deque_objects m = 0.
Proof.
  assert (forall m, deque_inv m [] -> sq_data (dq_sequence m) = None ->
    deque_inv m [] /\ deque_blocks m = 0 /\ deque_objects m = 0) as H.
  { clear. intros m Hm Hd. unfold deque_blocks, deque_objects, sequence_blocks, sequence_objects.
    by rewrite Hd, (di_size _ _ Hm). }
  intros [g t limit m' Hs Hl Hr E|g size align limit m' Hs Ha Hl Hr E].
  - pose proof (deque_raw_init_spec (zero_deque (V := V) g) t limit eq_refl Hs Hl Hr) as Hi. rewrite E in Hi.
    destruct Hi as (m0 & [= <-] & Hm & Hd & _). by apply H.
  - pose proof (deque_initialize_spec (zero_deque (V := V) g) None size align limit eq_refl Hs Ha Hl Hr I) as Hi.
    unfold deque_init_bytes in E. rewrite E in Hi. destruct Hi as (m0 & [= <-] & Hm & Hd & _). by apply H.
Qed.

(** C22: (refinement) From its creation on, whatever operations are called on a double-ended
    queue, in whatever order, none reads raw or moved memory or leaves the ring, all
    return, and the answers are those of a list: pushes and pops work at its ends, an
    index finds the object at its place however the ring is wrapped, growing keeps the
    order, and a failure leaves the list as it was. *)
Theorem deque_refines_list m calls w :
  deque_created m -> Forall deque_call_ok calls ->
  exists as_ m' w' l,
    run_calls calls (Some m) w = Some ((as_, Some m'), w') /\
    deque_answers_all (deque_limit m) [] calls as_ l /\ deque_inv m' l /\ deque_kept m m'.
Proof.
  intros [Hm _]%deque_created_inv Hok.
  destruct (wp_run _ _ _ (deque_calls_spec calls m [] w Hm Hok)) as (r & w' & Hrun & as_ & m' & l & -> & ? & ? & ? & _).
  by exists as_, m', w', l.
Qed.

(** (safety) A double-ended queue releases what it takes: after any calls, destroying it
    leaves as many blocks allocated as before its creation, and as many objects alive but
    for those that pops handed to the caller. *)
Theorem deque_releases_all m calls w :
  deque_created m -> Forall deque_call_ok calls ->
  exists as_ m' w' g w'',
    run_calls calls (Some m) w = Some ((as_, Some m'), w') /\
    deque_raw_destroy_storage (Some m') w' = Some (Some (zero_deque g), w'') /\
    ow_blocks w'' = ow_blocks w /\
    ow_objects w'' = ow_objects w + deque_all_handed_out (type m) as_.
Proof.
  intros (Hm & Hb & Ho)%deque_created_inv Hok.
  destruct (wp_run _ _ _ (deque_calls_spec calls m [] w Hm Hok)) as (r & w' & Hrun & as_ & m' & l & -> & Hm' & _ & _ & Hd).
  destruct (wp_run _ _ _ (deque_destroy_spec m' l w' Hm')) as (r & w'' & Hdes & (g & ->) & Hd').
  exists as_, m', w', g, w''. split_and!; [done|done|..]; destruct Hd, Hd'; lia.
Qed.

End Refinement.
