(* ===== verification/CstlRbTree.v ===== *)
(** The red-black tree of cstl (cstl/src/rbtree_internal.h, cstl/src/rbtree.c), which
    its map, set and multimap share.

    Nodes live in a store by address, so that parents, children and the list of nodes
    in order are the pointers of the code.  Following NULL or a freed node is undefined.
    Functions that only follow and set pointers are in the option monad, those that
    allocate or end objects in [store].  The halves of the code that differ in left and
    right only are one definition with a [side]. *)

From S2P Require Import Prelude.
From S2P Require Import CMetaType.
From S2P Require Import CstlSupport.

(** * Data *)

(** [key] and [value] are objects in blocks of their own: the block and the object. *)
Record rbtree_node (V : Type) := mk_node {
  nd_parent : option addr;
  nd_left : option addr;
  nd_right : option addr;
  nd_previous : option addr;
  nd_next : option addr;
  nd_key : option (Z * cell V);
  nd_value : option (Z * cell V);
  nd_red : bool;
}.
Arguments mk_node {V}.
Arguments nd_parent {V}.
Arguments nd_left {V}.
Arguments nd_right {V}.
Arguments nd_previous {V}.
Arguments nd_next {V}.
Arguments nd_key {V}.
Arguments nd_value {V}.
Arguments nd_red {V}.

(** The fields only [rbtree_create] sets. *)
Record rbtree_config := mk_rbtree_config {
  rc_key_size : Z;
  rc_key_stride : Z;
  rc_key_align : Z;
  rc_value_size : Z;
  rc_value_stride : Z;
  rc_value_align : Z;
  rc_element_limit : Z;
  rc_key_type : option cmeta_type_desc;
  rc_value_type : option cmeta_type_desc;
  rc_compare : option addr;
  rc_compare_context : option addr;
  rc_allow_duplicates : bool;
}.

Record rbtree_t (V : Type) := mk_rbtree {
  rb_root : option addr;
  rb_head : option addr;
  rb_tail : option addr;
  rb_size : Z;
  rb_config : rbtree_config;
  rb_nodes : gmap addr (rbtree_node V);
}.
Arguments mk_rbtree {V}.
Arguments rb_root {V}.
Arguments rb_head {V}.
Arguments rb_tail {V}.
Arguments rb_size {V}.
Arguments rb_config {V}.
Arguments rb_nodes {V}.

Inductive rbtree_put_result := RBTREE_INSERTED | RBTREE_REPLACED.

(** [sizeof (rbtree_node_t)] and [sizeof (rbtree_t)]. *)
Definition sizeof_rbtree_node : Z := 64.
Definition sizeof_rbtree : Z := 128.

(** * Sides *)

Inductive side := LeftSide | RightSide.

#[export] Instance side_eq_dec : EqDecision side.
Proof. solve_decision. Defined.

Definition opposite (s : side) : side :=
  match s with LeftSide => RightSide | RightSide => LeftSide end.

Section Fields.
Context {V : Type}.
Implicit Types n : rbtree_node V.
Implicit Types p : option addr.

Definition child (s : side) n : option addr :=
  match s with LeftSide => nd_left n | RightSide => nd_right n end.

Definition set_child (s : side) p n : rbtree_node V :=
  match s with
  | LeftSide => mk_node (nd_parent n) p (nd_right n) (nd_previous n) (nd_next n) (nd_key n)
      (nd_value n) (nd_red n)
  | RightSide => mk_node (nd_parent n) (nd_left n) p (nd_previous n) (nd_next n) (nd_key n)
      (nd_value n) (nd_red n)
  end.

Definition set_parent p n : rbtree_node V :=
  mk_node p (nd_left n) (nd_right n) (nd_previous n) (nd_next n) (nd_key n) (nd_value n) (nd_red n).

Definition set_previous p n : rbtree_node V :=
  mk_node (nd_parent n) (nd_left n) (nd_right n) p (nd_next n) (nd_key n) (nd_value n) (nd_red n).

Definition set_next p n : rbtree_node V :=
  mk_node (nd_parent n) (nd_left n) (nd_right n) (nd_previous n) p (nd_key n) (nd_value n) (nd_red n).

Definition set_red (red : bool) n : rbtree_node V :=
  mk_node (nd_parent n) (nd_left n) (nd_right n) (nd_previous n) (nd_next n) (nd_key n) (nd_value n) red.

Definition set_value (value : option (Z * cell V)) n : rbtree_node V :=
  mk_node (nd_parent n) (nd_left n) (nd_right n) (nd_previous n) (nd_next n) (nd_key n) value
    (nd_red n).

Definition set_root p (t : rbtree_t V) : rbtree_t V :=
  mk_rbtree p (rb_head t) (rb_tail t) (rb_size t) (rb_config t) (rb_nodes t).

Definition set_head p (t : rbtree_t V) : rbtree_t V :=
  mk_rbtree (rb_root t) p (rb_tail t) (rb_size t) (rb_config t) (rb_nodes t).

Definition set_tail p (t : rbtree_t V) : rbtree_t V :=
  mk_rbtree (rb_root t) (rb_head t) p (rb_size t) (rb_config t) (rb_nodes t).

Definition set_rb_size (size : Z) (t : rbtree_t V) : rbtree_t V :=
  mk_rbtree (rb_root t) (rb_head t) (rb_tail t) size (rb_config t) (rb_nodes t).

Definition set_nodes (nodes : gmap addr (rbtree_node V)) (t : rbtree_t V) : rbtree_t V :=
  mk_rbtree (rb_root t) (rb_head t) (rb_tail t) (rb_size t) (rb_config t) nodes.

End Fields.

(** [*p] and an assignment to fields of [*p]. *)
Definition deref {V} (t : rbtree_t V) (p : option addr) : option (rbtree_node V) :=
  a ← p; rb_nodes t !! a.

Definition write {V} (p : option addr) (f : rbtree_node V -> rbtree_node V) (t : rbtree_t V)
    : option (rbtree_t V) :=
  a ← p; n ← rb_nodes t !! a; Some (set_nodes (<[a := f n]> (rb_nodes t)) t).

(** [if (p != NULL) p->... = ...]. *)
Definition write_if {V} (p : option addr) (f : rbtree_node V -> rbtree_node V) (t : rbtree_t V)
    : option (rbtree_t V) :=
  if is_null p then Some t else write p f t.

(** The object a [key] or [value] field points at. *)
Definition field_value {V} (field : option (Z * cell V)) : option V :=
  '(_, object) ← field; cell_value object.

(** An address no node has. *)
Definition unused_address {V} (nodes : gmap addr (rbtree_node V)) : addr :=
  map_fold (fun a _ top => Z.max a top) 0 nodes + 1.

(** Every loop runs over distinct nodes. *)
Definition enough {V} (t : rbtree_t V) : nat := S (size (rb_nodes t)).

(** * Pointers *)

Section Pointers.
Context {V : Type}.
#[local] Abbreviation rbtree := (rbtree_t V).
Implicit Types t : rbtree.

Definition rbtree_is_red t (node : option addr) : option bool :=
  if is_null node then Some false else n ← deref t node; Some (nd_red n).

Definition rbtree_is_black t (node : option addr) : option bool :=
  if is_null node then Some true else n ← deref t node; Some (negb (nd_red n)).

(** [new] takes the place of [old] below [up], or at the root; the code looks at the
    child on the side [s] first. *)
Definition replace_child (s : side) t (up old new : option addr) : option rbtree :=
  if is_null up then Some (set_root new t)
  else
    u ← deref t up;
    if bool_decide (old = child s u) then write up (set_child s new) t
    else write up (set_child (opposite s) new) t.

(** [rbtree_rotate_left] on the left side and [rbtree_rotate_right] on the right. *)
Definition rbtree_rotate (s : side) t (node : option addr) : option rbtree :=
  n ← deref t node;
  let pivot := child (opposite s) n in
  p ← deref t pivot;
  t ← write node (set_child (opposite s) (child s p)) t;
  t ← write_if (child s p) (set_parent node) t;
  n ← deref t node;
  t ← write pivot (set_parent (nd_parent n)) t;
  n ← deref t node;
  t ← replace_child s t (nd_parent n) node pivot;
  t ← write pivot (set_child s node) t;
  write node (set_parent pivot) t.

Definition rbtree_rotate_left : rbtree -> option addr -> option rbtree := rbtree_rotate LeftSide.
Definition rbtree_rotate_right : rbtree -> option addr -> option rbtree := rbtree_rotate RightSide.

(** One round of [rbtree_insert_fix] whose parent is the child of the grandparent on
    the side [s]: the tree and the node of the next round. *)
Definition insert_fix_round (s : side) t (node parent grandparent : option addr)
    : option (rbtree * option addr) :=
  g ← deref t grandparent;
  let uncle := child (opposite s) g in
  red ← rbtree_is_red t uncle;
  if red : bool then
    t ← write parent (set_red false) t;
    t ← write uncle (set_red false) t;
    t ← write grandparent (set_red true) t;
    Some (t, grandparent)
  else
    p ← deref t parent;
    '(t, node, parent, grandparent) ←
      (if bool_decide (node = child (opposite s) p) then
         let node := parent in
         t ← rbtree_rotate s t node;
         n ← deref t node;
         p ← deref t (nd_parent n);
         Some (t, node, nd_parent n, nd_parent p)
       else Some (t, node, parent, grandparent));
    t ← write parent (set_red false) t;
    t ← write grandparent (set_red true) t;
    t ← rbtree_rotate (opposite s) t grandparent;
    Some (t, node).

(** [while (node->parent != NULL && node->parent->red)]. *)
Fixpoint insert_fix_loop (fuel : nat) t (node : option addr) : option rbtree :=
  n ← deref t node;
  let parent := nd_parent n in
  red ← rbtree_is_red t parent;
  if negb red then Some t
  else
    match fuel with
    | O => None
    | S fuel =>
        p ← deref t parent;
        let grandparent := nd_parent p in
        g ← deref t grandparent;
        let s := if bool_decide (parent = nd_left g) then LeftSide else RightSide in
        '(t, node) ← insert_fix_round s t node parent grandparent;
        insert_fix_loop fuel t node
    end.

Definition rbtree_insert_fix t (node : option addr) : option rbtree :=
  t ← insert_fix_loop (enough t) t node;
  write (rb_root t) (set_red false) t.

Fixpoint minimum_loop (fuel : nat) t (node : option addr) : option (option addr) :=
  if is_null node then Some node
  else
    n ← deref t node;
    if is_null (nd_left n) then Some node
    else match fuel with O => None | S fuel => minimum_loop fuel t (nd_left n) end.

Definition rbtree_minimum t (node : option addr) : option (option addr) :=
  minimum_loop (enough t) t node.

Definition rbtree_transplant t (removed replacement : option addr) : option rbtree :=
  r ← deref t removed;
  t ← replace_child LeftSide t (nd_parent r) removed replacement;
  r ← deref t removed;
  write_if replacement (set_parent (nd_parent r)) t.

(** The end of a round of [rbtree_delete_fix] on the side [s] once the sibling is black. *)
Definition delete_fix_black (s : side) t (parent sibling : option addr)
    : option (rbtree * option addr * option addr) :=
  let up t := p ← deref t parent; Some (t, parent, nd_parent p) in
  if is_null sibling then up t
  else
    b ← deref t sibling;
    near_black ← rbtree_is_black t (child s b);
    far_black ← rbtree_is_black t (child (opposite s) b);
    if (near_black : bool) && far_black then
      t ← write sibling (set_red true) t;
      up t
    else
      '(t, sibling) ←
        (if far_black : bool then
           t ← write_if (child s b) (set_red false) t;
           t ← write sibling (set_red true) t;
           t ← rbtree_rotate (opposite s) t sibling;
           p ← deref t parent;
           Some (t, child (opposite s) p)
         else Some (t, sibling));
      p ← deref t parent;
      t ← write sibling (set_red (nd_red p)) t;
      t ← write parent (set_red false) t;
      b ← deref t sibling;
      t ← write_if (child (opposite s) b) (set_red false) t;
      t ← rbtree_rotate s t parent;
      Some (t, rb_root t, None).

(** One round whose node is the child of the parent on the side [s]: the tree, the node
    and the parent of the next. *)
Definition delete_fix_round (s : side) t (parent : option addr)
    : option (rbtree * option addr * option addr) :=
  p ← deref t parent;
  let sibling := child (opposite s) p in
  red ← rbtree_is_red t sibling;
  '(t, sibling) ←
    (if red : bool then
       t ← write sibling (set_red false) t;
       t ← write parent (set_red true) t;
       t ← rbtree_rotate s t parent;
       p ← deref t parent;
       Some (t, child (opposite s) p)
     else Some (t, sibling));
  delete_fix_black s t parent sibling.

(** [while (node != tree->root && rbtree_is_black (node))]. *)
Fixpoint delete_fix_loop (fuel : nat) t (node parent : option addr) : option (rbtree * option addr) :=
  if bool_decide (node = rb_root t) then Some (t, node)
  else
    black ← rbtree_is_black t node;
    if negb black || is_null parent then Some (t, node)
    else
      match fuel with
      | O => None
      | S fuel =>
          p ← deref t parent;
          let s := if bool_decide (node = nd_left p) then LeftSide else RightSide in
          '(t, node, parent) ← delete_fix_round s t parent;
          delete_fix_loop fuel t node parent
      end.

Definition rbtree_delete_fix t (node parent : option addr) : option rbtree :=
  '(t, node) ← delete_fix_loop (enough t) t node parent;
  write_if node (set_red false) t.

(** ** Taking a node out of the tree and the list *)

(** The successor leaves its own place: the tree and the parent of that place. *)
Definition release_successor t (node moved : option addr) : option (rbtree * option addr) :=
  m ← deref t moved;
  let fix_node := nd_right m in
  if bool_decide (nd_parent m = node) then
    t ← write_if fix_node (set_parent moved) t;
    Some (t, moved)
  else
    t ← rbtree_transplant t moved fix_node;
    n ← deref t node;
    t ← write moved (set_child RightSide (nd_right n)) t;
    t ← write (nd_right n) (set_parent moved) t;
    Some (t, nd_parent m).

(** And takes the place of the node. *)
Definition take_place t (node moved : option addr) : option rbtree :=
  t ← rbtree_transplant t node moved;
  n ← deref t node;
  t ← write moved (set_child LeftSide (nd_left n)) t;
  t ← write (nd_left n) (set_parent moved) t;
  n ← deref t node;
  write moved (set_red (nd_red n)) t.

(** A node with two children gives its place to the least node on its right. *)
Definition replace_by_successor t (node right : option addr)
    : option (rbtree * option addr * option addr * bool) :=
  moved ← rbtree_minimum t right;
  m ← deref t moved;
  '(t, fix_parent) ← release_successor t node moved;
  t ← take_place t node moved;
  Some (t, nd_right m, fix_parent, nd_red m).

(** The node and the parent to begin the repair at, and whether the colour that went
    away was red. *)
Definition detach_node t (node : option addr) : option (rbtree * option addr * option addr * bool) :=
  n ← deref t node;
  if is_null (nd_left n) then
    t ← rbtree_transplant t node (nd_right n);
    Some (t, nd_right n, nd_parent n, nd_red n)
  else if is_null (nd_right n) then
    t ← rbtree_transplant t node (nd_left n);
    Some (t, nd_left n, nd_parent n, nd_red n)
  else replace_by_successor t node (nd_right n).

(** Out of the list of nodes in order. *)
Definition unthread t (node : option addr) : option rbtree :=
  n ← deref t node;
  t ← (if is_null (nd_previous n) then Some (set_head (nd_next n) t)
       else write (nd_previous n) (set_next (nd_next n)) t);
  if is_null (nd_next n) then Some (set_tail (nd_previous n) t)
  else write (nd_next n) (set_previous (nd_previous n)) t.

(** The part of [rbtree_remove_node] that sets pointers. *)
Definition unlink_node t (node : option addr) : option rbtree :=
  '(t, fix_node, fix_parent, moved_was_red) ← detach_node t node;
  t ← (if moved_was_red : bool then Some t else rbtree_delete_fix t fix_node fix_parent);
  unthread t node.

(** The part of [rbtree_put] that sets pointers: a new node under [parent], before it
    when [comparison] is negative. *)
Definition link_node t (node parent : option addr) (comparison : Z) : option rbtree :=
  t ← write node (set_parent parent) t;
  if is_null parent then Some (set_tail node (set_head node (set_root node t)))
  else if comparison <? 0 then
    t ← write parent (set_child LeftSide node) t;
    t ← write node (set_next parent) t;
    p ← deref t parent;
    t ← write node (set_previous (nd_previous p)) t;
    t ← write parent (set_previous node) t;
    n ← deref t node;
    if is_null (nd_previous n) then Some (set_head node t)
    else write (nd_previous n) (set_next node) t
  else
    t ← write parent (set_child RightSide node) t;
    t ← write node (set_previous parent) t;
    p ← deref t parent;
    t ← write node (set_next (nd_next p)) t;
    t ← write parent (set_next node) t;
    n ← deref t node;
    if is_null (nd_next n) then Some (set_tail node t)
    else write (nd_next n) (set_previous node) t.

End Pointers.

(** * Objects *)

Section Operations.
Context {V U : Type} `{!ObjectTraits V U}.
#[local] Abbreviation rbtree := (rbtree_t V).
Implicit Types t : rbtree.
Implicit Types c : rbtree_config.

Definition rbtree_compare_key c (left right : V) : option Z :=
  match rc_key_type c with
  | Some type => f ← trait tr_compare type; Some (call_compare f left right)
  | None => f ← rc_compare c; Some (raw_compare f left right (rc_compare_context c))
  end.

(** A copy of [source] in a block of its own. *)
Definition rbtree_copy_object (type : option cmeta_type_desc) (stride alignment : Z)
    (source : option V) : store U (stl_result (Z * cell V)) :=
  match source with
  | None => ret (StlFail STL_INVALID_ARGUMENT)
  | Some _ =>
      let* allocated := sequence_allocate 1 stride alignment in
      match allocated with
      | StlFail status => ret (StlFail status)
      | StlOk data =>
          let* block := reading data in
          let* (status, object) := sequence_copy type Raw source in
          if bool_decide (status = STL_OK) then ret (StlOk (block, object))
          else let* _ := sequence_deallocate data in ret (StlFail status)
      end
  end.

Definition rbtree_destroy_object (type : option cmeta_type_desc) (object : option (Z * cell V))
    : store U unit :=
  match object with
  | None => ret tt
  | Some (block, object) =>
      let* _ := sequence_destroy_value type object in sequence_deallocate (Some block)
  end.

(** [calloc (1u, size)]; the node is stored when it is linked. *)
Definition rbtree_node_create c (key value : option V) : store U (stl_result (rbtree_node V)) :=
  let* allocated := malloc sizeof_rbtree_node in
  match allocated with
  | None => ret (StlFail STL_OUT_OF_MEMORY)
  | Some _ =>
      let* copied := rbtree_copy_object (rc_key_type c) (rc_key_stride c) (rc_key_align c) key in
      match copied with
      | StlFail status => let* _ := free in ret (StlFail status)
      | StlOk key =>
          let* copied :=
            rbtree_copy_object (rc_value_type c) (rc_value_stride c) (rc_value_align c) value in
          match copied with
          | StlFail status =>
              let* _ := rbtree_destroy_object (rc_key_type c) (Some key) in
              let* _ := free in ret (StlFail status)
          | StlOk value => ret (StlOk (mk_node None None None None None (Some key) (Some value) true))
          end
      end
  end.

Definition rbtree_create (key_type value_type : option cmeta_type_desc)
    (key_size key_align value_size value_align element_limit : Z)
    (compare compare_context : option addr) (allow_duplicates : bool) : store U (stl_result rbtree) :=
  if (is_null value_type && (value_size =? 0)) || (is_null key_type && is_null compare)
  then ret (StlFail STL_INVALID_ARGUMENT)
  else
    match sequence_stride key_size key_align with
    | StlFail status => ret (StlFail status)
    | StlOk key_stride =>
        match sequence_stride value_size value_align with
        | StlFail status => ret (StlFail status)
        | StlOk value_stride =>
            let* allocated := malloc sizeof_rbtree in
            match allocated with
            | None => ret (StlFail STL_OUT_OF_MEMORY)
            | Some _ =>
                ret (StlOk (mk_rbtree None None None 0
                  (mk_rbtree_config key_size key_stride key_align value_size value_stride value_align
                     element_limit key_type value_type compare compare_context allow_duplicates) ∅))
            end
        end
    end.

(** The loop of [rbtree_clear]: a freed node leaves the store. *)
Fixpoint clear_nodes (fuel : nat) t (node : option addr) : store U rbtree :=
  match node with
  | None => ret t
  | Some a =>
      match fuel with
      | O => reading None
      | S fuel =>
          let* n := reading (deref t node) in
          let* _ := rbtree_destroy_object (rc_key_type (rb_config t)) (nd_key n) in
          let* _ := rbtree_destroy_object (rc_value_type (rb_config t)) (nd_value n) in
          let* _ := free in
          clear_nodes fuel (set_nodes (delete a (rb_nodes t)) t) (nd_next n)
      end
  end.

Definition rbtree_clear (t : option rbtree) : store U (option rbtree) :=
  match t with
  | None => ret None
  | Some t =>
      let* t := clear_nodes (enough t) t (rb_head t) in
      ret (Some (set_rb_size 0 (set_tail None (set_head None (set_root None t)))))
  end.

(** The tree is gone after it. *)
Definition rbtree_destroy (t : option rbtree) : store U unit :=
  match t with None => ret tt | Some _ => let* _ := rbtree_clear t in free end.

(** * Searching *)

Fixpoint find_loop (fuel : nat) t (key : V) (node : option addr) : option (option addr) :=
  if is_null node then Some None
  else
    match fuel with
    | O => None
    | S fuel =>
        n ← deref t node;
        k ← field_value (nd_key n);
        comparison ← rbtree_compare_key (rb_config t) key k;
        if comparison =? 0 then Some node
        else find_loop fuel t key (if comparison <? 0 then nd_left n else nd_right n)
    end.

Definition rbtree_find (t : option rbtree) (key : option V) : option (option addr) :=
  match t, key with Some t, Some key => find_loop (enough t) t key (rb_root t) | _, _ => Some None end.

(** [rbtree_lower_bound] and [rbtree_upper_bound] differ in whether a key that compares
    equal is passed by. *)
Fixpoint bound_loop (passes : Z -> bool) (fuel : nat) t (key : V) (node result : option addr)
    : option (option addr) :=
  if is_null node then Some result
  else
    match fuel with
    | O => None
    | S fuel =>
        n ← deref t node;
        k ← field_value (nd_key n);
        comparison ← rbtree_compare_key (rb_config t) k key;
        if passes comparison then bound_loop passes fuel t key (nd_right n) result
        else bound_loop passes fuel t key (nd_left n) node
    end.

Definition rbtree_lower_bound (t : option rbtree) (key : option V) : option (option addr) :=
  match t, key with
  | Some t, Some key => bound_loop (fun comparison => comparison <? 0) (enough t) t key (rb_root t) None
  | _, _ => Some None
  end.

Definition rbtree_upper_bound (t : option rbtree) (key : option V) : option (option addr) :=
  match t, key with
  | Some t, Some key => bound_loop (fun comparison => comparison <=? 0) (enough t) t key (rb_root t) None
  | _, _ => Some None
  end.

(** * Insertion *)

(** Where the descent of [rbtree_put] ends: at a node with an equal key, or below
    [parent], with the last comparison. *)
Inductive put_place :=
  | PutOver (node : option addr)
  | PutUnder (parent : option addr) (comparison : Z).

Fixpoint put_descend (fuel : nat) t (key : V) (node parent : option addr) (comparison : Z)
    : option put_place :=
  if is_null node then Some (PutUnder parent comparison)
  else
    match fuel with
    | O => None
    | S fuel =>
        n ← deref t node;
        k ← field_value (nd_key n);
        comparison ← rbtree_compare_key (rb_config t) key k;
        if (comparison =? 0) && negb (rc_allow_duplicates (rb_config t)) then Some (PutOver node)
        else
          put_descend fuel t key (if comparison <? 0 then nd_left n else nd_right n) node comparison
    end.

Definition replace_value t (node : option addr) (value : option V)
    : store U (stl_result rbtree_put_result * rbtree) :=
  let c := rb_config t in
  let* copied := rbtree_copy_object (rc_value_type c) (rc_value_stride c) (rc_value_align c) value in
  match copied with
  | StlFail status => ret (StlFail status, t)
  | StlOk replacement =>
      let* n := reading (deref t node) in
      let* _ := rbtree_destroy_object (rc_value_type c) (nd_value n) in
      let* t := reading (write node (set_value (Some replacement)) t) in
      ret (StlOk RBTREE_REPLACED, t)
  end.

Definition insert_node t (key value : option V) (parent : option addr) (comparison : Z)
    : store U (stl_result rbtree_put_result * rbtree) :=
  let c := rb_config t in
  if rc_element_limit c <=? rb_size t then ret (StlFail STL_CAPACITY_EXCEEDED, t)
  else
    let* created := rbtree_node_create c key value in
    match created with
    | StlFail status => ret (StlFail status, t)
    | StlOk n =>
        let a := unused_address (rb_nodes t) in
        let t := set_nodes (<[a := n]> (rb_nodes t)) t in
        let* t := reading (link_node t (Some a) parent comparison) in
        let* t := reading (rbtree_insert_fix t (Some a)) in
        ret (StlOk RBTREE_INSERTED, set_rb_size (size_inc (rb_size t)) t)
    end.

(** There is an [out_result]. *)
Definition rbtree_put (t : option rbtree) (key value : option V)
    : store U (stl_result rbtree_put_result * option rbtree) :=
  match t, key, value with
  | Some tree, Some k, Some _ =>
      let* place := reading (put_descend (enough tree) tree k (rb_root tree) None 0) in
      let* (result, tree) :=
        match place with
        | PutOver node => replace_value tree node value
        | PutUnder parent comparison => insert_node tree key value parent comparison
        end in
      ret (result, Some tree)
  | _, _, _ => ret (StlFail STL_INVALID_ARGUMENT, t)
  end.

(** * Removal *)

(** [want] says whether there is an [out_value]; the object it then holds. *)
Definition take_value t (node : option addr) (want : bool)
    : store U (stl_status * cell V * rbtree) :=
  let* n := reading (deref t node) in
  let* (block, object) := reading (nd_value n) in
  let type := rc_value_type (rb_config t) in
  let* (status, out, object) :=
    if want then
      let* (status, (out, object)) := sequence_move_destroy type Raw object in
      ret (status, out, object)
    else
      let* (status, object) := sequence_destroy_value type object in ret (status, Raw, object) in
  let* t := reading (write node (set_value (Some (block, object))) t) in
  ret (status, out, t).

Definition rbtree_remove_node (t : option rbtree) (node : option addr) (want : bool)
    : store U (stl_status * cell V * option rbtree) :=
  match t, node with
  | Some tree, Some a =>
      let* (status, out, tree) := take_value tree node want in
      if bool_decide (status = STL_OK) then
        let* tree := reading (unlink_node tree node) in
        let* n := reading (deref tree node) in
        let* _ := rbtree_destroy_object (rc_key_type (rb_config tree)) (nd_key n) in
        let* _ := sequence_deallocate (fst <$> nd_value n) in
        let* _ := free in
        let tree := set_nodes (delete a (rb_nodes tree)) tree in
        ret (STL_OK, out, Some (set_rb_size (size_dec (rb_size tree)) tree))
      else ret (status, out, Some tree)
  | _, _ => ret (STL_INVALID_ARGUMENT, Raw, t)
  end.

End Operations.
