(* ===== verification/CstlRbShape.v ===== *)
(** The shape of a red-black tree: which tree of addresses the pointers of the nodes
    form, seen from the root or from a node inside, and what rotating, recolouring and
    replacing a node do to it. *)

From S2P Require Import Prelude.
From S2P Require Import CMetaType.
From S2P Require Import CstlSupport.
From S2P Require Import CstlRbTree.

(** * Trees of addresses *)

Inductive shape :=
  | Leaf
  | Node (left : shape) (a : addr) (red : bool) (right : shape).

Definition ptr (T : shape) : option addr := match T with Leaf => None | Node _ a _ _ => Some a end.

Fixpoint inorder (T : shape) : list addr :=
  match T with Leaf => [] | Node l a _ r => inorder l ++ a :: inorder r end.

(** The node [a] with the subtree [x] on the side [s] and [y] on the other. *)
Definition join (s : side) (x : shape) (a : addr) (red : bool) (y : shape) : shape :=
  match s with LeftSide => Node x a red y | RightSide => Node y a red x end.

(** The way up from a subtree: it is on the side [fr_side] of [fr_node], whose other
    subtree is [fr_sibling]. *)
Record frame := Frame { fr_side : side; fr_node : addr; fr_red : bool; fr_sibling : shape }.

Fixpoint plug (path : list frame) (T : shape) : shape :=
  match path with
  | [] => T
  | Frame s a red y :: path => plug path (join s T a red y)
  end.

Definition up (path : list frame) : option addr := fr_node <$> hd_error path.

(** The addresses before and after the subtree in order. *)
Fixpoint before (path : list frame) : list addr :=
  match path with
  | [] => []
  | Frame LeftSide _ _ _ :: path => before path
  | Frame RightSide a _ y :: path => before path ++ inorder y ++ [a]
  end.

Fixpoint after (path : list frame) : list addr :=
  match path with
  | [] => []
  | Frame LeftSide a _ y :: path => a :: inorder y ++ after path
  | Frame RightSide _ _ _ :: path => after path
  end.

Definition around (path : list frame) : list addr := before path ++ after path.

Lemma plug_app p q T : plug (p ++ q) T = plug q (plug p T).
Proof. revert T. induction p as [|[s a c y] p IH]; intros T; [done|]. apply IH. Qed.

Lemma inorder_plug path T : inorder (plug path T) = before path ++ inorder T ++ after path.
Proof.
  revert T. induction path as [|[s a c y] path IH]; intros T; simpl; [by rewrite app_nil_r|].
  rewrite IH. destruct s; simpl; by rewrite <- ?app_assoc.
Qed.

Lemma inorder_join s x a c y : inorder (join s x a c y) ≡ₚ a :: inorder x ++ inorder y.
Proof. destruct s; simpl; rewrite <- Permutation_middle; [done|by rewrite (Permutation_app_comm (inorder x))]. Qed.

Lemma around_frame s a c y path : around (Frame s a c y :: path) ≡ₚ a :: inorder y ++ around path.
Proof.
  unfold around. destruct s; simpl.
  - rewrite <- Permutation_middle. constructor. rewrite !app_assoc. by rewrite (Permutation_app_comm (before path)).
  - rewrite <- !app_assoc, Permutation_app_swap_app. simpl.
    by rewrite app_assoc, <- Permutation_middle, <- app_assoc.
Qed.

Lemma inorder_around path T : inorder (plug path T) ≡ₚ inorder T ++ around path.
Proof.
  rewrite inorder_plug. unfold around. rewrite !app_assoc. by rewrite (Permutation_app_comm (before path)).
Qed.

Lemma elem_of_join s x a c y q :
  q ∈ inorder (join s x a c y) <-> q = a \/ q ∈ inorder x \/ q ∈ inorder y.
Proof. by rewrite inorder_join, elem_of_cons, elem_of_app. Qed.

Lemma elem_of_around s a c y path q :
  q ∈ around (Frame s a c y :: path) <-> q = a \/ q ∈ inorder y \/ q ∈ around path.
Proof. by rewrite around_frame, elem_of_cons, elem_of_app. Qed.

Lemma up_around path u : up path = Some u -> u ∈ around path.
Proof. destruct path as [|[s a c y] path]; [done|]. intros [= <-]. apply elem_of_around. by left. Qed.

Lemma ptr_inorder T d : ptr T = Some d -> d ∈ inorder T.
Proof. destruct T; [done|]. intros [= <-]. simpl. set_solver. Qed.

(** ** Distinct addresses *)

Definition distinct (path : list frame) (T : shape) : Prop := NoDup (inorder (plug path T)).

Lemma distinct_iff path T :
  distinct path T <-> NoDup (inorder T) /\ (forall q, q ∈ inorder T -> q ∉ around path) /\ NoDup (around path).
Proof. unfold distinct. by rewrite inorder_around, NoDup_app. Qed.

Lemma distinct_inorder path T T' : inorder T ≡ₚ inorder T' -> distinct path T -> distinct path T'.
Proof. rewrite !distinct_iff. intros E. rewrite E. setoid_rewrite E. done. Qed.

Lemma rotate_inorder s x a c y b d z :
  inorder (join s x a c (join s y b d z)) = inorder (join s (join s x a c y) b d z).
Proof. by destruct s; simpl; rewrite <- app_assoc. Qed.

Lemma NoDup_join s x a c y :
  NoDup (inorder (join s x a c y)) <->
  (a ∉ inorder x /\ a ∉ inorder y) /\ NoDup (inorder x) /\
  (forall q, q ∈ inorder x -> q ∉ inorder y) /\ NoDup (inorder y).
Proof. rewrite inorder_join, NoDup_cons, NoDup_app, not_elem_of_app. done. Qed.

Lemma NoDup_around s a c y path :
  NoDup (around (Frame s a c y :: path)) <->
  (a ∉ inorder y /\ a ∉ around path) /\ NoDup (inorder y) /\
  (forall q, q ∈ inorder y -> q ∉ around path) /\ NoDup (around path).
Proof. rewrite around_frame, NoDup_cons, NoDup_app, not_elem_of_app. done. Qed.

(** Solves inequalities between addresses and non-membership. *)
Ltac open_distinct :=
  repeat match goal with
  | H : distinct _ _ |- _ => apply distinct_iff in H
  | H : NoDup (inorder (join _ _ _ _ _)) |- _ => apply NoDup_join in H
  | H : NoDup (around (Frame _ _ _ _ :: _)) |- _ => apply NoDup_around in H
  | H : _ /\ _ |- _ => destruct H
  end.

Ltac apart :=
  repeat match goal with
  | H : ptr _ = Some _ |- _ => apply ptr_inorder in H
  | H : up _ = Some _ |- _ => apply up_around in H
  end;
  repeat match goal with
  | H : context [_ ∈ inorder (join _ _ _ _ _)] |- _ => setoid_rewrite elem_of_join in H
  | H : context [_ ∈ around (Frame _ _ _ _ :: _)] |- _ => setoid_rewrite elem_of_around in H
  | |- context [_ ∈ inorder (join _ _ _ _ _)] => setoid_rewrite elem_of_join
  | |- context [_ ∈ around (Frame _ _ _ _ :: _)] => setoid_rewrite elem_of_around
  end; naive_solver.

(** * The pointers *)

Section Shape.
Context {V : Type}.
Implicit Types t : rbtree_t V.
Implicit Types nodes : gmap addr (rbtree_node V).
Implicit Types path : list frame.

(** The links of the node at [a], seen from the side [s]. *)
Definition node_is nodes (a : addr) (parent : option addr) (s : side) (near far : option addr)
    (red : bool) : Prop :=
  exists n, nodes !! a = Some n /\ nd_parent n = parent /\ child s n = near /\
    child (opposite s) n = far /\ nd_red n = red.

Fixpoint rep nodes (parent : option addr) (T : shape) : Prop :=
  match T with
  | Leaf => True
  | Node l a red r =>
      node_is nodes a parent LeftSide (ptr l) (ptr r) red /\ rep nodes (Some a) l /\ rep nodes (Some a) r
  end.

(** What is around a subtree with the address [hole]. *)
Fixpoint rep_path nodes (hole : option addr) (path : list frame) (root : option addr) : Prop :=
  match path with
  | [] => root = hole
  | Frame s a red y :: path =>
      node_is nodes a (up path) s hole (ptr y) red /\ rep nodes (Some a) y /\
      rep_path nodes (Some a) path root
  end.

Record rooted t (T : shape) : Prop := {
  rt_root : rb_root t = ptr T;
  rt_rep : rep (rb_nodes t) None T;
  rt_distinct : NoDup (inorder T);
}.

Lemma opposite_involutive s : opposite (opposite s) = s.
Proof. by destruct s. Qed.

Lemma node_is_flip nodes a parent s near far red :
  node_is nodes a parent s near far red <-> node_is nodes a parent (opposite s) far near red.
Proof. unfold node_is. rewrite opposite_involutive. naive_solver. Qed.

Lemma rep_join nodes parent s x a red y :
  rep nodes parent (join s x a red y) <->
  node_is nodes a parent s (ptr x) (ptr y) red /\ rep nodes (Some a) x /\ rep nodes (Some a) y.
Proof. destruct s; simpl; [done|]. rewrite node_is_flip. simpl. tauto. Qed.

Lemma ptr_join s x a red y : ptr (join s x a red y) = Some a.
Proof. by destruct s. Qed.

Lemma join_opposite s x a red y : join (opposite s) x a red y = join s y a red x.
Proof. by destruct s. Qed.

Lemma rooted_plug t path T :
  rooted t (plug path T) <->
  rep (rb_nodes t) (up path) T /\ rep_path (rb_nodes t) (ptr T) path (rb_root t) /\ distinct path T.
Proof.
  transitivity (rb_root t = ptr (plug path T) /\ rep (rb_nodes t) None (plug path T) /\ distinct path T).
  { split; [by intros []|by intros (? & ? & ?); split]. }
  enough (forall root, root = ptr (plug path T) /\ rep (rb_nodes t) None (plug path T) <->
    rep (rb_nodes t) (up path) T /\ rep_path (rb_nodes t) (ptr T) path root) as E
    by (specialize (E (rb_root t)); tauto).
  intros root. revert T. induction path as [|[s a c y] path IH]; intros T; simpl.
  - tauto.
  - rewrite IH, rep_join, ptr_join. tauto.
Qed.

(** ** Frames *)

Lemma node_is_alter_ne nodes f b a parent s near far red :
  a <> b -> node_is nodes a parent s near far red -> node_is (alter f b nodes) a parent s near far red.
Proof. intros Hne (n & Hn & H). exists n. by rewrite lookup_alter_ne. Qed.

Lemma node_is_lookup nodes nodes' a parent s near far red :
  nodes' !! a = nodes !! a -> node_is nodes a parent s near far red ->
  node_is nodes' a parent s near far red.
Proof. unfold node_is. by intros ->. Qed.

Lemma rep_frame nodes nodes' parent T :
  (forall q, q ∈ inorder T -> nodes' !! q = nodes !! q) -> rep nodes parent T -> rep nodes' parent T.
Proof.
  revert parent. induction T as [|l IHl a c r IHr]; intros parent Hq; simpl; [done|].
  intros (Hn & Hl & Hr). split_and!.
  - eapply node_is_lookup; [|done]. apply Hq. simpl. set_solver.
  - apply IHl; [|done]. intros q Hin. apply Hq. simpl. set_solver.
  - apply IHr; [|done]. intros q Hin. apply Hq. simpl. set_solver.
Qed.

Lemma rep_path_frame nodes nodes' hole path root :
  (forall q, q ∈ around path -> nodes' !! q = nodes !! q) -> rep_path nodes hole path root ->
  rep_path nodes' hole path root.
Proof.
  revert hole. induction path as [|[s a c y] path IH]; intros hole Hq; simpl; [done|].
  intros (Hn & Hy & Hp). setoid_rewrite elem_of_around in Hq. split_and!.
  - eapply node_is_lookup; [|done]. apply Hq. by left.
  - eapply rep_frame; [|done]. intros q Hin. apply Hq. tauto.
  - apply IH; [|done]. intros q Hin. apply Hq. tauto.
Qed.

Lemma rep_alter nodes f b parent T :
  b ∉ inorder T -> rep nodes parent T -> rep (alter f b nodes) parent T.
Proof. intros Hb. apply rep_frame. intros q Hq. apply lookup_alter_ne. by intros ->. Qed.

Lemma rep_path_alter nodes f b hole path root :
  b ∉ around path -> rep_path nodes hole path root -> rep_path (alter f b nodes) hole path root.
Proof. intros Hb. apply rep_path_frame. intros q Hq. apply lookup_alter_ne. by intros ->. Qed.

(** ** Assignments *)

Lemma child_set_child s p (n : rbtree_node V) : child s (set_child s p n) = p.
Proof. by destruct s. Qed.
Lemma child_set_opposite s p (n : rbtree_node V) : child s (set_child (opposite s) p n) = child s n.
Proof. by destruct s. Qed.
Lemma opposite_set_child s p (n : rbtree_node V) :
  child (opposite s) (set_child s p n) = child (opposite s) n.
Proof. by destruct s. Qed.
Lemma parent_set_child s p (n : rbtree_node V) : nd_parent (set_child s p n) = nd_parent n.
Proof. by destruct s. Qed.
Lemma red_set_child s p (n : rbtree_node V) : nd_red (set_child s p n) = nd_red n.
Proof. by destruct s. Qed.
Lemma child_set_parent s p (n : rbtree_node V) : child s (set_parent p n) = child s n.
Proof. by destruct s. Qed.
Lemma child_set_red s c (n : rbtree_node V) : child s (set_red c n) = child s n.
Proof. by destruct s. Qed.

Lemma node_is_alter nodes f a parent s near far red parent' near' far' red' :
  node_is nodes a parent s near far red ->
  (forall n, nd_parent n = parent -> child s n = near -> child (opposite s) n = far -> nd_red n = red ->
     nd_parent (f n) = parent' /\ child s (f n) = near' /\ child (opposite s) (f n) = far' /\
     nd_red (f n) = red') ->
  node_is (alter f a nodes) a parent' s near' far' red'.
Proof.
  intros (n & Hn & Hp & Hs & Ho & Hc) Hf. exists (f n). rewrite lookup_alter_eq, Hn. split; [done|]. auto.
Qed.

Lemma node_is_child nodes p a parent s near far red :
  node_is nodes a parent s near far red ->
  node_is (alter (set_child s p) a nodes) a parent s p far red.
Proof.
  intros H. eapply node_is_alter; [done|]. intros n <- <- <- <-.
  by rewrite parent_set_child, child_set_child, opposite_set_child, red_set_child.
Qed.

Lemma node_is_far nodes p a parent s near far red :
  node_is nodes a parent s near far red ->
  node_is (alter (set_child (opposite s) p) a nodes) a parent s near p red.
Proof.
  intros H. eapply node_is_alter; [done|]. intros n <- <- <- <-.
  by rewrite parent_set_child, child_set_child, child_set_opposite, red_set_child.
Qed.

Lemma node_is_parent nodes p a parent s near far red :
  node_is nodes a parent s near far red ->
  node_is (alter (set_parent p) a nodes) a p s near far red.
Proof.
  intros H. eapply node_is_alter; [done|]. intros n <- <- <- <-. by rewrite !child_set_parent.
Qed.

Lemma node_is_red nodes c a parent s near far red :
  node_is nodes a parent s near far red ->
  node_is (alter (set_red c) a nodes) a parent s near far c.
Proof.
  intros H. eapply node_is_alter; [done|]. intros n <- <- <- <-. by rewrite !child_set_red.
Qed.

(** [write] where the node is there. *)
Definition modify (f : rbtree_node V -> rbtree_node V) (a : addr) t : rbtree_t V :=
  set_nodes (alter f a (rb_nodes t)) t.

Definition modify_at (f : rbtree_node V -> rbtree_node V) (p : option addr) t : rbtree_t V :=
  match p with None => t | Some a => modify f a t end.

Lemma deref_node t a parent s near far red :
  node_is (rb_nodes t) a parent s near far red ->
  exists n, deref t (Some a) = Some n /\ nd_parent n = parent /\ child s n = near /\
    child (opposite s) n = far /\ nd_red n = red.
Proof. intros (n & Hn & H). by exists n. Qed.

Lemma write_modify t a f : is_Some (rb_nodes t !! a) -> write (Some a) f t = Some (modify f a t).
Proof.
  intros [n Hn]. unfold write, modify. cbn [mbind option_bind]. rewrite Hn. cbn [mbind option_bind].
  do 2 f_equal. apply map_eq. intros b. destruct (decide (b = a)) as [->|Hne].
  - by rewrite lookup_insert_eq, lookup_alter_eq, Hn.
  - by rewrite lookup_insert_ne, lookup_alter_ne.
Qed.

Lemma write_node t a f parent s near far red :
  node_is (rb_nodes t) a parent s near far red -> write (Some a) f t = Some (modify f a t).
Proof. intros (n & Hn & _). by apply write_modify. Qed.

Lemma rep_present nodes parent T q : rep nodes parent T -> q ∈ inorder T -> is_Some (nodes !! q).
Proof.
  revert parent. induction T as [|l IHl a c r IHr]; intros parent; simpl; [set_solver|].
  intros ((n & Hn & _) & Hl & Hr). rewrite elem_of_app, elem_of_cons. intros [Hq|[->|Hq]]; eauto.
Qed.

Lemma rep_path_present nodes hole path root q :
  rep_path nodes hole path root -> q ∈ around path -> is_Some (nodes !! q).
Proof.
  revert hole. induction path as [|[s a c y] path IH]; intros hole; simpl; [set_solver|].
  intros ((n & Hn & _) & Hy & Hp). rewrite elem_of_around. intros [->|[Hq|Hq]]; [eauto| |eauto].
  by eapply rep_present.
Qed.

Lemma write_if_present t p f :
  (forall a, p = Some a -> is_Some (rb_nodes t !! a)) -> write_if p f t = Some (modify_at f p t).
Proof. intros Hp. destruct p as [a|]; [|done]. apply write_modify. by apply Hp. Qed.

Lemma write_if_root t T parent f :
  rep (rb_nodes t) parent T -> write_if (ptr T) f t = Some (modify_at f (ptr T) t).
Proof. intros Hr. apply write_if_present. intros a Ha. eapply rep_present; [done|by apply ptr_inorder]. Qed.

(** A subtree gets another parent. *)
Lemma rep_reparent nodes p parent T :
  NoDup (inorder T) -> rep nodes parent T ->
  rep (match ptr T with None => nodes | Some d => alter (set_parent p) d nodes end) p T.
Proof.
  destruct T as [|l d c r]; simpl; [done|]. intros Hd (Hn & Hl & Hr).
  apply (NoDup_join LeftSide l d c r) in Hd. destruct Hd as ([? ?] & _).
  split_and!; [by eapply node_is_parent|by apply rep_alter..].
Qed.

(** ** What pointer operations leave alone *)

Definition data_of (n : rbtree_node V) : option addr * option addr * option (Z * cell V) * option (Z * cell V) :=
  (nd_previous n, nd_next n, nd_key n, nd_value n).

Record same_data t t' : Prop := {
  sd_data : data_of <$> rb_nodes t' = data_of <$> rb_nodes t;
  sd_head : rb_head t' = rb_head t;
  sd_tail : rb_tail t' = rb_tail t;
  sd_size : rb_size t' = rb_size t;
  sd_config : rb_config t' = rb_config t;
}.

#[export] Instance same_data_preorder : PreOrder same_data.
Proof. split; [by split|]. intros t1 t2 t3 [] []. split; congruence. Qed.

Definition keeps_data (f : rbtree_node V -> rbtree_node V) : Prop := forall n, data_of (f n) = data_of n.

Lemma modify_same f a t : keeps_data f -> same_data t (modify f a t).
Proof.
  intros Hf. split; try done. simpl. apply map_eq. intros b. rewrite !lookup_fmap.
  destruct (decide (b = a)) as [->|Hne]; [|by rewrite lookup_alter_ne].
  rewrite lookup_alter_eq. destruct (rb_nodes t !! a); simpl; [by rewrite Hf|done].
Qed.

Lemma modify_at_same f p t : keeps_data f -> same_data t (modify_at f p t).
Proof. intros Hf. destruct p; [by apply modify_same|done]. Qed.

Lemma set_root_same p t : same_data t (set_root p t).
Proof. by split. Qed.

Lemma keeps_child s p : keeps_data (set_child s p).
Proof. by destruct s. Qed.
Lemma keeps_parent p : keeps_data (set_parent p).
Proof. done. Qed.
Lemma keeps_red c : keeps_data (set_red c).
Proof. done. Qed.

Lemma same_data_present t t' q : same_data t t' -> is_Some (rb_nodes t' !! q) <-> is_Some (rb_nodes t !! q).
Proof.
  intros [Hd _ _ _ _]. apply (f_equal (lookup q)) in Hd. rewrite !lookup_fmap in Hd.
  destruct (rb_nodes t' !! q), (rb_nodes t !! q); try done; split; intros []; eauto; done.
Qed.

Lemma same_data_size t t' : same_data t t' -> size (rb_nodes t') = size (rb_nodes t).
Proof. intros [Hd _ _ _ _]. apply (f_equal size) in Hd. by rewrite !map_size_fmap in Hd. Qed.

(** ** A child is replaced *)

Definition fill path (p : option addr) t : rbtree_t V :=
  match path with [] => set_root p t | Frame s u _ _ :: _ => modify (set_child s p) u t end.

Lemma fill_same path p t : same_data t (fill path p t).
Proof. destruct path as [|[s u c y] path]; [done|]. apply modify_same, keeps_child. Qed.

Lemma fill_lookup path p t q : q ∉ around path -> rb_nodes (fill path p t) !! q = rb_nodes t !! q.
Proof.
  destruct path as [|[s u c y] path]; [done|]. rewrite elem_of_around. intros Hq.
  apply lookup_alter_ne. naive_solver.
Qed.

Lemma fill_path t path hole p :
  NoDup (around path) -> rep_path (rb_nodes t) hole path (rb_root t) ->
  rep_path (rb_nodes (fill path p t)) p path (rb_root (fill path p t)).
Proof.
  destruct path as [|[s u c y] path]; simpl; [done|]. intros Hd (Hn & Hy & Hp). open_distinct.
  split_and!; [by eapply node_is_child|by apply rep_alter|by apply rep_path_alter].
Qed.

Lemma replace_child_spec s t path a p :
  NoDup (around path) -> a ∉ around path -> rep_path (rb_nodes t) (Some a) path (rb_root t) ->
  replace_child s t (up path) (Some a) p = Some (fill path p t).
Proof.
  intros Hd Ha. destruct path as [|[s' u c y] path]; [done|]. cbn [rep_path fill]. intros (Hn & Hy & Hp).
  change (up (Frame s' u c y :: path)) with (Some u). unfold replace_child. cbn [is_null].
  destruct (deref_node _ _ _ _ _ _ _ Hn) as (n & -> & _ & Hnear & Hfar & _).
  cbn [mbind option_bind]. rewrite elem_of_around in Ha.
  destruct (decide (s' = s)) as [->|Hne].
  - rewrite bool_decide_true by done. by eapply write_node.
  - assert (s' = opposite s) as -> by (by destruct s, s'). rewrite opposite_involutive in Hfar.
    rewrite bool_decide_false; [by eapply write_node|]. rewrite Hfar. intros Hy'%eq_sym%ptr_inorder. tauto.
Qed.

(** ** Rotation *)

(** The parts of a subtree that is rotated. *)
Record rotatable s t path x a c y b d z : Prop := {
  ra_a : node_is (rb_nodes t) a (up path) s (ptr x) (Some b) c;
  ra_b : node_is (rb_nodes t) b (Some a) s (ptr y) (ptr z) d;
  ra_x : rep (rb_nodes t) (Some a) x;
  ra_y : rep (rb_nodes t) (Some b) y;
  ra_z : rep (rb_nodes t) (Some b) z;
  ra_path : rep_path (rb_nodes t) (Some a) path (rb_root t);
  ra_inside : NoDup (inorder (join s x a c (join s y b d z)));
  ra_apart : forall q, q ∈ inorder (join s x a c (join s y b d z)) -> q ∉ around path;
  ra_around : NoDup (around path);
}.

Lemma rooted_rotatable s t path x a c y b d z :
  rooted t (plug path (join s x a c (join s y b d z))) <-> rotatable s t path x a c y b d z.
Proof.
  rewrite rooted_plug, ptr_join, !rep_join, ptr_join, distinct_iff. split.
  - intros ((? & ? & ? & ? & ?) & ? & ? & ? & ?). by split.
  - intros []. done.
Qed.

(** The pivot has handed its near subtree over to [a] and taken the parent of [a]. *)
Definition handed s path a y b t : rbtree_t V :=
  modify (set_parent (up path)) b
    (modify_at (set_parent (Some a)) (ptr y) (modify (set_child (opposite s) (ptr y)) a t)).

Definition rotated s path a y b t : rbtree_t V :=
  modify (set_parent (Some b)) a
    (modify (set_child s (Some a)) b (fill path (Some b) (handed s path a y b t))).

Lemma modify_at_lookup f p t q : p <> Some q -> rb_nodes (modify_at f p t) !! q = rb_nodes t !! q.
Proof. destruct p as [a|]; [|done]. intros Hp. apply lookup_alter_ne. congruence. Qed.

Lemma handed_lookup s path a y b t q :
  q <> a -> q <> b -> q ∉ inorder y -> rb_nodes (handed s path a y b t) !! q = rb_nodes t !! q.
Proof.
  intros Ha Hb Hy. unfold handed. simpl. rewrite lookup_alter_ne by done.
  rewrite modify_at_lookup by (intros Hq; by apply ptr_inorder in Hq). by apply lookup_alter_ne.
Qed.

Lemma rotated_lookup s path a y b t q :
  q <> a -> q <> b -> rb_nodes (rotated s path a y b t) !! q = rb_nodes (fill path (Some b) (handed s path a y b t)) !! q.
Proof. intros Ha Hb. unfold rotated. simpl. by rewrite !lookup_alter_ne. Qed.

Lemma handed_root s path a y b t : rb_root (handed s path a y b t) = rb_root t.
Proof. unfold handed. simpl. by destruct (ptr y). Qed.

Lemma handed_same s path a y b t : same_data t (handed s path a y b t).
Proof.
  unfold handed. etransitivity; [apply modify_same, (keeps_child (opposite s) (ptr y))|].
  etransitivity; [apply modify_at_same, (keeps_parent (Some a))|]. by apply modify_same.
Qed.

Section Rotation.
Context (s : side) (t : rbtree_t V) (path : list frame) (x : shape) (a : addr) (c : bool)
  (y : shape) (b : addr) (d : bool) (z : shape).
Hypothesis Hra : rotatable s t path x a c y b d z.

Lemma rotation_apart :
  a <> b /\ ~ (a ∈ inorder y) /\ ~ (b ∈ inorder y) /\ ~ (a ∈ around path) /\ ~ (b ∈ around path).
Proof. destruct Hra. open_distinct. split_and!; apart. Qed.

Lemma handed_rep :
  let t' := handed s path a y b t in
  node_is (rb_nodes t') a (up path) s (ptr x) (ptr y) c /\
  node_is (rb_nodes t') b (up path) s (ptr y) (ptr z) d /\ rep (rb_nodes t') (Some a) y.
Proof.
  destruct rotation_apart as (Hab & Hay & Hby & _), Hra as [Ha Hb _ Hy _ _ _ _ _].
  unfold handed. set (t1 := modify _ a t).
  assert (forall q, q ∉ inorder y ->
    rb_nodes (modify_at (set_parent (Some a)) (ptr y) t1) !! q = rb_nodes t1 !! q) as Hq
    by (intros q Hq; apply modify_at_lookup; intros Hy'; by apply ptr_inorder in Hy').
  cbn zeta. split_and!.
  - apply node_is_alter_ne; [done|]. eapply node_is_lookup; [by apply Hq|]. by eapply node_is_far.
  - eapply node_is_parent, node_is_lookup; [by apply Hq|]. by apply node_is_alter_ne.
  - apply rep_alter; [done|].
    assert (NoDup (inorder y)) as Hd by (destruct Hra; open_distinct; done).
    pose proof (rep_reparent (rb_nodes t1) (Some a) (Some b) y Hd ltac:(by apply rep_alter)) as Hy'.
    unfold modify_at. by destruct (ptr y).
Qed.

Lemma handed_path : rep_path (rb_nodes (handed s path a y b t)) (Some a) path (rb_root (handed s path a y b t)).
Proof.
  rewrite handed_root. destruct Hra. eapply rep_path_frame; [|done]. intros q Hq.
  apply handed_lookup; apart.
Qed.

Lemma rotate_computes : rbtree_rotate s t (Some a) = Some (rotated s path a y b t).
Proof.
  destruct rotation_apart as (Hab & Hay & Hby & Hap & Hbp), handed_rep as (Ha3 & Hb3 & _), Hra as [Ha Hb _ Hy _ _ _ _ Hd].
  unfold rbtree_rotate.
  destruct (deref_node _ _ _ _ _ _ _ Ha) as (n & -> & _ & _ & Hfar & _). cbn [mbind option_bind].
  rewrite Hfar. destruct (deref_node _ _ _ _ _ _ _ Hb) as (m & -> & _ & Hnear & _ & _). cbn [mbind option_bind].
  rewrite Hnear. erewrite write_node by exact Ha. cbn [mbind option_bind]. set (t1 := modify _ a t).
  erewrite (write_if_root t1 y (Some b)) by (by apply rep_alter). cbn [mbind option_bind].
  set (t2 := modify_at _ _ t1).
  assert (forall q, q ∉ inorder y -> rb_nodes t2 !! q = rb_nodes t1 !! q) as Hq
    by (intros q Hq; apply modify_at_lookup; intros Hy'; by apply ptr_inorder in Hy').
  assert (node_is (rb_nodes t2) a (up path) s (ptr x) (ptr y) c) as Ha2
    by (eapply node_is_lookup; [by apply Hq|]; by eapply node_is_far).
  destruct (deref_node _ _ _ _ _ _ _ Ha2) as (n2 & -> & Hn2 & _). cbn [mbind option_bind]. rewrite Hn2.
  rewrite write_modify by (rewrite Hq by done; destruct Hb as (? & Hb & _); unfold t1; simpl; rewrite lookup_alter_ne; eauto).
  cbn [mbind option_bind]. change (modify _ b t2) with (handed s path a y b t).
  destruct (deref_node _ _ _ _ _ _ _ Ha3) as (n3 & -> & Hn3 & _). cbn [mbind option_bind]. rewrite Hn3.
  rewrite replace_child_spec by (done || apply handed_path). cbn [mbind option_bind].
  assert (forall q, q ∉ around path -> rb_nodes (fill path (Some b) (handed s path a y b t)) !! q =
    rb_nodes (handed s path a y b t) !! q) as Hf by apply fill_lookup.
  erewrite write_node by (eapply node_is_lookup; [by apply Hf|exact Hb3]). cbn [mbind option_bind].
  by erewrite write_node by (apply node_is_alter_ne; [done|]; eapply node_is_lookup; [by apply Hf|exact Ha3]).
Qed.

Lemma rotated_rooted : rooted (rotated s path a y b t) (plug path (join s (join s x a c y) b d z)).
Proof.
  destruct rotation_apart as (Hab & Hay & Hby & Hap & Hbp), handed_rep as (Ha3 & Hb3 & Hy3).
  pose proof handed_path as Hp3. destruct Hra as [_ _ Hx _ Hz _ Hin Hout Hd].
  pose proof (fill_path _ path (Some a) (Some b) Hd Hp3) as Hp4.
  apply rooted_plug. rewrite ptr_join, !rep_join, ptr_join. split_and!.
  - apply node_is_alter_ne; [done|]. eapply node_is_child, node_is_lookup; [by apply fill_lookup|done].
  - eapply node_is_parent, node_is_alter_ne, node_is_lookup; [done|by apply fill_lookup|done].
  - open_distinct. eapply rep_frame; [|exact Hx]. intros q Hq.
    rewrite rotated_lookup, fill_lookup, handed_lookup; [done|apart..].
  - open_distinct. eapply rep_frame; [|exact Hy3]. intros q Hq. rewrite rotated_lookup, fill_lookup; [done|apart..].
  - open_distinct. eapply rep_frame; [|exact Hz]. intros q Hq.
    rewrite rotated_lookup, fill_lookup, handed_lookup; [done|apart..].
  - eapply rep_path_frame; [|exact Hp4]. intros q Hq. apply rotated_lookup; by intros ->.
  - eapply (distinct_inorder path (join s x a c (join s y b d z))); [|by apply distinct_iff].
    by rewrite rotate_inorder.
Qed.

Lemma rotated_same : same_data t (rotated s path a y b t).
Proof.
  etransitivity; [apply (handed_same s path a y b)|]. etransitivity; [apply (fill_same path (Some b))|].
  unfold rotated. etransitivity; [apply modify_same, (keeps_child s (Some a))|]. by apply modify_same.
Qed.

End Rotation.

Lemma rotate_spec s t path x a c y b d z :
  rooted t (plug path (join s x a c (join s y b d z))) ->
  exists t', rbtree_rotate s t (Some a) = Some t' /\
    rooted t' (plug path (join s (join s x a c y) b d z)) /\ same_data t t'.
Proof.
  intros Hr%rooted_rotatable. exists (rotated s path a y b t).
  split_and!; [by eapply rotate_computes|by eapply rotated_rooted|apply rotated_same].
Qed.

(** ** Reading and recolouring *)

Lemma rooted_node t path s x a c y :
  rooted t (plug path (join s x a c y)) ->
  exists n, deref t (Some a) = Some n /\ nd_parent n = up path /\ child s n = ptr x /\
    child (opposite s) n = ptr y /\ nd_red n = c.
Proof. rewrite rooted_plug, rep_join. intros ((Hn & _) & _). by apply deref_node. Qed.

(** At the top of a path. *)
Lemma rooted_top t path s a c y T :
  rooted t (plug (Frame s a c y :: path) T) ->
  exists n, deref t (Some a) = Some n /\ nd_parent n = up path /\ child s n = ptr T /\
    child (opposite s) n = ptr y /\ nd_red n = c.
Proof. apply rooted_node. Qed.

Lemma rooted_write_red t path s x a c y c' :
  rooted t (plug path (join s x a c y)) ->
  exists t', write (Some a) (set_red c') t = Some t' /\
    rooted t' (plug path (join s x a c' y)) /\ same_data t t'.
Proof.
  rewrite rooted_plug, ptr_join, rep_join. intros ((Hn & Hx & Hy) & Hp & Hd).
  exists (modify (set_red c') a t). split_and!; [by eapply write_node| |by apply modify_same].
  pose proof Hd as Hd'. revert Hd'. open_distinct. intros Hd'.
  apply rooted_plug. rewrite ptr_join, rep_join. split_and!.
  - by eapply node_is_red.
  - apply rep_alter; [apart|done].
  - apply rep_alter; [apart|done].
  - apply rep_path_alter; [apart|done].
  - eapply distinct_inorder, Hd'. by rewrite !inorder_join.
Qed.

Definition root_red (T : shape) : bool := match T with Leaf => false | Node _ _ c _ => c end.

Lemma rooted_is_red t path T :
  rooted t (plug path T) -> rbtree_is_red t (ptr T) = Some (root_red T).
Proof.
  destruct T as [|l a c r]; [done|]. intros Hr. unfold rbtree_is_red. cbn [ptr is_null].
  destruct (rooted_node t path LeftSide l a c r Hr) as (n & -> & _ & _ & _ & Hc). simpl. by rewrite Hc.
Qed.

Lemma rooted_is_black t path T :
  rooted t (plug path T) -> rbtree_is_black t (ptr T) = Some (negb (root_red T)).
Proof.
  destruct T as [|l a c r]; [done|]. intros Hr. unfold rbtree_is_black. cbn [ptr is_null].
  destruct (rooted_node t path LeftSide l a c r Hr) as (n & -> & _ & _ & _ & Hc). simpl. by rewrite Hc.
Qed.

(** A subtree that is there, and the colour of its parent. *)
Lemma rooted_ptr t path T a :
  rooted t (plug path T) -> ptr T = Some a ->
  exists n, deref t (Some a) = Some n /\ nd_parent n = up path /\ nd_red n = root_red T.
Proof.
  destruct T as [|l b c r]; [done|]. intros Hr [= ->].
  destruct (rooted_node t path LeftSide l a c r Hr) as (n & ? & ? & _ & _ & ?). by exists n.
Qed.

Lemma rooted_parent_red t s p c y path T :
  rooted t (plug (Frame s p c y :: path) T) -> rbtree_is_red t (Some p) = Some c.
Proof.
  intros Hr. destruct (rooted_top _ _ _ _ _ _ _ Hr) as (n & Hn & _ & _ & _ & Hc).
  unfold rbtree_is_red. cbn [is_null]. rewrite Hn. simpl. by rewrite Hc.
Qed.


(** Down to one of the two subtrees. *)
Lemma plug_near path s x a c y : plug path (join s x a c y) = plug (Frame s a c y :: path) x.
Proof. done. Qed.

Lemma plug_far path s x a c y : plug path (join s x a c y) = plug (Frame (opposite s) a c x :: path) y.
Proof. simpl. by rewrite join_opposite. Qed.

(** The two children of a node are not the same node. *)
Lemma children_differ t path s x a c y d :
  rooted t (plug path (join s x a c y)) -> ptr y = Some d -> ptr x <> ptr y.
Proof.
  rewrite rooted_plug. intros (_ & _ & Hd) Hy Hx. open_distinct. rewrite Hy in Hx.
  apply ptr_inorder in Hx, Hy. naive_solver.
Qed.

(** Which side the code finds a child on. *)
Lemma side_of_child t path s a c y T (n : rbtree_node V) d :
  rooted t (plug (Frame s a c y :: path) T) -> deref t (Some a) = Some n ->
  (ptr T = Some d \/ ptr y = Some d) ->
  (if bool_decide (ptr T = nd_left n) then LeftSide else RightSide) = s.
Proof.
  intros Hr Hn Hd. destruct (rooted_top _ _ _ _ _ _ _ Hr) as (n' & Hn' & _ & Hs & Ho & _).
  rewrite Hn in Hn'. injection Hn' as <-.
  assert (ptr T <> ptr y) as Hne.
  { destruct Hd as [Hd|Hd]; [|by apply (children_differ t path s T a c y d Hr)].
    intros E. apply (children_differ t path (opposite s) y a c T d); [|done|done].
    simpl in Hr. by rewrite join_opposite. }
  destruct s; simpl in *.
  - by rewrite bool_decide_true.
  - rewrite bool_decide_false; [done|]. by rewrite Ho.
Qed.

(** ** Sizes *)

Lemma rooted_size t T : rooted t T -> (length (inorder T) <= size (rb_nodes t))%nat.
Proof.
  intros [_ Hr Hd].
  assert (list_to_set (C := gset addr) (inorder T) ⊆ dom (rb_nodes t)) as Hsub.
  { intros q. rewrite elem_of_list_to_set, elem_of_dom. intros Hq. by eapply rep_present. }
  apply subseteq_size in Hsub. by rewrite size_list_to_set, size_dom in Hsub.
Qed.

Lemma path_length path T : (length path <= length (inorder (plug path T)))%nat.
Proof.
  assert (length path <= length (around path))%nat as H.
  { clear T. induction path as [|[s a c y] path IH]; simpl; [lia|].
    rewrite around_frame. simpl. rewrite length_app. lia. }
  rewrite inorder_around, length_app. lia.
Qed.

Lemma rooted_enough t path T : rooted t (plug path T) -> (length path < enough t)%nat.
Proof. intros Hr%rooted_size. pose proof (path_length path T). unfold enough. lia. Qed.


End Shape.
