(* ===== verification/CstlRbBalance.v ===== *)
(** The balance of a red-black tree: no red node has a red child, and all ways down
    pass the same number of black nodes.  The repairs after an insertion and a removal
    end, keep the order of the nodes and restore it. *)

From S2P Require Import Prelude.
From S2P Require Import CMetaType.
From S2P Require Import CstlSupport.
From S2P Require Import CstlRbTree.
From S2P Require Import CstlRbShape.

(** * Balance *)

(** The colour of the root and the number of black nodes on each way down. *)
Inductive rb_tree : bool -> nat -> shape -> Prop :=
  | rb_leaf : rb_tree false 0 Leaf
  | rb_red n l a r : rb_tree false n l -> rb_tree false n r -> rb_tree true n (Node l a true r)
  | rb_black cl cr n l a r :
      rb_tree cl n l -> rb_tree cr n r -> rb_tree false (S n) (Node l a false r).

(** A way up with a place for a subtree of black height [n], which may be red if the
    first component says so. *)
Inductive rb_path : bool -> nat -> list frame -> Prop :=
  | rb_path_nil n : rb_path false n []
  | rb_path_red s a y n path :
      rb_tree false n y -> rb_path true n path -> rb_path false n (Frame s a true y :: path)
  | rb_path_black b c s a y n path :
      rb_tree c n y -> rb_path b (S n) path -> rb_path true n (Frame s a false y :: path).

Definition balanced (T : shape) : Prop := exists n, rb_tree false n T.

Definition blacken (T : shape) : shape :=
  match T with Leaf => Leaf | Node l a _ r => Node l a false r end.

Lemma rb_tree_red c n T : rb_tree c n T -> root_red T = c.
Proof. by destruct 1. Qed.

Lemma rb_join_red s n x a y :
  rb_tree false n x -> rb_tree false n y -> rb_tree true n (join s x a true y).
Proof. destruct s; by constructor. Qed.

Lemma rb_join_black s cx cy n x a y :
  rb_tree cx n x -> rb_tree cy n y -> rb_tree false (S n) (join s x a false y).
Proof. destruct s; by econstructor. Qed.

Lemma rb_red_inv s c n x a y :
  rb_tree c n (join s x a true y) -> c = true /\ rb_tree false n x /\ rb_tree false n y.
Proof. destruct s; by inversion_clear 1. Qed.

Lemma rb_black_inv s c n x a y :
  rb_tree c n (join s x a false y) ->
  c = false /\ exists m cx cy, n = S m /\ rb_tree cx m x /\ rb_tree cy m y.
Proof. destruct s; inversion_clear 1; eauto 10. Qed.

Lemma rb_tree_blacken c n T : rb_tree c n T -> rb_tree false (if c then S n else n) (blacken T).
Proof. destruct 1; simpl; by econstructor. Qed.

(** A tree that is there has the form of a [join]. *)
Lemma shape_join s T a : ptr T = Some a -> exists x y, T = join s x a (root_red T) y.
Proof. destruct T as [|l b c r]; [done|]. intros [= ->]. destruct s; simpl; eauto. Qed.

Lemma rb_tree_red_join s n T : rb_tree true n T -> exists x a y, T = join s x a true y.
Proof. inversion_clear 1; destruct s; simpl; eauto. Qed.

Lemma rb_tree_black_join s n T : rb_tree false (S n) T -> exists x a y, T = join s x a false y.
Proof. inversion_clear 1; destruct s; simpl; eauto. Qed.

Lemma plug_balanced path b c n T :
  rb_tree c n T -> rb_path b n path -> (c = true -> b = true) -> (path = [] -> c = false) ->
  balanced (plug path T).
Proof.
  revert b c n T. induction path as [|[s a col y] path IH]; intros b c n T HT Hp Hc Hn; simpl.
  { exists n. by rewrite <- (Hn eq_refl). }
  inversion Hp; subst.
  - destruct c; [by specialize (Hc eq_refl)|].
    eapply IH; [by apply rb_join_red|done|done|]. intros ->.
    by match goal with H : rb_path true _ [] |- _ => inversion H end.
  - eapply IH; [by eapply rb_join_black|done|done|done].
Qed.

Lemma plug_balanced_inv path T :
  balanced (plug path T) ->
  exists b c n, rb_tree c n T /\ rb_path b n path /\ (c = true -> b = true).
Proof.
  revert T. induction path as [|[s a col y] path IH]; intros T; simpl.
  - intros [n Hn]. exists false, false, n. split_and!; [done|constructor|done].
  - intros (b & c & n & HT & Hp & Hc)%IH. destruct col.
    + apply rb_red_inv in HT as (-> & Hx & Hy). rewrite (Hc eq_refl) in Hp.
      exists false, false, n. split_and!; [done|by constructor|done].
    + apply rb_black_inv in HT as (-> & m & cx & cy & -> & Hx & Hy).
      exists true, cx, m. split_and!; [done|by econstructor|done].
Qed.

Section Repair.
Context {V : Type}.
Implicit Types t : rbtree_t V.

(** Steps through the binds of the option monad. *)
Ltac next := cbn [mbind option_bind].

(** Both sides of an equation of inorder lists. *)
Ltac in_order := simpl; repeat (rewrite <- app_assoc; simpl).

(** What a repair establishes of the tree. *)
Definition repaired t t' (before_ after_ : shape) : Prop :=
  rooted t' after_ /\ inorder after_ = inorder before_ /\ same_data t t'.

(** * Insertion *)

(** The end of the repair: the grandparent moves down between the parent and the
    uncle. *)
Lemma insert_rotate s t path X q Y g u :
  rooted t (plug path (join s (join s X q true Y) g false u)) ->
  exists t1 t2 t3, write (Some q) (set_red false) t = Some t1 /\
    write (Some g) (set_red true) t1 = Some t2 /\
    rbtree_rotate (opposite s) t2 (Some g) = Some t3 /\
    rooted t3 (plug path (join s X q false (join s Y g true u))) /\ same_data t t3.
Proof.
  intros Hr. rewrite plug_near in Hr. destruct (rooted_write_red _ _ _ _ _ _ _ false Hr) as (t1 & E1 & H1 & S1).
  rewrite <- plug_near in H1. destruct (rooted_write_red _ _ _ _ _ _ _ true H1) as (t2 & E2 & H2 & S2).
  exists t1, t2. rewrite <- (join_opposite s u), <- (join_opposite s Y q) in H2.
  destruct (rotate_spec _ _ _ _ _ _ _ _ _ _ H2) as (t3 & E3 & H3 & S3). exists t3.
  rewrite !join_opposite in H3. split_and!; try done. by rewrite S1, S2, S3.
Qed.

(** The round that recolours. *)
Lemma insert_round_red s' s t path T p y g u :
  rooted t (plug (Frame s p true y :: Frame s' g false u :: path) T) -> root_red u = true ->
  exists t', insert_fix_round s' t (ptr T) (Some p) (Some g) = Some (t', Some g) /\
    rooted t' (plug path (join s' (join s T p false y) g true (blacken u))) /\ same_data t t'.
Proof.
  intros Hr Hu. unfold insert_fix_round.
  destruct (rooted_top _ path s' g false u (join s T p true y) Hr) as (n & -> & _ & _ & Ho & _). next. rewrite Ho.
  pose proof Hr as Hr'. change (plug _ T) with (plug path (join s' (join s T p true y) g false u)) in Hr'.
  rewrite plug_far in Hr'. rewrite (rooted_is_red _ _ _ Hr'), Hu. next.
  destruct (rooted_write_red t (Frame s' g false u :: path) s T p true y false Hr) as (t1 & -> & H1 & S1). next.
  destruct u as [|ul ua uc ur]; [done|]. simpl in Hu. subst uc.
  rewrite <- plug_near, plug_far in H1.
  destruct (rooted_write_red t1 _ LeftSide ul ua true ur false H1) as (t2 & E2 & H2 & S2).
  cbn [ptr]. rewrite E2. next. rewrite <- plug_far in H2.
  destruct (rooted_write_red _ _ _ _ _ _ _ true H2) as (t3 & -> & H3 & S3). next.
  eexists. split_and!; [done|done|by rewrite S1, S2, S3].
Qed.

(** The round that rotates: the node it ends with is the red child of a black one. *)
Lemma insert_round_black s' s t path T p y g u :
  rooted t (plug (Frame s p true y :: Frame s' g false u :: path) T) ->
  root_red u = false -> root_red T = true ->
  exists t' X q Y, insert_fix_round s' t (ptr T) (Some p) (Some g) = Some (t', ptr X) /\
    rooted t' (plug path (join s' X q false (join s' Y g true u))) /\ same_data t t' /\
    inorder (join s' X q false (join s' Y g true u)) = inorder (join s' (join s T p true y) g false u) /\
    forall n, rb_tree true n T -> rb_tree false n y -> rb_tree true n X /\ rb_tree false n Y.
Proof.
  intros Hr Hu HT. unfold insert_fix_round.
  destruct (rooted_top _ path s' g false u (join s T p true y) Hr) as (n & -> & _ & _ & Ho & _). next. rewrite Ho.
  pose proof Hr as Hr'. change (plug _ T) with (plug path (join s' (join s T p true y) g false u)) in Hr'.
  pose proof Hr' as Hr2. rewrite plug_far in Hr2. rewrite (rooted_is_red _ _ _ Hr2), Hu. next.
  destruct (rooted_node t (Frame s' g false u :: path) s T p true y Hr) as (m & -> & _ & Hmn & Hmf & _). next.
  assert (exists a, ptr T = Some a) as [a Ha] by (destruct T; [done|by eexists]).
  destruct (decide (s = s')) as [->|Hne].
  - rewrite bool_decide_false. 2: { rewrite Hmf, <- Hmn. intros E.
      apply (children_differ t (Frame s' g false u :: path) (opposite s') y p true T a); [|done|congruence].
      by rewrite join_opposite. }
    next. destruct (insert_rotate s' t path T p y g u Hr) as (t1 & t2 & t3 & -> & E2 & E3 & H3 & S3). next.
    rewrite E2. next. rewrite E3. next. exists t3, T, p, y. split_and!; try done.
    by destruct s'; in_order.
  - assert (s = opposite s') as -> by (by destruct s, s'). rewrite opposite_involutive in Hmf.
    rewrite bool_decide_true by done.
    destruct (shape_join s' T a Ha) as (x1 & x2 & ET). rewrite HT in ET. subst T.
    rewrite join_opposite in *.
    assert (rooted t (plug (Frame s' g false u :: path) (join s' y p true (join s' x1 a true x2)))) as Hr3
      by (rewrite <- join_opposite; exact Hr).
    destruct (rotate_spec _ _ _ _ _ _ _ _ _ _ Hr3) as (t0 & E0 & H0 & S0). rewrite E0. next.
    destruct (rooted_node t0 (Frame s' a true x2 :: Frame s' g false u :: path) s' y p true x1 H0)
      as (n0 & -> & Hn0 & _). next. rewrite Hn0. change (up (_ :: _)) with (Some a).
    destruct (rooted_top t0 (Frame s' g false u :: path) s' a true x2 _ H0) as (n1 & -> & Hn1 & _). next. rewrite Hn1.
    change (up (_ :: _)) with (Some g).
    destruct (insert_rotate s' t0 path (join s' y p true x1) a x2 g u H0) as (t1 & t2 & t3 & -> & E2 & E3 & H3 & S3). next.
    rewrite E2. next. rewrite E3. next. exists t3, (join s' y p true x1), a, x2. rewrite ptr_join.
    split_and!; try done; [by rewrite S0| |].
    + by destruct s'; in_order.
    + intros k Hk Hy. apply rb_red_inv in Hk as (_ & ? & ?). split; [by apply rb_join_red|done].
Qed.

(** A node below a black parent, or at the root, ends the loop. *)
Lemma insert_loop_stops fuel t path T n b a :
  rooted t (plug path T) -> ptr T = Some a -> rb_path b n path -> b = true \/ path = [] ->
  insert_fix_loop fuel t (Some a) = Some t.
Proof.
  intros Hr Ha Hp Hb. destruct (rooted_ptr _ _ _ _ Hr Ha) as (m & Hm & Hup & _).
  assert (rbtree_is_red t (up path) = Some false) as Hblack.
  { destruct path as [|[s p c u] path]; [done|]. destruct Hb as [->|]; [|done]. inversion Hp; subst.
    by eapply rooted_parent_red. }
  destruct fuel; cbn [insert_fix_loop]; rewrite Hm; next; rewrite Hup, Hblack; done.
Qed.

(** The loop keeps the order and leaves at most a red root. *)
Lemma insert_loop_spec fuel t path T n b :
  (length path <= fuel)%nat -> rooted t (plug path T) -> rb_tree true n T -> rb_path b n path ->
  exists t' T', insert_fix_loop fuel t (ptr T) = Some t' /\ repaired t t' (plug path T) T' /\
    exists c m, rb_tree c m T'.
Proof.
  revert t path T n b. induction fuel as [fuel IH] using lt_wf_ind. intros t path T n b Hf Hr HT Hp.
  pose proof (rb_tree_red _ _ _ HT) as Hred.
  assert (exists a, ptr T = Some a) as [a Ha] by (destruct T; [done|by eexists]). rewrite Ha.
  destruct (decide (b = true \/ path = [])) as [Hb|Hb].
  { exists t, (plug path T). split_and!; [by eapply insert_loop_stops|done|].
    destruct Hb as [->| ->]; [|by exists true, n]. exists false.
    eapply plug_balanced; [done|done|done|]. intros ->. inversion Hp. }
  destruct path as [|[s p [] y] path]; [tauto| |inversion Hp; subst; tauto].
  inversion Hp as [|? ? ? ? ? Hy Hp'|]; subst. inversion Hp' as [| |b' cu s' g u ? path' Hu Hp2]; subst.
  destruct fuel as [|fuel]; [simpl in Hf; lia|]. cbn [insert_fix_loop].
  destruct (rooted_ptr _ _ _ _ Hr Ha) as (m & Hm & Hup & _). rewrite Hm. next. rewrite Hup.
  change (up (_ :: _)) with (Some p). rewrite (rooted_parent_red _ _ _ _ _ _ _ Hr). next. cbn [negb].
  destruct (rooted_top _ _ _ _ _ _ _ Hr) as (np & -> & Hpp & _). next. rewrite Hpp.
  change (up (_ :: _)) with (Some g).
  assert (rooted t (plug (Frame s' g false u :: path') (join s T p true y))) as Hg by exact Hr.
  destruct (rooted_top _ _ _ _ _ _ _ Hg) as (ng & Hng & _). rewrite Hng. next.
  pose proof (side_of_child _ _ _ _ _ _ _ _ p Hg Hng) as Hside. rewrite ptr_join in Hside.
  rewrite Hside by (by left). rewrite <- Ha. simpl in Hf.
  destruct (root_red u) eqn:Hcu.
  - destruct (insert_round_red s' s t path' T p y g u Hr Hcu) as (t1 & -> & H1 & S1). next.
    pose proof (rb_tree_red _ _ _ Hu) as Eu. rewrite Hcu in Eu. subst cu.
    apply rb_tree_blacken in Hu. rewrite <- (ptr_join s' (join s T p false y) g true (blacken u)).
    destruct (IH fuel ltac:(lia) t1 path' _ (S n) b' ltac:(lia) H1) as (t2 & T2 & E2 & [H2 [I2 S2]] & Hb2);
      [by apply rb_join_red; [eapply rb_join_black|]|done|].
    exists t2, T2. split_and!; [done| |done]. split_and!; [done| |by rewrite S1].
    rewrite I2. cbn [plug]. rewrite !inorder_plug. do 2 f_equal. by destruct s, s', u.
  - destruct (insert_round_black s' s t path' T p y g u Hr Hcu Hred) as (t1 & X & q & Y & -> & H1 & S1 & I1 & HXY).
    next. destruct (HXY n HT Hy) as [HX HY].
    assert (exists x, ptr X = Some x) as [x Hx] by (inversion HX; by eexists). rewrite Hx.
    pose proof (rb_tree_red _ _ _ Hu) as Eu. rewrite Hcu in Eu. subst cu.
    assert (rb_tree true n (join s' Y g true u)) as HYu by (by apply rb_join_red).
    assert (rb_path true n (Frame s' q false (join s' Y g true u) :: path')) as Hp3 by (by econstructor).
    rewrite (insert_loop_stops fuel t1 (Frame s' q false (join s' Y g true u) :: path') X n true x) by (done || by left).
    exists t1, (plug path' (join s' X q false (join s' Y g true u))). split_and!; [done| |].
    + split_and!; [done| |done]. cbn [plug]. by rewrite !inorder_plug, I1.
    + exists false. eapply plug_balanced; [by eapply rb_join_black|exact Hp2|done|done].
Qed.

Lemma insert_fix_spec t path T n b :
  rooted t (plug path T) -> rb_tree true n T -> rb_path b n path ->
  exists t' T', rbtree_insert_fix t (ptr T) = Some t' /\ repaired t t' (plug path T) T' /\ balanced T'.
Proof.
  intros Hr HT Hp. pose proof (rooted_enough _ _ _ Hr) as Hf. unfold rbtree_insert_fix.
  destruct (insert_loop_spec (enough t) t path T n b ltac:(lia) Hr HT Hp) as (t1 & T1 & -> & [H1 [I1 S1]] & c & m & Hb).
  next. assert (exists a, ptr T1 = Some a) as [a Ha].
  { destruct T1; [|by eexists]. apply (f_equal length) in I1. rewrite inorder_plug, !length_app in I1.
    inversion HT; subst. simpl in I1. rewrite length_app in I1. simpl in I1. lia. }
  rewrite (rt_root _ _ H1), Ha. destruct (shape_join LeftSide T1 a Ha) as (x & y & E). rewrite E in H1.
  destruct (rooted_write_red t1 [] LeftSide x a _ y false H1) as (t2 & E2 & H2 & S2). exists t2, (blacken T1).
  rewrite E. split_and!; [done| |].
  - split_and!; [done| |by rewrite S1]. by rewrite <- I1, E.
  - apply rb_tree_blacken in Hb. rewrite E in Hb. by eexists.
Qed.

(** * Removal *)

(** The tree lacks a black node below [path], unless the root of the subtree is red and
    can be painted. *)
Definition owes (path : list frame) (T : shape) : Prop :=
  if root_red T then exists n b, rb_tree false n (blacken T) /\ rb_path b n path
  else exists n b, rb_tree false n T /\ rb_path b (S n) path.

(** Painting the root of the subtree ends the repair. *)
Definition settled (path : list frame) (T : shape) : Prop :=
  exists n b, rb_tree false n (blacken T) /\ rb_path b n path.

(** The last rotation of a repair: the sibling [e] takes the place of the parent. *)
Lemma delete_rotate s t path T p cp u1 e u2 f cf u3 :
  rooted t (plug path (join s T p cp (join s u1 e false (join s u2 f cf u3)))) ->
  exists t1 t2 t3 t4, write (Some e) (set_red cp) t = Some t1 /\
    write (Some p) (set_red false) t1 = Some t2 /\
    (exists b, deref t2 (Some e) = Some b /\ child (opposite s) b = Some f) /\
    write_if (Some f) (set_red false) t2 = Some t3 /\
    rbtree_rotate s t3 (Some p) = Some t4 /\
    rooted t4 (plug path (join s (join s T p false u1) e cp (join s u2 f false u3))) /\ same_data t t4.
Proof.
  intros Hr. rewrite plug_far in Hr. destruct (rooted_write_red _ _ _ _ _ _ _ cp Hr) as (t1 & E1 & H1 & S1).
  rewrite <- plug_far in H1. destruct (rooted_write_red _ _ _ _ _ _ _ false H1) as (t2 & E2 & H2 & S2).
  rewrite plug_far in H2. destruct (rooted_node _ _ _ _ _ _ _ H2) as (m & Hm & _ & _ & Hmf & _).
  rewrite ptr_join in Hmf. rewrite plug_far in H2.
  destruct (rooted_write_red _ _ _ _ _ _ _ false H2) as (t3 & E3 & H3 & S3).
  rewrite <- !plug_far in H3. destruct (rotate_spec _ _ _ _ _ _ _ _ _ _ H3) as (t4 & E4 & H4 & S4).
  exists t1, t2, t3, t4. split_and!; try done; [by exists m|]. by rewrite S1, S2, S3.
Qed.

(** The rotation of the sibling [e] that makes its near red child the sibling. *)
Lemma delete_inner_rotate s t path z1 d z2 e y2 :
  rooted t (plug path (join s (join s z1 d true z2) e false y2)) ->
  exists t1 t2 t3, write_if (Some d) (set_red false) t = Some t1 /\
    write (Some e) (set_red true) t1 = Some t2 /\ rbtree_rotate (opposite s) t2 (Some e) = Some t3 /\
    rooted t3 (plug path (join s z1 d false (join s z2 e true y2))) /\ same_data t t3.
Proof.
  intros Hr. rewrite plug_near in Hr. destruct (rooted_write_red _ _ _ _ _ _ _ false Hr) as (t1 & E1 & H1 & S1).
  rewrite <- plug_near in H1. destruct (rooted_write_red _ _ _ _ _ _ _ true H1) as (t2 & E2 & H2 & S2).
  rewrite <- (join_opposite s y2 e), <- (join_opposite s z2 d) in H2.
  destruct (rotate_spec _ _ _ _ _ _ _ _ _ _ H2) as (t3 & E3 & H3 & S3). rewrite !join_opposite in H3.
  exists t1, t2, t3. split_and!; try done. by rewrite S1, S2.
Qed.

(** What a round leaves: the way up gets shorter, or the next round is none. *)
Definition round_result t (T0 : shape) (limit : nat)
    (r : option (rbtree_t V * option addr * option addr)) : Prop :=
  exists t' path' T', r = Some (t', ptr T', up path') /\ rooted t' (plug path' T') /\ same_data t t' /\
    inorder (plug path' T') = inorder T0 /\ owes path' T' /\
    (root_red T' = true \/ (length path' < limit)%nat).

Lemma owes_black path n b T : rb_tree false n T -> rb_path b (S n) path -> owes path T.
Proof. intros HT Hp. unfold owes. rewrite (rb_tree_red _ _ _ HT). eauto. Qed.

(** The sibling and its children are black. *)
Lemma delete_fix_up s t path T p cp y1 e y2 n b :
  rooted t (plug (Frame s p cp (join s y1 e false y2) :: path) T) ->
  rb_tree false n T -> rb_tree false n y1 -> rb_tree false n y2 ->
  rb_path b (S n) (Frame s p cp (join s y1 e false y2) :: path) ->
  exists t', write (Some e) (set_red true) t = Some t' /\
    (exists m, deref t' (Some p) = Some m /\ nd_parent m = up path) /\
    let T' := join s T p cp (join s y1 e true y2) in
    rooted t' (plug path T') /\ same_data t t' /\ owes path T'.
Proof.
  intros Hr HT H1 H2 Hp. rewrite <- plug_near, plug_far in Hr.
  destruct (rooted_write_red _ _ _ _ _ _ _ true Hr) as (t' & E & H & S). rewrite <- plug_far in H.
  destruct (rooted_node _ _ _ _ _ _ _ H) as (m & Hm & Hup & _). exists t'. cbn zeta. split_and!; try done; [by exists m|].
  pose proof (rb_join_red s n y1 e y2 H1 H2) as Hy.
  inversion Hp as [|? ? ? ? ? _ Hp2|? ? ? ? ? ? ? _ Hp2]; subst.
  - unfold owes. replace (root_red (join s T p true (join s y1 e true y2))) with true by (by destruct s).
    replace (blacken _) with (join s T p false (join s y1 e true y2)) by (by destruct s).
    do 2 eexists. split; [by eapply rb_join_black|done].
  - eapply owes_black; [by eapply rb_join_black|done].
Qed.

(** The far child of the sibling is red. *)
Lemma delete_settles s n b cp T p u1 e u2 f u3 c1 path :
  rb_tree false n T -> rb_tree c1 n u1 -> rb_tree true n (join s u2 f true u3) ->
  rb_path b (S n) (Frame s p cp (join s u1 e false (join s u2 f true u3)) :: path) ->
  balanced (plug path (join s (join s T p false u1) e cp (join s u2 f false u3))).
Proof.
  intros HT H1 H2 Hp. apply rb_red_inv in H2 as (_ & H2 & H3).
  pose proof (rb_join_black s _ _ n T p u1 HT H1) as HP. pose proof (rb_join_black s _ _ n u2 f u3 H2 H3) as HF.
  inversion Hp as [|? ? ? ? ? _ Hp2|? ? ? ? ? ? ? _ Hp2]; subst.
  - eapply plug_balanced; [by apply rb_join_red|done|done|]. intros ->. inversion Hp2.
  - eapply plug_balanced; [by eapply rb_join_black|done|done|done].
Qed.

Lemma delete_fix_black_spec s t path T p cp y n b limit :
  rooted t (plug (Frame s p cp y :: path) T) -> rb_tree false n T -> rb_tree false (S n) y ->
  rb_path b (S n) (Frame s p cp y :: path) ->
  (0 < limit)%nat -> cp = true \/ (length path < limit)%nat ->
  round_result t (plug (Frame s p cp y :: path) T) limit (delete_fix_black s t (Some p) (ptr y)).
Proof.
  intros Hr HT Hy Hp H0 Hlim. destruct (rb_tree_black_join s _ _ Hy) as (y1 & e & y2 & ->). rewrite ptr_join.
  apply rb_black_inv in Hy as (_ & ? & c1 & c2 & [= <-] & Hy1 & Hy2).
  unfold delete_fix_black. cbn [is_null].
  pose proof Hr as Hr2. rewrite <- plug_near, plug_far in Hr2.
  destruct (rooted_node _ _ _ _ _ _ _ Hr2) as (m & -> & _ & Hn & Hf & _). next. rewrite Hn, Hf.
  pose proof Hr2 as Hr1. rewrite plug_near in Hr1. rewrite (rooted_is_black _ _ _ Hr1). next.
  rewrite plug_far in Hr2. rewrite (rooted_is_black _ _ _ Hr2). next.
  rewrite (rb_tree_red _ _ _ Hy1), (rb_tree_red _ _ _ Hy2). clear m Hn Hf Hr1 Hr2.
  destruct c2; [|destruct c1]; cbn [negb andb].
  - rewrite andb_false_r. destruct (rb_tree_red_join s _ _ Hy2) as (u2 & f & u3 & ->). next.
    rewrite <- plug_near in Hr. destruct (rooted_node _ _ _ _ _ _ _ Hr) as (m & -> & _ & _ & _ & Hc). next. rewrite Hc.
    destruct (delete_rotate _ _ _ _ _ _ _ _ _ _ _ _ Hr) as (t1 & t2 & t3 & t4 & -> & E2 & (k & Hk & Hkf) & E3 & E4 & H4 & S4).
    next. rewrite E2. next. rewrite Hk. next. rewrite Hkf, E3. next. rewrite E4. next.
    pose proof (delete_settles _ _ _ _ _ _ _ _ _ _ _ _ _ HT Hy1 Hy2 Hp) as [h Hb].
    exists t4, []. eexists. cbn [plug]. rewrite (rt_root _ _ H4).
    split_and!; [done|done|done| |by eapply owes_black; [|constructor]|by right].
    cbn [plug]. rewrite !inorder_plug. do 2 f_equal. destruct s; by in_order.
  - destruct (rb_tree_red_join s _ _ Hy1) as (z1 & d & z2 & ->). rewrite ptr_join.
    rewrite <- plug_near, plug_far in Hr.
    destruct (delete_inner_rotate _ _ _ _ _ _ _ _ Hr) as (t1 & t2 & t3 & -> & E2 & E3 & H3 & S3).
    next. rewrite E2. next. rewrite E3. next. rewrite <- plug_far in H3.
    destruct (rooted_node _ _ _ _ _ _ _ H3) as (m & Hm & _ & _ & Hmf & Hmc). rewrite Hm. next.
    rewrite Hmf, ptr_join. rewrite Hm. next. rewrite Hmc.
    destruct (delete_rotate _ _ _ _ _ _ _ _ _ _ _ _ H3) as (t4 & t5 & t6 & t7 & -> & E5 & (k & Hk & Hkf) & E6 & E7 & H7 & S7).
    next. rewrite E5. next. rewrite Hk. next. rewrite Hkf, E6. next. rewrite E7. next.
    apply rb_red_inv in Hy1 as (_ & Hz1 & Hz2).
    assert (rb_path b (S n) (Frame s p cp (join s z1 d false (join s z2 e true y2)) :: path)) as Hp3.
    { inversion Hp; subst; econstructor; try done; eapply rb_join_black; [done|by apply rb_join_red|done|by apply rb_join_red]. }
    pose proof (delete_settles _ _ _ _ _ _ _ _ _ _ _ _ _ HT Hz1 (rb_join_red s _ _ _ _ Hz2 Hy2) Hp3) as [h Hb].
    exists t7, []. eexists. cbn [plug]. rewrite (rt_root _ _ H7).
    split_and!; [done|done|by rewrite S3| |by eapply owes_black; [|constructor]|by right].
    cbn [plug]. rewrite !inorder_plug. do 2 f_equal. destruct s; by in_order.
  - next. destruct (delete_fix_up _ _ _ _ _ _ _ _ _ _ _ Hr HT Hy1 Hy2 Hp) as (t' & -> & (m & Hm & Hup) & H & S & Ho).
    next. rewrite Hm. next. rewrite Hup. exists t', path, (join s T p cp (join s y1 e true y2)). rewrite ptr_join.
    split_and!; try done.
    + cbn [plug]. rewrite !inorder_plug. do 2 f_equal. destruct s; by in_order.
    + destruct Hlim as [->|]; [left; by destruct s|by right].
Qed.

(** A whole round. *)
Lemma delete_fix_round_spec s t path T p cp y n b :
  rooted t (plug (Frame s p cp y :: path) T) -> rb_tree false n T ->
  rb_path b (S n) (Frame s p cp y :: path) ->
  round_result t (plug (Frame s p cp y :: path) T) (S (length path)) (delete_fix_round s t (Some p)).
Proof.
  intros Hr HT Hp. unfold delete_fix_round.
  destruct (rooted_top _ _ _ _ _ _ _ Hr) as (m & -> & _ & _ & Hf & _). next. rewrite Hf.
  pose proof Hr as Hr2. rewrite <- plug_near in Hr2. pose proof Hr2 as Hr3. rewrite plug_far in Hr3.
  rewrite (rooted_is_red _ _ _ Hr3). next.
  destruct (root_red y) eqn:Hy.
  - assert (cp = false /\ rb_tree true (S n) y /\ exists b', rb_path b' (S (S n)) path) as (-> & Hty & b' & Hp').
    { inversion Hp; subst.
      - match goal with H : rb_tree false _ y |- _ => apply rb_tree_red in H; congruence end.
      - match goal with H : rb_tree ?c _ y |- _ =>
          pose proof (rb_tree_red _ _ _ H) as E; rewrite Hy in E; subst c end. eauto. }
    destruct (rb_tree_red_join s _ _ Hty) as (y1 & e & y2 & ->). rewrite ptr_join.
    apply rb_red_inv in Hty as (_ & Hy1 & Hy2).
    destruct (rooted_write_red _ _ _ _ _ _ _ false Hr3) as (t1 & -> & H1 & S1). next. rewrite <- plug_far in H1.
    destruct (rooted_write_red _ _ _ _ _ _ _ true H1) as (t2 & -> & H2 & S2). next.
    destruct (rotate_spec _ _ _ _ _ _ _ _ _ _ H2) as (t3 & -> & H3 & S3). next.
    assert (rooted t3 (plug (Frame s p true y1 :: Frame s e false y2 :: path) T)) as H4 by exact H3.
    destruct (rooted_top _ _ _ _ _ _ _ H4) as (m3 & -> & _ & _ & Hf3 & _). next. rewrite Hf3.
    destruct (delete_fix_black_spec s t3 _ T p true y1 n false (S (length path)) H4 HT Hy1)
      as (t' & path' & T' & -> & H' & S' & I' & Ho & Hl); [|lia|by left|].
    { constructor; [done|by econstructor]. }
    exists t', path', T'. split_and!; try done; [by rewrite S1, S2, S3|].
    rewrite I'. cbn [plug]. rewrite !inorder_plug. do 2 f_equal. destruct s; by in_order.
  - next. assert (rb_tree false (S n) y) as Hty.
    { inversion Hp; subst; [done|].
      match goal with H : rb_tree ?c _ y |- _ =>
        pose proof (rb_tree_red _ _ _ H) as E; rewrite Hy in E; by subst c end. }
    eapply delete_fix_black_spec; try done; [lia|right; lia].
Qed.

(** The node is the root exactly at the end of the way up. *)
Lemma node_is_root t path T :
  rooted t (plug path T) -> ptr T = rb_root t <-> path = [].
Proof.
  intros Hr. rewrite (rt_root _ _ Hr). split; [|by intros ->]. intros E.
  destruct path as [|[s a c y] path]; [done|exfalso].
  assert (exists r, ptr (plug path (join s T a c y)) = Some r /\ r ∈ a :: inorder y ++ around path) as (r & Er & Hin).
  { clear. generalize T at 1. revert s a c y T.
    induction path as [|[s' a' c' y'] path IH]; intros s a c y T0 T; simpl.
    - exists a. rewrite ptr_join. split; [done|set_solver].
    - destruct (IH s' a' c' y' T0 (join s T a c y)) as (r & E & Hin). exists r. split; [done|].
      rewrite elem_of_cons, elem_of_app, elem_of_around. set_solver. }
  pose proof (rt_distinct _ _ Hr) as Hd. simpl in E. rewrite Er in E. apply ptr_inorder in E.
  change (distinct (Frame s a c y :: path) T) in Hd. apply distinct_iff in Hd as (_ & Hd & _).
  apply (Hd r E). rewrite elem_of_around. set_solver.
Qed.

Lemma blacken_black n T : rb_tree false n T -> blacken T = T.
Proof. by inversion 1. Qed.

Lemma rb_path_weaken b n m path : path = [] -> rb_path b n path -> rb_path b m path.
Proof. intros -> H. inversion H. constructor. Qed.

Lemma delete_loop_spec fuel t path T :
  root_red T = true \/ (length path <= fuel)%nat -> rooted t (plug path T) -> owes path T ->
  exists t' path' T', delete_fix_loop fuel t (ptr T) (up path) = Some (t', ptr T') /\
    rooted t' (plug path' T') /\ same_data t t' /\
    inorder (plug path' T') = inorder (plug path T) /\ settled path' T'.
Proof.
  revert t path T. induction fuel as [fuel IH] using lt_wf_ind. intros t path T Hf Hr Ho.
  assert (root_red T = true \/ path = [] -> settled path T) as Hs.
  { unfold owes in Ho. intros Hrp. destruct (root_red T) eqn:Hc; [done|]. destruct Hrp as [|Hp]; [done|].
    destruct Ho as (n & b & HT & Hpath). exists n, b. rewrite (blacken_black _ _ HT).
    split; [done|by eapply rb_path_weaken]. }
  assert (root_red T = true \/ path = [] ->
    delete_fix_loop fuel t (ptr T) (up path) = Some (t, ptr T)) as Hstop.
  { intros [Hc| ->].
    - destruct fuel; cbn [delete_fix_loop]; case_bool_decide; try done;
        rewrite (rooted_is_black _ _ _ Hr), Hc; done.
    - destruct fuel; cbn [delete_fix_loop]; by rewrite (rt_root _ _ Hr), bool_decide_true. }
  destruct (decide (root_red T = true \/ path = [])) as [Hd|Hd]; [exists t, path, T; by split_and!; auto|].
  apply Decidable.not_or in Hd as [Hc Hpath]. apply not_true_is_false in Hc. unfold owes in Ho. rewrite Hc in Ho.
  destruct Ho as (n & b & HT & Hp). destruct Hf as [Hf|Hf]; [congruence|].
  destruct path as [|[s p cp y] path]; [done|]. destruct fuel as [|fuel]; [simpl in Hf; lia|].
  cbn [delete_fix_loop]. rewrite bool_decide_false by (intros E; by apply (node_is_root _ _ _ Hr) in E).
  rewrite (rooted_is_black _ _ _ Hr), Hc. next. cbn [negb orb]. change (up (Frame s p cp y :: path)) with (Some p). cbn [is_null].
  destruct (rooted_top _ _ _ _ _ _ _ Hr) as (m & Hm & _). rewrite Hm. next.
  assert (exists d, ptr y = Some d) as [d Hy].
  { inversion Hp; subst; match goal with H : rb_tree _ (S n) y |- _ => inversion H; subst; simpl; eauto end. }
  rewrite (side_of_child _ _ _ _ _ _ _ _ d Hr Hm) by (by right).
  destruct (delete_fix_round_spec _ _ _ _ _ _ _ _ _ Hr HT Hp) as (t1 & path1 & T1 & -> & H1 & S1 & I1 & Ho1 & Hl).
  next. simpl in Hf. destruct (IH fuel ltac:(lia) t1 path1 T1) as (t2 & path2 & T2 & E2 & H2 & S2 & I2 & Hs2);
    [destruct Hl; [by left|right; lia]|done|done|].
  exists t2, path2, T2. split_and!; [done|done|by rewrite S1|by rewrite I2|done].
Qed.

Lemma delete_fix_spec t path T :
  rooted t (plug path T) -> owes path T ->
  exists t' T', rbtree_delete_fix t (ptr T) (up path) = Some t' /\ repaired t t' (plug path T) T' /\ balanced T'.
Proof.
  intros Hr Ho. pose proof (rooted_enough _ _ _ Hr) as Hf. unfold rbtree_delete_fix.
  destruct (delete_loop_spec (enough t) t path T ltac:(right; lia) Hr Ho)
    as (t1 & path1 & T1 & -> & H1 & S1 & I1 & n & b & Hb & Hp). next.
  assert (balanced (plug path1 (blacken T1))) as Hbal by (by eapply plug_balanced).
  destruct T1 as [|l a c r].
  - exists t1, (plug path1 Leaf). by split_and!.
  - destruct (rooted_write_red t1 path1 LeftSide l a c r false H1) as (t2 & E2 & H2 & S2).
    exists t2, (plug path1 (Node l a false r)). split_and!; [done| |done].
    split_and!; [done|by rewrite <- I1, !inorder_plug|by rewrite S1].
Qed.


End Repair.
