(* ===== verification/CstlRbLinks.v ===== *)
(** Linking a node into a red-black tree and taking one out: what becomes of the shape
    and of the list that runs through the nodes in order. *)

From S2P Require Import Prelude.
From S2P Require Import CMetaType.
From S2P Require Import CstlSupport.
From S2P Require Import CstlRbTree.
From S2P Require Import CstlRbShape.
From S2P Require Import CstlRbBalance.

Section Links.
Context {V : Type}.
Implicit Types t : rbtree_t V.
Implicit Types nodes : gmap addr (rbtree_node V).

(** * The list of nodes in order *)

Definition first (l : list addr) (end_ : option addr) : option addr :=
  match l with [] => end_ | a :: _ => Some a end.

Definition final (start : option addr) (l : list addr) : option addr :=
  match last l with None => start | Some a => Some a end.

(** The neighbours the node at [a] knows. *)
Definition between nodes (a : addr) (previous next : option addr) : Prop :=
  exists n, nodes !! a = Some n /\ nd_previous n = previous /\ nd_next n = next.

(** The nodes [l] between [start] and [end_]. *)
Fixpoint chain nodes (start : option addr) (l : list addr) (end_ : option addr) : Prop :=
  match l with
  | [] => True
  | a :: l => between nodes a start (first l end_) /\ chain nodes (Some a) l end_
  end.

Record threaded t (l : list addr) : Prop := {
  th_head : rb_head t = first l None;
  th_tail : rb_tail t = final None l;
  th_chain : chain (rb_nodes t) None l None;
}.

Lemma first_app l1 l2 end_ : first (l1 ++ l2) end_ = first l1 (first l2 end_).
Proof. by destruct l1. Qed.

Lemma final_app start l1 l2 : final start (l1 ++ l2) = final (final start l1) l2.
Proof. unfold final. rewrite last_app. by destruct (last l2), (last l1). Qed.

Lemma final_cons start a l : final start (a :: l) = final (Some a) l.
Proof. apply (final_app start [a] l). Qed.

Lemma final_snoc start l a : final start (l ++ [a]) = Some a.
Proof. by rewrite final_app. Qed.

Lemma chain_app nodes start l1 l2 end_ :
  chain nodes start (l1 ++ l2) end_ <->
  chain nodes start l1 (first l2 end_) /\ chain nodes (final start l1) l2 end_.
Proof.
  revert start. induction l1 as [|a l1 IH]; intros start; simpl; [by destruct l2; tauto|].
  rewrite IH, first_app, final_cons. tauto.
Qed.

Lemma chain_frame nodes nodes' start l end_ :
  (forall q, q ∈ l -> nodes' !! q = nodes !! q) -> chain nodes start l end_ -> chain nodes' start l end_.
Proof.
  revert start. induction l as [|a l IH]; intros start Hq; simpl; [done|]. intros [(n & Hn & H) Hc].
  split; [exists n; by rewrite Hq by set_solver|]. apply IH; [set_solver|done].
Qed.

Lemma chain_alter nodes f b start l end_ :
  b ∉ l -> chain nodes start l end_ -> chain (alter f b nodes) start l end_.
Proof. intros Hb. apply chain_frame. intros q Hq. apply lookup_alter_ne. by intros ->. Qed.

Lemma chain_data t t' start l end_ :
  same_data t t' -> chain (rb_nodes t) start l end_ -> chain (rb_nodes t') start l end_.
Proof.
  intros [Hd _ _ _ _]. revert start. induction l as [|a l IH]; intros start; simpl; [done|].
  intros [(n & Hn & Hp & Hx) Hc]. split; [|by apply IH].
  apply (f_equal (lookup a)) in Hd. rewrite !lookup_fmap, Hn in Hd.
  destruct (rb_nodes t' !! a) as [n'|] eqn:Hn'; [|done]. exists n'. simpl in Hd. injection Hd as Hp' Hx' _ _.
  split_and!; [done|congruence..].
Qed.

Lemma threaded_data t t' l : same_data t t' -> threaded t l -> threaded t' l.
Proof. intros Hs [? ? ?]. split; [by rewrite (sd_head _ _ Hs)|by rewrite (sd_tail _ _ Hs)|by eapply chain_data]. Qed.

Lemma chain_present nodes start l end_ q : chain nodes start l end_ -> q ∈ l -> is_Some (nodes !! q).
Proof.
  revert start. induction l as [|a l IH]; intros start; simpl; [set_solver|].
  intros [(n & Hn & _) Hc]. rewrite elem_of_cons. intros [->|Hq]; eauto.
Qed.

Lemma final_in start l q : final start l = Some q -> start = Some q \/ q ∈ l.
Proof.
  unfold final. destruct (last l) as [b|] eqn:Hl; [|by left]. intros [= ->]. right.
  apply last_Some in Hl as [l' ->]. set_solver.
Qed.

(** The ends of a chain are set. *)
Lemma chain_start nodes start l end_ p :
  NoDup l -> chain nodes start l end_ ->
  chain (match first l None with None => nodes | Some b => alter (set_previous p) b nodes end) p l end_.
Proof.
  destruct l as [|b l]; simpl; [done|]. intros [Hb _]%NoDup_cons [(n & Hn & Hp & Hx) Hc].
  split; [|by apply chain_alter]. exists (set_previous p n). by rewrite lookup_alter_eq, Hn.
Qed.

Lemma chain_end nodes start l end_ p :
  NoDup l -> chain nodes start l end_ ->
  chain (match final None l with None => nodes | Some b => alter (set_next p) b nodes end) start l p.
Proof.
  destruct (decide (l = [])) as [->|Hl]; [done|]. destruct (exists_last Hl) as (l' & b & ->).
  rewrite final_snoc. intros Hd. rewrite !chain_app. intros (Hc & (n & Hn & Hp & Hx) & _).
  apply NoDup_app in Hd as (_ & Hd & _). split.
  - apply chain_alter; [|done]. intros Hb. by apply (Hd b Hb), list_elem_of_here.
  - split; [|done]. exists (set_next p n). by rewrite lookup_alter_eq, Hn.
Qed.

(** ** What setting the neighbours leaves alone *)

Definition links_of (n : rbtree_node V) : option addr * option addr * option addr * bool :=
  (nd_parent n, nd_left n, nd_right n, nd_red n).

Definition objects_of (n : rbtree_node V) : option (Z * cell V) * option (Z * cell V) :=
  (nd_key n, nd_value n).

Record same_links t t' : Prop := {
  sl_links : links_of <$> rb_nodes t' = links_of <$> rb_nodes t;
  sl_objects : objects_of <$> rb_nodes t' = objects_of <$> rb_nodes t;
  sl_root : rb_root t' = rb_root t;
  sl_size : rb_size t' = rb_size t;
  sl_config : rb_config t' = rb_config t;
}.

(** The objects, the size and the configuration stay. *)
Record same_objects t t' : Prop := {
  so_objects : objects_of <$> rb_nodes t' = objects_of <$> rb_nodes t;
  so_size : rb_size t' = rb_size t;
  so_config : rb_config t' = rb_config t;
}.

#[export] Instance same_links_preorder : PreOrder same_links.
Proof. split; [by split|]. intros t1 t2 t3 [] []. split; congruence. Qed.

#[export] Instance same_objects_preorder : PreOrder same_objects.
Proof. split; [by split|]. intros t1 t2 t3 [] []. split; congruence. Qed.

Lemma same_links_objects t t' : same_links t t' -> same_objects t t'.
Proof. by intros []. Qed.

Lemma fmap_sub {A B} (f : A -> B) (g : rbtree_node V -> A) (h : rbtree_node V -> B) nodes nodes' :
  (forall n, h n = f (g n)) -> g <$> nodes' = g <$> nodes -> h <$> nodes' = h <$> nodes.
Proof.
  intros E Hg. apply map_eq. intros a. apply (f_equal (lookup a)) in Hg. rewrite !lookup_fmap in *.
  destruct (nodes' !! a), (nodes !! a); simpl in *; try done. injection Hg as Hg. by rewrite !E, Hg.
Qed.

Lemma same_data_objects t t' : same_data t t' -> same_objects t t'.
Proof.
  intros [Hd _ _ ? ?]. split; [|done..].
  by apply (fmap_sub (fun d => (snd (fst d), snd d)) data_of).
Qed.

Lemma node_is_links nodes nodes' a parent s near far red :
  links_of <$> nodes' = links_of <$> nodes ->
  node_is nodes a parent s near far red -> node_is nodes' a parent s near far red.
Proof.
  intros Hd (n & Hn & Hp & Hs & Ho & Hc). apply (f_equal (lookup a)) in Hd. rewrite !lookup_fmap, Hn in Hd.
  destruct (nodes' !! a) as [n'|] eqn:Hn'; [|done]. simpl in Hd. injection Hd as Hp' Hl Hr Hc'.
  exists n'. destruct s; simpl in *; split_and!; congruence.
Qed.

Lemma rooted_same t t' T :
  links_of <$> rb_nodes t' = links_of <$> rb_nodes t -> rb_root t' = rb_root t -> rooted t T -> rooted t' T.
Proof.
  intros Hl Hr [H1 H2 H3]. split; [by rewrite Hr|clear H1 H3|done].
  revert H2. generalize (@None addr). induction T as [|l IHl a c r IHr]; intros p; simpl; [done|].
  intros (Hn & ? & ?). split_and!; [by eapply node_is_links|by apply IHl|by apply IHr].
Qed.

Lemma rooted_links t t' T : same_links t t' -> rooted t T -> rooted t' T.
Proof. intros []. by apply rooted_same. Qed.

Lemma rooted_frame t t' T :
  (forall q, q ∈ inorder T -> rb_nodes t' !! q = rb_nodes t !! q) -> rb_root t' = rb_root t ->
  rooted t T -> rooted t' T.
Proof. intros Hq Hr [H1 H2 H3]. split; [by rewrite Hr|by eapply rep_frame|done]. Qed.

(** A value is set. *)
Lemma chain_value nodes value a start l end_ :
  chain nodes start l end_ -> chain (alter (set_value value) a nodes) start l end_.
Proof.
  revert start. induction l as [|b l IH]; intros start; simpl; [done|]. intros [(n & Hn & Hp & Hx) Hc].
  split; [|by apply IH]. destruct (decide (b = a)) as [->|Hne].
  - exists (set_value value n). by rewrite lookup_alter_eq, Hn.
  - exists n. by rewrite lookup_alter_ne.
Qed.

Lemma threaded_value t value a l : threaded t l -> threaded (modify (set_value value) a t) l.
Proof. intros [? ? ?]. split; [done|done|]. by apply chain_value. Qed.

Lemma rooted_value t value a T : rooted t T -> rooted (modify (set_value value) a t) T.
Proof.
  apply rooted_same; [|done]. simpl. apply map_eq. intros b. rewrite !lookup_fmap.
  destruct (decide (b = a)) as [->|Hne]; [|by rewrite lookup_alter_ne].
  rewrite lookup_alter_eq. by destruct (rb_nodes t !! a).
Qed.

Lemma threaded_frame t t' l :
  (forall q, q ∈ l -> rb_nodes t' !! q = rb_nodes t !! q) -> rb_head t' = rb_head t -> rb_tail t' = rb_tail t ->
  threaded t l -> threaded t' l.
Proof. intros Hq Hh Ht [? ? ?]. split; [by rewrite Hh|by rewrite Ht|by eapply chain_frame]. Qed.

Lemma modify_links f a t :
  (forall n, links_of (f n) = links_of n) -> (forall n, objects_of (f n) = objects_of n) ->
  same_links t (modify f a t).
Proof.
  intros Hf Hg. split; try done; simpl; apply map_eq; intros b; rewrite !lookup_fmap;
    (destruct (decide (b = a)) as [->|Hne]; [|by rewrite lookup_alter_ne]);
    rewrite lookup_alter_eq; destruct (rb_nodes t !! a); simpl; [by rewrite Hf|done|by rewrite Hg|done].
Qed.

Lemma set_head_links p t : same_links t (set_head p t).
Proof. by split. Qed.
Lemma set_tail_links p t : same_links t (set_tail p t).
Proof. by split. Qed.
Lemma modify_previous_links p a t : same_links t (modify (set_previous p) a t).
Proof. by apply modify_links. Qed.
Lemma modify_next_links p a t : same_links t (modify (set_next p) a t).
Proof. by apply modify_links. Qed.

(** ** Out of the list *)

Lemma unthread_spec t l1 a l2 :
  NoDup (l1 ++ a :: l2) -> threaded t (l1 ++ a :: l2) ->
  exists t', unthread t (Some a) = Some t' /\ threaded t' (l1 ++ l2) /\ same_links t t'.
Proof.
  intros Hd [Hh Ht Hc]. apply chain_app in Hc as [Hc1 [(n & Hn & Hp & Hx) Hc2]].
  apply NoDup_app in Hd as (Hd1 & Hd12 & [Ha Hd2]%NoDup_cons).
  unfold unthread. cbn [deref mbind option_bind]. rewrite Hn. cbn [mbind option_bind]. rewrite Hp, Hx.
  set (t1 := match final None l1 with None => set_head (first l2 None) t
             | Some b => modify (set_next (first l2 None)) b t end).
  assert ((if is_null (final None l1) then Some (set_head (first l2 None) t)
           else write (final None l1) (set_next (first l2 None)) t) = Some t1) as ->.
  { unfold t1. destruct (final None l1) as [b|] eqn:Hb; [|done]. apply write_modify.
    eapply chain_present; [exact Hc1|]. by apply final_in in Hb as [|]. }
  assert (same_links t t1) as S1 by (unfold t1; destruct (final None l1); [apply modify_next_links|done]).
  assert (chain (rb_nodes t1) None l1 (first l2 None)) as Hc1'.
  { pose proof (chain_end _ _ _ _ (first l2 None) Hd1 Hc1) as H. unfold t1. by destruct (final None l1). }
  assert (chain (rb_nodes t1) (Some a) l2 None) as Hc2'.
  { unfold t1. destruct (final None l1) as [b|] eqn:Hb; [|done]. apply chain_alter; [|done].
    apply final_in in Hb as [|Hb]; [done|]. specialize (Hd12 b Hb). set_solver. }
  cbn [mbind option_bind].
  set (t2 := match first l2 None with None => set_tail (final None l1) t1
             | Some b => modify (set_previous (final None l1)) b t1 end).
  assert ((if is_null (first l2 None) then Some (set_tail (final None l1) t1)
           else write (first l2 None) (set_previous (final None l1)) t1) = Some t2) as ->.
  { unfold t2. destruct l2 as [|b l2]; [done|]. simpl. apply write_modify.
    eapply chain_present; [exact Hc2'|apply list_elem_of_here]. }
  assert (same_links t1 t2) as S2 by (unfold t2; destruct l2; [done|apply modify_previous_links]).
  exists t2. split_and!; [done| |by rewrite S1]. split.
  - rewrite first_app in *. unfold t2, t1. destruct l1 as [|b l1]; simpl.
    + by destruct l2.
    + rewrite final_cons. destruct (final (Some b) l1) eqn:Hf; [by destruct l2|].
      unfold final in Hf. by destruct (last l1).
  - rewrite final_app in Ht |- *. rewrite final_cons in Ht. unfold t2, t1. destruct l2 as [|b l2]; simpl; [done|].
    rewrite final_cons in *. by destruct (final None l1).
  - apply chain_app. split.
    + unfold t2. destruct l2 as [|b l2]; [done|]. simpl. apply chain_alter; [|done].
      intros Hb. apply (Hd12 b Hb). set_solver.
    + pose proof (chain_start _ _ _ _ (final None l1) Hd2 Hc2') as H. unfold t2. by destruct l2.
Qed.

(** * A new node *)

(** The two assignments that put the new node below its parent. *)
Lemma attach_spec t s p c y path a :
  rooted t (plug (Frame s p c y :: path) Leaf) -> a ∉ inorder (plug (Frame s p c y :: path) Leaf) ->
  node_is (rb_nodes t) a None LeftSide None None true ->
  exists t1 t2, write (Some a) (set_parent (Some p)) t = Some t1 /\
    write (Some p) (set_child s (Some a)) t1 = Some t2 /\
    rooted t2 (plug (Frame s p c y :: path) (Node Leaf a true Leaf)) /\ same_data t t2.
Proof.
  intros Hr Ha Hn. apply rooted_plug in Hr as (_ & Hp & Hd).
  rewrite inorder_around in Ha. simpl in Ha. apply distinct_iff in Hd as (_ & _ & Hd).
  exists (modify (set_parent (Some p)) a t), (fill (Frame s p c y :: path) (Some a) (modify (set_parent (Some p)) a t)).
  assert (rep_path (rb_nodes (modify (set_parent (Some p)) a t)) None (Frame s p c y :: path) (rb_root t)) as Hp1
    by (by apply rep_path_alter).
  split_and!.
  - by eapply write_node.
  - destruct Hp1 as [Hp1 _]. by eapply write_node.
  - apply rooted_plug. split_and!; [split; [|done]| |].
    + eapply node_is_lookup; [by apply fill_lookup|]. by eapply node_is_parent.
    + by apply (fill_path _ _ None).
    + apply distinct_iff. simpl. split_and!; [apply NoDup_singleton|set_solver|done].
  - etransitivity; [|apply fill_same]. by apply modify_same.
Qed.

(** What the assignments to the list do when the new node comes before [p]. *)
Lemma thread_before t l1 a p l2 :
  NoDup (l1 ++ a :: p :: l2) -> threaded t (l1 ++ p :: l2) -> is_Some (rb_nodes t !! a) ->
  exists t1 t2 t3 t4 m n, write (Some a) (set_next (Some p)) t = Some t1 /\
    deref t1 (Some p) = Some m /\ write (Some a) (set_previous (nd_previous m)) t1 = Some t2 /\
    write (Some p) (set_previous (Some a)) t2 = Some t3 /\ deref t3 (Some a) = Some n /\
    (if is_null (nd_previous n) then Some (set_head (Some a) t3)
     else write (nd_previous n) (set_next (Some a)) t3) = Some t4 /\
    threaded t4 (l1 ++ a :: p :: l2) /\ same_links t t4.
Proof.
  intros Hd [Hh Ht Hc] [na Hna]. apply chain_app in Hc as [Hc1 [(np & Hnp & Hpp & Hpx) Hc2]].
  apply NoDup_app in Hd as (Hd1 & Hd12 & [Ha [Hp Hd2]%NoDup_cons]%NoDup_cons).
  rewrite elem_of_cons in Ha. apply Decidable.not_or in Ha as [Hap Ha].
  assert (a ∉ l1 /\ p ∉ l1) as [Ha1 Hp1] by (split; intros Hin; apply (Hd12 _ Hin); set_solver).
  set (t1 := modify (set_next (Some p)) a t). set (t2 := modify (set_previous (final None l1)) a t1).
  set (t3 := modify (set_previous (Some a)) p t2).
  set (t4 := match final None l1 with None => set_head (Some a) t3 | Some b => modify (set_next (Some a)) b t3 end).
  set (nb := set_previous (final None l1) (set_next (Some p) na)).
  assert (rb_nodes t3 !! a = Some nb) as Hna3.
  { unfold t3, t2, t1. simpl. rewrite lookup_alter_ne, !lookup_alter_eq, Hna by done. done. }
  assert (chain (rb_nodes t3) None l1 (Some p)) as Hc1' by (do 3 (apply chain_alter; [done|]); done).
  exists t1, t2, t3, t4, np, nb. split_and!.
  - apply write_modify. by rewrite Hna.
  - unfold t1. simpl. by rewrite lookup_alter_ne.
  - rewrite Hpp. apply write_modify. unfold t1. simpl. rewrite lookup_alter_eq, Hna. by eexists.
  - apply write_modify. unfold t2, t1. simpl. rewrite !lookup_alter_ne, Hnp by done. by eexists.
  - done.
  - change (nd_previous nb) with (final None l1). unfold t4. destruct (final None l1) as [b|] eqn:Hb; [|done].
    apply write_modify. eapply chain_present; [exact Hc1'|]. by apply final_in in Hb as [|].
  - assert (forall q, q ∉ l1 -> rb_nodes t4 !! q = rb_nodes t3 !! q) as Hq4.
    { intros q Hq. unfold t4. destruct (final None l1) as [b|] eqn:Hb; [|done]. apply lookup_alter_ne.
      apply final_in in Hb as [|Hb]; [done|]. by intros ->. }
    split.
    + unfold t4. rewrite first_app in *. destruct l1 as [|b l1]; [done|]. rewrite final_cons. simpl in Hh |- *.
      unfold final. by destruct (last l1).
    + rewrite final_app, !final_cons in *. unfold t4. by destruct (final None l1).
    + apply chain_app. cbn [chain first]. split_and!.
      * pose proof (chain_end _ _ _ _ (Some a) Hd1 Hc1') as H. unfold t4. by destruct (final None l1).
      * exists nb. by rewrite Hq4.
      * exists (set_previous (Some a) np). rewrite Hq4 by done. unfold t3, t2, t1. simpl.
        rewrite lookup_alter_eq, !lookup_alter_ne, Hnp by done. done.
      * eapply chain_frame; [|exact Hc2]. intros q Hq. rewrite Hq4 by (intros Hq1; apply (Hd12 q Hq1); set_solver).
        unfold t3, t2, t1. simpl. rewrite !lookup_alter_ne; [done|by intros ->..].
  - unfold t4, t3, t2, t1. destruct (final None l1);
      rewrite <- ?modify_next_links, <- ?set_head_links, <- !modify_previous_links; by apply modify_links.
Qed.

(** And when it comes after [p]. *)
Lemma thread_after t l1 p a l2 :
  NoDup (l1 ++ p :: a :: l2) -> threaded t (l1 ++ p :: l2) -> is_Some (rb_nodes t !! a) ->
  exists t1 t2 t3 t4 m n, write (Some a) (set_previous (Some p)) t = Some t1 /\
    deref t1 (Some p) = Some m /\ write (Some a) (set_next (nd_next m)) t1 = Some t2 /\
    write (Some p) (set_next (Some a)) t2 = Some t3 /\ deref t3 (Some a) = Some n /\
    (if is_null (nd_next n) then Some (set_tail (Some a) t3)
     else write (nd_next n) (set_previous (Some a)) t3) = Some t4 /\
    threaded t4 (l1 ++ p :: a :: l2) /\ same_links t t4.
Proof.
  intros Hd [Hh Ht Hc] [na Hna]. apply chain_app in Hc as [Hc1 [(np & Hnp & Hpp & Hpx) Hc2]].
  apply NoDup_app in Hd as (Hd1 & Hd12 & [Hp [Ha Hd2]%NoDup_cons]%NoDup_cons).
  rewrite elem_of_cons in Hp. apply Decidable.not_or in Hp as [Hpa Hp].
  assert (a ∉ l1 /\ p ∉ l1) as [Ha1 Hp1] by (split; intros Hin; apply (Hd12 _ Hin); set_solver).
  set (t1 := modify (set_previous (Some p)) a t). set (t2 := modify (set_next (first l2 None)) a t1).
  set (t3 := modify (set_next (Some a)) p t2).
  set (t4 := match first l2 None with None => set_tail (Some a) t3 | Some b => modify (set_previous (Some a)) b t3 end).
  set (nb := set_next (first l2 None) (set_previous (Some p) na)).
  assert (rb_nodes t3 !! a = Some nb) as Hna3.
  { unfold t3, t2, t1. simpl. rewrite lookup_alter_ne, !lookup_alter_eq, Hna by done. done. }
  assert (chain (rb_nodes t3) (Some p) l2 None) as Hc2' by (do 3 (apply chain_alter; [done|]); done).
  assert (forall q, q ∉ l2 -> rb_nodes t4 !! q = rb_nodes t3 !! q) as Hq4.
  { intros q Hq. unfold t4. destruct l2 as [|b l2]; [done|]. simpl. apply lookup_alter_ne. set_solver. }
  exists t1, t2, t3, t4, np, nb. split_and!.
  - apply write_modify. by rewrite Hna.
  - unfold t1. simpl. by rewrite lookup_alter_ne.
  - rewrite Hpx. apply write_modify. unfold t1. simpl. rewrite lookup_alter_eq, Hna. by eexists.
  - apply write_modify. unfold t2, t1. simpl. rewrite !lookup_alter_ne, Hnp by done. by eexists.
  - done.
  - change (nd_next nb) with (first l2 None). unfold t4. destruct l2 as [|b l2]; [done|]. cbn [first is_null].
    apply write_modify. eapply chain_present; [exact Hc2'|apply list_elem_of_here].
  - split.
    + unfold t4. rewrite first_app in *. by destruct l2.
    + rewrite final_app, !final_cons in *. unfold t4. destruct l2 as [|b l2]; [done|]. simpl.
      by rewrite final_cons in *.
    + apply chain_app. cbn [chain first]. split_and!.
      * eapply chain_frame; [|exact Hc1]. intros q Hq. rewrite Hq4 by (intros Hq1; apply (Hd12 q Hq); set_solver).
        unfold t3, t2, t1. simpl. rewrite !lookup_alter_ne; [done|by intros ->..].
      * exists (set_next (Some a) np). rewrite Hq4 by done. unfold t3, t2, t1. simpl.
        rewrite lookup_alter_eq, !lookup_alter_ne, Hnp by done. done.
      * exists nb. by rewrite Hq4.
      * pose proof (chain_start _ _ _ _ (Some a) Hd2 Hc2') as H. unfold t4. by destruct l2.
  - unfold t4, t3, t2, t1. destruct (first l2 None);
      rewrite <- ?modify_previous_links, <- ?set_tail_links, <- !modify_next_links; by apply modify_links.
Qed.

(** The node below which a search ends, and the side. *)
Definition place_of (path : list frame) (comparison : Z) : Prop :=
  match path with
  | [] => True
  | Frame s _ _ _ :: _ => s = if comparison <? 0 then LeftSide else RightSide
  end.

Lemma same_data_between t t' a p q :
  same_data t t' -> between (rb_nodes t) a p q -> between (rb_nodes t') a p q.
Proof.
  intros Hs Hb. destruct (chain_data t t' p [a] q Hs) as [H _]; [by split|done].
Qed.

Lemma link_root t a :
  rb_root t = None -> node_is (rb_nodes t) a None LeftSide None None true -> between (rb_nodes t) a None None ->
  exists t', link_node t (Some a) None 0 = Some t' /\ rooted t' (Node Leaf a true Leaf) /\
    threaded t' [a] /\ same_objects t t'.
Proof.
  intros Hroot Hn Hb. exists (set_tail (Some a) (set_head (Some a) (set_root (Some a) (modify (set_parent None) a t)))).
  split_and!.
  - unfold link_node. erewrite write_node by exact Hn. done.
  - split; [done| |apply NoDup_singleton]. split; [|done]. by eapply node_is_parent.
  - split; [done..|]. split; [|done]. cbn [rb_nodes set_tail set_head set_root].
    eapply (same_data_between t); [by apply modify_same|done].
  - etransitivity; [apply same_data_objects, (modify_same (set_parent None) a), keeps_parent|by split].
Qed.

Lemma link_below t s p c y path a comparison :
  rooted t (plug (Frame s p c y :: path) Leaf) -> a ∉ inorder (plug (Frame s p c y :: path) Leaf) ->
  node_is (rb_nodes t) a None LeftSide None None true ->
  threaded t (inorder (plug (Frame s p c y :: path) Leaf)) ->
  place_of (Frame s p c y :: path) comparison ->
  exists t', link_node t (Some a) (Some p) comparison = Some t' /\
    rooted t' (plug (Frame s p c y :: path) (Node Leaf a true Leaf)) /\
    threaded t' (inorder (plug (Frame s p c y :: path) (Node Leaf a true Leaf))) /\ same_objects t t'.
Proof.
  intros Hr Ha Hn Ht Hs.
  destruct (attach_spec t s p c y path a Hr Ha Hn) as (t1 & t2 & E1 & E2 & H2 & S2).
  apply (threaded_data _ _ _ S2) in Ht. pose proof (rt_distinct _ _ H2) as Hd.
  assert (is_Some (rb_nodes t2 !! a)) as Hsome.
  { apply (same_data_present t); [done|]. destruct Hn as (n & -> & _). by eexists. }
  rewrite !inorder_plug in *. simpl in Hs. unfold link_node. rewrite E1. cbn [mbind option_bind is_null].
  subst s. destruct (comparison <? 0); rewrite E2; cbn [mbind option_bind before after inorder app] in *.
  - destruct (thread_before t2 _ a p _ Hd Ht Hsome) as (t3 & t4 & t5 & t6 & m & n & -> & E4 & E5 & E6 & E7 & E8 & H6 & S6).
    cbn [mbind option_bind]. rewrite E4. cbn [mbind option_bind]. rewrite E5. cbn [mbind option_bind].
    rewrite E6. cbn [mbind option_bind]. rewrite E7. cbn [mbind option_bind]. exists t6.
    split_and!; [done|by eapply rooted_links|done|].
    by rewrite (same_data_objects _ _ S2), (same_links_objects _ _ S6).
  - rewrite <- !app_assoc in Hd, Ht |- *. cbn [app] in *. rewrite (app_assoc (before path) (inorder y)) in *.
    destruct (thread_after t2 _ p a _ Hd Ht Hsome) as (t3 & t4 & t5 & t6 & m & n & -> & E4 & E5 & E6 & E7 & E8 & H6 & S6).
    cbn [mbind option_bind]. rewrite E4. cbn [mbind option_bind]. rewrite E5. cbn [mbind option_bind].
    rewrite E6. cbn [mbind option_bind]. rewrite E7. cbn [mbind option_bind]. exists t6.
    split_and!; [done|by eapply rooted_links|done|].
    by rewrite (same_data_objects _ _ S2), (same_links_objects _ _ S6).
Qed.

Lemma link_spec t path a comparison :
  rooted t (plug path Leaf) -> a ∉ inorder (plug path Leaf) ->
  node_is (rb_nodes t) a None LeftSide None None true -> between (rb_nodes t) a None None ->
  threaded t (inorder (plug path Leaf)) -> place_of path comparison -> (path = [] -> comparison = 0) ->
  exists t', link_node t (Some a) (up path) comparison = Some t' /\
    rooted t' (plug path (Node Leaf a true Leaf)) /\
    threaded t' (inorder (plug path (Node Leaf a true Leaf))) /\ same_objects t t'.
Proof.
  intros Hr Ha Hn Hb Ht Hs H0. destruct path as [|[s p c y] path].
  - rewrite (H0 eq_refl). apply link_root; [apply (rt_root _ _ Hr)|done|done].
  - by apply link_below.
Qed.


(** * Taking a node out *)

Lemma NoDup_middle_unique {A} (l1 l2 k1 k2 : list A) a :
  l1 ++ a :: l2 = k1 ++ a :: k2 -> NoDup (l1 ++ a :: l2) -> l1 = k1 /\ l2 = k2.
Proof.
  revert k1. induction l1 as [|x l1 IH]; intros [|y k1]; simpl; intros E Hd; simplify_eq.
  - done.
  - apply NoDup_cons in Hd as [Ha _]. destruct Ha. set_solver.
  - apply NoDup_cons in Hd as [Ha _]. destruct Ha. set_solver.
  - apply NoDup_cons in Hd as [_ Hd]. destruct (IH k1) as [-> ->]; done.
Qed.

Lemma in_plug T a : a ∈ inorder T -> exists path l c r, T = plug path (Node l a c r).
Proof.
  induction T as [|l IHl b c r IHr]; simpl; [set_solver|]. rewrite elem_of_app, elem_of_cons.
  intros [Ha|[->|Ha]].
  - destruct (IHl Ha) as (p & l' & c' & r' & ->). exists (p ++ [Frame LeftSide b c r]), l', c', r'. by rewrite plug_app.
  - by exists [], l, c, r.
  - destruct (IHr Ha) as (p & l' & c' & r' & ->). exists (p ++ [Frame RightSide b c l]), l', c', r'. by rewrite plug_app.
Qed.

(** The least node: nothing is on its left. *)
Lemma minimum_loop_spec fuel t path R b :
  (length (inorder R) <= S fuel)%nat -> rooted t (plug path R) -> ptr R = Some b ->
  exists p m c r, minimum_loop fuel t (Some b) = Some (Some m) /\ R = plug p (Node Leaf m c r) /\ before p = [].
Proof.
  revert fuel path b. induction R as [|l IHl a c r _]; intros fuel path b Hf Hr; [done|]. intros [= <-].
  destruct (rooted_node t path LeftSide l a c r Hr) as (n & Hn & _ & Hl & _). simpl in Hl.
  destruct l as [|ll d dc lr].
  - exists [], a, c, r. split_and!; [|done..].
    destruct fuel; cbn [minimum_loop is_null]; rewrite Hn; cbn [mbind option_bind]; by rewrite Hl.
  - simpl in Hf. rewrite !length_app in Hf. simpl in Hf. destruct fuel as [|fuel]; [lia|].
    destruct (IHl fuel (Frame LeftSide a c r :: path) d) as (p & m & mc & mr & E & Ep & Hb);
      [simpl; rewrite length_app; simpl; lia|exact Hr|done|].
    exists (p ++ [Frame LeftSide a c r]), m, mc, mr. split_and!.
    + cbn [minimum_loop is_null]. rewrite Hn. cbn [mbind option_bind]. rewrite Hl. exact E.
    + by rewrite plug_app, <- Ep.
    + clear -Hb. induction p as [|[[] q c' y] p IH]; simpl in *; [done|auto|].
      by destruct (before p), (inorder y).
Qed.

Lemma minimum_spec t path R b :
  rooted t (plug path R) -> ptr R = Some b ->
  exists p m c r, rbtree_minimum t (Some b) = Some (Some m) /\ R = plug p (Node Leaf m c r) /\ before p = [].
Proof.
  intros Hr Hb. eapply minimum_loop_spec; [|done|done]. pose proof (rooted_size _ _ Hr) as Hs.
  rewrite inorder_around, length_app in Hs. unfold enough. lia.
Qed.

(** [T'] takes the place of the subtree of [a]. *)
Lemma transplant_spec t path a s near far c T' p :
  node_is (rb_nodes t) a (up path) s near far c -> rep_path (rb_nodes t) (Some a) path (rb_root t) ->
  distinct path T' -> a ∉ around path -> a ∉ inorder T' -> rep (rb_nodes t) p T' ->
  exists t', rbtree_transplant t (Some a) (ptr T') = Some t' /\ rooted t' (plug path T') /\ same_data t t' /\
    forall q, ptr T' <> Some q -> q ∉ around path -> rb_nodes t' !! q = rb_nodes t !! q.
Proof.
  intros Hn Hp Hd Ha HaT Hr. pose proof Hd as Hd'. apply distinct_iff in Hd' as (Hd1 & Hd2 & Hd3).
  unfold rbtree_transplant. destruct (deref_node _ _ _ _ _ _ _ Hn) as (n & -> & Hup & _). cbn [mbind option_bind].
  rewrite Hup, (replace_child_spec LeftSide t path a (ptr T')) by done. cbn [mbind option_bind].
  set (t1 := fill path (ptr T') t).
  assert (node_is (rb_nodes t1) a (up path) s near far c) as Hn1 by (eapply node_is_lookup; [by apply fill_lookup|done]).
  destruct (deref_node _ _ _ _ _ _ _ Hn1) as (n1 & -> & Hup1 & _). cbn [mbind option_bind]. rewrite Hup1.
  assert (rep (rb_nodes t1) p T') as Hr1 by (eapply rep_frame; [|exact Hr]; intros q Hq; apply fill_lookup; by apply Hd2).
  rewrite (write_if_root t1 T' p) by done. eexists. split; [done|].
  pose proof (fill_path t path (Some a) (ptr T') Hd3 Hp) as Hp1. fold t1 in Hp1.
  assert (rb_root (modify_at (set_parent (up path)) (ptr T') t1) = rb_root t1) as Hroot by (by destruct (ptr T')).
  split_and!.
  - apply rooted_plug. rewrite Hroot. split_and!; [| |done].
    + pose proof (rep_reparent (rb_nodes t1) (up path) p T' Hd1 Hr1) as H. by destruct (ptr T').
    + eapply rep_path_frame; [|exact Hp1]. intros q Hq. apply modify_at_lookup. intros E.
      apply ptr_inorder in E. by apply (Hd2 q).
  - etransitivity; [apply (fill_same path (ptr T'))|]. by apply modify_at_same.
  - intros q Hq Hq'. rewrite modify_at_lookup by done. by apply fill_lookup.
Qed.

(** What [detach_node] may leave: a red node went away, or a black one is missing. *)
Lemma detached_balance path b n s m c r :
  rb_tree c n (join s Leaf m c r) -> rb_path b n path -> if c then balanced (plug path r) else owes path r.
Proof.
  intros HT Hp. destruct c.
  - apply rb_red_inv in HT as (_ & _ & Hr). by eapply plug_balanced.
  - apply rb_black_inv in HT as (_ & k & c1 & c2 & -> & _ & Hr). unfold owes. rewrite (rb_tree_red _ _ _ Hr).
    destruct c2; [|by eauto]. exists (S k), b. split; [by apply (rb_tree_blacken true)|done].
Qed.

Definition detached t (red : bool) path (T' : shape) (l : list addr) (r : option (rbtree_t V * option addr * option addr * bool)) : Prop :=
  exists t', r = Some (t', ptr T', up path, red) /\ rooted t' (plug path T') /\ same_data t t' /\
    inorder (plug path T') = l /\ if red then balanced (plug path T') else owes path T'.

(** A node with at most one child, on the side [s]. *)
Lemma detach_simple s t path a c y :
  rooted t (plug path (join s Leaf a c y)) -> balanced (plug path (join s Leaf a c y)) ->
  exists t', rbtree_transplant t (Some a) (ptr y) = Some t' /\ rooted t' (plug path y) /\ same_data t t' /\
    inorder (plug path y) = before path ++ inorder y ++ after path /\
    if c then balanced (plug path y) else owes path y.
Proof.
  intros Hr Hb. apply rooted_plug in Hr as (Hn & Hp & Hd). rewrite ptr_join in Hp.
  apply rep_join in Hn as (Hn & _ & Hy). pose proof Hd as Hd'. revert Hd'. open_distinct. intros Hd'.
  assert (a ∉ inorder y /\ a ∉ around path /\ distinct path y) as (Hay & Hap & Hdy).
  { split_and!; [apart|apart|]. apply distinct_iff. split_and!; [done|intros; apart|done]. }
  destruct (transplant_spec t path a _ _ _ _ y _ Hn Hp Hdy Hap Hay Hy) as (t' & E & Ht & S & _).
  exists t'. split_and!; try done; [apply inorder_plug|].
  apply plug_balanced_inv in Hb as (b & c' & n & HT & Hpath & _).
  assert (c' = c) as -> by (apply rb_tree_red in HT; rewrite <- HT; by destruct s).
  by eapply detached_balance.
Qed.

(** A left subtree for a node that has none. *)
Lemma attach_left t path l d q m c R :
  rooted t (plug path (Node Leaf m c R)) -> rep (rb_nodes t) q l -> ptr l = Some d ->
  distinct path (join LeftSide l m c R) ->
  exists t1 t2, write (Some m) (set_child LeftSide (Some d)) t = Some t1 /\
    write (Some d) (set_parent (Some m)) t1 = Some t2 /\
    rooted t2 (plug path (join LeftSide l m c R)) /\ same_data t t2 /\
    forall x, x <> m -> x <> d -> rb_nodes t2 !! x = rb_nodes t !! x.
Proof.
  intros Hr Hl Hd HD. pose proof HD as HD'. revert HD'. open_distinct. intros HD'.
  apply rooted_plug in Hr as ((Hm & _ & HR) & Hp & _). cbn [ptr] in Hm, Hp.
  set (t1 := modify (set_child LeftSide (Some d)) m t). set (t2 := modify (set_parent (Some m)) d t1).
  assert (rep (rb_nodes t1) q l) as Hl1 by (apply rep_alter; [apart|done]).
  assert (forall x, x <> m -> x <> d -> rb_nodes t2 !! x = rb_nodes t !! x) as Hq
    by (intros x ? ?; unfold t2, t1; simpl; by rewrite !lookup_alter_ne).
  exists t1, t2. split_and!; [by eapply write_node| | | |done].
  - pose proof (write_if_root t1 l q (set_parent (Some m)) Hl1) as E. by rewrite Hd in E.
  - apply rooted_plug. rewrite rep_join. split_and!; [| | | |done].
    + apply node_is_alter_ne; [apart|]. rewrite Hd. by eapply node_is_child.
    + assert (NoDup (inorder l)) as Hdl by done.
      pose proof (rep_reparent (rb_nodes t1) (Some m) q l Hdl Hl1) as Hl3. by rewrite Hd in Hl3.
    + eapply rep_frame; [|exact HR]. intros x Hx. apply Hq; apart.
    + eapply rep_path_frame; [|exact Hp]. intros x Hx. apply Hq; apart.
  - unfold t2, t1. etransitivity; apply modify_same; [apply (keeps_child LeftSide)|done].
Qed.

(** The successor [m] with what is on its right takes the place of [a] and its left
    subtree. *)
Lemma take_place_spec t path a l d far c q m cm R :
  node_is (rb_nodes t) a (up path) LeftSide (ptr l) far c -> rep (rb_nodes t) (Some a) l -> ptr l = Some d ->
  rep (rb_nodes t) q (Node Leaf m cm R) -> rep_path (rb_nodes t) (Some a) path (rb_root t) ->
  a ∉ inorder (plug path (Node l m cm R)) -> distinct path (join LeftSide l m cm R) ->
  exists t', take_place t (Some a) (Some m) = Some t' /\ rooted t' (plug path (Node l m c R)) /\ same_data t t'.
Proof.
  intros Hn Hl Hd Hm Hp Ha HD. change (Node l m cm R) with (join LeftSide l m cm R) in Ha.
  rewrite inorder_around, elem_of_app, elem_of_join in Ha. pose proof HD as HD'. revert HD'. open_distinct. intros HD'.
  assert (distinct path (Node Leaf m cm R)) as Hd1.
  { apply distinct_iff. split_and!; [by apply NoDup_cons| |done].
    intros x [->|Hx]%elem_of_cons; apart. }
  unfold take_place.
  destruct (transplant_spec t path a _ _ _ _ (Node Leaf m cm R) q Hn Hp Hd1) as (t1 & E1 & Hr1 & S1 & Hq1);
    [tauto|simpl; rewrite elem_of_cons; tauto|done|].
  cbn [ptr] in *. rewrite E1. cbn [mbind option_bind].
  assert (forall x, x = a \/ x ∈ inorder l -> rb_nodes t1 !! x = rb_nodes t !! x) as Hsame.
  { intros x [->|Hx]; apply Hq1; try tauto; [naive_solver|intros [= ->]; tauto|]. apart. }
  assert (node_is (rb_nodes t1) a (up path) LeftSide (ptr l) far c) as Hn1
    by (eapply node_is_lookup; [apply Hsame; by left|done]).
  assert (rep (rb_nodes t1) (Some a) l) as Hl1 by (eapply rep_frame; [|done]; intros; apply Hsame; by right).
  destruct (deref_node _ _ _ _ _ _ _ Hn1) as (n & -> & _ & Hnl & _ & Hnc). cbn [mbind option_bind]. simpl in Hnl.
  destruct (attach_left t1 path l d (Some a) m cm R Hr1 Hl1 Hd HD') as (t2 & t3 & E2 & E3 & Hr3 & S3 & Hq3).
  rewrite Hnl, Hd, E2. cbn [mbind option_bind]. rewrite E3. cbn [mbind option_bind]. apply ptr_inorder in Hd as Hdl.
  assert (node_is (rb_nodes t3) a (up path) LeftSide (ptr l) far c) as Hn3
    by (eapply node_is_lookup; [apply Hq3; [naive_solver|intros ->; tauto]|done]).
  destruct (deref_node _ _ _ _ _ _ _ Hn3) as (n3 & -> & _ & _ & _ & Hc3). cbn [mbind option_bind]. rewrite Hc3.
  destruct (rooted_write_red _ _ _ _ _ _ _ c Hr3) as (t4 & E4 & Hr4 & S4). exists t4. split_and!; [done|done|].
  by rewrite S1, S3.
Qed.

(** The successor [m] of [a] before and after it leaves its place, which is [p] below
    the right of [a]. *)
Definition released t t' path l a c p m cm R (r : option (rbtree_t V * option addr)) : Prop :=
  r = Some (t', up (p ++ [Frame RightSide m c l])) /\ same_data t t' /\
  (exists far, node_is (rb_nodes t') a (up path) LeftSide (ptr l) far c) /\
  rep (rb_nodes t') (Some a) l /\ (exists q, rep (rb_nodes t') q (Node Leaf m cm (plug p R))) /\
  rep_path (rb_nodes t') (Some a) path (rb_root t').

Lemma release_near t path l a c m cm R :
  rooted t (plug (Frame RightSide a c l :: path) (Node Leaf m cm R)) ->
  exists t', released t t' path l a c [] m cm R (release_successor t (Some a) (Some m)).
Proof.
  intros Hr. assert (Hd : distinct path (join RightSide (join LeftSide Leaf m cm R) a c l)) by apply Hr.
  pose proof Hr as Hr'. apply rooted_plug in Hr' as (Hm & (Ha & Hl & Hp) & _).
  destruct Hm as (Hm & _ & HR). destruct (deref_node _ _ _ _ _ _ _ Hm) as (n & Hn & Hup & _ & Hright & _).
  open_distinct. exists (modify_at (set_parent (Some m)) (ptr R) t).
  assert (forall q, q ∉ inorder R -> rb_nodes (modify_at (set_parent (Some m)) (ptr R) t) !! q = rb_nodes t !! q) as Hq
    by (intros q Hq; apply modify_at_lookup; intros E; by apply ptr_inorder in E).
  split_and!.
  - unfold release_successor. rewrite Hn. cbn [mbind option_bind]. rewrite Hup, bool_decide_true by done.
    simpl in Hright. rewrite Hright, (write_if_root t R _ _ HR). done.
  - by apply modify_at_same.
  - exists (Some m). eapply node_is_lookup; [|apply node_is_flip, Ha]. apply Hq. apart.
  - eapply rep_frame; [|exact Hl]. intros q Hin. apply Hq. apart.
  - exists (Some a). split_and!; [|done|].
    + eapply node_is_lookup; [apply Hq; apart|done].
    + assert (NoDup (inorder R)) as HdR by done. pose proof (rep_reparent (rb_nodes t) (Some m) _ R HdR HR) as HR'.
      simpl. by destruct (ptr R).
  - assert (rb_root (modify_at (set_parent (Some m)) (ptr R) t) = rb_root t) as -> by (by destruct (ptr R)).
    eapply rep_path_frame; [|exact Hp]. intros q Hin. apply Hq. apart.
Qed.

Lemma release_far t path l a c fr p m cm R :
  rooted t (plug ((fr :: p) ++ Frame RightSide a c l :: path) (Node Leaf m cm R)) ->
  exists t', released t t' path l a c (fr :: p) m cm R (release_successor t (Some a) (Some m)).
Proof.
  set (pp := fr :: p). set (long := pp ++ Frame RightSide a c l :: path). intros Hr.
  assert (up long = Some (fr_node fr) /\ up pp = Some (fr_node fr)) as [Hlong Hpp] by done.
  pose proof Hr as Hr'. apply rooted_plug in Hr' as ((Hm & _ & HR) & Hp & Hd).
  apply distinct_iff in Hd as (Hd1 & Hd2 & Hd3). cbn [inorder app] in Hd1, Hd2. apply NoDup_cons in Hd1 as [HmR HdR].
  assert (m ∉ around long) as Hml by (apply Hd2, list_elem_of_here).
  destruct (transplant_spec t long m _ _ _ _ R (Some m) Hm Hp) as (t1 & E1 & Hr1 & S1 & Hq1);
    [apply distinct_iff; split_and!; [done|intros; apply Hd2; by apply list_elem_of_further|done]|done..|].
  assert (node_is (rb_nodes t1) m (up long) LeftSide None (ptr R) cm) as Hm1.
  { eapply node_is_lookup; [apply Hq1; [|done]|done]. intros E. by apply ptr_inorder in E. }
  assert (rooted t1 (plug path (join RightSide (plug pp R) a c l))) as Hr1'.
  { unfold long in Hr1. by rewrite plug_app in Hr1. }
  assert (exists e, ptr (plug pp R) = Some e) as [e He].
  { clear. unfold pp. destruct fr as [s u k y]. simpl. generalize (join s R u k y), (ptr_join s R u k y). generalize u.
    induction p as [|[s' u' k' y'] p IH]; intros v T ET; [by eexists|]. simpl. apply (IH u'). apply ptr_join. }
  pose proof (rooted_node _ _ _ _ _ _ _ Hr1') as (n & Hn & _ & Hright & _). cbn [child] in Hright. rewrite He in Hright.
  pose proof Hr1' as Hr2. apply rooted_plug in Hr2 as (Hj & Hp1 & Hd). destruct Hj as (Ha1 & Hl1 & HP1).
  assert (m <> a /\ m ∉ inorder l /\ m ∉ inorder (plug pp R) /\ m ∉ around path) as (Hma & Hml' & HmP & Hmp).
  { assert (m ∉ inorder R ++ around long) as HmT by (rewrite elem_of_app; tauto).
    rewrite <- inorder_around in HmT. unfold long in HmT.
    rewrite plug_app in HmT. change (plug (Frame RightSide a c l :: path) (plug pp R))
      with (plug path (join RightSide (plug pp R) a c l)) in HmT.
    rewrite inorder_around, elem_of_app, elem_of_join in HmT. tauto. }
  rewrite ptr_join in Hp1. apply ptr_inorder in He as HeP.
  assert (NoDup (inorder (plug pp R)) /\ forall x, x ∈ inorder (plug pp R) -> x <> a /\ x ∉ inorder l /\ x ∉ around path)
    as [HdP Hout].
  { apply distinct_iff in Hd as (Hj & Hout & _). apply NoDup_join in Hj as ([? ?] & ? & Hxl & _). split; [done|].
    intros x Hx. split_and!; [by intros ->|by apply Hxl|apply Hout; rewrite elem_of_join; tauto]. }
  destruct (Hout e HeP) as (Hea & Hel & Hep).
  set (t2 := modify (set_child RightSide (Some e)) m t1). set (t3 := modify (set_parent (Some m)) e t2).
  assert (forall q, q <> m -> q <> e -> rb_nodes t3 !! q = rb_nodes t1 !! q) as Hq3
    by (intros q ? ?; unfold t3, t2; simpl; by rewrite !lookup_alter_ne).
  assert (rep (rb_nodes t2) (Some a) (plug pp R)) as HP2 by (by apply rep_alter).
  exists t3. split_and!.
  - unfold release_successor. destruct (deref_node _ _ _ _ _ _ _ Hm) as (nm & -> & Hup & _ & Hfar & _).
    cbn [mbind option_bind]. rewrite Hup, Hlong. simpl in Hfar. rewrite bool_decide_false.
    2: { intros [= E]. refine (proj1 (Hout (fr_node fr) _) E).
         rewrite inorder_around, elem_of_app. right. by apply up_around. }
    rewrite Hfar, E1. cbn [mbind option_bind]. rewrite Hn. cbn [mbind option_bind]. rewrite Hright.
    erewrite write_node by exact Hm1. cbn [mbind option_bind]. fold t2.
    pose proof (write_if_root t2 _ _ (set_parent (Some m)) HP2) as E. rewrite He in E. unfold write_if in E.
    cbn [is_null modify_at] in E. by rewrite E.
  - rewrite S1. unfold t3, t2. etransitivity; apply modify_same; [apply (keeps_child RightSide)|done].
  - eexists. eapply node_is_lookup; [by apply Hq3; [|apply not_eq_sym]|exact Ha1].
  - eapply rep_frame; [|exact Hl1]. intros q Hq. apply Hq3; by intros ->.
  - exists (up long). split_and!; [|done|].
    + apply node_is_alter_ne; [by intros ->|]. rewrite He.
      exact (node_is_far _ (Some e) m _ LeftSide _ _ _ Hm1).
    + pose proof (rep_reparent _ (Some m) _ _ HdP HP2) as HP3. by rewrite He in HP3.
  - eapply rep_path_frame; [|exact Hp1]. intros q Hq. apply Hq3; by intros ->.
Qed.

Lemma released_inorder path l a c r p m cm R :
  r = plug p (Node Leaf m cm R) -> before p = [] -> distinct path (Node l a c r) ->
  inorder (plug path (Node l m cm (plug p R))) = before path ++ inorder l ++ inorder r ++ after path /\
  a ∉ inorder (plug path (Node l m cm (plug p R))) /\ distinct path (join LeftSide l m cm (plug p R)).
Proof.
  intros -> Hb Hd. unfold distinct in *. rewrite !inorder_plug in *. cbn [join inorder app] in *.
  rewrite !inorder_plug, Hb in *. cbn [inorder app] in *.
  rewrite <- app_assoc, app_assoc in Hd. cbn [app] in Hd. rewrite <- Permutation_middle in Hd.
  apply NoDup_cons in Hd as [Ha Hn]. cbn [app] in *. rewrite <- ?app_assoc in *. cbn [app] in *.
  by rewrite <- ?app_assoc in *.
Qed.

Lemma rb_path_rename p b n s a c y path m :
  rb_path b n (p ++ Frame s a c y :: path) -> rb_path b n (p ++ Frame s m c y :: path).
Proof.
  revert b n. induction p as [|[s' a' c' y'] p IH]; intros b n; simpl; inversion 1; subst; econstructor; eauto.
Qed.

Lemma replace_by_successor_cases t path l a c r d e :
  rooted t (plug path (Node l a c r)) -> balanced (plug path (Node l a c r)) -> ptr l = Some d -> ptr r = Some e ->
  exists red path' T', detached t red path' T' (before path ++ inorder l ++ inorder r ++ after path)
    (replace_by_successor t (Some a) (Some e)).
Proof.
  intros Hr Hb Hd He.
  destruct (minimum_spec t (Frame RightSide a c l :: path) r e Hr He) as (p & m & cm & R & Em & Er & Hbp).
  assert (distinct path (Node l a c r)) as HD by apply (rt_distinct _ _ Hr).
  destruct (released_inorder _ _ _ _ _ _ _ _ _ Er Hbp HD) as (HI & Ha & HD'). subst r.
  assert (rooted t (plug (p ++ Frame RightSide a c l :: path) (Node Leaf m cm R))) as Hr2 by (by rewrite plug_app).
  destruct (rooted_node t _ LeftSide _ _ _ _ Hr2) as (nm & Hnm & _ & _ & Hright & Hred).
  assert (exists t', released t t' path l a c p m cm R (release_successor t (Some a) (Some m)))
    as (t1 & E1 & S1 & (far & Hn1) & Hl1 & (q & Hm1) & Hp1) by (destruct p; [by apply release_near|by apply release_far]).
  destruct (take_place_spec t1 path a l d far c q m cm (plug p R) Hn1 Hl1 Hd Hm1 Hp1 Ha HD') as (t2 & E2 & H2 & S2).
  exists cm, (p ++ Frame RightSide m c l :: path), R. exists t2. split_and!.
  - unfold replace_by_successor. rewrite Em. cbn [mbind option_bind]. rewrite Hnm. cbn [mbind option_bind].
    rewrite E1. cbn [mbind option_bind]. rewrite E2. cbn [mbind option_bind]. simpl in Hright. rewrite Hright, Hred.
    by destruct p.
  - rewrite plug_app. exact H2.
  - by rewrite S1.
  - rewrite plug_app, <- HI. cbn [plug join]. by rewrite !inorder_plug.
  - assert (balanced (plug (p ++ Frame RightSide a c l :: path) (Node Leaf m cm R))) as Hb2 by (by rewrite plug_app).
    apply plug_balanced_inv in Hb2 as (b & c' & n & HT & Hpath & _).
    assert (c' = cm) as -> by (by apply rb_tree_red in HT; rewrite <- HT).
    eapply (detached_balance _ b n LeftSide m); [exact HT|by eapply rb_path_rename].
Qed.

Lemma detach_spec t path l a c r :
  rooted t (plug path (Node l a c r)) -> balanced (plug path (Node l a c r)) ->
  exists red path' T', detached t red path' T' (before path ++ inorder l ++ inorder r ++ after path)
    (detach_node t (Some a)).
Proof.
  intros Hr Hb. unfold detach_node.
  destruct (rooted_node t path LeftSide l a c r Hr) as (n & -> & Hup & Hl & Hrt & Hc). cbn [mbind option_bind].
  simpl in Hl, Hrt. rewrite Hl, Hrt, Hup, Hc. destruct (ptr l) as [d|] eqn:Hd; cbn [is_null].
  - destruct (ptr r) as [e|] eqn:He; cbn [is_null]; [by eapply replace_by_successor_cases|].
    destruct r as [|]; [|done]. destruct (detach_simple RightSide t path a c l Hr Hb) as (t' & E & H & S & HI & Hbal).
    rewrite Hd in E. exists c, path, l. exists t'. rewrite E, Hd. by split_and!.
  - destruct l as [|]; [|done]. destruct (detach_simple LeftSide t path a c r Hr Hb) as (t' & E & H & S & HI & Hbal).
    exists c, path, r. exists t'. rewrite E. by split_and!.
Qed.

Lemma unlink_spec t T l1 a l2 :
  rooted t T -> balanced T -> threaded t (inorder T) -> inorder T = l1 ++ a :: l2 ->
  exists t' T', unlink_node t (Some a) = Some t' /\ rooted t' T' /\ balanced T' /\ inorder T' = l1 ++ l2 /\
    threaded t' (l1 ++ l2) /\ same_objects t t'.
Proof.
  intros Hr Hb Ht HI. pose proof (rt_distinct _ _ Hr) as Hd.
  destruct (in_plug T a) as (path & l & c & r & ->); [rewrite HI; set_solver|].
  assert (before path ++ inorder l = l1 /\ inorder r ++ after path = l2) as [H1 H2].
  { rewrite inorder_plug in HI, Hd. cbn [inorder] in HI, Hd. rewrite <- !app_assoc in HI, Hd. cbn [app] in HI, Hd.
    rewrite app_assoc in HI, Hd. by apply (NoDup_middle_unique _ _ _ _ a). }
  destruct (detach_spec t path l a c r Hr Hb) as (red & path' & T' & t1 & E1 & Hr1 & S1 & HI1 & Hb1).
  rewrite app_assoc, H1, H2 in HI1. unfold unlink_node. rewrite E1. cbn [mbind option_bind].
  assert (exists t2 T2, (if red then Some t1 else rbtree_delete_fix t1 (ptr T') (up path')) = Some t2 /\
    repaired t1 t2 (plug path' T') T2 /\ balanced T2) as (t2 & T2 & -> & (Hr2 & HI2 & S2) & Hb2).
  { destruct red; [|by apply delete_fix_spec]. by exists t1, (plug path' T'). }
  cbn [mbind option_bind]. rewrite HI in Ht, Hd.
  apply (threaded_data _ _ _ S1), (threaded_data _ _ _ S2) in Ht.
  destruct (unthread_spec t2 l1 a l2 Hd Ht) as (t3 & E3 & Ht3 & S3). exists t3, T2.
  split_and!; [done|by eapply rooted_links|done|by rewrite HI2|done|].
  by rewrite (same_data_objects _ _ S1), (same_data_objects _ _ S2), (same_links_objects _ _ S3).
Qed.

End Links.
