(* ===== verification/CstlRbOps.v ===== *)
(** The order of the keys in a red-black tree: lists of entries in order, what a
    comparison function must be, and where a search in the tree ends.

    What each operation of the red-black tree does to a tree that holds a list of
    entries in order: its answer, its tree, and the blocks and objects that come and go. *)

From S2P Require Import Prelude.
From S2P Require Import CMetaType.
From S2P Require Import CstlSupport.
From S2P Require Import CstlObjects.
From S2P Require Import CstlSequenceSpecs.
From S2P Require Import CstlRbTree.
From S2P Require Import CstlRbShape.
From S2P Require Import CstlRbBalance.
From S2P Require Import CstlRbLinks.

(** * Comparisons *)

Section Order.
Context {V : Type} (cmp : V -> V -> Z).
Implicit Types l : list (V * V).

(** A three-way comparison: its sign turns with its arguments, and what is not behind is
    so along chains. *)
Class CompareLaws := {
  cmp_flip : forall a b, cmp a b < 0 <-> 0 < cmp b a;
  cmp_trans : forall a b c, cmp a b <= 0 -> cmp b c <= 0 -> cmp a c <= 0;
}.

(** Entries whose keys go up, strictly unless duplicates are allowed. *)
Definition precedes (dup : bool) (a b : V) : Prop := if dup then cmp a b <= 0 else cmp a b < 0.

Fixpoint ordered (dup : bool) l : Prop :=
  match l with
  | [] => True
  | e :: l => Forall (fun e' => precedes dup (fst e) (fst e')) l /\ ordered dup l
  end.

(** The entry behind all that do not come after it; or the new value for an equal key. *)
Fixpoint assoc_put (dup : bool) (k v : V) l : list (V * V) :=
  match l with
  | [] => [(k, v)]
  | (k', v') :: l' =>
      if cmp k k' <? 0 then (k, v) :: l
      else if (cmp k k' =? 0) && negb dup then (k', v) :: l'
      else (k', v') :: assoc_put dup k v l'
  end.

(** The first entry with an equal key. *)
Fixpoint assoc_find (k : V) l : option (V * V) :=
  match l with
  | [] => None
  | e :: l => if cmp k (fst e) =? 0 then Some e else assoc_find k l
  end.

(** The entries from the first that [passes] does not pass by. *)
Fixpoint from (passes : V -> bool) l : list (V * V) :=
  match l with [] => [] | e :: l' => if passes (fst e) then from passes l' else l end.

Lemma precedes_le dup a b : precedes dup a b -> cmp a b <= 0.
Proof. unfold precedes. destruct dup; lia. Qed.

Lemma ordered_app dup l1 l2 :
  ordered dup (l1 ++ l2) <->
  ordered dup l1 /\ ordered dup l2 /\
  forall e1 e2, e1 ∈ l1 -> e2 ∈ l2 -> precedes dup (fst e1) (fst e2).
Proof.
  induction l1 as [|e l1 IH]; simpl.
  - split; [|tauto]. intros H. split_and!; [done|done|]. set_solver.
  - rewrite IH, Forall_app, !Forall_forall. split.
    + intros ((H1 & H2) & Ho1 & Ho2 & Hc). split_and!; [done|done|done|].
      intros e1 e2 [->|He1]%elem_of_cons He2; auto.
    + intros ((H1 & Ho1) & Ho2 & Hc). split_and!; try done.
      * intros e2 He2. apply Hc; [apply list_elem_of_here|done].
      * intros e1 e2 He1 He2. apply Hc; [by apply list_elem_of_further|done].
Qed.

Lemma ordered_remove dup l1 e l2 : ordered dup (l1 ++ e :: l2) -> ordered dup (l1 ++ l2).
Proof.
  rewrite !ordered_app. simpl. intros (H1 & (_ & H2) & Hc). split_and!; [done|done|].
  intros e1 e2 He1 He2. apply Hc; [done|by apply list_elem_of_further].
Qed.

Lemma ordered_value dup l1 k v v' l2 : ordered dup (l1 ++ (k, v) :: l2) -> ordered dup (l1 ++ (k, v') :: l2).
Proof.
  rewrite !ordered_app. simpl. intros (H1 & (H2 & H3) & Hc). split_and!; try done.
  intros e1 e2 He1 [->|He2]%elem_of_cons; [|apply Hc; [done|by apply list_elem_of_further]].
  apply (Hc e1 (k, v) He1). apply list_elem_of_here.
Qed.

Context {Hlaws : CompareLaws}.

Lemma cmp_refl a : cmp a a = 0.
Proof. pose proof (cmp_flip a a). lia. Qed.

Lemma cmp_zero a b : cmp a b = 0 -> cmp b a = 0.
Proof. pose proof (cmp_flip a b). pose proof (cmp_flip b a). lia. Qed.

(** Whom a key does not come before, those before them it does not come before. *)
Lemma cmp_before dup k a b : precedes dup a b -> cmp b k <= 0 -> cmp a k <= 0.
Proof. intros H%precedes_le Hb. by eapply cmp_trans. Qed.

Lemma cmp_before_lt dup k a b : precedes dup a b -> cmp b k < 0 -> cmp a k < 0.
Proof.
  intros H%precedes_le Hb. destruct (Z.le_gt_cases 0 (cmp a k)) as [Hk|]; [|done].
  assert (cmp k a <= 0) as Hka by (pose proof (cmp_flip a k); lia).
  pose proof (cmp_trans _ _ _ Hka H). pose proof (cmp_flip b k). lia.
Qed.

Lemma cmp_after dup k a b : precedes dup a b -> cmp k a < 0 -> cmp k b < 0.
Proof.
  intros H%precedes_le Ha. destruct (Z.le_gt_cases 0 (cmp k b)) as [Hk|]; [|done].
  assert (cmp b k <= 0) as Hbk by (pose proof (cmp_flip k b); pose proof (cmp_flip b k); lia).
  pose proof (cmp_trans _ _ _ H Hbk). pose proof (cmp_flip k a). lia.
Qed.

Lemma cmp_after_strict k a b : precedes false a b -> cmp k a = 0 -> cmp k b < 0.
Proof.
  unfold precedes. intros H Ha. destruct (Z.le_gt_cases 0 (cmp k b)) as [Hk|]; [|done].
  assert (cmp b k <= 0) as Hbk by (pose proof (cmp_flip k b); pose proof (cmp_flip b k); lia).
  pose proof (cmp_trans _ _ _ Hbk (Z.eq_le_incl _ _ Ha)). pose proof (cmp_flip a b). lia.
Qed.

(** ** Splits of a list in order *)

Lemma from_app passes l1 l2 :
  Forall (fun e => passes (fst e) = true) l1 -> (forall e, e ∈ l2 -> passes (fst e) = false) ->
  from passes (l1 ++ l2) = l2.
Proof.
  intros H1 H2. induction H1 as [|e l1 He _ IH]; simpl; [|by rewrite He].
  destruct l2 as [|e l2]; [done|]. simpl. by rewrite H2 by apply list_elem_of_here.
Qed.

Lemma assoc_find_none k l : (forall e, e ∈ l -> cmp k (fst e) <> 0) -> assoc_find k l = None.
Proof.
  induction l as [|e l IH]; simpl; [done|]. intros H.
  rewrite (proj2 (Z.eqb_neq _ _)) by (apply H, list_elem_of_here). apply IH. intros. apply H. by apply list_elem_of_further.
Qed.

Lemma assoc_find_app k l1 e l2 :
  (forall e', e' ∈ l1 -> cmp k (fst e') <> 0) -> cmp k (fst e) = 0 -> assoc_find k (l1 ++ e :: l2) = Some e.
Proof.
  intros H He. induction l1 as [|e1 l1 IH]; simpl; [by rewrite He|].
  rewrite (proj2 (Z.eqb_neq _ _)) by (apply H, list_elem_of_here). apply IH. intros. apply H. by apply list_elem_of_further.
Qed.

(** A new entry goes between those it does not precede and those it precedes. *)
Lemma assoc_put_new dup k v l1 l2 :
  (forall e, e ∈ l1 -> 0 < cmp k (fst e) \/ (dup = true /\ cmp k (fst e) = 0)) ->
  (forall e, e ∈ l2 -> cmp k (fst e) < 0) ->
  assoc_put dup k v (l1 ++ l2) = l1 ++ (k, v) :: l2.
Proof.
  intros H1 H2. induction l1 as [|[k1 v1] l1 IH]; simpl.
  - destruct l2 as [|[k2 v2] l2]; [done|]. simpl.
    by rewrite (proj2 (Z.ltb_lt _ _)) by (apply (H2 (k2, v2)), list_elem_of_here).
  - pose proof (H1 (k1, v1) ltac:(apply list_elem_of_here)) as Hk. simpl in Hk.
    rewrite (proj2 (Z.ltb_ge _ _)) by lia. rewrite IH by (intros; apply H1; by apply list_elem_of_further).
    destruct Hk as [Hk|[-> Hk]]; [by rewrite (proj2 (Z.eqb_neq _ _)) by lia|by rewrite Hk].
Qed.

Lemma assoc_put_over k v l1 k' v' l2 :
  (forall e, e ∈ l1 -> 0 < cmp k (fst e)) -> cmp k k' = 0 ->
  assoc_put false k v (l1 ++ (k', v') :: l2) = l1 ++ (k', v) :: l2.
Proof.
  intros H1 Hk. induction l1 as [|[k1 v1] l1 IH]; simpl; [by rewrite Hk|].
  pose proof (H1 (k1, v1) ltac:(apply list_elem_of_here)) as H. simpl in H.
  rewrite (proj2 (Z.ltb_ge _ _)), (proj2 (Z.eqb_neq _ _)) by lia. simpl.
  by rewrite IH by (intros; apply H1; by apply list_elem_of_further).
Qed.

(** Putting keeps the order. *)
Lemma ordered_insert dup k v l1 l2 :
  ordered dup (l1 ++ l2) ->
  (forall e, e ∈ l1 -> 0 < cmp k (fst e) \/ (dup = true /\ cmp k (fst e) = 0)) ->
  (forall e, e ∈ l2 -> cmp k (fst e) < 0) ->
  ordered dup (l1 ++ (k, v) :: l2).
Proof.
  rewrite !ordered_app. simpl. intros (Ho1 & Ho2 & Hc) H1 H2. split_and!; try done.
  - apply Forall_forall. intros e He. specialize (H2 e He). unfold precedes. simpl. destruct dup; lia.
  - intros e1 e2 He1 [->|He2]%elem_of_cons; [|by apply Hc]. simpl. specialize (H1 e1 He1).
    pose proof (cmp_flip (fst e1) k). pose proof (cmp_flip k (fst e1)). unfold precedes. destruct dup; [|naive_solver lia]. lia.
Qed.

End Order.

(** * Entries *)

Definition key_traits : Z := Z.lor element_traits CMETA_TRAIT_COMPARE.

(** A configuration that [rbtree_create] accepted, for types its callers checked. *)
Record rbtree_config_ok (c : rbtree_config) : Prop := {
  rk_key_stride : 0 < rc_key_stride c <= SIZE_MAX;
  rk_value_stride : 0 < rc_value_stride c <= SIZE_MAX;
  rk_key_align : is_size (rc_key_align c) /\ sequence_alignment_valid (rc_key_align c) = true;
  rk_value_align : is_size (rc_value_align c) /\ sequence_alignment_valid (rc_value_align c) = true;
  rk_limit : is_size (rc_element_limit c);
  rk_key : supports (rc_key_type c) key_traits;
  rk_compare : rc_key_type c = None -> is_Some (rc_compare c);
  rk_value : supports (rc_value_type c) element_traits;
}.

Fixpoint height (T : shape) : nat :=
  match T with Leaf => 0 | Node l _ _ r => S (max (height l) (height r)) end.

Section Search.
Context {V U : Type} `{HV : ObjectTraits V U}.
Implicit Types t : rbtree_t V.
Implicit Types l : list (V * V).
Implicit Types nodes : gmap addr (rbtree_node V).

Definition the_compare (c : rbtree_config) (a b : V) : Z := default 0 (rbtree_compare_key c a b).

Lemma compare_defined c a b : rbtree_config_ok c -> rbtree_compare_key c a b = Some (the_compare c a b).
Proof.
  intros [_ _ _ _ _ Hk Hc _]. unfold the_compare, rbtree_compare_key. destruct (rc_key_type c) as [type|].
  - destruct (trait_present type key_traits CMETA_TRAIT_COMPARE tr_compare Hk) as [f ->]; [done| |done].
    unfold callback_flag. tauto.
  - by destruct (Hc eq_refl) as [f ->].
Qed.

(** The node at [a] holds the entry. *)
Definition entry_at nodes (a : addr) (e : V * V) : Prop :=
  exists n bk bv, nodes !! a = Some n /\ nd_key n = Some (bk, Live (fst e)) /\ nd_value n = Some (bv, Live (snd e)).

Definition entries nodes (a : list addr) l : Prop := Forall2 (entry_at nodes) a l.

(** The pointer [r] stands before the entries [l2] of [l1 ++ l2]; NULL is the end. *)
Definition stands_at (a : list addr) (r : option addr) l1 l2 : Prop := r = a !! length l1.

Lemma entry_objects nodes nodes' a e :
  objects_of <$> nodes' = objects_of <$> nodes -> entry_at nodes a e -> entry_at nodes' a e.
Proof.
  intros Hd (n & bk & bv & Hn & Hk & Hv). apply (f_equal (lookup a)) in Hd. rewrite !lookup_fmap, Hn in Hd.
  destruct (nodes' !! a) as [n'|] eqn:Hn'; [|done]. simpl in Hd. injection Hd as Hk' Hv'.
  exists n', bk, bv. split_and!; congruence.
Qed.

Lemma entries_objects nodes nodes' a l :
  objects_of <$> nodes' = objects_of <$> nodes -> entries nodes a l -> entries nodes' a l.
Proof. intros Hd He. eapply Forall2_impl; [exact He|]. intros. by eapply entry_objects. Qed.

Lemma entries_frame nodes nodes' a l :
  (forall q, q ∈ a -> nodes' !! q = nodes !! q) -> entries nodes a l -> entries nodes' a l.
Proof.
  intros Hq. induction 1 as [|q e a l (n & bk & bv & Hn & H) _ IH]; constructor.
  - exists n, bk, bv. by rewrite Hq by apply list_elem_of_here.
  - apply IH. intros p Hp. apply Hq. by apply list_elem_of_further.
Qed.


(** The entry of the node a search is at. *)
Lemma entry_node t a e :
  entry_at (rb_nodes t) a e -> exists n, deref t (Some a) = Some n /\ field_value (nd_key n) = Some (fst e).
Proof. intros (n & bk & bv & Hn & Hk & _). exists n. split; [done|]. by rewrite Hk. Qed.

Section Tree.
Context (t : rbtree_t V) (k : V).
#[local] Abbreviation c := (rb_config t).
#[local] Abbreviation cmp := (the_compare c).
#[local] Abbreviation dup := (rc_allow_duplicates c).
Context (Hc : rbtree_config_ok c) {Hlaws : CompareLaws cmp}.

(** A search that has come to the subtree [T] at [path], with the entries before, in and
    after it. *)
Record search path T l1 l l2 : Prop := {
  se_rooted : rooted t (plug path T);
  se_before : entries (rb_nodes t) (before path) l1;
  se_inside : entries (rb_nodes t) (inorder T) l;
  se_after : entries (rb_nodes t) (after path) l2;
  se_ordered : ordered cmp dup (l1 ++ l ++ l2);
}.

Lemma search_node path T l1 l l2 a :
  search path T l1 l l2 -> ptr T = Some a ->
  exists x c' y lx e ly n, T = Node x a c' y /\ l = lx ++ e :: ly /\
    deref t (Some a) = Some n /\ nd_left n = ptr x /\ nd_right n = ptr y /\
    field_value (nd_key n) = Some (fst e) /\ length lx = length (inorder x) /\
    search (Frame LeftSide a c' y :: path) x l1 lx (e :: ly ++ l2) /\
    search (Frame RightSide a c' x :: path) y (l1 ++ lx ++ [e]) ly l2 /\
    (forall e', e' ∈ lx -> precedes cmp dup (fst e') (fst e)) /\
    (forall e', e' ∈ ly -> precedes cmp dup (fst e) (fst e')).
Proof.
  intros [Hr Hb Hi Ha Ho]. destruct T as [|x b c' y]; [done|]. intros [= ->].
  unfold entries in Hi. cbn [inorder] in Hi. apply Forall2_app_inv_l in Hi as (lx & ly0 & Hx & Hy & ->).
  apply Forall2_cons_inv_l in Hy as (e & ly & He & Hy & ->).
  destruct (entry_node _ _ _ He) as (n & Hn & Hk).
  destruct (rooted_node t path LeftSide x a c' y Hr) as (n' & Hn' & _ & Hl & Hrt & _).
  rewrite Hn in Hn'. injection Hn' as <-. exists x, c', y, lx, e, ly, n.
  split_and!; try done; [by apply Forall2_length in Hx| | | |].
  - split; [done|done|done|by constructor; [|apply Forall2_app]|].
    by rewrite <- app_assoc in Ho.
  - split; [done| |done|done|].
    + cbn [before]. apply Forall2_app; [done|]. apply Forall2_app; [done|]. by repeat constructor.
    + rewrite <- !app_assoc in *. done.
  - intros e' He'. apply ordered_app in Ho as (_ & Ho & _). rewrite <- app_assoc in Ho.
    apply ordered_app in Ho as (_ & _ & Ho). apply Ho; [done|apply list_elem_of_here].
  - intros e' He'. apply ordered_app in Ho as (_ & Ho & _). rewrite <- app_assoc in Ho.
    apply ordered_app in Ho as (_ & [Ho _] & _). rewrite Forall_forall in Ho. apply Ho. set_solver.
Qed.

Lemma search_length path T l1 l l2 : search path T l1 l l2 -> length (before path) = length l1.
Proof. intros [_ H _ _ _]. by apply Forall2_length in H. Qed.

(** The node the search is at stands before its own entry. *)
Lemma search_stands path x a c' y l1 lx l2 l :
  search path (Node x a c' y) l1 l l2 -> length lx = length (inorder x) ->
  inorder (plug path (Node x a c' y)) !! length (l1 ++ lx) = Some a.
Proof.
  intros Hs Hx. apply search_length in Hs. rewrite inorder_plug. cbn [inorder].
  rewrite lookup_app_r by (rewrite length_app; lia). rewrite <- app_assoc.
  rewrite lookup_app_r by (rewrite length_app; lia). rewrite length_app.
  replace (length l1 + length lx - length (before path) - length (inorder x))%nat with 0%nat by lia. done.
Qed.

(** ** Finding a key *)

Definition found (a : list addr) l (r : option addr) : Prop :=
  match r with
  | Some _ => exists l1 e l2, l = l1 ++ e :: l2 /\ stands_at a r l1 (e :: l2) /\ cmp k (fst e) = 0
  | None => forall e, e ∈ l -> cmp k (fst e) <> 0
  end.

Lemma find_loop_spec fuel path T l1 l l2 :
  (height T <= fuel)%nat -> search path T l1 l l2 ->
  (forall e, e ∈ l1 -> 0 < cmp k (fst e)) -> (forall e, e ∈ l2 -> cmp k (fst e) < 0) ->
  exists r, find_loop fuel t k (ptr T) = Some r /\ found (inorder (plug path T)) (l1 ++ l ++ l2) r.
Proof.
  revert fuel path l1 l l2. induction T as [|x IHx a c' y IHy]; intros fuel path l1 l l2 Hf Hs H1 H2.
  - exists None. split; [by destruct fuel|]. pose proof (se_inside _ _ _ _ _ Hs) as Hn. inversion Hn; subst.
    intros e. rewrite elem_of_app. intros [He|He]; [specialize (H1 e He)|specialize (H2 e He)]; lia.
  - destruct fuel as [|fuel]; simpl in Hf; [lia|].
    destruct (search_node _ _ _ _ _ a Hs eq_refl) as
      (x' & c1 & y' & lx & e & ly & n & [= <- <- <-] & -> & Hn & Hl & Hr & Hk & Hlen & Hsx & Hsy & Hbx & Hby).
    cbn [find_loop ptr is_null]. rewrite Hn. cbn [mbind option_bind]. rewrite Hk. cbn [mbind option_bind].
    rewrite compare_defined by done. cbn [mbind option_bind].
    destruct (_ =? 0) eqn:H0; destruct_bools; [|destruct (_ <? 0) eqn:Hlt; destruct_bools].
    + exists (Some a). split; [done|]. exists (l1 ++ lx), e, (ly ++ l2). rewrite <- !app_assoc.
      split_and!; [done| |done]. symmetry. by apply (search_stands _ _ _ _ _ _ _ _ _ Hs).
    + rewrite Hl. destruct (IHx fuel _ _ _ _ ltac:(lia) Hsx H1) as (r & Er & Hfound); [|by exists r; rewrite <- !app_assoc].
      intros e'. rewrite elem_of_cons, elem_of_app. intros [->|[He|He]]; [done| |by apply H2].
      eapply (cmp_after cmp); [by apply Hby|done].
    + rewrite Hr. destruct (IHy fuel _ _ _ _ ltac:(lia) Hsy) as (r & Er & Hfound); [|done|].
      * intros e'. rewrite !elem_of_app, list_elem_of_singleton. intros [He|[He| ->]]; [by apply H1| |lia].
        apply (cmp_flip cmp). eapply (cmp_before_lt cmp); [by apply Hbx|]. apply (cmp_flip cmp). lia.
      * exists r. split; [done|]. by rewrite <- !app_assoc in *.
Qed.

(** ** Bounds *)

Lemma bound_loop_spec (passes : Z -> bool) fuel path T l1 l l2 :
  (forall a b, precedes cmp dup a b -> passes (cmp b k) = true -> passes (cmp a k) = true) ->
  (height T <= fuel)%nat -> search path T l1 l l2 ->
  (forall e, e ∈ l1 -> passes (cmp (fst e) k) = true) -> (forall e, e ∈ l2 -> passes (cmp (fst e) k) = false) ->
  exists r lo hi, bound_loop passes fuel t k (ptr T) (first (after path) None) = Some r /\
    l1 ++ l ++ l2 = lo ++ hi /\ stands_at (inorder (plug path T)) r lo hi /\
    (forall e, e ∈ lo -> passes (cmp (fst e) k) = true) /\ (forall e, e ∈ hi -> passes (cmp (fst e) k) = false).
Proof.
  intros Hmono. revert fuel path l1 l l2.
  induction T as [|x IHx a c' y IHy]; intros fuel path l1 l l2 Hf Hs H1 H2.
  - exists (first (after path) None), l1, l2. split; [by destruct fuel|].
    pose proof (se_inside _ _ _ _ _ Hs) as Hn. inversion Hn; subst. split_and!; try done.
    unfold stands_at. rewrite inorder_plug. cbn [inorder app]. pose proof (search_length _ _ _ _ _ Hs).
    rewrite lookup_app_r by lia. replace (length l1 - length (before path))%nat with 0%nat by lia. by destruct (after path).
  - destruct fuel as [|fuel]; simpl in Hf; [lia|].
    destruct (search_node _ _ _ _ _ a Hs eq_refl) as
      (x' & c1 & y' & lx & e & ly & n & [= <- <- <-] & -> & Hn & Hl & Hr & Hk & Hlen & Hsx & Hsy & Hbx & Hby).
    cbn [bound_loop ptr is_null]. rewrite Hn. cbn [mbind option_bind]. rewrite Hk. cbn [mbind option_bind].
    rewrite compare_defined by done. cbn [mbind option_bind]. destruct (passes _) eqn:Hp.
    + rewrite Hr. destruct (IHy fuel _ _ _ _ ltac:(lia) Hsy) as (r & lo & hi & Er & El & Hst & Hlo & Hhi); [|done|].
      * intros e'. rewrite !elem_of_app, list_elem_of_singleton. intros [He|[He| ->]]; [by apply H1| |done].
        eapply Hmono; [by apply Hbx|done].
      * exists r, lo, hi. split_and!; try done. rewrite <- El, <- !app_assoc. done.
    + rewrite Hl. destruct (IHx fuel _ _ _ _ ltac:(lia) Hsx H1) as (r & lo & hi & Er & El & Hst & Hlo & Hhi).
      * intros e'. rewrite elem_of_cons, elem_of_app. intros [->|[He|He]]; [done| |by apply H2].
        apply not_true_is_false. intros Ht. specialize (Hmono _ _ (Hby e' He) Ht). congruence.
      * exists r, lo, hi. split_and!; try done. rewrite <- El, <- !app_assoc. done.
Qed.

(** ** The place of a new key *)

Lemma put_descend_spec fuel path T l1 l l2 comparison :
  (height T <= fuel)%nat -> search path T l1 l l2 -> place_of path comparison -> (path = [] -> comparison = 0) ->
  (forall e, e ∈ l1 -> 0 < cmp k (fst e) \/ (dup = true /\ cmp k (fst e) = 0)) ->
  (forall e, e ∈ l2 -> cmp k (fst e) < 0) ->
  exists place, put_descend fuel t k (ptr T) (up path) comparison = Some place /\
    match place with
    | PutOver r =>
        dup = false /\ exists lo e hi, l1 ++ l ++ l2 = lo ++ e :: hi /\ r = inorder (plug path T) !! length lo /\
          cmp k (fst e) = 0 /\ (forall e', e' ∈ lo -> 0 < cmp k (fst e'))
    | PutUnder parent last_comparison =>
        exists path' lo hi, plug path' Leaf = plug path T /\ parent = up path' /\
          place_of path' last_comparison /\ (path' = [] -> last_comparison = 0) /\
          l1 ++ l ++ l2 = lo ++ hi /\ entries (rb_nodes t) (before path') lo /\ entries (rb_nodes t) (after path') hi /\
          (forall e, e ∈ lo -> 0 < cmp k (fst e) \/ (dup = true /\ cmp k (fst e) = 0)) /\
          (forall e, e ∈ hi -> cmp k (fst e) < 0)
    end.
Proof.
  revert fuel path l1 l l2 comparison.
  induction T as [|x IHx a c' y IHy]; intros fuel path l1 l l2 comparison Hf Hs Hp Hp0 H1 H2.
  - exists (PutUnder (up path) comparison). split; [by destruct fuel|].
    pose proof (se_inside _ _ _ _ _ Hs) as Hn. inversion Hn; subst.
    exists path, l1, l2. split_and!; try done; apply Hs.
  - destruct fuel as [|fuel]; simpl in Hf; [lia|].
    destruct (search_node _ _ _ _ _ a Hs eq_refl) as
      (x' & c1 & y' & lx & e & ly & n & [= <- <- <-] & -> & Hn & Hl & Hr & Hk & Hlen & Hsx & Hsy & Hbx & Hby).
    cbn [put_descend ptr is_null]. rewrite Hn. cbn [mbind option_bind]. rewrite Hk. cbn [mbind option_bind].
    rewrite compare_defined by done. cbn [mbind option_bind].
    destruct ((cmp k (fst e) =? 0) && negb dup) eqn:H0.
    + apply andb_true_iff in H0 as [H0 Hdup]. apply Z.eqb_eq in H0. apply negb_true_iff in Hdup.
      exists (PutOver (Some a)). split; [done|]. split; [done|].
      exists (l1 ++ lx), e, (ly ++ l2). rewrite <- !app_assoc. split_and!; [done| |done|].
      * symmetry. by apply (search_stands _ _ _ _ _ _ _ _ _ Hs).
      * intros e'. rewrite elem_of_app. intros [He|He]; [destruct (H1 e' He) as [|[? _]]; [done|congruence]|].
        specialize (Hbx e' He). rewrite Hdup in Hbx. unfold precedes in Hbx.
        assert (cmp (fst e') k < 0) as Hlt; [|by apply (cmp_flip cmp)].
        pose proof (cmp_zero cmp _ _ H0) as H0'. destruct (Z.le_gt_cases 0 (cmp (fst e') k)) as [Hge|]; [|done].
        assert (cmp k (fst e') <= 0) as Hk' by (pose proof (cmp_flip cmp (fst e') k); lia).
        pose proof (cmp_trans cmp _ _ _ (Z.eq_le_incl _ _ H0') Hk'). pose proof (cmp_flip cmp (fst e') (fst e)). lia.
    + destruct (_ <? 0) eqn:Hlt; destruct_bools.
      * rewrite Hl. destruct (IHx fuel _ _ _ _ (cmp k (fst e)) ltac:(lia) Hsx) as (place & Ed & Hplace); try done.
        -- simpl. by rewrite (proj2 (Z.ltb_lt _ _)).
        -- intros e'. rewrite elem_of_cons, elem_of_app. intros [->|[He|He]]; [done| |by apply H2].
           eapply (cmp_after cmp); [by apply Hby|done].
        -- exists place. split; [exact Ed|]. destruct place; by rewrite <- !app_assoc in *.
      * rewrite Hr. destruct (IHy fuel _ _ _ _ (cmp k (fst e)) ltac:(lia) Hsy) as (place & Ed & Hplace); try done.
        -- simpl. by rewrite (proj2 (Z.ltb_ge _ _)).
        -- assert (forall e', e' ∈ lx ++ [e] -> 0 < cmp k (fst e') \/ (dup = true /\ cmp k (fst e') = 0)) as Hx.
           { intros e'. rewrite elem_of_app, list_elem_of_singleton. intros [He| ->].
             - destruct (Z.eq_dec (cmp k (fst e)) 0) as [Hz|Hz].
               + rewrite Hz in H0. simpl in H0. apply negb_false_iff in H0.
                 assert (cmp (fst e') k <= 0) by (eapply (cmp_before cmp); [by apply Hbx|]; by rewrite (cmp_zero cmp k)).
                 pose proof (cmp_flip cmp (fst e') k). pose proof (cmp_flip cmp k (fst e')).
                 destruct (Z.eq_dec (cmp k (fst e')) 0); [by right|left; lia].
               + left. apply (cmp_flip cmp). eapply (cmp_before_lt cmp); [by apply Hbx|]. apply (cmp_flip cmp). lia.
             - destruct (Z.eq_dec (cmp k (fst e)) 0) as [Hz|Hz]; [|left; lia].
               rewrite Hz in H0. simpl in H0. apply negb_false_iff in H0. by right. }
           intros e'. rewrite elem_of_app. intros [He|He]; [by apply H1|by apply Hx].
        -- exists place. split; [exact Ed|]. destruct place; by rewrite <- !app_assoc in *.
Qed.

End Tree.

End Search.

Section Ops.
Context {V U : Type} `{HV : ObjectTraits V U} `{!TraitLaws V U}.
Implicit Types w : object_world U.
Implicit Types t : rbtree_t V.
Implicit Types l : list (V * V).
Implicit Types c : rbtree_config.

(** * The invariant *)

(** A tree that is balanced, whose list runs through its [nodes] in order, and whose nodes
    hold the entries [l] in the order of their keys.  There are no other nodes. *)
Record rbtree_inv t (nodes : list addr) l : Prop := {
  ri_config : rbtree_config_ok (rb_config t);
  ri_size : rb_size t = Z.of_nat (length l);
  ri_limit : Z.of_nat (length l) <= rc_element_limit (rb_config t);
  ri_ordered : ordered (the_compare (rb_config t)) (rc_allow_duplicates (rb_config t)) l;
  ri_shape : exists T, rooted t T /\ balanced T /\ inorder T = nodes;
  ri_threaded : threaded t nodes;
  ri_entries : entries (rb_nodes t) nodes l;
  ri_store : size (rb_nodes t) = length l;
}.

(** A tree is a block, and each of its nodes three. *)
Definition tree_blocks l : Z := 1 + 3 * Z.of_nat (length l).
Definition tree_objects c l : Z :=
  Z.of_nat (length l) * (typed (rc_key_type c) + typed (rc_value_type c)).

Lemma key_supports c flags :
  rbtree_config_ok c -> flags <> 0 -> Z.land key_traits flags = flags -> supports (rc_key_type c) flags.
Proof.
  intros [_ _ _ _ _ Hk _ _] Hf Hsub. destruct (rc_key_type c) as [type|]; [|done].
  by apply (require_traits_sub type key_traits).
Qed.

Lemma value_supports c flags :
  rbtree_config_ok c -> flags <> 0 -> Z.land element_traits flags = flags -> supports (rc_value_type c) flags.
Proof.
  intros [_ _ _ _ _ _ _ Hv] Hf Hsub. destruct (rc_value_type c) as [type|]; [|done].
  by apply (require_traits_sub type element_traits).
Qed.

(** * Objects *)

Lemma copy_object_spec type stride alignment v w :
  supports type CMETA_TRAIT_COPY -> 0 < stride <= SIZE_MAX -> is_size alignment ->
  sequence_alignment_valid alignment = true ->
  wp (rbtree_copy_object type stride alignment (Some v)) (fun r w' =>
    (exists b, r = StlOk (b, Live v) /\ delta w w' 1 (typed type)) \/
    (exists status, r = StlFail status /\ no_room status /\ delta w w' 0 0)) w.
Proof.
  intros Hs Hst Ha Hv. unfold rbtree_copy_object.
  eapply wp_bind_mono; [apply allocate_spec; try done; unfold SIZE_MAX; lia|].
  intros [data|status] w1; [intros [[b ->] H1]|intros [Hn H1]; apply wp_ret; right; by exists status].
  eapply wp_bind, wp_reading; [done|].
  eapply wp_bind_mono; [by apply sequence_copy_spec|]. intros r w2 [[-> H2]|[-> H2]].
  - apply wp_ret. left. exists b. split; [done|]. solve_delta.
  - rewrite bool_decide_false by done. eapply wp_bind_mono; [apply deallocate_spec|]. intros ? w3 H3.
    apply wp_ret. right. eexists. split_and!; [done|by left|solve_delta].
Qed.

Lemma destroy_object_spec type b v w :
  supports type CMETA_TRAIT_DESTROY ->
  wp (rbtree_destroy_object type (Some (b, Live v))) (fun _ w' => delta w w' (-1) (- typed type)) w.
Proof.
  intros Hs. eapply wp_bind_mono; [apply sequence_destroy_value_spec; [done|by left]|]. intros ? w1 [_ H1].
  eapply wp_mono; [apply deallocate_spec|]. intros ? w2 H2. solve_delta.
Qed.

(** A node that was not linked yet. *)
Definition loose_node bk k bv v : rbtree_node V :=
  mk_node None None None None None (Some (bk, Live k)) (Some (bv, Live v)) true.

Lemma node_create_spec c k v w :
  rbtree_config_ok c ->
  wp (rbtree_node_create c (Some k) (Some v)) (fun r w' =>
    (exists bk bv, r = StlOk (loose_node bk k bv v) /\
       delta w w' 3 (typed (rc_key_type c) + typed (rc_value_type c))) \/
    (exists status, r = StlFail status /\ no_room status /\ delta w w' 0 0)) w.
Proof.
  intros Hc. destruct (rk_key_align _ Hc) as [Hka Hkv], (rk_value_align _ Hc) as [Hva Hvv].
  unfold rbtree_node_create. eapply wp_bind_mono; [apply malloc_spec|]. intros [a|] w1 H1; simpl in H1.
  2: { apply wp_ret. right. eexists. split_and!; [done|by left|done]. }
  eapply wp_bind_mono; [apply copy_object_spec; try done; [by apply key_supports|apply Hc]|].
  intros r w2 [(bk & -> & H2)|(status & -> & Hn & H2)].
  2: { eapply wp_bind_mono; [apply free_spec|]. intros ? w3 H3. apply wp_ret. right. exists status.
       split_and!; [done|done|solve_delta]. }
  eapply wp_bind_mono; [apply copy_object_spec; try done; [by apply value_supports|apply Hc]|].
  intros r w3 [(bv & -> & H3)|(status & -> & Hn & H3)].
  - apply wp_ret. left. exists bk, bv. split; [done|]. solve_delta.
  - eapply wp_bind_mono; [apply destroy_object_spec; by apply key_supports|]. intros ? w4 H4.
    eapply wp_bind_mono; [apply free_spec|]. intros ? w5 H5. apply wp_ret. right. exists status.
    split_and!; [done|done|solve_delta].
Qed.

Lemma unused_address_spec (nodes : gmap addr (rbtree_node V)) : nodes !! unused_address nodes = None.
Proof.
  destruct (nodes !! unused_address nodes) as [n|] eqn:E; [exfalso|done].
  assert (forall a m, nodes !! a = Some m -> a <= map_fold (fun a _ top => Z.max a top) 0 nodes) as H.
  { clear. apply (map_fold_weak_ind (fun top (nodes : gmap addr (rbtree_node V)) =>
      forall a m, nodes !! a = Some m -> a <= top)); [done|].
    intros i x m r Hi IH a n. destruct (decide (a = i)) as [->|Hne]; [lia|].
    rewrite lookup_insert_ne by done. intros Ha. specialize (IH a n Ha). lia. }
  specialize (H _ _ E). unfold unused_address in H. lia.
Qed.

(** * Creation *)

Lemma rbtree_create_spec key_type value_type key_size key_align value_size value_align limit compare ctx dup w :
  is_size key_size -> is_size key_align -> is_size value_size -> is_size value_align -> is_size limit ->
  supports key_type key_traits -> supports value_type element_traits ->
  wp (rbtree_create key_type value_type key_size key_align value_size value_align limit compare ctx dup)
    (fun r w' =>
      (exists t, r = StlOk t /\ rbtree_inv t [] [] /\ delta w w' 1 0 /\
         rc_key_type (rb_config t) = key_type /\ rc_value_type (rb_config t) = value_type /\
         rc_element_limit (rb_config t) = limit /\ rc_compare (rb_config t) = compare /\
         rc_compare_context (rb_config t) = ctx /\ rc_allow_duplicates (rb_config t) = dup) \/
      (exists status, r = StlFail status /\ status <> STL_OK /\ delta w w' 0 0)) w.
Proof.
  intros Hks Hka Hvs Hva Hl Hk Hv. unfold rbtree_create.
  assert (forall status w', status <> STL_OK -> delta w w' 0 0 ->
    (exists s, @StlFail (rbtree_t V) status = StlFail s /\ s <> STL_OK /\ delta w w' 0 0)) as Hfail by (intros; by eexists).
  destruct (_ || _) eqn:Hg; [apply wp_ret; right; apply Hfail; [done|apply delta_refl]|].
  apply orb_false_iff in Hg as [_ Hg].
  pose proof (sequence_stride_spec key_size key_align Hks Hka) as Sk.
  destruct (sequence_stride key_size key_align) as [ks|status];
    [|apply wp_ret; right; apply Hfail; [destruct Sk as [[-> _]|[-> _]]; done|apply delta_refl]].
  pose proof (sequence_stride_spec value_size value_align Hvs Hva) as Sv.
  destruct (sequence_stride value_size value_align) as [vs|status];
    [|apply wp_ret; right; apply Hfail; [destruct Sv as [[-> _]|[-> _]]; done|apply delta_refl]].
  eapply wp_bind_mono; [apply malloc_spec|]. intros [a|] w1 H1; simpl in H1.
  2: { apply wp_ret. right. by apply Hfail. }
  apply wp_ret. left. eexists. split_and!; [done| |done|done..]. split; cbn [rb_config rb_size length].
  - split; simpl; try done; [lia|lia|tauto|tauto|].
    intros ->. simpl in Hg. by apply is_null_false.
  - done.
  - simpl. unfold is_size in Hl. lia.
  - done.
  - exists Leaf. split_and!; [split; [done|done|constructor]|exists 0%nat; constructor|done].
  - by split.
  - constructor.
  - apply map_size_empty.
Qed.

(** * Heights *)

Lemma rb_tree_height cl n T :
  rb_tree cl n T -> (height T <= 2 * n + if cl then 1 else 0)%nat /\ (2 ^ n <= S (length (inorder T)))%nat.
Proof.
  induction 1 as [|n l a r _ [IHl IHl'] _ [IHr IHr']|cl cr n l a r _ [IHl IHl'] _ [IHr IHr']]; simpl;
    rewrite ?length_app; simpl; [lia|lia|]. destruct cl, cr; lia.
Qed.

(** The height is at most twice the logarithm of the number of nodes. *)
Lemma balanced_height T : balanced T -> (height T <= 2 * Nat.log2 (S (length (inorder T))))%nat.
Proof.
  intros [n Hn]. destruct (rb_tree_height _ _ _ Hn) as [Hh Hp].
  apply Nat.log2_le_mono in Hp. rewrite Nat.log2_pow2 in Hp by lia. lia.
Qed.

Lemma height_nodes T : (height T <= length (inorder T))%nat.
Proof. induction T as [|l IHl a c r IHr]; simpl; [lia|]. rewrite length_app. simpl. lia. Qed.

Lemma inv_length t nodes l : rbtree_inv t nodes l -> length nodes = length l.
Proof. intros Hi. by apply ri_entries, Forall2_length in Hi. Qed.

Lemma inv_distinct t nodes l : rbtree_inv t nodes l -> NoDup nodes.
Proof. intros Hi. destruct (ri_shape _ _ _ Hi) as (T & Hr & _ & <-). apply Hr. Qed.

(** * Searching *)

Lemma inv_search t nodes l :
  rbtree_inv t nodes l -> exists T, inorder T = nodes /\ rb_root t = ptr T /\ rooted t T /\ balanced T /\
    search t [] T [] l [] /\ (height T <= enough t)%nat.
Proof.
  intros Hi. destruct (ri_shape _ _ _ Hi) as (T & Hr & Hb & <-). exists T.
  split_and!; [done|apply Hr|done|done| |].
  - split; simpl; [done|constructor|apply Hi|constructor|]. rewrite app_nil_r. apply Hi.
  - unfold enough. rewrite (ri_store _ _ _ Hi), <- (inv_length _ _ _ Hi). pose proof (height_nodes T). lia.
Qed.

#[local] Abbreviation CmpLaws t := (CompareLaws (the_compare (rb_config t))).
#[local] Abbreviation cmp t := (the_compare (rb_config t)).

Lemma rbtree_find_spec t nodes l k :
  rbtree_inv t nodes l -> CmpLaws t ->
  exists r, rbtree_find (Some t) (Some k) = Some r /\ found t k nodes l r.
Proof.
  intros Hi Hlaws. destruct (inv_search _ _ _ Hi) as (T & <- & Er & Hr & Hb & Hs & Hf).
  destruct (find_loop_spec t k (ri_config _ _ _ Hi) (enough t) [] T [] l [] Hf Hs) as (r & E & Hfound); [set_solver..|].
  exists r. simpl in Hfound. rewrite app_nil_r in Hfound. unfold rbtree_find. by rewrite Er.
Qed.

(** Where a bound stands: behind the entries it passes by. *)
Definition bound_at t k (passes : Z -> bool) (nodes : list addr) l (r : option addr) : Prop :=
  exists lo hi, l = lo ++ hi /\ stands_at nodes r lo hi /\
    (forall e, e ∈ lo -> passes (cmp t (fst e) k) = true) /\ (forall e, e ∈ hi -> passes (cmp t (fst e) k) = false).

Lemma bound_spec t nodes l k passes :
  rbtree_inv t nodes l -> CmpLaws t ->
  (forall dup a b, precedes (cmp t) dup a b -> passes (cmp t b k) = true -> passes (cmp t a k) = true) ->
  exists r, bound_loop passes (enough t) t k (rb_root t) None = Some r /\ bound_at t k passes nodes l r.
Proof.
  intros Hi Hlaws Hmono. destruct (inv_search _ _ _ Hi) as (T & <- & -> & Hr & Hb & Hs & Hf).
  destruct (bound_loop_spec t k (ri_config _ _ _ Hi) passes (enough t) [] T [] l [] (Hmono _) Hf Hs)
    as (r & lo & hi & E & El & Hst & Hlo & Hhi); [set_solver..|].
  exists r. split; [done|]. simpl in El. rewrite app_nil_r in El. by exists lo, hi.
Qed.

Lemma rbtree_lower_bound_spec t nodes l k :
  rbtree_inv t nodes l -> CmpLaws t ->
  exists r, rbtree_lower_bound (Some t) (Some k) = Some r /\
    bound_at t k (fun comparison => comparison <? 0) nodes l r.
Proof.
  intros Hi Hlaws. apply bound_spec; [done|done|]. intros dup a b Hab. rewrite !Z.ltb_lt.
  by eapply (cmp_before_lt (cmp t)).
Qed.

Lemma rbtree_upper_bound_spec t nodes l k :
  rbtree_inv t nodes l -> CmpLaws t ->
  exists r, rbtree_upper_bound (Some t) (Some k) = Some r /\
    bound_at t k (fun comparison => comparison <=? 0) nodes l r.
Proof.
  intros Hi Hlaws. apply bound_spec; [done|done|]. intros dup a b Hab. rewrite !Z.leb_le.
  by eapply (cmp_before (cmp t)).
Qed.

(** * Clearing *)

Lemma clear_nodes_spec fuel t start nodes l w :
  rbtree_config_ok (rb_config t) -> (length nodes <= fuel)%nat -> NoDup nodes ->
  chain (rb_nodes t) start nodes None -> entries (rb_nodes t) nodes l ->
  wp (clear_nodes fuel t (first nodes None)) (fun t' w' =>
    rb_config t' = rb_config t /\ (size (rb_nodes t') + length nodes)%nat = size (rb_nodes t) /\
    delta w w' (- (3 * Z.of_nat (length l))) (- tree_objects (rb_config t) l)) w.
Proof.
  revert t start l nodes w. induction fuel as [|fuel IH]; intros t start l nodes w Hc Hf Hd Hch He.
  { destruct nodes; [|simpl in Hf; lia]. inversion He; subst. apply wp_ret. split_and!; [done|simpl; lia|].
    unfold tree_objects. simpl. apply delta_refl. }
  destruct nodes as [|a nodes]; inversion He as [|? e ? l' (n & bk & bv & Hn & Hk & Hv) He']; subst.
  { apply wp_ret. split_and!; [done|simpl; lia|]. unfold tree_objects. simpl. apply delta_refl. }
  apply NoDup_cons in Hd as [Ha Hd]. destruct Hch as [(n' & Hn' & _ & Hnext) Hch].
  rewrite Hn in Hn'. injection Hn' as <-. cbn [clear_nodes first].
  eapply wp_bind, wp_reading; [exact Hn|]. rewrite Hk, Hv.
  eapply wp_bind_mono; [apply destroy_object_spec; by apply key_supports|]. intros ? w1 H1.
  eapply wp_bind_mono; [apply destroy_object_spec; by apply value_supports|]. intros ? w2 H2.
  eapply wp_bind_mono; [apply free_spec|]. intros ? w3 H3. rewrite Hnext.
  assert (forall q, q ∈ nodes -> delete a (rb_nodes t) !! q = rb_nodes t !! q) as Hq
    by (intros q Hin; apply lookup_delete_ne; by intros ->).
  eapply wp_mono; [apply (IH (set_nodes (delete a (rb_nodes t)) t) (Some a) l' nodes)|].
  - done.
  - simpl in Hf. lia.
  - done.
  - eapply chain_frame; [exact Hq|done].
  - eapply entries_frame; [exact Hq|done].
  - intros t' w4 (Hcfg & Hsz & H4). split_and!; [done| |].
    + simpl in Hsz. assert (size (rb_nodes t) <> 0)%nat by (by eapply map_size_ne_0_lookup_2).
      rewrite map_size_delete_Some in Hsz by eauto. simpl. lia.
    + unfold tree_objects in *. cbn [length] in *. cbn [rb_config set_nodes] in H4. solve_delta.
Qed.

Lemma rbtree_clear_spec t nodes l w :
  rbtree_inv t nodes l ->
  wp (rbtree_clear (Some t)) (fun r w' => exists t', r = Some t' /\ rbtree_inv t' [] [] /\
    rb_config t' = rb_config t /\
    delta w w' (- (3 * Z.of_nat (length l))) (- tree_objects (rb_config t) l)) w.
Proof.
  intros Hi. unfold rbtree_clear. rewrite (th_head _ _ (ri_threaded _ _ _ Hi)).
  eapply wp_bind_mono.
  { apply (clear_nodes_spec (enough t) t None nodes l); try apply Hi; [|by eapply inv_distinct].
    unfold enough. rewrite (ri_store _ _ _ Hi), (inv_length _ _ _ Hi). lia. }
  intros t' w' (Hcfg & Hsz & Hd). apply wp_ret.
  exists (set_rb_size 0 (set_tail None (set_head None (set_root None t')))). split_and!; [done| |done|done].
  rewrite (ri_store _ _ _ Hi), (inv_length _ _ _ Hi) in Hsz.
  split; cbn [rb_config set_rb_size set_tail set_head set_root]; rewrite ?Hcfg; try done; try apply Hi.
  - exists Leaf. split_and!; [split; [done|done|constructor]|exists 0%nat; constructor|done].
  - constructor.
  - simpl. lia.
Qed.

Lemma rbtree_destroy_spec t nodes l w :
  rbtree_inv t nodes l ->
  wp (rbtree_destroy (Some t)) (fun _ w' => delta w w' (- tree_blocks l) (- tree_objects (rb_config t) l)) w.
Proof.
  intros Hi. eapply wp_bind_mono; [by eapply rbtree_clear_spec|]. intros ? w1 (t' & -> & _ & _ & H1).
  eapply wp_mono; [apply free_spec|]. intros ? w2 H2. unfold tree_blocks. solve_delta.
Qed.

(** * Insertion *)

Lemma length_assoc_put c k v l :
  length (assoc_put (the_compare c) (rc_allow_duplicates c) k v l) = length l \/
  length (assoc_put (the_compare c) (rc_allow_duplicates c) k v l) = S (length l).
Proof.
  induction l as [|[k' v'] l IH]; simpl; [by right|]. destruct (_ <? 0); [by right|].
  destruct (_ && _); [by left|]. simpl. destruct IH as [->| ->]; auto.
Qed.

(** A tree that gained an entry, with the nodes it had. *)
Definition rbtree_changed t nodes t' nodes' l' : Prop :=
  rbtree_inv t' nodes' l' /\ rb_config t' = rb_config t /\ nodes `sublist_of` nodes'.

Lemma replace_value_spec t nodes lo k v v' hi a w :
  rbtree_inv t nodes (lo ++ (k, v) :: hi) -> nodes !! length lo = Some a ->
  wp (replace_value t (Some a) (Some v')) (fun r w' =>
    (exists t', r = (StlOk RBTREE_REPLACED, t') /\
       rbtree_changed t nodes t' nodes (lo ++ (k, v') :: hi) /\ delta w w' 0 0) \/
    (exists status, r = (StlFail status, t) /\ no_room status /\ delta w w' 0 0)) w.
Proof.
  intros Hi Ha. pose proof (ri_config _ _ _ Hi) as Hc. pose proof (ri_entries _ _ _ Hi) as He.
  destruct (rk_value_align _ Hc) as [Hva Hvv]. unfold replace_value.
  eapply wp_bind_mono; [apply copy_object_spec; try done; [by apply value_supports|apply Hc]|].
  intros r w1 [(b & -> & H1)|(status & -> & Hn & H1)]; [|apply wp_ret; right; by exists status].
  apply take_drop_middle in Ha as Hnodes. unfold entries in He. rewrite <- Hnodes in He.
  assert (length (take (length lo) nodes) = length lo) as Hlo
    by (rewrite length_take; apply lookup_lt_Some in Ha; lia).
  apply Forall2_app_inv in He as [He1 He2]; [|done]. inversion He2 as [|? ? ? ? (n & bk & bv & Hn & Hk & Hv) He3]; subst.
  eapply wp_bind, wp_reading; [exact Hn|]. rewrite Hv.
  eapply wp_bind_mono; [apply destroy_object_spec; by apply value_supports|]. intros ? w2 H2.
  eapply wp_bind, wp_reading; [by apply write_modify|]. apply wp_ret. left. eexists. split; [done|].
  split; [|solve_delta]. split_and!; [|done|done]. pose proof (inv_distinct _ _ _ Hi) as Hd.
  destruct Hi as [_ Hs Hl Ho (T & Hr & Hb & HT) Hth _ Hst].
  rewrite length_app in Hs, Hl, Hst. cbn [length] in Hs, Hl, Hst.
  split; rewrite ?length_app; cbn [length]; try done.
  - by eapply ordered_value.
  - exists T. split_and!; [by apply rooted_value|done|done].
  - by apply threaded_value.
  - rewrite <- Hnodes in Hd |- *. apply NoDup_app in Hd as (_ & Hd1 & [Hd2 _]%NoDup_cons).
    apply Forall2_app; [|constructor].
    + eapply entries_frame; [|exact He1]. intros q Hq. apply lookup_alter_ne. intros ->.
      by apply (Hd1 q Hq), list_elem_of_here.
    + exists (set_value (Some (b, Live v')) n), bk, b. cbn [rb_nodes modify set_nodes]. by rewrite lookup_alter_eq, Hn.
    + eapply entries_frame; [|exact He3]. intros q Hq. apply lookup_alter_ne. by intros ->.
  - cbn [rb_nodes modify set_nodes]. rewrite <- (size_dom (D := gset addr)), dom_alter_L, size_dom. done.
Qed.

(** A node was stored and linked at its place. *)
Lemma insert_links_spec t a bk k bv v path T comparison :
  rooted t T -> balanced T -> threaded t (inorder T) -> plug path Leaf = T -> rb_nodes t !! a = None ->
  place_of path comparison -> (path = [] -> comparison = 0) ->
  let t1 := set_nodes (<[a := loose_node bk k bv v]> (rb_nodes t)) t in
  exists t2 t3 T', link_node t1 (Some a) (up path) comparison = Some t2 /\
    rbtree_insert_fix t2 (Some a) = Some t3 /\ rooted t3 T' /\ balanced T' /\
    inorder T' = before path ++ a :: after path /\ threaded t3 (inorder T') /\ same_objects t1 t3.
Proof.
  intros Hr Hb Ht HT Ha Hp H0 t1. subst T.
  assert (a ∉ inorder (plug path Leaf)) as Hin.
  { intros Hin. destruct (rep_present _ _ _ _ (rt_rep _ _ Hr) Hin) as [? E]. congruence. }
  assert (forall q, q ∈ inorder (plug path Leaf) -> rb_nodes t1 !! q = rb_nodes t !! q) as Hq
    by (intros q Hq; apply lookup_insert_ne; by intros ->).
  destruct (link_spec t1 path a comparison) as (t2 & E2 & Hr2 & Ht2 & S2).
  - by eapply rooted_frame.
  - done.
  - eexists. split; [apply lookup_insert_eq|done].
  - eexists. split; [apply lookup_insert_eq|done].
  - by eapply threaded_frame.
  - done.
  - done.
  - destruct (plug_balanced_inv _ _ Hb) as (b & c & n & HL & Hpath & _). inversion HL; subst.
    destruct (insert_fix_spec t2 path (Node Leaf a true Leaf) 0 b Hr2) as (t3 & T3 & E3 & (Hr3 & HI3 & S3) & Hb3);
      [by repeat constructor|done|].
    exists t2, t3, T3. rewrite inorder_plug in HI3. split_and!; try done.
    + rewrite HI3. rewrite inorder_plug in Ht2. by eapply threaded_data.
    + by rewrite S2, (same_data_objects _ _ S3).
Qed.

Lemma insert_node_spec t T k v path comparison lo hi w :
  let c := rb_config t in
  rbtree_inv t (inorder T) (lo ++ hi) -> rooted t T -> balanced T -> CmpLaws t -> plug path Leaf = T ->
  place_of path comparison -> (path = [] -> comparison = 0) ->
  entries (rb_nodes t) (before path) lo -> entries (rb_nodes t) (after path) hi ->
  (forall e, e ∈ lo -> 0 < cmp t k (fst e) \/ (rc_allow_duplicates c = true /\ cmp t k (fst e) = 0)) ->
  (forall e, e ∈ hi -> cmp t k (fst e) < 0) ->
  wp (insert_node t (Some k) (Some v) (up path) comparison) (fun r w' =>
    (exists t' nodes', r = (StlOk RBTREE_INSERTED, t') /\
       rbtree_changed t (inorder T) t' nodes' (lo ++ (k, v) :: hi) /\
       Z.of_nat (length (lo ++ (k, v) :: hi)) <= rc_element_limit c /\
       delta w w' 3 (typed (rc_key_type c) + typed (rc_value_type c))) \/
    (exists status, r = (StlFail status, t) /\ no_room status /\
       (rc_element_limit c < Z.of_nat (length (lo ++ (k, v) :: hi)) -> status = STL_CAPACITY_EXCEEDED) /\
       delta w w' 0 0)) w.
Proof.
  intros c Hi Hr Hb Hlaws HT Hp H0 Hlo Hhi H1 H2. unfold insert_node. fold c.
  assert (length (lo ++ (k, v) :: hi) = S (length (lo ++ hi))) as Hlen by (rewrite !length_app; simpl; lia).
  rewrite (ri_size _ _ _ Hi). destruct (_ <=? _) eqn:Hfull; destruct_bools.
  { apply wp_ret. right. eexists. split_and!; [done|by right|done|apply delta_refl]. }
  pose proof (rk_limit _ (ri_config _ _ _ Hi)) as Hlim. fold c in Hlim. unfold is_size in Hlim.
  eapply wp_bind_mono; [apply node_create_spec, (ri_config _ _ _ Hi)|].
  intros r w1 [(bk & bv & -> & H3)|(status & -> & Hn & H3)].
  2: { apply wp_ret. right. exists status. split_and!; [done|done|lia|done]. }
  set (a := unused_address (rb_nodes t)).
  assert (rb_nodes t !! a = None) as Ha by apply unused_address_spec.
  pose proof (ri_threaded _ _ _ Hi) as Ht.
  destruct (insert_links_spec t a bk k bv v path T comparison Hr Hb Ht HT Ha Hp H0)
    as (t2 & t3 & T3 & E2 & E3 & Hr3 & Hb3 & HI3 & Ht3 & [So Ss Sc]).
  eapply wp_bind, wp_reading; [exact E2|]. eapply wp_bind, wp_reading; [exact E3|]. apply wp_ret. left.
  exists (set_rb_size (size_inc (rb_size t3)) t3), (inorder T3). cbn [rb_size set_nodes rb_config] in Ss, Sc.
  assert (forall q, q <> a -> (<[a:=loose_node bk k bv v]> (rb_nodes t)) !! q = rb_nodes t !! q) as Hq
    by (intros q Hq; by apply lookup_insert_ne).
  assert (forall q, q ∈ inorder T -> q <> a) as Hne.
  { intros q Hin ->. destruct (rep_present _ _ _ _ (rt_rep _ _ Hr) Hin) as [? E]. congruence. }
  split; [done|]. split; [|split; [lia|done]]. split; [|split; [exact Sc|]].
  - split; cbn [rb_config rb_size set_rb_size]; rewrite ?Sc, ?Ss.
    + apply Hi.
    + rewrite (ri_size _ _ _ Hi), Hlen, size_inc_small; unfold SIZE_MAX in *; lia.
    + fold c. lia.
    + apply ordered_insert; [done|apply Hi|done|done].
    + exists T3. split_and!; [by destruct Hr3; split|done|done].
    + by destruct Ht3; split.
    + eapply entries_objects; [exact So|]. cbn [rb_nodes set_nodes]. rewrite HI3. rewrite <- HT, inorder_plug in Hne.
      apply Forall2_app; [|constructor].
      * eapply entries_frame; [|exact Hlo]. intros q Hin. apply Hq, Hne. set_solver.
      * eexists _, bk, bv. by rewrite lookup_insert_eq.
      * eapply entries_frame; [|exact Hhi]. intros q Hin. apply Hq, Hne. set_solver.
    + apply (f_equal size) in So. rewrite !map_size_fmap in So. cbn [rb_nodes set_rb_size]. rewrite So. simpl.
      by rewrite map_size_insert_None, (ri_store _ _ _ Hi), Hlen.
  - rewrite HI3, <- HT, inorder_plug. simpl. apply sublist_app; [done|]. by apply sublist_cons.
Qed.

(** What [rbtree_put] may answer for the entries [l]. *)
Definition put_outcome t nodes l k v (r : stl_result rbtree_put_result * option (rbtree_t V)) w w' : Prop :=
  let c := rb_config t in
  let l' := assoc_put (the_compare c) (rc_allow_duplicates c) k v l in
  (exists result t' nodes', r = (StlOk result, Some t') /\ rbtree_changed t nodes t' nodes' l' /\
     Z.of_nat (length l') <= rc_element_limit c /\
     delta w w' (tree_blocks l' - tree_blocks l) (tree_objects c l' - tree_objects c l)) \/
  (exists status, r = (StlFail status, Some t) /\ no_room status /\
     (rc_element_limit c < Z.of_nat (length l') -> status = STL_CAPACITY_EXCEEDED) /\ delta w w' 0 0).

Lemma rbtree_put_spec t nodes l k v w :
  rbtree_inv t nodes l -> CmpLaws t ->
  wp (rbtree_put (Some t) (Some k) (Some v)) (fun r w' => put_outcome t nodes l k v r w w') w.
Proof.
  intros Hi Hlaws. destruct (inv_search _ _ _ Hi) as (T & <- & Er & Hr & Hb & Hs & Hf).
  set (c := rb_config t). unfold rbtree_put. rewrite Er.
  destruct (put_descend_spec t k (ri_config _ _ _ Hi) (enough t) [] T [] l [] 0 Hf Hs) as (place & E & Hplace);
    [done|done|set_solver..|].
  eapply wp_bind, wp_reading; [exact E|]. destruct place as [r|parent comparison].
  - destruct Hplace as (Hdup & lo & [k' v'] & hi & El & Hat & Hk & Hlo). simpl in El, Hat, Hk. rewrite app_nil_r in El.
    subst l. assert (exists a, inorder T !! length lo = Some a) as [a Ha].
    { apply lookup_lt_is_Some_2. rewrite (inv_length _ _ _ Hi), length_app. simpl. lia. }
    rewrite Hat, Ha. unfold put_outcome. fold c. unfold c. rewrite Hdup, assoc_put_over by done.
    assert (length (lo ++ (k', v') :: hi) = length (lo ++ (k', v) :: hi)) as Hlen by (by rewrite !length_app).
    eapply wp_bind_mono; [by eapply replace_value_spec|].
    intros r' w1 [(t' & -> & Hch & H1)|(status & -> & Hn & H1)]; apply wp_ret.
    + left. do 3 eexists. split_and!; [done|exact Hch|rewrite <- Hlen; apply Hi|].
      unfold tree_blocks, tree_objects. rewrite Hlen, !Z.sub_diag. done.
    + right. exists status. split_and!; [done|done| |done]. rewrite <- Hlen. pose proof (ri_limit _ _ _ Hi). lia.
  - destruct Hplace as (path & lo & hi & HT & -> & Hp & Hp0 & El & Hlo & Hhi & H1 & H2).
    simpl in El, HT. rewrite app_nil_r in El. subst l. unfold put_outcome.
    rewrite assoc_put_new by done.
    assert (length (lo ++ (k, v) :: hi) = S (length (lo ++ hi))) as Hlen by (rewrite !length_app; simpl; lia).
    eapply wp_bind_mono; [by eapply (insert_node_spec t T k v path)|].
    intros r' w1 [(t' & nodes' & -> & Hch & Hle & H3)|(status & -> & Hn & Hl & H3)]; apply wp_ret.
    + left. do 3 eexists. split_and!; [done|exact Hch|done|].
      unfold tree_blocks, tree_objects. rewrite Hlen. solve_delta.
    + right. exists status. by split_and!.
Qed.

(** * Removal *)

(** The value goes to the caller, or ends; the node stays. *)
Lemma take_value_spec t a n bv (v : V) (want : bool) w :
  rbtree_config_ok (rb_config t) -> rb_nodes t !! a = Some n -> nd_value n = Some (bv, Live v) ->
  wp (take_value t (Some a) want) (fun r w' => exists left_ : cell V,
    r = (STL_OK, if want then Live v else Raw, modify (set_value (Some (bv, left_))) a t) /\
    delta w w' 0 (if want then 0 else - typed (rc_value_type (rb_config t)))) w.
Proof.
  intros Hc Hn Hv. unfold take_value. eapply wp_bind, wp_reading; [exact Hn|].
  eapply wp_bind, wp_reading; [exact Hv|]. set (e := ended (rc_value_type (rb_config t)) (Live v)).
  eapply wp_bind_mono with (R := fun r w' => r = (STL_OK, if want then Live v else Raw, e) /\
    delta w w' 0 (if want then 0 else - typed (rc_value_type (rb_config t)))).
  - destruct want.
    + eapply wp_bind_mono; [apply sequence_move_destroy_spec; [by apply value_supports|by destruct (rc_value_type _)]|].
      intros ? w1 [-> H1]. by apply wp_ret.
    + eapply wp_bind_mono; [apply sequence_destroy_value_spec; [by apply value_supports|by left]|].
      intros ? w1 [-> H1]. by apply wp_ret.
  - intros ? w1 [-> H1]. eapply wp_bind, wp_reading; [by apply write_modify; rewrite Hn|]. apply wp_ret. by exists e.
Qed.

(** The blocks of a node that was taken out. *)
Lemma free_node_spec t a n bk k bv (x : cell V) w :
  rbtree_config_ok (rb_config t) -> rb_nodes t !! a = Some n ->
  nd_key n = Some (bk, Live k) -> nd_value n = Some (bv, x) ->
  wp (let* n := reading (deref t (Some a)) in
      let* _ := rbtree_destroy_object (rc_key_type (rb_config t)) (nd_key n) in
      let* _ := sequence_deallocate (fst <$> nd_value n) in free)
    (fun _ w' => delta w w' (-3) (- typed (rc_key_type (rb_config t)))) w.
Proof.
  intros Hc Hn Hk Hv. eapply wp_bind, wp_reading; [exact Hn|]. rewrite Hk, Hv.
  eapply wp_bind_mono; [apply destroy_object_spec; by apply key_supports|]. intros ? w1 H1.
  eapply wp_bind_mono; [apply (deallocate_spec bv)|]. intros ? w2 H2.
  eapply wp_mono; [apply free_spec|]. intros ? w3 H3. solve_delta.
Qed.

Lemma remove_entries t t1 l1 k v l2 n1 a n2 (x : cell V) bv :
  rbtree_inv t (n1 ++ a :: n2) (l1 ++ (k, v) :: l2) -> length n1 = length l1 ->
  same_objects (modify (set_value (Some (bv, x))) a t) t1 ->
  (exists n bk, rb_nodes t1 !! a = Some n /\ nd_key n = Some (bk, Live k) /\ nd_value n = Some (bv, x)) /\
  entries (rb_nodes t1) (n1 ++ n2) (l1 ++ l2) /\ size (rb_nodes t1) = S (length (l1 ++ l2)) /\
  ~ (a ∈ n1 ++ n2).
Proof.
  intros Hi Hlen [So _ _]. pose proof (ri_entries _ _ _ Hi) as He. pose proof (inv_distinct _ _ _ Hi) as Hd.
  apply Forall2_app_inv in He as [He1 He2]; [|done].
  inversion He2 as [|? ? ? ? (n & bk & bv' & Hn & Hk & Hv) He3]; subst.
  rewrite <- Permutation_middle in Hd. apply NoDup_cons in Hd as [Ha Hd]. split_and!; [| | |done].
  - pose proof (f_equal (lookup a) So) as E. rewrite !lookup_fmap in E. cbn [rb_nodes modify set_nodes] in E.
    rewrite lookup_alter_eq, Hn in E. destruct (rb_nodes t1 !! a) as [n'|]; [|done].
    cbn in E. injection E as E1 E2. exists n', bk. by rewrite E1, E2.
  - eapply entries_objects; [exact So|]. cbn [rb_nodes modify set_nodes].
    apply Forall2_app; (eapply entries_frame; [|done]); intros q Hq; apply lookup_alter_ne; intros ->;
      apply Ha; set_solver.
  - apply (f_equal size) in So. rewrite !map_size_fmap in So. rewrite So. cbn [rb_nodes modify set_nodes].
    rewrite <- (size_dom (D := gset addr)), dom_alter_L, size_dom, (ri_store _ _ _ Hi), !length_app. simpl. lia.
Qed.

Lemma rbtree_remove_spec t n1 a n2 l1 k v l2 want w :
  rbtree_inv t (n1 ++ a :: n2) (l1 ++ (k, v) :: l2) -> length n1 = length l1 ->
  wp (rbtree_remove_node (Some t) (Some a) want) (fun r w' => exists t',
    r = (STL_OK, if want : bool then Live v else Raw, Some t') /\ rbtree_inv t' (n1 ++ n2) (l1 ++ l2) /\
    rb_config t' = rb_config t /\
    delta w w' (-3) (- typed (rc_key_type (rb_config t)) - if want then 0 else typed (rc_value_type (rb_config t)))) w.
Proof.
  intros Hi Hlen. pose proof (ri_config _ _ _ Hi) as Hc. pose proof (ri_entries _ _ _ Hi) as He.
  apply Forall2_app_inv in He as [_ He]; [|done].
  inversion He as [|? ? ? ? (n & bk & bv & Hn & Hk & Hv) _]; subst. cbn [fst snd] in Hv.
  destruct (ri_shape _ _ _ Hi) as (T & Hr & Hb & HT). pose proof (ri_threaded _ _ _ Hi) as Ht. rewrite <- HT in Ht.
  unfold rbtree_remove_node. eapply wp_bind_mono; [by eapply take_value_spec|]. intros ? w1 (x & -> & H1).
  rewrite bool_decide_true by done. set (t1 := modify _ a t).
  destruct (unlink_spec t1 T n1 a n2) as (t2 & T2 & E2 & Hr2 & Hb2 & HI2 & Ht2 & S2);
    [by apply rooted_value|done|by apply threaded_value|done|].
  eapply wp_bind, wp_reading; [exact E2|].
  destruct (remove_entries _ _ _ _ _ _ _ _ _ _ _ Hi Hlen S2) as ((n2' & bk' & Hn2 & Hk2 & Hv2) & He2 & Hsz & Ha).
  destruct S2 as [_ Ss Sc]. change (rb_size t1) with (rb_size t) in Ss. change (rb_config t1) with (rb_config t) in Sc.
  assert (rbtree_config_ok (rb_config t2)) as Hc2 by (by rewrite Sc).
  pose proof (free_node_spec t2 a n2' bk' k bv x w1 Hc2 Hn2 Hk2 Hv2) as Hfree.
  unfold wp, bind, reading in Hfree |- *. cbn [deref mbind option_bind] in Hfree |- *. rewrite Hn2 in Hfree |- *.
  destruct (rbtree_destroy_object _ _ w1) as [[? w2]|]; [|done].
  destruct (sequence_deallocate _ w2) as [[? w3]|]; [|done].
  destruct (free w3) as [[? w4]|]; [|done]. cbn [ret].
  set (t3 := set_nodes (delete a (rb_nodes t2)) t2).
  assert (forall q, q ∈ n1 ++ n2 -> rb_nodes t3 !! q = rb_nodes t2 !! q) as Hq
    by (intros q Hq; apply lookup_delete_ne; by intros ->).
  eexists. split; [done|]. rewrite Sc in Hfree. split; [|split; [exact Sc|]].
  - pose proof (ri_size _ _ _ Hi) as Hs. pose proof (ri_limit _ _ _ Hi) as Hl. rewrite length_app in Hs, Hl. simpl in Hs, Hl.
    pose proof (rk_limit _ Hc) as Hlim. unfold is_size in Hlim.
    split; cbn [rb_config rb_size set_rb_size]; change (rb_config t3) with (rb_config t2);
      change (rb_size t3) with (rb_size t2); rewrite ?Sc, ?Ss, ?length_app; try done.
    + rewrite Hs, size_dec_small; lia.
    + lia.
    + by eapply ordered_remove, (ri_ordered _ _ _ Hi).
    + exists T2. split_and!; [|done|done]. apply (rooted_frame t2); [by rewrite HI2|done|done].
    + by apply (threaded_frame t2).
    + by eapply entries_frame.
    + change (rb_nodes (set_rb_size _ t3)) with (delete a (rb_nodes t2)). rewrite map_size_delete_Some by eauto. rewrite Hsz, length_app. lia.
  - destruct want; solve_delta.
Qed.


End Ops.
