(* ===== verification/CstlMap.v ===== *)
(** The map and the multimap of cstl (cstl/src/map.c, cstl/include/cstl/map.h,
    cstl/src/multimap.c, cstl/include/cstl/multimap.h): handles of a red-black tree.

    The two sources repeat the same functions with their own names; here each is one
    definition [ordered_...], with a parameter for the one thing the trees differ in,
    whether keys may be duplicated.  Section [Maps] gives them the names of the two
    files, and has the functions that only one of them has. *)

From S2P Require Import Prelude.
From S2P Require Import CMetaType.
From S2P Require Import CstlSupport.
From S2P Require Import CstlRbTree.

(** [map_t] and [multimap_t]; [or_impl] is the tree itself. *)
Record ordered_t (V : Type) := mk_ordered {
  or_descriptor : option addr;
  or_key_type : option cmeta_type_desc;
  or_value_type : option cmeta_type_desc;
  or_impl : option (rbtree_t V);
  or_generation : Z;
}.
Arguments mk_ordered {V}.
Arguments or_descriptor {V}.
Arguments or_key_type {V}.
Arguments or_value_type {V}.
Arguments or_impl {V}.
Arguments or_generation {V}.

(** [map_t temporary = {0}]. *)
Definition zero_ordered {V} : ordered_t V := mk_ordered None None None None 0.

Definition set_impl {V} (impl : option (rbtree_t V)) (m : ordered_t V) : ordered_t V :=
  mk_ordered (or_descriptor m) (or_key_type m) (or_value_type m) impl (or_generation m).

Definition set_generation {V} (generation : Z) (m : ordered_t V) : ordered_t V :=
  mk_ordered (or_descriptor m) (or_key_type m) (or_value_type m) (or_impl m) generation.

(** [++map->generation] with the new tree. *)
Definition ordered_changed {V} (impl : option (rbtree_t V)) (m : ordered_t V) : ordered_t V :=
  set_generation (u64 (or_generation m + 1)) (set_impl impl m).

(** The fields the inline functions save and put back. *)
Definition rebind {V} (m m' : ordered_t V) : ordered_t V :=
  mk_ordered (or_descriptor m) (or_key_type m) (or_value_type m) (or_impl m') (or_generation m').

Section Ordered.
Context {V U : Type} `{!ObjectTraits V U}.
Context (duplicates : bool) (container_desc : addr).
#[local] Abbreviation ordered := (ordered_t V).
Implicit Types m : ordered.

Definition ordered_tree (map : option ordered) : option (rbtree_t V) := map ≫= or_impl.

Definition ordered_is_typed_semantic_zero (map : option ordered) : bool :=
  match map with
  | None => false
  | Some m =>
      is_null (or_impl m) && bool_decide (or_descriptor m = Some container_desc) &&
      negb (is_null (or_key_type m)) && negb (is_null (or_value_type m)) &&
      cmeta_type_desc_valid (or_key_type m) && cmeta_type_desc_valid (or_value_type m)
  end.

(** * Initialisation *)

Definition ordered_initialize (map : option ordered) (key_type value_type : option cmeta_type_desc)
    (key_size key_align value_size value_align limit : Z) (compare context : option addr)
    : store U (stl_status * option ordered) :=
  match map with
  | None => ret (STL_INVALID_ARGUMENT, map)
  | Some m =>
      if negb (is_null (or_impl m)) then ret (STL_INVALID_ARGUMENT, map)
      else
        let* created :=
          rbtree_create key_type value_type key_size key_align value_size value_align limit compare
            context duplicates in
        match created with
        | StlFail status => ret (status, map)
        | StlOk tree => ret (STL_OK, Some (ordered_changed (Some tree) m))
        end
  end.

Definition ordered_raw_init (map : option ordered) (key_type value_type : option cmeta_type_desc)
    (limit : Z) : store U (stl_status * option ordered) :=
  match map with
  | None => ret (STL_INVALID_ARGUMENT, map)
  | Some m =>
      if negb (is_null (or_impl m)) then ret (STL_INVALID_ARGUMENT, map)
      else
        match sequence_require_type key_type true with
        | STL_OK =>
            match sequence_require_type value_type false with
            | STL_OK =>
                match key_type, value_type with
                | Some k, Some v =>
                    ordered_initialize map key_type value_type (td_size k) (td_align k) (td_size v)
                      (td_align v) limit None None
                | _, _ => reading None
                end
            | status => ret (status, map)
            end
        | status => ret (status, map)
        end
  end.

Definition ordered_init_bytes (map : option ordered) (key_size key_align value_size value_align limit : Z)
    (compare context : option addr) : store U (stl_status * option ordered) :=
  if is_null compare then ret (STL_INVALID_ARGUMENT, map)
  else ordered_initialize map None None key_size key_align value_size value_align limit compare context.

Definition ordered_init (map : option ordered) (limit : Z) : store U (stl_status * option ordered) :=
  match map with
  | None => ret (STL_INVALID_ARGUMENT, map)
  | Some m =>
      if is_null (or_key_type m) || is_null (or_value_type m) then ret (STL_INVALID_ARGUMENT, map)
      else
        let* (status, map) := ordered_raw_init map (or_key_type m) (or_value_type m) limit in
        ret (status, rebind m <$> map)
  end.

(** * Destruction *)

Definition ordered_raw_destroy_storage (map : option ordered) : store U (option ordered) :=
  match map with
  | None => ret None
  | Some m =>
      match or_impl m with
      | None => ret map
      | Some _ =>
          let* _ := rbtree_destroy (or_impl m) in ret (Some (ordered_changed None m))
      end
  end.

Definition ordered_destroy (map : option ordered) : store U (option ordered) :=
  match map with
  | None => ret None
  | Some m => let* map := ordered_raw_destroy_storage map in ret (rebind m <$> map)
  end.

Definition ordered_clear (map : option ordered) : store U (option ordered) :=
  match map with
  | None => ret None
  | Some m =>
      match or_impl m with
      | None => ret map
      | Some tree =>
          if rb_size tree =? 0 then ret map
          else let* impl := rbtree_clear (or_impl m) in ret (Some (ordered_changed impl m))
      end
  end.

(** * A handle that is all zeros but for its type *)

(** The handle after it, and whether it was initialised by it. *)
Definition ordered_materialize_for_mutation (map : option ordered)
    : store U (stl_status * option ordered * bool) :=
  if negb (is_null (ordered_tree map)) then ret (STL_OK, map, false)
  else if negb (ordered_is_typed_semantic_zero map) then ret (STL_INVALID_ARGUMENT, map, false)
  else
    match map with
    | None => ret (STL_INVALID_ARGUMENT, map, false)
    | Some zero =>
        let* (status, made) := ordered_raw_init map (or_key_type zero) (or_value_type zero) SIZE_MAX in
        if bool_decide (status = STL_OK)
        then ret (STL_OK, set_generation (or_generation zero) <$> made, true)
        else ret (status, map, false)
    end.

Definition ordered_rollback_materialization (map zero_snapshot : option ordered) (materialized : bool)
    : store U (option ordered) :=
  if negb materialized then ret map
  else let* _ := ordered_raw_destroy_storage map in ret zero_snapshot.

(** * Entries *)

Definition ordered_put (map : option ordered) (key value : option V)
    : store U (stl_status * option ordered) :=
  if is_null map || is_null key || is_null value then ret (STL_INVALID_ARGUMENT, map)
  else
    let* (status, made, materialized) := ordered_materialize_for_mutation map in
    if bool_decide (status = STL_OK) then
      let* m := reading made in
      let* (result, tree) := rbtree_put (or_impl m) key value in
      match result with
      | StlOk _ => ret (STL_OK, Some (ordered_changed tree m))
      | StlFail status =>
          let* map := ordered_rollback_materialization (Some (set_impl tree m)) map materialized in
          ret (status, map)
      end
    else ret (status, made).

Definition ordered_contains (map : option ordered) (key : option V) : option bool :=
  node ← rbtree_find (ordered_tree map) key; Some (negb (is_null node)).

Definition ordered_size (map : option ordered) : Z :=
  match ordered_tree map with None => 0 | Some tree => rb_size tree end.

Definition ordered_entry_limit (map : option ordered) : Z :=
  match ordered_tree map with None => 0 | Some tree => rc_element_limit (rb_config tree) end.

Definition ordered_generation (map : option ordered) : Z :=
  match map with None => 0 | Some m => or_generation m end.

Definition ordered_empty (map : option ordered) : bool := ordered_size map =? 0.

(** * Construction from arrays *)

(** The loop over the two arrays. *)
Fixpoint put_all (temporary : option ordered) (keys values : list V) (index fuel : nat)
    : store U (stl_status * option ordered) :=
  match fuel with
  | O => ret (STL_OK, temporary)
  | S fuel =>
      let* key := reading (keys !! index) in
      let* value := reading (values !! index) in
      let* (status, temporary) := ordered_put temporary (Some key) (Some value) in
      if bool_decide (status = STL_OK) then put_all temporary keys values (S index) fuel
      else
        let* temporary := ordered_raw_destroy_storage temporary in ret (status, temporary)
  end.

(** The check of the sizes and [init], which initialises [temporary]. *)
Definition ordered_from_common (map : option ordered) (keys values : option (list V)) (count : nat)
    (key_size value_size : Z) (init : store U (stl_status * option ordered))
    : store U (stl_status * option ordered) :=
  match map with
  | None => ret (STL_INVALID_ARGUMENT, map)
  | Some m =>
      let n := Z.of_nat count in
      if negb (n =? 0) && (is_null keys || is_null values) then ret (STL_INVALID_ARGUMENT, map)
      else if negb (n =? 0) && ((SIZE_MAX / n <? key_size) || (SIZE_MAX / n <? value_size))
      then ret (STL_CAPACITY_EXCEEDED, map)
      else
        let* (status, temporary) := init in
        if bool_decide (status = STL_OK) then
          let* (status, temporary) := put_all temporary (default [] keys) (default [] values) 0 count in
          if bool_decide (status = STL_OK) then
            let* _ := rbtree_destroy (or_impl m) in
            ret (STL_OK, set_generation (u64 (or_generation m + 1)) <$> temporary)
          else ret (status, map)
        else ret (status, map)
  end.

Definition ordered_raw_from_arrays (map : option ordered) (keys values : option (list V)) (count : nat)
    (key_type value_type : option cmeta_type_desc) (limit : Z) : store U (stl_status * option ordered) :=
  match key_type, value_type with
  | Some k, Some v =>
      ordered_from_common map keys values count (td_size k) (td_size v)
        (ordered_raw_init (Some zero_ordered) key_type value_type limit)
  | _, _ => ret (STL_INVALID_ARGUMENT, map)
  end.

Definition ordered_from_arrays_bytes (map : option ordered) (keys values : option (list V)) (count : nat)
    (key_size key_align value_size value_align limit : Z) (compare context : option addr)
    : store U (stl_status * option ordered) :=
  ordered_from_common map keys values count key_size value_size
    (ordered_init_bytes (Some zero_ordered) key_size key_align value_size value_align limit compare
       context).

Definition ordered_from_arrays (map : option ordered) (keys values : option (list V)) (count : nat)
    (limit : Z) : store U (stl_status * option ordered) :=
  match map with
  | None => ret (STL_INVALID_ARGUMENT, map)
  | Some m =>
      if is_null (or_key_type m) || is_null (or_value_type m) then ret (STL_INVALID_ARGUMENT, map)
      else
        let* (status, map) :=
          ordered_raw_from_arrays map keys values count (or_key_type m) (or_value_type m) limit in
        ret (status, rebind m <$> map)
  end.

(** * Iterators *)

(** An iterator is a node of the owner, or NULL at the end; [owner] is what its first
    field points at. *)
Definition ordered_begin (map : option ordered) : option addr := ordered_tree map ≫= rb_head.

Definition ordered_end : option addr := None.

Definition ordered_lower_bound (map : option ordered) (key : option V) : option (option addr) :=
  rbtree_lower_bound (ordered_tree map) key.

Definition ordered_upper_bound (map : option ordered) (key : option V) : option (option addr) :=
  rbtree_upper_bound (ordered_tree map) key.

Definition ordered_iter_next (owner : option ordered) (node : option addr)
    : option (stl_status * option addr) :=
  match ordered_tree owner with
  | None => Some (STL_NOT_FOUND, node)
  | Some tree =>
      if is_null node then Some (STL_NOT_FOUND, node)
      else n ← deref tree node; Some (STL_OK, nd_next n)
  end.

Definition ordered_iter_prev (owner : option ordered) (node : option addr)
    : option (stl_status * option addr) :=
  match ordered_tree owner with
  | None => Some (STL_INVALID_ARGUMENT, node)
  | Some tree =>
      if is_null node then
        if is_null (rb_tail tree) then Some (STL_NOT_FOUND, node) else Some (STL_OK, rb_tail tree)
      else
        n ← deref tree node;
        if is_null (nd_previous n) then Some (STL_NOT_FOUND, node) else Some (STL_OK, nd_previous n)
  end.

(** The two fields of an iterator are compared. *)
Definition ordered_iter_equal (left right : option addr * option addr) : bool :=
  bool_decide (fst left = fst right) && bool_decide (snd left = snd right).

(** The object an accessor points at, or NULL. *)
Definition ordered_iter_field (field : rbtree_node V -> option (Z * cell V)) (owner : option ordered)
    (node : option addr) : option (option V) :=
  match ordered_tree owner with
  | None => Some None
  | Some tree =>
      if is_null node then Some None
      else n ← deref tree node; v ← field_value (field n); Some (Some v)
  end.

Definition ordered_iter_key : option ordered -> option addr -> option (option V) :=
  ordered_iter_field nd_key.
Definition ordered_iter_value : option ordered -> option addr -> option (option V) :=
  ordered_iter_field nd_value.

(** [self] is the address of the map; the entry, if there is one, and the cursor. *)
Definition ordered_range_next (self : addr) (map : option ordered) (cursor : option range_cursor)
    : option (option (V * V) * option range_cursor) :=
  match ordered_tree map, cursor with
  | Some tree, Some c =>
      if negb (is_null (cur_owner c)) && negb (bool_decide (cur_owner c = Some self))
      then Some (None, cursor)
      else
        let node := if is_null (cur_owner c) then rb_head tree else cur_node c in
        let c := mk_range_cursor (cur_node c) (Some self) in
        if is_null node then Some (None, Some c)
        else
          n ← deref tree node;
          k ← field_value (nd_key n);
          v ← field_value (nd_value n);
          Some (Some (k, v), Some (mk_range_cursor (nd_next n) (Some self)))
  | _, _ => Some (None, cursor)
  end.

End Ordered.

Section Maps.
Context {V U : Type} `{!ObjectTraits V U}.
Context (container_desc : addr).
#[local] Abbreviation ordered := (ordered_t V).

(** * Map *)

Definition map_is_typed_semantic_zero : option ordered -> bool :=
  ordered_is_typed_semantic_zero container_desc.
Definition map_materialize_for_mutation := ordered_materialize_for_mutation (V := V) (U := U) false container_desc.
Definition map_rollback_materialization := ordered_rollback_materialization (V := V) (U := U).
Definition map_initialize := ordered_initialize (V := V) (U := U) false.
Definition map_raw_init := ordered_raw_init (V := V) (U := U) false.
Definition map_init_bytes := ordered_init_bytes (V := V) (U := U) false.
Definition map_init_typed := ordered_init (V := V) (U := U) false.
Definition map_from_common := ordered_from_common (V := V) (U := U) false container_desc.
Definition map_raw_from_arrays := ordered_raw_from_arrays (V := V) (U := U) false container_desc.
Definition map_from_arrays_bytes := ordered_from_arrays_bytes (V := V) (U := U) false container_desc.
Definition map_from_arrays := ordered_from_arrays (V := V) (U := U) false container_desc.
Definition map_raw_destroy_storage := ordered_raw_destroy_storage (V := V) (U := U).
Definition map_destroy := ordered_destroy (V := V) (U := U).
Definition map_clear := ordered_clear (V := V) (U := U).
Definition map_put := ordered_put (V := V) (U := U) false container_desc.
Definition map_contains := ordered_contains (V := V) (U := U).

(** The object the result of [map_get] and [map_get_const] points at, or NULL. *)
Definition map_get (map : option ordered) (key : option V) : option (option V) :=
  node ← rbtree_find (ordered_tree map) key;
  if is_null node then Some None
  else
    tree ← ordered_tree map; n ← deref tree node; v ← field_value (nd_value n); Some (Some v).

Definition map_remove (map : option ordered) (key : option V) (want : bool)
    : store U (stl_status * cell V * option ordered) :=
  match map, ordered_tree map with
  | Some m, Some tree =>
      if is_null key then ret (STL_INVALID_ARGUMENT, Raw, map)
      else
        let* node := reading (rbtree_find (Some tree) key) in
        if is_null node then ret (STL_NOT_FOUND, Raw, map)
        else
          let* (status, out, impl) := rbtree_remove_node (Some tree) node want in
          if bool_decide (status = STL_OK) then ret (STL_OK, out, Some (ordered_changed impl m))
          else ret (status, out, Some (set_impl impl m))
  | _, _ => ret (STL_INVALID_ARGUMENT, Raw, map)
  end.

Definition map_size_of := ordered_size (V := V).
Definition map_entry_limit := ordered_entry_limit (V := V).
Definition map_generation := ordered_generation (V := V).
Definition map_is_empty := ordered_empty (V := V).
Definition map_begin := ordered_begin (V := V).
Definition map_end := ordered_end.
Definition map_lower_bound := ordered_lower_bound (V := V) (U := U).
Definition map_upper_bound := ordered_upper_bound (V := V) (U := U).
Definition map_iter_next := ordered_iter_next (V := V).
Definition map_iter_prev := ordered_iter_prev (V := V).
Definition map_iter_equal := ordered_iter_equal.
Definition map_iter_key_const := ordered_iter_key (V := V).
Definition map_iter_value := ordered_iter_value (V := V).
Definition map_range_next := ordered_range_next (V := V).

(** * Multimap *)

Definition multimap_is_typed_semantic_zero : option ordered -> bool :=
  ordered_is_typed_semantic_zero container_desc.
Definition multimap_materialize_for_mutation :=
  ordered_materialize_for_mutation (V := V) (U := U) true container_desc.
Definition multimap_rollback_materialization := ordered_rollback_materialization (V := V) (U := U).
Definition multimap_initialize := ordered_initialize (V := V) (U := U) true.
Definition multimap_raw_init := ordered_raw_init (V := V) (U := U) true.
Definition multimap_init_bytes := ordered_init_bytes (V := V) (U := U) true.
Definition multimap_init := ordered_init (V := V) (U := U) true.
Definition multimap_from_common := ordered_from_common (V := V) (U := U) true container_desc.
Definition multimap_raw_from_arrays := ordered_raw_from_arrays (V := V) (U := U) true container_desc.
Definition multimap_from_arrays_bytes := ordered_from_arrays_bytes (V := V) (U := U) true container_desc.
Definition multimap_from_arrays := ordered_from_arrays (V := V) (U := U) true container_desc.
Definition multimap_raw_destroy_storage := ordered_raw_destroy_storage (V := V) (U := U).
Definition multimap_destroy := ordered_destroy (V := V) (U := U).
Definition multimap_clear := ordered_clear (V := V) (U := U).
Definition multimap_put := ordered_put (V := V) (U := U) true container_desc.
Definition multimap_contains := ordered_contains (V := V) (U := U).

(** [while (node != end)]: the nodes before [end] are counted. *)
Fixpoint count_until (fuel : nat) (tree : rbtree_t V) (node end_ : option addr) (count : Z) : option Z :=
  if bool_decide (node = end_) then Some count
  else
    match fuel with
    | O => None
    | S fuel => n ← deref tree node; count_until fuel tree (nd_next n) end_ (size_inc count)
    end.

Definition multimap_count (map : option ordered) (key : option V) : option Z :=
  match ordered_tree map with
  | None => Some 0
  | Some tree =>
      if is_null key then Some 0
      else
        node ← rbtree_lower_bound (Some tree) key;
        end_ ← rbtree_upper_bound (Some tree) key;
        count_until (enough tree) tree node end_ 0
  end.

(** The last entry with an equal key goes. *)
Definition multimap_remove (map : option ordered) (key : option V) (want : bool)
    : store U (bool * cell V * option ordered) :=
  match map, ordered_tree map with
  | Some m, Some tree =>
      if is_null key then ret (false, Raw, map)
      else
        let* first := reading (rbtree_lower_bound (Some tree) key) in
        let* end_ := reading (rbtree_upper_bound (Some tree) key) in
        if bool_decide (first = end_) then ret (false, Raw, map)
        else
          let* node :=
            if is_null end_ then ret (rb_tail tree)
            else let* n := reading (deref tree end_) in ret (nd_previous n) in
          let* (status, out, impl) := rbtree_remove_node (Some tree) node want in
          if bool_decide (status = STL_OK) then ret (true, out, Some (ordered_changed impl m))
          else ret (false, out, Some (set_impl impl m))
  | _, _ => ret (false, Raw, map)
  end.

(** [while (node != end)]: the nodes before [end] go. *)
Fixpoint erase_until (fuel : nat) (tree : rbtree_t V) (node end_ : option addr) (removed : Z)
    : store U (Z * rbtree_t V) :=
  if bool_decide (node = end_) then ret (removed, tree)
  else
    match fuel with
    | O => reading None
    | S fuel =>
        let* n := reading (deref tree node) in
        let next := nd_next n in
        let* (status, _, impl) := rbtree_remove_node (Some tree) node false in
        let* tree := reading impl in
        if bool_decide (status = STL_OK) then erase_until fuel tree next end_ (size_inc removed)
        else ret (removed, tree)
    end.

Definition multimap_erase (map : option ordered) (key : option V) : store U (Z * option ordered) :=
  match map, ordered_tree map with
  | Some m, Some tree =>
      if is_null key then ret (0, map)
      else
        let* node := reading (rbtree_lower_bound (Some tree) key) in
        let* end_ := reading (rbtree_upper_bound (Some tree) key) in
        let* (removed, tree) := erase_until (enough tree) tree node end_ 0 in
        if removed =? 0 then ret (removed, Some (set_impl (Some tree) m))
        else ret (removed, Some (ordered_changed (Some tree) m))
  | _, _ => ret (0, map)
  end.

Definition multimap_size := ordered_size (V := V).
Definition multimap_element_limit := ordered_entry_limit (V := V).
Definition multimap_generation := ordered_generation (V := V).
Definition multimap_empty := ordered_empty (V := V).
Definition multimap_begin := ordered_begin (V := V).
Definition multimap_end := ordered_end.
Definition multimap_lower_bound := ordered_lower_bound (V := V) (U := U).
Definition multimap_upper_bound := ordered_upper_bound (V := V) (U := U).
Definition multimap_iter_next := ordered_iter_next (V := V).
Definition multimap_iter_prev := ordered_iter_prev (V := V).
Definition multimap_iter_equal := ordered_iter_equal.
Definition multimap_iter_key_const := ordered_iter_key (V := V).
Definition multimap_iter_value := ordered_iter_value (V := V).
Definition multimap_range_next := ordered_range_next (V := V).

End Maps.
