(* ===== verification/CstlMapOps.v ===== *)
(** What each operation of a map or a multimap, whose tree holds a list of entries in the
    order of their keys, does to that list: first those that change it, then iterators,
    searches and removal. *)

From S2P Require Import Prelude.
From S2P Require Import CMetaType.
From S2P Require Import CstlSupport.
From S2P Require Import CstlObjects.
From S2P Require Import CstlSequenceSpecs.
From S2P Require Import CstlRbTree.
From S2P Require Import CstlRbShape.
From S2P Require Import CstlRbBalance.
From S2P Require Import CstlRbLinks.
From S2P Require Import CstlRbOps.
From S2P Require Import CstlMap.

Section Ops.
Context {V U : Type} `{HV : ObjectTraits V U} `{!TraitLaws V U}.
Context (duplicates : bool) (container_desc : addr).
Implicit Types w : object_world U.
Implicit Types m : ordered_t V.
Implicit Types t : rbtree_t V.
Implicit Types l : list (V * V).
Implicit Types nodes : list addr.
Implicit Types want : bool.

(** * The invariant *)

(** The tree of the handle holds [l] in its [nodes]. *)
Definition ordered_inv m nodes l : Prop :=
  exists t, or_impl m = Some t /\ rbtree_inv t nodes l /\
    rc_allow_duplicates (rb_config t) = duplicates.

(** The settings of the tree. *)
Definition ordered_config m : rbtree_config :=
  match or_impl m with
  | Some t => rb_config t
  | None => mk_rbtree_config 0 0 0 0 0 0 SIZE_MAX (or_key_type m) (or_value_type m) None None duplicates
  end.

Definition ordered_compare m : V -> V -> Z := the_compare (ordered_config m).
Definition ordered_limit m : Z := rc_element_limit (ordered_config m).

(** What the handle owns: its tree, the nodes and what they hold. *)
Definition ordered_blocks m : Z := match or_impl m with None => 0 | Some t => 1 + 3 * rb_size t end.
Definition ordered_objects m : Z :=
  match or_impl m with
  | None => 0
  | Some t => rb_size t * (typed (rc_key_type (rb_config t)) + typed (rc_value_type (rb_config t)))
  end.

(** What the operations leave alone. *)
Record ordered_kept m m' : Prop := {
  ok_descriptor : or_descriptor m' = or_descriptor m;
  ok_key_type : or_key_type m' = or_key_type m;
  ok_value_type : or_value_type m' = or_value_type m;
  ok_config : ordered_config m' = ordered_config m;
}.

#[export] Instance ordered_kept_preorder : PreOrder ordered_kept.
Proof. split; [by split|]. intros m1 m2 m3 [] []. split; congruence. Qed.

Lemma ordered_kept_impl m t t' generation :
  or_impl m = Some t -> rb_config t' = rb_config t ->
  ordered_kept m (set_generation generation (set_impl (Some t') m)).
Proof. intros Ht Hc. split; try done. unfold ordered_config. simpl. by rewrite Ht. Qed.

Lemma inv_config m nodes l :
  ordered_inv m nodes l -> rbtree_config_ok (ordered_config m) /\ rc_allow_duplicates (ordered_config m) = duplicates /\
    ordered (ordered_compare m) duplicates l /\ Z.of_nat (length l) <= ordered_limit m.
Proof.
  intros (t & Ht & Hi & Hd). unfold ordered_compare, ordered_limit, ordered_config. rewrite Ht.
  split_and!; [apply Hi|done|rewrite <- Hd; apply Hi|apply Hi].
Qed.

Lemma inv_counts m nodes l :
  ordered_inv m nodes l ->
  ordered_blocks m = tree_blocks l /\ ordered_objects m = tree_objects (ordered_config m) l.
Proof.
  intros (t & Ht & Hi & _). unfold ordered_blocks, ordered_objects, ordered_config. rewrite Ht, (ri_size _ _ _ Hi). done.
Qed.

(** * Creation and destruction *)

(** An initialised handle. *)
Definition ordered_fresh m m' key_type value_type compare context limit : Prop :=
  ordered_inv m' [] [] /\ or_descriptor m' = or_descriptor m /\ or_key_type m' = or_key_type m /\
  or_value_type m' = or_value_type m /\ ordered_limit m' = limit /\
  rc_key_type (ordered_config m') = key_type /\ rc_value_type (ordered_config m') = value_type /\
  rc_compare (ordered_config m') = compare /\ rc_compare_context (ordered_config m') = context.

Definition created_outcome m key_type value_type compare context limit
    (r : stl_status * option (ordered_t V)) w w' : Prop :=
  (exists m', r = (STL_OK, Some m') /\ ordered_fresh m m' key_type value_type compare context limit /\
     delta w w' 1 0) \/
  (exists status, r = (status, Some m) /\ status <> STL_OK /\ delta w w' 0 0).

Lemma ordered_initialize_spec m key_type value_type ks ka vs va limit compare ctx w :
  or_impl m = None -> is_size ks -> is_size ka -> is_size vs -> is_size va -> is_size limit ->
  supports key_type key_traits -> supports value_type element_traits ->
  wp (ordered_initialize duplicates (Some m) key_type value_type ks ka vs va limit compare ctx)
    (fun r w' => created_outcome m key_type value_type compare ctx limit r w w') w.
Proof.
  intros Hm Hks Hka Hvs Hva Hl Hk Hv. unfold ordered_initialize. rewrite Hm. cbn [is_null negb].
  eapply wp_bind_mono; [by apply rbtree_create_spec|].
  intros r w1 [(t & -> & Hi & Hd & Ek & Ev & El & Ec & Ex & Edup)|(status & -> & Hs & Hd)]; apply wp_ret.
  - left. eexists. split; [done|]. split; [|done].
    unfold ordered_fresh, ordered_limit, ordered_config. simpl. split_and!; try done. by exists t.
  - right. by exists status.
Qed.

Lemma ordered_raw_init_spec m key_type value_type limit w :
  or_impl m = None -> element_sizes key_type -> element_sizes value_type -> is_size limit ->
  wp (ordered_raw_init duplicates (Some m) key_type value_type limit)
    (fun r w' => created_outcome m key_type value_type None None limit r w w') w.
Proof.
  intros Hm Hks Hvs Hl. unfold ordered_raw_init. rewrite Hm. cbn [is_null negb].
  assert (forall status, status <> STL_OK -> wp (ret (status, Some m))
    (fun r w' => created_outcome m key_type value_type None None limit r w w') w) as Hfail
    by (intros; apply wp_ret; right; eexists; split_and!; [done|done|apply delta_refl]).
  destruct (sequence_require_type key_type true) eqn:Ek; try (by apply Hfail).
  destruct (sequence_require_type value_type false) eqn:Ev; try (by apply Hfail).
  destruct key_type as [k|]; [|done]. destruct value_type as [v|]; [|done].
  destruct Hks, Hvs. apply ordered_initialize_spec; try done.
  - exact (require_type_spec k true Ek).
  - exact (require_type_spec v false Ev).
Qed.

Lemma ordered_init_bytes_spec m ks ka vs va limit compare ctx w :
  or_impl m = None -> is_size ks -> is_size ka -> is_size vs -> is_size va -> is_size limit ->
  wp (ordered_init_bytes duplicates (Some m) ks ka vs va limit compare ctx)
    (fun r w' => created_outcome m None None compare ctx limit r w w') w.
Proof.
  intros. unfold ordered_init_bytes. destruct (is_null compare).
  - apply wp_ret. right. eexists. split_and!; [done|done|apply delta_refl].
  - by apply ordered_initialize_spec.
Qed.

Lemma ordered_destroy_storage_spec m nodes l w :
  ordered_inv m nodes l ->
  wp (ordered_raw_destroy_storage (Some m)) (fun r w' =>
    r = Some (ordered_changed None m) /\ delta w w' (- ordered_blocks m) (- ordered_objects m)) w.
Proof.
  intros Hinv. destruct (inv_counts _ _ _ Hinv) as [-> ->]. destruct Hinv as (t & Ht & Hi & _).
  unfold ordered_raw_destroy_storage, ordered_config. rewrite Ht.
  eapply wp_bind_mono; [by eapply rbtree_destroy_spec|]. intros ? w1 H1. by apply wp_ret.
Qed.

Lemma ordered_clear_spec m nodes l w :
  ordered_inv m nodes l ->
  wp (ordered_clear (Some m)) (fun r w' => exists m', r = Some m' /\ ordered_inv m' [] [] /\ ordered_kept m m' /\
    delta w w' (ordered_blocks m' - ordered_blocks m) (ordered_objects m' - ordered_objects m)) w.
Proof.
  intros Hinv. destruct (inv_counts _ _ _ Hinv) as [Hbl Hob]. pose proof Hinv as (t & Ht & Hi & Hd).
  unfold ordered_clear. rewrite Ht. destruct (_ =? 0) eqn:H0; destruct_bools.
  - apply wp_ret. exists m. rewrite (ri_size _ _ _ Hi) in H0. destruct l; [|done].
    assert (nodes = []) as -> by (apply nil_length_inv; by rewrite (inv_length _ _ _ Hi)).
    rewrite !Z.sub_diag. split_and!; [done|done|done|apply delta_refl].
  - eapply wp_bind_mono; [by eapply rbtree_clear_spec|]. intros ? w1 (t' & -> & Hi' & Hc & H1). apply wp_ret.
    assert (ordered_inv (ordered_changed (Some t') m) [] []) as Hinv'
      by (exists t'; rewrite Hc; done).
    eexists. split_and!; [done|exact Hinv'|by eapply ordered_kept_impl|].
    destruct (inv_counts _ _ _ Hinv') as [-> ->]. rewrite Hbl, Hob.
    unfold tree_blocks, tree_objects, ordered_config in *. rewrite Ht in *. simpl in *. solve_delta.
Qed.

(** * Insertion *)

(** What [put] may answer. *)
Definition ordered_put_outcome m nodes l k v (r : stl_status * option (ordered_t V)) w w' : Prop :=
  let l' := assoc_put (ordered_compare m) duplicates k v l in
  (exists m' nodes', r = (STL_OK, Some m') /\ ordered_inv m' nodes' l' /\ ordered_kept m m' /\
     nodes `sublist_of` nodes' /\ Z.of_nat (length l') <= ordered_limit m /\
     delta w w' (ordered_blocks m' - ordered_blocks m) (ordered_objects m' - ordered_objects m)) \/
  (exists status, r = (status, Some m) /\ no_room status /\
     (ordered_limit m < Z.of_nat (length l') -> status = STL_CAPACITY_EXCEEDED) /\ delta w w' 0 0).

#[local] Abbreviation Laws m := (CompareLaws (ordered_compare m)).

Lemma set_impl_same m t : or_impl m = Some t -> set_impl (Some t) m = m.
Proof. destruct m. simpl. by intros ->. Qed.

Lemma ordered_put_spec m nodes l k v w :
  ordered_inv m nodes l -> Laws m ->
  wp (ordered_put duplicates container_desc (Some m) (Some k) (Some v))
    (fun r w' => ordered_put_outcome m nodes l k v r w w') w.
Proof.
  intros Hinv Hlaws. destruct (inv_counts _ _ _ Hinv) as [Hbl Hob]. pose proof Hinv as (t & Ht & Hi & Hd).
  unfold ordered_put. cbn [is_null orb]. unfold ordered_materialize_for_mutation, ordered_tree.
  cbn [mbind option_bind]. rewrite Ht. cbn [is_null negb].
  eapply wp_bind, wp_ret. rewrite bool_decide_true by done. eapply wp_bind, wp_reading; [done|]. rewrite Ht.
  unfold ordered_put_outcome, ordered_compare, ordered_limit, ordered_config in *. rewrite Ht in *. rewrite <- Hd.
  eapply wp_bind_mono; [by apply rbtree_put_spec|].
  intros r w1 [(result & t' & nodes' & -> & (Hi' & Hc & Hsub) & Hl & H1)|(status & -> & Hn & Hl & H1)].
  - apply wp_ret. left. exists (ordered_changed (Some t') m), nodes'.
    assert (ordered_inv (ordered_changed (Some t') m) nodes'
      (assoc_put (the_compare (rb_config t)) (rc_allow_duplicates (rb_config t)) k v l)) as Hinv'
      by (exists t'; rewrite Hc; done).
    destruct (inv_counts _ _ _ Hinv') as [-> ->]. rewrite Hbl, Hob.
    split_and!; [done|done|by eapply ordered_kept_impl|done|done|].
    unfold ordered_config. simpl. by rewrite Hc.
  - eapply wp_bind, wp_ret, wp_ret. right. exists status. rewrite (set_impl_same _ _ Ht). by split_and!.
Qed.

(** On a handle that is all zeros but for its type, a failure leaves it so. *)
Lemma ordered_put_zero_spec m k v w :
  ordered_is_typed_semantic_zero container_desc (Some m) = true ->
  element_sizes (or_key_type m) -> element_sizes (or_value_type m) -> Laws m ->
  wp (ordered_put duplicates container_desc (Some m) (Some k) (Some v)) (fun r w' =>
    (exists m' nodes', r = (STL_OK, Some m') /\ ordered_inv m' nodes' [(k, v)] /\
       or_descriptor m' = or_descriptor m /\ ordered_limit m' = SIZE_MAX /\
       ordered_compare m' = ordered_compare m /\ or_generation m' = u64 (or_generation m + 1) /\
       delta w w' (ordered_blocks m') (ordered_objects m')) \/
    (exists status, r = (status, Some m) /\ status <> STL_OK /\ delta w w' 0 0)) w.
Proof.
  intros Hz Hks Hvs Hlaws.
  assert (or_impl m = None) as Hm by (unfold ordered_is_typed_semantic_zero in Hz; destruct_bools; by destruct (or_impl m)).
  unfold ordered_put. cbn [is_null orb]. unfold ordered_materialize_for_mutation, ordered_tree. cbn [mbind option_bind].
  rewrite Hm, Hz. cbn [is_null negb].
  eapply wp_bind, wp_bind_mono; [apply ordered_raw_init_spec; try done; unfold is_size, SIZE_MAX; lia|].
  intros r w1 [(m1 & -> & (Hinv & Hdesc & Hkt & Hvt & Hlim & Ek & Ev & Ec & Ex) & H1)|(status & -> & Hs & H1)].
  2: { rewrite bool_decide_false by done. apply wp_ret. rewrite bool_decide_false by done. apply wp_ret.
       right. by exists status. }
  rewrite bool_decide_true by done. apply wp_ret. rewrite bool_decide_true by done. simpl fmap.
  eapply wp_bind, wp_reading; [done|]. pose proof Hinv as (t & Ht & Hi & Hd). cbn [or_impl set_generation]. rewrite Ht.
  unfold ordered_compare, ordered_limit, ordered_config in *. rewrite Hm in *. rewrite Ht in *.
  assert (the_compare (rb_config t) = the_compare (mk_rbtree_config 0 0 0 0 0 0 SIZE_MAX (or_key_type m) (or_value_type m)
    None None duplicates) :> (V -> V -> Z)) as Hcmp
    by (unfold the_compare, rbtree_compare_key; cbn [rc_key_type rc_compare rc_compare_context]; by rewrite Ek, Ec, Ex).
  rewrite <- Hcmp in Hlaws.
  eapply wp_bind_mono; [by apply rbtree_put_spec|].
  intros r w2 [(result & t' & nodes' & -> & (Hi' & Hc & Hsub) & Hl & H2)|(status & -> & Hn & Hl & H2)].
  - apply wp_ret. left. exists (ordered_changed (Some t') (set_generation (or_generation m) m1)), nodes'.
    assert (ordered_inv (ordered_changed (Some t') (set_generation (or_generation m) m1)) nodes' [(k, v)]) as Hinv'
      by (exists t'; rewrite Hc; done).
    destruct (inv_counts _ _ _ Hinv') as [-> ->]. split_and!; try done; simpl; rewrite ?Hc; try done.
    unfold tree_blocks, tree_objects, ordered_config in *. simpl in *. rewrite Hc. solve_delta.
  - unfold ordered_rollback_materialization. cbn [negb].
    assert (ordered_inv (set_impl (Some t) (set_generation (or_generation m) m1)) [] []) as Hinv' by (by exists t).
    pose proof (ordered_destroy_storage_spec _ _ _ w2 Hinv') as Hdes.
    eapply wp_bind, wp_bind_mono; [exact Hdes|]. intros ? w3 [-> H3]. apply wp_ret, wp_ret. right. exists status.
    split_and!; [done|by destruct Hn as [->| ->]|].
    destruct (inv_counts _ _ _ Hinv') as [E1 E2]. rewrite E1, E2 in H3. unfold tree_blocks, tree_objects in H3. simpl in H3.
    solve_delta.
Qed.

End Ops.

(** * The entries with a key *)

Section Equal.
Context {V : Type} (cmp : V -> V -> Z) {Hlaws : CompareLaws cmp}.
Implicit Types l : list (V * V).

Definition same_key (k : V) (e : V * V) : bool := cmp (fst e) k =? 0.

(** The entries whose key is [k], and the others. *)
Definition with_key (k : V) l : list (V * V) := List.filter (same_key k) l.
Definition without_key (k : V) l : list (V * V) := List.filter (fun e => negb (same_key k e)) l.

Lemma filter_all {A} (P : A -> bool) (l : list A) : (forall x, x ∈ l -> P x = true) -> List.filter P l = l.
Proof.
  induction l as [|x l IH]; simpl; [done|]. intros H. rewrite H by apply list_elem_of_here.
  f_equal. apply IH. intros. apply H. by apply list_elem_of_further.
Qed.

Lemma filter_none {A} (P : A -> bool) (l : list A) : (forall x, x ∈ l -> P x = false) -> List.filter P l = [].
Proof.
  induction l as [|x l IH]; simpl; [done|]. intros H. rewrite H by apply list_elem_of_here.
  apply IH. intros. apply H. by apply list_elem_of_further.
Qed.

(** [l] around the run of the entries with the key [k]. *)
Record run_of (k : V) (lo mid hi : list (V * V)) : Prop := {
  run_before : forall e, e ∈ lo -> cmp (fst e) k < 0;
  run_equal : forall e, e ∈ mid -> cmp (fst e) k = 0;
  run_after : forall e, e ∈ hi -> 0 < cmp (fst e) k;
}.

(** The two bounds enclose the run. *)
Lemma bounds_run k lo1 hi1 lo2 hi2 :
  lo1 ++ hi1 = lo2 ++ hi2 ->
  (forall e, e ∈ lo1 -> cmp (fst e) k < 0) -> (forall e, e ∈ hi1 -> 0 <= cmp (fst e) k) ->
  (forall e, e ∈ lo2 -> cmp (fst e) k <= 0) -> (forall e, e ∈ hi2 -> 0 < cmp (fst e) k) ->
  exists mid, lo2 = lo1 ++ mid /\ hi1 = mid ++ hi2 /\ run_of k lo1 mid hi2.
Proof.
  intros E L1 H1 L2 H2. apply app_eq_inv in E as [(mid & -> & ->)|(mid & -> & ->)].
  - destruct mid as [|e mid].
    + exists []. rewrite !app_nil_r in *. cbn [app] in *. split_and!; [done|done|]. split; [done| |done]. set_solver.
    + specialize (L1 e ltac:(set_solver)). specialize (H2 e ltac:(set_solver)). lia.
  - exists mid. split_and!; [done|done|]. split; [done| |done].
    intros e He. specialize (H1 e ltac:(set_solver)). specialize (L2 e ltac:(set_solver)). lia.
Qed.

Lemma run_with k lo mid hi :
  run_of k lo mid hi -> with_key k (lo ++ mid ++ hi) = mid /\ without_key k (lo ++ mid ++ hi) = lo ++ hi.
Proof.
  intros [Hlo Hm Hhi]. unfold with_key, without_key, same_key. rewrite !List.filter_app. split.
  - rewrite (filter_none _ lo), (filter_all _ mid), (filter_none _ hi); [by rewrite app_nil_r|..];
      intros e He; destruct_bools; apply Z.eqb_neq || apply Z.eqb_eq; [specialize (Hhi e He)|by apply Hm|specialize (Hlo e He)]; lia.
  - rewrite (filter_all _ lo), (filter_none _ mid), (filter_all _ hi); [done|..]; intros e He.
    + specialize (Hhi e He). apply negb_true_iff, Z.eqb_neq. lia.
    + apply negb_false_iff, Z.eqb_eq. by apply Hm.
    + specialize (Hlo e He). apply negb_true_iff, Z.eqb_neq. lia.
Qed.

Lemma from_bound (passes : Z -> bool) k lo hi :
  (forall e, e ∈ lo -> passes (cmp (fst e) k) = true) -> (forall e, e ∈ hi -> passes (cmp (fst e) k) = false) ->
  from (fun a => passes (cmp a k)) (lo ++ hi) = hi.
Proof.
  intros Hlo Hhi. induction lo as [|e lo IH]; simpl.
  - destruct hi as [|e hi]; [done|]. simpl. by rewrite Hhi by apply list_elem_of_here.
  - rewrite Hlo by apply list_elem_of_here. apply IH. intros. apply Hlo. by apply list_elem_of_further.
Qed.

(** An entry with the key of a map is the only one. *)
Lemma find_split k l1 e l2 :
  ordered cmp false (l1 ++ e :: l2) -> cmp k (fst e) = 0 -> assoc_find cmp k (l1 ++ e :: l2) = Some e.
Proof.
  intros Ho He. apply assoc_find_app; [|done]. intros e' He'.
  apply ordered_app in Ho as (_ & _ & Hc). specialize (Hc e' e He' ltac:(set_solver)). unfold precedes in Hc.
  pose proof (cmp_zero cmp _ _ He) as He2. intros H0. pose proof (cmp_zero cmp _ _ H0).
  pose proof (cmp_trans cmp (fst e) k (fst e') ltac:(lia) ltac:(lia)). pose proof (cmp_flip cmp (fst e') (fst e)). lia.
Qed.

End Equal.

(** * Iterators *)

Section Iterators.
Context {V U : Type} `{HV : ObjectTraits V U} `{!TraitLaws V U}.
Context (duplicates : bool).
Implicit Types m : ordered_t V.
Implicit Types t : rbtree_t V.
Implicit Types l : list (V * V).
Implicit Types nodes : list addr.

Definition lookup_previous {A} (l : list A) (i : nat) : option A :=
  match i with O => None | S j => l !! j end.

Lemma chain_lookup (ns : gmap addr (rbtree_node V)) start nodes i a :
  chain ns start nodes None -> nodes !! i = Some a ->
  exists n, ns !! a = Some n /\ nd_next n = nodes !! S i /\
    nd_previous n = match i with O => start | S j => nodes !! j end.
Proof.
  revert start i. induction nodes as [|b nodes IH]; intros start i; [done|].
  intros [(n & Hn & Hp & Hx) Hc]. destruct i as [|i].
  - intros [= <-]. exists n. split_and!; [done|by destruct nodes|done].
  - intros Ha. destruct (IH _ _ Hc Ha) as (n' & Hn' & Hx' & Hp'). exists n'.
    split_and!; [done|done|]. rewrite Hp'. by destruct i.
Qed.

(** What the node of an entry knows. *)
Lemma node_facts t nodes l i a e :
  rbtree_inv t nodes l -> nodes !! i = Some a -> l !! i = Some e ->
  exists n, rb_nodes t !! a = Some n /\
    field_value (nd_key n) = Some (fst e) /\ field_value (nd_value n) = Some (snd e) /\
    nd_next n = nodes !! S i /\ nd_previous n = lookup_previous nodes i.
Proof.
  intros Hi Ha He. destruct (chain_lookup _ _ _ _ _ (th_chain _ _ (ri_threaded _ _ _ Hi)) Ha) as (n & Hn & Hx & Hp).
  pose proof (ri_entries _ _ _ Hi) as Hes. unfold entries in Hes.
  destruct (Forall2_lookup_lr _ _ _ _ _ _ Hes Ha He) as (n' & bk & bv & Hn' & Hk & Hv).
  rewrite Hn in Hn'. injection Hn' as <-. exists n. rewrite Hk, Hv. by split_and!.
Qed.

Lemma inv_lookup t nodes l i a : rbtree_inv t nodes l -> nodes !! i = Some a -> is_Some (l !! i).
Proof. intros Hi Ha%lookup_lt_Some. apply lookup_lt_is_Some_2. by rewrite <- (inv_length _ _ _ Hi). Qed.

Lemma first_lookup nodes : first nodes None = nodes !! O.
Proof. by destruct nodes. Qed.

Lemma final_lookup nodes : final None nodes = lookup_previous nodes (length nodes).
Proof. unfold final. rewrite last_lookup. destruct nodes; [done|]. simpl. by destruct (_ !! _). Qed.

(** The entry an iterator stands at. *)
Definition entry_of (map : option (ordered_t V)) (node : option addr) : option (option (V * V)) :=
  key ← ordered_iter_key map node;
  value ← ordered_iter_value map node;
  Some (key ≫= fun k => value ≫= fun v => Some (k, v)).

Lemma iterator_spec m nodes l i :
  ordered_inv duplicates m nodes l ->
  entry_of (Some m) (nodes !! i) = Some (l !! i) /\
  ((i < length l)%nat -> is_Some (nodes !! i) /\ ordered_iter_next (Some m) (nodes !! i) = Some (STL_OK, nodes !! S i)) /\
  ((i <= length l)%nat -> ordered_iter_prev (Some m) (nodes !! i) =
     Some (match i with O => (STL_NOT_FOUND, nodes !! i) | S j => (STL_OK, nodes !! j) end)).
Proof.
  intros (t & Ht & Hi & _). pose proof (inv_length _ _ _ Hi) as Hlen.
  unfold entry_of, ordered_iter_key, ordered_iter_value, ordered_iter_field, ordered_iter_next, ordered_iter_prev, ordered_tree.
  cbn [mbind option_bind]. rewrite Ht. destruct (nodes !! i) as [a|] eqn:Ha; cbn [is_null].
  - destruct (inv_lookup _ _ _ _ _ Hi Ha) as [e He]. destruct (node_facts _ _ _ _ _ _ Hi Ha He) as (n & Hn & Hk & Hv & Hx & Hp).
    cbn [deref mbind option_bind]. rewrite Hn, He. cbn [mbind option_bind]. rewrite Hk, Hv. cbn [mbind option_bind].
    split_and!; [by destruct e|by rewrite Hx|]. intros _. rewrite Hp. destruct i as [|j]; [done|]. cbn [lookup_previous].
    destruct (lookup_lt_is_Some_2 nodes j) as [b ->]; [|done]. apply lookup_lt_Some in Ha. lia.
  - apply lookup_ge_None in Ha. split_and!; [|intros; lia|].
    + symmetry. cbn [mbind option_bind]. f_equal. apply lookup_ge_None. lia.
    + intros Hle. assert (i = length nodes) as -> by lia.
      rewrite (th_tail _ _ (ri_threaded _ _ _ Hi)), final_lookup. destruct (length nodes) as [|j] eqn:Hn; cbn [lookup_previous]; [done|].
      destruct (lookup_lt_is_Some_2 nodes j) as [b ->]; [lia|done].
Qed.

Lemma iterator_key_spec m nodes l i :
  ordered_inv duplicates m nodes l -> ordered_iter_key (Some m) (nodes !! i) = Some (fst <$> l !! i).
Proof.
  intros (t & Ht & Hi & _). unfold ordered_iter_key, ordered_iter_field, ordered_tree.
  cbn [mbind option_bind]. rewrite Ht. destruct (nodes !! i) as [a|] eqn:Ha; cbn [is_null].
  - destruct (inv_lookup _ _ _ _ _ Hi Ha) as [e He]. destruct (node_facts _ _ _ _ _ _ Hi Ha He) as (n & Hn & Hk & _).
    cbn [deref mbind option_bind]. rewrite Hn, He. cbn [mbind option_bind]. by rewrite Hk.
  - apply lookup_ge_None in Ha. rewrite (inv_length _ _ _ Hi) in Ha. by rewrite (proj2 (lookup_ge_None l i)).
Qed.

(** From an iterator to the end, forwards and backwards. *)
Fixpoint walk (fuel : nat) (map : option (ordered_t V)) (node : option addr) : option (list (V * V)) :=
  if bool_decide (node = ordered_end) then Some []
  else
    match fuel with
    | O => None
    | S fuel =>
        entry ← entry_of map node; e ← entry;
        '(status, node) ← ordered_iter_next map node;
        if bool_decide (status = STL_OK) then rest ← walk fuel map node; Some (e :: rest) else None
    end.

Fixpoint walk_back (fuel : nat) (map : option (ordered_t V)) (node : option addr) : option (list (V * V)) :=
  '(status, node) ← ordered_iter_prev map node;
  if bool_decide (status = STL_OK) then
    match fuel with
    | O => None
    | S fuel => entry ← entry_of map node; e ← entry; rest ← walk_back fuel map node; Some (e :: rest)
    end
  else Some [].

Lemma walk_spec m nodes l fuel i :
  ordered_inv duplicates m nodes l -> (i <= length l)%nat -> (length l - i <= fuel)%nat ->
  walk fuel (Some m) (nodes !! i) = Some (drop i l).
Proof.
  intros Hinv. assert (length nodes = length l) as Hlen by (destruct Hinv as (t & _ & Hi & _); by eapply inv_length).
  revert i. induction fuel as [|fuel IH]; intros i Hle Hf; cbn [walk]; unfold ordered_end.
  { rewrite bool_decide_true by (apply lookup_ge_None; lia). by rewrite drop_ge by lia. }
  destruct (iterator_spec _ _ _ i Hinv) as (He & Hx & _). destruct (decide (i = length l)) as [->|Hne].
  - rewrite bool_decide_true by (apply lookup_ge_None; lia). by rewrite drop_ge by lia.
  - destruct Hx as [[a Ha] Hx]; [lia|]. rewrite bool_decide_false by (by rewrite Ha).
    rewrite He. destruct (lookup_lt_is_Some_2 l i ltac:(lia)) as [e Hl]. rewrite Hl. cbn [mbind option_bind].
    rewrite Hx. cbn [mbind option_bind]. rewrite bool_decide_true by done. rewrite IH by lia. cbn [mbind option_bind].
    by rewrite (drop_S _ _ _ Hl).
Qed.

Lemma walk_back_spec m nodes l fuel i :
  ordered_inv duplicates m nodes l -> (i <= length l)%nat -> (i <= fuel)%nat ->
  walk_back fuel (Some m) (nodes !! i) = Some (rev (take i l)).
Proof.
  intros Hinv. revert i. induction fuel as [|fuel IH]; intros i Hle Hf; cbn [walk_back];
    destruct (iterator_spec _ _ _ i Hinv) as (_ & _ & Hp); rewrite Hp by done; cbn [mbind option_bind];
    destruct i as [|j]; try lia; try done.
  destruct (iterator_spec _ _ _ j Hinv) as (He & _ & _). rewrite bool_decide_true by done.
  rewrite He. destruct (lookup_lt_is_Some_2 l j ltac:(lia)) as [e Hl]. rewrite Hl. cbn [mbind option_bind].
  rewrite IH by lia. cbn [mbind option_bind]. rewrite (take_S_r _ _ _ Hl), rev_unit. done.
Qed.

(** A range asked for its next entry until it has none. *)
Fixpoint range_walk (fuel : nat) (self : addr) (map : option (ordered_t V)) (cursor : range_cursor)
    : option (list (V * V)) :=
  '(entry, cursor) ← ordered_range_next self map (Some cursor);
  match entry with
  | None => Some []
  | Some e =>
      match fuel with
      | O => None
      | S fuel => cursor ← cursor; rest ← range_walk fuel self map cursor; Some (e :: rest)
      end
  end.

Lemma range_next_spec self m nodes l c i :
  ordered_inv duplicates m nodes l -> (i <= length l)%nat ->
  c = mk_range_cursor (nodes !! i) (Some self) \/ (i = 0%nat /\ c = mk_range_cursor None None) ->
  exists c', ordered_range_next self (Some m) (Some c) = Some (l !! i, Some c') /\
    ((i < length l)%nat -> c' = mk_range_cursor (nodes !! S i) (Some self)).
Proof.
  intros (t & Ht & Hi & _) Hle Hc. unfold ordered_range_next, ordered_tree. cbn [mbind option_bind]. rewrite Ht.
  assert (exists n0, negb (is_null (cur_owner c)) && negb (bool_decide (cur_owner c = Some self)) = false /\
    (if is_null (cur_owner c) then rb_head t else cur_node c) = nodes !! i /\ cur_node c = n0) as (n0 & -> & -> & ->).
  { destruct Hc as [->|[-> ->]]; eexists; cbn [cur_owner cur_node is_null negb andb]; split_and!; try done.
    - by rewrite bool_decide_true.
    - by rewrite (th_head _ _ (ri_threaded _ _ _ Hi)), first_lookup. }
  destruct (nodes !! i) as [a|] eqn:Ha; cbn [is_null].
  - destruct (inv_lookup _ _ _ _ _ Hi Ha) as [e He]. destruct (node_facts _ _ _ _ _ _ Hi Ha He) as (n & Hn & Hk & Hv & Hx & _).
    cbn [deref mbind option_bind]. rewrite Hn. cbn [mbind option_bind]. rewrite Hk, Hv, He, Hx. cbn [mbind option_bind].
    eexists. split; [by destruct e|done].
  - apply lookup_ge_None in Ha. rewrite (inv_length _ _ _ Hi) in Ha. eexists. split; [|lia].
    by rewrite (proj2 (lookup_ge_None l i)) by lia.
Qed.

Lemma range_walk_spec self m nodes l fuel c i :
  ordered_inv duplicates m nodes l -> (i <= length l)%nat -> (length l - i <= fuel)%nat ->
  c = mk_range_cursor (nodes !! i) (Some self) \/ (i = 0%nat /\ c = mk_range_cursor None None) ->
  range_walk fuel self (Some m) c = Some (drop i l).
Proof.
  intros Hinv. revert c i. induction fuel as [|fuel IH]; intros c i Hle Hf Hc; cbn [range_walk];
    destruct (range_next_spec self m nodes l c i Hinv Hle Hc) as (c' & -> & Hc'); cbn [mbind option_bind].
  - rewrite drop_ge, (proj2 (lookup_ge_None l i)) by lia. done.
  - destruct (l !! i) as [e|] eqn:He.
    + apply lookup_lt_Some in He as Hlt. rewrite (IH c' (S i)) by (lia || (left; by apply Hc')). cbn [mbind option_bind].
      by rewrite (drop_S _ _ _ He).
    + apply lookup_ge_None in He. by rewrite drop_ge.
Qed.

(** The iterator that [begin] makes. *)
Lemma begin_spec m nodes l : ordered_inv duplicates m nodes l -> ordered_begin (Some m) = nodes !! O.
Proof.
  intros (t & Ht & Hi & _). unfold ordered_begin, ordered_tree. cbn [mbind option_bind]. rewrite Ht. cbn [mbind option_bind].
  by rewrite (th_head _ _ (ri_threaded _ _ _ Hi)), first_lookup.
Qed.

Lemma end_spec m nodes l : ordered_inv duplicates m nodes l -> ordered_end = nodes !! length l.
Proof. intros (t & Ht & Hi & _). symmetry. apply lookup_ge_None. rewrite (inv_length _ _ _ Hi). done. Qed.

Lemma ordered_size_spec m nodes l :
  ordered_inv duplicates m nodes l -> ordered_size (Some m) = Z.of_nat (length l).
Proof. intros (t & Ht & Hi & _). unfold ordered_size, ordered_tree. cbn [mbind option_bind]. by rewrite Ht, (ri_size _ _ _ Hi). Qed.

(** * Searches *)

#[local] Abbreviation Laws m := (CompareLaws (ordered_compare duplicates m)).
#[local] Abbreviation cmp m := (ordered_compare duplicates m).

Lemma inv_tree m nodes l :
  ordered_inv duplicates m nodes l ->
  exists t, ordered_tree (Some m) = Some t /\ or_impl m = Some t /\ rbtree_inv t nodes l /\
    ordered_config duplicates m = rb_config t /\ cmp m = the_compare (rb_config t).
Proof.
  intros (t & Ht & Hi & _). exists t. unfold ordered_tree, ordered_compare, ordered_config.
  cbn [mbind option_bind]. by rewrite Ht.
Qed.

Lemma ordered_find_spec m nodes l k :
  ordered_inv duplicates m nodes l -> Laws m ->
  exists r, rbtree_find (ordered_tree (Some m)) (Some k) = Some r /\
    match r with
    | Some a => exists l1 e l2, l = l1 ++ e :: l2 /\ nodes !! length l1 = Some a /\ cmp m k (fst e) = 0
    | None => assoc_find (cmp m) k l = None
    end.
Proof.
  intros Hinv Hlaws. destruct (inv_tree _ _ _ Hinv) as (t & -> & _ & Hi & _ & E). rewrite E in *.
  destruct (rbtree_find_spec t nodes l k Hi Hlaws) as (r & Er & Hf). exists r. split; [done|].
  destruct r as [a|]; [|by apply assoc_find_none]. destruct Hf as (l1 & e & l2 & -> & Ha & Hk). by exists l1, e, l2.
Qed.

Lemma ordered_bound_spec m nodes l k (passes : Z -> bool) bound :
  ordered_inv duplicates m nodes l ->
  (forall t, or_impl m = Some t -> exists r, bound = Some r /\ bound_at t k passes nodes l r) ->
  exists lo hi, l = lo ++ hi /\ bound = Some (nodes !! length lo) /\
    (forall e, e ∈ lo -> passes (cmp m (fst e) k) = true) /\ (forall e, e ∈ hi -> passes (cmp m (fst e) k) = false).
Proof.
  intros Hinv H. destruct (inv_tree _ _ _ Hinv) as (t & _ & Ht & Hi & _ & ->).
  destruct (H t Ht) as (r & -> & lo & hi & -> & Hst & Hlo & Hhi). exists lo, hi. by rewrite Hst.
Qed.

Lemma ordered_lower_bound_spec m nodes l k :
  ordered_inv duplicates m nodes l -> Laws m ->
  exists lo hi, l = lo ++ hi /\ ordered_lower_bound (Some m) (Some k) = Some (nodes !! length lo) /\
    (forall e, e ∈ lo -> (cmp m (fst e) k <? 0) = true) /\ (forall e, e ∈ hi -> (cmp m (fst e) k <? 0) = false).
Proof.
  intros Hinv Hlaws. apply (ordered_bound_spec m nodes l k (fun c => c <? 0)); [done|]. intros t Ht.
  destruct (inv_tree _ _ _ Hinv) as (t' & E & Ht' & Hi & _ & Ec). rewrite Ht in Ht'. injection Ht' as <-.
  unfold ordered_lower_bound. rewrite E. rewrite Ec in Hlaws. by apply rbtree_lower_bound_spec.
Qed.

Lemma ordered_upper_bound_spec m nodes l k :
  ordered_inv duplicates m nodes l -> Laws m ->
  exists lo hi, l = lo ++ hi /\ ordered_upper_bound (Some m) (Some k) = Some (nodes !! length lo) /\
    (forall e, e ∈ lo -> (cmp m (fst e) k <=? 0) = true) /\ (forall e, e ∈ hi -> (cmp m (fst e) k <=? 0) = false).
Proof.
  intros Hinv Hlaws. apply (ordered_bound_spec m nodes l k (fun c => c <=? 0)); [done|]. intros t Ht.
  destruct (inv_tree _ _ _ Hinv) as (t' & E & Ht' & Hi & _ & Ec). rewrite Ht in Ht'. injection Ht' as <-.
  unfold ordered_upper_bound. rewrite E. rewrite Ec in Hlaws. by apply rbtree_upper_bound_spec.
Qed.

(** The two bounds of a key. *)
Lemma ordered_run_spec m nodes l k :
  ordered_inv duplicates m nodes l -> Laws m ->
  exists lo mid hi, l = lo ++ mid ++ hi /\ run_of (cmp m) k lo mid hi /\
    ordered_lower_bound (Some m) (Some k) = Some (nodes !! length lo) /\
    ordered_upper_bound (Some m) (Some k) = Some (nodes !! (length lo + length mid)%nat).
Proof.
  intros Hinv Hlaws. destruct (ordered_lower_bound_spec m nodes l k Hinv Hlaws) as (lo1 & hi1 & E1 & B1 & L1 & H1).
  destruct (ordered_upper_bound_spec m nodes l k Hinv Hlaws) as (lo2 & hi2 & E2 & B2 & L2 & H2).
  destruct (bounds_run (cmp m) k lo1 hi1 lo2 hi2) as (mid & -> & -> & Hrun); [congruence|..].
  - intros e He. by apply Z.ltb_lt, L1.
  - intros e He. by apply Z.ltb_ge, H1.
  - intros e He. by apply Z.leb_le, L2.
  - intros e He. by apply Z.leb_gt, H2.
  - exists lo1, mid, hi2. split_and!; [done|done|done|]. by rewrite B2, length_app.
Qed.

Lemma ordered_contains_spec m nodes l k :
  ordered_inv duplicates m nodes l -> Laws m ->
  ordered_contains (Some m) (Some k) = Some (negb (is_null (assoc_find (cmp m) k l))).
Proof.
  intros Hinv Hlaws. unfold ordered_contains. destruct (ordered_find_spec m nodes l k Hinv Hlaws) as (r & -> & Hr).
  cbn [mbind option_bind]. destruct r as [a|]; [|by rewrite Hr].
  destruct Hr as (l1 & e & l2 & -> & Ha & Hk). f_equal. cbn [is_null negb].
  destruct (assoc_find _ _ _) as [?|] eqn:E; [done|exfalso]. clear -E Hk.
  induction l1 as [|e1 l1 IH]; simpl in E; [by rewrite Hk in E|]. destruct (_ =? 0); [done|auto].
Qed.

End Iterators.

(** * The functions of only one of them *)

Section Removal.
Context {V U : Type} `{HV : ObjectTraits V U} `{!TraitLaws V U}.
Implicit Types w : object_world U.
Implicit Types m : ordered_t V.
Implicit Types t : rbtree_t V.
Implicit Types l : list (V * V).
Implicit Types nodes : list addr.
Implicit Types want : bool.

(** The objects of a removal that the caller was handed. *)
Definition taken_objects (c : rbtree_config) want : Z := if want then typed (rc_value_type c) else 0.

Section Both.
Context (duplicates : bool).

Lemma inv_split m n1 a n2 l1 e l2 nodes :
  ordered_inv duplicates m nodes (l1 ++ e :: l2) -> nodes !! length l1 = Some a ->
  n1 = take (length l1) nodes -> n2 = drop (S (length l1)) nodes ->
  nodes = n1 ++ a :: n2 /\ length n1 = length l1.
Proof.
  intros _ Ha -> ->. split; [by rewrite take_drop_middle|].
  rewrite length_take. apply lookup_lt_Some in Ha. lia.
Qed.

(** An entry of the tree goes. *)
Lemma tree_removed m t nodes l1 k v l2 a want w :
  ordered_inv duplicates m nodes (l1 ++ (k, v) :: l2) -> or_impl m = Some t -> nodes !! length l1 = Some a ->
  wp (rbtree_remove_node (Some t) (Some a) want) (fun r w' => exists t' nodes',
    r = (STL_OK, if want then Live v else Raw, Some t') /\ rb_config t' = rb_config t /\
    nodes' = delete (length l1) nodes /\
    (forall generation, ordered_inv duplicates (set_generation generation (set_impl (Some t') m)) nodes' (l1 ++ l2)) /\
    delta w w' (-3) (- typed (rc_key_type (rb_config t)) - typed (rc_value_type (rb_config t))
      + taken_objects (rb_config t) want)) w.
Proof.
  intros Hinv Ht Ha. pose proof Hinv as (t0 & Ht0 & Hi & Hd). rewrite Ht in Ht0. injection Ht0 as <-.
  destruct (inv_split _ _ _ _ _ _ _ _ Hinv Ha eq_refl eq_refl) as [E Hlen]. rewrite E in Hi.
  eapply wp_mono; [by apply (rbtree_remove_spec _ _ _ _ _ _ _ _ want w Hi)|].
  intros r w1 (t' & -> & Hi' & Hc & H1). eexists t', _. split_and!; [done|done|done| |].
  - intros g. exists t'. rewrite delete_take_drop. split_and!; [done|done|by rewrite Hc].
  - unfold taken_objects. destruct want; solve_delta.
Qed.

Lemma removed_counts m m' nodes nodes' l1 e l2 :
  ordered_inv duplicates m nodes (l1 ++ e :: l2) -> ordered_inv duplicates m' nodes' (l1 ++ l2) ->
  ordered_config duplicates m' = ordered_config duplicates m ->
  ordered_blocks m' - ordered_blocks m = -3 /\
  ordered_objects m' - ordered_objects m =
    - typed (rc_key_type (ordered_config duplicates m)) - typed (rc_value_type (ordered_config duplicates m)).
Proof.
  intros H1 H2 Hc. destruct (inv_counts _ _ _ _ H1) as [-> ->], (inv_counts _ _ _ _ H2) as [-> ->].
  rewrite Hc. unfold tree_blocks, tree_objects. rewrite !length_app. cbn [length]. lia.
Qed.

End Both.

(** ** Map *)

#[local] Abbreviation Laws dup m := (CompareLaws (ordered_compare dup m)).

Lemma map_get_spec m nodes l k :
  ordered_inv false m nodes l -> Laws false m ->
  map_get (Some m) (Some k) = Some (snd <$> assoc_find (ordered_compare false m) k l).
Proof.
  intros Hinv Hlaws. unfold map_get. destruct (ordered_find_spec _ m nodes l k Hinv Hlaws) as (r & -> & Hr).
  cbn [mbind option_bind]. destruct r as [a|]; cbn [is_null]; [|by rewrite Hr].
  destruct Hr as (l1 & e & l2 & -> & Ha & Hk). destruct (inv_tree _ _ _ _ Hinv) as (t & -> & Ht & Hi & _ & Ec).
  cbn [mbind option_bind].
  destruct (node_facts t nodes _ _ a e Hi Ha) as (n & Hn & _ & Hv & _); [by apply list_lookup_middle|].
  cbn [deref mbind option_bind]. rewrite Hn. cbn [mbind option_bind]. rewrite Hv. cbn [mbind option_bind].
  rewrite find_split; [done|done|by apply inv_config in Hinv as (_ & _ & Ho & _)|done].
Qed.

Lemma map_remove_spec m nodes l k want w :
  ordered_inv false m nodes l -> Laws false m ->
  wp (map_remove (Some m) (Some k) want) (fun r w' =>
    (assoc_find (ordered_compare false m) k l = None /\ r = (STL_NOT_FOUND, Raw, Some m) /\ delta w w' 0 0) \/
    (exists l1 e l2 m' nodes', l = l1 ++ e :: l2 /\ ordered_compare false m k (fst e) = 0 /\
       r = (STL_OK, if want then Live (snd e) else Raw, Some m') /\ ordered_inv false m' nodes' (l1 ++ l2) /\
       ordered_kept false m m' /\ or_generation m' = u64 (or_generation m + 1) /\
       delta w w' (ordered_blocks m' - ordered_blocks m)
         (ordered_objects m' - ordered_objects m + taken_objects (ordered_config false m) want))) w.
Proof.
  intros Hinv Hlaws. unfold map_remove. destruct (inv_tree _ _ _ _ Hinv) as (t & Et & Ht & Hi & Hcfg & Ec).
  destruct (ordered_find_spec _ m nodes l k Hinv Hlaws) as (r & Er & Hr). rewrite Et in *. cbn [is_null].
  eapply wp_bind, wp_reading; [exact Er|]. destruct r as [a|]; cbn [is_null].
  2: { apply wp_ret. left. split_and!; [done|done|apply delta_refl]. }
  destruct Hr as (l1 & [k' v] & l2 & -> & Ha & Hk).
  eapply wp_bind_mono; [by eapply tree_removed|]. intros r w1 (t' & nodes' & -> & Hc & _ & Hinv' & H1).
  rewrite bool_decide_true by done. apply wp_ret. right. specialize (Hinv' (u64 (or_generation m + 1))). fold (ordered_changed (Some t') m) in Hinv'.
  assert (ordered_kept false m (ordered_changed (Some t') m)) as Hkept by (by eapply ordered_kept_impl).
  exists l1, (k', v), l2, (ordered_changed (Some t') m), nodes'. split_and!; try done.
  destruct (removed_counts _ _ _ _ _ _ _ _ Hinv Hinv' (ok_config _ _ _ Hkept)) as [-> ->]. by rewrite Hcfg.
Qed.

(** ** Multimap *)

Lemma count_until_spec t nodes l fuel i j count :
  rbtree_inv t nodes l -> (i <= j <= length l)%nat -> (j - i <= fuel)%nat ->
  0 <= count -> count + Z.of_nat (j - i) <= SIZE_MAX ->
  count_until fuel t (nodes !! i) (nodes !! j) count = Some (count + Z.of_nat (j - i)).
Proof.
  intros Hi. pose proof (inv_length _ _ _ Hi) as Hlen. pose proof (inv_distinct _ _ _ Hi) as Hd.
  revert i count. induction fuel as [|fuel IH]; intros i count Hij Hf Hc Hm; cbn [count_until].
  - assert (i = j) as -> by lia. rewrite bool_decide_true by done. f_equal. lia.
  - destruct (decide (i = j)) as [->|Hne]; [rewrite bool_decide_true by done; f_equal; lia|].
    destruct (lookup_lt_is_Some_2 nodes i ltac:(lia)) as [a Ha], (lookup_lt_is_Some_2 l i ltac:(lia)) as [e He].
    rewrite bool_decide_false by (rewrite Ha; intros E; symmetry in E; by pose proof (NoDup_lookup _ _ _ _ Hd Ha E)).
    destruct (node_facts t nodes l i a e Hi Ha He) as (n & Hn & _ & _ & Hx & _).
    rewrite Ha. cbn [deref mbind option_bind]. rewrite Hn. cbn [mbind option_bind]. rewrite Hx.
    rewrite size_inc_small by lia. rewrite IH by lia. f_equal. lia.
Qed.

Lemma multimap_count_spec m nodes l k :
  ordered_inv true m nodes l -> Laws true m ->
  multimap_count (Some m) (Some k) = Some (Z.of_nat (length (with_key (ordered_compare true m) k l))).
Proof.
  intros Hinv Hlaws. destruct (ordered_run_spec _ m nodes l k Hinv Hlaws) as (lo & mid & hi & El & Hrun & E1 & E2).
  destruct (inv_tree _ _ _ _ Hinv) as (t & Et & Ht & Hi & _ & _).
  unfold multimap_count, ordered_lower_bound, ordered_upper_bound in *. rewrite Et in *. cbn [is_null]. rewrite E1. cbn [mbind option_bind].
  rewrite E2. cbn [mbind option_bind]. destruct (run_with _ _ _ _ _ Hrun) as [Hw _]. subst l. rewrite Hw.
  pose proof (ri_limit _ _ _ Hi) as Hl. pose proof (rk_limit _ (ri_config _ _ _ Hi)) as Hlim. unfold is_size in Hlim.
  assert (Z.of_nat (length (lo ++ mid ++ hi)) = Z.of_nat (length lo) + Z.of_nat (length mid) + Z.of_nat (length hi)) as Hsum
    by (rewrite !length_app; lia).
  assert (length (lo ++ mid ++ hi) = length lo + (length mid + length hi))%nat as Hsum' by (by rewrite !length_app).
  rewrite (count_until_spec t nodes (lo ++ mid ++ hi)); [f_equal; lia|done|lia| |lia|unfold SIZE_MAX in *; lia].
  unfold enough. rewrite (ri_store _ _ _ Hi). lia.
Qed.

(** The last entry with the key goes. *)
Lemma multimap_remove_spec m nodes l k want w :
  ordered_inv true m nodes l -> Laws true m ->
  wp (multimap_remove (Some m) (Some k) want) (fun r w' =>
    (with_key (ordered_compare true m) k l = [] /\ r = (false, Raw, Some m) /\ delta w w' 0 0) \/
    (exists l1 e l2 m' nodes', l = l1 ++ e :: l2 /\ ordered_compare true m (fst e) k = 0 /\
       with_key (ordered_compare true m) k l2 = [] /\
       r = (true, if want then Live (snd e) else Raw, Some m') /\ ordered_inv true m' nodes' (l1 ++ l2) /\
       ordered_kept true m m' /\ or_generation m' = u64 (or_generation m + 1) /\
       delta w w' (ordered_blocks m' - ordered_blocks m)
         (ordered_objects m' - ordered_objects m + taken_objects (ordered_config true m) want))) w.
Proof.
  intros Hinv Hlaws. destruct (ordered_run_spec _ m nodes l k Hinv Hlaws) as (lo & mid & hi & El & Hrun & E1 & E2).
  destruct (inv_tree _ _ _ _ Hinv) as (t & Et & Ht & Hi & Hcfg & _).
  pose proof (inv_length _ _ _ Hi) as Hlen. pose proof (inv_distinct _ _ _ Hi) as Hd.
  assert (length l = length lo + (length mid + length hi))%nat as Hsum by (by rewrite El, !length_app).
  unfold multimap_remove, ordered_lower_bound, ordered_upper_bound in *. rewrite Et in *. cbn [is_null].
  eapply wp_bind, wp_reading; [exact E1|]. eapply wp_bind, wp_reading; [exact E2|].
  destruct mid as [|e mid] using rev_ind; [|clear IHmid].
  - rewrite Nat.add_0_r, bool_decide_true by done. apply wp_ret. left. destruct (run_with _ _ _ _ _ Hrun) as [Hw _].
    rewrite El, Hw. split_and!; [done|done|apply delta_refl].
  - rewrite length_app in Hsum |- *. cbn [length] in Hsum |- *.
    destruct (lookup_lt_is_Some_2 nodes (length lo) ltac:(lia)) as [a0 Ha0].
    destruct (lookup_lt_is_Some_2 nodes (length lo + length mid) ltac:(lia)) as [a Ha].
    rewrite bool_decide_false by (rewrite Ha0; intros E; symmetry in E; pose proof (NoDup_lookup _ _ _ _ Hd Ha0 E); lia).
    destruct e as [k' v]. assert (l = (lo ++ mid) ++ (k', v) :: hi) as El' by (by rewrite El, <- !app_assoc).
    eapply wp_bind_mono with (R := fun r w' => r = Some a /\ w' = w).
    { replace (length lo + (length mid + 1))%nat with (S (length lo + length mid)) by lia.
      destruct (nodes !! S (length lo + length mid)) as [b|] eqn:Hb; cbn [is_null].
      - destruct (inv_lookup _ _ _ _ _ Hi Hb) as [e' He']. destruct (node_facts t nodes l _ b e' Hi Hb He') as (n & Hn & _ & _ & _ & Hp).
        eapply wp_bind, wp_reading; [exact Hn|]. apply wp_ret. by rewrite Hp, <- Ha.
      - apply wp_ret. split; [|done]. rewrite (th_tail _ _ (ri_threaded _ _ _ Hi)), final_lookup.
        apply lookup_ge_None in Hb. replace (length nodes) with (S (length lo + length mid)) by lia. done. }
    intros ? ? [-> ->]. rewrite <- length_app in Ha. rewrite El' in Hinv.
    eapply wp_bind_mono; [by eapply tree_removed|]. intros r w1 (t' & nodes' & -> & Hc & _ & Hinv' & H1).
    rewrite bool_decide_true by done. apply wp_ret. right. specialize (Hinv' (u64 (or_generation m + 1))). fold (ordered_changed (Some t') m) in Hinv'.
    assert (ordered_kept true m (ordered_changed (Some t') m)) as Hkept by (by eapply ordered_kept_impl).
    exists (lo ++ mid), (k', v), hi, (ordered_changed (Some t') m), nodes'. split_and!; try done.
    + apply (run_equal _ _ _ _ _ Hrun (k', v)). set_solver.
    + apply filter_none. intros e He. apply Z.eqb_neq. pose proof (run_after _ _ _ _ _ Hrun e He). lia.
    + destruct (removed_counts _ _ _ _ _ _ _ _ Hinv Hinv' (ok_config _ _ _ Hkept)) as [-> ->]. by rewrite Hcfg.
Qed.

(** The run goes, from its first entry on. *)
Lemma erase_until_spec m nodes lo mid hi fuel t removed w :
  ordered_inv true m nodes (lo ++ mid ++ hi) -> or_impl m = Some t -> (length mid <= fuel)%nat ->
  0 <= removed -> removed + Z.of_nat (length mid) <= SIZE_MAX ->
  wp (erase_until fuel t (nodes !! length lo) (nodes !! (length lo + length mid)%nat) removed) (fun r w' =>
    exists t' nodes', r = (removed + Z.of_nat (length mid), t') /\ rb_config t' = rb_config t /\
      (forall generation, ordered_inv true (set_generation generation (set_impl (Some t') m)) nodes' (lo ++ hi)) /\
      (mid = [] -> t' = t) /\
      delta w w' (-3 * Z.of_nat (length mid))
        (- (Z.of_nat (length mid) * (typed (rc_key_type (rb_config t)) + typed (rc_value_type (rb_config t)))))) w.
Proof.
  revert m nodes mid t removed w. induction fuel as [|fuel IH]; intros m nodes mid t removed w Hinv Ht Hf Hr Hm;
    (destruct mid as [|[k v] mid]; [|]); cbn [length] in *; try lia.
  1, 2: cbn [erase_until]; rewrite Nat.add_0_r, bool_decide_true by done; apply wp_ret; exists t, nodes;
    (split_and!; [f_equal; lia|done| |done|]); [intros g; destruct Hinv as (t0 & Ht0 & Hi & Hd); exists t; simpl in Hi; rewrite Ht in Ht0; by injection Ht0 as <-|].
  1, 2: rewrite Z.mul_0_r, Z.mul_0_l; apply delta_refl.
  pose proof Hinv as (t0 & Ht0 & Hi & _). rewrite Ht in Ht0. injection Ht0 as <-.
  pose proof (inv_length _ _ _ Hi) as Hlen. pose proof (inv_distinct _ _ _ Hi) as Hd. rewrite !length_app in Hlen. cbn [length] in Hlen.
  destruct (lookup_lt_is_Some_2 nodes (length lo) ltac:(lia)) as [a Ha]. cbn [erase_until].
  rewrite bool_decide_false by (rewrite Ha; intros E; symmetry in E; pose proof (NoDup_lookup _ _ _ _ Hd Ha E); lia).
  destruct (node_facts t nodes _ _ a (k, v) Hi Ha) as (n & Hn & _ & _ & Hx & _); [by apply list_lookup_middle|].
  rewrite Ha. eapply wp_bind, wp_reading; [exact Hn|].
  eapply wp_bind_mono; [by eapply (tree_removed true m t nodes lo k v (mid ++ hi) a false)|].
  intros r w1 (t' & nodes' & -> & Hc & En & Hinv' & H1). eapply wp_bind, wp_reading; [done|].
  rewrite bool_decide_true by done. specialize (Hinv' (or_generation m)).
  assert (nd_next n = nodes' !! length lo) as ->
    by (rewrite Hx, En, list_lookup_delete_ge by lia; f_equal; lia).
  replace (nodes !! (length lo + S (length mid))%nat) with (nodes' !! (length lo + length mid)%nat)
    by (rewrite En, list_lookup_delete_ge by lia; f_equal; lia).
  rewrite size_inc_small by lia.
  eapply wp_mono; [apply (IH _ nodes' mid t' (removed + 1) w1 Hinv' eq_refl); lia|].
  intros r w2 (t2 & nodes2 & -> & Hc2 & Hinv2 & _ & H2). exists t2, nodes2. rewrite Hc in *. unfold taken_objects in H1.
  split_and!; [f_equal; lia|congruence|done|done|]. solve_delta.
Qed.

Lemma multimap_erase_spec m nodes l k w :
  ordered_inv true m nodes l -> Laws true m ->
  wp (multimap_erase (Some m) (Some k)) (fun r w' => exists m' nodes',
    r = (Z.of_nat (length (with_key (ordered_compare true m) k l)), Some m') /\
    ordered_inv true m' nodes' (without_key (ordered_compare true m) k l) /\ ordered_kept true m m' /\
    or_generation m' = (if bool_decide (with_key (ordered_compare true m) k l = []) then or_generation m
      else u64 (or_generation m + 1)) /\
    delta w w' (ordered_blocks m' - ordered_blocks m) (ordered_objects m' - ordered_objects m)) w.
Proof.
  intros Hinv Hlaws. destruct (ordered_run_spec _ m nodes l k Hinv Hlaws) as (lo & mid & hi & El & Hrun & E1 & E2).
  destruct (inv_tree _ _ _ _ Hinv) as (t & Et & Ht & Hi & Hcfg & _). destruct (run_with _ _ _ _ _ Hrun) as [Hw Hwo].
  rewrite <- El in Hw, Hwo. rewrite Hw, Hwo.
  unfold multimap_erase, ordered_lower_bound, ordered_upper_bound in *. rewrite Et in *. cbn [is_null].
  eapply wp_bind, wp_reading; [exact E1|]. eapply wp_bind, wp_reading; [exact E2|].
  pose proof (ri_limit _ _ _ Hi) as Hl. pose proof (rk_limit _ (ri_config _ _ _ Hi)) as Hlim. unfold is_size in Hlim.
  assert (length l = length lo + (length mid + length hi))%nat as Hsum by (by rewrite El, !length_app).
  pose proof Hinv as Hinv0. rewrite El in Hinv0.
  eapply wp_bind_mono; [apply (erase_until_spec m nodes lo mid hi _ _ 0 w Hinv0 Ht)|]; [|lia|unfold SIZE_MAX in *; lia|].
  { unfold enough. rewrite (ri_store _ _ _ Hi). lia. }
  intros r w1 (t' & nodes' & -> & Hc & Hinv' & Hsame & H1).
  assert (forall g, ordered_kept true m (set_generation g (set_impl (Some t') m))) as Hkept
    by (intros; by eapply ordered_kept_impl).
  assert (forall g, delta w w1 (ordered_blocks (set_generation g (set_impl (Some t') m)) - ordered_blocks m)
    (ordered_objects (set_generation g (set_impl (Some t') m)) - ordered_objects m)) as Hdelta.
  { intros g. destruct (inv_counts _ _ _ _ Hinv) as [-> ->], (inv_counts _ _ _ _ (Hinv' g)) as [-> ->].
    rewrite (ok_config _ _ _ (Hkept g)), Hcfg. unfold tree_blocks, tree_objects. rewrite Hsum, length_app. solve_delta. }
  rewrite Z.add_0_l. destruct (_ =? 0) eqn:H0; destruct_bools; apply wp_ret.
  - assert (mid = []) as -> by (destruct mid; [done|simpl in H0; lia]).
    exists (set_generation (or_generation m) (set_impl (Some t') m)), nodes'. by split_and!.
  - exists (ordered_changed (Some t') m), nodes'. rewrite bool_decide_false by (by intros ->). split_and!; try done; [apply Hinv'|apply Hkept|apply Hdelta].
Qed.

End Removal.
