(* ===== verification/CstlMapTheorems.v ===== *)
(** A map and a multimap are sorted association lists: whatever operations are called,
    every answer is one that the list of entries in the order of their keys gives, every
    failure changes nothing, and what the tree allocates and constructs is exactly what
    its entries need. *)

From S2P Require Import Prelude.
From S2P Require Import CMetaType.
From S2P Require Import CstlSupport.
From S2P Require Import CstlObjects.
From S2P Require Import CstlSequenceSpecs.
From S2P Require Import CstlRbTree.
From S2P Require Import CstlRbShape.
From S2P Require Import CstlRbOps.
From S2P Require Import CstlMap.
From S2P Require Import CstlMapOps.

(** * Calls and their answers *)

(** The last calls of the list are those of only one of the two. *)
Inductive ordered_call (V : Type) :=
  | OrderedPut (key value : V)
  | OrderedContains (key : V)
  | OrderedLowerBound (key : V)
  | OrderedUpperBound (key : V)
  | OrderedForward
  | OrderedBackward
  | OrderedRange (self : addr)
  | OrderedSize
  | OrderedClear
  | MapGet (key : V)
  | MapRemove (key : V) (want : bool)
  | MultimapCount (key : V)
  | MultimapRemove (key : V) (want : bool)
  | MultimapErase (key : V).
Arguments OrderedPut {V} key value.
Arguments OrderedContains {V} key.
Arguments OrderedLowerBound {V} key.
Arguments OrderedUpperBound {V} key.
Arguments OrderedForward {V}.
Arguments OrderedBackward {V}.
Arguments OrderedRange {V} self.
Arguments OrderedSize {V}.
Arguments OrderedClear {V}.
Arguments MapGet {V} key.
Arguments MapRemove {V} key want.
Arguments MultimapCount {V} key.
Arguments MultimapRemove {V} key want.
Arguments MultimapErase {V} key.

Inductive ordered_answer (V : Type) :=
  | OrderedStatus (status : stl_status)
  | OrderedTaken (status : stl_status) (out : cell V)
  | OrderedRemoved (removed : bool) (out : cell V)
  | OrderedFlag (flag : bool)
  | OrderedCount (count : Z)
  | OrderedValue (value : option V)
  | OrderedEntry (entry : option (V * V))
  | OrderedEntries (entries : list (V * V))
  | OrderedCleared.
Arguments OrderedStatus {V} status.
Arguments OrderedTaken {V} status out.
Arguments OrderedRemoved {V} removed out.
Arguments OrderedFlag {V} flag.
Arguments OrderedCount {V} count.
Arguments OrderedValue {V} value.
Arguments OrderedEntry {V} entry.
Arguments OrderedEntries {V} entries.
Arguments OrderedCleared {V}.

(** The calls of a map, or of a multimap when [duplicates]. *)
Definition ordered_call_ok {V} (duplicates : bool) (call : ordered_call V) : Prop :=
  match call with
  | MapGet _ | MapRemove _ _ => duplicates = false
  | MultimapCount _ | MultimapRemove _ _ | MultimapErase _ => duplicates = true
  | _ => True
  end.

Section Calls.
Context {V U : Type} `{HV : ObjectTraits V U}.
Context (duplicates : bool) (container_desc : addr).
#[local] Abbreviation ordered_map := (ordered_t V).

(** Iterators are used at once: an iterator answers for the map it was made from. *)
Definition run_ordered_call (call : ordered_call V) (m : option ordered_map)
    : store U (ordered_answer V * option ordered_map) :=
  let fuel := S (Z.to_nat (ordered_size m)) in
  match call with
  | OrderedPut k v =>
      let* (status, m) := ordered_put duplicates container_desc m (Some k) (Some v) in
      ret (OrderedStatus status, m)
  | OrderedContains k => let* b := reading (ordered_contains m (Some k)) in ret (OrderedFlag b, m)
  | OrderedLowerBound k =>
      let* e := reading (node ← ordered_lower_bound m (Some k); entry_of m node) in ret (OrderedEntry e, m)
  | OrderedUpperBound k =>
      let* e := reading (node ← ordered_upper_bound m (Some k); entry_of m node) in ret (OrderedEntry e, m)
  | OrderedForward => let* l := reading (walk fuel m (ordered_begin m)) in ret (OrderedEntries l, m)
  | OrderedBackward => let* l := reading (walk_back fuel m ordered_end) in ret (OrderedEntries l, m)
  | OrderedRange self =>
      let* l := reading (range_walk fuel self m (mk_range_cursor None None)) in ret (OrderedEntries l, m)
  | OrderedSize => ret (OrderedCount (ordered_size m), m)
  | OrderedClear => let* m := ordered_clear m in ret (OrderedCleared, m)
  | MapGet k => let* v := reading (map_get m (Some k)) in ret (OrderedValue v, m)
  | MapRemove k want =>
      let* (status, out, m) := map_remove m (Some k) want in ret (OrderedTaken status out, m)
  | MultimapCount k => let* n := reading (multimap_count m (Some k)) in ret (OrderedCount n, m)
  | MultimapRemove k want =>
      let* (removed, out, m) := multimap_remove m (Some k) want in ret (OrderedRemoved removed out, m)
  | MultimapErase k => let* (n, m) := multimap_erase m (Some k) in ret (OrderedCount n, m)
  end.

Fixpoint run_ordered_calls (calls : list (ordered_call V)) (m : option ordered_map)
    : store U (list (ordered_answer V) * option ordered_map) :=
  match calls with
  | [] => ret ([], m)
  | call :: calls =>
      let* (a, m) := run_ordered_call call m in
      let* (answers, m) := run_ordered_calls calls m in
      ret (a :: answers, m)
  end.

(** ** The sorted association list *)

(** What a sorted list of entries may answer, and its entries then.  A multimap removes
    the last entry with the key. *)
Inductive ordered_answers (cmp : V -> V -> Z) (limit : Z) (l : list (V * V)) :
    ordered_call V -> ordered_answer V -> list (V * V) -> Prop :=
  | oa_put k v l' :
      l' = assoc_put cmp duplicates k v l -> Z.of_nat (length l') <= limit ->
      ordered_answers cmp limit l (OrderedPut k v) (OrderedStatus STL_OK) l'
  | oa_put_no_room k v status :
      no_room status ->
      (limit < Z.of_nat (length (assoc_put cmp duplicates k v l)) -> status = STL_CAPACITY_EXCEEDED) ->
      ordered_answers cmp limit l (OrderedPut k v) (OrderedStatus status) l
  | oa_contains k :
      ordered_answers cmp limit l (OrderedContains k) (OrderedFlag (negb (is_null (assoc_find cmp k l)))) l
  | oa_lower_bound k :
      ordered_answers cmp limit l (OrderedLowerBound k)
        (OrderedEntry (head (from (fun a => cmp a k <? 0) l))) l
  | oa_upper_bound k :
      ordered_answers cmp limit l (OrderedUpperBound k)
        (OrderedEntry (head (from (fun a => cmp a k <=? 0) l))) l
  | oa_forward : ordered_answers cmp limit l OrderedForward (OrderedEntries l) l
  | oa_backward : ordered_answers cmp limit l OrderedBackward (OrderedEntries (rev l)) l
  | oa_range self : ordered_answers cmp limit l (OrderedRange self) (OrderedEntries l) l
  | oa_size : ordered_answers cmp limit l OrderedSize (OrderedCount (Z.of_nat (length l))) l
  | oa_clear : ordered_answers cmp limit l OrderedClear OrderedCleared []
  | oa_get k : ordered_answers cmp limit l (MapGet k) (OrderedValue (snd <$> assoc_find cmp k l)) l
  | oa_take k want l1 e l2 :
      l = l1 ++ e :: l2 -> cmp k (fst e) = 0 ->
      ordered_answers cmp limit l (MapRemove k want)
        (OrderedTaken STL_OK (if want : bool then Live (snd e) else Raw)) (l1 ++ l2)
  | oa_take_none k want :
      assoc_find cmp k l = None ->
      ordered_answers cmp limit l (MapRemove k want) (OrderedTaken STL_NOT_FOUND Raw) l
  | oa_count k :
      ordered_answers cmp limit l (MultimapCount k) (OrderedCount (Z.of_nat (length (with_key cmp k l)))) l
  | oa_remove k want l1 e l2 :
      l = l1 ++ e :: l2 -> cmp (fst e) k = 0 -> with_key cmp k l2 = [] ->
      ordered_answers cmp limit l (MultimapRemove k want)
        (OrderedRemoved true (if want : bool then Live (snd e) else Raw)) (l1 ++ l2)
  | oa_remove_none k want :
      with_key cmp k l = [] ->
      ordered_answers cmp limit l (MultimapRemove k want) (OrderedRemoved false Raw) l
  | oa_erase k :
      ordered_answers cmp limit l (MultimapErase k) (OrderedCount (Z.of_nat (length (with_key cmp k l))))
        (without_key cmp k l).

Inductive ordered_answers_all (cmp : V -> V -> Z) (limit : Z) :
    list (V * V) -> list (ordered_call V) -> list (ordered_answer V) -> list (V * V) -> Prop :=
  | ordered_answers_nil l : ordered_answers_all cmp limit l [] [] l
  | ordered_answers_cons l call a l1 calls as_ l2 :
      ordered_answers cmp limit l call a l1 -> ordered_answers_all cmp limit l1 calls as_ l2 ->
      ordered_answers_all cmp limit l (call :: calls) (a :: as_) l2.

(** The values that removals handed to the caller. *)
Definition ordered_handed_out (c : rbtree_config) (a : ordered_answer V) : Z :=
  match a with
  | OrderedTaken _ (Live _) | OrderedRemoved _ (Live _) => typed (rc_value_type c)
  | _ => 0
  end.

Definition ordered_all_handed_out (c : rbtree_config) (as_ : list (ordered_answer V)) : Z :=
  foldr (fun a n => ordered_handed_out c a + n) 0 as_.

End Calls.

Section Refinement.
Context {V U : Type} `{HV : ObjectTraits V U} `{!TraitLaws V U}.
Context (duplicates : bool) (container_desc : addr).
Implicit Types w : object_world U.
Implicit Types m : ordered_t V.
Implicit Types l : list (V * V).
Implicit Types nodes : list addr.
#[local] Abbreviation run_call := (run_ordered_call duplicates container_desc).
#[local] Abbreviation run_calls := (run_ordered_calls duplicates container_desc).
#[local] Abbreviation cmp m := (ordered_compare duplicates m).
#[local] Abbreviation Laws m := (CompareLaws (ordered_compare duplicates m)).

Definition ordered_call_sound m l call (r : ordered_answer V * option (ordered_t V)) w w' : Prop :=
  exists a m' l' nodes', r = (a, Some m') /\ ordered_inv duplicates m' nodes' l' /\ ordered_kept duplicates m m' /\
    ordered_answers duplicates (cmp m) (ordered_limit duplicates m) l call a l' /\
    delta w w' (ordered_blocks m' - ordered_blocks m)
      (ordered_objects m' - ordered_objects m + ordered_handed_out (ordered_config duplicates m) a).

(** A call that answers without touching the map. *)
Lemma answered_sound m l nodes call a w :
  ordered_inv duplicates m nodes l -> ordered_handed_out (ordered_config duplicates m) a = 0 ->
  ordered_answers duplicates (cmp m) (ordered_limit duplicates m) l call a l ->
  ordered_call_sound m l call (a, Some m) w w.
Proof.
  intros Hm Hh Ha. exists a, m, l, nodes. split_and!; try done. rewrite Hh, !Z.sub_diag. apply delta_refl.
Qed.

Lemma answered_wp {A} m l nodes call (x : option A) y a w :
  ordered_inv duplicates m nodes l -> x = Some y -> ordered_handed_out (ordered_config duplicates m) (a y) = 0 ->
  ordered_answers duplicates (cmp m) (ordered_limit duplicates m) l call (a y) l ->
  wp (let* y := reading x in ret (a y, Some m)) (fun r w' => ordered_call_sound m l call r w w') w.
Proof.
  intros Hm Hx Hh Ha. eapply wp_bind, wp_reading; [exact Hx|]. by eapply wp_ret, answered_sound.
Qed.

(** The entry at a bound. *)
Lemma entry_at_bound m nodes lo hi :
  ordered_inv duplicates m nodes (lo ++ hi) -> entry_of (Some m) (nodes !! length lo) = Some (head hi).
Proof.
  intros Hinv. destruct (iterator_spec _ _ _ _ (length lo) Hinv) as (-> & _). f_equal.
  rewrite lookup_app_r, Nat.sub_diag by lia. by destruct hi.
Qed.

Lemma lower_bound_sound m l nodes k w :
  ordered_inv duplicates m nodes l -> Laws m ->
  wp (run_call (OrderedLowerBound k) (Some m)) (fun r w' => ordered_call_sound m l (OrderedLowerBound k) r w w') w.
Proof.
  intros Hm Hl. destruct (ordered_lower_bound_spec _ m nodes l k Hm Hl) as (lo & hi & -> & Eb & Hlo & Hhi).
  eapply answered_wp with (y := head hi); [done| |done|].
  - rewrite Eb. cbn [mbind option_bind]. by apply entry_at_bound.
  - rewrite <- (from_bound (cmp m) (fun c => c <? 0) k lo hi Hlo Hhi) at 2. constructor.
Qed.

Lemma upper_bound_sound m l nodes k w :
  ordered_inv duplicates m nodes l -> Laws m ->
  wp (run_call (OrderedUpperBound k) (Some m)) (fun r w' => ordered_call_sound m l (OrderedUpperBound k) r w w') w.
Proof.
  intros Hm Hl. destruct (ordered_upper_bound_spec _ m nodes l k Hm Hl) as (lo & hi & -> & Eb & Hlo & Hhi).
  eapply answered_wp with (y := head hi); [done| |done|].
  - rewrite Eb. cbn [mbind option_bind]. by apply entry_at_bound.
  - rewrite <- (from_bound (cmp m) (fun c => c <=? 0) k lo hi Hlo Hhi) at 2. constructor.
Qed.

End Refinement.

Section Calls.
Context {V U : Type} `{HV : ObjectTraits V U} `{!TraitLaws V U}.
Context (container_desc : addr).
Implicit Types w : object_world U.
Implicit Types m : ordered_t V.
Implicit Types l : list (V * V).
Implicit Types nodes : list addr.
#[local] Abbreviation run_call dup := (run_ordered_call dup container_desc).
#[local] Abbreviation run_calls dup := (run_ordered_calls dup container_desc).
#[local] Abbreviation Laws dup m := (CompareLaws (ordered_compare dup m)).

(** The calls of both. *)
Lemma shared_call_spec dup m l nodes call w :
  ordered_inv dup m nodes l -> Laws dup m ->
  match call with
  | MapGet _ | MapRemove _ _ | MultimapCount _ | MultimapRemove _ _ | MultimapErase _ => False
  | _ => True
  end ->
  wp (run_call dup call (Some m)) (fun r w' => ordered_call_sound dup m l call r w w') w.
Proof.
  intros Hm Hl. pose proof (ordered_size_spec _ _ _ _ Hm) as Hs.
  destruct call as [k v|k|k|k| | |self| | |k|k want|k|k want|k]; intros Hok; try done.
  - eapply wp_bind_mono; [by apply ordered_put_spec|].
    intros r w1 [(m' & nodes' & -> & Hm' & Hk & _ & Hlim & H1)|(status & -> & Hn & Hfull & H1)]; apply wp_ret.
    + do 4 eexists. split_and!; [done|done|done|by constructor|]. simpl. by rewrite Z.add_0_r.
    + exists (OrderedStatus status), m, l, nodes. split_and!; [done|done|done|by constructor|].
      simpl. by rewrite !Z.sub_diag.
  - eapply answered_wp with (a := OrderedFlag); [done|by eapply ordered_contains_spec|done|constructor].
  - by eapply lower_bound_sound.
  - by eapply upper_bound_sound.
  - eapply answered_wp with (y := l); [done| |done|constructor]. rewrite (begin_spec _ _ _ _ Hm).
    erewrite walk_spec by (done || (rewrite ?Hs; lia)). done.
  - eapply answered_wp with (y := rev l); [done| |done|constructor]. rewrite (end_spec _ _ _ _ Hm).
    erewrite walk_back_spec by (done || (rewrite ?Hs; lia)). by rewrite firstn_all.
  - eapply answered_wp with (y := l); [done| |done|constructor].
    erewrite (range_walk_spec dup self m nodes l _ _ 0) by (done || (right; done) || (rewrite ?Hs; lia)). done.
  - apply wp_ret. eapply answered_sound; [done|done|]. rewrite Hs. constructor.
  - eapply wp_bind_mono; [by eapply ordered_clear_spec|]. intros r w1 (m' & -> & Hm' & Hk & H1). apply wp_ret.
    exists OrderedCleared, m', [], []. split_and!; [done|done|done|constructor|]. simpl. by rewrite Z.add_0_r.
Qed.

Lemma map_call_spec m l nodes call w :
  ordered_inv false m nodes l -> Laws false m -> ordered_call_ok false call ->
  wp (run_call false call (Some m)) (fun r w' => ordered_call_sound false m l call r w w') w.
Proof.
  intros Hm Hl Hok. destruct call as [k v|k|k|k| | |self| | |k|k want|k|k want|k]; try done; try by eapply shared_call_spec.
  - eapply answered_wp with (a := OrderedValue); [done|by eapply map_get_spec|done|constructor].
  - eapply wp_bind_mono; [by eapply map_remove_spec|].
    intros r w1 [(Hf & -> & H1)|(l1 & e & l2 & m' & nodes' & -> & Hk & -> & Hm' & Hkept & _ & H1)]; apply wp_ret.
    + exists (OrderedTaken STL_NOT_FOUND Raw), m, l, nodes. split_and!; [done|done|done|by constructor|].
      simpl. by rewrite !Z.sub_diag.
    + do 2 eexists. exists (l1 ++ l2), nodes'. split_and!; [done|done|done|by econstructor|]. by destruct want.
Qed.

Lemma multimap_call_spec m l nodes call w :
  ordered_inv true m nodes l -> Laws true m -> ordered_call_ok true call ->
  wp (run_call true call (Some m)) (fun r w' => ordered_call_sound true m l call r w w') w.
Proof.
  intros Hm Hl Hok. destruct call as [k v|k|k|k| | |self| | |k|k want|k|k want|k]; try done; try by eapply shared_call_spec.
  - eapply answered_wp with (a := OrderedCount); [done|by eapply multimap_count_spec|done|constructor].
  - eapply wp_bind_mono; [by eapply multimap_remove_spec|].
    intros r w1 [(Hf & -> & H1)|(l1 & e & l2 & m' & nodes' & -> & Hk & Hlast & -> & Hm' & Hkept & _ & H1)]; apply wp_ret.
    + exists (OrderedRemoved false Raw), m, l, nodes. split_and!; [done|done|done|by constructor|].
      simpl. by rewrite !Z.sub_diag.
    + do 2 eexists. exists (l1 ++ l2), nodes'. split_and!; [done|done|done|by econstructor|]. by destruct want.
  - eapply wp_bind_mono; [by eapply multimap_erase_spec|]. intros r w1 (m' & nodes' & -> & Hm' & Hk & _ & H1). apply wp_ret.
    do 4 eexists. split_and!; [done|done|done|constructor|]. simpl. by rewrite Z.add_0_r.
Qed.

Lemma ordered_call_spec dup m l nodes call w :
  ordered_inv dup m nodes l -> Laws dup m -> ordered_call_ok dup call ->
  wp (run_call dup call (Some m)) (fun r w' => ordered_call_sound dup m l call r w w') w.
Proof. destruct dup; [apply multimap_call_spec|apply map_call_spec]. Qed.

Lemma ordered_kept_same dup m m' :
  ordered_kept dup m m' ->
  ordered_compare (V := V) dup m' = ordered_compare dup m /\ ordered_limit dup m' = ordered_limit dup m.
Proof. intros Hk. unfold ordered_compare, ordered_limit. by rewrite (ok_config _ _ _ Hk). Qed.

(** Any calls. *)
Lemma ordered_calls_spec dup calls m l nodes w :
  ordered_inv dup m nodes l -> Laws dup m -> Forall (ordered_call_ok dup) calls ->
  wp (run_calls dup calls (Some m)) (fun r w' => exists as_ m' l' nodes',
    r = (as_, Some m') /\ ordered_inv dup m' nodes' l' /\ ordered_kept dup m m' /\
    ordered_answers_all dup (ordered_compare dup m) (ordered_limit dup m) l calls as_ l' /\
    delta w w' (ordered_blocks m' - ordered_blocks m)
      (ordered_objects m' - ordered_objects m + ordered_all_handed_out (ordered_config dup m) as_)) w.
Proof.
  revert m l nodes w. induction calls as [|call calls IH]; intros m l nodes w Hm Hlaws Hok; simpl.
  { apply wp_ret. exists [], m, l, nodes. split_and!; try done; [constructor|]. simpl. rewrite !Z.sub_diag. apply delta_refl. }
  inversion_clear Hok as [|? ? Hc Hcs].
  eapply wp_bind_mono; [by eapply ordered_call_spec|]. intros r w1 (a & m1 & l1 & nodes1 & -> & Hm1 & Hk1 & Ha & H1).
  destruct (ordered_kept_same _ _ _ Hk1) as [Hcmp Hlim].
  eapply wp_bind_mono; [apply (IH m1 l1 nodes1); rewrite ?Hcmp; done|].
  intros r w2 (as_ & m2 & l2 & nodes2 & -> & Hm2 & Hk2 & Has & H2).
  rewrite Hcmp, Hlim, (ok_config _ _ _ Hk1) in *. apply wp_ret. exists (a :: as_), m2, l2, nodes2.
  split_and!; try done; [by etransitivity|by econstructor|simpl; solve_delta].
Qed.

(** * From creation on *)

(** What the initialisation functions make of a zero handle. *)
Inductive ordered_created dup w : ordered_t V -> object_world U -> Prop :=
  | ordered_created_typed key_type value_type limit m w' :
      element_sizes key_type -> element_sizes value_type -> is_size limit ->
      ordered_raw_init dup (Some zero_ordered) key_type value_type limit w = Some ((STL_OK, Some m), w') ->
      ordered_created dup w m w'
  | ordered_created_bytes key_size key_align value_size value_align limit compare ctx m w' :
      is_size key_size -> is_size key_align -> is_size value_size -> is_size value_align -> is_size limit ->
      ordered_init_bytes dup (Some zero_ordered) key_size key_align value_size value_align limit compare ctx w =
        Some ((STL_OK, Some m), w') ->
      ordered_created dup w m w'.

Lemma ordered_created_inv dup w m w1 :
  ordered_created dup w m w1 ->
  ordered_inv dup m [] [] /\ delta w w1 (ordered_blocks m) (ordered_objects m).
Proof.
  assert (forall m w1 kt vt compare ctx limit, created_outcome dup zero_ordered kt vt compare ctx limit (STL_OK, Some m) w w1 ->
    ordered_inv dup m [] [] /\ delta w w1 (ordered_blocks m) (ordered_objects m)) as H.
  { clear. intros m w1 kt vt compare ctx limit [(m' & [= <-] & (Hm & _) & Hd)|(status & [= <- _] & Hs & _)]; [|done].
    split; [done|]. by destruct (inv_counts _ _ _ _ Hm) as [-> ->]. }
  intros [kt vt limit m' w' Hk Hv Hl E|ks ka vs va limit compare ctx m' w' Hks Hka Hvs Hva Hl E].
  - pose proof (ordered_raw_init_spec dup zero_ordered kt vt limit w eq_refl Hk Hv Hl) as Hs.
    unfold wp in Hs. rewrite E in Hs. by eapply H.
  - pose proof (ordered_init_bytes_spec dup zero_ordered ks ka vs va limit compare ctx w eq_refl Hks Hka Hvs Hva Hl) as Hs.
    unfold wp in Hs. rewrite E in Hs. by eapply H.
Qed.

(** C19: (refinement) From its creation on, whatever operations are called on a map whose
    keys a three-way comparison orders, in whatever order, none follows a pointer to a
    node that is gone or reads a raw or moved object, all return, and the answers are
    those of a list of entries sorted by keys without duplicates: a put replaces the value
    of an equal key or adds an entry, a removal hands out the value of its key, bounds find
    the first entry not before or behind a key, and iteration in either direction,
    or over a range, meets every entry once, in order.  A put fails only for want of memory or capacity and
    changes nothing then.  The tree keeps the red-black invariant throughout. *)
Theorem map_refines_sorted_list w m w1 calls :
  ordered_created false w m w1 -> Laws false m -> Forall (ordered_call_ok false) calls ->
  exists as_ m' w' l nodes,
    run_calls false calls (Some m) w1 = Some ((as_, Some m'), w') /\
    ordered_answers_all false (ordered_compare false m) (ordered_limit false m) [] calls as_ l /\
    ordered_inv false m' nodes l /\ ordered_kept false m m'.
Proof.
  intros [Hm _]%ordered_created_inv Hl Hok.
  destruct (wp_run _ _ _ (ordered_calls_spec false calls m [] [] w1 Hm Hl Hok))
    as (r & w' & Hrun & as_ & m' & l & nodes & -> & ? & ? & ? & _).
  by exists as_, m', w', l, nodes.
Qed.

(** C20: (refinement) The same of a multimap: the answers are those of a list of entries
    sorted by keys in which equal keys stay in the order they were put; a count counts the
    entries with a key, a removal takes the last of them, and an erasure takes them all. *)
Theorem multimap_refines_sorted_list w m w1 calls :
  ordered_created true w m w1 -> Laws true m -> Forall (ordered_call_ok true) calls ->
  exists as_ m' w' l nodes,
    run_calls true calls (Some m) w1 = Some ((as_, Some m'), w') /\
    ordered_answers_all true (ordered_compare true m) (ordered_limit true m) [] calls as_ l /\
    ordered_inv true m' nodes l /\ ordered_kept true m m'.
Proof.
  intros [Hm _]%ordered_created_inv Hl Hok.
  destruct (wp_run _ _ _ (ordered_calls_spec true calls m [] [] w1 Hm Hl Hok))
    as (r & w' & Hrun & as_ & m' & l & nodes & -> & ? & ? & ? & _).
  by exists as_, m', w', l, nodes.
Qed.

(** C25: (safety) A map or a multimap releases what it takes: after any calls, destroying it
    leaves as many blocks allocated as before its creation (the tree, its nodes, and their
    keys and values are gone), and as many objects alive but for the values that removals
    handed to the caller. *)
Theorem ordered_releases_all dup w m w1 calls :
  ordered_created dup w m w1 -> Laws dup m -> Forall (ordered_call_ok dup) calls ->
  exists as_ m' w' w'',
    run_calls dup calls (Some m) w1 = Some ((as_, Some m'), w') /\
    ordered_raw_destroy_storage (Some m') w' = Some (Some (ordered_changed None m'), w'') /\
    ow_blocks w'' = ow_blocks w /\
    ow_objects w'' = ow_objects w + ordered_all_handed_out (ordered_config dup m) as_.
Proof.
  intros [Hm Hd0]%ordered_created_inv Hl Hok.
  destruct (wp_run _ _ _ (ordered_calls_spec dup calls m [] [] w1 Hm Hl Hok))
    as (r & w' & Hrun & as_ & m' & l & nodes & -> & Hm' & Hk & _ & Hd1).
  destruct (wp_run _ _ _ (ordered_destroy_storage_spec dup m' nodes l w' Hm')) as (r & w'' & Hdes & -> & Hd2).
  exists as_, m', w', w''. split_and!; [done|done|..]; destruct Hd0, Hd1, Hd2; lia.
Qed.

Lemma log2_of_nat n : (0 < n)%nat -> Z.log2 (Z.of_nat n) = Z.of_nat (Nat.log2 n).
Proof.
  intros Hn. apply Z.log2_unique; [lia|]. destruct (Nat.log2_spec n Hn) as [H1 H2].
  rewrite <- Nat2Z.inj_succ. change 2 with (Z.of_nat 2). rewrite <- !Nat2Z.inj_pow. lia.
Qed.

(** C26: (bounds) In a tree of [n] entries after any calls, the descents of a search, of
    both bounds and of a put end within twice the binary logarithm of [n + 1] rounds. *)
Theorem ordered_search_logarithmic dup w m w1 calls :
  ordered_created dup w m w1 -> Laws dup m -> Forall (ordered_call_ok dup) calls ->
  exists as_ m' w' t,
    run_calls dup calls (Some m) w1 = Some ((as_, Some m'), w') /\ or_impl m' = Some t /\
    forall k fuel, 2 * Z.log2 (rb_size t + 1) <= Z.of_nat fuel ->
      is_Some (find_loop fuel t k (rb_root t)) /\
      (forall passes, passes = (fun c => c <? 0) \/ passes = (fun c => c <=? 0) ->
        is_Some (bound_loop passes fuel t k (rb_root t) None)) /\
      is_Some (put_descend fuel t k (rb_root t) None 0).
Proof.
  intros [Hm _]%ordered_created_inv Hl Hok.
  destruct (wp_run _ _ _ (ordered_calls_spec dup calls m [] [] w1 Hm Hl Hok))
    as (r & w' & Hrun & as_ & m' & l & nodes & -> & Hm' & Hk & _).
  destruct (inv_tree _ _ _ _ Hm') as (t & _ & Ht & Hi & _ & Hc). destruct (ordered_kept_same _ _ _ Hk) as [Hcmp _].
  rewrite <- Hcmp, Hc in Hl. exists as_, m', w', t. split_and!; [done|done|]. intros k fuel Hf.
  destruct (inv_search _ _ _ Hi) as (T & HT & -> & Hr & Hb & Hs & _). pose proof (ri_config _ _ _ Hi) as Hcfg.
  assert (height T <= fuel)%nat as Hh.
  { pose proof (balanced_height T Hb) as Hbh. rewrite HT, (inv_length _ _ _ Hi) in Hbh.
    rewrite (ri_size _ _ _ Hi) in Hf. replace (Z.of_nat (length l) + 1) with (Z.of_nat (S (length l))) in Hf by lia.
    rewrite log2_of_nat in Hf by lia. lia. }
  split_and!.
  - destruct (find_loop_spec t k Hcfg fuel [] T [] l [] Hh Hs) as (r & -> & _); [set_solver..|done].
  - intros passes Hp. destruct (bound_loop_spec t k Hcfg passes fuel [] T [] l []) as (r & lo & hi & E & _); try done.
    { intros a b Hab. destruct Hp as [->| ->]; rewrite ?Z.ltb_lt, ?Z.leb_le;
        [by eapply (cmp_before_lt (the_compare (rb_config t)))|by eapply (cmp_before (the_compare (rb_config t)))]. }
    1, 2: set_solver.
  - destruct (put_descend_spec t k Hcfg fuel [] T [] l [] 0 Hh Hs) as (place & E & _);
      [done|done|set_solver..|]. exact (mk_is_Some _ _ E).
Qed.

End Calls.

(** * Construction from arrays *)

Section Construction.
Context {V U : Type} `{HV : ObjectTraits V U} `{!TraitLaws V U}.
Context (duplicates : bool) (container_desc : addr).
Implicit Types w : object_world U.
Implicit Types m : ordered_t V.
Implicit Types l : list (V * V).
#[local] Abbreviation cmp m := (ordered_compare duplicates m).

(** The rows put one by one. *)
Definition put_rows (cmp : V -> V -> Z) (rows : list (V * V)) l : list (V * V) :=
  foldl (fun l e => assoc_put cmp duplicates (fst e) (snd e) l) l rows.

Lemma put_all_spec keys values fuel index m nodes l w :
  ordered_inv duplicates m nodes l -> CompareLaws (cmp m) ->
  (index + fuel <= length keys)%nat -> (index + fuel <= length values)%nat ->
  wp (put_all duplicates container_desc (Some m) keys values index fuel) (fun r w' =>
    (exists m' nodes', r = (STL_OK, Some m') /\
       ordered_inv duplicates m' nodes'
         (put_rows (cmp m) (zip (take fuel (drop index keys)) (take fuel (drop index values))) l) /\
       ordered_kept duplicates m m' /\
       delta w w' (ordered_blocks m' - ordered_blocks m) (ordered_objects m' - ordered_objects m)) \/
    (exists status zero, r = (status, zero) /\ no_room status /\
       delta w w' (- ordered_blocks m) (- ordered_objects m))) w.
Proof.
  revert index m nodes l w. induction fuel as [|fuel IH]; intros index m nodes l w Hm Hlaws Hk Hv; cbn [put_all].
  { apply wp_ret. left. exists m, nodes. rewrite !take_0, !Z.sub_diag. split_and!; try done. apply delta_refl. }
  destruct (lookup_lt_is_Some_2 keys index ltac:(lia)) as [k Ek], (lookup_lt_is_Some_2 values index ltac:(lia)) as [v Ev].
  eapply wp_bind, wp_reading; [exact Ek|]. eapply wp_bind, wp_reading; [exact Ev|].
  eapply wp_bind_mono; [by apply ordered_put_spec|].
  intros r w1 [(m1 & nodes1 & -> & Hm1 & Hk1 & _ & _ & H1)|(status & -> & Hn & _ & H1)].
  - rewrite bool_decide_true by done. destruct (ordered_kept_same _ _ _ Hk1) as [Hcmp _].
    eapply wp_mono; [apply (IH (S index) m1 nodes1 _ w1 Hm1); [by rewrite Hcmp|lia|lia]|].
    rewrite (drop_S _ _ _ Ek), (drop_S _ _ _ Ev), Hcmp. cbn [take zip_with].
    intros r w2 [(m2 & nodes2 & -> & Hm2 & Hk2 & H2)|(status & z & -> & Hn & H2)].
    + left. exists m2, nodes2. split_and!; [done|done|by etransitivity|solve_delta].
    + right. exists status, z. split_and!; [done|done|solve_delta].
  - rewrite bool_decide_false by (by destruct Hn as [->| ->]).
    eapply wp_bind_mono; [by eapply ordered_destroy_storage_spec|]. intros r w2 (-> & H2). apply wp_ret.
    right. do 2 eexists. split_and!; [done|done|solve_delta].
Qed.

(** The order of the keys of a type. *)
Definition type_order (t : cmeta_type_desc) (a b : V) : Z :=
  default 0 (f ← trait tr_compare t; Some (call_compare f a b)).

(** A handle without a tree, or with one. *)
Definition ordered_owner m : Prop := or_impl m = None \/ exists nodes l, ordered_inv duplicates m nodes l.

Lemma destroy_owner_spec m w :
  ordered_owner m -> wp (rbtree_destroy (or_impl m)) (fun _ w' => delta w w' (- ordered_blocks m) (- ordered_objects m)) w.
Proof.
  intros [Hm|(nodes & l & Hm)].
  - unfold ordered_blocks, ordered_objects. rewrite Hm. apply wp_ret, delta_refl.
  - destruct (inv_counts _ _ _ _ Hm) as [-> ->]. destruct (inv_tree _ _ _ _ Hm) as (t & _ & -> & Hi & -> & _).
    by eapply rbtree_destroy_spec.
Qed.

(** The handle holds the rows, in a new tree. *)
Definition rows_built m (cmp : V -> V -> Z) (rows : list (V * V)) (limit : Z)
    (r : stl_status * option (ordered_t V)) w w' : Prop :=
  exists m' nodes, r = (STL_OK, Some m') /\ ordered_inv duplicates m' nodes (put_rows cmp rows []) /\
    ordered_limit duplicates m' = limit /\ or_generation m' = u64 (or_generation m + 1) /\
    delta w w' (ordered_blocks m' - ordered_blocks m) (ordered_objects m' - ordered_objects m).

(** (error) [map_raw_from_arrays] and [multimap_raw_from_arrays] on any handle, empty or
    in use: either OK, and the handle holds the rows put one by one in order, under the
    limit asked for and the next generation, its old tree released with all it held; or
    another status, and the handle is the very one it was with nothing allocated or
    constructed, whichever put failed. *)
Theorem ordered_from_arrays_exact m keys values (count : nat) k v limit w :
  ordered_owner m -> CompareLaws (type_order k) -> element_sizes (Some k) -> element_sizes (Some v) ->
  is_size limit -> (count <= length keys)%nat -> (count <= length values)%nat ->
  exists r w',
    ordered_raw_from_arrays duplicates container_desc (Some m) (Some keys) (Some values) count (Some k) (Some v)
      limit w = Some (r, w') /\
    (rows_built m (type_order k) (zip (take count keys) (take count values)) limit r w w' \/
     (exists status, r = (status, Some m) /\ status <> STL_OK /\ delta w w' 0 0)).
Proof.
  intros Hown Hlaws Hks Hvs Hl Hk Hv. apply (wp_run _ (fun r w' => _)).
  unfold ordered_raw_from_arrays, ordered_from_common.
  assert (forall status w', status <> STL_OK -> delta w w' 0 0 ->
    rows_built m (type_order k) (zip (take count keys) (take count values)) limit (status, Some m) w w' \/
    exists status', (status, Some m) = (status', Some m) /\ status' <> STL_OK /\ delta w w' 0 0)
    as Hfail by (right; eauto).
  destruct (_ && _); [apply wp_ret, Hfail; [done|apply delta_refl]|].
  destruct (_ && _); [apply wp_ret, Hfail; [done|apply delta_refl]|].
  eapply wp_bind_mono; [by apply ordered_raw_init_spec|].
  intros r w1 [(m0 & -> & (Hm0 & _ & _ & _ & Hlim & Ekt & _ & _) & H1)|(status & -> & Hs & H1)].
  2: { rewrite bool_decide_false by done. by apply wp_ret, Hfail. }
  rewrite bool_decide_true by done.
  assert (cmp m0 = type_order k) as Hcmp by (unfold ordered_compare, the_compare, rbtree_compare_key; by rewrite Ekt).
  destruct (inv_counts _ _ _ _ Hm0) as [Hb0 Ho0].
  eapply wp_bind_mono; [apply (put_all_spec keys values count 0 m0 [] []); [done|by rewrite Hcmp|done|done]|].
  intros r w2 [(m1 & nodes & -> & Hm1 & Hk1 & H2)|(status & z & -> & Hn & H2)].
  - rewrite bool_decide_true by done. eapply wp_bind_mono; [by apply destroy_owner_spec|]. intros ? w3 H3. apply wp_ret. left.
    destruct (ordered_kept_same _ _ _ Hk1) as [_ Hlim1]. rewrite Hcmp, !drop_0 in Hm1.
    exists (set_generation (u64 (or_generation m + 1)) m1), nodes. split_and!; [done|done|exact (eq_trans Hlim1 Hlim)|done|].
    change (ordered_blocks (set_generation _ m1)) with (ordered_blocks m1).
    change (ordered_objects (set_generation _ m1)) with (ordered_objects m1).
    rewrite Hb0, Ho0 in H2. unfold tree_blocks, tree_objects in H2. simpl in H2. solve_delta.
  - rewrite bool_decide_false by (by destruct Hn as [->| ->]). apply wp_ret, Hfail; [by destruct Hn as [->| ->]|].
    rewrite Hb0, Ho0 in H2. unfold tree_blocks, tree_objects in H2. simpl in H2. solve_delta.
Qed.

End Construction.
