(* ===== verification/CstlSet.v ===== *)
(** The ordered set of cstl (cstl/src/set.c, cstl/include/cstl/set.h): a map whose values
    are all the same. *)

From S2P Require Import Prelude.
From S2P Require Import CMetaType.
From S2P Require Import CstlSupport.
From S2P Require Import CstlRbTree.
From S2P Require Import CstlMap.

(** [set_t]. *)
Record set_t (V : Type) := mk_set {
  st_descriptor : option addr;
  st_element_type : option cmeta_type_desc;
  st_map : ordered_t V;
}.
Arguments mk_set {V}.
Arguments st_descriptor {V}.
Arguments st_element_type {V}.
Arguments st_map {V}.

(** [set_t temporary = {0}]. *)
Definition zero_set {V} : set_t V := mk_set None None zero_ordered.

Definition set_st_map {V} (m : ordered_t V) (s : set_t V) : set_t V :=
  mk_set (st_descriptor s) (st_element_type s) m.

(** [container_desc] and [set_desc] are the addresses of the descriptors of the containers,
    [bool_type] is [cmeta_type_bool], and [present] the byte 1. *)
Section Set_.
Context {V U : Type} `{!ObjectTraits V U}.
Context (container_desc set_desc : addr) (bool_type : cmeta_type_desc) (present : V).
#[local] Abbreviation set := (set_t V).
Implicit Types s : set.

(** A call on the map of a set. *)
Definition on_map {A} (set_ : option set) (call : option (ordered_t V) -> store U (A * option (ordered_t V)))
    : store U (A * option set) :=
  match set_ with
  | None => let* (answer, _) := call None in ret (answer, None)
  | Some s => let* (answer, m) := call (Some (st_map s)) in ret (answer, m ← m; Some (set_st_map m s))
  end.

Definition set_is_typed_semantic_zero (set_ : option set) : bool :=
  match set_ with
  | None => false
  | Some s =>
      bool_decide (st_descriptor s = Some set_desc) && negb (is_null (st_element_type s)) &&
      cmeta_type_desc_valid (st_element_type s) &&
      is_null (or_impl (st_map s)) && is_null (or_descriptor (st_map s)) &&
      is_null (or_key_type (st_map s)) && is_null (or_value_type (st_map s))
  end.

Definition set_raw_init (set_ : option set) (key_type : option cmeta_type_desc) (limit : Z)
    : store U (stl_status * option set) :=
  if is_null set_ then ret (STL_INVALID_ARGUMENT, set_)
  else on_map set_ (fun m => map_raw_init m key_type (Some bool_type) limit).

(** The value is a byte. *)
Definition set_init_bytes (set_ : option set) (key_size key_align limit : Z) (compare context : option addr)
    : store U (stl_status * option set) :=
  if is_null set_ then ret (STL_INVALID_ARGUMENT, set_)
  else on_map set_ (fun m => map_init_bytes m key_size key_align 1 1 limit compare context).

Definition set_init (set_ : option set) (limit : Z) : store U (stl_status * option set) :=
  match set_ with
  | None => ret (STL_INVALID_ARGUMENT, set_)
  | Some s =>
      if is_null (st_element_type s) then ret (STL_INVALID_ARGUMENT, set_)
      else set_raw_init set_ (st_element_type s) limit
  end.

Definition set_raw_destroy_storage (set_ : option set) : store U (option set) :=
  let* (_, set_) := on_map set_ (fun m => let* m := map_raw_destroy_storage m in ret (tt, m)) in ret set_.

Definition set_destroy : option set -> store U (option set) := set_raw_destroy_storage.

Definition set_clear (set_ : option set) : store U (option set) :=
  let* (_, set_) := on_map set_ (fun m => let* m := map_clear m in ret (tt, m)) in ret set_.

(** The handle after it, and whether it was initialised by it. *)
Definition set_materialize_for_mutation (set_ : option set) : store U (stl_status * option set * bool) :=
  match set_ with
  | None => ret (STL_INVALID_ARGUMENT, set_, false)
  | Some s =>
      if negb (is_null (or_impl (st_map s))) then ret (STL_OK, set_, false)
      else if negb (set_is_typed_semantic_zero set_) then ret (STL_INVALID_ARGUMENT, set_, false)
      else
        let* (status, made) := set_raw_init set_ (st_element_type s) SIZE_MAX in
        if bool_decide (status = STL_OK) then
          ret (STL_OK, s' ← made; Some (set_st_map (CstlMap.set_generation (or_generation (st_map s)) (st_map s')) s'), true)
        else ret (status, set_, false)
  end.

Definition set_rollback_materialization (set_ zero_snapshot : option set) (materialized : bool)
    : store U (option set) :=
  if negb materialized then ret set_
  else let* _ := set_raw_destroy_storage set_ in ret zero_snapshot.

Definition set_contains (set_ : option set) (key : option V) : option bool :=
  match set_ with None => Some false | Some s => map_contains (Some (st_map s)) key end.

Definition set_add (set_ : option set) (key : option V) : store U (stl_status * option set) :=
  if is_null key then ret (STL_INVALID_ARGUMENT, set_)
  else
    let* (status, made, materialized) := set_materialize_for_mutation set_ in
    if bool_decide (status = STL_OK) then
      let* found := reading (set_contains made key) in
      if found : bool then ret (STL_OK, made)
      else
        let* (status, added) := on_map made (fun m => map_put container_desc m key (Some present)) in
        if bool_decide (status = STL_OK) then ret (STL_OK, added)
        else let* set_ := set_rollback_materialization added set_ materialized in ret (status, set_)
    else ret (status, made).

Definition set_remove (set_ : option set) (key : option V) : store U (stl_status * option set) :=
  if is_null set_ then ret (STL_INVALID_ARGUMENT, set_)
  else on_map set_ (fun m => let* (status, _, m) := map_remove m key false in ret (status, m)).

Definition set_size (set_ : option set) : Z :=
  match set_ with None => 0 | Some s => map_size_of (Some (st_map s)) end.
Definition set_element_limit (set_ : option set) : Z :=
  match set_ with None => 0 | Some s => map_entry_limit (Some (st_map s)) end.
Definition set_generation_of (set_ : option set) : Z :=
  match set_ with None => 0 | Some s => map_generation (Some (st_map s)) end.
Definition set_empty (set_ : option set) : bool := set_size set_ =? 0.

(** The loop over the array. *)
Fixpoint add_all (temporary : option set) (keys : list V) (index fuel : nat)
    : store U (stl_status * option set) :=
  match fuel with
  | O => ret (STL_OK, temporary)
  | S fuel =>
      let* key := reading (keys !! index) in
      let* (status, temporary) := set_add temporary (Some key) in
      if bool_decide (status = STL_OK) then add_all temporary keys (S index) fuel
      else let* temporary := set_raw_destroy_storage temporary in ret (status, temporary)
  end.

Definition set_from_common (set_ : option set) (keys : option (list V)) (count : nat) (key_size : Z)
    (init : store U (stl_status * option set)) : store U (stl_status * option set) :=
  let n := Z.of_nat count in
  match set_ with
  | None => ret (STL_INVALID_ARGUMENT, set_)
  | Some s =>
      if negb (n =? 0) && is_null keys then ret (STL_INVALID_ARGUMENT, set_)
      else if negb (n =? 0) && (SIZE_MAX / n <? key_size) then ret (STL_CAPACITY_EXCEEDED, set_)
      else
        let* (status, temporary) := init in
        if bool_decide (status = STL_OK) then
          let* (status, temporary) := add_all temporary (default [] keys) 0 count in
          if bool_decide (status = STL_OK) then
            let generation := u64 (set_generation_of set_ + 1) in
            let* _ := set_raw_destroy_storage set_ in
            ret (STL_OK, t ← temporary; Some (set_st_map (CstlMap.set_generation generation (st_map t)) t))
          else ret (status, set_)
        else ret (status, set_)
  end.

Definition set_raw_from_array (set_ : option set) (keys : option (list V)) (count : nat)
    (key_type : option cmeta_type_desc) (limit : Z) : store U (stl_status * option set) :=
  match key_type with
  | None => ret (STL_INVALID_ARGUMENT, set_)
  | Some k => set_from_common set_ keys count (td_size k) (set_raw_init (Some zero_set) key_type limit)
  end.

Definition set_from_array_bytes (set_ : option set) (keys : option (list V)) (count : nat)
    (key_size key_align limit : Z) (compare context : option addr) : store U (stl_status * option set) :=
  set_from_common set_ keys count key_size
    (set_init_bytes (Some zero_set) key_size key_align limit compare context).

Definition set_from_array (set_ : option set) (keys : option (list V)) (count : nat) (limit : Z)
    : store U (stl_status * option set) :=
  match set_ with
  | None => ret (STL_INVALID_ARGUMENT, set_)
  | Some s =>
      if is_null (st_element_type s) then ret (STL_INVALID_ARGUMENT, set_)
      else
        let* (status, made) := set_raw_from_array set_ keys count (st_element_type s) limit in
        ret (status, s' ← made; Some (mk_set (st_descriptor s) (st_element_type s) (st_map s')))
  end.

(** * Iterators *)

(** The map of the owner. *)
Definition map_of (set_ : option set) : option (ordered_t V) := st_map <$> set_.

Definition set_begin (set_ : option set) : option addr := map_begin (map_of set_).
Definition set_end : option addr := map_end.
Definition set_lower_bound (set_ : option set) (key : option V) : option (option addr) :=
  map_lower_bound (map_of set_) key.
Definition set_upper_bound (set_ : option set) (key : option V) : option (option addr) :=
  map_upper_bound (map_of set_) key.

Definition set_iter_next (owner : option set) (node : option addr) : option (stl_status * option addr) :=
  if is_null owner then Some (STL_INVALID_ARGUMENT, node) else map_iter_next (map_of owner) node.
Definition set_iter_prev (owner : option set) (node : option addr) : option (stl_status * option addr) :=
  if is_null owner then Some (STL_INVALID_ARGUMENT, node) else map_iter_prev (map_of owner) node.

Definition set_iter_equal (left right : option addr * option addr) : bool :=
  bool_decide (fst left = fst right) && bool_decide (snd left = snd right).

Definition set_iter_value_const (owner : option set) (node : option addr) : option (option V) :=
  if is_null owner then Some None else map_iter_key_const (map_of owner) node.

(** [self] is the address of the map in the set. *)
Definition set_range_next (self : addr) (set_ : option set) (cursor : option range_cursor)
    : option (option V * option range_cursor) :=
  if is_null set_ then Some (None, cursor)
  else
    match map_range_next self (map_of set_) cursor with
    | Some (entry, cursor) => Some (option_map fst entry, cursor)
    | None => None
    end.

End Set_.
