(* ===== verification/CstlSetTheorems.v ===== *)
(** A set is the sorted list of its elements: whatever operations are called, every answer
    is one that the list gives, and a failure changes nothing. *)

From S2P Require Import Prelude.
From S2P Require Import CMetaType.
From S2P Require Import CstlSupport.
From S2P Require Import CstlObjects.
From S2P Require Import CstlSequenceSpecs.
From S2P Require Import CstlRbTree.
From S2P Require Import CstlRbOps.
From S2P Require Import CstlMap.
From S2P Require Import CstlMapOps.
From S2P Require Import CstlSet.

(** * Calls and their answers *)

Inductive set_call (V : Type) :=
  | SetAdd (key : V)
  | SetRemove (key : V)
  | SetContains (key : V)
  | SetLowerBound (key : V)
  | SetUpperBound (key : V)
  | SetForward
  | SetBackward
  | SetSize
  | SetClear.
Arguments SetAdd {V} key.
Arguments SetRemove {V} key.
Arguments SetContains {V} key.
Arguments SetLowerBound {V} key.
Arguments SetUpperBound {V} key.
Arguments SetForward {V}.
Arguments SetBackward {V}.
Arguments SetSize {V}.
Arguments SetClear {V}.

Inductive set_answer (V : Type) :=
  | SetStatus (status : stl_status)
  | SetFlag (flag : bool)
  | SetCount (count : Z)
  | SetElement (element : option V)
  | SetElements (elements : list V)
  | SetCleared.
Arguments SetStatus {V} status.
Arguments SetFlag {V} flag.
Arguments SetCount {V} count.
Arguments SetElement {V} element.
Arguments SetElements {V} elements.
Arguments SetCleared {V}.

Section Calls.
Context {V U : Type} `{HV : ObjectTraits V U}.
Context (container_desc set_desc : addr) (bool_type : cmeta_type_desc) (present : V).
#[local] Abbreviation set := (set_t V).

(** From an iterator to the end, forwards and backwards. *)
Fixpoint set_walk (fuel : nat) (s : option set) (node : option addr) : option (list V) :=
  if bool_decide (node = set_end) then Some []
  else
    match fuel with
    | O => None
    | S fuel =>
        element ← set_iter_value_const s node; a ← element;
        '(status, node) ← set_iter_next s node;
        if bool_decide (status = STL_OK) then rest ← set_walk fuel s node; Some (a :: rest) else None
    end.

Fixpoint set_walk_back (fuel : nat) (s : option set) (node : option addr) : option (list V) :=
  '(status, node) ← set_iter_prev s node;
  if bool_decide (status = STL_OK) then
    match fuel with
    | O => None
    | S fuel =>
        element ← set_iter_value_const s node; a ← element; rest ← set_walk_back fuel s node; Some (a :: rest)
    end
  else Some [].

Definition run_set_call (call : set_call V) (s : option set) : store U (set_answer V * option set) :=
  let fuel := S (Z.to_nat (set_size s)) in
  match call with
  | SetAdd k =>
      let* (status, s) := set_add container_desc set_desc bool_type present s (Some k) in
      ret (SetStatus status, s)
  | SetRemove k => let* (status, s) := set_remove s (Some k) in ret (SetStatus status, s)
  | SetContains k => let* b := reading (set_contains s (Some k)) in ret (SetFlag b, s)
  | SetLowerBound k =>
      let* a := reading (node ← set_lower_bound s (Some k); set_iter_value_const s node) in
      ret (SetElement a, s)
  | SetUpperBound k =>
      let* a := reading (node ← set_upper_bound s (Some k); set_iter_value_const s node) in
      ret (SetElement a, s)
  | SetForward => let* l := reading (set_walk fuel s (set_begin s)) in ret (SetElements l, s)
  | SetBackward => let* l := reading (set_walk_back fuel s set_end) in ret (SetElements l, s)
  | SetSize => ret (SetCount (set_size s), s)
  | SetClear => let* s := set_clear s in ret (SetCleared, s)
  end.

Fixpoint run_set_calls (calls : list (set_call V)) (s : option set)
    : store U (list (set_answer V) * option set) :=
  match calls with
  | [] => ret ([], s)
  | call :: calls =>
      let* (a, s) := run_set_call call s in
      let* (answers, s) := run_set_calls calls s in
      ret (a :: answers, s)
  end.

(** ** The sorted list of elements *)

Definition has_key (cmp : V -> V -> Z) (k : V) (keys : list V) : bool :=
  existsb (fun a => cmp k a =? 0) keys.

Fixpoint insert_key (cmp : V -> V -> Z) (k : V) (keys : list V) : list V :=
  match keys with
  | [] => [k]
  | a :: keys' => if cmp k a <? 0 then k :: keys else a :: insert_key cmp k keys'
  end.

Inductive set_answers (cmp : V -> V -> Z) (limit : Z) (keys : list V) :
    set_call V -> set_answer V -> list V -> Prop :=
  | sa_add k :
      has_key cmp k keys = false -> Z.of_nat (length keys) < limit ->
      set_answers cmp limit keys (SetAdd k) (SetStatus STL_OK) (insert_key cmp k keys)
  | sa_add_present k :
      has_key cmp k keys = true -> set_answers cmp limit keys (SetAdd k) (SetStatus STL_OK) keys
  | sa_add_no_room k status :
      has_key cmp k keys = false -> no_room status ->
      (limit <= Z.of_nat (length keys) -> status = STL_CAPACITY_EXCEEDED) ->
      set_answers cmp limit keys (SetAdd k) (SetStatus status) keys
  | sa_remove k k1 a k2 :
      keys = k1 ++ a :: k2 -> cmp k a = 0 ->
      set_answers cmp limit keys (SetRemove k) (SetStatus STL_OK) (k1 ++ k2)
  | sa_remove_none k :
      has_key cmp k keys = false ->
      set_answers cmp limit keys (SetRemove k) (SetStatus STL_NOT_FOUND) keys
  | sa_contains k : set_answers cmp limit keys (SetContains k) (SetFlag (has_key cmp k keys)) keys
  | sa_lower_bound k :
      set_answers cmp limit keys (SetLowerBound k)
        (SetElement (List.find (fun a => negb (cmp a k <? 0)) keys)) keys
  | sa_upper_bound k :
      set_answers cmp limit keys (SetUpperBound k)
        (SetElement (List.find (fun a => negb (cmp a k <=? 0)) keys)) keys
  | sa_forward : set_answers cmp limit keys SetForward (SetElements keys) keys
  | sa_backward : set_answers cmp limit keys SetBackward (SetElements (rev keys)) keys
  | sa_size : set_answers cmp limit keys SetSize (SetCount (Z.of_nat (length keys))) keys
  | sa_clear : set_answers cmp limit keys SetClear SetCleared [].

Inductive set_answers_all (cmp : V -> V -> Z) (limit : Z) :
    list V -> list (set_call V) -> list (set_answer V) -> list V -> Prop :=
  | set_answers_nil keys : set_answers_all cmp limit keys [] [] keys
  | set_answers_cons keys call a keys1 calls as_ keys2 :
      set_answers cmp limit keys call a keys1 -> set_answers_all cmp limit keys1 calls as_ keys2 ->
      set_answers_all cmp limit keys (call :: calls) (a :: as_) keys2.

(** ** Keys as entries *)

Definition tag (k : V) : V * V := (k, present).

Lemma tag_find cmp k keys :
  is_Some (assoc_find cmp k (tag <$> keys)) <-> has_key cmp k keys = true.
Proof.
  induction keys as [|a keys IH]; simpl; [split; [by intros []|done]|].
  destruct (cmp k a =? 0); simpl; [split; [done|by eexists]|done].
Qed.

Lemma tag_find_none cmp k keys :
  assoc_find cmp k (tag <$> keys) = None <-> has_key cmp k keys = false.
Proof.
  rewrite <- not_true_iff_false, <- tag_find. destruct (assoc_find _ _ _).
  - split; [done|]. intros H. exfalso. apply H. by eexists.
  - split; [|done]. by intros _ [].
Qed.

Lemma tag_put cmp k keys :
  has_key cmp k keys = false -> assoc_put cmp false k present (tag <$> keys) = tag <$> insert_key cmp k keys.
Proof.
  induction keys as [|a keys IH]; simpl; [done|]. intros [H1 H2]%orb_false_iff. rewrite H1.
  destruct (_ <? 0); simpl; [done|]. unfold tag. f_equal. by apply IH.
Qed.

Lemma tag_from passes keys :
  fst <$> head (from passes (tag <$> keys)) = List.find (fun a => negb (passes a)) keys.
Proof. induction keys as [|a keys IH]; simpl; [done|]. by destruct (passes a). Qed.

Lemma length_insert_key cmp k keys : length (insert_key cmp k keys) = S (length keys).
Proof. induction keys as [|a keys IH]; simpl; [done|]. destruct (_ <? 0); simpl; by rewrite ?IH. Qed.

Lemma tag_split keys l1 e l2 :
  tag <$> keys = l1 ++ e :: l2 ->
  exists k1 a k2, keys = k1 ++ a :: k2 /\ e = tag a /\ l1 ++ l2 = tag <$> (k1 ++ k2).
Proof.
  intros E. apply fmap_app_inv in E as (k1 & k' & -> & E' & ->).
  symmetry in E'. apply fmap_cons_inv in E' as (a & k2 & -> & -> & ->). exists k1, a, k2. by rewrite fmap_app.
Qed.

End Calls.

(** ** The set and its map *)

Section Refinement.
Context {V U : Type} `{HV : ObjectTraits V U} `{!TraitLaws V U}.
Context (container_desc set_desc : addr) (bool_type : cmeta_type_desc) (present : V).
Implicit Types w : object_world U.
Implicit Types s : set_t V.
Implicit Types keys : list V.
#[local] Abbreviation run_call := (run_set_call container_desc set_desc bool_type present).
#[local] Abbreviation run_calls := (run_set_calls container_desc set_desc bool_type present).
#[local] Abbreviation tag := (tag present).
#[local] Abbreviation cmp s := (ordered_compare false (st_map s)).
#[local] Abbreviation Laws s := (CompareLaws (ordered_compare false (st_map s))).
#[local] Abbreviation limit s := (ordered_limit false (st_map s)).

(** The map holds the elements, each with the same value. *)
Definition set_inv s nodes keys : Prop := ordered_inv false (st_map s) nodes (tag <$> keys).

Record set_kept s s' : Prop := {
  sk_descriptor : st_descriptor s' = st_descriptor s;
  sk_element_type : st_element_type s' = st_element_type s;
  sk_map : ordered_kept false (st_map s) (st_map s');
}.

#[export] Instance set_kept_preorder : PreOrder set_kept.
Proof. split; [by split|]. intros s1 s2 s3 [] []. split; [congruence|congruence|by etransitivity]. Qed.

Lemma set_kept_map s m : ordered_kept false (st_map s) m -> set_kept s (set_st_map m s).
Proof. by split. Qed.

Definition set_call_sound s keys call (r : set_answer V * option (set_t V)) w w' : Prop :=
  exists a s' keys' nodes', r = (a, Some s') /\ set_inv s' nodes' keys' /\ set_kept s s' /\
    set_answers (cmp s) (limit s) keys call a keys' /\
    delta w w' (ordered_blocks (st_map s') - ordered_blocks (st_map s))
      (ordered_objects (st_map s') - ordered_objects (st_map s)).

Lemma set_answered_wp {A} s nodes keys call (x : option A) y a w :
  set_inv s nodes keys -> x = Some y -> set_answers (cmp s) (limit s) keys call (a y) keys ->
  wp (let* y := reading x in ret (a y, Some s)) (fun r w' => set_call_sound s keys call r w w') w.
Proof.
  intros Hs Hx Ha. eapply wp_bind, wp_reading; [exact Hx|]. apply wp_ret. exists (a y), s, keys, nodes.
  split_and!; try done. rewrite !Z.sub_diag. apply delta_refl.
Qed.

(** Walks meet the keys of the map. *)
Lemma entry_key (m : option (ordered_t V)) node e :
  entry_of m node = Some (Some e) -> ordered_iter_key m node = Some (Some (fst e)).
Proof.
  unfold entry_of. intros H. destruct (ordered_iter_key m node) as [[k|]|]; [| |done];
    destruct (ordered_iter_value m node) as [[v|]|]; try done. by injection H as <-.
Qed.

Lemma set_walk_spec fuel s node l :
  walk fuel (Some (st_map s)) node = Some l -> set_walk fuel (Some s) node = Some (fst <$> l).
Proof.
  revert node l. induction fuel as [|fuel IH]; intros node l; cbn [walk set_walk]; unfold set_end, map_end;
    (destruct (bool_decide _); [by intros [= <-]|]); [done|].
  destruct (entry_of _ node) as [[e|]|] eqn:Ee; try done. cbn [mbind option_bind].
  unfold set_iter_value_const, set_iter_next, map_iter_key_const, map_iter_next, map_of. cbn [is_null fmap option_fmap option_map].
  rewrite (entry_key _ _ _ Ee). cbn [mbind option_bind].
  destruct (ordered_iter_next _ _) as [[status node']|]; [|done]. cbn [mbind option_bind].
  destruct (bool_decide _); [|done]. destruct (walk fuel _ node') as [rest|] eqn:Ew; [|done].
  intros [= <-]. by rewrite (IH _ _ Ew).
Qed.

Lemma set_walk_back_spec fuel s node l :
  walk_back fuel (Some (st_map s)) node = Some l -> set_walk_back fuel (Some s) node = Some (fst <$> l).
Proof.
  revert node l. induction fuel as [|fuel IH]; intros node l; cbn [walk_back set_walk_back];
    unfold set_iter_prev, map_iter_prev, map_of; cbn [is_null fmap option_fmap option_map];
    (destruct (ordered_iter_prev _ _) as [[status node']|]; [|done]); cbn [mbind option_bind];
    destruct (bool_decide _); try done; try (by intros [= <-]).
  destruct (entry_of _ node') as [[e|]|] eqn:Ee; try done. cbn [mbind option_bind].
  unfold set_iter_value_const, map_iter_key_const, map_of. cbn [is_null fmap option_fmap option_map].
  rewrite (entry_key _ _ _ Ee). cbn [mbind option_bind].
  destruct (walk_back fuel _ node') as [rest|] eqn:Ew; [|done]. intros [= <-]. by rewrite (IH _ _ Ew).
Qed.

Lemma tag_keys keys : fst <$> (tag <$> keys) = keys.
Proof. rewrite <- list_fmap_compose. apply list_fmap_id. Qed.

Lemma set_size_spec s nodes keys : set_inv s nodes keys -> set_size (Some s) = Z.of_nat (length keys).
Proof. intros Hs. etransitivity; [by eapply ordered_size_spec|]. by rewrite length_fmap. Qed.

(** The element at a bound. *)
Lemma set_bound_value s nodes keys lo hi passes :
  set_inv s nodes keys -> tag <$> keys = lo ++ hi -> hi = from passes (tag <$> keys) ->
  set_iter_value_const (Some s) (nodes !! length lo) = Some (List.find (fun a => negb (passes a)) keys).
Proof.
  intros Hs El Eh. unfold set_iter_value_const, map_iter_key_const, map_of. cbn [is_null fmap option_fmap option_map].
  rewrite <- (tag_from present), <- Eh.
  unfold set_inv in Hs. rewrite El in Hs. rewrite (iterator_key_spec _ _ _ _ _ Hs). f_equal.
  rewrite lookup_app_r, Nat.sub_diag by lia. by destruct hi.
Qed.

Lemma set_lower_bound_sound s nodes keys k w :
  set_inv s nodes keys -> Laws s ->
  wp (run_call (SetLowerBound k) (Some s)) (fun r w' => set_call_sound s keys (SetLowerBound k) r w w') w.
Proof.
  intros Hs Hl. destruct (ordered_lower_bound_spec _ _ _ _ k Hs Hl) as (lo & hi & El & Eb & Hlo & Hhi).
  eapply set_answered_wp; [done| |constructor].
  unfold set_lower_bound, map_lower_bound, map_of. cbn [fmap option_fmap option_map]. rewrite Eb. cbn [mbind option_bind].
  eapply (set_bound_value s nodes keys lo hi (fun a => cmp s a k <? 0)); [done|done|]. rewrite El.
  by rewrite (from_bound (cmp s) (fun c => c <? 0)).
Qed.

Lemma set_upper_bound_sound s nodes keys k w :
  set_inv s nodes keys -> Laws s ->
  wp (run_call (SetUpperBound k) (Some s)) (fun r w' => set_call_sound s keys (SetUpperBound k) r w w') w.
Proof.
  intros Hs Hl. destruct (ordered_upper_bound_spec _ _ _ _ k Hs Hl) as (lo & hi & El & Eb & Hlo & Hhi).
  eapply set_answered_wp; [done| |constructor].
  unfold set_upper_bound, map_upper_bound, map_of. cbn [fmap option_fmap option_map]. rewrite Eb. cbn [mbind option_bind].
  eapply (set_bound_value s nodes keys lo hi (fun a => cmp s a k <=? 0)); [done|done|]. rewrite El.
  by rewrite (from_bound (cmp s) (fun c => c <=? 0)).
Qed.

Lemma set_contains_spec s nodes keys k :
  set_inv s nodes keys -> Laws s -> set_contains (Some s) (Some k) = Some (has_key (cmp s) k keys).
Proof.
  intros Hs Hl. etransitivity; [by eapply ordered_contains_spec|]. f_equal.
  destruct (has_key _ _ _) eqn:Hk.
  - apply (tag_find present) in Hk as [e ->]. done.
  - by apply (tag_find_none present) in Hk as ->.
Qed.

(** * Adding and removing *)

Lemma set_add_sound s nodes keys k w :
  set_inv s nodes keys -> Laws s ->
  wp (run_call (SetAdd k) (Some s)) (fun r w' => set_call_sound s keys (SetAdd k) r w w') w.
Proof.
  intros Hs Hl. cbn [run_set_call]. pose proof (set_contains_spec s nodes keys k Hs Hl) as Hk.
  destruct (inv_tree _ _ _ _ Hs) as (t & _ & Ht & _).
  unfold set_add. cbn [is_null]. unfold set_materialize_for_mutation. rewrite Ht. cbn [is_null negb].
  eapply wp_bind, wp_bind, wp_ret. rewrite bool_decide_true by done.
  eapply wp_bind, wp_reading; [exact Hk|]. destruct (has_key _ _ _) eqn:Hf.
  - apply wp_ret, wp_ret. exists (SetStatus STL_OK), s, keys, nodes. rewrite !Z.sub_diag.
    split_and!; [done|done|done|by apply sa_add_present|apply delta_refl].
  - cbn [on_map]. eapply wp_bind, wp_bind_mono; [by eapply (ordered_put_spec false)|].
    unfold ordered_put_outcome. cbv zeta. rewrite (tag_put present) by done.
    intros r w1 [(m' & nodes' & -> & Hm' & Hkept & _ & Hlim & H1)|(status & -> & Hn & Hfull & H1)]; apply wp_ret.
    + rewrite bool_decide_true by done. apply wp_ret, wp_ret.
      exists (SetStatus STL_OK), (set_st_map m' s), (insert_key (cmp s) k keys), nodes'.
      rewrite length_fmap, length_insert_key in Hlim.
      split_and!; [done|done|by apply set_kept_map|apply sa_add; [done|lia]|done].
    + rewrite bool_decide_false by (by destruct Hn as [->| ->]). eapply wp_bind, wp_ret, wp_ret, wp_ret.
      rewrite length_fmap, length_insert_key in Hfull.
      exists (SetStatus status), s, keys, nodes. rewrite !Z.sub_diag. split_and!; [by destruct s|done|done| |done].
      apply sa_add_no_room; [done|done|]. intros. apply Hfull. lia.
Qed.

Lemma set_remove_sound s nodes keys k w :
  set_inv s nodes keys -> Laws s ->
  wp (run_call (SetRemove k) (Some s)) (fun r w' => set_call_sound s keys (SetRemove k) r w w') w.
Proof.
  intros Hs Hl. cbn [run_set_call]. unfold set_remove. cbn [is_null on_map].
  eapply wp_bind, wp_bind, wp_bind_mono; [by eapply map_remove_spec|].
  intros r w1 [(Hf & -> & H1)|(l1 & e & l2 & m' & nodes' & El & Hk & -> & Hm' & Hkept & _ & H1)]; apply wp_ret, wp_ret, wp_ret.
  - exists (SetStatus STL_NOT_FOUND), s, keys, nodes. rewrite !Z.sub_diag. split_and!; [by destruct s|done|done| |done].
    apply sa_remove_none. by apply (tag_find_none present).
  - destruct (tag_split present _ _ _ _ El) as (k1 & a & k2 & -> & -> & E).
    exists (SetStatus STL_OK), (set_st_map m' s), (k1 ++ k2), nodes'. unfold taken_objects in H1. rewrite Z.add_0_r in H1.
    split_and!; [done|by unfold set_inv; rewrite <- E|by apply set_kept_map|by econstructor|done].
Qed.

Lemma set_call_spec s nodes keys call w :
  set_inv s nodes keys -> Laws s -> wp (run_call call (Some s)) (fun r w' => set_call_sound s keys call r w w') w.
Proof.
  intros Hs Hl. pose proof (set_size_spec _ _ _ Hs) as Hsz. assert (length (tag <$> keys) = length keys) as Hlen by apply length_fmap.
  destruct call as [k|k|k|k|k| | | |].
  - by eapply set_add_sound.
  - by eapply set_remove_sound.
  - eapply set_answered_wp with (a := SetFlag); [done|by eapply set_contains_spec|constructor].
  - by eapply set_lower_bound_sound.
  - by eapply set_upper_bound_sound.
  - eapply set_answered_wp with (y := keys); [done| |constructor].
    unfold set_begin, map_begin, map_of. cbn [fmap option_fmap option_map]. rewrite (begin_spec _ _ _ _ Hs).
    erewrite set_walk_spec by (eapply (walk_spec false); [exact Hs|lia|rewrite Hsz; lia]). rewrite drop_0. by rewrite tag_keys.
  - eapply set_answered_wp with (y := rev keys); [done| |constructor].
    unfold set_end, map_end. rewrite (end_spec _ _ _ _ Hs).
    erewrite set_walk_back_spec by (eapply (walk_back_spec false); [exact Hs|lia|rewrite Hsz; lia]).
    rewrite firstn_all. f_equal. rewrite <- (tag_keys keys) at 2. by rewrite map_rev.
  - apply wp_ret. exists (SetCount (Z.of_nat (length keys))), s, keys, nodes. rewrite Hsz, !Z.sub_diag.
    split_and!; [done|done|done|constructor|apply delta_refl].
  - cbn [run_set_call]. unfold set_clear. cbn [on_map].
    eapply wp_bind, wp_bind, wp_bind, wp_bind_mono; [by eapply ordered_clear_spec|].
    intros r w1 (m' & -> & Hm' & Hk & H1). apply wp_ret, wp_ret, wp_ret, wp_ret.
    exists SetCleared, (set_st_map m' s), [], []. split_and!; [done|done|by apply set_kept_map|constructor|done].
Qed.

(** Any calls. *)
Lemma set_calls_spec calls s nodes keys w :
  set_inv s nodes keys -> Laws s ->
  wp (run_calls calls (Some s)) (fun r w' => exists as_ s' keys' nodes',
    r = (as_, Some s') /\ set_inv s' nodes' keys' /\ set_kept s s' /\
    set_answers_all (cmp s) (limit s) keys calls as_ keys' /\
    delta w w' (ordered_blocks (st_map s') - ordered_blocks (st_map s))
      (ordered_objects (st_map s') - ordered_objects (st_map s))) w.
Proof.
  revert s nodes keys w. induction calls as [|call calls IH]; intros s nodes keys w Hs Hlaws; simpl.
  { apply wp_ret. exists [], s, keys, nodes. split_and!; try done; [constructor|]. rewrite !Z.sub_diag. apply delta_refl. }
  eapply wp_bind_mono; [by eapply set_call_spec|]. intros r w1 (a & s1 & keys1 & nodes1 & -> & Hs1 & Hk1 & Ha & H1).
  pose proof (ok_config _ _ _ (sk_map _ _ Hk1)) as Hc.
  assert (cmp s1 = cmp s /\ limit s1 = limit s) as [Hcmp Hlim] by (unfold ordered_compare, ordered_limit; by rewrite Hc).
  eapply wp_bind_mono; [apply (IH s1 nodes1 keys1); rewrite ?Hcmp; done|].
  intros r w2 (as_ & s2 & keys2 & nodes2 & -> & Hs2 & Hk2 & Has & H2). rewrite Hcmp, Hlim in *.
  apply wp_ret. exists (a :: as_), s2, keys2, nodes2.
  split_and!; try done; [by etransitivity|by econstructor|solve_delta].
Qed.

(** What the initialisation functions make of a handle without a map. *)
Inductive set_created w : set_t V -> object_world U -> Prop :=
  | set_created_typed key_type limit s s' w' :
      or_impl (st_map s) = None -> element_sizes key_type -> element_sizes (Some bool_type) -> is_size limit ->
      set_raw_init bool_type (Some s) key_type limit w = Some ((STL_OK, Some s'), w') -> set_created w s' w'
  | set_created_bytes key_size key_align limit compare ctx s s' w' :
      or_impl (st_map s) = None -> is_size key_size -> is_size key_align -> is_size limit ->
      set_init_bytes (Some s) key_size key_align limit compare ctx w = Some ((STL_OK, Some s'), w') ->
      set_created w s' w'.

Lemma set_created_inv w s w1 :
  set_created w s w1 ->
  set_inv s [] [] /\ delta w w1 (ordered_blocks (st_map s)) (ordered_objects (st_map s)).
Proof.
  assert (forall call s0 s w1 kt vt compare ctx limit,
    wp (call (Some (st_map s0))) (fun r w' => created_outcome false (st_map s0) kt vt compare ctx limit r w w') w ->
    on_map (Some s0) call w = Some ((STL_OK, Some s), w1) ->
    set_inv s [] [] /\ delta w w1 (ordered_blocks (st_map s)) (ordered_objects (st_map s))) as H.
  { clear. intros call s0 s w1 kt vt compare ctx limit Hcall. cbn [on_map]. unfold bind, wp in *.
    destruct (call (Some (st_map s0)) w) as [[[status m] w2]|]; [|done].
    destruct Hcall as [(m' & [= -> ->] & (Hm & _) & Hd)|(status' & [= -> ->] & Hs & _)]; [|by intros [= -> _ _]].
    intros [= <- <-]. split; [exact Hm|]. cbn [st_map set_st_map]. by destruct (inv_counts _ _ _ _ Hm) as [-> ->]. }
  intros [kt limit s0 s' w' H0 Hk Hb Hl E|ks ka limit compare ctx s0 s' w' H0 Hks Hka Hl E].
  - eapply H; [|exact E]. by apply ordered_raw_init_spec.
  - eapply H; [|exact E]. apply ordered_init_bytes_spec; done.
Qed.

(** C21: (refinement) From its creation on, whatever operations are called on a set whose
    elements a three-way comparison orders, in whatever order, all are defined and return,
    and the answers are those of a sorted list without equal elements: adding an element
    that is there changes nothing, bounds and iteration go through the list in order, and
    an addition fails only for want of memory or capacity. *)
Theorem set_refines_sorted_set w s w1 calls :
  set_created w s w1 -> Laws s ->
  exists as_ s' w' keys nodes,
    run_calls calls (Some s) w1 = Some ((as_, Some s'), w') /\
    set_answers_all (cmp s) (limit s) [] calls as_ keys /\ set_inv s' nodes keys /\ set_kept s s'.
Proof.
  intros [Hs _]%set_created_inv Hl.
  destruct (wp_run _ _ _ (set_calls_spec calls s [] [] w1 Hs Hl)) as (r & w' & Hrun & as_ & s' & keys & nodes & -> & ? & ? & ? & _).
  by exists as_, s', w', keys, nodes.
Qed.

(** After any calls, destroying a set leaves as many blocks and objects as before its
    creation. *)
Theorem set_releases_all w s w1 calls :
  set_created w s w1 -> Laws s ->
  exists as_ s' w' s'' w'',
    run_calls calls (Some s) w1 = Some ((as_, Some s'), w') /\
    set_raw_destroy_storage (Some s') w' = Some (Some s'', w'') /\ or_impl (st_map s'') = None /\
    ow_blocks w'' = ow_blocks w /\ ow_objects w'' = ow_objects w.
Proof.
  intros [Hs Hd0]%set_created_inv Hl.
  destruct (wp_run _ _ _ (set_calls_spec calls s [] [] w1 Hs Hl)) as (r & w' & Hrun & as_ & s' & keys & nodes & -> & Hs' & _ & _ & Hd1).
  destruct (wp_run _ _ _ (ordered_destroy_storage_spec false _ _ _ w' Hs')) as (r & w'' & Hdes & -> & Hd2).
  exists as_, s', w', (set_st_map (ordered_changed None (st_map s')) s'), w''. split_and!; [done| |done|..].
  - unfold set_raw_destroy_storage, bind, on_map, map_raw_destroy_storage, bind, ret. by rewrite Hdes.
  - destruct Hd0, Hd1, Hd2. lia.
  - destruct Hd0, Hd1, Hd2. lia.
Qed.

End Refinement.
