(* ===== verification/CMetaSamples.v ===== *)
(** Concrete descriptors, operation sets, objects, providers and component declarations,
    shared by the examples of the other files, and the CMeta theorems applied to them:
    each application discharges the hypotheses of the theorem on a concrete input. *)

From S2P Require Import Prelude.
From S2P Require Import CMetaType.
From S2P Require Import CMetaFunction.
From S2P Require Import CMetaInterface.
From S2P Require Import CMetaData.
From S2P Require Import CMetaOperation.
From S2P Require Import CMetaObject.
From S2P Require Import CMetaComponent.

(** * Types *)

(** [int] and a pointer to it, without identities. *)
Definition sample_int : cmeta_type_desc :=
  mk_type_desc 100 (Some "int") 4 4 CMETA_T_INTEGER None None None.

Definition sample_int_pointer : cmeta_type_desc :=
  mk_type_desc 101 (Some "int *") 8 8 CMETA_T_POINTER (Some sample_int) None None.

(** A second copy of the pointer type, as another image would hold it. *)
Definition sample_int_copy : cmeta_type_desc :=
  mk_type_desc 102 (Some "int") 4 4 CMETA_T_INTEGER None None None.

Definition sample_int_pointer_copy : cmeta_type_desc :=
  mk_type_desc 103 (Some "int *") 8 8 CMETA_T_POINTER (Some sample_int_copy) None None.

(** [vector<acme.item>] in two images. *)
Definition sample_vector (address : addr) : cmeta_generic_desc :=
  mk_generic_desc address (Some "acme.vector") (Some "vector") 1 1 CMETA_GENERIC_CONTAINER.

Definition sample_atom (address : addr) : cmeta_type_identity :=
  mk_type_identity address CMETA_TYPE_ATOM (Some "acme.item") None None None 0.

Definition sample_application (address : addr) : cmeta_type_identity :=
  mk_type_identity address CMETA_TYPE_APPLY None (Some (sample_vector (address + 1))) None
    (Some [Some (sample_atom (address + 2))]) 1.

Lemma sample_application_nodes address x :
  node_of (sample_application address) x ->
  x = sample_application address \/ x = sample_atom (address + 2).
Proof.
  inversion 1 as [|? b Hb|? args a Hargs Ha Hx]; subst; [by left|done|].
  injection Hargs as <-. apply list_elem_of_singleton in Ha. injection Ha as ->.
  right. by inversion Hx.
Qed.

Lemma sample_applications_coherent : coherent (sample_application 10) (sample_application 20).
Proof.
  split; intros x y.
  - intros [->| ->]%sample_application_nodes [->| ->]%sample_application_nodes; done.
  - intros c d [->| ->]%sample_application_nodes [->| ->]%sample_application_nodes;
      simpl; by intros [= <-] [= <-].
Qed.

Lemma identity_equal_canon_witness :
  cmeta_type_identity_equal (Some (sample_application 10)) (Some (sample_application 20)) = true
  <-> canon (sample_application 10) = canon (sample_application 20).
Proof.
  apply identity_equal_canon; [apply sample_applications_coherent|reflexivity|reflexivity].
Defined.

Lemma sample_pointer_nodes d p :
  td_pointee d = Some p -> td_pointee p = None -> forall x, pointee_of d x -> x = d \/ x = p.
Proof.
  intros Hd Hp x. inversion 1 as [|? q Hq Hx]; subst; [by left|]. right.
  assert (q = p) as -> by congruence. inversion Hx; [done|congruence].
Qed.

Lemma sample_pointers_coherent : type_coherent sample_int_pointer sample_int_pointer_copy.
Proof.
  split; intros x y.
  - intros [->| ->]%(sample_pointer_nodes sample_int_pointer _ eq_refl eq_refl)
      [->| ->]%(sample_pointer_nodes sample_int_pointer_copy _ eq_refl eq_refl); done.
  - intros i j [->| ->]%(sample_pointer_nodes sample_int_pointer _ eq_refl eq_refl)
      [->| ->]%(sample_pointer_nodes sample_int_pointer_copy _ eq_refl eq_refl); done.
Qed.

Lemma type_equal_canon_witness :
  cmeta_type_equal (Some sample_int_pointer) (Some sample_int_pointer_copy) = true
  <-> type_canon sample_int_pointer = type_canon sample_int_pointer_copy.
Proof.
  apply type_equal_canon; [apply sample_pointers_coherent|reflexivity|reflexivity].
Defined.

(** * Functions *)

(** [int add (int *self, int by)] and its projection without [self]. *)
Definition sample_self : cmeta_param_desc :=
  mk_param_desc 32 (Some "self") (Some sample_int_pointer)
    (Z.lor CMETA_PARAM_IN (Z.lor CMETA_PARAM_BORROWED CMETA_PARAM_RECEIVER)).

Definition sample_by : cmeta_param_desc :=
  mk_param_desc 32 (Some "by") (Some sample_int) CMETA_PARAM_IN.

Definition sample_add : cmeta_function_desc :=
  mk_function_desc 200 56 (Some "add") (Some sample_int) (Some [sample_self; sample_by]) 2
    0 CMETA_PROP_TOTAL CMETA_RESULT_VALUE.

Definition sample_add_abi : cmeta_function_abi_desc :=
  mk_function_abi_desc 210 40 (Some sample_add) CMETA_ABI_SCALAR
    (Some [CMETA_ABI_OBJECT_POINTER; CMETA_ABI_SCALAR]) 2.

Definition sample_add_copy : cmeta_function_abi_desc :=
  mk_function_abi_desc 211 40
    (Some (mk_function_desc 201 56 (Some "add") (Some sample_int)
             (Some [sample_self; sample_by]) 2 0 CMETA_PROP_TOTAL CMETA_RESULT_VALUE))
    CMETA_ABI_SCALAR (Some [CMETA_ABI_OBJECT_POINTER; CMETA_ABI_SCALAR]) 2.

Definition sample_bound_add : cmeta_function_abi_desc :=
  mk_function_abi_desc 212 40
    (Some (mk_function_desc 202 56 (Some "bound_add") (Some sample_int)
             (Some [sample_by]) 1 0 CMETA_PROP_TOTAL CMETA_RESULT_VALUE))
    CMETA_ABI_SCALAR (Some [CMETA_ABI_SCALAR]) 1.

Example sample_projection_accepted :
  cmeta_function_projection_valid (Some sample_add_abi) (Some sample_bound_add)
    (Some [true; false]) 2 = true.
Proof. reflexivity. Qed.

Lemma projection_valid_exact_witness :
  cmeta_type_equal (fd_return_type sample_add) (fd_return_type sample_add) = true /\
  Forall2 (fun x y => projected_row_same x y = true)
    (unbound_rows [true; false] (signature_rows sample_add_abi sample_add))
    (signature_rows sample_bound_add
       (default sample_add (ad_function sample_bound_add))).
Proof.
  destruct (proj1 (projection_valid_exact sample_add_abi sample_bound_add sample_add
    (default sample_add (ad_function sample_bound_add)) [true; false]
    eq_refl eq_refl eq_refl) eq_refl) as (_ & _ & _ & _ & _ & _ & _ & _ & Hrows).
  split; [reflexivity|exact Hrows].
Defined.

Lemma abi_equal_contract_compatible_witness :
  cmeta_function_abi_desc_equal (Some sample_add_abi) (Some sample_add_copy) = true /\
  cmeta_function_abi_contract_compatible (Some sample_add_abi) (Some sample_add_copy) = true.
Proof.
  split; [reflexivity|].
  apply (abi_equal_contract_compatible sample_add_abi sample_add_copy sample_add
    (default sample_add (ad_function sample_add_copy)));
    [reflexivity|reflexivity|discriminate|discriminate|discriminate| |reflexivity].
  repeat constructor; discriminate.
Defined.

(** * Interfaces *)

(** A counter service with one reflected method, in two images. *)
Definition sample_method : cmeta_interface_method_desc :=
  mk_interface_method_desc 40 (Some "add") 2 0 (Some sample_add) (Some sample_add_abi).

Definition sample_counter (address : addr) : cmeta_interface_desc :=
  mk_interface_desc address 32 (Some "acme.counter") (Some [sample_method]) 1.

Lemma equal_interfaces_owning_witness :
  cmeta_interface_desc_has_owning_method (Some (sample_counter 300)) =
  cmeta_interface_desc_has_owning_method (Some (sample_counter 301)).
Proof. apply equal_interfaces_owning; [discriminate|reflexivity]. Defined.

Lemma borrowed_service_methods_witness :
  cmeta_interface_desc_has_owning_method (Some (sample_counter 300)) = false /\
  (1 <= length [sample_method])%nat.
Proof.
  destruct (borrowed_service_methods (sample_counter 300) eq_refl) as (Hown & Hlen & _).
  split; [exact Hown|exact Hlen].
Defined.

(** * Data descriptors *)

Definition sample_data (address : addr) (storage : cmeta_type_desc) : cmeta_data_desc :=
  mk_data_desc address 120 CMETA_DATA_DESC_ABI_VERSION (Some "acme.int") (Some "int")
    CMETA_DATA_SINT (Some storage) (Some (Shape_integer 32))
    None None None None None None None None.

Lemma sample_ints_coherent : type_coherent sample_int sample_int_copy.
Proof.
  assert (forall d x, td_pointee d = None -> pointee_of d x -> x = d) as Hone
    by (intros d x Hd; inversion 1; congruence).
  split; intros x y.
  - intros ->%Hone ->%Hone; done.
  - intros i j ->%Hone ->%Hone; done.
Qed.

Lemma data_equal_canon_witness :
  cmeta_data_desc_equal (Some (sample_data 400 sample_int))
    (Some (sample_data 401 sample_int_copy)) = true
  <-> data_canon (sample_data 400 sample_int) = data_canon (sample_data 401 sample_int_copy).
Proof.
  apply data_equal_canon; [discriminate| |reflexivity|reflexivity].
  intros s t Hs Ht. injection Hs as <-. injection Ht as <-.
  split; [apply sample_ints_coherent|split; reflexivity].
Defined.

(** [struct { int x; int y; }] reflected by value. *)
Definition sample_point_type : cmeta_type_desc :=
  mk_type_desc 110 (Some "point") 8 4 CMETA_T_OBJECT None None None.

Definition sample_point_layout : cmeta_struct_desc :=
  mk_struct_desc (Some "point") 8 4
    (Some [mk_field_desc (Some "x") 0 4 4 (Some sample_int);
           mk_field_desc (Some "y") 4 4 4 (Some sample_int)]) 2.

Definition sample_point_reflection : cmeta_data_reflection_shape_of cmeta_data_desc :=
  mk_reflection_shape _
    (mk_struct_shape _ (Some sample_point_layout)
       (Some [mk_data_field _ (Some "acme.point.x") (Some "x") 0 (Some (sample_data 400 sample_int));
              mk_data_field _ (Some "acme.point.y") (Some "y") 4 (Some (sample_data 400 sample_int))])
       2)
    40 CMETA_DATA_REFLECTION_VALUE.

Definition sample_point : cmeta_data_desc :=
  mk_data_desc 410 120 CMETA_DATA_DESC_REFLECTION_ABI_VERSION (Some "acme.point") (Some "point")
    CMETA_DATA_STRUCT (Some sample_point_type) (Some (Shape_reflection sample_point_reflection))
    None None None None None None None None.

Lemma reflection_value_layout_witness :
  cmeta_data_desc_valid (Some sample_point) = true /\
  exists layout, ss_layout (rs_structure sample_point_reflection) = Some layout.
Proof.
  split; [reflexivity|].
  destruct (reflection_value_layout sample_point sample_point_reflection sample_point_type)
    as (layout & Hlayout & _); [reflexivity|reflexivity|reflexivity|reflexivity|reflexivity| | | |].
  - vm_compute; discriminate.
  - intros f [->|[->|[]%elem_of_nil]%elem_of_cons]%elem_of_cons; simpl; lia.
  - intros l f Hl. injection Hl as <-.
    intros [->|[->|[]%elem_of_nil]%elem_of_cons]%elem_of_cons; simpl; lia.
  - exists layout. exact Hlayout.
Defined.

(** * Operations *)

Definition sample_operation : cmeta_receiver_operation :=
  mk_operation (Some "plus") (Some sample_add_abi).

Definition sample_operations : cmeta_receiver_operation_set :=
  mk_operation_set 500 40 (Some sample_int) (Some [sample_operation]) 1 None.

Lemma operation_resolve_exact_witness :
  (cmeta_receiver_operation_resolve (Some sample_operations) (Some sample_int) None (Some "plus")
     (Some [Some sample_int_copy]) 1 (Some (mk_resolution 24 None None))).1 =
    CMETA_RECEIVER_RESOLVE_OK /\
  exists o, call_accepted sample_operations (Some "plus") [Some sample_int_copy] o.
Proof.
  destruct (operation_resolve_exact sample_operations (Some sample_int) None (Some "plus")
    [Some sample_int_copy] (mk_resolution 24 None None)) as ([Hok _] & _ & _);
    [reflexivity|intros [? [=]]|reflexivity|discriminate|reflexivity|reflexivity|reflexivity|].
  split; [reflexivity|]. apply Hok. reflexivity.
Defined.

(** * Objects *)

(** The world of the examples is the log of the callbacks that ran. *)
#[export] Instance log_objects : ObjectCallbacks (list Z) := {
  cb_retain f _ _ w := (CMETA_OK, w ++ [f]);
  cb_release f _ _ w := w ++ [f];
  cb_destroy f _ object w := w ++ [f; object];
  cb_field_read f _ object field w := (CMETA_OK, Some (object + df_offset field), w ++ [f]);
  cb_field_assign f _ _ _ value w := (CMETA_OK, w ++ [f; value]);
  cb_project f _ _ expected w := (CMETA_OK, mk_projection 32 (Some expected) (Some 1) (Some 2), w ++ [f]);
}.

(** An owned [int] and a borrowed point. *)
Definition sample_owned (object : addr) : cmeta_object_ref :=
  mk_object_ref 64 (Some object) (Some (sample_data 400 sample_int)) None None None
    CMETA_OBJECT_LIFETIME_OWNED (Some (mk_lifecycle 40 None None None (Some 700))).

Definition sample_borrowed_point : cmeta_object_ref :=
  mk_object_ref 64 (Some 4096) (Some sample_point) None None None
    CMETA_OBJECT_LIFETIME_BORROWED None.

Lemma release_ends_life_once_witness :
  cmeta_object_release (Some (sample_owned 4096)) [] = (Some CMETA_OBJECT_REF_INIT, [700; 4096]) /\
  has_end_of_life (sample_owned 4096).
Proof.
  destruct (release_ends_life_once (sample_owned 4096) [] eq_refl) as (Hend & Hrel & _).
  split; [exact Hrel|exact Hend].
Defined.

Lemma sample_point_offsets s f :
  (or_data sample_borrowed_point ≫= struct_shape) = Some s -> f ∈ default [] (ss_fields s) ->
  0 <= df_offset f.
Proof.
  intros Hs. injection Hs as <-.
  intros [->|[->|[]%elem_of_nil]%elem_of_cons]%elem_of_cons; simpl; lia.
Qed.

Lemma fixed_field_in_bounds_witness :
  cmeta_object_field_read (Some sample_borrowed_point) (Some "y") [] =
    (CMETA_OK, Some (sample_data 400 sample_int), Some 4100, []) /\
  exists field : cmeta_data_field_desc, df_offset field + 4 <= 8 /\ (4100 = 4096 + df_offset field).
Proof.
  split; [reflexivity|].
  destruct (fixed_field_in_bounds sample_borrowed_point (Some "y") (Some (sample_data 400 sample_int))
    (Some 4100) [] [] 4096 sample_point_type) as (_ & field & t & _ & _ & Ht & Hv & _ & Hle & _);
    [reflexivity|reflexivity|lia|discriminate|apply sample_point_offsets|reflexivity|reflexivity|].
  exists field. injection Ht as <-. injection Hv as Hv. simpl in Hle. split; [exact Hle|exact Hv].
Defined.

Lemma admitted_access_equivalent_witness :
  (cmeta_object_field_bind (Some sample_borrowed_point) (Some "y")).1 = CMETA_OK /\
  cmeta_object_field_read_admitted
    (Some (cmeta_object_field_bind (Some sample_borrowed_point) (Some "y")).2) [] =
    (CMETA_OK, Some 4100, []).
Proof.
  split; [reflexivity|].
  pose proof (admitted_access_equivalent sample_borrowed_point (Some "y") [] 1 4096 sample_point_type
    eq_refl eq_refl eq_refl ltac:(discriminate) sample_point_offsets) as [Hread _].
  exact Hread.
Defined.

(** * Components *)

(** A store that provides a counter and a front end that needs one. *)
Definition sample_store : cmeta_component_desc :=
  mk_component_desc 800 48 2 (Some "acme.store") None
    (Some [mk_capability CMETA_COMPONENT_PROVIDES (Some (sample_counter 300))]) 1.

Definition sample_front : cmeta_component_desc :=
  mk_component_desc 801 48 2 (Some "acme.front") None
    (Some [mk_capability CMETA_COMPONENT_REQUIRES (Some (sample_counter 301))]) 1.

Lemma component_valid_declares_witness :
  c_nonempty (cd_stable_id sample_store) = true /\
  (cd_capability_count sample_store <= length (cd_rows sample_store))%nat.
Proof.
  destruct (component_valid_declares sample_store eq_refl) as (Hid & Hlen & _).
  split; [exact Hid|exact Hlen].
Defined.
