(* ===== verification/CstlSamples.v ===== *)
(** Concrete hash maps, arrays, vectors, heaps and double-ended queues: 64-bit keys
    hashed with [hash_bytes], an allocator with a budget, a typed map and a map of
    bytes, objects that their type orders by their tens, and the theorems applied to
    them. *)

From S2P Require Import Prelude.
From S2P Require Import CMetaType.
From S2P Require Import CstlSupport.
From S2P Require Import CstlObjects.
From S2P Require Import CstlHashMap.
From S2P Require Import CstlHashMapInvariant.
From S2P Require Import CstlHashMapRehash.
From S2P Require Import CstlHashMapOps.
From S2P Require Import CstlHashMapTheorems.
From S2P Require Import CstlSequence.
From S2P Require Import CstlSequenceSpecs.
From S2P Require Import CstlVec.
From S2P Require Import CstlVecOps.
From S2P Require Import CstlVecTheorems.
From S2P Require Import CstlHeap.
From S2P Require Import CstlMerge.
From S2P Require Import CstlHeapOps.
From S2P Require Import CstlHeapTheorems.
From S2P Require Import CstlSort.
From S2P Require Import CstlSortTheorems.
From S2P Require Import CstlDeque.
From S2P Require Import CstlDequeTheorems.

(** * Objects *)

Definition key_bytes (k : Z) : list Z :=
  (fun i : nat => (k / 2 ^ (8 * Z.of_nat i)) mod 256) <$> seq 0 8.

(** The state of the callbacks is the number of allocations that may still succeed. *)
#[export] Instance sample_traits : ObjectTraits Z Z := {|
  call_equal _ a b := a =? b;
  call_hash _ k := k mod 2;
  call_compare _ a b := a / 10 - b / 10;
  call_copy_construct _ v u := (Some v, u);
  call_move_construct _ v u := (v, u);
  call_destroy _ _ u := u;
  raw_hash _ k _ _ := default 0 (hash_bytes (key_bytes k) 8);
  raw_equal _ a b _ _ := default false (hash_key_equal (key_bytes a) (key_bytes b) 8);
  raw_compare _ a b _ := a - b;
  call_malloc _ u := if u <=? 0 then (None, u) else (Some (4096 * u), u - 1);
|}.

#[export] Instance sample_trait_laws : TraitLaws Z Z.
Proof. split; [|done]. by intros f v u v' [= <-]. Qed.

(** The callback addresses. *)
Definition at_hash : addr := 801.
Definition at_equal : addr := 802.

Definition full_traits : cmeta_type_traits :=
  mk_type_traits 63 (Some 811) (Some 812) (Some 813) (Some 814) (Some 815) (Some 816).

Definition sample_long : cmeta_type_desc :=
  mk_type_desc 820 (Some "long") 8 8 CMETA_T_INTEGER None (Some full_traits) None.

Definition sample_container : addr := 830.

Definition world (budget : Z) : object_world Z := mk_object_world budget 0 0.

(** * Maps *)

Definition typed_map (entry_limit : Z) : hash_map_t Z :=
  match hash_map_raw_init (Some (zero_map 4)) (Some sample_long) (Some sample_long) entry_limit with
  | (STL_OK, Some m) => m
  | _ => zero_map 0
  end.

Definition byte_map : hash_map_t Z :=
  match hash_map_init_bytes (Some (zero_map 4)) 8 8 8 8 100 (Some at_hash) (Some at_equal) None with
  | (STL_OK, Some m) => m
  | _ => zero_map 0
  end.

(** A zero handle bound to its types. *)
Definition bound_map : hash_map_t Z :=
  mk_hash_map (Some sample_container) None 0 0 0
    (mk_hash_map_config 0 0 0 0 0 0 0 (Some sample_long) (Some sample_long) None None None) 9 false.

Lemma typed_created : created (typed_map 3).
Proof.
  apply (created_typed 4 (Some sample_long) (Some sample_long) 3); vm_compute; try done; by split.
Qed.

Lemma byte_created : created byte_map.
Proof.
  by apply (created_bytes 4 8 8 8 8 100 (Some at_hash) (Some at_equal) None).
Qed.

Lemma long_laws c : hc_key_type c = Some sample_long -> HashLaws c.
Proof.
  intros Hk. assert (forall a b, the_equal c a b = (a =? b)) as He
    by (intros a b; unfold the_equal, hash_map_equal; by rewrite Hk).
  split.
  - split; red; intros *; rewrite ?He; intros; destruct_bools; try apply Z.eqb_eq; lia.
  - intros a b. rewrite He. by intros ->%Z.eqb_eq.
Qed.

Lemma key_bytes_length k : length (key_bytes k) = 8%nat.
Proof. done. Qed.

Lemma key_bytes_equal a b :
  hash_key_equal (key_bytes a) (key_bytes b) 8 = Some (bool_decide (key_bytes a = key_bytes b)).
Proof.
  unfold hash_key_equal. rewrite !key_bytes_length. cbn [Nat.leb andb].
  by rewrite !take_ge by by rewrite key_bytes_length.
Qed.

Lemma byte_laws c :
  hc_key_type c = None -> hc_equal c = Some at_equal -> hc_hash c = Some at_hash -> HashLaws c.
Proof.
  intros Hk He Hh.
  assert (forall a b, the_equal c a b = bool_decide (key_bytes a = key_bytes b)) as Hab.
  { intros a b. unfold the_equal, hash_map_equal. rewrite Hk, He. cbn [mbind option_bind].
    unfold raw_equal, sample_traits. by rewrite key_bytes_equal. }
  split.
  - split; red; intros *; rewrite ?Hab, ?bool_decide_eq_true; congruence.
  - intros a b. rewrite Hab, bool_decide_eq_true. intros Heq.
    unfold the_hash, hash_map_hash. rewrite Hk, Hh. cbn [mbind option_bind].
    unfold raw_hash, sample_traits. by rewrite Heq.
Qed.

(** * The calls *)

(** Colliding keys: a removal leaves a tombstone in the middle of a probe run. *)
Definition sample_calls : list (map_call Z) :=
  [ CallPut 2 20; CallPut 4 40; CallPut 6 60; CallRemove 4 true; CallGet 6; CallPut 2 21;
    CallGet 2; CallContains 4; CallPut 8 80; CallPut 10 100; CallReserve 4; CallSize; CallClear;
    CallSize ].

Lemma sample_calls_ok : Forall call_ok sample_calls.
Proof. by repeat constructor. Qed.

Definition answers_of {A} (r : option (list (map_answer Z) * A * object_world Z)) :
    list (map_answer Z) :=
  match r with Some (l, _, _) => l | None => [] end.

(** The fourth distinct key does not fit the limit of three. *)
Example sample_answers :
  answers_of (run_calls sample_container sample_calls (Some (typed_map 3)) (world 100)) =
    [ AnswerStatus STL_OK; AnswerStatus STL_OK; AnswerStatus STL_OK;
      AnswerRemoved STL_OK (Live 40); AnswerValue (Some 60); AnswerStatus STL_OK;
      AnswerValue (Some 21); AnswerBool false; AnswerStatus STL_OK;
      AnswerStatus STL_CAPACITY_EXCEEDED; AnswerStatus STL_CAPACITY_EXCEEDED; AnswerSize 3;
      AnswerNothing; AnswerSize 0 ].
Proof. vm_compute. reflexivity. Qed.

Lemma hash_map_refines_map_witness :
  exists as_ m' w' l,
    run_calls sample_container sample_calls (Some byte_map) (world 5) = Some ((as_, Some m'), w') /\
    answers_all (hm_config byte_map) [] sample_calls as_ l /\
    map_inv m' /\ hm_config m' = hm_config byte_map /\ map_contents m' ≡ₚ l.
Proof.
  apply (hash_map_refines_map sample_container byte_map sample_calls (world 5));
    [apply byte_created|by apply byte_laws|apply sample_calls_ok].
Defined.

Lemma hash_map_releases_all_witness :
  exists as_ m' w' zero w'',
    run_calls sample_container sample_calls (Some (typed_map 3)) (world 100) =
      Some ((as_, Some m'), w') /\
    hash_map_raw_destroy_storage (Some m') w' = Some (Some zero, w'') /\
    hm_initialized zero = false /\ hm_storage zero = None /\
    ow_blocks w'' = ow_blocks (world 100) /\
    ow_objects w'' = ow_objects (world 100) + all_handed_out (hm_config (typed_map 3)) as_.
Proof.
  apply (hash_map_releases_all sample_container (typed_map 3) sample_calls (world 100));
    [apply typed_created|by apply long_laws|apply sample_calls_ok].
Defined.

Lemma bound_usable : usable sample_container bound_map.
Proof. right. split_and!; vm_compute; try done; by split. Qed.

(** The first put initialises the bound handle. *)
Example bound_map_put :
  (fun r => bool_decide (fst (fst r) = STL_OK)) <$>
    hash_map_put sample_container (Some bound_map) (Some 7) (Some 70) (world 100) = Some true.
Proof. vm_compute. reflexivity. Qed.

(** Out of memory in the middle: the handle is the zero handle again. *)
Example bound_map_rollback :
  fst <$> hash_map_put sample_container (Some bound_map) (Some 7) (Some 70) (world 2) =
    Some (STL_OUT_OF_MEMORY, Some bound_map).
Proof. vm_compute. reflexivity. Qed.

Lemma hash_map_put_exact_witness :
  exists r w',
    hash_map_put sample_container (Some bound_map) (Some 7) (Some 70) (world 2) = Some (r, w') /\
    ((exists m', r = (STL_OK, Some m') /\ map_inv m' /\
        map_contents m' ≡ₚ assoc_put (hm_config bound_map) 7 70 (map_contents bound_map) /\
        (assoc_has (hm_config bound_map) 7 (map_contents bound_map) = false ->
           hm_size bound_map < limit_of bound_map) /\
        delta (world 2) w' (owned_blocks m' - owned_blocks bound_map)
          (owned_objects m' - owned_objects bound_map)) \/
     (exists status, r = (status, Some bound_map) /\ status <> STL_OK /\ delta (world 2) w' 0 0 /\
        (hm_initialized bound_map = true ->
           no_room status /\
           (assoc_has (hm_config bound_map) 7 (map_contents bound_map) = false ->
              limit_of bound_map <= hm_size bound_map -> status = STL_CAPACITY_EXCEEDED)))).
Proof.
  apply (hash_map_put_exact sample_container bound_map 7 70 (world 2));
    [by apply long_laws|apply bound_usable].
Defined.

(** Row 3 gives key 1 another value. *)
Definition sample_keys : list Z := [1; 2; 3; 1].
Definition sample_values : list Z := [10; 20; 30; 11].

Lemma hash_map_from_arrays_exact_witness :
  exists r w',
    hash_map_raw_from_arrays sample_container (Some (typed_map 3)) (Some sample_keys)
      (Some sample_values) 4 (Some sample_long) (Some sample_long) 5 (world 100) = Some (r, w') /\
    ((exists m', r = (STL_OK, Some m') /\ map_inv m' /\
        hc_entry_limit (hm_config m') = 5 /\
        map_contents m' ≡ₚ put_all (hm_config m') (take 4 (zip sample_keys sample_values)) [] /\
        delta (world 100) w' (owned_blocks m' - owned_blocks (typed_map 3))
          (owned_objects m' -
             (if hm_initialized (typed_map 3) then owned_objects (typed_map 3) else 0))) \/
     (exists status, r = (status, Some (typed_map 3)) /\ status <> STL_OK /\
        delta (world 100) w' 0 0)).
Proof.
  apply (hash_map_from_arrays_exact sample_container (typed_map 3) sample_keys sample_values 4
    (Some sample_long) (Some sample_long) 5 (world 100)).
  - left. apply created_inv, typed_created.
  - by split.
  - by split.
  - by split.
  - intros t [_ _ Hk _ _]. by apply long_laws.
  - simpl. lia.
  - simpl. lia.
Defined.

Lemma hash_map_buckets_exact_witness :
  is_size 12 /\
  match hash_buckets_for_entries 12 with
  | StlOk b =>
      if 12 =? 0 then b = 0
      else bucket_count b /\ 10 * 12 <= 7 * b /\ (b = 16 \/ 7 * (b / 2) < 10 * 12)
  | StlFail status => status = STL_CAPACITY_EXCEEDED /\ 7 * 2 ^ 63 < 10 * 12
  end.
Proof. split; [by split|]. apply (hash_map_buckets_exact 12). by split. Defined.

Example sample_buckets :
  hash_buckets_for_entries <$> [11; 12; 6456360425798343065; 6456360425798343066] =
    [StlOk 16; StlOk 32; StlOk (2 ^ 63); StlFail STL_CAPACITY_EXCEEDED].
Proof. vm_compute. reflexivity. Qed.

Lemma hash_map_layout_disjoint_witness :
  match hash_map_layout (hm_config byte_map) 16 with
  | StlOk l =>
      16 <= hl_hashes_offset l /\
      hl_hashes_offset l + 16 * sizeof_size_t <= hl_keys_offset l /\
      hl_keys_offset l + 16 * hc_key_stride (hm_config byte_map) <= hl_values_offset l /\
      hl_values_offset l + 16 * hc_value_stride (hm_config byte_map) = hl_total l /\
      hl_total l <= SIZE_MAX /\
      hl_hashes_offset l mod alignof_size_t = 0 /\
      hl_keys_offset l mod hc_key_align (hm_config byte_map) = 0 /\
      hl_values_offset l mod hc_value_align (hm_config byte_map) = 0
  | StlFail status => status = STL_CAPACITY_EXCEEDED /\
      SIZE_MAX < 16 * (1 + sizeof_size_t + hc_key_stride (hm_config byte_map) +
                       hc_value_stride (hm_config byte_map)) +
        (alignof_size_t - 1) + (hc_key_align (hm_config byte_map) - 1) +
        (hc_value_align (hm_config byte_map) - 1)
  end.
Proof.
  apply (hash_map_layout_disjoint (hm_config byte_map) 16).
  - apply created_inv, byte_created.
  - exists 4. by split.
Defined.

(** The allocator callbacks share the budget of [malloc]. *)
#[export] Instance sample_allocator_calls : AllocatorCalls Z := {|
  call_allocate _ _ _ u := if u <=? 0 then ((STL_OUT_OF_MEMORY, None), u) else ((STL_OK, Some (4096 * u)), u - 1);
  call_deallocate _ _ _ _ u := u;
|}.

Definition sample_allocator : stl_allocator := mk_stl_allocator None (Some 841) (Some 842).

Definition vec_kind : addr := 851.
Definition stack_kind : addr := 852.
Definition heap_kind : addr := 853.

Definition result_of {A} (r : option (A * object_world Z)) (default : A) : A :=
  match r with Some (a, _) => a | None => default end.

(** * Sorting *)

Definition sample_list : list Z := [31; 12; 35; 10; 22; 33; 11].

#[export] Instance sample_preorder : TotalPreorder (type_le (V := Z) (U := Z) sample_long).
Proof.
  assert (forall a b, type_le (V := Z) (U := Z) sample_long a b = (a / 10 - b / 10 <=? 0)) as E by done.
  split; intros *; rewrite !E, !Z.leb_le; lia.
Qed.

(** Objects of one decade keep their order. *)
Example sample_sorted :
  fst <$> stable_sort (Some (4096, Live <$> sample_list)) 7 (Some sample_long) 100 (world 5) =
    Some (STL_OK, Some (4096, Live <$> [12; 10; 11; 22; 31; 35; 33])).
Proof. vm_compute. reflexivity. Qed.

Lemma stable_sort_exact_witness :
  exists status l' w',
    stable_sort (Some (4096, Live <$> sample_list)) (Z.of_nat (length sample_list)) (Some sample_long)
      100 (world 5) = Some ((status, Some (4096, Live <$> l')), w') /\
    ow_blocks w' = ow_blocks (world 5) /\ ow_objects w' = ow_objects (world 5) /\
    ((status = STL_OK /\ l' = insertion_sort (type_le sample_long) sample_list /\
        stable_sorted (type_le sample_long) sample_list l') \/
     (no_room status /\ l' = sample_list)) /\
    ((1 < length sample_list)%nat -> 100 < Z.of_nat (length sample_list) * td_size sample_long ->
     status = STL_CAPACITY_EXCEEDED).
Proof.
  apply (stable_sort_exact sample_long ltac:(vm_compute; reflexivity) 4096 sample_list 100 (world 5)).
  - by split.
  - by split.
  - by vm_compute.
  - by vm_compute.
  - by vm_compute.
Defined.

(** * Vectors *)

Definition typed_vec (limit : Z) : vec_t Z :=
  match vec_raw_init (Some (zero_vec 4)) (Some sample_long) limit with
  | (STL_OK, Some m) => m
  | _ => zero_vec 0
  end.

Definition byte_vec (limit : Z) : vec_t Z :=
  match vec_init_bytes (Some (zero_vec 4)) 8 8 limit with
  | (STL_OK, Some m) => m
  | _ => zero_vec 0
  end.

Lemma typed_vec_created : vec_created (typed_vec 4).
Proof. apply (vec_created_typed 4 (Some sample_long) 4); vm_compute; try done; by split. Qed.

Lemma byte_vec_created : vec_created (byte_vec 100).
Proof. by apply (vec_created_bytes 4 8 8 100). Qed.

Definition sample_vec_calls : list (vec_call Z) :=
  [ VecPush 1; VecPush 2; VecInsert 1 3; VecInsert 9 3; VecSet 0 4; VecPush 5; VecPush 6; VecAt 1;
    VecErase 0 true; VecSwapRemove 0 true; VecAt 0; VecSize; VecResize 1; VecResize 3; VecPop true;
    VecPop true; VecReserve 9; VecClear; VecSize ].

Lemma sample_vec_calls_ok : Forall vec_call_ok sample_vec_calls.
Proof. by repeat constructor. Qed.

(** The fifth object does not fit the limit of four. *)
Example sample_vec_answers :
  fst (result_of (run_vec_calls vec_kind stack_kind 0 sample_vec_calls (Some (typed_vec 4)) (world 100))
         ([], None)) =
    [ VecStatus STL_OK; VecStatus STL_OK; VecStatus STL_OK; VecStatus STL_INVALID_ARGUMENT;
      VecStatus STL_OK; VecStatus STL_OK; VecStatus STL_CAPACITY_EXCEEDED; VecValue (Some 3);
      VecTaken STL_OK (Live 4); VecTaken STL_OK (Live 3); VecValue (Some 5); VecCount 2;
      VecStatus STL_OK; VecStatus STL_TRAIT_MISSING; VecTaken STL_OK (Live 5);
      VecTaken STL_EMPTY Raw; VecStatus STL_CAPACITY_EXCEEDED; VecStatus STL_OK; VecCount 0 ].
Proof. vm_compute. reflexivity. Qed.

(** A vector of bytes grows by zeros, and nine objects grow the array once. *)
Example sample_byte_vec :
  fst (result_of (run_vec_calls vec_kind stack_kind 0
         [VecPush 7; VecResize 9; VecAt 0; VecAt 8; VecErase 0 true; VecInsert 1 5; VecAt 1; VecSize]
         (Some (byte_vec 100)) (world 100)) ([], None)) =
    [ VecStatus STL_OK; VecStatus STL_OK; VecValue (Some 7); VecValue (Some 0);
      VecTaken STL_OK (Live 7); VecStatus STL_OK; VecValue (Some 5); VecCount 9 ].
Proof. vm_compute. reflexivity. Qed.

Lemma vec_refines_list_witness :
  exists as_ m' w' l,
    run_vec_calls vec_kind stack_kind 0 sample_vec_calls (Some (byte_vec 100)) (world 6) =
      Some ((as_, Some m'), w') /\
    list_answers_all 0 (vec_config (byte_vec 100)) [] sample_vec_calls as_ l /\
    vec_inv None m' l /\ vec_config m' = vec_config (byte_vec 100).
Proof.
  apply (vec_refines_list vec_kind stack_kind 0 (byte_vec 100) sample_vec_calls (world 6));
    [apply byte_vec_created|apply sample_vec_calls_ok].
Defined.

Lemma vec_releases_all_witness :
  exists as_ m' w' zero w'',
    run_vec_calls vec_kind stack_kind 0 sample_vec_calls (Some (typed_vec 4)) (world 100) =
      Some ((as_, Some m'), w') /\
    vec_raw_destroy_storage (Some m') w' = Some (Some zero, w'') /\
    vc_initialized zero = false /\ sq_data (vc_sequence zero) = None /\
    ow_blocks w'' = ow_blocks (world 100) /\
    ow_objects w'' = ow_objects (world 100) + vec_all_handed_out (vec_config (typed_vec 4)) as_.
Proof.
  apply (vec_releases_all vec_kind stack_kind 0 (typed_vec 4) sample_vec_calls (world 100));
    [apply typed_vec_created|apply sample_vec_calls_ok].
Defined.

Definition sample_owner_calls : list (owner_call (V := Z)) :=
  [ OwnerPush 1; OwnerPush 2; OwnerResize 1; OwnerPush 3; OwnerResize 4 ].

Lemma vec_alloc_contract_witness :
  exists r w1,
    vec_alloc_create (V := Z) (Some sample_long) 0 0 10 (Some sample_allocator) true (world 100) =
      Some (r, w1) /\
    match r with
    | (STL_OK, Some o) => exists answers o' w2 w3,
        run_owner_calls vec_kind stack_kind 0 sample_owner_calls (Some o) w1 = Some ((answers, Some o'), w2) /\
        length answers = length sample_owner_calls /\
        vec_size (Some (va_vec o')) = Z.of_nat (length (owner_steps 0 [] sample_owner_calls answers)) /\
        (forall i, is_size i ->
           value_at (Some (va_vec o')) (vec_alloc_at (Some o') i) =
             Some (at_index i (owner_steps 0 [] sample_owner_calls answers))) /\
        vec_alloc_destroy (Some o') w2 = Some (tt, w3) /\
        ow_blocks w3 = ow_blocks (world 100) /\ ow_objects w3 = ow_objects (world 100)
    | (status, o) => status <> STL_OK /\ o = None /\ delta (world 100) w1 0 0
    end.
Proof.
  apply (vec_alloc_contract vec_kind stack_kind 0 (Some sample_long) 0 0 10 sample_allocator
    sample_owner_calls (world 100)).
  - by eexists.
  - by eexists.
  - by split; split.
  - by split.
  - by split.
  - by split.
  - by repeat constructor.
Defined.

(** * Heaps *)

Definition typed_heap (limit : Z) : heap_t Z :=
  match heap_raw_init (Some (zero_heap 4)) (Some sample_long) limit with
  | (STL_OK, Some m) => m
  | _ => zero_heap 0
  end.

Lemma typed_heap_created : heap_created (typed_heap 6).
Proof. apply (heap_created_typed 4 (Some sample_long) 6); vm_compute; try done; by split. Qed.

Lemma typed_heap_laws : TotalPreorder (heap_le (typed_heap 6)).
Proof.
  assert (forall a b, heap_le (typed_heap 6) a b = negb (b / 10 - a / 10 <? 0)) as E by done.
  split; intros *; rewrite !E, !negb_true_iff, !Z.ltb_ge; lia.
Qed.

Definition sample_heap_calls : list (heap_call Z) :=
  [ HeapPush 50; HeapPush 30; HeapPush 70; HeapPush 10; HeapPush 90; HeapPush 20; HeapPush 40; HeapPeek;
    HeapPop true; HeapPop false; HeapPop true; HeapPush 60; HeapSize; HeapPop true; HeapPop true;
    HeapPop true; HeapPop true; HeapPop true; HeapPeek; HeapReserve 7; HeapClear ].

Lemma sample_heap_calls_ok : Forall heap_call_ok sample_heap_calls.
Proof. by repeat constructor. Qed.

Example sample_heap_answers :
  fst (result_of (run_heap_calls heap_kind sample_heap_calls (Some (typed_heap 6)) (world 100)) ([], None)) =
    [ QueueStatus STL_OK; QueueStatus STL_OK; QueueStatus STL_OK; QueueStatus STL_OK; QueueStatus STL_OK;
      QueueStatus STL_OK; QueueStatus STL_CAPACITY_EXCEEDED; QueueValue (Some 10);
      QueueTaken STL_OK (Live 10); QueueTaken STL_OK Raw; QueueTaken STL_OK (Live 30); QueueStatus STL_OK;
      QueueCount 4; QueueTaken STL_OK (Live 50); QueueTaken STL_OK (Live 60); QueueTaken STL_OK (Live 70);
      QueueTaken STL_OK (Live 90); QueueTaken STL_EMPTY Raw; QueueValue None;
      QueueStatus STL_CAPACITY_EXCEEDED; QueueStatus STL_OK ].
Proof. vm_compute. reflexivity. Qed.

Lemma heap_refines_queue_witness :
  exists as_ m' w' l k,
    run_heap_calls heap_kind sample_heap_calls (Some (typed_heap 6)) (world 12) = Some ((as_, Some m'), w') /\
    queue_answers_all (heap_le (typed_heap 6)) (heap_limit (typed_heap 6)) [] sample_heap_calls as_ l /\
    heap_inv m' k /\ k ≡ₚ l /\ heap_kept (typed_heap 6) m'.
Proof.
  apply (heap_refines_queue heap_kind (typed_heap 6) sample_heap_calls (world 12));
    [apply typed_heap_created|apply typed_heap_laws|by vm_compute|apply sample_heap_calls_ok].
Defined.

Lemma heap_releases_all_witness :
  exists as_ m' w' zero w'',
    run_heap_calls heap_kind sample_heap_calls (Some (typed_heap 6)) (world 100) = Some ((as_, Some m'), w') /\
    heap_raw_destroy_storage (Some m') w' = Some (Some zero, w'') /\
    hp_initialized zero = false /\ sq_data (hp_sequence zero) = None /\
    ow_blocks w'' = ow_blocks (world 100) /\
    ow_objects w'' = ow_objects (world 100) +
      queue_all_handed_out (sc_type (heap_config (typed_heap 6))) as_.
Proof.
  apply (heap_releases_all heap_kind (typed_heap 6) sample_heap_calls (world 100));
    [apply typed_heap_created|apply typed_heap_laws|by vm_compute|apply sample_heap_calls_ok].
Defined.

(** The heap of an array. *)
Lemma heap_from_array_exact_witness :
  exists r w', heap_raw_from_array heap_kind (Some (zero_heap 4)) (Some sample_list) 7 (Some sample_long) 9
      (world 100) = Some (r, w') /\
    ((exists m' l', r = (STL_OK, Some m') /\ heap_inv m' l' /\ l' ≡ₚ take 7 sample_list /\
        sc_type (heap_config m') = Some sample_long /\ sc_limit (heap_config m') = 9 /\
        hp_initialized (zero_heap (V := Z) 4) = false /\
        delta (world 100) w' (heap_blocks m') (heap_objects m')) \/
     (exists status, r = (status, Some (zero_heap 4)) /\ status <> STL_OK /\ delta (world 100) w' 0 0)).
Proof.
  apply (heap_from_array_exact heap_kind (zero_heap 4) sample_list 7 sample_long 9 (world 100)).
  - apply typed_heap_laws.
  - by split; split.
  - by split.
  - simpl. lia.
Defined.

(** With [2 ^ 63] objects a sift would take slot 0 for a right child: the guard of the
    loop admits the index [(SIZE_MAX - 1) / 2], and the index behind its left child wraps. *)
Example right_child_wraps :
  ((SIZE_MAX - 1) / 2 <? 2 ^ 63 - 1) = false /\ size_inc (u64 ((2 ^ 63 - 1) * 2 + 1)) = 0.
Proof. vm_compute. done. Qed.

(** * Double-ended queues *)

Definition deque_kind : addr := 854.
Definition queue_kind : addr := 855.

Definition typed_deque (limit : Z) : deque_t Z :=
  match deque_raw_init (Some (zero_deque 4)) (Some sample_long) limit with
  | (STL_OK, Some m) => m
  | _ => zero_deque 0
  end.

Lemma typed_deque_created : deque_created (typed_deque 10).
Proof. apply (deque_created_typed 4 (Some sample_long) 10); vm_compute; try done; by split. Qed.

(** The ring wraps around its eight slots and grows to ten. *)
Definition sample_deque_calls : list (deque_call Z) :=
  [ DequePushFront 1; DequePushBack 2; DequePushFront 3; DequePushBack 4; DequePopFront true; DequePushFront 5;
    DequePushFront 6; DequePushBack 7; DequePushBack 8; DequePushFront 9; DequeAt 0; DequeAt 5; DequeSet 5 50;
    DequePushBack 10; DequePushBack 11; DequeFront; DequeBack; DequeAt 5; DequePushBack 12; DequePushBack 13;
    DequePopBack true; DequePopFront false; DequeSize; DequeReserve 11; DequeSet 8 1; DequeClear; DequeFront;
    DequePopBack true; DequePushFront 14; DequeBack ].

Lemma sample_deque_calls_ok : Forall deque_call_ok sample_deque_calls.
Proof. by repeat constructor. Qed.

Example sample_deque_answers :
  fst (result_of (run_deque_calls deque_kind queue_kind sample_deque_calls (Some (typed_deque 10)) (world 100)) ([], None)) =
    [ DequeStatus STL_OK; DequeStatus STL_OK; DequeStatus STL_OK; DequeStatus STL_OK; DequeTaken STL_OK (Live 3);
      DequeStatus STL_OK; DequeStatus STL_OK; DequeStatus STL_OK; DequeStatus STL_OK; DequeStatus STL_OK;
      DequeValue (Some 9); DequeValue (Some 4); DequeStatus STL_OK; DequeStatus STL_OK; DequeStatus STL_OK;
      DequeValue (Some 9); DequeValue (Some 11); DequeValue (Some 50); DequeStatus STL_CAPACITY_EXCEEDED;
      DequeStatus STL_CAPACITY_EXCEEDED; DequeTaken STL_OK (Live 11); DequeTaken STL_OK Raw; DequeCount 8;
      DequeStatus STL_CAPACITY_EXCEEDED; DequeStatus STL_INVALID_ARGUMENT; DequeStatus STL_OK; DequeValue None;
      DequeTaken STL_EMPTY Raw; DequeStatus STL_OK; DequeValue (Some 14) ].
Proof. vm_compute. reflexivity. Qed.

Lemma deque_refines_list_witness :
  exists as_ m' w' l,
    run_deque_calls deque_kind queue_kind sample_deque_calls (Some (typed_deque 10)) (world 12) = Some ((as_, Some m'), w') /\
    deque_answers_all (deque_limit (typed_deque 10)) [] sample_deque_calls as_ l /\ deque_inv m' l /\
    deque_kept (typed_deque 10) m'.
Proof.
  apply (deque_refines_list deque_kind queue_kind (typed_deque 10) sample_deque_calls (world 12));
    [apply typed_deque_created|apply sample_deque_calls_ok].
Defined.

Lemma deque_releases_all_witness :
  exists as_ m' w' g w'',
    run_deque_calls deque_kind queue_kind sample_deque_calls (Some (typed_deque 10)) (world 100) = Some ((as_, Some m'), w') /\
    deque_raw_destroy_storage (Some m') w' = Some (Some (zero_deque g), w'') /\
    ow_blocks w'' = ow_blocks (world 100) /\
    ow_objects w'' = ow_objects (world 100) + deque_all_handed_out (sc_type (deque_config (typed_deque 10))) as_.
Proof.
  apply (deque_releases_all deque_kind queue_kind (typed_deque 10) sample_deque_calls (world 100));
    [apply typed_deque_created|apply sample_deque_calls_ok].
Defined.
