(* ===== verification/CstlMapSamples.v ===== *)
(** Concrete maps, multimaps, sets, hash sets and linked lists of the objects of [CstlSamples], whose type
    orders them by their tens, and the theorems applied to them. *)

From S2P Require Import Prelude.
From S2P Require Import CMetaType.
From S2P Require Import CstlSupport.
From S2P Require Import CstlObjects.
From S2P Require Import CstlSequenceSpecs.
From S2P Require Import CstlHashMap.
From S2P Require Import CstlHashMapInvariant.
From S2P Require Import CstlHashMapRehash.
From S2P Require Import CstlHashMapOps.
From S2P Require Import CstlHashSet.
From S2P Require Import CstlHashSetTheorems.
From S2P Require Import CstlChain.
From S2P Require Import CstlList.
From S2P Require Import CstlListTheorems.
From S2P Require Import CstlRbTree.
From S2P Require Import CstlRbOps.
From S2P Require Import CstlMap.
From S2P Require Import CstlMapOps.
From S2P Require Import CstlMapTheorems.
From S2P Require Import CstlSet.
From S2P Require Import CstlSetTheorems.
From S2P Require Import CstlSamples.

Definition map_kind : addr := 861.
Definition at_compare : addr := 862.

(** A new map and the world then. *)
Definition made (duplicates : bool) (limit budget : Z) : ordered_t Z * object_world Z :=
  match ordered_raw_init duplicates (Some zero_ordered) (Some sample_long) (Some sample_long) limit (world budget) with
  | Some ((STL_OK, Some m), w) => (m, w)
  | _ => (zero_ordered, world 0)
  end.

Definition made_bytes (duplicates : bool) (limit budget : Z) : ordered_t Z * object_world Z :=
  match ordered_init_bytes duplicates (Some zero_ordered) 8 8 8 8 limit (Some at_compare) None (world budget) with
  | Some ((STL_OK, Some m), w) => (m, w)
  | _ => (zero_ordered, world 0)
  end.

Lemma made_created duplicates :
  ordered_created duplicates (world 40) (fst (made duplicates 7 40)) (snd (made duplicates 7 40)).
Proof.
  apply (ordered_created_typed _ _ (Some sample_long) (Some sample_long) 7);
    [by split; split|by split; split|by split|by destruct duplicates; vm_compute].
Qed.

Lemma made_bytes_created duplicates :
  ordered_created duplicates (world 9) (fst (made_bytes duplicates 7 9)) (snd (made_bytes duplicates 7 9)).
Proof.
  apply (ordered_created_bytes _ _ 8 8 8 8 7 (Some at_compare) None); [by split..|by destruct duplicates; vm_compute].
Qed.

Lemma type_order_laws : CompareLaws (type_order (V := Z) (U := Z) sample_long).
Proof.
  assert (forall a b, type_order (V := Z) (U := Z) sample_long a b = a / 10 - b / 10) as E by done.
  split; intros *; rewrite !E; lia.
Qed.

Lemma made_laws duplicates : CompareLaws (ordered_compare (V := Z) (U := Z) duplicates (fst (made duplicates 7 40))).
Proof. destruct duplicates; apply type_order_laws. Qed.

Lemma made_bytes_laws duplicates :
  CompareLaws (ordered_compare (V := Z) (U := Z) duplicates (fst (made_bytes duplicates 7 9))).
Proof.
  assert (forall a b, ordered_compare (V := Z) (U := Z) duplicates (fst (made_bytes duplicates 7 9)) a b = a - b) as E
    by (by destruct duplicates).
  split; intros *; repeat match goal with |- context [ordered_compare _ _ ?a ?b] => rewrite (E a b) end; lia.
Qed.

Definition answers_of (duplicates : bool) (calls : list (ordered_call Z)) : list (ordered_answer Z) :=
  match run_ordered_calls duplicates map_kind calls (Some (fst (made duplicates 7 40))) (snd (made duplicates 7 40)) with
  | Some ((as_, _), _) => as_
  | None => []
  end.

(** * Maps *)

Definition sample_map_calls : list (ordered_call Z) :=
  [ OrderedPut 50 1; OrderedPut 30 2; OrderedPut 70 3; OrderedPut 20 4; OrderedPut 40 5; OrderedPut 35 6;
    OrderedPut 10 7; OrderedPut 60 8; OrderedPut 90 9; OrderedForward; OrderedBackward; OrderedRange 7; MapGet 44;
    MapGet 80;
    OrderedLowerBound 51; OrderedUpperBound 51; OrderedUpperBound 70; MapRemove 50 true; MapRemove 50 true;
    MapRemove 20 false; OrderedContains 20; OrderedForward; OrderedSize; MapRemove 10 true; MapRemove 30 false;
    OrderedForward; OrderedClear; OrderedSize; OrderedPut 5 5; OrderedForward ].

Lemma sample_map_calls_ok : Forall (ordered_call_ok false) sample_map_calls.
Proof. by repeat constructor. Qed.

Example sample_map_answers :
  answers_of false sample_map_calls =
    [ OrderedStatus STL_OK; OrderedStatus STL_OK; OrderedStatus STL_OK; OrderedStatus STL_OK;
      OrderedStatus STL_OK; OrderedStatus STL_OK; OrderedStatus STL_OK; OrderedStatus STL_OK;
      OrderedStatus STL_CAPACITY_EXCEEDED;
      OrderedEntries [(10, 7); (20, 4); (30, 6); (40, 5); (50, 1); (60, 8); (70, 3)];
      OrderedEntries [(70, 3); (60, 8); (50, 1); (40, 5); (30, 6); (20, 4); (10, 7)];
      OrderedEntries [(10, 7); (20, 4); (30, 6); (40, 5); (50, 1); (60, 8); (70, 3)];
      OrderedValue (Some 5); OrderedValue None; OrderedEntry (Some (50, 1)); OrderedEntry (Some (60, 8));
      OrderedEntry None; OrderedTaken STL_OK (Live 1); OrderedTaken STL_NOT_FOUND Raw; OrderedTaken STL_OK Raw;
      OrderedFlag false; OrderedEntries [(10, 7); (30, 6); (40, 5); (60, 8); (70, 3)]; OrderedCount 5;
      OrderedTaken STL_OK (Live 7); OrderedTaken STL_OK Raw; OrderedEntries [(40, 5); (60, 8); (70, 3)];
      OrderedCleared; OrderedCount 0; OrderedStatus STL_OK; OrderedEntries [(5, 5)] ].
Proof. vm_compute. reflexivity. Qed.

Lemma map_refines_sorted_list_witness :
  exists as_ m' w' l nodes,
    run_ordered_calls false map_kind sample_map_calls (Some (fst (made false 7 40))) (snd (made false 7 40)) =
      Some ((as_, Some m'), w') /\
    ordered_answers_all false (ordered_compare false (fst (made false 7 40)))
      (ordered_limit false (fst (made false 7 40))) [] sample_map_calls as_ l /\
    ordered_inv false m' nodes l /\ ordered_kept false (fst (made false 7 40)) m'.
Proof.
  apply (map_refines_sorted_list map_kind (world 40));
    [apply made_created|apply made_laws|apply sample_map_calls_ok].
Defined.

(** * Multimaps *)

Definition sample_multimap_calls : list (ordered_call Z) :=
  [ OrderedPut 50 1; OrderedPut 30 2; OrderedPut 51 3; OrderedPut 20 4; OrderedPut 52 5; OrderedPut 35 6;
    OrderedPut 53 7; OrderedPut 60 8; OrderedForward; MultimapCount 55; MultimapCount 70; MultimapRemove 50 true;
    OrderedBackward; OrderedLowerBound 55; OrderedUpperBound 55; MultimapErase 50; OrderedForward;
    MultimapErase 50; MultimapRemove 50 false; MultimapRemove 20 false; OrderedSize ].

Lemma sample_multimap_calls_ok : Forall (ordered_call_ok true) sample_multimap_calls.
Proof. by repeat constructor. Qed.

Example sample_multimap_answers :
  answers_of true sample_multimap_calls =
    [ OrderedStatus STL_OK; OrderedStatus STL_OK; OrderedStatus STL_OK; OrderedStatus STL_OK;
      OrderedStatus STL_OK; OrderedStatus STL_OK; OrderedStatus STL_OK; OrderedStatus STL_CAPACITY_EXCEEDED;
      OrderedEntries [(20, 4); (30, 2); (35, 6); (50, 1); (51, 3); (52, 5); (53, 7)];
      OrderedCount 4; OrderedCount 0; OrderedRemoved true (Live 7);
      OrderedEntries [(52, 5); (51, 3); (50, 1); (35, 6); (30, 2); (20, 4)];
      OrderedEntry (Some (50, 1)); OrderedEntry None; OrderedCount 3;
      OrderedEntries [(20, 4); (30, 2); (35, 6)]; OrderedCount 0; OrderedRemoved false Raw;
      OrderedRemoved true Raw; OrderedCount 2 ].
Proof. vm_compute. reflexivity. Qed.

Lemma multimap_refines_sorted_list_witness :
  exists as_ m' w' l nodes,
    run_ordered_calls true map_kind sample_multimap_calls (Some (fst (made true 7 40))) (snd (made true 7 40)) =
      Some ((as_, Some m'), w') /\
    ordered_answers_all true (ordered_compare true (fst (made true 7 40)))
      (ordered_limit true (fst (made true 7 40))) [] sample_multimap_calls as_ l /\
    ordered_inv true m' nodes l /\ ordered_kept true (fst (made true 7 40)) m'.
Proof.
  apply (multimap_refines_sorted_list map_kind (world 40));
    [apply made_created|apply made_laws|apply sample_multimap_calls_ok].
Defined.

(** * Memory and depth *)

(** With memory for two entries. *)
Definition short_calls : list (ordered_call Z) :=
  [ OrderedPut 50 1; OrderedPut 30 2; OrderedPut 51 3; MapRemove 30 true; OrderedForward ].

Lemma ordered_releases_all_witness :
  exists as_ m' w' w'',
    run_ordered_calls false map_kind short_calls (Some (fst (made_bytes false 7 9))) (snd (made_bytes false 7 9)) =
      Some ((as_, Some m'), w') /\
    ordered_raw_destroy_storage (Some m') w' = Some (Some (ordered_changed None m'), w'') /\
    ow_blocks w'' = ow_blocks (world 9) /\
    ow_objects w'' = ow_objects (world 9) +
      ordered_all_handed_out (ordered_config false (fst (made_bytes false 7 9))) as_.
Proof.
  apply (ordered_releases_all map_kind false (world 9));
    [apply made_bytes_created|apply made_bytes_laws|by repeat constructor].
Defined.

Lemma ordered_search_logarithmic_witness :
  exists as_ m' w' t,
    run_ordered_calls true map_kind sample_multimap_calls (Some (fst (made true 7 40))) (snd (made true 7 40)) =
      Some ((as_, Some m'), w') /\ or_impl m' = Some t /\
    forall k fuel, 2 * Z.log2 (rb_size t + 1) <= Z.of_nat fuel ->
      is_Some (find_loop fuel t k (rb_root t)) /\
      (forall passes, passes = (fun c => c <? 0) \/ passes = (fun c => c <=? 0) ->
        is_Some (bound_loop passes fuel t k (rb_root t) None)) /\
      is_Some (put_descend fuel t k (rb_root t) None 0).
Proof.
  apply (ordered_search_logarithmic map_kind true (world 40));
    [apply made_created|apply made_laws|apply sample_multimap_calls_ok].
Defined.

(** * Arrays *)

Lemma ordered_from_arrays_exact_witness :
  exists r w',
    ordered_raw_from_arrays true map_kind (Some (fst (made true 7 40))) (Some [40; 20; 45]) (Some [1; 2; 3]) 3
      (Some sample_long) (Some sample_long) 9 (snd (made true 7 40)) = Some (r, w') /\
    (rows_built true (fst (made true 7 40)) (type_order sample_long) (zip (take 3 [40; 20; 45]) (take 3 [1; 2; 3]))
       9 r (snd (made true 7 40)) w' \/
     (exists status, r = (status, Some (fst (made true 7 40))) /\ status <> STL_OK /\
        delta (snd (made true 7 40)) w' 0 0)).
Proof.
  apply (ordered_from_arrays_exact true map_kind).
  - right. exists [], []. apply (ordered_created_inv true (world 40) _ _ (made_created true)).
  - apply type_order_laws.
  - by split; split.
  - by split; split.
  - by split.
  - simpl. lia.
  - simpl. lia.
Defined.

(** * Sets *)

Definition set_kind : addr := 863.

Definition sample_bool : cmeta_type_desc :=
  mk_type_desc 864 (Some "bool") 1 1 CMETA_T_INTEGER None (Some full_traits) None.

Definition made_set (limit budget : Z) : set_t Z * object_world Z :=
  match set_raw_init sample_bool (Some zero_set) (Some sample_long) limit (world budget) with
  | Some ((STL_OK, Some s), w) => (s, w)
  | _ => (zero_set, world 0)
  end.

Definition sample_set_calls : list (set_call Z) :=
  [ SetAdd 30; SetAdd 10; SetAdd 20; SetAdd 15; SetAdd 40; SetForward; SetBackward; SetRemove 22; SetRemove 22;
    SetContains 10; SetContains 20; SetLowerBound 11; SetUpperBound 11; SetUpperBound 30; SetSize; SetClear;
    SetForward ].

Example sample_set_answers :
  (run_set_calls map_kind set_kind sample_bool 1 sample_set_calls (Some (fst (made_set 3 30))) (snd (made_set 3 30)))
    ≫= (fun r => Some (fst (fst r))) =
    Some [ SetStatus STL_OK; SetStatus STL_OK; SetStatus STL_OK; SetStatus STL_OK; SetStatus STL_CAPACITY_EXCEEDED;
      SetElements [10; 20; 30]; SetElements [30; 20; 10]; SetStatus STL_OK; SetStatus STL_NOT_FOUND;
      SetFlag true; SetFlag false; SetElement (Some 10); SetElement (Some 30); SetElement None; SetCount 2;
      SetCleared; SetElements [] ].
Proof. vm_compute. reflexivity. Qed.

Lemma set_refines_sorted_set_witness :
  exists as_ s' w' keys nodes,
    run_set_calls map_kind set_kind sample_bool 1 sample_set_calls (Some (fst (made_set 3 30))) (snd (made_set 3 30)) =
      Some ((as_, Some s'), w') /\
    set_answers_all (ordered_compare false (st_map (fst (made_set 3 30))))
      (ordered_limit false (st_map (fst (made_set 3 30)))) [] sample_set_calls as_ keys /\
    set_inv 1 s' nodes keys /\ set_kept (fst (made_set 3 30)) s'.
Proof.
  apply (set_refines_sorted_set map_kind set_kind sample_bool 1 (world 30)).
  - apply (set_created_typed _ _ (Some sample_long) 3 zero_set);
      [done|by split; split|by split; split|by split|by vm_compute].
  - apply type_order_laws.
Defined.

(** * Hash sets *)

Definition hash_set_kind : addr := 866.

(** A handle bound to its type, as a declaration leaves it. *)
Definition bound_hash_set : hash_set_t Z := mk_hash_set (Some hash_set_kind) (Some sample_long) (zero_map 9).

Definition sample_hash_set_calls : list (hash_set_call Z) :=
  [ HashSetRemove 1; HashSetReserve 0; HashSetAdd 12; HashSetAdd 7; HashSetAdd 12; HashSetSize; HashSetElements;
    HashSetContains 7; HashSetRemove 7; HashSetRemove 7; HashSetContains 7; HashSetReserve 3; HashSetClear;
    HashSetElements ].

Example sample_hash_set_answers :
  (run_hash_set_calls map_kind hash_set_kind sample_bool 1 sample_hash_set_calls (Some bound_hash_set) (world 30))
    ≫= (fun r => Some (fst (fst r))) =
    Some [ HashSetStatus STL_INVALID_ARGUMENT; HashSetStatus STL_OK; HashSetStatus STL_OK; HashSetStatus STL_OK;
      HashSetStatus STL_OK; HashSetCount 2; HashSetList [12; 7]; HashSetFlag true; HashSetStatus STL_OK;
      HashSetStatus STL_NOT_FOUND; HashSetFlag false; HashSetStatus STL_OK; HashSetCleared; HashSetList [] ].
Proof. vm_compute. reflexivity. Qed.

(** Without memory the first addition leaves the handle as it was declared. *)
Example sample_hash_set_rollback :
  hash_set_add map_kind hash_set_kind sample_bool 1 (Some bound_hash_set) (Some 12) (world 2) =
    Some ((STL_OUT_OF_MEMORY, Some bound_hash_set), mk_object_world 0 0 0).
Proof. vm_compute. reflexivity. Qed.

Lemma hash_set_refines_set_witness :
  exists as_ s' w' ready' keys,
    run_hash_set_calls map_kind hash_set_kind sample_bool 1 sample_hash_set_calls (Some bound_hash_set) (world 3) =
      Some ((as_, Some s'), w') /\
    hash_set_answers_all (the_equal (set_config sample_bool bound_hash_set))
      (hc_entry_limit (set_config sample_bool bound_hash_set)) false [] sample_hash_set_calls as_ keys /\
    hash_set_inv hash_set_kind sample_bool 1 s' ready' keys /\ hash_set_kept sample_bool bound_hash_set s' /\
    forall call, hash_set_call_ok call -> exists a s'' w'',
      run_hash_set_call map_kind hash_set_kind sample_bool 1 call (Some s') w' = Some ((a, Some s''), w'') /\
      (leaves_handle call a -> s'' = s').
Proof.
  apply (hash_set_refines_set map_kind hash_set_kind sample_bool 1 false bound_hash_set).
  - constructor. split; [by vm_compute|by split; split|by vm_compute].
  - by apply long_laws.
  - by repeat constructor.
Defined.

(** The descriptor a declaration bound to the handle, the answer of an addition once the set
    was destroyed, or [None]. *)
Definition after_destruction (made : option (stl_status * option (hash_set_t Z) * object_world Z))
    : option (option addr * stl_status) :=
  '(_, set, w) ← made;
  '(set, w) ← hash_set_destroy set w;
  '(status, _, _) ← hash_set_add map_kind hash_set_kind sample_bool 1 set (Some 12) w;
  s ← set; Some (hst_descriptor s, status).

(** A handle that was initialised and destroyed serves again; one that was made from an array
    has lost its descriptor and does not. *)
Example hash_set_from_array_unbinds :
  after_destruction (Some (hash_set_init sample_bool (Some bound_hash_set) 9, world 30)) =
    Some (Some hash_set_kind, STL_OK) /\
  after_destruction (hash_set_from_array map_kind hash_set_kind sample_bool 1 (Some bound_hash_set) (Some [3; 4]) 2 9 (world 30)) =
    Some (None, STL_INVALID_ARGUMENT).
Proof. split; vm_compute; reflexivity. Qed.

(** * Linked lists *)

Definition list_kind : addr := 880.
Definition list_address : addr := 881.

(** A handle bound to its type, as a declaration leaves it. *)
Definition bound_list : list_t Z := mk_list (Some list_kind) (Some sample_long) None 3.

(** The iterators are those at 20, 30, 10 and 25; the walk goes over what is inserted beside
    them, and the last two calls are at the end. *)
Definition sample_list_calls : list (list_call Z) :=
  [ ListPopFront true; ListPushBack 20; ListPushBack 30; ListPushFront 10; ListInsertAfter 0 25; ListForward;
    ListErase 1 true; ListInsertBefore 2 22; ListBackward; ListNext 1; ListValue 1; ListPrev 0; ListFront; ListBack;
    ListPopBack false; ListPopFront true; ListSize; ListErase 9 false; ListClear; ListForward; ListInsertBefore 0 5 ].

Example sample_list_answers :
  (run_list_calls list_kind list_address sample_list_calls [] (Some bound_list) (world 30)) ≫= (fun r => Some (fst (fst (fst r)))) =
    Some [ ListRemoved STL_INVALID_ARGUMENT Raw; ListStatus STL_OK; ListStatus STL_OK; ListStatus STL_OK; ListStatus STL_OK;
      ListObjects [10; 20; 25; 30]; ListRemoved STL_OK (Live 30); ListStatus STL_OK; ListObjects [25; 22; 20; 10];
      ListStatus STL_OK; ListObject (Some 10); ListStatus STL_OK; ListObject (Some 10); ListObject (Some 25);
      ListRemoved STL_OK Raw; ListRemoved STL_OK (Live 10); ListCount 2; ListRemoved STL_INVALID_ARGUMENT Raw; ListCleared;
      ListObjects []; ListStatus STL_INVALID_ARGUMENT ].
Proof. vm_compute. reflexivity. Qed.

Lemma list_refines_places_witness :
  exists as_ its m' w2 xs m'' w3,
    run_list_calls list_kind list_address sample_list_calls [] (Some bound_list) (world 6) =
      Some ((as_, its, Some m'), w2) /\
    list_answers_all list_address (list_limit bound_list) false [] [] sample_list_calls as_ its xs /\ NoDup xs.*1 /\
    list_raw_destroy_storage (Some m') w2 = Some (Some m'', w3) /\
    ow_blocks w3 = ow_blocks (world 6) /\
    ow_objects w3 = ow_objects (world 6) + list_all_handed_out (list_type bound_list) as_.
Proof.
  apply (list_refines_places list_kind list_address (world 6) false bound_list (world 6)).
  constructor. split; [by vm_compute|by split; split|by vm_compute|].
  intros t [= <-]. by eexists.
Defined.
