(* ===== verification/PluginSamples.v ===== *)
(** Sample manifests, a sample loader and the plugin theorems applied to
    them. *)

From S2P Require Import Prelude CMetaType CMetaFunction CMetaInterface CMetaSamples.
From S2P Require Import PluginManifest PluginRegistry RegistryInvariant RegistryApi RegistryProtocol.

(** * A plugin that publishes one service *)

Definition sample_export : cmeta_plugin_export :=
  mk_export CMETA_PLUGIN_EXPORT_SIZE CMETA_PLUGIN_EXPORT_INTERFACE 1 5 (Some "counter")
    (Some "acme.counter/1")
    (mk_export_value (mk_interface_export (Some (sample_counter 300)) (Some 900))
       (mk_function_export None None None None)).

Definition sample_manifest : cmeta_plugin_manifest :=
  mk_manifest CMETA_PLUGIN_MANIFEST_SIZE CMETA_PLUGIN_ABI_VERSION (Some "acme") (mk_plugin_version 1 0 0)
    (Some [sample_export]) 1 (Some 910) (Some 911) (Some 912) (Some 913) (Some 914).

(** A plugin without exports, [self] or callbacks. *)
Definition sample_passive : cmeta_plugin_manifest :=
  mk_manifest CMETA_PLUGIN_MANIFEST_SIZE CMETA_PLUGIN_ABI_VERSION (Some "passive")
    (mk_plugin_version 1 0 0) None 0 None None None None None.

Lemma sample_manifest_well_formed : manifest_well_formed sample_manifest.
Proof. by apply manifest_validate_OK. Qed.

Lemma sample_id_well_formed s max :
  bounded_string_valid (Some s) max = true -> id_well_formed (Some s) max.
Proof. rewrite bounded_string_valid_text. by exists s. Qed.

Lemma find_export_unique_witness :
  cmeta_plugin_manifest_find_export (Some sample_manifest) (Some "counter") =
    (CMETA_PLUGIN_OK, Some 0%nat) /\
  exists i e,
    cmeta_plugin_manifest_find_export (Some sample_manifest) (Some "counter") =
      (CMETA_PLUGIN_OK, Some i) /\ published_exports sample_manifest !! i = Some e.
Proof.
  split; [reflexivity|].
  destruct (find_export_unique sample_manifest (Some "counter") sample_manifest_well_formed)
    as [(i & e & Hfind & He & _)|[Hfind _]]; [by apply sample_id_well_formed|exists i, e; by split|].
  discriminate Hfind.
Defined.

Lemma require_interface_exact_witness :
  cmeta_plugin_export_require_interface (Some sample_export) (Some "acme.counter/1") 1 4
    (Some (sample_counter 301)) = CMETA_PLUGIN_OK /\
  capabilities_cover (ex_capabilities sample_export) 4.
Proof.
  assert (export_well_formed sample_export) as He by (by apply validate_export_OK).
  destruct (require_interface_exact sample_export (Some "acme.counter/1") 1 4 (sample_counter 301) He)
    as [[Hok _] _]; [by apply sample_id_well_formed|discriminate|reflexivity|].
  split; [reflexivity|]. by destruct (Hok eq_refl) as (_ & _ & _ & Hcaps & _).
Defined.

(** * A loader that knows two libraries *)

Definition sample_host : host unit :=
  mk_host unit (fun _ _ => true) (fun w => (true, w))
    (fun path w =>
       ((if strcmp_eq path "libacme.so" then Some 1
         else if strcmp_eq path "libpassive.so" then Some 2 else None), w))
    (fun handle w => ((Some handle, false), w))
    (fun _ w => (true, w))
    (fun query _ w => (Some (if query =? 1 then sample_manifest else sample_passive), w))
    (fun _ _ w => (CMETA_PLUGIN_OK, w)) (fun _ _ w => (CMETA_PLUGIN_OK, w))
    (fun _ _ w => (true, w)) (fun _ _ w => w).

Definition registry_after_calls (calls : list registry_call) : registry_impl :=
  default (initial_impl 2)
    (registry_impl_of
       (fst (foldl (fun state call => registry_after sample_host call state)
               (Some (mk_registry None), tt) calls))).

Definition sample_ref : cmeta_plugin_ref := mk_ref 1 1.

Definition loaded_calls : list registry_call :=
  [Call_init (Some 2%nat); Call_load (Some "libacme.so")].

Definition started_calls : list registry_call := loaded_calls ++ [Call_start sample_ref].

Lemma registry_after_calls_quiet calls : quiet (registry_after_calls calls).
Proof.
  unfold registry_after_calls.
  pose proof (calls_quiet sample_host calls (Some (mk_registry None)) tt I) as Hq.
  destruct (fst _) as [[[r|]]|]; [exact Hq| |]; (apply initial_quiet; [lia|by vm_compute]).
Qed.

Lemma destroy_refines_teardown_witness :
  im_count (registry_after_calls loaded_calls) = 1 /\
  teardown sample_host (im_slots (registry_after_calls loaded_calls)) tt = (CMETA_PLUGIN_OK, tt).
Proof.
  split; [reflexivity|].
  pose proof (destroy_refines_teardown sample_host (registry_after_calls loaded_calls) tt
    (registry_after_calls_quiet _)) as Hd.
  destruct (cmeta_plugin_registry_destroy _ _ _) as [[status registry] w'] eqn:E.
  vm_compute in E. injection E as <- <- <-. destruct Hd as [Hd _]. apply Hd.
  intros i s Hi Ho. destruct i as [|[|i]]; vm_compute in Hi; [| |discriminate Hi];
    injection Hi as <-; [reflexivity|discriminate Ho].
Defined.

(** * Leases *)

Definition slot_at (i : nat) (r : registry_impl) : registry_slot :=
  default initial_slot (im_slots r !! i).

Lemma acquire_capacity_witness :
  let '(status, _, _, _) := acquire_locked sample_ref (registry_after_calls started_calls) in
  status = CMETA_PLUGIN_OK.
Proof.
  pose proof (acquire_capacity (registry_after_calls started_calls) sample_ref 0
    (slot_at 0 (registry_after_calls started_calls)) (qt_wf _ (registry_after_calls_quiet _))) as Ha.
  apply Ha; reflexivity.
Defined.

Lemma acquire_release_roundtrip_witness :
  exists lease m r1 r2,
    acquire_locked sample_ref (registry_after_calls started_calls) =
      (CMETA_PLUGIN_OK, lease, m, r1) /\
    release_locked lease r1 = (CMETA_PLUGIN_OK, zero_lease, r2) /\
    release_locked lease r2 = (CMETA_PLUGIN_STALE, lease, r2).
Proof.
  do 3 eexists.
  destruct (acquire_release_roundtrip (registry_after_calls started_calls) sample_ref
    (mk_lease sample_ref 1 1) (Some sample_manifest)
    (acquire_locked sample_ref (registry_after_calls started_calls)).2)
    as (i & s & bit & r2 & _ & _ & _ & Hrel & _ & Hagain).
  - apply registry_after_calls_quiet.
  - reflexivity.
  - exists r2. split_and!; [reflexivity|exact Hrel|exact Hagain].
Defined.

Lemma load_find_roundtrip_witness :
  exists m,
    manifest_well_formed m /\
    cmeta_plugin_registry_find (holding (registry_after_calls loaded_calls)) (pm_plugin_id m) =
      (CMETA_PLUGIN_OK, sample_ref).
Proof.
  destruct (load_find_roundtrip sample_host (initial_impl 2) (Some "libacme.so") tt sample_ref
    (holding (registry_after_calls loaded_calls)) tt) as (m & Hm & Hfind & _).
  - apply initial_quiet; [lia|vm_compute; discriminate].
  - vm_compute. reflexivity.
  - exists m. split; [exact Hm|exact Hfind].
Defined.

Lemma unload_makes_stale_witness :
  fst (fst (cmeta_plugin_registry_start sample_host
    (cmeta_plugin_registry_unload sample_host (holding (registry_after_calls loaded_calls))
       sample_ref tt).1.2 sample_ref tt)) = CMETA_PLUGIN_STALE.
Proof.
  destruct (unload_makes_stale sample_host (registry_after_calls loaded_calls) sample_ref tt
    (cmeta_plugin_registry_unload sample_host (holding (registry_after_calls loaded_calls))
       sample_ref tt).1.2 tt (registry_after_calls_quiet _)) as (_ & _ & _ & Hstale).
  - vm_compute. reflexivity.
  - by destruct (Hstale tt) as [Hstart _].
Defined.

Lemma generation_fences_reuse_witness :
  sl_generation (Nat.iter 3 cleared_slot initial_slot) <> sl_generation initial_slot.
Proof.
  apply (generation_fences_reuse initial_slot); [split; vm_compute; discriminate|].
  split; vm_compute; reflexivity.
Defined.

(** * Interleaved threads

    Two threads and two slots: one plugin is loaded and started, a lease is
    taken; then thread 0 is inside the plugin's [request_stop]. *)

Definition loaded_impl : registry_impl := (load_publish (Some 1) sample_manifest
  (load_reserve (initial_impl 2)).2).2.

Definition starting_impl : registry_impl :=
  match start_begin sample_ref loaded_impl with Calls _ _ _ r => r | Returns _ r => r end.

Definition started_impl : registry_impl := start_end 0 CMETA_PLUGIN_OK starting_impl.

Definition leased_impl : registry_impl := (acquire_locked sample_ref started_impl).2.

Definition stopping_impl : registry_impl :=
  match request_stop_begin sample_ref leased_impl with Calls _ _ _ r => r | Returns _ r => r end.

Definition sample_lease : cmeta_plugin_lease := mk_lease sample_ref 1 1.

Lemma loading_reachable :
  reachable 2 2 (mk_system (Some (load_reserve (initial_impl 2)).2) [Loading; Idle] []).
Proof.
  eapply reach_step; [apply reach_init|].
  apply (step_local 0 Idle Loading _ _ [Idle; Idle]); [reflexivity|].
  apply step_load_reserve. reflexivity.
Qed.

Lemma loaded_reachable : reachable 2 2 (mk_system (Some loaded_impl) [Idle; Idle] []).
Proof.
  eapply reach_step; [apply loading_reachable|].
  apply (step_local 0 Loading Idle _ _ [Loading; Idle]); [reflexivity|].
  apply (step_load_publish _ (Some 1) sample_manifest sample_ref); [|reflexivity].
  apply sample_manifest_well_formed.
Qed.

Lemma started_reachable : reachable 2 2 (mk_system (Some started_impl) [Idle; Idle] []).
Proof.
  eapply (reach_step _ _ (mk_system (Some starting_impl) [InStart 0 1; Idle] [])).
  - eapply reach_step; [apply loaded_reachable|].
    apply (step_local 0 Idle (InStart 0 1) _ _ [Idle; Idle]); [reflexivity|].
    apply (step_start_call loaded_impl sample_ref 0 911 (Some 910)). reflexivity.
  - apply (step_local 0 (InStart 0 1) Idle _ _ [InStart 0 1; Idle]); [reflexivity|].
    apply step_start_end.
Qed.

Lemma leased_reachable : reachable 2 2 (mk_system (Some leased_impl) [Idle; Idle] [sample_lease]).
Proof.
  eapply reach_step; [apply started_reachable|].
  apply (step_acquire started_impl sample_ref sample_lease (Some sample_manifest)).
  - by vm_compute.
  - reflexivity.
Qed.

Lemma stopping_reachable :
  reachable 2 2 (mk_system (Some stopping_impl) [InStop 0 1; Idle] [sample_lease]).
Proof.
  eapply reach_step; [apply leased_reachable|].
  apply (step_local 0 Idle (InStop 0 1) _ _ [Idle; Idle]); [reflexivity|].
  apply (step_stop_call leased_impl sample_ref 0 912 (Some 910)). reflexivity.
Qed.

Lemma two_slots : (0 < 2)%nat /\ Z.of_nat 2 <= UINT32_MAX.
Proof. split; [lia|by vm_compute]. Qed.

Lemma callback_pins_slot_witness :
  exists x, im_slots stopping_impl !! 0%nat = Some x /\ pc_owns (InStop 0 1) x.
Proof.
  destruct two_slots as [Hpos Hmax].
  apply (callback_pins_slot 2 2 _ Hpos Hmax stopping_reachable stopping_impl 0 (InStop 0 1) 0);
    reflexivity.
Defined.

Lemma lease_pins_plugin_witness :
  unload_begin sample_ref stopping_impl = UnloadReturns CMETA_PLUGIN_BUSY stopping_impl.
Proof.
  destruct two_slots as [Hpos Hmax].
  destruct (lease_pins_plugin 2 2 _ Hpos Hmax stopping_reachable stopping_impl sample_lease eq_refl)
    as (_ & i & x & _ & _ & _ & Hbusy & _).
  - apply list_elem_of_singleton. reflexivity.
  - exact Hbusy.
Defined.

Lemma release_consumes_lease_witness :
  sample_lease ∈ [sample_lease] /\
  ~ live_lease (release_locked sample_lease leased_impl).2 sample_lease.
Proof.
  destruct two_slots as [Hpos Hmax].
  destruct (release_consumes_lease 2 2 _ Hpos Hmax leased_reachable
    (mk_system (Some (release_locked sample_lease leased_impl).2) [Idle; Idle]
       (drop_lease sample_lease [sample_lease]))
    leased_impl sample_lease zero_lease (release_locked sample_lease leased_impl).2)
    as (Hin & _ & Hdead & _).
  - reflexivity.
  - by vm_compute.
  - reflexivity.
  - reflexivity.
  - reflexivity.
  - split; [exact Hin|exact Hdead].
Defined.

Lemma load_reservation_honoured_witness :
  im_loads_inflight (load_reserve (initial_impl 2)).2 = count_if loading [Loading; Idle].
Proof.
  destruct two_slots as [Hpos Hmax].
  destruct (load_reservation_honoured 2 2 _ Hpos Hmax loading_reachable _ 0 (Some 1) sample_manifest
    eq_refl eq_refl) as [Hloads _].
  exact Hloads.
Defined.

Lemma busy_slot_has_owner_witness :
  exists t p, [InStop 0 1; Idle] !! t = Some p /\ at_slot p = Some 0%nat.
Proof.
  destruct two_slots as [Hpos Hmax].
  destruct (busy_slot_has_owner 2 2 _ Hpos Hmax stopping_reachable stopping_impl 0
    (slot_at 0 stopping_impl)) as (t & p & Ht & Hp & _).
  - reflexivity.
  - reflexivity.
  - left. vm_compute. discriminate.
  - exists t, p. split; [exact Ht|exact Hp].
Defined.

(** An empty registry of one slot, destroyed by its only thread. *)
Definition closing_impl : registry_impl := (destroy_begin (initial_impl 1)).2.

Lemma closing_reachable : reachable 1 1 (mk_system (Some closing_impl) [InDestroy 1] []).
Proof.
  eapply (reach_step _ _ (mk_system (Some closing_impl) [InDestroy 0] [])).
  - eapply reach_step; [apply reach_init|].
    apply (step_local 0 Idle (InDestroy 0) _ _ [Idle]); [reflexivity|].
    apply step_destroy_begin. reflexivity.
  - apply (step_local 0 (InDestroy 0) (InDestroy 1) _ _ [InDestroy 0]); [reflexivity|].
    apply step_destroy_skip; [simpl; lia|reflexivity].
Qed.

Lemma destroy_frees_alone_witness :
  step (mk_system (Some closing_impl) [InDestroy 1] []) (mk_system None [Idle] []) /\
  Forall (fun p => p = Idle) (sy_threads (mk_system None [Idle] [])).
Proof.
  assert (step (mk_system (Some closing_impl) [InDestroy 1] []) (mk_system None [Idle] [])) as Hs.
  { apply (step_free 0 closing_impl [InDestroy 1]). reflexivity. }
  split; [exact Hs|].
  destruct (destroy_frees_alone 1 1 _ ltac:(lia) ltac:(by vm_compute) closing_reachable _ Hs eq_refl)
    as (_ & Hidle & _).
  exact Hidle.
Defined.
