(* ===== verification/ConfiguratorSamples.v ===== *)
(** A front end and the store it needs, deployed in the wrong order, taken
    through the life of a context: the Configurator theorems applied to it. *)

From S2P Require Import Prelude CMetaType CMetaFunction CMetaInterface CMetaData.
From S2P Require Import CMetaOperation CMetaObject CMetaComponent Configurator ConfiguratorPlan.
From S2P Require Import ConfiguratorLifecycle ConfiguratorProtocol CMetaSamples.

(** A cleared reference whose size was overwritten. *)
Definition broken_ref : cmeta_object_ref :=
  mk_object_ref 0 None None None None None CMETA_OBJECT_LIFETIME_NONE None.

(** Each provider callback is logged by its address.  The one that destroys the
    object 5030 breaks the reference of the second instance. *)
#[export] Instance log_providers : ProviderCallbacks (list Z) := {
  pc_written w := match last w with Some 5030 => [(1%nat, broken_ref)] | _ => [] end;
  pc_create f _ _ _ _ _ w := (CMETA_OK, sample_owned (f + 5000), w ++ [f]);
  pc_activate f _ _ w := (CMETA_OK, w ++ [f]);
  pc_deactivate f _ _ w := w ++ [f];
}.

Definition sample_interfaces : cmeta_object_interface_provider :=
  mk_interface_provider 600 24 None (Some 601).

Definition sample_binding (component : cmeta_component_desc) (create : addr)
    : salts_configurator_provider_binding :=
  mk_binding 64 2 (Some component) None (Some sample_interfaces) (Some create) (Some (create + 1))
    (Some (create + 2)).

Definition sample_deployments : list salts_configurator_deployment :=
  [mk_deployment (Some (sample_binding sample_front 10)) None None;
   mk_deployment (Some (sample_binding sample_store 20)) None None].

Definition sample_arguments : init_arguments :=
  mk_init (Some (mk_deployments 900 sample_deployments)) 2 None 0 (Some 1000) 2 (Some 2000) 1 (Some 3000) 2.

Definition sample_storage : storage :=
  mk_storage (replicate 2 salts_configurator_instance_reset)
    [mk_dependency 0 0 None None None None] [0%nat; 0%nat].

Definition sample_ready : salts_configurator_context * storage :=
  match salts_configurator_context_init (Some SALTS_CONFIGURATOR_CONTEXT_INIT) sample_storage
          sample_arguments sample_storage with
  | (_, Some c, st) => (c, st)
  | (_, None, st) => (SALTS_CONFIGURATOR_CONTEXT_INIT, st)
  end.

Definition sample_resolved : salts_configurator_context * storage :=
  match salts_configurator_context_resolve (Some sample_ready.1) sample_ready.2 with
  | Some (_, Some c, st) => (c, st)
  | _ => sample_ready
  end.

Definition sample_active : salts_configurator_context * storage * list Z :=
  match salts_configurator_context_start (Some sample_resolved.1) sample_resolved.2 [] with
  | Some (_, Some c, st, w) => (c, st, w)
  | _ => (sample_resolved, [])
  end.

Lemma sample_fits : storage_fits sample_ready.1 sample_ready.2.
Proof. split_and!; vm_compute; lia. Qed.

(** The store is resolved as the front end's provider and ordered before it. *)
Lemma resolve_decides_order_witness :
  so_order sample_resolved.2 = [1%nat; 0%nat] /\
  exists r, salts_configurator_context_resolve (Some sample_ready.1) sample_ready.2 = Some r /\
    resolve_result sample_ready.1 r.
Proof.
  split; [vm_compute; reflexivity|].
  exact (resolve_decides_order sample_ready.1 sample_ready.2 eq_refl eq_refl sample_fits
           ltac:(vm_compute; discriminate)).
Defined.

Lemma unselected_requirement_exact_witness :
  salts_configurator_select_provider sample_ready.1 0 (Some (sample_counter 301)) =
    (SALTS_CONFIGURATOR_OK, Some 1%nat) /\
  choice_verdict sample_ready.1 (Some (sample_counter 301))
    (salts_configurator_select_provider sample_ready.1 0 (Some (sample_counter 301))).
Proof.
  split; [vm_compute; reflexivity|].
  apply unselected_requirement_exact; [vm_compute; lia|reflexivity|reflexivity].
Defined.

(** Create and activate the store, then the front end, which projects it. *)
Lemma start_outcome_witness :
  sample_active.2 = [20; 21; 601; 601; 10; 11] /\
  exists status c' st' w',
    salts_configurator_context_start (Some sample_resolved.1) sample_resolved.2 [] =
      Some (status, Some c', st', w') /\
    (status = SALTS_CONFIGURATOR_OK ->
       salts_configurator_activation_plan_valid c' st' true = true).
Proof.
  split; [vm_compute; reflexivity|].
  destruct (start_outcome sample_resolved.1 sample_resolved.2 ([] : list Z) eq_refl eq_refl)
    as (status & c' & st' & w' & Hr & Hres).
  exists status, c', st', w'. split; [exact Hr|]. intros ->.
  rewrite bool_decide_true in Hres by reflexivity.
  destruct Hres as (_ & _ & Hv). exact Hv.
Defined.

(** The storage when the front end is next. *)
Definition sample_half : storage * list Z :=
  match start_component (starting sample_resolved.1) 1 sample_resolved.2 [] with
  | Some (_, st, w) => (st, w)
  | None => (sample_resolved.2, [])
  end.

Lemma sample_half_run :
  start_run (starting sample_resolved.1) sample_resolved.2 [] 1 sample_half.1 sample_half.2.
Proof.
  apply (start_run_step (starting sample_resolved.1) sample_resolved.2 [] 0 sample_resolved.2 [] 1
           sample_half.1 sample_half.2);
    [apply start_run_nil|vm_compute; reflexivity|vm_compute; reflexivity].
Qed.

Lemma started_after_providers_witness :
  exists d p, so_dependencies sample_half.1 !! 0%nat = Some d /\
    so_instances sample_half.1 !! dp_provider_index d = Some p /\ in_active p = true.
Proof.
  destruct (started_after_providers (starting sample_resolved.1) sample_resolved.2 [] 1
    sample_half.1 sample_half.2 0 (mk_instance CMETA_OBJECT_REF_INIT 0 1 false) 0
    (dependency_record sample_ready.1 0 1 (Some (sample_counter 301))))
    as (p & Hp & Hact & _);
    [vm_compute; reflexivity|exact sample_half_run|vm_compute; lia|vm_compute; reflexivity
    |vm_compute; reflexivity|simpl; lia|vm_compute; reflexivity|].
  exists (dependency_record sample_ready.1 0 1 (Some (sample_counter 301))), p.
  split; [vm_compute; reflexivity|]. split; [exact Hp|exact Hact].
Defined.

(** The same graph over a store whose destructor breaks its own reference. *)
Definition broken_deployments : list salts_configurator_deployment :=
  [mk_deployment (Some (sample_binding sample_front 10)) None None;
   mk_deployment (Some (sample_binding sample_store 30)) None None].

Definition broken_active : salts_configurator_context * storage :=
  match salts_configurator_context_init (Some SALTS_CONFIGURATOR_CONTEXT_INIT) sample_storage
          (mk_init (Some (mk_deployments 900 broken_deployments)) 2 None 0 (Some 1000) 2 (Some 2000) 1
             (Some 3000) 2) sample_storage with
  | (_, c, st) =>
      match salts_configurator_context_resolve c st with
      | Some (_, c, st) =>
          match salts_configurator_context_start c st [] with
          | Some (_, Some c, st, _) => (c, st)
          | _ => (SALTS_CONFIGURATOR_CONTEXT_INIT, sample_storage)
          end
      | None => (SALTS_CONFIGURATOR_CONTEXT_INIT, sample_storage)
      end
  end.

(** Deactivate and destroy the front end, then the store: the stop succeeds, but
    not where the destructor breaks the store's reference. *)
Lemma stop_outcome_witness :
  (exists c' st',
    salts_configurator_context_stop (Some sample_active.1.1) sample_active.1.2 [] =
      Some (SALTS_CONFIGURATOR_OK, Some c', st', [12; 700; 5010; 22; 700; 5020])) /\
  (exists st',
    salts_configurator_context_stop (Some broken_active.1) broken_active.2 [] =
      Some (SALTS_CONFIGURATOR_INVALID_STATE, Some (stop_failed broken_active.1), st',
            [12; 700; 5010; 32; 700; 5030]) /\
    in_object <$> so_instances st' = [CMETA_OBJECT_REF_INIT; broken_ref]).
Proof.
  split.
  - destruct (stop_outcome sample_active.1.1 sample_active.1.2 ([] : list Z)
      ltac:(vm_compute; reflexivity) ltac:(vm_compute; reflexivity))
      as (status & c' & st' & w' & Hr & Hf & Hres & _).
    assert (w' = [12; 700; 5010; 22; 700; 5020]) as Hw
      by (change w' with (st', w').2; rewrite <- Hf; vm_compute; reflexivity).
    assert (forallb instance_clear (take (cx_instance_capacity sample_active.1.1) (so_instances st')) = true)
      as Hc by (change st' with (st', w').1; rewrite <- Hf; vm_compute; reflexivity).
    rewrite Hc in Hres. destruct Hres as [Hs _]. exists c', st'. rewrite Hr, Hs, Hw. reflexivity.
  - destruct (stop_outcome broken_active.1 broken_active.2 ([] : list Z)
      ltac:(vm_compute; reflexivity) ltac:(vm_compute; reflexivity))
      as (status & c' & st' & w' & Hr & Hf & Hres & _).
    assert (w' = [12; 700; 5010; 32; 700; 5030]) as Hw
      by (change w' with (st', w').2; rewrite <- Hf; vm_compute; reflexivity).
    assert (in_object <$> so_instances st' = [CMETA_OBJECT_REF_INIT; broken_ref]) as Ho
      by (change st' with (st', w').1; rewrite <- Hf; vm_compute; reflexivity).
    assert (forallb instance_clear (take (cx_instance_capacity broken_active.1) (so_instances st')) = false)
      as Hc by (change st' with (st', w').1; rewrite <- Hf; vm_compute; reflexivity).
    rewrite Hc in Hres. destruct Hres as [Hs Hc']. exists st'. rewrite Hr, Hs, Hw, Hc'.
    split; [reflexivity|exact Ho].
Defined.

Lemma sample_active_reachable : configurator_reachable sample_active.
Proof.
  exists sample_storage, []. eapply rtc_l; [|eapply rtc_l; [|apply rtc_once]].
  - apply (configurator_init _ _ _ sample_arguments sample_storage SALTS_CONFIGURATOR_OK
             sample_ready.1 sample_ready.2);
      [split_and!; vm_compute; (lia || discriminate)|vm_compute; reflexivity].
  - apply (configurator_resolve _ _ _ SALTS_CONFIGURATOR_OK sample_resolved.1 sample_resolved.2).
    vm_compute. reflexivity.
  - apply (configurator_start _ _ _ SALTS_CONFIGURATOR_OK sample_active.1.1 sample_active.1.2
             sample_active.2).
    vm_compute. reflexivity.
Qed.

Lemma configurator_calls_safe_witness :
  configurator_inv sample_active.1.1 sample_active.1.2 /\
  salts_configurator_context_init (Some sample_active.1.1) sample_active.1.2 sample_arguments
    sample_storage = (SALTS_CONFIGURATOR_INVALID_STATE, Some sample_active.1.1, sample_active.1.2).
Proof.
  destruct (configurator_calls_safe sample_active.1.1 sample_active.1.2 sample_active.2)
    as (Hinv & _ & _ & _ & Hlive); [exact sample_active_reachable|].
  split; [exact Hinv|]. apply Hlive. reflexivity.
Defined.

Definition sample_service : salts_configurator_service :=
  mk_service (Some sample_store) (Some (1000, 1%nat)) (Some sample_interfaces).

Lemma find_service_exact_witness :
  exists p, (p < cx_deployment_count sample_active.1.1)%nat /\
    serves sample_active.1.1 sample_active.1.2 p (Some (sample_counter 301)) [] [601] sample_service.
Proof.
  assert (salts_configurator_context_find_service (Some sample_active.1.1) sample_active.1.2
            (Some (sample_counter 301)) [] = (SALTS_CONFIGURATOR_OK, Some sample_service, [601])) as Hfind
    by (vm_compute; reflexivity).
  assert (salts_configurator_activation_plan_valid sample_active.1.1 sample_active.1.2 true = true)
    as Hv by (vm_compute; reflexivity).
  assert (state_is SALTS_CONFIGURATOR_CONTEXT_ACTIVE sample_active.1.1 = true) as Hs
    by (vm_compute; reflexivity).
  destruct (find_service_exact sample_active.1.1 sample_active.1.2 (Some (sample_counter 301)) []
    SALTS_CONFIGURATOR_OK (Some sample_service) [601] Hs Hv ltac:(vm_compute; reflexivity) Hfind)
    as (p & [Hp _] & _ & Hserves).
  exists p. split; [exact Hp|exact Hserves].
Defined.
