(* ===== verification/ServiceHostSamples.v ===== *)
(** A host whose front end is its own and whose store comes from a plugin, taken
    through the life of a generation: the ServiceHost theorems applied to it. *)

From S2P Require Import Prelude CMetaType CMetaFunction CMetaInterface CMetaData.
From S2P Require Import CMetaOperation CMetaObject CMetaComponent Configurator ConfiguratorPlan.
From S2P Require Import ConfiguratorLifecycle ConfiguratorProtocol.
From S2P Require Import PluginManifest PluginRegistry RegistryInvariant RegistryApi RegistryProtocol.
From S2P Require Import ServiceHost ServiceHostLeases ServiceHostBuild.
From S2P Require Import ServiceHostRuntime ServiceHostProtocol.
From S2P Require Import ServiceHostSystem ServiceHostRegistry ServiceHostTheorems.
From S2P Require Import CMetaSamples PluginSamples ConfiguratorSamples.

(** * The world: registries, and the log of the component callbacks *)

Definition with_rest {X Y : Type} (w : plugin_world X) (r : Y * X) : Y * plugin_world X :=
  (r.1, mk_world (pw_registries w) r.2).

#[export] Instance host_objects : ObjectCallbacks (plugin_world (list Z)) := {
  cb_retain f c o w := with_rest w (cb_retain f c o (pw_rest w));
  cb_release f c o w := mk_world (pw_registries w) (cb_release f c o (pw_rest w));
  cb_destroy f c o w := mk_world (pw_registries w) (cb_destroy f c o (pw_rest w));
  cb_field_read f c o d w := with_rest w (cb_field_read f c o d (pw_rest w));
  cb_field_assign f c o d v w := with_rest w (cb_field_assign f c o d v (pw_rest w));
  cb_project f c o d w := with_rest w (cb_project f c o d (pw_rest w));
}.

#[export] Instance host_components : ProviderCallbacks (plugin_world (list Z)) := {
  pc_create f c d v deps ins w := with_rest w (pc_create f c d v deps ins (pw_rest w));
  pc_activate f c o w := with_rest w (pc_activate f c o (pw_rest w));
  pc_deactivate f c o w := mk_world (pw_registries w) (pc_deactivate f c o (pw_rest w));
  pc_written w := pc_written (pw_rest w);
}.

(** The plugin's providers offer the store; the second one's breaks its own
    reference when it is destroyed. *)
#[export] Instance host_providers : ServiceProviders (plugin_world (list Z)) := {
  sp_static n := 8000 + Z.of_nat n;
  sp_object a _ := mk_provider (Some (a + 1)) (Some (mk_provider_vtable (Some "acme") 0 (Some (a + 2))));
  sp_get_binding f _ w := (Some (sample_binding sample_store (if f =? 942 then 30 else 20)),
                         mk_world (pw_registries w) (pw_rest w ++ [f]));
}.

Lemma rest_keeps (w : plugin_world (list Z)) rest : keeps_leases w (mk_world (pw_registries w) rest).
Proof. by split. Qed.

#[export] Instance host_provider_frame : ProviderFrame (plugin_world (list Z)).
Proof. split. intros. apply rest_keeps. Qed.

#[export] Instance host_frame : WorldFrame (keeps_leases (W := plugin_world (list Z))).
Proof. split; [apply _|intros; apply rest_keeps..]. Qed.

(** * The plugin *)

Definition store_export (id : string) (provider : addr) : cmeta_plugin_export :=
  mk_export CMETA_PLUGIN_EXPORT_SIZE CMETA_PLUGIN_EXPORT_INTERFACE 2 0 (Some id)
    SALTS_SERVICE_HOST_PROVIDER_CONTRACT_ID
    (mk_export_value (mk_interface_export (Some salts_service_host_provider_interface) (Some provider))
       (mk_function_export None None None None)).

Definition store_manifest : cmeta_plugin_manifest :=
  mk_manifest CMETA_PLUGIN_MANIFEST_SIZE CMETA_PLUGIN_ABI_VERSION (Some "acme.store")
    (mk_plugin_version 1 0 0) (Some [store_export "store" 920; store_export "broken" 940]) 2 None None None None None.

Lemma store_manifest_well_formed : manifest_well_formed store_manifest.
Proof. apply manifest_validate_OK. vm_compute. reflexivity. Qed.

Definition store_registry : registry_impl :=
  match start_begin sample_ref
          (load_publish (Some 1) store_manifest (load_reserve (initial_impl 2)).2).2 with
  | Returns _ r => r
  | Calls _ _ _ r => r
  end.

Definition host_world : plugin_world (list Z) :=
  mk_world {[50 := mk_registry (Some store_registry)]} [].

(** * The build *)

Definition host_storage : salts_service_host_generation_storage :=
  mk_generation_storage (Some 900) 2 (Some 1000) 2 (Some 2000) 1 (Some 3000) 2 (Some 4000) 1.

Definition host_arrays : generation_arrays :=
  mk_arrays (replicate 2 (mk_deployment None None None)) sample_storage [zero_module].

Definition host_build (id : Z) : build_arguments :=
  mk_build id (Some 50) (Some host_storage) (Some (take 1 sample_deployments)) 1
    (Some [mk_source sample_ref (Some "store") None None]) 1 None 0.

(** * A life

    One runtime (10), one generation (20) and two scopes (30 and 31). *)

Definition host_0 : host_memory * plugin_world (list Z) :=
  (mk_memory {[10 := SALTS_SERVICE_HOST_RUNTIME_INIT]}
     {[20 := mk_cell SALTS_SERVICE_HOST_GENERATION_INIT host_arrays]}
     {[30 := SALTS_SERVICE_HOST_SCOPE_INIT; 31 := SALTS_SERVICE_HOST_SCOPE_INIT]} ∅, host_world).

Definition after (call : host_call) (p : host_memory * plugin_world (list Z))
    : host_memory * plugin_world (list Z) :=
  match run_call call p.1 p.2 with Some (_, m, w) => (m, w) | None => p end.

Definition host_ready := after (Call_init 10 (Some 99)) host_0.
Definition host_built := after (Call_build 20 (host_build 7) host_arrays) host_ready.
Definition host_published := after (Call_publish 10 20) host_built.
Definition host_scoped := after (Call_acquire 10 30) host_published.
Definition host_closed := after (Call_close 10) host_scoped.
Definition host_unscoped := after (Call_release 30) host_closed.

(** A source that names no export of the plugin. *)
Definition bad_build : build_arguments :=
  mk_build 7 (Some 50) (Some host_storage) (Some (take 1 sample_deployments)) 1
    (Some [mk_source sample_ref (Some "stores") None None]) 1 None 0.

Definition host_refused := after (Call_build 20 bad_build host_arrays) host_ready.

(** A generation over the store that breaks its reference. *)
Definition broken_build : build_arguments :=
  mk_build 8 (Some 50) (Some host_storage) (Some (take 1 sample_deployments)) 1
    (Some [mk_source sample_ref (Some "broken") None None]) 1 None 0.

Definition host_broken := after (Call_build 20 broken_build host_arrays) host_ready.
Definition host_broken_closed := after (Call_close 10) (after (Call_publish 10 20) host_broken).
Definition host_unsettled :=
  after (Call_drain_finish 10 20) (after (Call_drain_begin 10 20) host_broken_closed).

Definition cell_in (p : host_memory * plugin_world (list Z)) : generation_cell :=
  default (mk_cell SALTS_SERVICE_HOST_GENERATION_INIT host_arrays) (hm_generations p.1 !! 20).

Definition runtime_in (p : host_memory * plugin_world (list Z)) : salts_service_host_runtime :=
  default SALTS_SERVICE_HOST_RUNTIME_INIT (hm_runtimes p.1 !! 10).

Definition scope_in (p : host_memory * plugin_world (list Z)) : salts_service_host_scope :=
  default SALTS_SERVICE_HOST_SCOPE_INIT (hm_scopes p.1 !! 30).

Lemma store_registry_wf : impl_wf store_registry.
Proof.
  assert (impl_wf (load_reserve (initial_impl 2)).2) as Hwf.
  { apply load_reserve_wf, initial_impl_wf; [lia|by vm_compute]. }
  pose proof (load_publish_wf _ (Some 1) store_manifest Hwf store_manifest_well_formed eq_refl) as Hloaded.
  pose proof (start_begin_wf sample_ref (load_publish (Some 1) store_manifest
    (load_reserve (initial_impl 2)).2).2) as Hstart.
  unfold store_registry. destruct (start_begin _ _); apply Hstart, Hloaded.
Qed.

Lemma initial_host_0 : host_initial host_0.
Proof.
  split; simpl.
  - by intros ra r [<- <-]%lookup_singleton_Some.
  - by intros ga c [<- <-]%lookup_singleton_Some.
  - intros sa s [[<- <-]|[_ [<- <-]%lookup_singleton_Some]]%lookup_insert_Some; done.
  - done.
  - intros a r Hr. simpl in Hr. destruct ({[50 := _]} !! a) as [g|] eqn:Ha; [|done].
    apply lookup_singleton_Some in Ha as [_ <-]. injection Hr as <-. apply store_registry_wf.
Qed.

Lemma host_0_reachable : host_reachable host_0.
Proof. exists host_0. split; [apply initial_host_0|apply rtc_refl]. Qed.

(** A reachable state, taken apart. *)
Lemma pair_reachable p : host_reachable (W := plugin_world (list Z)) p -> host_reachable (p.1, p.2).
Proof. by destruct p. Qed.

Lemma after_reachable call p :
  host_reachable p -> callable (W := plugin_world (list Z)) p.1 call -> host_reachable (after call p).
Proof.
  destruct p as [m w]. intros (p0 & Hp0 & Hsteps) Hcall. unfold after.
  destruct (run_call call (m, w).1 (m, w).2) as [[[status m'] w']|] eqn:Hrun; [|by exists p0].
  exists p0. split; [done|]. eapply rtc_r; [exact Hsteps|]. by eapply step_call.
Qed.

Lemma host_build_fits b :
  gs_module_capacity host_storage = 1%nat -> ba_static_deployments b = Some (take 1 sample_deployments) ->
  ba_static_deployment_count b = 1%nat -> ba_dynamic_source_count b = 1%nat ->
  (exists id, ba_dynamic_sources b = Some [mk_source sample_ref id None None]) ->
  build_fits (W := plugin_world (list Z)) b host_storage host_arrays.
Proof.
  intros _ Hs Hn Hd [id Hsrc]. split; rewrite ?Hs, ?Hn, ?Hd, ?Hsrc; simpl; try lia.
  - apply Forall_singleton. by vm_compute.
  - by vm_compute.
Qed.

Lemma good_build_fits : build_fits (W := plugin_world (list Z)) (host_build 7) host_storage host_arrays.
Proof. apply host_build_fits; try reflexivity. by exists (Some "store"). Qed.

Lemma bad_build_fits : build_fits (W := plugin_world (list Z)) bad_build host_storage host_arrays.
Proof. apply host_build_fits; try reflexivity. by exists (Some "stores"). Qed.

Lemma host_ready_reachable : host_reachable host_ready.
Proof. apply after_reachable; [apply host_0_reachable|]. by eexists. Qed.

Lemma host_built_reachable : host_reachable host_built.
Proof.
  apply after_reachable; [apply host_ready_reachable|]. split; [by eexists|].
  exists host_storage. split; [reflexivity|apply good_build_fits].
Qed.

Lemma host_refused_reachable : host_reachable host_refused.
Proof.
  apply after_reachable; [apply host_ready_reachable|]. split; [by eexists|].
  exists host_storage. split; [reflexivity|apply bad_build_fits].
Qed.

Lemma broken_build_fits : build_fits (W := plugin_world (list Z)) broken_build host_storage host_arrays.
Proof. apply host_build_fits; try reflexivity. by exists (Some "broken"). Qed.

Lemma host_broken_reachable : host_reachable host_broken.
Proof.
  apply after_reachable; [apply host_ready_reachable|]. split; [by eexists|].
  exists host_storage. split; [reflexivity|apply broken_build_fits].
Qed.

Lemma host_broken_closed_reachable : host_reachable host_broken_closed.
Proof.
  apply after_reachable.
  - apply after_reachable; [apply host_broken_reachable|].
    split; [by exists (runtime_in host_broken); vm_compute|by exists (cell_in host_broken); vm_compute].
  - by exists (runtime_in (after (Call_publish 10 20) host_broken)); vm_compute.
Qed.

Lemma host_published_reachable : host_reachable host_published.
Proof.
  apply after_reachable; [apply host_built_reachable|].
  split; [by exists (runtime_in host_built); vm_compute|by exists (cell_in host_built); vm_compute].
Qed.

Lemma host_scoped_reachable : host_reachable host_scoped.
Proof.
  apply after_reachable; [apply host_published_reachable|].
  split; [by exists (runtime_in host_published); vm_compute|by exists (scope_in host_published); vm_compute].
Qed.

Lemma host_closed_reachable : host_reachable host_closed.
Proof.
  apply after_reachable; [apply host_scoped_reachable|].
  by exists (runtime_in host_scoped); vm_compute.
Qed.

Lemma host_unscoped_reachable : host_reachable host_unscoped.
Proof.
  apply after_reachable; [apply host_closed_reachable|].
  by exists (scope_in host_closed); vm_compute.
Qed.

(** * Witnesses *)

Lemma scope_pins_generation_witness :
  scope_original 30 (scope_in host_scoped) = true /\
  exists c, hm_generations host_scoped.1 !! 20 = Some c /\ 0 < gn_active_scopes (ce_generation c) /\
    run_call (Call_discard 20) host_scoped.1 host_scoped.2 =
      Some (SALTS_SERVICE_HOST_INVALID_STATE, host_scoped.1, host_scoped.2).
Proof.
  assert (hm_scopes host_scoped.1 !! 30 = Some (scope_in host_scoped)) as Hs by (vm_compute; reflexivity).
  assert (scope_original 30 (scope_in host_scoped) = true) as Ho by (vm_compute; reflexivity).
  split; [exact Ho|].
  destruct (scope_pins_generation host_scoped.1 host_scoped.2 30 (scope_in host_scoped))
    as (ra & ga & c & _ & Hga & Hc & _ & _ & Hpos & _ & _ & _ & Hcalls);
    [exact (pair_reachable _ host_scoped_reachable)|exact Hs|exact Ho|].
  assert (Some ga = Some 20) as [= ->] by (rewrite <- Hga; vm_compute; reflexivity).
  exists c. split; [exact Hc|]. split; [exact Hpos|].
  destruct (Hcalls (Call_discard 20)) as (status & Hrun & _); [reflexivity|by exists c|].
  rewrite Hrun. assert (run_call (Call_discard 20) host_scoped.1 host_scoped.2 =
    Some (SALTS_SERVICE_HOST_INVALID_STATE, host_scoped.1, host_scoped.2)) as Hrun'
    by (vm_compute; reflexivity).
  rewrite Hrun in Hrun'. exact Hrun'.
Defined.

(** The build of the store that is named wrongly gives its lease back, and a scope
    of the built one looks the store up. *)
Lemma host_calls_safe_witness :
  (exists status p,
    run_call (Call_build 20 bad_build host_arrays) host_ready.1 host_ready.2 = Some (status, p.1, p.2) /\
    host_reachable p /\ leases_accounted (Call_build 20 bad_build host_arrays) host_ready.1 host_ready.2 p.1 p.2) /\
  (exists status p,
    run_call (Call_find_service 30 (Some (sample_counter 301))) host_scoped.1 host_scoped.2 =
      Some (status, p.1, p.2) /\ host_reachable p).
Proof.
  split.
  - destruct (host_calls_safe host_ready.1 host_ready.2 (Call_build 20 bad_build host_arrays))
      as (status & m' & w' & Hrun & Hreach & _ & _ & Hacc).
    + exact (pair_reachable _ host_ready_reachable).
    + split; [by exists (cell_in host_ready); vm_compute|].
      exists host_storage. split; [reflexivity|apply bad_build_fits].
    + exists status, (m', w'). split; [exact Hrun|]. split; [exact Hreach|exact Hacc].
  - destruct (host_calls_safe host_scoped.1 host_scoped.2 (Call_find_service 30 (Some (sample_counter 301))))
      as (status & m' & w' & Hrun & Hreach & _).
    + exact (pair_reachable _ host_scoped_reachable).
    + by exists (scope_in host_scoped); vm_compute.
    + exists status, (m', w'). split; [exact Hrun|exact Hreach].
Defined.

Lemma admission_counts_exact_witness :
  rt_active_scopes (runtime_in host_scoped) = 1 /\
  count_objects (scope_on_runtime 10) (hm_scopes host_scoped.1) = 1.
Proof.
  assert (hm_runtimes host_scoped.1 !! 10 = Some (runtime_in host_scoped)) as Hr by (vm_compute; reflexivity).
  destruct (admission_counts_exact host_scoped.1 host_scoped.2 10 (runtime_in host_scoped)) as (Hn & _);
    [exact (pair_reachable _ host_scoped_reachable)|exact Hr|].
  rewrite <- Hn. split; vm_compute; reflexivity.
Defined.

(** The drain of a graph whose destructor breaks a reference is refused until the
    reference is emptied, with the plugin still leased: the sequence of
    component-runtime/tests/service_host_publication_test.c. *)
Lemma broken_drain :
  (fun r => r.1.1) <$> salts_service_host_generation_drain (Some 10) (Some 20)
      host_broken_closed.1 host_broken_closed.2 = Some SALTS_SERVICE_HOST_CONFIGURATOR_ERROR /\
  gn_state (ce_generation (cell_in host_unsettled)) = SALTS_SERVICE_HOST_GENERATION_FAILED /\
  cx_state (gn_components (ce_generation (cell_in host_unsettled))) = SALTS_CONFIGURATOR_CONTEXT_FAILED /\
  gn_module_count (ce_generation (cell_in host_unsettled)) = 1%nat /\
  rt_attached_generations (runtime_in host_unsettled) = 1 /\
  (fun r => r.1.1) <$> salts_service_host_generation_drain (Some 10) (Some 20)
      host_unsettled.1 host_unsettled.2 = Some SALTS_SERVICE_HOST_CONFIGURATOR_ERROR /\
  let m := repaired host_unsettled.1 20 (cell_in host_unsettled) sample_storage in
  (fun r => (r.1.1, rt_attached_generations (runtime_in (r.1.2, r.2)))) <$>
      salts_service_host_generation_drain (Some 10) (Some 20) m host_unsettled.2 =
    Some (SALTS_SERVICE_HOST_OK, 0).
Proof. vm_compute. split_and!; reflexivity. Qed.

Lemma attached_generation_retires_witness :
  (gn_runtime_owner (ce_generation (cell_in host_scoped)) = Some 10 /\
   exists calls, Forall (retiring 10 20) calls /\
     (retires calls 20 host_scoped.1 host_scoped.2 \/ blocks calls 10 20 host_scoped.1 host_scoped.2)) /\
  (gn_runtime_owner (ce_generation (cell_in host_broken_closed)) = Some 10 /\
   exists calls, Forall (retiring 10 20) calls /\
     (retires calls 20 host_broken_closed.1 host_broken_closed.2 \/
      blocks calls 10 20 host_broken_closed.1 host_broken_closed.2)).
Proof.
  assert (gn_runtime_owner (ce_generation (cell_in host_scoped)) = Some 10) as Ho by (vm_compute; reflexivity).
  assert (gn_runtime_owner (ce_generation (cell_in host_broken_closed)) = Some 10) as Hb
    by (vm_compute; reflexivity).
  split; (split; [assumption|]).
  - apply (attached_generation_retires host_scoped.1 host_scoped.2 10 20 (cell_in host_scoped));
      [exact (pair_reachable _ host_scoped_reachable)|vm_compute; reflexivity|exact Ho].
  - apply (attached_generation_retires host_broken_closed.1 host_broken_closed.2 10 20
             (cell_in host_broken_closed));
      [exact (pair_reachable _ host_broken_closed_reachable)|vm_compute; reflexivity|exact Hb].
Defined.

Lemma scope_release_exact_witness :
  exists m', salts_service_host_scope_release (Some 30) host_scoped.1 = Some (SALTS_SERVICE_HOST_OK, m') /\
    salts_service_host_scope_release (Some 30) m' = Some (SALTS_SERVICE_HOST_INVALID_ARGUMENT, m').
Proof.
  destruct (scope_release_exact host_scoped.1 host_scoped.2 30 (scope_in host_scoped))
    as (status & m' & Hrun & Hres); [exact (pair_reachable _ host_scoped_reachable)|vm_compute; reflexivity|].
  assert (scope_original 30 (scope_in host_scoped) = true) as Ho by (vm_compute; reflexivity).
  rewrite Ho in Hres. destruct Hres as (-> & ra & ga & r & c & _ & _ & _ & _ & status' & Hagain & ->).
  exists m'. split; [exact Hrun|exact Hagain].
Defined.

Lemma publish_outcome_witness :
  exists m', salts_service_host_runtime_publish (Some 10) (Some 20) host_built.1 =
    Some (SALTS_SERVICE_HOST_OK, Some None, m').
Proof.
  destruct (publish_outcome host_built.1 host_built.2 10 20 (runtime_in host_built) (cell_in host_built))
    as (status & previous & m' & Hrun & [_ Hok] & _ & Hprev);
    [exact (pair_reachable _ host_built_reachable)|vm_compute; reflexivity|vm_compute; reflexivity|].
  assert (status = SALTS_SERVICE_HOST_OK) as ->
    by (apply Hok; split; [|split; [|split]]; vm_compute; reflexivity).
  destruct (Hprev eq_refl) as [-> _]. exists m'. exact Hrun.
Defined.

(** The plugin's store goes last. *)
Lemma drain_outcome_witness :
  exists m' w', salts_service_host_generation_drain (Some 10) (Some 20) host_unscoped.1 host_unscoped.2 =
    Some (SALTS_SERVICE_HOST_OK, m', w') /\ retired 20 m'.
Proof.
  destruct (drain_outcome host_unscoped.1 host_unscoped.2 10 20 (runtime_in host_unscoped)
    (cell_in host_unscoped)) as (status & m' & w' & Hrun & Hcase);
    [exact (pair_reachable _ host_unscoped_reachable)|vm_compute; reflexivity|vm_compute; reflexivity|].
  destruct Hcase as [(_ & _ & _ & Hpos)|(_ & _ & _ & Hres)].
  - exfalso. assert (0 < gn_active_scopes (ce_generation (cell_in host_unscoped))) as Hlt
      by (apply Hpos; [vm_compute; reflexivity|vm_compute; reflexivity|left; vm_compute; reflexivity]).
    vm_compute in Hlt. discriminate Hlt.
  - assert (drain_clears (cell_in host_unscoped) host_unscoped.2 = true) as Hc by (vm_compute; reflexivity).
    rewrite Hc in Hres. destruct Hres as (-> & Hret & _). exists m', w'. split; [exact Hrun|exact Hret].
Defined.

(** Two builds: one succeeds, one gives the lease it took back. *)
Lemma build_outcome_witness :
  (exists g' a' w',
    salts_service_host_generation_build (Some SALTS_SERVICE_HOST_GENERATION_INIT) host_arrays
      (host_build 7) host_arrays host_world = Some (SALTS_SERVICE_HOST_OK, Some g', a', w') /\
    build_done (host_build 7) host_storage host_arrays host_world g' a' w') /\
  (exists g' a' w',
    salts_service_host_generation_build (Some SALTS_SERVICE_HOST_GENERATION_INIT) host_arrays
      bad_build host_arrays host_world = Some (SALTS_SERVICE_HOST_PLUGIN_ERROR, Some g', a', w') /\
    build_failed bad_build host_storage host_arrays host_world g' a' w').
Proof.
  split.
  - destruct (build_outcome SALTS_SERVICE_HOST_GENERATION_INIT host_arrays (host_build 7) host_storage
      host_arrays host_world) as (status & g' & a' & w' & Hrun & _ & Hv & _);
      [reflexivity|exact good_build_fits|apply (hi_registry _ (initial_host_0))|].
    assert ((fun r => r.1.1.1) <$> salts_service_host_generation_build
      (Some SALTS_SERVICE_HOST_GENERATION_INIT) host_arrays (host_build 7) host_arrays host_world =
      Some SALTS_SERVICE_HOST_OK) as Hok by (vm_compute; reflexivity).
    rewrite Hrun in Hok. simpl in Hok. injection Hok as ->. exists g', a', w'. split; [exact Hrun|exact Hv].
  - destruct (build_outcome SALTS_SERVICE_HOST_GENERATION_INIT host_arrays bad_build host_storage
      host_arrays host_world) as (status & g' & a' & w' & Hrun & _ & Hv & _);
      [reflexivity|exact bad_build_fits|apply (hi_registry _ (initial_host_0))|].
    assert ((fun r => r.1.1.1) <$> salts_service_host_generation_build
      (Some SALTS_SERVICE_HOST_GENERATION_INIT) host_arrays bad_build host_arrays host_world =
      Some SALTS_SERVICE_HOST_PLUGIN_ERROR) as Hok by (vm_compute; reflexivity).
    rewrite Hrun in Hok. simpl in Hok. injection Hok as ->. exists g', a', w'. split; [exact Hrun|exact Hv].
Defined.

Lemma recover_outcome_witness :
  exists g' a' w',
    salts_service_host_generation_recover (Some (ce_generation (cell_in host_refused)))
      (ce_arrays (cell_in host_refused)) host_refused.2 = Some (SALTS_SERVICE_HOST_OK, Some g', a', w') /\
    generation_is_clear g' = true.
Proof.
  pose proof (recover_outcome host_refused.1 host_refused.2 20 (cell_in host_refused)
    (pair_reachable _ host_refused_reachable) ltac:(vm_compute; reflexivity) ltac:(vm_compute; reflexivity)
    ltac:(vm_compute; reflexivity)) as Hres.
  cbv zeta in Hres.
  assert (service_host_components_settled (gn_components (ce_generation (cell_in host_refused)))
    (ga_graph (ce_arrays (cell_in host_refused))) = true) as Hset by (vm_compute; reflexivity).
  rewrite Hset in Hres. destruct Hres as (g' & a' & w' & Hrun & _ & Hclear & _).
  exists g', a', w'. split; [exact Hrun|exact Hclear].
Defined.

Lemma release_modules_settles_witness :
  exists w', release_modules (Some (ce_generation (cell_in host_built))) (ga_modules (ce_arrays (cell_in host_built)))
    host_built.2 = Some (CMETA_PLUGIN_OK,
      Some (set_gn_module_count 0 (ce_generation (cell_in host_built))), [zero_module], w').
Proof.
  destruct (release_modules_settles (ce_generation (cell_in host_built))
    (ga_modules (ce_arrays (cell_in host_built))) host_built.2)
    as (f & kept & w' & kept' & Hs & Hk & Hrun & _); [vm_compute; lia|vm_compute; reflexivity|].
  assert ((settle (gn_registry (ce_generation (cell_in host_built)))
             (take (gn_module_count (ce_generation (cell_in host_built)))
                (ga_modules (ce_arrays (cell_in host_built)))) host_built.2).1 = (CMETA_PLUGIN_OK, [])) as Hset
    by (vm_compute; reflexivity).
  rewrite Hs in Hset. injection Hset as -> ->. apply Permutation_nil_r in Hk as ->.
  exists w'. rewrite Hrun. vm_compute. reflexivity.
Defined.

Lemma generation_pins_plugins_witness :
  exists r, registry_impl_of (registry_at (Some 50) host_published.2) = Some r /\
    unload_begin sample_ref r = UnloadReturns CMETA_PLUGIN_BUSY r.
Proof.
  destruct (generation_pins_plugins host_published.1 host_published.2 20 (cell_in host_published) 0
    (mk_module sample_ref (mk_lease sample_ref 1 1) (Some store_manifest)))
    as (r & j & slot & Hr & _ & _ & Hbusy);
    [exact (pair_reachable _ host_published_reachable)|vm_compute; reflexivity|vm_compute; lia|vm_compute; reflexivity|].
  exists r. split; [|exact Hbusy]. rewrite <- Hr. vm_compute. reflexivity.
Defined.

Lemma registry_implements_leases_witness :
  exists lease manifest w', lr_acquire (Some 50) sample_ref host_world =
      (CMETA_PLUGIN_OK, lease, manifest, w') /\ ~ registry_holds (Some 50) lease host_world.
Proof.
  destruct (registry_implements_leases (Some 50) sample_ref host_world)
    as (status & lease & manifest & w' & Hrun & _ & Hres);
    [apply (hi_registry _ initial_host_0)|by vm_compute|].
  assert ((lr_acquire (Some 50) sample_ref host_world).1.1.1 = CMETA_PLUGIN_OK) as Hok by (vm_compute; reflexivity).
  rewrite Hrun in Hok. simpl in Hok. subst status. rewrite bool_decide_true in Hres by reflexivity.
  destruct Hres as (_ & _ & Hnew & _). exists lease, manifest, w'. split; [exact Hrun|exact Hnew].
Defined.
