(* ===== verification/CFlowSamples.v ===== *)
(** A concrete machine, mailbox and instance: the CFlow theorems applied to them,
    and three histories in which the code loses a wake-up.

    The histories are findings: a transition that ends the machine while emitting
    an event does not end the instance, a value action that enters an error state
    takes the downstream waiter and does not invoke it, and so does a value action
    that commits after a close request. *)

From S2P Require Import Prelude CMetaType CMetaFunction CFlowSupport CFlowMachine CFlowMachineReach CFlowMailbox CFlowMailboxTheorems CFlowProgram CFlowInstanceData CFlowInstance CFlowInstanceSafety CFlowInstanceProtocol CFlowInstanceBuild CFlowInstanceTheorems.

(** * A machine *)

Definition trivial_int_traits : cmeta_type_traits := mk_type_traits trivial_traits None None None None None None.

Definition sample_value : cmeta_type_desc :=
  mk_type_desc 600 (Some "value") 4 4 CMETA_T_INTEGER None (Some trivial_int_traits) None.

(** From the running state, event 100 hands a value over and ends (transition of
    priority 7, guarded) or stays (priority 9); event 101 emits an event and ends;
    event 102 hands a value over and fails; event 103 hands a value over and
    stays. *)
Definition sample_states : list cflow_machine_state :=
  [ mk_machine_state 20 (Some sample_value) CFLOW_MACHINE_STATE_DONE;
    mk_machine_state 10 (Some sample_value) CFLOW_MACHINE_STATE_ACTIVE;
    mk_machine_state 30 (Some sample_value) CFLOW_MACHINE_STATE_ERROR ].

Definition sample_events : list cflow_event_type :=
  [ mk_event_type 103 (Some sample_value); mk_event_type 100 (Some sample_value);
    mk_event_type 102 (Some sample_value); mk_event_type 101 (Some sample_value) ].

Definition sample_guards : list cflow_machine_guard :=
  [ mk_machine_guard 200 (Some sample_value) 100 (Some sample_value) CMETA_EFFECT_PURE
      (Z.lor CMETA_PROP_STABLE CMETA_PROP_NO_ALIAS) ].

Definition sample_action (id event : Z) (observation : cflow_machine_action_observation)
    (output_event : Z) : cflow_machine_action :=
  mk_machine_action id (Some sample_value) event (Some sample_value) (Some sample_value)
    CMETA_EFFECT_MAY_FAIL (Z.lor CMETA_PROP_DETERMINISTIC CMETA_PROP_NO_ALIAS) observation
    (Some sample_value) output_event.

Definition sample_actions : list cflow_machine_action :=
  [ sample_action 303 103 CFLOW_MACHINE_ACTION_VALUE 0;
    sample_action 300 100 CFLOW_MACHINE_ACTION_VALUE 0;
    sample_action 302 102 CFLOW_MACHINE_ACTION_VALUE 0;
    sample_action 301 101 CFLOW_MACHINE_ACTION_EVENT 100 ].

Definition sample_transitions : list cflow_machine_transition :=
  [ mk_machine_transition 10 103 0 303 10 1;
    mk_machine_transition 10 100 0 300 10 9;
    mk_machine_transition 10 100 200 300 20 7;
    mk_machine_transition 10 101 0 301 20 1;
    mk_machine_transition 10 102 0 302 30 1 ].

Definition sample_definition : cflow_machine_definition :=
  mk_machine_definition (Some sample_states) 3 10 (Some sample_events) 4 (Some sample_guards) 1
    (Some sample_actions) 4 (Some sample_transitions) 5.

Definition sample_machine : cflow_machine :=
  match cflow_machine_build (fun _ => true) (Some (mk_machine None)) (Some sample_definition) with
  | Some (_, Some machine) => machine
  | _ => mk_machine None
  end.


(** * An instance *)

(** Guard 1 always holds; action 2 copies the state and observes sevens; the
    executor accepts every task and allocation succeeds. *)
#[local] Instance sample_environment : MachineEnvironment unit := {|
  env_guard fn user state event enabled error u := (mk_guard_result true true error, u);
  env_action fn user state event target observation error u :=
    (mk_action_result true target (replicate (length (default [] observation)) 7) error, u);
  env_commit_hook index begin u := u;
  env_boundary_hook u := u;
  env_try_post u := (CFLOW_ADMISSION_ACCEPTED, u);
  env_malloc u := (true, u);
|}.

Definition sample_executor : executor_view := mk_executor_view true true false false true.

Definition sample_config : cflow_machine_instance_config :=
  {| mc_machine := Some sample_machine;
     mc_initial_state := Some [1; 2; 3; 4];
     mc_output_type := Some sample_value;
     mc_guards := Some [mk_guard_binding 200 (Some 1) 0];
     mc_guard_count := 1;
     mc_actions := Some [mk_action_binding 302 (Some 2) 0; mk_action_binding 300 (Some 2) 0;
                         mk_action_binding 301 (Some 2) 0; mk_action_binding 303 (Some 2) 0];
     mc_action_count := 4;
     mc_mailbox_capacity := 2;
     mc_executor := Some sample_executor |}.

(** Zeroed memory. *)
Definition zeros (n : nat) : list Z := replicate n 0.

Definition sample_storage : instance_storage :=
  match cflow_machine_instance_init_internal (fun _ => true) zeros 700 704 true false
          (Some (mk_machine_instance None)) (Some sample_config) with
  | Some (_, Some (mk_machine_instance (Some storage))) => storage
  | _ => mk_instance_storage
      (mk_instance_binding 0 (mk_machine None) [] [] None false 0 0 0 0 false false)
      (initial_impl (mk_machine_state 0 None CFLOW_MACHINE_STATE_ACTIVE) [] [] [] []) (mk_mailbox None)
  end.

Definition sample_impl : instance_binding := is_binding sample_storage.
Definition world_0 : machine_world unit := instance_world sample_storage ().

Definition sample_event (id : Z) : cflow_event_view :=
  mk_event_view id (Some sample_value) (Some [9; 9; 9; 9]).

(** The waker of a downstream consumer. *)
Definition consumer : cflow_waker := mk_waker (Some 50) 51.

(** * Findings *)

(** The world after a call or a task that ran alone. *)
Definition after {A} (p : prog (machine_world unit) A) (w : machine_world unit) : machine_world unit :=
  match run p w with Some (_, w) => w | None => w end.

Definition taken (w : machine_world unit) : machine_world unit := default w (take_task w).

Definition after_task (w : machine_world unit) : machine_world unit :=
  after (machine_executor_task sample_impl) (taken w).

Definition resume_call : prog (machine_world unit) unit := _ ← machine_resume sample_impl; Ret tt.
Definition arm_call : prog (machine_world unit) unit := _ ← machine_wait_arm sample_impl consumer; Ret tt.
Definition send_call (id : Z) : prog (machine_world unit) unit :=
  _ ← cflow_machine_instance_try_send sample_impl (Some (sample_event id)); Ret tt.
Definition close_call : prog (machine_world unit) unit := cflow_machine_instance_close sample_impl.

(** A resumption finds no event and arms the mailbox, and the consumer sleeps. *)
Definition world_waiting : machine_world unit :=
  after arm_call (after_task (after resume_call world_0)).

Definition world_sent (id : Z) : machine_world unit := after (send_call id) world_waiting.

(** Three calls came back; no task is running. *)
Definition rest (calls : nat) (w : machine_world unit) : system (machine_world unit) :=
  mk_system None (replicate calls (Ret tt)) w.

Lemma sample_send_readable id e :
  Some (sample_event id) = Some e ->
  call_readable (machine_rows mi_events (ib_machine sample_impl)) (CallSend e).
Proof.
  intros [= <-]. intros row payload Hrow _ [= <-].
  repeat (apply elem_of_cons in Hrow as [->|Hrow]; [by vm_compute|]). by apply elem_of_nil in Hrow.
Qed.

Lemma run_after (p : prog (machine_world unit) unit) w :
  is_null (run p w) = false -> run p w = Some (tt, after p w).
Proof. unfold after. by destruct (run p w) as [[[] w']|]. Qed.

Lemma client_rest n p w :
  instance_client sample_impl p -> is_null (run p w) = false ->
  rtc (instance_step sample_impl) (rest n w) (rest (S n) (after p w)).
Proof.
  intros Hc [[[] w'] Hrun]%is_null_false. unfold rest, after. rewrite replicate_S_end, Hrun. by eapply client_calls.
Qed.

Lemma task_rest n w :
  (0 <? mw_posted w)%nat = true -> is_null (run (machine_executor_task sample_impl) (taken w)) = false ->
  rtc (instance_step sample_impl) (rest n w) (rest n (after_task w)).
Proof.
  unfold rest, after_task, after, taken. intros Hp%Nat.ltb_lt [[[] w'] Hrun]%is_null_false.
  destruct (take_task w) as [w1|] eqn:Ht; [|unfold take_task in Ht; by destruct (mw_posted w); [lia|]].
  cbn [default from_option id] in *. rewrite Hrun. by eapply task_starts.
Qed.

Lemma reach_on s1 s2 :
  instance_reachable sample_storage () s1 -> rtc (instance_step sample_impl) s1 s2 ->
  instance_reachable sample_storage () s2.
Proof. unfold instance_reachable. intros H1 H2. by etrans. Qed.

Lemma waiting_reachable : instance_reachable sample_storage () (rest 2 world_waiting).
Proof.
  unfold instance_reachable. change (mk_system None [] _) with (rest 0 world_0).
  etrans; [apply (client_rest 0 resume_call world_0); [apply client_resume|by vm_compute]|].
  etrans; [apply (task_rest 1 (after resume_call world_0)); by vm_compute|].
  apply (client_rest 1 arm_call (after_task (after resume_call world_0))); [apply client_wait_arm|by vm_compute].
Qed.

Lemma sent_reachable id :
  is_null (run (send_call id) world_waiting) = false ->
  instance_reachable sample_storage () (rest 3 (world_sent id)).
Proof.
  intros Hrun. eapply reach_on; [apply waiting_reachable|].
  exact (client_rest 2 (send_call id) world_waiting (client_try_send _ _ (sample_send_readable id)) Hrun).
Qed.

(** The consumer sleeps: its waker is armed. *)
Definition consumer_waits (w : machine_world unit) : Prop :=
  in_downstream_waiter (mw_instance w) = consumer /\ mw_woken w = [].

Definition consumer_forgotten (w : machine_world unit) : Prop :=
  in_downstream_waiter (mw_instance w) = zero_waker /\ mw_woken w = [].

(** A transition into a final state whose action emits an event leaves the
    instance without an answer: the machine is in its final state, the mailbox is
    cancelled and no task is posted, but the instance is not done and the consumer
    sleeps on. *)
Example event_into_final_state_sleeps :
  exists s, instance_reachable sample_storage () s /\ quiescent s /\
    let w := sy_world s in
    mw_posted w = 0%nat /\ kind_is CFLOW_MACHINE_STATE_DONE (in_state (mw_instance w)) = true /\
    in_done (mw_instance w) = false /\ mailbox_cancelled (mw_mailbox w) /\ consumer_waits w.
Proof.
  exists (rest 3 (after_task (world_sent 101))). split; [|split].
  - eapply reach_on; [apply (sent_reachable 101); by vm_compute|].
    apply (task_rest 3 (world_sent 101)); by vm_compute.
  - split; [done|]. by repeat constructor.
  - split_and!; try by vm_compute. intros m Hm. vm_compute in Hm. by injection Hm as <-.
Qed.

(** A value action that enters an error state takes the waiter of the consumer and
    invokes nobody: the instance ended, and the consumer is never told. *)
Example value_into_error_state_loses_wake :
  exists s1 s2, instance_reachable sample_storage () s1 /\ consumer_waits (sy_world s1) /\
    rtc (instance_step sample_impl) s1 s2 /\ quiescent s2 /\
    in_done (mw_instance (sy_world s2)) = true /\ mw_posted (sy_world s2) = 0%nat /\
    consumer_forgotten (sy_world s2).
Proof.
  exists (rest 3 (world_sent 102)), (rest 3 (after_task (world_sent 102))).
  split; [apply (sent_reachable 102); by vm_compute|]. split; [by vm_compute|].
  split; [apply (task_rest 3 (world_sent 102)); by vm_compute|].
  split; [split; [done|by repeat constructor]|]. by vm_compute.
Qed.

(** The worker's task up to the action of the event, and the world then. *)
Definition interrupted : prog (machine_world unit) unit * machine_world unit :=
  default (Ret tt, world_0) (run_for 8 (machine_executor_task sample_impl) (taken (world_sent 103))).

Lemma interrupted_runs :
  run_for 8 (machine_executor_task sample_impl) (taken (world_sent 103)) =
  Some (fst interrupted, snd interrupted).
Proof.
  assert (is_null (run_for 8 (machine_executor_task sample_impl) (taken (world_sent 103))) = false) as H
    by by vm_compute.
  unfold interrupted. by destruct (run_for _ _ _) as [[p w]|].
Qed.

Definition world_closed : machine_world unit := after close_call (snd interrupted).
Definition world_ended : machine_world unit := after (fst interrupted) world_closed.

(** A close request that comes while a value action runs: the commit takes the
    waiter of the consumer twice, and the second, empty one is invoked. *)
Example close_during_value_loses_wake :
  exists s1 s2, instance_reachable sample_storage () s1 /\ consumer_waits (sy_world s1) /\
    rtc (instance_step sample_impl) s1 s2 /\ quiescent s2 /\
    in_done (mw_instance (sy_world s2)) = true /\ mw_posted (sy_world s2) = 0%nat /\
    consumer_forgotten (sy_world s2).
Proof.
  exists (rest 3 (world_sent 103)), (rest 4 world_ended).
  split; [apply (sent_reachable 103); by vm_compute|]. split; [by vm_compute|].
  split; [|split; [split; [done|by repeat constructor]|by vm_compute]].
  eapply rtc_l; [apply (step_start _ _ _ _ _ (taken (world_sent 103))); by vm_compute|].
  etrans; [apply (task_advances _ _ _ 8 _ _ _ _ _ interrupted_runs)|].
  etrans; [apply (client_calls _ _ _ _ _ close_call _ world_closed (client_close _)), run_after; by vm_compute|].
  etrans; [apply (task_runs _ _ _ _ (fst interrupted) _ world_ended), run_after; by vm_compute|].
  apply rtc_once, step_finish.
Qed.

(** * The theorems on these inputs *)

(** Splits a membership in a concrete list into its rows. *)
Ltac each_row H :=
  repeat (apply elem_of_cons in H as [->|H]); [..|by apply elem_of_nil in H].

Lemma sample_definition_readable : definition_readable sample_definition.
Proof. split; split; by vm_compute. Qed.

Lemma sample_build :
  cflow_machine_build (fun _ => true) (Some (mk_machine None)) (Some sample_definition) =
  Some (CFLOW_MACHINE_OK, Some sample_machine).
Proof. vm_compute. reflexivity. Qed.

Lemma zeros_length n : length (zeros n) = n.
Proof. apply length_replicate. Qed.

Lemma sample_built : exists m, machine_built sample_machine m /\ machine_perm (definition_rows sample_definition) m.
Proof. eapply build_is_built; [apply sample_definition_readable|apply sample_build]. Qed.

Lemma sample_types m : m_impl sample_machine = Some m -> machine_types m (Some sample_value).
Proof.
  intros Hm. vm_compute in Hm. injection Hm as <-. split.
  - intros s Hs. each_row Hs; by vm_compute.
  - intros e He. each_row He; by vm_compute.
  - by vm_compute.
  - intros a e Ha He _. each_row Ha; each_row He; done.
Qed.

Lemma sample_config_readable m : m_impl sample_machine = Some m -> config_readable m sample_config.
Proof.
  intros Hm. vm_compute in Hm. injection Hm as <-. split.
  - intros l [= <-]. by vm_compute.
  - intros l [= <-]. by vm_compute.
  - intros value s [= <-] Hs _. each_row Hs; by vm_compute.
Qed.

Lemma sample_actions_in_bounds : actions_in_bounds.
Proof.
  intros fn user state event target observation error u. simpl. split; [done|].
  intros o ->. simpl. apply length_replicate.
Qed.

Lemma sample_started :
  instance_started (fun _ => true) (fun _ => true) zeros 700 704 true false
    sample_definition sample_machine sample_config sample_storage.
Proof.
  split.
  - apply zeros_length.
  - apply sample_definition_readable.
  - apply sample_build.
  - done.
  - by eexists.
  - apply sample_types.
  - apply sample_config_readable.
  - vm_compute. reflexivity.
  - apply sample_actions_in_bounds.
Qed.

(** ** Machines *)

Lemma machine_build_exact_witness :
  exists status machine,
    cflow_machine_build (fun _ => true) (Some (mk_machine None)) (Some sample_definition) =
      Some (status, Some machine) /\
    (status = CFLOW_MACHINE_OK ->
       definition_admissible sample_definition /\ machine_wf (definition_rows sample_definition) /\
       exists impl, m_impl machine = Some impl /\ machine_sorted impl /\
         machine_perm (definition_rows sample_definition) impl).
Proof.
  destruct (machine_build_exact (fun _ => true) sample_definition sample_definition_readable)
    as (status & machine & H1 & H2 & _). by exists status, machine.
Defined.

(** ** Mailboxes *)

Definition sample_calls : list mailbox_call :=
  [ CallArm consumer; CallSend (sample_event 100); CallSend (sample_event 103);
    CallSend (sample_event 100); CallReceive 704 4; CallCancel ].

Lemma sample_calls_readable : Forall (call_readable sample_events) sample_calls.
Proof.
  repeat constructor; intros row payload Hrow Hid [= <-]; each_row Hrow; by vm_compute.
Qed.

Lemma sample_events_range row : row ∈ sample_events -> type_in_range (et_payload_type row).
Proof. intros Hrow. each_row Hrow; by vm_compute. Qed.

Lemma sample_mailbox_setting cs :
  Forall (call_readable sample_events) cs -> mailbox_setting zeros sample_events cs.
Proof. split; [apply zeros_length|apply sample_events_range|done]. Qed.

Definition sample_mailbox : cflow_mailbox_impl :=
  match cflow_mailbox_init (fun _ => true) zeros (Some (mk_mailbox None)) (Some sample_events) 4 2 with
  | Some (_, Some (mk_mailbox (Some m))) => m
  | _ => mk_mailbox_impl [] [] [] 0 0 0 0 0 0 0 0 0 0 0 0 0 CFLOW_MAILBOX_TERMINAL_OPEN zero_waker
  end.

Lemma sample_mailbox_init :
  cflow_mailbox_init (fun _ => true) zeros (Some (mk_mailbox None)) (Some sample_events)
    (length sample_events) 2 = Some (CFLOW_MAILBOX_OK, Some (mk_mailbox (Some sample_mailbox))).
Proof. vm_compute. reflexivity. Qed.

Lemma mailbox_init_exact_witness :
  exists status mailbox,
    cflow_mailbox_init (fun _ => true) zeros (Some (mk_mailbox None)) (Some sample_events)
      (length sample_events) 2 = Some (status, Some mailbox).
Proof.
  destruct (mailbox_init_exact (fun _ => true) zeros sample_events 2 zeros_length sample_events_range)
    as (status & mailbox & H & _). by exists status, mailbox.
Defined.

Lemma mailbox_refines_fifo_witness :
  exists m,
    run_mailbox_calls sample_calls sample_mailbox =
      Some (fst (fifo_calls sample_calls (fifo_empty sample_events 2)), m) /\
    mailbox_rel m (snd (fifo_calls sample_calls (fifo_empty sample_events 2))) /\
    cflow_mailbox_get_stats (Some (mk_mailbox (Some m))) =
      Some (fifo_stats sample_mailbox (snd (fifo_calls sample_calls (fifo_empty sample_events 2)))).
Proof.
  exact (mailbox_refines_fifo (fun _ => true) zeros sample_events 2 sample_calls
    (sample_mailbox_setting _ sample_calls_readable) sample_mailbox sample_mailbox_init).
Defined.

Definition sample_run : list mailbox_answer * cflow_mailbox_impl :=
  default ([], sample_mailbox) (run_mailbox_calls sample_calls sample_mailbox).

Lemma sample_mailbox_run :
  mailbox_run (fun _ => true) zeros sample_events 2 sample_calls (fst sample_run) (snd sample_run).
Proof. exists sample_mailbox. split; [apply sample_mailbox_init|]. vm_compute. reflexivity. Qed.

Lemma mailbox_accounting_exact_witness :
  st_pending (stats_locked (snd sample_run)) = 0%nat /\
  st_accepted (stats_locked (snd sample_run)) =
    st_received (stats_locked (snd sample_run)) + st_cancelled (stats_locked (snd sample_run)) + 0.
Proof.
  destruct (mailbox_accounting_exact (fun _ => true) zeros sample_events 2 sample_calls _ _
    (sample_mailbox_setting _ sample_calls_readable) sample_mailbox_run) as (H1 & _ & H3).
  split; [exact H1|apply H3; by vm_compute].
Defined.

Definition armed_mailbox : cflow_mailbox_impl := set_mb_waiter consumer sample_mailbox.

Lemma armed_run :
  mailbox_run (fun _ => true) zeros sample_events 2 [CallArm consumer] [Armed true zero_waker] armed_mailbox.
Proof. exists sample_mailbox. split; [apply sample_mailbox_init|]. vm_compute. reflexivity. Qed.

Lemma mailbox_wakes_waiter_witness :
  exists a m, run_mailbox_call (CallSend (sample_event 100)) armed_mailbox = Some (a, m).
Proof.
  destruct (mailbox_wakes_waiter (fun _ => true) zeros sample_events 2 [CallArm consumer]
    [Armed true zero_waker] armed_mailbox (CallSend (sample_event 100))) as (_ & a & m & H & _).
  - apply sample_mailbox_setting. by repeat constructor.
  - apply armed_run.
  - by eexists.
  - done.
  - intros row payload Hrow Hid [= <-]. each_row Hrow; by vm_compute.
  - by exists a, m.
Defined.

(** ** Instances *)

Lemma instance_init_exact_witness :
  exists status h,
    cflow_machine_instance_init_internal (fun _ => true) zeros 700 704 true false
      (Some (mk_machine_instance None)) (Some sample_config) = Some (status, Some h).
Proof.
  destruct sample_built as (m & Hb & _). pose proof (bu_impl _ _ Hb) as Hm.
  destruct (instance_init_exact (fun _ => true) zeros 700 704 true false sample_machine m sample_config
    zeros_length Hb eq_refl (ex_intro _ sample_value eq_refl) (sample_types m Hm)
    (sample_config_readable m Hm)) as (status & h & H & _). by exists status, h.
Defined.

Lemma instance_never_stuck_witness : system_not_stuck (rest 3 (world_sent 103)).
Proof.
  eapply instance_never_stuck; [apply sample_started|]. apply sent_reachable. by vm_compute.
Defined.

Definition ended : system (machine_world unit) := rest 3 (after_task (world_sent 100)).

Lemma ended_reachable : instance_reachable sample_storage () ended.
Proof.
  eapply reach_on; [apply (sent_reachable 100); by vm_compute|].
  apply (task_rest 3 (world_sent 100)); by vm_compute.
Qed.

Lemma instance_accounting_exact_witness :
  exists stats,
    run (cflow_machine_instance_get_stats (is_binding sample_storage)) (sy_world ended) =
      Some (Some stats, sy_world ended) /\
    ist_pending stats = 0%nat.
Proof.
  destruct (instance_accounting_exact (fun _ => true) (fun _ => true) zeros 700 704 true false
    sample_definition sample_machine sample_config sample_storage () ended sample_started ended_reachable)
    as (stats & H1 & _ & H3).
  exists stats. split; [exact H1|]. apply H3; [split; [done|by repeat constructor]|by vm_compute].
Defined.

Lemma instance_terminal_final_witness :
  in_done (mw_instance (sy_world (rest 4 (after close_call (after_task (world_sent 100)))))) = true.
Proof.
  assert (rtc (instance_step (is_binding sample_storage)) ended
    (rest 4 (after close_call (after_task (world_sent 100))))) as Hsteps.
  { apply (client_rest 3 close_call (after_task (world_sent 100))); [apply client_close|by vm_compute]. }
  destruct (instance_terminal_final (fun _ => true) (fun _ => true) zeros 700 704 true false
    sample_definition sample_machine sample_config sample_storage () ended _ sample_started ended_reachable
    Hsteps) as (_ & H & _).
  apply H. by vm_compute.
Defined.

Lemma done_instance_answers_witness :
  exists kind value error,
    run (machine_resume (is_binding sample_storage)) (sy_world ended) =
      Some (Resumed kind value error, sy_world ended).
Proof.
  destruct (done_instance_answers (fun _ => true) (fun _ => true) zeros 700 704 true false
    sample_definition sample_machine sample_config sample_storage () ended sample_started ended_reachable)
    as (kind & value & error & H & _); [by vm_compute|].
  by exists kind, value, error.
Defined.

Lemma select_transition_exact_witness :
  exists selected error,
    run (select_transition sample_impl 100) world_0 = Some ((selected, error), world_0).
Proof.
  destruct sample_built as (m & Hb & _).
  destruct (select_transition_exact (Henv := sample_environment) sample_impl (fun _ _ _ _ => true)
    (fun _ _ _ _ _ _ => eq_refl) m 100 world_0 Hb) as (selected & error & H & _); [|by exists selected, error].
  pose proof (bu_impl _ _ Hb) as Hm. vm_compute in Hm. injection Hm as <-.
  repeat constructor; intros Hne; try done; by eexists _, _, _; vm_compute.
Defined.
